(* ===== verification/_CoqProject ===== *)
-Q . S2P
Prelude.v
Bytes.v
Text.v
Framing.v
Endpoint.v
DirectPath.v
Box.v
Transport.v
Derp.v
DerpSession.v
HttpUpgrade.v
Http2.v
Types.v
PathManager.v
PeerDirectory.v
Noise.v
Protocol.v
StateStore.v
Json.v
ControlCodec.v
Core.v
ControlSession.v
RouteManager.v
RouteSafety.v
HostAddress.v
AddHost.v
Disco.v
Stun.v
DirectLink.v
Ownership.v
TsRelay.v
WgxBackend.v
WgxRoute.v
WireGuardConfig.v
WireGuardTunnel.v
Double.v
Telemetry.v
FrameQueue.v
VideoDecoder.v
CText.v
Data.v
Xml.v
HttpClient.v
Capabilities.v
GameStream.v
Pairing.v
Launch.v
Jansson.v
JsonFile.v
HostRecords.v
WakeOnLan.v
NetBirdProvider.v
StreamProfiles.v
ControlKey.v
AuthKey.v
FileLog.v
TailscaleProvider.v
LaunchArgs.v
RomFs.v
Nca.v
Forwarder.v
InputManager.v
HostShortcuts.v
ClientSession.v
SessionSafety.v
