(* ===== verification/Prelude.v ===== *)
(** * Artemis-Switch: the remote-access stack, verified

    Artemis is a Moonlight game-streaming client for the Nintendo Switch and
    other platforms. Its own core logic is the remote-access stack under
    [src/app/src/remote_access], a user-space Tailscale node (control plane, relay
    and direct paths) with the manager that leases tunnel routes to the game
    stream, the frame pipeline between the decoder and the renderer under
    [src/app/src/streaming], the protocol client under
    [src/app/src/libgamestream] that connects to a host, pairs with it and launches
    its applications, and what it keeps on disk. This library models that code and
    proves it; the rest of the program (views, renderers) is interface code around
    third-party libraries and is not modelled.

    ** Parts and files

    Shared base
    - [Prelude.v]: bytes and machine integers, the [result] type of calls that
      report through [std::string* error], lemmas on lists and lengths.
    - [Bytes.v]: big- and little-endian numbers. [Text.v]: [std::string_view]
      operations, [std::from_chars], [std::to_string].
    - [Framing.v]: the interface [FrameDecoder] of the classes that cut
      length-prefixed frames from a byte stream, its laws, and the reassembly
      theorem proved from the laws; instances in [Derp.v], [Http2.v],
      [Protocol.v] and [ControlCodec.v]. [Transport.v]: the stream transport a
      session reads and writes ([TailscaleTransport.hpp]), with a scripted
      instance. [Json.v]: what the code uses of [nlohmann::json].
    - [Types.v]: [TailscaleTypes.hpp] and the data of [IRemoteAccessProvider.hpp].

    Direct paths
    - [Endpoint.v], [DirectPath.v]: [DirectPath] of [TailscaleDisco.cpp]:
      candidate endpoints, pings in flight, the best answered path.
    - [Disco.v]: the sealed disco messages. [Stun.v]: STUN requests and
      responses. [Box.v]: [TailscaleBox.cpp], NaCl's crypto_box from its parts.
    - [DirectLink.v]: the direct half of [TailscaleWgxRoute.cpp]: the socket
      shared by STUN, disco and WireGuard, its thread, and what the other threads
      do to its state, as steps that interleave.
    - [PathManager.v]: which path (direct or relay) a peer is shown with.

    Relays: [Derp.v] (frames), [HttpUpgrade.v] (the HTTP upgrades of DERP and of
    TS2021), [DerpSession.v] (handshake, sending, receiving), [Protocol.v] (the
    first-generation helpers of [TailscaleProtocol.cpp]).

    Data path: [WgxBackend.v] ([RealWgxBackend]: tunnel, peer, DERP dialing with
    fallback, the reader thread, egress, the loopback ports, the order of the
    calls on the wgx library) and [WgxRoute.v] ([TailscaleWgxRoute] over the
    interface [IWgxBackend], with the simulated and the real backend as
    instances).

    Control plane: [Noise.v] (the TS2021 handshake and record layer),
    [Http2.v] (frames, flow control, header encoding), [ControlCodec.v] (typed
    keys, netmap frames, [MapCodec::decode]), [PeerDirectory.v] (netmap updates,
    route resolution), [StateStore.v] (the identity file and its crash safety),
    [ControlSession.v] (the connection: upgrade, handshake, registration, the
    netmap poll), [ControlKey.v] ([TailscaleControlKey.cpp]: the request for the
    server's key).

    [Ownership.v] is the interface [Uses] of the components that own outside
    resources: what a call needs open, what it leaves open, and the rule that
    lets a proof about one operation ignore the rest. [TsRelay.v]
    ([relay/TsLwipRelay.cpp], the loopback relay between sockets, lwIP and wg-nx),
    [FrameQueue.v] and [ClientSession.v] (tunnel routes) are its instances.

    Engine: [Core.v] ([TailscaleCore.cpp]), the worker thread and the calls of the
    other threads as steps over one state: identity, sessions and reconnects,
    home relay region, overlay route, stop. [AuthKey.v] ([TailscaleAuthKeyFile.cpp]:
    where a login key is looked for) and [TailscaleProvider.v]
    ([providers/TailscaleProvider.cpp]: the provider over the engine, whose threads
    run between and during its calls).

    Standalone WireGuard: [WireGuardConfig.v] ([vpn/WireGuardConfig.cpp]: the
    parser of wg-quick files, validation, AllowedIPs) and [WireGuardTunnel.v]
    (the tunnel object of [vpn/wg_nx_real.cpp], the manager and the provider).

    Frame pipeline: [Double.v] (IEEE 754 doubles, executable), [Telemetry.v]
    ([FramePipelineTelemetry.hpp] and the lead of [PresentDeadline.hpp]),
    [FrameQueue.v] ([AVFrameHolder.cpp]: pool, queue and both pacing paths) and
    [VideoDecoder.v] ([FFmpegVideoDecoder.cpp]: the frames of the decoder, what a
    decode unit and a draw do to the queue and the telemetry).

    Game stream client: [CText.v] (C strings and number parsing), [Data.v]
    ([crypto/Data.cpp], [MbedTLSCryptoManager.cpp]), [Xml.v] ([xml.cpp] over the
    events of expat), [HttpClient.v] ([http.cpp] over a libcurl transfer),
    [Capabilities.v] ([host/HostCapabilities.cpp], [HostIdentityProbe.cpp],
    [CodecCapabilities.cpp], [FrameRateOptions.cpp]) and [GameStream.v] ([client.cpp]:
    every operation, in a monad of the worker's state whose calls may also end the
    process or leave a buffer). [Pairing.v] and [Launch.v] prove what pairing,
    connecting and launching do.

    The application's client: [HostRecords.v] ([host/HostEndpoints.hpp], the hosts
    of [utils/Settings.cpp] and how they are matched and merged) and
    [ClientSession.v] ([streaming/GameStreamClient.cpp]: every call is a job on a
    worker and a closure on the interface's thread, and the jobs of different
    calls interleave); [SessionSafety.v] proves what holds in every interleaving.

    Settings on disk: [Jansson.v] (the jansson calls of the stores; its text is a
    parameter), [JsonFile.v] (writing a file at once or in place, and the interface
    [Store]), [WakeOnLan.v] ([WakeOnLanTargets.cpp], [WakeOnLanOverridesStore.cpp],
    [WakeOnLanManager.cpp]) and [StreamProfiles.v] ([StreamConfigProfileStore.cpp]).
    [FileLog.v]: the diagnostic log ([RotatingFileLog.cpp]) and what it blanks.
    [LaunchArgs.v]: launch requests ([main_args.cpp]) and the arguments of forwarders
    ([forwarder_maker.cpp]). [RomFs.v], [Nca.v] and [Forwarder.v]: the forwarders that
    file installs - the image with the arguments and its hash tables, the archives with
    their hash tree and headers, the patch of the program's meta data, and the calls of
    the console's services ([installForwarder]).

    Input: [InputManager.v] ([streaming/InputManagerLegacy.inc] and the policies of
    [features/input]: controllers, batteries, mouse buttons, touches, keys and motion as
    calls to the streaming library, and the host's view of them) and [HostShortcuts.v]
    ([HostKeyboardShortcuts.cpp] and the shortcuts in [InputSettingsStore.cpp]).

    Routes: [RouteManager.v] and [RouteSafety.v] ([RemoteAccessManager.cpp]: its
    threads and mutexes as a step relation, its invariant, and an executable
    scheduler), [HostAddress.v] (host entries, [RemoteRouting.cpp],
    [RemoteRouteLease.hpp]), [AddHost.v] (the Add Host screen's filter),
    [NetBirdProvider.v] ([providers/NetBirdProvider.cpp]: its operations, the pump
    thread and the refreshing workers as programs that interleave).

    ** How they interact

    [ControlCodec.decode] produces the peers and deltas that
    [PeerDirectory.replace] and [apply] take; [resolveIPv4] turns an address into
    a route target, which [RouteManager] activates with a provider and
    [HostAddress] leases to a connection. [ControlSession] drives [Noise],
    [Http2] and [ControlCodec]; the engine of [Core] drives a control session and
    an overlay route, both of which it sees through calls whose answers the
    model leaves open ([control_call], [overlay_call]): its theorems hold for
    every answer, and [answer_message_ok] shows that the messages [Core] assumes
    well formed are those [ControlSession.poll] returns.
    The route of
    [WgxRoute] implements that overlay ([route_implements_overlay]) over any
    backend with the laws of [IWgxBackend]; over the real one its runs are runs of
    [WgxBackend] ([real_route_runs]), whose steps contain those of [DirectLink].
    [ClientSession] runs the operations of [GameStream] on its records, and holds
    the leases of [HostAddress] by host.
    [NetBirdProvider] and [TailscaleProvider] are the providers whose operations
    [RouteManager] leaves open; [TailscaleProvider] starts and stops engines of
    [Core], with a key of [AuthKey], and what its engine does are steps of [Core].
    [WakeOnLan] wakes the hosts of [HostRecords] at the targets its store keeps in a file
    of [JsonFile]; [StreamProfiles] writes one in place. [Forwarder] puts the arguments of
    [LaunchArgs] into an image of [RomFs] and that into the archives of [Nca].
    [InputManager] sends the shortcuts [HostShortcuts] names.
    Disco messages go through [Box] and feed [DirectPath] and [PathManager]; DERP
    frames carry the same packets when there is no direct path.

    ** Conventions

    A method is a function from the object's state to its result and new state; a
    [std::mutex] that guards a whole method makes it one step. Where the order of
    an unordered map is visible the function takes the order, and the theorems
    hold for every permutation. A [std::string], a span and a vector of bytes are
    lists of bytes; numbers are [Z], with the conversions written out ([u8],
    [u16], [u32], [u64], [i32]). Time points are nanoseconds.

    The host [GameStream] talks to is a strategy: what it answers may depend on
    every request before, and the user may cancel at any look at the token.

    Code outside the repository is a parameter: Monocypher and the platform's
    cryptography through the classes of [Box.v], [Noise.v], [DerpSession.v] and
    [StateStore.v] (their laws are that decryption inverts encryption, the two
    sides of a key agreement agree, and outputs have their documented sizes);
    sockets through [Transport.v]; JSON through [Json.v] and the class of
    [Jansson.v] (its law is that a text it wrote is read back); the file system's
    failures through an oracle in [StateStore.v] and [JsonFile.v]. Every theorem with such a
    hypothesis is applied to a concrete instance in its witness.

    ** What is proved

    - Framing: however a transport cuts the stream into chunks, the frames read
      are the frames written, and the buffers stay under their caps (DERP, HTTP/2,
      netmap, and the first-generation decoder).
    - Parsers: no parser of network input reads outside its packet; STUN, disco
      and the HTTP upgrades accept exactly what they specify; encoders and
      decoders are inverse (disco, HTTP/2, base64, typed keys, endpoints, host
      entries); netmap updates are bounded and rejected ones change nothing.
    - Security of the session protocols as functional statements: a DERP or Noise
      peer without the keys is refused, a record that fails to authenticate closes
      the session, the two Noise sides derive the same keys, and the record layer
      delivers the plaintexts in order.
    - State: netmap deltas are all or nothing, route resolution is longest prefix
      with online peers preferred, direct paths are used only after an answered
      ping, shown paths follow their specification for every history of calls.
    - Sessions: [connect] is all or nothing; [poll] delivers the netmap messages
      whose last DATA frame ends with them, in order, whatever comes between their
      pieces.
    - Engine: the home region control knows is the one recorded; one route runs
      at a time; a login key is offered once; stop ends the worker within six of
      its steps; a worker that ends on its own says so.
    - Data path: a packet leaves on a direct path only to an endpoint where the
      peer has answered a ping of the present path; otherwise it is written once to
      an authenticated relay under the peer's key, and lost when that write fails;
      WireGuard is fed only the peer's packets; the wgx library is
      used in the order its header demands, in every interleaving.
    - WireGuard: a configuration file is read back; AllowedIPs let through what
      they cover and nothing else; the manager's status follows the tunnel, and
      wg-nx is called in its order after any calls.
    - Relay: in every interleaving of its loop, lwIP's callbacks and the packets
      from WireGuard, sockets (the wake sockets too), PCBs and packet slots are used
      while open and closed once; packets keep their order; no wake-up is lost, unless
      a callback straddles the end of a stop.
    - Frame pipeline: through orderly calls every frame is owned by one place and
      freed once; frames are shown in order and counted; the queue is bounded; the
      oldest frame keeps its time until it is shown or the queue overflows; no
      statistic becomes NaN or negative.
    - Game stream: pairing, connecting and launching come back for every host
      (or, in pairing, end the process on a malformed challenge), after a bounded
      number of requests; a pairing that fails or is cancelled ends with the
      request to forget the client, and sees a cancellation at every request; a
      launch succeeds when the host's reply grants it; the pairing messages are those the protocol
      asks for; searches of a reply find what the document says; a response stays
      under its limit; extensions are offered to the hosts that have them.
    - Client: every call is answered once, after a bounded number of steps, unless a
      pairing or a wake request ends the process; tunnel routes are held in one place and given back once; addresses are tried in
      order; a cancelled pairing leaves nothing of its connection behind, at the host
      or here; saving a host loses no address.
    - Persistence: every file state [save] passes through can be recovered from, when
      its bytes reach the file and the old file was intact; a
      store written at once holds the old or the new settings, or is away with its
      backup beside it; profiles and wake-up targets come back as they were saved.
    - Wake-ups: the magic packet goes to every target once, the first success
      counts, and every socket is closed.
    - Launches: a link or a forwarder's arguments are read back, and the first host of
      the list they stand for is started.
    - Forwarders: the files of an image are found by the file system's own lookup; an
      archive's header decrypts, its sections follow one another and every block has its
      hash; whatever the console answers, an installation leaves no service open and
      deletes a title only when its successor is registered.
    - Input: after any frames, drops, sessions and events the host's controllers are what
      the manager remembers of them; a flag is sent exactly while its button is down;
      a drop leaves no controller, touch or key of the manager held; what a shortcut
      presses is released; the console's own motion waits for the controllers'. The
      shortcuts of the user are read back from their file.
    - Profiles: in any order of operations, imports and restarts every profile is in
      normal form and the profiles shown as active or bound exist.
    - Providers: a Tailscale engine is started with what its start was given, and once;
      a stop returns after six steps of its thread, and secrets reach neither the
      screens nor the log. NetBird: while its operations are called in turn the library
      is used in its order, and a granted route is the only proxy and runs to the peer
      that was asked for.
    - Concurrency: in every interleaving no provider route is left behind, the
      calls cannot deadlock, and a lease gives its route back exactly once.

    Findings - places where the code does not do what it or its comments mean -
    are stated as [Example]s next to the part they concern: among them the lost
    route races of [RouteSafety.v], the refused lease no caller can see
    ([HostAddress.v]), the relay and the media ports that are not opened again
    ([WgxBackend.v]), the tunnel a failed start leaves up ([WgxRoute.v]), the STUN
    response nobody asked for ([DirectLink.v]), the bytes a relayed connection loses
    ([TsRelay.v]), the timing every frame has from the unit before it and the
    state a restart leaves in the decoder ([VideoDecoder.v]), the impostor a client
    pairs with ([Pairing.v]), the launch a host refused that is resumed ([Launch.v]), the route a
    cancelled pairing takes from another connection ([SessionSafety.v]), the write error [save] does not notice ([StateStore.v]),
    the exceptions [MapCodec::decode] lets through ([ControlCodec.v]), the
    oversized frame [recvFrame] reads past ([DerpSession.v]), the peer a failed switch
    leaves in force ([NetBirdProvider.v]) and the hosts an import binds to the wrong
    profile ([StreamProfiles.v]), the registered node that cannot start without a login
    key and the engine a refused start leaves running ([TailscaleProvider.v]), and the
    secrets before an equals sign that are logged ([FileLog.v]), and the launch that takes
    another host without a MAC ([LaunchArgs.v]), and the image of three files whose contents
    are exchanged ([RomFs.v]), and the release of a button that is lost, the controller
    that is not announced again and the finger that stays down ([InputManager.v]).

    ** Fuel

    Loops that are not structural take fuel and return an option: the drains of
    [Framing.v] (the buffer's length plus one: every frame removes a byte),
    [Noise.consume_loop] (the same), the STUN attribute loops (the packet's
    length plus one: every round advances by four), the address parsers (the text's
    length plus one), [DerpSession.recv_loop] (as many rounds as the transport has
    chunks), [ControlSession.poll_loop] and [register_loop] (one round per frame,
    record or read); [WgxBackend.dial_node] passes its fuel to the handshake. The theorems that the result is reached are part of the properties:
    [connect_succeeds], [recvFrame_stream], [noise_stream], [stun_loop_total],
    [poll_delivers]. The loops of [ControlKey.v] take as many rounds as the answer has
    bytes, those of [FileLog.v] and of [TailscaleProvider.logSafe] one more than the text
    has bytes: [key_fetch_ends], [logSafe_clean]. [TsRelay.sendAll] and [VideoDecoder.drain_frames] recurse on
    the answers of the calls they make; [sendAll_returns] bounds how many it takes.
    The search for a table size ([RomFs.count_loop]) has 510512 rounds, one of which finds
    a number one above a multiple of the primes: [hash_table_count]. The hashes of [Nca.v]
    and the capabilities of [Forwarder.v] have a round per byte and one more, which
    [archives_hold] and [npdm_patched] show to be enough.
    The operations of [GameStream.v] need no fuel: each of their loops has a
    constant bound in the code.
    A conversion of a double that C++ leaves undefined is a parameter
    ([undefined_cast]) of [FrameQueue.v]; its theorems hold for every value.

    ** Not modelled

    Of [GameStreamClient] the search of the local network and the question for the
    external address are left out, and of the profiles the lines that copy each
    field from and to the settings; of the forwarders the icon, the control data and the
    structures of the content meta, and SHA-256 and AES-XTS, which are parameters; of the
    input rumble, the diagnostics and what is floating point (dead zones, the pace of
    scrolling, movement, the pointer's settings), which a frame is given with. The wgx library, TLS sockets, the user
    interface, FFmpeg and the renderers are third-party code or bindings to it;
    what calls them without a decision of its own is not modelled either. *)

From Stdlib Require Import Init.Byte Strings.Byte.
From Stdlib Require Export ZArith Lia.
From stdpp Require Export base gmap sets list strings numbers.

#[global] Open Scope Z_scope.

(** ** Bytes: [std::uint8_t], and the byte sequences of [std::string],
    [std::string_view], [std::vector<std::uint8_t>] and [std::span]. *)

Abbreviation byte := Init.Byte.byte.
Abbreviation bytes := (list Init.Byte.byte).

Definition ub (b : byte) : Z := Z.of_N (Byte.to_N b).

(** [static_cast<std::uint8_t>(z)]. *)
Definition u8 (z : Z) : byte :=
  match Byte.of_N (Z.to_N (z mod 256)) with Some b => b | None => Init.Byte.x00 end.

(** The conversions to the other unsigned widths, and to [int]. *)
Definition u16 (z : Z) : Z := z mod 2 ^ 16.
Definition u32 (z : Z) : Z := z mod 2 ^ 32.
Definition u64 (z : Z) : Z := z mod 2 ^ 64.
Definition i32 (z : Z) : Z := (z + 2 ^ 31) mod 2 ^ 32 - 2 ^ 31.

(** A string literal of the source, as its bytes. *)
Definition bs (s : string) : bytes := String.list_byte_of_string s.

(** [size()] of a container, as the [std::size_t] the code computes with. *)
Definition zlen {A} (l : list A) : Z := Z.of_nat (length l).

(** A slice [l[a, a + n)] of a span ([subspan], or a pair of iterators). *)
Definition slice {A} (a n : Z) (l : list A) : list A :=
  take (Z.to_nat n) (drop (Z.to_nat a) l).

#[export] Instance byte_eq_dec : EqDecision byte := Byte.byte_eq_dec.
#[export] Instance byte_inhabited : Inhabited byte := populate Init.Byte.x00.
#[export] Program Instance byte_countable : Countable byte :=
  inj_countable' Byte.to_N (fun n => match Byte.of_N n with Some b => b | None => Init.Byte.x00 end) _.
Next Obligation. intros b. simpl. by rewrite Byte.of_to_N. Qed.

(** [src[i]] of a pointer into a buffer whose size the caller has checked. *)
Definition byte_at (src : bytes) (i : nat) : Z := ub (src !!! i).

Lemma ub_range b : 0 <= ub b < 256.
Proof. unfold ub. pose proof (Byte.to_N_bounded b). lia. Qed.

Lemma ub_inj a b : ub a = ub b -> a = b.
Proof.
  unfold ub. intros H%N2Z.inj.
  pose proof (Byte.of_to_N a) as Ha. rewrite H, Byte.of_to_N in Ha. congruence.
Qed.

Lemma ub_u8 z : ub (u8 z) = z mod 256.
Proof.
  unfold u8, ub. pose proof (Z.mod_pos_bound z 256 ltac:(lia)) as Hb.
  destruct (Byte.of_N _) as [b|] eqn:E.
  - apply Byte.to_of_N in E. rewrite E. lia.
  - apply Byte.of_N_None_iff in E. lia.
Qed.

Lemma u8_ub b : u8 (ub b) = b.
Proof. apply ub_inj. rewrite ub_u8. pose proof (ub_range b). by rewrite Z.mod_small. Qed.

Lemma ub_u8_small z : 0 <= z < 256 -> ub (u8 z) = z.
Proof. intros. rewrite ub_u8. by apply Z.mod_small. Qed.

Lemma zlen_nonneg {A} (l : list A) : 0 <= zlen l.
Proof. unfold zlen. lia. Qed.

Lemma zlen_app {A} (l k : list A) : zlen (l ++ k) = zlen l + zlen k.
Proof. unfold zlen. rewrite length_app. lia. Qed.

Lemma zlen_cons {A} (x : A) l : zlen (x :: l) = 1 + zlen l.
Proof. unfold zlen. simpl. lia. Qed.

Lemma zlen_nil {A} : zlen (@nil A) = 0.
Proof. done. Qed.

Lemma zlen_0 {A} (l : list A) : zlen l = 0 -> l = [].
Proof. unfold zlen. intros. apply nil_length_inv. lia. Qed.

Lemma to_nat_zlen {A} (l : list A) : Z.to_nat (zlen l) = length l.
Proof. unfold zlen. lia. Qed.

Lemma zlen_slice {A} (l : list A) a n :
  0 <= a -> 0 <= n -> a + n <= zlen l -> zlen (slice a n l) = n.
Proof. unfold zlen, slice. intros. rewrite length_take, length_drop. lia. Qed.

Lemma slice_app {A} (b c : list A) a n :
  0 <= a -> 0 <= n -> a + n <= zlen b -> slice a n (b ++ c) = slice a n b.
Proof.
  unfold slice, zlen. intros. rewrite drop_app_le by lia. apply take_app_le.
  rewrite length_drop. lia.
Qed.

Lemma slice_take {A} (b : list A) a n k :
  0 <= a -> 0 <= n -> a + n <= Z.of_nat k -> slice a n (take k b) = slice a n b.
Proof.
  unfold slice. intros.
  rewrite skipn_firstn_comm, firstn_firstn. f_equal. lia.
Qed.

Create Rewrite HintDb zlen.
#[export] Hint Rewrite @zlen_app @zlen_cons @zlen_nil : zlen.

(** [zl]: lengths of concatenations, then linear arithmetic. *)
Ltac zl := autorewrite with zlen in *; try lia.

(** [ub_bounds]: the range of every byte value in sight. *)
Ltac ub_bounds :=
  repeat match goal with
  | |- context [ub ?b] => lazymatch goal with
      | _ : 0 <= ub b < 256 |- _ => fail | _ => pose proof (ub_range b) end
  | _ : context [ub ?b] |- _ => lazymatch goal with
      | _ : 0 <= ub b < 256 |- _ => fail | _ => pose proof (ub_range b) end
  end.

(** ** Errors. A function of the source that returns [bool] or [optional] and
    reports through a [std::string* error] returns a [result]: the message is
    what the call leaves in [*error]. *)

Inductive result (A : Type) :=
| Ok (a : A)
| Err (msg : string).
Arguments Ok {A}. Arguments Err {A}.

Definition result_bind {A B} (r : result A) (k : A -> result B) : result B :=
  match r with Ok a => k a | Err e => Err e end.

Declare Scope result_scope.
Delimit Scope result_scope with result.
Notation "'let!' x := r 'in' k" := (result_bind r (fun x => k))
  (at level 10, x pattern, r at level 100, k at level 200) : result_scope.
Notation "'check' b 'else' e ; k" := (if (b : bool) then k else Err e)
  (at level 10, b at level 100, e at level 100, k at level 200) : result_scope.
#[global] Open Scope result_scope.

Definition is_ok {A} (r : result A) : bool := match r with Ok _ => true | Err _ => false end.

Lemma result_bind_Ok {A B} (r : result A) (k : A -> result B) b :
  result_bind r k = Ok b -> exists a, r = Ok a /\ k a = Ok b.
Proof. destruct r; simpl; [eauto|done]. Qed.

Lemma Ok_inj {A} (a b : A) : Ok a = Ok b -> a = b.
Proof. by intros [= ->]. Qed.

(** [std::all_of(..., [](b) { return b == 0; })]: an all-zero key or secret. *)
Definition all_zero (l : bytes) : bool := forallb (fun b => bool_decide (b = Init.Byte.x00)) l.

(** Byte-wise exclusive or of two sequences of the same length. *)
Definition bxor (a b : byte) : byte := u8 (Z.lxor (ub a) (ub b)).
Definition xor_bytes (a b : bytes) : bytes := zip_with bxor a b.

Lemma lxor_range a b n : 0 < n -> 0 <= a < 2 ^ n -> 0 <= b < 2 ^ n -> 0 <= Z.lxor a b < 2 ^ n.
Proof.
  intros Hn Ha Hb. assert (0 <= Z.lxor a b) as Hx by (apply Z.lxor_nonneg; lia).
  split; [done|]. destruct (Z.eq_dec (Z.lxor a b) 0) as [->|Hne]; [lia|].
  apply Z.log2_lt_pow2; [lia|].
  assert (forall x, 0 <= x < 2 ^ n -> Z.log2 x < n) as Hl.
  { intros x Hx'. destruct (Z.eq_dec x 0) as [->|]; [done|]. apply Z.log2_lt_pow2; lia. }
  pose proof (Z.log2_lxor a b ltac:(lia) ltac:(lia)). pose proof (Hl a Ha). pose proof (Hl b Hb). lia.
Qed.

Lemma lxor_byte a b : 0 <= a < 256 -> 0 <= b < 256 -> 0 <= Z.lxor a b < 256.
Proof. apply (lxor_range a b 8). lia. Qed.

Lemma bxor_invol a b : bxor (bxor a b) b = a.
Proof.
  unfold bxor. apply ub_inj. pose proof (ub_range a). pose proof (ub_range b).
  rewrite (ub_u8_small (Z.lxor (ub a) (ub b))) by by apply lxor_byte.
  rewrite Z.lxor_assoc, Z.lxor_nilpotent, Z.lxor_0_r. by apply ub_u8_small.
Qed.

Lemma xor_bytes_invol a b : length a = length b -> xor_bytes (xor_bytes a b) b = a.
Proof.
  unfold xor_bytes. revert b. induction a as [|x a IH]; intros [|y b]; simpl; try done.
  intros [= H]. by rewrite bxor_invol, IH.
Qed.

Lemma length_xor_bytes a b : length a = length b -> length (xor_bytes a b) = length a.
Proof. unfold xor_bytes. intros. rewrite length_zip_with. lia. Qed.

(** Lists. *)
Lemma Forall_sublist_of {A} (P : A -> Prop) (l k : list A) :
  l `sublist_of` k -> Forall P k -> Forall P l.
Proof.
  induction 1 as [|x l k Hs IH|x l k Hs IH]; intros Hk; [done|..];
    apply Forall_cons_1 in Hk as [Hx Hk]; [constructor; [done|]|]; by apply IH.
Qed.

(** Where an element of a concatenation comes from. *)
Lemma bind_split {A B} (f : A -> list B) l : forall pre e post, l ≫= f = pre ++ e :: post ->
  exists l1 x l2 p q, l = l1 ++ x :: l2 /\ f x = p ++ e :: q /\ pre = (l1 ≫= f) ++ p /\ post = q ++ (l2 ≫= f).
Proof.
  induction l as [|x l IH]; intros pre e post E; [by destruct pre|].
  change ((x :: l) ≫= f) with (f x ++ (l ≫= f)) in E. apply app_eq_app in E as (k&[(E1&E2)|(E1&E2)]).
  - destruct k as [|e' k]; cbn [app] in E2.
    + symmetry in E2. destruct (IH [] e post E2) as (l1&y&l2&p&q&->&Hy&Hp&Hq).
      exists (x :: l1), y, l2, p, q. split; [done|]. split; [done|]. split; [|done].
      rewrite app_nil_r in E1. change ((x :: l1) ≫= f) with (f x ++ (l1 ≫= f)). rewrite <- app_assoc, <- Hp, app_nil_r. done.
    + injection E2 as <- E2. by exists [], x, l, pre, k.
  - destruct (IH k e post E2) as (l1&y&l2&p&q&->&Hy&->&->).
    exists (x :: l1), y, l2, p, q. split; [done|]. split; [done|]. split; [|done].
    change ((x :: l1) ≫= f) with (f x ++ (l1 ≫= f)). by rewrite <- app_assoc.
Qed.
