(* ===== verification/Bytes.v ===== *)
(** Fixed-width integers on the wire: the shift-and-mask writers and readers
    that the packet formats repeat ([putU16], [append32], [read24], ...) are
    each translated beside their format; here is the reference they are proved
    equal to, a positional encoding of any width, with its round trips. *)

From S2P Require Import Prelude.

(** The value of a byte sequence, most significant byte first. *)
Definition be_value (l : bytes) : Z := foldl (fun acc b => acc * 256 + ub b) 0 l.

(** The [n] low-order bytes of [v], most significant byte first. *)
Fixpoint be_bytes (n : nat) (v : Z) : bytes :=
  match n with
  | O => []
  | S k => be_bytes k (v / 256) ++ [u8 v]
  end.

Definition le_value (l : bytes) : Z := be_value (reverse l).
Definition le_bytes (n : nat) (v : Z) : bytes := reverse (be_bytes n v).

Lemma be_value_snoc l b : be_value (l ++ [b]) = be_value l * 256 + ub b.
Proof. unfold be_value. by rewrite foldl_app. Qed.

Lemma length_be_bytes n v : length (be_bytes n v) = n.
Proof. revert v. induction n as [|n IH]; intros v; simpl; [done|]. rewrite length_app, IH. simpl. lia. Qed.

Lemma length_le_bytes n v : length (le_bytes n v) = n.
Proof. unfold le_bytes. by rewrite length_reverse, length_be_bytes. Qed.

Lemma be_value_bound l : 0 <= be_value l < 256 ^ zlen l.
Proof.
  induction l as [|b l IH] using rev_ind; [done|].
  rewrite be_value_snoc. zl. pose proof (ub_range b).
  replace (256 ^ (zlen l + (1 + 0))) with (256 ^ zlen l * 256); [lia|].
  rewrite Z.pow_add_r by (pose proof (zlen_nonneg l); lia). lia.
Qed.

Lemma be_value_bytes n v : 0 <= v < 256 ^ Z.of_nat n -> be_value (be_bytes n v) = v.
Proof.
  revert v. induction n as [|n IH]; intros v Hv; [simpl in *; unfold be_value; simpl; lia|].
  simpl. rewrite be_value_snoc, IH, ub_u8.
  - pose proof (Z.div_mod v 256 ltac:(lia)). lia.
  - rewrite Nat2Z.inj_succ, Z.pow_succ_r in Hv by lia.
    split; [apply Z.div_pos; lia|]. apply Z.div_lt_upper_bound; lia.
Qed.

Lemma be_bytes_value l : be_bytes (length l) (be_value l) = l.
Proof.
  induction l as [|b l IH] using rev_ind; [done|].
  rewrite length_app, Nat.add_1_r. simpl. pose proof (ub_range b).
  assert (be_value (l ++ [b]) / 256 = be_value l) as ->.
  { rewrite be_value_snoc. rewrite Z.div_add_l by lia. rewrite (Z.div_small (ub b)); lia. }
  rewrite IH. f_equal. f_equal. apply ub_inj. rewrite ub_u8, be_value_snoc.
  rewrite Z.add_comm, Z.mod_add by lia. by apply Z.mod_small.
Qed.

Lemma le_value_bytes n v : 0 <= v < 256 ^ Z.of_nat n -> le_value (le_bytes n v) = v.
Proof. unfold le_value, le_bytes. rewrite reverse_involutive. apply be_value_bytes. Qed.

Lemma le_value_bound l : 0 <= le_value l < 256 ^ zlen l.
Proof.
  unfold le_value. pose proof (be_value_bound (reverse l)).
  unfold zlen in *. by rewrite length_reverse in *.
Qed.

(** Disjoint bit fields: [|] is [+] when the low operand fits below the shift. *)
Lemma lor_shiftl_add a b n : 0 <= n -> 0 <= b < 2 ^ n -> Z.lor (Z.shiftl a n) b = a * 2 ^ n + b.
Proof.
  intros Hn Hb.
  assert (Z.land (Z.shiftl a n) b = 0) as Hl.
  { apply Z.bits_inj'. intros i Hi. rewrite Z.land_spec, Z.bits_0.
    destruct (Z.lt_ge_cases i n).
    - rewrite Z.shiftl_spec_low; [done|lia].
    - rewrite <- (Z.mod_small b (2 ^ n)) by done.
      by rewrite (Z.mod_pow2_bits_high b n i), andb_false_r by lia. }
  rewrite <- Z.lxor_lor, <- Z.add_nocarry_lxor, Z.shiftl_mul_pow2 by done. done.
Qed.

Lemma land_255 v : Z.land v 255 = v mod 256.
Proof. change 255 with (Z.ones 8). rewrite Z.land_ones by lia. done. Qed.

Lemma u8_mod v : u8 (v mod 256) = u8 v.
Proof. apply ub_inj. rewrite !ub_u8. by rewrite Z.mod_mod. Qed.

(** The literal shapes of the readers, as the reference value. *)
Lemma be16_lor a b : Z.lor (Z.shiftl (ub a) 8) (ub b) = be_value [a; b].
Proof. ub_bounds. rewrite lor_shiftl_add by lia. unfold be_value. simpl. lia. Qed.

Lemma be24_lor a b c :
  Z.lor (Z.lor (Z.shiftl (ub a) 16) (Z.shiftl (ub b) 8)) (ub c) = be_value [a; b; c].
Proof.
  ub_bounds. rewrite (Z.shiftl_mul_pow2 (ub b)) by lia. rewrite <- Z.lor_assoc.
  rewrite <- Z.shiftl_mul_pow2 by lia. rewrite (lor_shiftl_add (ub b)) by lia.
  rewrite lor_shiftl_add by lia. unfold be_value. simpl. lia.
Qed.

Lemma be32_lor a b c d :
  Z.lor (Z.lor (Z.lor (Z.shiftl (ub a) 24) (Z.shiftl (ub b) 16)) (Z.shiftl (ub c) 8)) (ub d)
  = be_value [a; b; c; d].
Proof.
  ub_bounds. rewrite <- !Z.lor_assoc.
  rewrite (lor_shiftl_add (ub c)) by lia. rewrite (lor_shiftl_add (ub b)) by lia.
  rewrite lor_shiftl_add by lia. unfold be_value. simpl. lia.
Qed.

Lemma le32_lor a b c d :
  Z.lor (Z.lor (Z.lor (ub a) (Z.shiftl (ub b) 8)) (Z.shiftl (ub c) 16)) (Z.shiftl (ub d) 24)
  = le_value [a; b; c; d].
Proof.
  unfold le_value. change (reverse [a; b; c; d]) with [d; c; b; a]. rewrite <- be32_lor.
  apply Z.bits_inj'. intros i _. rewrite !Z.lor_spec.
  by repeat destruct (Z.testbit _ i).
Qed.

Lemma le16_lor a b : Z.lor (ub a) (Z.shiftl (ub b) 8) = le_value [a; b].
Proof. rewrite Z.lor_comm. by rewrite be16_lor. Qed.

(** The literal shapes of the writers, as the reference bytes. *)
Lemma be16_put v : [u8 (Z.shiftr v 8); u8 (Z.land v 255)] = be_bytes 2 v.
Proof. simpl. rewrite Z.shiftr_div_pow2, land_255, u8_mod by lia. done. Qed.

Lemma be32_put v :
  [u8 (Z.shiftr v 24); u8 (Z.shiftr v 16); u8 (Z.shiftr v 8); u8 v] = be_bytes 4 v.
Proof.
  simpl. rewrite !Z.shiftr_div_pow2 by lia. rewrite !Z.div_div by lia. done.
Qed.

Lemma be24_put v : [u8 (Z.shiftr v 16); u8 (Z.shiftr v 8); u8 v] = be_bytes 3 v.
Proof.
  simpl. rewrite !Z.shiftr_div_pow2 by lia. rewrite !Z.div_div by lia. done.
Qed.

Lemma le32_put v :
  [u8 v; u8 (Z.shiftr v 8); u8 (Z.shiftr v 16); u8 (Z.shiftr v 24)] = le_bytes 4 v.
Proof. unfold le_bytes. by rewrite <- be32_put. Qed.

Lemma le16_put v : [u8 v; u8 (Z.shiftr v 8)] = le_bytes 2 v.
Proof. unfold le_bytes. rewrite <- be16_put, land_255, u8_mod. done. Qed.

(** From here on the encodings are used through the lemmas above. *)
#[global] Opaque be_bytes.
