(* ===== verification/Text.v ===== *)
(** The [std::string_view] operations the source parses text with
    ([find], [rfind], [substr], [starts_with], [find_first_not_of], ...),
    [std::from_chars], [std::to_string] and [std::tolower] in the "C" locale,
    as functions on byte sequences, with the facts the parsers rely on.
    [npos] is [None]. *)

From S2P Require Import Prelude Bytes.

(** A character literal. *)
Definition ch (s : string) : byte := hd Init.Byte.x00 (bs s).

(** Index of the first element satisfying [p]. *)
Fixpoint find_if (p : byte -> bool) (l : bytes) : option nat :=
  match l with
  | [] => None
  | x :: r => if p x then Some O else S <$> find_if p r
  end.

(** [view.find(c, pos)] and [view.find(c)]. *)
Definition find_from (c : byte) (pos : nat) (l : bytes) : option nat :=
  (fun k => (pos + k)%nat) <$> find_if (fun x => bool_decide (x = c)) (drop pos l).
Definition find (c : byte) (l : bytes) : option nat := find_from c 0 l.

(** [view.rfind(c)]. *)
Definition rfind (c : byte) (l : bytes) : option nat :=
  (fun k => (length l - 1 - k)%nat) <$> find_if (fun x => bool_decide (x = c)) (reverse l).

(** [view.starts_with(p)], [view.ends_with(p)]. *)
Definition starts_with (p l : bytes) : bool := bool_decide (take (length p) l = p).
Definition ends_with (p l : bytes) : bool := starts_with (reverse p) (reverse l).

(** [view.find(needle)] for a string needle. *)
Fixpoint find_sub (needle l : bytes) : option nat :=
  if starts_with needle l then Some O
  else match l with [] => None | _ :: r => S <$> find_sub needle r end.
Definition find_sub_from (needle : bytes) (pos : nat) (l : bytes) : option nat :=
  (fun k => (pos + k)%nat) <$> find_sub needle (drop pos l).

(** [view.find_first_of(set)], [view.find_first_not_of(set)],
    [view.find_last_not_of(set)]. *)
Definition find_first_of (cs l : bytes) : option nat :=
  find_if (fun x => bool_decide (x ∈ cs)) l.
Definition find_first_not_of (cs l : bytes) : option nat :=
  find_if (fun x => negb (bool_decide (x ∈ cs))) l.
Definition find_last_not_of (cs l : bytes) : option nat :=
  (fun k => (length l - 1 - k)%nat) <$>
    find_if (fun x => negb (bool_decide (x ∈ cs))) (reverse l).

(** [view.substr(pos, n)], and [view.substr(pos)]. *)
Definition substr (pos n : nat) (l : bytes) : bytes := take n (drop pos l).
Definition substr_from (pos : nat) (l : bytes) : bytes := drop pos l.

Definition is_digit (b : byte) : bool := (48 <=? ub b) && (ub b <=? 57).
Definition is_upper (b : byte) : bool := (65 <=? ub b) && (ub b <=? 90).

(** [std::tolower] on an [unsigned char], "C" locale. *)
Definition tolower (b : byte) : byte := if is_upper b then u8 (ub b + 32) else b.
Definition lower (l : bytes) : bytes := tolower <$> l.

Fixpoint take_while (p : byte -> bool) (l : bytes) : bytes :=
  match l with
  | x :: r => if p x then x :: take_while p r else []
  | [] => []
  end.

Definition dec_value (l : bytes) : Z := foldl (fun acc b => acc * 10 + (ub b - 48)) 0 l.

(** [std::from_chars(first, last, value)] in base ten. [fc_value] is what
    [value] holds afterwards ([init] when the call does not set it), [fc_ptr]
    the offset of the returned pointer. *)
Inductive errc := ErrNone | ErrInvalid | ErrRange.
#[export] Instance errc_eq_dec : EqDecision errc.
Proof. solve_decision. Defined.
Record from_chars_result := FromChars { fc_value : Z; fc_ptr : nat; fc_ec : errc }.

Definition from_chars_unsigned (l : bytes) (init : Z) : from_chars_result :=
  let ds := take_while is_digit l in
  match ds with
  | [] => FromChars init 0 ErrInvalid
  | _ => if dec_value ds <? 2 ^ 32 then FromChars (dec_value ds) (length ds) ErrNone
         else FromChars init (length ds) ErrRange
  end.

(** The same for [int], which also accepts a leading minus sign. *)
Definition from_chars_int (l : bytes) (init : Z) : from_chars_result :=
  let neg := bool_decide (head l = Some (ch "-")) in
  let ds := take_while is_digit (if neg then drop 1 l else l) in
  let v := if neg then - dec_value ds else dec_value ds in
  let n := if neg then S (length ds) else length ds in
  match ds with
  | [] => FromChars init 0 ErrInvalid
  | _ => if (- 2 ^ 31 <=? v) && (v <? 2 ^ 31) then FromChars v n ErrNone
         else FromChars init n ErrRange
  end.

(** [std::to_string] of a non-negative number. *)
Fixpoint dec_digits (fuel : nat) (n : Z) : bytes :=
  match fuel with
  | O => []
  | S f => if n <? 10 then [u8 (48 + n)] else dec_digits f (n / 10) ++ [u8 (48 + n mod 10)]
  end.
Definition to_string (n : Z) : bytes := dec_digits (S (Z.to_nat (Z.log2 n))) n.

(** The pieces of [l] between the occurrences of [c]: what the loops that
    advance [begin] past each separator visit. *)
Fixpoint split_on (c : byte) (l : bytes) : list bytes :=
  match l with
  | [] => [[]]
  | x :: r => if bool_decide (x = c) then [] :: split_on c r
              else match split_on c r with p :: ps => (x :: p) :: ps | [] => [[x]] end
  end.

Fixpoint join (c : byte) (ps : list bytes) : bytes :=
  match ps with
  | [] => []
  | [p] => p
  | p :: rest => p ++ c :: join c rest
  end.

(** Replacing every occurrence of a needle, as the loops over [find] and [replace]
    do that go on behind each replacement; [None] when the fuel ends. *)
Fixpoint replace_all_loop (fuel : nat) (needle new text : bytes) (at_ : nat) : option bytes :=
  match fuel with
  | O => None
  | S k =>
      match find_sub_from needle at_ text with
      | None => Some text
      | Some pos => replace_all_loop k needle new (take pos text ++ new ++ drop (pos + length needle) text) (pos + length new)
      end
  end.
Definition replace_all (needle new text : bytes) : option bytes := replace_all_loop (S (length text)) needle new text 0.

(** ** Facts *)

Lemma split_on_nonempty c l : split_on c l <> [].
Proof. destruct l; simpl; [done|]. case_bool_decide; [done|]. by destruct (split_on c l). Qed.

Lemma find_if_Some p l k : find_if p l = Some k ->
  (k < length l)%nat /\ (exists x, l !! k = Some x /\ p x = true) /\
  Forall (fun x => p x = false) (take k l).
Proof.
  revert k. induction l as [|x r IH]; intros k; simpl; [done|].
  destruct (p x) eqn:E; [intros [= <-]; simpl; split_and!; [lia|eauto|constructor]|].
  destruct (find_if p r) as [j|] eqn:F; intros [= <-].
  destruct (IH j eq_refl) as (?&(y&?&?)&?). simpl. split_and!; [lia|eauto|by constructor].
Qed.

Lemma find_if_None p l : find_if p l = None <-> Forall (fun x => p x = false) l.
Proof.
  induction l as [|x r IH]; simpl; [by split; constructor|].
  destruct (p x) eqn:E.
  - split; [done|]. intros H. apply Forall_cons_1 in H as [? _]. congruence.
  - split; intros H.
    + constructor; [done|]. apply IH. by destruct (find_if p r).
    + apply Forall_cons_1 in H as [_ H]. by rewrite (proj2 IH H).
Qed.

Lemma find_if_app_r p l x r : Forall (fun y => p y = false) l -> p x = true ->
  find_if p (l ++ x :: r) = Some (length l).
Proof. induction 1 as [|y l Hy Hl IH]; intros Hx; simpl; [by rewrite Hx|]. by rewrite Hy, IH. Qed.

Lemma split_on_step c l :
  split_on c l = match find c l with
                 | None => [l]
                 | Some k => take k l :: split_on c (drop (S k) l)
                 end.
Proof.
  unfold find, find_from. rewrite drop_0.
  induction l as [|x r IH]; [done|]. simpl. case_bool_decide as E; [done|].
  rewrite IH. by destruct (find_if _ r) as [k|].
Qed.

(** One round of a [find(c, begin)] loop, in terms of the remaining suffix. *)
Lemma find_from_split c pos l : (pos <= length l)%nat ->
  split_on c (drop pos l) =
    match find_from c pos l with
    | None => [drop pos l]
    | Some d => substr pos (d - pos) l :: split_on c (drop (S d) l)
    end.
Proof.
  intros Hp. rewrite split_on_step. unfold find, find_from, substr. rewrite drop_0.
  destruct (find_if _ (drop pos l)) as [k|] eqn:E; simpl; [|done].
  rewrite drop_drop. replace (pos + k - pos)%nat with k by lia.
  replace (pos + S k)%nat with (S (pos + k)) by lia. done.
Qed.

Lemma find_from_bound c pos l d : find_from c pos l = Some d -> (pos <= d < length l)%nat.
Proof.
  unfold find_from. destruct (find_if _ _) as [k|] eqn:E; intros [= <-].
  apply find_if_Some in E as (H&_). rewrite length_drop in H. lia.
Qed.

Lemma split_on_join c ps : ps <> [] -> Forall (fun p => c ∉ p) ps -> split_on c (join c ps) = ps.
Proof.
  intros Hne H. induction H as [|p ps Hp Hps IH]; [done|].
  assert (Forall (fun y => bool_decide (y = c) = false) p) as Hf.
  { apply list.Forall_forall. intros y Hy. apply bool_decide_eq_false_2. congruence. }
  destruct ps as [|q ps]; simpl; rewrite split_on_step; unfold find, find_from; rewrite drop_0.
  - by rewrite (proj2 (find_if_None _ _) Hf).
  - rewrite (find_if_app_r _ p c _ Hf (bool_decide_eq_true_2 _ eq_refl)). simpl.
    rewrite take_app_length. f_equal. rewrite <- IH by done. f_equal.
    change (S (length p)) with (1 + length p)%nat. rewrite Nat.add_comm.
    rewrite <- drop_drop, drop_app_length. done.
Qed.

Lemma take_while_all p l : Forall (fun x => p x = true) l -> take_while p l = l.
Proof. induction 1 as [|x l Hx Hl IH]; simpl; [done|]. by rewrite Hx, IH. Qed.

Lemma take_while_Forall p l : Forall (fun x => p x = true) (take_while p l).
Proof. induction l as [|x l IH]; simpl; [constructor|]. destruct (p x) eqn:E; by constructor. Qed.

Lemma take_while_length p l : (length (take_while p l) <= length l)%nat.
Proof. induction l; simpl; [lia|]. destruct (p a); simpl; lia. Qed.

Lemma take_while_full p l : length (take_while p l) = length l -> take_while p l = l.
Proof.
  induction l as [|x l IH]; simpl; [done|]. destruct (p x); simpl; [|lia].
  intros. f_equal. apply IH. lia.
Qed.

Lemma dec_value_snoc l b : dec_value (l ++ [b]) = dec_value l * 10 + (ub b - 48).
Proof. unfold dec_value. by rewrite foldl_app. Qed.

Lemma is_digit_range b : is_digit b = true <-> 48 <= ub b <= 57.
Proof. unfold is_digit. rewrite andb_true_iff, !Z.leb_le. done. Qed.

Lemma is_digit_u8 d : 0 <= d < 10 -> is_digit (u8 (48 + d)) = true.
Proof. intros. apply is_digit_range. rewrite ub_u8_small; lia. Qed.

Lemma dec_value_bound l : Forall (fun x => is_digit x = true) l ->
  0 <= dec_value l < 10 ^ zlen l.
Proof.
  induction l as [|b l IH] using rev_ind; intros H; [done|].
  apply Forall_app in H as [Hl Hb]. apply Forall_cons_1 in Hb as [Hb _].
  apply is_digit_range in Hb. rewrite dec_value_snoc. zl. specialize (IH Hl).
  replace (10 ^ (zlen l + (1 + 0))) with (10 ^ zlen l * 10); [lia|].
  rewrite Z.pow_add_r by (pose proof (zlen_nonneg l); lia). lia.
Qed.

Lemma dec_digits_spec fuel n : 0 <= n < 2 ^ Z.of_nat fuel ->
  dec_value (dec_digits fuel n) = n /\ Forall (fun x => is_digit x = true) (dec_digits fuel n) /\
  (fuel <> O -> dec_digits fuel n <> []).
Proof.
  revert n. induction fuel as [|f IH]; intros n Hn; simpl.
  { assert (n = 0) as -> by (simpl in Hn; lia). done. }
  destruct (Z.ltb_spec n 10).
  - split_and!; [|repeat constructor; apply is_digit_u8; lia|done].
    unfold dec_value. simpl. rewrite ub_u8_small; lia.
  - assert (0 <= n / 10 < 2 ^ Z.of_nat f) as Hq.
    { rewrite Nat2Z.inj_succ, Z.pow_succ_r in Hn by lia.
      split; [apply Z.div_pos; lia|]. apply Z.div_lt_upper_bound; lia. }
    pose proof (Z.mod_pos_bound n 10 ltac:(lia)).
    destruct (IH _ Hq) as (Hv&Hd&_). split_and!.
    + rewrite dec_value_snoc, Hv, ub_u8_small by lia. pose proof (Z.div_mod n 10). lia.
    + apply Forall_app. split; [done|]. repeat constructor. by apply is_digit_u8.
    + intros _ E. by apply app_eq_nil in E as [_ ?].
Qed.

Lemma log2_fuel n : 0 <= n -> 0 <= n < 2 ^ Z.of_nat (S (Z.to_nat (Z.log2 n))).
Proof.
  intros. split; [done|]. rewrite Nat2Z.inj_succ, Z2Nat.id by apply Z.log2_nonneg.
  destruct (Z.eq_dec n 0) as [->|]; [done|]. apply Z.log2_spec. lia.
Qed.

Lemma to_string_value n : 0 <= n -> dec_value (to_string n) = n.
Proof. intros. by apply dec_digits_spec, log2_fuel. Qed.
Lemma to_string_digits n : 0 <= n -> Forall (fun x => is_digit x = true) (to_string n).
Proof. intros. by apply dec_digits_spec, log2_fuel. Qed.
Lemma to_string_nonempty n : 0 <= n -> to_string n <> [].
Proof. intros. by apply dec_digits_spec; [apply log2_fuel|]. Qed.

Lemma digits_no_char c l : is_digit c = false -> Forall (fun x => is_digit x = true) l -> c ∉ l.
Proof. intros Hc H Hin. rewrite list.Forall_forall in H. apply H in Hin. congruence. Qed.

(** [from_chars] reads a whole decimal text back. *)
Lemma from_chars_unsigned_digits l init : l <> [] -> Forall (fun x => is_digit x = true) l ->
  dec_value l < 2 ^ 32 -> from_chars_unsigned l init = FromChars (dec_value l) (length l) ErrNone.
Proof.
  intros Hne Hd Hv. unfold from_chars_unsigned. rewrite take_while_all by done.
  destruct l; [done|]. rewrite (proj2 (Z.ltb_lt _ _) Hv). done.
Qed.

(** A successful [from_chars] that consumed everything read a digit string. *)
Lemma from_chars_unsigned_full l init : fc_ec (from_chars_unsigned l init) = ErrNone ->
  fc_ptr (from_chars_unsigned l init) = length l ->
  l <> [] /\ Forall (fun x => is_digit x = true) l /\
  fc_value (from_chars_unsigned l init) = dec_value l /\ dec_value l < 2 ^ 32.
Proof.
  unfold from_chars_unsigned. destruct (take_while is_digit l) as [|d ds] eqn:E; [done|].
  destruct (Z.ltb_spec (dec_value (d :: ds)) (2 ^ 32)) as [Hv|]; [|done].
  cbn [fc_ec fc_ptr fc_value]. intros _ Hlen. rewrite <- E in *.
  apply take_while_full in Hlen. split_and!; [by destruct l| |by rewrite Hlen|by rewrite <- Hlen].
  rewrite <- Hlen. apply take_while_Forall.
Qed.

Lemma to_string_no_char c n : 0 <= n -> is_digit c = false -> c ∉ to_string n.
Proof. intros. eapply digits_no_char; [done|]. by apply to_string_digits. Qed.

Lemma rfind_app_r c l r : c ∉ r -> rfind c (l ++ c :: r) = Some (length l).
Proof.
  intros Hr. unfold rfind. rewrite reverse_app, reverse_cons, <- app_assoc. simpl.
  assert (Forall (fun y => bool_decide (y = c) = false) (reverse r)) as Hf.
  { apply list.Forall_forall. intros y Hy. apply bool_decide_eq_false_2. intros ->.
    by rewrite elem_of_reverse in Hy. }
  rewrite (find_if_app_r _ _ c _ Hf (bool_decide_eq_true_2 _ eq_refl)). simpl. f_equal.
  rewrite length_reverse, length_app. simpl. lia.
Qed.

Create HintDb text.
#[export] Hint Resolve to_string_value to_string_digits to_string_nonempty : text.

Lemma join_cons c p ps : ps <> [] -> join c (p :: ps) = p ++ c :: join c ps.
Proof. by destruct ps. Qed.

Lemma join_split_on c l : join c (split_on c l) = l.
Proof.
  induction l as [|x r IH]; [done|]. simpl. pose proof (split_on_nonempty c r) as Hne.
  case_bool_decide as E.
  - subst x. rewrite join_cons by done. by rewrite IH.
  - destruct (split_on c r) as [|p ps]; [done|]. rewrite <- IH.
    destruct ps as [|q ps]; [done|]. by rewrite !join_cons by done.
Qed.

Lemma rfind_Some c l k : rfind c l = Some k ->
  l = take k l ++ (c :: drop (k + 1) l) /\ (c ∉ drop (k + 1) l) /\ (k < length l)%nat.
Proof.
  unfold rfind. destruct (find_if _ (reverse l)) as [j|] eqn:E; simpl; intros [= <-].
  apply find_if_Some in E as (Hj&(x&Hx&Hc)&Hf). rewrite length_reverse in Hj.
  apply bool_decide_eq_true in Hc. subst x.
  rewrite reverse_lookup in Hx by done.
  replace (length l - S j)%nat with (length l - 1 - j)%nat in Hx by lia.
  split_and!; [|intros Hin|lia].
  - rewrite <- (take_drop_middle l _ _ Hx) at 1. f_equal. f_equal. f_equal. lia.
  - rewrite list.Forall_forall in Hf.
    assert (c ∈ take j (reverse l)) as Hin'.
    { rewrite take_reverse. apply elem_of_reverse. by replace (length l - j)%nat
        with (length l - 1 - j + 1)%nat by lia. }
    apply Hf, bool_decide_eq_false in Hin'. done.
Qed.

(** Searching for a needle that does not start before it. *)
Lemma starts_with_app p r : starts_with p (p ++ r) = true.
Proof. unfold starts_with. rewrite take_app_length. by apply bool_decide_eq_true. Qed.
Lemma find_sub_skip c needle a r : c ∉ a -> find_sub (c :: needle) (a ++ r) = (fun k => (length a + k)%nat) <$> find_sub (c :: needle) r.
Proof.
  induction a as [|x a IH]; intros Ha; [cbn [app length]; by destruct (find_sub _ r)|].
  apply not_elem_of_cons in Ha as [Hx Ha]. cbn [app find_sub]. unfold starts_with at 1. cbn [length take].
  rewrite bool_decide_false by congruence. rewrite IH by done. by destruct (find_sub _ r).
Qed.
Lemma find_sub_here needle r : find_sub needle (needle ++ r) = Some O.
Proof. destruct (needle ++ r) eqn:E; cbn [find_sub]; rewrite <- E, starts_with_app; done. Qed.

Lemma starts_with_take p l : starts_with p l = true <-> exists r, l = p ++ r.
Proof.
  unfold starts_with. rewrite bool_decide_eq_true. split.
  - intros E. exists (drop (length p) l). by rewrite <- E at 1; rewrite take_drop.
  - intros [r ->]. by rewrite take_app_length.
Qed.
Lemma find_sub_none needle l : needle <> [] -> find_sub needle l = None <-> forall a r, l <> a ++ needle ++ r.
Proof.
  intros Hne. induction l as [|x l IH].
  - cbn [find_sub]. destruct (starts_with needle []) eqn:E.
    + apply starts_with_take in E as [r E]. by destruct needle.
    + split; [|done]. intros _ [|? ?] r; [|done]. cbn [app]. by destruct needle.
  - cbn [find_sub]. destruct (starts_with needle (x :: l)) eqn:E.
    + apply starts_with_take in E as [r ->]. split; [done|]. intros Hx. by destruct (Hx [] r).
    + assert (forall r, x :: l <> needle ++ r) as Hn.
      { intros r Er. assert (starts_with needle (x :: l) = true) by (apply starts_with_take; by exists r). congruence. }
      destruct (find_sub needle l) eqn:Ef; cbn.
      * split; [done|]. intros Hx. exfalso. enough (Some n = None) by done. apply IH. intros a r ->. by apply (Hx (x :: a) r).
      * split; [|done]. intros _ [|y a] r Er; [by apply (Hn r)|]. injection Er as -> ->. by apply (proj1 IH eq_refl a r).
Qed.

(** The replaced text, by recursion on the text. *)
Fixpoint replaced (fuel : nat) (needle new text : bytes) : bytes :=
  match fuel with
  | O => text
  | S k =>
      if starts_with needle text then new ++ replaced k needle new (drop (length needle) text)
      else match text with [] => [] | c :: rest => c :: replaced k needle new rest end
  end.

(** The loop is that recursion. *)
Lemma replaced_step needle new : forall p k rest, needle <> [] -> find_sub needle (p ++ needle ++ rest) = Some (length p) ->
  replaced (length p + S k) needle new (p ++ needle ++ rest) = p ++ new ++ replaced k needle new rest.
Proof.
  induction p as [|x p IH]; intros k rest Hne Hf.
  - cbn [app length Nat.add replaced]. rewrite (proj2 (starts_with_take _ _)) by by exists rest. by rewrite drop_app_length.
  - cbn [app length Nat.add replaced]. cbn [app find_sub length] in Hf. destruct (starts_with needle (x :: p ++ needle ++ rest)) eqn:E; [done|].
    destruct (find_sub needle (p ++ needle ++ rest)) eqn:Ef; [|done]. injection Hf as ->. by rewrite IH.
Qed.
Lemma replaced_more needle new : needle <> [] -> forall k t, (length t < k)%nat -> forall j, replaced (k + j) needle new t = replaced k needle new t.
Proof.
  intros Hne. induction k as [|k IH]; intros t Hk j; [lia|]. cbn [Nat.add replaced]. destruct (starts_with needle t) eqn:E.
  - f_equal. apply starts_with_take in E as [r ->]. rewrite drop_app_length. rewrite length_app in Hk. apply IH. destruct needle; [done|cbn in Hk; lia].
  - destruct t; [done|]. f_equal. apply IH. cbn in Hk. lia.
Qed.
Lemma replaced_same needle new k t : find_sub needle t = None -> replaced k needle new t = t.
Proof.
  revert t. induction k as [|k IH]; intros t Hf; [done|]. cbn [replaced]. destruct t as [|c t]; cbn [find_sub] in Hf; destruct (starts_with _ _); try done.
  f_equal. apply IH. by destruct (find_sub needle t).
Qed.

Lemma replace_all_loop_spec fuel : forall needle new done_ todo, needle <> [] -> (length todo < fuel)%nat ->
  replace_all_loop fuel needle new (done_ ++ todo) (length done_) = Some (done_ ++ replaced (S (length todo)) needle new todo).
Proof.
  induction fuel as [|fuel IH]; intros needle new dn todo Hne Hf; [lia|]. cbn [replace_all_loop]. unfold find_sub_from. rewrite drop_app_length.
  destruct (find_sub needle todo) as [k|] eqn:Ef; cbn [fmap option_fmap option_map]; [|by rewrite replaced_same].
  assert (exists p rest, todo = p ++ needle ++ rest /\ length p = k) as (p & rest & -> & <-).
  { clear IH Hf. revert k Ef. induction todo as [|x todo IHt]; intros k; cbn [find_sub]; destruct (starts_with needle _) eqn:E.
    - intros [= <-]. apply starts_with_take in E as [r E]. exists [], r. by split; [exact E|].
    - done.
    - intros [= <-]. apply starts_with_take in E as [r E]. exists [], r. by split; [exact E|].
    - destruct (find_sub needle todo) as [j|]; [|done]. intros [= <-]. destruct (IHt j eq_refl) as (p & r & -> & <-). by exists (x :: p), r. }
  replace (S (length (p ++ needle ++ rest))) with (length p + S (length (needle ++ rest)))%nat by (rewrite !length_app; lia).
  rewrite replaced_step by done.
  replace (take (length dn + length p) (dn ++ p ++ needle ++ rest) ++ new ++ drop (length dn + length p + length needle) (dn ++ p ++ needle ++ rest))
    with ((dn ++ p ++ new) ++ rest).
  2:{ replace (dn ++ p ++ needle ++ rest) with ((dn ++ p) ++ needle ++ rest) by by rewrite <- app_assoc.
      replace (length dn + length p)%nat with (length (dn ++ p)) by apply length_app. rewrite take_app_length.
      rewrite (app_assoc (dn ++ p) needle), <- (length_app (dn ++ p) needle), drop_app_length. by rewrite <- !app_assoc. }
  replace (length dn + length p + length new)%nat with (length (dn ++ p ++ new)) by (rewrite !length_app; lia).
  rewrite IH; [|done|rewrite !length_app in Hf; assert (length needle <> 0)%nat by (by destruct needle); lia].
  rewrite <- !app_assoc. do 4 f_equal. rewrite length_app.
  destruct needle as [|c needle]; [done|]. replace (length (c :: needle) + length rest)%nat with (S (length rest) + length needle)%nat by (cbn; lia).
  by rewrite replaced_more by (done || lia).
Qed.
Lemma replace_all_spec needle new text : needle <> [] -> replace_all needle new text = Some (replaced (S (length text)) needle new text).
Proof. intros Hne. apply (replace_all_loop_spec (S (length text)) needle new [] text); [done|lia]. Qed.
