(* ===== verification/Framing.v ===== *)
(** Incremental frame decoders. Four classes of the source buffer a byte stream
    and cut length-prefixed frames off its front with the same two methods,
    [append(bytes)] and [take()]: [DerpCodec], [DerpFrameDecoder],
    [Http2FrameDecoder] and [MapFrameDecoder]. [FrameDecoder] is the interface
    they share, [FrameDecoderLaws] what it promises to a reader, and the
    theorems of this file are proved from the promise alone: however the
    transport cuts the stream into chunks, the reader sees the frames that were
    written, in order, and the receive buffer stays under its cap. *)

From S2P Require Import Prelude Bytes.

(** The three ways [take()] returns: a frame, [nullopt] with [*error]
    untouched (more bytes are needed), [nullopt] with an error. *)
Inductive outcome (A : Type) :=
| Got (a : A)
| Wait
| Fail (error : string).
Arguments Got {A}. Arguments Wait {A}. Arguments Fail {A}.

Class FrameDecoder (F : Type) := {
  fd_limit : Z;
  fd_append : bytes -> bytes -> option bytes;
  fd_take : bytes -> outcome F * bytes;
  fd_wf : F -> Prop;
  fd_bytes : F -> bytes;
}.

Class FrameDecoderLaws (F : Type) `{FrameDecoder F} := {
  fd_append_fits : forall buf chunk,
    zlen buf + zlen chunk <= fd_limit -> fd_append buf chunk = Some (buf ++ chunk);
  fd_append_capped : forall buf chunk buf',
    fd_append buf chunk = Some buf' -> zlen buf' <= fd_limit;
  fd_take_nil : fd_take [] = (Wait, []);
  fd_take_frame : forall f rest, fd_wf f -> fd_take (fd_bytes f ++ rest) = (Got f, rest);
  fd_take_partial : forall f p q, fd_wf f -> q <> [] -> p ++ q = fd_bytes f ->
    fd_take p = (Wait, p);
  fd_bytes_nonempty : forall f, fd_wf f -> fd_bytes f <> [];
}.

(** The loop [while (auto frame = decoder.take())]. Every frame removes at
    least one byte, so the buffer's length bounds the rounds. *)
Fixpoint fd_drain {F} `{FrameDecoder F} (fuel : nat) (buf : bytes) : list F * bytes :=
  match fuel with
  | O => ([], buf)
  | S k => match fd_take buf with
           | (Got f, rest) => let '(fs, b) := fd_drain k rest in (f :: fs, b)
           | (_, b) => ([], b)
           end
  end.

(** A reader that appends each chunk it receives and drains the buffer. *)
Fixpoint fd_feed {F} `{FrameDecoder F} (buf : bytes) (chunks : list bytes)
  : option (list F * bytes) :=
  match chunks with
  | [] => Some ([], buf)
  | c :: cs =>
      b ← fd_append buf c;
      let '(fs, b') := fd_drain (S (length b)) b in
      '(fs', b'') ← fd_feed b' cs;
      Some (fs ++ fs', b'')
  end.

Section laws.
Context {F : Type} `{FrameDecoderLaws F}.

Definition stream (frames : list F) : bytes := concat (fd_bytes <$> frames).

(** What is left of a stream when it has been cut after some frame. *)
Definition mid_frame (buf : bytes) (todo : list F) : Prop :=
  match todo with
  | [] => buf = []
  | f :: _ => exists q, q <> [] /\ buf ++ q = fd_bytes f
  end.

Lemma fd_drain_spec frames : forall fuel buf s,
  Forall fd_wf frames -> (length buf < fuel)%nat -> buf ++ s = stream frames ->
  exists got todo b, frames = got ++ todo /\ fd_drain fuel buf = (got, b) /\
    b ++ s = stream todo /\ mid_frame b todo.
Proof.
  induction frames as [|f fs IH]; intros [|fuel] buf s Hwf Hlt Hs; try lia.
  - apply app_eq_nil in Hs as [-> ->]. exists [], [], []. simpl. by rewrite fd_take_nil.
  - apply Forall_cons_1 in Hwf as [Hf Hwf]. unfold stream in Hs. simpl in Hs.
    fold (stream fs) in Hs. pose proof (fd_bytes_nonempty f Hf) as Hne.
    destruct (le_lt_dec (length (fd_bytes f)) (length buf)) as [Hle|Hgt].
    + assert (buf = fd_bytes f ++ drop (length (fd_bytes f)) buf) as E.
      { rewrite <- (take_drop (length (fd_bytes f)) buf) at 1. f_equal.
        apply (f_equal (take (length (fd_bytes f)))) in Hs.
        by rewrite take_app_length, take_app_le in Hs. }
      rewrite E in Hs. rewrite <- app_assoc in Hs. apply app_inv_head in Hs.
      destruct (IH fuel (drop (length (fd_bytes f)) buf) s) as (got&todo&b&->&Hd&Hb&Hm);
        [done| |done|].
      { rewrite length_drop. destruct (fd_bytes f); [done|]. simpl in *. lia. }
      exists (f :: got), todo, b. rewrite E at 1. simpl. by rewrite fd_take_frame, Hd.
    + assert (buf ++ drop (length buf) (fd_bytes f) = fd_bytes f) as E.
      { rewrite <- (take_drop (length buf) (fd_bytes f)) at 2. f_equal.
        apply (f_equal (take (length buf))) in Hs.
        rewrite take_app_length, take_app_le in Hs by lia. done. }
      assert (drop (length buf) (fd_bytes f) <> []) as Hq.
      { intros Hd. apply (f_equal length) in Hd. rewrite length_drop in Hd. simpl in Hd. lia. }
      exists [], (f :: fs), buf. simpl. rewrite (fd_take_partial f _ _ Hf Hq E).
      split_and!; [done|done| |eauto]. unfold stream. simpl. by fold (stream fs).
Qed.

(** One [take] at the front of a stream: a whole frame is cut off, or what is
    buffered is a proper part of the next one. *)
Lemma fd_take_stream f frames buf s : fd_wf f -> buf ++ s = stream (f :: frames) ->
  (exists b, fd_take buf = (Got f, b) /\ b ++ s = stream frames) \/
  (fd_take buf = (Wait, buf) /\ zlen buf < zlen (fd_bytes f) /\ s <> []).
Proof.
  intros Hf Hs. unfold stream in Hs. cbn [fmap list_fmap concat] in Hs. fold (stream frames) in Hs.
  destruct (le_lt_dec (length (fd_bytes f)) (length buf)) as [Hle|Hgt].
  - left. exists (drop (length (fd_bytes f)) buf).
    assert (buf = fd_bytes f ++ drop (length (fd_bytes f)) buf) as E.
    { rewrite <- (take_drop (length (fd_bytes f)) buf) at 1. f_equal.
      apply (f_equal (take (length (fd_bytes f)))) in Hs. by rewrite take_app_length, take_app_le in Hs. }
    split; [rewrite E at 1; by apply fd_take_frame|].
    rewrite E, <- app_assoc in Hs. by apply app_inv_head in Hs.
  - right.
    assert (buf ++ drop (length buf) (fd_bytes f) = fd_bytes f) as E.
    { rewrite <- (take_drop (length buf) (fd_bytes f)) at 2. f_equal.
      apply (f_equal (take (length buf))) in Hs. by rewrite take_app_length, take_app_le in Hs by lia. }
    assert (drop (length buf) (fd_bytes f) <> []) as Hq.
    { intros Hd. apply (f_equal length) in Hd. rewrite length_drop in Hd. simpl in Hd. lia. }
    split_and!; [by apply (fd_take_partial f _ _ Hf Hq E)|unfold zlen; lia|].
    intros ->. rewrite app_nil_r in Hs. subst buf. rewrite length_app in Hgt. lia.
Qed.

(** Chunking is invisible: the frames written are the frames read, provided
    that a frame and one chunk fit the receive buffer together. *)
Lemma fd_feed_stream chunks : forall frames buf m,
  Forall fd_wf frames ->
  Forall (fun f => zlen (fd_bytes f) + m <= fd_limit + 1) frames ->
  Forall (fun c => zlen c <= m) chunks -> m <= fd_limit ->
  mid_frame buf frames ->
  buf ++ concat chunks = stream frames ->
  fd_feed buf chunks = Some (frames, []).
Proof.
  induction chunks as [|c cs IH]; intros frames buf m Hwf Hsz Hc Hm Hmid Hs; simpl in *.
  - rewrite app_nil_r in Hs. destruct frames as [|f fs]; simpl in Hmid; [by subst|].
    destruct Hmid as (q&Hq&Hbuf). exfalso. apply (f_equal length) in Hs, Hbuf.
    unfold stream in Hs. simpl in Hs. rewrite !length_app in *.
    destruct q; [done|]. simpl in *. lia.
  - apply Forall_cons_1 in Hc as [Hc Hcs].
    rewrite (fd_append_fits buf c).
    2: { destruct frames as [|f fs]; simpl in Hmid; [subst; zl|].
         destruct Hmid as (q&Hq&Hbuf). apply Forall_cons_1 in Hsz as [Hsz _].
         rewrite <- Hbuf in Hsz. destruct q; [done|]. zl.
         pose proof (zlen_nonneg q). lia. }
    simpl. rewrite app_assoc in Hs.
    destruct (fd_drain_spec frames (S (length (buf ++ c))) (buf ++ c) (concat cs))
      as (got&todo&b&->&Hd&Hb&Hmid'); [done|lia|done|].
    change (match fd_take (buf ++ c) with (Got f, rest) =>
      let '(fs, b0) := fd_drain (length (buf ++ c)) rest in (f :: fs, b0) | (_, b0) => ([], b0) end)
      with (fd_drain (S (length (buf ++ c))) (buf ++ c)).
    rewrite Hd. apply Forall_app in Hwf as [_ Hwf]. apply Forall_app in Hsz as [_ Hsz].
    by rewrite (IH todo b m).
Qed.

Lemma fd_feed_frames frames chunks m :
  Forall fd_wf frames ->
  Forall (fun f => zlen (fd_bytes f) + m <= fd_limit + 1) frames ->
  Forall (fun c => zlen c <= m) chunks -> m <= fd_limit ->
  concat chunks = stream frames ->
  fd_feed [] chunks = Some (frames, []).
Proof.
  intros Hwf Hsz Hc Hm Hs. apply (fd_feed_stream _ _ _ m); try done.
  destruct frames as [|f fs]; simpl; [done|]. exists (fd_bytes f). split; [|done].
  apply fd_bytes_nonempty. by apply Forall_cons_1 in Hwf as [? _].
Qed.
End laws.

(** ** Length-prefixed frames. All four [take()] methods are this function, for
    their own header size, length field, cap and frame constructor: wait for
    the header, drop the buffer when the announced length is over the cap, wait
    for the payload, cut one frame. *)
Record prefixed (F : Type) := {
  pf_header : nat;
  pf_length : bytes -> Z;
  pf_cap : Z;
  pf_frame : bytes -> F;
  pf_error : string;
}.
Arguments pf_header {F}. Arguments pf_length {F}. Arguments pf_cap {F}.
Arguments pf_frame {F}. Arguments pf_error {F}.

Definition prefixed_take {F} (P : prefixed F) (buf : bytes) : outcome F * bytes :=
  if (length buf <? pf_header P)%nat then (Wait, buf)
  else if pf_cap P <? pf_length P buf then (Fail (pf_error P), [])
  else
    let n := (pf_header P + Z.to_nat (pf_length P buf))%nat in
    if (length buf <? n)%nat then (Wait, buf)
    else (Got (pf_frame P (take n buf)), drop n buf).

(** The length field is read from the header alone. *)
Definition pf_local {F} (P : prefixed F) : Prop :=
  forall b c, (pf_header P <= length b)%nat -> pf_length P (b ++ c) = pf_length P b.

(** [fb] is the encoding of the frame [f]. *)
Definition pf_encodes {F} (P : prefixed F) (f : F) (fb : bytes) : Prop :=
  length fb = (pf_header P + Z.to_nat (pf_length P fb))%nat /\
  pf_length P fb <= pf_cap P /\ pf_frame P fb = f.

Lemma prefixed_take_frame {F} (P : prefixed F) f fb rest :
  pf_local P -> pf_encodes P f fb -> prefixed_take P (fb ++ rest) = (Got f, rest).
Proof.
  intros Hl (Hlen&Hcap&Hf). unfold prefixed_take. cbv zeta.
  pose proof (Hl fb rest ltac:(lia)) as El. rewrite El, length_app.
  destruct (Nat.ltb_spec (length fb + length rest) (pf_header P)); [lia|].
  destruct (Z.ltb_spec (pf_cap P) (pf_length P fb)); [lia|]. rewrite ?El, <- Hlen.
  destruct (Nat.ltb_spec (length fb + length rest) (length fb)); [lia|].
  by rewrite take_app_length, drop_app_length, Hf.
Qed.

Lemma prefixed_take_partial {F} (P : prefixed F) f p q :
  pf_local P -> pf_encodes P f (p ++ q) -> q <> [] -> prefixed_take P p = (Wait, p).
Proof.
  intros Hl (Hlen&Hcap&Hf) Hq. unfold prefixed_take.
  destruct (Nat.ltb_spec (length p) (pf_header P)) as [|Hge]; [done|].
  rewrite Hl in Hlen, Hcap by lia.
  destruct (Z.ltb_spec (pf_cap P) (pf_length P p)); [lia|]. cbv zeta.
  destruct (Nat.ltb_spec (length p) (pf_header P + Z.to_nat (pf_length P p))) as [|Hge']; [done|].
  rewrite length_app in Hlen. destruct q; [done|]. simpl in Hlen. lia.
Qed.

(** Whatever the buffer holds, [take] keeps a suffix of it or drops it all. *)
Lemma prefixed_take_buffer {F} (P : prefixed F) buf o b :
  prefixed_take P buf = (o, b) ->
  match o with
  | Got f => exists n, (pf_header P <= n <= length buf)%nat /\
      f = pf_frame P (take n buf) /\ b = drop n buf
  | Wait => b = buf
  | Fail e => b = [] /\ e = pf_error P
  end.
Proof.
  unfold prefixed_take. case (Nat.ltb_spec (length buf) (pf_header P)); intros H1; [by intros [= <- <-]|].
  destruct (pf_cap P <? pf_length P buf); [by intros [= <- <-]|]. cbv zeta.
  case (Nat.ltb_spec (length buf) (pf_header P + Z.to_nat (pf_length P buf)));
    intros H2; intros [= <- <-]; [done|]. eexists. split; [|done]. lia.
Qed.
