(* ===== verification/Endpoint.v ===== *)
(** IPv4 UDP endpoints ([IPv4Endpoint] of [TailscaleDisco.hpp]), their text
    form, and the big-endian accessors of [TailscaleDisco.cpp].

    A read through a pointer is checked here: it returns [None] when it would
    leave the buffer, which in the source is undefined behaviour. The parsers
    built on it therefore carry their own memory safety as a theorem: they
    never return [None]. *)

From S2P Require Import Prelude Bytes Text.

(** [p[off]] and a [memcpy] of [n] bytes from [p + off]. *)
Definition rd (p : bytes) (off : nat) : option Z := ub <$> p !! off.
Definition rd_n (p : bytes) (off n : nat) : option bytes :=
  if (off + n <=? length p)%nat then Some (take n (drop off p)) else None.

Definition putU16 (out : bytes) (value : Z) : bytes :=
  out ++ [u8 (Z.shiftr value 8); u8 (Z.land value 255)].

Definition putU32 (out : bytes) (value : Z) : bytes :=
  out ++ [u8 (Z.shiftr value 24); u8 (Z.shiftr value 16); u8 (Z.shiftr value 8);
          u8 (Z.land value 255)].

Definition getU16 (p : bytes) (off : nat) : option Z :=
  b0 ← rd p off; b1 ← rd p (off + 1);
  Some (u16 (Z.lor (Z.shiftl b0 8) b1)).

Definition getU32 (p : bytes) (off : nat) : option Z :=
  b0 ← rd p off; b1 ← rd p (off + 1); b2 ← rd p (off + 2); b3 ← rd p (off + 3);
  Some (Z.lor (Z.lor (Z.lor (u32 (Z.shiftl b0 24)) (Z.shiftl b1 16)) (Z.shiftl b2 8)) b3).

(** ** Endpoints *)

Record IPv4Endpoint := { address : Z; port : Z }.
#[export] Instance IPv4Endpoint_eq_dec : EqDecision IPv4Endpoint.
Proof. solve_decision. Defined.

Definition no_endpoint : IPv4Endpoint := {| address := 0; port := 0 |}.

Definition valid (ep : IPv4Endpoint) : bool := negb (address ep =? 0) && negb (port ep =? 0).

(** The ranges of the [std::uint32_t] and [std::uint16_t] fields. *)
Definition endpoint_wf (ep : IPv4Endpoint) : Prop :=
  0 <= address ep < 2 ^ 32 /\ 0 <= port ep < 2 ^ 16.

Definition toString (ep : IPv4Endpoint) : bytes :=
  to_string (Z.land (Z.shiftr (address ep) 24) 255) ++ bs "." ++
  to_string (Z.land (Z.shiftr (address ep) 16) 255) ++ bs "." ++
  to_string (Z.land (Z.shiftr (address ep) 8) 255) ++ bs "." ++
  to_string (Z.land (address ep) 255) ++ bs ":" ++ to_string (port ep).

(** One piece of the dotted quad: the test inside the loop of [parse]. *)
Definition octet_ok (piece : bytes) : option Z :=
  let r := from_chars_unsigned piece 0 in
  if bool_decide (piece = []) || (3 <? length piece)%nat ||
     negb (bool_decide (fc_ec r = ErrNone)) || negb (fc_ptr r =? length piece)%nat ||
     (255 <? fc_value r)
  then None else Some (fc_value r).

(** The loop [while (begin <= host.size())] of [parse], returning [value] and
    [parts]; [begin] grows each round, so [length host + 1] rounds suffice. *)
Fixpoint parse_octets (fuel : nat) (host : bytes) (begin : nat) (value parts : Z)
  : option (Z * Z) :=
  match fuel with
  | O => None
  | S k =>
      if (begin <=? length host)%nat then
        let dot := find_from (ch ".") begin host in
        let piece := match dot with
                     | None => substr_from begin host
                     | Some d => substr begin (d - begin) host
                     end in
        octet ← octet_ok piece;
        let value := Z.lor (u32 (Z.shiftl value 8)) octet in
        match dot with
        | None => Some (value, parts + 1)
        | Some d => parse_octets k host (d + 1) value (parts + 1)
        end
      else Some (value, parts)
  end.

Definition parse (text : bytes) : option IPv4Endpoint :=
  colon ← rfind (ch ":") text;
  let host := substr 0 colon text in
  let portText := substr_from (colon + 1) text in
  let portResult := from_chars_unsigned portText 0 in
  if bool_decide (portText = []) || negb (bool_decide (fc_ec portResult = ErrNone)) ||
     negb (fc_ptr portResult =? length portText)%nat || (fc_value portResult =? 0) ||
     (65535 <? fc_value portResult)
  then None
  else
    '(value, parts) ← parse_octets (S (length host)) host 0 0 0;
    if negb (parts =? 4) then None
    else
      let ep := {| address := value; port := u16 (fc_value portResult) |} in
      if negb (valid ep) then None else Some ep.

(** ** Facts about the accessors *)

Lemma putU16_be out v : putU16 out v = out ++ be_bytes 2 v.
Proof. unfold putU16. by rewrite be16_put. Qed.

Lemma putU32_be out v : putU32 out v = out ++ be_bytes 4 v.
Proof. unfold putU32. rewrite <- be32_put, land_255, u8_mod. done. Qed.

Lemma rd_n_is_Some p off n : (off + n <= length p)%nat -> rd_n p off n = Some (take n (drop off p)).
Proof. intros. unfold rd_n. by rewrite (proj2 (Nat.leb_le _ _)). Qed.

Lemma rd_lookup p off b : p !! off = Some b -> rd p off = Some (ub b).
Proof. unfold rd. by intros ->. Qed.

Lemma rd_middle l x r n : n = length l -> rd (l ++ x :: r) n = Some (ub x).
Proof. intros. by apply rd_lookup, list_lookup_middle. Qed.

Lemma take_drop_cons {A} (l : list A) i x n : l !! i = Some x ->
  take (S n) (drop i l) = x :: take n (drop (S i) l).
Proof. intros H. by rewrite (drop_S l x i H). Qed.

Lemma getU16_be p off : (off + 2 <= length p)%nat ->
  getU16 p off = Some (be_value (take 2 (drop off p))).
Proof.
  intros H. destruct (lookup_lt_is_Some_2 p off) as [a Ha]; [lia|].
  destruct (lookup_lt_is_Some_2 p (off + 1)) as [b Hb]; [lia|].
  unfold getU16. rewrite (rd_lookup _ _ _ Ha), (rd_lookup _ _ _ Hb). simpl.
  rewrite be16_lor. rewrite (take_drop_cons _ _ a) by done.
  rewrite Nat.add_1_r in Hb. rewrite (take_drop_cons _ _ b) by done. simpl.
  f_equal. unfold u16. apply Z.mod_small. pose proof (be_value_bound [a; b]). done.
Qed.

Lemma getU32_be p off : (off + 4 <= length p)%nat ->
  getU32 p off = Some (be_value (take 4 (drop off p))).
Proof.
  intros H. destruct (lookup_lt_is_Some_2 p off) as [a Ha]; [lia|].
  destruct (lookup_lt_is_Some_2 p (off + 1)) as [b Hb]; [lia|].
  destruct (lookup_lt_is_Some_2 p (off + 2)) as [c Hc]; [lia|].
  destruct (lookup_lt_is_Some_2 p (off + 3)) as [d Hd]; [lia|].
  unfold getU32. rewrite (rd_lookup _ _ _ Ha), (rd_lookup _ _ _ Hb), (rd_lookup _ _ _ Hc),
    (rd_lookup _ _ _ Hd). simpl.
  assert (u32 (ub a ≪ 24) = ub a ≪ 24) as ->.
  { unfold u32. apply Z.mod_small. rewrite Z.shiftl_mul_pow2 by lia. ub_bounds. lia. }
  rewrite be32_lor, (take_drop_cons _ _ a) by done.
  rewrite (take_drop_cons _ _ b) by (by rewrite <- Nat.add_1_r).
  rewrite (take_drop_cons _ _ c) by (by replace (S (S off)) with (off + 2)%nat by lia).
  rewrite (take_drop_cons _ _ d) by (by replace (S (S (S off))) with (off + 3)%nat by lia).
  done.
Qed.

Lemma be_value_lt p off n : 0 <= be_value (take n (drop off p)) < 256 ^ Z.of_nat n.
Proof.
  pose proof (be_value_bound (take n (drop off p))) as H. split; [lia|].
  eapply Z.lt_le_trans; [apply H|]. apply Z.pow_le_mono_r; [lia|].
  unfold zlen. rewrite length_take. lia.
Qed.

(** ** The dotted quad *)

(** What the loop computes, on the list of pieces between the dots. *)
Fixpoint quad_fold (pieces : list bytes) (value parts : Z) : option (Z * Z) :=
  match pieces with
  | [] => Some (value, parts)
  | p :: ps => octet ← octet_ok p;
               quad_fold ps (Z.lor (u32 (Z.shiftl value 8)) octet) (parts + 1)
  end.

Lemma parse_octets_spec fuel : forall host begin value parts,
  (begin <= length host)%nat -> (length host < begin + fuel)%nat ->
  parse_octets fuel host begin value parts = quad_fold (split_on (ch ".") (drop begin host)) value parts.
Proof.
  induction fuel as [|k IH]; intros host begin value parts Hb Hf; [lia|].
  cbn [parse_octets]. rewrite (proj2 (Nat.leb_le _ _)) by done.
  rewrite find_from_split by done.
  destruct (find_from (ch ".") begin host) as [d|] eqn:E; cbn [quad_fold].
  - apply find_from_bound in E. destruct (octet_ok _); simpl; [|done].
    rewrite Nat.add_1_r. apply IH; lia.
  - unfold substr_from. by destruct (octet_ok _).
Qed.

Lemma octet_ok_range p v : octet_ok p = Some v -> 0 <= v < 256.
Proof.
  unfold octet_ok. destruct (bool_decide (p = [])); simpl; [done|].
  destruct (3 <? length p)%nat; simpl; [done|]. case_bool_decide as Hec; simpl; [|done].
  destruct (Nat.eqb_spec (fc_ptr (from_chars_unsigned p 0)) (length p)) as [Hp|]; simpl; [|done].
  destruct (Z.ltb_spec 255 (fc_value (from_chars_unsigned p 0))) as [|Hv]; simpl; [done|].
  intros [= <-]. destruct (from_chars_unsigned_full p 0 Hec Hp) as (_&Hd&HE&_).
  rewrite HE in *. pose proof (dec_value_bound p Hd). lia.
Qed.

Lemma octet_ok_to_string v : 0 <= v < 256 -> octet_ok (to_string v) = Some v.
Proof.
  intros Hv. unfold octet_ok.
  assert (dec_value (to_string v) = v) as Hd by (apply to_string_value; lia).
  rewrite from_chars_unsigned_digits;
    [|apply to_string_nonempty; lia|apply to_string_digits; lia|rewrite Hd; lia].
  cbn [fc_ec fc_ptr fc_value]. rewrite Hd.
  rewrite bool_decide_false by (apply to_string_nonempty; lia).
  assert ((3 <? length (to_string v))%nat = false) as ->.
  { assert (length (to_string v) <= 3)%nat; [|by apply Nat.ltb_ge].
    unfold to_string. assert (Z.log2 v <= 7).
    { destruct (Z.eq_dec v 0) as [->|]; [done|]. apply Z.lt_succ_r, Z.log2_lt_pow2; lia. }
    pose proof (Z.log2_nonneg v). cbn [dec_digits].
    destruct (Z.ltb_spec v 10); [simpl; lia|]. rewrite length_app. simpl.
    destruct (Z.to_nat (Z.log2 v)) as [|k1]; [simpl; lia|]. cbn [dec_digits].
    destruct (Z.ltb_spec (v / 10) 10); [simpl; lia|]. rewrite length_app. simpl.
    destruct k1 as [|k2]; [simpl; lia|]. cbn [dec_digits].
    rewrite (proj2 (Z.ltb_lt (v / 10 / 10) 10)); [simpl; lia|].
    rewrite Z.div_div by lia. apply Z.div_lt_upper_bound; lia. }
  rewrite bool_decide_true, Nat.eqb_refl, (proj2 (Z.ltb_ge 255 v)) by (done || lia). done.
Qed.

Lemma shift_in v o : 0 <= v < 2 ^ 24 -> 0 <= o < 256 ->
  Z.lor (u32 (Z.shiftl v 8)) o = v * 256 + o.
Proof.
  intros. assert (u32 (Z.shiftl v 8) = Z.shiftl v 8) as ->.
  { unfold u32. rewrite Z.shiftl_mul_pow2 by lia. apply Z.mod_small. lia. }
  by rewrite lor_shiftl_add by lia.
Qed.

Lemma quad_fold_range ps : forall value parts r n,
  quad_fold ps value parts = Some (r, n) -> n = parts + zlen ps.
Proof.
  induction ps as [|p ps IH]; intros value parts r n; simpl.
  - intros [= <- <-]. zl.
  - destruct (octet_ok p); simpl; [|done]. intros H%IH. zl.
Qed.

Lemma quad_fold_4 a b c d (oa ob oc od : Z) :
  octet_ok a = Some oa -> octet_ok b = Some ob -> octet_ok c = Some oc -> octet_ok d = Some od ->
  quad_fold [a; b; c; d] 0 0 = Some (be_value [u8 oa; u8 ob; u8 oc; u8 od], 4).
Proof.
  intros Ha Hb Hc Hd. cbn [quad_fold]. rewrite Ha, Hb, Hc, Hd. simpl.
  apply octet_ok_range in Ha, Hb, Hc, Hd.
  rewrite (shift_in 0), (shift_in (0 * 256 + oa)), (shift_in ((0 * 256 + oa) * 256 + ob)),
    (shift_in (((0 * 256 + oa) * 256 + ob) * 256 + oc)) by lia.
  unfold be_value. simpl. rewrite !ub_u8_small by lia. done.
Qed.

(** The quad accepted by the loop: exactly four octets, most significant
    first. *)
Lemma quad_fold_inv ps r : quad_fold ps 0 0 = Some (r, 4) ->
  exists a b c d oa ob oc od, ps = [a; b; c; d] /\
    octet_ok a = Some oa /\ octet_ok b = Some ob /\ octet_ok c = Some oc /\ octet_ok d = Some od /\
    r = be_value [u8 oa; u8 ob; u8 oc; u8 od].
Proof.
  intros H. pose proof (quad_fold_range _ _ _ _ _ H) as Hn.
  destruct ps as [|a [|b [|c [|d [|e rest]]]]]; zl; [|pose proof (zlen_nonneg rest); lia].
  cbn [quad_fold] in H.
  destruct (octet_ok a) as [oa|] eqn:Ea; simpl in H; [|done].
  destruct (octet_ok b) as [ob|] eqn:Eb; simpl in H; [|done].
  destruct (octet_ok c) as [oc|] eqn:Ec; simpl in H; [|done].
  destruct (octet_ok d) as [od|] eqn:Ed; simpl in H; [|done].
  exists a, b, c, d, oa, ob, oc, od. split_and!; try done.
  pose proof (quad_fold_4 a b c d oa ob oc od Ea Eb Ec Ed) as H4.
  cbn [quad_fold] in H4. rewrite Ea, Eb, Ec, Ed in H4. simpl in H4. congruence.
Qed.

Lemma octet_ok_Some p o : octet_ok p = Some o <->
  p <> [] /\ (length p <= 3)%nat /\ Forall (fun x => is_digit x = true) p /\
  o = dec_value p /\ dec_value p <= 255.
Proof.
  split.
  - unfold octet_ok. case_bool_decide as Hne; simpl; [done|].
    destruct (Nat.ltb_spec 3 (length p)); simpl; [done|]. case_bool_decide as Hec; simpl; [|done].
    destruct (Nat.eqb_spec (fc_ptr (from_chars_unsigned p 0)) (length p)) as [Hp|]; simpl; [|done].
    destruct (from_chars_unsigned_full p 0 Hec Hp) as (_&Hd&HE&_). rewrite HE.
    destruct (Z.ltb_spec 255 (dec_value p)) as [|Hv]; simpl; [done|].
    intros [= <-]. done.
  - intros (Hne&Hlen&Hd&->&Hv). unfold octet_ok.
    pose proof (dec_value_bound p Hd). rewrite from_chars_unsigned_digits by (done || lia).
    cbn [fc_ec fc_ptr fc_value]. rewrite bool_decide_false by done.
    rewrite (proj2 (Nat.ltb_ge 3 (length p)) Hlen), bool_decide_true, Nat.eqb_refl,
      (proj2 (Z.ltb_ge 255 (dec_value p))) by (done || lia). done.
Qed.

(** The text form, independently of the parsing loop. *)
Definition endpoint_text (a b c d p : bytes) : bytes := join (ch ".") [a; b; c; d] ++ ch ":" :: p.

Definition quad_value (a b c d : bytes) : Z :=
  be_value [u8 (dec_value a); u8 (dec_value b); u8 (dec_value c); u8 (dec_value d)].

Definition octet_text (p : bytes) : Prop :=
  p <> [] /\ (length p <= 3)%nat /\ Forall (fun x => is_digit x = true) p /\ dec_value p <= 255.

Definition port_text (p : bytes) : Prop :=
  p <> [] /\ Forall (fun x => is_digit x = true) p /\ 1 <= dec_value p <= 65535.

Lemma octet_text_ok p : octet_text p -> octet_ok p = Some (dec_value p).
Proof. intros (?&?&?&?). by apply octet_ok_Some. Qed.

Lemma octet_text_no_dot p : octet_text p -> ch "." ∉ p.
Proof. intros (_&_&H&_). by eapply digits_no_char. Qed.

Lemma parse_text a b c d p :
  octet_text a -> octet_text b -> octet_text c -> octet_text d -> port_text p ->
  quad_value a b c d <> 0 ->
  parse (endpoint_text a b c d p) = Some {| address := quad_value a b c d; port := dec_value p |}.
Proof.
  intros Ha Hb Hc Hd (Hpne&Hpd&Hpv) Hq. unfold parse, endpoint_text.
  rewrite rfind_app_r by (by eapply digits_no_char). cbn [mbind option_bind].
  unfold substr, substr_from. rewrite drop_0, take_app_length, Nat.add_1_r.
  assert (drop (S (length (join (ch ".") [a; b; c; d]))) (join (ch ".") [a; b; c; d] ++ ch ":" :: p)
    = p) as -> by (rewrite cons_middle, app_assoc; apply drop_app_length'; rewrite length_app; simpl; lia).
  rewrite from_chars_unsigned_digits by (done || lia). cbn [fc_ec fc_ptr fc_value].
  rewrite bool_decide_false, bool_decide_true, Nat.eqb_refl, (proj2 (Z.eqb_neq (dec_value p) 0)),
    (proj2 (Z.ltb_ge 65535 (dec_value p))) by (done || lia). simpl orb. cbv iota.
  rewrite parse_octets_spec by lia. rewrite drop_0, split_on_join;
    [|done|repeat constructor; by apply octet_text_no_dot].
  rewrite (quad_fold_4 _ _ _ _ _ _ _ _ (octet_text_ok _ Ha) (octet_text_ok _ Hb)
    (octet_text_ok _ Hc) (octet_text_ok _ Hd)). cbn [mbind option_bind].
  fold (quad_value a b c d). unfold u16. rewrite (Z.mod_small (dec_value p)) by lia.
  unfold valid. cbn [address port]. rewrite (proj2 (Z.eqb_neq _ 0)), (proj2 (Z.eqb_neq _ 0)); done || lia.
Qed.

Lemma be_value_octets v : 0 <= v < 2 ^ 32 ->
  be_value [u8 (Z.shiftr v 24); u8 (Z.shiftr v 16); u8 (Z.shiftr v 8); u8 v] = v.
Proof. intros. rewrite be32_put. apply be_value_bytes. by change (256 ^ Z.of_nat 4) with (2 ^ 32). Qed.

(** Formatting then parsing an endpoint is the identity on every valid
    endpoint. *)
Theorem parse_toString ep : endpoint_wf ep -> valid ep = true -> parse (toString ep) = Some ep.
Proof.
  intros [Ha Hp] Hv. destruct ep as [addr prt]. unfold valid in Hv. cbn [address port] in *.
  apply andb_true_iff in Hv as [Hv1 Hv2]. rewrite negb_true_iff, Z.eqb_neq in Hv1, Hv2.
  set (o := fun s => to_string (Z.land (Z.shiftr addr s) 255)).
  assert (forall s, octet_text (o s) /\ u8 (dec_value (o s)) = u8 (Z.shiftr addr s)) as Ho.
  { intros s. unfold o. rewrite land_255.
    pose proof (Z.mod_pos_bound (Z.shiftr addr s) 256 ltac:(lia)) as Hm.
    pose proof (octet_ok_to_string _ Hm) as H%octet_ok_Some. rewrite to_string_value by lia.
    split; [|by rewrite u8_mod]. destruct H as (?&?&?&?&?). done. }
  assert (quad_value (o 24) (o 16) (o 8) (o 0) = addr) as HQ.
  { unfold quad_value. rewrite !(proj2 (Ho _)), Z.shiftr_0_r. by apply be_value_octets. }
  transitivity (parse (endpoint_text (o 24) (o 16) (o 8) (o 0) (to_string prt))).
  { f_equal. unfold toString, endpoint_text, o. cbn [join address port].
    rewrite Z.shiftr_0_r. change (bs ".") with [ch "."]. change (bs ":") with [ch ":"].
    repeat (rewrite <- app_assoc; cbn [app]). done. }
  rewrite parse_text; try apply Ho.
  - rewrite HQ, to_string_value by lia. done.
  - split_and!; [by apply to_string_nonempty; lia|apply to_string_digits; lia|..];
      rewrite to_string_value; lia.
  - by rewrite HQ.
Qed.

#[local] Arguments parse_octets : simpl never.

(** What [parse] accepts: exactly four decimal octets of at most three
    digits and a decimal port from 1 to 65535, with a non-zero address; IPv6,
    host names and trailing text are refused. *)
Theorem parse_accepts text ep :
  parse text = Some ep <->
  exists a b c d p, text = endpoint_text a b c d p /\
    octet_text a /\ octet_text b /\ octet_text c /\ octet_text d /\ port_text p /\
    quad_value a b c d <> 0 /\
    ep = {| address := quad_value a b c d; port := dec_value p |}.
Proof.
  split; [|intros (a&b&c&d&p&->&?&?&?&?&?&?&->); by apply parse_text].
  unfold parse. destruct (rfind (ch ":") text) as [k|] eqn:HR; cbn [mbind option_bind]; [|done].
  apply rfind_Some in HR as (Htext&Hno&Hk). unfold substr, substr_from. rewrite drop_0.
  set (host := take k text) in *. set (p := drop (k + 1) text) in *.
  case_bool_decide as Hpne; simpl; [done|]. case_bool_decide as Hec; simpl; [|done].
  destruct (Nat.eqb_spec (fc_ptr (from_chars_unsigned p 0)) (length p)) as [Hpp|]; simpl; [|done].
  destruct (from_chars_unsigned_full p 0 Hec Hpp) as (_&Hpd&HE&_). rewrite HE.
  destruct (Z.eqb_spec (dec_value p) 0) as [|Hp0]; simpl; [done|].
  destruct (Z.ltb_spec 65535 (dec_value p)) as [|Hp1]; [done|].
  pose proof (dec_value_bound p Hpd) as Hpb.
  rewrite (parse_octets_spec _ host 0) by lia. rewrite drop_0.
  destruct (quad_fold _ 0 0) as [[v n]|] eqn:HQ; cbn [mbind option_bind]; [|done].
  destruct (Z.eqb_spec n 4) as [->|]; simpl; [|done].
  apply quad_fold_inv in HQ as (a&b&c&d&oa&ob&oc&od&Hsplit&Ha&Hb&Hc&Hd&->).
  apply octet_ok_Some in Ha as (?&?&?&->&?), Hb as (?&?&?&->&?), Hc as (?&?&?&->&?),
    Hd as (?&?&?&->&?).
  fold (quad_value a b c d). unfold valid. cbn [address port].
  destruct (Z.eqb_spec (quad_value a b c d) 0) as [|Hq]; simpl; [done|].
  destruct (Z.eqb_spec (u16 (dec_value p)) 0); simpl; [done|]. intros [= <-].
  exists a, b, c, d, p. unfold octet_text, port_text. split_and!; try done; try lia.
  - unfold endpoint_text. rewrite <- Hsplit, join_split_on. done.
  - f_equal. unfold u16. apply Z.mod_small. lia.
Qed.

Lemma parse_toString_witness :
  parse (toString {| address := 0xC0A80114; port := 41641 |})
  = Some {| address := 0xC0A80114; port := 41641 |}.
Proof. apply parse_toString; [split; cbn; lia|reflexivity]. Defined.

Example toString_text :
  toString {| address := 0xC0A80114; port := 41641 |} = bs "192.168.1.20:41641".
Proof. vm_compute. reflexivity. Qed.

Example parse_refuses :
  parse <$> [bs "[fe80::1]:41641"; bs "host:41641"; bs "1.2.3:4"; bs "1.2.3.4.5:6"; bs "1.2.3.4:0";
             bs "1.2.3.4:65536"; bs "1.2.3.256:80"; bs "1.2.3.4:80 "; bs "0.0.0.0:80"]
  = replicate 9 None.
Proof. vm_compute. reflexivity. Qed.
