(* ===== verification/DirectPath.v ===== *)
(** [DirectPath] ([TailscaleDisco.cpp]): which UDP endpoint of a peer WireGuard
    may use. Candidates are pinged on a heartbeat; only a pong that answers an
    outstanding ping, from the address that was pinged, makes an endpoint the
    best one, and it stays trusted for a short window. Time points and
    durations are nanoseconds of the steady clock. *)

From S2P Require Import Prelude Endpoint.

Definition milliseconds (n : Z) : Z := n * 1000000.
Definition seconds (n : Z) : Z := n * 1000000000.

Definition kTrustDuration : Z := milliseconds 6500.
Definition kHeartbeat : Z := seconds 3.
Definition kPingTimeout : Z := seconds 5.
Definition kMaxCandidates : nat := 16.

Record Candidate := { cd_endpoint : IPv4Endpoint; cd_lastPing : Z; cd_pinged : bool }.
Record Pending := { pd_txid : bytes; pd_endpoint : IPv4Endpoint; pd_sent : Z }.

Record DirectPath := {
  candidates_ : list Candidate;
  pending_ : list Pending;
  best_ : IPv4Endpoint;
  bestPong_ : Z;
  bestRttMs_ : Z;
}.

Definition fresh_path : DirectPath :=
  {| candidates_ := []; pending_ := []; best_ := no_endpoint; bestPong_ := 0; bestRttMs_ := -1 |}.

Definition with_candidates (s : DirectPath) cs : DirectPath :=
  {| candidates_ := cs; pending_ := pending_ s; best_ := best_ s; bestPong_ := bestPong_ s;
     bestRttMs_ := bestRttMs_ s |}.
Definition with_pending (s : DirectPath) ps : DirectPath :=
  {| candidates_ := candidates_ s; pending_ := ps; best_ := best_ s; bestPong_ := bestPong_ s;
     bestRttMs_ := bestRttMs_ s |}.

Definition isCandidate (s : DirectPath) (ep : IPv4Endpoint) : bool :=
  existsb (fun c => bool_decide (cd_endpoint c = ep)) (candidates_ s).

Definition addCandidate (s : DirectPath) (ep : IPv4Endpoint) : DirectPath :=
  if negb (valid ep) || isCandidate s ep then s
  else
    let cs := if (kMaxCandidates <=? length (candidates_ s))%nat
              then drop 1 (candidates_ s) else candidates_ s in
    with_candidates s (cs ++ [{| cd_endpoint := ep; cd_lastPing := 0; cd_pinged := false |}]).

Definition due (s : DirectPath) (now : Z) : DirectPath * list IPv4Endpoint :=
  let s := with_pending s (filter (fun p => ~ (now - pd_sent p > kPingTimeout)) (pending_ s)) in
  (s, cd_endpoint <$>
        filter (fun c => cd_pinged c = false \/ now - cd_lastPing c >= kHeartbeat) (candidates_ s)).

Definition notePingSent (s : DirectPath) (tx : bytes) (ep : IPv4Endpoint) (now : Z) : DirectPath :=
  let s := with_candidates s
    ((fun c => if bool_decide (cd_endpoint c = ep)
               then {| cd_endpoint := cd_endpoint c; cd_lastPing := now; cd_pinged := true |}
               else c) <$> candidates_ s) in
  let ps := if (kMaxCandidates * 4 <=? length (pending_ s))%nat
            then drop 1 (pending_ s) else pending_ s in
  with_pending s (ps ++ [{| pd_txid := tx; pd_endpoint := ep; pd_sent := now |}]).

Definition best (s : DirectPath) (now : Z) : option IPv4Endpoint :=
  if negb (valid (best_ s)) || (now - bestPong_ s >? kTrustDuration) then None else Some (best_ s).

(** [std::find_if] over the pending pings, and what [erase(found)] leaves. *)
Fixpoint find_pending (tx : bytes) (ps : list Pending) : option (Pending * list Pending) :=
  match ps with
  | [] => None
  | p :: rest =>
      if bool_decide (pd_txid p = tx) then Some (p, rest)
      else '(q, others) ← find_pending tx rest; Some (q, p :: others)
  end.

(** [duration_cast<milliseconds>] truncates towards zero. *)
Definition to_ms (d : Z) : Z := Z.quot d 1000000.

Definition notePong (s : DirectPath) (tx : bytes) (from : IPv4Endpoint) (now : Z)
  : DirectPath * option Z :=
  match find_pending tx (pending_ s) with
  | None => (s, None)
  | Some (found, others) =>
      let s := with_pending s others in
      if negb (bool_decide (pd_endpoint found = from)) || (now - pd_sent found >? kPingTimeout)
      then (s, None)
      else
        let rtt := i32 (to_ms (now - pd_sent found)) in
        let bestValid := bool_decide (is_Some (best s now)) in
        if negb bestValid || bool_decide (from = best_ s) || (rtt * 10 <? bestRttMs_ s * 9)
        then ({| candidates_ := candidates_ s; pending_ := pending_ s; best_ := from;
                 bestPong_ := now; bestRttMs_ := rtt |}, Some rtt)
        else (s, Some rtt)
  end.

Definition reset (s : DirectPath) : DirectPath := fresh_path.

(** ** The object as a state machine: the calls its owner makes *)

Inductive event :=
| AddCandidate (ep : IPv4Endpoint)
| Due (now : Z)
| PingSent (tx : bytes) (ep : IPv4Endpoint) (now : Z)
| PongReceived (tx : bytes) (from : IPv4Endpoint) (now : Z)
| Reset.

Definition step (s : DirectPath) (e : event) : DirectPath :=
  match e with
  | AddCandidate ep => addCandidate s ep
  | Due now => (due s now).1
  | PingSent tx ep now => notePingSent s tx ep now
  | PongReceived tx from now => (notePong s tx from now).1
  | Reset => reset s
  end.

Definition run (es : list event) : DirectPath := foldl step fresh_path es.

(** ** Bounds *)

Record path_wf (s : DirectPath) : Prop := {
  wf_candidates : (length (candidates_ s) <= kMaxCandidates)%nat;
  wf_pending : (length (pending_ s) <= kMaxCandidates * 4)%nat;
  wf_distinct : NoDup (cd_endpoint <$> candidates_ s);
  wf_valid : Forall (fun c => valid (cd_endpoint c) = true) (candidates_ s);
}.

Lemma isCandidate_spec s ep : isCandidate s ep = true <-> ep ∈ cd_endpoint <$> candidates_ s.
Proof.
  unfold isCandidate. rewrite existsb_exists, list_elem_of_fmap. split.
  - intros (c&Hc&<-%bool_decide_eq_true). exists c. by rewrite <- list_elem_of_In in Hc.
  - intros (c&->&Hc). exists c. rewrite <- list_elem_of_In. by rewrite bool_decide_true.
Qed.

Lemma addCandidate_wf s ep : path_wf s -> path_wf (addCandidate s ep).
Proof.
  intros [Hc Hp Hd Hv]. unfold addCandidate. destruct (valid ep) eqn:Ev; cbn [negb orb]; [|done].
  destruct (isCandidate s ep) eqn:Ei; [done|].
  assert (ep ∉ cd_endpoint <$> candidates_ s) as Hnew.
  { intros H%isCandidate_spec. congruence. }
  cbv zeta. set (cs := if (kMaxCandidates <=? length (candidates_ s))%nat then drop 1 (candidates_ s)
    else candidates_ s).
  assert (cs `suffix_of` candidates_ s /\ (length cs < kMaxCandidates)%nat) as [[k Hk] Hl].
  { unfold cs. destruct (Nat.leb_spec kMaxCandidates (length (candidates_ s))).
    - rewrite length_drop. split; [|unfold kMaxCandidates in *; lia].
      exists (take 1 (candidates_ s)). by rewrite take_drop.
    - split; [|done]. by exists []. }
  clearbody cs. rewrite Hk in Hd, Hnew, Hv. rewrite fmap_app in Hd, Hnew.
  apply list.NoDup_app in Hd as (_&_&Hd). apply Forall_app in Hv as [_ Hv].
  constructor; cbn [candidates_ pending_ with_candidates]; try done.
  - rewrite length_app. simpl. lia.
  - rewrite fmap_app. apply list.NoDup_app. split; [done|]. split; [|repeat constructor; set_solver].
    intros x Hx. cbn [fmap list_fmap cd_endpoint]. rewrite list_elem_of_singleton. intros ->.
    apply Hnew, elem_of_app. by right.
  - apply Forall_app. split; [done|]. by repeat constructor.
Qed.

Lemma find_pending_Some tx ps p others : find_pending tx ps = Some (p, others) ->
  p ∈ ps /\ pd_txid p = tx /\ others `sublist_of` ps /\ length ps = S (length others).
Proof.
  revert others. induction ps as [|q ps IH]; intros others; simpl; [done|].
  case_bool_decide as E; [intros [= <- <-]; split_and!; [left|done|by constructor|done]|].
  destruct (find_pending tx ps) as [[r os]|] eqn:F; simpl; [|done]. intros [= <- <-].
  destruct (IH os eq_refl) as (?&?&?&?). split_and!; [by right|done|by constructor|simpl; lia].
Qed.

Lemma find_pending_None tx ps : find_pending tx ps = None <-> Forall (fun p => pd_txid p <> tx) ps.
Proof.
  induction ps as [|q ps IH]; simpl; [by split|]. case_bool_decide as E.
  - split; [done|]. intros H. by apply Forall_cons_1 in H as [? _].
  - split.
    + destruct (find_pending tx ps) as [[]|]; simpl; [done|]. intros _. constructor; [done|]. by apply IH.
    + intros H. apply Forall_cons_1 in H as [_ H]. by rewrite (proj2 IH H).
Qed.

Lemma notePong_pending s tx from now : (notePong s tx from now).1.(pending_) `sublist_of` pending_ s
  /\ candidates_ (notePong s tx from now).1 = candidates_ s.
Proof.
  unfold notePong. destruct (find_pending tx (pending_ s)) as [[p os]|] eqn:F; simpl; [|done].
  apply find_pending_Some in F as (_&_&?&_). repeat case_match; done.
Qed.

Lemma step_wf s e : path_wf s -> path_wf (step s e).
Proof.
  intros H. destruct e as [ep|now|tx ep now|tx from now|]; cbn [step].
  - by apply addCandidate_wf.
  - destruct H as [Hc Hp Hd Hv].
    constructor; cbn [due fst candidates_ pending_ with_pending]; try done.
    etransitivity; [apply length_filter|done].
  - destruct H as [Hc Hp Hd Hv]. unfold notePingSent.
    constructor; cbn [candidates_ pending_ with_candidates with_pending].
    + by rewrite length_fmap.
    + rewrite length_app. cbn [length]. destruct (Nat.leb_spec (kMaxCandidates * 4) (length (pending_ s))).
      * rewrite length_drop. unfold kMaxCandidates in *. lia.
      * lia.
    + rewrite <- list_fmap_compose. rewrite (list_fmap_ext _ cd_endpoint); [done|].
      intros i c _. simpl. by case_bool_decide.
    + rewrite Forall_fmap. eapply list.Forall_impl; [apply Hv|]. intros c. simpl. by case_bool_decide.
  - destruct H as [Hc Hp Hd Hv]. destruct (notePong_pending s tx from now) as [Hs Hcs].
    constructor; rewrite ?Hcs; try done. apply sublist_length in Hs. lia.
  - constructor; simpl; unfold kMaxCandidates; try lia; constructor.
Qed.

Lemma run_app es e : run (es ++ [e]) = step (run es) e.
Proof. unfold run. by rewrite foldl_app. Qed.

(** In every reachable state the path keeps at most 16 distinct, usable
    candidates and at most 64 outstanding pings. *)
Theorem run_wf es : path_wf (run es).
Proof.
  induction es as [|e es IH] using rev_ind; [|rewrite run_app; by apply step_wf].
  constructor; simpl; unfold kMaxCandidates; try lia; constructor.
Qed.

(** ** Trust *)

(** [es] shows the exchange that made [ep] trusted at time [t1]. *)
Definition answered (es : list event) (ep : IPv4Endpoint) (t1 : Z) : Prop :=
  exists pre tx t0 mid post,
    es = pre ++ PingSent tx ep t0 :: mid ++ PongReceived tx ep t1 :: post /\
    t1 - t0 <= kPingTimeout /\ (Reset ∉ mid) /\ Reset ∉ post.

Definition outstanding (es : list event) (p : Pending) : Prop :=
  exists pre post, es = pre ++ PingSent (pd_txid p) (pd_endpoint p) (pd_sent p) :: post /\ Reset ∉ post.

Record trust_inv (es : list event) (s : DirectPath) : Prop := {
  inv_pending : Forall (outstanding es) (pending_ s);
  inv_best : valid (best_ s) = true -> answered es (best_ s) (bestPong_ s);
}.

Lemma reset_snoc es e : e <> Reset -> Reset ∉ es -> Reset ∉ es ++ [e].
Proof.
  intros He Hes [H|H%list_elem_of_singleton]%elem_of_app; [by apply Hes|congruence].
Qed.

Lemma outstanding_snoc es e p : e <> Reset -> outstanding es p -> outstanding (es ++ [e]) p.
Proof.
  intros He (pre&post&->&Hr). exists pre, (post ++ [e]). rewrite <- app_assoc. split; [done|]. by apply reset_snoc.
Qed.

Lemma answered_snoc es e ep t : e <> Reset -> answered es ep t -> answered (es ++ [e]) ep t.
Proof.
  intros He (pre&tx&t0&mid&post&->&Ht&Hm&Hp). exists pre, tx, t0, mid, (post ++ [e]).
  rewrite <- !app_assoc. cbn [app]. rewrite <- !app_assoc. split_and!; try done. by apply reset_snoc.
Qed.

Lemma trust_snoc es e s : e <> Reset -> trust_inv es s -> trust_inv (es ++ [e]) s.
Proof.
  intros He [Hp Hb]. constructor.
  - eapply list.Forall_impl; [apply Hp|]. intros p. by apply outstanding_snoc.
  - intros Hv. by apply answered_snoc, Hb.
Qed.

Lemma with_pending_trust es s ps : ps `sublist_of` pending_ s -> trust_inv es s ->
  trust_inv es (with_pending s ps).
Proof. intros Hs [Hp Hb]. constructor; simpl; [|done]. by eapply Forall_sublist_of. Qed.

Lemma notePong_trust es s tx from now : trust_inv es s ->
  trust_inv (es ++ [PongReceived tx from now]) (notePong s tx from now).1.
Proof.
  intros H. unfold notePong. destruct (find_pending tx (pending_ s)) as [[p os]|] eqn:F.
  2: by apply trust_snoc.
  apply find_pending_Some in F as (Hin&Htx&Hsub&_).
  pose proof (with_pending_trust _ _ _ Hsub H) as Ho.
  case_bool_decide as Hep; simpl; [|by apply trust_snoc].
  destruct (Z.gtb_spec (now - pd_sent p) kPingTimeout); simpl; [by apply trust_snoc|].
  case_match; simpl; [|by apply trust_snoc].
  constructor; simpl.
  - destruct Ho as [Hp _]. eapply list.Forall_impl; [apply Hp|]. intros q. by apply outstanding_snoc.
  - intros _. destruct H as [Hp _]. rewrite list.Forall_forall in Hp.
    destruct (Hp p Hin) as (pre&post&->&Hr). subst.
    exists pre, (pd_txid p), (pd_sent p), post, []. rewrite <- app_assoc.
    split_and!; [done|lia|done|apply not_elem_of_nil].
Qed.

Lemma step_trust es s e : trust_inv es s -> trust_inv (es ++ [e]) (step s e).
Proof.
  intros H. destruct e as [ep|now|tx ep now|tx from now|]; simpl.
  - apply trust_snoc; [done|]. unfold addCandidate. destruct (_ || _); [done|]. by destruct H.
  - apply trust_snoc; [done|]. apply with_pending_trust; [|done]. apply sublist_filter.
  - assert (trust_inv (es ++ [PingSent tx ep now]) s) as [Hp Hb] by by apply trust_snoc.
    constructor; simpl; [|done]. apply Forall_app. split.
    + eapply Forall_sublist_of; [|apply Hp]. case_match; [|done]. apply sublist_drop.
    + constructor; [|constructor]. exists es, []. simpl. split; [done|apply not_elem_of_nil].
  - by apply notePong_trust.
  - constructor; simpl; [constructor|]. unfold valid. simpl. done.
Qed.

Lemma run_trust es : trust_inv es (run es).
Proof.
  induction es as [|e es IH] using rev_ind; [|rewrite run_app; by apply step_trust].
  constructor; simpl; [constructor|done].
Qed.

(** An endpoint is offered to WireGuard only on evidence: since the last
    reset this node pinged that very endpoint, a pong with the same transaction
    came back from it within five seconds, and that was at most 6.5 seconds
    ago. Forged or stale pongs cannot steer traffic. *)
Theorem best_is_answered es now ep : best (run es) now = Some ep ->
  valid ep = true /\ exists t1, answered es ep t1 /\ now - t1 <= kTrustDuration.
Proof.
  unfold best. destruct (valid (best_ (run es))) eqn:Hv; simpl; [|done].
  destruct (Z.gtb_spec (now - bestPong_ (run es)) kTrustDuration); [done|]. intros [= <-].
  split; [done|]. eexists. split; [by apply run_trust|lia].
Qed.

(** Every outcome of a pong. It is ignored without a matching ping; dropped
    with its ping when it comes from another address or after five seconds; and
    otherwise its round-trip time is reported, and the endpoint becomes the best
    one exactly when there is no live best, it already is the best, or it is
    more than ten percent faster. *)
Theorem notePong_spec s tx from now :
  match find_pending tx (pending_ s) with
  | None => notePong s tx from now = (s, None)
  | Some (p, others) =>
      let s0 := with_pending s others in
      if decide (pd_endpoint p = from /\ now - pd_sent p <= kPingTimeout) then
        let rtt := i32 (to_ms (now - pd_sent p)) in
        (notePong s tx from now).2 = Some rtt /\
        (if decide (best s now = None \/ from = best_ s \/ rtt * 10 < bestRttMs_ s * 9)
         then best_ (notePong s tx from now).1 = from /\ bestRttMs_ (notePong s tx from now).1 = rtt
              /\ bestPong_ (notePong s tx from now).1 = now
         else (notePong s tx from now).1 = s0)
      else notePong s tx from now = (s0, None)
  end.
Proof.
  unfold notePong. destruct (find_pending tx (pending_ s)) as [[p os]|]; [|done].
  destruct (decide (pd_endpoint p = from /\ now - pd_sent p <= kPingTimeout)) as [[Hep Ht]|Hn].
  - rewrite (bool_decide_true _ Hep). simpl negb.
    destruct (Z.gtb_spec (now - pd_sent p) kPingTimeout); [lia|]. cbn [orb].
    set (rtt := i32 _). change (best (with_pending s os) now) with (best s now).
    change (best_ (with_pending s os)) with (best_ s).
    change (bestRttMs_ (with_pending s os)) with (bestRttMs_ s).
    destruct (decide _) as [Hd|Hd].
    + assert (negb (bool_decide (is_Some (best s now))) || bool_decide (from = best_ s)
        || (rtt * 10 <? bestRttMs_ s * 9) = true) as ->; [|done].
      destruct Hd as [->|[Hd|Hd]]; [done|by rewrite (bool_decide_true _ Hd), orb_true_r|].
      by rewrite (proj2 (Z.ltb_lt _ _) Hd), orb_true_r.
    + assert (negb (bool_decide (is_Some (best s now))) || bool_decide (from = best_ s)
        || (rtt * 10 <? bestRttMs_ s * 9) = false) as ->; [|done].
      rewrite bool_decide_true, (bool_decide_false (from = _)), (proj2 (Z.ltb_ge _ _)); [done|lia|tauto|].
      destruct (best s now); [done|tauto].
  - case_bool_decide as Hep; simpl; [|done]. destruct (Z.gtb_spec (now - pd_sent p) kPingTimeout); [done|].
    tauto.
Qed.

Definition lan_endpoint : IPv4Endpoint := {| address := 0xC0A80114; port := 41641 |}.

Lemma best_is_answered_witness :
  exists t1, answered [AddCandidate lan_endpoint; PingSent [] lan_endpoint 5;
                       PongReceived [] lan_endpoint 3000005] lan_endpoint t1
  /\ seconds 4 - t1 <= kTrustDuration.
Proof.
  destruct (best_is_answered [AddCandidate lan_endpoint; PingSent [] lan_endpoint 5;
    PongReceived [] lan_endpoint 3000005] (seconds 4) lan_endpoint) as [_ H];
    [vm_compute; reflexivity|exact H].
Defined.

(** Two similar paths do not flap: an endpoint 1 ms faster does not displace a
    live best path, one twice as fast does. *)
Definition other_endpoint : IPv4Endpoint := {| address := 0x0A000001; port := 41641 |}.
Example hysteresis :
  let first := [PingSent [] lan_endpoint 0; PongReceived [] lan_endpoint (milliseconds 20)] in
  best (run (first ++ [PingSent (bs "b") other_endpoint 0;
                       PongReceived (bs "b") other_endpoint (milliseconds 19)])) (seconds 1)
  = Some lan_endpoint /\
  best (run (first ++ [PingSent (bs "b") other_endpoint 0;
                       PongReceived (bs "b") other_endpoint (milliseconds 10)])) (seconds 1)
  = Some other_endpoint.
Proof. vm_compute. split; reflexivity. Qed.
