(* ===== verification/Box.v ===== *)
(** NaCl [crypto_box] ([TailscaleBox.cpp]): Salsa20, HSalsa20, the XSalsa20
    keystream, [boxKey], [boxSeal] and [boxOpen]. X25519 and Poly1305 come from
    Monocypher, which is not part of the repository: they are parameters. *)

From S2P Require Import Prelude Bytes.

(** ** Salsa20 *)

Definition kSigma : bytes := bs "expand 32-byte k".
Definition kBoxNonceLen : Z := 24.
Definition kBoxMacLen : Z := 16.

Definition rotl (value shift : Z) : Z :=
  u32 (Z.lor (u32 (Z.shiftl value shift)) (Z.shiftr value (32 - shift))).

Definition load32le (src : bytes) : Z :=
  Z.lor (Z.lor (Z.lor (byte_at src 0) (Z.shiftl (byte_at src 1) 8))
    (Z.shiftl (byte_at src 2) 16)) (Z.shiftl (byte_at src 3) 24).

Definition store32le (value : Z) : bytes :=
  [u8 value; u8 (Z.shiftr value 8); u8 (Z.shiftr value 16); u8 (Z.shiftr value 24)].

(** The macro [BOX_QR(x, a, b, c, d)]: four in-place updates of the state. *)
Definition BOX_QR (x : list Z) (a b c d : nat) : list Z :=
  let x := <[b := Z.lxor (x !!! b) (rotl (u32 (x !!! a + x !!! d)) 7)]> x in
  let x := <[c := Z.lxor (x !!! c) (rotl (u32 (x !!! b + x !!! a)) 9)]> x in
  let x := <[d := Z.lxor (x !!! d) (rotl (u32 (x !!! c + x !!! b)) 13)]> x in
  <[a := Z.lxor (x !!! a) (rotl (u32 (x !!! d + x !!! c)) 18)]> x.

(** The loop body both cores run ten times. *)
Definition double_round (x : list Z) : list Z :=
  let x := BOX_QR x 0 4 8 12 in
  let x := BOX_QR x 5 9 13 1 in
  let x := BOX_QR x 10 14 2 6 in
  let x := BOX_QR x 15 3 7 11 in
  let x := BOX_QR x 0 1 2 3 in
  let x := BOX_QR x 5 6 7 4 in
  let x := BOX_QR x 10 11 8 9 in
  BOX_QR x 15 12 13 14.

(** The sixteen words both cores start from. *)
Definition initial_words (input key : bytes) : list Z :=
  [load32le (drop 0 kSigma);
   load32le (drop 0 key); load32le (drop 4 key); load32le (drop 8 key); load32le (drop 12 key);
   load32le (drop 4 kSigma);
   load32le (drop 0 input); load32le (drop 4 input); load32le (drop 8 input);
   load32le (drop 12 input);
   load32le (drop 8 kSigma);
   load32le (drop 16 key); load32le (drop 20 key); load32le (drop 24 key); load32le (drop 28 key);
   load32le (drop 12 kSigma)].

Definition salsa20Block (input key : bytes) : bytes :=
  let original := initial_words input key in
  let x := Nat.iter 10 double_round original in
  concat ((fun i => store32le (u32 (x !!! i + original !!! i))) <$> seq 0 16).

Definition kOut : list nat := [0; 5; 10; 15; 6; 7; 8; 9]%nat.

Definition hsalsa20 (nonce key : bytes) : bytes :=
  let x := Nat.iter 10 double_round (initial_words nonce key) in
  concat ((fun i => store32le (x !!! (kOut !!! i))) <$> seq 0 8).

(** The loop of [xsalsa20Keystream]: [counterBlock] is the last eight nonce
    bytes followed by the block counter, little endian. Each round writes at
    least one byte, so [length] rounds are enough. *)
Fixpoint keystream_loop (fuel : nat) (length : Z) (nonce8 subkey : bytes) (block : Z) : bytes :=
  match fuel with
  | O => []
  | S k =>
      if 0 <? length then
        let counterBlock := nonce8 ++ ((fun i => u8 (Z.shiftr block (8 * Z.of_nat i))) <$> seq 0 8) in
        let keystream := salsa20Block counterBlock subkey in
        let n := Z.min length 64 in
        take (Z.to_nat n) keystream ++
          keystream_loop k (length - n) nonce8 subkey (u64 (block + 1))
      else []
  end.

Definition xsalsa20Keystream (length : Z) (nonce key : bytes) : bytes :=
  keystream_loop (Z.to_nat length) length (slice 16 8 nonce) (hsalsa20 nonce key) 0.

(** ** crypto_box *)

Section Box.
(** [crypto_x25519(out, secret, point)] and
    [crypto_poly1305(mac, message, size, key)] of Monocypher. *)
Context (x25519 : bytes -> bytes -> bytes) (poly1305 : bytes -> bytes -> bytes).

Definition boxKey (myPrivate theirPublic : bytes) : result bytes :=
  let shared := x25519 myPrivate theirPublic in
  if all_zero shared then Err "crypto_box: weak or invalid X25519 shared secret"
  else Ok (hsalsa20 (replicate 16 Init.Byte.x00) shared).

Definition boxSeal (plainText myPrivate theirPublic nonce : bytes) : result bytes :=
  let! key := boxKey myPrivate theirPublic in
  let paddedLen := 32 + zlen plainText in
  let stream := xsalsa20Keystream paddedLen nonce key in
  let padded := xor_bytes (replicate 32 Init.Byte.x00 ++ plainText) stream in
  let mac := poly1305 (drop 32 padded) (take 32 stream) in
  Ok (mac ++ drop 32 padded).

(** [crypto_verify16(a, b) == 0]: equality of the two tags. *)
Definition boxOpen (cipherText myPrivate theirPublic nonce : bytes) : result bytes :=
  check negb (zlen cipherText <? kBoxMacLen) else "crypto_box: ciphertext shorter than auth tag";
  let! key := boxKey myPrivate theirPublic in
  let cipherLen := zlen cipherText - kBoxMacLen in
  let stream := xsalsa20Keystream (32 + cipherLen) nonce key in
  let expectedMac := poly1305 (drop 16 cipherText) (take 32 stream) in
  let macOk := bool_decide (expectedMac = take 16 cipherText) in
  check macOk else "crypto_box: ciphertext authentication failed";
  Ok (xor_bytes (drop 16 cipherText) (drop 32 stream)).
End Box.

(** ** The keystream *)

Lemma length_concat_words {A} (g : A -> Z) (l : list A) :
  length (concat ((fun i => store32le (g i)) <$> l)) = (4 * length l)%nat.
Proof.
  induction l as [|i l IH]; [done|]. rewrite fmap_cons. cbn [concat].
  rewrite length_app, IH. simpl. lia.
Qed.

Lemma length_salsa20Block input key : length (salsa20Block input key) = 64%nat.
Proof.
  unfold salsa20Block. cbv zeta.
  etransitivity; [apply (length_concat_words (fun i => u32 (_ !!! i + _ !!! i)))|].
  by rewrite length_seq.
Qed.

Lemma length_hsalsa20 nonce key : length (hsalsa20 nonce key) = 32%nat.
Proof.
  unfold hsalsa20. cbv zeta.
  etransitivity; [apply (length_concat_words (fun i => _ !!! (kOut !!! i)))|].
  by rewrite length_seq.
Qed.

Lemma length_keystream_loop fuel : forall n nonce8 subkey block,
  0 <= n -> n <= Z.of_nat fuel ->
  zlen (keystream_loop fuel n nonce8 subkey block) = n.
Proof.
  induction fuel as [|f IH]; intros n nonce8 subkey block H0 Hf; cbn [keystream_loop].
  { rewrite zlen_nil. lia. }
  destruct (Z.ltb_spec 0 n); [|rewrite zlen_nil; lia].
  rewrite zlen_app, IH by lia. unfold zlen at 1. rewrite length_take, length_salsa20Block. lia.
Qed.

Lemma zlen_xsalsa20Keystream n nonce key : 0 <= n -> zlen (xsalsa20Keystream n nonce key) = n.
Proof. intros. apply length_keystream_loop; lia. Qed.

Lemma keystream_loop_prefix fuel : forall fuel' n m nonce8 subkey block,
  0 <= n <= m -> n <= Z.of_nat fuel -> m <= Z.of_nat fuel' ->
  keystream_loop fuel n nonce8 subkey block
  = take (Z.to_nat n) (keystream_loop fuel' m nonce8 subkey block).
Proof.
  induction fuel as [|f IH]; intros [|f'] n m nonce8 subkey block Hnm Hf Hf'.
  - simpl. by rewrite take_nil.
  - by replace (Z.to_nat n) with 0%nat by lia.
  - by replace n with 0 by lia.
  - cbn [keystream_loop]. destruct (Z.ltb_spec 0 n) as [Hn|Hn].
    2: { by replace (Z.to_nat n) with 0%nat by lia. }
    rewrite (proj2 (Z.ltb_lt 0 m)) by lia.
    pose proof (length_salsa20Block (nonce8 ++ ((λ i, u8 (block ≫ (8 * Z.of_nat i))) <$> seq 0 8))
      subkey) as HL.
    revert HL. generalize (salsa20Block (nonce8 ++ ((λ i, u8 (block ≫ (8 * Z.of_nat i))) <$> seq 0 8))
      subkey). intros blk HL.
    destruct (Z.le_gt_cases n 64) as [Hs|Hs].
    + rewrite (Z.min_l n 64), Z.sub_diag by lia.
      assert (forall k b, keystream_loop k 0 nonce8 subkey b = []) as -> by by intros [].
      rewrite app_nil_r, take_app_le by (rewrite length_take; lia).
      rewrite take_take. f_equal. lia.
    + rewrite !Z.min_r by lia. rewrite (IH f' (n - 64) (m - 64)) by lia.
      rewrite take_app_ge by (rewrite length_take; lia). f_equal.
      f_equal. rewrite length_take. lia.
Qed.

(** The keystream is a stream: a shorter request returns a prefix of a
    longer one, under the same nonce and key. *)
Theorem xsalsa20Keystream_prefix n m nonce key :
  0 <= n <= m ->
  xsalsa20Keystream n nonce key = take (Z.to_nat n) (xsalsa20Keystream m nonce key)
  /\ zlen (xsalsa20Keystream n nonce key) = n.
Proof.
  intros H. split; [apply keystream_loop_prefix; lia|apply zlen_xsalsa20Keystream; lia].
Qed.

(** ** Sealing and opening *)

Lemma drop_xor_padded p ks :
  drop 32 (xor_bytes (replicate 32 Init.Byte.x00 ++ p) ks) = xor_bytes p (drop 32 ks).
Proof. unfold xor_bytes. by rewrite zip_with_drop, drop_app_length'. Qed.

Section box_facts.
Context (x25519 poly1305 : bytes -> bytes -> bytes).
Hypothesis poly1305_length : forall m k, length (poly1305 m k) = 16%nat.

Lemma boxSeal_Ok p a B n c : boxSeal x25519 poly1305 p a B n = Ok c ->
  exists key ks, boxKey x25519 a B = Ok key /\ ks = xsalsa20Keystream (32 + zlen p) n key /\
    c = poly1305 (xor_bytes p (drop 32 ks)) (take 32 ks) ++ xor_bytes p (drop 32 ks).
Proof.
  unfold boxSeal. intros (key&HK&<-%Ok_inj)%result_bind_Ok. exists key. eexists.
  split_and!; [done..|].
  by rewrite drop_xor_padded.
Qed.

Lemma length_keystream_tail (p : bytes) n key :
  length (drop 32 (xsalsa20Keystream (32 + zlen p) n key)) = length p.
Proof.
  rewrite length_drop. pose proof (zlen_xsalsa20Keystream (32 + zlen p) n key).
  unfold zlen in *. lia.
Qed.

Lemma boxOpen_Ok c a B n p : boxOpen x25519 poly1305 c a B n = Ok p <->
  (16 <= length c)%nat /\ exists key ks, boxKey x25519 a B = Ok key /\
    ks = xsalsa20Keystream (32 + (zlen c - 16)) n key /\
    poly1305 (drop 16 c) (take 32 ks) = take 16 c /\ p = xor_bytes (drop 16 c) (drop 32 ks).
Proof.
  unfold boxOpen, kBoxMacLen, zlen. destruct (Z.ltb_spec (Z.of_nat (length c)) 16); simpl.
  { split; [done|]. intros [? _]. lia. }
  destruct (boxKey x25519 a B) as [key|e]; simpl.
  2: { split; [done|]. by intros (_&?&?&?&_). }
  case_bool_decide as E; split.
  - intros [= <-]. split; [lia|]. eauto 6.
  - intros (_&k&ks&[= <-]&->&_&->). done.
  - done.
  - intros (_&k&ks&[= <-]&->&?&_). done.
Qed.

(** Opening is exactly the inverse of sealing under the same shared secret. *)
Lemma boxOpen_boxSeal_same p c a B n :
  boxOpen x25519 poly1305 c a B n = Ok p <-> boxSeal x25519 poly1305 p a B n = Ok c.
Proof.
  split.
  - intros (Hc&key&ks&HK&->&Hmac&->)%boxOpen_Ok.
    set (ks := xsalsa20Keystream (32 + (zlen c - 16)) n key) in *.
    assert (length (drop 16 c) = length (drop 32 ks)) as Hl.
    { rewrite !length_drop. pose proof (zlen_xsalsa20Keystream (32 + (zlen c - 16)) n key) as H.
      fold ks in H. unfold zlen in H. lia. }
    assert (zlen (xor_bytes (drop 16 c) (drop 32 ks)) = zlen c - 16) as Hz.
    { unfold zlen. rewrite length_xor_bytes by done. rewrite length_drop. lia. }
    unfold boxSeal. rewrite HK. cbn [result_bind]. rewrite Hz. fold ks.
    rewrite drop_xor_padded, xor_bytes_invol, Hmac, take_drop by done. done.
  - intros (key&ks&HK&->&->)%boxSeal_Ok. apply boxOpen_Ok.
    set (ks := xsalsa20Keystream (32 + zlen p) n key) in *.
    set (ct := xor_bytes p (drop 32 ks)).
    assert (length ct = length p) as Hct.
    { apply length_xor_bytes. unfold ks. by rewrite length_keystream_tail. }
    set (mac := poly1305 ct (take 32 ks)).
    assert (length mac = 16%nat) as Hm by apply poly1305_length.
    assert (32 + (zlen (mac ++ ct) - 16) = 32 + zlen p) as HL.
    { unfold zlen. rewrite length_app, Hm, Hct. lia. }
    rewrite HL. fold ks. split; [rewrite length_app; lia|].
    exists key, ks. rewrite (take_app_length' _ _ 16) by done.
    rewrite (drop_app_length' _ _ 16) by done. split_and!; try done.
    unfold ct. symmetry. apply xor_bytes_invol. unfold ks. by rewrite length_keystream_tail.
Qed.

Lemma boxKey_agree a A b B : x25519 a B = x25519 b A -> boxKey x25519 a B = boxKey x25519 b A.
Proof. unfold boxKey. by intros ->. Qed.

Lemma boxSeal_agree p a A b B n : x25519 a B = x25519 b A ->
  boxSeal x25519 poly1305 p a B n = boxSeal x25519 poly1305 p b A n.
Proof. unfold boxSeal. by intros ->%boxKey_agree. Qed.

Lemma boxSeal_cases p a B n :
  if all_zero (x25519 a B)
  then boxSeal x25519 poly1305 p a B n = Err "crypto_box: weak or invalid X25519 shared secret"
  else exists c, boxSeal x25519 poly1305 p a B n = Ok c /\ zlen c = 16 + zlen p.
Proof.
  pose proof (boxSeal_Ok p a B n) as HS. unfold boxSeal in *. unfold boxKey in *.
  destruct (all_zero _); simpl in *; [done|]. eexists. split; [done|].
  edestruct HS as (key&ks&_&Hks&->); [done|].
  assert (length (drop 32 ks) = length p) as Hl by (rewrite Hks; apply length_keystream_tail).
  unfold zlen. rewrite length_app, poly1305_length, length_xor_bytes by done. lia.
Qed.
End box_facts.

(** What [boxSeal] produces for a peer, the peer opens, and nothing else
    opens: with the Diffie-Hellman secrets agreeing, a ciphertext opens to [p]
    exactly when it is the sealing of [p]. *)
Theorem boxOpen_iff_boxSeal (x25519 poly1305 : bytes -> bytes -> bytes)
    (Hlen : forall m k, length (poly1305 m k) = 16%nat) a A b B n
    (Hdh : x25519 a B = x25519 b A) p c :
  boxOpen x25519 poly1305 c b A n = Ok p <-> boxSeal x25519 poly1305 p a B n = Ok c.
Proof. rewrite boxOpen_boxSeal_same by done. by rewrite (boxSeal_agree _ _ p a A b B n). Qed.

Lemma xsalsa20Keystream_prefix_witness :
  xsalsa20Keystream 5 (replicate 24 Init.Byte.x00) (replicate 32 Init.Byte.x00)
  = take (Z.to_nat 5) (xsalsa20Keystream 70 (replicate 24 Init.Byte.x00) (replicate 32 Init.Byte.x00))
  /\ zlen (xsalsa20Keystream 5 (replicate 24 Init.Byte.x00) (replicate 32 Init.Byte.x00)) = 5.
Proof. apply (xsalsa20Keystream_prefix 5 70). lia. Defined.

(** A concrete key agreement and tag, to run the sealed formats on. *)
Definition toy_x25519 (secret point : bytes) : bytes := xor_bytes secret point.
Definition toy_poly1305 (m k : bytes) : bytes := take 16 (k ++ replicate 16 Init.Byte.x00).

Lemma length_toy_poly1305 m k : length (toy_poly1305 m k) = 16%nat.
Proof. unfold toy_poly1305. rewrite length_take, length_app, length_replicate. lia. Qed.

Definition toy_key (n : Z) : bytes := replicate 31 (u8 n) ++ [u8 (n + 1)].

Lemma toy_x25519_sym a b : toy_x25519 a b = toy_x25519 b a.
Proof.
  unfold toy_x25519, xor_bytes. revert b. induction a as [|x a IH]; intros [|y b]; simpl; try done.
  f_equal; [|apply IH]. unfold bxor. by rewrite Z.lxor_comm.
Qed.

Lemma boxOpen_iff_boxSeal_witness :
  exists c, boxSeal toy_x25519 toy_poly1305 (bs "ping") (toy_key 1) (toy_key 2) (replicate 24 Init.Byte.x00) = Ok c
  /\ boxOpen toy_x25519 toy_poly1305 c (toy_key 2) (toy_key 1) (replicate 24 Init.Byte.x00) = Ok (bs "ping").
Proof.
  eexists. split; [vm_compute; reflexivity|].
  apply (boxOpen_iff_boxSeal toy_x25519 toy_poly1305 length_toy_poly1305 (toy_key 1) (toy_key 1)
    (toy_key 2) (toy_key 2)); [apply toy_x25519_sym|vm_compute; reflexivity].
Defined.

(** The published Salsa20 vectors of NaCl's crypto_box: HSalsa20 of the shared
    secret, and the first keystream bytes under it. *)
Definition hex_digit (b : byte) : Z := if 97 <=? ub b then ub b - 87 else ub b - 48.
Fixpoint unhex (l : bytes) : bytes :=
  match l with a :: b :: r => u8 (hex_digit a * 16 + hex_digit b) :: unhex r | _ => [] end.

Example hsalsa20_vector :
  hsalsa20 (replicate 16 Init.Byte.x00)
    (unhex (bs "4a5d9d5ba4ce2de1728e3bf480350f25e07e21c947d19e3376f09b3c1e161742"))
  = unhex (bs "1b27556473e985d462cd51197a9a46c76009549eac6474f206c4ee0844f68389").
Proof. vm_compute. reflexivity. Qed.

Example xsalsa20_vector :
  xsalsa20Keystream 32 (unhex (bs "69696ee955b62b73cd62bda875fc73d68219e0036b7a0b37"))
    (unhex (bs "1b27556473e985d462cd51197a9a46c76009549eac6474f206c4ee0844f68389"))
  = unhex (bs "eea6a7251c1e72916d11c2cb214d3c252539121d8e234e652d651fa4c8cff880").
Proof. vm_compute. reflexivity. Qed.
