(* ===== verification/Transport.v ===== *)
(** The byte-stream seam ([TailscaleTransport.hpp]): [ITransport] as a class of
    operations on a world the implementation keeps, [StreamTransport] for what
    a reliable connection promises (the peer's bytes arrive in order, cut into
    chunks the reader does not choose, and writes reach the peer), and a
    scripted transport that implements the promise. *)

From S2P Require Import Prelude.

(** What [read] returns: a positive count and that many bytes, 0, or -1 with
    what the call left in [*error] ([None]: nothing). *)
Inductive read_outcome :=
| Received (data : bytes)
| Closed
| ReadError (msg : option string).

Inductive write_outcome :=
| Written
| WriteFailed (msg : option string).

Class ITransport (W : Type) := {
  tr_read : Z -> W -> read_outcome * W;
  tr_write : bytes -> W -> write_outcome * W;
  tr_close : W -> W;
  tr_interrupt : W -> W;
}.

Class StreamTransport (W : Type) `{ITransport W} := {
  incoming : W -> list bytes;
  outgoing : W -> bytes;
  read_incoming : forall w c cs n,
    incoming w = c :: cs -> 0 < zlen c <= n ->
    exists w', tr_read n w = (Received c, w') /\ incoming w' = cs /\ outgoing w' = outgoing w;
  write_outgoing : forall w b,
    exists w', tr_write b w = (Written, w') /\ incoming w' = incoming w /\
      outgoing w' = outgoing w ++ b;
}.

(** A connection given by the chunks the peer will send. *)
Record script := { sc_incoming : list bytes; sc_outgoing : bytes }.

#[export] Instance script_transport : ITransport script := {
  tr_read n w :=
    match sc_incoming w with
    | [] => (Closed, w)
    | c :: cs =>
        if bool_decide (zlen c <= n)
        then (Received c, {| sc_incoming := cs; sc_outgoing := sc_outgoing w |})
        else (Received (take (Z.to_nat n) c),
              {| sc_incoming := drop (Z.to_nat n) c :: cs; sc_outgoing := sc_outgoing w |})
    end;
  tr_write b w := (Written, {| sc_incoming := sc_incoming w; sc_outgoing := sc_outgoing w ++ b |});
  tr_close w := w;
  tr_interrupt w := w;
}.

#[export] Program Instance script_stream : StreamTransport script := {
  incoming := sc_incoming;
  outgoing := sc_outgoing;
}.
Next Obligation.
  intros w c cs n Hw Hc. simpl. rewrite Hw. rewrite bool_decide_true by lia. eauto.
Qed.
Next Obligation. intros w b. simpl. eauto. Qed.
