(* ===== verification/Derp.v ===== *)
(** DERP relay client ([TailscaleDerp.hpp], [TailscaleDerp.cpp]): the frame
    codec [DerpCodec], the session [DerpSession] over a transport and a
    [IDerpCrypto], and the HTTP upgrade that precedes it. *)

From S2P Require Import Prelude Bytes Text Framing Transport Box.

(** ** Frame types. The enumeration's underlying type is [std::uint8_t], and
    [parse] casts the byte it reads: every byte is a [DerpFrameType]. *)
Module DerpFrameType.
Definition t := byte.
Definition ServerKey : t := u8 0x01.
Definition ClientInfo : t := u8 0x02.
Definition ServerInfo : t := u8 0x03.
Definition SendPacket : t := u8 0x04.
Definition RecvPacket : t := u8 0x05.
Definition NotePreferred : t := u8 0x07.
Definition Ping : t := u8 0x12.
Definition Pong : t := u8 0x13.
End DerpFrameType.

Definition kDerpFrameHeaderLen : nat := 5.
Definition kDerpKeyLen : nat := 32.
Definition kDerpNonceLen : nat := 24.
Definition kDerpTagLen : nat := 16.
Definition kDerpMaxPacketSize : Z := 64 * 1024.
Definition kMaxFramePayload : Z := Z.shiftl 1 20.
Definition kDerpMagic : bytes :=
  u8 <$> [0x44; 0x45; 0x52; 0x50; 0xF0; 0x9F; 0x94; 0x91].

Record DerpFrame := { type : DerpFrameType.t; payload : bytes }.

(** ** [DerpCodec] *)

Definition writeBigEndian32 (out : bytes) (value : Z) : bytes :=
  out ++ [u8 (Z.shiftr value 24); u8 (Z.land (Z.shiftr value 16) 0xff);
          u8 (Z.land (Z.shiftr value 8) 0xff); u8 (Z.land value 0xff)].

Definition readBigEndian32 (b : bytes) : option Z :=
  if zlen b <? 4 then None
  else Some (Z.lor (Z.lor (Z.lor (Z.shiftl (byte_at b 0) 24) (Z.shiftl (byte_at b 1) 16))
               (Z.shiftl (byte_at b 2) 8)) (byte_at b 3)).

Module DerpCodec.
Definition encode (t : DerpFrameType.t) (payload : bytes) : bytes :=
  writeBigEndian32 [t] (u32 (zlen payload)) ++ payload.

Definition parse (data : bytes) : outcome DerpFrame :=
  if (length data <? kDerpFrameHeaderLen)%nat then Wait
  else match readBigEndian32 (slice 1 4 data) with
  | None => Wait
  | Some len =>
      if kMaxFramePayload <? len then Fail "DERP frame oversized"
      else if (length data <? kDerpFrameHeaderLen + Z.to_nat len)%nat then Wait
      else Got {| type := data !!! 0%nat; payload := take (Z.to_nat len) (drop kDerpFrameHeaderLen data) |}
  end.

Definition append (buffer_ data : bytes) : result unit * bytes :=
  let limit := kMaxFramePayload + Z.of_nat kDerpFrameHeaderLen in
  if (limit <? zlen data) || (limit - zlen data <? zlen buffer_)
  then (Err "DERP receive buffer limit exceeded", [])
  else (Ok tt, buffer_ ++ data).

(** Every path through the body of [while (buffer_.size() >= 5)] returns. *)
Definition take (buffer_ : bytes) : outcome DerpFrame * bytes :=
  if (kDerpFrameHeaderLen <=? length buffer_)%nat then
    match readBigEndian32 (slice 1 4 buffer_) with
    | None => (Fail "DERP frame oversized", [])
    | Some len =>
        if kMaxFramePayload <? len then (Fail "DERP frame oversized", [])
        else
          let n := (kDerpFrameHeaderLen + Z.to_nat len)%nat in
          if (length buffer_ <? n)%nat then (Wait, buffer_)
          else match parse (take n buffer_) with
               | Got frame => (Got frame, drop n buffer_)
               | o => (o, buffer_)
               end
    end
  else (Wait, buffer_).
End DerpCodec.

(** [take] is the length-prefixed cut of [Framing]. *)
Definition derp_frame (b : bytes) : DerpFrame :=
  {| type := b !!! 0%nat; payload := drop kDerpFrameHeaderLen b |}.

Definition derp_length (b : bytes) : Z := be_value (slice 1 4 b).

Definition derp_prefixed : prefixed DerpFrame :=
  {| pf_header := kDerpFrameHeaderLen; pf_length := derp_length; pf_cap := kMaxFramePayload;
     pf_frame := derp_frame; pf_error := "DERP frame oversized" |}.

Definition encode_frame (f : DerpFrame) : bytes := DerpCodec.encode (type f) (payload f).

Definition frame_wf (f : DerpFrame) : Prop := zlen (payload f) <= kMaxFramePayload.

Lemma readBigEndian32_be (b : bytes) : length b = 4%nat -> readBigEndian32 b = Some (be_value b).
Proof.
  destruct b as [|b0 [|b1 [|b2 [|b3 [|]]]]]; try done. intros _.
  unfold readBigEndian32, byte_at. cbn [lookup_total list_lookup_total].
  by rewrite be32_lor.
Qed.

Lemma slice_1_4 (b : bytes) : (5 <= length b)%nat -> length (slice 1 4 b) = 4%nat.
Proof. intros. unfold slice. rewrite length_take, length_drop. lia. Qed.

Lemma take_prefixed (b : bytes) : DerpCodec.take b = prefixed_take derp_prefixed b.
Proof.
  unfold DerpCodec.take, prefixed_take. cbn [pf_header pf_length pf_cap pf_frame pf_error derp_prefixed].
  destruct (Nat.leb_spec kDerpFrameHeaderLen (length b)) as [H|H];
    destruct (Nat.ltb_spec (length b) kDerpFrameHeaderLen) as [H'|H']; try lia; [|done].
  unfold kDerpFrameHeaderLen in H. rewrite readBigEndian32_be by by apply slice_1_4.
  fold (derp_length b). destruct (Z.ltb_spec kMaxFramePayload (derp_length b)) as [Hc|Hc]; [done|].
  cbv zeta. destruct (Nat.ltb_spec (length b) (kDerpFrameHeaderLen + Z.to_nat (derp_length b)))
    as [Hn|Hn]; [done|].
  set (n := (kDerpFrameHeaderLen + Z.to_nat (derp_length b))%nat) in *.
  assert (length (take n b) = n) as Hl by (rewrite length_take; lia).
  assert (derp_length (take n b) = derp_length b) as El.
  { unfold derp_length. rewrite slice_take; [done|lia|lia|subst n; unfold kDerpFrameHeaderLen; lia]. }
  unfold DerpCodec.parse. rewrite Hl.
  destruct (Nat.ltb_spec n kDerpFrameHeaderLen); [lia|].
  rewrite readBigEndian32_be by (apply slice_1_4; rewrite Hl; unfold n, kDerpFrameHeaderLen; lia). fold (derp_length (take n b)). rewrite El.
  destruct (Z.ltb_spec kMaxFramePayload (derp_length b)); [lia|]. fold n.
  destruct (Nat.ltb_spec n n); [lia|]. unfold derp_frame. do 3 f_equal.
  apply take_ge. rewrite length_drop, Hl. lia.
Qed.

Lemma encode_be f : encode_frame f = type f :: be_bytes 4 (u32 (zlen (payload f))) ++ payload f.
Proof.
  unfold encode_frame, DerpCodec.encode, writeBigEndian32. rewrite <- app_assoc. cbn [app].
  f_equal. rewrite <- be32_put. cbn [app]. by rewrite !land_255, !u8_mod.
Qed.

Lemma encode_encodes f : frame_wf f -> pf_encodes derp_prefixed f (encode_frame f).
Proof.
  intros Hw. unfold frame_wf in Hw. change kMaxFramePayload with 1048576 in Hw. pose proof (zlen_nonneg (payload f)).
  assert (derp_length (encode_frame f) = zlen (payload f)) as El.
  { unfold derp_length, slice. rewrite encode_be.
    change (Z.to_nat 1) with 1%nat. change (Z.to_nat 4) with 4%nat. cbn [drop].
    rewrite drop_0, take_app_length' by by rewrite length_be_bytes.
    unfold u32. rewrite Z.mod_small by lia. apply be_value_bytes. lia. }
  unfold pf_encodes. cbn [pf_header pf_length pf_cap pf_frame derp_prefixed].
  rewrite El. split_and!.
  - rewrite encode_be. simpl. rewrite length_app, length_be_bytes. unfold zlen. lia.
  - done.
  - unfold derp_frame. rewrite encode_be. destruct f as [t p]. cbn [type payload].
    unfold kDerpFrameHeaderLen. cbn [drop lookup_total list_lookup_total]. by f_equal.
Qed.

Lemma derp_local : pf_local derp_prefixed.
Proof.
  intros b c H. cbn [pf_header pf_length derp_prefixed] in *. unfold derp_length.
  rewrite slice_app; [done|lia|lia|]. unfold zlen, kDerpFrameHeaderLen in *. lia.
Qed.

(** ** [DerpCodec] as a frame decoder *)

#[export] Instance derp_decoder : FrameDecoder DerpFrame := {
  fd_limit := kMaxFramePayload + Z.of_nat kDerpFrameHeaderLen;
  fd_append buf chunk := match DerpCodec.append buf chunk with (Ok _, b) => Some b | _ => None end;
  fd_take := DerpCodec.take;
  fd_wf := frame_wf;
  fd_bytes := encode_frame;
}.

#[export] Instance derp_decoder_laws : FrameDecoderLaws DerpFrame.
Proof.
  split; cbn [fd_limit fd_append fd_take fd_wf fd_bytes derp_decoder].
  - intros buf chunk H. unfold DerpCodec.append. pose proof (zlen_nonneg buf).
    rewrite (proj2 (Z.ltb_ge _ _)), (proj2 (Z.ltb_ge _ _)) by lia. done.
  - intros buf chunk buf'. unfold DerpCodec.append.
    destruct (Z.ltb_spec (kMaxFramePayload + Z.of_nat kDerpFrameHeaderLen) (zlen chunk)); [done|].
    destruct (Z.ltb_spec (kMaxFramePayload + Z.of_nat kDerpFrameHeaderLen - zlen chunk) (zlen buf));
      [done|]. intros [= <-]. zl.
  - done.
  - intros f rest Hf. rewrite take_prefixed. apply prefixed_take_frame; [apply derp_local|].
    by apply encode_encodes.
  - intros f p q Hf Hq E. rewrite take_prefixed. eapply prefixed_take_partial; [apply derp_local| |done].
    rewrite E. by apply encode_encodes.
  - intros f _. rewrite encode_be. done.
Qed.

Lemma derp_take_frame f r : frame_wf f -> DerpCodec.take (encode_frame f ++ r) = (Got f, r).
Proof. exact (fd_take_frame (H := derp_decoder) f r). Qed.

Lemma derp_take_partial f p q : frame_wf f -> q <> [] -> p ++ q = encode_frame f ->
  DerpCodec.take p = (Wait, p).
Proof. exact (fd_take_partial (H := derp_decoder) f p q). Qed.

(** Frame reassembly does not depend on how the stream was cut: reading
    chunks of at most [m] bytes gives exactly the frames that were written and
    leaves nothing behind, provided a payload and a chunk fit the buffer. *)
Theorem derp_reassembly frames chunks m :
  Forall (fun f => zlen (payload f) + m <= kMaxFramePayload + 1) frames ->
  Forall (fun c => zlen c <= m) chunks -> 1 <= m <= kMaxFramePayload ->
  concat chunks = concat (encode_frame <$> frames) ->
  fd_feed (F := DerpFrame) [] chunks = Some (frames, []).
Proof.
  intros Hf Hc Hm Hs. apply (fd_feed_frames frames chunks m); [..|done].
  - eapply list.Forall_impl; [done|]. intros f H. cbv beta in H. change (frame_wf f). unfold frame_wf. lia.
  - eapply list.Forall_impl; [done|]. intros f H. cbv beta in H. cbn [fd_bytes fd_limit derp_decoder].
    rewrite encode_be. zl. unfold zlen at 1. rewrite length_be_bytes.
    change (Z.of_nat kDerpFrameHeaderLen) with 5. lia.
  - done.
  - cbn [fd_limit derp_decoder]. lia.
Qed.

Lemma derp_reassembly_witness :
  fd_feed (F := DerpFrame) [] (map (map u8) [[4]; [0; 0; 0; 2; 65]; [66; 6; 0; 0]; [0; 0]])
  = Some ([{| type := u8 4; payload := bs "AB" |}; {| type := u8 6; payload := [] |}], []).
Proof.
  apply (derp_reassembly [{| type := u8 4; payload := bs "AB" |}; {| type := u8 6; payload := [] |}] _ 5);
    [repeat constructor; by vm_compute|repeat constructor; by vm_compute|by vm_compute|
     vm_compute; reflexivity].
Defined.
