(* ===== verification/DerpSession.v ===== *)
(** The DERP session ([DerpSession] of [TailscaleDerp.cpp]): the handshake over
    an [ITransport] and an [IDerpCrypto], the receive loop, the senders. *)

From S2P Require Import Prelude Bytes Framing Transport Box Derp.

(** ** [IDerpCrypto], and what a session needs of it: a message sealed with one
    end's private key for the other's public key opens at the other end. *)
Class IDerpCrypto := {
  crypto_seal : bytes -> bytes -> bytes -> bytes -> result bytes;
  crypto_open : bytes -> bytes -> bytes -> bytes -> result bytes;
}.

Class DerpCryptoLaws `{IDerpCrypto} := {
  key_pair : bytes -> bytes -> Prop;
  open_seal_law : forall a A b B nonce m c,
    key_pair a A -> key_pair b B -> length nonce = kDerpNonceLen ->
    crypto_seal m a B nonce = Ok c -> crypto_open c b A nonce = Ok m;
  seal_tag_law : forall a B nonce m c, crypto_seal m a B nonce = Ok c ->
    (kDerpTagLen <= length c)%nat;
}.

(** The class [DerpCrypto]: NaCl boxes. *)
Section DerpCrypto.
Context (x25519 poly1305 : bytes -> bytes -> bytes).

Definition DerpCrypto_seal (plainText myPrivate theirPublic nonce : bytes) : result bytes :=
  boxSeal x25519 poly1305 plainText myPrivate theirPublic nonce.

Definition DerpCrypto_open (cipherText myPrivate theirPublic nonce : bytes) : result bytes :=
  check negb (length cipherText <? kDerpTagLen)%nat
    else "DERP crypto: ciphertext shorter than auth tag";
  boxOpen x25519 poly1305 cipherText myPrivate theirPublic nonce.

Definition DerpCrypto : IDerpCrypto :=
  {| crypto_seal := DerpCrypto_seal; crypto_open := DerpCrypto_open |}.
End DerpCrypto.

(** ** The session *)

Record DerpSession (W : Type) := {
  transport_ : option W;
  codec_ : bytes;
  clientPrivate_ : bytes;
  clientPublic_ : bytes;
  serverKey_ : bytes;
  connected_ : bool;
}.
Arguments transport_ {W}. Arguments codec_ {W}. Arguments clientPrivate_ {W}.
Arguments clientPublic_ {W}. Arguments serverKey_ {W}. Arguments connected_ {W}.

Section session.
Context {W : Type} `{ITransport W} `{IDerpCrypto}.

Definition with_io (s : DerpSession W) (w : W) (codec : bytes) : DerpSession W :=
  {| transport_ := Some w; codec_ := codec; clientPrivate_ := clientPrivate_ s;
     clientPublic_ := clientPublic_ s; serverKey_ := serverKey_ s; connected_ := connected_ s |}.
Definition with_serverKey (s : DerpSession W) (k : bytes) : DerpSession W :=
  {| transport_ := transport_ s; codec_ := codec_ s; clientPrivate_ := clientPrivate_ s;
     clientPublic_ := clientPublic_ s; serverKey_ := k; connected_ := connected_ s |}.
Definition with_connected (s : DerpSession W) (b : bool) : DerpSession W :=
  {| transport_ := transport_ s; codec_ := codec_ s; clientPrivate_ := clientPrivate_ s;
     clientPublic_ := clientPublic_ s; serverKey_ := serverKey_ s; connected_ := b |}.

(** The functions below return what the call returns, the session, and the
    string [*error] holds afterwards (they take the one it held before). *)

Definition open_session (w : option W) (priv pub : bytes) : DerpSession W :=
  {| transport_ := w; codec_ := []; clientPrivate_ := priv; clientPublic_ := pub;
     serverKey_ := replicate kDerpKeyLen Init.Byte.x00; connected_ := false |}.

Definition writeRaw (t : DerpFrameType.t) (payload : bytes) (s : DerpSession W) (error : string)
  : bool * DerpSession W * string :=
  match transport_ s with
  | None => (false, s, "DERP transport is not open"%string)
  | Some w =>
      match tr_write (DerpCodec.encode t payload) w with
      | (WriteFailed msg, w') =>
          let error := default error msg in
          (false, with_io s w' (codec_ s),
           if String.eqb error "" then "DERP write failed"%string else error)
      | (Written, w') => (true, with_io s w' (codec_ s), error)
      end
  end.

(** The body of [for (;;)]; [None] when the fuel ends before the loop. *)
Fixpoint recv_loop (fuel : nat) (w : W) (s : DerpSession W) (error : string)
  : option (option DerpFrame) * DerpSession W * string :=
  match fuel with
  | O => (None, s, error)
  | S k =>
      match tr_read 2048 w with
      | (ReadError msg, w') => (Some None, with_io s w' (codec_ s), default error msg)
      | (Closed, w') => (Some None, with_io s w' (codec_ s), "DERP connection closed"%string)
      | (Received data, w') =>
          match DerpCodec.append (codec_ s) data with
          | (Err e, b) => (Some None, with_io s w' b, e)
          | (Ok _, b) =>
              match DerpCodec.take b with
              | (Got frame, b') => (Some (Some frame), with_io s w' b', error)
              | (Wait, b') => recv_loop k w' (with_io s w' b') error
              | (Fail e, b') => recv_loop k w' (with_io s w' b') e
              end
          end
      end
  end.

Definition recvFrame (fuel : nat) (s : DerpSession W) (error : string)
  : option (option DerpFrame) * DerpSession W * string :=
  match transport_ s with
  | None => (Some None, s, "DERP transport is not open"%string)
  | Some w =>
      match DerpCodec.take (codec_ s) with
      | (Got frame, b) => (Some (Some frame), with_io s w b, error)
      | (Wait, b) => recv_loop fuel w (with_io s w b) error
      | (Fail e, b) => recv_loop fuel w (with_io s w b) e
      end
  end.

Definition clientInfoJson : bytes :=
  bs "{" ++ [u8 34] ++ bs "version" ++ [u8 34] ++ bs ":2}".

Definition or_default (error dflt : string) : string :=
  if String.eqb error "" then dflt else error.

(** The second half of [connect], from the greeting's checks on. *)
Definition finish_handshake (fuel : nat) (clientNonce : bytes) (greeting : DerpFrame)
    (s : DerpSession W) (error : string) : option bool * DerpSession W * string :=
  if negb (bool_decide (type greeting = DerpFrameType.ServerKey))
     || (length (payload greeting) <? length kDerpMagic + kDerpKeyLen)%nat
  then (Some false, s, "DERP connect: invalid ServerKey greeting"%string)
  else if negb (bool_decide (take (length kDerpMagic) (payload greeting) = kDerpMagic))
  then (Some false, s, "DERP connect: invalid magic in ServerKey greeting"%string)
  else
    let s := with_serverKey s (take kDerpKeyLen (drop (length kDerpMagic) (payload greeting))) in
    match crypto_seal clientInfoJson (clientPrivate_ s) (serverKey_ s) clientNonce with
    | Err e => (Some false, s, e)
    | Ok sealedClientInfo =>
        let clientPayload := clientPublic_ s ++ clientNonce ++ sealedClientInfo in
        match writeRaw DerpFrameType.ClientInfo clientPayload s error with
        | (false, s, error) => (Some false, s, error)
        | (true, s, error) =>
            match recvFrame fuel s error with
            | (None, s, error) => (None, s, error)
            | (Some None, s, error) =>
                (Some false, s, or_default error "DERP connect: failed to receive ServerInfo")
            | (Some (Some serverInfo), s, error) =>
                if negb (bool_decide (type serverInfo = DerpFrameType.ServerInfo))
                   || (length (payload serverInfo) <? kDerpNonceLen + kDerpTagLen)%nat
                then (Some false, s, "DERP connect: invalid ServerInfo frame"%string)
                else
                  match crypto_open (drop kDerpNonceLen (payload serverInfo)) (clientPrivate_ s)
                          (serverKey_ s) (take kDerpNonceLen (payload serverInfo)) with
                  | Err e => (Some false, s, e)
                  | Ok _ => (Some true, with_connected s true, error)
                  end
            end
        end
    end.

(** [clientNonce] is what [secureRandomBytes] fills in. *)
Definition connect (fuel : nat) (clientNonce : bytes) (s : DerpSession W)
  : option bool * DerpSession W * string :=
  let error := ""%string in
  match transport_ s with
  | None => (Some false, s, "DERP transport is not open"%string)
  | Some _ =>
      if all_zero (clientPrivate_ s)
      then (Some false, s, "DERP relay requires valid client node key; refusing to open"%string)
      else match recvFrame fuel s error with
      | (None, s, error) => (None, s, error)
      | (Some None, s, error) =>
          (Some false, s, or_default error "DERP connect: failed to receive server greeting")
      | (Some (Some greeting), s, error) => finish_handshake fuel clientNonce greeting s error
      end
  end.

Definition sendPacket (destKey packet : bytes) (s : DerpSession W) (error : string)
  : bool * DerpSession W * string :=
  if negb (bool_decide (is_Some (transport_ s))) || negb (length destKey =? kDerpKeyLen)%nat
     || bool_decide (packet = [])
  then (false, s, "invalid DERP SendPacket"%string)
  else if kDerpMaxPacketSize <? zlen packet then (false, s, "DERP packet oversized"%string)
  else writeRaw DerpFrameType.SendPacket (destKey ++ packet) s error.

Definition sendPing (token : Z) (s : DerpSession W) (error : string)
  : bool * DerpSession W * string :=
  writeRaw DerpFrameType.Ping ((fun i => u8 (Z.shiftr token (Z.of_nat i * 8))) <$> seq 0 8) s error.

Definition close (s : DerpSession W) : DerpSession W :=
  let s := with_connected s false in
  match transport_ s with
  | Some w => with_io s (tr_close w) (codec_ s)
  | None => s
  end.
End session.

(** ** The receive loop over a reliable connection *)

Definition stream := @Framing.stream DerpFrame derp_decoder.

(** What the session has still to read: its buffer, then the connection. *)
Definition unread {W} `{StreamTransport W} (s : DerpSession W) : bytes :=
  codec_ s ++ match transport_ s with Some w => concat (incoming w) | None => [] end.

Definition chunks_ok (cs : list bytes) : Prop := Forall (fun c => 0 < zlen c <= 2048) cs.

(** The largest payload whose last chunk always fits the receive buffer. *)
Definition kMaxChunkedPayload : Z := kMaxFramePayload - 2047.

Definition frame_fits (f : DerpFrame) : Prop := zlen (payload f) <= kMaxChunkedPayload.

Definition same_keys {W} (s s' : DerpSession W) : Prop :=
  clientPrivate_ s' = clientPrivate_ s /\ clientPublic_ s' = clientPublic_ s /\
  serverKey_ s' = serverKey_ s /\ connected_ s' = connected_ s.

Lemma frame_fits_wf f : frame_fits f -> frame_wf f.
Proof. unfold frame_fits, frame_wf, kMaxChunkedPayload. lia. Qed.

Lemma zlen_encode f : zlen (encode_frame f) = 5 + zlen (payload f).
Proof. rewrite encode_be. zl. unfold zlen at 1. rewrite length_be_bytes. lia. Qed.

(** A buffer that starts a stream holds a whole first frame, or part of it. *)
Lemma stream_head f fs b rest : b ++ rest = stream (f :: fs) ->
  (exists r, b = encode_frame f ++ r /\ r ++ rest = stream fs) \/
  (exists q, q <> [] /\ b ++ q = encode_frame f).
Proof.
  unfold stream, Framing.stream. cbn [fmap list_fmap concat fd_bytes derp_decoder].
  intros E. apply app_eq_app in E as (l&[(->&->)|(->&->)]).
  - left. eauto.
  - destruct l as [|x l]; [left; exists []; by rewrite !app_nil_r|right; by exists (x :: l)].
Qed.

Section stream_facts.
Context {W : Type} `{StreamTransport W}.

Lemma recv_loop_stream f fs : frame_fits f -> forall cs fuel w (s : DerpSession W) error,
  incoming w = cs -> chunks_ok cs -> (length cs < fuel)%nat ->
  (exists q, q <> [] /\ codec_ s ++ q = encode_frame f) ->
  codec_ s ++ concat cs = stream (f :: fs) ->
  exists s' w', recv_loop fuel w s error = (Some (Some f), s', error) /\
    transport_ s' = Some w' /\ outgoing w' = outgoing w /\ unread s' = stream fs /\
    chunks_ok (incoming w') /\ (length (incoming w') <= length cs)%nat /\ same_keys s s'.
Proof.
  intros Hf cs. induction cs as [|c cs IH]; intros [|fuel] w s error Hi Hc Hlt (q&Hq&Eq) Hs; try (simpl in Hlt; lia).
  - exfalso. rewrite app_nil_r in Hs. rewrite Hs in Eq. unfold stream, Framing.stream in Eq.
    cbn [fmap list_fmap concat fd_bytes derp_decoder] in Eq.
    apply (f_equal length) in Eq. rewrite !length_app in Eq. destruct q; [done|]. simpl in Eq. lia.
  - apply Forall_cons_1 in Hc as [Hc Hcs].
    destruct (read_incoming w c cs 2048 Hi Hc) as (w'&Hr&Hi'&Ho).
    cbn [recv_loop]. rewrite Hr.
    assert (DerpCodec.append (codec_ s) c = (Ok tt, codec_ s ++ c)) as ->.
    { unfold frame_fits, kMaxChunkedPayload in Hf.
      assert (zlen (codec_ s) + zlen q = 5 + zlen (payload f)) by (rewrite <- zlen_encode, <- Eq; zl).
      assert (1 <= zlen q) by (destruct q; [done|zl; pose proof (zlen_nonneg q); lia]).
      unfold DerpCodec.append. change (Z.of_nat kDerpFrameHeaderLen) with 5.
      assert (2048 <= kMaxFramePayload) by done.
      rewrite (proj2 (Z.ltb_ge _ _)), (proj2 (Z.ltb_ge _ _)) by lia. done. }
    cbn [concat] in Hs. rewrite app_assoc in Hs.
    pose proof (stream_head f fs _ _ Hs) as [(r&Eb&Er)|(q'&Hq'&Eb)].
    + rewrite Eb. rewrite (derp_take_frame f r (frame_fits_wf _ Hf)).
      eexists (with_io s w' r), w'. unfold unread. cbn [with_io transport_ codec_].
      rewrite Hi'. split_and!; try done. simpl. lia.
    + rewrite (derp_take_partial f _ q' (frame_fits_wf _ Hf) Hq' Eb).
      destruct (IH fuel w' (with_io s w' (codec_ s ++ c)) error) as (s'&w2&E&T&O&U&C&L&K);
        [done|done|simpl in Hlt; lia|by exists q'|done|].
      exists s', w2. split_and!; try done; [congruence|simpl; lia].
Qed.

(** C22: over a connection that delivers a sequence of frames in any chunks of at
    most 2048 bytes, [recvFrame] returns the first frame, leaves the session
    with exactly the rest of the stream to read, and needs no more rounds than
    there are chunks; keys and connection flag are untouched. *)
Theorem recvFrame_stream f fs fuel w (s : DerpSession W) error :
  transport_ s = Some w -> frame_fits f -> chunks_ok (incoming w) ->
  (length (incoming w) < fuel)%nat -> unread s = stream (f :: fs) ->
  exists s' w', recvFrame fuel s error = (Some (Some f), s', error) /\
    transport_ s' = Some w' /\ outgoing w' = outgoing w /\ unread s' = stream fs /\
    chunks_ok (incoming w') /\ (length (incoming w') <= length (incoming w))%nat /\
    same_keys s s'.
Proof.
  intros Ht Hf Hc Hlt Hu. unfold unread in Hu. rewrite Ht in Hu. unfold recvFrame. rewrite Ht.
  destruct (stream_head f fs _ _ Hu) as [(r&Eb&Er)|(q&Hq&Eb)].
  - rewrite Eb, (derp_take_frame f r (frame_fits_wf _ Hf)).
    exists (with_io s w r), w. unfold unread. by split_and!.
  - rewrite (derp_take_partial f _ q (frame_fits_wf _ Hf) Hq Eb).
    destruct (recv_loop_stream f fs Hf _ fuel w (with_io s w (codec_ s)) error eq_refl Hc Hlt)
      as (s'&w'&?&?&?&?&?&?&?); [by exists q|done|].
    by exists s', w'.
Qed.
End stream_facts.

(** ** The handshake *)

Section handshake.
Context {W : Type} `{StreamTransport W} `{DerpCryptoLaws}.

Lemma unread_with_serverKey (s : DerpSession W) k : unread (with_serverKey s k) = unread s.
Proof. done. Qed.

Lemma writeRaw_stream t p (s : DerpSession W) w error : transport_ s = Some w ->
  exists w', writeRaw t p s error = (true, with_io s w' (codec_ s), error) /\
    incoming w' = incoming w /\ outgoing w' = outgoing w ++ DerpCodec.encode t p.
Proof.
  intros Ht. unfold writeRaw. rewrite Ht.
  destruct (write_outgoing w (DerpCodec.encode t p)) as (w'&->&?&?). eauto.
Qed.

(** The frames a DERP server with key pair ([sk], [sK]) sends. *)
Definition greeting_of (sK extra : bytes) : DerpFrame :=
  {| type := DerpFrameType.ServerKey; payload := kDerpMagic ++ sK ++ extra |}.
Definition info_of (snonce sealed : bytes) : DerpFrame :=
  {| type := DerpFrameType.ServerInfo; payload := snonce ++ sealed |}.

Lemma finish_handshake_stream fuel nonce sK extra snonce sealed info ci fs w (s : DerpSession W) :
  transport_ s = Some w -> chunks_ok (incoming w) -> (length (incoming w) < fuel)%nat ->
  length sK = kDerpKeyLen -> length snonce = kDerpNonceLen -> (kDerpTagLen <= length sealed)%nat ->
  frame_fits (info_of snonce sealed) ->
  crypto_seal clientInfoJson (clientPrivate_ s) sK nonce = Ok ci ->
  crypto_open sealed (clientPrivate_ s) sK snonce = Ok info ->
  unread s = stream (info_of snonce sealed :: fs) ->
  exists s' w', finish_handshake fuel nonce (greeting_of sK extra) s "" = (Some true, s', ""%string) /\
    connected_ s' = true /\ serverKey_ s' = sK /\ transport_ s' = Some w' /\
    outgoing w' = outgoing w ++
      DerpCodec.encode DerpFrameType.ClientInfo (clientPublic_ s ++ nonce ++ ci) /\
    unread s' = stream fs.
Proof.
  intros Ht Hc Hlt HsK Hsn Htag Hfit Hseal Hopen Hu. unfold finish_handshake.
  cbn [greeting_of type payload]. rewrite bool_decide_true by done. cbn [negb orb].
  rewrite !length_app, HsK. destruct (Nat.ltb_spec (length kDerpMagic + (kDerpKeyLen + length extra))
    (length kDerpMagic + kDerpKeyLen)) as [|_]; [lia|].
  rewrite take_app_length, bool_decide_true by done. cbn [negb]. rewrite drop_app_length.
  rewrite take_app_length' by done. cbn [with_serverKey clientPrivate_ serverKey_ clientPublic_].
  rewrite Hseal.
  destruct (writeRaw_stream DerpFrameType.ClientInfo (clientPublic_ s ++ nonce ++ ci)
    (with_serverKey s sK) w "" Ht) as (w1&->&Hi1&Ho1).
  destruct (recvFrame_stream (info_of snonce sealed) fs fuel w1
    (with_io (with_serverKey s sK) w1 (codec_ s)) "") as (s2&w2&E2&T2&O2&U2&C2&L2&K2);
    [done|done|by rewrite Hi1|by rewrite Hi1| |].
  { rewrite <- Hu. unfold unread. cbn. by rewrite Hi1, Ht. }
  cbn [with_serverKey codec_]. rewrite E2. destruct K2 as (Kp&Kq&Kk&Kc).
  cbn [info_of type payload]. rewrite bool_decide_true by done. cbn [negb orb].
  rewrite length_app, Hsn. destruct (Nat.ltb_spec (kDerpNonceLen + length sealed)
    (kDerpNonceLen + kDerpTagLen)) as [|_]; [lia|].
  rewrite drop_app_length', take_app_length' by done. rewrite Kp, Kk.
  cbn [with_io with_serverKey clientPrivate_ serverKey_]. rewrite Hopen.
  exists (with_connected s2 true), w2. cbn [with_connected connected_ serverKey_ transport_].
  split_and!; try done. by rewrite O2, Ho1.
Qed.

(** C2: the DERP handshake succeeds with an honest relay, however the connection
    cuts its bytes: the relay's key is learned, the one frame sent carries this
    client's public key and a box that opens, with the relay's private key, to
    the client info, and what follows the server info is left to be read. *)
Theorem connect_succeeds fuel nonce sk sK extra snonce sealed info ci fs w (s : DerpSession W) :
  transport_ s = Some w -> chunks_ok (incoming w) -> (length (incoming w) < fuel)%nat ->
  key_pair (clientPrivate_ s) (clientPublic_ s) -> all_zero (clientPrivate_ s) = false ->
  key_pair sk sK -> length sK = kDerpKeyLen -> length nonce = kDerpNonceLen ->
  length snonce = kDerpNonceLen ->
  crypto_seal clientInfoJson (clientPrivate_ s) sK nonce = Ok ci ->
  crypto_seal info sk (clientPublic_ s) snonce = Ok sealed ->
  frame_fits (greeting_of sK extra) -> frame_fits (info_of snonce sealed) ->
  unread s = stream (greeting_of sK extra :: info_of snonce sealed :: fs) ->
  exists s' w', connect fuel nonce s = (Some true, s', ""%string) /\
    connected_ s' = true /\ serverKey_ s' = sK /\ transport_ s' = Some w' /\
    outgoing w' = outgoing w ++
      DerpCodec.encode DerpFrameType.ClientInfo (clientPublic_ s ++ nonce ++ ci) /\
    crypto_open ci sk (clientPublic_ s) nonce = Ok clientInfoJson /\
    unread s' = stream fs.
Proof.
  intros Ht Hc Hlt Hck Hz Hsk HsK Hn Hsn Hci Hsealed Hf1 Hf2 Hu. unfold connect. rewrite Ht, Hz.
  destruct (recvFrame_stream _ _ fuel w s "" Ht Hf1 Hc Hlt Hu)
    as (s1&w1&->&T1&O1&U1&C1&L1&(Kp&Kq&Kk&Kc)).
  destruct (finish_handshake_stream fuel nonce sK extra snonce sealed info ci fs w1 s1)
    as (s2&w2&->&?&?&?&Ho&?); try done.
  - lia.
  - by eapply seal_tag_law.
  - by rewrite Kp.
  - rewrite Kp. by eapply open_seal_law.
  - exists s2, w2. rewrite Kq, O1 in Ho. split_and!; try done. by eapply open_seal_law.
Qed.

Lemma recv_loop_keys fuel : forall w (s : DerpSession W) error r s' e,
  recv_loop fuel w s error = (r, s', e) -> same_keys s s'.
Proof.
  induction fuel as [|fuel IH]; intros w s error r s' e; simpl; [by intros [= <- <- <-]|].
  destruct (tr_read 2048 w) as [[data| |msg] w']; try by intros [= <- <- <-].
  destruct (DerpCodec.append (codec_ s) data) as [[?|?] b]; [|by intros [= <- <- <-]].
  destruct (DerpCodec.take b) as [[f| |m] b']; [by intros [= <- <- <-]|intros E; by apply IH in E..].
Qed.

Lemma recvFrame_keys fuel (s : DerpSession W) error r s' e :
  recvFrame fuel s error = (r, s', e) -> same_keys s s'.
Proof.
  unfold recvFrame. destruct (transport_ s) as [w|]; [|by intros [= <- <- <-]].
  destruct (DerpCodec.take (codec_ s)) as [[f| |m] b'];
    [by intros [= <- <- <-]|intros E; by apply recv_loop_keys in E..].
Qed.

Lemma writeRaw_keys t p (s : DerpSession W) error b s' e :
  writeRaw t p s error = (b, s', e) -> same_keys s s'.
Proof.
  unfold writeRaw. destruct (transport_ s) as [w|]; [|by intros [= <- <- <-]].
  destruct (tr_write _ w) as [[|msg] w']; by intros [= <- <- <-].
Qed.
End handshake.

Section safety.
Context {W : Type} `{ITransport W} `{IDerpCrypto}.

(** The greeting names a key; the server info proves that whoever wrote it
    holds that key: a nonce, then a box that opens under it and the client's. *)
Definition greets (serverKey : bytes) (greeting : DerpFrame) : Prop :=
  type greeting = DerpFrameType.ServerKey /\ length serverKey = kDerpKeyLen /\
  exists extra, payload greeting = kDerpMagic ++ serverKey ++ extra.
Definition vouches (priv serverKey : bytes) (serverInfo : DerpFrame) : Prop :=
  type serverInfo = DerpFrameType.ServerInfo /\
  exists nonce box plain, payload serverInfo = nonce ++ box /\ length nonce = kDerpNonceLen /\
    (kDerpTagLen <= length box)%nat /\ crypto_open box priv serverKey nonce = Ok plain.

(** The three steps of a handshake from [s1], whose last received frame is
    [greeting], to [s']: the client's info written under the greeted key, then
    the frame received next. *)
Definition shakes (fuel : nat) (nonce : bytes) (greeting : DerpFrame) (s1 : DerpSession W) (e1 : string)
    (s' : DerpSession W) : Prop :=
  exists ci s2 e2 serverInfo s3 e3,
    greets (serverKey_ s') greeting /\
    crypto_seal clientInfoJson (clientPrivate_ s1) (serverKey_ s') nonce = Ok ci /\
    writeRaw DerpFrameType.ClientInfo (clientPublic_ s1 ++ nonce ++ ci)
      (with_serverKey s1 (serverKey_ s')) e1 = (true, s2, e2) /\
    recvFrame fuel s2 e2 = (Some (Some serverInfo), s3, e3) /\
    vouches (clientPrivate_ s1) (serverKey_ s') serverInfo /\
    s' = with_connected s3 true.

(** What a session that says it is connected has checked. *)
Definition authenticated (priv nonce serverKey : bytes) : Prop :=
  exists greeting ci serverInfo,
    greets serverKey greeting /\ crypto_seal clientInfoJson priv serverKey nonce = Ok ci /\
    vouches priv serverKey serverInfo.

Lemma shakes_authenticated fuel nonce g s1 e1 s' :
  shakes fuel nonce g s1 e1 s' -> authenticated (clientPrivate_ s1) nonce (serverKey_ s').
Proof. intros (ci&?&?&info&?&?&?&?&_&_&?&_). by exists g, ci, info. Qed.

Lemma greeting_shape p : (length kDerpMagic + kDerpKeyLen <= length p)%nat ->
  take (length kDerpMagic) p = kDerpMagic ->
  length (take kDerpKeyLen (drop (length kDerpMagic) p)) = kDerpKeyLen /\
  exists extra, p = kDerpMagic ++ take kDerpKeyLen (drop (length kDerpMagic) p) ++ extra.
Proof.
  intros Hl Hm. split; [rewrite length_take, length_drop; lia|].
  exists (drop kDerpKeyLen (drop (length kDerpMagic) p)).
  rewrite take_drop. by rewrite <- Hm at 1; rewrite take_drop.
Qed.

Lemma vouches_intro priv k f plain : type f = DerpFrameType.ServerInfo ->
  (kDerpNonceLen + kDerpTagLen <= length (payload f))%nat ->
  crypto_open (drop kDerpNonceLen (payload f)) priv k (take kDerpNonceLen (payload f)) = Ok plain ->
  vouches priv k f.
Proof.
  intros Hf Hl Ho. split; [done|].
  exists (take kDerpNonceLen (payload f)), (drop kDerpNonceLen (payload f)), plain.
  rewrite take_drop, length_take, length_drop. split_and!; [done|lia|lia|done].
Qed.

Lemma finish_handshake_inv fuel nonce g (s : DerpSession W) error r s' e :
  finish_handshake fuel nonce g s error = (r, s', e) ->
  (r = Some true /\ connected_ s' = true /\ shakes fuel nonce g s error s') \/
  (r <> Some true /\ connected_ s' = connected_ s).
Proof.
  unfold finish_handshake.
  destruct (bool_decide_reflect (type g = DerpFrameType.ServerKey)) as [Hg|];
    cbn [negb orb]; [|intros [= <- <- <-]; by right].
  destruct (Nat.ltb_spec (length (payload g)) (length kDerpMagic + kDerpKeyLen)) as [|Hl];
    [intros [= <- <- <-]; by right|].
  destruct (bool_decide_reflect (take (length kDerpMagic) (payload g) = kDerpMagic)) as [Hm|];
    cbn [negb]; [|intros [= <- <- <-]; by right].
  destruct (greeting_shape _ Hl Hm) as (Hk&extra&Hp).
  set (k := take kDerpKeyLen (drop (length kDerpMagic) (payload g))) in *.
  cbn [with_serverKey clientPrivate_ serverKey_ clientPublic_].
  destruct (crypto_seal _ _ _ _) as [ci|m] eqn:Hci; [|intros [= <- <- <-]; by right].
  destruct (writeRaw _ _ _ _) as [[b s1] e1] eqn:E1. apply writeRaw_keys in E1 as HK. destruct HK as (K1&_&K1'&K1c).
  destruct b; [|intros [= <- <- <-]; by right].
  destruct (recvFrame _ _ _) as [[[[f|]|] s2] e2] eqn:E2; apply recvFrame_keys in E2 as HK; destruct HK as (K2&_&K2'&K2c);
    [|intros [= <- <- <-]; right; by rewrite K2c, K1c..].
  destruct (bool_decide_reflect (type f = DerpFrameType.ServerInfo)) as [Hf|];
    cbn [negb orb]; [|intros [= <- <- <-]; right; by rewrite K2c, K1c].
  destruct (Nat.ltb_spec (length (payload f)) (kDerpNonceLen + kDerpTagLen));
    [intros [= <- <- <-]; right; by rewrite K2c, K1c|].
  destruct (crypto_open _ _ _ _) as [plain|m] eqn:Ho; intros [= <- <- <-];
    [left|right; by rewrite K2c, K1c].
  rewrite K2, K1, K2', K1' in Ho. cbn in Ho. split_and!; [done|done|].
  assert (serverKey_ (with_connected s2 true) = k) as Hsk by (cbn; by rewrite K2', K1').
  exists ci, s1, e1, f, s2, e2. rewrite Hsk. split_and!; [|done|done|done| |done].
  - split_and!; [done|done|by exists extra].
  - by eapply vouches_intro.
Qed.

(** The calls keep the client's key and never lose the transport. *)
Definition same_client (s s' : DerpSession W) : Prop :=
  clientPrivate_ s' = clientPrivate_ s /\ (is_Some (transport_ s) -> is_Some (transport_ s')).

Lemma same_client_trans s1 s2 s3 : same_client s1 s2 -> same_client s2 s3 -> same_client s1 s3.
Proof. intros [Ea Ha] [Eb Hb]. split; [congruence|auto]. Qed.

Lemma same_client_io (s : DerpSession W) w codec : same_client s (with_io s w codec).
Proof. split; [done|]. intros _. by eexists. Qed.

Lemma same_client_refl (s : DerpSession W) : same_client s s.
Proof. by split. Qed.
#[local] Hint Resolve same_client_io same_client_refl : core.

Lemma recv_loop_client fuel : forall w (s : DerpSession W) error r s' e,
  recv_loop fuel w s error = (r, s', e) -> same_client s s'.
Proof.
  induction fuel as [|fuel IH]; intros w s error r s' e; cbn [recv_loop]; [by intros [= _ <- _]|].
  destruct (tr_read 2048 w) as [[data| |msg] w']; [|intros [= _ <- _]; auto..].
  destruct (DerpCodec.append (codec_ s) data) as [[?|?] b]; [|intros [= _ <- _]; auto].
  destruct (DerpCodec.take b) as [[f| |m] b'];
    [intros [= _ <- _]; auto|intros E; eapply same_client_trans; [apply same_client_io|by eapply IH]..].
Qed.

Lemma recvFrame_client fuel (s : DerpSession W) error r s' e : recvFrame fuel s error = (r, s', e) -> same_client s s'.
Proof.
  unfold recvFrame. destruct (transport_ s) as [w|] eqn:Hw; [|by intros [= _ <- _]].
  destruct (DerpCodec.take (codec_ s)) as [[f| |m] b'];
    [intros [= _ <- _]; auto|intros E; eapply same_client_trans; [apply same_client_io|by eapply recv_loop_client]..].
Qed.

Lemma writeRaw_client t p (s : DerpSession W) error b s' e : writeRaw t p s error = (b, s', e) -> same_client s s'.
Proof.
  unfold writeRaw. destruct (transport_ s) as [w|] eqn:Hw; [|by intros [= _ <- _]].
  destruct (tr_write _ w) as [[|msg] w']; intros [= _ <- _]; auto.
Qed.

Lemma finish_handshake_client fuel nonce g (s : DerpSession W) error r s' e :
  finish_handshake fuel nonce g s error = (r, s', e) -> same_client s s'.
Proof.
  unfold finish_handshake. destruct (_ || _); [by intros [= <- <- <-]|]. destruct (negb _); [by intros [= <- <- <-]|].
  set (s1 := with_serverKey s _). assert (same_client s s1) as H1 by done. clearbody s1.
  destruct (crypto_seal _ _ _ _) as [ci|m]; [|by intros [= <- <- <-]].
  destruct (writeRaw _ _ s1 error) as [[b s2] e2] eqn:E2. apply writeRaw_client in E2.
  pose proof (same_client_trans _ _ _ H1 E2) as H2. destruct b; [|by intros [= <- <- <-]].
  destruct (recvFrame fuel s2 e2) as [[r3 s3] e3] eqn:E3. apply recvFrame_client in E3.
  pose proof (same_client_trans _ _ _ H2 E3) as H3.
  destruct r3 as [[f|]|]; [|by intros [= <- <- <-]..]. destruct (_ || _); [by intros [= <- <- <-]|].
  destruct (crypto_open _ _ _ _); by intros [= <- <- <-].
Qed.

(** A successful [connect]. *)
Lemma connect_session fuel nonce (s : DerpSession W) s' e : connect fuel nonce s = (Some true, s', e) ->
  connected_ s' = true /\ all_zero (clientPrivate_ s) = false /\ authenticated (clientPrivate_ s) nonce (serverKey_ s') /\
  clientPrivate_ s' = clientPrivate_ s /\ is_Some (transport_ s').
Proof.
  unfold connect. destruct (transport_ s) as [w|] eqn:Hw; [|by intros [= <- <-]].
  destruct (all_zero (clientPrivate_ s)); [by intros [= <- <-]|].
  destruct (recvFrame fuel s "") as [[r1 s1] e1] eqn:E1. apply recvFrame_keys in E1 as HK. apply recvFrame_client in E1.
  destruct r1 as [[g|]|]; [|by intros [= <- <-]..]. intros Hf.
  apply finish_handshake_client in Hf as Hc. apply finish_handshake_inv in Hf as [(_&Hcon&Ha)|(?&_)]; [|done].
  destruct (same_client_trans _ _ _ E1 Hc) as [Hp Ht]. destruct HK as (HK&_).
  apply shakes_authenticated in Ha. rewrite HK in Ha.
  split_and!; try done. apply Ht. by rewrite Hw.
Qed.

(** C9: a session never claims to be connected without proof: whatever the
    transport delivers, [connect] sets [connected_] only when it returns true,
    and then its private key is not all zeros, the first frame it received is a
    DERP greeting (type, magic) with a 32-byte key, which is the key it keeps;
    it wrote its client info, sealed for that key, under its public key and
    nonce; and the frame it received next is a server info of at least a nonce
    and a tag, whose box opens under exactly that key and this client's private
    key. On every other outcome the flag keeps its value. *)
Theorem connect_authenticates fuel nonce (s : DerpSession W) r s' e :
  connect fuel nonce s = (r, s', e) ->
  (r = Some true /\ connected_ s' = true /\ all_zero (clientPrivate_ s) = false /\
     exists greeting s1 e1, recvFrame fuel s "" = (Some (Some greeting), s1, e1) /\ same_keys s s1 /\
       shakes fuel nonce greeting s1 e1 s') \/
  (r <> Some true /\ connected_ s' = connected_ s).
Proof.
  unfold connect. destruct (transport_ s); [|intros [= <- <- <-]; by right].
  destruct (all_zero (clientPrivate_ s)); [intros [= <- <- <-]; by right|].
  destruct (recvFrame _ _ _) as [[[[g|]|] s1] e1] eqn:E1; apply recvFrame_keys in E1 as HK; destruct HK as (K1&K2&K3&K4);
    [|intros [= <- <- <-]; by right..].
  intros Hf. apply finish_handshake_inv in Hf as [(->&?&Ha)|(?&->)]; [left|by right].
  split_and!; [done|done|done|]. by exists g, s1, e1.
Qed.

(** What [sendPacket] puts on the wire: nothing unless the destination is a
    32-byte key and the packet has 1 to 65536 bytes; otherwise one frame, which
    the relay's decoder parses back to the destination followed by the packet. *)
Theorem sendPacket_spec destKey packet (s : DerpSession W) w error :
  transport_ s = Some w ->
  (length destKey = kDerpKeyLen /\ 1 <= zlen packet <= kDerpMaxPacketSize /\
     sendPacket destKey packet s error =
       writeRaw DerpFrameType.SendPacket (destKey ++ packet) s error /\
     forall rest, DerpCodec.take (DerpCodec.encode DerpFrameType.SendPacket (destKey ++ packet) ++ rest) =
       (Got {| type := DerpFrameType.SendPacket; payload := destKey ++ packet |}, rest)) \/
  (~ (length destKey = kDerpKeyLen /\ 1 <= zlen packet <= kDerpMaxPacketSize) /\
     exists e, sendPacket destKey packet s error = (false, s, e)).
Proof.
  intros Ht. unfold sendPacket. rewrite Ht, bool_decide_true by eauto. cbn [negb orb].
  destruct (Nat.eqb_spec (length destKey) kDerpKeyLen) as [Hk|]; cbn [negb orb];
    [|right; split; [intros []; done|eauto]].
  destruct (bool_decide_reflect (packet = [])) as [->|Hne];
    [right; split; [intros (_&?&_); by zl|eauto]|].
  destruct (Z.ltb_spec kDerpMaxPacketSize (zlen packet)); [right; split; [lia|eauto]|].
  left. assert (1 <= zlen packet) by (destruct packet; [done|zl; pose proof (zlen_nonneg packet); lia]).
  split_and!; [done|lia|lia|done|]. intros rest.
  apply (derp_take_frame {| type := DerpFrameType.SendPacket; payload := destKey ++ packet |}).
  unfold frame_wf. cbn [payload]. zl. assert (zlen destKey = 32) as -> by (unfold zlen; by rewrite Hk).
  assert (32 + kDerpMaxPacketSize <= kMaxFramePayload) by done. lia.
Qed.
End safety.

(** ** NaCl boxes keep the promise of [IDerpCrypto] *)

Section nacl.
Context (x25519 poly1305 : bytes -> bytes -> bytes) (public_of : bytes -> bytes).
Hypothesis poly1305_tag : forall m k, length (poly1305 m k) = 16%nat.
Hypothesis x25519_agree : forall a b, x25519 a (public_of b) = x25519 b (public_of a).

Definition nacl_laws : @DerpCryptoLaws (DerpCrypto x25519 poly1305).
Proof.
  refine {| key_pair := fun a A => A = public_of a |}; cbn [crypto_seal crypto_open DerpCrypto].
  - intros a A b B nonce m c -> -> _ Hs. unfold DerpCrypto_seal in Hs.
    rewrite (boxSeal_agree _ _ _ _ (public_of a) b) in Hs by done.
    unfold DerpCrypto_open. apply boxOpen_boxSeal_same in Hs; [|done]. rewrite Hs.
    apply boxOpen_Ok in Hs as (Hl&_).
    destruct (Nat.ltb_spec (length c) kDerpTagLen); [unfold kDerpTagLen in *; lia|done].
  - intros a B nonce m c Hs. apply boxSeal_Ok in Hs as (key&ks&_&_&->).
    rewrite length_app, poly1305_tag. unfold kDerpTagLen. lia.
Defined.
End nacl.

(** ** A run of the whole handshake *)

Definition zeros16 : bytes := replicate 16 Init.Byte.x00.

(** An authenticated stand-in for the box: a tag that depends on the two keys,
    then the message. *)
Definition tag_of (a B : bytes) : bytes := take kDerpTagLen (toy_x25519 a B ++ zeros16).
Definition toy_crypto : IDerpCrypto := {|
  crypto_seal m a B _ := Ok (tag_of a B ++ m);
  crypto_open c a B _ :=
    check bool_decide (take kDerpTagLen c = tag_of a B) else "bad tag";
    Ok (drop kDerpTagLen c);
|}.

Lemma length_tag_of a B : length (tag_of a B) = kDerpTagLen.
Proof. unfold tag_of. rewrite length_take, length_app. change (length zeros16) with 16%nat. unfold kDerpTagLen. lia. Qed.

Definition toy_laws : @DerpCryptoLaws toy_crypto.
Proof.
  refine {| key_pair := fun a A => A = a |}; cbn [crypto_seal crypto_open toy_crypto].
  - intros a A b B nonce m c -> -> _ <-%Ok_inj.
    rewrite take_app_length', drop_app_length' by by rewrite length_tag_of.
    rewrite bool_decide_true; [done|]. unfold tag_of. by rewrite toy_x25519_sym.
  - intros a B nonce m c <-%Ok_inj. rewrite length_app, length_tag_of. lia.
Defined.

Definition toy_nonce : bytes := replicate 24 (u8 5).
Definition sealed_of (m a B : bytes) : bytes := tag_of a B ++ m.

Definition toy_frames : list DerpFrame :=
  [greeting_of (toy_key 2) [];
   info_of toy_nonce (sealed_of (bs "{}") (toy_key 2) (toy_key 1));
   {| type := DerpFrameType.RecvPacket; payload := bs "packet" |}].

(** The relay's bytes, cut in the middle of the first and second frame. *)
Definition toy_wire : script :=
  let b := stream toy_frames in
  {| sc_incoming := [take 3 b; slice 3 60 b; drop 63 b]; sc_outgoing := [] |}.
Definition toy_session : DerpSession script :=
  open_session (Some toy_wire) (toy_key 1) (toy_key 1).

Lemma connect_succeeds_witness :
  exists (s' : DerpSession script) (w' : script),
    @connect _ _ toy_crypto 10 toy_nonce toy_session = (Some true, s', ""%string) /\
    connected_ s' = true /\ serverKey_ s' = toy_key 2 /\ transport_ s' = Some w' /\
    outgoing w' = outgoing toy_wire ++ DerpCodec.encode DerpFrameType.ClientInfo
      (clientPublic_ toy_session ++ toy_nonce ++ sealed_of clientInfoJson (toy_key 1) (toy_key 2)) /\
    @crypto_open toy_crypto (sealed_of clientInfoJson (toy_key 1) (toy_key 2)) (toy_key 2)
      (clientPublic_ toy_session) toy_nonce = Ok clientInfoJson /\
    unread s' = stream [{| type := DerpFrameType.RecvPacket; payload := bs "packet" |}].
Proof.
  apply (connect_succeeds (H1 := toy_crypto) (H2 := toy_laws) 10 toy_nonce
    (toy_key 2) (toy_key 2) [] toy_nonce (sealed_of (bs "{}") (toy_key 2) (toy_key 1))
    (bs "{}") (sealed_of clientInfoJson (toy_key 1) (toy_key 2))
    [{| type := DerpFrameType.RecvPacket; payload := bs "packet" |}] toy_wire
    toy_session); [reflexivity|apply (bool_decide_unpack _); by vm_compute|simpl; lia|reflexivity
    |vm_compute; reflexivity|reflexivity|reflexivity|reflexivity|reflexivity|vm_compute; reflexivity|vm_compute; reflexivity|apply Z.leb_le; vm_compute; reflexivity|apply Z.leb_le; vm_compute; reflexivity
    |vm_compute; reflexivity].
Defined.

Lemma recvFrame_stream_witness :
  exists (s' : DerpSession script) (w' : script),
    recvFrame 4 toy_session "" = (Some (Some (greeting_of (toy_key 2) [])), s', ""%string) /\
    transport_ s' = Some w' /\ outgoing w' = outgoing toy_wire /\
    unread s' = stream (drop 1 toy_frames) /\ chunks_ok (incoming w') /\
    (length (incoming w') <= length (incoming toy_wire))%nat /\ same_keys toy_session s'.
Proof.
  apply (recvFrame_stream (greeting_of (toy_key 2) []) (drop 1 toy_frames) 4 toy_wire toy_session);
    [reflexivity|apply Z.leb_le; vm_compute; reflexivity|
     apply (bool_decide_unpack _); by vm_compute|simpl; lia|vm_compute; reflexivity].
Defined.

(** A relay that answers with another key's box is not connected to. *)
Definition forged_session : DerpSession script :=
  open_session (Some {| sc_incoming := [stream [greeting_of (toy_key 2) [];
    info_of toy_nonce (sealed_of (bs "{}") (toy_key 3) (toy_key 1))]]; sc_outgoing := [] |})
    (toy_key 1) (toy_key 1).

Lemma connect_authenticates_witness :
  (exists (s' : DerpSession script) e, @connect _ _ toy_crypto 10 toy_nonce toy_session = (Some true, s', e) /\
     connected_ s' = true /\ exists greeting s1 e1,
     recvFrame 10 toy_session "" = (Some (Some greeting), s1, e1) /\
     @shakes _ _ toy_crypto 10 toy_nonce greeting s1 e1 s') /\
  exists (s' : DerpSession script) e,
    @connect _ _ toy_crypto 10 toy_nonce forged_session = (Some false, s', e) /\
    e = "bad tag"%string /\ connected_ s' = connected_ forged_session.
Proof.
  split.
  - destruct (@connect _ _ toy_crypto 10 toy_nonce toy_session) as [[r s'] e] eqn:E.
    assert (r = Some true) as -> by (vm_compute in E; injection E as <- _ _; reflexivity).
    exists s', e. split; [reflexivity|].
    apply (connect_authenticates (H0 := toy_crypto)) in E as [(_&Hc&_&g&s1&e1&Hg&_&Hs)|(Hn&_)];
      [split; [exact Hc|by exists g, s1, e1]|by destruct Hn].
  - destruct (@connect _ _ toy_crypto 10 toy_nonce forged_session) as [[r s'] e] eqn:E.
    assert (r = Some false /\ e = "bad tag"%string) as [-> ->].
    { vm_compute in E. injection E as <- _ <-. by split. }
    exists s'. eexists. split_and!; [reflexivity|reflexivity|].
    apply (connect_authenticates (H0 := toy_crypto)) in E as [(?&_)|(_&?)]; [discriminate|done].
Defined.

Lemma sendPacket_spec_witness :
  exists e, sendPacket (toy_key 2) [] toy_session "" = (false, toy_session, e).
Proof.
  destruct (sendPacket_spec (toy_key 2) [] toy_session toy_wire "" eq_refl) as [(_&H&_)|(_&H)];
    [vm_compute in H; destruct H; congruence|exact H].
Defined.

(** An announced length over the cap is reported and then forgotten: [take]
    fails, [recvFrame] reads on, and returns what the following bytes look like
    as a frame. *)
Definition oversized_session : DerpSession script :=
  open_session (Some {| sc_incoming := [u8 <$> [5; 255; 255; 255; 255];
    encode_frame {| type := DerpFrameType.RecvPacket; payload := bs "inner" |}];
    sc_outgoing := [] |}) (toy_key 1) (toy_key 1).

Example recvFrame_after_oversized :
  exists s', recvFrame 10 oversized_session "" =
    (Some (Some {| type := DerpFrameType.RecvPacket; payload := bs "inner" |}), s',
     "DERP frame oversized"%string).
Proof. eexists. vm_compute. reflexivity. Qed.
