(* ===== verification/HttpUpgrade.v ===== *)
(** The HTTP/1.1 upgrades that open the two long-lived connections: TS2021 to
    the control server ([TailscaleHttpUpgrade.cpp]) and DERP to a relay (the
    upgrade functions of [TailscaleDerp.cpp]). *)

From S2P Require Import Prelude Bytes Text.

Definition CR : byte := u8 13.
Definition LF : byte := u8 10.
Definition crlf : bytes := [CR; LF].
Definition kMaxHeaderSize : Z := 16 * 1024.
Definition kUpgrade : bytes := bs "tailscale-control-protocol".
Definition kBase64 : bytes :=
  bs "ABCDEFGHIJKLMNOPQRSTUVWXYZabcdefghijklmnopqrstuvwxyz0123456789+/".

(** [kBase64[v]]. *)
Definition base64_char (v : Z) : byte := kBase64 !!! Z.to_nat v.

(** One round of the loop: three input bytes, the last two possibly absent. *)
Definition base64_group (first : byte) (second third : option byte) : bytes :=
  let value := Z.lor (Z.lor (Z.shiftl (ub first) 16) (Z.shiftl (default 0 (ub <$> second)) 8))
                 (default 0 (ub <$> third)) in
  [base64_char (Z.land (Z.shiftr value 18) 63);
   base64_char (Z.land (Z.shiftr value 12) 63);
   if second is Some _ then base64_char (Z.land (Z.shiftr value 6) 63) else ch "=";
   if third is Some _ then base64_char (Z.land value 63) else ch "="].

Fixpoint base64 (input : bytes) : bytes :=
  match input with
  | [] => []
  | a :: r => match r with
      | [] => base64_group a None None
      | b :: r' => match r' with
          | [] => base64_group a (Some b) None
          | c :: rest => base64_group a (Some b) (Some c) ++ base64 rest
          end
      end
  end.

Definition is_space (b : byte) : bool := bool_decide (b = ch " ") || bool_decide (b = u8 9).

Fixpoint drop_while (p : byte -> bool) (l : bytes) : bytes :=
  match l with x :: r => if p x then drop_while p r else l | [] => [] end.

Definition trim (value : bytes) : bytes :=
  reverse (drop_while (fun b => is_space b || bool_decide (b = CR))
    (reverse (drop_while is_space value))).

(** ** TS2021 *)

Definition buildTs2021UpgradeRequest (host noiseInitiation : bytes) : bytes :=
  if bool_decide (host = []) || bool_decide (is_Some (find_first_of [CR; LF] host))
     || negb (length noiseInitiation =? 101)%nat
  then []
  else bs "POST /ts2021 HTTP/1.1" ++ crlf ++ bs "Host: " ++ host ++ crlf ++
       bs "Upgrade: tailscale-control-protocol" ++ crlf ++
       bs "Connection: upgrade" ++ crlf ++ bs "X-Tailscale-Handshake: " ++
       base64 noiseInitiation ++ crlf ++ bs "Content-Length: 0" ++ crlf ++ crlf.

(** The loop over the header lines from [offset]; [None] when the fuel ends. *)
Fixpoint ts2021_lines (fuel : nat) (header : bytes) (offset : nat) (sawUpgrade sawConnection : bool)
  : option (result unit) :=
  match fuel with
  | O => None
  | S k =>
      let finish := if negb sawUpgrade || negb sawConnection
        then Err "TS2021 HTTP upgrade headers are missing" else Ok tt in
      if (offset <? length header - 2)%nat then
        match find_sub_from crlf offset header with
        | None => Some finish
        | Some end_ =>
            if (end_ =? offset)%nat then Some finish
            else
              let line := substr offset (end_ - offset) header in
              match find (ch ":") line with
              | None => Some (Err "malformed TS2021 HTTP header")
              | Some colon =>
                  let name := lower (trim (substr 0 colon line)) in
                  let value := lower (trim (substr_from (colon + 1) line)) in
                  let sawUpgrade := sawUpgrade ||
                    (bool_decide (name = bs "upgrade") && bool_decide (value = kUpgrade)) in
                  let sawConnection := sawConnection ||
                    (bool_decide (name = bs "connection") &&
                     bool_decide (is_Some (find_sub (bs "upgrade") value))) in
                  ts2021_lines k header (end_ + 2) sawUpgrade sawConnection
              end
        end
      else Some finish
  end.

Definition validateTs2021UpgradeResponse (header : bytes) : option (result unit) :=
  if (kMaxHeaderSize <? zlen header) || negb (ends_with (crlf ++ crlf) header)
  then Some (Err "invalid or oversized TS2021 HTTP response")
  else match find_sub crlf header with
  | None => Some (Err "missing TS2021 HTTP status")
  | Some firstEnd =>
      let status := substr 0 firstEnd header in
      if negb (starts_with (bs "HTTP/1.1 101 ") status) && negb (bool_decide (status = bs "HTTP/1.1 101"))
      then Some (Err "TS2021 HTTP upgrade was not accepted")
      else ts2021_lines (S (length header)) header (firstEnd + 2) false false
  end.

(** ** DERP *)

Definition buildDerpUpgradeRequest (host : bytes) : bytes :=
  bs "GET /derp HTTP/1.1" ++ crlf ++ bs "Host: " ++ host ++ crlf ++
  bs "Upgrade: DERP" ++ crlf ++ bs "Connection: Upgrade" ++ crlf ++
  bs "User-Agent: artemis-switch" ++ crlf ++ crlf.

(** The test of one header line, and the loop over the lines of [rest]. *)
Definition derp_upgrade_line (line : bytes) : bool :=
  match find (ch ":") line with
  | None => false
  | Some colon =>
      bool_decide (lower (substr 0 colon line) = bs "upgrade") &&
      bool_decide (is_Some (find_sub (bs "derp") (lower (substr_from (colon + 1) line))))
  end.

Fixpoint derp_lines (fuel : nat) (rest : bytes) : option bool :=
  match fuel with
  | O => None
  | S k =>
      if bool_decide (rest = []) then Some false
      else match find_sub crlf rest with
      | None => Some (derp_upgrade_line rest)
      | Some lineEnd =>
          if derp_upgrade_line (substr 0 lineEnd rest) then Some true
          else derp_lines k (drop (lineEnd + 2) rest)
      end
  end.

Definition validateDerpUpgradeResponse (header : bytes) : option (result unit) :=
  if (length header <? 16)%nat || negb (bool_decide (substr_from (length header - 4) header = crlf ++ crlf))
  then Some (Err "DERP upgrade response is incomplete")
  else match find_sub crlf header with
  | None => Some (Err "DERP upgrade response has no status line")
  | Some statusEnd =>
      let status := substr 0 statusEnd header in
      let http11 := starts_with (bs "HTTP/1.1 ") status in
      let http10 := starts_with (bs "HTTP/1.0 ") status in
      let is101 := (12 <=? length status)%nat && bool_decide (substr 9 3 status = bs "101") in
      if negb (http11 || http10) || negb is101
      then Some (Err ("DERP upgrade rejected: " ++ String.string_of_list_byte status)%string)
      else match derp_lines (S (length header)) (drop (statusEnd + 2) header) with
      | None => None
      | Some true => Some (Ok tt)
      | Some false => Some (Err "DERP upgrade response lacks an Upgrade: DERP header")
      end
  end.

(** ** Specification: a header is its lines *)

Fixpoint split_crlf (l : bytes) : list bytes :=
  match l with
  | [] => [[]]
  | x :: r => match r with
      | y :: r' => if bool_decide (x = CR) && bool_decide (y = LF) then [] :: split_crlf r'
                   else match split_crlf r with p :: ps => (x :: p) :: ps | [] => [[x]] end
      | [] => [[x]]
      end
  end.

Fixpoint join_crlf (ps : list bytes) : bytes :=
  match ps with [] => [] | [p] => p | p :: ps => p ++ crlf ++ join_crlf ps end.

Lemma two_step_ind (P : bytes -> Prop) :
  P [] -> (forall x, P [x]) -> (forall x y l, P l -> P (y :: l) -> P (x :: y :: l)) -> forall l, P l.
Proof.
  intros H0 H1 H2 l. enough (P l /\ forall x, P (x :: l)) as [? _] by done.
  induction l as [|y l [IH IH']]; split; auto.
Qed.

Lemma split_crlf_step x y l : split_crlf (x :: y :: l) =
  if bool_decide (x = CR) && bool_decide (y = LF) then [] :: split_crlf l
  else match split_crlf (y :: l) with p :: ps => (x :: p) :: ps | [] => [[x]] end.
Proof. done. Qed.

Lemma split_crlf_nonempty l : split_crlf l <> [].
Proof.
  induction l as [|x|x y l _ _] using two_step_ind; [done..|].
  rewrite split_crlf_step. destruct (_ && _); [done|]. by destruct (split_crlf _).
Qed.

Lemma split_crlf_app x y : split_crlf (x ++ crlf ++ y) = split_crlf x ++ split_crlf y.
Proof.
  induction x as [|a|a b x IH IH'] using two_step_ind.
  - done.
  - cbn [app]. change (a :: crlf ++ y) with (a :: CR :: LF :: y). rewrite split_crlf_step.
    rewrite (bool_decide_false (CR = LF)), andb_false_r by done. done.
  - change ((a :: b :: x) ++ crlf ++ y) with (a :: b :: (x ++ crlf ++ y)).
    rewrite !split_crlf_step. destruct (_ && _); [by rewrite IH|].
    change (b :: x ++ crlf ++ y) with ((b :: x) ++ crlf ++ y). rewrite IH'.
    pose proof (split_crlf_nonempty (b :: x)). by destruct (split_crlf (b :: x)).
Qed.

Lemma join_crlf_cons p ps : ps <> [] -> join_crlf (p :: ps) = p ++ crlf ++ join_crlf ps.
Proof. by destruct ps. Qed.

Lemma join_split_crlf l : join_crlf (split_crlf l) = l.
Proof.
  induction l as [|a|a b l IH IH'] using two_step_ind; [done..|].
  rewrite split_crlf_step.
  destruct (bool_decide_reflect (a = CR)) as [Ea|], (bool_decide_reflect (b = LF)) as [Eb|]; cbn [andb].
  1: { rewrite Ea, Eb. rewrite join_crlf_cons by apply split_crlf_nonempty. by rewrite IH. }
  all: pose proof (split_crlf_nonempty (b :: l)); destruct (split_crlf (b :: l)) as [|p ps]; [done|];
    rewrite <- IH'; destruct ps; done.
Qed.

Lemma find_sub_crlf l :
  find_sub crlf l = match split_crlf l with
                    | [] | [_] => None
                    | p :: _ :: _ => Some (length p)
                    end.
Proof.
  induction l as [|a|a b l IH IH'] using two_step_ind; [done|by destruct a|].
  rewrite split_crlf_step.
  change (find_sub crlf (a :: b :: l)) with
    (if starts_with crlf (a :: b :: l) then Some O else S <$> find_sub crlf (b :: l)).
  assert (starts_with crlf (a :: b :: l) = bool_decide (a = CR) && bool_decide (b = LF)) as ->.
  { unfold starts_with. apply eq_bool_prop_intro.
    rewrite !Is_true_true, andb_true_iff, !bool_decide_eq_true.
    change (take (length crlf) (a :: b :: l)) with [a; b]. unfold crlf.
    split; [by intros [= -> ->]|by intros [-> ->]]. }
  destruct (_ && _).
  - pose proof (split_crlf_nonempty l). by destruct (split_crlf l).
  - rewrite IH'. pose proof (split_crlf_nonempty (b :: l)). by destruct (split_crlf (b :: l)) as [|p [|]].
Qed.

(** One step of either loop: the first piece, and what follows its CRLF. *)
Lemma split_crlf_cut l p q ps : split_crlf l = p :: q :: ps ->
  find_sub crlf l = Some (length p) /\ take (length p) l = p /\
  split_crlf (drop (length p + 2) l) = q :: ps /\
  (length l = length p + 2 + length (drop (length p + 2) l))%nat.
Proof.
  intros E. rewrite find_sub_crlf, E. split; [done|].
  assert (exists r, l = p ++ crlf ++ r /\ r = join_crlf (q :: ps)) as (r&->&Er)
    by (rewrite <- (join_split_crlf l), E; by eexists).
  rewrite app_assoc. rewrite drop_app_length' by (rewrite length_app; simpl; lia).
  rewrite <- app_assoc, take_app_length. split; [done|].
  split; [|rewrite !length_app; simpl; lia].
  rewrite split_crlf_app in E.
  assert (exists p0, split_crlf p = [p0]) as (p0&Hp).
  { destruct (split_crlf p) as [|p0 [|p1 pr]] eqn:Ep; [by apply split_crlf_nonempty in Ep|eauto|].
    exfalso. simpl in E. injection E as -> _.
    pose proof (join_split_crlf p) as J. rewrite Ep in J.
    rewrite join_crlf_cons in J by done. apply (f_equal length) in J. rewrite !length_app in J. simpl in J. lia. }
  rewrite Hp in E. by injection E as _ ->.
Qed.

(** Every header block that ends in an empty line ends in two empty pieces. *)
Lemma split_crlf_ended l : ends_with (crlf ++ crlf) l = true -> exists ls, split_crlf l = ls ++ [[]; []] /\ ls <> [].
Proof.
  unfold ends_with, starts_with. rewrite bool_decide_eq_true. intros E.
  assert (exists x, l = x ++ crlf ++ crlf) as (x&->).
  { exists (reverse (drop 4 (reverse l))). rewrite <- (reverse_involutive l) at 1.
    rewrite <- (take_drop 4 (reverse l)) at 1. rewrite reverse_app. f_equal.
    change (length (reverse (crlf ++ crlf))) with 4%nat in E. rewrite E. by rewrite reverse_involutive. }
  change (crlf ++ crlf) with (crlf ++ (crlf ++ [])). rewrite !split_crlf_app.
  exists (split_crlf x). split; [done|apply split_crlf_nonempty].
Qed.

(** A field of a response as the TS2021 validator reads it. *)
Definition ts2021_field (line : bytes) : option (bytes * bytes) :=
  (fun colon => (lower (trim (substr 0 colon line)), lower (trim (substr_from (colon + 1) line))))
    <$> find (ch ":") line.

Definition is_upgrade_field (f : bytes * bytes) : bool :=
  bool_decide (f.1 = bs "upgrade") && bool_decide (f.2 = kUpgrade).
Definition is_connection_field (f : bytes * bytes) : bool :=
  bool_decide (f.1 = bs "connection") && bool_decide (is_Some (find_sub (bs "upgrade") f.2)).

(** The header lines up to the empty one. *)
Fixpoint header_lines (ps : list bytes) : list bytes :=
  match ps with [] => [] | [] :: _ => [] | p :: ps => p :: header_lines ps end.

Definition ts2021_verdict (fields : option (list (bytes * bytes))) (u c : bool) : result unit :=
  match fields with
  | None => Err "malformed TS2021 HTTP header"
  | Some fs => if (u || existsb is_upgrade_field fs) && (c || existsb is_connection_field fs)
               then Ok tt else Err "TS2021 HTTP upgrade headers are missing"
  end.

Lemma ts2021_verdict_cons f fs u c :
  ts2021_verdict (f' ← Some f; fs' ← fs; Some (f' :: fs')) u c
  = ts2021_verdict fs (u || is_upgrade_field f) (c || is_connection_field f).
Proof. destruct fs as [fs|]; simpl; [|done]. by rewrite !orb_assoc. Qed.

Lemma ts2021_lines_spec ls : forall fuel header offset u c,
  (length header - offset < fuel)%nat -> (offset <= length header)%nat ->
  split_crlf (drop offset header) = ls ++ [[]; []] ->
  ts2021_lines fuel header offset u c
  = Some (ts2021_verdict (mapM ts2021_field (header_lines (ls ++ [[]; []]))) u c).
Proof.
  induction ls as [|p ls IH]; intros [|fuel] header offset u c Hf Hle Hs; try lia.
  - assert (length header - offset = 2)%nat as Hl.
    { rewrite <- length_drop, <- (join_split_crlf (drop offset header)), Hs. done. }
    simpl. destruct (Nat.ltb_spec offset (length header - 2)); [lia|].
    rewrite !orb_false_r. by destruct u, c.
  - assert (exists q ps, ls ++ [[]; []] = q :: ps) as (q&ps&Eq) by (destruct ls; simpl; eauto).
    cbn [app] in Hs. rewrite Eq in Hs. destruct (split_crlf_cut _ _ _ _ Hs) as (Hfs&Htk&Hsp&Hln).
    rewrite drop_drop in Hsp, Hln. rewrite length_drop in Hln.
    assert (2 <= length (drop (offset + (length p + 2)) header))%nat as H2.
    { rewrite <- (join_split_crlf (drop _ _)), Hsp, <- Eq.
      clear. induction ls as [|x ls IH]; [simpl; lia|]. cbn [app].
      rewrite join_crlf_cons by (by destruct ls). rewrite !length_app. lia. }
    cbn [ts2021_lines]. destruct (Nat.ltb_spec offset (length header - 2)) as [_|]; [|lia].
    unfold find_sub_from. rewrite Hfs. cbn [fmap option_fmap option_map app].
    destruct p as [|x p'].
    + cbn [length]. rewrite Nat.add_0_r, Nat.eqb_refl. simpl. rewrite !orb_false_r. by destruct u, c.
    + destruct (Nat.eqb_spec (offset + length (x :: p')) offset); [simpl in *; lia|].
      assert (substr offset (offset + length (x :: p') - offset) header = x :: p') as ->
        by (unfold substr; rewrite Nat.add_comm, Nat.add_sub; done).
      cbn [header_lines mapM].
      assert (ts2021_field (x :: p') = (fun colon => (lower (trim (substr 0 colon (x :: p'))),
        lower (trim (substr_from (colon + 1) (x :: p'))))) <$> find (ch ":") (x :: p')) as -> by done.
      destruct (find (ch ":") (x :: p')) as [colon|]; [|done].
      cbn [fmap option_fmap option_map]. rewrite ts2021_verdict_cons.
      replace (offset + length (x :: p') + 2)%nat with (offset + (length (x :: p') + 2))%nat by lia.
      rewrite IH; [done|simpl in *; lia|simpl in *; lia|by rewrite Hsp, Eq].
Qed.

(** The control server's answer to the upgrade, decided on every byte string.
    It is accepted exactly when it is a complete header block of at most 16 KiB
    with status HTTP/1.1 101, every header line up to the first empty one has a
    colon, one names [tailscale-control-protocol] in [Upgrade] and one has
    [upgrade] in [Connection], names and values trimmed and case-folded. *)
Theorem validateTs2021_accepts header :
  validateTs2021UpgradeResponse header = Some (Ok tt) <->
  zlen header <= kMaxHeaderSize /\ ends_with (crlf ++ crlf) header = true /\
  exists status ps fields, split_crlf header = status :: ps /\
    (starts_with (bs "HTTP/1.1 101 ") status = true \/ status = bs "HTTP/1.1 101") /\
    mapM ts2021_field (header_lines ps) = Some fields /\
    existsb is_upgrade_field fields = true /\ existsb is_connection_field fields = true.
Proof.
  unfold validateTs2021UpgradeResponse.
  destruct (Z.ltb_spec kMaxHeaderSize (zlen header)); cbn [orb]; [split; [done|lia]|].
  destruct (ends_with (crlf ++ crlf) header) eqn:Ee; cbn [negb]; [|split; [done|by intros (_&?&_)]].
  destruct (split_crlf_ended _ Ee) as (ls&El&Hls). destruct ls as [|status ls]; [done|].
  assert (exists q ps, ls ++ [[]; []] = q :: ps) as (q&ps&Eq) by (destruct ls; simpl; eauto).
  cbn [app] in El. rewrite Eq in El.
  destruct (split_crlf_cut _ _ _ _ El) as (->&Htk&Hsp&Hln). unfold substr. rewrite drop_0, Htk.
  assert (negb (starts_with (bs "HTTP/1.1 101 ") status) && negb (bool_decide (status = bs "HTTP/1.1 101"))
    = false <-> starts_with (bs "HTTP/1.1 101 ") status = true \/ status = bs "HTTP/1.1 101") as Hst.
  { rewrite andb_false_iff, !negb_false_iff, bool_decide_eq_true. done. }
  rewrite El, <- Eq. destruct (_ && _).
  - split; [done|]. intros (_&_&st&ps'&fs&[= <- _]&H1&_). apply Hst in H1. done.
  - rewrite (ts2021_lines_spec ls); [|lia|lia|by rewrite Hsp, Eq].
    unfold ts2021_verdict. cbn [orb]. split.
    + destruct (mapM ts2021_field (header_lines (ls ++ [[]; []]))) as [fs|] eqn:Em; [|done].
      destruct (existsb is_upgrade_field fs && existsb is_connection_field fs) eqn:Eb; [|done].
      intros _. apply andb_true_iff in Eb as [??]. split_and!; [done|done|].
      exists status, (ls ++ [[]; []]), fs. split_and!; [done|by apply Hst|done..].
    + intros (_&_&st&ps'&fs&[= <- <-]&H1&->&->&->). done.
Qed.

Lemma derp_lines_spec : forall fuel rest, (length rest < fuel)%nat ->
  derp_lines fuel rest = Some (existsb derp_upgrade_line (split_crlf rest)).
Proof.
  induction fuel as [|fuel IH]; intros rest Hf; [lia|]. cbn [derp_lines].
  destruct (bool_decide_reflect (rest = [])) as [->|Hne]; [done|].
  destruct (split_crlf rest) as [|p [|q ps]] eqn:Es; [by apply split_crlf_nonempty in Es| |].
  - rewrite find_sub_crlf, Es. rewrite <- (join_split_crlf rest), Es. simpl. by rewrite orb_false_r.
  - destruct (split_crlf_cut _ _ _ _ Es) as (->&Htk&Hsp&Hln). unfold substr. rewrite drop_0, Htk.
    cbn [existsb]. destruct (derp_upgrade_line p); [done|]. rewrite IH by lia. by rewrite Hsp.
Qed.

(** The relay's answer to the upgrade, decided on every byte string: accepted
    exactly when it has at least 16 bytes, ends in an empty line, starts with an
    HTTP/1.0 or 1.1 status line whose code is 101, and some later line is an
    [Upgrade] field that mentions DERP, in any letter case. *)
Theorem validateDerp_accepts header :
  validateDerpUpgradeResponse header = Some (Ok tt) <->
  (16 <= length header)%nat /\ drop (length header - 4) header = crlf ++ crlf /\
  exists status ps, split_crlf header = status :: ps /\
    (starts_with (bs "HTTP/1.1 ") status = true \/ starts_with (bs "HTTP/1.0 ") status = true) /\
    (12 <= length status)%nat /\ substr 9 3 status = bs "101" /\
    existsb derp_upgrade_line ps = true.
Proof.
  unfold validateDerpUpgradeResponse, substr_from.
  destruct (Nat.ltb_spec (length header) 16); cbn [orb]; [split; [done|lia]|].
  destruct (bool_decide_reflect (drop (length header - 4) header = crlf ++ crlf)) as [Ee|]; cbn [negb];
    [|split; [done|by intros (_&?&_)]].
  assert (header = take (length header - 4) header ++ crlf ++ (crlf ++ [])) as E
    by (rewrite app_nil_r, <- Ee; by rewrite take_drop).
  assert (exists p q ps, split_crlf header = p :: q :: ps) as (status&q&ps&Es).
  { rewrite E, !split_crlf_app. pose proof (split_crlf_nonempty (take (length header - 4) header)).
    destruct (split_crlf (take (length header - 4) header)) as [|x [|y l]]; [done|simpl; eauto..]. }
  destruct (split_crlf_cut _ _ _ _ Es) as (->&Htk&Hsp&Hln). change (take (length status) header) with (substr 0 (length status) header) in Htk. rewrite !Htk.
  rewrite derp_lines_spec, Hsp by lia. rewrite Es.
  destruct (negb (starts_with (bs "HTTP/1.1 ") status || starts_with (bs "HTTP/1.0 ") status) ||
    negb ((12 <=? length status)%nat && bool_decide (substr 9 3 status = bs "101"))) eqn:Est.
  - split; [done|]. intros (_&_&st&ps'&[= <- <-]&Hv&Hl&Hc&_). exfalso.
    apply orb_true_iff in Est as [Est|Est]; apply negb_true_iff in Est.
    + apply orb_false_iff in Est as [E1 E2]. rewrite E1, E2 in Hv. by destruct Hv.
    + rewrite Hc, bool_decide_true, andb_true_r in Est by done. apply Nat.leb_gt in Est. lia.
  - apply orb_false_iff in Est as [E1 E2]. apply negb_false_iff, orb_true_iff in E1.
    apply negb_false_iff, andb_true_iff in E2 as [E2 E3]. apply Nat.leb_le in E2.
    apply bool_decide_eq_true in E3.
    destruct (existsb derp_upgrade_line (q :: ps)) eqn:Eu; split; try done.
    + intros _. split_and!; [done|done|]. by exists status, (q :: ps).
    + intros (_&_&st&ps'&[= <- <-]&_&_&_&Eu'). congruence.
Qed.

(** ** The TS2021 request *)

Lemma split_crlf_line p : (CR ∉ p) -> split_crlf p = [p].
Proof.
  induction p as [|a|a b p IH IH'] using two_step_ind; [done..|]. intros Hn.
  apply not_elem_of_cons in Hn as [Ha Hn].
  rewrite split_crlf_step, bool_decide_false by done. cbn [andb]. by rewrite IH'.
Qed.

Lemma split_crlf_line_app p y : (CR ∉ p) -> split_crlf (p ++ crlf ++ y) = p :: split_crlf y.
Proof. intros. by rewrite split_crlf_app, split_crlf_line. Qed.

Lemma sextet_range v : 0 <= Z.land v 63 < 64.
Proof. change 63 with (Z.ones 6). rewrite Z.land_ones by lia. apply Z.mod_pos_bound. lia. Qed.

Lemma base64_char_find v : 0 <= v < 64 -> find (base64_char v) kBase64 = Some (Z.to_nat v).
Proof.
  intros Hv. assert (forallb (fun n => bool_decide (find (base64_char (Z.of_nat n)) kBase64 = Some n))
    (seq 0 64) = true) as Hall by (vm_compute; reflexivity).
  rewrite forallb_forall in Hall. specialize (Hall (Z.to_nat v)).
  rewrite in_seq, bool_decide_eq_true, Z2Nat.id in Hall by lia. apply Hall. lia.
Qed.

Lemma base64_char_in v : 0 <= v < 64 -> base64_char v ∈ kBase64.
Proof.
  intros Hv. unfold base64_char. apply list_elem_of_lookup_total_2.
  change (length kBase64) with 64%nat. lia.
Qed.

Lemma three_step_ind (P : bytes -> Prop) :
  P [] -> (forall a, P [a]) -> (forall a b, P [a; b]) ->
  (forall a b c l, P l -> P (a :: b :: c :: l)) -> forall l, P l.
Proof.
  intros H0 H1 H2 H3 l. enough (P l /\ (forall x, P (x :: l)) /\ forall x y, P (x :: y :: l)) as [? _] by done.
  induction l as [|y l (IH&IH'&IH'')]; split_and!; auto.
Qed.

Lemma base64_chars x : Forall (fun c => c ∈ kBase64 \/ c = ch "=") (base64 x).
Proof.
  induction x as [|a|a b|a b c x IH] using three_step_ind; [by apply list.Forall_nil_2| | |];
    cbn [base64]; [..|apply list.Forall_app; split; [|done]]; unfold base64_group;
    repeat (apply list.Forall_cons; split); try (by apply list.Forall_nil_2);
    try (left; apply base64_char_in, sextet_range); by right.
Qed.

Lemma base64_no_CR x : CR ∉ base64 x.
Proof.
  intros Hin. pose proof (base64_chars x) as H. rewrite list.Forall_forall in H.
  destruct (H _ Hin) as [H1|H1]; [|done]. revert H1. apply (bool_decide_eq_false (CR ∈ kBase64)). by vm_compute.
Qed.

(** A host name cannot smuggle header lines into the TS2021 request: the
    request is empty for a host with a CR or LF (or no host, or an initiation
    of the wrong size), and otherwise its lines are exactly these seven. *)
Theorem buildTs2021UpgradeRequest_lines host init :
  buildTs2021UpgradeRequest host init = [] /\
    (host = [] \/ CR ∈ host \/ LF ∈ host \/ length init <> 101%nat) \/
  host <> [] /\ (CR ∉ host) /\ (LF ∉ host) /\ length init = 101%nat /\
  split_crlf (buildTs2021UpgradeRequest host init) =
    [bs "POST /ts2021 HTTP/1.1"; bs "Host: " ++ host; bs "Upgrade: tailscale-control-protocol";
     bs "Connection: upgrade"; bs "X-Tailscale-Handshake: " ++ base64 init;
     bs "Content-Length: 0"; []; []].
Proof.
  unfold buildTs2021UpgradeRequest, find_first_of.
  destruct (bool_decide_reflect (host = [])) as [->|Hne]; cbn [orb]; [left; by eauto|].
  destruct (bool_decide_reflect (is_Some (find_if (fun x => bool_decide (x ∈ [CR; LF])) host))) as [[k Hk]|Hno]; cbn [orb].
  { left. split; [done|]. apply find_if_Some in Hk as (_&(x&Hx&Hin)&_).
    apply bool_decide_eq_true in Hin. apply list_elem_of_lookup_2 in Hx. set_solver. }
  destruct (Nat.eqb_spec (length init) 101) as [Hl|]; cbn [negb]; [|left; by eauto].
  right. assert (Forall (fun x => bool_decide (x ∈ [CR; LF]) = false) host) as Hf.
  { apply find_if_None. destruct (find_if _ host); [|done]. destruct Hno. eauto. }
  rewrite list.Forall_forall in Hf.
  assert (CR ∉ host) as Hcr.
  { intros Hin%Hf. apply bool_decide_eq_false in Hin. set_solver. }
  split_and!; [done|done| |done|].
  { intros Hin%Hf. apply bool_decide_eq_false in Hin. set_solver. }
  assert (forall p, forallb (fun x => negb (bool_decide (x = CR))) p = true -> CR ∉ p) as Hlit.
  { intros p Hp Hin. rewrite forallb_forall in Hp. apply list_elem_of_In, Hp in Hin.
    rewrite bool_decide_true in Hin; done. }
  assert (forall p q, (CR ∉ p) -> (CR ∉ q) -> CR ∉ p ++ q) as Happ by set_solver.
  pose proof (base64_no_CR init).
  rewrite (split_crlf_line_app (bs "POST /ts2021 HTTP/1.1")) by by apply Hlit.
  rewrite (app_assoc (bs "Host: ")), split_crlf_line_app by (apply Happ; [by apply Hlit|done]).
  rewrite (split_crlf_line_app (bs "Upgrade: tailscale-control-protocol")) by by apply Hlit.
  rewrite (split_crlf_line_app (bs "Connection: upgrade")) by by apply Hlit.
  rewrite (app_assoc (bs "X-Tailscale-Handshake: ")), split_crlf_line_app by (apply Happ; [by apply Hlit|done]).
  change (crlf ++ crlf) with (crlf ++ (crlf ++ [])).
  by rewrite (split_crlf_line_app (bs "Content-Length: 0")) by by apply Hlit.
Qed.

(** ** Base64 *)

(** A decoder: the sextets back to bytes, the padding dropped. *)
Definition sextet (c : byte) : option Z := Z.of_nat <$> find c kBase64.

Fixpoint base64_decode (l : bytes) : option bytes :=
  match l with
  | [] => Some []
  | a :: b :: c :: d :: r =>
      va ← sextet a; vb ← sextet b;
      let x := va * 4 + vb / 16 in
      if bool_decide (c = ch "=") then Some [u8 x]
      else
        vc ← sextet c;
        let y := vb mod 16 * 16 + vc / 4 in
        if bool_decide (d = ch "=") then Some [u8 x; u8 y]
        else vd ← sextet d; rest ← base64_decode r; Some (u8 x :: u8 y :: u8 (vc mod 4 * 64 + vd) :: rest)
  | _ => None
  end.

Lemma sextet_char v : 0 <= v < 64 -> sextet (base64_char v) = Some v.
Proof. intros. unfold sextet. rewrite base64_char_find by done. simpl. f_equal. lia. Qed.

Lemma base64_char_not_pad v : 0 <= v < 64 -> base64_char v <> ch "=".
Proof.
  intros Hv E. apply base64_char_find in Hv. rewrite E in Hv. by vm_compute in Hv.
Qed.

Lemma base64_value a b c : Z.lor (Z.lor (Z.shiftl (ub a) 16) (Z.shiftl (ub b) 8)) (ub c)
  = ub a * 65536 + ub b * 256 + ub c.
Proof. rewrite be24_lor. unfold be_value. simpl. lia. Qed.

Lemma base64_value_0 a : Z.lor (Z.lor (Z.shiftl (ub a) 16) (Z.shiftl 0 8)) 0 = ub a * 65536.
Proof. rewrite Z.shiftl_0_l, !Z.lor_0_r, Z.shiftl_mul_pow2 by lia. done. Qed.

Lemma base64_value_1 a b : Z.lor (Z.lor (Z.shiftl (ub a) 16) (Z.shiftl (ub b) 8)) 0
  = ub a * 65536 + ub b * 256.
Proof. pose proof (base64_value a b Init.Byte.x00). change (ub Init.Byte.x00) with 0 in *. lia. Qed.

Lemma land_63 v : Z.land v 63 = v mod 64.
Proof. change 63 with (Z.ones 6). by rewrite Z.land_ones by lia. Qed.

Ltac sextets := repeat rewrite sextet_char by (apply Z.mod_pos_bound; lia); cbn [mbind option_bind].

(** The handshake header survives its encoding: decoding the base64 of any
    byte string gives the string back. *)
Theorem base64_roundtrip x : base64_decode (base64 x) = Some x.
Proof.
  induction x as [|a|a b|a b c x IH] using three_step_ind; [done| | |]; cbn [base64];
    unfold base64_group; cbn [app base64_decode fmap option_fmap option_map default from_option id];
    rewrite ?base64_value_0, ?base64_value_1, ?base64_value, !land_63, ?Z.shiftr_div_pow2 by lia;
    change (2 ^ 18) with 262144; change (2 ^ 12) with 4096; change (2 ^ 6) with 64; ub_bounds; sextets.
  - rewrite bool_decide_true by done. repeat f_equal. apply ub_inj. rewrite ub_u8. Z.to_euclidean_division_equations. lia.
  - rewrite bool_decide_false by (apply base64_char_not_pad, Z.mod_pos_bound; lia). sextets.
    rewrite bool_decide_true by done. repeat f_equal; apply ub_inj; rewrite ub_u8; Z.to_euclidean_division_equations; lia.
  - rewrite !bool_decide_false by (apply base64_char_not_pad, Z.mod_pos_bound; lia). sextets.
    rewrite IH. cbn [mbind option_bind].
    repeat f_equal; apply ub_inj; rewrite ub_u8; Z.to_euclidean_division_equations; lia.
Qed.
