(* ===== verification/Http2.v ===== *)
(** The HTTP/2 framing of the control connection ([TailscaleHttp2.hpp],
    [TailscaleHttp2.cpp]): the frame decoder, the frames the client builds, and
    its receive-window bookkeeping. *)

From S2P Require Import Prelude Bytes Framing.

Definition kHttp2DefaultWindow : Z := 65535.
Definition kHttp2ClientStreamWindow : Z := 4 * 1024 * 1024.
Definition kHttp2ClientConnectionWindow : Z := 16 * 1024 * 1024.
Definition kHttp2HeaderLen : nat := 9.
Definition kMaxFrameSize : Z := 1024 * 1024.

Record Http2Frame := {
  length_ : Z;
  type : byte;
  flags : byte;
  streamId : Z;
  payload : bytes;
}.

Definition write24 (out : bytes) (value : Z) : bytes :=
  out ++ [u8 (Z.land (Z.shiftr value 16) 0xff); u8 (Z.land (Z.shiftr value 8) 0xff);
          u8 (Z.land value 0xff)].

Definition write32 (out : bytes) (value : Z) : bytes :=
  out ++ [u8 (Z.land (Z.shiftr value 24) 0xff); u8 (Z.land (Z.shiftr value 16) 0xff);
          u8 (Z.land (Z.shiftr value 8) 0xff); u8 (Z.land value 0xff)].

Definition read24 (p : bytes) : Z :=
  Z.lor (Z.lor (Z.shiftl (byte_at p 0) 16) (Z.shiftl (byte_at p 1) 8)) (byte_at p 2).

(** The reserved top bit of the stream identifier is dropped. *)
Definition read32 (p : bytes) : Z :=
  Z.lor (Z.lor (Z.lor (Z.shiftl (Z.land (byte_at p 0) 0x7f) 24) (Z.shiftl (byte_at p 1) 16))
    (Z.shiftl (byte_at p 2) 8)) (byte_at p 3).

(** ** Frames the client sends *)

Definition buildHttp2WindowUpdate (streamId increment : Z) : bytes :=
  let out := write24 [] 4 in
  let out := out ++ [u8 0x08; u8 0x00] in
  let out := write32 out (Z.land streamId 0x7fffffff) in
  write32 out (Z.land increment 0x7fffffff).

Definition kPreface : bytes :=
  bs "PRI * HTTP/2.0" ++ (u8 <$> [13; 10; 13; 10]) ++ bs "SM" ++ (u8 <$> [13; 10; 13; 10]).

Definition buildHttp2ClientPreface : bytes :=
  let out := take 24 kPreface in
  let out := write24 out 6 in
  let out := out ++ [u8 0x04; u8 0x00] in
  let out := write32 out 0 in
  let out := out ++ [u8 0x00; u8 0x04] in
  let out := write32 out kHttp2ClientStreamWindow in
  out ++ buildHttp2WindowUpdate 0 (u32 (kHttp2ClientConnectionWindow - kHttp2DefaultWindow)).

Definition buildHttp2SettingsAck : bytes :=
  write32 (write24 [] 0 ++ [u8 0x04; u8 0x01]) 0.

Definition buildHttp2PingAck (opaqueData : bytes) : bytes :=
  let len := u32 (zlen opaqueData) in
  write32 (write24 [] len ++ [u8 0x06; u8 0x01]) 0 ++ opaqueData.

Definition kJsonType : bytes := bs "application/json".

(** The HPACK block of a POST, written as literals with one-byte lengths. *)
Definition post_hpack (authority path : bytes) : bytes :=
  [u8 0x83; u8 0x87] ++
  [u8 0x04; u8 (zlen path)] ++ path ++
  [u8 0x01; u8 (zlen authority)] ++ authority ++
  [u8 0x0f; u8 0x10; u8 (zlen kJsonType)] ++ kJsonType.

Definition buildHttp2PostHeaders (streamId : Z) (authority path : bytes) : bytes :=
  let hpack := post_hpack authority path in
  let len := u32 (zlen hpack) in
  write32 (write24 [] len ++ [u8 0x01; u8 0x04]) streamId ++ hpack.

Definition buildHttp2DataFrame (streamId : Z) (data : bytes) (endStream : bool) : bytes :=
  let len := u32 (zlen data) in
  write32 (write24 [] len ++ [u8 0x00; if endStream then u8 0x01 else u8 0x00]) streamId ++ data.

(** ** [Http2ReceiveWindow] *)

Record Http2ReceiveWindow := { size_ : Z; unacknowledged_ : Z }.

Definition window (size : Z) : Http2ReceiveWindow := {| size_ := size; unacknowledged_ := 0 |}.

Definition consume (flowControlledBytes : Z) (w : Http2ReceiveWindow)
  : option Z * Http2ReceiveWindow :=
  let un := u64 (unacknowledged_ w + flowControlledBytes) in
  if (un =? 0) || (un <? size_ w / 2)
  then (None, {| size_ := size_ w; unacknowledged_ := un |})
  else
    let increment := u32 (Z.min un 0x7fffffff) in
    (Some increment, {| size_ := size_ w; unacknowledged_ := un - increment |}).

Definition reset_window (w : Http2ReceiveWindow) : Http2ReceiveWindow :=
  {| size_ := size_ w; unacknowledged_ := 0 |}.

(** ** [Http2FrameDecoder] *)

Module Http2FrameDecoder.
Definition append (buffer_ data : bytes) : bool * bytes :=
  if kMaxFrameSize + Z.of_nat kHttp2HeaderLen <? zlen buffer_ + zlen data
  then (false, buffer_) else (true, buffer_ ++ data).

(** [None] both when more bytes are needed and when the announced length is
    over the cap; in the second case the buffer is dropped. *)
Definition take (buffer_ : bytes) : option Http2Frame * bytes :=
  if (length buffer_ <? kHttp2HeaderLen)%nat then (None, buffer_)
  else
    let len := read24 buffer_ in
    if kMaxFrameSize <? len then (None, [])
    else
      let n := (kHttp2HeaderLen + Z.to_nat len)%nat in
      if (length buffer_ <? n)%nat then (None, buffer_)
      else (Some {| length_ := len; type := buffer_ !!! 3%nat; flags := buffer_ !!! 4%nat;
                    streamId := read32 (drop 5 buffer_);
                    payload := drop kHttp2HeaderLen (take n buffer_) |}, drop n buffer_).
End Http2FrameDecoder.

(** ** The decoder cuts length-prefixed frames *)

Definition http2_frame (b : bytes) : Http2Frame :=
  {| length_ := read24 b; type := b !!! 3%nat; flags := b !!! 4%nat;
     streamId := read32 (drop 5 b); payload := drop kHttp2HeaderLen b |}.

Definition http2_prefixed : prefixed Http2Frame :=
  {| pf_header := kHttp2HeaderLen; pf_length := read24; pf_cap := kMaxFrameSize;
     pf_frame := http2_frame; pf_error := "" |}.

(** The wire form of a frame, for any client or server frame. *)
Definition http2_bytes (f : Http2Frame) : bytes :=
  be_bytes 3 (zlen (payload f)) ++ [type f; flags f] ++ be_bytes 4 (streamId f) ++ payload f.

Definition http2_wf (f : Http2Frame) : Prop :=
  length_ f = zlen (payload f) /\ zlen (payload f) <= kMaxFrameSize /\ 0 <= streamId f < 2 ^ 31.

Lemma byte_at_app (b c : bytes) i : (i < length b)%nat -> byte_at (b ++ c) i = byte_at b i.
Proof. intros. unfold byte_at. by rewrite lookup_total_app_l. Qed.

Lemma http2_local : pf_local http2_prefixed.
Proof.
  intros b c H. cbn [pf_header pf_length http2_prefixed] in *. unfold kHttp2HeaderLen, read24 in *.
  by rewrite !byte_at_app by lia.
Qed.

Lemma read24_be a b c r : read24 (a :: b :: c :: r) = be_value [a; b; c].
Proof. unfold read24, byte_at. cbn [lookup_total list_lookup_total]. by rewrite be24_lor. Qed.

Lemma read32_be a b c d r : read32 (a :: b :: c :: d :: r) = be_value [a; b; c; d] mod 2 ^ 31.
Proof.
  unfold read32, byte_at. cbn [lookup_total list_lookup_total].
  assert (Z.land (ub a) 0x7f = ub (u8 (ub a mod 128))) as ->.
  { change 0x7f with (Z.ones 7). rewrite Z.land_ones by lia. change (2 ^ 7) with 128.
    rewrite ub_u8. ub_bounds. Z.to_euclidean_division_equations. lia. }
  rewrite be32_lor. unfold be_value. cbn [foldl]. rewrite ub_u8. change (2 ^ 31) with 2147483648.
  ub_bounds. Z.to_euclidean_division_equations. lia.
Qed.

Lemma zlen_http2_bytes f : zlen (http2_bytes f) = 9 + zlen (payload f).
Proof. unfold http2_bytes, zlen. rewrite !length_app, !length_be_bytes. simpl. lia. Qed.

Lemma http2_encodes f : http2_wf f -> pf_encodes http2_prefixed f (http2_bytes f).
Proof.
  intros (Hl&Hcap&Hs). unfold kMaxFrameSize in Hcap. pose proof (zlen_nonneg (payload f)).
  unfold pf_encodes. cbn [pf_header pf_length pf_cap pf_frame http2_prefixed].
  unfold http2_bytes, http2_frame. destruct f as [len t fl sid p]. cbn [length_ type flags streamId payload] in *.
  pose proof (be_value_bytes 3 (zlen p) ltac:(lia)) as E3. pose proof (be_value_bytes 4 sid ltac:(lia)) as E4.
  pose proof (length_be_bytes 3 (zlen p)) as L3. pose proof (length_be_bytes 4 sid) as L4.
  destruct (be_bytes 3 (zlen p)) as [|a [|b [|c [|]]]]; try done.
  destruct (be_bytes 4 sid) as [|d [|e [|g [|h [|]]]]]; try done.
  cbn [app drop lookup_total list_lookup_total]. rewrite read24_be, read32_be, E3, E4, Z.mod_small by lia.
  split_and!; [simpl; unfold zlen; lia|unfold kMaxFrameSize; lia|]. by rewrite Hl.
Qed.

Lemma http2_take_prefixed b : Http2FrameDecoder.take b =
  match prefixed_take http2_prefixed b with (Got f, r) => (Some f, r) | (_, r) => (None, r) end.
Proof.
  unfold Http2FrameDecoder.take, prefixed_take.
  cbn [pf_header pf_length pf_cap pf_frame pf_error http2_prefixed].
  destruct (Nat.ltb_spec (length b) kHttp2HeaderLen) as [|Hh]; [done|]. cbv zeta.
  destruct (kMaxFrameSize <? read24 b); [done|].
  set (n := (kHttp2HeaderLen + Z.to_nat (read24 b))%nat).
  destruct (Nat.ltb_spec (length b) n) as [|Hn]; [done|]. unfold http2_frame.
  assert (b = take n b ++ drop n b) as E by by rewrite take_drop.
  assert (9 <= length (take n b))%nat as H9 by (rewrite length_take; unfold n, kHttp2HeaderLen in *; lia).
  assert (forall i, (i < 9)%nat -> take n b !!! i = b !!! i) as Hlk.
  { intros i Hi. rewrite E at 2. by rewrite lookup_total_app_l by lia. }
  do 2 f_equal. f_equal; [|by rewrite Hlk by lia..|].
  - unfold read24, byte_at. by rewrite !Hlk by lia.
  - unfold read32, byte_at. rewrite !lookup_total_drop. by rewrite !Hlk by lia.
Qed.

#[export] Instance http2_decoder : FrameDecoder Http2Frame := {
  fd_limit := kMaxFrameSize + Z.of_nat kHttp2HeaderLen;
  fd_append buf chunk := match Http2FrameDecoder.append buf chunk with (true, b) => Some b | _ => None end;
  fd_take buf := match Http2FrameDecoder.take buf with (Some f, b) => (Got f, b) | (None, b) => (Wait, b) end;
  fd_wf := http2_wf;
  fd_bytes := http2_bytes;
}.

Lemma http2_take_frame f r : http2_wf f -> Http2FrameDecoder.take (http2_bytes f ++ r) = (Some f, r).
Proof.
  intros H. rewrite http2_take_prefixed.
  by rewrite (prefixed_take_frame http2_prefixed f) by first [apply http2_local|by apply http2_encodes].
Qed.

#[export] Instance http2_decoder_laws : FrameDecoderLaws Http2Frame.
Proof.
  split; cbn [fd_limit fd_append fd_take fd_wf fd_bytes http2_decoder].
  - intros buf chunk H. unfold Http2FrameDecoder.append. by rewrite (proj2 (Z.ltb_ge _ _)) by lia.
  - intros buf chunk buf'. unfold Http2FrameDecoder.append.
    destruct (Z.ltb_spec (kMaxFrameSize + Z.of_nat kHttp2HeaderLen) (zlen buf + zlen chunk)); [done|].
    intros [= <-]. zl.
  - done.
  - intros f r H. by rewrite http2_take_frame.
  - intros f p q Hf Hq E. rewrite http2_take_prefixed.
    rewrite (prefixed_take_partial http2_prefixed f p q); [done|apply http2_local| |done].
    rewrite E. by apply http2_encodes.
  - intros f _ E. apply (f_equal length) in E. unfold http2_bytes in E. rewrite length_app, length_be_bytes in E. done.
Qed.

(** ** What the client sends *)

Lemma write24_be out v : write24 out v = out ++ be_bytes 3 v.
Proof. unfold write24. rewrite <- be24_put, !land_255, !u8_mod. done. Qed.

Lemma write32_be out v : write32 out v = out ++ be_bytes 4 v.
Proof. unfold write32. rewrite <- be32_put, !land_255, !u8_mod. done. Qed.

Lemma land_31 v : Z.land v 0x7fffffff = v mod 2 ^ 31.
Proof. change 0x7fffffff with (Z.ones 31). by rewrite Z.land_ones by lia. Qed.

(** A frame as the client writes it: its length is that of its payload. *)
Definition client_frame (t fl : byte) (sid : Z) (p : bytes) : Http2Frame :=
  {| length_ := zlen p; type := t; flags := fl; streamId := sid; payload := p |}.

Lemma build_bytes t fl sid p : zlen p < 2 ^ 32 ->
  write32 (write24 [] (u32 (zlen p)) ++ [t; fl]) sid ++ p = http2_bytes (client_frame t fl sid p).
Proof.
  intros H. rewrite write32_be, write24_be. unfold u32, http2_bytes. cbn [client_frame payload type flags streamId].
  pose proof (zlen_nonneg p). rewrite Z.mod_small by lia. by rewrite <- !app_assoc.
Qed.

Lemma window_update_bytes sid inc : buildHttp2WindowUpdate sid inc =
  http2_bytes (client_frame (u8 8) (u8 0) (sid mod 2 ^ 31) (be_bytes 4 (inc mod 2 ^ 31))).
Proof.
  unfold buildHttp2WindowUpdate. rewrite write24_be, !write32_be, !land_31.
  unfold http2_bytes. cbn [client_frame payload type flags streamId].
  unfold zlen. rewrite length_be_bytes. by rewrite <- !app_assoc.
Qed.

Lemma client_frame_wf t fl sid p : zlen p <= kMaxFrameSize -> 0 <= sid < 2 ^ 31 ->
  http2_wf (client_frame t fl sid p).
Proof. intros Hp Hs. split; [done|]. by split. Qed.

Lemma build_decodes t fl sid p rest : zlen p <= kMaxFrameSize -> 0 <= sid < 2 ^ 31 ->
  Http2FrameDecoder.take (write32 (write24 [] (u32 (zlen p)) ++ [t; fl]) sid ++ p ++ rest)
  = (Some (client_frame t fl sid p), rest).
Proof.
  intros Hp Hs. assert (kMaxFrameSize < 2 ^ 32) by done.
  rewrite app_assoc, build_bytes by lia. apply http2_take_frame. by apply client_frame_wf.
Qed.

(** Every frame the client builds is one HTTP/2 frame to the peer: the
    length field is the payload's, the type, flags and stream identifier are
    those meant (the reserved bit clear), and nothing of the next frame is
    consumed. The connection preface is the 24 magic bytes followed by a
    SETTINGS frame that sets INITIAL_WINDOW_SIZE to 4 MiB and a WINDOW_UPDATE
    that raises the connection window from 65535 to 16 MiB. *)
Theorem client_frames_decode sid inc data authority path flag rest :
  0 <= sid < 2 ^ 31 -> 0 <= inc < 2 ^ 31 -> zlen data <= kMaxFrameSize ->
  zlen (post_hpack authority path) <= kMaxFrameSize ->
  let take := Http2FrameDecoder.take in
  take (buildHttp2WindowUpdate sid inc ++ rest)
    = (Some (client_frame (u8 8) (u8 0) sid (be_bytes 4 inc)), rest) /\
  take (buildHttp2SettingsAck ++ rest) = (Some (client_frame (u8 4) (u8 1) 0 []), rest) /\
  take (buildHttp2PingAck data ++ rest) = (Some (client_frame (u8 6) (u8 1) 0 data), rest) /\
  take (buildHttp2DataFrame sid data flag ++ rest)
    = (Some (client_frame (u8 0) (u8 (if flag then 1 else 0)) sid data), rest) /\
  take (buildHttp2PostHeaders sid authority path ++ rest)
    = (Some (client_frame (u8 1) (u8 4) sid (post_hpack authority path)), rest) /\
  buildHttp2ClientPreface = kPreface ++
    http2_bytes (client_frame (u8 4) (u8 0) 0 ([u8 0; u8 4] ++ be_bytes 4 kHttp2ClientStreamWindow)) ++
    http2_bytes (client_frame (u8 8) (u8 0) 0
      (be_bytes 4 (kHttp2ClientConnectionWindow - kHttp2DefaultWindow))).
Proof.
  intros Hs Hi Hd Hh take. subst take. split_and!.
  - rewrite window_update_bytes, !Z.mod_small by lia. apply http2_take_frame, client_frame_wf; [|done].
    unfold zlen. by rewrite length_be_bytes.
  - apply (build_decodes (u8 4) (u8 1) 0 [] rest); done.
  - unfold buildHttp2PingAck. rewrite <- app_assoc. by apply build_decodes.
  - unfold buildHttp2DataFrame. rewrite <- app_assoc. destruct flag; by apply build_decodes.
  - unfold buildHttp2PostHeaders. rewrite <- app_assoc. by apply build_decodes.
  - unfold buildHttp2ClientPreface. rewrite window_update_bytes, !write32_be, write24_be.
    unfold http2_bytes. cbn [client_frame payload type flags streamId].
    rewrite <- !app_assoc. reflexivity.
Qed.

Lemma client_frames_decode_witness :
  Http2FrameDecoder.take (buildHttp2DataFrame 1 (bs "{}") true ++ buildHttp2SettingsAck)
  = (Some (client_frame (u8 0) (u8 1) 1 (bs "{}")), buildHttp2SettingsAck).
Proof.
  refine (proj1 (proj2 (proj2 (proj2 (client_frames_decode 1 1 (bs "{}") (bs "host") (bs "/map") true
    buildHttp2SettingsAck _ _ _ _))))); try lia; apply Z.leb_le; vm_compute; reflexivity.
Defined.

(** ** HPACK *)

(** The literal and indexed representations the POST block uses, read with the
    7-bit string length prefix of RFC 7541 (an all-ones prefix continues in the
    following bytes, which [hpack_string] does not follow). *)
Definition hpack_string (l : bytes) : option (bytes * bytes) :=
  match l with
  | [] => None
  | n :: r => if (ub n <? 127) && (Z.to_nat (ub n) <=? length r)%nat
              then Some (take (Z.to_nat (ub n)) r, drop (Z.to_nat (ub n)) r) else None
  end.

Definition static_name (i : Z) : option bytes :=
  if i =? 1 then Some (bs ":authority") else if i =? 4 then Some (bs ":path")
  else if i =? 31 then Some (bs "content-type") else None.

Definition hpack_field (l : bytes) : option (bytes * bytes * bytes) :=
  match l with
  | [] => None
  | b :: r =>
      if ub b =? 0x83 then Some (bs ":method", bs "POST", r)
      else if ub b =? 0x87 then Some (bs ":scheme", bs "https", r)
      else if ub b <? 15 then
        name ← static_name (ub b); '(v, r) ← hpack_string r; Some (name, v, r)
      else if ub b =? 15 then
        match r with
        | c :: r => name ← static_name (15 + ub c); '(v, r) ← hpack_string r; Some (name, v, r)
        | [] => None
        end
      else None
  end.

Fixpoint hpack_decode (fuel : nat) (l : bytes) : option (list (bytes * bytes)) :=
  match fuel, l with
  | _, [] => Some []
  | O, _ => None
  | S k, _ => '(n, v, r) ← hpack_field l; fs ← hpack_decode k r; Some ((n, v) :: fs)
  end.

Lemma hpack_string_short v r : zlen v < 127 -> hpack_string (u8 (zlen v) :: v ++ r) = Some (v, r).
Proof.
  intros H. pose proof (zlen_nonneg v). cbn [hpack_string]. rewrite ub_u8_small by lia.
  rewrite (proj2 (Z.ltb_lt _ _)) by lia. cbn [andb]. rewrite to_nat_zlen.
  rewrite (proj2 (Nat.leb_le _ _)) by (rewrite length_app; lia).
  by rewrite take_app_length, drop_app_length.
Qed.

Lemma hpack_field_path r : hpack_field (u8 4 :: r) =
  ('(v, r) ← hpack_string r; Some (bs ":path", v, r)).
Proof. done. Qed.
Lemma hpack_field_authority r : hpack_field (u8 1 :: r) =
  ('(v, r) ← hpack_string r; Some (bs ":authority", v, r)).
Proof. done. Qed.

(** An HPACK reader sees the request that was meant, for every path and
    authority of at most 126 bytes (the one-byte length has no room for more). *)
Theorem post_hpack_decodes authority path :
  zlen authority < 127 -> zlen path < 127 ->
  hpack_decode 5 (post_hpack authority path) = Some
    [(bs ":method", bs "POST"); (bs ":scheme", bs "https"); (bs ":path", path);
     (bs ":authority", authority); (bs "content-type", bs "application/json")].
Proof.
  intros Ha Hp. unfold post_hpack. cbn [app].
  set (tl := u8 4 :: _). 
  change (hpack_decode 5 (u8 0x83 :: u8 0x87 :: tl)) with
    (fs ← (fs ← hpack_decode 3 tl; Some ((bs ":scheme", bs "https") :: fs));
     Some ((bs ":method", bs "POST") :: fs)).
  unfold tl. cbn [hpack_decode]. rewrite hpack_field_path.
  rewrite hpack_string_short by done. cbn [mbind option_bind].
  rewrite hpack_field_authority. rewrite hpack_string_short by done. cbn [mbind option_bind].
  reflexivity.
Qed.

Lemma post_hpack_decodes_witness :
  hpack_decode 5 (post_hpack (bs "controlplane.tailscale.com") (bs "/machine/map")) = Some
    [(bs ":method", bs "POST"); (bs ":scheme", bs "https"); (bs ":path", bs "/machine/map");
     (bs ":authority", bs "controlplane.tailscale.com"); (bs "content-type", bs "application/json")].
Proof. apply post_hpack_decodes; apply Z.ltb_lt; vm_compute; reflexivity. Defined.

(** A path of 127 bytes is announced by the continuation prefix. *)
Example post_hpack_long : hpack_decode 5 (post_hpack (bs "host") (replicate 127 (u8 97))) = None.
Proof. vm_compute. reflexivity. Qed.

(** ** Flow control *)

(** The window-update increments a sequence of received data sizes produces. *)
Fixpoint window_run (w : Http2ReceiveWindow) (flows : list Z) : list Z * Http2ReceiveWindow :=
  match flows with
  | [] => ([], w)
  | n :: rest =>
      let '(g, w1) := consume n w in
      let '(gs, w2) := window_run w1 rest in
      (match g with Some i => i :: gs | None => gs end, w2)
  end.

(** What the peer may still send: the window less the data not yet credited. *)
Definition credit (w : Http2ReceiveWindow) : Z := size_ w - unacknowledged_ w.

(** A peer that respects flow control. *)
Fixpoint respects (w : Http2ReceiveWindow) (flows : list Z) : Prop :=
  match flows with
  | [] => True
  | n :: rest => 0 <= n <= credit w /\ respects (consume n w).2 rest
  end.

Definition sum (l : list Z) : Z := foldr Z.add 0 l.

Definition window_inv (w : Http2ReceiveWindow) : Prop :=
  0 < size_ w < 2 ^ 31 /\ 0 <= unacknowledged_ w /\
  (unacknowledged_ w = 0 \/ unacknowledged_ w < size_ w / 2).

Lemma consume_spec n w : window_inv w -> 0 <= n <= credit w ->
  let '(g, w') := consume n w in
  window_inv w' /\ size_ w' = size_ w /\
  match g with
  | None => unacknowledged_ w' = unacknowledged_ w + n
  | Some i => 1 <= i < 2 ^ 31 /\ size_ w / 2 <= i /\ i = unacknowledged_ w + n /\ unacknowledged_ w' = 0
  end.
Proof.
  unfold window_inv, credit. intros (Hs&Hu&Hc) Hn. unfold consume, u64, u32.
  rewrite (Z.mod_small (_ + _)) by lia. cbv zeta.
  destruct (Z.eqb_spec (unacknowledged_ w + n) 0) as [E|E]; cbn [orb];
    [|destruct (Z.ltb_spec (unacknowledged_ w + n) (size_ w / 2)) as [L|L]]; cbn [size_ unacknowledged_].
  - lia.
  - lia.
  - rewrite Z.min_l, Z.mod_small by lia. lia.
Qed.

(** Flow control never stalls and never over-credits: whatever sizes a peer
    that respects the window sends, every increment is a legal WINDOW_UPDATE
    (1 to 2^31-1), the increments and the unacknowledged bytes add up to the
    bytes received, and the peer can always send at least half the window. *)
Theorem receive_window_never_stalls size flows :
  0 < size < 2 ^ 31 -> respects (window size) flows ->
  let '(grants, w) := window_run (window size) flows in
  Forall (fun i => 1 <= i < 2 ^ 31) grants /\
  sum grants + unacknowledged_ w = sum flows /\ 0 <= unacknowledged_ w /\
  size - size / 2 <= credit w /\ 0 < credit w.
Proof.
  intros Hs.
  enough (forall flows w, window_inv w -> respects w flows ->
    let '(grants, w') := window_run w flows in
    Forall (fun i => 1 <= i < 2 ^ 31) grants /\ window_inv w' /\ size_ w' = size_ w /\
    sum grants + unacknowledged_ w' = unacknowledged_ w + sum flows) as H.
  { intros Hr. assert (window_inv (window size)) as Hi.
    { unfold window_inv. cbn [window size_ unacknowledged_]. lia. }
    specialize (H flows _ Hi Hr). destruct (window_run (window size) flows) as [gs w].
    destruct H as (?&(?&?&?)&Hz&?). unfold credit. cbn [window size_ unacknowledged_] in *.
    split_and!; [done|lia|lia|..]; subst size; Z.to_euclidean_division_equations; lia. }
  clear. intros flows. induction flows as [|n rest IH]; intros w Hi Hr.
  - simpl. split_and!; [constructor|done|done|lia].
  - destruct Hr as [Hn Hr]. cbn [window_run]. pose proof (consume_spec n w Hi Hn) as Hc.
    destruct (consume n w) as [g w1]. destruct Hc as (Hi1&Hz1&Hg).
    specialize (IH w1 Hi1 Hr). destruct (window_run w1 rest) as [gs w2].
    destruct IH as (Hf&Hi2&Hz2&Hsum). change (sum (n :: rest)) with (n + sum rest).
    destruct g as [i|]; (split_and!; [|done|congruence|]).
    + constructor; [lia|done].
    + change (sum (i :: gs)) with (i + sum gs). lia.
    + done.
    + lia.
Qed.

Lemma receive_window_never_stalls_witness :
  let '(grants, w) := window_run (window 65535) [40000; 20000; 30000] in
  Forall (fun i => 1 <= i < 2 ^ 31) grants /\
  sum grants + unacknowledged_ w = sum [40000; 20000; 30000] /\ 0 <= unacknowledged_ w /\
  65535 - 65535 / 2 <= credit w /\ 0 < credit w.
Proof.
  apply (receive_window_never_stalls 65535 [40000; 20000; 30000]); [lia|].
  vm_compute. repeat split; discriminate.
Defined.

(** The control connection's frames survive any chunking: reading chunks of
    at most [m] bytes gives exactly the frames the server wrote, in order, as
    long as a payload and a chunk fit the receive buffer together. *)
Theorem http2_reassembly frames chunks m :
  Forall (fun f => http2_wf f /\ zlen (payload f) + m <= kMaxFrameSize + 1) frames ->
  Forall (fun c => zlen c <= m) chunks -> m <= kMaxFrameSize ->
  concat chunks = concat (http2_bytes <$> frames) ->
  fd_feed (F := Http2Frame) [] chunks = Some (frames, []).
Proof.
  intros Hf Hc Hm Hs. apply (fd_feed_frames frames chunks m); [..|done].
  - eapply list.Forall_impl; [done|]. by intros f [H _].
  - eapply list.Forall_impl; [done|]. intros f [_ H]. cbn [fd_bytes fd_limit http2_decoder].
    rewrite zlen_http2_bytes. change (Z.of_nat kHttp2HeaderLen) with 9. lia.
  - done.
  - cbn [fd_limit http2_decoder]. lia.
Qed.

Lemma http2_reassembly_witness :
  let f1 := client_frame (u8 4) (u8 1) 0 [] in
  let f2 := client_frame (u8 0) (u8 1) 1 (bs "{}") in
  let wire := http2_bytes f1 ++ http2_bytes f2 in
  fd_feed (F := Http2Frame) [] [take 4 wire; slice 4 12 wire; drop 16 wire] = Some ([f1; f2], []).
Proof.
  apply (http2_reassembly [client_frame (u8 4) (u8 1) 0 []; client_frame (u8 0) (u8 1) 1 (bs "{}")] _ 12).
  - repeat constructor; by vm_compute.
  - repeat constructor; by vm_compute.
  - by vm_compute.
  - vm_compute. reflexivity.
Defined.
