(* ===== verification/Types.v ===== *)
(** The data the Tailscale components share ([TailscaleTypes.hpp]) and the part
    of the provider interface they answer with ([IRemoteAccessProvider.hpp]).
    A [std::string] and a [Key32] are byte sequences; a time point or duration
    of [std::chrono::steady_clock] is a number of nanoseconds. *)

From S2P Require Import Prelude.

Definition seconds (n : Z) : Z := n * 1000000000.

Record Identity := {
  machinePrivate : bytes;
  nodePrivate : bytes;
  discoPrivate : bytes;
}.

Definition isWeakIdentity (i : Identity) : bool :=
  bool_decide (machinePrivate i = nodePrivate i) || bool_decide (nodePrivate i = discoPrivate i)
  || bool_decide (machinePrivate i = discoPrivate i).

Inductive EndpointType := Local | StunMapped | Observed.
Record PeerEndpoint := {
  pe_address : bytes;
  pe_port : Z;
  pe_type : EndpointType;
  pe_discoveredAt : Z;
  pe_lastValidatedAt : Z;
}.

Record Peer := {
  stableId : bytes;
  nodeKey : bytes;
  discoKey : bytes;
  hostname : bytes;
  addresses : list bytes;
  allowedIPs : list bytes;
  endpoints : list PeerEndpoint;
  homeDerp : Z;
  online : bool;
  os : bytes;
  tcpServicePorts : list Z;
  servicesKnown : bool;
}.

Definition with_online (p : Peer) (b : bool) : Peer :=
  {| stableId := stableId p; nodeKey := nodeKey p; discoKey := discoKey p; hostname := hostname p;
     addresses := addresses p; allowedIPs := allowedIPs p; endpoints := endpoints p;
     homeDerp := homeDerp p; online := b; os := os p; tcpServicePorts := tcpServicePorts p;
     servicesKnown := servicesKnown p |}.

Record PeerOnlineChange := { oc_stableId : bytes; oc_online : bool }.
Record PeerDelta := {
  changed : list Peer;
  removedStableIds : list bytes;
  onlineChanges : list PeerOnlineChange;
}.

Inductive RemoteRouteMode := Native | Proxy.
Record RemoteRouteTarget := {
  rt_peerId : bytes;
  rt_peerAddress : bytes;
  rt_targetAddress : bytes;
  rt_connectAddress : bytes;
  rt_mode : RemoteRouteMode;
}.

Inductive RemotePathType :=
  UnknownPath | DirectIPv4 | DirectIPv6 | Derp | PeerRelayIPv4 | PeerRelayIPv6.
Record RemotePathInfo := {
  pi_type : RemotePathType;
  pi_endpoint : bytes;
  pi_relayRegion : bytes;
  pi_rttMs : Z;
}.
Definition no_path : RemotePathInfo :=
  {| pi_type := UnknownPath; pi_endpoint := []; pi_relayRegion := []; pi_rttMs := -1 |}.
