(* ===== verification/PathManager.v ===== *)
(** Which path each peer is on, for display and logs
    ([TailscalePathManager.cpp]): a map of per-peer states behind a mutex. Every
    method holds the lock for its whole body, so a run is a sequence of calls. *)

From S2P Require Import Prelude Types.

Definition kDirectFreshness : Z := seconds 15.
Definition kProbeTimeout : Z := seconds 3.

Record State := {
  derpRegion : bytes;
  directEndpoint : bytes;
  directRttMs : Z;
  probeStarted : Z;
  lastDirectPacket : Z;
  probing : bool;
  direct : bool;
}.

Definition fresh_state : State :=
  {| derpRegion := []; directEndpoint := []; directRttMs := -1; probeStarted := 0;
     lastDirectPacket := 0; probing := false; direct := false |}.

Abbreviation PathManager := (gmap (list Init.Byte.byte) State).

(** [paths_\[peerId\]]: the entry, created when it is missing. *)
Definition entry (m : PathManager) (p : bytes) : State := default fresh_state (m !! p).

Definition setDerp (p region : bytes) (m : PathManager) : PathManager :=
  let s := entry m p in
  <[p := {| derpRegion := region; directEndpoint := directEndpoint s; directRttMs := directRttMs s;
            probeStarted := probeStarted s; lastDirectPacket := lastDirectPacket s;
            probing := probing s; direct := direct s |}]> m.

Definition beginDirectProbe (p endpoint : bytes) (now : Z) (m : PathManager) : PathManager :=
  let s := entry m p in
  <[p := {| derpRegion := derpRegion s; directEndpoint := endpoint; directRttMs := directRttMs s;
            probeStarted := now; lastDirectPacket := lastDirectPacket s;
            probing := true; direct := direct s |}]> m.

Definition directPong (p endpoint : bytes) (rttMs now : Z) (m : PathManager) : PathManager :=
  let s := entry m p in
  <[p := {| derpRegion := derpRegion s; directEndpoint := endpoint; directRttMs := rttMs;
            probeStarted := probeStarted s; lastDirectPacket := now;
            probing := false; direct := true |}]> m.

Definition noteDirectPacket (p : bytes) (now : Z) (m : PathManager) : PathManager :=
  match m !! p with
  | Some s => if direct s then
      <[p := {| derpRegion := derpRegion s; directEndpoint := directEndpoint s;
                directRttMs := directRttMs s; probeStarted := probeStarted s;
                lastDirectPacket := now; probing := probing s; direct := direct s |}]> m
      else m
  | None => m
  end.

Definition directLost (p : bytes) (m : PathManager) : PathManager :=
  match m !! p with
  | Some s =>
      <[p := {| derpRegion := derpRegion s; directEndpoint := directEndpoint s; directRttMs := -1;
                probeStarted := probeStarted s; lastDirectPacket := lastDirectPacket s;
                probing := false; direct := false |}]> m
  | None => m
  end.

Definition networkChanged (m : PathManager) : PathManager :=
  (fun s => {| derpRegion := derpRegion s; directEndpoint := []; directRttMs := -1;
               probeStarted := probeStarted s; lastDirectPacket := lastDirectPacket s;
               probing := false; direct := false |}) <$> m.

Definition poll_state (now : Z) (s : State) : State :=
  let probing' := if probing s && (kProbeTimeout <? now - probeStarted s) then false else probing s in
  let stale := direct s && (kDirectFreshness <? now - lastDirectPacket s) in
  {| derpRegion := derpRegion s; directEndpoint := directEndpoint s;
     directRttMs := if stale then -1 else directRttMs s;
     probeStarted := probeStarted s; lastDirectPacket := lastDirectPacket s;
     probing := probing'; direct := if stale then false else direct s |}.

Definition poll (now : Z) (m : PathManager) : PathManager := poll_state now <$> m.

Definition pathInfo (m : PathManager) (p : bytes) : RemotePathInfo :=
  match m !! p with
  | None => no_path
  | Some s =>
      if direct s
      then {| pi_type := DirectIPv4; pi_endpoint := directEndpoint s; pi_relayRegion := [];
              pi_rttMs := directRttMs s |}
      else if negb (bool_decide (derpRegion s = []))
      then {| pi_type := Derp; pi_endpoint := []; pi_relayRegion := derpRegion s; pi_rttMs := -1 |}
      else no_path
  end.

(** ** Runs: sequences of calls *)

Inductive event :=
| SetDerp (p region : bytes)
| BeginDirectProbe (p endpoint : bytes) (now : Z)
| DirectPong (p endpoint : bytes) (rttMs now : Z)
| NoteDirectPacket (p : bytes) (now : Z)
| DirectLost (p : bytes)
| NetworkChanged
| Poll (now : Z).

Definition step (m : PathManager) (e : event) : PathManager :=
  match e with
  | SetDerp p r => setDerp p r m
  | BeginDirectProbe p ep now => beginDirectProbe p ep now m
  | DirectPong p ep rtt now => directPong p ep rtt now m
  | NoteDirectPacket p now => noteDirectPacket p now m
  | DirectLost p => directLost p m
  | NetworkChanged => networkChanged m
  | Poll now => poll now m
  end.

Definition run (es : list event) : PathManager := foldl step ∅ es.

(** ** Specification, per peer: the direct path is alive from a pong until the
    path is lost, the network changes, or a poll finds its last packet older
    than 15 seconds. [alive] is the time of the last packet. *)
Definition alive_step (p : bytes) (a : option Z) (e : event) : option Z :=
  match e with
  | DirectPong q _ _ now => if bool_decide (q = p) then Some now else a
  | NoteDirectPacket q now => if bool_decide (q = p) then (fun _ => now) <$> a else a
  | DirectLost q => if bool_decide (q = p) then None else a
  | NetworkChanged => None
  | Poll now => t ← a; if kDirectFreshness <? now - t then None else Some t
  | _ => a
  end.
Definition alive (p : bytes) (es : list event) : option Z := foldl (alive_step p) None es.

(** The relay region last set. *)
Definition region_step (p : bytes) (r : bytes) (e : event) : bytes :=
  match e with SetDerp q r' => if bool_decide (q = p) then r' else r | _ => r end.
Definition region (p : bytes) (es : list event) : bytes := foldl (region_step p) [] es.

(** The endpoint last probed or heard from, since the last network change. *)
Definition endpoint_step (p : bytes) (ep : bytes) (e : event) : bytes :=
  match e with
  | BeginDirectProbe q e' _ | DirectPong q e' _ _ => if bool_decide (q = p) then e' else ep
  | NetworkChanged => []
  | _ => ep
  end.
Definition endpoint (p : bytes) (es : list event) : bytes := foldl (endpoint_step p) [] es.

Definition rtt_step (p : bytes) (r : Z) (e : event) : Z :=
  match e with DirectPong q _ rtt _ => if bool_decide (q = p) then rtt else r | _ => r end.
Definition last_rtt (p : bytes) (es : list event) : Z := foldl (rtt_step p) (-1) es.

Definition live (s : State) : option Z := if direct s then Some (lastDirectPacket s) else None.

Lemma entry_insert m p q s : entry (<[p := s]> m) q = if bool_decide (q = p) then s else entry m q.
Proof.
  unfold entry. case_bool_decide as E; [subst; by rewrite lookup_insert_eq|].
  by rewrite lookup_insert_ne by done.
Qed.

Lemma entry_fmap f m q : f fresh_state = fresh_state -> entry (f <$> m) q = f (entry m q).
Proof. unfold entry. intros Hf. rewrite lookup_fmap. by destruct (m !! q). Qed.

Lemma entry_Some m p s : m !! p = Some s -> entry m p = s.
Proof. unfold entry. by intros ->. Qed.

Lemma entry_None m p : m !! p = None -> entry m p = fresh_state.
Proof. unfold entry. by intros ->. Qed.

(** Each call acts on one peer's entry, or on every entry alike. *)
Definition on (p q : bytes) (f : State -> State) (s : State) : State :=
  if bool_decide (q = p) then f s else s.

Definition lost (s : State) : State :=
  {| derpRegion := derpRegion s; directEndpoint := directEndpoint s; directRttMs := -1;
     probeStarted := probeStarted s; lastDirectPacket := lastDirectPacket s;
     probing := false; direct := false |}.

Definition packet (now : Z) (s : State) : State :=
  if direct s then
    {| derpRegion := derpRegion s; directEndpoint := directEndpoint s; directRttMs := directRttMs s;
       probeStarted := probeStarted s; lastDirectPacket := now; probing := probing s;
       direct := direct s |}
  else s.

Lemma entry_noteDirectPacket m p q now :
  entry (noteDirectPacket q now m) p = on p q (packet now) (entry m p).
Proof.
  unfold noteDirectPacket, on, packet. destruct (m !! q) as [s|] eqn:Eq.
  - destruct (direct s) eqn:Ed.
    + rewrite entry_insert. case_bool_decide; case_bool_decide; try congruence. subst.
      by rewrite (entry_Some _ _ _ Eq), Ed.
    + case_bool_decide; [subst|done]. by rewrite (entry_Some _ _ _ Eq), Ed.
  - case_bool_decide; [subst|done]. by rewrite (entry_None _ _ Eq).
Qed.

Lemma entry_directLost m p q : entry (directLost q m) p = on p q lost (entry m p).
Proof.
  unfold directLost, on. destruct (m !! q) as [s|] eqn:Eq.
  - rewrite entry_insert. case_bool_decide; case_bool_decide; try congruence. subst.
    by rewrite (entry_Some _ _ _ Eq).
  - case_bool_decide; [subst|done]. by rewrite (entry_None _ _ Eq).
Qed.

(** The invariant that ties a peer's entry to the calls made so far. *)
Record tracks (p : bytes) (es : list event) (s : State) : Prop := {
  tr_alive : alive p es = if direct s then Some (lastDirectPacket s) else None;
  tr_region : region p es = derpRegion s;
  tr_endpoint : endpoint p es = directEndpoint s;
  tr_rtt : direct s = true -> last_rtt p es = directRttMs s;
}.

Lemma alive_snoc p es e : alive p (es ++ [e]) = alive_step p (alive p es) e.
Proof. unfold alive. by rewrite foldl_app. Qed.
Lemma region_snoc p es e : region p (es ++ [e]) = region_step p (region p es) e.
Proof. unfold region. by rewrite foldl_app. Qed.
Lemma endpoint_snoc p es e : endpoint p (es ++ [e]) = endpoint_step p (endpoint p es) e.
Proof. unfold endpoint. by rewrite foldl_app. Qed.
Lemma last_rtt_snoc p es e : last_rtt p (es ++ [e]) = rtt_step p (last_rtt p es) e.
Proof. unfold last_rtt. by rewrite foldl_app. Qed.

Create Rewrite HintDb path.
#[export] Hint Rewrite alive_snoc region_snoc endpoint_snoc last_rtt_snoc : path.

Lemma step_tracks p es e m : tracks p es (entry m p) -> tracks p (es ++ [e]) (entry (step m e) p).
Proof.
  intros [Ha Hr He Ht].
  split; autorewrite with path; rewrite ?Ha, ?Hr, ?He;
    (destruct e as [q r|q ep now|q ep r now|q now|q| |now];
     cbn [step alive_step region_step endpoint_step rtt_step];
     [unfold setDerp; rewrite entry_insert, (bool_decide_ext (p = q) (q = p)) by done
     |unfold beginDirectProbe; rewrite entry_insert, (bool_decide_ext (p = q) (q = p)) by done
     |unfold directPong; rewrite entry_insert, (bool_decide_ext (p = q) (q = p)) by done
     |rewrite entry_noteDirectPacket; unfold on, packet
     |rewrite entry_directLost; unfold on, lost
     |unfold networkChanged; rewrite entry_fmap by done
     |unfold poll; rewrite entry_fmap by done; unfold poll_state]);
    repeat case_bool_decide; subst; cbn; try done;
    destruct (direct (entry m p)) eqn:Ed; cbn; rewrite ?Ed; try done; auto;
    destruct (kDirectFreshness <? now - lastDirectPacket (entry m p)); cbn; rewrite ?Ed; auto; done.
Qed.

Lemma run_tracks p es : tracks p es (entry (run es) p).
Proof.
  induction es as [|e es IH] using rev_ind.
  - unfold entry, run. cbn [foldl]. rewrite lookup_empty. split; done.
  - unfold run. rewrite foldl_app. by apply step_tracks.
Qed.

(** What the path view says of a peer after any sequence of calls depends on
    that peer's own history, and is right about it: direct exactly while a pong
    has been heard since the last loss and network change and no poll has found
    the last packet older than 15 seconds, with the round-trip time of that
    peer's last pong and the endpoint last probed or heard from; otherwise the
    relay region last set, if any. *)
Theorem pathInfo_spec es p :
  pathInfo (run es) p =
  match alive p es with
  | Some _ => {| pi_type := DirectIPv4; pi_endpoint := endpoint p es; pi_relayRegion := [];
                 pi_rttMs := last_rtt p es |}
  | None =>
      if bool_decide (region p es = []) then no_path
      else {| pi_type := Derp; pi_endpoint := []; pi_relayRegion := region p es; pi_rttMs := -1 |}
  end.
Proof.
  destruct (run_tracks p es) as [-> -> -> Ht].
  assert (pathInfo (run es) p = let s := entry (run es) p in
    if direct s
    then {| pi_type := DirectIPv4; pi_endpoint := directEndpoint s; pi_relayRegion := [];
            pi_rttMs := directRttMs s |}
    else if negb (bool_decide (derpRegion s = []))
    then {| pi_type := Derp; pi_endpoint := []; pi_relayRegion := derpRegion s; pi_rttMs := -1 |}
    else no_path) as -> by (unfold pathInfo, entry; by destruct (run es !! p)).
  cbv zeta. destruct (direct (entry (run es) p)) eqn:Ed; [by rewrite Ht|]. by destruct (bool_decide _).
Qed.

(** A probe of another endpoint replaces the endpoint that is shown while the
    old path is still trusted: the view names an endpoint no pong came from. *)
Example probed_endpoint_shown :
  pathInfo (run [DirectPong (bs "n1") (bs "192.168.1.5:41641") 7 0;
                 BeginDirectProbe (bs "n1") (bs "10.0.0.9:41641") 1]) (bs "n1")
  = {| pi_type := DirectIPv4; pi_endpoint := bs "10.0.0.9:41641"; pi_relayRegion := []; pi_rttMs := 7 |}.
Proof. vm_compute. reflexivity. Qed.
