(* ===== verification/PeerDirectory.v ===== *)
(** The directory of tailnet peers ([TailscalePeerDirectory.hpp],
    [TailscalePeerDirectory.cpp]): its updates from the netmap, and the lookup
    that decides which peer carries traffic for an address. The directory is an
    [unordered_map] behind a mutex; the order in which it is traversed is
    unspecified, so [resolveIPv4] takes the traversal as an argument and its
    theorem holds for every traversal of the map. *)

From S2P Require Import Prelude Bytes Text Endpoint Types.

Definition kMaxPeers : Z := 1024.
Definition kMaxEndpointsPerPeer : Z := 32.
Definition kMaxAllowedIPsPerPeer : Z := 64.

Abbreviation PeerDirectory := (gmap (list Init.Byte.byte) Peer).

(** ** IPv4 text *)

Definition parseOctet (value : bytes) : bool :=
  if bool_decide (value = []) || (3 <? length value)%nat then false
  else
    let result := from_chars_unsigned value 0 in
    bool_decide (fc_ec result = ErrNone) && (fc_ptr result =? length value)%nat &&
    (fc_value result <=? 255).

(** The loop of [parseIPv4Value]: the value and the number of components. *)
Fixpoint ipv4_loop (fuel : nat) (ip : bytes) (begin : nat) (val components : Z) : option (Z * Z) :=
  match fuel with
  | O => None
  | S k =>
      if (begin <=? length ip)%nat then
        let dot := find_from (ch ".") begin ip in
        let end_ := default (length ip) dot in
        let piece := substr begin (end_ - begin) ip in
        if negb (parseOctet piece) then None
        else
          let octet := fc_value (from_chars_unsigned piece 0) in
          let val := Z.lor (u32 (Z.shiftl val 8)) (octet mod 256) in
          match dot with
          | None => Some (val, components + 1)
          | Some d => ipv4_loop k ip (d + 1) val (components + 1)
          end
      else Some (val, components)
  end.

Definition parseIPv4Value (ip : bytes) : option Z :=
  '(val, components) ← ipv4_loop (S (length ip)) ip 0 0 0;
  if negb (components =? 4) then None else Some val.

(** The loop of [isLiteralIPv4]. *)
Fixpoint literal_loop (fuel : nat) (address : bytes) (begin : nat) (components : Z) : option Z :=
  match fuel with
  | O => None
  | S k =>
      if (begin <=? length address)%nat then
        let dot := find_from (ch ".") begin address in
        let end_ := default (length address) dot in
        if negb (parseOctet (substr begin (end_ - begin) address)) then None
        else match dot with
             | None => Some (components + 1)
             | Some d => literal_loop k address (d + 1) (components + 1)
             end
      else Some components
  end.

Definition isLiteralIPv4 (address : bytes) : bool :=
  match literal_loop (S (length address)) address 0 0 with
  | None => false
  | Some components => components =? 4
  end.

(** [Some (network, prefix)] when the text is accepted. *)
Definition parseIPv4Cidr (cidr : bytes) : option (Z * Z) :=
  let slash := find (ch "/") cidr in
  bits ← match slash with
         | None => Some 32
         | Some k =>
             let prefixText := substr_from (k + 1) cidr in
             if bool_decide (prefixText = []) || (2 <? length prefixText)%nat then None
             else
               let result := from_chars_int prefixText 32 in
               if negb (bool_decide (fc_ec result = ErrNone)) ||
                  negb (fc_ptr result =? length prefixText)%nat ||
                  (fc_value result <? 0) || (32 <? fc_value result)
               then None else Some (fc_value result)
         end;
  value ← parseIPv4Value (match slash with None => cidr | Some k => substr 0 k cidr end);
  Some (value, bits).

Definition prefixMask (prefix : Z) : Z :=
  if prefix =? 0 then 0 else u32 (Z.shiftl (2 ^ 32 - 1) (32 - prefix)).

Definition cidrMatchLength (candidate : Z) (cidr : bytes) : Z :=
  match parseIPv4Cidr cidr with
  | None => -1
  | Some (network, prefix) =>
      let mask := prefixMask prefix in
      if Z.land candidate mask =? Z.land network mask then prefix else -1
  end.

Fixpoint firstIPv4 (addresses : list bytes) : bytes :=
  match addresses with
  | [] => []
  | a :: rest => if isLiteralIPv4 a then a else firstIPv4 rest
  end.

Definition isRoutableIPv4Subnet (cidr : bytes) (ownAddresses : list bytes) : bool :=
  match parseIPv4Cidr cidr with
  | None => false
  | Some (network, prefix) =>
      if prefix =? 0 then false
      else if prefix =? 32 then
        negb (existsb (fun own => bool_decide (parseIPv4Value own = Some network)) ownAddresses)
      else true
  end.

(** ** Updates *)

Definition validatePeer (peer : Peer) : result unit :=
  check negb (bool_decide (stableId peer = [])) else "peer has no stable ID";
  check negb (kMaxEndpointsPerPeer <? zlen (endpoints peer)) else "peer endpoint limit exceeded";
  check negb (kMaxAllowedIPsPerPeer <? zlen (allowedIPs peer)) else "peer allowed IP limit exceeded";
  check negb (existsb (fun a => 128 <? zlen a) (addresses peer)) else "peer address is oversized";
  Ok tt.

Fixpoint replace_loop (peers : list Peer) (replacement : PeerDirectory) : result PeerDirectory :=
  match peers with
  | [] => Ok replacement
  | peer :: rest =>
      let! _ := validatePeer peer in
      match replacement !! stableId peer with
      | Some _ => Err "duplicate stable peer ID"
      | None => replace_loop rest (<[stableId peer := peer]> replacement)
      end
  end.

(** The returned directory is the one the object holds after the call. *)
Definition replace (peers : list Peer) (dir : PeerDirectory) : result unit * PeerDirectory :=
  if kMaxPeers <? zlen peers then (Err "peer limit exceeded", dir)
  else match replace_loop peers ∅ with
  | Err e => (Err e, dir)
  | Ok replacement => (Ok tt, replacement)
  end.

Fixpoint validate_changed (peers : list Peer) (changedIds : gset bytes) : result unit :=
  match peers with
  | [] => Ok tt
  | peer :: rest =>
      let! _ := validatePeer peer in
      if bool_decide (stableId peer ∈ changedIds) then Err "duplicate stable peer ID in delta"
      else validate_changed rest ({[stableId peer]} ∪ changedIds)
  end.

Definition patch_online (dir : PeerDirectory) (change : PeerOnlineChange) : PeerDirectory :=
  match dir !! oc_stableId change with
  | Some p => <[oc_stableId change := with_online p (oc_online change)]> dir
  | None => dir
  end.

Definition apply (delta : PeerDelta) (dir : PeerDirectory) : result unit * PeerDirectory :=
  match validate_changed (changed delta) ∅ with
  | Err e => (Err e, dir)
  | Ok _ =>
      let projectedIds := (dom dir : gset bytes) in
      let projectedIds := foldl (fun s id => s ∖ {[id]}) projectedIds (removedStableIds delta) in
      let projectedIds := foldl (fun s p => {[stableId p]} ∪ s) projectedIds (changed delta) in
      if kMaxPeers <? Z.of_nat (size projectedIds) then (Err "peer limit exceeded", dir)
      else
        let dir := foldl (fun d id => delete id d) dir (removedStableIds delta) in
        let dir := foldl (fun d p => <[stableId p := p]> d) dir (changed delta) in
        let dir := foldl patch_online dir (onlineChanges delta) in
        (Ok tt, dir)
  end.

Definition findByStableId (id : bytes) (dir : PeerDirectory) : option Peer := dir !! id.

(** ** Routing. [peers] is the directory in the order it is traversed. *)

Definition proxy_target (id peerAddress target : bytes) : RemoteRouteTarget :=
  {| rt_peerId := id; rt_peerAddress := peerAddress; rt_targetAddress := target;
     rt_connectAddress := bs "127.0.0.1"; rt_mode := Proxy |}.

Fixpoint own_match (peers : list (bytes * Peer)) (address : bytes) : option RemoteRouteTarget :=
  match peers with
  | [] => None
  | (id, peer) :: rest =>
      if bool_decide (address ∈ addresses peer) then Some (proxy_target id address address)
      else own_match rest address
  end.

(** [best], [bestId] and [bestPrefix]. *)
Definition best_state : Type := option (bytes * Peer * Z).
Definition best_prefix (best : best_state) : Z := match best with Some (_, _, p) => p | None => -1 end.

Definition consider (candidate : Z) (id : bytes) (peer : Peer) (best : best_state) (subnet : bytes)
  : best_state :=
  let prefix := cidrMatchLength candidate subnet in
  if (best_prefix best <? prefix) ||
     ((prefix =? best_prefix best) && (0 <=? prefix) &&
      match best with Some (_, b, _) => negb (online b) | None => false end && online peer)
  then if bool_decide (firstIPv4 (addresses peer) = []) then best else Some (id, peer, prefix)
  else best.

Definition subnet_match (peers : list (bytes * Peer)) (candidate : Z) : best_state :=
  foldl (fun best '(id, peer) => foldl (consider candidate id peer) best (allowedIPs peer)) None peers.

Definition resolveIPv4 (peers : list (bytes * Peer)) (address : bytes) : option RemoteRouteTarget :=
  candidate ← parseIPv4Value address;
  match own_match peers address with
  | Some t => Some t
  | None =>
      '(id, best, _) ← subnet_match peers candidate;
      Some (proxy_target id (firstIPv4 (addresses best)) address)
  end.

(** ** What the IPv4 text functions accept *)

Lemma parseOctet_ok p : octet_ok p = if parseOctet p then Some (fc_value (from_chars_unsigned p 0)) else None.
Proof.
  unfold octet_ok, parseOctet. destruct (bool_decide (p = [])); cbn [orb]; [done|].
  destruct (3 <? length p)%nat; cbn [orb]; [done|].
  destruct (bool_decide (fc_ec _ = ErrNone)); cbn [negb orb andb]; [|done].
  destruct (_ =? length p)%nat; cbn [negb orb andb]; [|done].
  rewrite Z.leb_antisym. by destruct (255 <? _).
Qed.

Lemma ipv4_loop_octets fuel : forall ip begin val n, (begin <= length ip)%nat ->
  ipv4_loop fuel ip begin val n = parse_octets fuel ip begin val n.
Proof.
  induction fuel as [|k IH]; intros ip begin val n Hb; [done|].
  cbn [ipv4_loop parse_octets]. rewrite (proj2 (Nat.leb_le _ _)) by done.
  assert (substr begin (default (length ip) (find_from (ch ".") begin ip) - begin) ip =
    match find_from (ch ".") begin ip with None => substr_from begin ip
    | Some d => substr begin (d - begin) ip end) as ->.
  { destruct (find_from _ _ _); cbn [default from_option id]; [done|].
    unfold substr, substr_from. apply take_ge. by rewrite length_drop. }
  set (piece := match find_from (ch ".") begin ip with None => _ | Some d => _ end).
  rewrite parseOctet_ok. destruct (parseOctet piece) eqn:Ep; cbn [negb]; [|done].
  assert (octet_ok piece = Some (fc_value (from_chars_unsigned piece 0))) as Ho by (by rewrite parseOctet_ok, Ep).
  cbn [mbind option_bind]. rewrite (Z.mod_small _ 256) by by eapply octet_ok_range.
  destruct (find_from (ch ".") begin ip) as [d|] eqn:Ed; [|done].
  apply IH. apply find_from_bound in Ed. lia.
Qed.

(** A dotted quad and its value. *)
Definition quad_text (ip : bytes) (v : Z) : Prop :=
  exists a b c d, octet_text a /\ octet_text b /\ octet_text c /\ octet_text d /\
    ip = join (ch ".") [a; b; c; d] /\ v = quad_value a b c d.

Lemma parseIPv4Value_fold ip : parseIPv4Value ip =
  ('(v, n) ← quad_fold (split_on (ch ".") ip) 0 0; if negb (n =? 4) then None else Some v).
Proof. unfold parseIPv4Value. by rewrite ipv4_loop_octets, parse_octets_spec, drop_0 by lia. Qed.

Lemma parseIPv4Value_Some ip v : parseIPv4Value ip = Some v <-> quad_text ip v.
Proof.
  rewrite parseIPv4Value_fold. split.
  - destruct (quad_fold _ 0 0) as [[r n]|] eqn:E; cbn [mbind option_bind]; [|done].
    destruct (Z.eqb_spec n 4) as [->|]; cbn [negb]; [|done]. intros [= <-].
    apply quad_fold_inv in E as (a&b&c&d&oa&ob&oc&od&Es&Ha&Hb&Hc&Hd&->).
    exists a, b, c, d. rewrite <- Es, join_split_on.
    apply octet_ok_Some in Ha as (?&?&?&->&?), Hb as (?&?&?&->&?), Hc as (?&?&?&->&?), Hd as (?&?&?&->&?).
    by split_and!.
  - intros (a&b&c&d&Ha&Hb&Hc&Hd&->&->).
    rewrite split_on_join; [|done|repeat constructor; by apply octet_text_no_dot].
    rewrite (quad_fold_4 _ _ _ _ _ _ _ _ (octet_text_ok _ Ha) (octet_text_ok _ Hb)
      (octet_text_ok _ Hc) (octet_text_ok _ Hd)). done.
Qed.

Lemma parseIPv4Value_range ip v : parseIPv4Value ip = Some v -> 0 <= v < 2 ^ 32.
Proof.
  intros (a&b&c&d&_&_&_&_&_&->)%parseIPv4Value_Some. unfold quad_value.
  apply (be_value_bound [u8 (dec_value a); u8 (dec_value b); u8 (dec_value c); u8 (dec_value d)]).
Qed.

Lemma literal_loop_spec fuel : forall a begin val n,
  literal_loop fuel a begin n = snd <$> ipv4_loop fuel a begin val n.
Proof.
  induction fuel as [|k IH]; intros a begin val n; [done|]. cbn [literal_loop ipv4_loop].
  destruct (begin <=? length a)%nat; [|done]. destruct (negb _); [done|].
  destruct (find_from (ch ".") begin a); [apply IH|done].
Qed.

Lemma isLiteralIPv4_spec a : isLiteralIPv4 a = true <-> exists v, quad_text a v.
Proof.
  unfold isLiteralIPv4. rewrite (literal_loop_spec _ _ _ 0).
  pose proof (parseIPv4Value_Some a) as HP. unfold parseIPv4Value in HP.
  destruct (ipv4_loop _ _ _ _ _) as [[v n]|]; cbn [fmap option_fmap option_map snd mbind option_bind] in *.
  - destruct (Z.eqb_spec n 4); cbn [negb] in *; split; try done.
    + intros _. exists v. by apply HP.
    + intros [w Hw%HP]. done.
  - split; [done|]. by intros [w Hw%HP].
Qed.

Lemma firstIPv4_spec l : firstIPv4 l <> [] ->
  firstIPv4 l ∈ l /\ exists v, quad_text (firstIPv4 l) v.
Proof.
  induction l as [|a l IH]; cbn [firstIPv4]; [done|].
  destruct (isLiteralIPv4 a) eqn:E; intros Hne.
  - split; [left|by apply isLiteralIPv4_spec].
  - destruct (IH Hne). split; [by right|done].
Qed.

(** ** Prefix matching *)

Lemma prefixMask_bits p i : 0 <= p <= 32 -> 0 <= i ->
  Z.testbit (prefixMask p) i = (32 - p <=? i) && (i <? 32).
Proof.
  intros Hp Hi. unfold prefixMask, u32. destruct (Z.eqb_spec p 0) as [->|].
  - rewrite Z.bits_0. destruct (Z.leb_spec (32 - 0) i), (Z.ltb_spec i 32); done || lia.
  - destruct (Z.ltb_spec i 32) as [Hl|Hl].
    + rewrite Z.mod_pow2_bits_low, Z.shiftl_spec by lia. rewrite andb_true_r.
      change (2 ^ 32 - 1) with (Z.ones 32).
      destruct (Z.leb_spec (32 - p) i); [apply Z.ones_spec_low; lia|apply Z.testbit_neg_r; lia].
    + rewrite Z.mod_pow2_bits_high by lia. by rewrite andb_false_r.
Qed.

(** The masks agree exactly when the first [p] bits do. *)
Lemma mask_match c n p : 0 <= p <= 32 -> 0 <= c < 2 ^ 32 -> 0 <= n < 2 ^ 32 ->
  Z.land c (prefixMask p) = Z.land n (prefixMask p) <-> Z.shiftr c (32 - p) = Z.shiftr n (32 - p).
Proof.
  intros Hp Hc Hn.
  assert (forall x i, 0 <= x < 2 ^ 32 -> 32 <= i -> Z.testbit x i = false) as Hhigh.
  { intros x i Hx Hi. rewrite <- (Z.mod_small x (2 ^ 32)) by lia. apply Z.mod_pow2_bits_high. lia. }
  split; intros E; apply Z.bits_inj'; intros i Hi.
  - rewrite !Z.shiftr_spec by done. apply (f_equal (fun x => Z.testbit x (i + (32 - p)))) in E.
    rewrite !Z.land_spec, prefixMask_bits in E by lia.
    destruct (Z.ltb_spec (i + (32 - p)) 32); [|by rewrite !Hhigh by lia].
    rewrite (proj2 (Z.leb_le _ _)) in E by lia. by rewrite !andb_true_r in E.
  - rewrite !Z.land_spec, prefixMask_bits by lia.
    destruct (Z.leb_spec (32 - p) i); [|by rewrite !andb_false_r]. cbn [andb].
    apply (f_equal (fun x => Z.testbit x (i - (32 - p)))) in E.
    rewrite !Z.shiftr_spec in E by lia. rewrite Z.sub_add in E. by rewrite E.
Qed.

Lemma parseIPv4Cidr_range cidr n p : parseIPv4Cidr cidr = Some (n, p) -> 0 <= n < 2 ^ 32 /\ 0 <= p <= 32.
Proof.
  unfold parseIPv4Cidr. destruct (find (ch "/") cidr) as [k|].
  - destruct (_ || _); [done|]. destruct (negb _ || negb _ || _ || _) eqn:E; cbn [mbind option_bind]; [done|].
    apply orb_false_iff in E as [E E2]. apply orb_false_iff in E as [_ E1].
    apply Z.ltb_ge in E1, E2.
    destruct (parseIPv4Value _) as [v|] eqn:Ev; cbn [mbind option_bind]; [|done].
    intros [= -> <-]. apply parseIPv4Value_range in Ev. lia.
  - cbn [mbind option_bind]. destruct (parseIPv4Value _) as [v|] eqn:Ev; cbn [mbind option_bind]; [|done].
    intros [= -> <-]. apply parseIPv4Value_range in Ev. lia.
Qed.

Lemma cidrMatchLength_spec c cidr p : 0 <= c < 2 ^ 32 -> 0 <= p ->
  cidrMatchLength c cidr = p <->
  exists n, parseIPv4Cidr cidr = Some (n, p) /\ Z.shiftr c (32 - p) = Z.shiftr n (32 - p).
Proof.
  intros Hc Hp. unfold cidrMatchLength. destruct (parseIPv4Cidr cidr) as [[n q]|] eqn:E.
  - apply parseIPv4Cidr_range in E as [Hn Hq].
    destruct (Z.eqb_spec (Z.land c (prefixMask q)) (Z.land n (prefixMask q))) as [Em|Em];
      rewrite mask_match in Em by done; split.
    + intros ->. eauto.
    + by intros (?&[= <- <-]&_).
    + lia.
    + by intros (?&[= <- <-]&?).
  - split; [lia|]. by intros (?&?&_).
Qed.

(** ** The route chosen *)

(** [peer] can carry traffic for [c]: it shares a subnet whose first [p] bits
    are those of [c], and has an IPv4 address to reach it by. *)
Definition serves (c : Z) (peer : Peer) (p : Z) : Prop :=
  firstIPv4 (addresses peer) <> [] /\
  exists subnet n, subnet ∈ allowedIPs peer /\ parseIPv4Cidr subnet = Some (n, p) /\
    Z.shiftr c (32 - p) = Z.shiftr n (32 - p).

(** The pairs the nested loops visit. *)
Definition visits (peers : list (bytes * Peer)) : list (bytes * Peer * bytes) :=
  concat ((fun '(id, peer) => (fun s => (id, peer, s)) <$> allowedIPs peer) <$> peers).

Definition visit (c : Z) (best : best_state) (v : bytes * Peer * bytes) : best_state :=
  let '(id, peer, subnet) := v in consider c id peer best subnet.

Lemma subnet_match_visits peers c : subnet_match peers c = foldl (visit c) None (visits peers).
Proof.
  unfold subnet_match. generalize (None : best_state).
  induction peers as [|[id peer] peers IH]; intros best; [done|].
  unfold visits. cbn [fmap list_fmap concat foldl]. rewrite foldl_app. rewrite IH.
  unfold visits. f_equal. generalize best. induction (allowedIPs peer) as [|s l IHl]; intros b; [done|].
  cbn [fmap list_fmap foldl]. apply IHl.
Qed.

Lemma elem_of_visits peers id peer s :
  (id, peer, s) ∈ visits peers <-> (id, peer) ∈ peers /\ s ∈ allowedIPs peer.
Proof.
  unfold visits. rewrite list_elem_of_In, in_concat. split.
  - intros (l&Hl%list_elem_of_In&Hin%list_elem_of_In).
    apply list_elem_of_fmap in Hl as ([id' peer']&->&Hp).
    apply list_elem_of_fmap in Hin as (s'&[= <- <- <-]&Hs). done.
  - intros [Hp Hs]. exists ((fun s => (id, peer, s)) <$> allowedIPs peer).
    split; apply list_elem_of_In; apply list_elem_of_fmap; [by exists (id, peer)|by exists s].
Qed.

(** A visit that qualifies: what [best] may become. *)
Definition eligible (c : Z) (v : bytes * Peer * bytes) (p : Z) : Prop :=
  let '(id, peer, s) := v in
  firstIPv4 (addresses peer) <> [] /\ cidrMatchLength c s = p /\ 0 <= p.

Definition best_of (c : Z) (vs : list (bytes * Peer * bytes)) (best : best_state) : Prop :=
  match best with
  | None => forall v p, v ∈ vs -> ~ eligible c v p
  | Some (id, b, p) =>
      (exists s, (id, b, s) ∈ vs /\ eligible c (id, b, s) p) /\
      forall id' b' s' p', (id', b', s') ∈ vs -> eligible c (id', b', s') p' ->
        p' <= p /\ (p' = p -> online b' = true -> online b = true)
  end.

Lemma best_of_prefix c vs best : best_of c vs best -> -1 <= best_prefix best.
Proof. destruct best as [[[id b] p]|]; cbn; [|lia]. intros [(s&_&(_&_&?)) _]. lia. Qed.

Lemma cidrMatchLength_low c s : -1 <= cidrMatchLength c s.
Proof.
  unfold cidrMatchLength. destruct (parseIPv4Cidr s) as [[n q]|] eqn:E; [|lia].
  apply parseIPv4Cidr_range in E as [_ Hq]. cbv zeta. destruct (_ =? _); lia.
Qed.

Lemma visit_best c vs best v : best_of c vs best -> best_of c (vs ++ [v]) (visit c best v).
Proof.
  intros Hb. pose proof (best_of_prefix _ _ _ Hb) as Hlow. destruct v as [[id peer] s].
  pose proof (cidrMatchLength_low c s) as Hm. cbn [visit]. unfold consider.
  set (p := cidrMatchLength c s) in *. cbv zeta.
  assert (forall w q, w ∈ vs ++ [(id, peer, s)] -> eligible c w q ->
    w ∈ vs \/ (w = (id, peer, s) /\ firstIPv4 (addresses peer) <> [] /\ q = p /\ 0 <= p)) as Hcase.
  { intros w q [H|H%list_elem_of_singleton]%elem_of_app Hq; [by left|right].
    subst w. destruct Hq as (?&<-&?). done. }
  destruct ((best_prefix best <? p) || _) eqn:Etake.
  2: { (* the visit does not qualify for replacing [best] *)
    apply orb_false_iff in Etake as [Elt Eeq]. apply Z.ltb_ge in Elt.
    destruct best as [[[i b] q]|]; cbn [best_prefix best_of] in *.
    - destruct Hb as [(s0&Hin&He) Hmax]. split; [exists s0; split; [set_solver|done]|].
      intros id' b' s' p' Hv Hel. destruct (Hcase _ _ Hv Hel) as [Hv'|([= -> -> ->]&_&->&Hp)]; [by eapply Hmax|].
      split; [done|]. intros -> Ho. rewrite Z.eqb_refl, (proj2 (Z.leb_le 0 q)), Ho, andb_true_r in Eeq by done.
      cbn [andb] in Eeq. by apply negb_false_iff in Eeq.
    - intros w q' Hv Hel. destruct (Hcase _ _ Hv Hel) as [Hv'|(_&_&->&?)]; [by eapply Hb|lia]. }
  case_bool_decide as Hf.
  - (* no IPv4 address: skipped *)
    destruct best as [[[i b] q]|]; cbn [best_of] in *.
    + destruct Hb as [(s0&Hin&He) Hmax]. split; [exists s0; split; [set_solver|done]|].
      intros id' b' s' p' Hv Hel. destruct (Hcase _ _ Hv Hel) as [Hv'|(_&?&_)]; [by eapply Hmax|done].
    + intros w q' Hv Hel. destruct (Hcase _ _ Hv Hel) as [Hv'|(_&?&_)]; [by eapply Hb|done].
  - assert (0 <= p /\ best_prefix best <= p /\ (best_prefix best = p ->
      match best with Some (_, b, _) => online b = false | None => True end /\ online peer = true)) as (Hp0&Hle&Heq).
    { apply orb_true_iff in Etake as [Elt%Z.ltb_lt|E]; [split_and!; lia|].
      apply andb_true_iff in E as [E Eo]. apply andb_true_iff in E as [E E3]. apply andb_true_iff in E as [E1 E2].
      apply Z.eqb_eq in E1. apply Z.leb_le in E2. split_and!; [done|lia|]. intros _.
      destruct best as [[[i b] q]|]; [|done]. by apply negb_true_iff in E3. }
    cbn [best_of]. split; [exists s; split; [set_solver|done]|].
    intros id' b' s' p' Hv Hel. destruct (Hcase _ _ Hv Hel) as [Hv'|([= -> -> ->]&_&->&_)]; [|done].
    destruct best as [[[i b] q]|]; cbn [best_of best_prefix] in *; [|by apply Hb in Hel].
    destruct Hb as [_ Hmax]. destruct (Hmax _ _ _ _ Hv' Hel) as [Hq Hon].
    split; [lia|]. intros -> Ho. destruct (Heq ltac:(lia)) as [Hb Hp].
    rewrite Hon in Hb by (done || lia). done.
Qed.

Lemma visits_best c vs : best_of c vs (foldl (visit c) None vs).
Proof.
  induction vs as [|v vs IH] using rev_ind.
  - intros v p Hv. by apply not_elem_of_nil in Hv.
  - rewrite foldl_app. by apply visit_best.
Qed.

Lemma own_match_spec peers address :
  match own_match peers address with
  | Some t => exists id peer, (id, peer) ∈ peers /\ address ∈ addresses peer /\
      t = proxy_target id address address
  | None => forall id peer, (id, peer) ∈ peers -> address ∉ addresses peer
  end.
Proof.
  induction peers as [|[id peer] peers IH]; cbn [own_match].
  - intros id peer H. by apply not_elem_of_nil in H.
  - case_bool_decide as E; [exists id, peer; split; [left|done]|].
    destruct (own_match peers address) as [t|].
    + destruct IH as (i&p&?&?&?). exists i, p. split; [by right|done].
    + intros i p [[= -> ->]|H]%elem_of_cons; [done|by eapply IH].
Qed.

(** The rule [resolveIPv4] implements, over the directory as a map: the owner
    of the address; failing that, a peer that shares the subnet with the longest
    matching prefix, an online one if any shares it; nothing when nobody does. *)
Definition routes (dir : PeerDirectory) (address : bytes) (r : option RemoteRouteTarget) : Prop :=
  match parseIPv4Value address with
  | None => r = None
  | Some c =>
      (exists id peer, dir !! id = Some peer /\ address ∈ addresses peer /\
         r = Some (proxy_target id address address)) \/
      (forall id peer, dir !! id = Some peer -> address ∉ addresses peer) /\
      ((exists id peer p, dir !! id = Some peer /\ serves c peer p /\
          (forall id' peer' p', dir !! id' = Some peer' -> serves c peer' p' ->
             p' <= p /\ (p' = p -> online peer' = true -> online peer = true)) /\
          r = Some (proxy_target id (firstIPv4 (addresses peer)) address)) \/
       (forall id peer p, dir !! id = Some peer -> ~ serves c peer p) /\ r = None)
  end.

(** The route does not depend on the order in which the hash map is
    traversed: for every traversal the target satisfies the routing rule
    (owner first, then the longest matching prefix, online peers preferred). *)
Theorem resolveIPv4_routes dir peers address :
  peers ≡ₚ map_to_list dir -> routes dir address (resolveIPv4 peers address).
Proof.
  intros Hperm.
  assert (forall id peer, (id, peer) ∈ peers <-> dir !! id = Some peer) as Hin.
  { intros id peer. rewrite Hperm. apply elem_of_map_to_list. }
  unfold routes, resolveIPv4. destruct (parseIPv4Value address) as [c|] eqn:Ec; [|done].
  cbn [mbind option_bind]. pose proof (parseIPv4Value_range _ _ Ec) as Hc.
  pose proof (own_match_spec peers address) as Hown. destruct (own_match peers address) as [t|].
  { destruct Hown as (id&peer&Hi%Hin&Ha&->). left. by exists id, peer. }
  right. split; [intros id peer Hi%Hin; by eapply Hown|].
  assert (forall id peer p, dir !! id = Some peer -> serves c peer p ->
    exists s, (id, peer, s) ∈ visits peers /\ eligible c (id, peer, s) p) as Hserves.
  { intros id peer p Hd (Hf&s&n&Hs&Hcidr&Hsh). exists s. split; [by apply elem_of_visits; split; [apply Hin|]|].
    pose proof (parseIPv4Cidr_range _ _ _ Hcidr). split_and!; [done| |lia].
    apply cidrMatchLength_spec; [lia|lia|]. by exists n. }
  rewrite subnet_match_visits. pose proof (visits_best c (visits peers)) as Hb.
  destruct (foldl (visit c) None (visits peers)) as [[[id peer] p]|]; cbn [best_of mbind option_bind] in *.
  - left. destruct Hb as [(s&Hv&(Hf&Hm&Hp)) Hmax]. apply elem_of_visits in Hv as [Hd%Hin Hs].
    exists id, peer, p. split_and!; [done| | |done].
    + apply cidrMatchLength_spec in Hm as (n&?&?); [|done|done]. split; [done|]. by exists s, n.
    + intros id' peer' p' Hd' Hsv. destruct (Hserves _ _ _ Hd' Hsv) as (s'&Hv'&Hel). by eapply Hmax.
  - right. split; [|done]. intros id peer p Hd Hsv.
    destruct (Hserves _ _ _ Hd Hsv) as (s&Hv&Hel). by eapply Hb.
Qed.

(** ** Updates *)

Record dir_wf (dir : PeerDirectory) : Prop := {
  wf_entries : map_Forall (fun id p => stableId p = id /\ validatePeer p = Ok tt) dir;
  wf_size : Z.of_nat (size dir) <= kMaxPeers;
}.

(** The last presence patch a delta has for a peer. *)
Definition last_patch (changes : list PeerOnlineChange) (id : bytes) : option bool :=
  foldl (fun acc c => if bool_decide (oc_stableId c = id) then Some (oc_online c) else acc) None changes.

Definition patched (o : option bool) (p : Peer) : Peer :=
  match o with Some b => with_online p b | None => p end.

Definition find_peer (id : bytes) (peers : list Peer) : option Peer :=
  List.find (fun p => bool_decide (stableId p = id)) peers.

(** What an accepted delta makes of each entry. *)
Definition delta_entry (delta : PeerDelta) (dir : PeerDirectory) (id : bytes) : option Peer :=
  patched (last_patch (onlineChanges delta) id) <$>
    match find_peer id (changed delta) with
    | Some p => Some p
    | None => if bool_decide (id ∈ removedStableIds delta) then None else dir !! id
    end.

Lemma validatePeer_online p b : validatePeer (with_online p b) = validatePeer p.
Proof. done. Qed.

Lemma validate_changed_Ok peers : forall ids, validate_changed peers ids = Ok tt ->
  Forall (fun p => validatePeer p = Ok tt) peers /\ NoDup (stableId <$> peers) /\
  Forall (fun p => stableId p ∉ ids) peers.
Proof.
  induction peers as [|p peers IH]; intros ids; cbn [validate_changed].
  - intros _. split_and!; constructor.
  - intros ([]&Hv&H)%result_bind_Ok. case_bool_decide as E; [done|].
    destruct (IH _ H) as (Hvs&Hnd&Hids). split_and!.
    + by constructor.
    + rewrite fmap_cons. constructor; [|done]. intros Hin.
      apply list_elem_of_fmap in Hin as (q&Eq&Hq). rewrite list.Forall_forall in Hids.
      apply Hids in Hq. set_solver.
    + constructor; [done|]. eapply list.Forall_impl; [done|]. set_solver.
Qed.

Lemma lookup_foldl_delete ids : forall (dir : PeerDirectory) id,
  foldl (fun d i => delete i d) dir ids !! id = if bool_decide (id ∈ ids) then None else dir !! id.
Proof.
  induction ids as [|i ids IH]; intros dir id; cbn [foldl].
  - by rewrite bool_decide_false by apply not_elem_of_nil.
  - rewrite IH. case_bool_decide as E; case_bool_decide as E'; try done.
    + exfalso. apply E'. by right.
    + apply elem_of_cons in E' as [->|?]; [by rewrite lookup_delete_eq|done].
    + rewrite lookup_delete_ne; [done|]. intros ->. apply E'. left.
Qed.

Lemma find_peer_None id peers : find_peer id peers = None <-> id ∉ (stableId <$> peers).
Proof.
  induction peers as [|p peers IH]; cbn [find_peer List.find].
  - split; [intros _; apply not_elem_of_nil|done].
  - rewrite fmap_cons, not_elem_of_cons. case_bool_decide as E; split; try done.
    + intros [? _]. congruence.
    + intros H. split; [congruence|by apply IH].
    + intros [_ H]. by apply IH.
Qed.

Lemma lookup_foldl_insert peers : forall (dir : PeerDirectory) id, NoDup (stableId <$> peers) ->
  foldl (fun d p => <[stableId p := p]> d) dir peers !! id =
  match find_peer id peers with Some p => Some p | None => dir !! id end.
Proof.
  induction peers as [|p peers IH]; intros dir id Hnd; [done|].
  rewrite fmap_cons in Hnd. apply list.NoDup_cons in Hnd as [Hp Hnd].
  cbn [foldl find_peer List.find]. rewrite IH by done. fold (find_peer id peers).
  case_bool_decide as E.
  - rewrite (proj2 (find_peer_None id peers)) by by rewrite <- E.
    subst id. by rewrite lookup_insert_eq.
  - destruct (find_peer id peers); [done|]. by rewrite lookup_insert_ne by congruence.
Qed.

Lemma lookup_patch_online (dir : PeerDirectory) c i : patch_online dir c !! i =
  patched (if bool_decide (oc_stableId c = i) then Some (oc_online c) else None) <$> dir !! i.
Proof.
  unfold patch_online. case_bool_decide as E.
  - subst. destruct (dir !! oc_stableId c) as [p|] eqn:Ep; [by rewrite lookup_insert_eq|by rewrite Ep].
  - destruct (dir !! oc_stableId c); [rewrite lookup_insert_ne by done|]; by destruct (dir !! i).
Qed.

Lemma patched_patched o o' p : patched o (patched o' p) = patched (match o with Some b => Some b | None => o' end) p.
Proof. by destruct o, o'. Qed.

Lemma last_patch_snoc l c i : last_patch (l ++ [c]) i =
  if bool_decide (oc_stableId c = i) then Some (oc_online c) else last_patch l i.
Proof. unfold last_patch. by rewrite foldl_app. Qed.

Lemma lookup_foldl_patch cs : forall (dir : PeerDirectory) i,
  foldl patch_online dir cs !! i = patched (last_patch cs i) <$> dir !! i.
Proof.
  induction cs as [|c cs IH] using rev_ind; intros dir i.
  - cbn. by destruct (dir !! i).
  - rewrite foldl_app. cbn [foldl]. rewrite lookup_patch_online, IH, last_patch_snoc.
    destruct (dir !! i) as [p|]; cbn [fmap option_fmap option_map]; [|done].
    rewrite patched_patched. by case_bool_decide.
Qed.

Lemma dom_foldl_delete ids : forall dir : PeerDirectory,
  (dom (foldl (fun d i => delete i d) dir ids) : gset bytes) =
  foldl (fun s i => s ∖ {[i]}) (dom dir) ids.
Proof.
  induction ids as [|i ids IH]; intros dir; [done|]. cbn [foldl]. by rewrite IH, dom_delete_L.
Qed.

Lemma dom_foldl_insert peers : forall dir : PeerDirectory,
  (dom (foldl (fun d p => <[stableId p := p]> d) dir peers) : gset bytes) =
  foldl (fun s p => {[stableId p]} ∪ s) (dom dir) peers.
Proof.
  induction peers as [|p peers IH]; intros dir; [done|]. cbn [foldl]. by rewrite IH, dom_insert_L.
Qed.

Lemma dom_foldl_patch cs : forall dir : PeerDirectory,
  (dom (foldl patch_online dir cs) : gset bytes) = dom dir.
Proof.
  intros dir. apply set_eq. intros i. rewrite !elem_of_dom, lookup_foldl_patch.
  by rewrite fmap_is_Some.
Qed.

Lemma apply_spec delta dir : dir_wf dir ->
  match apply delta dir with
  | (Err _, dir') => dir' = dir
  | (Ok _, dir') => dir_wf dir' /\ forall id, findByStableId id dir' = delta_entry delta dir id
  end.
Proof.
  intros [Hent Hsize]. unfold apply.
  destruct (validate_changed (changed delta) ∅) as [[]|e] eqn:Ev; [|done].
  apply validate_changed_Ok in Ev as (Hv&Hnd&_). cbv zeta.
  rewrite <- dom_foldl_delete, <- dom_foldl_insert.
  set (d1 := foldl (fun d i => delete i d) dir (removedStableIds delta)).
  set (d2 := foldl (fun d p => <[stableId p := p]> d) d1 (changed delta)).
  destruct (Z.ltb_spec kMaxPeers (Z.of_nat (size (dom d2 : gset bytes)))) as [|Hs]; [done|].
  assert (forall id, foldl patch_online d2 (onlineChanges delta) !! id = delta_entry delta dir id) as Hl.
  { intros id. unfold delta_entry, d2, d1. by rewrite lookup_foldl_patch, lookup_foldl_insert, lookup_foldl_delete. }
  split; [|exact Hl]. split.
  - intros id p. rewrite Hl. unfold delta_entry. intros E.
    apply fmap_Some in E as (q&Eq&->).
    assert (stableId q = id /\ validatePeer q = Ok tt) as [<- Hq].
    { destruct (find_peer id (changed delta)) as [r|] eqn:Ef.
      - injection Eq as ->. apply List.find_some in Ef as [Hin Eid]. apply bool_decide_eq_true in Eid.
        rewrite list.Forall_forall in Hv. split; [done|]. by apply Hv, list_elem_of_In.
      - case_bool_decide; [done|]. by apply Hent. }
    by destruct (last_patch _ _).
  - rewrite <- size_dom, dom_foldl_patch. done.
Qed.

(** A netmap delta is all or nothing. A rejected delta (an invalid or
    duplicated peer, or a projected directory over 1024 peers) leaves the
    directory as it was. An accepted one removes, then updates, then patches
    presence: every entry is the one the delta says, entries stay valid and
    filed under their stable identifier, and the cap holds. *)
Theorem apply_delta delta dir : dir_wf dir ->
  match apply delta dir with
  | (Err _, dir') => dir' = dir
  | (Ok _, dir') => dir_wf dir' /\ forall id, findByStableId id dir' = delta_entry delta dir id
  end.
Proof. apply apply_spec. Qed.

Lemma replace_loop_spec peers : forall acc d, replace_loop peers acc = Ok d ->
  Forall (fun p => validatePeer p = Ok tt) peers /\
  NoDup (stableId <$> peers) /\ Forall (fun p => acc !! stableId p = None) peers /\
  d = foldl (fun d p => <[stableId p := p]> d) acc peers.
Proof.
  induction peers as [|p peers IH]; intros acc d; cbn [replace_loop].
  - intros <-%Ok_inj. split_and!; constructor.
  - intros ([]&Hv&H)%result_bind_Ok. destruct (acc !! stableId p) eqn:Ep; [done|].
    destruct (IH _ _ H) as (Hvs&Hnd&Hacc&->). rewrite list.Forall_forall in Hacc. split_and!.
    + by constructor.
    + rewrite fmap_cons. constructor; [|done]. intros (q&Eq&Hq%Hacc)%list_elem_of_fmap.
      by rewrite <- Eq, lookup_insert_eq in Hq.
    + constructor; [done|]. apply list.Forall_forall. intros q Hq%Hacc.
      destruct (decide (stableId p = stableId q)) as [E|]; [by rewrite E, lookup_insert_eq in Hq|].
      by rewrite lookup_insert_ne in Hq.
    + done.
Qed.

(** A full netmap either replaces the directory by exactly its peers, each
    under its stable identifier, or is rejected and changes nothing. *)
Lemma replace_spec peers dir :
  match replace peers dir with
  | (Err _, dir') => dir' = dir
  | (Ok _, dir') => dir_wf dir' /\ NoDup (stableId <$> peers) /\
      forall id, findByStableId id dir' = find_peer id peers
  end.
Proof.
  unfold replace. destruct (Z.ltb_spec kMaxPeers (zlen peers)) as [|Hs]; [done|].
  destruct (replace_loop peers ∅) as [d|e] eqn:E; [|done].
  apply replace_loop_spec in E as (Hv&Hnd&_&->).
  assert (forall id, foldl (fun d p => <[stableId p := p]> d) (∅ : PeerDirectory) peers !! id
    = find_peer id peers) as Hl.
  { intros id. rewrite lookup_foldl_insert by done. by destruct (find_peer id peers). }
  split_and!; [|done|exact Hl]. split.
  - intros id p. rewrite Hl. intros Ef. apply List.find_some in Ef as [Hin Eid].
    apply bool_decide_eq_true in Eid. rewrite list.Forall_forall in Hv.
    split; [done|]. by apply Hv, list_elem_of_In.
  - rewrite <- size_dom, dom_foldl_insert, dom_empty_L.
    assert (forall l (s : gset bytes), (size (foldl (fun s p => {[stableId p]} ∪ s) s l) <= length l + size s)%nat) as Hsz.
    { induction l as [|p l IH]; intros s; cbn [foldl]; [done|].
      etransitivity; [apply IH|]. pose proof (size_union_alt {[stableId p]} s).
      pose proof (subseteq_size (s ∖ {[stableId p]}) s ltac:(set_solver)).
      rewrite size_singleton in *. simpl. lia. }
    specialize (Hsz peers ∅). rewrite size_empty in Hsz. unfold zlen in Hs. lia.
Qed.

(** ** A tailnet: a host, and two routers that share a LAN *)

Definition sample_peer (id : string) (addr : string) (nets : list bytes) (up : bool) : Peer :=
  {| stableId := bs id; nodeKey := []; discoKey := []; hostname := bs id; addresses := [bs addr];
     allowedIPs := nets; endpoints := []; homeDerp := 1; online := up; os := []; tcpServicePorts := [];
     servicesKnown := false |}.

Definition sample_dir : PeerDirectory :=
  list_to_map ((fun p => (stableId p, p)) <$>
    [sample_peer "pc" "100.64.0.2" [bs "100.64.0.2/32"] true;
     sample_peer "router1" "100.64.0.3" [bs "192.168.0.0/16"; bs "192.168.1.0/24"] false;
     sample_peer "router2" "100.64.0.4" [bs "192.168.1.0/24"] true]).

Lemma resolveIPv4_routes_witness :
  routes sample_dir (bs "192.168.1.7") (resolveIPv4 (map_to_list sample_dir) (bs "192.168.1.7")) /\
  resolveIPv4 (map_to_list sample_dir) (bs "192.168.1.7")
  = Some (proxy_target (bs "router2") (bs "100.64.0.4") (bs "192.168.1.7")).
Proof.
  split; [apply (resolveIPv4_routes sample_dir (map_to_list sample_dir)); reflexivity|].
  vm_compute. reflexivity.
Defined.

Lemma sample_dir_wf : dir_wf sample_dir.
Proof.
  split; [|vm_compute; discriminate].
  unfold sample_dir. cbn [fmap list_fmap list_to_map foldr uncurry fst snd].
  do 3 (apply map_Forall_insert_2; [by split|]). apply map_Forall_empty.
Qed.

Lemma apply_delta_witness :
  let delta := {| changed := [sample_peer "tv" "100.64.0.9" [] true]; removedStableIds := [bs "router1"];
                  onlineChanges := [{| oc_stableId := bs "pc"; oc_online := false |}] |} in
  match apply delta sample_dir with
  | (Err _, dir') => dir' = sample_dir
  | (Ok _, dir') => dir_wf dir' /\ forall id, findByStableId id dir' = delta_entry delta sample_dir id
  end.
Proof. intros delta. apply (apply_delta delta sample_dir sample_dir_wf). Defined.
