(* ===== verification/Noise.v ===== *)
(** The TS2021 Noise transport ([TailscaleNoise.hpp], [TailscaleNoise.cpp]): the
    client half of the IK handshake and the record layer. BLAKE2s, X25519 and
    ChaCha20-Poly1305 belong to Monocypher and the BLAKE2 reference code, which
    are not part of the repository: they are parameters. *)

From S2P Require Import Prelude Bytes Text Box.

Definition kProtocolVersion : Z := 1.
Definition kInitiationSize : nat := 101.
Definition kResponseSize : nat := 51.
Definition kMaxRecordSize : nat := Z.to_nat 4096.
Definition kMaxPlaintextSize : nat := Z.to_nat 4077.
Definition kProtocolName : bytes := bs "Noise_IK_25519_ChaChaPoly_BLAKE2s".
Definition kProloguePrefix : bytes := bs "Tailscale Control Protocol v".
Definition kMaxBufferedCiphertext : nat := Z.to_nat (64 * 1024).

(** What the code calls of the two libraries. [aead_write] gives the ciphertext
    and the tag; [aead_read] the plaintext, or nothing when the tag is wrong. *)
Class NoiseCrypto := {
  blake2s : bytes -> bytes;
  x25519 : bytes -> bytes -> bytes;
  x25519_public : bytes -> bytes;
  aead_write : bytes -> bytes -> bytes -> bytes -> bytes * bytes;
  aead_read : bytes -> bytes -> bytes -> bytes -> bytes -> option bytes;
}.

Record NoiseClient := {
  machinePrivate_ : bytes;
  controlPublic_ : bytes;
  ephemeralPrivate_ : bytes;
  chainingKey_ : bytes;
  hash_ : bytes;
  txKey_ : bytes;
  rxKey_ : bytes;
  protocolVersion_ : Z;
  txNonce_ : Z;
  rxNonce_ : Z;
  begun_ : bool;
  ready_ : bool;
  receiveBuffer_ : bytes;
}.

Definition zero_key : bytes := replicate 32 Init.Byte.x00.

Definition noise_client (machinePrivate controlPublic ephemeralPrivate : bytes) (version : Z)
  : NoiseClient :=
  {| machinePrivate_ := machinePrivate; controlPublic_ := controlPublic;
     ephemeralPrivate_ := ephemeralPrivate; chainingKey_ := zero_key; hash_ := zero_key;
     txKey_ := zero_key; rxKey_ := zero_key; protocolVersion_ := version; txNonce_ := 0;
     rxNonce_ := 0; begun_ := false; ready_ := false; receiveBuffer_ := [] |}.

(** Field updates. *)
Definition set_symmetric (s : NoiseClient) (ck h : bytes) : NoiseClient :=
  {| machinePrivate_ := machinePrivate_ s; controlPublic_ := controlPublic_ s;
     ephemeralPrivate_ := ephemeralPrivate_ s; chainingKey_ := ck; hash_ := h;
     txKey_ := txKey_ s; rxKey_ := rxKey_ s; protocolVersion_ := protocolVersion_ s;
     txNonce_ := txNonce_ s; rxNonce_ := rxNonce_ s; begun_ := begun_ s; ready_ := ready_ s;
     receiveBuffer_ := receiveBuffer_ s |}.
Definition set_flags (s : NoiseClient) (b r : bool) : NoiseClient :=
  {| machinePrivate_ := machinePrivate_ s; controlPublic_ := controlPublic_ s;
     ephemeralPrivate_ := ephemeralPrivate_ s; chainingKey_ := chainingKey_ s; hash_ := hash_ s;
     txKey_ := txKey_ s; rxKey_ := rxKey_ s; protocolVersion_ := protocolVersion_ s;
     txNonce_ := txNonce_ s; rxNonce_ := rxNonce_ s; begun_ := b; ready_ := r;
     receiveBuffer_ := receiveBuffer_ s |}.
Definition set_keys (s : NoiseClient) (tx rx : bytes) : NoiseClient :=
  {| machinePrivate_ := machinePrivate_ s; controlPublic_ := controlPublic_ s;
     ephemeralPrivate_ := ephemeralPrivate_ s; chainingKey_ := chainingKey_ s; hash_ := hash_ s;
     txKey_ := tx; rxKey_ := rx; protocolVersion_ := protocolVersion_ s;
     txNonce_ := 0; rxNonce_ := 0; begun_ := begun_ s; ready_ := ready_ s;
     receiveBuffer_ := receiveBuffer_ s |}.
Definition set_records (s : NoiseClient) (tx rx : Z) (buf : bytes) : NoiseClient :=
  {| machinePrivate_ := machinePrivate_ s; controlPublic_ := controlPublic_ s;
     ephemeralPrivate_ := ephemeralPrivate_ s; chainingKey_ := chainingKey_ s; hash_ := hash_ s;
     txKey_ := txKey_ s; rxKey_ := rxKey_ s; protocolVersion_ := protocolVersion_ s;
     txNonce_ := tx; rxNonce_ := rx; begun_ := begun_ s; ready_ := ready_ s;
     receiveBuffer_ := buf |}.

Section noise.
Context `{NoiseCrypto}.

Definition hashParts (first second : bytes) : bytes := blake2s (first ++ second).

Definition hmac (key data : bytes) : bytes :=
  let base := if (64 <? length key)%nat then hashParts key [] else key in
  let padded := take 64 (base ++ replicate 64 Init.Byte.x00) in
  let innerPad := (fun b => bxor b (u8 0x36)) <$> padded in
  let outerPad := (fun b => bxor b (u8 0x5c)) <$> padded in
  let inner := hashParts innerPad data in
  hashParts outerPad inner.

Definition hkdf2 (salt input : bytes) : bytes * bytes :=
  let prk := hmac salt input in
  let first := hmac prk [u8 1] in
  let second := hmac prk (first ++ [u8 2]) in
  (first, second).

Definition nonceBytes (nonce : Z) : bytes :=
  replicate 4 Init.Byte.x00 ++ ((fun i => u8 (Z.shiftr nonce (8 * (7 - Z.of_nat i)))) <$> seq 0 8).

(** The buffers' sizes agree at every call, so the size tests never fail. *)
Definition encrypt (key : bytes) (nonce : Z) (ad plaintext : bytes) : bytes :=
  let '(ct, tag) := aead_write key (nonceBytes nonce) ad plaintext in ct ++ tag.

Definition decrypt (key : bytes) (nonce : Z) (ad ciphertextAndTag : bytes) : option bytes :=
  let n := (length ciphertextAndTag - 16)%nat in
  aead_read key (nonceBytes nonce) ad (take n ciphertextAndTag) (drop n ciphertextAndTag).

Definition appendBigEndian16 (output : bytes) (value : Z) : bytes :=
  output ++ [u8 (Z.shiftr value 8); u8 value].

Definition fail (s : NoiseClient) : NoiseClient :=
  if begun_ s then set_flags s true false else s.

Definition mixHash (data : bytes) (s : NoiseClient) : NoiseClient :=
  set_symmetric s (chainingKey_ s) (hashParts (hash_ s) data).

(** The derived cipher key, and the state. *)
Definition mixDh (privateKey publicKey : bytes) (s : NoiseClient) : result bytes * NoiseClient :=
  let shared := x25519 privateKey publicKey in
  if all_zero shared then (Err "invalid TS2021 X25519 peer key", fail s)
  else
    let '(ck, k) := hkdf2 (chainingKey_ s) shared in
    (Ok k, set_symmetric s ck (hash_ s)).

Definition begin_ (s : NoiseClient) : result bytes * NoiseClient :=
  if begun_ s || (protocolVersion_ s =? 0)
  then (Err "invalid TS2021 handshake state", fail s)
  else
    let h := hashParts [] kProtocolName in
    let s := set_symmetric s h h in
    let s := mixHash (kProloguePrefix ++ to_string (protocolVersion_ s)) s in
    let s := mixHash (controlPublic_ s) s in
    let ephemeralPublic := x25519_public (ephemeralPrivate_ s) in
    let machinePublic := x25519_public (machinePrivate_ s) in
    let s := mixHash ephemeralPublic s in
    match mixDh (ephemeralPrivate_ s) (controlPublic_ s) s with
    | (Err e, s) => (Err e, s)
    | (Ok cipherKey, s) =>
        let encryptedMachine := encrypt cipherKey 0 (hash_ s) machinePublic in
        let s := mixHash encryptedMachine s in
        match mixDh (machinePrivate_ s) (controlPublic_ s) s with
        | (Err e, s) => (Err e, s)
        | (Ok cipherKey, s) =>
            let tag := encrypt cipherKey 0 (hash_ s) [] in
            let s := mixHash tag s in
            let initiation := appendBigEndian16 [] (protocolVersion_ s) ++ [u8 1] in
            let initiation := appendBigEndian16 initiation 96 in
            (Ok (initiation ++ ephemeralPublic ++ encryptedMachine ++ tag),
             set_flags s true (ready_ s))
        end
    end.

Definition split (s : NoiseClient) : NoiseClient :=
  let '(tx, rx) := hkdf2 (chainingKey_ s) [] in set_keys s tx rx.

Definition complete (response : bytes) (s : NoiseClient) : result unit * NoiseClient :=
  if negb (begun_ s) || ready_ s || negb (length response =? kResponseSize)%nat ||
     negb (byte_at response 0 =? 2) || negb (byte_at response 1 =? 0) ||
     negb (byte_at response 2 =? 48)
  then (Err "invalid TS2021 handshake response", fail s)
  else
    let controlEphemeral := take 32 (drop 3 response) in
    let s := mixHash controlEphemeral s in
    match mixDh (ephemeralPrivate_ s) controlEphemeral s with
    | (Err e, s) => (Err e, s)
    | (Ok _, s) =>
        match mixDh (machinePrivate_ s) controlEphemeral s with
        | (Err e, s) => (Err e, s)
        | (Ok cipherKey, s) =>
            let tag := take 16 (drop 35 response) in
            match decrypt cipherKey 0 (hash_ s) tag with
            | None => (Err "TS2021 response authentication failed", fail s)
            | Some _ =>
                let s := split (mixHash tag s) in
                (Ok tt, set_flags s (begun_ s) true)
            end
        end
    end.

(** The loop of [frame], from [offset]: the bytes appended and the nonce. *)
Fixpoint frame_loop (fuel : nat) (plaintext : bytes) (offset : nat) (key : bytes) (nonce : Z)
  : bytes * Z :=
  match fuel with
  | O => ([], nonce)
  | S k =>
      if (offset <? length plaintext)%nat then
        let len := Nat.min kMaxPlaintextSize (length plaintext - offset) in
        let ciphertextLength := Z.of_nat len + 16 in
        let record := appendBigEndian16 [u8 4] (u16 ciphertextLength) ++
          encrypt key nonce [] (substr offset len plaintext) in
        let '(rest, nonce) := frame_loop k plaintext (offset + len) key (u64 (nonce + 1)) in
        (record ++ rest, nonce)
      else ([], nonce)
  end.

Definition frame (plaintext : bytes) (s : NoiseClient) : result bytes * NoiseClient :=
  if negb (ready_ s) then (Err "TS2021 session is not ready", fail s)
  else
    let '(framed, nonce) := frame_loop (S (length plaintext)) plaintext 0 (txKey_ s) (txNonce_ s) in
    (Ok framed, set_records s nonce (rxNonce_ s) (receiveBuffer_ s)).

(** The loop of [consume]: the verdict, the records decoded, the offset and the
    nonce it leaves. [None] when the fuel ends first. *)
Fixpoint consume_loop (fuel : nat) (buf : bytes) (offset : nat) (key : bytes) (nonce : Z)
  : option (result unit * list bytes * nat * Z) :=
  match fuel with
  | O => None
  | S k =>
      if (3 <=? length buf - offset)%nat then
        if negb (byte_at buf offset =? 4)
        then Some (Err "unexpected TS2021 record type", [], offset, nonce)
        else
          let len := Z.to_nat (Z.lor (Z.shiftl (byte_at buf (offset + 1)) 8) (byte_at buf (offset + 2))) in
          if (len <? 16)%nat || (kMaxRecordSize - 3 <? len)%nat
          then Some (Err "invalid TS2021 record length", [], offset, nonce)
          else if (length buf - offset <? 3 + len)%nat then Some (Ok tt, [], offset, nonce)
          else
            match decrypt key nonce [] (substr (offset + 3) len buf) with
            | None => Some (Err "TS2021 record authentication failed", [], offset, u64 (nonce + 1))
            | Some decoded =>
                '(r, ps, o, n) ← consume_loop k buf (offset + (3 + len)) key (u64 (nonce + 1));
                Some (r, decoded :: ps, o, n)
            end
      else Some (Ok tt, [], offset, nonce)
  end.

(** The plaintexts are appended to [*plaintext] even when a later record fails,
    in which case the receive buffer is not trimmed. *)
Definition consume (data : bytes) (s : NoiseClient) : option (result unit * list bytes * NoiseClient) :=
  if negb (ready_ s) || (kMaxBufferedCiphertext <? length (receiveBuffer_ s) + length data)%nat
  then Some (Err "invalid or oversized TS2021 receive buffer", [], fail s)
  else
    let buf := receiveBuffer_ s ++ data in
    '(r, ps, offset, nonce) ← consume_loop (S (length buf)) buf 0 (rxKey_ s) (rxNonce_ s);
    match r with
    | Err e => Some (Err e, ps, fail (set_records s (txNonce_ s) nonce buf))
    | Ok _ => Some (Ok tt, ps, set_records s (txNonce_ s) nonce (drop offset buf))
    end.
End noise.

(** ** What the libraries promise *)
Class NoiseLaws `{NoiseCrypto} := {
  blake2s_length : forall m, length (blake2s m) = 32%nat;
  x25519_public_length : forall a, length (x25519_public a) = 32%nat;
  x25519_agree : forall a b, x25519 a (x25519_public b) = x25519 b (x25519_public a);
  aead_write_length : forall k n ad p,
    length (aead_write k n ad p).1 = length p /\ length (aead_write k n ad p).2 = 16%nat;
  aead_read_write : forall k n ad p,
    aead_read k n ad (aead_write k n ad p).1 (aead_write k n ad p).2 = Some p;
}.

Section records.
Context `{NoiseLaws}.

Lemma length_encrypt k n ad p : length (encrypt k n ad p) = (length p + 16)%nat.
Proof.
  unfold encrypt. pose proof (aead_write_length k (nonceBytes n) ad p) as [? ?].
  destruct (aead_write _ _ _ _) as [ct tag]. simpl in *. rewrite length_app. lia.
Qed.

Lemma decrypt_encrypt k n ad p : decrypt k n ad (encrypt k n ad p) = Some p.
Proof.
  unfold decrypt. rewrite length_encrypt, Nat.add_sub. unfold encrypt.
  pose proof (aead_write_length k (nonceBytes n) ad p) as [H1 H2].
  pose proof (aead_read_write k (nonceBytes n) ad p) as H3.
  destruct (aead_write _ _ _ _) as [ct tag]. simpl in *.
  by rewrite <- H1, take_app_length, drop_app_length.
Qed.

(** The record that carries [p] under nonce [n], and a run of records. *)
Definition record (key : bytes) (n : Z) (p : bytes) : bytes :=
  u8 4 :: be_bytes 2 (Z.of_nat (length p) + 16) ++ encrypt key n [] p.

Fixpoint wire (key : bytes) (n : Z) (ps : list bytes) : bytes :=
  match ps with [] => [] | p :: ps => record key n p ++ wire key (n + 1) ps end.

Definition fits (p : bytes) : Prop := (length p <= kMaxPlaintextSize)%nat.

Lemma length_record key n p : length (record key n p) = (19 + length p)%nat.
Proof. unfold record. simpl. rewrite length_app, length_be_bytes, length_encrypt. lia. Qed.

Lemma wire_app key ps qs : forall n,
  wire key n (ps ++ qs) = wire key n ps ++ wire key (n + zlen ps) qs.
Proof.
  induction ps as [|p ps IH]; intros n; cbn [wire app]; [zl; by rewrite Z.add_0_r|].
  rewrite IH, app_assoc. do 2 f_equal. zl.
Qed.

(** A piece of a record that lacks its last bytes. *)
Definition partial (key : bytes) (n : Z) (t : bytes) : Prop :=
  t = [] \/ exists p q, fits p /\ q <> [] /\ t ++ q = record key n p.

Lemma record_header key n p r : fits p ->
  exists b1 b2, record key n p ++ r = u8 4 :: b1 :: b2 :: encrypt key n [] p ++ r /\
    Z.lor (Z.shiftl (ub b1) 8) (ub b2) = Z.of_nat (length p) + 16.
Proof.
  intros Hp. unfold fits, kMaxPlaintextSize in Hp. unfold record.
  pose proof (length_be_bytes 2 (Z.of_nat (length p) + 16)) as Hl.
  pose proof (be_value_bytes 2 (Z.of_nat (length p) + 16) ltac:(lia)) as Hv.
  destruct (be_bytes 2 _) as [|b1 [|b2 [|]]]; try done.
  exists b1, b2. split; [done|]. by rewrite be16_lor.
Qed.

(** Reading at an offset is reading what is left. *)
Lemma byte_at_drop (l : bytes) o i : byte_at l (o + i) = byte_at (drop o l) i.
Proof. unfold byte_at. by rewrite lookup_total_drop. Qed.

Lemma consume_loop_step k pre p tail key n : fits p ->
  consume_loop (S k) (pre ++ record key n p ++ tail) (length pre) key n =
  ('(r, ps, o, m) ← consume_loop k (pre ++ record key n p ++ tail)
      (length pre + length (record key n p)) key (u64 (n + 1));
   Some (r, p :: ps, o, m)).
Proof.
  intros Hp. destruct (record_header key n p tail Hp) as (b1&b2&E&Hlen).
  pose proof (length_record key n p) as Hr.
  assert (length (pre ++ record key n p ++ tail) - length pre = 19 + length p + length tail)%nat as Hl.
  { rewrite !length_app, Hr. lia. }
  cbn [consume_loop]. rewrite Hl. destruct (Nat.leb_spec 3 (19 + length p + length tail)); [|lia].
  rewrite <- (Nat.add_0_r (length pre)) at 1. rewrite !byte_at_drop, drop_app_length, E.
  unfold byte_at. cbn [lookup_total list_lookup_total]. rewrite Hlen.
  change (ub (u8 4) =? 4) with true. cbn [negb].
  replace (Z.to_nat (Z.of_nat (length p) + 16)) with (length p + 16)%nat by lia.
  unfold fits, kMaxPlaintextSize in Hp. unfold kMaxRecordSize.
  destruct (Nat.ltb_spec (length p + 16) 16); [lia|].
  destruct (Nat.ltb_spec (Z.to_nat 4096 - 3) (length p + 16)); [lia|]. cbn [orb].
  destruct (Nat.ltb_spec (19 + length p + length tail) (3 + (length p + 16))); [lia|].
  assert (substr (length pre + 3) (length p + 16) (pre ++ record key n p ++ tail) = encrypt key n [] p) as Hsub.
  { unfold substr. rewrite <- drop_drop, drop_app_length, E. cbn [drop]. rewrite drop_0.
    rewrite take_app_length'; [done|by rewrite length_encrypt]. }
  rewrite E in Hsub. rewrite Hsub, decrypt_encrypt. rewrite Hr. do 2 f_equal. lia.
Qed.

Lemma consume_loop_partial k pre t key n : partial key n t ->
  consume_loop (S k) (pre ++ t) (length pre) key n = Some (Ok tt, [], length pre, n).
Proof.
  intros Ht. cbn [consume_loop]. rewrite length_app.
  replace (length pre + length t - length pre)%nat with (length t) by lia.
  destruct (Nat.leb_spec 3 (length t)) as [H3|]; [|done].
  destruct Ht as [->|(p&q&Hp&Hq&E)]; [simpl in H3; lia|].
  destruct (record_header key n p [] Hp) as (b1&b2&E'&Hlen). rewrite app_nil_r in E'. rewrite E' in E.
  pose proof (length_record key n p) as Hr. rewrite E' in Hr. rewrite <- E, length_app in Hr.
  destruct t as [|x [|y [|z t]]]; try (simpl in H3; lia). injection E as -> -> -> E.
  rewrite <- (Nat.add_0_r (length pre)) at 1. rewrite !byte_at_drop, drop_app_length.
  unfold byte_at. cbn [lookup_total list_lookup_total]. rewrite Hlen.
  change (ub (u8 4) =? 4) with true. cbn [negb].
  replace (Z.to_nat (Z.of_nat (length p) + 16)) with (length p + 16)%nat by lia.
  unfold fits, kMaxPlaintextSize in Hp. unfold kMaxRecordSize.
  destruct (Nat.ltb_spec (length p + 16) 16); [lia|].
  destruct (Nat.ltb_spec (Z.to_nat 4096 - 3) (length p + 16)); [lia|]. cbn [orb].
  destruct q; [done|].
  destruct (Nat.ltb_spec (length (u8 4 :: b1 :: b2 :: t)) (3 + (length p + 16))); [done|].
  simpl in *. lia.
Qed.

Lemma consume_loop_wire ps : forall k pre t key n, Forall fits ps ->
  0 <= n -> n + zlen ps < 2 ^ 64 -> partial key (n + zlen ps) t -> (length ps < k)%nat ->
  consume_loop k (pre ++ wire key n ps ++ t) (length pre) key n
  = Some (Ok tt, ps, (length pre + length (wire key n ps))%nat, n + zlen ps).
Proof.
  induction ps as [|p ps IH]; intros [|k] pre t key n Hf Hn Hb Ht Hk; try lia.
  - cbn [wire app]. rewrite consume_loop_partial by by (rewrite Z.add_0_r in Ht).
    cbn [length]. by rewrite Nat.add_0_r, Z.add_0_r.
  - apply Forall_cons_1 in Hf as [Hp Hf]. pose proof (zlen_nonneg ps).
    rewrite zlen_cons in Hb, Ht. cbn [wire]. rewrite <- app_assoc.
    rewrite consume_loop_step by done. unfold u64. rewrite Z.mod_small by lia.
    rewrite app_assoc, <- length_app.
    rewrite IH; [|done|lia|lia| |simpl in Hk; lia].
    + cbn [mbind option_bind]. rewrite !length_app, zlen_cons. do 2 f_equal; [f_equal; lia|lia].
    + by replace (n + 1 + zlen ps) with (n + (1 + zlen ps)) by lia.
Qed.

(** A buffer that starts a run of records: whole records, then part of one. *)
Lemma wire_split ps : forall key n b s, Forall fits ps -> b ++ s = wire key n ps ->
  exists ps1 ps2 t, ps = ps1 ++ ps2 /\ b = wire key n ps1 ++ t /\
    partial key (n + zlen ps1) t /\ t ++ s = wire key (n + zlen ps1) ps2.
Proof.
  induction ps as [|p ps IH]; intros key n b s Hf E; cbn [wire] in E.
  - apply app_eq_nil in E as [-> ->]. exists [], [], []. split_and!; try done. by left.
  - apply Forall_cons_1 in Hf as [Hp Hf].
    apply app_eq_app in E as (l&[(->&E)|(E&->)]).
    + destruct (IH key (n + 1) l s Hf (eq_sym E)) as (ps1&ps2&t&->&->&Ht&Es).
      exists (p :: ps1), ps2, t. rewrite zlen_cons. rewrite Z.add_assoc. cbn [wire].
      split_and!; try done. by rewrite app_assoc.
    + destruct l as [|x l].
      * rewrite app_nil_r in E. subst b. exists [p], ps, []. cbn [wire]. rewrite !app_nil_r.
        change (zlen [p]) with 1. split_and!; try done. by left.
      * exists [], (p :: ps), b. cbn [wire app]. rewrite zlen_nil, Z.add_0_r. split_and!; try done.
        -- right. by exists p, (x :: l).
        -- by rewrite E, <- app_assoc.
Qed.

Lemma length_partial key n t : partial key n t -> (length t <= kMaxRecordSize)%nat.
Proof.
  intros [->|(p&q&Hp&_&E)]; [simpl; lia|]. apply (f_equal length) in E.
  rewrite length_app, length_record in E. unfold fits, kMaxPlaintextSize, kMaxRecordSize in *. lia.
Qed.

(** A proper part of a record is not a sequence of records. *)
Lemma wire_partial_nil key n b ps : partial key n b -> Forall fits ps -> b = wire key n ps -> ps = [].
Proof.
  intros Hp Hf E. destruct ps as [|p ps]; [done|]. exfalso. cbn [wire] in E. destruct Hp as [Hp|(p'&q&Hp'&Hq&E')].
  - rewrite Hp in E. unfold record in E. done.
  - apply list.Forall_cons in Hf as [Hfp _].
    destruct (record_header key n p (wire key (n + 1) ps) Hfp) as (b1&b2&E1&L1).
    destruct (record_header key n p' [] Hp') as (c1&c2&E2&L2).
    rewrite app_nil_r in E2.
    assert (length b < length (record key n p'))%nat as Hlt.
    { rewrite <- E', length_app. destruct q; [done|]. simpl. lia. }
    rewrite E in Hlt, E'. rewrite E1, E2 in E'. injection E' as -> -> E'.
    assert (length p = length p') as Hpp by lia.
    rewrite length_app, !length_record in Hlt. lia.
Qed.

(** Feeding a sequence of chunks, stopping at the first error. *)
Fixpoint consume_all (chunks : list bytes) (s : NoiseClient) : option (result unit * list bytes * NoiseClient) :=
  match chunks with
  | [] => Some (Ok tt, [], s)
  | c :: cs =>
      '(r, ps, s) ← consume c s;
      match r with
      | Err e => Some (Err e, ps, s)
      | Ok _ => '(r, qs, s) ← consume_all cs s; Some (r, ps ++ qs, s)
      end
  end.

Lemma consume_stream c s ps rest n : ready_ s = true -> rxNonce_ s = n ->
  partial (rxKey_ s) n (receiveBuffer_ s) -> Forall fits ps -> 0 <= n -> n + zlen ps < 2 ^ 64 ->
  (length c <= kMaxBufferedCiphertext - kMaxRecordSize)%nat ->
  receiveBuffer_ s ++ c ++ rest = wire (rxKey_ s) n ps ->
  exists ps1 ps2 t, ps = ps1 ++ ps2 /\
    consume c s = Some (Ok tt, ps1, set_records s (txNonce_ s) (n + zlen ps1) t) /\
    partial (rxKey_ s) (n + zlen ps1) t /\ t ++ rest = wire (rxKey_ s) (n + zlen ps1) ps2.
Proof.
  intros Hr Hn Hp Hf Hge Hb Hc E. rewrite app_assoc in E.
  destruct (wire_split ps _ _ _ _ Hf E) as (ps1&ps2&t&->&Eb&Ht&Es).
  exists ps1, ps2, t. split_and!; try done. apply length_partial in Hp.
  unfold consume. rewrite Hr. cbn [negb orb].
  assert (kMaxRecordSize <= kMaxBufferedCiphertext)%nat as Hcap by (unfold kMaxRecordSize, kMaxBufferedCiphertext; lia).
  destruct (Nat.ltb_spec kMaxBufferedCiphertext (length (receiveBuffer_ s) + length c)); [lia|].
  rewrite Eb, Hn. apply list.Forall_app in Hf as [Hf1 Hf2]. pose proof (zlen_nonneg ps2).
  rewrite zlen_app in Hb.
  assert (forall key m qs, (length qs <= length (wire key m qs))%nat) as Hlen.
  { intros key m qs. revert m. induction qs as [|q qs IHq]; intros m; cbn [wire]; [done|].
    rewrite length_app, length_record. specialize (IHq (m + 1)). simpl. lia. }
  pose proof (consume_loop_wire ps1 (S (length (wire (rxKey_ s) n ps1 ++ t))) [] t (rxKey_ s) n Hf1 Hge
    ltac:(lia) Ht) as Hloop.
  cbn [app length] in Hloop. rewrite Hloop.
  2: { rewrite length_app. specialize (Hlen (rxKey_ s) n ps1). lia. }
  cbn [mbind option_bind]. by rewrite Nat.add_0_l, drop_app_length.
Qed.

Lemma consume_all_wire chunks : forall s ps n, ready_ s = true -> rxNonce_ s = n ->
  partial (rxKey_ s) n (receiveBuffer_ s) -> Forall fits ps -> 0 <= n -> n + zlen ps < 2 ^ 64 ->
  Forall (fun c => length c <= kMaxBufferedCiphertext - kMaxRecordSize)%nat chunks ->
  receiveBuffer_ s ++ concat chunks = wire (rxKey_ s) n ps ->
  exists t, consume_all chunks s = Some (Ok tt, ps, set_records s (txNonce_ s) (n + zlen ps) t) /\ t = [].
Proof.
  induction chunks as [|c cs IH]; intros s ps n Hr Hn Hp Hf Hge Hb Hc E.
  - cbn [concat consume_all] in *. rewrite app_nil_r in E.
    destruct ps as [|p ps].
    + cbn [wire] in E. exists (receiveBuffer_ s). split; [|done]. subst n. destruct s. cbn in *.
      unfold set_records. cbn. by rewrite zlen_nil, Z.add_0_r.
    + by pose proof (wire_partial_nil _ _ _ _ Hp Hf E).
  - apply list.Forall_cons in Hc as [Hc Hcs]. cbn [concat] in E.
    destruct (consume_stream c s ps (concat cs) n Hr Hn Hp Hf Hge Hb Hc E) as (ps1&ps2&t&->&Ec&Ht&Es).
    apply list.Forall_app in Hf as [Hf1 Hf2]. pose proof (zlen_nonneg ps1). rewrite zlen_app in Hb.
    destruct (IH (set_records s (txNonce_ s) (n + zlen ps1) t) ps2 (n + zlen ps1))
      as (t'&E'&->); try done; [lia|lia|].
    exists []. split; [|done]. cbn [consume_all]. rewrite Ec. cbn [mbind option_bind]. rewrite E'.
    cbn [mbind option_bind]. rewrite zlen_app, Z.add_assoc. done.
Qed.

(** What [frame] writes: the plaintext cut into records of at most 4077 bytes. *)
Fixpoint pieces (fuel : nat) (l : bytes) : list bytes :=
  match fuel, l with
  | S k, _ :: _ => take kMaxPlaintextSize l :: pieces k (drop kMaxPlaintextSize l)
  | _, _ => []
  end.

Lemma pieces_spec fuel : forall l, (length l < fuel)%nat ->
  concat (pieces fuel l) = l /\ Forall fits (pieces fuel l) /\ (length (pieces fuel l) <= length l)%nat.
Proof.
  assert (0 < kMaxPlaintextSize)%nat as Hpos by (unfold kMaxPlaintextSize; lia).
  induction fuel as [|k IH]; intros l Hl; [lia|]. destruct l as [|x l]; [by split_and!|].
  cbn [pieces]. destruct (IH (drop kMaxPlaintextSize (x :: l))) as (E&F&L).
  { rewrite length_drop. simpl in *. lia. }
  cbn [concat]. rewrite E, take_drop. split_and!; [done| |].
  - constructor; [|done]. unfold fits. rewrite length_take. lia.
  - rewrite length_drop in L. simpl in *. lia.
Qed.

Lemma frame_loop_spec fuel : forall pt offset key n, (length pt - offset < fuel)%nat -> 0 <= n ->
  n + zlen (pieces fuel (drop offset pt)) < 2 ^ 64 ->
  frame_loop fuel pt offset key n =
  (wire key n (pieces fuel (drop offset pt)), n + zlen (pieces fuel (drop offset pt))).
Proof.
  assert (0 < kMaxPlaintextSize)%nat as Hpos by (unfold kMaxPlaintextSize; lia).
  induction fuel as [|k IH]; intros pt offset key n Hf Hn Hb; [lia|]. cbn [frame_loop].
  pose proof (length_drop pt offset) as Hld.
  destruct (Nat.ltb_spec offset (length pt)) as [Hlt|].
  2: { rewrite drop_ge by done. cbn [pieces wire]. by rewrite Z.add_0_r. }
  destruct (drop offset pt) as [|x r] eqn:Ed; [simpl in Hld; lia|]. rewrite <- Ed in *.
  assert (pieces (S k) (drop offset pt) = take kMaxPlaintextSize (drop offset pt) ::
    pieces k (drop (offset + kMaxPlaintextSize) pt)) as Ep.
  { rewrite <- drop_drop. by rewrite Ed. }
  rewrite Ep in *. rewrite zlen_cons in *.
  set (len := Nat.min kMaxPlaintextSize (length pt - offset)).
  assert (drop (offset + len) pt = drop (offset + kMaxPlaintextSize) pt) as Edrop.
  { unfold len. destruct (Nat.min_spec kMaxPlaintextSize (length pt - offset)) as [[_ ->]|[Hm ->]]; [done|].
    by rewrite !drop_ge by lia. }
  pose proof (zlen_nonneg (pieces k (drop (offset + kMaxPlaintextSize) pt))).
  unfold u64. rewrite Z.mod_small by lia.
  rewrite IH; rewrite ?Edrop; [|unfold len; lia|lia|lia].
  cbn [wire]. f_equal; [|lia]. f_equal. unfold record, appendBigEndian16.
  assert (substr offset len pt = take kMaxPlaintextSize (drop offset pt)) as ->.
  { unfold substr, len. destruct (Nat.min_spec kMaxPlaintextSize (length pt - offset)) as [[_ ->]|[Hm ->]]; [done|].
    rewrite !take_ge; [done|rewrite length_drop; lia..]. }
  assert (length (take kMaxPlaintextSize (drop offset pt)) = len) as -> by (rewrite length_take, length_drop; done).
  assert (Z.of_nat len <= 4077) by (unfold len, kMaxPlaintextSize; lia).
  unfold u16. rewrite (Z.mod_small (Z.of_nat len + 16)) by lia.
  rewrite <- be16_put, land_255, u8_mod. done.
Qed.

(** C31: the record layer is a reliable stream: what one end frames, the other end
    reads back, cut into any chunks of at most 61440 bytes. The receiver holds
    the sender's key and nonce; both ends stay in step, and nothing is left in
    the buffer. *)
Theorem noise_stream (sender receiver : NoiseClient) plaintext framed sender' chunks :
  ready_ receiver = true -> receiveBuffer_ receiver = [] ->
  rxKey_ receiver = txKey_ sender -> rxNonce_ receiver = txNonce_ sender ->
  0 <= txNonce_ sender -> txNonce_ sender + zlen plaintext < 2 ^ 64 ->
  frame plaintext sender = (Ok framed, sender') ->
  Forall (fun c => length c <= kMaxBufferedCiphertext - kMaxRecordSize)%nat chunks ->
  concat chunks = framed ->
  exists ps receiver', consume_all chunks receiver = Some (Ok tt, ps, receiver') /\
    concat ps = plaintext /\ rxNonce_ receiver' = txNonce_ sender' /\
    receiveBuffer_ receiver' = [] /\ ready_ receiver' = true.
Proof.
  intros Hr Hbuf Hk Hn Hge Hb Hframe Hc Hs. unfold frame in Hframe.
  destruct (ready_ sender); cbn [negb] in Hframe; [|done].
  pose proof (pieces_spec (S (length plaintext)) plaintext ltac:(lia)) as (Hcat&Hfit&Hlen).
  set (ps := pieces (S (length plaintext)) plaintext) in *.
  assert (zlen ps <= zlen plaintext) as Hz by (unfold zlen; lia).
  rewrite frame_loop_spec in Hframe; rewrite ?drop_0; [|lia|done|by (fold ps; lia)].
  rewrite drop_0 in Hframe. fold ps in Hframe. injection Hframe as <- <-.
  destruct (consume_all_wire chunks receiver ps (txNonce_ sender)) as (t&E&->);
    try done; [rewrite Hbuf; by left|lia|by rewrite Hbuf, Hk|].
  exists ps. eexists. split_and!; [exact E|done|done|done|done].
Qed.
End records.

(** ** The responder, as the protocol specifies it. Not part of the program: it
    says what a control server with private key [k] and ephemeral [e] does with
    an initiation, and is what the client's half is checked against. *)
Section responder.
Context `{NoiseCrypto}.

Record symmetric := { ck : bytes; h : bytes }.
Definition mix_hash (data : bytes) (s : symmetric) : symmetric := {| ck := ck s; h := hashParts (h s) data |}.
Definition mix_dh (priv pub : bytes) (s : symmetric) : option (bytes * symmetric) :=
  let shared := x25519 priv pub in
  if all_zero shared then None
  else let '(c, k) := hkdf2 (ck s) shared in Some (k, {| ck := c; h := h s |}).

Record responder_result := {
  rr_machine : bytes;
  rr_response : bytes;
  rr_rx : bytes;
  rr_tx : bytes;
  rr_hash : bytes;
}.

Definition respond (k e : bytes) (version : Z) (initiation : bytes) : option responder_result :=
  let epub := take 32 (drop 5 initiation) in
  let enc := take 48 (drop 37 initiation) in
  let tag := take 16 (drop 85 initiation) in
  let h0 := hashParts [] kProtocolName in
  let s := mix_hash (kProloguePrefix ++ to_string version) {| ck := h0; h := h0 |} in
  let s := mix_hash epub (mix_hash (x25519_public k) s) in
  '(key, s) ← mix_dh k epub s;
  machine ← decrypt key 0 (h s) enc;
  '(key, s) ← mix_dh k machine (mix_hash enc s);
  _ ← decrypt key 0 (h s) tag;
  let s := mix_hash (x25519_public e) (mix_hash tag s) in
  '(_, s) ← mix_dh e epub s;
  '(key, s) ← mix_dh e machine s;
  let rtag := encrypt key 0 (h s) [] in
  let s := mix_hash rtag s in
  let '(rx, tx) := hkdf2 (ck s) [] in
  Some {| rr_machine := machine; rr_response := (u8 <$> [2; 0; 48]) ++ x25519_public e ++ rtag; rr_rx := rx; rr_tx := tx;
          rr_hash := h s |}.
End responder.

Section handshake.
Context `{NoiseLaws}.

Lemma mixDh_Ok priv pub s : all_zero (x25519 priv pub) = false ->
  mixDh priv pub s = (Ok (hkdf2 (chainingKey_ s) (x25519 priv pub)).2,
    set_symmetric s (hkdf2 (chainingKey_ s) (x25519 priv pub)).1 (hash_ s)).
Proof. intros E. unfold mixDh. rewrite E. by destruct (hkdf2 _ _). Qed.

Lemma mix_dh_Some priv pub s : all_zero (x25519 priv pub) = false ->
  mix_dh priv pub s = Some ((hkdf2 (ck s) (x25519 priv pub)).2,
    {| ck := (hkdf2 (ck s) (x25519 priv pub)).1; h := h s |}).
Proof. intros E. unfold mix_dh. rewrite E. by destruct (hkdf2 _ _). Qed.

Lemma initiation_parts version (e enc tag : bytes) :
  length e = 32%nat -> length enc = 48%nat -> length tag = 16%nat ->
  let i := appendBigEndian16 (appendBigEndian16 [] version ++ [u8 1]) 96 ++ e ++ enc ++ tag in
  length i = 101%nat /\ take 32 (drop 5 i) = e /\ take 48 (drop 37 i) = enc /\
  take 16 (drop 85 i) = tag.
Proof.
  intros He Hn Ht i.
  assert (i = (appendBigEndian16 (appendBigEndian16 [] version ++ [u8 1]) 96) ++ e ++ enc ++ tag) as E by done.
  set (p := appendBigEndian16 _ 96) in *. assert (length p = 5%nat) as Hp by done.
  assert (drop 5 i = e ++ enc ++ tag) as E1 by (rewrite E; by apply drop_app_length').
  assert (drop 37 i = enc ++ tag) as E2.
  { change 37%nat with (5 + 32)%nat. rewrite <- drop_drop, E1. by apply drop_app_length'. }
  assert (drop 85 i = tag) as E3.
  { change 85%nat with (37 + 48)%nat. rewrite <- drop_drop, E2. by apply drop_app_length'. }
  rewrite E1, E2, E3. split_and!.
  - rewrite E, !length_app, Hp, He, Hn, Ht. done.
  - by apply take_app_length'.
  - by apply take_app_length'.
  - apply take_ge. lia.
Qed.

Lemma response_parts (e tag : bytes) : length e = 32%nat -> length tag = 16%nat ->
  let r := (u8 <$> [2; 0; 48]) ++ e ++ tag in
  length r = kResponseSize /\ byte_at r 0 = 2 /\ byte_at r 1 = 0 /\ byte_at r 2 = 48 /\
  take 32 (drop 3 r) = e /\ take 16 (drop 35 r) = tag.
Proof.
  intros He Ht r. subst r. split_and!; try done.
  - rewrite !length_app, He, Ht. done.
  - change (drop 3 ((u8 <$> [2; 0; 48]) ++ e ++ tag)) with (drop 0 (e ++ tag)).
    rewrite drop_0. by apply take_app_length'.
  - change (drop 35 ((u8 <$> [2; 0; 48]) ++ e ++ tag)) with (drop 32 (e ++ tag)).
    rewrite drop_app_length' by done. apply take_ge. lia.
Qed.

(** The steps of the two sides: the client's state, an agreement of its own, one
    of the server's, and a text that opens because the other side sealed it. *)
Ltac client := cbn [set_symmetric set_flags chainingKey_ hash_ controlPublic_ ephemeralPrivate_
  machinePrivate_ protocolVersion_].
Ltac client_dh l := rewrite l by done; client.
Ltac server_dh := cbn [mbind option_bind]; rewrite mix_dh_Some by (by rewrite x25519_agree);
  cbn [mbind option_bind ck h].
Ltac opens sealed plain :=
  match goal with |- context [decrypt ?a ?b ?c sealed] =>
    assert (decrypt a b c sealed = Some plain) as -> by apply decrypt_encrypt end.

(** C12: the two halves of the handshake agree. For any keys whose four
    Diffie-Hellman secrets are not the weak all-zero value, [begin] writes a
    101-byte initiation that the responder accepts and reads this client's
    machine key from, [complete] accepts the responder's answer, and both ends
    hold the same transport keys, crossed, the same handshake hash, and nonces
    at zero. *)
Theorem handshake_agrees m k ep e version :
  1 <= version < 2 ^ 16 ->
  all_zero (x25519 ep (x25519_public k)) = false -> all_zero (x25519 m (x25519_public k)) = false ->
  all_zero (x25519 ep (x25519_public e)) = false -> all_zero (x25519 m (x25519_public e)) = false ->
  exists initiation s1 rr s2,
    begin_ (noise_client m (x25519_public k) ep version) = (Ok initiation, s1) /\
    length initiation = kInitiationSize /\
    respond k e version initiation = Some rr /\ rr_machine rr = x25519_public m /\
    complete (rr_response rr) s1 = (Ok tt, s2) /\
    ready_ s2 = true /\ txKey_ s2 = rr_rx rr /\ rxKey_ s2 = rr_tx rr /\ hash_ s2 = rr_hash rr /\
    txNonce_ s2 = 0 /\ rxNonce_ s2 = 0 /\ receiveBuffer_ s2 = [].
Proof.
  intros Hv Z1 Z2 Z3 Z4. unfold begin_, noise_client. cbn [begun_ protocolVersion_ orb].
  rewrite (proj2 (Z.eqb_neq version 0)) by lia. cbv zeta.
  unfold mixHash. client.
  client_dh (mixDh_Ok ep (x25519_public k)). client_dh (mixDh_Ok m (x25519_public k)).
  match goal with |- context [Ok (?hd ++ x25519_public ep ++ ?enc ++ ?tag)] =>
    set (ENC := enc); set (TAG := tag) end.
  assert (length ENC = 48%nat) as LE by (unfold ENC; rewrite length_encrypt, x25519_public_length; done).
  assert (length TAG = 16%nat) as LT by (unfold TAG; rewrite length_encrypt; done).
  pose proof (initiation_parts version (x25519_public ep) ENC TAG (x25519_public_length ep) LE LT) as HI.
  cbv zeta in HI. destruct HI as (HI0&HI1&HI2&HI3).
  set (INIT := appendBigEndian16 _ 96 ++ _) in *.
  match goal with |- exists i s1 rr s2, (Ok INIT, ?st) = (Ok i, s1) /\ _ => set (S1 := st) end.
  assert (exists rr, respond k e version INIT = Some rr /\ rr_machine rr = x25519_public m /\
    exists s2, complete (rr_response rr) S1 = (Ok tt, s2) /\ ready_ s2 = true /\
      txKey_ s2 = rr_rx rr /\ rxKey_ s2 = rr_tx rr /\ hash_ s2 = rr_hash rr /\
      txNonce_ s2 = 0 /\ rxNonce_ s2 = 0 /\ receiveBuffer_ s2 = []) as (rr&?&?&s2&?).
  2: { exists INIT, S1, rr, s2. tauto. }
  unfold respond. rewrite HI1, HI2, HI3. cbv zeta. unfold mix_hash. cbn [ck h].
  server_dh. rewrite (x25519_agree k ep).
  opens ENC (x25519_public m).
  server_dh. rewrite (x25519_agree k m).
  opens TAG (@nil byte).
  server_dh. server_dh.
  rewrite (x25519_agree e ep), (x25519_agree e m).
  destruct (hkdf2 _ []) as [rx tx] eqn:EK.
  eexists. split; [reflexivity|]. split; [done|]. cbn [rr_response rr_rx rr_tx rr_hash].
  match goal with |- context [complete (_ ++ _ ++ ?t) _] => set (RTAG := t) end.
  assert (length RTAG = 16%nat) as LR by (unfold RTAG; by rewrite length_encrypt).
  pose proof (response_parts (x25519_public e) RTAG (x25519_public_length e) LR) as HR.
  cbv zeta in HR. set (RESP := (u8 <$> [2; 0; 48]) ++ x25519_public e ++ RTAG) in *.
  destruct HR as (HR0&HR1&HR2&HR3&HR4&HR5).
  unfold complete. rewrite HR0, HR1, HR2, HR3, HR4, HR5, Nat.eqb_refl. unfold S1.
  cbn [set_flags begun_ ready_ negb orb Z.eqb Pos.eqb]. cbv zeta. unfold mixHash.
  client. client_dh mixDh_Ok. client_dh mixDh_Ok.
  opens RTAG (@nil byte).
  unfold split. client. rewrite EK. eexists. split; [reflexivity|]. by split_and!.
Qed.
End handshake.

(** ** Arbitrary input *)
Section any_input.
Context `{NoiseCrypto}.

(** [b] is a run of records that decrypt, in order and under consecutive nonces,
    to [ps], followed by [rest]. *)
Fixpoint reads (key : bytes) (n : Z) (b : bytes) (ps : list bytes) (rest : bytes) : Prop :=
  match ps with
  | [] => b = rest
  | p :: ps => exists hd ct b', b = hd ++ ct ++ b' /\ length hd = 3%nat /\
      byte_at hd 0 = 4 /\ Z.of_nat (length ct) = Z.lor (Z.shiftl (byte_at hd 1) 8) (byte_at hd 2) /\
      decrypt key n [] ct = Some p /\ reads key (u64 (n + 1)) b' ps rest
  end.

Lemma consume_loop_total k : forall buf o key n, (length buf - o < k)%nat ->
  exists r ps o' n', consume_loop k buf o key n = Some (r, ps, o', n') /\
    reads key n (drop o buf) ps (drop o' buf) /\ (r = Ok tt \/ exists e, r = Err e).
Proof.
  induction k as [|k IH]; intros buf o key n Hk; [lia|]. cbn [consume_loop].
  destruct (Nat.leb_spec 3 (length buf - o)) as [H3|]; [|eexists _, [], o, n; cbn; eauto].
  destruct (Z.eqb_spec (byte_at buf o) 4) as [E4|]; cbn [negb]; [|eexists _, [], o, n; cbn; eauto].
  set (len := Z.to_nat _).
  destruct ((len <? 16)%nat || _); [eexists _, [], o, n; cbn; eauto|].
  destruct (Nat.ltb_spec (length buf - o) (3 + len)) as [|Hlen]; [eexists _, [], o, n; cbn; eauto|].
  destruct (decrypt key n [] (substr (o + 3) len buf)) as [p|] eqn:Ed;
    [|eexists _, [], o, _; cbn; eauto].
  destruct (IH buf (o + (3 + len))%nat key (u64 (n + 1))) as (r&ps&o'&n'&E&Hreads&Hr); [lia|].
  rewrite E. cbn [mbind option_bind]. exists r, (p :: ps), o', n'. split_and!; [done| |done].
  exists (take 3 (drop o buf)), (substr (o + 3) len buf), (drop (o + (3 + len)) buf).
  assert (forall i, (i < 3)%nat -> byte_at (take 3 (drop o buf)) i = byte_at buf (o + i)) as Hb.
  { intros i Hi. unfold byte_at. rewrite <- lookup_total_drop. f_equal.
    rewrite <- (take_drop 3 (drop o buf)) at 2. rewrite lookup_total_app_l; [done|].
    rewrite length_take, length_drop. lia. }
  rewrite !Hb, Nat.add_0_r by lia. split_and!; try done.
  - unfold substr. rewrite <- drop_drop. rewrite (Nat.add_comm 3 len).
    rewrite Nat.add_assoc, (Nat.add_comm o len), <- Nat.add_assoc, Nat.add_comm, <- !drop_drop.
    by rewrite !take_drop.
  - rewrite length_take, length_drop. lia.
  - unfold substr, len. rewrite length_take, length_drop.
    unfold byte_at in *. ub_bounds. rewrite Nat.min_l; [rewrite Z2Nat.id; [done|apply Z.lor_nonneg; split; [apply Z.shiftl_nonneg|]; lia]|].
    fold len. lia.
Qed.

(** C18: the record layer fails closed. Whatever bytes arrive, [consume] returns;
    what it delivers is exactly the decryptions, under consecutive nonces, of
    the records at the front of the received stream; on success what is left of
    the stream stays buffered; on any error a session that has begun is no
    longer ready, and refuses to frame or consume from then on. *)
Theorem consume_fails_closed data s : begun_ s = true ->
  exists r ps s' rest, consume data s = Some (r, ps, s') /\
    reads (rxKey_ s) (rxNonce_ s) (receiveBuffer_ s ++ data) ps rest /\
    match r with
    | Ok _ => ready_ s' = true /\ receiveBuffer_ s' = rest
    | Err _ => ready_ s' = false /\ (forall p, is_ok (frame p s').1 = false) /\
        (forall d, exists e, consume d s' = Some (Err e, [], fail s'))
    end.
Proof.
  intros Hb.
  assert (forall t, ready_ (fail t) = false ->
    ready_ (fail t) = false /\ (forall p, is_ok (frame p (fail t)).1 = false) /\
    (forall d, exists e, consume d (fail t) = Some (Err e, [], fail (fail t)))) as Hclosed.
  { intros t Ht. split; [done|]. split; [intros p|intros d]; [unfold frame|unfold consume];
      rewrite Ht; cbn [negb orb]; eauto. }
  unfold consume. destruct (ready_ s) eqn:Hr; cbn [negb orb].
  2: { exists (Err "invalid or oversized TS2021 receive buffer"), [], (fail s). eexists.
       split; [done|]. split; [done|]. apply Hclosed. unfold fail. by rewrite Hb. }
  destruct (Nat.ltb_spec kMaxBufferedCiphertext (length (receiveBuffer_ s) + length data)).
  { exists (Err "invalid or oversized TS2021 receive buffer"), [], (fail s). eexists.
    split; [done|]. split; [done|]. apply Hclosed. unfold fail. by rewrite Hb. }
  set (buf := receiveBuffer_ s ++ data).
  destruct (consume_loop_total (S (length buf)) buf 0 (rxKey_ s) (rxNonce_ s) ltac:(lia))
    as (r&ps&o&n&E&Hreads&[->|[e ->]]); rewrite E; cbn [mbind option_bind]; rewrite drop_0 in Hreads.
  - eexists _, ps, _, _. split; [done|]. by split.
  - eexists (Err e), ps, _, _. split; [done|]. split; [done|]. apply Hclosed.
    unfold fail. cbn [set_records begun_]. by rewrite Hb.
Qed.
End any_input.

(** ** A session between two ends *)

(** A stand-in for the libraries that keeps their promises. *)
Definition pad32 (l : bytes) : bytes := take 32 (l ++ replicate 32 (u8 0)).
Definition toy_tag (key : bytes) : bytes := take 16 (key ++ replicate 16 (u8 1)).

Definition toy_noise : NoiseCrypto := {|
  blake2s m := take 32 (m ++ replicate 32 (u8 3));
  x25519 a b := toy_x25519 (pad32 a) (pad32 b);
  x25519_public a := pad32 a;
  aead_write k n ad p := (p, toy_tag k);
  aead_read k n ad ct tag := if bool_decide (tag = toy_tag k) then Some ct else None;
|}.

Lemma length_pad32 l : length (pad32 l) = 32%nat.
Proof. unfold pad32. rewrite length_take, length_app, length_replicate. lia. Qed.

Lemma pad32_pad32 l : pad32 (pad32 l) = pad32 l.
Proof. unfold pad32 at 1. apply take_app_length'. by rewrite length_pad32. Qed.

Lemma toy_noise_laws : @NoiseLaws toy_noise.
Proof.
  split; cbn [blake2s x25519 x25519_public aead_write aead_read toy_noise fst snd].
  - intros m. rewrite length_take, length_app, length_replicate. lia.
  - apply length_pad32.
  - intros a b. by rewrite !pad32_pad32, toy_x25519_sym.
  - intros k n ad p. split; [done|]. unfold toy_tag. rewrite length_take, length_app, length_replicate. lia.
  - intros k n ad p. by rewrite bool_decide_true.
Qed.

Definition toy_end (tx rx : bytes) : NoiseClient :=
  set_flags (set_keys (noise_client [] [] [] 1) tx rx) true true.

Definition toy_wire : bytes :=
  match @frame toy_noise (bs "map request") (toy_end (bs "k1") (bs "k2")) with
  | (Ok w, _) => w | _ => [] end.

Lemma noise_stream_witness :
  exists ps receiver',
    @consume_all toy_noise [take 5 toy_wire; drop 5 toy_wire] (toy_end (bs "k2") (bs "k1"))
      = Some (Ok tt, ps, receiver') /\
    concat ps = bs "map request" /\ rxNonce_ receiver' = 1 /\
    receiveBuffer_ receiver' = [] /\ ready_ receiver' = true.
Proof.
  apply (noise_stream (H0 := toy_noise_laws) (toy_end (bs "k1") (bs "k2")) (toy_end (bs "k2") (bs "k1"))
    (bs "map request") toy_wire (set_records (toy_end (bs "k1") (bs "k2")) 1 0 [])
    [take 5 toy_wire; drop 5 toy_wire]); try reflexivity.
  - do 2 (apply list.Forall_cons; split; [apply Nat.leb_le; vm_compute; reflexivity|]).
    by apply list.Forall_nil_2.
Defined.

Lemma handshake_agrees_witness :
  exists initiation s1 rr s2,
    @begin_ toy_noise (noise_client (toy_key 1) (pad32 (toy_key 2)) (toy_key 3) 1) = (Ok initiation, s1) /\
    length initiation = kInitiationSize /\
    @respond toy_noise (toy_key 2) (toy_key 4) 1 initiation = Some rr /\ rr_machine rr = pad32 (toy_key 1) /\
    @complete toy_noise (rr_response rr) s1 = (Ok tt, s2) /\
    ready_ s2 = true /\ txKey_ s2 = rr_rx rr /\ rxKey_ s2 = rr_tx rr /\ hash_ s2 = rr_hash rr /\
    txNonce_ s2 = 0 /\ rxNonce_ s2 = 0 /\ receiveBuffer_ s2 = [].
Proof.
  apply (handshake_agrees (H0 := toy_noise_laws) (toy_key 1) (toy_key 2) (toy_key 3) (toy_key 4) 1);
    [lia|vm_compute; reflexivity..].
Defined.

Lemma consume_fails_closed_witness :
  exists r ps s' rest,
    @consume toy_noise (bs "junk") (toy_end (bs "k1") (bs "k2")) = Some (r, ps, s') /\
    @reads toy_noise (bs "k2") 0 (bs "junk") ps rest /\
    match r with
    | Ok _ => ready_ s' = true /\ receiveBuffer_ s' = rest
    | Err _ => ready_ s' = false /\ (forall p, is_ok (@frame toy_noise p s').1 = false) /\
        (forall d, exists e, @consume toy_noise d s' = Some (Err e, [], fail s'))
    end.
Proof. apply (consume_fails_closed (H := toy_noise) (bs "junk") (toy_end (bs "k1") (bs "k2")) eq_refl). Defined.
