(* ===== verification/Protocol.v ===== *)
(** The first-generation wire helpers ([TailscaleProtocol.hpp],
    [TailscaleProtocol.cpp]): a DERP frame decoder, a STUN codec that answers
    with text, and the cleartext part of disco ping and pong. *)

From S2P Require Import Prelude Bytes Text Framing Endpoint.

Definition kStunCookie : Z := 0x2112A442.
Definition kDiscoMagic : bytes := u8 <$> [0x54; 0x53; 0xf0; 0x9f; 0x92; 0xac].
Definition kMaxPayload : Z := 64 * 1024.

Record DerpFrame := { type : byte; payload : bytes }.

Definition read16 (b : bytes) : Z := Z.lor (Z.shiftl (byte_at b 0) 8) (byte_at b 1).
Definition read32 (b : bytes) : Z :=
  Z.lor (Z.lor (Z.lor (Z.shiftl (byte_at b 0) 24) (Z.shiftl (byte_at b 1) 16))
    (Z.shiftl (byte_at b 2) 8)) (byte_at b 3).
Definition append32 (out : bytes) (value : Z) : bytes :=
  out ++ [u8 (Z.shiftr value 24); u8 (Z.shiftr value 16); u8 (Z.shiftr value 8); u8 value].

(** ** [DerpFrameDecoder] *)

Module DerpFrameDecoder.
Definition append (buffer_ data : bytes) : result unit * bytes :=
  if (kMaxPayload + 5 <? zlen data) || (kMaxPayload + 5 - zlen data <? zlen buffer_)
  then (Err "DERP receive buffer limit exceeded", [])
  else (Ok tt, buffer_ ++ data).

Definition take (buffer_ : bytes) : outcome DerpFrame * bytes :=
  if (length buffer_ <? 5)%nat then (Wait, buffer_)
  else
    let payloadSize := read32 (slice 1 4 buffer_) in
    if kMaxPayload <? payloadSize then (Fail "DERP frame is oversized", [])
    else
      let frameSize := (Z.to_nat payloadSize + 5)%nat in
      if (length buffer_ <? frameSize)%nat then (Wait, buffer_)
      else (Got {| type := buffer_ !!! 0%nat; payload := drop 5 (take frameSize buffer_) |},
            drop frameSize buffer_).
End DerpFrameDecoder.

Definition encodeDerpFrame (t : byte) (payload : bytes) : bytes :=
  if kMaxPayload <? zlen payload then []
  else append32 [t] (u32 (zlen payload)) ++ payload.

(** ** STUN *)

Definition makeStunBindingRequest (id : bytes) : bytes :=
  (u8 <$> [0x00; 0x01; 0; 0; 0x21; 0x12; 0xa4; 0x42]) ++ id.

Record StunEndpoint := { address : bytes; port : Z }.

Definition dotted (a : Z) : bytes :=
  to_string (Z.land (Z.shiftr a 24) 255) ++ bs "." ++ to_string (Z.land (Z.shiftr a 16) 255) ++
  bs "." ++ to_string (Z.land (Z.shiftr a 8) 255) ++ bs "." ++ to_string (Z.land a 255).

(** The attribute loop from [offset]; [None] when the fuel ends first. *)
Fixpoint stun_loop (fuel : nat) (packet : bytes) (offset end_ : nat) : option (result StunEndpoint) :=
  match fuel with
  | O => None
  | S k =>
      if (offset + 4 <=? end_)%nat then
        let t := read16 (slice (Z.of_nat offset) 2 packet) in
        let len := Z.to_nat (read16 (slice (Z.of_nat offset + 2) 2 packet)) in
        let offset := (offset + 4)%nat in
        if (end_ <? offset + len)%nat then Some (Err "truncated STUN attribute")
        else if (t =? 0x0020) && (len =? 8)%nat && (byte_at packet (offset + 1) =? 0x01) then
          let p := Z.lxor (read16 (slice (Z.of_nat offset + 2) 2 packet)) (u16 (Z.shiftr kStunCookie 16)) in
          let a := Z.lxor (read32 (slice (Z.of_nat offset + 4) 4 packet)) kStunCookie in
          Some (Ok {| address := dotted a; port := p |})
        else
          let paddedLength := Z.to_nat (Z.land (Z.of_nat len + 3) (Z.lnot 3)) in
          if (end_ - offset <? paddedLength)%nat then Some (Err "truncated STUN attribute padding")
          else stun_loop k packet (offset + paddedLength) end_
      else Some (Err "STUN response has no IPv4 XOR-MAPPED-ADDRESS")
  end.

Definition parseStunBindingResponse (packet id : bytes) : option (result StunEndpoint) :=
  if (length packet <? 20)%nat || negb (read16 (take 2 packet) =? 0x0101) ||
     negb (read32 (slice 4 4 packet) =? kStunCookie)
  then Some (Err "invalid STUN binding response")
  else if negb (bool_decide (id = slice 8 12 packet)) then Some (Err "STUN transaction mismatch")
  else
    let messageLength := read16 (slice 2 2 packet) in
    if negb (Z.land messageLength 3 =? 0) || (zlen packet - 20 <? messageLength)
    then Some (Err "truncated STUN response")
    else stun_loop (S (length packet)) packet 20 (20 + Z.to_nat messageLength).

(** ** Disco *)

Inductive DiscoType := Ping | Pong | CallMeMaybe | OtherDisco (b : byte).
Definition disco_type (b : byte) : DiscoType :=
  if ub b =? 1 then Ping else if ub b =? 2 then Pong else if ub b =? 3 then CallMeMaybe
  else OtherDisco b.
Definition disco_value (t : DiscoType) : byte :=
  match t with Ping => u8 1 | Pong => u8 2 | CallMeMaybe => u8 3 | OtherDisco b => b end.

Record DiscoMessage := {
  dtype : DiscoType;
  version : byte;
  transaction : bytes;
  nodeKey : bytes;
  hasNodeKey : bool;
}.

Definition looksLikeDiscoWrapper (packet : bytes) : bool :=
  (length kDiscoMagic + 32 + 24 <=? length packet)%nat &&
  bool_decide (take (length kDiscoMagic) packet = kDiscoMagic).

Definition is_ping (t : DiscoType) : bool := match t with Ping => true | _ => false end.
Definition is_pong (t : DiscoType) : bool := match t with Pong => true | _ => false end.

Definition parseDiscoPayload (payload : bytes) : result DiscoMessage :=
  if (length payload <? 14)%nat then Err "short Disco payload"
  else
    let t := disco_type (payload !!! 0%nat) in
    let v := payload !!! 1%nat in
    if negb (ub v =? 0) || (negb (is_ping t) && negb (is_pong t))
    then Err "unsupported Disco message"
    else
      let tx := take 12 (drop 2 payload) in
      if is_ping t && (46 <=? length payload)%nat
      then Ok {| dtype := t; version := v; transaction := tx; nodeKey := take 32 (drop 14 payload);
                 hasNodeKey := true |}
      else Ok {| dtype := t; version := v; transaction := tx;
                 nodeKey := replicate 32 Init.Byte.x00; hasNodeKey := false |}.

Definition encodeDiscoPayload (m : DiscoMessage) : bytes :=
  [disco_value (dtype m); version m] ++ transaction m ++
  (if is_ping (dtype m) && hasNodeKey m then nodeKey m else []).

(** ** Frames *)

Definition legacy_prefixed : prefixed DerpFrame :=
  {| pf_header := 5; pf_length := fun b => read32 (slice 1 4 b); pf_cap := kMaxPayload;
     pf_frame := fun b => {| type := b !!! 0%nat; payload := drop 5 b |};
     pf_error := "DERP frame is oversized" |}.

Definition legacy_wf (f : DerpFrame) : Prop := zlen (payload f) <= kMaxPayload.
Definition legacy_bytes (f : DerpFrame) : bytes := encodeDerpFrame (type f) (payload f).

Lemma legacy_take_prefixed b : DerpFrameDecoder.take b = prefixed_take legacy_prefixed b.
Proof.
  unfold DerpFrameDecoder.take, prefixed_take. cbn [pf_header pf_length pf_cap pf_frame pf_error legacy_prefixed].
  destruct (Nat.ltb_spec (length b) 5) as [|H5]; [done|]. cbv zeta.
  destruct (kMaxPayload <? _); [done|]. rewrite (Nat.add_comm (Z.to_nat _) 5).
  set (n := (5 + Z.to_nat _)%nat). destruct (Nat.ltb_spec (length b) n) as [|Hn]; [done|].
  do 3 f_equal. rewrite <- (take_drop n b) at 1. apply lookup_total_app_l.
  rewrite length_take. unfold n in *. lia.
Qed.

Lemma legacy_read32_be l : length l = 4%nat -> read32 l = be_value l.
Proof.
  destruct l as [|a [|b [|c [|d [|]]]]]; try done. intros _. unfold read32, byte_at.
  cbn [lookup_total list_lookup_total]. by rewrite be32_lor.
Qed.

Lemma legacy_encode f : legacy_wf f ->
  legacy_bytes f = type f :: be_bytes 4 (zlen (payload f)) ++ payload f.
Proof.
  unfold legacy_wf. intros Hw. unfold legacy_bytes, encodeDerpFrame, append32.
  rewrite (proj2 (Z.ltb_ge _ _)) by done. pose proof (zlen_nonneg (payload f)).
  assert (kMaxPayload < 2 ^ 32) by done. unfold u32. rewrite Z.mod_small by lia.
  rewrite <- app_assoc, be32_put. done.
Qed.

Lemma legacy_encodes f : legacy_wf f -> pf_encodes legacy_prefixed f (legacy_bytes f).
Proof.
  intros Hw. rewrite legacy_encode by done. unfold legacy_wf in Hw.
  pose proof (zlen_nonneg (payload f)). assert (kMaxPayload < 2 ^ 32) by done.
  pose proof (length_be_bytes 4 (zlen (payload f))) as Hl.
  assert (slice 1 4 (type f :: be_bytes 4 (zlen (payload f)) ++ payload f) = be_bytes 4 (zlen (payload f))) as Hs.
  { unfold slice. change (Z.to_nat 1) with 1%nat. change (Z.to_nat 4) with 4%nat. cbn [drop].
    rewrite drop_0. by apply take_app_length'. }
  unfold pf_encodes. cbn [pf_header pf_length pf_cap pf_frame legacy_prefixed].
  rewrite Hs, legacy_read32_be, be_value_bytes by (done || lia). split_and!.
  - simpl. rewrite length_app, Hl. unfold zlen. lia.
  - done.
  - destruct f as [t p]. cbn [type payload] in *. by f_equal.
Qed.

Lemma legacy_local : pf_local legacy_prefixed.
Proof.
  intros b c H. cbn [pf_header pf_length legacy_prefixed] in *. rewrite slice_app; [done|lia|lia|].
  unfold zlen. lia.
Qed.

#[export] Instance legacy_decoder : FrameDecoder DerpFrame := {
  fd_limit := kMaxPayload + 5;
  fd_append buf chunk := match DerpFrameDecoder.append buf chunk with (Ok _, b) => Some b | _ => None end;
  fd_take := DerpFrameDecoder.take;
  fd_wf := legacy_wf;
  fd_bytes := legacy_bytes;
}.

#[export] Instance legacy_decoder_laws : FrameDecoderLaws DerpFrame.
Proof.
  split; cbn [fd_limit fd_append fd_take fd_wf fd_bytes legacy_decoder].
  - intros buf chunk H. unfold DerpFrameDecoder.append. pose proof (zlen_nonneg buf).
    by rewrite (proj2 (Z.ltb_ge _ _)), (proj2 (Z.ltb_ge _ _)) by lia.
  - intros buf chunk buf'. unfold DerpFrameDecoder.append.
    destruct (Z.ltb_spec (kMaxPayload + 5) (zlen chunk)); [done|].
    destruct (Z.ltb_spec (kMaxPayload + 5 - zlen chunk) (zlen buf)); [done|]. intros [= <-]. zl.
  - done.
  - intros f rest Hf. rewrite legacy_take_prefixed.
    apply prefixed_take_frame; [apply legacy_local|by apply legacy_encodes].
  - intros f p q Hf Hq E. rewrite legacy_take_prefixed.
    eapply prefixed_take_partial; [apply legacy_local| |done]. rewrite E. by apply legacy_encodes.
  - intros f Hf. by rewrite legacy_encode.
Qed.

(** The first-generation decoder reassembles like the others. *)
Lemma legacy_reassembly frames chunks m :
  Forall (fun f => zlen (payload f) + m <= kMaxPayload + 1) frames ->
  Forall (fun c => zlen c <= m) chunks -> 1 <= m <= kMaxPayload ->
  concat chunks = concat (legacy_bytes <$> frames) ->
  fd_feed (F := DerpFrame) [] chunks = Some (frames, []).
Proof.
  intros Hf Hc Hm Hs. assert (Forall legacy_wf frames) as Hwf.
  { eapply list.Forall_impl; [done|]. intros f H. cbv beta in H. unfold legacy_wf. lia. }
  apply (fd_feed_frames frames chunks m); [done| |done| |done].
  - rewrite list.Forall_forall in *. intros f Hin. specialize (Hf f Hin). specialize (Hwf f Hin).
    cbn [fd_bytes fd_limit legacy_decoder]. rewrite legacy_encode by done. zl.
    unfold zlen at 1. rewrite length_be_bytes. lia.
  - cbn [fd_limit legacy_decoder]. lia.
Qed.

(** ** Disco *)

Definition disco_wf (m : DiscoMessage) : Prop :=
  (dtype m = Ping \/ dtype m = Pong) /\ version m = u8 0 /\ length (transaction m) = 12%nat /\
  length (nodeKey m) = 32%nat /\ (hasNodeKey m = false -> nodeKey m = replicate 32 Init.Byte.x00) /\
  (dtype m = Pong -> hasNodeKey m = false).

Lemma parseDisco_encode m : disco_wf m -> parseDiscoPayload (encodeDiscoPayload m) = Ok m.
Proof.
  intros (Ht&Hv&Htx&Hk&Hz&Hp). destruct m as [t v tx k has]. cbn [dtype version transaction nodeKey hasNodeKey] in *.
  subst v. unfold encodeDiscoPayload. cbn [dtype version transaction nodeKey hasNodeKey].
  assert (forall b key, b :: u8 0 :: tx ++ key = [b; u8 0] ++ tx ++ key) as Hcons by done.
  assert (disco_type (disco_value t) = t) as Hdt by (destruct Ht as [->| ->]; done).
  unfold parseDiscoPayload. rewrite !length_app, Htx.
  destruct (Nat.ltb_spec (length [disco_value t; u8 0] + (12 + length (if is_ping t && has then k else []))) 14);
    [simpl in *; lia|].
  cbn [app lookup_total list_lookup_total drop]. rewrite Hdt. rewrite drop_0.
  change (ub (u8 0) =? 0) with true. cbn [negb orb].
  assert (negb (is_ping t) && negb (is_pong t) = false) as -> by (destruct Ht as [->| ->]; done).
  rewrite take_app_length' by done.
  assert (drop 12 (tx ++ (if is_ping t && has then k else [])) = if is_ping t && has then k else []) as Hd
    by by apply drop_app_length'.
  destruct (is_ping t && has) eqn:E.
  - apply andb_true_iff in E as [Hi ->]. rewrite Hi. cbn [andb].
    destruct (Nat.leb_spec 46 (length [disco_value t; u8 0] + (12 + length k))); [|simpl in *; lia].
    change (drop 14 (disco_value t :: u8 0 :: tx ++ k)) with (drop 12 (tx ++ k)). rewrite Hd.
    by rewrite take_ge by lia.
  - cbn [length]. rewrite andb_false_r.
    assert (has = false) as ->.
    { destruct Ht as [->| ->]; [by destruct has|by apply Hp]. }
    by rewrite Hz.
Qed.

(** ** STUN: the loop ends on every packet *)

Lemma stun_loop_total fuel : forall packet offset end_, (end_ - offset < fuel)%nat ->
  exists r, stun_loop fuel packet offset end_ = Some r.
Proof.
  induction fuel as [|k IH]; intros packet offset end_ Hf; [lia|]. cbn [stun_loop].
  destruct (Nat.leb_spec (offset + 4) end_) as [H4|]; [|eauto]. cbv zeta.
  destruct (end_ <? _)%nat; [eauto|]. destruct (_ && _); [eauto|]. destruct (_ <? _)%nat; [eauto|].
  apply IH. lia.
Qed.

Lemma parseStun_total packet id : exists r, parseStunBindingResponse packet id = Some r.
Proof.
  unfold parseStunBindingResponse.
  destruct ((length packet <? 20)%nat || _ || _); [eauto|].
  destruct (negb (bool_decide _)); [eauto|]. cbv zeta.
  set (len := read16 (slice 2 2 packet)).
  destruct (Z.ltb_spec (zlen packet - 20) len) as [|Hl]; [rewrite orb_true_r; eauto|].
  rewrite orb_false_r. destruct (negb _); [eauto|]. apply stun_loop_total.
  unfold zlen in Hl. lia.
Qed.
