(* ===== verification/StateStore.v ===== *)
(** The identity file ([TailscaleStateStore.hpp], [TailscaleStateStore.cpp]):
    its format, its protection, and the replace-by-rename protocol of [save]
    with the recovery of [load]. Argon2id, XChaCha20-Poly1305 and BLAKE2b belong
    to Monocypher: parameters. The three files are the path, [path.tmp] and
    [path.bak]; [std::filesystem] calls that may fail ask an oracle. *)

From S2P Require Import Prelude Bytes Types.

Definition kStateMagic : bytes := bs "ARTTS01" ++ [Init.Byte.x00].
Definition kVersion : Z := 1.
Definition kIdentitySize : nat := 96.
Definition kMinMemoryKiB : Z := 8 * 1024.
Definition kMaxMemoryKiB : Z := 32 * 1024.

Inductive StateProtection := Plain | Passphrase.
Definition StateProtection_value (p : StateProtection) : Z := match p with Plain => 0 | Passphrase => 1 end.

Record StateKdfParameters := { memoryKiB : Z; passes : Z; lanes : Z }.
Definition default_kdf : StateKdfParameters := {| memoryKiB := 16 * 1024; passes := 3; lanes := 1 |}.

(** ** The format *)

Definition append16 (out : bytes) (value : Z) : bytes := out ++ [u8 value; u8 (Z.shiftr value 8)].
Definition append32 (out : bytes) (value : Z) : bytes :=
  out ++ ((fun i => u8 (Z.shiftr value (8 * Z.of_nat i))) <$> seq 0 4).
Definition read16 (b : bytes) : Z := Z.lor (byte_at b 0) (Z.shiftl (byte_at b 1) 8).
Definition read32 (b : bytes) : Z :=
  Z.lor (Z.lor (Z.lor (byte_at b 0) (Z.shiftl (byte_at b 1) 8)) (Z.shiftl (byte_at b 2) 16))
    (Z.shiftl (byte_at b 3) 24).

Definition serialize (i : Identity) : bytes := machinePrivate i ++ nodePrivate i ++ discoPrivate i.
Definition deserialize (b : bytes) : Identity :=
  {| machinePrivate := take 32 b; nodePrivate := take 32 (drop 32 b); discoPrivate := take 32 (drop 64 b) |}.

Definition validateKdf (p : StateKdfParameters) : result unit :=
  if (memoryKiB p <? kMinMemoryKiB) || (kMaxMemoryKiB <? memoryKiB p) || (passes p =? 0) ||
     (10 <? passes p) || negb (lanes p =? 1)
  then Err "unsupported state KDF parameters" else Ok tt.

Record ParsedHeader := {
  ph_protection : StateProtection;
  ph_kdf : StateKdfParameters;
  ph_salt : bytes;
  ph_nonce : bytes;
  ph_payloadSize : Z;
  ph_payloadOffset : nat;
}.

Definition headerSize : nat := 8 + 2 + 2 + 12 + 16 + 24 + 4.

Definition parseHeader (data : bytes) : result ParsedHeader :=
  if (length data <? headerSize + 16)%nat || negb (bool_decide (take 8 data = kStateMagic)) ||
     negb (read16 (drop 8 data) =? kVersion)
  then Err "invalid Tailscale state header"
  else
    let protection := byte_at data 10 in
    if StateProtection_value Passphrase <? protection then Err "unknown Tailscale state protection"
    else
      let header := {|
        ph_protection := if protection =? 0 then Plain else Passphrase;
        ph_kdf := {| memoryKiB := read32 (drop 12 data); passes := read32 (drop 16 data);
                     lanes := read32 (drop 20 data) |};
        ph_salt := take 16 (drop 24 data);
        ph_nonce := take 24 (drop 40 data);
        ph_payloadSize := read32 (drop 64 data);
        ph_payloadOffset := headerSize |} in
      if negb (ph_payloadSize header =? Z.of_nat kIdentitySize) ||
         negb (length data =? headerSize + Z.to_nat (ph_payloadSize header) + 16)%nat
      then Err "invalid Tailscale state size"
      else Ok header.

(** What the code calls of Monocypher. [argon2] takes the passphrase, the salt
    and the parameters. *)
Class StateCrypto := {
  argon2 : bytes -> bytes -> StateKdfParameters -> bytes;
  aead_lock : bytes -> bytes -> bytes -> bytes -> bytes * bytes;
  aead_unlock : bytes -> bytes -> bytes -> bytes -> bytes -> option bytes;
  blake2b16 : bytes -> bytes;
}.

(** ** Files *)

Record files := { primary : option bytes; temporary : option bytes; backup : option bytes }.

Definition set_primary (f : files) (c : option bytes) : files :=
  {| primary := c; temporary := temporary f; backup := backup f |}.
Definition set_temporary (f : files) (c : option bytes) : files :=
  {| primary := primary f; temporary := c; backup := backup f |}.
Definition set_backup (f : files) (c : option bytes) : files :=
  {| primary := primary f; temporary := temporary f; backup := c |}.

(** The calls of [save] that can fail. [Open] is the opening of the temporary
    file, which truncates it; [Write] is the stream's write, as it
    reports it; [Flush] is what its destructor writes out unreported: the file
    holds all of the output only when both succeed, and [written] bytes of it
    otherwise. *)
Inductive save_call := CreateDirectories | Open | Write | Flush | RemoveOldBackup | Backup | Install | RemoveBackup | Undo.

Record oracle := { succeeds : save_call -> bool; written : nat }.

Section store.
Context `{StateCrypto}.

Definition deriveKey (passphrase salt : bytes) (p : StateKdfParameters) : result bytes :=
  check negb (bool_decide (passphrase = [])) else "passphrase is required";
  let! _ := validateKdf p in
  Ok (argon2 passphrase salt p).

(** The file contents [save] writes; [salt] and [nonce] are the random bytes. *)
Definition state_header (protection : StateProtection) (p : StateKdfParameters) (salt nonce : bytes)
  : bytes :=
  let output := kStateMagic in
  let output := append16 output kVersion in
  let output := output ++ [u8 (StateProtection_value protection); u8 0] in
  let output := append32 output (memoryKiB p) in
  let output := append32 output (passes p) in
  let output := append32 output (lanes p) in
  append32 (output ++ salt ++ nonce) (Z.of_nat kIdentitySize).

Definition seal_state (identity : Identity) (protection : StateProtection) (passphrase : bytes)
    (p : StateKdfParameters) (salt nonce : bytes) : result bytes :=
  let payload := serialize identity in
  let output := state_header protection p salt nonce in
  match protection with
  | Passphrase =>
      let! key := deriveKey passphrase salt p in
      let '(ct, tag) := aead_lock key nonce output payload in
      Ok (output ++ ct ++ tag)
  | Plain => Ok (output ++ payload ++ blake2b16 payload)
  end.

(** The file operations of [save]: every state the files pass through, in
    order, and the result. A rename replaces its target. *)
Definition install (o : oracle) (output : bytes) (f : files) : list files * result unit :=
  if negb (succeeds o CreateDirectories) then ([f], Err "cannot create Tailscale state directory")
  else if negb (succeeds o Open) then ([f], Err "cannot write Tailscale state")
  else
    let partial := (fun n => set_temporary f (Some (take n output))) <$> seq 0 (S (length output)) in
    let kept := if succeeds o Write && succeeds o Flush then output else take (written o) output in
    let f1 := set_temporary f (Some kept) in
    if negb (succeeds o Write) then (f :: partial ++ [f1], Err "cannot write Tailscale state")
    else
      let finish (trace : list files) (f2 : files) :=
        if succeeds o Install then
          let f3 := {| primary := temporary f2; temporary := None; backup := backup f2 |} in
          let f4 := if succeeds o RemoveBackup then set_backup f3 None else f3 in
          (trace ++ [f3; f4], Ok tt)
        else
          let f3 := match backup f2 with
                    | Some b => if succeeds o Undo
                                then {| primary := Some b; temporary := temporary f2; backup := None |}
                                else f2
                    | None => f2
                    end in
          (trace ++ [f3], Err "cannot replace Tailscale state") in
      match primary f1 with
      | None => finish (f :: partial ++ [f1]) f1
      | Some old =>
          let f2 := if succeeds o RemoveOldBackup then set_backup f1 None else f1 in
          if succeeds o Backup
          then
            let f3 := {| primary := None; temporary := temporary f2; backup := Some old |} in
            finish (f :: partial ++ [f1; f2; f3]) f3
          else (f :: partial ++ [f1; f2], Err "cannot back up Tailscale state")
      end.

Definition save (o : oracle) (identity : Identity) (protection : StateProtection)
    (passphrase : bytes) (p : StateKdfParameters) (salt nonce : bytes) (f : files)
  : list files * result unit :=
  match (match protection with Passphrase => validateKdf p | Plain => Ok tt end) with
  | Err e => ([f], Err e)
  | Ok _ =>
      match seal_state identity protection passphrase p salt nonce with
      | Err e => ([f], Err e)
      | Ok output => install o output f
      end
  end.

(** [loadFile]: the file's contents, if it can be opened and read. *)
Definition loadFile (passphrase : bytes) (content : option bytes) : result Identity :=
  match content with
  | None => Err "Tailscale state does not exist"
  | Some data =>
      check negb ((zlen data <=? 0) || (4096 <? zlen data)) else "invalid Tailscale state size";
      let! header := parseHeader data in
      let ciphertext := take (Z.to_nat (ph_payloadSize header)) (drop (ph_payloadOffset header) data) in
      let tag := take 16 (drop (ph_payloadOffset header + Z.to_nat (ph_payloadSize header)) data) in
      let payload :=
        match ph_protection header with
        | Passphrase =>
            match deriveKey passphrase (ph_salt header) (ph_kdf header) with
            | Ok key => aead_unlock key (ph_nonce header) (take (ph_payloadOffset header) data) ciphertext tag
            | Err _ => None
            end
        | Plain => if bool_decide (blake2b16 ciphertext = tag) then Some ciphertext else None
        end in
      match payload with
      | None => Err "Tailscale state authentication failed"
      | Some b => Ok (deserialize b)
      end
  end.

(** [renamed]: whether the rename of a recovered backup succeeds. *)
Definition load (renamed : bool) (passphrase : bytes) (f : files) : result Identity * files :=
  match loadFile passphrase (primary f) with
  | Ok identity => (Ok identity, f)
  | Err primaryError =>
      match backup f with
      | None => (Err primaryError, f)
      | Some b =>
          match loadFile passphrase (Some b) with
          | Ok identity =>
              (Ok identity,
               match primary f with
               | None => if renamed then {| primary := Some b; temporary := temporary f; backup := None |} else f
               | Some _ => f
               end)
          | Err backupError =>
              (Err (primaryError ++ "; backup recovery failed: " ++ backupError)%string, f)
          end
      end
  end.

Definition protection (f : files) : result StateProtection :=
  match primary f with
  | None => Err "cannot read Tailscale state header"
  | Some data =>
      if (length data <? 12)%nat then Err "cannot read Tailscale state header"
      else if negb (bool_decide (take 8 data = kStateMagic)) || negb (read16 (drop 8 data) =? kVersion)
              || (StateProtection_value Passphrase <? byte_at data 10)
      then Err "invalid Tailscale state header"
      else Ok (if byte_at data 10 =? 0 then Plain else Passphrase)
  end.

(** One error code for the three calls: the last one decides. *)
Definition remove_state (ok_primary ok_temporary ok_backup : bool) (f : files) : result unit * files :=
  let f := if ok_primary then set_primary f None else f in
  let f := if ok_temporary then set_temporary f None else f in
  let f := if ok_backup then set_backup f None else f in
  (if ok_backup then Ok tt else Err "cannot remove Tailscale state", f).
End store.

(** ** The format is read back *)

Class StateLaws `{StateCrypto} := {
  aead_lock_length : forall k n ad p, length (aead_lock k n ad p).1 = length p /\
    length (aead_lock k n ad p).2 = 16%nat;
  aead_unlock_lock : forall k n ad p,
    aead_unlock k n ad (aead_lock k n ad p).1 (aead_lock k n ad p).2 = Some p;
  blake2b16_length : forall m, length (blake2b16 m) = 16%nat;
}.

Definition identity_wf (i : Identity) : Prop :=
  length (machinePrivate i) = 32%nat /\ length (nodePrivate i) = 32%nat /\
  length (discoPrivate i) = 32%nat.

Definition kdf_wf (p : StateKdfParameters) : Prop :=
  0 <= memoryKiB p < 2 ^ 32 /\ 0 <= passes p < 2 ^ 32 /\ 0 <= lanes p < 2 ^ 32.

Lemma deserialize_serialize i : identity_wf i -> deserialize (serialize i) = i.
Proof.
  intros (Hm&Hn&Hd). destruct i as [m n d]. cbn [machinePrivate nodePrivate discoPrivate] in *.
  unfold serialize, deserialize. cbn [machinePrivate nodePrivate discoPrivate].
  rewrite (take_app_length' m) by done. rewrite (drop_app_length' m _ 32) by done.
  rewrite (take_app_length' n) by done. rewrite (app_assoc m n d).
  rewrite (drop_app_length' (m ++ n) d 64) by (rewrite length_app; lia). by rewrite take_ge by lia.
Qed.

Lemma length_serialize i : identity_wf i -> length (serialize i) = kIdentitySize.
Proof. intros (?&?&?). unfold serialize. rewrite !length_app. unfold kIdentitySize. lia. Qed.

Lemma append32_le out v : append32 out v = out ++ le_bytes 4 v.
Proof. unfold append32. rewrite <- le32_put. cbn [seq fmap list_fmap]. rewrite Z.shiftr_0_r. done. Qed.

Lemma read32_le b r v : 0 <= v < 2 ^ 32 -> b = le_bytes 4 v ++ r -> read32 b = v.
Proof.
  intros Hv ->. pose proof (length_le_bytes 4 v) as Hl. pose proof (le_value_bytes 4 v ltac:(lia)) as E.
  destruct (le_bytes 4 v) as [|b0 [|b1 [|b2 [|b3 [|]]]]]; try done.
  unfold read32, byte_at. cbn [app lookup_total list_lookup_total]. by rewrite le32_lor.
Qed.

Section format.
Context `{StateLaws}.

(** The header, field by field. *)
Definition header_bytes (prot : StateProtection) (p : StateKdfParameters) (salt nonce : bytes) : bytes :=
  kStateMagic ++ [u8 1; u8 0; u8 (StateProtection_value prot); u8 0] ++
  le_bytes 4 (memoryKiB p) ++ le_bytes 4 (passes p) ++ le_bytes 4 (lanes p) ++ salt ++ nonce ++
  le_bytes 4 (Z.of_nat kIdentitySize).

Lemma state_header_bytes prot p salt nonce :
  state_header prot p salt nonce = header_bytes prot p salt nonce.
Proof. unfold state_header, header_bytes. rewrite !append32_le. unfold append16. by rewrite <- !app_assoc. Qed.

Lemma drop_fields (a b : bytes) n k : length a = n -> drop (n + k) (a ++ b) = drop k b.
Proof. intros <-. rewrite drop_app_ge by lia. f_equal. lia. Qed.

Lemma parseHeader_header prot p salt nonce rest :
  kdf_wf p -> length salt = 16%nat -> length nonce = 24%nat -> length rest = (kIdentitySize + 16)%nat ->
  parseHeader (header_bytes prot p salt nonce ++ rest) = Ok
    {| ph_protection := prot; ph_kdf := p; ph_salt := salt; ph_nonce := nonce;
       ph_payloadSize := Z.of_nat kIdentitySize; ph_payloadOffset := headerSize |} /\
  length (header_bytes prot p salt nonce) = headerSize.
Proof.
  intros (Hm&Hp&Hl) Hs Hn Hr.
  assert (length (header_bytes prot p salt nonce) = headerSize) as Hlen.
  { unfold header_bytes. rewrite !length_app, !length_le_bytes, Hs, Hn. done. }
  split; [|done]. set (data := header_bytes prot p salt nonce ++ rest).
  assert (length data = headerSize + (kIdentitySize + 16))%nat as Hd by (unfold data; rewrite length_app; lia).
  set (v := [u8 1; u8 0; u8 (StateProtection_value prot); u8 0]).
  set (lm := le_bytes 4 (memoryKiB p)). set (lp := le_bytes 4 (passes p)). set (ll := le_bytes 4 (lanes p)).
  set (ls := le_bytes 4 (Z.of_nat kIdentitySize)).
  assert (data = kStateMagic ++ v ++ lm ++ lp ++ ll ++ salt ++ nonce ++ ls ++ rest) as E.
  { unfold data, header_bytes. by rewrite <- !app_assoc. }
  assert (length v = 4%nat /\ length lm = 4%nat /\ length lp = 4%nat /\ length ll = 4%nat) as (Lv&Lm&Lp&Ll)
    by (unfold lm, lp, ll; by rewrite !length_le_bytes).
  assert (drop 8 data = v ++ lm ++ lp ++ ll ++ salt ++ nonce ++ ls ++ rest) as E8
    by (rewrite E; by apply drop_app_length').
  assert (drop 12 data = lm ++ lp ++ ll ++ salt ++ nonce ++ ls ++ rest) as E12
    by (change 12%nat with (8 + 4)%nat; rewrite <- drop_drop, E8; by apply drop_app_length').
  assert (drop 16 data = lp ++ ll ++ salt ++ nonce ++ ls ++ rest) as E16
    by (change 16%nat with (12 + 4)%nat; rewrite <- drop_drop, E12; by apply drop_app_length').
  assert (drop 20 data = ll ++ salt ++ nonce ++ ls ++ rest) as E20
    by (change 20%nat with (16 + 4)%nat; rewrite <- drop_drop, E16; by apply drop_app_length').
  assert (drop 24 data = salt ++ nonce ++ ls ++ rest) as E24
    by (change 24%nat with (20 + 4)%nat; rewrite <- drop_drop, E20; by apply drop_app_length').
  assert (drop 40 data = nonce ++ ls ++ rest) as E40
    by (change 40%nat with (24 + 16)%nat; rewrite <- drop_drop, E24; by apply drop_app_length').
  assert (drop 64 data = ls ++ rest) as E64
    by (change 64%nat with (40 + 24)%nat; rewrite <- drop_drop, E40; by apply drop_app_length').
  unfold parseHeader. rewrite Hd, (proj2 (Nat.ltb_ge _ _)) by (unfold headerSize, kIdentitySize; lia).
  assert (take 8 data = kStateMagic) as -> by (rewrite E; by apply take_app_length').
  rewrite bool_decide_true by done.
  assert (read16 (drop 8 data) = kVersion) as -> by (by rewrite E8).
  assert (byte_at data 10 = StateProtection_value prot) as ->.
  { rewrite E. unfold v. destruct prot; reflexivity. }
  rewrite Z.eqb_refl. cbn [negb orb].
  assert (StateProtection_value Passphrase <? StateProtection_value prot = false) as -> by by destruct prot.
  rewrite (read32_le (drop 12 data) _ (memoryKiB p) ltac:(lia) E12).
  rewrite (read32_le (drop 16 data) _ (passes p) ltac:(lia) E16).
  rewrite (read32_le (drop 20 data) _ (lanes p) ltac:(lia) E20).
  rewrite (read32_le (drop 64 data) _ (Z.of_nat kIdentitySize) ltac:(unfold kIdentitySize; lia) E64).
  rewrite E24, E40, (take_app_length' salt), (take_app_length' nonce) by done.
  cbv zeta. cbn [ph_payloadSize]. rewrite Z.eqb_refl, Nat2Z.id. cbn [negb orb].
  rewrite Nat.add_assoc, Nat.eqb_refl. cbn [negb]. f_equal.
  destruct p, prot; reflexivity.
Qed.

Lemma aead_parts k n ad p : exists ct tag, aead_lock k n ad p = (ct, tag) /\
  length ct = length p /\ length tag = 16%nat /\ aead_unlock k n ad ct tag = Some p.
Proof.
  pose proof (aead_lock_length k n ad p) as [E1 E2]. pose proof (aead_unlock_lock k n ad p) as E3.
  destruct (aead_lock k n ad p) as [ct tag]. by exists ct, tag.
Qed.

(** A file of the right shape is cut where [save] joined it. *)
Lemma file_parts (h ct tag : bytes) : length h = headerSize -> length ct = kIdentitySize ->
  length tag = 16%nat ->
  take headerSize (h ++ ct ++ tag) = h /\ take kIdentitySize (drop headerSize (h ++ ct ++ tag)) = ct /\
  take 16 (drop (headerSize + kIdentitySize) (h ++ ct ++ tag)) = tag /\
  zlen (h ++ ct ++ tag) = 180.
Proof.
  intros Hh Hc Ht. split_and!.
  - by apply take_app_length'.
  - rewrite (drop_app_length' h) by done. by apply take_app_length'.
  - rewrite app_assoc, drop_app_length' by (rewrite length_app; lia). rewrite take_ge by lia. done.
  - unfold zlen. rewrite !length_app, Hh, Hc, Ht. done.
Qed.

Lemma loadFile_seal identity prot passphrase p salt nonce out :
  identity_wf identity -> kdf_wf p -> length salt = 16%nat -> length nonce = 24%nat ->
  seal_state identity prot passphrase p salt nonce = Ok out ->
  loadFile passphrase (Some out) = Ok identity.
Proof.
  intros Hi Hp Hs Hn Hseal. pose proof (length_serialize identity Hi) as Hlen.
  assert (exists ct tag, out = state_header prot p salt nonce ++ ct ++ tag /\
    length ct = kIdentitySize /\ length tag = 16%nat /\
    match prot with
    | Passphrase => exists key, deriveKey passphrase salt p = Ok key /\
        aead_unlock key nonce (state_header prot p salt nonce) ct tag = Some (serialize identity)
    | Plain => ct = serialize identity /\ tag = blake2b16 ct
    end) as (ct&tag&->&Hc&Ht&Hprot).
  { unfold seal_state in Hseal. destruct prot.
    - apply Ok_inj in Hseal as <-. exists (serialize identity), (blake2b16 (serialize identity)).
      split_and!; auto. apply blake2b16_length.
    - destruct (deriveKey passphrase salt p) as [key|] eqn:Hk; [|done]. cbn [result_bind] in Hseal.
      destruct (aead_parts key nonce (state_header Passphrase p salt nonce) (serialize identity))
        as (ct&tag&E&?&?&?). rewrite E in Hseal. apply Ok_inj in Hseal as <-.
      exists ct, tag. split_and!; [done|congruence|done|]. by exists key. }
  rewrite state_header_bytes in *.
  destruct (parseHeader_header prot p salt nonce (ct ++ tag) Hp Hs Hn) as [E Hh].
  { rewrite length_app. lia. }
  destruct (file_parts _ _ _ Hh Hc Ht) as (Th&Tc&Tt&Tz).
  unfold loadFile. rewrite Tz, E. cbn [Z.leb Z.ltb Z.compare Pos.compare Pos.compare_cont orb negb result_bind].
  cbn [ph_protection ph_kdf ph_salt ph_nonce ph_payloadSize ph_payloadOffset].
  rewrite Nat2Z.id, Th, Tc, Tt. destruct prot.
  - destruct Hprot as [-> ->]. rewrite bool_decide_true by done. by rewrite deserialize_serialize.
  - destruct Hprot as (key&-> &->). by rewrite deserialize_serialize.
Qed.
End format.

(** ** Saving and recovering *)

Section recovery.
Context `{StateLaws}.

(** What [load] answers does not depend on the rename of the backup. *)
Definition loads (f : files) (passphrase : bytes) (i : Identity) : Prop :=
  forall renamed, (load renamed passphrase f).1 = Ok i.

(** The old identity is where [load] finds it without passing over a damaged
    primary file. *)
Definition recoverable (f : files) (passphrase : bytes) (i : Identity) : Prop :=
  loadFile passphrase (primary f) = Ok i \/
  (primary f = None /\ loadFile passphrase (backup f) = Ok i).

Lemma loads_primary f pass i : loadFile pass (primary f) = Ok i -> loads f pass i.
Proof. intros E r. unfold load. by rewrite E. Qed.

Lemma loads_backup f pass i : primary f = None -> loadFile pass (backup f) = Ok i -> loads f pass i.
Proof.
  intros E E' r. unfold load. rewrite E. change (loadFile pass None) with (Err (A := Identity) "Tailscale state does not exist").
  destruct (backup f) as [b|] eqn:Eb; rewrite ?Eb in E' |- *; [|done]. by rewrite E'.
Qed.

Lemma recoverable_loads f pass i : recoverable f pass i -> loads f pass i.
Proof. intros [?|[? ?]]; [by apply loads_primary|by apply loads_backup]. Qed.

(** The temporary file is never looked at. *)
Lemma recoverable_set_temporary f c pass i :
  recoverable f pass i -> recoverable (set_temporary f c) pass i.
Proof. done. Qed.

(** Every state the file operations pass through holds the old contents in a
    recoverable place, or the new ones under the path. *)
Lemma install_states o output f pass old (Q : files -> Prop) :
  succeeds o Flush = true -> recoverable f pass old ->
  (forall st, recoverable st pass old -> Q st) ->
  (forall st, primary st = Some output -> Q st) ->
  Forall Q (install o output f).1.
Proof.
  intros HF Hrec Hold Hnew. unfold install.
  destruct (succeeds o CreateDirectories); [|by repeat constructor; auto]. cbn [negb].
  destruct (succeeds o Open); [|by repeat constructor; auto]. cbn [negb].
  assert (forall rest, Forall Q rest ->
    Forall Q (f :: ((fun n => set_temporary f (Some (take n output))) <$> seq 0 (S (length output))) ++ rest))
    as Hpre.
  { intros rest Hr. apply list.Forall_cons. split; [by apply Hold|]. apply list.Forall_app. split; [|done].
    apply Forall_fmap, list.Forall_forall. intros n _. cbn. apply Hold. by apply recoverable_set_temporary. }
  destruct (succeeds o Write); cbn [negb andb]; [rewrite HF|].
  2: { apply Hpre. repeat constructor. by apply Hold. }
  destruct (primary f) as [c|] eqn:Hp; cbn [primary set_temporary]; rewrite ?Hp.
  - assert (loadFile pass (Some c) = Ok old) as Hc by (destruct Hrec as [E|[E _]]; congruence).
    destruct (succeeds o Backup).
    2: { apply Hpre. repeat constructor; apply Hold; left; destruct (succeeds o RemoveOldBackup); cbn; by rewrite Hp. }
    destruct (succeeds o Install); cbn [fst]; rewrite <- app_comm_cons, <- app_assoc; apply Hpre;
      repeat first [apply list.Forall_cons; split | apply list.Forall_nil_2].
    all: try (apply Hold; left; destruct (succeeds o RemoveOldBackup); cbn; by rewrite Hp).
    all: try (apply Hold; right; by destruct (succeeds o RemoveOldBackup)).
    + apply Hnew. by destruct (succeeds o RemoveOldBackup).
    + apply Hnew. by destruct (succeeds o RemoveBackup), (succeeds o RemoveOldBackup).
    + cbn [backup]. destruct (succeeds o Undo); apply Hold; [by left|by right].
  - destruct Hrec as [E|[_ Hb]]; [by rewrite Hp in E|].
    destruct (succeeds o Install); cbn [fst]; rewrite <- app_comm_cons, <- app_assoc; apply Hpre;
      repeat first [apply list.Forall_cons; split | apply list.Forall_nil_2].
    all: try (apply Hold; right; by rewrite ?Hp).
    + by apply Hnew.
    + apply Hnew. by destruct (succeeds o RemoveBackup).
    + cbn [backup set_temporary]. destruct (backup f) as [b|] eqn:Eb; [|discriminate Hb].
      destruct (succeeds o Undo); apply Hold; [by left|right; cbn; by rewrite Hp, Eb].
Qed.

Lemma save_inv o identity prot pass p salt nonce f :
  (exists e, save o identity prot pass p salt nonce f = ([f], Err e)) \/
  (exists out, seal_state identity prot pass p salt nonce = Ok out /\
     save o identity prot pass p salt nonce f = install o out f).
Proof.
  unfold save. destruct (match prot with Plain => Ok () | Passphrase => validateKdf p end) as [|e]; [|eauto].
  destruct (seal_state _ _ _ _ _ _) as [out|e]; eauto.
Qed.

(** C23: [save] is crash safe, under two conditions: the bytes handed to the
    stream reach the temporary file, and the old identity is in an intact primary
    file or, when there is no primary file, in an intact backup. Then every state
    the files pass through while a new identity is saved - each prefix of the
    temporary file, each rename and each removal, whichever other calls fail - is
    one from which [load] answers either the old identity under its passphrase or
    the new one under the new passphrase. ([save_lost_flush] and
    [save_over_damaged] are runs without the first and the second condition.) *)
Theorem save_crash_safe o identity prot pass p salt nonce f oldpass old :
  identity_wf identity -> kdf_wf p -> length salt = 16%nat -> length nonce = 24%nat ->
  succeeds o Flush = true -> recoverable f oldpass old ->
  Forall (fun st => loads st oldpass old \/ loads st pass identity)
    (save o identity prot pass p salt nonce f).1.
Proof.
  intros Hi Hp Hs Hn HF Hrec.
  destruct (save_inv o identity prot pass p salt nonce f) as [[e ->]|(out&Hseal&->)].
  - repeat constructor. by apply recoverable_loads.
  - apply install_states with (pass := oldpass) (old := old); [done|done| |].
    + intros st ?. left. by apply recoverable_loads.
    + intros st E. right. apply loads_primary. rewrite E. eapply loadFile_seal; eauto.
Qed.

(** The last state of a successful run. *)
Lemma install_ok o output f : (install o output f).2 = Ok tt ->
  exists st, list.last (install o output f).1 = Some st /\ temporary st = None /\
    primary st = Some (if succeeds o Flush then output else take (written o) output) /\
    (succeeds o RemoveBackup = true -> backup st = None).
Proof.
  unfold install. destruct (succeeds o CreateDirectories); [|done]. cbn [negb].
  destruct (succeeds o Open); [|done]. destruct (succeeds o Write); [|done]. cbn [negb andb].
  assert (forall l (a b : files), list.last (l ++ [a; b]) = Some b) as Hlast.
  { intros l a b. by rewrite list.last_app. }
  destruct (primary _) as [c|].
  - destruct (succeeds o Backup); [|done]. destruct (succeeds o Install); [|done]. intros _. cbn [fst].
    rewrite Hlast. eexists. split; [done|]. by destruct (succeeds o RemoveBackup), (succeeds o RemoveOldBackup).
  - destruct (succeeds o Install); [|done]. intros _. cbn [fst].
    rewrite Hlast. eexists. split; [done|]. by destruct (succeeds o RemoveBackup).
Qed.

(** When [save] reports success and its bytes reached the file, what it
    leaves is the new identity: the temporary file is gone, the backup too if it
    could be removed, and [load] reads back the identity that was saved under
    the passphrase it was saved with. And when no call fails it does report
    success, for the parameters it accepts. *)
Theorem save_load o identity prot pass p salt nonce f :
  identity_wf identity -> kdf_wf p -> length salt = 16%nat -> length nonce = 24%nat ->
  succeeds o Flush = true ->
  ((save o identity prot pass p salt nonce f).2 = Ok tt ->
   exists st, list.last (save o identity prot pass p salt nonce f).1 = Some st /\ temporary st = None /\
     (succeeds o RemoveBackup = true -> backup st = None) /\ loads st pass identity) /\
  ((forall c, succeeds o c = true) -> (prot = Passphrase -> pass <> [] /\ validateKdf p = Ok tt) ->
   (save o identity prot pass p salt nonce f).2 = Ok tt).
Proof.
  intros Hi Hp Hs Hn HF. split.
  - destruct (save_inv o identity prot pass p salt nonce f) as [[e ->]|(out&Hseal&->)]; [done|].
    intros Hok. destruct (install_ok _ _ _ Hok) as (st&Hl&Ht&Hpr&Hb). rewrite HF in Hpr.
    exists st. split_and!; [done..|]. apply loads_primary. rewrite Hpr. eapply loadFile_seal; eauto.
  - intros Hall Hprot. unfold save.
    assert (exists out, seal_state identity prot pass p salt nonce = Ok out) as [out ->].
    { unfold seal_state, deriveKey. destruct prot; [by eexists|]. destruct (Hprot eq_refl) as [Hpass ->].
      rewrite bool_decide_false by done. cbn [negb result_bind].
      destruct (aead_lock _ _ _ _) as [ct tag]. by eexists. }
    assert ((match prot with Plain => Ok () | Passphrase => validateKdf p end) = Ok tt) as ->
      by (destruct prot; [done|by apply Hprot]).
    unfold install. rewrite !Hall. cbn [negb andb primary set_temporary]. by destruct (primary f).
Qed.
End recovery.

(** ** Concrete runs *)

(** A stand-in for the cryptography that keeps its laws. *)
#[export] Instance toy_state_crypto : StateCrypto := {
  argon2 pass salt p := take 32 (pass ++ salt);
  aead_lock k n ad p := (p, repeat (u8 7) 16);
  aead_unlock k n ad c t := if bool_decide (t = repeat (u8 7) 16) then Some c else None;
  blake2b16 m := repeat (u8 9) 16;
}.

#[export] Instance toy_state_laws : StateLaws.
Proof. constructor; intros; cbn [aead_lock aead_unlock blake2b16 toy_state_crypto fst snd]; [by split| |done].
  by rewrite bool_decide_true. Defined.

Definition ex_old : Identity :=
  {| machinePrivate := repeat (u8 1) 32; nodePrivate := repeat (u8 2) 32; discoPrivate := repeat (u8 3) 32 |}.
Definition ex_new : Identity :=
  {| machinePrivate := repeat (u8 4) 32; nodePrivate := repeat (u8 5) 32; discoPrivate := repeat (u8 6) 32 |}.
Definition ex_salt : bytes := repeat (u8 8) 16.
Definition ex_nonce : bytes := repeat (u8 8) 24.
Definition ex_file (i : Identity) : bytes :=
  match seal_state i Plain [] default_kdf ex_salt ex_nonce with Ok b => b | Err _ => [] end.
Definition ex_files : files := {| primary := Some (ex_file ex_old); temporary := None; backup := None |}.
Definition fails_at (bad : save_call -> bool) (n : nat) : oracle :=
  {| succeeds := fun c => negb (bad c); written := n |}.

(** The installation fails and so does the undo: the old identity is in the
    backup. *)
Lemma save_crash_safe_witness :
  let o := fails_at (fun c => match c with Install | Undo => true | _ => false end) 0 in
  Forall (fun st => loads st [] ex_old \/ loads st (bs "secret") ex_new)
    (save o ex_new Passphrase (bs "secret") default_kdf ex_salt ex_nonce ex_files).1 /\
  (save o ex_new Passphrase (bs "secret") default_kdf ex_salt ex_nonce ex_files).2 =
    Err "cannot replace Tailscale state".
Proof.
  split; [|vm_compute; reflexivity].
  apply save_crash_safe; [split_and!; reflexivity| |reflexivity..|].
  - split_and!; first [apply Z.leb_le; vm_compute; reflexivity | apply Z.ltb_lt; vm_compute; reflexivity].
  - left. vm_compute. reflexivity.
Defined.

Lemma save_load_witness :
  let o := fails_at (fun _ => false) 0 in
  exists st, list.last (save o ex_new Passphrase (bs "secret") default_kdf ex_salt ex_nonce ex_files).1 = Some st /\
    backup st = None /\ loads st (bs "secret") ex_new.
Proof.
  intros o. destruct (save_load o ex_new Passphrase (bs "secret") default_kdf ex_salt ex_nonce ex_files)
    as [Hok Hdone]; [split_and!; reflexivity| |reflexivity..|].
  - split_and!; first [apply Z.leb_le; vm_compute; reflexivity | apply Z.ltb_lt; vm_compute; reflexivity].
  - destruct Hok as (st&?&?&?&?).
    + apply Hdone; [reflexivity|]. intros _. split; [discriminate|reflexivity].
    + exists st. auto.
Defined.

(** The stream's destructor cannot report that its last bytes were not written:
    the truncated file is installed, the backup deleted, and [save] reports
    success with no identity left. *)
Example save_lost_flush :
  let o := fails_at (fun c => match c with Flush => true | _ => false end) 100 in
  let '(trace, r) := save o ex_new Plain [] default_kdf ex_salt ex_nonce ex_files in
  r = Ok tt /\ exists st, list.last trace = Some st /\
    (load true [] st).1 = Err "invalid Tailscale state size" /\ backup st = None.
Proof. vm_compute. split; [done|]. eexists. split; [done|]. done. Qed.

(** With a damaged primary file the backup is the only copy; [save] deletes it
    before the new file is in place, so a crash at that point loses both. *)
Example save_over_damaged :
  let o := fails_at (fun _ => false) 0 in
  let f := {| primary := Some [u8 0]; temporary := None; backup := Some (ex_file ex_old) |} in
  (load true [] f).1 = Ok ex_old /\
  exists st, In st (save o ex_new Plain [] default_kdf ex_salt ex_nonce f).1 /\
    exists e, (load true [] st).1 = Err e.
Proof.
  split; [vm_compute; reflexivity|].
  exists {| primary := Some [u8 0]; temporary := Some (ex_file ex_new); backup := None |}.
  split; [|eexists; vm_compute; reflexivity].
  apply list_elem_of_In. vm_compute. repeat first [apply list_elem_of_here | apply list_elem_of_further].
Qed.

(** [remove] reports success when only the backup's removal succeeded. *)
Example remove_unreported :
  remove_state false true true ex_files = (Ok tt, ex_files).
Proof. reflexivity. Qed.
