(* ===== verification/Json.v ===== *)
(** What the control plane code uses of [nlohmann::json] (not part of the
    repository), as an interface: [J] is [nlohmann::json], and each operation is
    a member function or a combination the code writes out (a type test guarding
    a [get]). A C++ call of the decoders can return, report through its
    [std::string* error], or leave by a [json::type_error]: [attempt]. At the
    end, a concrete document type that implements the interface. *)

From S2P Require Import Prelude.

(** [Reports None]: [nullopt] with [*error] left as it was. *)
Inductive attempt (A : Type) :=
| Returns (a : A)
| Reports (error : option string)
| Throws.
Arguments Returns {A}. Arguments Reports {A}. Arguments Throws {A}.

Definition attempt_bind {A B} (m : attempt A) (k : A -> attempt B) : attempt B :=
  match m with Returns a => k a | Reports e => Reports e | Throws => Throws end.

Notation "'let*' x := r 'in' k" := (attempt_bind r (fun x => k))
  (at level 10, x pattern, r at level 100, k at level 200) : result_scope.

Lemma attempt_bind_Returns {A B} (m : attempt A) (k : A -> attempt B) b :
  attempt_bind m k = Returns b -> exists a, m = Returns a /\ k a = Returns b.
Proof. destruct m; simpl; [eauto|done|done]. Qed.

(** [unbind H]: opens the binds of a call that returned. *)
Ltac unbind H :=
  repeat match type of H with
  | attempt_bind _ _ = Returns _ =>
      let a := fresh "r" in let E := fresh "E" in
      apply attempt_bind_Returns in H as (a & E & H); cbv beta in H
  end.

Class Json (J : Type) := {
  (** [Json::parse(text, nullptr, false)]; [None] when discarded. *)
  json_parse : bytes -> option J;
  is_object : J -> bool;
  is_null : J -> bool;
  (** The type test and the [get] or the iteration that follows it. *)
  as_string : J -> option bytes;
  as_bool : J -> option bool;
  as_unsigned : J -> option Z;
  as_array : J -> option (list J);
  (** [items()] of an object, in its order. *)
  json_items : J -> list (bytes * J);
  (** [find(key)]; nothing in a value that is not an object. *)
  json_find : J -> bytes -> option J;
  (** [value(key, default)] of an object, by the type of the default; it throws
      when the key is there with a value of another type. *)
  value_string : J -> bytes -> bytes -> attempt bytes;
  value_int : J -> bytes -> Z -> attempt Z;
  value_u64 : J -> bytes -> Z -> attempt Z;
  value_bool : J -> bytes -> bool -> attempt bool;
}.

(** The numbers have the range of their C++ type. *)
Class JsonLaws (J : Type) `{Json J} := {
  as_unsigned_range : forall j n, as_unsigned j = Some n -> 0 <= n < 2 ^ 64;
  value_int_range : forall j k d n, - 2 ^ 31 <= d < 2 ^ 31 -> value_int j k d = Returns n ->
    - 2 ^ 31 <= n < 2 ^ 31;
}.

(** ** Documents *)

Inductive doc :=
| DNull
| DBool (b : bool)
| DNumber (n : Z)
| DString (s : bytes)
| DArray (l : list doc)
| DObject (fields : list (bytes * doc)).

Fixpoint doc_find (fields : list (bytes * doc)) (key : bytes) : option doc :=
  match fields with
  | [] => None
  | (k, v) :: rest => if bool_decide (k = key) then Some v else doc_find rest key
  end.

Definition doc_fields (d : doc) : list (bytes * doc) := match d with DObject fs => fs | _ => [] end.

Definition doc_value {A} (get : doc -> option A) (d : doc) (key : bytes) (default : A) : attempt A :=
  match doc_find (doc_fields d) key with
  | None => Returns default
  | Some v => match get v with Some a => Returns a | None => Throws end
  end.

Definition doc_string (d : doc) : option bytes := match d with DString s => Some s | _ => None end.
Definition doc_bool (d : doc) : option bool := match d with DBool b => Some b | _ => None end.
Definition doc_unsigned (d : doc) : option Z :=
  match d with DNumber n => if (0 <=? n) && (n <? 2 ^ 64) then Some n else None | _ => None end.

(** An interface over documents, for a parser that knows one text. *)
Definition doc_json (known : bytes -> option doc) : Json doc := {|
  json_parse := known;
  is_object d := match d with DObject _ => true | _ => false end;
  is_null d := match d with DNull => true | _ => false end;
  as_string := doc_string;
  as_bool := doc_bool;
  as_unsigned := doc_unsigned;
  as_array d := match d with DArray l => Some l | _ => None end;
  json_items := doc_fields;
  json_find d key := doc_find (doc_fields d) key;
  value_string := doc_value doc_string;
  value_int := doc_value (fun d => match d with DNumber n => Some (i32 n) | _ => None end);
  value_u64 := doc_value (fun d => match d with DNumber n => Some (u64 n) | _ => None end);
  value_bool := doc_value doc_bool;
|}.

Lemma i32_range n : - 2 ^ 31 <= i32 n < 2 ^ 31.
Proof. unfold i32. pose proof (Z.mod_pos_bound (n + 2 ^ 31) (2 ^ 32)). lia. Qed.

Lemma doc_json_laws known : @JsonLaws doc (doc_json known).
Proof.
  constructor.
  - intros [| |m| | |] n; cbn [as_unsigned doc_json doc_unsigned]; try done.
    destruct (Z.leb_spec 0 m), (Z.ltb_spec m (2 ^ 64)); cbn [andb]; intros [= <-]; lia.
  - intros j k d n Hd. cbn [value_int doc_json]. unfold doc_value.
    destruct (doc_find _ _) as [[]|]; try done; intros [= <-]; [apply i32_range|done].
Defined.
