(* ===== verification/ControlCodec.v ===== *)
(** The control plane's messages ([TailscaleControlCodec.hpp],
    [TailscaleControlCodec.cpp]): typed keys, the length-prefixed netmap frames,
    and [MapCodec::decode], from JSON to a [MapUpdate], over the JSON interface
    of [Json.v]. [char] is signed on some of the targets and unsigned on others:
    [char_signed]. *)

From S2P Require Import Prelude Bytes Text Framing Types PeerDirectory Json.

Definition stripPrefix (address : bytes) : bytes :=
  match find (ch "/") address with Some slash => substr 0 slash address | None => address end.

Record DerpNode := { dn_host : bytes; dn_port : Z; dn_stunPort : Z }.
Record DerpRegion := { dr_regionId : Z; dr_regionCode : bytes; dr_nodes : list DerpNode }.

Record MapUpdate := {
  keepAlive : bool;
  localAddress : bytes;
  fullPeers : option (list Peer);
  delta : PeerDelta;
  derpMap : option (list DerpRegion);
}.

Definition kMaxDerpRegions : Z := 64.
Definition kMaxDerpNodesPerRegion : Z := 16.
Definition kMaxFrameSize : Z := 8 * 1024 * 1024.

(** ** Typed keys *)

Definition kHex (n : Z) : byte := bs "0123456789abcdef" !!! Z.to_nat n.

Definition encodeTypedKey (prefix key : bytes) : bytes :=
  prefix ++ concat ((fun b => [kHex (Z.shiftr (ub b) 4); kHex (Z.land (ub b) 15)]) <$> key).

Definition nibble (value : byte) : option Z :=
  if (48 <=? ub value) && (ub value <=? 57) then Some (ub value - 48)
  else if (97 <=? ub value) && (ub value <=? 102) then Some (ub value - 97 + 10)
  else None.

Fixpoint decode_nibbles (encoded : bytes) : option bytes :=
  match encoded with
  | h :: l :: rest =>
      high ← nibble h; low ← nibble l; result ← decode_nibbles rest;
      Some (u8 (Z.lor (Z.shiftl high 4) low) :: result)
  | _ => Some []
  end.

Definition decodeTypedKey (encoded prefix : bytes) : option bytes :=
  if negb (starts_with prefix encoded) then None
  else
    let encoded := drop (length prefix) encoded in
    if negb (length encoded =? 32 * 2)%nat then None else decode_nibbles encoded.

(** ** Peers *)

Definition kMaxServices : Z := 256.

Section codec.
Context {J : Type} `{Json J} (char_signed : bool).

(** The loop over [Hostinfo.Services]. *)
Fixpoint services_loop (services : list J) (ports : list Z) : list Z :=
  match services with
  | [] => ports
  | service :: rest =>
      if kMaxServices <=? zlen ports then ports
      else if negb (is_object service) then services_loop rest ports
      else
        let proto := json_find service (bs "Proto") ≫= as_string in
        let port := json_find service (bs "Port") ≫= as_unsigned in
        match proto, port with
        | Some p, Some value =>
            if negb (bool_decide (p = bs "tcp")) then services_loop rest ports
            else if (value =? 0) || (65535 <? value) then services_loop rest ports
            else if bool_decide (value ∈ ports) then services_loop rest ports
            else services_loop rest (ports ++ [value])
        | _, _ => services_loop rest ports
        end
  end.

(** [(os, tcpServicePorts, servicesKnown)]. *)
Definition parseHostinfo (node : J) : bytes * list Z * bool :=
  match json_find node (bs "Hostinfo") with
  | None => ([], [], false)
  | Some hostinfo =>
      if negb (is_object hostinfo) then ([], [], false)
      else
        let os := match json_find hostinfo (bs "OS") ≫= as_string with
                  | Some s => lower (if (32 <? length s)%nat then take 32 s else s)
                  | None => []
                  end in
        match json_find hostinfo (bs "Services") ≫= as_array with
        | None => (os, [], false)
        | Some services => (os, services_loop services [], true)
        end
  end.

(** The loop over [AllowedIPs]: the addresses and the advertised routes. *)
Fixpoint allowed_loop (addressesFromAllowed : bool) (allowed : list J) (addresses allowedIPs : list bytes)
  : list bytes * list bytes :=
  match allowed with
  | [] => (addresses, allowedIPs)
  | value :: rest =>
      match as_string value with
      | None => allowed_loop addressesFromAllowed rest addresses allowedIPs
      | Some cidr =>
          if negb addressesFromAllowed && (kMaxAllowedIPsPerPeer <=? zlen allowedIPs)
          then (addresses, allowedIPs)
          else if addressesFromAllowed
          then allowed_loop addressesFromAllowed rest (addresses ++ [stripPrefix cidr]) allowedIPs
          else if isRoutableIPv4Subnet cidr addresses
          then allowed_loop addressesFromAllowed rest addresses (allowedIPs ++ [cidr])
          else allowed_loop addressesFromAllowed rest addresses allowedIPs
      end
  end.

(** One entry of [Endpoints]; [None] where the loop goes on. *)
Definition parse_endpoint (endpointText : bytes) : option PeerEndpoint :=
  match rfind (ch ":") endpointText with
  | None => None
  | Some colon =>
      let portText := substr_from (colon + 1) endpointText in
      let result := from_chars_unsigned portText 0 in
      let host := substr 0 colon endpointText in
      let port := fc_value result in
      if negb (bool_decide (fc_ec result = ErrNone)) || negb (fc_ptr result =? length portText)%nat
         || (port =? 0) || (65535 <? port) || negb (isLiteralIPv4 host)
      then None
      else Some {| pe_address := host; pe_port := u16 port; pe_type := Local;
                   pe_discoveredAt := 0; pe_lastValidatedAt := 0 |}
  end.

Fixpoint endpoints_loop (values : list J) : list PeerEndpoint :=
  match values with
  | [] => []
  | value :: rest =>
      match as_string value ≫= parse_endpoint with
      | None => endpoints_loop rest
      | Some ep => ep :: endpoints_loop rest
      end
  end.

Definition parse_addresses (node : J) : attempt (list bytes) :=
  match json_find node (bs "Addresses") ≫= as_array with
  | None => Returns []
  | Some addresses =>
      if 32 <? zlen addresses then Reports (Some "netmap peer address limit exceeded"%string)
      else Returns (stripPrefix <$> omap as_string addresses)
  end.

Definition parse_allowed (node : J) (addresses : list bytes) : attempt (list bytes * list bytes) :=
  match json_find node (bs "AllowedIPs") ≫= as_array with
  | None => Returns (addresses, [])
  | Some allowed =>
      let addressesFromAllowed := bool_decide (addresses = []) in
      if addressesFromAllowed && (32 <? zlen allowed)
      then Reports (Some "netmap peer address limit exceeded"%string)
      else Returns (allowed_loop addressesFromAllowed allowed addresses [])
  end.

Definition parse_endpoints (node : J) : attempt (list PeerEndpoint) :=
  match json_find node (bs "Endpoints") ≫= as_array with
  | None => Returns []
  | Some endpoints =>
      if kMaxEndpointsPerPeer <? zlen endpoints
      then Reports (Some "netmap peer endpoint limit exceeded"%string)
      else Returns (endpoints_loop endpoints)
  end.

(** [HomeDERP], or the region of the legacy ["127.3.3.40:N"]. *)
Definition parse_home (node : J) : attempt Z :=
  let* homeDerp := value_int node (bs "HomeDERP") 0 in
  if homeDerp =? 0 then
    let* legacy := value_string node (bs "DERP") [] in
    match rfind (ch ":") legacy with
    | None => Returns homeDerp
    | Some colon => Returns (fc_value (from_chars_int (substr_from (colon + 1) legacy) homeDerp))
    end
  else Returns homeDerp.

Definition parse_disco (node : J) : attempt bytes :=
  let* discoText := value_string node (bs "DiscoKey") [] in
  if bool_decide (discoText = []) then Returns (replicate 32 Init.Byte.x00)
  else match decodeTypedKey discoText (bs "discokey:") with
       | Some key => Returns key
       | None => Reports (Some "netmap peer has an invalid disco key"%string)
       end.

(** The peer and the identifier map after it. *)
Definition parsePeer (node : J) (idMap : gmap Z bytes) : attempt (Peer * gmap Z bytes) :=
  if negb (is_object node) then Reports (Some "netmap peer is not an object"%string)
  else
    let* id := value_string node (bs "StableID") [] in
    let* nodeId := value_u64 node (bs "ID") 0 in
    if bool_decide (id = []) then Reports (Some "netmap peer has no stable identity"%string)
    else
      let* name := value_string node (bs "Name") [] in
      let* keyText := value_string node (bs "Key") [] in
      match decodeTypedKey keyText (bs "nodekey:") with
      | None => Reports (Some "netmap peer has an invalid node key"%string)
      | Some key =>
          let* disco := parse_disco node in
          let* addrs := parse_addresses node in
          let* (addrs, routes) := parse_allowed node addrs in
          let* eps := parse_endpoints node in
          let* home := parse_home node in
          let* up := value_bool node (bs "Online") false in
          let '(system, ports, known) := parseHostinfo node in
          let peer := {| stableId := id; nodeKey := key; discoKey := disco; hostname := name;
                         addresses := addrs; allowedIPs := routes; endpoints := eps;
                         homeDerp := home; online := up; os := system; tcpServicePorts := ports;
                         servicesKnown := known |} in
          Returns (peer, if nodeId =? 0 then idMap else <[nodeId := id]> idMap)
      end.

Fixpoint first_literal (values : list J) : bytes :=
  match values with
  | [] => []
  | value :: rest =>
      match as_string value with
      | None => first_literal rest
      | Some s => let candidate := stripPrefix s in
                  if isLiteralIPv4 candidate then candidate else first_literal rest
      end
  end.

Definition localAddressFromNode (root : J) : bytes :=
  match json_find root (bs "Node") with
  | None => []
  | Some node =>
      if negb (is_object node) then []
      else match json_find node (bs "Addresses") ≫= as_array with
           | None => []
           | Some addresses => first_literal addresses
           end
  end.

(** ** The DERP map *)

(** [c <= ' '] and the other comparisons of a [char]. *)
Definition char_value (c : byte) : Z := if char_signed && (128 <=? ub c) then ub c - 256 else ub c.

Definition isPlausibleHostname (host : bytes) : bool :=
  if bool_decide (host = []) || (253 <? zlen host) then false
  else negb (existsb (fun c => (char_value c <=? 32) || (char_value c =? 127) ||
    bool_decide (c = ch "/") || bool_decide (c = ch ":") || bool_decide (c = ch "@")) host).

(** One node of a region; [Returns None] where the loop goes on. *)
Definition parse_node (node : J) : attempt (option DerpNode) :=
  if negb (is_object node) then Returns None
  else
    let* host := value_string node (bs "HostName") [] in
    let* host := (if bool_decide (host = []) then value_string node (bs "IPv4") [] else Returns host) in
    if negb (isPlausibleHostname host) then Returns None
    else
      let* port := value_int node (bs "DERPPort") 443 in
      if (port <=? 0) || (65535 <? port) then Returns None
      else
        let* stunPort := value_int node (bs "STUNPort") 0 in
        let stun := if (stunPort <? 0) || (65535 <? stunPort) then 0
                    else u16 (if stunPort =? 0 then 3478 else stunPort) in
        let* stunOnly := value_bool node (bs "STUNOnly") false in
        if stunOnly then Returns None
        else Returns (Some {| dn_host := host; dn_port := u16 port; dn_stunPort := stun |}).

Fixpoint nodes_loop (nodes : list J) (acc : list DerpNode) : attempt (list DerpNode) :=
  match nodes with
  | [] => Returns acc
  | node :: rest =>
      if kMaxDerpNodesPerRegion <=? zlen acc then Returns acc
      else
        let* parsed := parse_node node in
        nodes_loop rest (match parsed with Some n => acc ++ [n] | None => acc end)
  end.

Definition region_id (key : bytes) (regionId : Z) : Z :=
  if regionId =? 0 then
    let result := from_chars_unsigned key 0 in
    let parsed := fc_value result in
    if bool_decide (fc_ec result = ErrNone) && (fc_ptr result =? length key)%nat && (0 <? parsed)
       && (parsed <=? 2 ^ 31 - 1)
    then parsed else regionId
  else regionId.

Definition parse_region (key : bytes) (region : J) : attempt (option DerpRegion) :=
  if negb (is_object region) then Returns None
  else
    let* regionId := value_int region (bs "RegionID") 0 in
    let regionId := region_id key regionId in
    if regionId <=? 0 then Returns None
    else
      let* code := value_string region (bs "RegionCode") [] in
      let* nodes := (match json_find region (bs "Nodes") ≫= as_array with
                     | Some nodes => nodes_loop nodes []
                     | None => Returns []
                     end) in
      if bool_decide (nodes = []) then Returns None
      else Returns (Some {| dr_regionId := regionId; dr_regionCode := code; dr_nodes := nodes |}).

Fixpoint regions_loop (regions : list (bytes * J)) (out : list DerpRegion) : attempt (list DerpRegion) :=
  match regions with
  | [] => Returns out
  | (key, region) :: rest =>
      let* parsed := parse_region key region in
      regions_loop rest (match parsed with Some r => out ++ [r] | None => out end)
  end.

Definition parseDerpMap (root : J) : attempt (list DerpRegion) :=
  match json_find root (bs "DERPMap") with
  | None => Reports None
  | Some map =>
      if is_null map then Reports None
      else if negb (is_object map) then Reports (Some "netmap DERPMap is not an object"%string)
      else
        match json_find map (bs "Regions") with
        | None => Reports None
        | Some regions =>
            if is_null regions then Reports None
            else if negb (is_object regions)
            then Reports (Some "netmap DERPMap.Regions is not an object"%string)
            else if kMaxDerpRegions <? zlen (json_items regions)
            then Reports (Some "netmap DERP region limit exceeded"%string)
            else regions_loop (json_items regions) []
        end
  end.

(** ** [MapCodec::decode] *)

Fixpoint peers_loop (nodes : list J) (idMap : gmap Z bytes) (acc : list Peer)
  : attempt (list Peer * gmap Z bytes) :=
  match nodes with
  | [] => Returns (acc, idMap)
  | node :: rest =>
      let* (peer, idMap) := parsePeer node idMap in
      peers_loop rest idMap (acc ++ [peer])
  end.

(** [PeersRemoved]: each identifier leaves the map as it is reported. *)
Fixpoint removed_loop (values : list J) (idMap : gmap Z bytes) (acc : list bytes)
  : list bytes * gmap Z bytes :=
  match values with
  | [] => (acc, idMap)
  | value :: rest =>
      match as_unsigned value ≫= (fun nodeId => pair nodeId <$> idMap !! nodeId) with
      | None => removed_loop rest idMap acc
      | Some (nodeId, id) => removed_loop rest (delete nodeId idMap) (acc ++ [id])
      end
  end.

Definition parse_patch (idMap : gmap Z bytes) (patch : J) : option PeerOnlineChange :=
  if negb (is_object patch) then None
  else
    nodeId ← (json_find patch (bs "NodeID") ≫= as_unsigned);
    up ← (json_find patch (bs "Online") ≫= as_bool);
    id ← idMap !! nodeId;
    Some {| oc_stableId := id; oc_online := up |}.

(** An array member of the root under a size limit. *)
Definition limited (root : J) (key : bytes) (message : string) : attempt (option (list J)) :=
  match json_find root key ≫= as_array with
  | None => Returns None
  | Some l => if kMaxPeers <? zlen l then Reports (Some message) else Returns (Some l)
  end.

Definition no_delta : PeerDelta := {| changed := []; removedStableIds := []; onlineChanges := [] |}.

(** The update of an object without [KeepAlive], and [nextIdMap]. *)
Definition decode_update (root : J) (stableIds : gmap Z bytes) : attempt (MapUpdate * gmap Z bytes) :=
  let local := localAddressFromNode root in
  let* derp := (match json_find root (bs "DERPMap") with
                | Some d => if is_null d then Returns None
                            else let* regions := parseDerpMap root in Returns (Some regions)
                | None => Returns None
                end) in
  let* peers := limited root (bs "Peers") "netmap peer limit exceeded" in
  let* (full, ids) := (match peers with
                        | None => Returns (None, stableIds)
                        | Some nodes =>
                            let* (full, ids) := peers_loop nodes ∅ [] in Returns (Some full, ids)
                        end) in
  let* nodes := limited root (bs "PeersChanged") "netmap peer delta limit exceeded" in
  let* (changed, ids) := peers_loop (default [] nodes) ids [] in
  let* removed := limited root (bs "PeersRemoved") "netmap peer removal limit exceeded" in
  let '(removedIds, ids) := removed_loop (default [] removed) ids [] in
  let* patches := limited root (bs "PeersChangedPatch") "netmap peer patch limit exceeded" in
  let changes := omap (parse_patch ids) (default [] patches) in
  Returns ({| keepAlive := false; localAddress := local; fullPeers := full;
              delta := {| changed := changed; removedStableIds := removedIds; onlineChanges := changes |};
              derpMap := derp |}, ids).

(** The result, and the codec's identifier map afterwards. *)
Definition decode (stableIdsByNodeId_ : gmap Z bytes) (json : bytes)
  : attempt MapUpdate * gmap Z bytes :=
  if kMaxFrameSize <? zlen json then (Reports (Some "netmap JSON is oversized"%string), stableIdsByNodeId_)
  else
    match json_parse json with
    | None => (Reports (Some "invalid netmap JSON"%string), stableIdsByNodeId_)
    | Some root =>
        if negb (is_object root) then (Reports (Some "invalid netmap JSON"%string), stableIdsByNodeId_)
        else
          match value_bool root (bs "KeepAlive") false with
          | Throws => (Throws, stableIdsByNodeId_)
          | Reports e => (Reports e, stableIdsByNodeId_)
          | Returns true =>
              (Returns {| keepAlive := true; localAddress := []; fullPeers := None; delta := no_delta;
                          derpMap := None |}, stableIdsByNodeId_)
          | Returns false =>
              match decode_update root stableIdsByNodeId_ with
              | Returns (update, ids) => (Returns update, ids)
              | Reports e => (Reports e, stableIdsByNodeId_)
              | Throws => (Throws, stableIdsByNodeId_)
              end
          end
    end.
End codec.

(** ** [MapFrameDecoder] *)

Module MapFrameDecoder.
Definition append (buffer_ data : bytes) : result unit * bytes :=
  if (kMaxFrameSize + 4 <? zlen data) || (kMaxFrameSize + 4 - zlen data <? zlen buffer_)
  then (Err "netmap receive buffer limit exceeded", [])
  else (Ok tt, buffer_ ++ data).

Definition frame_size (buffer_ : bytes) : Z :=
  Z.lor (Z.lor (Z.lor (byte_at buffer_ 0) (Z.shiftl (byte_at buffer_ 1) 8))
    (Z.shiftl (byte_at buffer_ 2) 16)) (Z.shiftl (byte_at buffer_ 3) 24).

Definition take (buffer_ : bytes) : outcome bytes * bytes :=
  if (length buffer_ <? 4)%nat then (Wait, buffer_)
  else
    let size := frame_size buffer_ in
    if kMaxFrameSize <? size then (Fail "netmap frame is oversized", [])
    else if (length buffer_ <? Z.to_nat size + 4)%nat then (Wait, buffer_)
    else (Got (take (Z.to_nat size) (drop 4 buffer_)), drop (4 + Z.to_nat size) buffer_).
End MapFrameDecoder.

(** ** Requests. [dump()] is a parameter: the text of a document, whose keys
    nlohmann sorts. *)

Record RegisterRequestData := {
  rr_nodePublic : bytes;
  rr_authKey : bytes;
  rr_hostname : bytes;
  rr_capabilityVersion : Z;
}.

Record MapRequestData := {
  mr_nodePublic : bytes;
  mr_discoPublic : bytes;
  mr_endpoints : list bytes;
  mr_stream : bool;
  mr_omitPeers : bool;
  mr_hostname : bytes;
  mr_preferredDerp : Z;
  mr_capabilityVersion : Z;
}.

Definition register_document (request : RegisterRequestData) : doc :=
  DObject [
    (bs "Version", DNumber (rr_capabilityVersion request));
    (bs "NodeKey", DString (encodeTypedKey (bs "nodekey:") (rr_nodePublic request)));
    (bs "Auth", DObject [(bs "AuthKey", DString (rr_authKey request))]);
    (bs "Hostinfo", DObject [(bs "Hostname", DString (rr_hostname request));
                             (bs "OS", DString (bs "nintendo-switch"));
                             (bs "Package", DString (bs "artemis-switch"))]);
    (bs "Followup", DString [])].

Definition encodeRegisterRequest (dump : doc -> bytes) (request : RegisterRequestData) : bytes :=
  if rr_capabilityVersion request <=? 0 then [] else dump (register_document request).

Definition map_document (request : MapRequestData) : doc :=
  let hostname := if bool_decide (mr_hostname request = []) then bs "artemis-switch" else mr_hostname request in
  let hostinfo := [(bs "Hostname", DString hostname); (bs "OS", DString (bs "nintendo-switch"))] ++
    (if 0 <? mr_preferredDerp request
     then [(bs "NetInfo", DObject [(bs "PreferredDERP", DNumber (mr_preferredDerp request))])] else []) in
  DObject [
    (bs "Version", DNumber (mr_capabilityVersion request));
    (bs "NodeKey", DString (encodeTypedKey (bs "nodekey:") (mr_nodePublic request)));
    (bs "DiscoKey", DString (encodeTypedKey (bs "discokey:") (mr_discoPublic request)));
    (bs "Stream", DBool (mr_stream request));
    (bs "ReadOnly", DBool false);
    (bs "OmitPeers", DBool (mr_omitPeers request));
    (bs "Compress", DString []);
    (bs "Endpoints", DArray (DString <$> mr_endpoints request));
    (bs "Hostinfo", DObject hostinfo)].

Definition encodeMapRequest (dump : doc -> bytes) (request : MapRequestData) : bytes :=
  if mr_capabilityVersion request <=? 0 then [] else dump (map_document request).

(** ** Typed keys are read back, and only them *)

Definition hex_pair (b : byte) : bytes := [kHex (Z.shiftr (ub b) 4); kHex (Z.land (ub b) 15)].

Lemma nibble_kHex n : 0 <= n < 16 -> nibble (kHex n) = Some n.
Proof.
  intros Hn. assert (n ∈ seqZ 0 16) as Hin by (apply elem_of_seqZ; lia). revert n Hn Hin.
  assert (Forall (fun n => nibble (kHex n) = Some n) (seqZ 0 16)) as HF by (vm_compute; repeat constructor).
  rewrite list.Forall_forall in HF. auto.
Qed.

Lemma nibble_Some c n : nibble c = Some n -> 0 <= n < 16 /\ c = kHex n.
Proof. destruct c; vm_compute; intros [= <-]; done. Qed.

Lemma byte_nibbles h l : 0 <= h < 16 -> 0 <= l < 16 ->
  Z.shiftr (ub (u8 (Z.lor (Z.shiftl h 4) l))) 4 = h /\ Z.land (ub (u8 (Z.lor (Z.shiftl h 4) l))) 15 = l.
Proof.
  intros. rewrite lor_shiftl_add by (change (2 ^ 4) with 16; lia). change (2 ^ 4) with 16.
  rewrite ub_u8_small by lia. rewrite Z.shiftr_div_pow2 by lia.
  change 15 with (Z.ones 4). rewrite Z.land_ones by lia. change (2 ^ 4) with 16.
  Z.to_euclidean_division_equations; lia.
Qed.

Lemma nibbles_byte b :
  0 <= Z.shiftr (ub b) 4 < 16 /\ 0 <= Z.land (ub b) 15 < 16 /\
  u8 (Z.lor (Z.shiftl (Z.shiftr (ub b) 4) 4) (Z.land (ub b) 15)) = b.
Proof.
  pose proof (ub_range b). rewrite Z.shiftr_div_pow2 by lia.
  change 15 with (Z.ones 4). rewrite Z.land_ones by lia.
  rewrite lor_shiftl_add by (change (2 ^ 4) with 16; Z.to_euclidean_division_equations; lia).
  change (2 ^ 4) with 16. split_and!; [Z.to_euclidean_division_equations; lia..|].
  rewrite <- (u8_ub b) at 3. f_equal. Z.to_euclidean_division_equations; lia.
Qed.

Lemma decode_nibbles_hex key : decode_nibbles (concat (hex_pair <$> key)) = Some key.
Proof.
  induction key as [|b key IH]; [done|]. cbn [fmap list_fmap concat hex_pair app decode_nibbles].
  destruct (nibbles_byte b) as (Hh&Hl&E). change (list_fmap _ _ hex_pair key) with (hex_pair <$> key) in *.
  rewrite !nibble_kHex by done. cbn [mbind option_bind]. fold (hex_pair <$> key). rewrite IH. simpl. by rewrite E.
Qed.

Lemma decode_nibbles_Some n : forall e key, length e = (n * 2)%nat -> decode_nibbles e = Some key ->
  length key = n /\ e = concat (hex_pair <$> key).
Proof.
  induction n as [|n IH]; intros [|h [|l e]] key Hlen; simpl in Hlen; try lia.
  - by intros [= <-].
  - cbn [decode_nibbles]. destruct (nibble h) as [hv|] eqn:Eh; [|done].
    destruct (nibble l) as [lv|] eqn:El; [|done]. cbn [mbind option_bind].
    destruct (decode_nibbles e) as [k|] eqn:E; [|done]. intros [= <-].
    destruct (IH e k ltac:(lia) E) as [Hk ->]. apply nibble_Some in Eh as [Hh ->], El as [Hl ->].
    destruct (byte_nibbles hv lv Hh Hl) as [E1 E2].
    split; [simpl; lia|]. cbn [fmap list_fmap concat hex_pair app]. by rewrite E1, E2.
Qed.

Lemma length_hex key : length (concat (hex_pair <$> key)) = (length key * 2)%nat.
Proof. induction key as [|b key IH]; [done|]. cbn [fmap list_fmap concat hex_pair app length] in *. rewrite IH. lia. Qed.

(** Typed keys have one spelling. [decodeTypedKey] accepts exactly the texts
    [encodeTypedKey] writes for 32-byte keys under the same prefix, and answers
    the key: the two are inverse to each other, and no second spelling (upper
    case, another length, trailing text) is let in. *)
Theorem decodeTypedKey_iff encoded prefix key :
  decodeTypedKey encoded prefix = Some key <->
  length key = 32%nat /\ encoded = encodeTypedKey prefix key.
Proof.
  unfold decodeTypedKey, starts_with, encodeTypedKey. fold hex_pair. split.
  - case_bool_decide as Hp; cbn [negb]; [|done].
    destruct (Nat.eqb_spec (length (drop (length prefix) encoded)) (32 * 2)) as [Hlen|]; [|done].
    cbn [negb]. intros E. destruct (decode_nibbles_Some 32 _ _ Hlen E) as [Hk Hd]. split; [done|].
    rewrite <- (take_drop (length prefix) encoded). rewrite Hp, Hd. done.
  - intros [Hk ->]. rewrite take_app_length, bool_decide_true by done. cbn [negb].
    rewrite drop_app_length. change (fun b => [kHex (Z.shiftr (ub b) 4); kHex (Z.land (ub b) 15)]) with hex_pair.
    rewrite length_hex, Hk. cbn [Nat.mul Nat.add Nat.eqb negb]. apply decode_nibbles_hex.
Qed.

(** ** Netmap frames *)

(** A netmap record as control sends it: a little-endian length and the JSON. *)
Definition map_bytes (json : bytes) : bytes := le_bytes 4 (zlen json) ++ json.
Definition map_wf (json : bytes) : Prop := zlen json <= kMaxFrameSize.

Definition map_prefixed : prefixed bytes :=
  {| pf_header := 4; pf_length := MapFrameDecoder.frame_size; pf_cap := kMaxFrameSize;
     pf_frame := drop 4; pf_error := "netmap frame is oversized" |}.

Lemma map_take_prefixed b : MapFrameDecoder.take b = prefixed_take map_prefixed b.
Proof.
  unfold MapFrameDecoder.take, prefixed_take. cbn [pf_header pf_length pf_cap pf_frame pf_error map_prefixed].
  destruct (length b <? 4)%nat; [done|]. cbv zeta. destruct (kMaxFrameSize <? _); [done|].
  rewrite (Nat.add_comm (Z.to_nat _) 4). destruct (length b <? _)%nat; [done|].
  by rewrite skipn_firstn_comm, Nat.add_comm, Nat.add_sub.
Qed.

Lemma frame_size_le v rest : 0 <= v < 2 ^ 32 -> MapFrameDecoder.frame_size (le_bytes 4 v ++ rest) = v.
Proof.
  intros Hv. pose proof (length_le_bytes 4 v) as Hl. pose proof (le_value_bytes 4 v ltac:(lia)) as E.
  destruct (le_bytes 4 v) as [|b0 [|b1 [|b2 [|b3 [|]]]]]; try done.
  unfold MapFrameDecoder.frame_size, byte_at. cbn [app lookup_total list_lookup_total]. by rewrite le32_lor.
Qed.

Lemma map_local : pf_local map_prefixed.
Proof.
  intros b c H. cbn [pf_header pf_length map_prefixed] in *. unfold MapFrameDecoder.frame_size, byte_at.
  by rewrite !lookup_total_app_l by lia.
Qed.

Lemma map_encodes json : map_wf json -> pf_encodes map_prefixed json (map_bytes json).
Proof.
  unfold map_wf. intros Hw. pose proof (zlen_nonneg json). assert (kMaxFrameSize < 2 ^ 32) by done.
  unfold pf_encodes, map_bytes. cbn [pf_header pf_length pf_cap pf_frame map_prefixed].
  rewrite frame_size_le by lia. split_and!.
  - rewrite length_app, length_le_bytes. unfold zlen. lia.
  - done.
  - apply drop_app_length'. by rewrite length_le_bytes.
Qed.

#[export] Instance map_decoder : FrameDecoder bytes := {
  fd_limit := kMaxFrameSize + 4;
  fd_append buf chunk := match MapFrameDecoder.append buf chunk with (Ok _, b) => Some b | _ => None end;
  fd_take := MapFrameDecoder.take;
  fd_wf := map_wf;
  fd_bytes := map_bytes;
}.

#[export] Instance map_decoder_laws : FrameDecoderLaws bytes.
Proof.
  split; cbn [fd_limit fd_append fd_take fd_wf fd_bytes map_decoder].
  - intros buf chunk H. unfold MapFrameDecoder.append. pose proof (zlen_nonneg buf).
    by rewrite (proj2 (Z.ltb_ge _ _)), (proj2 (Z.ltb_ge _ _)) by lia.
  - intros buf chunk buf'. unfold MapFrameDecoder.append.
    destruct (Z.ltb_spec (kMaxFrameSize + 4) (zlen chunk)); [done|].
    destruct (Z.ltb_spec (kMaxFrameSize + 4 - zlen chunk) (zlen buf)); [done|]. intros [= <-]. zl.
  - done.
  - intros f rest Hf. rewrite map_take_prefixed.
    apply prefixed_take_frame; [apply map_local|by apply map_encodes].
  - intros f p q Hf Hq E. rewrite map_take_prefixed.
    eapply prefixed_take_partial; [apply map_local| |done]. rewrite E. by apply map_encodes.
  - intros f Hf E. apply (f_equal length) in E. unfold map_bytes in E.
    rewrite length_app, length_le_bytes in E. done.
Qed.

(** Netmap records reassemble like the other framed streams. *)
Lemma map_reassembly jsons chunks m :
  Forall (fun j => zlen j + m <= kMaxFrameSize + 1) jsons ->
  Forall (fun c => zlen c <= m) chunks -> 1 <= m <= kMaxFrameSize ->
  concat chunks = concat (map_bytes <$> jsons) ->
  fd_feed (F := bytes) [] chunks = Some (jsons, []).
Proof.
  intros Hf Hc Hm Hs. apply (fd_feed_frames jsons chunks m); [..|done].
  - eapply list.Forall_impl; [done|]. intros f H. cbv beta in H. change (map_wf f). unfold map_wf. lia.
  - eapply list.Forall_impl; [done|]. intros f H. cbv beta in H. cbn [fd_bytes fd_limit map_decoder].
    unfold map_bytes. zl. unfold zlen at 1. rewrite length_le_bytes. lia.
  - done.
  - cbn [fd_limit map_decoder]. lia.
Qed.

(** ** What [decode] lets through *)

Definition endpoint_ok (e : PeerEndpoint) : Prop :=
  isLiteralIPv4 (pe_address e) = true /\ 1 <= pe_port e <= 65535.

Record peer_ok (p : Peer) : Prop := {
  po_id : stableId p <> [];
  po_nodeKey : length (nodeKey p) = 32%nat;
  po_discoKey : length (discoKey p) = 32%nat;
  po_addresses : zlen (addresses p) <= 32;
  po_routes : zlen (allowedIPs p) <= kMaxAllowedIPsPerPeer /\
    Forall (fun c => isRoutableIPv4Subnet c (addresses p) = true) (allowedIPs p);
  po_endpoints : zlen (endpoints p) <= kMaxEndpointsPerPeer /\ Forall endpoint_ok (endpoints p);
  po_home : - 2 ^ 31 <= homeDerp p < 2 ^ 31;
  po_os : zlen (os p) <= 32;
  po_ports : zlen (tcpServicePorts p) <= kMaxServices /\ NoDup (tcpServicePorts p) /\
    Forall (fun q => 1 <= q <= 65535) (tcpServicePorts p);
}.

Definition node_ok (signed : bool) (n : DerpNode) : Prop :=
  isPlausibleHostname signed (dn_host n) = true /\ 1 <= dn_port n <= 65535 /\ 0 <= dn_stunPort n <= 65535.

Definition region_ok (signed : bool) (r : DerpRegion) : Prop :=
  1 <= dr_regionId r < 2 ^ 31 /\ dr_nodes r <> [] /\ zlen (dr_nodes r) <= kMaxDerpNodesPerRegion /\
  Forall (node_ok signed) (dr_nodes r).

Lemma decodeTypedKey_length e p k : decodeTypedKey e p = Some k -> length k = 32%nat.
Proof.
  unfold decodeTypedKey. destruct (starts_with p e); [|done]. cbn [negb].
  destruct (Nat.eqb_spec (length (drop (length p) e)) (32 * 2)) as [Hlen|]; [|done].
  intros E. by destruct (decode_nibbles_Some 32 _ _ Hlen E).
Qed.

Lemma from_chars_int_range l init : - 2 ^ 31 <= init < 2 ^ 31 ->
  - 2 ^ 31 <= fc_value (from_chars_int l init) < 2 ^ 31.
Proof.
  intros Hi. unfold from_chars_int. cbv zeta. destruct (take_while _ _); [done|].
  set (v := if bool_decide _ then _ else _).
  destruct (Z.leb_spec (- 2 ^ 31) v), (Z.ltb_spec v (2 ^ 31)); cbn [andb fc_value]; lia.
Qed.

Lemma from_chars_unsigned_nonneg l : 0 <= fc_value (from_chars_unsigned l 0).
Proof.
  unfold from_chars_unsigned. pose proof (take_while_Forall is_digit l) as Hd.
  destruct (take_while is_digit l) as [|d ds]; [done|].
  pose proof (dec_value_bound _ Hd). destruct (dec_value (d :: ds) <? 2 ^ 32); cbn [fc_value]; lia.
Qed.

Lemma zlen_omap {A B} (f : A -> option B) l : zlen (omap f l) <= zlen l.
Proof.
  induction l as [|x l IH]; [done|]. unfold zlen in *. simpl.
  change (list_omap A B f l) with (omap f l). destruct (f x); simpl; lia.
Qed.

Lemma zlen_fmap {A B} (f : A -> B) l : zlen (f <$> l) = zlen l.
Proof. unfold zlen. by rewrite length_fmap. Qed.

Section bounds.
Context {J : Type} `{JsonLaws J} (signed : bool).

Lemma services_loop_ok services : forall ports,
  zlen ports <= kMaxServices -> NoDup ports -> Forall (fun q => 1 <= q <= 65535) ports ->
  let r := services_loop services ports in
  zlen r <= kMaxServices /\ NoDup r /\ Forall (fun q => 1 <= q <= 65535) r.
Proof.
  induction services as [|s rest IH]; intros ports Hl Hn Hf; [done|]. cbn [services_loop]. cbv zeta in *.
  destruct (Z.leb_spec kMaxServices (zlen ports)); [done|].
  destruct (is_object s); cbn [negb]; [|by apply IH].
  destruct (json_find s (bs "Proto") ≫= as_string) as [p|]; [|by apply IH].
  destruct (json_find s (bs "Port") ≫= as_unsigned) as [v|] eqn:Ev; [|by apply IH].
  destruct (negb _); [by apply IH|].
  destruct (Z.eqb_spec v 0), (Z.ltb_spec 65535 v); cbn [orb]; try by apply IH.
  case_bool_decide; [by apply IH|].
  apply bind_Some in Ev as (j&_&Ev). apply as_unsigned_range in Ev.
  apply IH; [rewrite zlen_app, zlen_cons, zlen_nil; lia| |].
  - apply list.NoDup_app. split_and!; [done| |apply NoDup_singleton].
    by intros x Hx ->%list_elem_of_singleton.
  - apply list.Forall_app. split; [done|]. repeat constructor; lia.
Qed.

Lemma allowed_loop_ok from allowed : forall addrs routes,
  let '(a, r) := allowed_loop from allowed addrs routes in
  if from then r = routes /\ zlen a <= zlen addrs + zlen allowed
  else a = addrs /\ (zlen routes <= kMaxAllowedIPsPerPeer ->
    Forall (fun c => isRoutableIPv4Subnet c addrs = true) routes ->
    zlen r <= kMaxAllowedIPsPerPeer /\ Forall (fun c => isRoutableIPv4Subnet c addrs = true) r).
Proof.
  induction allowed as [|v rest IH]; intros addrs routes.
  - cbn [allowed_loop]. destruct from; [split; [done|zl]|done].
  - cbn [allowed_loop]. destruct (as_string v) as [cidr|].
    2: { specialize (IH addrs routes). destruct (allowed_loop from rest addrs routes), from; [|done].
         destruct IH as [-> ?]. split; [done|zl]. }
    destruct from; cbn [negb andb].
    + specialize (IH (addrs ++ [stripPrefix cidr]) routes). destruct (allowed_loop _ _ _ _).
      destruct IH as [-> ?]. split; [done|zl].
    + destruct (Z.leb_spec kMaxAllowedIPsPerPeer (zlen routes)); [done|].
      destruct (isRoutableIPv4Subnet cidr addrs) eqn:Er.
      * specialize (IH addrs (routes ++ [cidr])). destruct (allowed_loop _ _ _ _).
        destruct IH as [-> IH]. split; [done|]. intros Hl Hf. apply IH; [zl|].
        apply list.Forall_app. split; [done|]. by repeat constructor.
      * specialize (IH addrs routes). by destruct (allowed_loop _ _ _ _).
Qed.

Lemma parse_endpoint_ok t e : parse_endpoint t = Some e -> endpoint_ok e.
Proof.
  unfold parse_endpoint. destruct (rfind (ch ":") t) as [k|]; [|done]. cbv zeta.
  pose proof (from_chars_unsigned_nonneg (substr_from (k + 1) t)).
  destruct (negb (bool_decide _)), (negb (_ =? _)%nat); try done. cbn [orb].
  destruct (Z.eqb_spec (fc_value (from_chars_unsigned (substr_from (k + 1) t) 0)) 0); [done|].
  destruct (Z.ltb_spec 65535 (fc_value (from_chars_unsigned (substr_from (k + 1) t) 0))); [done|]. cbn [orb].
  destruct (isLiteralIPv4 _) eqn:El; [|done]. cbn [negb]. intros [= <-].
  split; cbn [pe_address pe_port]; [done|]. unfold u16. rewrite Z.mod_small by lia. lia.
Qed.

Lemma endpoints_loop_ok values :
  zlen (endpoints_loop values) <= zlen values /\ Forall endpoint_ok (endpoints_loop values).
Proof.
  induction values as [|v rest [IH1 IH2]]; [done|]. cbn [endpoints_loop].
  destruct (as_string v ≫= parse_endpoint) as [e|] eqn:E; [|split; [zl|done]].
  split; [zl|]. constructor; [|done]. apply bind_Some in E as (t&_&E). by eapply parse_endpoint_ok.
Qed.

Lemma parseHostinfo_ok node : let '(s, ports, _) := parseHostinfo node in
  zlen s <= 32 /\ zlen ports <= kMaxServices /\ NoDup ports /\ Forall (fun q => 1 <= q <= 65535) ports.
Proof.
  assert (zlen (@nil Z) <= kMaxServices /\ NoDup (@nil Z) /\ Forall (fun q => 1 <= q <= 65535) (@nil Z)) as Hnil
    by (split_and!; [done|apply base.NoDup_nil_2|done]).
  unfold parseHostinfo. destruct (json_find node _) as [h|]; [|done].
  destruct (is_object h); cbn [negb]; [|done].
  set (s := match json_find h (bs "OS") ≫= as_string with Some _ => _ | None => _ end).
  assert (zlen s <= 32) as Hs.
  { unfold s. destruct (_ ≫= _) as [t|]; [|done]. unfold lower. rewrite zlen_fmap.
    destruct (Nat.ltb_spec 32 (length t)); unfold zlen; [rewrite length_take|]; lia. }
  cbv zeta. destruct (json_find h (bs "Services") ≫= as_array) as [l|]; [|done].
  split; [done|]. apply services_loop_ok; apply Hnil.
Qed.

Lemma parse_disco_ok node k : parse_disco node = Returns k -> length k = 32%nat.
Proof.
  unfold parse_disco. intros E. unbind E. case_bool_decide; [by injection E as <-|].
  destruct (decodeTypedKey r (bs "discokey:")) eqn:Ek; [|done]. injection E as <-.
  by eapply decodeTypedKey_length.
Qed.

Lemma parse_home_ok node h : parse_home node = Returns h -> - 2 ^ 31 <= h < 2 ^ 31.
Proof.
  unfold parse_home. intros E. unbind E. apply value_int_range in E0; [|done].
  destruct (r =? 0); [|by injection E as <-]. unbind E.
  destruct (rfind _ _); injection E as <-; [by apply from_chars_int_range|done].
Qed.

Lemma parse_addresses_ok node a : parse_addresses node = Returns a -> zlen a <= 32.
Proof.
  unfold parse_addresses. destruct (_ ≫= _) as [l|]; [|by intros [= <-]].
  destruct (Z.ltb_spec 32 (zlen l)); [done|]. intros [= <-]. rewrite zlen_fmap.
  pose proof (zlen_omap as_string l). lia.
Qed.

Lemma parse_allowed_ok node a a' r : zlen a <= 32 -> parse_allowed node a = Returns (a', r) ->
  zlen a' <= 32 /\ zlen r <= kMaxAllowedIPsPerPeer /\
  Forall (fun c => isRoutableIPv4Subnet c a' = true) r.
Proof.
  intros Ha. unfold parse_allowed. destruct (_ ≫= _) as [l|]; [|by intros [= <- <-]].
  cbv zeta. pose proof (allowed_loop_ok (bool_decide (a = [])) l a []) as Hok.
  destruct (allowed_loop _ _ _ _) as [x y]. case_bool_decide as Ea; cbn [andb].
  - destruct (Z.ltb_spec 32 (zlen l)); [done|]. intros [= <- <-]. destruct Hok as [-> Hx].
    subst a. rewrite zlen_nil in Hx. split_and!; [lia|done|done].
  - intros [= <- <-]. destruct Hok as [-> Hx]. split; [done|]. by apply Hx.
Qed.

Lemma parse_endpoints_ok node e : parse_endpoints node = Returns e ->
  zlen e <= kMaxEndpointsPerPeer /\ Forall endpoint_ok e.
Proof.
  unfold parse_endpoints. destruct (_ ≫= _) as [l|]; [|by intros [= <-]].
  destruct (Z.ltb_spec kMaxEndpointsPerPeer (zlen l)); [done|]. intros [= <-].
  pose proof (endpoints_loop_ok l) as [? ?]. split; [lia|done].
Qed.

(** The parsed peer is in bounds, and the identifier map gains at most its
    identifier. *)
Lemma parsePeer_ok node m p m' : parsePeer node m = Returns (p, m') ->
  peer_ok p /\ forall n id, m' !! n = Some id -> m !! n = Some id \/ id = stableId p.
Proof.
  unfold parsePeer. destruct (is_object node); cbn [negb]; [|done]. intros E. unbind E.
  case_bool_decide as Hid; [done|]. unbind E.
  destruct (decodeTypedKey r2 (bs "nodekey:")) as [k|] eqn:Ek; [|done]. unbind E.
  destruct r5 as [addrs routes]. unbind E. pose proof (parseHostinfo_ok node) as Hh.
  destruct (parseHostinfo node) as [[sys ports] known]. injection E as <- <-.
  apply decodeTypedKey_length in Ek. apply parse_disco_ok in E4. apply parse_addresses_ok in E5.
  apply (parse_allowed_ok _ _ _ _ E5) in E6 as (?&?&?). apply parse_endpoints_ok in E7 as [? ?].
  apply parse_home_ok in E8. destruct Hh as (?&?&?&?). split; [by constructor|].
  cbn [stableId]. intros n id. destruct (r0 =? 0); [by left|].
  destruct (decide (r0 = n)) as [->|]; [rewrite lookup_insert_eq; intros [= <-]; by right|].
  rewrite lookup_insert_ne by done. by left.
Qed.

Lemma peers_loop_ok nodes : forall m acc ps m', peers_loop nodes m acc = Returns (ps, m') ->
  exists new, ps = acc ++ new /\ length new = length nodes /\ Forall peer_ok new /\
    forall n id, m' !! n = Some id -> m !! n = Some id \/ id ∈ (stableId <$> new).
Proof.
  induction nodes as [|node rest IH]; intros m acc ps m'; cbn [peers_loop].
  - intros [= <- <-]. exists []. rewrite app_nil_r. split_and!; auto.
  - intros E. unbind E. destruct r as [p m1]. apply parsePeer_ok in E0 as [Hp Hm].
    apply IH in E as (new&->&Hl&Hf&Hm'). exists (p :: new). rewrite <- app_assoc.
    split_and!; [done|simpl; lia|by constructor|].
    intros n id Hn. cbn [fmap list_fmap]. apply Hm' in Hn as [Hn|Hn]; [|right; by apply list_elem_of_further].
    apply Hm in Hn as [Hn| ->]; [by left|right; apply list_elem_of_here].
Qed.

Lemma removed_loop_ok (P : bytes -> Prop) values : forall m acc ids m',
  removed_loop values m acc = (ids, m') ->
  (forall n id, m !! n = Some id -> P id) -> Forall P acc ->
  zlen ids <= zlen acc + zlen values /\ m' ⊆ m /\ Forall P ids.
Proof.
  induction values as [|v rest IH]; intros m acc ids m' E Hm Hacc; cbn [removed_loop] in E.
  - injection E as <- <-. rewrite zlen_nil. split_and!; [lia|done|done].
  - rewrite zlen_cons. destruct (as_unsigned v) as [n|]; cbn [mbind option_bind] in E.
    2: { apply IH in E as (?&?&?); [split_and!; [lia|done|done]|done..]. }
    destruct (m !! n) as [id|] eqn:En; cbn [fmap option_fmap option_map] in E.
    2: { apply IH in E as (?&?&?); [split_and!; [lia|done|done]|done..]. }
    apply IH in E as (Hl&Hs&Hf).
    + rewrite zlen_app, zlen_cons, zlen_nil in Hl. split_and!; [lia| |done].
      etransitivity; [exact Hs|]. apply delete_subseteq.
    + intros k x [_ Hk]%lookup_delete_Some. by eapply Hm.
    + apply list.Forall_app. split; [done|]. repeat constructor. by eapply Hm.
Qed.

Lemma parse_node_ok node n : parse_node signed node = Returns (Some n) -> node_ok signed n.
Proof.
  unfold parse_node. destruct (is_object node); cbn [negb]; [|done]. intros E. unbind E.
  destruct (isPlausibleHostname signed r0) eqn:Eh; cbn [negb] in E; [|done]. unbind E.
  destruct (Z.leb_spec r1 0), (Z.ltb_spec 65535 r1); cbn [orb] in E; try done. unbind E.
  destruct r3; [done|]. injection E as <-. split_and!; cbn [dn_host dn_port dn_stunPort]; [done| | | |].
  1,2: unfold u16; rewrite Z.mod_small by lia; lia.
  all: destruct (Z.ltb_spec r2 0), (Z.ltb_spec 65535 r2); cbn [orb]; try lia.
  all: unfold u16; pose proof (Z.mod_pos_bound (if r2 =? 0 then 3478 else r2) (2 ^ 16)); lia.
Qed.

Lemma nodes_loop_ok nodes : forall acc ns, nodes_loop signed nodes acc = Returns ns ->
  zlen acc <= kMaxDerpNodesPerRegion -> Forall (node_ok signed) acc ->
  zlen ns <= kMaxDerpNodesPerRegion /\ Forall (node_ok signed) ns.
Proof.
  induction nodes as [|node rest IH]; intros acc ns; cbn [nodes_loop]; [by intros [= <-]|].
  destruct (Z.leb_spec kMaxDerpNodesPerRegion (zlen acc)); [by intros [= <-]|].
  intros E Hl Hf. unbind E. destruct r as [n|]; [|by eapply IH].
  apply parse_node_ok in E0. apply IH in E; [done|rewrite zlen_app, zlen_cons, zlen_nil; lia|].
  apply list.Forall_app. split; [done|]. by apply list.Forall_singleton.
Qed.

Lemma region_id_range key i : - 2 ^ 31 <= i < 2 ^ 31 -> region_id key i < 2 ^ 31.
Proof.
  intros Hi. unfold region_id. cbv zeta. destruct (i =? 0); [|lia].
  destruct (bool_decide _), (_ =? _)%nat; cbn [andb]; try lia.
  destruct (0 <? _); cbn [andb]; try lia.
  destruct (Z.leb_spec (fc_value (from_chars_unsigned key 0)) (2 ^ 31 - 1)); lia.
Qed.

Lemma parse_region_ok key region r : parse_region signed key region = Returns (Some r) ->
  region_ok signed r.
Proof.
  unfold parse_region. destruct (is_object region); cbn [negb]; [|done]. intros E. unbind E.
  apply value_int_range in E0; [|done]. apply (region_id_range key) in E0.
  destruct (Z.leb_spec (region_id key r0) 0); [done|]. unbind E.
  case_bool_decide; [done|]. injection E as <-.
  assert (zlen r2 <= kMaxDerpNodesPerRegion /\ Forall (node_ok signed) r2) as [? ?].
  { destruct (_ ≫= as_array) as [l|]; [|by injection E2 as <-]. by eapply nodes_loop_ok. }
  unfold region_ok. cbn [dr_regionId dr_nodes]. split_and!; (done || lia).
Qed.

Lemma regions_loop_ok regions : forall out rs, regions_loop signed regions out = Returns rs ->
  Forall (region_ok signed) out ->
  zlen rs <= zlen out + zlen regions /\ Forall (region_ok signed) rs.
Proof.
  induction regions as [|[key region] rest IH]; intros out rs; cbn [regions_loop].
  - intros [= <-]. rewrite zlen_nil. split; [lia|done].
  - intros E Hf. unbind E. rewrite zlen_cons. destruct r as [x|].
    + apply IH in E as [Hl ?]; [rewrite zlen_app, zlen_cons, zlen_nil in Hl; split; [lia|done]|].
      apply list.Forall_app. split; [done|]. apply list.Forall_singleton. by eapply parse_region_ok.
    + apply IH in E as [Hl ?]; [split; [lia|done]|done].
Qed.

Lemma parseDerpMap_ok root rs : parseDerpMap signed root = Returns rs ->
  zlen rs <= kMaxDerpRegions /\ Forall (region_ok signed) rs.
Proof.
  unfold parseDerpMap. destruct (json_find root _) as [m|]; [|done].
  destruct (is_null m), (is_object m); cbn [negb]; try done.
  destruct (json_find m _) as [g|]; [|done].
  destruct (is_null g), (is_object g); cbn [negb]; try done.
  destruct (Z.ltb_spec kMaxDerpRegions (zlen (json_items g))); [done|].
  intros E. apply regions_loop_ok in E as [Hl ?]; [|done]. rewrite zlen_nil in Hl. split; [lia|done].
Qed.

Lemma limited_ok (root : J) key message l : limited root key message = Returns (Some l) ->
  zlen l <= kMaxPeers.
Proof.
  unfold limited. destruct (_ ≫= _) as [x|]; [|done].
  destruct (Z.ltb_spec kMaxPeers (zlen x)); [done|]. by intros [= <-].
Qed.

Lemma limited_default (root : J) key message l : limited root key message = Returns l ->
  zlen (default [] l) <= kMaxPeers.
Proof. destruct l; [apply limited_ok|done]. Qed.

(** What an accepted update promises, given the identifier map before ([ids])
    and after ([ids']) it. *)
Record update_ok (ids ids' : gmap Z bytes) (u : MapUpdate) : Prop := {
  uo_local : localAddress u = [] \/ isLiteralIPv4 (localAddress u) = true;
  uo_full : forall ps, fullPeers u = Some ps -> zlen ps <= kMaxPeers /\ Forall peer_ok ps;
  uo_changed : zlen (changed (delta u)) <= kMaxPeers /\ Forall peer_ok (changed (delta u));
  uo_counts : zlen (removedStableIds (delta u)) <= kMaxPeers /\ zlen (onlineChanges (delta u)) <= kMaxPeers;
  uo_derp : forall rs, derpMap u = Some rs -> zlen rs <= kMaxDerpRegions /\ Forall (region_ok signed) rs;
  uo_known : let seen := (stableId <$> default [] (fullPeers u)) ++ (stableId <$> changed (delta u)) in
    (forall id, (id ∈ removedStableIds (delta u)) \/ (exists n, ids' !! n = Some id) ->
      id ∈ seen \/ (fullPeers u = None /\ exists n, ids !! n = Some id));
  uo_online : Forall (fun c => exists n, ids' !! n = Some (oc_stableId c)) (onlineChanges (delta u));
}.

Lemma localAddressFromNode_ok root :
  localAddressFromNode root = [] \/ isLiteralIPv4 (localAddressFromNode root) = true.
Proof.
  unfold localAddressFromNode. destruct (json_find root _) as [node|]; [|by left].
  destruct (negb _); [by left|]. destruct (_ ≫= as_array) as [values|]; [|by left].
  induction values as [|v vs IH]; cbn [first_literal]; [by left|].
  destruct (as_string v) as [t|]; [|done]. destruct (isLiteralIPv4 (stripPrefix t)) eqn:E; [by right|done].
Qed.

Lemma decode_update_ok root ids u ids' : decode_update signed root ids = Returns (u, ids') ->
  update_ok ids ids' u /\ keepAlive u = false.
Proof.
  unfold decode_update. intros E. unbind E. destruct r1 as [full ids1]. unbind E.
  destruct r2 as [chg ids2]. unbind E.
  destruct (removed_loop (default [] r2) ids2 []) as [rem ids3] eqn:Er. unbind E. injection E as <- <-.
  apply limited_default in E1, E3, E5, E6. apply peers_loop_ok in E4 as (new&->&Hlen&Hnew&Hids2).
  assert ((full = None /\ ids1 = ids) \/ exists ps, full = Some ps /\ zlen ps <= kMaxPeers /\
    Forall peer_ok ps /\ forall n id, ids1 !! n = Some id -> id ∈ (stableId <$> ps)) as Hfull.
  { destruct r0 as [nodes|]; [|injection E2 as <- <-; by left]. unbind E2. destruct r0 as [ps m].
    injection E2 as <- <-.
    match goal with Hp : peers_loop nodes _ _ = _ |- _ => apply peers_loop_ok in Hp as (ps'&->&Hl&Hps&Hm) end.
    right. exists ps'.
    split_and!; [done|by unfold zlen in *; rewrite Hl; cbn in E1|done|].
    intros n id [Hn|Hn]%Hm; [by rewrite lookup_empty in Hn|done]. }
  assert (forall n id, ids2 !! n = Some id -> id ∈ (stableId <$> default [] full) ++ (stableId <$> new) \/
    (full = None /\ exists n, ids !! n = Some id)) as Hknown.
  { intros n id [Hn|Hn]%Hids2; [|left; apply elem_of_app; by right].
    destruct Hfull as [[-> ->]|(ps&->&_&_&Hps)]; [right; eauto|left; apply elem_of_app; left; by eapply Hps]. }
  destruct (removed_loop_ok _ _ _ _ _ _ Er Hknown (list.Forall_nil_2 _)) as (Hrem&Hsub&Hremk).
  rewrite zlen_nil in Hrem. split; [|done].
  constructor; cbn [fullPeers changed removedStableIds onlineChanges delta derpMap localAddress].
  - apply localAddressFromNode_ok.
  - intros ps ->. destruct Hfull as [[? _]|(?&[= <-]&?&?&_)]; [done|auto].
  - cbn [app]. split; [|done]. unfold zlen in *. by rewrite Hlen.
  - split; [lia|]. etransitivity; [apply zlen_omap|done].
  - intros rs ->. destruct (json_find root (bs "DERPMap")) as [d|]; [|done].
    destruct (is_null d); [done|]. unbind E0. injection E0 as ->. by eapply parseDerpMap_ok.
  - cbv zeta. intros id [Hin|[n Hn]].
    + rewrite list.Forall_forall in Hremk. by apply Hremk.
    + eapply Hknown. by eapply lookup_weaken.
  - apply list.Forall_forall. intros c (patch&_&Hp)%list_elem_of_omap.
    unfold parse_patch in Hp. destruct (is_object patch); [|done]. cbn [negb] in Hp.
    apply bind_Some in Hp as (n&_&Hp). apply bind_Some in Hp as (b&_&Hp).
    apply bind_Some in Hp as (id&Hid&[= <-]). by exists n.
Qed.

Lemma decode_spec ids json :
  match decode signed ids json with
  | (Returns u, ids') => if keepAlive u then ids' = ids else update_ok ids ids' u
  | (_, ids') => ids' = ids
  end.
Proof.
  unfold decode. destruct (kMaxFrameSize <? zlen json); [done|].
  destruct (json_parse json) as [root|]; [|done]. destruct (is_object root); [|done]. cbn [negb].
  destruct (value_bool root _ false) as [[]| |]; [done| |done|done].
  destruct (decode_update signed root ids) as [[u ids']| |] eqn:E; [|done|done].
  by apply decode_update_ok in E as [Hu ->].
Qed.

(** [MapCodec::decode] accepts only updates within bounds, and commits only
    what it accepts. An accepted update has at most 1024 peers, changes, removals
    and patches; every peer has an identifier, 32-byte keys, at most 32 addresses,
    64 routable subnets, 32 literal endpoints with real ports, and distinct real
    service ports; every relay region is plausible and the local address literal. The identifiers it reports
    removed, and those the codec knows afterwards, come from the peers of this
    update or - when it is not a full one - were known before; a presence change
    names a peer still known. A keep-alive, an update that is rejected and one
    that throws leave the identifier map as it was. *)
Theorem decode_bounded ids json :
  match decode signed ids json with
  | (Returns u, ids') => if keepAlive u then ids' = ids else update_ok ids ids' u
  | (_, ids') => ids' = ids
  end.
Proof. apply decode_spec. Qed.

Lemma peer_ok_valid p : peer_ok p -> Forall (fun a => zlen a <= 128) (addresses p) -> validatePeer p = Ok tt.
Proof.
  intros [] Ha. unfold validatePeer. rewrite bool_decide_false by done.
  rewrite (proj2 (Z.ltb_ge _ _)) by tauto. rewrite (proj2 (Z.ltb_ge _ _)) by tauto. cbn [negb].
  assert (existsb (fun a => 128 <? zlen a) (addresses p) = false) as ->; [|done].
  apply not_true_iff_false. intros (a&Hin&Hlt)%existsb_exists. apply Z.ltb_lt in Hlt.
  rewrite list.Forall_forall in Ha. apply list_elem_of_In in Hin. specialize (Ha a Hin). cbv beta in Ha. lia.
Qed.
End bounds.

(** ** Concrete updates *)

Definition ex_key : bytes := repeat (u8 171) 32.
Definition ex_node (id : string) (n : Z) (extra : list (bytes * doc)) : doc :=
  DObject ([(bs "StableID", DString (bs id)); (bs "ID", DNumber n);
    (bs "Key", DString (encodeTypedKey (bs "nodekey:") ex_key));
    (bs "Addresses", DArray [DString (bs "100.64.0.7/32")]);
    (bs "Endpoints", DArray [DString (bs "192.0.2.1:41641"); DString (bs "host:1"); DNumber 3]);
    (bs "HomeDERP", DNumber 1)] ++ extra).
Definition ex_root : doc := DObject [
  (bs "Peers", DArray [ex_node "a" 1 []; ex_node "b" 2 [(bs "Online", DBool true)]]);
  (bs "PeersRemoved", DArray [DNumber 1; DNumber 9]);
  (bs "PeersChangedPatch", DArray [DObject [(bs "NodeID", DNumber 2); (bs "Online", DBool false)]])].

(** A parser that knows one text. *)
Definition ex_parse (root : doc) (text : bytes) : option doc :=
  if bool_decide (text = bs "text") then Some root else None.

Lemma decode_bounded_witness :
  exists u ids', @decode doc (doc_json (ex_parse ex_root)) true ∅ (bs "text") = (Returns u, ids') /\
    update_ok true ∅ ids' u /\ length (default [] (fullPeers u)) = 2%nat /\
    removedStableIds (delta u) = [bs "a"] /\ ids' = {[2 := bs "b"]}.
Proof.
  pose proof (@decode_bounded doc (doc_json (ex_parse ex_root)) (doc_json_laws _) true ∅ (bs "text")) as Hd.
  destruct (@decode doc (doc_json (ex_parse ex_root)) true ∅ (bs "text")) as [[u| |] ids'] eqn:E;
    [|vm_compute in E; discriminate E|vm_compute in E; discriminate E].
  exists u, ids'. vm_compute in E. injection E as <- <-. cbn [keepAlive] in Hd.
  split_and!; [reflexivity|exact Hd|reflexivity|reflexivity|reflexivity].
Defined.

(** A member of the wrong type makes [value] throw, and nothing between the
    codec and the session thread catches it. *)
Example decode_null_name :
  let root := DObject [(bs "Peers", DArray [ex_node "a" 1 [(bs "Name", DNull)]])] in
  @decode doc (doc_json (ex_parse root)) true ∅ (bs "text") = (Throws, ∅).
Proof. vm_compute. reflexivity. Qed.

(** A DERPMap object without Regions is a section [parseDerpMap] treats as
    missing, and [decode] as a failure: the update is dropped without a message. *)
Example decode_empty_derp_map :
  let root := DObject [(bs "DERPMap", DObject []); (bs "Peers", DArray [ex_node "a" 1 []])] in
  @decode doc (doc_json (ex_parse root)) true ∅ (bs "text") = (Reports None, ∅).
Proof. vm_compute. reflexivity. Qed.

(** An address of more than 128 bytes passes [decode], which commits the
    identifier map, and is then refused by the directory with the whole update. *)
Example decode_long_address :
  let root := DObject [(bs "Peers", DArray [ex_node "a" 1 [];
    DObject [(bs "StableID", DString (bs "b")); (bs "ID", DNumber 2);
      (bs "Key", DString (encodeTypedKey (bs "nodekey:") ex_key));
      (bs "Addresses", DArray [DString (repeat (ch "1") 129)])]])] in
  match @decode doc (doc_json (ex_parse root)) true ∅ (bs "text") with
  | (Returns u, ids) => (PeerDirectory.replace (default [] (fullPeers u)) ∅).1 = Err "peer address is oversized"
      /\ ids !! 2 = Some (bs "b")
  | _ => False
  end.
Proof. vm_compute. split; reflexivity. Qed.
