(* ===== verification/Core.v ===== *)
(** The Tailscale engine ([TailscaleCore.hpp], [TailscaleCore.cpp]): the worker
    thread that keeps a control session alive, the calls of other threads (route
    activation, endpoint discovery, start and stop), and the home relay region
    the two advertise. The worker is a program counter with its local variables;
    each of its steps is the code up to the next lock or blocking call, and the
    other threads' calls happen between steps. What a call to a collaborator
    returns (control, overlay, generator, clock) is part of the event; what the
    engine asked of them is recorded in a log. *)

From S2P Require Import Prelude Bytes Text Types PathManager PeerDirectory StateStore ControlCodec.

(** ** State *)

Inductive SnapshotState :=
  Stopped | Starting | NeedsAuthentication | ConnectingControl | ConnectedControl | Ready | Error.

(** [Snapshot]; its peers are copied from the directory by [snapshot]. *)
Record Snapshot := {
  state : SnapshotState;
  sn_localAddress : bytes;
  sn_derpMap : list DerpRegion;
  status : string;
  lastError : string;
}.

Definition set_state (st : SnapshotState) (status_ error : string) (s : Snapshot) : Snapshot :=
  {| state := st; sn_localAddress := sn_localAddress s; sn_derpMap := sn_derpMap s;
     status := status_; lastError := error |}.

(** The fields guarded by [advertiseMutex_], and the sidecar file of the home
    region. *)
Record Advertise := {
  advertisedDerp_ : Z;
  homeDerpHint_ : Z;
  publishedEndpoints_ : list bytes;
  controlConnected_ : bool;
  homeDerpFile : option bytes;
}.

(** Calls of [IControlSession] and [IOverlayRoute], in the order they are made. *)
Inductive control_call :=
| SetInitialPreferredDerp (region : Z)
| SetLocalEndpoints (endpoints : list bytes)
| Connect (authKey : bytes) (ok : bool)
| SendHostinfoUpdate (region : Z) (ok : bool)
| CloseControl
| Interrupt.

Inductive overlay_call :=
| OverlayStart (target : RemoteRouteTarget) (ok : bool)
| OverlayPrepare (target : RemoteRouteTarget) (ok : bool)
| OverlayStop.

Record Core := {
  store : files;
  peers_ : PeerDirectory;
  paths_ : PathManager;
  identity_ : option Identity;
  snapshot_ : Snapshot;
  activeRoute_ : option RemoteRouteTarget;
  stopRequested_ : bool;
  adv : Advertise;
  control_calls : list control_call;
  overlay_calls : list overlay_call;
}.

Definition set_store (f : files) (c : Core) : Core :=
  {| store := f; peers_ := peers_ c; paths_ := paths_ c; identity_ := identity_ c; snapshot_ := snapshot_ c;
     activeRoute_ := activeRoute_ c; stopRequested_ := stopRequested_ c; adv := adv c;
     control_calls := control_calls c; overlay_calls := overlay_calls c |}.
Definition set_peers (d : PeerDirectory) (c : Core) : Core :=
  {| store := store c; peers_ := d; paths_ := paths_ c; identity_ := identity_ c; snapshot_ := snapshot_ c;
     activeRoute_ := activeRoute_ c; stopRequested_ := stopRequested_ c; adv := adv c;
     control_calls := control_calls c; overlay_calls := overlay_calls c |}.
Definition set_paths (p : PathManager) (c : Core) : Core :=
  {| store := store c; peers_ := peers_ c; paths_ := p; identity_ := identity_ c; snapshot_ := snapshot_ c;
     activeRoute_ := activeRoute_ c; stopRequested_ := stopRequested_ c; adv := adv c;
     control_calls := control_calls c; overlay_calls := overlay_calls c |}.
Definition set_identity (i : option Identity) (c : Core) : Core :=
  {| store := store c; peers_ := peers_ c; paths_ := paths_ c; identity_ := i; snapshot_ := snapshot_ c;
     activeRoute_ := activeRoute_ c; stopRequested_ := stopRequested_ c; adv := adv c;
     control_calls := control_calls c; overlay_calls := overlay_calls c |}.
Definition set_snapshot (s : Snapshot) (c : Core) : Core :=
  {| store := store c; peers_ := peers_ c; paths_ := paths_ c; identity_ := identity_ c; snapshot_ := s;
     activeRoute_ := activeRoute_ c; stopRequested_ := stopRequested_ c; adv := adv c;
     control_calls := control_calls c; overlay_calls := overlay_calls c |}.
Definition set_activeRoute (r : option RemoteRouteTarget) (c : Core) : Core :=
  {| store := store c; peers_ := peers_ c; paths_ := paths_ c; identity_ := identity_ c; snapshot_ := snapshot_ c;
     activeRoute_ := r; stopRequested_ := stopRequested_ c; adv := adv c;
     control_calls := control_calls c; overlay_calls := overlay_calls c |}.
Definition set_stopRequested (b : bool) (c : Core) : Core :=
  {| store := store c; peers_ := peers_ c; paths_ := paths_ c; identity_ := identity_ c; snapshot_ := snapshot_ c;
     activeRoute_ := activeRoute_ c; stopRequested_ := b; adv := adv c;
     control_calls := control_calls c; overlay_calls := overlay_calls c |}.
Definition set_adv (a : Advertise) (c : Core) : Core :=
  {| store := store c; peers_ := peers_ c; paths_ := paths_ c; identity_ := identity_ c; snapshot_ := snapshot_ c;
     activeRoute_ := activeRoute_ c; stopRequested_ := stopRequested_ c; adv := a;
     control_calls := control_calls c; overlay_calls := overlay_calls c |}.
Definition control (k : control_call) (c : Core) : Core :=
  {| store := store c; peers_ := peers_ c; paths_ := paths_ c; identity_ := identity_ c; snapshot_ := snapshot_ c;
     activeRoute_ := activeRoute_ c; stopRequested_ := stopRequested_ c; adv := adv c;
     control_calls := control_calls c ++ [k]; overlay_calls := overlay_calls c |}.
Definition overlay (k : overlay_call) (c : Core) : Core :=
  {| store := store c; peers_ := peers_ c; paths_ := paths_ c; identity_ := identity_ c; snapshot_ := snapshot_ c;
     activeRoute_ := activeRoute_ c; stopRequested_ := stopRequested_ c; adv := adv c;
     control_calls := control_calls c; overlay_calls := overlay_calls c ++ [k] |}.

Definition set_advertised (r : Z) (a : Advertise) : Advertise :=
  {| advertisedDerp_ := r; homeDerpHint_ := homeDerpHint_ a; publishedEndpoints_ := publishedEndpoints_ a;
     controlConnected_ := controlConnected_ a; homeDerpFile := homeDerpFile a |}.
Definition set_hint (r : Z) (file : option bytes) (a : Advertise) : Advertise :=
  {| advertisedDerp_ := advertisedDerp_ a; homeDerpHint_ := r; publishedEndpoints_ := publishedEndpoints_ a;
     controlConnected_ := controlConnected_ a; homeDerpFile := file |}.
Definition set_published (eps : list bytes) (a : Advertise) : Advertise :=
  {| advertisedDerp_ := advertisedDerp_ a; homeDerpHint_ := homeDerpHint_ a; publishedEndpoints_ := eps;
     controlConnected_ := controlConnected_ a; homeDerpFile := homeDerpFile a |}.
Definition set_connected (b : bool) (a : Advertise) : Advertise :=
  {| advertisedDerp_ := advertisedDerp_ a; homeDerpHint_ := homeDerpHint_ a;
     publishedEndpoints_ := publishedEndpoints_ a; controlConnected_ := b; homeDerpFile := homeDerpFile a |}.

Definition setState (st : SnapshotState) (status_ error : string) (c : Core) : Core :=
  set_snapshot (set_state st status_ error (snapshot_ c)) c.

(** A message a control session hands to [poll]'s caller. *)
Record PollUpdate := {
  p_delta : PeerDelta;
  p_fullPeers : option (list Peer);
  p_localAddress : bytes;
  p_derpMap : option (list DerpRegion);
}.
Inductive poll_result :=
| Polled (u : PollUpdate)
| PollFailed (error : option string).

(** The answers of the collaborators to one step. [write_hint] is what happens
    to the sidecar file: not opened, or truncated and that many bytes written.
    [votes_order] is the order the vote table is traversed in. *)
Record env := {
  e_renamed : bool;
  e_oracle : oracle;
  e_generated : result Identity;
  e_salt : bytes;
  e_nonce : bytes;
  e_connect : result unit;
  e_poll : poll_result;
  e_sent : bool;
  e_write_hint : option nat;
  e_peers_order : list (bytes * Peer) -> list (bytes * Peer);
  e_votes_order : list (Z * Z) -> list (Z * Z);
  e_now : Z;
}.

(** ** The home relay region *)

Definition is_space (b : byte) : bool := (ub b =? 32) || ((9 <=? ub b) && (ub b <=? 13)).
Fixpoint skip_spaces (l : bytes) : bytes :=
  match l with
  | b :: rest => if is_space b then skip_spaces rest else l
  | [] => []
  end.

(** [in >> region] into an [int]: spaces, an optional sign, digits; out of range
    and no digits both set [failbit]. *)
Definition extract_int (text : bytes) : option Z :=
  let l := skip_spaces text in
  let '(negative, l) := match l with
                        | b :: rest => if bool_decide (b = ch "-") then (true, rest)
                                       else if bool_decide (b = ch "+") then (false, rest) else (false, l)
                        | [] => (false, l)
                        end in
  let digits := take_while is_digit l in
  if bool_decide (digits = []) then None
  else
    let v := if negative then - dec_value digits else dec_value digits in
    if (v <? - 2 ^ 31) || (2 ^ 31 <=? v) then None else Some v.

Definition loadHomeDerpHint (file : option bytes) : Z :=
  match file ≫= extract_int with
  | None => 0
  | Some region => if (region <=? 0) || (65535 <? region) then 0 else region
  end.

Definition saveHomeDerpHint (region : Z) (written : option nat) (file : option bytes) : option bytes :=
  match written with
  | None => file
  | Some n => Some (firstn n (to_string region ++ [u8 10]))
  end.

(** [++votes\[peer.homeDerp\]] for each online peer. *)
Definition tally (peers : list Peer) : gmap Z Z :=
  foldl (fun votes peer =>
    if online peer && (0 <? homeDerp peer)
    then <[homeDerp peer := default 0 (votes !! homeDerp peer) + 1]> votes else votes) ∅ peers.

Fixpoint vote_loop (votes : list (Z * Z)) (best bestVotes : Z) : Z :=
  match votes with
  | [] => best
  | (region, count) :: rest =>
      if (bestVotes <? count) || ((count =? bestVotes) && (region <? best))
      then vote_loop rest region count else vote_loop rest best bestVotes
  end.

Fixpoint lowest_loop (regions : list DerpRegion) (lowest : Z) : Z :=
  match regions with
  | [] => lowest
  | region :: rest =>
      lowest_loop rest
        (if negb (bool_decide (dr_nodes region = [])) && ((lowest =? 0) || (dr_regionId region <? lowest))
         then dr_regionId region else lowest)
  end.

(** [peers] and [order] are the traversals of the two hash maps. *)
Definition chooseDefaultHomeDerp (regions : list DerpRegion) (peers : list Peer)
    (order : list (Z * Z) -> list (Z * Z)) : Z :=
  if bool_decide (regions = []) then 0
  else
    let best := vote_loop (order (map_to_list (tally peers))) 0 0 in
    if 0 <? best then best else lowest_loop regions 0.

(** ** Advertising, under [advertiseMutex_] *)

Section core.
Context `{StateCrypto}.
Variables has_control has_overlay has_generator : bool.

Definition advertiseHomeDerp (region : Z) (e : env) (c : Core) : Core :=
  if (region <=? 0) || negb has_control then c
  else
    let c := if negb (region =? homeDerpHint_ (adv c))
             then set_adv (set_hint region (saveHomeDerpHint region (e_write_hint e) (homeDerpFile (adv c)))
                             (adv c)) c
             else c in
    if negb (controlConnected_ (adv c)) then c
    else if region =? advertisedDerp_ (adv c) then c
    else
      let c := control (SendHostinfoUpdate region (e_sent e)) c in
      if negb (e_sent e) then c else set_adv (set_advertised region (adv c)) c.

Definition publishEndpoints (endpoints_ : list bytes) (e : env) (c : Core) : Core :=
  if negb has_control then c
  else if bool_decide (endpoints_ = publishedEndpoints_ (adv c)) then c
  else
    let c := set_adv (set_published endpoints_ (adv c)) c in
    let c := control (SetLocalEndpoints endpoints_) c in
    if negb (controlConnected_ (adv c)) || (advertisedDerp_ (adv c) <=? 0) then c
    else control (SendHostinfoUpdate (advertisedDerp_ (adv c)) (e_sent e)) c.

(** ** Netmap messages *)

Definition replacePeers (peers : list Peer) (localAddress_ : bytes) (c : Core) : result unit * Core :=
  if negb (isLiteralIPv4 localAddress_) then (Err "control map has no usable IPv4 address", c)
  else
    match replace peers (peers_ c) with
    | (Err e, dir) => (Err e, set_peers dir c)
    | (Ok _, dir) =>
        (Ok tt, set_snapshot {| state := Ready; sn_localAddress := localAddress_;
                                sn_derpMap := sn_derpMap (snapshot_ c); status := "Ready"; lastError := "" |}
                  (set_peers dir c))
    end.

Definition applyPeerDelta (d : PeerDelta) (c : Core) : result unit * Core :=
  let '(r, dir) := apply d (peers_ c) in (r, set_peers dir c).

Definition updateDerpMap (regions : list DerpRegion) (c : Core) : Core :=
  set_snapshot {| state := state (snapshot_ c); sn_localAddress := sn_localAddress (snapshot_ c);
                  sn_derpMap := regions; status := status (snapshot_ c); lastError := lastError (snapshot_ c) |} c.

Definition store_derpMap (o : option (list DerpRegion)) (c : Core) : Core :=
  match o with Some regions => updateDerpMap regions c | None => c end.

Definition no_changes (d : PeerDelta) : bool :=
  bool_decide (changed d = []) && bool_decide (removedStableIds d = []) && bool_decide (onlineChanges d = []).

Inductive SessionResult := SessionStopped | ConnectFailed | DroppedEarly | DroppedAfterData | Fatal.

(** One message of [runControlSession]'s loop, up to [advertiseDefault]: the
    result that ends the session, if it does, and the [error] variable. *)
Definition handle_message (u : PollUpdate) (error : string) (now : Z) (c : Core)
  : option SessionResult * string * Core :=
  match p_fullPeers u with
  | Some full =>
      match replacePeers full (p_localAddress u) c with
      | (Err e, c) =>
          if stopRequested_ c then (Some SessionStopped, e, c)
          else (Some Fatal, e, setState Error "Netmap rejected" e c)
      | (Ok _, c) => (None, error, store_derpMap (p_derpMap u) c)
      end
  | None =>
      let '(error, c) :=
        if no_changes (p_delta u) then (error, c)
        else match applyPeerDelta (p_delta u) c with
             | (Err e, c) => (e, c)
             | (Ok _, c) => (error, c)
             end in
      let c := store_derpMap (p_derpMap u) c in
      let c := if bool_decide (p_localAddress u = []) then c
               else set_snapshot {| state := Ready; sn_localAddress := p_localAddress u;
                                    sn_derpMap := sn_derpMap (snapshot_ c); status := "Ready";
                                    lastError := "" |} c in
      (None, error, set_paths (poll now (paths_ c)) c)
  end.

(** ** The worker thread *)

(** The local variables of [workerMain]'s loop, and of one session. *)
Record Loop := {
  authKey : bytes;
  l_identity : Identity;
  firstSession : bool;
  everProductive : bool;
  backoff : Z;
  attempt : Z;
}.
Record Session := { messageCount : Z; s_error : string }.

Definition kInitialBackoff : Z := 1.
Definition kMaxBackoff : Z := 30.

Definition clear_authKey (l : Loop) : Loop :=
  {| authKey := []; l_identity := l_identity l; firstSession := firstSession l;
     everProductive := everProductive l; backoff := backoff l; attempt := attempt l |}.
Definition productive (l : Loop) : Loop :=
  {| authKey := authKey l; l_identity := l_identity l; firstSession := firstSession l;
     everProductive := true; backoff := kInitialBackoff; attempt := 0 |}.
Definition reconnecting (l : Loop) : Loop :=
  {| authKey := authKey l; l_identity := l_identity l; firstSession := false;
     everProductive := everProductive l; backoff := backoff l; attempt := u32 (attempt l + 1) |}.
Definition doubled (l : Loop) : Loop :=
  {| authKey := authKey l; l_identity := l_identity l; firstSession := firstSession l;
     everProductive := everProductive l; backoff := Z.min (backoff l * 2) kMaxBackoff; attempt := attempt l |}.

(** Where the thread is: [NextSession] at the loop's condition, [Connecting] and
    [InPoll] in a blocking call of the session, [EndSession] before the lock
    that clears [controlConnected_], [Waiting] in [waitBeforeReconnect]. *)
Inductive Worker :=
| NotStarted
| LoadIdentity (authKey passphrase : bytes)
| LoadHint (authKey : bytes) (identity : Identity)
| NextSession (l : Loop)
| Connecting (l : Loop) (hint : Z)
| RegisterSession (l : Loop) (hint : Z)
| Polling (l : Loop) (s : Session)
| InPoll (l : Loop) (s : Session)
| CheckDefault (l : Loop) (s : Session)
| AdvertiseDefault (l : Loop) (s : Session) (region : Z)
| EndSession (l : Loop) (r : SessionResult)
| AfterSession (l : Loop) (r : SessionResult)
| Waiting (l : Loop)
| Finished.

(** The first part of [workerMain]: the saved identity, or a new one. *)
Definition worker_identity (passphrase : bytes) (e : env) (c : Core) : option Identity * Core :=
  let '(loaded, f) := load (e_renamed e) passphrase (store c) in
  let c := set_store f c in
  let generate :=
    match (if has_generator then e_generated e
           else Err match loaded with Err msg => msg | Ok _ => "" end) with
    | Err msg => (None, setState Error "Identity generation failed" msg c)
    | Ok generated =>
        let protection := if bool_decide (passphrase = []) then Plain else Passphrase in
        let '(trace, r) := save (e_oracle e) generated protection passphrase default_kdf (e_salt e) (e_nonce e)
                             (store c) in
        let c := set_store (List.last trace (store c)) c in
        match r with
        | Err msg => (None, setState Error "Identity save failed" msg c)
        | Ok _ => (Some generated, c)
        end
    end in
  match loaded with
  | Ok identity_ => if isWeakIdentity identity_ then generate else (Some identity_, c)
  | Err msg =>
      if bool_decide (msg = "Tailscale state does not exist") then generate
      else (None, setState Error "Identity unavailable" msg c)
  end.

(** [runControlSession] after [connect] returned. *)
Definition session_connect (l : Loop) (hint : Z) (e : env) (c : Core) : Worker * Core :=
  let hadAuthKey := negb (bool_decide (authKey l = [])) in
  match e_connect e with
  | Err msg =>
      let c := control (Connect (authKey l) false) c in
      let '(l, c) := if firstSession l
        then (clear_authKey l,
              setState (if hadAuthKey then Error else NeedsAuthentication) "Authentication failed" msg c)
        else (l, setState ConnectingControl "Reconnecting to control" msg c) in
      (AfterSession l (if stopRequested_ c then SessionStopped else ConnectFailed), c)
  | Ok _ =>
      (RegisterSession (clear_authKey l) hint,
       setState ConnectedControl "Control connected" "" (control (Connect (authKey l) true) c))
  end.

(** [poll] returned. *)
Definition session_poll (l : Loop) (s : Session) (e : env) (c : Core) : Worker * Core :=
  match e_poll e with
  | PollFailed error =>
      let error := default (s_error s) error in
      if stopRequested_ c then (EndSession l SessionStopped, c)
      else if 0 <? messageCount s
           then (EndSession l DroppedAfterData, setState ConnectingControl "Reconnecting to control" error c)
           else (EndSession l DroppedEarly, setState Error "Control disconnected" error c)
  | Polled u =>
      let count := u64 (messageCount s + 1) in
      match handle_message u (s_error s) (e_now e) c with
      | (Some r, _, c) => (EndSession l r, c)
      | (None, error, c) => (CheckDefault l {| messageCount := count; s_error := error |}, c)
      end
  end.

Definition worker_step (e : env) (w : Worker) (c : Core) : Worker * Core :=
  match w with
  | NotStarted | Finished => (w, c)
  | LoadIdentity authKey passphrase =>
      match worker_identity passphrase e c with
      | (None, c) => (Finished, c)
      | (Some identity_, c) =>
          let c := set_identity (Some identity_) c in
          if negb has_control
          then (Finished, setState Error "Control unavailable" "Tailscale control transport is not linked" c)
          else (LoadHint authKey identity_, c)
      end
  | LoadHint authKey identity_ =>
      let c := if homeDerpHint_ (adv c) =? 0
               then set_adv (set_hint (loadHomeDerpHint (homeDerpFile (adv c))) (homeDerpFile (adv c)) (adv c)) c
               else c in
      (NextSession {| authKey := authKey; l_identity := identity_; firstSession := true;
                      everProductive := false; backoff := kInitialBackoff; attempt := 0 |}, c)
  | NextSession l =>
      if stopRequested_ c then (Finished, c)
      else
        let hint := homeDerpHint_ (adv c) in
        (Connecting l hint,
         setState ConnectingControl (if firstSession l then "Connecting control" else "Reconnecting to control") ""
           (control (SetInitialPreferredDerp hint) c))
  | Connecting l hint => session_connect l hint e c
  | RegisterSession l hint =>
      (Polling l {| messageCount := 0; s_error := "" |},
       set_adv (set_connected true (set_advertised hint (adv c))) c)
  | Polling l s => if stopRequested_ c then (EndSession l SessionStopped, c) else (InPoll l s, c)
  | InPoll l s => session_poll l s e c
  | CheckDefault l s =>
      if negb (advertisedDerp_ (adv c) =? 0) then (Polling l s, c)
      else (AdvertiseDefault l s
              (chooseDefaultHomeDerp (sn_derpMap (snapshot_ c))
                 (snd <$> e_peers_order e (map_to_list (peers_ c))) (e_votes_order e)), c)
  | AdvertiseDefault l s region => (Polling l s, advertiseHomeDerp region e c)
  | EndSession l r =>
      (AfterSession l r, control CloseControl (set_adv (set_connected false (adv c)) c))
  | AfterSession l r =>
      if match r with SessionStopped => true | _ => stopRequested_ c end then (Finished, c)
      else
        match r with
        | Fatal => (Finished, c)
        | _ =>
            let l := match r with DroppedAfterData => productive l | _ => l end in
            if negb (everProductive l) then (Finished, c) else (Waiting (reconnecting l), c)
        end
  | Waiting l => if stopRequested_ c then (Finished, c) else (NextSession (doubled l), c)
  end.

(** ** The other threads *)

(** The thread in [activateRoute]'s critical section ([routeMutex_]). *)
Inductive RouteCaller :=
| NoCaller
| Advertising (target : RemoteRouteTarget) (region : Z)
| StartingRoute (target : RemoteRouteTarget).

Record system := { core : Core; worker : Worker; route : RouteCaller; stopping : bool }.

(** [activateRoute]: the reuse check and the region to advertise; [Some true]
    is a result returned at once. *)
Definition activateRoute_begin (target : RemoteRouteTarget) (c : Core) : bool + RouteCaller :=
  if negb has_overlay then inl false
  else if match activeRoute_ c with
          | Some r => bool_decide (rt_peerId r = rt_peerId target) &&
                      bool_decide (rt_targetAddress r = rt_targetAddress target)
          | None => false
          end then inl true
  else inr (match findByStableId (rt_peerId target) (peers_ c) with
            | Some peer => if 0 <? homeDerp peer then Advertising target (homeDerp peer) else StartingRoute target
            | None => StartingRoute target
            end).

Definition activateRoute_start (target : RemoteRouteTarget) (started : result unit) (c : Core) : bool * Core :=
  let c := overlay OverlayStop c in
  match started with
  | Err msg =>
      (false, set_activeRoute None (setState Error "Route failed" msg (overlay (OverlayStart target false) c)))
  | Ok _ => (true, set_activeRoute (Some target) (overlay (OverlayStart target true) c))
  end.

Definition prepareRouteForStreaming (target : RemoteRouteTarget) (prepared : result unit) (c : Core) : bool * Core :=
  if negb has_overlay || negb match activeRoute_ c with
                              | Some r => bool_decide (rt_peerId r = rt_peerId target) | None => false end
  then (false, c)
  else
    match prepared with
    | Err msg => (false, setState Error "Stream route failed" msg (overlay (OverlayPrepare target false) c))
    | Ok _ => (true, overlay (OverlayPrepare target true) c)
    end.

Definition deactivateRoute (target : RemoteRouteTarget) (c : Core) : Core :=
  if has_overlay && match activeRoute_ c with
                    | Some r => bool_decide (rt_peerId r = rt_peerId target) &&
                                bool_decide (rt_targetAddress r = rt_targetAddress target)
                    | None => false
                    end
  then set_activeRoute None (overlay OverlayStop c) else c.

(** The hook a route's path observer calls. *)
Definition path_changed (peerId endpoint : bytes) (rttMs now : Z) (c : Core) : Core :=
  set_paths (if bool_decide (endpoint = []) then directLost peerId (paths_ c)
             else directPong peerId endpoint rttMs now (paths_ c)) c.

(** [stop] up to the join, and after it. *)
Definition stop_request (c : Core) : Core :=
  let c := set_stopRequested true c in
  if has_control then control Interrupt c else c.
Definition stop_finish (c : Core) : Core :=
  let c := if has_control then control CloseControl c else c in
  let c := set_activeRoute None (if has_overlay then overlay OverlayStop c else c) in
  setState Stopped "Stopped" "" c.

Inductive event :=
| Start (authKey passphrase : bytes)
| StopRequest
| StopFinish
| WorkerStep (e : env)
| RouteEnter (target : RemoteRouteTarget)
| RouteAdvertise (e : env)
| RouteStart (started : result unit)
| Prepare (target : RemoteRouteTarget) (prepared : result unit)
| Deactivate (target : RemoteRouteTarget)
| PublishEndpoints (endpoints_ : list bytes) (e : env)
| PathChanged (peerId endpoint : bytes) (rttMs now : Z).

Definition with_core (f : Core -> Core) (s : system) : system :=
  {| core := f (core s); worker := worker s; route := route s; stopping := stopping s |}.
Definition with_worker (w : Worker) (s : system) : system :=
  {| core := core s; worker := w; route := route s; stopping := stopping s |}.
Definition with_route (r : RouteCaller) (s : system) : system :=
  {| core := core s; worker := worker s; route := r; stopping := stopping s |}.
Definition with_stopping (b : bool) (s : system) : system :=
  {| core := core s; worker := worker s; route := route s; stopping := b |}.

Definition start (authKey passphrase : bytes) (s : system) : system :=
  match worker s with
  | NotStarted =>
      with_worker (LoadIdentity authKey passphrase)
        (with_core (fun c => setState Starting "Starting" "" (set_stopRequested false c)) s)
  | _ => s
  end.

(** An event whose thread is waiting (for [routeMutex_], for the join, or
    because it is not at that point) leaves the system as it is. [start] and
    [stop] are called by one thread, the owner of the engine. *)
Definition step (s : system) (ev : event) : system :=
  match ev with
  | Start authKey passphrase => if stopping s then s else start authKey passphrase s
  | StopRequest => with_stopping true (with_core stop_request s)
  | StopFinish =>
      match stopping s, worker s, route s with
      | true, (NotStarted | Finished), NoCaller => with_stopping false (with_worker NotStarted (with_core stop_finish s))
      | _, _, _ => s
      end
  | WorkerStep e => let '(w, c) := worker_step e (worker s) (core s) in with_worker w (with_core (fun _ => c) s)
  | RouteEnter target =>
      match route s with
      | NoCaller => match activateRoute_begin target (core s) with inr r => with_route r s | inl _ => s end
      | _ => s
      end
  | RouteAdvertise e =>
      match route s with
      | Advertising target region =>
          with_route (StartingRoute target) (with_core (advertiseHomeDerp region e) s)
      | _ => s
      end
  | RouteStart started =>
      match route s with
      | StartingRoute target =>
          with_route NoCaller (with_core (fun c => snd (activateRoute_start target started c)) s)
      | _ => s
      end
  | Prepare target prepared =>
      match route s with
      | NoCaller => with_core (fun c => snd (prepareRouteForStreaming target prepared c)) s
      | _ => s
      end
  | Deactivate target => match route s with NoCaller => with_core (deactivateRoute target) s | _ => s end
  | PublishEndpoints eps e => with_core (publishEndpoints eps e) s
  | PathChanged peerId endpoint rttMs now => with_core (path_changed peerId endpoint rttMs now) s
  end.

Definition fresh_core (f : files) (hint_file : option bytes) : Core :=
  {| store := f; peers_ := ∅; paths_ := ∅; identity_ := None;
     snapshot_ := {| state := Stopped; sn_localAddress := []; sn_derpMap := []; status := ""; lastError := "" |};
     activeRoute_ := None; stopRequested_ := false;
     adv := {| advertisedDerp_ := 0; homeDerpHint_ := 0; publishedEndpoints_ := []; controlConnected_ := false;
               homeDerpFile := hint_file |};
     control_calls := []; overlay_calls := [] |}.
Definition fresh (f : files) (hint_file : option bytes) : system :=
  {| core := fresh_core f hint_file; worker := NotStarted; route := NoCaller; stopping := false |}.
Definition run (s : system) (es : list event) : system := foldl step s es.
End core.

(** ** What the collaborators have been told *)

(** The home region control has: the one of the map request, then that of each
    accepted update. The pair is (the region for the next request, the region
    told). *)
Definition hear (t : Z * Z) (k : control_call) : Z * Z :=
  match k with
  | SetInitialPreferredDerp r => (Z.max r 0, t.2)
  | Connect _ true => (t.1, t.1)
  | SendHostinfoUpdate r true => (t.1, r)
  | _ => t
  end.
Definition heard (ks : list control_call) : Z * Z := foldl hear (0, 0) ks.
Definition told_region (ks : list control_call) : Z := (heard ks).2.

(** The UDP endpoints control has, likewise. *)
Definition hear_endpoints (t : list bytes * list bytes) (k : control_call) : list bytes * list bytes :=
  match k with
  | SetLocalEndpoints eps => (eps, t.2)
  | Connect _ true => (t.1, t.1)
  | SendHostinfoUpdate _ true => (t.1, t.1)
  | _ => t
  end.
Definition told_endpoints (ks : list control_call) : list bytes := (foldl hear_endpoints ([], []) ks).2.

(** What [IOverlayRoute] expects of its user: a route is started only over a
    stopped overlay, and prepared for streaming only while it carries a route
    to the same peer. The state is the running route; [None] is a breach. *)
Definition overlay_next (st : option RemoteRouteTarget) (k : overlay_call) : option (option RemoteRouteTarget) :=
  match k with
  | OverlayStop => Some None
  | OverlayStart t ok => match st with None => Some (if ok : bool then Some t else None) | Some _ => None end
  | OverlayPrepare t _ =>
      match st with
      | Some r => if bool_decide (rt_peerId r = rt_peerId t) then Some st else None
      | None => None
      end
  end.
Definition overlay_state (ks : list overlay_call) : option (option RemoteRouteTarget) :=
  foldl (fun o k => st ← o; overlay_next st k) (Some None) ks.

(** Login keys handed to control. *)
Definition offers_key (k : control_call) : bool :=
  match k with Connect key _ => negb (bool_decide (key = [])) | _ => false end.
Definition offers (ks : list control_call) : nat := length (List.filter offers_key ks).

Definition in_session (w : Worker) : bool :=
  match w with
  | Polling _ _ | InPoll _ _ | CheckDefault _ _ | AdvertiseDefault _ _ _ | EndSession _ _ => true
  | _ => false
  end.

Definition loop_of (w : Worker) : option Loop :=
  match w with
  | NextSession l | Connecting l _ | RegisterSession l _ | Polling l _ | InPoll l _ | CheckDefault l _
  | AdvertiseDefault l _ _ | EndSession l _ | AfterSession l _ | Waiting l => Some l
  | _ => None
  end.

#[local] Arguments offers : simpl never.
#[local] Arguments heard : simpl never.
#[local] Arguments overlay_state : simpl never.

Lemma heard_snoc ks k : heard (ks ++ [k]) = hear (heard ks) k.
Proof. unfold heard. by rewrite foldl_snoc. Qed.

Lemma offers_snoc ks k : offers (ks ++ [k]) = (offers ks + if offers_key k then 1 else 0)%nat.
Proof. unfold offers. rewrite List.filter_app, length_app. cbn [List.filter]. by destruct (offers_key k). Qed.

Lemma overlay_state_snoc ks k : overlay_state (ks ++ [k]) = (st ← overlay_state ks; overlay_next st k).
Proof. unfold overlay_state. by rewrite foldl_snoc. Qed.

Section invariants.
Context `{StateCrypto}.
Variables has_control has_overlay has_generator : bool.
Local Abbreviation run := (run has_control has_overlay has_generator).
Local Abbreviation step := (step has_control has_overlay has_generator).
Local Abbreviation worker_step := (worker_step has_control has_generator).

(** An invariant of the steps holds in every run. *)
Lemma run_invariant (P : system -> Prop) es : forall s,
  P s -> (forall s ev, P s -> P (step s ev)) -> P (run s es).
Proof.
  unfold Core.run. induction es as [|ev es IH]; intros s Hs Hstep; cbn [foldl]; [done|]. auto.
Qed.

(** Steps that leave the advertising state, the logs, the route and the stop
    flag alone. *)
Definition quiet (c c' : Core) : Prop :=
  adv c' = adv c /\ control_calls c' = control_calls c /\ overlay_calls c' = overlay_calls c /\
  activeRoute_ c' = activeRoute_ c /\ stopRequested_ c' = stopRequested_ c.

Lemma worker_identity_quiet passphrase e c : quiet c (worker_identity has_generator passphrase e c).2.
Proof.
  unfold worker_identity. destruct (load _ _ _) as [loaded f]. cbv zeta.
  set (gen := match (if has_generator then _ else _) with Ok _ => _ | Err _ => _ end).
  assert (quiet c gen.2) as Hg.
  { unfold gen. destruct (if has_generator then _ else _) as [generated|msg]; [|done].
    destruct (save _ _ _ _ _ _ _) as [trace [[]|msg]]; done. }
  clearbody gen. destruct loaded as [i|msg].
  - by destruct (isWeakIdentity i).
  - by destruct (bool_decide _).
Qed.

Lemma store_derpMap_quiet o c : quiet c (store_derpMap o c).
Proof. by destruct o. Qed.

Lemma replacePeers_quiet peers a c : quiet c (replacePeers peers a c).2.
Proof. unfold replacePeers. destruct (negb _); [done|]. by destruct (replace _ _) as [[]]. Qed.

Lemma applyPeerDelta_quiet d c : quiet c (applyPeerDelta d c).2.
Proof. unfold applyPeerDelta. by destruct (apply _ _). Qed.

Lemma quiet_trans c c' c'' : quiet c c' -> quiet c' c'' -> quiet c c''.
Proof. unfold quiet. intuition congruence. Qed.

Lemma handle_message_quiet u error now c : quiet c (handle_message u error now c).2.
Proof.
  unfold handle_message. destruct (p_fullPeers u) as [full|].
  - pose proof (replacePeers_quiet full (p_localAddress u) c) as Hq.
    destruct (replacePeers _ _ c) as [[[]|e] c1]; cbn [snd] in Hq |- *.
    + eapply quiet_trans; [exact Hq|apply store_derpMap_quiet].
    + by destruct (stopRequested_ c1).
  - pose proof (applyPeerDelta_quiet (p_delta u) c) as Hq.
    assert (forall err c1, quiet c c1 -> quiet c (
      let c2 := store_derpMap (p_derpMap u) c1 in
      let c3 := if bool_decide (p_localAddress u = []) then c2
               else set_snapshot {| state := Ready; sn_localAddress := p_localAddress u;
                                    sn_derpMap := sn_derpMap (snapshot_ c2); status := "Ready";
                                    lastError := "" |} c2 in
      (@None SessionResult, err : string, set_paths (poll now (paths_ c3)) c3)).2) as Hrest.
    { intros err c1 Hc. pose proof (store_derpMap_quiet (p_derpMap u) c1) as Hs.
      pose proof (quiet_trans _ _ _ Hc Hs). cbv zeta. by destruct (bool_decide _). }
    destruct (no_changes _); [by apply Hrest|].
    destruct (applyPeerDelta _ _) as [[[]|e] c1]; by apply Hrest.
Qed.

(** ** The home region *)

Definition positive_send (k : control_call) : Prop :=
  match k with SendHostinfoUpdate r _ => 0 < r | _ => True end.

Record adv_ok (a : Advertise) (ks : list control_call) : Prop := {
  ao_told : controlConnected_ a = true -> advertisedDerp_ a = told_region ks;
  ao_hint : 0 <= homeDerpHint_ a;
  ao_sends : Forall positive_send ks;
}.

(** What another thread's step may do to the logs: before a session is
    registered it tells control nothing. *)
Definition heard_kept (c c' : Core) : Prop :=
  controlConnected_ (adv c') = controlConnected_ (adv c) /\
  (heard (control_calls c')).1 = (heard (control_calls c)).1 /\
  (controlConnected_ (adv c) = false -> heard (control_calls c') = heard (control_calls c)).

Lemma advertiseHomeDerp_ok region e c : adv_ok (adv c) (control_calls c) ->
  let c' := advertiseHomeDerp has_control region e c in
  adv_ok (adv c') (control_calls c') /\ heard_kept c c'.
Proof.
  intros Hok. unfold advertiseHomeDerp. destruct (Z.leb_spec region 0) as [|Hr]; [done|]. cbn [orb].
  destruct has_control; [|done]. cbn [negb].
  set (c1 := if negb (region =? homeDerpHint_ (adv c)) then _ else _).
  assert (adv_ok (adv c1) (control_calls c1) /\ heard_kept c c1) as [Hok1 Hk1].
  { destruct Hok. unfold c1. destruct (_ =? _); [done|]. split; [constructor|]; cbn; try done. lia. }
  destruct (controlConnected_ (adv c1)) eqn:Econ; cbn [negb]; [|done].
  destruct (Z.eqb_spec region (advertisedDerp_ (adv c1))) as [|Hne]; [done|].
  destruct Hok1 as [Ht Hh Hs]. destruct Hk1 as (Hc&H1&Hk).
  destruct (e_sent e) eqn:Es; cbn [negb].
  - split; [constructor|split_and!]; cbn.
    + intros _. unfold told_region. by rewrite heard_snoc.
    + done.
    + apply list.Forall_app. split; [done|]. by apply list.Forall_singleton.
    + done.
    + by rewrite heard_snoc.
    + congruence.
  - split; [constructor|split_and!]; cbn.
    + intros E. unfold told_region. rewrite heard_snoc. by apply Ht.
    + done.
    + apply list.Forall_app. split; [done|]. by apply list.Forall_singleton.
    + done.
    + by rewrite heard_snoc.
    + congruence.
Qed.

Lemma publishEndpoints_ok eps e c : adv_ok (adv c) (control_calls c) ->
  let c' := publishEndpoints has_control eps e c in
  adv_ok (adv c') (control_calls c') /\ heard_kept c c'.
Proof.
  intros Hok. unfold publishEndpoints. destruct has_control; [|done]. cbn [negb].
  destruct (bool_decide _); [done|]. cbv zeta.
  set (c1 := control _ _). destruct Hok as [Ht Hh Hs].
  assert (adv_ok (adv c1) (control_calls c1) /\ heard (control_calls c1) = heard (control_calls c)) as [Hok1 Hk1].
  { unfold c1. split; [constructor|]; cbn; rewrite ?heard_snoc; [|done| |done].
    - intros E. unfold told_region. rewrite heard_snoc. by apply Ht.
    - apply list.Forall_app. split; [done|]. by apply list.Forall_singleton. }
  assert (controlConnected_ (adv c1) = controlConnected_ (adv c)) as Hc by done.
  pose proof Hok1 as [Ht1 Hh1 Hs1].
  destruct (controlConnected_ (adv c1)) eqn:Econ; cbn [negb orb].
  - destruct (Z.leb_spec (advertisedDerp_ (adv c1)) 0) as [|Hp].
    + split; [done|]. unfold heard_kept. rewrite Hk1. split_and!; congruence.
    + split; [constructor|split_and!].
      * cbn [adv control]. intros E. unfold told_region. cbn [control_calls control]. rewrite heard_snoc.
        rewrite Ht1 by done. by destruct (e_sent e).
      * done.
      * cbn [control_calls control]. apply list.Forall_app. split; [done|]. by apply list.Forall_singleton.
      * cbn [adv control]. congruence.
      * cbn [control_calls control]. rewrite heard_snoc, Hk1. by destruct (e_sent e).
      * cbn [adv control]. congruence.
  - split; [done|]. unfold heard_kept. rewrite Hk1. split_and!; congruence.
Qed.

Record home_inv (s : system) : Prop := {
  hi_adv : adv_ok (adv (core s)) (control_calls (core s));
  hi_session : controlConnected_ (adv (core s)) = in_session (worker s);
  hi_hint : match worker s with
            | Connecting _ hint => (heard (control_calls (core s))).1 = hint
            | RegisterSession _ hint => told_region (control_calls (core s)) = hint
            | _ => True
            end;
}.

Lemma home_inv_kept (s s' : system) : home_inv s -> worker s' = worker s ->
  adv_ok (adv (core s')) (control_calls (core s')) -> heard_kept (core s) (core s') -> home_inv s'.
Proof.
  intros [Ha Hs Hh] Ew Ha' (Hc&H1&Hk). constructor; [done|by rewrite Hc, Ew|].
  rewrite Ew. destruct (worker s); try done; [by rewrite H1|].
  unfold told_region in *. by rewrite Hk.
Qed.

(** A log entry that tells control nothing. *)
Lemma adv_ok_snoc a ks k : hear (heard ks) k = heard ks -> positive_send k -> adv_ok a ks -> adv_ok a (ks ++ [k]).
Proof.
  intros Hk Hp [Ht Hh Hs]. constructor; [|done|].
  - intros E. unfold told_region. rewrite heard_snoc, Hk. by apply Ht.
  - apply list.Forall_app. split; [done|]. by apply list.Forall_singleton.
Qed.

Lemma connected_told a ks k : adv_ok a ks -> controlConnected_ a = false -> positive_send k -> adv_ok a (ks ++ [k]).
Proof.
  intros [Ht Hh Hs] Hc Hp. constructor; [congruence|done|].
  apply list.Forall_app. split; [done|]. by apply list.Forall_singleton.
Qed.

Lemma heard_kept_snoc c k : hear (heard (control_calls c)) k = heard (control_calls c) -> heard_kept c (control k c).
Proof. intros Hk. unfold heard_kept. cbn [adv control control_calls]. by rewrite heard_snoc, Hk. Qed.

Lemma session_connect_home l hint e c :
  adv_ok (adv c) (control_calls c) -> controlConnected_ (adv c) = false -> (heard (control_calls c)).1 = hint ->
  let '(w, c') := session_connect l hint e c in
  home_inv {| core := c'; worker := w; route := NoCaller; stopping := false |}.
Proof.
  intros Ha Hc Hh. unfold session_connect.
  destruct (e_connect e) as [[]|msg].
  - constructor; cbn; [by apply connected_told|done|]. unfold told_region. by rewrite heard_snoc, <- Hh.
  - destruct (firstSession l); (constructor; [by apply connected_told|done|done]).
Qed.

Lemma session_poll_home l s e c :
  adv_ok (adv c) (control_calls c) -> controlConnected_ (adv c) = true ->
  let '(w, c') := session_poll l s e c in
  home_inv {| core := c'; worker := w; route := NoCaller; stopping := false |}.
Proof.
  intros Ha Hc. unfold session_poll. destruct (e_poll e) as [u|error].
  - pose proof (handle_message_quiet u (s_error s) (e_now e) c) as Hq.
    destruct (handle_message _ _ _ c) as [[[r|] err] c1]; destruct Hq as (Ea&Ek&_); cbn [snd] in Ea, Ek;
      (constructor; cbn; rewrite ?Ea, ?Ek; [done|done|done]).
  - destruct (stopRequested_ c); [by constructor|]. destruct (0 <? messageCount s); by constructor.
Qed.

Lemma worker_step_home e (w : Worker) (c : Core) r b :
  home_inv {| core := c; worker := w; route := r; stopping := b |} ->
  let '(w', c') := worker_step e w c in
  home_inv {| core := c'; worker := w'; route := r; stopping := b |}.
Proof.
  intros [Ha Hc Hh]. cbn [core worker] in *.
  assert (forall x : Worker * Core,
    (let '(w', c') := x in home_inv {| core := c'; worker := w'; route := NoCaller; stopping := false |}) ->
    let '(w', c') := x in home_inv {| core := c'; worker := w'; route := r; stopping := b |}) as Hany.
  { intros [w' c'] []. by constructor. }
  destruct w; cbn [Core.worker_step in_session] in *.
  - by constructor.
  - pose proof (worker_identity_quiet passphrase e c) as Hq.
    destruct (worker_identity _ _ _ c) as [[i|] c1]; destruct Hq as (Ea&Ek&_); cbn [snd] in Ea, Ek;
      [destruct has_control|]; (constructor; cbn; rewrite ?Ea, ?Ek; done).
  - pose proof Ha as [Ht Hi Hs]. constructor; cbn [core worker]; [|by destruct (_ =? 0)|done].
    destruct (_ =? 0); [|done]. constructor; cbn; [done| |done].
    unfold loadHomeDerpHint. destruct (_ ≫= _) as [v|]; [|done].
    destruct (Z.leb_spec v 0); [done|]. cbn [orb]. destruct (_ <? _); lia.
  - destruct (stopRequested_ c); [by constructor|].
    pose proof (ao_hint _ _ Ha). constructor; cbn; [by apply connected_told|done|].
    rewrite heard_snoc. cbn. lia.
  - apply Hany. by apply session_connect_home.
  - constructor; cbn; [|done|done]. destruct Ha as [Ht Hi Hs]. by constructor.
  - destruct (stopRequested_ c); by constructor.
  - apply Hany. by apply session_poll_home.
  - destruct (negb _); by constructor.
  - destruct (advertiseHomeDerp_ok region e c Ha) as [Ha' (Hc'&_)].
    constructor; cbn; [done|by rewrite Hc'|done].
  - constructor; cbn; [|done|done]. apply connected_told; [|done|done].
    destruct Ha as [Ht Hi Hs]. by constructor.
  - destruct (match r0 with SessionStopped => true | _ => _ end); [by constructor|].
    destruct r0; try (by constructor); (destruct (negb _); by constructor).
  - destruct (stopRequested_ c); by constructor.
  - by constructor.
Qed.

Lemma step_home s ev : home_inv s -> home_inv (step s ev).
Proof.
  intros Hi. pose proof Hi as [Ha Hc Hh].
  destruct ev; cbn [Core.step].
  - destruct (stopping s); [done|]. unfold start. by destruct (worker s) eqn:Ew.
  - apply (home_inv_kept s); [done|done|..]; cbn [core with_stopping with_core]; unfold stop_request;
      (destruct has_control; [|done]).
    + by apply adv_ok_snoc.
    + by apply (heard_kept_snoc (set_stopRequested true (core s))).
  - assert (forall w, in_session w = false -> worker s = w ->
      home_inv (with_stopping false (with_worker NotStarted (with_core (stop_finish has_control has_overlay) s)))) as Hstop.
    { intros w Hw Ew. rewrite Ew, Hw in Hc. unfold stop_finish.
      destruct has_control, has_overlay; (constructor; [|exact Hc|done]); cbn; try done; by apply adv_ok_snoc. }
    destruct (stopping s), (worker s) eqn:Ew, (route s); try done; by apply (Hstop (worker s)); rewrite Ew.
  - destruct s as [c w r b]. cbn [core worker]. pose proof (worker_step_home e w c r b Hi) as Hw.
    by destruct (worker_step e w c).
  - destruct (route s); try done. by destruct (activateRoute_begin _ _ _).
  - destruct (route s) as [|target region|]; try done.
    destruct (advertiseHomeDerp_ok region e (core s) Ha) as [Ha' Hk]. by apply (home_inv_kept s).
  - destruct (route s) as [| |target]; try done.
    apply (home_inv_kept s); [done|done|..]; cbn [core with_route with_core]; by destruct started.
  - destruct (route s); try done. unfold prepareRouteForStreaming.
    apply (home_inv_kept s); [done|done|..]; cbn [core with_core]; (destruct (_ || _); [done|]); by destruct prepared.
  - destruct (route s); try done. unfold deactivateRoute.
    apply (home_inv_kept s); [done|done|..]; cbn [core with_core]; by destruct (_ && _).
  - destruct (publishEndpoints_ok endpoints_ e (core s) Ha) as [Ha' Hk]. by apply (home_inv_kept s).
  - by apply (home_inv_kept s).
Qed.

(** C13: the home region the engine believes control has is the one control was
    told. In every interleaving of the worker with route activations, endpoint
    updates and stops: while a session is up, [advertisedDerp_] is the region of
    the session's map request or of the last update control accepted after it;
    and no update ever carries region 0, which would clear the home region of
    this node for its peers. *)
Theorem home_region_tracked f file es :
  let c := core (run (fresh f file) es) in
  (controlConnected_ (adv c) = true -> advertisedDerp_ (adv c) = told_region (control_calls c)) /\
  forall region ok, SendHostinfoUpdate region ok ∈ control_calls c -> 0 < region.
Proof.
  assert (home_inv (run (fresh f file) es)) as [[Ht _ Hs] _ _].
  { apply run_invariant; [|apply step_home]. by repeat constructor. }
  split; [done|]. intros region ok Hin. rewrite list.Forall_forall in Hs. by apply (Hs _ Hin).
Qed.

(** ** Routes *)

(** Advertising touches only the advertising state and control's log. *)
Definition same_but_adv (c c' : Core) : Prop :=
  peers_ c' = peers_ c /\ paths_ c' = paths_ c /\ snapshot_ c' = snapshot_ c /\
  overlay_calls c' = overlay_calls c /\ activeRoute_ c' = activeRoute_ c /\ stopRequested_ c' = stopRequested_ c.

Lemma advertiseHomeDerp_same region e c : same_but_adv c (advertiseHomeDerp has_control region e c).
Proof.
  unfold advertiseHomeDerp. destruct (_ || _); [done|].
  set (c1 := if negb (region =? homeDerpHint_ (adv c)) then _ else _).
  assert (same_but_adv c c1) as Hc by (unfold c1; by destruct (_ =? _)). clearbody c1.
  destruct (negb (controlConnected_ _)); [done|]. destruct (region =? _); [done|].
  destruct Hc as (?&?&?&?&?&?). by destruct (e_sent e).
Qed.

Lemma publishEndpoints_same eps e c : same_but_adv c (publishEndpoints has_control eps e c).
Proof.
  unfold publishEndpoints. destruct (negb _); [done|]. destruct (bool_decide _); [done|]. cbv zeta.
  by destruct (_ || _).
Qed.

Lemma session_connect_route l hint e c : let c' := (session_connect l hint e c).2 in
  overlay_calls c' = overlay_calls c /\ activeRoute_ c' = activeRoute_ c.
Proof. unfold session_connect. destruct (e_connect e); [done|]. by destruct (firstSession l). Qed.

Lemma session_poll_route l s e c : let c' := (session_poll l s e c).2 in
  overlay_calls c' = overlay_calls c /\ activeRoute_ c' = activeRoute_ c.
Proof.
  unfold session_poll. destruct (e_poll e) as [u|error].
  - pose proof (handle_message_quiet u (s_error s) (e_now e) c) as (_&_&?&?&_).
    by destruct (handle_message _ _ _ c) as [[[r|] err] c1].
  - destruct (stopRequested_ c); [done|]. by destruct (0 <? _).
Qed.

(** The worker never touches the route: only control's loss is its business. *)
Lemma worker_step_route e w c : let c' := (worker_step e w c).2 in
  overlay_calls c' = overlay_calls c /\ activeRoute_ c' = activeRoute_ c.
Proof.
  destruct w; cbn [Core.worker_step]; try done.
  - pose proof (worker_identity_quiet passphrase e c) as (_&_&?&?&_).
    destruct (worker_identity _ _ _ c) as [[i|] c1]; [|done]. by destruct has_control.
  - by destruct (_ =? 0).
  - by destruct (stopRequested_ c).
  - apply session_connect_route.
  - by destruct (stopRequested_ c).
  - apply session_poll_route.
  - by destruct (negb _).
  - pose proof (advertiseHomeDerp_same region e c) as (_&_&_&?&?&_). done.
  - destruct (match r with SessionStopped => true | _ => _ end); [done|].
    destruct r; try done; by destruct (negb _).
  - by destruct (stopRequested_ c).
Qed.

Definition route_inv (s : system) : Prop :=
  overlay_state (overlay_calls (core s)) = Some (activeRoute_ (core s)) /\
  (has_overlay = false -> activeRoute_ (core s) = None /\ route s = NoCaller).

Lemma route_inv_kept s s' : route_inv s -> overlay_calls (core s') = overlay_calls (core s) ->
  activeRoute_ (core s') = activeRoute_ (core s) -> (has_overlay = false -> route s' = NoCaller) -> route_inv s'.
Proof. intros [H1 H2] Eo Ea Hr. unfold route_inv. rewrite Eo, Ea. split; [done|]. split; [by apply H2|auto]. Qed.

Lemma step_route s ev : route_inv s -> route_inv (step s ev).
Proof.
  intros Hi. pose proof Hi as [Ho Hn].
  destruct ev; cbn [Core.step].
  - destruct (stopping s); [done|]. unfold start. by destruct (worker s).
  - apply (route_inv_kept s); [done|..]; cbn [core with_stopping with_core]; unfold stop_request;
      [by destruct has_control..|tauto].
  - assert (route_inv (with_stopping false (with_worker NotStarted (with_core (stop_finish has_control has_overlay) s)))) as Hs.
    { unfold route_inv, stop_finish. destruct has_overlay; cbn.
      - split; [|done]. assert (overlay_calls (if has_control then control CloseControl (core s) else core s) =
          overlay_calls (core s)) as -> by (by destruct has_control). by rewrite overlay_state_snoc, Ho.
      - destruct (Hn eq_refl) as [Ea Er]. rewrite Ea in Ho. split; [|done]. by destruct has_control. }
    by destruct (stopping s), (worker s), (route s).
  - destruct (worker_step_route e (worker s) (core s)) as [H1 H2].
    destruct (worker_step e (worker s) (core s)) as [w c]. apply (route_inv_kept s); [done..|tauto].
  - destruct (route s); try done. unfold activateRoute_begin. destruct has_overlay eqn:Eov; cbn [negb]; [|done].
    destruct (match activeRoute_ _ with Some _ => _ | None => _ end); [done|].
    apply (route_inv_kept s); [done..|congruence].
  - destruct (route s) as [|target region|] eqn:Er; try done.
    pose proof (advertiseHomeDerp_same region e (core s)) as (_&_&_&?&?&_).
    apply (route_inv_kept s); [done..|]. intros E. by destruct (Hn E).
  - destruct (route s) as [| |target] eqn:Er; try done. unfold route_inv, activateRoute_start.
    split; [|intros E; by destruct (Hn E)].
    destruct started; cbn; by rewrite !overlay_state_snoc, Ho.
  - destruct (route s) eqn:Er; try done. unfold route_inv, prepareRouteForStreaming. cbn [core with_core].
    destruct has_overlay; cbn [negb orb snd]; [split; [|done]|split; [exact Ho|intros _; split; [by apply Hn|exact Er]]].
    destruct (activeRoute_ (core s)) as [r|] eqn:Ea; cbn [negb snd]; [|by rewrite Ea].
    destruct (bool_decide (rt_peerId r = _)) eqn:Ep; cbn [negb snd]; [|by rewrite Ea].
    destruct prepared; cbn; rewrite overlay_state_snoc, Ho, Ea; cbn; by rewrite Ep.
  - destruct (route s) eqn:Er; try done. unfold route_inv, deactivateRoute. cbn [core with_core].
    destruct has_overlay; cbn [andb]; [split; [|done]|split; [exact Ho|intros _; split; [by apply Hn|exact Er]]].
    destruct (match activeRoute_ _ with Some _ => _ | None => _ end); [|done].
    cbn. by rewrite overlay_state_snoc, Ho.
  - pose proof (publishEndpoints_same endpoints_ e (core s)) as (_&_&_&?&?&_).
    apply (route_inv_kept s); [done..|tauto].
  - by apply (route_inv_kept s); [..|tauto].
Qed.

(** C32: in every interleaving, the engine keeps the overlay's contract: it stops
    the overlay before it starts a route, prepares streaming only while a route
    to the same peer runs, and its [activeRoute_] is the route the overlay runs,
    whether activations succeed, fail, are released or are cut by a stop. *)
Theorem overlay_contract f file es :
  let c := core (run (fresh f file) es) in
  overlay_state (overlay_calls c) = Some (activeRoute_ c).
Proof.
  assert (route_inv (run (fresh f file) es)) as [Ho _]; [|exact Ho].
  apply run_invariant; [done|apply step_route].
Qed.

(** ** The worker's loop *)

Record loop_ok (l : Loop) : Prop := {
  lo_key : firstSession l = false -> authKey l = [];
  lo_first : firstSession l = false -> everProductive l = true;
  lo_backoff : backoff l = kMaxBackoff \/ (backoff l = 2 ^ attempt l /\ 0 <= attempt l <= 4);
}.

(** The states that show a failure. *)
Definition failed_state (c : Core) : Prop :=
  state (snapshot_ c) = Error \/ state (snapshot_ c) = NeedsAuthentication.

(** What ends the worker is shown, unless a stop was requested. *)
Definition end_shown (l : Loop) (r : SessionResult) (c : Core) : Prop :=
  stopRequested_ c = false ->
  r <> SessionStopped /\ (r = Fatal \/ (everProductive l = false /\ r <> DroppedAfterData) -> failed_state c).

Definition waits_ok (l : Loop) : Prop :=
  everProductive l = true /\ firstSession l = false /\
  (backoff l = kMaxBackoff \/ (backoff l = 2 ^ (attempt l - 1) /\ 1 <= attempt l <= 5)).

Definition worker_ok (w : Worker) (c : Core) : Prop :=
  match w with
  | NextSession l | Connecting l _ => loop_ok l
  | EndSession l r | AfterSession l r => loop_ok l /\ authKey l = [] /\ end_shown l r c
  | Waiting l => authKey l = [] /\ waits_ok l
  | Finished => stopRequested_ c = false -> failed_state c
  | w => match loop_of w with Some l => loop_ok l /\ authKey l = [] | None => True end
  end.

Lemma loop_ok_cleared l : loop_ok l -> loop_ok (clear_authKey l).
Proof. intros []. by constructor. Qed.

Lemma loop_ok_next l : authKey l = [] -> waits_ok l -> loop_ok (doubled l).
Proof.
  intros Hk (Hp&Hf&Hb). constructor; cbn [doubled authKey firstSession everProductive backoff attempt]; [done..|].
  unfold kMaxBackoff in *. destruct Hb as [->|[-> Ha]]; [left; lia|].
  assert (attempt l = 1 \/ attempt l = 2 \/ attempt l = 3 \/ attempt l = 4 \/ attempt l = 5)
    as [E|[E|[E|[E|E]]]] by lia; rewrite E; [right..|left]; split; try done; lia.
Qed.

Lemma loop_ok_waits l : loop_ok l -> everProductive l = true -> waits_ok (reconnecting l).
Proof.
  intros [_ _ Hb] Hp. unfold waits_ok. cbn [reconnecting everProductive firstSession backoff attempt].
  split_and!; [done..|]. destruct Hb as [->|[-> Ha]]; [by left|]. right. unfold u32.
  rewrite Z.mod_small by lia. split; [f_equal|]; lia.
Qed.

Lemma worker_identity_failed passphrase e c :
  match worker_identity has_generator passphrase e c with (None, c') => failed_state c' | _ => True end.
Proof.
  unfold worker_identity. destruct (load _ _ _) as [loaded f]. cbv zeta.
  set (gen := match (if has_generator then _ else _) with Ok _ => _ | Err _ => _ end).
  assert (match gen with (None, c') => failed_state c' | _ => True end) as Hg.
  { unfold gen. destruct (if has_generator then _ else _) as [generated|msg]; [|by left].
    destruct (save _ _ _ _ _ _ _) as [trace [[]|msg]]; [done|by left]. }
  clearbody gen. destruct loaded as [i|msg]; [by destruct (isWeakIdentity i)|].
  destruct (bool_decide _); [done|by left].
Qed.

Lemma session_connect_worker l hint e c : loop_ok l ->
  let '(w, c') := session_connect l hint e c in worker_ok w c'.
Proof.
  intros Hl. unfold session_connect. destruct (e_connect e) as [[]|msg].
  - split; [by apply loop_ok_cleared|done].
  - destruct (firstSession l) eqn:Ef.
    + split_and!; [by apply loop_ok_cleared|done|]. intros E. cbn in E |- *. rewrite E.
      split; [done|]. intros _. unfold failed_state. cbn. by destruct (bool_decide _); [right|left].
    + split_and!; [done|by apply lo_key|]. intros E. cbn in E |- *. rewrite E. split; [done|].
      intros [?|[Hp _]]; [done|]. by rewrite (lo_first _ Hl Ef) in Hp.
Qed.

Lemma session_poll_worker l s e c : loop_ok l -> authKey l = [] ->
  let '(w, c') := session_poll l s e c in worker_ok w c'.
Proof.
  intros Hl Hk. unfold session_poll. destruct (e_poll e) as [u|error].
  - destruct (handle_message u _ _ c) as [[[r|] err] c1] eqn:Eh; [|done]. split_and!; [done..|].
    intros Es. revert Eh. unfold handle_message.
    destruct (p_fullPeers u); [|by destruct (if no_changes _ then _ else _)].
    destruct (replacePeers _ _ c) as [[[]|msg] c2]; [done|].
    destruct (stopRequested_ c2) eqn:E2; intros [= <- <- <-]; [congruence|]. split; [done|]. intros _. by left.
  - destruct (stopRequested_ c) eqn:Es; [split_and!; [done..|]; intros ?; congruence|].
    destruct (0 <? messageCount s); (split_and!; [done..|]); intros _; (split; [done|]).
    + by intros [?|[_ ?]].
    + intros _. by left.
Qed.

Lemma worker_step_ok e w c : worker_ok w c -> let '(w', c') := worker_step e w c in worker_ok w' c'.
Proof.
  intros Hw. destruct w; cbn [Core.worker_step]; try done.
  - pose proof (worker_identity_failed passphrase e c) as Hf.
    destruct (worker_identity _ _ _ c) as [[i|] c1]; [|by intros _]. destruct has_control; [done|]. intros _. by left.
  - constructor; cbn; [done..|]. by right.
  - by destruct (stopRequested_ c) eqn:E; [intros ?; congruence|].
  - by apply session_connect_worker.
  - destruct Hw as [Hl Hk]. destruct (stopRequested_ c) eqn:E; [|done].
    split_and!; [done..|]. intros ?; congruence.
  - destruct Hw. by apply session_poll_worker.
  - by destruct (negb _).
  - destruct Hw as (Hl&Hk&He). destruct (stopRequested_ c) eqn:Es.
    + assert (match r with SessionStopped => true | _ => true end = true) as -> by (by destruct r).
      intros ?; congruence.
    + destruct (He Es) as [Hr Hend]. destruct r; [done|..]; cbn [negb].
      * destruct (everProductive l) eqn:Ep; cbn [negb]; [|by intros _; apply Hend; right].
        split; [done|by apply loop_ok_waits].
      * destruct (everProductive l) eqn:Ep; cbn [negb]; [|by intros _; apply Hend; right].
        split; [done|by apply loop_ok_waits].
      * split; [done|]. apply loop_ok_waits; [|done]. destruct Hl. constructor; cbn; [done..|by right].
      * intros _. by apply Hend; left.
  - destruct Hw as [Hk Hb]. destruct (stopRequested_ c) eqn:E; [intros ?; congruence|]. by apply loop_ok_next.
Qed.

Lemma worker_ok_kept w c c' : worker_ok w c ->
  (stopRequested_ c' = false -> stopRequested_ c = false) -> (failed_state c -> failed_state c') -> worker_ok w c'.
Proof.
  intros Hw Hs Hf. destruct w; try exact Hw; cbn in *; unfold end_shown in *; intuition.
Qed.

Lemma route_failure c (r : result unit) target : failed_state c -> failed_state (activateRoute_start target r c).2.
Proof. intros. destruct r; [done|]. by left. Qed.

Lemma step_worker s ev : worker_ok (worker s) (core s) -> worker_ok (worker (step s ev)) (core (step s ev)).
Proof.
  intros Hw. destruct ev; cbn [Core.step].
  - destruct (stopping s); [done|]. unfold start. by destruct (worker s) eqn:E; rewrite ?E.
  - apply (worker_ok_kept _ (core s)); [done|..]; cbn; unfold stop_request; by destruct has_control.
  - by destruct (stopping s), (worker s) eqn:E, (route s); rewrite ?E.
  - pose proof (worker_step_ok e _ _ Hw) as H'. by destruct (worker_step e (worker s) (core s)).
  - destruct (route s); try done. by destruct (activateRoute_begin _ _ _).
  - destruct (route s) as [|target region|]; try done.
    pose proof (advertiseHomeDerp_same region e (core s)) as (_&_&Esn&_&_&Es).
    apply (worker_ok_kept _ (core s)); [done|..]; cbn; unfold failed_state; by rewrite ?Esn, ?Es.
  - destruct (route s) as [| |target]; try done.
    apply (worker_ok_kept _ (core s)); [done|..]; cbn [core with_route with_core]; [by destruct started|].
    apply route_failure.
  - destruct (route s); try done. unfold prepareRouteForStreaming.
    apply (worker_ok_kept _ (core s)); [done|..]; cbn [core with_core]; (destruct (_ || _); [done|]); destruct prepared;
      try done. intros _. by left.
  - destruct (route s); try done. unfold deactivateRoute.
    apply (worker_ok_kept _ (core s)); [done|..]; cbn [core with_core]; by destruct (_ && _).
  - pose proof (publishEndpoints_same endpoints_ e (core s)) as (_&_&Esn&_&_&Es).
    apply (worker_ok_kept _ (core s)); [done|..]; cbn; unfold failed_state; by rewrite ?Esn, ?Es.
  - by apply (worker_ok_kept _ (core s)).
Qed.

Lemma run_worker f file es : let s := run (fresh f file) es in worker_ok (worker s) (core s).
Proof. apply (run_invariant (fun s => worker_ok (worker s) (core s))); [done|apply step_worker]. Qed.

(** Whatever happens, a worker that ends on its own has said why: when the
    thread is finished and nobody asked it to stop, the snapshot shows an error
    or asks for a login. *)
Theorem worker_end_is_shown f file es :
  let s := run (fresh f file) es in
  worker s = Finished -> stopRequested_ (core s) = false ->
  state (snapshot_ (core s)) = Error \/ state (snapshot_ (core s)) = NeedsAuthentication.
Proof. intros s Ew. pose proof (run_worker f file es) as Hw. cbv zeta in Hw. fold s in Hw. rewrite Ew in Hw. apply Hw. Qed.

(** Reconnects back off within bounds. The worker waits only after some
    session delivered a message; the wait before reconnect number [n] since the
    last such session is 2^(n-1) seconds, 30 seconds at most, and never less than one. *)
Theorem backoff_bounds f file es l :
  let s := run (fresh f file) es in
  worker s = Waiting l ->
  everProductive l = true /\ 1 <= backoff l <= kMaxBackoff /\
  (backoff l = kMaxBackoff \/ backoff l = 2 ^ (attempt l - 1)).
Proof.
  intros s Ew. pose proof (run_worker f file es) as Hw. cbv zeta in Hw. fold s in Hw. rewrite Ew in Hw.
  destruct Hw as (_&Hp&_&Hb). unfold kMaxBackoff in *. split; [done|].
  destruct Hb as [->|[-> Ha]]; [lia|].
  assert (attempt l = 1 \/ attempt l = 2 \/ attempt l = 3 \/ attempt l = 4 \/ attempt l = 5)
    as [E|[E|[E|[E|E]]]] by lia; rewrite E; cbn; lia.
Qed.

(** ** The login key *)

Definition worker_key (w : Worker) : bytes :=
  match w with
  | LoadIdentity k _ | LoadHint k _ => k
  | w => match loop_of w with Some l => authKey l | None => [] end
  end.
Definition held (w : Worker) : nat := if bool_decide (worker_key w = []) then 0 else 1.
Definition starts (es : list event) : nat :=
  length (List.filter (fun ev => match ev with Start _ _ => true | _ => false end) es).

Lemma held_le w w' : worker_key w' = worker_key w \/ worker_key w' = [] -> (held w' <= held w)%nat.
Proof. unfold held. intros [->| ->]; [done|]. rewrite bool_decide_true by done. lia. Qed.

Lemma quiet_offers c c' : quiet c c' -> offers (control_calls c') = offers (control_calls c).
Proof. by intros (_&->&_). Qed.

Lemma advertise_offers region e c :
  offers (control_calls (advertiseHomeDerp has_control region e c)) = offers (control_calls c).
Proof.
  unfold advertiseHomeDerp. destruct (_ || _); [done|].
  set (c1 := if negb (region =? homeDerpHint_ (adv c)) then _ else _).
  assert (control_calls c1 = control_calls c) as <- by (unfold c1; by destruct (_ =? _)). clearbody c1.
  destruct (negb (controlConnected_ _)); [done|]. destruct (region =? _); [done|].
  destruct (e_sent e); cbn; rewrite offers_snoc; cbn; lia.
Qed.

Lemma publish_offers eps e c :
  offers (control_calls (publishEndpoints has_control eps e c)) = offers (control_calls c).
Proof.
  unfold publishEndpoints. destruct (negb _); [done|]. destruct (bool_decide _); [done|]. cbv zeta.
  destruct (_ || _); cbn; rewrite ?offers_snoc; cbn; lia.
Qed.

Lemma connect_offers l hint e c : (firstSession l = false -> authKey l = []) ->
  let '(w', c') := session_connect l hint e c in
  (offers (control_calls c') + held w' <= offers (control_calls c) + held (Connecting l hint))%nat.
Proof.
  intros Hk. unfold session_connect, held. cbn [worker_key loop_of].
  destruct (e_connect e) as [[]|msg].
  - cbn. rewrite offers_snoc. cbn. destruct (bool_decide (authKey l = [])); cbn; lia.
  - destruct (firstSession l); cbn; rewrite offers_snoc; cbn.
    + destruct (bool_decide (authKey l = [])); cbn; lia.
    + rewrite Hk by done. cbn. lia.
Qed.

Lemma worker_offers e w c : worker_ok w c -> let '(w', c') := worker_step e w c in
  (offers (control_calls c') + held w' <= offers (control_calls c) + held w)%nat.
Proof.
  intros Hw.
  assert (forall w' c', offers (control_calls c') = offers (control_calls c) ->
    worker_key w' = worker_key w \/ worker_key w' = [] ->
    (offers (control_calls c') + held w' <= offers (control_calls c) + held w)%nat) as Hle.
  { intros w' c' -> Hk%held_le. lia. }
  destruct w; cbn [Core.worker_step]; try (apply Hle; [done|by left]).
  - pose proof (quiet_offers _ _ (worker_identity_quiet passphrase e c)) as Hq.
    destruct (worker_identity _ _ _ c) as [[i|] c1]; [destruct has_control|];
      (apply Hle; [exact Hq|]); [by left|by right|by right].
  - apply Hle; [by destruct (_ =? 0)|by left].
  - destruct (stopRequested_ c); (apply Hle; [|]); [done|by right|cbn; rewrite offers_snoc; cbn; lia|by left].
  - apply connect_offers. apply Hw.
  - destruct (stopRequested_ c); (apply Hle; [done|by left]).
  - unfold session_poll. destruct (e_poll e) as [u|error].
    + pose proof (quiet_offers _ _ (handle_message_quiet u (s_error s) (e_now e) c)) as Hq.
      destruct (handle_message _ _ _ c) as [[[r|] err] c1]; (apply Hle; [exact Hq|by left]).
    + destruct (stopRequested_ c); [|destruct (0 <? _)]; (apply Hle; [done|by left]).
  - destruct (negb _); (apply Hle; [done|by left]).
  - apply Hle; [apply advertise_offers|by left].
  - apply Hle; [cbn; rewrite offers_snoc; cbn; lia|by left].
  - destruct (match r with SessionStopped => true | _ => _ end); [apply Hle; [done|by right]|].
    destruct r; (apply Hle || (destruct (negb _); apply Hle)); solve [done|by left|by right].
  - destruct (stopRequested_ c); (apply Hle; [done|]); [by right|by left].
Qed.

Lemma step_offers s ev : worker_ok (worker s) (core s) ->
  (offers (control_calls (core (step s ev))) + held (worker (step s ev)) <=
   offers (control_calls (core s)) + held (worker s) + starts [ev])%nat.
Proof.
  intros Hw.
  assert (forall s', offers (control_calls (core s')) = offers (control_calls (core s)) -> worker s' = worker s ->
    (offers (control_calls (core s')) + held (worker s') <=
     offers (control_calls (core s)) + held (worker s) + starts [ev])%nat) as Hle.
  { intros s' -> ->. lia. }
  destruct ev; cbn [Core.step].
  - destruct (stopping s); [by apply Hle|]. unfold start. destruct (worker s) eqn:E; try (by apply Hle).
    unfold held. cbn. destruct (bool_decide _); lia.
  - apply Hle; [|done]. cbn. unfold stop_request. destruct has_control; [|done]. cbn. rewrite offers_snoc. cbn. lia.
  - destruct (stopping s); [|by apply Hle].
    destruct (worker s) eqn:E, (route s); try (by apply Hle);
      cbn; unfold stop_finish; destruct has_control, has_overlay; cbn; rewrite ?offers_snoc; cbn; lia.
  - pose proof (worker_offers e _ _ Hw) as H'. destruct (worker_step e (worker s) (core s)). cbn. lia.
  - apply Hle; destruct (route s); try done; by destruct (activateRoute_begin _ _ _).
  - apply Hle; destruct (route s); try done. apply advertise_offers.
  - apply Hle; destruct (route s); try done. by destruct started.
  - apply Hle; destruct (route s); try done. cbn. unfold prepareRouteForStreaming.
    destruct (_ || _); [done|]. by destruct prepared.
  - apply Hle; destruct (route s); try done. cbn. unfold deactivateRoute. by destruct (_ && _).
  - apply Hle; [apply publish_offers|done].
  - by apply Hle.
Qed.

Lemma offers_run f file es :
  (offers (control_calls (core (run (fresh f file) es))) <= starts es)%nat.
Proof.
  assert (forall s, worker_ok (worker s) (core s) ->
    (offers (control_calls (core (run s es))) + held (worker (run s es)) <=
     offers (control_calls (core s)) + held (worker s) + starts es)%nat) as Hall.
  { induction es as [|ev es IH]; intros s Hw; [cbn; lia|]. unfold Core.run. cbn [foldl].
    specialize (IH (step s ev) (step_worker s ev Hw)). unfold Core.run in IH.
    pose proof (step_offers s ev Hw).
    assert (starts (ev :: es) = starts [ev] + starts es)%nat as -> by (unfold starts; cbn; by destruct ev). lia. }
  specialize (Hall (fresh f file) I).
  assert (offers (control_calls (core (fresh f file))) = 0%nat /\ held (worker (fresh f file)) = 0%nat) as [? ?] by done.
  lia.
Qed.

(** No key but [k] is in the worker's hands or was handed to control. *)
Definition offers_only (k : bytes) (c : control_call) : Prop :=
  match c with Connect key _ => key = [] \/ key = k | _ => True end.
Definition only_key (k : bytes) (s : system) : Prop :=
  (worker_key (worker s) = k \/ worker_key (worker s) = []) /\ Forall (offers_only k) (control_calls (core s)).

Lemma only_snoc k c ks : Forall (offers_only k) ks -> offers_only k c -> Forall (offers_only k) (ks ++ [c]).
Proof. intros. apply list.Forall_app. split; [done|by constructor]. Qed.

Lemma advertise_only k region e c : Forall (offers_only k) (control_calls c) ->
  Forall (offers_only k) (control_calls (advertiseHomeDerp has_control region e c)).
Proof.
  intros Hc. unfold advertiseHomeDerp. destruct (_ || _); [done|].
  set (c1 := if negb (region =? homeDerpHint_ (adv c)) then _ else _).
  assert (control_calls c1 = control_calls c) as Ec by (unfold c1; by destruct (_ =? _)). rewrite <- Ec in Hc. clearbody c1.
  destruct (negb (controlConnected_ _)); [done|]. destruct (region =? _); [done|].
  destruct (e_sent e); by apply only_snoc.
Qed.

Lemma publish_only k eps e c : Forall (offers_only k) (control_calls c) ->
  Forall (offers_only k) (control_calls (publishEndpoints has_control eps e c)).
Proof.
  intros Hc. unfold publishEndpoints. destruct (negb _); [done|]. destruct (bool_decide _); [done|]. cbv zeta.
  destruct (_ || _); cbn; repeat apply only_snoc; done.
Qed.

Lemma connect_only k l hint e c : (authKey l = k \/ authKey l = []) -> Forall (offers_only k) (control_calls c) ->
  let '(w', c') := session_connect l hint e c in
  (worker_key w' = k \/ worker_key w' = []) /\ Forall (offers_only k) (control_calls c').
Proof.
  intros Hk Hc. unfold session_connect.
  assert (forall ok, offers_only k (Connect (authKey l) ok)) as Ho by (intros ok; destruct Hk; [by right|by left]).
  destruct (e_connect e) as [[]|msg].
  - cbn. split; [by right|by apply only_snoc].
  - destruct (firstSession l); cbn; (split; [|by apply only_snoc]); [by right|done].
Qed.

Lemma worker_only k e w c : (worker_key w = k \/ worker_key w = []) -> Forall (offers_only k) (control_calls c) ->
  let '(w', c') := worker_step e w c in
  (worker_key w' = k \/ worker_key w' = []) /\ Forall (offers_only k) (control_calls c').
Proof.
  intros Hk Hc.
  assert (forall w' c', Forall (offers_only k) (control_calls c') -> worker_key w' = worker_key w \/ worker_key w' = [] ->
    (worker_key w' = k \/ worker_key w' = []) /\ Forall (offers_only k) (control_calls c')) as Hle.
  { intros w' c' ? [->| ->]; split; auto. }
  destruct w; cbn [Core.worker_step]; try (apply Hle; [done|by left]).
  - destruct (worker_identity_quiet passphrase e c) as (_&Hq&_).
    destruct (worker_identity _ _ _ c) as [[i|] c1]; cbn [snd] in Hq; rewrite <- Hq in Hc; [destruct has_control|];
      (apply Hle; [exact Hc|]); [by left|by right|by right].
  - apply Hle; [by destruct (_ =? 0)|by left].
  - destruct (stopRequested_ c); (apply Hle; [|]); [done|by right|by apply only_snoc|by left].
  - by apply connect_only.
  - destruct (stopRequested_ c); (apply Hle; [done|by left]).
  - unfold session_poll. destruct (e_poll e) as [u|error].
    + destruct (handle_message_quiet u (s_error s) (e_now e) c) as (_&Hq&_).
      destruct (handle_message _ _ _ c) as [[[r|] err] c1]; cbn [snd] in Hq; rewrite <- Hq in Hc; (apply Hle; [exact Hc|by left]).
    + destruct (stopRequested_ c); [|destruct (0 <? _)]; (apply Hle; [done|by left]).
  - destruct (negb _); (apply Hle; [done|by left]).
  - apply Hle; [by apply advertise_only|by left].
  - apply Hle; [by apply only_snoc|by left].
  - destruct (match r with SessionStopped => true | _ => _ end); [apply Hle; [done|by right]|].
    destruct r; (apply Hle || (destruct (negb _); apply Hle)); solve [done|by left|by right].
  - destruct (stopRequested_ c); (apply Hle; [done|]); [by right|by left].
Qed.

Lemma step_only k s ev : only_key k s -> (forall key pass, ev = Start key pass -> key = k) -> only_key k (step s ev).
Proof.
  intros [Hw Hc] Hev.
  assert (forall s', worker s' = worker s -> Forall (offers_only k) (control_calls (core s')) -> only_key k s') as Hle.
  { intros s' E ?. unfold only_key. by rewrite E. }
  destruct ev; cbn [Core.step].
  - destruct (stopping s); [done|]. unfold start. destruct (worker s) eqn:E; try (by apply Hle; rewrite ?E).
    split; [left; by eapply Hev|done].
  - apply Hle; [done|]. cbn. unfold stop_request. destruct has_control; [|done]. by apply only_snoc.
  - destruct (stopping s); [|by apply Hle].
    destruct (worker s) eqn:E, (route s); try (by apply Hle);
      (split; [by right|]); cbn; unfold stop_finish; destruct has_control, has_overlay; cbn; repeat apply only_snoc; done.
  - pose proof (worker_only k e _ _ Hw Hc) as H'. destruct (worker_step e (worker s) (core s)). exact H'.
  - apply Hle; destruct (route s); try done; by destruct (activateRoute_begin _ _ _).
  - apply Hle; destruct (route s); try done. by apply advertise_only.
  - apply Hle; destruct (route s); try done. by destruct started.
  - apply Hle; destruct (route s); try done. cbn. unfold prepareRouteForStreaming.
    destruct (_ || _); [done|]. by destruct prepared.
  - apply Hle; destruct (route s); try done. cbn. unfold deactivateRoute. by destruct (_ && _).
  - apply Hle; [done|by apply publish_only].
  - by apply Hle.
Qed.

(** What an engine started once with a key offers is that key. *)
Lemma only_run key pass f file es : starts es = 0%nat -> only_key key (run (fresh f file) (Start key pass :: es)).
Proof.
  intros Hs. unfold Core.run. cbn [foldl].
  assert (only_key key (step (fresh f file) (Start key pass))) as H0 by (split; [by left|constructor]).
  revert H0. generalize (step (fresh f file) (Start key pass)).
  induction es as [|ev es IH]; intros s H0; cbn [foldl]; [done|].
  assert (starts (ev :: es) = starts [ev] + starts es)%nat as E by (unfold starts; cbn; by destruct ev).
  apply IH; [lia|]. apply step_only; [done|]. intros k' p' ->. unfold starts in Hs. cbn in Hs. lia.
Qed.

(** A login key is handed to control at most once. In every interleaving the
    map requests that carry a key are no more than the calls of [start]: a
    reconnect, however the earlier sessions ended, never offers the key again. *)
Theorem auth_key_offered_once f file es :
  (offers (control_calls (core (run (fresh f file) es))) <= starts es)%nat.
Proof. apply offers_run. Qed.

(** ** Stopping *)

(** The steps the thread still takes once a stop is requested. *)
Definition rank (w : Worker) : nat :=
  match w with
  | NotStarted | Finished => 0
  | NextSession _ | AfterSession _ _ | Waiting _ => 1
  | LoadHint _ _ | EndSession _ _ => 2
  | LoadIdentity _ _ | Polling _ _ => 3
  | RegisterSession _ _ | AdvertiseDefault _ _ _ => 4
  | CheckDefault _ _ | Connecting _ _ => 5
  | InPoll _ _ => 6
  end.

Definition worker_steps (es : list event) : nat :=
  length (List.filter (fun ev => match ev with WorkerStep _ => true | _ => false end) es).

Lemma worker_step_rank e w c : stopRequested_ c = true ->
  let '(w', c') := worker_step e w c in stopRequested_ c' = true /\ (rank w' <= pred (rank w))%nat.
Proof.
  intros Hs. destruct w; cbn [Core.worker_step rank]; try (split; [done|cbn; lia]); rewrite ?Hs.
  - pose proof (worker_identity_quiet passphrase e c) as (_&_&_&_&Es).
    destruct (worker_identity _ _ _ c) as [[i|] c1]; cbn [snd] in Es; [destruct has_control|];
      (split; [cbn; congruence|cbn; lia]).
  - split; [by destruct (_ =? 0)|cbn; lia].
  - split; [done|cbn; lia].
  - unfold session_connect. destruct (e_connect e); [split; [done|cbn; lia]|].
    destruct (firstSession l); (split; [done|cbn; lia]).
  - split; [done|cbn; lia].
  - unfold session_poll. destruct (e_poll e) as [u|error].
    + pose proof (handle_message_quiet u (s_error s) (e_now e) c) as (_&_&_&_&Es).
      destruct (handle_message _ _ _ c) as [[[r|] err] c1]; cbn [snd] in Es; (split; [congruence|cbn; lia]).
    + rewrite Hs. split; [done|cbn; lia].
  - destruct (negb _); (split; [done|cbn; lia]).
  - pose proof (advertiseHomeDerp_same region e c) as (_&_&_&_&_&Es). split; [congruence|cbn; lia].
  - assert (match r with SessionStopped => true | _ => true end = true) as -> by (by destruct r). split; [done|cbn; lia].
  - split; [done|cbn; lia].
Qed.

Lemma step_rank s ev : stopping s = true -> stopRequested_ (core s) = true -> ev <> StopFinish ->
  let s' := step s ev in stopping s' = true /\ stopRequested_ (core s') = true /\
  (rank (worker s') <= rank (worker s) - worker_steps [ev])%nat.
Proof.
  intros Hb Hs Hne.
  assert (forall s', stopping s' = stopping s -> stopRequested_ (core s') = stopRequested_ (core s) ->
    worker s' = worker s -> worker_steps [ev] = 0%nat ->
    stopping s' = true /\ stopRequested_ (core s') = true /\
    (rank (worker s') <= rank (worker s) - worker_steps [ev])%nat) as Hkeep.
  { intros s' -> -> -> ->. split_and!; [done..|lia]. }
  destruct ev; cbn [Core.step]; try done.
  - rewrite Hb. by apply Hkeep.
  - cbn. split_and!; [done| |lia]. unfold stop_request. by destruct has_control.
  - pose proof (worker_step_rank e (worker s) _ Hs) as Hr. destruct (worker_step e (worker s) (core s)) as [w c].
    destruct Hr as [Hs' Hr]. cbn. split_and!; [done..|lia].
  - destruct (route s); try (by apply Hkeep). by destruct (activateRoute_begin _ _ _); apply Hkeep.
  - destruct (route s) as [|target region|]; try (by apply Hkeep).
    pose proof (advertiseHomeDerp_same region e (core s)) as (_&_&_&_&_&Es). by apply Hkeep.
  - destruct (route s) as [| |target]; try (by apply Hkeep). apply Hkeep; try done. by destruct started.
  - destruct (route s); try (by apply Hkeep). apply Hkeep; try done. cbn. unfold prepareRouteForStreaming.
    destruct (_ || _); [done|]. by destruct prepared.
  - destruct (route s); try (by apply Hkeep). apply Hkeep; try done. cbn. unfold deactivateRoute.
    by destruct (_ && _).
  - pose proof (publishEndpoints_same endpoints_ e (core s)) as (_&_&_&_&_&Es). by apply Hkeep.
  - by apply Hkeep.
Qed.

(** [stop] terminates. After a stop is requested at any moment of any run,
    the worker ends within six of its own steps, whatever its collaborators
    answer and whatever the other threads do meanwhile, so the join returns. *)
Theorem stop_joins f file es es' :
  (6 <= worker_steps es')%nat -> StopFinish ∉ es' ->
  let s := run (step (run (fresh f file) es) StopRequest) es' in
  worker s = NotStarted \/ worker s = Finished.
Proof.
  assert (forall es s, stopping s = true -> stopRequested_ (core s) = true -> StopFinish ∉ es ->
    (rank (worker (run s es)) <= rank (worker s) - worker_steps es)%nat) as Hall.
  { clear es. induction es as [|ev es IH]; intros s Hb Hs Hne; [cbn; lia|].
    apply not_elem_of_cons in Hne as [Hne Hnes].
    destruct (step_rank s ev Hb Hs ltac:(congruence)) as (Hb'&Hs'&Hr).
    unfold Core.run. cbn [foldl]. specialize (IH _ Hb' Hs' Hnes). unfold Core.run in IH.
    assert (worker_steps (ev :: es) = worker_steps [ev] + worker_steps es)%nat as ->
      by (unfold worker_steps; cbn; by destruct ev). lia. }
  intros Hn Hne. cbv zeta. set (s0 := step _ StopRequest).
  assert (stopRequested_ (core s0) = true) as Hs0.
  { unfold s0. cbn. unfold stop_request. by destruct has_control. }
  specialize (Hall es' s0 eq_refl Hs0 Hne).
  assert (rank (worker s0) <= 6)%nat by (destruct (worker s0); cbn; lia).
  destruct (worker (run s0 es')) eqn:E; cbn [rank] in Hall; try lia; [by left|by right].
Qed.

(** ** The data the worker stores *)

(** What [MapCodec::decode] promises of a message's address and relay map. *)
Definition message_ok (signed : bool) (u : PollUpdate) : Prop :=
  (p_localAddress u = [] \/ isLiteralIPv4 (p_localAddress u) = true) /\
  forall rs, p_derpMap u = Some rs -> zlen rs <= kMaxDerpRegions /\ Forall (region_ok signed) rs.
Definition event_ok (signed : bool) (ev : event) : Prop :=
  match ev with
  | WorkerStep e => match e_poll e with Polled u => message_ok signed u | PollFailed _ => True end
  | _ => True
  end.

Record engine_wf (signed : bool) (c : Core) : Prop := {
  ew_peers : dir_wf (peers_ c);
  ew_address : sn_localAddress (snapshot_ c) = [] \/ isLiteralIPv4 (sn_localAddress (snapshot_ c)) = true;
  ew_ready : state (snapshot_ c) = Ready -> isLiteralIPv4 (sn_localAddress (snapshot_ c)) = true;
  ew_derpMap : zlen (sn_derpMap (snapshot_ c)) <= kMaxDerpRegions /\
    Forall (region_ok signed) (sn_derpMap (snapshot_ c));
}.

Lemma engine_wf_kept signed c c' : engine_wf signed c -> peers_ c' = peers_ c ->
  sn_localAddress (snapshot_ c') = sn_localAddress (snapshot_ c) ->
  sn_derpMap (snapshot_ c') = sn_derpMap (snapshot_ c) ->
  (state (snapshot_ c') = Ready -> state (snapshot_ c) = Ready) -> engine_wf signed c'.
Proof. intros [] Ep Ea Ed Er. constructor; rewrite ?Ep, ?Ea, ?Ed; auto. Qed.

Lemma setState_wf signed st a b c : st <> Ready -> engine_wf signed c -> engine_wf signed (setState st a b c).
Proof. intros Hst Hc. apply (engine_wf_kept signed c); [done..|]. cbn. congruence. Qed.

Lemma store_derpMap_wf signed o c : engine_wf signed c ->
  (forall rs, o = Some rs -> zlen rs <= kMaxDerpRegions /\ Forall (region_ok signed) rs) ->
  engine_wf signed (store_derpMap o c).
Proof. intros [] Ho. destruct o as [rs|]; [|done]. constructor; cbn; [done..|by apply Ho]. Qed.

Lemma replacePeers_wf signed peers a c : engine_wf signed c -> engine_wf signed (replacePeers peers a c).2.
Proof.
  intros Hc. unfold replacePeers. destruct (isLiteralIPv4 a) eqn:Ea; cbn [negb]; [|done].
  pose proof (replace_spec peers (peers_ c)) as Hr. pose proof Hc as [].
  destruct (replace peers (peers_ c)) as [[[]|e] d]; cbn [snd].
  - constructor; cbn; [apply Hr|by right|done|done].
  - subst d. by apply (engine_wf_kept signed c).
Qed.

Lemma applyPeerDelta_wf signed d c : engine_wf signed c -> engine_wf signed (applyPeerDelta d c).2.
Proof.
  intros Hc. unfold applyPeerDelta. pose proof (apply_spec d (peers_ c) (ew_peers _ _ Hc)) as Ha. pose proof Hc as [].
  destruct (apply d (peers_ c)) as [[[]|e] d']; cbn [snd]; [|subst d'; by apply (engine_wf_kept signed c)].
  constructor; cbn; [apply Ha|done..].
Qed.

Lemma handle_message_wf signed u error now c : message_ok signed u -> engine_wf signed c ->
  engine_wf signed (handle_message u error now c).2.
Proof.
  intros [Hu Hd] Hc. unfold handle_message. destruct (p_fullPeers u) as [full|].
  - pose proof (replacePeers_wf signed full (p_localAddress u) c Hc) as Hr.
    destruct (replacePeers _ _ c) as [[[]|e] c1]; cbn [snd] in Hr |- *; [by apply store_derpMap_wf|].
    destruct (stopRequested_ c1); [done|]. by apply setState_wf.
  - assert (forall err c1, engine_wf signed c1 -> engine_wf signed (
      let c2 := store_derpMap (p_derpMap u) c1 in
      let c3 := if bool_decide (p_localAddress u = []) then c2
               else set_snapshot {| state := Ready; sn_localAddress := p_localAddress u;
                                    sn_derpMap := sn_derpMap (snapshot_ c2); status := "Ready";
                                    lastError := "" |} c2 in
      (@None SessionResult, err : string, set_paths (poll now (paths_ c3)) c3)).2) as Hrest.
    { intros err c1 Hc1. pose proof (store_derpMap_wf signed (p_derpMap u) c1 Hc1 Hd) as Hs. cbv zeta.
      destruct (bool_decide_reflect (p_localAddress u = [])) as [|Hne]; [by apply (engine_wf_kept signed _ _ Hs)|].
      destruct Hu as [|Hu]; [done|]. destruct Hs. by constructor; [|right|..]. }
    destruct (no_changes _); [by apply Hrest|].
    pose proof (applyPeerDelta_wf signed (p_delta u) c Hc) as Ha.
    destruct (applyPeerDelta _ _) as [[[]|e] c1]; by apply Hrest.
Qed.

Lemma worker_identity_wf signed passphrase e c : engine_wf signed c ->
  engine_wf signed (worker_identity has_generator passphrase e c).2.
Proof.
  intros Hc. unfold worker_identity. destruct (load _ _ _) as [loaded f]. cbv zeta.
  assert (engine_wf signed (set_store f c)) as Hc1 by by apply (engine_wf_kept signed c).
  set (gen := match (if has_generator then _ else _) with Ok _ => _ | Err _ => _ end).
  assert (engine_wf signed gen.2) as Hg.
  { unfold gen. destruct (if has_generator then _ else _) as [generated|msg]; [|by apply setState_wf].
    destruct (save _ _ _ _ _ _ _) as [trace [[]|msg]]; cbn [snd]; [|apply setState_wf; [done|]];
      by apply (engine_wf_kept signed c). }
  clearbody gen. destruct loaded as [i|msg]; [by destruct (isWeakIdentity i)|].
  destruct (bool_decide _); [done|by apply setState_wf].
Qed.

Lemma worker_step_wf signed e w c : event_ok signed (WorkerStep e) -> engine_wf signed c ->
  engine_wf signed (worker_step e w c).2.
Proof.
  intros He Hc. cbn in He. destruct w; cbn [Core.worker_step]; try done.
  - pose proof (worker_identity_wf signed passphrase e c Hc) as Hi.
    destruct (worker_identity _ _ _ c) as [[i|] c1]; [|done]. cbn [snd] in Hi.
    assert (engine_wf signed (set_identity (Some i) c1)) as Hi1 by by apply (engine_wf_kept signed c1).
    destruct has_control; [done|by apply setState_wf].
  - destruct (_ =? 0); by apply (engine_wf_kept signed c).
  - destruct (stopRequested_ c); [done|]. apply setState_wf; [done|]. by apply (engine_wf_kept signed c).
  - unfold session_connect. destruct (e_connect e) as [[]|msg].
    + apply setState_wf; [done|]. by apply (engine_wf_kept signed c).
    + destruct (firstSession l); (apply setState_wf; [by repeat case_match|by apply (engine_wf_kept signed c)]).
  - by apply (engine_wf_kept signed c).
  - by destruct (stopRequested_ c).
  - unfold session_poll. destruct (e_poll e) as [u|error].
    + pose proof (handle_message_wf signed u (s_error s) (e_now e) c He Hc).
      by destruct (handle_message _ _ _ c) as [[[r|] err] c1].
    + destruct (stopRequested_ c); [done|]. destruct (0 <? _); by apply setState_wf.
  - by destruct (negb _).
  - pose proof (advertiseHomeDerp_same region e c) as (Ep&_&Es&_). apply (engine_wf_kept signed c); cbn [snd]; congruence.
  - by apply (engine_wf_kept signed c).
  - destruct (match r with SessionStopped => true | _ => _ end); [done|].
    destruct r; try done; by destruct (negb _).
  - by destruct (stopRequested_ c).
Qed.

Lemma step_data_wf signed s ev : event_ok signed ev -> engine_wf signed (core s) -> engine_wf signed (core (step s ev)).
Proof.
  intros He Hc. destruct ev; cbn [Core.step].
  - destruct (stopping s); [done|]. unfold start. destruct (worker s); try done.
    apply (engine_wf_kept signed (core s)); [done..|]. done.
  - cbn. unfold stop_request. destruct has_control; by apply (engine_wf_kept signed (core s)).
  - destruct (stopping s), (worker s), (route s); try done; cbn; unfold stop_finish; (apply setState_wf; [done|]);
      destruct has_control, has_overlay; by apply (engine_wf_kept signed (core s)).
  - pose proof (worker_step_wf signed e (worker s) (core s) He Hc). by destruct (worker_step e (worker s) (core s)).
  - destruct (route s); try done. by destruct (activateRoute_begin _ _ _).
  - destruct (route s) as [|target region|]; try done.
    pose proof (advertiseHomeDerp_same region e (core s)) as (Ep&_&Es&_).
    apply (engine_wf_kept signed (core s)); cbn; congruence.
  - destruct (route s) as [| |target]; try done. cbn. destruct started; cbn; [by apply (engine_wf_kept signed (core s))|].
    by apply (engine_wf_kept signed (core s)).
  - destruct (route s); try done. cbn. unfold prepareRouteForStreaming. destruct (_ || _); [done|].
    destruct prepared; by apply (engine_wf_kept signed (core s)).
  - destruct (route s); try done. cbn. unfold deactivateRoute.
    destruct (_ && _); [|done]. by apply (engine_wf_kept signed (core s)).
  - pose proof (publishEndpoints_same endpoints_ e (core s)) as (Ep&_&Es&_).
    apply (engine_wf_kept signed (core s)); cbn; congruence.
  - by apply (engine_wf_kept signed (core s)).
Qed.

(** C39: the engine's data is well-typed in every run whose netmap messages are
    ones [MapCodec::decode] returns: the directory holds valid peers under
    their identifiers and stays within its cap, the local address is empty or a
    literal IPv4 address, the state is [Ready] only with an address, and every
    relay region is one the relay client can use. *)
Theorem engine_data_wf signed f file es : Forall (event_ok signed) es ->
  engine_wf signed (core (run (fresh f file) es)).
Proof.
  assert (engine_wf signed (core (fresh f file))) as H0.
  { constructor; cbn; [|by left|done|by rewrite zlen_nil].
    constructor; [by intros ?? ?%lookup_empty_Some|by rewrite map_size_empty]. }
  generalize dependent (fresh f file). unfold Core.run.
  induction es as [|ev es IH]; intros s Hs Hes; cbn [foldl]; [done|].
  apply list.Forall_cons in Hes as [He Hes]. apply IH; [by apply step_data_wf|done].
Qed.
End invariants.

(** ** The default home region *)

(** Online peers whose home is [region]. *)
Definition votes_for (region : Z) (peers : list Peer) : Z :=
  zlen (List.filter (fun p => online p && (homeDerp p =? region)) peers).
Definition usable_ids (regions : list DerpRegion) : list Z :=
  dr_regionId <$> List.filter (fun r => negb (bool_decide (dr_nodes r = []))) regions.

(** The region with most online peers, the lowest of them on a tie; without any
    such peer, the lowest usable region of the map; 0 without a map. *)
Inductive default_home (regions : list DerpRegion) (peers : list Peer) : Z -> Prop :=
| home_no_map : regions = [] -> default_home regions peers 0
| home_voted d : regions <> [] -> 0 < d -> 0 < votes_for d peers ->
    (forall r, 0 < r -> votes_for r peers < votes_for d peers \/
                        (votes_for r peers = votes_for d peers /\ d <= r)) ->
    default_home regions peers d
| home_lowest d : regions <> [] -> (forall r, 0 < r -> votes_for r peers = 0) ->
    d ∈ usable_ids regions -> Forall (fun r => d <= r) (usable_ids regions) -> default_home regions peers d
| home_unusable : regions <> [] -> (forall r, 0 < r -> votes_for r peers = 0) -> usable_ids regions = [] ->
    default_home regions peers 0.

Lemma default_home_unique regions peers d d' :
  default_home regions peers d -> default_home regions peers d' -> d = d'.
Proof.
  intros [|d1 Hm Hd Hv Hmax|d1 Hm Hno Hin Hmin|Hm Hno Hnil] [|d2 Hm2 Hd2 Hv2 Hmax2|d2 Hm2 Hno2 Hin2 Hmin2|Hm2 Hno2 Hnil2];
    try done.
  - destruct (Hmax d2 Hd2), (Hmax2 d1 Hd); lia.
  - specialize (Hno2 d1 Hd). lia.
  - specialize (Hno2 d1 Hd). lia.
  - specialize (Hno d2 Hd2). lia.
  - rewrite list.Forall_forall in Hmin, Hmin2. specialize (Hmin d2 Hin2). specialize (Hmin2 d1 Hin). cbn in *. lia.
  - rewrite Hnil2 in Hin. by apply not_elem_of_nil in Hin.
  - specialize (Hno d2 Hd2). lia.
  - rewrite Hnil in Hin2. by apply not_elem_of_nil in Hin2.
Qed.

Lemma votes_for_snoc r l p : votes_for r (l ++ [p]) =
  votes_for r l + if online p && (homeDerp p =? r) then 1 else 0.
Proof.
  unfold votes_for. rewrite List.filter_app, zlen_app. cbn [List.filter]. by destruct (_ && _).
Qed.

Lemma votes_for_perm r l k : l ≡ₚ k -> votes_for r l = votes_for r k.
Proof.
  unfold votes_for, zlen. intros Hp. f_equal. apply Permutation_length.
  induction Hp; cbn [List.filter]; repeat case_match; try (by constructor); by etransitivity.
Qed.

Lemma tally_lookup peers r : tally peers !! r =
  if (0 <? r) && (0 <? votes_for r peers) then Some (votes_for r peers) else None.
Proof.
  induction peers as [|p l IH] using rev_ind; [unfold votes_for; cbn; by rewrite andb_false_r|].
  unfold tally. rewrite foldl_snoc. fold (tally l). rewrite votes_for_snoc.
  pose proof (zlen_nonneg (List.filter (fun p => online p && (homeDerp p =? r)) l)) as Hn. fold (votes_for r l) in Hn.
  destruct (online p); cbn [andb]; [|by rewrite IH, Z.add_0_r].
  destruct (Z.ltb_spec 0 (homeDerp p)) as [Hp|Hp].
  - destruct (Z.eqb_spec (homeDerp p) r) as [<-|Hne]; [|by rewrite lookup_insert_ne, IH, Z.add_0_r by done].
    rewrite lookup_insert_eq, IH, (proj2 (Z.ltb_lt _ _) Hp). cbn [andb].
    destruct (Z.ltb_spec 0 (votes_for (homeDerp p) l)); cbn [default].
    + rewrite (proj2 (Z.ltb_lt _ _)) by lia. done.
    + rewrite (proj2 (Z.ltb_lt _ _)) by lia. cbn. f_equal. lia.
  - rewrite IH. destruct (Z.eqb_spec (homeDerp p) r) as [<-|]; [|by rewrite Z.add_0_r].
    by rewrite (proj2 (Z.ltb_ge _ _) Hp).
Qed.

Lemma vote_loop_spec l : forall best bv, exists bv',
  (vote_loop l best bv, bv') ∈ (best, bv) :: l /\
  forall r c, (r, c) ∈ (best, bv) :: l -> c < bv' \/ (c = bv' /\ vote_loop l best bv <= r).
Proof.
  induction l as [|[r c] l IH]; intros best bv; cbn [vote_loop].
  - exists bv. split; [by apply list_elem_of_here|]. intros r c [= -> ->]%list_elem_of_singleton. lia.
  - destruct ((bv <? c) || ((c =? bv) && (r <? best))) eqn:E.
    + destruct (IH r c) as (bv'&Hin&Hmax). exists bv'. split; [by apply list_elem_of_further|].
      intros r' c' [[= -> ->]|Hin']%elem_of_cons; [|by apply Hmax].
      assert (bv < c \/ (c = bv /\ r < best)) as Hlt by lia.
      destruct (Hmax r c ltac:(apply list_elem_of_here)); lia.
    + destruct (IH best bv) as (bv'&Hin&Hmax). exists bv'. split.
      { apply elem_of_cons in Hin as [->|]; [apply list_elem_of_here|by do 2 apply list_elem_of_further]. }
      intros r' c' [[= -> ->]|[[= -> ->]|Hin']%elem_of_cons]%elem_of_cons.
      * apply Hmax, list_elem_of_here.
      * destruct (Hmax best bv ltac:(apply list_elem_of_here)); lia.
      * by apply Hmax, list_elem_of_further.
Qed.

Lemma lowest_loop_spec l : forall low, Forall (fun r => 0 < dr_regionId r) l -> 0 <= low ->
  (lowest_loop l low = low \/ lowest_loop l low ∈ usable_ids l) /\
  (0 < low -> lowest_loop l low <= low) /\ Forall (fun r => 0 < lowest_loop l low <= r) (usable_ids l).
Proof.
  unfold usable_ids. induction l as [|x l IH]; intros low Hl Hlow; cbn [lowest_loop List.filter].
  - split_and!; [by left|lia|constructor].
  - apply list.Forall_cons in Hl as [Hx Hl].
    destruct (negb (bool_decide (dr_nodes x = []))) eqn:Eu; cbn [andb]; [|by apply IH].
    set (low' := if (low =? 0) || (dr_regionId x <? low) then dr_regionId x else low).
    assert (0 < low' /\ low' <= dr_regionId x /\ (0 < low -> low' <= low) /\ (low' = low \/ low' = dr_regionId x))
      as (H1&H2&H3&H4).
    { unfold low'. destruct ((low =? 0) || (dr_regionId x <? low)) eqn:E; lia. }
    destruct (IH low' Hl ltac:(lia)) as (Hr&Hle&Hall). specialize (Hle H1).
    assert (0 < lowest_loop l low') as Hpos.
    { destruct Hr as [->|Hr]; [done|]. rewrite list.Forall_forall in Hall. apply (Hall _ Hr). }
    rewrite fmap_cons. split_and!.
    + destruct Hr as [->|Hr]; [|right; by apply list_elem_of_further].
      destruct H4 as [->| ->]; [by left|right; apply list_elem_of_here].
    + lia.
    + constructor; [lia|]. done.
Qed.

Section default_home.
Variables (regions : list DerpRegion) (peers : list Peer) (order : list (Z * Z) -> list (Z * Z)).
Hypothesis regions_positive : Forall (fun r => 0 < dr_regionId r) regions.
Hypothesis order_perm : forall l, order l ≡ₚ l.

Lemma elem_of_votes r c : (r, c) ∈ order (map_to_list (tally peers)) <->
  0 < r /\ 0 < votes_for r peers /\ c = votes_for r peers.
Proof.
  rewrite order_perm, elem_of_map_to_list, tally_lookup.
  destruct (Z.ltb_spec 0 r), (Z.ltb_spec 0 (votes_for r peers)); cbn [andb];
    (split; [by intros [= <-]|]); intros (?&?&->); (done || lia).
Qed.

Lemma choose_default_home : default_home regions peers (chooseDefaultHomeDerp regions peers order).
Proof.
  unfold chooseDefaultHomeDerp. destruct (bool_decide_reflect (regions = [])) as [->|Hm]; [by constructor|].
  destruct (vote_loop_spec (order (map_to_list (tally peers))) 0 0) as (bv&Hin&Hmax).
  set (d := vote_loop _ 0 0) in *.
  apply elem_of_cons in Hin as [[= Ed Ebv]|Hin].
  - assert (forall r, 0 < r -> votes_for r peers = 0) as Hno.
    { intros r Hr. pose proof (zlen_nonneg (List.filter (fun p => online p && (homeDerp p =? r)) peers)) as Hn.
      fold (votes_for r peers) in Hn. destruct (Z.eq_dec (votes_for r peers) 0) as [|Hne]; [done|].
      destruct (Hmax r (votes_for r peers)); [|lia..]. apply list_elem_of_further, elem_of_votes. lia. }
    rewrite Ed. cbn [Z.ltb Z.compare].
    destruct (lowest_loop_spec regions 0 regions_positive ltac:(lia)) as (Hr&_&Hall).
    destruct (usable_ids regions) as [|i ids] eqn:Eu.
    + destruct Hr as [->|Hr]; [by apply home_unusable|by apply not_elem_of_nil in Hr].
    + assert (0 < lowest_loop regions 0) as Hpos by (apply list.Forall_cons in Hall as [? _]; lia).
      destruct Hr as [Hr|Hr]; [lia|]. apply home_lowest; [done..|by rewrite Eu|].
      rewrite Eu. eapply list.Forall_impl; [exact Hall|]. cbn. lia.
  - apply elem_of_votes in Hin as (Hd&Hv&Ebv). rewrite (proj2 (Z.ltb_lt _ _) Hd).
    apply home_voted; [done..|]. intros r Hr.
    destruct (Z.ltb_spec 0 (votes_for r peers)) as [Hvr|Hvr]; [|left; lia].
    rewrite <- Ebv. apply Hmax, list_elem_of_further, elem_of_votes. done.
Qed.
End default_home.

Lemma default_home_perm regions peers peers' d : peers ≡ₚ peers' ->
  default_home regions peers d -> default_home regions peers' d.
Proof.
  intros Hp Hd. assert (forall r, votes_for r peers' = votes_for r peers) as E
    by (intros r; symmetry; by apply votes_for_perm).
  destruct Hd as [|d Hm Hd Hv Hmax|d Hm Hno|Hm Hno]; [by constructor|apply home_voted|apply home_lowest|apply home_unusable];
    rewrite ?E; try done; intros r Hr; rewrite !E; auto.
Qed.

(** The default home region does not depend on how the hash maps are
    traversed: whatever the order of the peers and of the vote table, it is the
    home region of most online peers (the lowest on a tie), else the lowest
    region of the map with a relay in it, else none. *)
Theorem chooseDefaultHomeDerp_spec regions peers peers' order order' :
  Forall (fun r => 0 < dr_regionId r) regions -> peers' ≡ₚ peers ->
  (forall l, order l ≡ₚ l) -> (forall l, order' l ≡ₚ l) ->
  default_home regions peers (chooseDefaultHomeDerp regions peers order) /\
  chooseDefaultHomeDerp regions peers' order' = chooseDefaultHomeDerp regions peers order.
Proof.
  intros Hr Hp Ho Ho'. split; [by apply choose_default_home|].
  apply (default_home_unique regions peers); [|by apply choose_default_home].
  eapply default_home_perm; [exact Hp|]. by apply choose_default_home.
Qed.

(** ** The sidecar file *)

(** A region saved whole is the hint of the next run: the decimal line written
    by [saveHomeDerpHint] reads back, for every region the loader accepts, and
    whatever was cut off by a failing write the loader's answer is a usable
    region or none. *)
Theorem home_hint_roundtrip region written file :
  0 < region <= 65535 ->
  loadHomeDerpHint (saveHomeDerpHint region (Some (length (to_string region ++ [u8 10]))) file) = region /\
  0 <= loadHomeDerpHint (saveHomeDerpHint region written file) <= 65535.
Proof.
  intros Hr. split.
  - cbn [saveHomeDerpHint]. rewrite firstn_all. unfold loadHomeDerpHint, extract_int. cbn [mbind option_bind].
    pose proof (to_string_digits region ltac:(lia)) as Hd. pose proof (to_string_nonempty region ltac:(lia)) as Hne.
    destruct (to_string region) as [|b l] eqn:Es; [done|]. cbn [app skip_spaces].
    apply list.Forall_cons in Hd as [Hb Hl]. pose proof (proj1 (is_digit_range b) Hb) as Hbr.
    assert (is_space b = false) as -> by (unfold is_space; lia).
    rewrite !bool_decide_false by (intros ->; destruct Hbr as [Hbr _]; by apply Hbr).
    assert (take_while is_digit (b :: l ++ [u8 10]) = b :: l) as ->.
    { cbn [take_while]. rewrite Hb. f_equal. clear -Hl.
      induction Hl as [|x l Hx Hl IH]; [done|]. cbn [app take_while]. by rewrite Hx, IH. }
    rewrite bool_decide_false by done. rewrite <- Es, to_string_value by lia. cbv zeta.
    rewrite (proj2 (Z.ltb_ge _ _)) by lia. rewrite (proj2 (Z.leb_gt _ _)) by lia. cbn [orb].
    rewrite (proj2 (Z.leb_gt _ _)) by lia. by rewrite (proj2 (Z.ltb_ge _ _)) by lia.
  - unfold loadHomeDerpHint. destruct (_ ≫= _) as [v|]; [|lia].
    destruct (Z.leb_spec v 0); cbn [orb]; [lia|]. destruct (Z.ltb_spec 65535 v); lia.
Qed.

(** ** A device that knows home region 1, and its tailnet *)

Definition ex_peer (id : string) (home : Z) : Peer :=
  {| stableId := bs id; nodeKey := []; discoKey := []; hostname := []; addresses := [bs "100.64.0.2"];
     allowedIPs := []; endpoints := []; homeDerp := home; online := true; os := []; tcpServicePorts := [];
     servicesKnown := false |}.
Definition ex_region (id : Z) : DerpRegion :=
  {| dr_regionId := id; dr_regionCode := [];
     dr_nodes := [{| dn_host := bs "derp.example"; dn_port := 443; dn_stunPort := 3478 |}] |}.
Definition ex_netmap (peers : list Peer) (regions : list DerpRegion) : PollUpdate :=
  {| p_delta := no_delta; p_fullPeers := Some peers; p_localAddress := bs "100.64.0.1"; p_derpMap := Some regions |}.
Definition ex_target : RemoteRouteTarget := proxy_target (bs "a") (bs "100.64.0.2") (bs "100.64.0.2").
Definition ex_env (connect : result unit) (polled : poll_result) : env :=
  {| e_renamed := true; e_oracle := fails_at (fun _ => false) 0; e_generated := Ok ex_new; e_salt := ex_salt;
     e_nonce := ex_nonce; e_connect := connect; e_poll := polled; e_sent := true; e_write_hint := Some 9%nat;
     e_peers_order := fun l => l; e_votes_order := fun l => l; e_now := 0 |}.
(** Worker steps that succeed, those that poll a message, and a failing poll. *)
Definition go (n : nat) : list event := repeat (WorkerStep (ex_env (Ok tt) (PollFailed None))) n.
Definition receive (u : PollUpdate) : list event :=
  repeat (WorkerStep (ex_env (Ok tt) (Polled u))) 2 ++ go 1.
Definition ex_hint_file : option bytes := Some (bs "1" ++ [u8 10]).
Definition ex_run (hint_file : option bytes) : list event -> system :=
  run true true true (fresh ex_files hint_file).

(** The thread is in a session; it has received a netmap. *)
Definition ex_session : list event := Start (bs "key") [] :: go 5.
Definition ex_drop : list event := go 4.

Lemma worker_end_is_shown_witness :
  let s := run true true true (fresh ex_files None)
    [Start (bs "key") []; WorkerStep (ex_env (Ok tt) (PollFailed None)); WorkerStep (ex_env (Ok tt) (PollFailed None));
     WorkerStep (ex_env (Ok tt) (PollFailed None)); WorkerStep (ex_env (Err "refused") (PollFailed None));
     WorkerStep (ex_env (Ok tt) (PollFailed None))] in
  worker s = Finished /\ (state (snapshot_ (core s)) = Error \/ state (snapshot_ (core s)) = NeedsAuthentication).
Proof.
  split; [vm_compute; reflexivity|].
  apply worker_end_is_shown; [vm_compute; reflexivity|vm_compute; reflexivity].
Defined.

Definition ex_waiting : list event := ex_session ++ receive (ex_netmap [ex_peer "a" 5] [ex_region 5]) ++ ex_drop.
Definition ex_loop : Loop :=
  {| authKey := []; l_identity := ex_old; firstSession := false; everProductive := true; backoff := 1; attempt := 1 |}.

Lemma backoff_bounds_witness :
  worker (run true true true (fresh ex_files ex_hint_file) ex_waiting) = Waiting ex_loop /\
  1 <= backoff ex_loop <= kMaxBackoff.
Proof.
  assert (worker (run true true true (fresh ex_files ex_hint_file) ex_waiting) = Waiting ex_loop) as E
    by (vm_compute; reflexivity).
  split; [exact E|]. apply (backoff_bounds true true true ex_files ex_hint_file ex_waiting ex_loop E).
Defined.

Lemma stop_joins_witness :
  worker (run true true true (step true true true (run true true true (fresh ex_files ex_hint_file) ex_session) StopRequest)
    (go 6)) = Finished.
Proof.
  destruct (stop_joins true true true ex_files ex_hint_file ex_session (go 6)) as [E|E].
  - apply Nat.leb_le. vm_compute. reflexivity.
  - intros H. apply list_elem_of_In in H. vm_compute in H. intuition discriminate.
  - exfalso. vm_compute in E. discriminate.
  - exact E.
Defined.

Lemma ex_region_ok id : 1 <= id < 2 ^ 31 -> region_ok false (ex_region id).
Proof.
  intros Hid. split_and!; [apply Hid..|done|done|].
  apply list.Forall_singleton. split_and!; [vm_compute; reflexivity|done..].
Qed.

Lemma engine_data_wf_witness :
  engine_wf false (core (run true true true (fresh ex_files ex_hint_file) ex_waiting)) /\
  state (snapshot_ (core (run true true true (fresh ex_files ex_hint_file) ex_waiting))) = ConnectingControl.
Proof.
  split; [|vm_compute; reflexivity]. apply engine_data_wf.
  assert (message_ok false (ex_netmap [ex_peer "a" 5] [ex_region 5])) as Hm.
  { split; [right; vm_compute; reflexivity|]. intros rs [= <-]. split; [discriminate|].
    apply list.Forall_singleton, ex_region_ok. split; [discriminate|reflexivity]. }
  unfold ex_waiting, ex_session, receive, ex_drop, go. cbn [repeat app].
  repeat (apply list.Forall_cons; split; [first [exact I | exact Hm]|]). apply list.Forall_nil_2.
Defined.

Lemma chooseDefaultHomeDerp_spec_witness :
  let regions := [ex_region 7; ex_region 3] in
  let peers := [ex_peer "a" 5; ex_peer "b" 2; ex_peer "c" 5; ex_peer "d" 2] in
  default_home regions peers 2 /\ chooseDefaultHomeDerp regions (reverse peers) reverse = 2.
Proof.
  intros regions peers.
  destruct (chooseDefaultHomeDerp_spec regions peers (reverse peers) (fun l => l) reverse) as [H1 H2].
  - repeat (apply list.Forall_cons; split; [reflexivity|]). apply list.Forall_nil_2.
  - apply reverse_Permutation.
  - reflexivity.
  - intros l. apply reverse_Permutation.
  - rewrite H2. assert (chooseDefaultHomeDerp regions peers (fun l => l) = 2) as E by (vm_compute; reflexivity).
    rewrite E in H1. split; [exact H1|exact E].
Defined.

Lemma home_hint_roundtrip_witness : loadHomeDerpHint (Some (to_string 21 ++ [u8 10])) = 21.
Proof.
  destruct (home_hint_roundtrip 21 None None) as [E _]; [split; [reflexivity|discriminate]|].
  cbn [saveHomeDerpHint] in E. rewrite firstn_all in E. exact E.
Defined.

(** ** What the runs also show *)

(** Between the map request of a reconnect and the registration of the session,
    [controlConnected_] is still false: a region requested by a route in that
    window becomes the hint "for the next MapRequest", which has already gone
    out. The session then advertises the old region and never corrects it. *)
Example route_region_lost :
  let s := ex_run ex_hint_file (ex_waiting ++ go 2 ++ [RouteEnter ex_target;
             RouteAdvertise (ex_env (Ok tt) (PollFailed None)); RouteStart (Ok tt)] ++ go 2 ++
             receive (ex_netmap [ex_peer "a" 5] [ex_region 5])) in
  activeRoute_ (core s) = Some ex_target /\ controlConnected_ (adv (core s)) = true /\
  homeDerpHint_ (adv (core s)) = 5 /\ told_region (control_calls (core s)) = 1.
Proof. vm_compute. done. Qed.

(** The default region is checked, chosen and advertised under three separate
    locks: a route that advertises its region in between is overridden by the
    default, and peers answer to a region the relay does not listen on. *)
Example default_overrides_route :
  let peers := [ex_peer "a" 5; ex_peer "b" 2; ex_peer "c" 2] in
  let s := ex_run None (ex_session ++ receive (ex_netmap peers [ex_region 2; ex_region 5]) ++
             [RouteEnter ex_target; RouteAdvertise (ex_env (Ok tt) (PollFailed None)); RouteStart (Ok tt)] ++ go 1) in
  activeRoute_ (core s) = Some ex_target /\ (homeDerp <$> findByStableId (bs "a") (peers_ (core s))) = Some 5 /\
  homeDerpHint_ (adv (core s)) = 2 /\ told_region (control_calls (core s)) = 2.
Proof. vm_compute. done. Qed.

(** Endpoints found in the same window are stored as published but never sent:
    the session has the old ones, and publishing the same list again returns at
    once. *)
Example endpoints_lost :
  let publish := PublishEndpoints [bs "192.168.1.9:41641"] (ex_env (Ok tt) (PollFailed None)) in
  let s := ex_run ex_hint_file (Start (bs "key") [] :: go 4 ++ [publish] ++ go 1 ++ [publish]) in
  controlConnected_ (adv (core s)) = true /\
  publishedEndpoints_ (adv (core s)) = [bs "192.168.1.9:41641"] /\
  told_endpoints (control_calls (core s)) = [].
Proof. vm_compute. done. Qed.

(** A netmap that is rejected ends the worker for good, although earlier
    sessions worked: here a reconnect whose netmap has no address. *)
Example productive_worker_ends :
  let refused := {| p_delta := no_delta; p_fullPeers := Some []; p_localAddress := []; p_derpMap := None |} in
  let before := ex_run ex_hint_file (ex_waiting ++ go 1) in
  let s := run true true true before (go 3 ++ receive refused ++ go 1) in
  (everProductive <$> loop_of (worker before)) = Some true /\
  worker s = Finished /\ stopRequested_ (core s) = false /\ status (snapshot_ (core s)) = "Netmap rejected"%string.
Proof. vm_compute. done. Qed.

(** A delta the directory rejects is dropped without a trace: the session goes
    on, the snapshot stays [Ready], and the next one applies to the old peers. *)
Example rejected_delta_unnoticed :
  let delta := {| changed := [ex_peer "" 1]; removedStableIds := [bs "a"]; onlineChanges := [] |} in
  let s := ex_run ex_hint_file (ex_session ++ receive (ex_netmap [ex_peer "a" 5] [ex_region 5]) ++
             receive {| p_delta := delta; p_fullPeers := None; p_localAddress := []; p_derpMap := None |}) in
  (apply delta (peers_ (core s))).1 = Err "peer has no stable ID" /\
  findByStableId (bs "a") (peers_ (core s)) = Some (ex_peer "a" 5) /\
  state (snapshot_ (core s)) = Ready /\ lastError (snapshot_ (core s)) = ""%string.
Proof. vm_compute. done. Qed.

(** A reconnect that drops before its first message shows [Error] while the
    worker is waiting to try again; one whose connect fails shows
    [ConnectingControl]. *)
Example retrying_shown_as_error :
  let s := ex_run ex_hint_file (ex_waiting ++ go 8) in
  (exists l, worker s = Waiting l) /\ state (snapshot_ (core s)) = Error.
Proof. split; [eexists|]; vm_compute; reflexivity. Qed.
