(* ===== verification/ControlSession.v ===== *)
(** The control session ([TailscaleControlSession.cpp]): one TS2021 connection
    to the control server. [connect] upgrades the transport, runs the Noise
    handshake, opens HTTP/2, registers and sends the streaming map request;
    [poll] reads the next netmap message through the record, HTTP/2 and netmap
    layers; [sendHostinfoUpdate] sends an update on a stream of its own. The
    functions return what the call returns, the session, and the string
    [*error] holds afterwards (they take the one it held before). *)

From S2P Require Import Prelude Bytes Text Framing Transport Box Http2 HttpUpgrade Noise Types Json ControlCodec Core.

Definition kMaxResponseHeader : nat := Z.to_nat (16 * 1024).
Definition kReadChunk : Z := 2048.

(** ** The status of a HEADERS frame, for the log *)

(** [peek(width)] at a bit offset. *)
Definition bit_at (data : bytes) (at_ : nat) : Z :=
  Z.land (Z.shiftr (byte_at data (at_ / 8)) (7 - Z.of_nat (at_ mod 8))) 1.
Fixpoint peek (data : bytes) (bit width : nat) (value : Z) : Z :=
  match width with
  | O => value
  | S k => peek data (bit + 1) k (Z.lor (u32 (Z.shiftl value 1)) (bit_at data bit))
  end.

Fixpoint huffman_loop (fuel : nat) (data : bytes) (bit : nat) (out : bytes) : bytes :=
  match fuel with
  | O => out
  | S k =>
      let totalBits := (length data * 8)%nat in
      if (bit + 5 <=? totalBits)%nat && (length out <? 3)%nat then
        let five := peek data bit 5 0 in
        if five <=? 2 then huffman_loop k data (bit + 5) (out ++ [u8 (48 + five)])
        else if (totalBits <? bit + 6)%nat then out
        else
          let six := peek data bit 6 0 in
          if (0x19 <=? six) && (six <=? 0x1f)
          then huffman_loop k data (bit + 6) (out ++ [u8 (51 + (six - 0x19))])
          else out
      else out
  end.

(** The condition bounds the loop to three digits. *)
Definition decodeHuffmanDigits (data : bytes) : bytes := huffman_loop 4 data 0 [].

(** Dynamic table size updates at the front of the header block. *)
Fixpoint skip_continuation (p : bytes) (offset : nat) (fuel : nat) : nat :=
  match fuel with
  | O => offset
  | S k => if (offset <? length p)%nat && negb (Z.land (byte_at p offset) 0x80 =? 0)
           then skip_continuation p (offset + 1) k else offset
  end.
Fixpoint skip_size_updates (fuel : nat) (p : bytes) (offset : nat) : nat :=
  match fuel with
  | O => offset
  | S k =>
      if (offset <? length p)%nat && (Z.land (byte_at p offset) 0xe0 =? 0x20) then
        let multiByte := Z.land (byte_at p offset) 0x1f =? 0x1f in
        let offset := (offset + 1)%nat in
        skip_size_updates k p
          (if multiByte then (skip_continuation p offset (length p) + 1)%nat else offset)
      else offset
  end.

Definition indexed_status (index : Z) : Z :=
  if index =? 8 then 200 else if index =? 9 then 204 else if index =? 10 then 206
  else if index =? 11 then 304 else if index =? 12 then 400 else if index =? 13 then 404
  else if index =? 14 then 500 else 0.

(** [status * 10 + (c - '0')] in [int]; [None] is signed overflow. *)
Fixpoint status_value (digits : bytes) (status : Z) : option Z :=
  match digits with
  | [] => Some status
  | c :: rest =>
      if negb (is_digit c) then Some 0
      else
        let next := status * 10 + (ub c - 48) in
        if 2 ^ 31 <=? next then None else status_value rest next
  end.

Definition http2ResponseStatus (frame : Http2Frame) : option Z :=
  let p := payload frame in
  let offset := if Z.land (ub (flags frame)) 0x08 =? 0 then 0%nat else 1%nat in
  let offset := if Z.land (ub (flags frame)) 0x20 =? 0 then offset else (offset + 5)%nat in
  let offset := skip_size_updates (S (length p)) p offset in
  if (length p <=? offset)%nat then Some 0
  else
    let first := byte_at p offset in
    if negb (Z.land first 0x80 =? 0) then Some (indexed_status (Z.land first 0x7f))
    else
      let nameIndex := if Z.land first 0xc0 =? 0x40 then Z.land first 0x3f
                       else if (Z.land first 0xf0 =? 0) || (Z.land first 0xf0 =? 0x10)
                            then Z.land first 0x0f else 0 in
      if (nameIndex <? 8) || (14 <? nameIndex) || (length p <=? offset + 1)%nat then Some 0
      else
        let lengthByte := byte_at p (offset + 1) in
        let length_ := Z.to_nat (Z.land lengthByte 0x7f) in
        if (length p <? offset + 2 + length_)%nat then Some 0
        else
          let value := firstn length_ (skipn (offset + 2) p) in
          status_value (if Z.land lengthByte 0x80 =? 0 then value else decodeHuffmanDigits value) 0.

(** ** The session *)

Record ControlSession (W : Type) := {
  host_ : bytes;
  port_ : Z;
  cs_controlPublic : bytes;
  hostname_ : bytes;
  recordReader_ : bool;
  cs_transport : option W;
  noise_ : option NoiseClient;
  plaintextQueue_ : list bytes;
  stableIds_ : gmap Z bytes;
  mapFrameDecoder_ : bytes;
  http2Decoder_ : bytes;
  cs_ready : bool;
  nodePublic_ : bytes;
  discoPublic_ : bytes;
  capabilityVersion_ : Z;
  nextStreamId_ : Z;
  registerStreamId_ : Z;
  mapStreamId_ : Z;
  registerHttpStatus_ : Z;
  mapHttpStatus_ : Z;
  dataBytesReceived_ : Z;
  windowWarned_ : bool;
  windowUpdatesSent_ : Z;
  connectionWindow_ : Http2ReceiveWindow;
  mapStreamWindow_ : Http2ReceiveWindow;
  initialPreferredDerp_ : Z;
  localEndpoints_ : list bytes;
}.
Arguments host_ {W}. Arguments port_ {W}. Arguments cs_controlPublic {W}. Arguments hostname_ {W}.
Arguments recordReader_ {W}. Arguments cs_transport {W}. Arguments noise_ {W}. Arguments plaintextQueue_ {W}.
Arguments stableIds_ {W}. Arguments mapFrameDecoder_ {W}. Arguments http2Decoder_ {W}. Arguments cs_ready {W}.
Arguments nodePublic_ {W}. Arguments discoPublic_ {W}. Arguments capabilityVersion_ {W}.
Arguments nextStreamId_ {W}. Arguments registerStreamId_ {W}. Arguments mapStreamId_ {W}.
Arguments registerHttpStatus_ {W}. Arguments mapHttpStatus_ {W}. Arguments dataBytesReceived_ {W}.
Arguments windowWarned_ {W}. Arguments windowUpdatesSent_ {W}. Arguments connectionWindow_ {W}.
Arguments mapStreamWindow_ {W}. Arguments initialPreferredDerp_ {W}. Arguments localEndpoints_ {W}.

Section fields.
Context {W : Type}.
Implicit Types s : ControlSession W.

(** Updates of the groups of fields that change together. *)
Definition with_io (w : option W) (n : option NoiseClient) s : ControlSession W :=
  {| host_ := host_ s; port_ := port_ s; cs_controlPublic := cs_controlPublic s; hostname_ := hostname_ s;
     recordReader_ := recordReader_ s; cs_transport := w; noise_ := n; plaintextQueue_ := plaintextQueue_ s;
     stableIds_ := stableIds_ s; mapFrameDecoder_ := mapFrameDecoder_ s; http2Decoder_ := http2Decoder_ s;
     cs_ready := cs_ready s; nodePublic_ := nodePublic_ s; discoPublic_ := discoPublic_ s;
     capabilityVersion_ := capabilityVersion_ s; nextStreamId_ := nextStreamId_ s;
     registerStreamId_ := registerStreamId_ s; mapStreamId_ := mapStreamId_ s;
     registerHttpStatus_ := registerHttpStatus_ s; mapHttpStatus_ := mapHttpStatus_ s;
     dataBytesReceived_ := dataBytesReceived_ s; windowWarned_ := windowWarned_ s;
     windowUpdatesSent_ := windowUpdatesSent_ s; connectionWindow_ := connectionWindow_ s;
     mapStreamWindow_ := mapStreamWindow_ s; initialPreferredDerp_ := initialPreferredDerp_ s;
     localEndpoints_ := localEndpoints_ s |}.
Definition with_buffers (queue : list bytes) (h2 map : bytes) s : ControlSession W :=
  {| host_ := host_ s; port_ := port_ s; cs_controlPublic := cs_controlPublic s; hostname_ := hostname_ s;
     recordReader_ := recordReader_ s; cs_transport := cs_transport s; noise_ := noise_ s; plaintextQueue_ := queue;
     stableIds_ := stableIds_ s; mapFrameDecoder_ := map; http2Decoder_ := h2;
     cs_ready := cs_ready s; nodePublic_ := nodePublic_ s; discoPublic_ := discoPublic_ s;
     capabilityVersion_ := capabilityVersion_ s; nextStreamId_ := nextStreamId_ s;
     registerStreamId_ := registerStreamId_ s; mapStreamId_ := mapStreamId_ s;
     registerHttpStatus_ := registerHttpStatus_ s; mapHttpStatus_ := mapHttpStatus_ s;
     dataBytesReceived_ := dataBytesReceived_ s; windowWarned_ := windowWarned_ s;
     windowUpdatesSent_ := windowUpdatesSent_ s; connectionWindow_ := connectionWindow_ s;
     mapStreamWindow_ := mapStreamWindow_ s; initialPreferredDerp_ := initialPreferredDerp_ s;
     localEndpoints_ := localEndpoints_ s |}.
Definition with_codec (ids : gmap Z bytes) s : ControlSession W :=
  {| host_ := host_ s; port_ := port_ s; cs_controlPublic := cs_controlPublic s; hostname_ := hostname_ s;
     recordReader_ := recordReader_ s; cs_transport := cs_transport s; noise_ := noise_ s;
     plaintextQueue_ := plaintextQueue_ s; stableIds_ := ids; mapFrameDecoder_ := mapFrameDecoder_ s;
     http2Decoder_ := http2Decoder_ s;
     cs_ready := cs_ready s; nodePublic_ := nodePublic_ s; discoPublic_ := discoPublic_ s;
     capabilityVersion_ := capabilityVersion_ s; nextStreamId_ := nextStreamId_ s;
     registerStreamId_ := registerStreamId_ s; mapStreamId_ := mapStreamId_ s;
     registerHttpStatus_ := registerHttpStatus_ s; mapHttpStatus_ := mapHttpStatus_ s;
     dataBytesReceived_ := dataBytesReceived_ s; windowWarned_ := windowWarned_ s;
     windowUpdatesSent_ := windowUpdatesSent_ s; connectionWindow_ := connectionWindow_ s;
     mapStreamWindow_ := mapStreamWindow_ s; initialPreferredDerp_ := initialPreferredDerp_ s;
     localEndpoints_ := localEndpoints_ s |}.
Definition with_status (ready : bool) (reader : bool) (register map next : Z) s : ControlSession W :=
  {| host_ := host_ s; port_ := port_ s; cs_controlPublic := cs_controlPublic s; hostname_ := hostname_ s;
     recordReader_ := reader; cs_transport := cs_transport s; noise_ := noise_ s;
     plaintextQueue_ := plaintextQueue_ s; stableIds_ := stableIds_ s; mapFrameDecoder_ := mapFrameDecoder_ s;
     http2Decoder_ := http2Decoder_ s;
     cs_ready := ready; nodePublic_ := nodePublic_ s; discoPublic_ := discoPublic_ s;
     capabilityVersion_ := capabilityVersion_ s; nextStreamId_ := next;
     registerStreamId_ := register; mapStreamId_ := map;
     registerHttpStatus_ := registerHttpStatus_ s; mapHttpStatus_ := mapHttpStatus_ s;
     dataBytesReceived_ := dataBytesReceived_ s; windowWarned_ := windowWarned_ s;
     windowUpdatesSent_ := windowUpdatesSent_ s; connectionWindow_ := connectionWindow_ s;
     mapStreamWindow_ := mapStreamWindow_ s; initialPreferredDerp_ := initialPreferredDerp_ s;
     localEndpoints_ := localEndpoints_ s |}.
Definition with_keys (node disco : bytes) (version : Z) s : ControlSession W :=
  {| host_ := host_ s; port_ := port_ s; cs_controlPublic := cs_controlPublic s; hostname_ := hostname_ s;
     recordReader_ := recordReader_ s; cs_transport := cs_transport s; noise_ := noise_ s;
     plaintextQueue_ := plaintextQueue_ s; stableIds_ := stableIds_ s; mapFrameDecoder_ := mapFrameDecoder_ s;
     http2Decoder_ := http2Decoder_ s;
     cs_ready := cs_ready s; nodePublic_ := node; discoPublic_ := disco;
     capabilityVersion_ := version; nextStreamId_ := nextStreamId_ s;
     registerStreamId_ := registerStreamId_ s; mapStreamId_ := mapStreamId_ s;
     registerHttpStatus_ := registerHttpStatus_ s; mapHttpStatus_ := mapHttpStatus_ s;
     dataBytesReceived_ := dataBytesReceived_ s; windowWarned_ := windowWarned_ s;
     windowUpdatesSent_ := windowUpdatesSent_ s; connectionWindow_ := connectionWindow_ s;
     mapStreamWindow_ := mapStreamWindow_ s; initialPreferredDerp_ := initialPreferredDerp_ s;
     localEndpoints_ := localEndpoints_ s |}.
Definition with_trace (register map received : Z) (warned : bool) (updates : Z) s : ControlSession W :=
  {| host_ := host_ s; port_ := port_ s; cs_controlPublic := cs_controlPublic s; hostname_ := hostname_ s;
     recordReader_ := recordReader_ s; cs_transport := cs_transport s; noise_ := noise_ s;
     plaintextQueue_ := plaintextQueue_ s; stableIds_ := stableIds_ s; mapFrameDecoder_ := mapFrameDecoder_ s;
     http2Decoder_ := http2Decoder_ s;
     cs_ready := cs_ready s; nodePublic_ := nodePublic_ s; discoPublic_ := discoPublic_ s;
     capabilityVersion_ := capabilityVersion_ s; nextStreamId_ := nextStreamId_ s;
     registerStreamId_ := registerStreamId_ s; mapStreamId_ := mapStreamId_ s;
     registerHttpStatus_ := register; mapHttpStatus_ := map;
     dataBytesReceived_ := received; windowWarned_ := warned;
     windowUpdatesSent_ := updates; connectionWindow_ := connectionWindow_ s;
     mapStreamWindow_ := mapStreamWindow_ s; initialPreferredDerp_ := initialPreferredDerp_ s;
     localEndpoints_ := localEndpoints_ s |}.
Definition with_windows (connection stream : Http2ReceiveWindow) s : ControlSession W :=
  {| host_ := host_ s; port_ := port_ s; cs_controlPublic := cs_controlPublic s; hostname_ := hostname_ s;
     recordReader_ := recordReader_ s; cs_transport := cs_transport s; noise_ := noise_ s;
     plaintextQueue_ := plaintextQueue_ s; stableIds_ := stableIds_ s; mapFrameDecoder_ := mapFrameDecoder_ s;
     http2Decoder_ := http2Decoder_ s;
     cs_ready := cs_ready s; nodePublic_ := nodePublic_ s; discoPublic_ := discoPublic_ s;
     capabilityVersion_ := capabilityVersion_ s; nextStreamId_ := nextStreamId_ s;
     registerStreamId_ := registerStreamId_ s; mapStreamId_ := mapStreamId_ s;
     registerHttpStatus_ := registerHttpStatus_ s; mapHttpStatus_ := mapHttpStatus_ s;
     dataBytesReceived_ := dataBytesReceived_ s; windowWarned_ := windowWarned_ s;
     windowUpdatesSent_ := windowUpdatesSent_ s; connectionWindow_ := connection;
     mapStreamWindow_ := stream; initialPreferredDerp_ := initialPreferredDerp_ s;
     localEndpoints_ := localEndpoints_ s |}.
Definition setInitialPreferredDerp (region : Z) s : ControlSession W :=
  {| host_ := host_ s; port_ := port_ s; cs_controlPublic := cs_controlPublic s; hostname_ := hostname_ s;
     recordReader_ := recordReader_ s; cs_transport := cs_transport s; noise_ := noise_ s;
     plaintextQueue_ := plaintextQueue_ s; stableIds_ := stableIds_ s; mapFrameDecoder_ := mapFrameDecoder_ s;
     http2Decoder_ := http2Decoder_ s;
     cs_ready := cs_ready s; nodePublic_ := nodePublic_ s; discoPublic_ := discoPublic_ s;
     capabilityVersion_ := capabilityVersion_ s; nextStreamId_ := nextStreamId_ s;
     registerStreamId_ := registerStreamId_ s; mapStreamId_ := mapStreamId_ s;
     registerHttpStatus_ := registerHttpStatus_ s; mapHttpStatus_ := mapHttpStatus_ s;
     dataBytesReceived_ := dataBytesReceived_ s; windowWarned_ := windowWarned_ s;
     windowUpdatesSent_ := windowUpdatesSent_ s; connectionWindow_ := connectionWindow_ s;
     mapStreamWindow_ := mapStreamWindow_ s; initialPreferredDerp_ := if 0 <? region then region else 0;
     localEndpoints_ := localEndpoints_ s |}.
Definition setLocalEndpoints (endpoints : list bytes) s : ControlSession W :=
  {| host_ := host_ s; port_ := port_ s; cs_controlPublic := cs_controlPublic s; hostname_ := hostname_ s;
     recordReader_ := recordReader_ s; cs_transport := cs_transport s; noise_ := noise_ s;
     plaintextQueue_ := plaintextQueue_ s; stableIds_ := stableIds_ s; mapFrameDecoder_ := mapFrameDecoder_ s;
     http2Decoder_ := http2Decoder_ s;
     cs_ready := cs_ready s; nodePublic_ := nodePublic_ s; discoPublic_ := discoPublic_ s;
     capabilityVersion_ := capabilityVersion_ s; nextStreamId_ := nextStreamId_ s;
     registerStreamId_ := registerStreamId_ s; mapStreamId_ := mapStreamId_ s;
     registerHttpStatus_ := registerHttpStatus_ s; mapHttpStatus_ := mapHttpStatus_ s;
     dataBytesReceived_ := dataBytesReceived_ s; windowWarned_ := windowWarned_ s;
     windowUpdatesSent_ := windowUpdatesSent_ s; connectionWindow_ := connectionWindow_ s;
     mapStreamWindow_ := mapStreamWindow_ s; initialPreferredDerp_ := initialPreferredDerp_ s;
     localEndpoints_ := endpoints |}.

Definition resetTransport s : ControlSession W := with_io None (noise_ s) s.

(** [close]: the transport, the record layer and what they had buffered go;
    the decoders are reset by the next [connect]. *)
Definition close s : ControlSession W :=
  with_status false false (registerStreamId_ s) (mapStreamId_ s) (nextStreamId_ s)
    (with_buffers [] (http2Decoder_ s) (mapFrameDecoder_ s) (with_io None None s)).

(** ** Log state, and flow control *)

Definition traceFrame (frame : Http2Frame) s : ControlSession W :=
  let t := ub (type frame) in
  if t =? 0x00 then
    let received := u64 (dataBytesReceived_ s + zlen (payload frame)) in
    with_trace (registerHttpStatus_ s) (mapHttpStatus_ s) received
      (windowWarned_ s || (kHttp2DefaultWindow <? received)) (windowUpdatesSent_ s) s
  else if t =? 0x01 then
    let status := default 0 (http2ResponseStatus frame) in
    let onRegister := (streamId frame =? registerStreamId_ s) && negb (registerStreamId_ s =? 0) in
    with_trace (if onRegister then status else registerHttpStatus_ s)
      (if negb onRegister && (streamId frame =? mapStreamId_ s) then status else mapHttpStatus_ s)
      (dataBytesReceived_ s) (windowWarned_ s) (windowUpdatesSent_ s) s
  else s.
End fields.

Section session.
Context {W : Type} `{ITransport W} `{NoiseCrypto} {J : Type} `{Json J}.
Implicit Types s : ControlSession W.

(** The parameters of a build and of the platform: the signedness of [char],
    [json::dump] and [compat::kCandidateCapabilityVersion] (a generated header). *)
Variables (signed : bool) (dump : doc -> bytes) (kCandidateCapabilityVersion : Z).

Abbreviation step_result := (bool * ControlSession W * string)%type.

(** [noise_->frame] and [transport_->write], which the code always uses in that
    order, with [noise_] and [transport_] set. *)
Definition send (data : bytes) s (error : string) : step_result :=
  match noise_ s, cs_transport s with
  | Some n, Some w =>
      match frame data n with
      | (Err e, n') => (false, with_io (Some w) (Some n') s, e)
      | (Ok framed, n') =>
          match tr_write framed w with
          | (WriteFailed msg, w') => (false, with_io (Some w') (Some n') s, default error msg)
          | (Written, w') => (true, with_io (Some w') (Some n') s, error)
          end
      end
  | _, _ => (false, s, error)
  end.

Fixpoint send_all (updates : list bytes) s (error : string) : step_result :=
  match updates with
  | [] => (true, s, error)
  | update :: rest =>
      match send update s error with
      | (true, s, error) => send_all rest s error
      | failed => failed
      end
  end.

Definition creditData (frame : Http2Frame) s (error : string) : step_result :=
  if negb (ub (type frame) =? 0x00) || (length_ frame =? 0) || negb (bool_decide (is_Some (noise_ s)))
     || negb (bool_decide (is_Some (cs_transport s)))
  then (true, s, error)
  else
    let '(connection, cw) := Http2.consume (length_ frame) (connectionWindow_ s) in
    let streamEnded := negb (Z.land (ub (flags frame)) 0x01 =? 0) in
    let '(stream, sw) :=
      if (streamId frame =? mapStreamId_ s) && negb (mapStreamId_ s =? 0) && negb streamEnded
      then Http2.consume (length_ frame) (mapStreamWindow_ s) else (None, mapStreamWindow_ s) in
    let s := with_windows cw sw s in
    let updates :=
      match connection with Some increment => [buildHttp2WindowUpdate 0 increment] | None => [] end ++
      match stream with Some increment => [buildHttp2WindowUpdate (mapStreamId_ s) increment] | None => [] end in
    if bool_decide (updates = []) then (true, s, error)
    else
      match send_all updates s error with
      | (true, s, error) =>
          (true, with_trace (registerHttpStatus_ s) (mapHttpStatus_ s) (dataBytesReceived_ s) (windowWarned_ s)
                   (u64 (windowUpdatesSent_ s + 1)) s, error)
      | failed => failed
      end.

(** ** Reading *)

(** The loop of [readHttpHeader]; [room] is what is left of the cap. *)
Fixpoint readHttpHeader (room : nat) (w : W) (header : bytes) (error : string) : option bytes * W * string :=
  match room with
  | O => (None, w, "oversized HTTP upgrade response"%string)
  | S k =>
      match tr_read 1 w with
      | (ReadError msg, w') => (None, w', default error msg)
      | (Closed, w') => (None, w', "control connection closed during HTTP upgrade"%string)
      | (Received data, w') =>
          let header := header ++ firstn 1 data in
          if ends_with (crlf ++ crlf) header then (Some header, w', error) else readHttpHeader k w' header error
      end
  end.

(** [output]: the bytes read so far; every read is at least one byte. *)
Fixpoint readExact (fuel size : nat) (w : W) (output : bytes) (error : string) : option bytes * W * string :=
  match fuel with
  | O => (Some output, w, error)
  | S k =>
      if (length output <? size)%nat then
        match tr_read (Z.of_nat (size - length output)) w with
        | (ReadError msg, w') => (None, w', default error msg)
        | (Closed, w') => (None, w', "control connection closed mid-handshake"%string)
        | (Received data, w') => readExact k size w' (output ++ data) error
        end
      else (Some output, w, error)
  end.

(** The loop while [plaintextQueue_] is empty; [None] when the fuel ends. *)
Fixpoint fill_queue (fuel : nat) s (error : string) : option step_result :=
  match plaintextQueue_ s with
  | _ :: _ => Some (true, s, error)
  | [] =>
      match fuel, cs_transport s with
      | S k, Some w =>
          match tr_read kReadChunk w with
          | (ReadError msg, w') => Some (false, with_io (Some w') (noise_ s) s, default error msg)
          | (Closed, w') => Some (false, with_io (Some w') (noise_ s) s, "control connection closed"%string)
          | (Received data, w') =>
              match noise_ s with
              | None => Some (false, with_io (Some w') None s, error)
              | Some n =>
                  '(r, records, n') ← Noise.consume data n;
                  let s := with_buffers records (http2Decoder_ s) (mapFrameDecoder_ s) (with_io (Some w') (Some n') s) in
                  match r with
                  | Err e => Some (false, s, e)
                  | Ok _ => fill_queue k s error
                  end
              end
          end
      | _, _ => None
      end
  end.

Definition readNextNoiseRecord (fuel : nat) s (error : string) : option (option bytes * ControlSession W * string) :=
  '(ok, s, error) ← fill_queue fuel s error;
  match ok, plaintextQueue_ s with
  | true, first :: rest => Some (Some first, with_buffers rest (http2Decoder_ s) (mapFrameDecoder_ s) s, error)
  | _, _ => Some (None, s, error)
  end.

(** One record is read and given to the HTTP/2 decoder, whose verdict the code
    ignores. *)
Definition read_frames (fuel : nat) s (error : string) : option step_result :=
  '(chunk, s, error) ← readNextNoiseRecord fuel s error;
  match chunk with
  | None => Some (false, s, error)
  | Some chunk =>
      Some (true, with_buffers (plaintextQueue_ s) (snd (Http2FrameDecoder.append (http2Decoder_ s) chunk))
                    (mapFrameDecoder_ s) s, error)
  end.

Definition take_frame s : option Http2Frame * ControlSession W :=
  let '(frame, buffer) := Http2FrameDecoder.take (http2Decoder_ s) in
  (frame, with_buffers (plaintextQueue_ s) buffer (mapFrameDecoder_ s) s).

(** Is it a frame of this type without the ACK flag? *)
Definition not_ack (t : Z) (frame : Http2Frame) : bool :=
  (ub (type frame) =? t) && (Z.land (ub (flags frame)) 0x01 =? 0).

(** ** [connect] *)

(** The wait for the registration response on stream [stream]. *)
Fixpoint register_loop (fuel : nat) (stream : Z) s (error : string) : option step_result :=
  match fuel with
  | O => None
  | S k =>
      match take_frame s with
      | (Some frame, s) =>
          match creditData frame (traceFrame frame s) error with
          | (false, s, error) => Some (false, s, error)
          | (true, s, error) =>
              if ub (type frame) =? 0x04 then
                let '(_, s, error) := if not_ack 0x04 frame then send buildHttp2SettingsAck s error else (true, s, error) in
                register_loop k stream s error
              else if (ub (type frame) =? 0x00) && (streamId frame =? stream) then Some (true, s, error)
              else register_loop k stream s error
          end
      | (None, s) =>
          '(ok, s, error) ← read_frames k s error;
          if ok : bool then register_loop k stream s error else Some (false, s, error)
      end
  end.

(** A step of [connect] that failed after the transport was opened. *)
Definition abandon (r : step_result) : step_result :=
  let '(_, s, error) := r in (false, resetTransport s, error).

Definition hostname_or_default s : bytes :=
  if bool_decide (hostname_ s = []) then bs "artemis-switch" else hostname_ s.

(** HEADERS and DATA of a request on [stream]. *)
Definition send_request (stream : Z) (path json : bytes) s (error : string) : step_result :=
  match send (buildHttp2PostHeaders stream (host_ s) path) s error with
  | (true, s, error) => send (buildHttp2DataFrame stream json true) s error
  | failed => failed
  end.

Definition session_register (fuel : nat) (authKey : bytes) s (error : string) : option (bool * Z * ControlSession W * string) :=
  if bool_decide (authKey = []) then Some (true, 1, s, error)
  else
    let json := encodeRegisterRequest dump
      {| rr_nodePublic := nodePublic_ s; rr_authKey := authKey; rr_hostname := hostname_or_default s;
         rr_capabilityVersion := capabilityVersion_ s |} in
    if bool_decide (json = []) then Some (true, 1, s, error)
    else
      let s := with_status (cs_ready s) (recordReader_ s) 1 (mapStreamId_ s) (nextStreamId_ s) s in
      match send_request 1 (bs "/machine/register") json s error with
      | (false, s, error) => Some (false, 1, s, error)
      | (true, s, error) =>
          '(ok, s, error) ← register_loop fuel 1 s error;
          Some (ok, 3, s, error)
      end.

Definition session_map (stream : Z) s (error : string) : step_result :=
  let json := encodeMapRequest dump
    {| mr_nodePublic := nodePublic_ s; mr_discoPublic := discoPublic_ s; mr_endpoints := localEndpoints_ s;
       mr_stream := true; mr_omitPeers := false; mr_hostname := hostname_or_default s;
       mr_preferredDerp := initialPreferredDerp_ s; mr_capabilityVersion := capabilityVersion_ s |} in
  let '(ok, s, error) :=
    if bool_decide (json = []) then (true, s, error)
    else send_request stream (bs "/machine/map") json
           (with_status (cs_ready s) (recordReader_ s) (registerStreamId_ s) stream (nextStreamId_ s) s) error in
  if ok : bool
  then (true, with_status true (recordReader_ s) (registerStreamId_ s) (mapStreamId_ s) (stream + 2) s, error)
  else (false, s, error).

(** After the upgrade response: the Noise response and the rest. *)
Definition session_open (fuel : nat) (identity : Identity) (authKey : bytes) s (error : string) : option step_result :=
  let s := with_keys (x25519_public (nodePrivate identity)) (x25519_public (discoPrivate identity))
             (if 0 <? kCandidateCapabilityVersion then kCandidateCapabilityVersion else 68) s in
  match send buildHttp2ClientPreface s error with
  | (false, s, error) => Some (abandon (false, s, error))
  | (true, s, error) =>
      '(ok, stream, s, error) ← session_register fuel authKey s error;
      if ok : bool then
        match session_map stream s error with
        | (true, s, error) => Some (true, s, error)
        | failed => Some (abandon failed)
        end
      else Some (abandon (false, s, error))
  end.

Definition session_handshake (fuel : nat) (identity : Identity) (authKey ephemeral : bytes) (w : W) s (error : string)
  : option step_result :=
  let noise := noise_client (machinePrivate identity) (cs_controlPublic s) ephemeral kProtocolVersion in
  match begin_ noise with
  | (Err e, n) => Some (abandon (false, with_io (Some w) (Some n) s, e))
  | (Ok initiation, n) =>
      let s := with_io (Some w) (Some n) s in
      let request := buildTs2021UpgradeRequest (host_ s) initiation in
      if bool_decide (request = []) then Some (abandon (false, s, "cannot build TS2021 upgrade request"%string))
      else
        match tr_write request w with
        | (WriteFailed msg, w) => Some (abandon (false, with_io (Some w) (Some n) s, default error msg))
        | (Written, w) =>
            match readHttpHeader kMaxResponseHeader w [] error with
            | (None, w, error) => Some (abandon (false, with_io (Some w) (Some n) s, error))
            | (Some header, w, error) =>
                verdict ← validateTs2021UpgradeResponse header;
                match verdict with
                | Err e => Some (abandon (false, with_io (Some w) (Some n) s, e))
                | Ok _ =>
                    match readExact kResponseSize kResponseSize w [] error with
                    | (None, w, error) =>
                        Some (abandon (false, with_io (Some w) (Some n) s,
                          if String.eqb error "" then "incomplete TS2021 handshake"%string else error))
                    | (Some response, w, error) =>
                        match complete response n with
                        | (Err e, n) => Some (abandon (false, with_io (Some w) (Some n) s, e))
                        | (Ok _, n) => session_open fuel identity authKey (with_io (Some w) (Some n) s) error
                        end
                    end
                end
            end
        end
  end.

(** What [connect] clears before it does anything. *)
Definition session_reset s : ControlSession W :=
  with_windows (reset_window (connectionWindow_ s)) (reset_window (mapStreamWindow_ s))
    (with_trace 0 0 0 false 0 (with_status false (recordReader_ s) 0 0 1
      (with_codec ∅ (with_buffers [] [] [] (with_io None None s))))).

(** [opened]: what the transport the factory made says to [connect]; [None]
    when it made none. *)
Definition connect (fuel : nat) (identity : Identity) (authKey ephemeral : bytes) (opened : option (result unit * W))
    s (error : string) : option step_result :=
  let s := session_reset s in
  if recordReader_ s
  then Some (true, with_status true true 0 0 1 s, error)
  else if bool_decide (host_ s = []) || (port_ s =? 0) || all_zero (cs_controlPublic s)
  then Some (false, s, "Tailscale control endpoint is not configured"%string)
  else
    match opened with
    | None => Some (false, s, if String.eqb error "" then "cannot reach Tailscale control"%string else error)
    | Some (Err e, _) => Some (false, s, if String.eqb e "" then "cannot reach Tailscale control"%string else e)
    | Some (Ok _, w) => session_handshake fuel identity authKey ephemeral w s error
    end.

(** ** [sendHostinfoUpdate] *)

Definition sendHostinfoUpdate (preferredDerp : Z) s (error : string) : step_result :=
  if recordReader_ s then (true, s, error)
  else if negb (cs_ready s) || negb (bool_decide (is_Some (cs_transport s))) || negb (bool_decide (is_Some (noise_ s)))
  then (false, s, "control session is not connected"%string)
  else
    let json := encodeMapRequest dump
      {| mr_nodePublic := nodePublic_ s; mr_discoPublic := discoPublic_ s; mr_endpoints := localEndpoints_ s;
         mr_stream := false; mr_omitPeers := true; mr_hostname := hostname_or_default s;
         mr_preferredDerp := preferredDerp; mr_capabilityVersion := capabilityVersion_ s |} in
    if bool_decide (json = []) then (false, s, "cannot encode Hostinfo update"%string)
    else
      let stream := nextStreamId_ s in
      send_request stream (bs "/machine/map") json
        (with_status (cs_ready s) (recordReader_ s) (registerStreamId_ s) (mapStreamId_ s) (u32 (stream + 2)) s) error.

(** ** [poll] *)

(** A frame the loop of [poll] does not take a netmap from, and [DATA] that it
    gives to the netmap decoder. *)
Definition on_map_stream (mapStreamId : Z) (frame : Http2Frame) : bool :=
  (ub (type frame) =? 0x00) && ((mapStreamId =? 0) || (streamId frame =? mapStreamId)).

Definition answer_frame (frame : Http2Frame) s (error : string) : ControlSession W * string :=
  let '(_, s, error) :=
    if not_ack 0x04 frame then send buildHttp2SettingsAck s error
    else if not_ack 0x06 frame then send (buildHttp2PingAck (payload frame)) s error
    else (true, s, error) in
  (s, error).

Fixpoint poll_loop (fuel : nat) s (error : string) : option (option bytes * ControlSession W * string) :=
  match fuel with
  | O => None
  | S k =>
      match take_frame s with
      | (Some frame, s) =>
          match creditData frame (traceFrame frame s) error with
          | (false, s, error) => Some (None, s, error)
          | (true, s, error) =>
              if on_map_stream (mapStreamId_ s) frame then
                match MapFrameDecoder.append (mapFrameDecoder_ s) (payload frame) with
                | (Err e, b) => Some (None, with_buffers (plaintextQueue_ s) (http2Decoder_ s) b s, e)
                | (Ok _, b) =>
                    match MapFrameDecoder.take b with
                    | (Got record, b) => Some (Some record, with_buffers (plaintextQueue_ s) (http2Decoder_ s) b s, error)
                    | (Wait, b) => poll_loop k (with_buffers (plaintextQueue_ s) (http2Decoder_ s) b s) error
                    | (Fail e, b) => poll_loop k (with_buffers (plaintextQueue_ s) (http2Decoder_ s) b s) e
                    end
                end
              else
                let '(s, error) := answer_frame frame s error in
                poll_loop k s error
          end
      | (None, s) =>
          '(ok, s, error) ← read_frames k s error;
          if ok : bool then poll_loop k s error else Some (None, s, error)
      end
  end.

(** What [poll] hands out of a decoded update. *)
Definition update_of (u : MapUpdate) : PollUpdate :=
  if keepAlive u
  then {| p_delta := no_delta; p_fullPeers := None; p_localAddress := []; p_derpMap := None |}
  else {| p_delta := delta u; p_fullPeers := fullPeers u; p_localAddress := localAddress u; p_derpMap := derpMap u |}.

(** [Reports e] is [return false] with [*error] set to [e] when it is given. *)
Definition decode_record (record : bytes) s (error : string) : Json.attempt PollUpdate * ControlSession W * string :=
  match decode signed (stableIds_ s) record with
  | (Returns u, ids) => (Returns (update_of u), with_codec ids s, error)
  | (Reports e, ids) => (Reports e, with_codec ids s, default error e)
  | (Throws, ids) => (Throws, with_codec ids s, error)
  end.

(** [read_record]: the answer of the reader injected by tests, if there is one. *)
Definition poll (fuel : nat) (read_record : result bytes) s (error : string) : option (Json.attempt PollUpdate * ControlSession W * string) :=
  if negb (cs_ready s) || (negb (recordReader_ s) && negb (bool_decide (is_Some (cs_transport s))))
  then Some (Reports None, s, "Tailscale control session is not connected"%string)
  else if recordReader_ s then
    match read_record with
    | Ok record => Some (decode_record record s error)
    | Err e => Some (Reports None, s, e)
    end
  else
    '(record, s, error) ← poll_loop fuel s error;
    match record with
    | None => Some (Reports None, s, error)
    | Some record => Some (decode_record record s error)
    end.
End session.

(** ** A stream of netmap messages *)

(** The largest frame a server sends a client that does not raise
    SETTINGS_MAX_FRAME_SIZE. *)
Definition kServerFrame : Z := 16384.

Definition server_frame (f : Http2Frame) : Prop := http2_wf f /\ zlen (payload f) <= kServerFrame.

(** [delivers stream buffered frames json]: with [buffered] in the netmap
    decoder, these frames complete the netmap record of [json] with the last
    one, and nothing more: frames of other kinds and streams may come between
    the pieces. *)
Inductive delivers (stream : Z) : bytes -> list Http2Frame -> bytes -> Prop :=
| delivers_other b f fs json : on_map_stream stream f = false -> delivers stream b fs json ->
    delivers stream b (f :: fs) json
| delivers_piece b f fs json q : on_map_stream stream f = true -> q <> [] -> b ++ payload f ++ q = map_bytes json ->
    delivers stream (b ++ payload f) fs json -> delivers stream b (f :: fs) json
| delivers_last b f json : on_map_stream stream f = true -> b ++ payload f = map_bytes json ->
    delivers stream b [f] json.

Section delivery.
Context {W : Type} `{StreamTransport W} `{NoiseLaws} {J : Type} `{Json J}.
Implicit Types s : ControlSession W.

(** What is still to be read - in the HTTP/2 decoder, the queue, the record
    layer's buffer and the transport - is exactly these frames. [size] bounds
    the rounds it takes to read them. *)
Record pending s (frames : list Http2Frame) (size : nat) (w : W) (n : NoiseClient) (records : list bytes) : Prop := {
  pe_transport : cs_transport s = Some w;
  pe_noise : noise_ s = Some n;
  pe_open : Noise.ready_ n = true;
  pe_nonce : 0 <= rxNonce_ n /\ rxNonce_ n + zlen records < 2 ^ 64;
  pe_partial : partial (rxKey_ n) (rxNonce_ n) (receiveBuffer_ n);
  pe_records : Forall fits records;
  pe_queue : Forall fits (plaintextQueue_ s);
  pe_wire : receiveBuffer_ n ++ concat (incoming w) = wire (rxKey_ n) (rxNonce_ n) records;
  pe_chunks : Forall (fun c => 0 < zlen c <= kReadChunk) (incoming w);
  pe_frames : Forall server_frame frames;
  pe_stream : http2Decoder_ s ++ concat (plaintextQueue_ s) ++ concat records = stream frames;
  pe_size : (length frames + length (plaintextQueue_ s) + length records + length (incoming w) <= size)%nat;
}.
Definition to_read s (frames : list Http2Frame) (size : nat) : Prop := exists w n records, pending s frames size w n records.

(** The parts of a session reading does not touch. *)
Definition same_session s s' : Prop :=
  mapStreamId_ s' = mapStreamId_ s /\ stableIds_ s' = stableIds_ s /\ cs_ready s' = cs_ready s /\
  recordReader_ s' = recordReader_ s.

Lemma same_session_trans s s' s'' : same_session s s' -> same_session s' s'' -> same_session s s''.
Proof. unfold same_session. intuition congruence. Qed.

(** Sending works on a live session and leaves what is to be read as it was. *)
Definition sent s s' : Prop :=
  same_session s s' /\ mapFrameDecoder_ s' = mapFrameDecoder_ s /\ http2Decoder_ s' = http2Decoder_ s /\
  forall frames size, to_read s frames size -> to_read s' frames size.

Lemma sent_refl s : sent s s.
Proof. by split_and!. Qed.

Lemma sent_trans s s' s'' : sent s s' -> sent s' s'' -> sent s s''.
Proof.
  intros (Ha&E1&E2&Hr) (Hb&E3&E4&Hr'). split; [by eapply same_session_trans|]. split_and!; [congruence..|eauto].
Qed.

Lemma send_sent data s frames size error : to_read s frames size ->
  exists s', send data s error = (true, s', error) /\ sent s s'.
Proof.
  intros (w&n&ps&[]). unfold send. rewrite pe_transport0, pe_noise0. unfold frame. rewrite pe_open0. cbn [negb].
  destruct (frame_loop _ _ _ _ _) as [framed nonce].
  destruct (write_outgoing w framed) as (w'&->&Hin&_).
  eexists. split; [done|]. split_and!; [done..|].
  intros fs sz (w0&n0&ps0&[Ew En]). rewrite pe_transport0 in Ew. injection Ew as <-.
  rewrite pe_noise0 in En. injection En as <-. exists w', (set_records n nonce (rxNonce_ n) (receiveBuffer_ n)), ps0.
  constructor; cbn; rewrite ?Hin; done.
Qed.

Lemma send_all_sent updates : forall s frames size error, to_read s frames size ->
  exists s', send_all updates s error = (true, s', error) /\ sent s s'.
Proof.
  induction updates as [|u us IH]; intros s frames size error Hr; cbn [send_all]; [eauto using sent_refl|].
  destruct (send_sent u s frames size error Hr) as (s1&->&Hs1). pose proof Hs1 as (_&_&_&Hr1).
  destruct (IH s1 frames size error (Hr1 _ _ Hr)) as (s2&->&Hs2). eauto using sent_trans.
Qed.

(** Fields outside what is to be read. *)
Lemma sent_fields s s' : cs_transport s' = cs_transport s -> noise_ s' = noise_ s ->
  plaintextQueue_ s' = plaintextQueue_ s -> http2Decoder_ s' = http2Decoder_ s ->
  mapFrameDecoder_ s' = mapFrameDecoder_ s -> same_session s s' -> sent s s'.
Proof.
  intros Ew En Eq Eh Em Hs. split_and!; [apply Hs..|done|done|].
  intros frames size (w&n&ps&[]). exists w, n, ps. constructor; rewrite ?Ew, ?En, ?Eq, ?Eh; done.
Qed.

Lemma traceFrame_sent f s : sent s (traceFrame f s).
Proof. unfold traceFrame. destruct (_ =? 0); [|destruct (_ =? 1)]; by apply sent_fields. Qed.

Lemma creditData_sent f s frames size error : to_read s frames size ->
  exists s', creditData f s error = (true, s', error) /\ sent s s'.
Proof.
  intros Hr. unfold creditData. destruct (_ || _); [eauto using sent_refl|].
  destruct (Http2.consume _ _) as [connection cw].
  cbv zeta. match goal with |- context [let '(_, _) := ?x in _] => destruct x as [strm sw] end.
  assert (sent s (with_windows cw sw s)) as Hw by by apply sent_fields. pose proof Hw as (_&_&_&Hr1).
  destruct (bool_decide _); [eauto|].
  match goal with |- context [send_all ?u ?x error] =>
    destruct (send_all_sent u x frames size error (Hr1 _ _ Hr)) as (s2&->&Hs2) end.
  eexists. split; [done|]. eapply sent_trans; [exact Hw|]. eapply sent_trans; [exact Hs2|]. by apply sent_fields.
Qed.

Lemma answer_frame_sent f s frames size error : to_read s frames size ->
  exists s', answer_frame f s error = (s', error) /\ sent s s'.
Proof.
  intros Hr. unfold answer_frame.
  destruct (not_ack 4 f); [|destruct (not_ack 6 f)]; [..|eauto using sent_refl];
    edestruct send_sent as (s1&->&Hs1); eauto.
Qed.

Lemma to_read_le s frames m m' : to_read s frames m -> (m <= m')%nat -> to_read s frames m'.
Proof. intros (w&n&ps&[]) Hle. exists w, n, ps. by constructor; [..|lia]. Qed.

Lemma fill_queue_spec chunks : forall fuel s frames size w n records error,
  pending s frames size w n records -> incoming w = chunks -> plaintextQueue_ s <> [] \/ records <> [] ->
  (length chunks <= fuel)%nat ->
  exists s', fill_queue fuel s error = Some (true, s', error) /\ plaintextQueue_ s' <> [] /\ same_session s s' /\
    mapFrameDecoder_ s' = mapFrameDecoder_ s /\ http2Decoder_ s' = http2Decoder_ s /\ to_read s' frames size.
Proof.
  induction chunks as [|c cs IH]; intros fuel s frames size w n records error Hp Hin Hne Hf.
  - destruct (plaintextQueue_ s) as [|q qs] eqn:Eq.
    + exfalso. destruct Hp. rewrite Hin, app_nil_r in pe_wire0.
      pose proof (wire_partial_nil _ _ _ _ pe_partial0 pe_records0 pe_wire0). by destruct Hne.
    + exists s. destruct fuel; cbn [fill_queue]; rewrite Eq; split_and!; try done; by exists w, n, records.
  - destruct (plaintextQueue_ s) as [|q qs] eqn:Eq.
    2: { exists s. destruct fuel; cbn [fill_queue]; rewrite Eq; split_and!; try done; by exists w, n, records. }
    destruct fuel as [|k]; [simpl in Hf; lia|]. destruct Hp. cbn [fill_queue]. rewrite Eq, pe_transport0.
    rewrite Hin in pe_chunks0, pe_wire0, pe_size0. apply list.Forall_cons in pe_chunks0 as [Hc Hcs].
    destruct (read_incoming w c cs kReadChunk Hin Hc) as (w'&->&Hin'&_). rewrite pe_noise0.
    destruct pe_nonce0 as [Hn0 Hn1].
    destruct (consume_stream c n records (concat cs) (rxNonce_ n)) as (ps1&ps2&t&->&->&Ht&Ew);
      [done|done|done|done|done|done| |done|].
    { destruct Hc as [_ Hc]. unfold zlen, kReadChunk in Hc. unfold kMaxBufferedCiphertext, kMaxRecordSize. lia. }
    cbn [mbind option_bind]. apply list.Forall_app in pe_records0 as [Hf1 Hf2].
    rewrite zlen_app in Hn1. pose proof (zlen_nonneg ps1). rewrite concat_app in pe_stream0.
    set (s1 := with_buffers ps1 (http2Decoder_ s) (mapFrameDecoder_ s)
      (with_io (Some w') (Some (set_records n (txNonce_ n) (rxNonce_ n + zlen ps1) t)) s)).
    rewrite Eq in pe_stream0, pe_size0. rewrite length_app in pe_size0.
    destruct (IH k s1 frames size w' (set_records n (txNonce_ n) (rxNonce_ n + zlen ps1) t) ps2 error)
      as (s'&E&Hq&Hs&Hm&Hh&Hr); [..|exists s'; split; [exact E|]; by split_and!].
    + constructor; cbn; rewrite ?Hin'; try done; [lia|]. simpl in *. lia.
    + done.
    + cbn. destruct ps1; [right|by left]. intros ->. by destruct Hne.
    + simpl in Hf. lia.
Qed.

Lemma read_frames_spec fuel s f frames size error :
  to_read s (f :: frames) size -> zlen (http2Decoder_ s) < zlen (http2_bytes f) -> (size <= fuel)%nat ->
  exists s', read_frames fuel s error = Some (true, s', error) /\ same_session s s' /\
    mapFrameDecoder_ s' = mapFrameDecoder_ s /\ to_read s' (f :: frames) (pred size).
Proof.
  intros (w&n&ps&Hp) Hlt Hf. pose proof Hp as [].
  assert (plaintextQueue_ s <> [] \/ ps <> []) as Hne.
  { destruct (plaintextQueue_ s) eqn:Eq; [|by left]. destruct ps; [|by right]. exfalso.
    rewrite !app_nil_r in pe_stream0. rewrite pe_stream0 in Hlt. unfold stream in Hlt. cbn [fmap list_fmap concat] in Hlt.
    rewrite zlen_app in Hlt. pose proof (zlen_nonneg (concat (fd_bytes <$> frames))).
    change (fd_bytes f) with (http2_bytes f) in Hlt. lia. }
  destruct (fill_queue_spec (incoming w) fuel s _ size w n ps error Hp eq_refl Hne ltac:(lia))
    as (s1&E&Hq&Hs&Hm&Hh&Hr).
  unfold read_frames, readNextNoiseRecord. rewrite E. cbn [mbind option_bind].
  destruct (plaintextQueue_ s1) as [|r rest] eqn:Eq; [done|]. cbn [mbind option_bind].
  eexists. split; [done|]. split; [exact Hs|]. split; [exact Hm|].
  destruct Hr as (w1&n1&ps1&Hp1). destruct Hp1. rewrite Eq in *. cbn [concat] in *.
  apply list.Forall_cons in pe_queue1 as [Hfit Hrest]. simpl length in pe_size1.
  apply list.Forall_cons in pe_frames0 as [[_ Hfr] _].
  assert (Http2FrameDecoder.append (http2Decoder_ s1) r = (true, http2Decoder_ s1 ++ r)) as Ea.
  { unfold Http2FrameDecoder.append. rewrite Hh. rewrite zlen_http2_bytes in Hlt.
    unfold fits, kMaxPlaintextSize in Hfit. unfold Http2.kMaxFrameSize, kServerFrame, zlen in *.
    rewrite (proj2 (Z.ltb_ge _ _)); [done|]. unfold kHttp2HeaderLen. lia. }
  exists w1, n1, ps1. constructor; cbn [cs_transport noise_ plaintextQueue_ http2Decoder_ with_buffers]; try done; [|simpl length; lia].
  rewrite Ea. cbn [snd]. by rewrite <- pe_stream1, <- !app_assoc.
Qed.

Lemma take_frame_spec s f frames size : to_read s (f :: frames) size ->
  exists s', same_session s s' /\ mapFrameDecoder_ s' = mapFrameDecoder_ s /\
  ((take_frame s = (Some f, s') /\ to_read s' frames (pred size)) \/
   (take_frame s = (None, s') /\ to_read s' (f :: frames) size /\ zlen (http2Decoder_ s') < zlen (http2_bytes f))).
Proof.
  intros (w&n&ps&[]). pose proof pe_frames0 as [[Hf _] Hfs]%list.Forall_cons. simpl length in pe_size0.
  unfold take_frame.
  destruct (fd_take_stream (H := http2_decoder) f frames (http2Decoder_ s) _ Hf pe_stream0) as [(b&Et&Hb)|(Et&Hlt&_)];
    cbn [fd_take http2_decoder] in Et; destruct (Http2FrameDecoder.take (http2Decoder_ s)) as [[g|] b'];
    try done; [injection Et as -> ->|injection Et as ->].
  - exists (with_buffers (plaintextQueue_ s) b (mapFrameDecoder_ s) s). split; [done|]. split; [done|].
    left. split; [done|]. exists w, n, ps.
    constructor; cbn [cs_transport noise_ plaintextQueue_ http2Decoder_ with_buffers]; try done. simpl. lia.
  - exists (with_buffers (plaintextQueue_ s) (http2Decoder_ s) (mapFrameDecoder_ s) s). split; [done|]. split; [done|].
    right. split; [done|]. split; [|done]. exists w, n, ps.
    constructor; cbn [cs_transport noise_ plaintextQueue_ http2Decoder_ with_buffers]; done.
Qed.

Lemma map_append_part b p q json : map_wf json -> b ++ p ++ q = map_bytes json ->
  MapFrameDecoder.append b p = (Ok tt, b ++ p).
Proof.
  intros Hw E. apply (f_equal zlen) in E. rewrite !zlen_app in E. unfold map_bytes in E. rewrite zlen_app in E.
  unfold map_wf in Hw. unfold zlen at 4 in E. rewrite length_le_bytes in E.
  pose proof (zlen_nonneg b). pose proof (zlen_nonneg p). pose proof (zlen_nonneg q).
  unfold MapFrameDecoder.append. by rewrite (proj2 (Z.ltb_ge _ _)), (proj2 (Z.ltb_ge _ _)) by lia.
Qed.

Lemma poll_loop_spec size : forall s fs rest json fuel error,
  to_read s (fs ++ rest) size -> delivers (mapStreamId_ s) (mapFrameDecoder_ s) fs json -> map_wf json ->
  (size < fuel)%nat ->
  exists s', poll_loop fuel s error = Some (Some json, s', error) /\ same_session s s' /\
    mapFrameDecoder_ s' = [] /\ to_read s' rest size.
Proof.
  induction size as [size IH] using lt_wf_ind; intros s fs rest json fuel error Hr Hd Hw Hf.
  destruct fuel as [|k]; [lia|]. cbn [poll_loop].
  assert (exists f fs', fs = f :: fs') as (f&fs'&->) by (destruct Hd; eauto).
  assert (0 < size)%nat as Hpos by (destruct Hr as (?&?&?&[]); simpl in *; lia).
  destruct (take_frame_spec s f (fs' ++ rest) size Hr) as (s1&Hs1&Hm1&[[-> Hr1]|(->&Hr1&Hlt)]).
  - pose proof (traceFrame_sent f s1) as (Hs2&Hm2&_&Hr2).
    destruct (creditData_sent f (traceFrame f s1) _ _ error (Hr2 _ _ Hr1)) as (s3&->&Hs3&Hm3&_&Hr3).
    specialize (Hr3 _ _ (Hr2 _ _ Hr1)).
    assert (same_session s s3) as Hs by eauto using same_session_trans.
    assert (mapFrameDecoder_ s3 = mapFrameDecoder_ s) as Hm by congruence.
    pose proof Hs as (Esid&_). rewrite Esid, Hm.
    assert (forall b, to_read (with_buffers (plaintextQueue_ s3) (http2Decoder_ s3) b s3) (fs' ++ rest) (pred size)) as Hb.
    { intros b. destruct Hr3 as (w&n&ps&[]). exists w, n, ps. by constructor. }
    inversion Hd as [? ? ? ? Hon Hd'|? ? ? ? q Hon Hq E Hd'|? ? ? Hon E]; subst; rewrite Hon.
    + destruct (answer_frame_sent f s3 _ _ error Hr3) as (s4&->&Hs4&Hm4&_&Hr4).
      destruct (IH (pred size) ltac:(lia) s4 fs' rest json k error) as (s'&->&Hs'&Hm'&Hr'); try done; [by apply Hr4| |lia|].
      { destruct Hs4 as (E4&_). rewrite E4, Esid. congruence. }
      exists s'. split_and!; [done|eauto using same_session_trans..]; [by apply same_session_trans with s4; eauto using same_session_trans..|].
      by eapply to_read_le; [|apply Nat.le_pred_l].
    + rewrite (map_append_part _ _ q json Hw E), map_take_prefixed.
      rewrite (prefixed_take_partial map_prefixed json _ q); [|apply map_local| |done].
      2: { rewrite <- app_assoc, E. by apply map_encodes. }
      edestruct (IH (pred size)) as (s'&->&Hs'&Hm'&Hr'); [lia|apply Hb| |done|lia|].
      { cbn. by rewrite Esid. }
      exists s'. split_and!; [done|by eapply same_session_trans; [exact Hs|]|done|].
      by eapply to_read_le; [|apply Nat.le_pred_l].
    + assert (mapFrameDecoder_ s ++ payload f ++ [] = map_bytes json) as E0 by by rewrite app_nil_r.
      rewrite (map_append_part _ _ [] json Hw E0), E.
      pose proof (prefixed_take_frame map_prefixed json (map_bytes json) [] map_local (map_encodes json Hw)) as Et.
      rewrite app_nil_r, <- map_take_prefixed in Et. rewrite Et.
      eexists. split_and!; [done|exact Hs|done|]. eapply to_read_le; [apply Hb|apply Nat.le_pred_l].
  - destruct (read_frames_spec k s1 f (fs' ++ rest) size error Hr1 Hlt ltac:(lia)) as (s2&->&Hs2&Hm2&Hr2).
    cbn [mbind option_bind].
    destruct (IH (pred size) ltac:(lia) s2 (f :: fs') rest json k error) as (s'&->&Hs'&Hm'&Hr'); try done; [|lia|].
    { rewrite Hm2, Hm1. destruct Hs2 as (->&_), Hs1 as (->&_). done. }
    exists s'. split_and!; [done|eauto using same_session_trans|done|].
    by eapply to_read_le; [|apply Nat.le_pred_l].
Qed.

(** Successive polls, and what the codec makes of successive records. *)
Fixpoint polls (signed : bool) (fuel : nat) (read_record : result bytes) (n : nat) s (error : string)
  : option (list (Json.attempt PollUpdate) * ControlSession W) :=
  match n with
  | O => Some ([], s)
  | S k =>
      '(a, s, error) ← poll signed fuel read_record s error;
      '(l, s) ← polls signed fuel read_record k s error;
      Some (a :: l, s)
  end.

Definition answer (r : Json.attempt MapUpdate) : Json.attempt PollUpdate :=
  match r with Returns u => Returns (update_of u) | Reports e => Reports e | Throws => Throws end.
Fixpoint answers (signed : bool) (ids : gmap Z bytes) (jsons : list bytes) : list (Json.attempt PollUpdate) :=
  match jsons with
  | [] => []
  | json :: rest => answer (fst (decode signed ids json)) :: answers signed (snd (decode signed ids json)) rest
  end.

(** The session is between two messages, with these frames to read. *)
Definition streaming s (frames : list Http2Frame) (size : nat) : Prop :=
  cs_ready s = true /\ recordReader_ s = false /\ mapFrameDecoder_ s = [] /\ to_read s frames size.

Lemma poll_message signed fuel read_record s fs rest json size error :
  streaming s (fs ++ rest) size -> delivers (mapStreamId_ s) [] fs json -> map_wf json -> (size < fuel)%nat ->
  exists s' error', poll signed fuel read_record s error = Some (answer (fst (decode signed (stableIds_ s) json)), s', error') /\
    streaming s' rest size /\ mapStreamId_ s' = mapStreamId_ s /\ stableIds_ s' = snd (decode signed (stableIds_ s) json).
Proof.
  intros (Hc&Hrr&Hm&Hr) Hd Hw Hf. unfold poll. rewrite Hc, Hrr. cbn [negb orb andb].
  assert (is_Some (cs_transport s)) as Ht by (destruct Hr as (w&?&?&[]); eauto).
  rewrite bool_decide_true by done. cbn [negb].
  rewrite <- Hm in Hd.
  destruct (poll_loop_spec size s fs rest json fuel error Hr Hd Hw Hf) as (s'&->&(Es&Ei&Ec&Err)&Em&Hr').
  cbn [mbind option_bind]. unfold decode_record. rewrite Ei.
  destruct (decode signed (stableIds_ s) json) as [[u|e|] ids]; cbn [fst snd answer]; eexists _, _;
    (split; [done|]); (split; [|done]); unfold streaming; cbn; (split_and!; [congruence..|]);
    destruct Hr' as (w&n&ps&[]); exists w, n, ps; by constructor.
Qed.

(** C6: what control streams is what the engine gets. Let the connection still
    hold, in any chunks of at most 2048 bytes and any division into records, the
    frames of a sequence of netmap messages - each in DATA frames of the map
    stream that end where the message ends, with settings, pings, headers and
    other streams' frames anywhere in between. Then as many polls return, in
    order, exactly what the codec makes of each message (a refused one
    included), and the session is ready for the next message. (A message that
    shares a DATA frame with the end of the one before waits for more DATA:
    [second_message_waits].) *)
Theorem poll_delivers signed fuel read_record s (messages : list (list Http2Frame * bytes)) rest size error :
  streaming s (concat (fst <$> messages) ++ rest) size ->
  Forall (fun m => delivers (mapStreamId_ s) [] m.1 m.2 /\ map_wf m.2) messages -> (size < fuel)%nat ->
  exists s', polls signed fuel read_record (length messages) s error =
      Some (answers signed (stableIds_ s) (snd <$> messages), s') /\
    streaming s' rest size /\ mapStreamId_ s' = mapStreamId_ s.
Proof.
  intros Hs Hm Hf. revert s error Hs Hm. induction messages as [|[fs json] ms IH]; intros s error Hs Hm.
  - exists s. by split_and!.
  - apply list.Forall_cons in Hm as [[Hd Hw] Hms]. cbn [fmap list_fmap concat fst snd] in *. rewrite <- app_assoc in Hs.
    destruct (poll_message signed fuel read_record s fs _ json size error Hs Hd Hw Hf) as (s1&e1&E&Hs1&Eid&Ei).
    destruct (IH s1 e1 Hs1) as (s'&E'&Hs'&Eid'); [by rewrite Eid|].
    exists s'. cbn [polls length]. rewrite E. cbn [mbind option_bind]. rewrite E'. cbn [mbind option_bind answers].
    split_and!; [by rewrite Ei|done|congruence].
Qed.
End delivery.

(** What [poll] hands out is what the engine's data invariant asks for. *)
Lemma answer_message_ok {J : Type} `{JsonLaws J} signed ids json u :
  answer (fst (decode signed ids json)) = Returns u -> message_ok signed u.
Proof.
  pose proof (decode_spec signed ids json) as Hd.
  destruct (decode signed ids json) as [[v| |] ids']; cbn [fst answer]; [|done..]. intros [= <-].
  unfold update_of. destruct (keepAlive v); [split; [by left|done]|].
  destruct Hd. split; [exact uo_local|exact uo_derp].
Qed.

(** ** [connect] fails closed *)

Section connection.
Context {W : Type} `{ITransport W} `{NoiseCrypto}.
Implicit Types s : ControlSession W.
Variables (dump : doc -> bytes) (kCandidateCapabilityVersion : Z).

(** The record layer is up: the handshake has been completed. *)
Definition established s : Prop :=
  is_Some (cs_transport s) /\ exists n, noise_ s = Some n /\ Noise.ready_ n = true.

(** What the steps of [connect] keep; [always]: also when the step fails. *)
Definition keeps (always : bool) s (r : bool * ControlSession W * string) : Prop :=
  let '(ok, s', _) := r in
  cs_ready s' = cs_ready s /\ recordReader_ s' = recordReader_ s /\
  (always || ok = true -> established s -> established s').

Lemma keeps_trans b s s1 r error : keeps true s (true, s1, error) -> keeps b s1 r -> keeps b s r.
Proof. destruct r as [[ok s'] e]. intros (?&?&Ha) (?&?&Hb). split_and!; [congruence..|auto]. Qed.

Lemma keeps_fields s s' ok error : cs_ready s' = cs_ready s -> recordReader_ s' = recordReader_ s ->
  cs_transport s' = cs_transport s -> noise_ s' = noise_ s -> keeps true s (ok, s', error).
Proof. intros ?? Ew En. split_and!; [done..|]. unfold established. by rewrite Ew, En. Qed.

Lemma keeps_weaken s r : keeps true s r -> keeps false s r.
Proof. destruct r as [[ok s'] e]. intros (?&?&He). split_and!; [done..|]. intros _. by apply He. Qed.

Lemma send_keeps data s error : keeps true s (send data s error).
Proof.
  unfold send. destruct (noise_ s) as [n|] eqn:En; [|by apply keeps_fields].
  destruct (cs_transport s) as [w|] eqn:Ew; [|by apply keeps_fields].
  unfold frame. destruct (Noise.ready_ n) eqn:Er; cbn [negb].
  - destruct (frame_loop _ _ _ _ _) as [framed nonce].
    destruct (tr_write framed w) as [[|msg] w']; (split_and!; [done..|]); intros _ _;
      (split; [by eexists|]); by eexists.
  - split_and!; [done..|]. intros _ (_&n'&En'&Er'). rewrite En in En'. injection En' as <-. congruence.
Qed.

Lemma send_all_keeps updates : forall s error, keeps true s (send_all updates s error).
Proof.
  induction updates as [|u us IH]; intros s error; cbn [send_all]; [by apply keeps_fields|].
  pose proof (send_keeps u s error) as Hs. destruct (send u s error) as [[[] s1] e1]; [|exact Hs].
  eapply keeps_trans; [exact Hs|apply IH].
Qed.

Lemma creditData_keeps f s error : keeps true s (creditData f s error).
Proof.
  unfold creditData. destruct (_ || _); [by apply keeps_fields|].
  destruct (Http2.consume _ _) as [connection cw]. cbv zeta.
  match goal with |- context [let '(_, _) := ?x in _] => destruct x as [strm sw] end.
  assert (keeps true s (true, with_windows cw sw s, error)) as Hw by by apply keeps_fields.
  destruct (bool_decide _); [exact Hw|]. eapply keeps_trans; [exact Hw|].
  match goal with |- context [send_all ?u ?x error] => pose proof (send_all_keeps u x error) as Hs;
    destruct (send_all u x error) as [[[] s1] e1] end; [|exact Hs].
  eapply keeps_trans; [exact Hs|]. by apply keeps_fields.
Qed.

Lemma traceFrame_keeps f s error : keeps true s (true, traceFrame f s, error).
Proof. unfold traceFrame. destruct (_ =? 0); [|destruct (_ =? 1)]; by apply keeps_fields. Qed.

Lemma consume_ready data n r ps n' : Noise.consume data n = Some (Ok r, ps, n') ->
  Noise.ready_ n = true -> Noise.ready_ n' = true.
Proof.
  unfold Noise.consume. intros E Hr. rewrite Hr in E. cbn [negb orb] in E.
  destruct (_ <? _)%nat; [done|]. apply bind_Some in E as ([[[[[]|e] qs] o] k]&_&E); [|done].
  injection E as _ _ <-. done.
Qed.

Lemma fill_queue_keeps fuel : forall s error r, fill_queue fuel s error = Some r -> keeps false s r.
Proof.
  induction fuel as [|k IH]; intros s error r; cbn [fill_queue]; destruct (plaintextQueue_ s) eqn:Eq; try done.
  - intros [= <-]. by apply keeps_weaken, keeps_fields.
  - destruct (cs_transport s) as [w|] eqn:Ew; [|done].
    destruct (tr_read kReadChunk w) as [[data| |msg] w']; [|by intros [= <-]; split_and!..].
    destruct (noise_ s) as [n|] eqn:En; [|by intros [= <-]; split_and!].
    intros E. apply bind_Some in E as ([[[[]|e] ps] n']&Ec&E); [|by injection E as <-; split_and!].
    eapply (keeps_trans _ _ _ _ error); [|by eapply IH]. split_and!; [done..|]. intros _ (_&n0&En0&Er0).
    rewrite En in En0. injection En0 as <-. split; [by eexists|]. exists n'. split; [done|].
    by eapply consume_ready.
  - intros [= <-]. by apply keeps_weaken, keeps_fields.
Qed.

Lemma read_frames_keeps fuel s error r : read_frames fuel s error = Some r -> keeps false s r.
Proof.
  unfold read_frames, readNextNoiseRecord. intros E.
  apply bind_Some in E as ([[chunk s2] e2]&E&E2). apply bind_Some in E as ([[ok s1] e1]&E&E1).
  apply fill_queue_keeps in E as (Hc&Hr&He).
  destruct ok, (plaintextQueue_ s1) as [|first rest] eqn:Eq; injection E1 as <- <- <-; injection E2 as <-;
    (split_and!; [done..|]); auto.
Qed.

Lemma register_loop_keeps fuel : forall stream s error r, register_loop fuel stream s error = Some r -> keeps false s r.
Proof.
  induction fuel as [|k IH]; intros strm s error r; cbn [register_loop]; [done|].
  unfold take_frame. destruct (Http2FrameDecoder.take _) as [[f|] b].
  - set (s1 := with_buffers (plaintextQueue_ s) b (mapFrameDecoder_ s) s).
    assert (keeps true s (true, traceFrame f s1, error)) as H1.
    { eapply (keeps_trans _ _ s1 _ error); [by apply keeps_fields|apply traceFrame_keeps]. }
    pose proof (creditData_keeps f (traceFrame f s1) error) as H2.
    destruct (creditData f _ error) as [[[] s3] e3]; [|intros [= <-]; eapply keeps_trans; [exact H1|by apply keeps_weaken]].
    assert (keeps true s (true, s3, e3)) as H3 by (eapply keeps_trans; [exact H1|exact H2]).
    destruct (_ =? 4).
    + assert (exists ok s4 e4, (if not_ack 4 f then send buildHttp2SettingsAck s3 e3 else (true, s3, e3)) = (ok, s4, e4)
        /\ keeps true s (true, s4, e4)) as (ok&s4&e4&->&H4).
      { destruct (not_ack 4 f); [|by eexists _, _, _].
        pose proof (send_keeps buildHttp2SettingsAck s3 e3) as Hs. destruct (send _ s3 e3) as [[ok s4] e4].
        eexists _, _, _. split; [done|]. eapply keeps_trans; [exact H3|]. exact Hs. }
      intros E. eapply keeps_trans; [exact H4|by eapply IH].
    + destruct (_ && _); [intros [= <-]; by apply keeps_weaken|].
      intros E. eapply keeps_trans; [exact H3|by eapply IH].
  - set (s1 := with_buffers (plaintextQueue_ s) b (mapFrameDecoder_ s) s).
    assert (keeps true s (true, s1, error)) as H1 by by apply keeps_fields.
    intros E. apply bind_Some in E as ([[ok s2] e2]&E&E2). apply read_frames_keeps in E as H2.
    destruct ok; [|injection E2 as <-; by eapply keeps_trans].
    eapply keeps_trans; [exact H1|]. apply IH in E2. destruct r as [[ok s'] e].
    destruct H2 as (?&?&?), E2 as (?&?&?). split_and!; [congruence..|auto].
Qed.

Lemma send_request_keeps strm path json s error : keeps true s (send_request strm path json s error).
Proof.
  unfold send_request. pose proof (send_keeps (buildHttp2PostHeaders strm (host_ s) path) s error) as Hs.
  destruct (send _ s error) as [[[] s1] e1]; [|exact Hs]. eapply keeps_trans; [exact Hs|apply send_keeps].
Qed.

Lemma session_register_keeps fuel authKey s error ok strm s' e :
  session_register dump fuel authKey s error = Some (ok, strm, s', e) -> keeps false s (ok, s', e).
Proof.
  unfold session_register. destruct (bool_decide _); [intros [= <- _ <- <-]; by apply keeps_weaken, keeps_fields|]. cbv zeta.
  destruct (bool_decide _); [intros [= <- _ <- <-]; by apply keeps_weaken, keeps_fields|].
  set (s1 := with_status _ _ _ _ _ s). assert (keeps true s (true, s1, error)) as H1 by by apply keeps_fields.
  match goal with |- context [send_request ?a ?b ?c s1 error] =>
    pose proof (send_request_keeps a b c s1 error) as H2; destruct (send_request a b c s1 error) as [[[] s2] e2] end.
  - intros E. apply bind_Some in E as ([[ok3 s3] e3]&E&E3). injection E3 as <- _ <- <-.
    apply register_loop_keeps in E. eapply keeps_trans; [|exact E]. eapply keeps_trans; [exact H1|exact H2].
  - intros [= <- _ <- <-]. eapply keeps_trans; [exact H1|]. by apply keeps_weaken.
Qed.

Lemma session_map_ready strm s error : let '(ok, s', _) := session_map dump strm s error in
  (established s -> established s') /\ if ok : bool then cs_ready s' = true else cs_ready s' = cs_ready s.
Proof.
  unfold session_map. cbv zeta. destruct (bool_decide _); [by split|].
  set (s1 := with_status _ _ _ _ _ s).
  match goal with |- context [send_request ?a ?b ?c s1 error] =>
    pose proof (send_request_keeps a b c s1 error) as H2; destruct (send_request a b c s1 error) as [[ok s2] e2] end.
  destruct H2 as (Hc&_&He). assert (established s -> established s2) as Hest by (intros Hs; by apply He).
  destruct ok; by split.
Qed.

(** The two ways a connection attempt ends. *)
Definition ended (r : bool * ControlSession W * string) : Prop :=
  let '(ok, s', _) := r in
  if ok : bool then cs_ready s' = true /\ established s' else cs_ready s' = false /\ cs_transport s' = None.

Lemma abandon_ended s error : cs_ready s = false -> ended (abandon (false, s, error)).
Proof. by intros. Qed.

Lemma session_open_ended fuel identity authKey s error r : cs_ready s = false -> established s ->
  session_open dump kCandidateCapabilityVersion fuel identity authKey s error = Some r -> ended r.
Proof.
  intros Hc He. unfold session_open.
  set (s1 := with_keys _ _ _ s). pose proof (send_keeps buildHttp2ClientPreface s1 error) as Hk.
  destruct (send buildHttp2ClientPreface s1 error) as [[[] s2] e2]; destruct Hk as (Hc2&_&He2); [|].
  - intros E. apply bind_Some in E as ([[[ok strm] s3] e3]&E&E3).
    apply session_register_keeps in E as (Hc3&_&He3).
    destruct ok; [|injection E3 as <-; apply abandon_ended; by rewrite Hc3, Hc2].
    pose proof (session_map_ready strm s3 e3) as Hm. destruct (session_map dump strm s3 e3) as [[[] s4] e4].
    + injection E3 as <-. destruct Hm as [Hm Hr]. split; [done|]. by apply Hm, He3, He2.
    + injection E3 as <-. apply abandon_ended. destruct Hm as [_ ->]. by rewrite Hc3, Hc2.
  - intros [= <-]. apply abandon_ended. by rewrite Hc2.
Qed.

Lemma complete_ready response n r n' : complete response n = (Ok r, n') -> Noise.ready_ n' = true.
Proof.
  unfold complete. repeat case_match; intros E; try discriminate E. by injection E as _ <-.
Qed.

Lemma session_handshake_ended fuel identity authKey ephemeral w s error r : cs_ready s = false ->
  session_handshake dump kCandidateCapabilityVersion fuel identity authKey ephemeral w s error = Some r -> ended r.
Proof.
  intros Hc. unfold session_handshake. cbv zeta.
  destruct (begin_ _) as [[initiation|e] n]; [|intros [= <-]; by apply abandon_ended].
  destruct (bool_decide _); [intros [= <-]; by apply abandon_ended|].
  destruct (tr_write _ w) as [[|msg] w1]; [|intros [= <-]; by apply abandon_ended].
  destruct (readHttpHeader _ w1 [] error) as [[[header|] w2] e2]; [|intros [= <-]; by apply abandon_ended].
  intros E. apply bind_Some in E as ([[]|msg]&_&E); [|injection E as <-; by apply abandon_ended].
  destruct (readExact _ _ w2 [] e2) as [[[response|] w3] e3]; [|injection E as <-; by apply abandon_ended].
  destruct (complete response n) as [[[]|msg] n1] eqn:En; [|injection E as <-; by apply abandon_ended].
  eapply session_open_ended; [..|exact E]; [done|]. split; [by eexists|]. exists n1. split; [done|].
  by eapply complete_ready.
Qed.

(** C11: a control connection is all or nothing. When [connect] succeeds the
    Noise handshake has been completed - the server proved it holds the control
    key - and the session can be polled; whenever it fails, at whatever step and
    however the transport answers, the transport is gone and the session refuses
    to poll or to send. *)
Theorem connect_fails_closed fuel identity authKey ephemeral opened s error ok s' error' :
  recordReader_ s = false ->
  connect dump kCandidateCapabilityVersion fuel identity authKey ephemeral opened s error = Some (ok, s', error') ->
  if ok : bool then cs_ready s' = true /\ established s'
  else cs_ready s' = false /\ cs_transport s' = None.
Proof.
  intros Hr. unfold connect. cbn [recordReader_ session_reset with_windows with_trace with_status with_codec
    with_buffers with_io]. rewrite Hr.
  destruct (_ || _); [by intros [= <- <- <-]|].
  destruct opened as [[[[]|e] w]|]; [|by intros [= <- <- <-]..].
  intros E. by apply session_handshake_ended in E.
Qed.
End connection.

(** ** A server, and a connection to it *)

Definition ex_identity : Identity :=
  {| machinePrivate := toy_key 1; nodePrivate := toy_key 5; discoPrivate := toy_key 6 |}.

Definition ex_control : ControlSession script :=
  {| host_ := bs "control"; port_ := 443; cs_controlPublic := pad32 (toy_key 2); hostname_ := []; recordReader_ := false;
     cs_transport := None; noise_ := None; plaintextQueue_ := []; stableIds_ := ∅; mapFrameDecoder_ := [];
     http2Decoder_ := []; cs_ready := false; nodePublic_ := []; discoPublic_ := []; capabilityVersion_ := 0;
     nextStreamId_ := 1; registerStreamId_ := 0; mapStreamId_ := 0; registerHttpStatus_ := 0; mapHttpStatus_ := 0;
     dataBytesReceived_ := 0; windowWarned_ := false; windowUpdatesSent_ := 0;
     connectionWindow_ := window kHttp2ClientConnectionWindow; mapStreamWindow_ := window kHttp2ClientStreamWindow;
     initialPreferredDerp_ := 0; localEndpoints_ := [] |}.

(** The server's upgrade response and Noise response. *)
Definition ex_answer : bytes :=
  bs "HTTP/1.1 101 Switching" ++ crlf ++ bs "Upgrade: tailscale-control-protocol" ++ crlf ++
  bs "Connection: upgrade" ++ crlf ++ crlf ++
  match @begin_ toy_noise (noise_client (toy_key 1) (pad32 (toy_key 2)) (toy_key 3) kProtocolVersion) with
  | (Ok initiation, _) =>
      match @respond toy_noise (toy_key 2) (toy_key 4) 1 initiation with Some rr => rr_response rr | None => [] end
  | _ => []
  end.

Lemma connect_fails_closed_witness :
  exists s' error', @connect script _ toy_noise (fun _ => bs "{}") 0 4 ex_identity [] (toy_key 3)
      (Some (Ok tt, {| sc_incoming := [ex_answer]; sc_outgoing := [] |})) ex_control "" = Some (true, s', error') /\
    cs_ready s' = true /\ established s'.
Proof.
  assert (exists s' error', @connect script _ toy_noise (fun _ => bs "{}") 0 4 ex_identity [] (toy_key 3)
      (Some (Ok tt, {| sc_incoming := [ex_answer]; sc_outgoing := [] |})) ex_control "" = Some (true, s', error'))
    as (s'&error'&E) by (vm_compute; eexists _, _; reflexivity).
  exists s', error'. split; [exact E|]. exact (connect_fails_closed _ _ _ _ _ _ _ ex_control _ true _ _ eq_refl E).
Defined.

(** A netmap message in two pieces, with a SETTINGS frame before it and a PING
    in the middle; and two messages in one frame. *)
Definition ex_frame (t sid : Z) (p : bytes) : Http2Frame :=
  {| length_ := zlen p; type := u8 t; flags := u8 0; streamId := sid; payload := p |}.
Definition ex_text : bytes := map_bytes (bs "text").
Definition ex_frames : list Http2Frame :=
  [ex_frame 4 0 []; ex_frame 0 1 (firstn 3 ex_text); ex_frame 6 0 (bs "12345678"); ex_frame 0 1 (skipn 3 ex_text)].

(** A session on which the server has sent [frames] in one record. *)
Definition ex_record (frames : list Http2Frame) : bytes :=
  match @frame toy_noise (stream frames) (toy_end (bs "s") (bs "c")) with (Ok b, _) => b | _ => [] end.
Definition ex_live (frames : list Http2Frame) : ControlSession script :=
  with_status true false 0 1 3
    (with_io (Some {| sc_incoming := [firstn 9 (ex_record frames); skipn 9 (ex_record frames)]; sc_outgoing := [] |})
      (Some (toy_end (bs "c") (bs "s"))) ex_control).

Lemma ex_streaming : @streaming script _ _ toy_noise (ex_live ex_frames) ex_frames 12.
Proof.
  unfold streaming. split; [reflexivity|]. split; [reflexivity|]. split; [reflexivity|].
  eexists _, _, [stream ex_frames]. constructor; cbn [cs_transport noise_ with_io with_status ex_live].
  - reflexivity.
  - reflexivity.
  - reflexivity.
  - split; [discriminate|reflexivity].
  - by left.
  - apply list.Forall_singleton. apply Nat.leb_le. vm_compute. reflexivity.
  - apply list.Forall_nil_2.
  - vm_compute. reflexivity.
  - repeat (apply list.Forall_cons; split; [split; [reflexivity|apply Z.leb_le; vm_compute; reflexivity]|]).
    apply list.Forall_nil_2.
  - unfold ex_frames.
    repeat (apply list.Forall_cons; split; [unfold server_frame, http2_wf; split_and!;
      first [reflexivity | apply Z.leb_le; vm_compute; reflexivity | apply Z.ltb_lt; vm_compute; reflexivity]|]).
    apply list.Forall_nil_2.
  - vm_compute. reflexivity.
  - apply Nat.leb_le. vm_compute. reflexivity.
Qed.

Lemma poll_delivers_witness :
  exists s', @polls script _ toy_noise doc (doc_json (ex_parse ex_root)) true 13 (Err "") 1 (ex_live ex_frames) "" =
      Some ([answer (fst (@decode doc (doc_json (ex_parse ex_root)) true ∅ (bs "text")))], s') /\
    (exists u, fst (@decode doc (doc_json (ex_parse ex_root)) true ∅ (bs "text")) = Returns u).
Proof.
  destruct (@poll_delivers script _ _ toy_noise toy_noise_laws doc (doc_json (ex_parse ex_root)) true 13 (Err "")
    (ex_live ex_frames) [(ex_frames, bs "text")] [] 12 "") as (s'&E&_&_).
  - exact ex_streaming.
  - apply list.Forall_singleton. split; [|apply Z.leb_le; vm_compute; reflexivity].
    apply delivers_other; [reflexivity|]. eapply (delivers_piece _ _ _ _ _ (skipn 3 ex_text)); [reflexivity|discriminate|reflexivity|].
    apply delivers_other; [reflexivity|]. apply delivers_last; reflexivity.
  - apply Nat.ltb_lt. reflexivity.
  - exists s'. split; [exact E|]. eexists. vm_compute. reflexivity.
Defined.

(** ** The status line *)

(** The Huffman code of a digit (RFC 7541, appendix B), and a string of them
    padded with ones to whole bytes. *)
Definition digit_code (d : Z) : list bool :=
  let '(width, code) := if d <=? 2 then (5%nat, d) else (6%nat, 0x19 + (d - 3)) in
  (fun i => Z.testbit code (Z.of_nat (width - 1 - i))) <$> seq 0 width.
Definition bits_byte (bits : list bool) : byte :=
  u8 (foldl (fun v (b : bool) => 2 * v + (if b then 1 else 0)) 0 (firstn 8 (bits ++ repeat true 8))).
Fixpoint bits_bytes (fuel : nat) (bits : list bool) : bytes :=
  match fuel, bits with
  | S k, _ :: _ => bits_byte bits :: bits_bytes k (skipn 8 bits)
  | _, _ => []
  end.
Definition huffman_digits (digits : list Z) : bytes :=
  let bits := concat (digit_code <$> digits) in bits_bytes (length bits) bits.

(** Every three-digit status is read back from its Huffman code. *)
Lemma decodeHuffmanDigits_status :
  Forall (fun n => decodeHuffmanDigits (huffman_digits [n / 100; n / 10 mod 10; n mod 10]) =
                   (fun d => u8 (48 + d)) <$> [n / 100; n / 10 mod 10; n mod 10]) (Z.of_nat <$> seq 0 1000).
Proof. apply (bool_decide_unpack _). vm_compute. exact I. Qed.

(** ** What the runs also show *)

(** Two complete netmap messages in one DATA frame: the first poll returns the
    first; the second message stays in the buffer until another DATA frame
    arrives, and here the next poll reports the connection's end instead. *)
Example second_message_waits :
  let s := ex_live [ex_frame 0 1 (ex_text ++ ex_text)] in
  match @poll script _ toy_noise doc (doc_json (ex_parse ex_root)) true 20 (Err "") s "" with
  | Some (Returns _, s1, _) =>
      mapFrameDecoder_ s1 = ex_text /\
      match @poll script _ toy_noise doc (doc_json (ex_parse ex_root)) true 20 (Err "") s1 "" with
      | Some (Reports None, _, e) => e = "control connection closed"%string
      | _ => False
      end
  | _ => False
  end.
Proof. vm_compute. done. Qed.

(** A netmap length over the cap is reported by the decoder and ignored by
    [poll], which goes on with the bytes that follow as if they began a new
    message. *)
Example oversized_message_skipped :
  let s := ex_live [ex_frame 0 1 (u8 <$> [255; 255; 255; 127]); ex_frame 0 1 ex_text] in
  match @poll script _ toy_noise doc (doc_json (ex_parse ex_root)) true 20 (Err "") s "" with
  | Some (Returns _, _, e) => e = "netmap frame is oversized"%string
  | _ => False
  end.
Proof. vm_compute. done. Qed.

(** An HTTP/2 frame over the cap is dropped in silence: its payload is read as
    frames, and a netmap inside it is accepted. *)
Example oversized_frame_skipped :
  let record b := match @frame toy_noise b (toy_end (bs "s") (bs "c")) with (Ok r, _) => r | _ => [] end in
  let second b := match @frame toy_noise b (set_records (toy_end (bs "s") (bs "c")) 1 0 []) with (Ok r, _) => r | _ => [] end in
  let header := u8 <$> [255; 255; 255; 0; 0; 0; 0; 0; 1] in
  let s := with_io (Some {| sc_incoming := [record header; second (http2_bytes (ex_frame 0 1 ex_text))]; sc_outgoing := [] |})
             (Some (toy_end (bs "c") (bs "s"))) (ex_live []) in
  match @poll script _ toy_noise doc (doc_json (ex_parse ex_root)) true 20 (Err "") s "" with
  | Some (Returns _, _, e) => e = ""%string
  | _ => False
  end.
Proof. vm_compute. done. Qed.

(** The registration response is only waited for: with HTTP status 401 and an
    error in the body, [connect] succeeds. *)
Definition ex_refusal : bytes :=
  match @begin_ toy_noise (noise_client (toy_key 1) (pad32 (toy_key 2)) (toy_key 3) kProtocolVersion) with
  | (Ok initiation, _) =>
      match @respond toy_noise (toy_key 2) (toy_key 4) 1 initiation with
      | Some rr =>
          match @frame toy_noise
            (http2_bytes (ex_frame 1 1 (u8 <$> [8; 3; 52; 48; 49])) ++ http2_bytes (ex_frame 0 1 (bs "invalid key")))
            (toy_end (rr_tx rr) (rr_rx rr)) with (Ok b, _) => b | _ => [] end
      | None => []
      end
  | _ => []
  end.
Example refused_registration_connects :
  match @connect script _ toy_noise (fun _ => bs "{}") 0 10 ex_identity (bs "key") (toy_key 3)
      (Some (Ok tt, {| sc_incoming := [ex_answer; ex_refusal]; sc_outgoing := [] |})) ex_control "" with
  | Some (true, s, _) => registerHttpStatus_ s = 401 /\ cs_ready s = true
  | _ => False
  end.
Proof. vm_compute. done. Qed.

(** A status sent as a literal of ten digits overflows the [int]. *)
Example status_overflow :
  http2ResponseStatus (ex_frame 1 1 (u8 <$> ([8; 10] ++ repeat 57 10))) = None.
Proof. reflexivity. Qed.
