(* ===== verification/RouteManager.v ===== *)
(** Route activation ([RemoteAccessManager.hpp], [RemoteAccessManager.cpp]): the
    reference-counted routes the game stream leases from a tunnel provider, and
    the provider selection that invalidates them. Threads run concurrently; what
    one does under [mutex_] is a function on the state that mutex protects, and
    [step] interleaves those sections with the provider calls, which run under
    the provider's own [operations] mutex. [activeRoutes_] is a hash map: a
    section that walks it takes the order of the walk, any permutation of its
    entries. *)

From S2P Require Import Prelude Types.

Record RouteKey := { rk_provider : bytes; rk_peer : bytes; rk_target : bytes }.
#[export] Instance RouteKey_eq_dec : EqDecision RouteKey.
Proof. solve_decision. Defined.
#[export] Program Instance RouteKey_countable : Countable RouteKey :=
  inj_countable' (fun k => (rk_provider k, rk_peer k, rk_target k))
    (fun '(p, q, t) => {| rk_provider := p; rk_peer := q; rk_target := t |}) _.
Next Obligation. by intros []. Qed.

#[export] Instance mode_eq_dec : EqDecision RemoteRouteMode.
Proof. solve_decision. Defined.
#[export] Instance target_eq_dec : EqDecision RemoteRouteTarget.
Proof. solve_decision. Defined.
#[export] Program Instance target_countable : Countable RemoteRouteTarget :=
  inj_countable' (fun t => (rt_peerId t, rt_peerAddress t, rt_targetAddress t, rt_connectAddress t,
      match rt_mode t with Native => true | Proxy => false end))
    (fun '(a, b, c, d, m) => {| rt_peerId := a; rt_peerAddress := b; rt_targetAddress := c;
      rt_connectAddress := d; rt_mode := if m : bool then Native else Proxy |}) _.
Next Obligation. by intros [???? []]. Qed.

Inductive RouteState := Activating | Active | Failed.
#[export] Instance RouteState_eq_dec : EqDecision RouteState.
Proof. solve_decision. Defined.

Record RouteEntry := {
  re_target : RemoteRouteTarget;
  re_generation : Z;
  re_references : Z;
  re_state : RouteState;
}.

(** What [mutex_] protects. [activeRoutes_] maps a key to the [shared_ptr] of its
    entry, a reference into [entries]; an entry outlives its place in the map. *)
Record manager := {
  activeProviderId_ : bytes;
  providerGeneration_ : Z;
  activeRoutes_ : gmap RouteKey nat;
  entries : gmap nat RouteEntry;
}.

Definition key_of (p : bytes) (t : RemoteRouteTarget) : RouteKey :=
  {| rk_provider := p; rk_peer := rt_peerId t; rk_target := rt_targetAddress t |}.

Definition with_state (st : RouteState) (r : RouteEntry) : RouteEntry :=
  {| re_target := re_target r; re_generation := re_generation r; re_references := re_references r;
     re_state := st |}.
Definition with_references (n : Z) (r : RouteEntry) : RouteEntry :=
  {| re_target := re_target r; re_generation := re_generation r; re_references := n;
     re_state := re_state r |}.

Definition update_entry (f : RouteEntry -> RouteEntry) (e : nat) (m : manager) : manager :=
  {| activeProviderId_ := activeProviderId_ m; providerGeneration_ := providerGeneration_ m;
     activeRoutes_ := activeRoutes_ m; entries := alter f e (entries m) |}.
Definition erase_route (k : RouteKey) (m : manager) : manager :=
  {| activeProviderId_ := activeProviderId_ m; providerGeneration_ := providerGeneration_ m;
     activeRoutes_ := delete k (activeRoutes_ m); entries := entries m |}.
Definition emplace_route (k : RouteKey) (e : nat) (r : RouteEntry) (m : manager) : manager :=
  {| activeProviderId_ := activeProviderId_ m; providerGeneration_ := providerGeneration_ m;
     activeRoutes_ := <[k := e]> (activeRoutes_ m); entries := <[e := r]> (entries m) |}.
Definition set_active (p : bytes) (m : manager) : manager :=
  {| activeProviderId_ := p; providerGeneration_ := u64 (providerGeneration_ m + 1);
     activeRoutes_ := activeRoutes_ m; entries := entries m |}.

Definition entry_state (m : manager) (e : nat) : option RouteState := re_state <$> entries m !! e.

(** A walk over [activeRoutes_]. *)
Abbreviation walk := (list (RouteKey * nat)).

(** ** The sections under [mutex_] *)

(** [activateRoute], a route that is already there and no longer activating:
    its reference count goes up if it is active in this generation. *)
Definition join_route (e : nat) (m : manager) : bool * manager :=
  match entries m !! e with
  | Some r =>
      if negb (bool_decide (re_state r = Active)) || negb (re_generation r =? providerGeneration_ m)
      then (false, m)
      else (true, update_entry (with_references (re_references r + 1)) e m)
  | None => (false, m)
  end.

(** The exclusive provider's walk: every other route of the provider leaves the
    map as failed, the active ones are to be retired. *)
Fixpoint retire_loop (p : bytes) (key : RouteKey) (order : walk) (m : manager)
    (retired : list RemoteRouteTarget) : manager * list RemoteRouteTarget :=
  match order with
  | [] => (m, retired)
  | (k, e) :: rest =>
      if bool_decide (rk_provider k = p) && negb (bool_decide (k = key)) then
        let retired := match entries m !! e with
                       | Some r => if bool_decide (re_state r = Active) then retired ++ [re_target r] else retired
                       | None => retired
                       end in
        retire_loop p key rest (erase_route k (update_entry (with_state Failed) e m)) retired
      else retire_loop p key rest m retired
  end.

Inductive entered :=
| Refused
| Waiting (e : nat)
| Joined (b : bool)
| Entered (e : nat) (retired : list RemoteRouteTarget).

(** [activateRoute], first section; [e] is the new entry. The walk starts after
    the new entry is in the map and skips it: [order] lists the others. *)
Definition activate_enter (exclusive : bool) (p : bytes) (t : RemoteRouteTarget) (e : nat) (order : walk)
    (m : manager) : entered * manager :=
  if negb (bool_decide (activeProviderId_ m = p)) then (Refused, m)
  else
    match activeRoutes_ m !! key_of p t with
    | Some existing =>
        if bool_decide (entry_state m existing = Some Activating) then (Waiting existing, m)
        else let '(b, m) := join_route existing m in (Joined b, m)
    | None =>
        let entry := {| re_target := t; re_generation := providerGeneration_ m; re_references := 1;
                        re_state := Activating |} in
        let m := emplace_route (key_of p t) e entry m in
        if exclusive then
          let '(m, retired) := retire_loop p (key_of p t) order m [] in (Entered e retired, m)
        else (Entered e [], m)
    end.

(** [activateRoute], second section: whether the provider's activation has to be
    undone, and what the call returns if it has not. *)
Definition activate_commit (p : bytes) (t : RemoteRouteTarget) (e : nat) (activated : bool) (m : manager)
  : bool * manager :=
  let key := key_of p t in
  let current := bool_decide (activeRoutes_ m !! key = Some e) in
  let generationMatches :=
    bool_decide (activeProviderId_ m = p) &&
    bool_decide (re_generation <$> entries m !! e = Some (providerGeneration_ m)) && current in
  if negb activated || negb generationMatches then
    let m := update_entry (with_state Failed) e m in
    (activated, if current then erase_route key m else m)
  else (false, update_entry (with_state Active) e m).

Definition findRouteLocked (p peer target : bytes) (order : walk) (m : manager) : option (RouteKey * nat) :=
  let exact := {| rk_provider := p; rk_peer := peer; rk_target := target |} in
  match activeRoutes_ m !! exact with
  | Some e => Some (exact, e)
  | None =>
      if negb (bool_decide (target = [])) then None
      else List.find (fun '(k, _) => bool_decide (rk_provider k = p) && bool_decide (rk_peer k = peer)) order
  end.

(** [deactivateRoute]: the target to hand to the provider, if any. [registered]
    is whether the provider has a slot. *)
Definition deactivate_enter (registered : bool) (p peer target : bytes) (order : walk) (m : manager)
  : option RemoteRouteTarget * manager :=
  match findRouteLocked p peer target order m with
  | None => (None, m)
  | Some (k, e) =>
      match entries m !! e with
      | Some r =>
          if negb (bool_decide (re_state r = Active)) then (None, m)
          else if 1 <? re_references r
          then (None, update_entry (with_references (re_references r - 1)) e m)
          else
            (if bool_decide (activeProviderId_ m = p) && registered then Some (re_target r) else None,
             erase_route k m)
      | None => (None, m)
      end
  end.

(** [prepareRouteForStreaming], first and last section. *)
Definition prepare_enter (registered : bool) (p peer target : bytes) (order : walk) (m : manager)
  : option (RemoteRouteTarget * Z) :=
  match findRouteLocked p peer target order m with
  | None => None
  | Some (_, e) =>
      match entries m !! e with
      | Some r => if negb (bool_decide (re_state r = Active)) || negb registered then None
                  else Some (re_target r, re_generation r)
      | None => None
      end
  end.
Definition prepare_exit (p : bytes) (generation : Z) (prepared : bool) (m : manager) : bool :=
  prepared && bool_decide (activeProviderId_ m = p) && (generation =? providerGeneration_ m).

(** [stopActiveProviderLocked]: the provider that was active, and the state
    after its routes have been dropped. *)
Fixpoint stop_loop (active : bytes) (order : walk) (m : manager) : manager :=
  match order with
  | [] => m
  | (k, e) :: rest =>
      if bool_decide (rk_provider k = active)
      then stop_loop active rest (erase_route k (update_entry (with_state Failed) e m))
      else stop_loop active rest m
  end.
Definition stop_enter (order : walk) (m : manager) : bytes * manager :=
  let active := activeProviderId_ m in
  (active, stop_loop active order (set_active [] m)).

Definition hasActiveRoute (m : manager) : bool :=
  existsb (fun '(_, e) => match entry_state m e with Some Active | Some Activating => true | _ => false end)
    (map_to_list (activeRoutes_ m)).

(** ** Threads *)

(** Where a call is. A thread in one of the states that name a provider call
    holds that provider's [operations] mutex. *)
Inductive pc :=
| ActWait (p : bytes) (t : RemoteRouteTarget) (e : nat)
| ActOps (p : bytes) (t : RemoteRouteTarget) (e : nat) (retired : list RemoteRouteTarget)
| ActRetire (p : bytes) (t : RemoteRouteTarget) (e : nat) (retired : list RemoteRouteTarget)
| ActCommit (p : bytes) (t : RemoteRouteTarget) (e : nat) (activated : bool)
| ActUndo (p : bytes) (t : RemoteRouteTarget)
| DeactOps (p : bytes) (t : RemoteRouteTarget)
| DeactCall (p : bytes) (t : RemoteRouteTarget)
| PrepOps (p : bytes) (t : RemoteRouteTarget) (generation : Z)
| PrepCall (p : bytes) (t : RemoteRouteTarget) (generation : Z)
| PrepExit (p : bytes) (generation : Z) (prepared : bool)
| StopOps (p : bytes) (next : option bytes)
| StopCall (p : bytes) (next : option bytes)
| SelOps (id : bytes)
| SelCall (id : bytes)
| SelSet (id : bytes)
| Done (returned : bool).

(** The mutexes a thread holds. *)
Definition holds_ops (c : pc) : option bytes :=
  match c with
  | ActRetire p _ _ _ | ActCommit p _ _ _ | ActUndo p _ | DeactCall p _ | PrepCall p _ _
  | PrepExit p _ _ | StopCall p _ | SelCall p => Some p
  | _ => None
  end.
Definition holds_lifecycle (c : pc) : bool :=
  match c with StopOps _ _ | StopCall _ _ | SelOps _ | SelCall _ | SelSet _ => true | _ => false end.

(** [live]: the routes each provider has up, by the contract of the provider
    interface - a successful [activateRoute] brings a route up (in place of the
    others when routes are exclusive), [deactivateRoute] takes it down and [stop]
    takes all of them down. *)
Record config := {
  shared : manager;
  threads : gmap nat pc;
  live : gmap bytes (gset RemoteRouteTarget);
}.

Definition set_thread (i : nat) (c : pc) (s : config) : config :=
  {| shared := shared s; threads := <[i := c]> (threads s); live := live s |}.
Definition set_shared (m : manager) (s : config) : config :=
  {| shared := m; threads := threads s; live := live s |}.
Definition live_of (s : config) (p : bytes) : gset RemoteRouteTarget := default ∅ (live s !! p).
Definition set_live (p : bytes) (l : gset RemoteRouteTarget) (s : config) : config :=
  {| shared := shared s; threads := threads s; live := <[p := l]> (live s) |}.

Definition ops_free (s : config) (p : bytes) : Prop :=
  forall i c, threads s !! i = Some c -> holds_ops c <> Some p.
Definition lifecycle_free (s : config) : Prop :=
  forall i c, threads s !! i = Some c -> holds_lifecycle c = false.

(** After [stopActiveProviderLocked] has looked up the slot: stop it, or go on. *)
Definition after_stop (next : option bytes) : pc :=
  match next with
  | None => Done true
  | Some id => if bool_decide (id = []) then Done true else SelOps id
  end.

Section steps.
(** The registered providers, and which of them have exclusive routes. *)
Context (registered exclusive : bytes -> bool).

Inductive step : config -> config -> Prop :=
(** [activateRoute] *)
| S_activate s i p t e order r m :
    threads s !! i = None -> registered p = true -> rt_peerId t <> [] ->
    entries (shared s) !! e = None -> order ≡ₚ map_to_list (activeRoutes_ (shared s)) ->
    activate_enter (exclusive p) p t e order (shared s) = (r, m) ->
    step s (set_thread i (match r with
                          | Refused => Done false
                          | Waiting e => ActWait p t e
                          | Joined b => Done b
                          | Entered e retired => ActOps p t e retired
                          end) (set_shared m s))
| S_activate_refused s i p t :
    threads s !! i = None -> registered p = false \/ rt_peerId t = [] ->
    step s (set_thread i (Done false) s)
| S_joined s i p t e b m :
    threads s !! i = Some (ActWait p t e) -> entry_state (shared s) e <> Some Activating ->
    join_route e (shared s) = (b, m) ->
    step s (set_thread i (Done b) (set_shared m s))
| S_ops s i p t e retired :
    threads s !! i = Some (ActOps p t e retired) -> ops_free s p ->
    step s (set_thread i (ActRetire p t e retired) s)
| S_retire s i p t e old retired :
    threads s !! i = Some (ActRetire p t e (old :: retired)) ->
    step s (set_thread i (ActRetire p t e retired) (set_live p (live_of s p ∖ {[old]}) s))
| S_call_ok s i p t e :
    threads s !! i = Some (ActRetire p t e []) ->
    step s (set_thread i (ActCommit p t e true)
      (set_live p ({[t]} ∪ (if exclusive p then ∅ else live_of s p)) s))
| S_call_failed s i p t e :
    threads s !! i = Some (ActRetire p t e []) ->
    step s (set_thread i (ActCommit p t e false) s)
| S_commit s i p t e activated stale m :
    threads s !! i = Some (ActCommit p t e activated) ->
    activate_commit p t e activated (shared s) = (stale, m) ->
    step s (set_thread i (if stale then ActUndo p t else Done activated) (set_shared m s))
| S_undo s i p t :
    threads s !! i = Some (ActUndo p t) ->
    step s (set_thread i (Done false) (set_live p (live_of s p ∖ {[t]}) s))
(** [deactivateRoute] *)
| S_deactivate s i p peer target order r m :
    threads s !! i = None -> order ≡ₚ map_to_list (activeRoutes_ (shared s)) ->
    deactivate_enter (registered p) p peer target order (shared s) = (r, m) ->
    step s (set_thread i (match r with Some t => DeactOps p t | None => Done true end) (set_shared m s))
| S_deact_ops s i p t :
    threads s !! i = Some (DeactOps p t) -> ops_free s p ->
    step s (set_thread i (DeactCall p t) s)
| S_deact_call s i p t :
    threads s !! i = Some (DeactCall p t) ->
    step s (set_thread i (Done true) (set_live p (live_of s p ∖ {[t]}) s))
(** [prepareRouteForStreaming] *)
| S_prepare s i p peer target order r :
    threads s !! i = None -> order ≡ₚ map_to_list (activeRoutes_ (shared s)) ->
    prepare_enter (registered p) p peer target order (shared s) = r ->
    step s (set_thread i (match r with Some (t, g) => PrepOps p t g | None => Done false end) s)
| S_prep_ops s i p t g :
    threads s !! i = Some (PrepOps p t g) -> ops_free s p -> step s (set_thread i (PrepCall p t g) s)
| S_prep_call s i p t g prepared :
    threads s !! i = Some (PrepCall p t g) -> step s (set_thread i (PrepExit p g prepared) s)
| S_prep_exit s i p g prepared :
    threads s !! i = Some (PrepExit p g prepared) ->
    step s (set_thread i (Done (prepare_exit p g prepared (shared s))) s)
(** [stopActiveProvider] and [selectAndStartProvider] *)
| S_stop s i next order p m :
    threads s !! i = None -> lifecycle_free s -> order ≡ₚ map_to_list (activeRoutes_ (shared s)) ->
    stop_enter order (shared s) = (p, m) ->
    step s (set_thread i (if registered p then StopOps p next else after_stop next) (set_shared m s))
| S_stop_ops s i p next :
    threads s !! i = Some (StopOps p next) -> ops_free s p -> step s (set_thread i (StopCall p next) s)
| S_stop_call s i p next :
    threads s !! i = Some (StopCall p next) ->
    step s (set_thread i (after_stop next) (set_live p ∅ s))
| S_sel_missing s i id :
    threads s !! i = Some (SelOps id) -> registered id = false -> step s (set_thread i (Done false) s)
| S_sel_ops s i id :
    threads s !! i = Some (SelOps id) -> registered id = true -> ops_free s id ->
    step s (set_thread i (SelCall id) s)
| S_sel_call s i id (started : bool) :
    threads s !! i = Some (SelCall id) ->
    step s (set_thread i (if started then SelSet id else Done false) s)
| S_sel_set s i id :
    threads s !! i = Some (SelSet id) ->
    step s (set_thread i (Done true) (set_shared (set_active id (shared s)) s)).

Definition initial : config :=
  {| shared := {| activeProviderId_ := []; providerGeneration_ := 0; activeRoutes_ := ∅; entries := ∅ |};
     threads := ∅; live := ∅ |}.

Definition reachable (s : config) : Prop := rtc step initial s.
End steps.

(** ** Invariants *)

(** A route of the map: its entry is alive, is for the key it is filed under,
    and belongs to the provider [a]. *)
Definition table_ok (registered : bytes -> bool) (a : bytes) (m : manager) : Prop :=
  forall k e, activeRoutes_ m !! k = Some e -> rk_provider k = a /\ registered a = true /\
    exists r, entries m !! e = Some r /\ k = key_of a (re_target r) /\ re_state r <> Failed /\
      1 <= re_references r.

Definition table_active (m : manager) (p : bytes) (t : RemoteRouteTarget) : Prop :=
  exists e r, activeRoutes_ m !! key_of p t = Some e /\ entries m !! e = Some r /\
    re_target r = t /\ re_state r = Active.

(** The calls that will still take [t] down, or file it. *)
Definition will_settle (c : pc) (p : bytes) (t : RemoteRouteTarget) : Prop :=
  match c with
  | ActOps p' _ _ retired | ActRetire p' _ _ retired => p' = p /\ t ∈ retired
  | ActCommit p' t' _ true | ActUndo p' t' | DeactOps p' t' | DeactCall p' t' => p' = p /\ t' = t
  | StopOps p' _ | StopCall p' _ => p' = p
  | _ => False
  end.

Definition covers (s : config) (p : bytes) (t : RemoteRouteTarget) : Prop :=
  table_active (shared s) p t \/ exists i c, threads s !! i = Some c /\ will_settle c p t.

(** The entry a call is activating, with its provider and target. *)
Definition owns (c : pc) : option (bytes * RemoteRouteTarget * nat) :=
  match c with
  | ActOps p t e _ | ActRetire p t e _ | ActCommit p t e _ => Some (p, t, e)
  | _ => None
  end.

(** Entries keep their target and generation; a state changes to failed only. *)
Definition aged (m m' : manager) : Prop := forall e,
  match entries m' !! e with
  | Some r' => exists r, entries m !! e = Some r /\ re_target r' = re_target r /\
      re_generation r' = re_generation r /\ (re_state r' = re_state r \/ re_state r' = Failed)
  | None => entries m !! e = None
  end.

Lemma aged_refl m : aged m m.
Proof. intros e. destruct (entries m !! e); eauto 10. Qed.

Lemma aged_trans m1 m2 m3 : aged m1 m2 -> aged m2 m3 -> aged m1 m3.
Proof.
  intros H1 H2 e. specialize (H1 e). specialize (H2 e). destruct (entries m3 !! e) as [r3|].
  - destruct H2 as (r2&E2&T2&G2&S2). rewrite E2 in H1. destruct H1 as (r1&E1&T1&G1&S1).
    exists r1. split_and!; [done|congruence..|]. destruct S2 as [S2|S2]; [|by right].
    destruct S1 as [S1|S1]; [left|right]; congruence.
  - by rewrite H2 in H1.
Qed.

Lemma aged_update f e m :
  (forall r, re_target (f r) = re_target r /\ re_generation (f r) = re_generation r /\
     (re_state (f r) = re_state r \/ re_state (f r) = Failed)) ->
  aged m (update_entry f e m).
Proof.
  intros Hf e'. cbn [entries update_entry]. destruct (decide (e = e')) as [->|].
  - rewrite lookup_alter_eq. destruct (entries m !! e') as [r|]; [|done]. cbn [fmap option_fmap option_map].
    exists r. split; [done|apply Hf].
  - rewrite lookup_alter_ne by done. apply aged_refl.
Qed.

Lemma aged_erase k m : aged m (erase_route k m).
Proof. exact (aged_refl m). Qed.

Lemma aged_fail e m : aged m (update_entry (with_state Failed) e m).
Proof. apply aged_update. intros r. cbn. auto. Qed.

Section table.
Context (registered : bytes -> bool).

(** An entry of the map is filed once. *)
Lemma table_inj a m k k' e : table_ok registered a m ->
  activeRoutes_ m !! k = Some e -> activeRoutes_ m !! k' = Some e -> k = k'.
Proof.
  intros Ht H1 H2. apply Ht in H1 as (_&_&r1&E1&->&_), H2 as (_&_&r2&E2&->&_). congruence.
Qed.

Lemma table_ok_erase a m k : table_ok registered a m -> table_ok registered a (erase_route k m).
Proof. intros Ht k' e H. cbn [activeRoutes_ erase_route] in H. apply lookup_delete_Some in H as [_ H]. by apply Ht. Qed.

(** Changing an entry that is not filed changes no route. *)
Lemma table_ok_unfiled a m f e : (forall k, activeRoutes_ m !! k <> Some e) ->
  table_ok registered a m -> table_ok registered a (update_entry f e m).
Proof.
  intros Hun Ht k e' H. cbn [activeRoutes_ update_entry] in H.
  destruct (Ht k e' H) as (?&?&r&?&?). split_and!; [done..|]. exists r.
  cbn [entries update_entry]. rewrite lookup_alter_ne; [done|]. intros ->. by apply (Hun k).
Qed.

Lemma table_ok_update a m f e :
  (forall r, entries m !! e = Some r ->
     re_target (f r) = re_target r /\ (re_state r <> Failed -> re_state (f r) <> Failed) /\
     (1 <= re_references r -> 1 <= re_references (f r))) ->
  table_ok registered a m -> table_ok registered a (update_entry f e m).
Proof.
  intros Hf Ht k e' H. destruct (Ht k e' H) as (?&?&r&Hr&->&?&?). split_and!; [done..|].
  cbn [entries update_entry]. destruct (decide (e = e')) as [->|].
  - rewrite lookup_alter_eq, Hr. exists (f r). destruct (Hf r Hr) as (->&?&?). auto.
  - rewrite lookup_alter_ne by done. by exists r.
Qed.

(** Taking a route out of the map, its entry failed. *)
Lemma drop_route a m k e : table_ok registered a m -> activeRoutes_ m !! k = Some e ->
  let m' := erase_route k (update_entry (with_state Failed) e m) in
  table_ok registered a m' /\ aged m m' /\
  forall p t, table_active m p t -> table_active m' p t \/ (key_of p t = k /\
    exists r, entries m !! e = Some r /\ re_state r = Active /\ re_target r = t).
Proof.
  intros Ht Hk m'. subst m'. split_and!.
  - intros k' e' H. cbn [activeRoutes_ erase_route update_entry] in H.
    apply lookup_delete_Some in H as [Hne H]. destruct (Ht k' e' H) as (?&?&r&?&?).
    split_and!; [done..|]. exists r. cbn [entries update_entry erase_route].
    rewrite lookup_alter_ne; [done|]. intros ->. apply Hne. by eapply table_inj.
  - exact (aged_fail e m).
  - intros p t (e'&r&Hr&He&Htgt&Hst). destruct (decide (key_of p t = k)) as [<-|Hne].
    + right. split; [done|]. exists r. replace e with e' by congruence. done.
    + left. exists e', r. cbn [entries activeRoutes_ update_entry erase_route].
      rewrite lookup_delete_ne by done. rewrite lookup_alter_ne; [done|].
      intros <-. apply Hne. by eapply table_inj.
Qed.

Lemma retire_loop_spec a p key order : forall m retired m' retired',
  table_ok registered a m -> NoDup order.*1 ->
  Forall (fun ke => activeRoutes_ m !! ke.1 = Some ke.2) order ->
  retire_loop p key order m retired = (m', retired') ->
  table_ok registered a m' /\ aged m m' /\ (forall t, t ∈ retired -> t ∈ retired') /\
  activeProviderId_ m' = activeProviderId_ m /\ providerGeneration_ m' = providerGeneration_ m /\
  (forall k e, activeRoutes_ m' !! k = Some e -> activeRoutes_ m !! k = Some e) /\
  activeRoutes_ m' !! key = activeRoutes_ m !! key /\
  forall q t, table_active m q t -> table_active m' q t \/ (q = p /\ t ∈ retired').
Proof.
  induction order as [|[k e] rest IH]; intros m retired m' retired' Ht Hnd Hin; cbn [retire_loop].
  - intros [= <- <-]. split_and!; auto using aged_refl.
  - cbn [fmap list_fmap] in Hnd. apply list.NoDup_cons in Hnd as [Hk Hnd].
    apply list.Forall_cons in Hin as [Hke Hin]. cbn [fst snd] in *.
    destruct (bool_decide (rk_provider k = p) && negb (bool_decide (k = key))) eqn:Eb.
    2: { by apply IH. }
    apply andb_true_iff in Eb as [Ep%bool_decide_eq_true Ek%negb_true_iff%bool_decide_eq_false].
    destruct (drop_route a m k e Ht Hke) as (Ht'&Hag&Hact).
    intros E. apply IH in E as (?&?&Hret&?&?&Hnone&Hkey&Hact'); [|done|done|].
    2: { apply list.Forall_forall. intros [k' e'] Hin'. rewrite list.Forall_forall in Hin.
         cbn [fst snd activeRoutes_ erase_route update_entry]. rewrite lookup_delete_ne; [by apply (Hin (k', e'))|].
         intros ->. apply Hk. by apply (list_elem_of_fmap_2 fst _ (k', e')). }
    set (m1 := erase_route k (update_entry (with_state Failed) e m)) in *.
    split_and!; [done|by eapply aged_trans| |done|done| | |].
    + intros t Hin'. apply Hret. destruct (entries m !! e) as [r|]; [|done].
      case_bool_decide; [set_solver|done].
    + intros k' e' H'. apply Hnone in H'. unfold m1 in H'. cbn [activeRoutes_ erase_route update_entry] in H'.
      by apply lookup_delete_Some in H' as [_ ?].
    + rewrite Hkey. unfold m1. cbn [activeRoutes_ erase_route update_entry]. by apply lookup_delete_ne.
    + intros q t Hq. destruct (Hact q t Hq) as [Hq'|(Hkq&r&Hr&Hst&<-)]; [by apply Hact'|].
      right. subst k. split; [done|]. apply Hret. rewrite Hr, bool_decide_true by done. set_solver.
Qed.

(** Dropping every route of a provider. *)
Lemma stop_loop_spec a p order : forall m, table_ok registered a m -> NoDup order.*1 ->
  Forall (fun ke => activeRoutes_ m !! ke.1 = Some ke.2) order ->
  let m' := stop_loop p order m in
  aged m m' /\ activeProviderId_ m' = activeProviderId_ m /\ table_ok registered a m' /\
  (forall k e, activeRoutes_ m' !! k = Some e -> activeRoutes_ m !! k = Some e /\
     (rk_provider k = p -> k ∉ order.*1)).
Proof.
  induction order as [|[k e] rest IH]; intros m Ht Hnd Hin; cbn [stop_loop fmap list_fmap].
  - split_and!; auto using aged_refl. intros k e H. split; [done|]. intros _. apply not_elem_of_nil.
  - cbn [fmap list_fmap fst] in Hnd. apply list.NoDup_cons in Hnd as [Hk Hnd].
    apply list.Forall_cons in Hin as [Hke Hin]. cbn [fst snd] in *. case_bool_decide as Ep.
    + destruct (drop_route a m k e Ht Hke) as (Ht'&Hag&_).
      destruct (IH (erase_route k (update_entry (with_state Failed) e m))) as (Hag'&?&?&Hr); [done|done| |].
      { apply list.Forall_forall. intros [k' e'] Hin'. rewrite list.Forall_forall in Hin.
        cbn [fst snd activeRoutes_ erase_route update_entry]. rewrite lookup_delete_ne; [by apply (Hin (k', e'))|].
        intros ->. apply Hk. by apply (list_elem_of_fmap_2 fst _ (k', e')). }
      split_and!; [by eapply aged_trans|done|done|].
      intros k' e' H'. apply Hr in H' as [H' Hp]. cbn [activeRoutes_ erase_route update_entry] in H'.
      apply lookup_delete_Some in H' as [Hne H']. split; [done|]. intros E.
      apply not_elem_of_cons. split; [congruence|by apply Hp].
    + destruct (IH m) as (?&?&?&Hr); [done..|]. split_and!; [done..|].
      intros k' e' H'. apply Hr in H' as [H' Hp]. split; [done|]. intros E.
      apply not_elem_of_cons. split; [congruence|by apply Hp].
Qed.

Lemma walk_order (m : manager) (order : walk) : order ≡ₚ map_to_list (activeRoutes_ m) ->
  NoDup order.*1 /\ Forall (fun ke => activeRoutes_ m !! ke.1 = Some ke.2) order /\
  forall k e, activeRoutes_ m !! k = Some e -> k ∈ order.*1.
Proof.
  intros Ho. split_and!.
  - rewrite Ho. apply NoDup_fst_map_to_list.
  - apply list.Forall_forall. intros [k e] Hin. rewrite Ho in Hin. by apply elem_of_map_to_list in Hin.
  - intros k e Hk. rewrite Ho. apply (list_elem_of_fmap_2 fst _ (k, e)). by apply elem_of_map_to_list.
Qed.

Lemma table_active_update m f e p t :
  (forall r, re_target (f r) = re_target r /\ re_state (f r) = re_state r) ->
  table_active m p t -> table_active (update_entry f e m) p t.
Proof.
  intros Hf (e'&r&Hk&He&Ht&Hs). cbn [activeRoutes_ entries update_entry].
  destruct (decide (e = e')) as [->|Hne].
  - exists e', (f r). unfold update_entry; cbn [activeRoutes_ entries]. rewrite lookup_alter_eq, He.
    destruct (Hf r) as [-> ->]. done.
  - exists e', r. unfold update_entry; cbn [activeRoutes_ entries]. by rewrite lookup_alter_ne.
Qed.

Lemma join_route_spec a e m b m' : table_ok registered a m -> join_route e m = (b, m') ->
  table_ok registered a m' /\ aged m m' /\ activeProviderId_ m' = activeProviderId_ m /\
  activeRoutes_ m' = activeRoutes_ m /\ forall p t, table_active m p t -> table_active m' p t.
Proof.
  intros Ht. unfold join_route. destruct (entries m !! e) as [r|] eqn:He; [|by intros [= <- <-]; auto using aged_refl].
  destruct (_ || _); intros [= <- <-]; [by auto using aged_refl|]. split_and!.
  - apply table_ok_update; [|done]. intros r' [= <-]%(eq_trans (eq_sym He)). cbn. split_and!; (done || lia).
  - apply aged_update. intros r'. cbn. auto.
  - done.
  - done.
  - intros p t. apply table_active_update. done.
Qed.

(** A new route is filed. *)
Lemma emplace_spec p t e m : table_ok registered p m -> registered p = true -> entries m !! e = None ->
  activeRoutes_ m !! key_of p t = None ->
  let m' := emplace_route (key_of p t) e {| re_target := t; re_generation := providerGeneration_ m;
    re_references := 1; re_state := Activating |} m in
  table_ok registered p m' /\ (forall e' r, entries m !! e' = Some r -> entries m' !! e' = Some r) /\
  (forall q u, table_active m q u -> table_active m' q u).
Proof.
  intros Ht Hp He Hk m'. subst m'.
  assert (forall e' r, entries m !! e' = Some r -> e <> e') as Hfresh by (intros e' r H ->; congruence).
  split_and!.
  - intros k e' H. cbn [activeRoutes_ entries emplace_route] in *. destruct (decide (key_of p t = k)) as [<-|Hne].
    + rewrite lookup_insert_eq in H. injection H as <-. split_and!; [done..|]. rewrite lookup_insert_eq.
      eexists. split; [done|]. cbn. split_and!; [done|done|lia].
    + rewrite lookup_insert_ne in H by done. destruct (Ht k e' H) as (?&?&r&?&?). split_and!; [done..|].
      exists r. rewrite lookup_insert_ne by (by eapply Hfresh). done.
  - intros e' r H. cbn [entries emplace_route]. rewrite lookup_insert_ne; [done|by eapply Hfresh].
  - intros q u (e'&r&Hr&He'&?). exists e', r. cbn [activeRoutes_ entries emplace_route].
    rewrite !lookup_insert_ne; [done|by eapply Hfresh|intros E; congruence].
Qed.

Definition entered_ok (p : bytes) (t : RemoteRouteTarget) (e : nat) (m m' : manager) (r : entered) : Prop :=
  match r with
  | Entered e' retired => e' = e /\
      (exists r', entries m' !! e = Some r' /\ re_target r' = t /\ re_state r' <> Active) /\
      (forall e2, e2 <> e -> match entries m' !! e2 with
         | Some r' => exists r, entries m !! e2 = Some r /\ re_target r' = re_target r /\
             (re_state r' = re_state r \/ re_state r' = Failed)
         | None => entries m !! e2 = None end) /\
      (forall q u, table_active m q u -> table_active m' q u \/ (q = p /\ u ∈ retired)) /\
      (forall k, activeRoutes_ m' !! k = Some e -> k = key_of p t) /\
      (forall k e2, e2 <> e -> activeRoutes_ m' !! k = Some e2 -> activeRoutes_ m !! k = Some e2)
  | _ => aged m m' /\ activeRoutes_ m' = activeRoutes_ m /\ forall q u, table_active m q u -> table_active m' q u
  end.

Lemma activate_enter_spec exclusive p t e order m r m' :
  table_ok registered (activeProviderId_ m) m -> registered p = true -> entries m !! e = None ->
  order ≡ₚ map_to_list (activeRoutes_ m) ->
  activate_enter exclusive p t e order m = (r, m') ->
  activeProviderId_ m' = activeProviderId_ m /\ table_ok registered (activeProviderId_ m') m' /\
  entered_ok p t e m m' r.
Proof.
  intros Ht Hp He Ho. unfold activate_enter. case_bool_decide as Ea; cbn [negb].
  2: { intros [= <- <-]. split_and!; try done. by split_and!; [apply aged_refl| |]. }
  destruct (activeRoutes_ m !! key_of p t) as [e'|] eqn:Hk.
  - case_bool_decide.
    { intros [= <- <-]. split_and!; try done. by split_and!; [apply aged_refl| |]. }
    destruct (join_route e' m) as [b m1] eqn:Ej. intros [= <- <-].
    destruct (join_route_spec _ _ _ _ _ Ht Ej) as (?&?&Hact&?&?). rewrite Hact. by split_and!.
  - set (m1 := emplace_route _ _ _ m). rewrite Ea in Ht.
    destruct (emplace_spec p t e m Ht Hp He Hk) as (Ht1&Hold&Hact). fold m1 in Ht1, Hold, Hact.
    assert (entries m1 !! e = Some {| re_target := t; re_generation := providerGeneration_ m;
      re_references := 1; re_state := Activating |}) as Hnew by apply lookup_insert_eq.
    assert (forall e2, e2 <> e -> entries m1 !! e2 = entries m !! e2) as Hne
      by (intros; by apply lookup_insert_ne).
    assert (forall k, activeRoutes_ m1 !! k = Some e -> k = key_of p t) as Hfil.
    { intros k H. unfold m1 in H. cbn [activeRoutes_ emplace_route] in H.
      apply lookup_insert_Some in H as [[<- _]|[_ H]]; [done|]. destruct (Ht k e H) as (_&_&r0&?&_). congruence. }
    assert (forall k e2, e2 <> e -> activeRoutes_ m1 !! k = Some e2 -> activeRoutes_ m !! k = Some e2) as Hsub1.
    { intros k e2 H2 H. unfold m1 in H. cbn [activeRoutes_ emplace_route] in H.
      apply lookup_insert_Some in H as [[_ ?]|[_ ?]]; [congruence|done]. }
    destruct exclusive.
    + destruct (retire_loop p (key_of p t) order m1 []) as [m2 retired] eqn:El. intros [= <- <-].
      destruct (walk_order m order Ho) as (Hnd&Hin&_).
      assert (Forall (fun ke => activeRoutes_ m1 !! ke.1 = Some ke.2) order) as Hin1.
      { eapply list.Forall_impl; [exact Hin|]. intros [k e'] H. cbn [fst snd] in *. unfold m1.
        cbn [activeRoutes_ emplace_route]. rewrite lookup_insert_ne; [done|congruence]. }
      destruct (retire_loop_spec p p _ order m1 [] m2 retired Ht1 Hnd Hin1 El)
        as (Ht2&Hag&_&Hpid&_&Hsub&_&Hact2).
      rewrite Hpid. cbn [m1 activeProviderId_ emplace_route]. rewrite Ea. split_and!; [done|done|].
      split_and!; [done| | | |intros k H; by apply Hfil, Hsub|intros k e2 H2 H; by apply Hsub1, Hsub].
      * specialize (Hag e). destruct (entries m2 !! e) as [r'|]; [|congruence].
        destruct Hag as (r0&Hr&?&_&Hst). rewrite Hnew in Hr. injection Hr as <-. exists r'.
        split_and!; [done|done|]. cbn in Hst. destruct Hst; congruence.
      * intros e2 H2. specialize (Hag e2). rewrite Hne in Hag by done.
        destruct (entries m2 !! e2); [|done]. destruct Hag as (r0&?&?&?&?). eauto.
      * intros q u H. apply Hact2. by apply Hact.
    + intros [= <- <-]. cbn [m1 activeProviderId_ emplace_route]. rewrite Ea. split_and!; [done|done|].
      split_and!; [done| | | |done|done].
      * eexists. by split_and!.
      * intros e2 H2. rewrite Hne by done. destruct (entries m !! e2) as [r0|]; [|done]. eauto.
      * intros q u H. left. by apply Hact.
Qed.

Lemma activate_commit_spec p t e activated m stale m' :
  table_ok registered (activeProviderId_ m) m ->
  (exists r, entries m !! e = Some r /\ re_target r = t /\ re_state r <> Active) ->
  (forall k, activeRoutes_ m !! k = Some e -> k = key_of p t) ->
  activate_commit p t e activated m = (stale, m') ->
  activeProviderId_ m' = activeProviderId_ m /\ table_ok registered (activeProviderId_ m') m' /\
  (forall e2, e2 <> e -> entries m' !! e2 = entries m !! e2) /\
  (exists r, entries m' !! e = Some r /\ re_state r <> Activating) /\
  (forall q u, table_active m q u -> table_active m' q u) /\
  (activated = true -> stale = false -> table_active m' p t) /\
  (forall k e', activeRoutes_ m' !! k = Some e' -> activeRoutes_ m !! k = Some e').
Proof.
  intros Ht (r&Hr&Htgt&Hst) Hfiled. unfold activate_commit. cbv zeta.
  assert (forall q u, table_active m q u -> exists e', activeRoutes_ m !! key_of q u = Some e' /\ e' <> e) as Hother.
  { intros q u (e'&r'&?&?&?&?). exists e'. split; [done|]. intros ->. congruence. }
  assert (forall f e2, e2 <> e -> entries (update_entry f e m) !! e2 = entries m !! e2) as Hne
    by (intros; by apply lookup_alter_ne).
  assert (forall f, entries (update_entry f e m) !! e = Some (f r)) as Heq
    by (intros f; cbn [entries update_entry]; by rewrite lookup_alter_eq, Hr).
  assert (forall f q u, table_active m q u -> table_active (update_entry f e m) q u) as Hact.
  { intros f q u H. destruct (Hother q u H) as (e'&Hk&He'). destruct H as (e1&r1&Hk1&?&?&?).
    exists e1, r1. rewrite Hne by congruence. done. }
  destruct (negb activated || _) eqn:Ebad.
  - intros [= <- <-]. clear Ebad. destruct (decide (activeRoutes_ m !! key_of p t = Some e)) as [Ecur|Ecur];
      [rewrite (bool_decide_eq_true_2 _ Ecur)|rewrite (bool_decide_eq_false_2 _ Ecur)].
    + destruct (drop_route _ _ _ _ Ht Ecur) as (Ht'&_&Hact').
      split_and!; [done|exact Ht'|by intros; apply Hne|eexists; split; [apply Heq|done]| | |].
      * intros q u H. destruct (Hact' q u H) as [?|(Hk&r'&?&?&?)]; [done|congruence].
      * intros -> ?. done.
      * intros k e' H. cbn [activeRoutes_ erase_route update_entry] in H. by apply lookup_delete_Some in H as [_ ?].
    + split_and!; [done| |by intros; apply Hne|eexists; split; [apply Heq|done]|by apply Hact|by intros ->|done].
      apply table_ok_unfiled; [|done]. intros k Hk. apply Ecur. by rewrite <- (Hfiled k Hk).
  - intros [= <- <-]. apply orb_false_iff in Ebad as [Ha%negb_false_iff Hm%negb_false_iff].
    apply andb_true_iff in Hm as [Hm Hcur%bool_decide_eq_true].
    split_and!; [done| |by intros; apply Hne|eexists; split; [apply Heq|done]|by apply Hact| |done].
    + apply table_ok_update; [|done]. intros r' _. cbn. split_and!; (done || auto).
    + intros _ _. exists e, (with_state Active r). split_and!; [done|by rewrite Heq|done|done].
Qed.

Lemma find_route p peer target order m k e : order ≡ₚ map_to_list (activeRoutes_ m) ->
  findRouteLocked p peer target order m = Some (k, e) ->
  activeRoutes_ m !! k = Some e /\ rk_provider k = p /\ rk_peer k = peer.
Proof.
  intros Ho. unfold findRouteLocked. cbv zeta. destruct (activeRoutes_ m !! _) as [e'|] eqn:E.
  - intros [= <- <-]. done.
  - destruct (negb _); [done|]. intros Hf. apply List.find_some in Hf as [Hin Hk].
    apply andb_true_iff in Hk as [?%bool_decide_eq_true ?%bool_decide_eq_true].
    apply list_elem_of_In in Hin. rewrite Ho in Hin. by apply elem_of_map_to_list in Hin.
Qed.

Lemma deactivate_enter_spec reg p peer target order m o m' :
  table_ok registered (activeProviderId_ m) m -> reg = registered p ->
  order ≡ₚ map_to_list (activeRoutes_ m) ->
  deactivate_enter reg p peer target order m = (o, m') ->
  activeProviderId_ m' = activeProviderId_ m /\ table_ok registered (activeProviderId_ m') m' /\
  (entries m' = entries m \/ exists e n, entries m' = alter (with_references n) e (entries m)) /\
  (forall k e, activeRoutes_ m' !! k = Some e -> activeRoutes_ m !! k = Some e) /\
  forall q u, table_active m q u -> table_active m' q u \/ (q = p /\ o = Some u).
Proof.
  intros Ht -> Ho. unfold deactivate_enter.
  destruct (findRouteLocked p peer target order m) as [[k e]|] eqn:Ef; [|intros [= <- <-]; split_and!; auto].
  destruct (find_route _ _ _ _ _ _ _ Ho Ef) as (Hk&Hp&_).
  destruct (Ht k e Hk) as (Hpa&Hreg&r&Hr&Hkey&?&?). rewrite Hr.
  case_bool_decide as Hst; cbn [negb]; [|intros [= <- <-]; split_and!; auto].
  destruct (Z.ltb_spec 1 (re_references r)); intros [= <- <-].
  - split_and!; [done| |right; by eexists _, _|done|].
    + apply table_ok_update; [|done]. intros r' Hr'. assert (r' = r) as -> by congruence.
      cbn. split_and!; (done || lia).
    + intros q u Hq. left. by apply table_active_update.
  - split_and!; [done|by apply table_ok_erase|by left| |].
    + intros k' e' H'. cbn [activeRoutes_ erase_route] in H'. by apply lookup_delete_Some in H' as [_ ?].
    + intros q u (e'&r'&Hk'&He'&?&?). destruct (decide (key_of q u = k)) as [<-|Hne].
      * right. cbn [rk_provider key_of] in Hp, Hpa. assert (registered p = true) as -> by congruence.
        rewrite bool_decide_true by congruence. cbn [andb]. split; [congruence|]. assert (r' = r) as -> by congruence. congruence.
      * left. exists e', r'. cbn [activeRoutes_ entries erase_route]. by rewrite lookup_delete_ne.
Qed.

Lemma stop_enter_spec order m p m' :
  table_ok registered (activeProviderId_ m) m -> order ≡ₚ map_to_list (activeRoutes_ m) ->
  stop_enter order m = (p, m') ->
  p = activeProviderId_ m /\ activeProviderId_ m' = [] /\ aged m m' /\ activeRoutes_ m' = ∅.
Proof.
  intros Ht Ho [= <- <-]. destruct (walk_order m order Ho) as (Hnd&Hin&Hall).
  assert (table_ok registered (activeProviderId_ m) (set_active [] m)) as Ht' by exact Ht.
  destruct (stop_loop_spec _ (activeProviderId_ m) order _ Ht' Hnd Hin) as (Hag&Hid&Ht2&Hr).
  split_and!; [done|done|exact Hag|]. apply map_empty. intros k.
  destruct (activeRoutes_ _ !! k) as [e|] eqn:E; [|done]. exfalso.
  destruct (Ht2 k e E) as [Hp _]. apply Hr in E as [E Hn]. apply (Hn Hp). by eapply Hall.
Qed.
End table.
