(* ===== verification/RouteSafety.v ===== *)
(** What every interleaving of the route manager's calls keeps: the invariant of
    [RouteManager.step], and from it that no route is left up behind the map's
    back, that every route of the map belongs to the selected provider, and that
    the calls cannot deadlock. At the end, the lease ([RemoteRouteLease.hpp]) and
    the schedules that show what is not kept. *)

From S2P Require Import Prelude Types RouteManager.

Section safety.
Context (registered exclusive : bytes -> bool) (Hempty : registered [] = false).

(** What a call that is activating an entry may rely on. *)
Definition owned (m : manager) (p : bytes) (t : RemoteRouteTarget) (e : nat) : Prop :=
  (exists r, entries m !! e = Some r /\ re_target r = t /\ re_state r <> Active) /\
  (forall k, activeRoutes_ m !! k = Some e -> k = key_of p t) /\ registered p = true.

Definition owns_entry (c : pc) (e : nat) : Prop := exists p t, owns c = Some (p, t, e).

Record inv (s : config) : Prop := {
  i_table : table_ok registered (activeProviderId_ (shared s)) (shared s);
  i_live : forall p t, t ∈ live_of s p -> registered p = true /\ covers s p t;
  i_owner : forall i c p t e, threads s !! i = Some c -> owns c = Some (p, t, e) -> owned (shared s) p t e;
  i_unique : forall i j c c' e, threads s !! i = Some c -> threads s !! j = Some c' ->
    owns_entry c e -> owns_entry c' e -> i = j;
  i_activating : forall e r, entries (shared s) !! e = Some r -> re_state r = Activating ->
    exists i c, threads s !! i = Some c /\ owns_entry c e;
  i_lifecycle : forall i c, threads s !! i = Some c -> holds_lifecycle c = true ->
    activeProviderId_ (shared s) = [];
  i_lc_unique : forall i j c c', threads s !! i = Some c -> threads s !! j = Some c' ->
    holds_lifecycle c = true -> holds_lifecycle c' = true -> i = j;
}.

Lemma owned_aged m m' p t e : aged m m' ->
  (forall k e, activeRoutes_ m' !! k = Some e -> activeRoutes_ m !! k = Some e) ->
  owned m p t e -> owned m' p t e.
Proof.
  intros Hag Hsub ((r&Hr&Ht&Hs)&Hk&Hp). split_and!; [|by intros k Hk'%Hsub; apply Hk|done].
  specialize (Hag e). destruct (entries m' !! e) as [r'|]; [|congruence].
  destruct Hag as (r0&Hr0&?&_&Hst). exists r'. assert (r0 = r) as -> by congruence.
  split_and!; [done|congruence|destruct Hst; congruence].
Qed.

(** What a step of thread [i] into [c'] has to show. *)
Record step_ok (s : config) (i : nat) (c' : pc) (m' : manager) (live' : gmap bytes (gset RemoteRouteTarget))
  : Prop := {
  so_table : table_ok registered (activeProviderId_ m') m';
  so_live : forall p t, t ∈ default ∅ (live' !! p) ->
    (registered p = true /\ (table_active m' p t \/ will_settle c' p t)) \/
    (t ∈ live_of s p /\
     (table_active (shared s) p t -> table_active m' p t \/ will_settle c' p t) /\
     (forall c, threads s !! i = Some c -> will_settle c p t -> table_active m' p t \/ will_settle c' p t));
  so_owner : forall p t e, owns c' = Some (p, t, e) -> owned m' p t e /\
    forall j c, j <> i -> threads s !! j = Some c -> ~ owns_entry c e;
  so_others : forall j c p t e, j <> i -> threads s !! j = Some c -> owns c = Some (p, t, e) ->
    owned (shared s) p t e -> owned m' p t e;
  so_activating : forall e r', entries m' !! e = Some r' -> re_state r' = Activating -> owns_entry c' e \/
    ((exists r, entries (shared s) !! e = Some r /\ re_state r = Activating) /\
     forall c, threads s !! i = Some c -> ~ owns_entry c e);
  so_lifecycle : holds_lifecycle c' = true -> activeProviderId_ m' = [] /\
    forall j c, j <> i -> threads s !! j = Some c -> holds_lifecycle c = false;
  so_active : activeProviderId_ m' = activeProviderId_ (shared s) \/ activeProviderId_ m' = [] \/
    forall j c, j <> i -> threads s !! j = Some c -> holds_lifecycle c = false;
}.

Lemma inv_step s i c' m' live' : inv s -> step_ok s i c' m' live' ->
  inv {| shared := m'; threads := <[i := c']> (threads s); live := live' |}.
Proof.
  intros [Ht Hl Ho Hu Ha Hlc Hlu] [St Sl So Soo Sa Slc Sac].
  assert (forall j c, <[i := c']> (threads s) !! j = Some c ->
    (j = i /\ c = c') \/ (j <> i /\ threads s !! j = Some c)) as Hth.
  { intros j c H. apply lookup_insert_Some in H as [[<- <-]|[? ?]]; auto. }
  constructor; cbn [shared threads live].
  - done.
  - intros p t Hin. unfold live_of in Hin. cbn [live] in Hin.
    assert (table_active m' p t \/ will_settle c' p t -> covers
      {| shared := m'; threads := <[i := c']> (threads s); live := live' |} p t) as Hcov.
    { intros [H|H]; [by left|]. right. exists i, c'. split; [by apply lookup_insert_eq|done]. }
    destruct (Sl p t Hin) as [[Hr H]|(Hin'&H1&H2)]; [auto|].
    destruct (Hl p t Hin') as [Hr [H|(j&c&Hj&Hw)]]; split; auto.
    destruct (decide (j = i)) as [->|Hne]; [by eapply Hcov, H2|].
    right. exists j, c. cbn [threads]. by rewrite lookup_insert_ne.
  - intros j c p t e [[-> ->]|[Hne Hj]]%Hth Hown; [by apply So|by eapply Soo, Ho].
  - intros j j' c d e [[-> ->]|[Hne Hj]]%Hth [[-> ->]|[Hne' Hj']]%Hth H1 H2; [done| | |by eapply Hu].
    + exfalso. destruct H1 as (p&t&H1). destruct (So p t e H1) as [_ H]. by eapply H.
    + exfalso. destruct H2 as (p&t&H2). destruct (So p t e H2) as [_ H]. by eapply H.
  - intros e r' Hr' Hst. destruct (Sa e r' Hr' Hst) as [H|((r&Hr&Hs)&Hi)].
    + exists i, c'. split; [by apply lookup_insert_eq|done].
    + destruct (Ha e r Hr Hs) as (j&c&Hj&Hown). exists j, c. split; [|done].
      rewrite lookup_insert_ne; [done|]. intros <-. by eapply Hi.
  - intros j c [[-> ->]|[Hne Hj]]%Hth H; [by apply Slc|].
    pose proof (Hlc j c Hj H). destruct Sac as [->|[?|Hn]]; [done|done|].
    by rewrite (Hn j c Hne Hj) in H.
  - intros j j' c d [[-> ->]|[Hne Hj]]%Hth [[-> ->]|[Hne' Hj']]%Hth H1 H2; [done| | |by eapply Hlu].
    + destruct (Slc H1) as [_ Hn]. by rewrite (Hn _ _ Hne' Hj') in H2.
    + destruct (Slc H2) as [_ Hn]. by rewrite (Hn _ _ Hne Hj) in H1.
Qed.

(** Steps that file no new route: entries only age, the map only shrinks. *)
Lemma aged_ok s i c' m' live' : inv s -> aged (shared s) m' ->
  (forall k e, activeRoutes_ m' !! k = Some e -> activeRoutes_ (shared s) !! k = Some e) ->
  table_ok registered (activeProviderId_ m') m' ->
  match threads s !! i with Some c => owns c' = owns c | None => owns c' = None end ->
  (forall p t, t ∈ default ∅ (live' !! p) ->
    (registered p = true /\ (table_active m' p t \/ will_settle c' p t)) \/
    (t ∈ live_of s p /\
     (table_active (shared s) p t -> table_active m' p t \/ will_settle c' p t) /\
     (forall c, threads s !! i = Some c -> will_settle c p t -> table_active m' p t \/ will_settle c' p t))) ->
  (holds_lifecycle c' = true -> activeProviderId_ m' = [] /\
    forall j c, j <> i -> threads s !! j = Some c -> holds_lifecycle c = false) ->
  (activeProviderId_ m' = activeProviderId_ (shared s) \/ activeProviderId_ m' = []) ->
  step_ok s i c' m' live'.
Proof.
  intros Hinv Hag Hsub Ht Hown Hl Hlc Hac. constructor; [done|done| | | |done|tauto].
  - intros p t e E. destruct (threads s !! i) as [c|] eqn:Ei; [|congruence].
    rewrite Hown in E. split.
    + eapply owned_aged; [done|done|]. by eapply (i_owner s Hinv).
    + intros j d Hne Hj Hd. apply Hne. eapply (i_unique s Hinv); [done|done|done|]. by exists p, t.
  - intros j c p t e _ _ _. by apply owned_aged.
  - intros e r' Hr' Hst. specialize (Hag e). rewrite Hr' in Hag. destruct Hag as (r&Hr&_&_&Hs).
    assert (re_state r = Activating) as Hr2 by (destruct Hs; congruence).
    destruct (i_activating s Hinv e r Hr Hr2) as (j&c&Hj&Hc). destruct (decide (j = i)) as [->|Hne].
    + left. rewrite Hj in Hown. destruct Hc as (p&t&Hc). exists p, t. congruence.
    + right. split; [by exists r|]. intros d Hd Hd'. apply Hne. by eapply (i_unique s Hinv).
Qed.

(** Steps of a running call that leave the manager's state alone. *)
Lemma local_ok s i c c' live' : inv s -> threads s !! i = Some c -> owns c' = owns c ->
  (holds_lifecycle c' = true -> holds_lifecycle c = true) ->
  (forall p t, t ∈ default ∅ (live' !! p) ->
    (registered p = true /\ will_settle c' p t) \/
    (t ∈ live_of s p /\ (will_settle c p t -> will_settle c' p t))) ->
  inv {| shared := shared s; threads := <[i := c']> (threads s); live := live' |}.
Proof.
  intros Hinv Hi Hown Hlc Hl. apply inv_step; [done|]. apply aged_ok; try done.
  - apply aged_refl.
  - apply (i_table s Hinv).
  - by rewrite Hi.
  - intros p t Hin. destruct (Hl p t Hin) as [[Hr Hw]|[Hin' Hw]]; [auto|].
    right. split_and!; [done|auto|]. intros d Hd. assert (d = c) as -> by congruence. auto.
  - intros H. specialize (Hlc H). split; [by eapply (i_lifecycle s Hinv)|].
    intros j d Hne Hj. destruct (holds_lifecycle d) eqn:Ed; [|done].
    exfalso. apply Hne. by eapply (i_lc_unique s Hinv).
  - by left.
Qed.

(** A call that starts and ends, or starts without activating anything. *)
Lemma start_ok s i c' m' : inv s -> threads s !! i = None -> owns c' = None ->
  holds_lifecycle c' = false -> aged (shared s) m' ->
  (forall k e, activeRoutes_ m' !! k = Some e -> activeRoutes_ (shared s) !! k = Some e) ->
  table_ok registered (activeProviderId_ m') m' ->
  activeProviderId_ m' = activeProviderId_ (shared s) ->
  (forall p t, table_active (shared s) p t -> table_active m' p t \/ will_settle c' p t) ->
  inv {| shared := m'; threads := <[i := c']> (threads s); live := live s |}.
Proof.
  intros Hinv Hi Hown Hlc Hag Hsub Ht Hac Hact. apply inv_step; [done|]. apply aged_ok; try done.
  - by rewrite Hi.
  - intros p t Hin. right. split_and!; [exact Hin|by apply Hact|]. intros c Hc. congruence.
  - by rewrite Hlc.
  - by left.
Qed.

Lemma inv_initial : inv initial.
Proof.
  constructor; cbn [shared threads live initial activeProviderId_ activeRoutes_ entries].
  - intros k e H. cbn [activeRoutes_] in H. by rewrite lookup_empty in H.
  - intros p t H. change (t ∈ (∅ : gset RemoteRouteTarget)) in H. set_solver.
  - intros i c p t e H. by rewrite lookup_empty in H.
  - intros i j c c' e H. by rewrite lookup_empty in H.
  - intros e r H. by rewrite lookup_empty in H.
  - intros i c H. by rewrite lookup_empty in H.
  - intros i j c c' H. by rewrite lookup_empty in H.
Qed.

Lemma live_set s p l q : default ∅ ((<[p := l]> (live s)) !! q) = if decide (p = q) then l else live_of s q.
Proof. destruct (decide (p = q)) as [->|]; [by rewrite lookup_insert_eq|by rewrite lookup_insert_ne]. Qed.

(** A provider call that takes [dropped] down, after which the call no longer
    has to. *)
Lemma drop_live s i c c' p dropped : inv s -> threads s !! i = Some c -> owns c' = owns c ->
  (holds_lifecycle c' = true -> holds_lifecycle c = true) ->
  (forall q t, will_settle c q t -> will_settle c' q t \/ (q = p /\ t = dropped)) ->
  inv (set_thread i c' (set_live p (live_of s p ∖ {[dropped]}) s)).
Proof.
  intros Hinv Hi Hown Hlc Hw. apply (local_ok s i c); [done..|].
  intros q t. cbn [live set_live]. rewrite live_set. intros Hin. right.
  destruct (decide (p = q)) as [<-|Hne].
  - apply elem_of_difference in Hin as [Hin Hnd]. split; [done|].
    intros [?|[_ ->]]%Hw; [done|]. exfalso. apply Hnd. by apply elem_of_singleton.
  - split; [done|]. intros [?|[-> _]]%Hw; [done|congruence].
Qed.

(** [activateRoute]'s first section when the map has no such route. *)
Lemma entered_step s i p t e retired m' : inv s -> threads s !! i = None -> registered p = true ->
  entries (shared s) !! e = None ->
  activeProviderId_ m' = activeProviderId_ (shared s) -> table_ok registered (activeProviderId_ m') m' ->
  entered_ok p t e (shared s) m' (Entered e retired) ->
  inv {| shared := m'; threads := <[i := ActOps p t e retired]> (threads s); live := live s |}.
Proof.
  intros Hinv Hi Hp He Hac Ht (_&Hnew&Hold&Hact&Hfiled&Hsub).
  assert (forall j c, threads s !! j = Some c -> ~ owns_entry c e) as Hfresh.
  { intros j c Hj (q&u&Hown). destruct (i_owner s Hinv j c q u e Hj Hown) as [(r&Hr&_) _]. congruence. }
  apply inv_step; [done|]. constructor; [done| | | | |done|by left].
  - intros q u Hin. right. split_and!; [exact Hin| |intros c Hc; congruence].
    intros H. destruct (Hact q u H) as [?|[-> ?]]; [by left|by right].
  - intros q u e' [= <- <- <-]. split; [by split_and!|]. intros j c _. by apply Hfresh.
  - intros j c q u e' _ Hj Hc ((r&Hr&Htg&Hst)&Hk&Hq).
    assert (e' <> e) as Hne by (intros ->; congruence). specialize (Hold e' Hne).
    split_and!; [|intros k Hk'; apply Hk; by apply (Hsub k e')|done].
    destruct (entries m' !! e') as [r'|]; [|congruence]. destruct Hold as (r0&Hr0&?&Hs). exists r'.
    assert (r0 = r) as -> by congruence. split_and!; [done|congruence|destruct Hs; congruence].
  - intros e' r' Hr' Hst. destruct (decide (e' = e)) as [->|Hne]; [left; by exists p, t|].
    right. specialize (Hold e' Hne). rewrite Hr' in Hold. destruct Hold as (r&?&?&?).
    split; [exists r; split; [done|]; destruct H1; congruence|]. intros c Hc. congruence.
Qed.

Lemma commit_step s i p t e activated stale m' : inv s -> threads s !! i = Some (ActCommit p t e activated) ->
  activate_commit p t e activated (shared s) = (stale, m') ->
  inv {| shared := m'; threads := <[i := if stale then ActUndo p t else Done activated]> (threads s);
         live := live s |}.
Proof.
  intros Hinv Hi E. set (c' := if stale then _ else _).
  destruct (i_owner s Hinv i _ p t e Hi eq_refl) as (Hent&Hfiled&Hp).
  destruct (activate_commit_spec registered p t e activated _ stale m' (i_table s Hinv) Hent Hfiled E)
    as (Hac&Ht&Hne&(r'&Hr'&Hna)&Hact&Hok&Hsub).
  assert (owns c' = None /\ holds_lifecycle c' = false) as [Hown Hlc] by (unfold c'; by destruct stale).
  assert (forall j c, j <> i -> threads s !! j = Some c -> ~ owns_entry c e) as Hother.
  { intros j c Hj Hc Ho. apply Hj. eapply (i_unique s Hinv); [done|done|done|]. by exists p, t. }
  apply inv_step; [done|]. constructor; [done| | | | |by rewrite Hlc|by left].
  - intros q u Hin. right. split_and!; [exact Hin|by intros ?%Hact; left|].
    intros c Hc Hw. rewrite Hi in Hc. injection Hc as <-. unfold c'. destruct activated; [|done].
    destruct Hw as [<- <-]. destruct stale; [by right|]. left. by apply Hok.
  - intros q u e'. by rewrite Hown.
  - intros j c q u e' Hj Hc Hc' ((r&Hr&?&?)&Hk&?).
    assert (e' <> e) as Hee by (intros ->; apply (Hother j c Hj Hc); by exists q, u).
    split_and!; [|intros k Hk'; by apply Hk, Hsub|done]. exists r. by rewrite Hne.
  - intros e' r Hr Hst. right. assert (e' <> e) as Hee by (intros ->; congruence).
    rewrite Hne in Hr by done. split; [by exists r|]. intros c Hc (q&u&Ho). rewrite Hi in Hc.
    injection Hc as <-. cbn in Ho. congruence.
Qed.

Lemma activate_step s i p t e order r m : inv s -> threads s !! i = None -> registered p = true ->
  entries (shared s) !! e = None -> order ≡ₚ map_to_list (activeRoutes_ (shared s)) ->
  activate_enter (exclusive p) p t e order (shared s) = (r, m) ->
  inv (set_thread i (match r with
                     | Refused => Done false
                     | Waiting e => ActWait p t e
                     | Joined b => Done b
                     | Entered e retired => ActOps p t e retired
                     end) (set_shared m s)).
Proof.
  intros Hinv Hi Hp He Ho E.
  destruct (activate_enter_spec _ _ _ _ _ _ _ _ _ (i_table s Hinv) Hp He Ho E) as (Hac&Ht&Hr).
  destruct r as [|e'|b|e' retired].
  4: { assert (e' = e) as -> by apply Hr. by apply (entered_step s). }
  all: destruct Hr as (Hag&Hsub&Hact); apply (start_ok s); try done; [intros k e1; cbn [shared set_shared]; by rewrite Hsub|by intros q u ?%Hact; left].
Qed.

Lemma after_stop_plain next : owns (after_stop next) = None.
Proof. unfold after_stop. destruct next; [|done]. by case_bool_decide. Qed.

Lemma stop_step s i next order p m : inv s -> threads s !! i = None -> lifecycle_free s ->
  order ≡ₚ map_to_list (activeRoutes_ (shared s)) -> stop_enter order (shared s) = (p, m) ->
  inv (set_thread i (if registered p then StopOps p next else after_stop next) (set_shared m s)).
Proof.
  intros Hinv Hi Hfree Ho E. pose proof (i_table s Hinv) as Ht.
  destruct (stop_enter_spec _ _ _ _ _ Ht Ho E) as (->&Hac&Hag&Hr).
  set (c' := if registered _ then _ else _).
  assert (owns c' = None) as Hown.
  { unfold c'. destruct (registered (activeProviderId_ (shared s))); [done|apply after_stop_plain]. }
  apply (inv_step s); [done|]. apply (aged_ok s); try done.
  - intros k e H. cbn [shared set_shared] in H. by rewrite Hr, lookup_empty in H.
  - intros k e H. cbn [shared set_shared] in H. by rewrite Hr, lookup_empty in H.
  - by rewrite Hi.
  - intros q t Hin. right. split_and!; [exact Hin| |intros c Hc; congruence].
    intros (e&r&Hk&_). right. destruct (Ht _ _ Hk) as (Hq&Hreg&_). cbn in Hq.
    unfold c'. rewrite Hreg. by symmetry.
  - intros _. split; [done|]. intros j c _. apply Hfree.
  - by right.
Qed.

Lemma select_step s i id : inv s -> threads s !! i = Some (SelSet id) ->
  inv (set_thread i (Done true) (set_shared (set_active id (shared s)) s)).
Proof.
  intros Hinv Hi. pose proof (i_lifecycle s Hinv i _ Hi eq_refl) as Hac.
  assert (forall k e, activeRoutes_ (shared s) !! k <> Some e) as Hnone.
  { intros k e H. destruct (i_table s Hinv k e H) as (_&Hr&_). congruence. }
  apply (inv_step s); [done|]. constructor; try done.
  - intros k e H. by apply Hnone in H.
  - intros p t Hin. right. split_and!; [exact Hin| |].
    + intros (e&r&Hk&_). by apply Hnone in Hk.
    + intros c Hc Hw. rewrite Hi in Hc. by injection Hc as <-.
  - intros e r Hr Hs. right. split; [by exists r|]. intros c Hc (q&u&Ho). rewrite Hi in Hc. by injection Hc as <-.
  - right. right. intros j c Hj Hc. destruct (holds_lifecycle c) eqn:El; [|done].
    exfalso. apply Hj. by eapply (i_lc_unique s Hinv).
Qed.

(** [local]: a step of a running call that changes no live set. *)
Ltac local_step c := apply (local_ok _ _ c); [done|done|done|done|];
  let q := fresh "q" in let u := fresh "u" in let Hin := fresh in
  intros q u Hin; right; split; [exact Hin|]; cbn [will_settle]; (done || tauto).

Lemma step_inv s s' : inv s -> step registered exclusive s s' -> inv s'.
Proof.
  intros Hinv Hs. destruct Hs as [s i p t e order r m Hi Hp Hpeer He Ho E|s i p t Hi Hno
    |s i p t e b m Hi Hst E|s i p t e retired Hi Hf|s i p t e old retired Hi|s i p t e Hi|s i p t e Hi
    |s i p t e activated stale m Hi E|s i p t Hi|s i p peer target order r m Hi Ho E|s i p t Hi Hf|s i p t Hi
    |s i p peer target order r Hi Ho E|s i p t g Hi Hf|s i p t g prepared Hi|s i p g prepared Hi
    |s i next order p m Hi Hfree Ho E|s i p next Hi Hf|s i p next Hi|s i id Hi Hreg|s i id Hi Hreg Hf
    |s i id started Hi|s i id Hi].
  - by eapply activate_step.
  - apply (start_ok s); try done; [apply aged_refl|apply (i_table s Hinv)|]. auto.
  - destruct (join_route_spec _ _ _ _ _ _ (i_table s Hinv) E) as (Ht&Hag&Hac&Hsub&Hact).
    apply (inv_step s); [done|]. apply (aged_ok s); try done.
    + intros k e1. cbn [shared set_shared]. by rewrite Hsub.
    + cbn [shared set_shared]. by rewrite Hac.
    + by rewrite Hi.
    + intros q u Hin. right. split_and!; [exact Hin|by intros ?%Hact; left|].
      intros c Hc Hw. rewrite Hi in Hc. by injection Hc as <-.
    + by left.
  - local_step (ActOps p t e retired).
  - eapply drop_live; [done|exact Hi|done|done|]. cbn [will_settle]. intros q u [-> Hu].
    apply elem_of_cons in Hu as [->|Hu]; auto.
  - destruct (i_owner s Hinv i _ p t e Hi eq_refl) as (_&_&Hp). apply (local_ok s i _ _ _ Hinv Hi); [done|done|].
    intros q u. cbn [live set_live]. rewrite live_set. intros Hin. destruct (decide (p = q)) as [<-|Hne].
    + destruct (decide (u = t)) as [->|Hu]; [left; by cbn|]. right. split; [|by intros [_ ?%elem_of_nil]].
      destruct (exclusive p); set_solver.
    + right. split; [done|]. by intros [? _].
  - apply (local_ok s i _ _ _ Hinv Hi); [done|done|]. intros q u Hin. right. split; [exact Hin|].
    by intros [_ ?%elem_of_nil].
  - exact (commit_step s i p t e activated stale m Hinv Hi E).
  - eapply drop_live; [done|exact Hi|done|done|]. cbn [will_settle]. intros q u [-> ->]. auto.
  - destruct (deactivate_enter_spec _ _ _ _ _ _ _ _ _ (i_table s Hinv) eq_refl Ho E) as (Hac&Ht&Hent&Hsub&Hact).
    apply (start_ok s); try done; try (by destruct r).
    + destruct Hent as [He|(e&n&He)]; intros e'; cbn [shared set_shared]; rewrite He; [apply aged_refl|].
      apply (aged_update (with_references n) e (shared s)). intros r'. cbn. auto.
    + intros q u H. destruct (Hact q u H) as [?|[-> ->]]; [by left|by right].
  - local_step (DeactOps p t).
  - eapply drop_live; [done|exact Hi|done|done|]. cbn [will_settle]. intros q u [-> ->]. auto.
  - apply (start_ok s); try done; try (by destruct r as [[]|]); [apply aged_refl|apply (i_table s Hinv)|auto].
  - local_step (PrepOps p t g).
  - local_step (PrepCall p t g).
  - local_step (PrepExit p g prepared).
  - by eapply stop_step.
  - local_step (StopOps p next).
  - apply (local_ok s i _ _ _ Hinv Hi); [apply after_stop_plain|done|].
    intros q u. cbn [live set_live]. rewrite live_set. destruct (decide (p = q)) as [<-|Hne]; [set_solver|].
    intros Hin. right. split; [done|]. cbn. congruence.
  - local_step (SelOps id).
  - local_step (SelOps id).
  - destruct started; local_step (SelCall id).
  - by apply select_step.
Qed.

Lemma reachable_inv s : reachable registered exclusive s -> inv s.
Proof.
  assert (forall a b, rtc (step registered exclusive) a b -> inv a -> inv b) as H.
  { induction 1 as [|a b c Hab _ IH]; [done|]. intros Ha. by eapply IH, step_inv. }
  intros Hr. by eapply H; [exact Hr|apply inv_initial].
Qed.

(** All calls have returned. *)
Definition quiet (s : config) : Prop := forall i c, threads s !! i = Some c -> exists b, c = Done b.

(** C10: no route is left behind. Whatever calls run and however they interleave -
    activations, releases, streaming checks, stops and restarts of the provider,
    with provider calls succeeding or failing - a route a provider has up is
    either filed as active under its key, or some call still under way is about
    to take it down, file it, or stop the provider. And every filed route
    belongs to the selected provider: once all calls have returned, a provider
    that is not selected has no route up. *)
Theorem no_route_leak s p t : reachable registered exclusive s -> t ∈ live_of s p ->
  covers s p t /\
  (quiet s -> activeProviderId_ (shared s) = p /\ table_active (shared s) p t).
Proof.
  intros Hr%reachable_inv Hin. destruct (i_live s Hr p t Hin) as [_ Hc]. split; [done|].
  intros Hdone. destruct Hc as [Ha|(i&c&Hi&Hw)].
  - split; [|done]. destruct Ha as (e&r&Hk&_). destruct (i_table s Hr _ _ Hk) as [Hp _]. by symmetry.
  - destruct (Hdone i c Hi) as [b ->]. done.
Qed.

(** ** Progress *)

Definition running (c : pc) : Prop := forall b, c <> Done b.

(** Thread [j] can take a step of its own. *)
Definition can_move (s : config) (j : nat) : Prop := exists d s',
  threads s !! j = Some d /\ running d /\ step registered exclusive s s' /\ threads s' !! j <> Some d.

Lemma moves s j d s' d' : threads s !! j = Some d -> running d -> step registered exclusive s s' ->
  threads s' !! j = Some d' -> d' <> d -> can_move s j.
Proof. intros Hj Hd Hs Hj' Hne. exists d, s'. split_and!; [done..|congruence]. Qed.

Ltac move_by r := eapply moves; [eassumption|done|eapply r; done|apply lookup_insert_eq|try done].

(** A call inside a provider returns: it waits for nobody. *)
Lemma holder_moves s j d p : threads s !! j = Some d -> holds_ops d = Some p -> can_move s j.
Proof.
  intros Hj Hd. destruct d as [| |q t e [|old retired]|q t e a|q t| |q t| |q t g|q g b| |q next| |id| |]; try done.
  - move_by S_call_failed.
  - move_by S_retire. intros [= E]. by induction retired as [|x l IH] in old, E |- *; simplify_eq/=; eauto.
  - destruct (activate_commit q t e a (shared s)) as [stale m] eqn:E. move_by S_commit. by destruct stale.
  - move_by S_undo.
  - move_by S_deact_call.
  - eapply moves; [done|done|by apply (S_prep_call _ _ s j q t g true)|apply lookup_insert_eq|done].
  - move_by S_prep_exit.
  - move_by S_stop_call. unfold after_stop. destruct next as [id|]; [|done]. by case_bool_decide.
  - eapply moves; [done|done|by apply (S_sel_call _ _ s j id false)|apply lookup_insert_eq|done].
Qed.

(** When nobody is inside a provider, a call that does not wait for another's
    activation can go on. *)
Lemma free_moves s j d : threads s !! j = Some d -> running d -> (forall p, ops_free s p) ->
  (forall p t e, d = ActWait p t e -> entry_state (shared s) e <> Some Activating) -> can_move s j.
Proof.
  intros Hj Hd Hfree Hw.
  destruct d as [q t e|q t e l| | | |q t| |q t g| | |q next| |id| |id|b];
    try (by exfalso; eapply Hfree).
  - destruct (join_route e (shared s)) as [b m] eqn:E.
    eapply moves; [done|done|eapply S_joined; [done|by eapply Hw|done]|apply lookup_insert_eq|done].
  - move_by S_ops.
  - move_by S_deact_ops.
  - move_by S_prep_ops.
  - move_by S_stop_ops.
  - destruct (registered id) eqn:Er; [move_by S_sel_ops|move_by S_sel_missing].
  - move_by S_sel_set.
  - by destruct (Hd b).
Qed.

(** C38: the calls cannot deadlock. In every reachable state with a call under way
    some call under way can take a step: a thread waiting for another's activation
    always has that activation in flight, and a thread inside a provider waits
    for nobody. *)
Theorem calls_never_deadlock s i c : reachable registered exclusive s ->
  threads s !! i = Some c -> running c -> exists j, can_move s j.
Proof.
  intros Hr%reachable_inv Hi Hc.
  destruct (decide (map_Forall (fun _ d => holds_ops d = None) (threads s))) as [Hnone|Hsome].
  2: { apply map_not_Forall in Hsome as (j&d&Hj&Hd); [|solve_decision].
       destruct (holds_ops d) as [p|] eqn:E; [|done]. exists j. by eapply holder_moves. }
  assert (forall p, ops_free s p) as Hfree.
  { intros p j d Hj. by rewrite (Hnone j d Hj). }
  destruct c as [p t e| | | | | | | | | | | | | | |] eqn:Ec;
    try (exists i; by eapply free_moves; [| |done|]).
  destruct (decide (entry_state (shared s) e = Some Activating)) as [Ha|Ha].
  2: { exists i. eapply free_moves; [done|done|done|]. by intros ??? [= <- <- <-]. }
  unfold entry_state in Ha. destruct (entries (shared s) !! e) as [r|] eqn:Er; [|done]. injection Ha as Ha.
  destruct (i_activating s Hr e r Er Ha) as (j&d&Hj&q&u&Hd). exists j.
  eapply free_moves; [done|by intros b ->|done|]. by intros ??? ->.
Qed.
End safety.

(** ** Running a schedule *)

Inductive action :=
| Activate (i : nat) (p : bytes) (t : RemoteRouteTarget) (e : nat)
| Deactivate (i : nat) (p peer target : bytes)
| Select (i : nat) (next : option bytes)
(** the next step of a running call; [ok] is what the provider answers *)
| Go (i : nat) (ok : bool).

Section run.
Context (registered exclusive : bytes -> bool).

Definition is_free (s : config) (i : nat) : bool := bool_decide (threads s !! i = None).
Definition ops_freeb (s : config) (p : bytes) : bool :=
  bool_decide (map_Forall (fun _ c => holds_ops c <> Some p) (threads s)).
Definition lifecycle_freeb (s : config) : bool :=
  bool_decide (map_Forall (fun _ c => holds_lifecycle c = false) (threads s)).

Definition go (s : config) (i : nat) (ok : bool) : option config :=
  match threads s !! i with
  | Some (ActWait p t e) =>
      if bool_decide (entry_state (shared s) e = Some Activating) then None
      else let r := join_route e (shared s) in Some (set_thread i (Done r.1) (set_shared r.2 s))
  | Some (ActOps p t e retired) =>
      if ops_freeb s p then Some (set_thread i (ActRetire p t e retired) s) else None
  | Some (ActRetire p t e (old :: retired)) =>
      Some (set_thread i (ActRetire p t e retired) (set_live p (live_of s p ∖ {[old]}) s))
  | Some (ActRetire p t e []) =>
      Some (if ok then set_thread i (ActCommit p t e true)
                         (set_live p ({[t]} ∪ (if exclusive p then ∅ else live_of s p)) s)
            else set_thread i (ActCommit p t e false) s)
  | Some (ActCommit p t e activated) =>
      let r := activate_commit p t e activated (shared s) in
      Some (set_thread i (if r.1 then ActUndo p t else Done activated) (set_shared r.2 s))
  | Some (ActUndo p t) => Some (set_thread i (Done false) (set_live p (live_of s p ∖ {[t]}) s))
  | Some (DeactOps p t) => if ops_freeb s p then Some (set_thread i (DeactCall p t) s) else None
  | Some (DeactCall p t) => Some (set_thread i (Done true) (set_live p (live_of s p ∖ {[t]}) s))
  | Some (StopOps p next) => if ops_freeb s p then Some (set_thread i (StopCall p next) s) else None
  | Some (StopCall p next) => Some (set_thread i (after_stop next) (set_live p ∅ s))
  | Some (SelOps id) =>
      if registered id then (if ops_freeb s id then Some (set_thread i (SelCall id) s) else None)
      else Some (set_thread i (Done false) s)
  | Some (SelCall id) => Some (set_thread i (if ok then SelSet id else Done false) s)
  | Some (SelSet id) => Some (set_thread i (Done true) (set_shared (set_active id (shared s)) s))
  | _ => None
  end.

Definition exec (s : config) (a : action) : option config :=
  let order := map_to_list (activeRoutes_ (shared s)) in
  match a with
  | Activate i p t e =>
      if is_free s i && registered p && negb (bool_decide (rt_peerId t = [])) &&
         bool_decide (entries (shared s) !! e = None)
      then
        let r := activate_enter (exclusive p) p t e order (shared s) in
        Some (set_thread i (match r.1 with
                            | Refused => Done false
                            | Waiting e => ActWait p t e
                            | Joined b => Done b
                            | Entered e retired => ActOps p t e retired
                            end) (set_shared r.2 s))
      else None
  | Deactivate i p peer target =>
      if is_free s i then
        let r := deactivate_enter (registered p) p peer target order (shared s) in
        Some (set_thread i (match r.1 with Some t => DeactOps p t | None => Done true end) (set_shared r.2 s))
      else None
  | Select i next =>
      if is_free s i && lifecycle_freeb s then
        let r := stop_enter order (shared s) in
        Some (set_thread i (if registered r.1 then StopOps r.1 next else after_stop next) (set_shared r.2 s))
      else None
  | Go i ok => go s i ok
  end.

Fixpoint run (s : config) (l : list action) : option config :=
  match l with
  | [] => Some s
  | a :: l => s' ← exec s a; run s' l
  end.

Lemma ops_freeb_spec s p : ops_freeb s p = true -> ops_free s p.
Proof. intros H%bool_decide_eq_true. intros i c Hi. exact (H i c Hi). Qed.

Lemma go_step s i ok s' : go s i ok = Some s' -> step registered exclusive s s'.
Proof.
  unfold go. destruct (threads s !! i) as [c|] eqn:Hi; [|done].
  destruct c as [p t e|p t e l|p t e [|old l]|p t e a|p t|p t|p t|p t g|p t g|p g b|p next|p next|id|id|id|b]; try done.
  - case_bool_decide; [done|]. intros [= <-]. by eapply S_joined, surjective_pairing.
  - destruct (ops_freeb s p) eqn:Ef; [|done]. intros [= <-]. by apply S_ops, ops_freeb_spec.
  - intros [= <-]. destruct ok; [by apply S_call_ok|by apply S_call_failed].
  - intros [= <-]. by apply S_retire.
  - intros [= <-]. by eapply S_commit, surjective_pairing.
  - intros [= <-]. by apply S_undo.
  - destruct (ops_freeb s p) eqn:Ef; [|done]. intros [= <-]. by apply S_deact_ops, ops_freeb_spec.
  - intros [= <-]. by apply S_deact_call.
  - destruct (ops_freeb s p) eqn:Ef; [|done]. intros [= <-]. by apply S_stop_ops, ops_freeb_spec.
  - intros [= <-]. by apply S_stop_call.
  - destruct (registered id) eqn:Er; [|intros [= <-]; by eapply S_sel_missing].
    destruct (ops_freeb s id) eqn:Ef; [|done]. intros [= <-]. by apply S_sel_ops, ops_freeb_spec.
  - intros [= <-]. by apply S_sel_call.
  - intros [= <-]. by apply S_sel_set.
Qed.

Lemma exec_step s a s' : exec s a = Some s' -> step registered exclusive s s'.
Proof.
  unfold exec. destruct a as [i p t e|i p peer target|i next|i ok]; [| | |by apply go_step].
  - destruct (_ && _) eqn:Eb; [|done]. intros [= <-].
    apply andb_true_iff in Eb as [Eb He%bool_decide_eq_true].
    apply andb_true_iff in Eb as [Eb Hp%negb_true_iff%bool_decide_eq_false].
    apply andb_true_iff in Eb as [Hi%bool_decide_eq_true Hreg].
    by eapply S_activate; [done|done|done|done|reflexivity|apply surjective_pairing].
  - destruct (is_free s i) eqn:Hi; [|done]. apply bool_decide_eq_true in Hi. intros [= <-].
    by eapply S_deactivate; [done|reflexivity|apply surjective_pairing].
  - destruct (_ && _) eqn:Eb; [|done]. intros [= <-].
    apply andb_true_iff in Eb as [Hi%bool_decide_eq_true Hl%bool_decide_eq_true].
    by eapply S_stop; [done| |reflexivity|apply surjective_pairing].
Qed.

Lemma run_reachable s l s' : reachable registered exclusive s -> run s l = Some s' ->
  reachable registered exclusive s'.
Proof.
  intros Hr E. induction l as [|a l IH] in s, Hr, E |- *; cbn [run] in E; [by injection E as <-|].
  destruct (exec s a) as [s1|] eqn:Ea; [|done]. cbn [mbind option_bind] in E.
  eapply IH; [|exact E]. eapply rtc_r; [exact Hr|by eapply exec_step].
Qed.
End run.

(** One provider, two hosts behind one peer. *)
Definition ts : bytes := bs "t".
Definition ex_registered (p : bytes) : bool := bool_decide (p = ts).
Definition ex_target (host : string) : RemoteRouteTarget :=
  {| rt_peerId := bs "p"; rt_peerAddress := []; rt_targetAddress := bs host; rt_connectAddress := [];
     rt_mode := Proxy |}.
Definition selecting (i : nat) : list action := [Select i (Some ts); Go i true; Go i true; Go i true].
Definition activating (i e : nat) (host : string) : list action :=
  [Activate i ts (ex_target host) e; Go i true; Go i true; Go i true].

Definition run_ts (excl : bool) (l : list action) : config :=
  default initial (run ex_registered (fun _ => excl) initial l).

Definition is_done (c : pc) : bool := match c with Done _ => true | _ => false end.
Definition all_done (s : config) : bool := bool_decide (map_Forall (fun _ c => is_done c = true) (threads s)).
Definition up (s : config) (host : string) : bool := bool_decide (ex_target host ∈ live_of s ts).
Definition filed (s : config) (host : string) : option RouteState :=
  activeRoutes_ (shared s) !! key_of ts (ex_target host) ≫= entry_state (shared s).
Definition answer (s : config) (i : nat) : option bool :=
  match threads s !! i with Some (Done b) => Some b | _ => None end.

Lemma all_done_spec s : all_done s = true -> quiet s.
Proof. intros H%bool_decide_eq_true i c Hi. specialize (H i c Hi). destruct c; try done. eauto. Defined.

Lemma run_ts_reachable excl l : reachable ex_registered (fun _ => excl) (run_ts excl l).
Proof.
  unfold run_ts. destruct (run ex_registered (fun _ => excl) initial l) as [s|] eqn:E; [|apply rtc_refl].
  eapply run_reachable; [apply rtc_refl|exact E].
Qed.

Lemma no_route_leak_witness :
  let s := run_ts false (selecting 0 ++ activating 1 0 "a") in
  activeProviderId_ (shared s) = ts /\ table_active (shared s) ts (ex_target "a").
Proof.
  apply (no_route_leak ex_registered (fun _ => false) eq_refl _ ts (ex_target "a")).
  - apply run_ts_reachable.
  - apply (bool_decide_eq_true (ex_target "a" ∈ live_of _ ts)). vm_compute. reflexivity.
  - apply all_done_spec. vm_compute. reflexivity.
Defined.

(** One call waits for another's activation: the other can go on. *)
Lemma calls_never_deadlock_witness :
  exists j, can_move ex_registered (fun _ => false)
    (run_ts false (selecting 0 ++ [Activate 1 ts (ex_target "a") 0; Activate 2 ts (ex_target "a") 1])) j.
Proof.
  apply (calls_never_deadlock ex_registered (fun _ => false) eq_refl _ 2 (ActWait ts (ex_target "a") 0)).
  - apply run_ts_reachable.
  - vm_compute. reflexivity.
  - intros b. discriminate.
Defined.

(** ** Schedules that lose a route *)

(** [deactivateRoute] erases the map's entry before it takes the provider's
    mutex. A new activation of the same route can get in between: its provider
    call comes first, the late [deactivateRoute] takes the new route down, and
    the map, and the caller whose activation returned true, take it to be up. *)
Example reactivation_race :
  let s := run_ts false (selecting 0 ++ activating 1 0 "a" ++
    [Deactivate 2 ts (bs "p") (bs "a")] ++ activating 3 1 "a" ++ [Go 2 true; Go 2 true]) in
  reachable ex_registered (fun _ => false) s /\ all_done s = true /\ answer s 3 = Some true /\
  filed s "a" = Some Active /\ up s "a" = false.
Proof. split; [apply run_ts_reachable|vm_compute; done]. Qed.

(** [deactivateRoute] names a route by its key alone. A lease from before a
    restart of the provider releases the route of a lease taken after it. *)
Example stale_release :
  let s := run_ts false (selecting 0 ++ activating 1 0 "a" ++
    [Select 2 (Some ts); Go 2 true; Go 2 true; Go 2 true; Go 2 true; Go 2 true] ++ activating 3 1 "a" ++
    [Deactivate 4 ts (bs "p") (bs "a"); Go 4 true; Go 4 true]) in
  reachable ex_registered (fun _ => false) s /\ all_done s = true /\
  answer s 1 = Some true /\ answer s 3 = Some true /\ filed s "a" = None /\ up s "a" = false.
Proof. split; [apply run_ts_reachable|vm_compute; done]. Qed.

(** An exclusive provider: the activation that is displaced while it waits for
    the provider still makes its call, which replaces the newer route. *)
Example displaced_activation :
  let s := run_ts true (selecting 0 ++ [Activate 1 ts (ex_target "a") 0] ++ activating 2 1 "b" ++
    [Go 1 true; Go 1 true; Go 1 true; Go 1 true]) in
  reachable ex_registered (fun _ => true) s /\ all_done s = true /\ answer s 2 = Some true /\
  filed s "b" = Some Active /\ up s "b" = false /\ up s "a" = false.
Proof. split; [apply run_ts_reachable|vm_compute; done]. Qed.
