(* ===== verification/HostAddress.v ===== *)
(** Host entries ([HostAddressParse.hpp], [HostAddressParse.cpp]) and the routing
    that is decided from them ([RemoteRouting.cpp]). A lease
    ([RemoteRouteLease.hpp]) is its five fields; what it asks of the manager is
    the second component of each operation. *)

From S2P Require Import Prelude Bytes Text Types.

Record ParsedHostAddress := {
  host : bytes;
  port : option Z;
  isIpv6 : bool;
  isIpv4 : bool;
  isHostname : bool;
}.
Definition no_address : ParsedHostAddress :=
  {| host := []; port := None; isIpv6 := false; isIpv4 := false; isHostname := false |}.

(** The loop of [looks_like_ipv4]; [None] when it returns false. *)
Fixpoint ipv4_shape (l : bytes) (dots digits : Z) : option (Z * Z) :=
  match l with
  | [] => Some (dots, digits)
  | c :: rest =>
      if bool_decide (c = ch ".") then
        if digits =? 0 then None else ipv4_shape rest (dots + 1) 0
      else if negb (is_digit c) then None
      else ipv4_shape rest dots (digits + 1)
  end.
Definition looks_like_ipv4 (h : bytes) : bool :=
  match ipv4_shape h 0 0 with
  | None => false
  | Some (dots, digits) => (dots =? 3) && (0 <? digits)
  end.

(** The octets of [is_private_ipv4_host], [n] of them left to read. *)
Fixpoint read_octets (n : nat) (remaining : bytes) : option (list Z) :=
  match n with
  | O => Some []
  | S k =>
      let separator := find (ch ".") remaining in
      let part := match separator with Some s => substr 0 s remaining | None => remaining end in
      let r := from_chars_unsigned part 0 in
      if negb (bool_decide (fc_ec r = ErrNone)) || negb (fc_ptr r =? length part)%nat || (255 <? fc_value r)
      then None
      else
        match k, separator with
        | O, None => Some [fc_value r]
        | O, Some _ => None
        | S _, None => None
        | S _, Some s => rest ← read_octets k (drop (s + 1) remaining); Some (fc_value r :: rest)
        end
  end.

Definition is_private_ipv4_host (h : bytes) : bool :=
  if negb (looks_like_ipv4 h) then false
  else
    match read_octets 4 h with
    | Some (a :: b :: _) =>
        (a =? 10) || (a =? 127) || ((a =? 169) && (b =? 254)) || ((a =? 192) && (b =? 168)) ||
        ((a =? 172) && (16 <=? b) && (b <=? 31))
    | _ => false
    end.

Definition parse_port (text : bytes) : option Z :=
  if bool_decide (text = []) then None
  else
    let r := from_chars_unsigned text 0 in
    if negb (bool_decide (fc_ec r = ErrNone)) || negb (fc_ptr r =? length text)%nat ||
       (fc_value r =? 0) || (65535 <? fc_value r)
    then None else Some (u16 (fc_value r)).

(** [std::isspace], "C" locale, and the two trimming loops. *)
Definition is_space (b : byte) : bool := (ub b =? 32) || ((9 <=? ub b) && (ub b <=? 13)).
Fixpoint trim_front (l : bytes) : bytes :=
  match l with c :: rest => if is_space c then trim_front rest else l | [] => [] end.
Definition trim_back (l : bytes) : bytes := reverse (trim_front (reverse l)).

Definition parse_host_address (input : bytes) : ParsedHostAddress :=
  let value := trim_back (trim_front input) in
  match value with
  | [] => no_address
  | front :: _ =>
      if bool_decide (front = ch "[") then
        match find (ch "]") value with
        | None => {| host := value; port := None; isIpv6 := false; isIpv4 := false; isHostname := true |}
        | Some close =>
            {| host := substr 1 (close - 1) value;
               port := if (close + 1 <? length value)%nat && bool_decide (value !!! (close + 1)%nat = ch ":")
                       then parse_port (substr_from (close + 2) value) else None;
               isIpv6 := true; isIpv4 := false; isHostname := false |}
        end
      else
        match find (ch ":") value with
        | None =>
            {| host := value; port := None; isIpv6 := false; isIpv4 := looks_like_ipv4 value;
               isHostname := negb (looks_like_ipv4 value) |}
        | Some colon =>
            match find_from (ch ":") (colon + 1) value with
            | Some _ => {| host := value; port := None; isIpv6 := true; isIpv4 := false; isHostname := false |}
            | None =>
                let h := substr 0 colon value in
                {| host := h; port := parse_port (substr_from (colon + 1) value); isIpv6 := false;
                   isIpv4 := looks_like_ipv4 h; isHostname := negb (looks_like_ipv4 h) |}
            end
        end
  end.

Definition should_store_as_remote (p : ParsedHostAddress) : bool :=
  if bool_decide (host p = []) then false
  else if isHostname p || isIpv6 p then true
  else if isIpv4 p then negb (is_private_ipv4_host (host p))
  else false.

Definition format_host_address (p : ParsedHostAddress) : bytes :=
  if bool_decide (host p = []) then []
  else
    let out := if isIpv6 p then bs "[" ++ host p ++ bs "]" else host p in
    match port p with Some n => out ++ bs ":" ++ to_string n | None => out end.

(** ** Leases *)

Definition kProxyAddress : bytes := bs "127.0.0.1".

(** [l_mgr]: whether [mgr_] is set. *)
Record RemoteRouteLease := {
  l_mgr : bool;
  l_providerId : bytes;
  l_peerId : bytes;
  l_targetAddress : bytes;
  l_connectAddress : bytes;
  l_active : bool;
  l_refused : bool;
}.
Definition no_lease : RemoteRouteLease :=
  {| l_mgr := false; l_providerId := []; l_peerId := []; l_targetAddress := []; l_connectAddress := [];
     l_active := false; l_refused := false |}.

(** The constructor; [activate] is the manager's [activateRoute]. *)
Definition make_lease (activate : bytes -> RemoteRouteTarget -> bool) (providerId : bytes)
    (target : RemoteRouteTarget) : RemoteRouteLease :=
  let named := negb (bool_decide (providerId = [])) in
  let activated := activate providerId target in
  {| l_mgr := true; l_providerId := providerId; l_peerId := rt_peerId target;
     l_targetAddress := rt_targetAddress target; l_connectAddress := rt_connectAddress target;
     l_active := if named then activated else true; l_refused := if named then negb activated else false |}.

Definition set_active_refused (l : RemoteRouteLease) (m a r : bool) : RemoteRouteLease :=
  {| l_mgr := m; l_providerId := l_providerId l; l_peerId := l_peerId l;
     l_targetAddress := l_targetAddress l; l_connectAddress := l_connectAddress l; l_active := a; l_refused := r |}.

(** [release], with the [deactivateRoute] it calls, if any. *)
Definition release (l : RemoteRouteLease) : RemoteRouteLease * list (bytes * bytes * bytes) :=
  if l_active l && l_mgr l && negb (bool_decide (l_providerId l = []))
  then (set_active_refused l (l_mgr l) false (l_refused l), [(l_providerId l, l_peerId l, l_targetAddress l)])
  else (l, []).

(** The moves: the lease moved into, the one moved from, and the calls. The
    strings moved from are left unspecified; none is read again while [mgr_] is
    null. *)
Definition move_lease (other : RemoteRouteLease) : RemoteRouteLease * RemoteRouteLease :=
  (other, set_active_refused other false false false).
Definition move_assign (this other : RemoteRouteLease)
  : RemoteRouteLease * RemoteRouteLease * list (bytes * bytes * bytes) :=
  let '(_, calls) := release this in
  let '(this, other) := move_lease other in (this, other, calls).

Definition prepareForStreaming (prepare : bytes -> bytes -> bytes -> bool) (l : RemoteRouteLease) : bool :=
  l_active l && l_mgr l &&
  (bool_decide (l_providerId l = []) || prepare (l_providerId l) (l_peerId l) (l_targetAddress l)).

(** ** [RemoteRouting] *)

(** [acquireRouteFor]; [resolve] is the active provider's [resolveRoute], absent
    when no provider is active or registered. *)
Definition acquireRouteFor (providerId : bytes) (resolve : option (bytes -> option RemoteRouteTarget))
    (activate : bytes -> RemoteRouteTarget -> bool) (address : bytes) : RemoteRouteLease :=
  if bool_decide (address = []) || bool_decide (providerId = []) then no_lease
  else
    match resolve with
    | None => no_lease
    | Some resolveRoute =>
        let parsed := parse_host_address address in
        if bool_decide (host parsed = []) then no_lease
        else
          match resolveRoute (host parsed) with
          | None => no_lease
          | Some t =>
              let t := {| rt_peerId := rt_peerId t; rt_peerAddress := rt_peerAddress t;
                          rt_targetAddress := if bool_decide (rt_targetAddress t = []) then host parsed
                                              else rt_targetAddress t;
                          rt_connectAddress := if bool_decide (rt_connectAddress t = []) then kProxyAddress
                                               else rt_connectAddress t;
                          rt_mode := rt_mode t |} in
              let lease := make_lease activate providerId t in
              if negb (l_active lease) then no_lease else lease
          end
    end.

Definition connectAddressFor (l : RemoteRouteLease) (address : bytes) : bytes :=
  if negb (l_active l) then address
  else
    match port (parse_host_address address) with
    | Some n => kProxyAddress ++ bs ":" ++ to_string n
    | None => kProxyAddress
    end.

(** ** Parsing what was formatted *)

Definition port_ok (o : option Z) : Prop := match o with Some n => 1 <= n <= 65535 | None => True end.

(** An address in the form the parser produces: an IPv6 literal without a closing
    bracket, or a name without colons, brackets in front or space around. *)
Definition address_ok (p : ParsedHostAddress) : Prop :=
  host p <> [] /\ port_ok (port p) /\
  if isIpv6 p then (ch "]" ∉ host p) /\ isIpv4 p = false /\ isHostname p = false
  else (ch ":" ∉ host p) /\ isIpv4 p = looks_like_ipv4 (host p) /\
    isHostname p = negb (looks_like_ipv4 (host p)) /\
    (forall c, head (host p) = Some c -> is_space c = false /\ c <> ch "[") /\
    (forall c, list.last (host p) = Some c -> is_space c = false).

Lemma trim_front_id l : (forall c, head l = Some c -> is_space c = false) -> trim_front l = l.
Proof. destruct l as [|c l]; [done|]. intros H. cbn [trim_front]. by rewrite (H c eq_refl). Qed.

Lemma trim_id l : (forall c, head l = Some c -> is_space c = false) ->
  (forall c, list.last l = Some c -> is_space c = false) -> trim_back (trim_front l) = l.
Proof.
  intros Hf Hb. rewrite trim_front_id by done. unfold trim_back. rewrite trim_front_id; [apply reverse_involutive|].
  intros c. rewrite head_reverse. apply Hb.
Qed.

Lemma parse_port_digits n : 1 <= n <= 65535 -> parse_port (to_string n) = Some n.
Proof.
  intros Hn. unfold parse_port. rewrite bool_decide_false by (apply to_string_nonempty; lia).
  rewrite from_chars_unsigned_digits; [|apply to_string_nonempty; lia|apply to_string_digits; lia|].
  2: { rewrite to_string_value by lia. lia. }
  rewrite to_string_value by lia. cbn [fc_ec fc_ptr fc_value]. rewrite Nat.eqb_refl, bool_decide_true by done.
  destruct (Z.eqb_spec n 0); [lia|]. destruct (Z.ltb_spec 65535 n); [lia|]. cbn [negb orb].
  unfold u16. by rewrite Z.mod_small by lia.
Qed.

Lemma find_none c l : (c ∉ l) -> find c l = None.
Proof.
  intros H. unfold find, find_from. rewrite drop_0. assert (find_if (fun x => bool_decide (x = c)) l = None) as ->; [|done].
  apply find_if_None, list.Forall_forall. intros x Hx. apply bool_decide_eq_false_2. by intros ->.
Qed.

Lemma find_first c l r : (c ∉ l) -> find c (l ++ c :: r) = Some (length l).
Proof.
  intros H. unfold find, find_from. rewrite drop_0.
  rewrite (find_if_app_r _ l c r); [done| |by apply bool_decide_eq_true_2].
  apply list.Forall_forall. intros x Hx. apply bool_decide_eq_false_2. by intros ->.
Qed.

Lemma digits_last n c : 0 <= n -> list.last (to_string n) = Some c -> is_space c = false.
Proof.
  intros Hn Hl. pose proof (to_string_digits n Hn) as Hd. rewrite list.Forall_forall in Hd.
  apply list.last_Some_elem_of in Hl. specialize (Hd c Hl). cbv beta in Hd. apply is_digit_range in Hd.
  unfold is_space. destruct (Z.eqb_spec (ub c) 32), (Z.leb_spec 9 (ub c)), (Z.leb_spec (ub c) 13); try done; lia.
Qed.

Lemma last_app_ne {A} (l r : list A) : r <> [] -> list.last (l ++ r) = list.last r.
Proof. intros Hr. rewrite list.last_app. destruct (list.last r) eqn:E; [done|]. by apply list.last_None in E. Qed.

(** The text after the host of a formatted address. *)
Lemma port_suffix o l : port_ok o ->
  (match o with Some n => l ++ bs ":" ++ to_string n | None => l end) =
  l ++ (match o with Some n => ch ":" :: to_string n | None => [] end).
Proof. intros _. destruct o; [done|by rewrite app_nil_r]. Qed.

Definition suffix (o : option Z) : bytes := match o with Some n => ch ":" :: to_string n | None => [] end.

Lemma suffix_last o c : port_ok o -> suffix o <> [] -> list.last (suffix o) = Some c -> is_space c = false.
Proof.
  intros Ho Hne Hl. destruct o as [n|]; [|done]. cbn [suffix port_ok] in *.
  assert (list.last (to_string n) = Some c) as Hd.
  { rewrite <- Hl. change (ch ":" :: to_string n) with ([ch ":"] ++ to_string n).
    symmetry. apply last_app_ne. apply to_string_nonempty. lia. }
  eapply digits_last; [|exact Hd]. lia.
Qed.

Lemma parse_bracketed h o : (ch "]" ∉ h) -> port_ok o ->
  parse_host_address (ch "[" :: h ++ ch "]" :: suffix o) =
  {| host := h; port := o; isIpv6 := true; isIpv4 := false; isHostname := false |}.
Proof.
  intros Hh Ho. set (value := ch "[" :: h ++ ch "]" :: suffix o). unfold parse_host_address.
  assert (trim_back (trim_front value) = value) as ->.
  { apply trim_id; [by intros c [= <-]|]. intros c Hl. unfold value in Hl.
    change (ch "[" :: h ++ ch "]" :: suffix o) with ((ch "[" :: h) ++ [ch "]"] ++ suffix o) in Hl.
    rewrite last_app_ne in Hl by done. destruct o as [n|].
    - rewrite last_app_ne in Hl by done. by eapply suffix_last.
    - by injection Hl as <-. }
  cbv zeta. unfold value at 1. rewrite bool_decide_true by done.
  assert (find (ch "]") value = Some (S (length h))) as ->.
  { unfold value. change (ch "[" :: h ++ ch "]" :: suffix o) with ((ch "[" :: h) ++ ch "]" :: suffix o).
    apply find_first. by intros [?|?]%elem_of_cons. }
  assert (drop (length h + 2) value = suffix o) as Hd.
  { unfold value. change (ch "[" :: h ++ ch "]" :: suffix o) with ((ch "[" :: h) ++ [ch "]"] ++ suffix o).
    rewrite app_assoc. apply drop_app_length'. rewrite length_app. simpl. lia. }
  assert (length value = length h + 2 + length (suffix o))%nat as Hlen.
  { unfold value. simpl. rewrite length_app. simpl. lia. }
  f_equal.
  - unfold substr, value. cbn [drop]. rewrite Nat.sub_succ, Nat.sub_0_r. apply take_app_length.
  - replace (S (length h) + 1)%nat with (length h + 2)%nat by lia. rewrite Hlen. destruct o as [n|].
    + cbn [suffix port_ok length] in *. rewrite (proj2 (Nat.ltb_lt _ _)) by lia.
      assert (value !!! (length h + 2)%nat = ch ":") as ->.
      { apply list_lookup_total_correct. rewrite <- (Nat.add_0_r (length h + 2)), <- lookup_drop, Hd. done. }
      rewrite bool_decide_true by done. cbn [andb]. unfold substr_from.
      replace (S (length h) + 2)%nat with (length h + 2 + 1)%nat by lia. rewrite <- drop_drop, Hd.
      cbn [drop]. rewrite drop_0. by apply parse_port_digits.
    + cbn [suffix length]. by rewrite Nat.add_0_r, Nat.ltb_irrefl.
Qed.

Lemma parse_plain h o : h <> [] -> (ch ":" ∉ h) -> port_ok o ->
  (forall c, head h = Some c -> is_space c = false /\ c <> ch "[") ->
  (forall c, list.last h = Some c -> is_space c = false) ->
  parse_host_address (h ++ suffix o) =
  {| host := h; port := o; isIpv6 := false; isIpv4 := looks_like_ipv4 h;
     isHostname := negb (looks_like_ipv4 h) |}.
Proof.
  intros Hne Hh Ho Hf Hl. unfold parse_host_address.
  assert (forall c, head (h ++ suffix o) = Some c -> head h = Some c) as Hhead by by destruct h.
  rewrite trim_id; [|by intros c ?%Hhead; apply Hf|].
  2: { intros c Hc. destruct o as [n|].
       - rewrite last_app_ne in Hc by done. by eapply suffix_last.
       - cbn [suffix] in Hc. rewrite app_nil_r in Hc. by apply Hl. }
  cbv zeta. destruct (h ++ suffix o) as [|c rest] eqn:E; [by destruct h|].
  destruct (Hf c (Hhead c eq_refl)) as [_ Hb]. rewrite bool_decide_false by done. rewrite <- E.
  destruct o as [n|]; cbn [suffix port_ok] in *.
  - rewrite find_first by done.
    assert (find_from (ch ":") (length h + 1) (h ++ ch ":" :: to_string n) = None) as ->.
    { unfold find_from. change (ch ":" :: to_string n) with ([ch ":"] ++ to_string n).
      rewrite app_assoc, drop_app_length' by (rewrite length_app; simpl; lia).
      assert (find_if (fun x => bool_decide (x = ch ":")) (to_string n) = None) as ->; [|done].
      apply find_if_None, list.Forall_forall. intros x Hx. apply bool_decide_eq_false_2. intros ->.
      by apply (to_string_no_char (ch ":") n) in Hx; [|lia|]. }
    assert (substr 0 (length h) (h ++ ch ":" :: to_string n) = h) as -> by apply take_app_length.
    f_equal. unfold substr_from. change (ch ":" :: to_string n) with ([ch ":"] ++ to_string n).
    rewrite app_assoc, drop_app_length' by (rewrite length_app; simpl; lia). by apply parse_port_digits.
  - rewrite app_nil_r. by rewrite find_none.
Qed.

(** Host entries are read back. [parse_host_address] of the text
    [format_host_address] writes for an address - an IPv4 literal, a host name or
    an IPv6 literal, with or without a port - is that address. *)
Theorem parse_format_host p : address_ok p -> parse_host_address (format_host_address p) = p.
Proof.
  intros (Hne&Ho&Hp). unfold format_host_address. rewrite bool_decide_false by done. cbv zeta.
  rewrite port_suffix by done. fold (suffix (port p)). destruct p as [h o v6 v4 hn].
  cbn [host port isIpv6 isIpv4 isHostname] in *. destruct v6.
  - destruct Hp as (Hh&->&->).
    replace ((bs "[" ++ h ++ bs "]") ++ suffix o) with (ch "[" :: h ++ ch "]" :: suffix o).
    + by apply parse_bracketed.
    + change (bs "[") with [ch "["]. change (bs "]") with [ch "]"]. cbn [app]. by rewrite <- app_assoc.
  - destruct Hp as (Hh&->&->&Hf&Hl). by apply parse_plain.
Qed.

Lemma parse_format_host_witness :
  parse_host_address (bs "[2001:db8::1]:47989") =
    {| host := bs "2001:db8::1"; port := Some 47989; isIpv6 := true; isIpv4 := false; isHostname := false |}.
Proof.
  set (p := {| host := bs "2001:db8::1"; port := Some 47989; isIpv6 := true; isIpv4 := false; isHostname := false |}).
  assert (bs "[2001:db8::1]:47989" = format_host_address p) as E by (vm_compute; reflexivity).
  rewrite E. apply (parse_format_host p). split; [discriminate|]. split; [cbn; lia|].
  split; [|split; reflexivity]. apply (bool_decide_eq_true (ch "]" ∉ host p)). vm_compute. reflexivity.
Defined.

(** ** Leases are released once *)

(** The release a lease still owes. *)
Definition pending (l : RemoteRouteLease) : list (bytes * bytes * bytes) := (release l).2.

Lemma release_pending l : pending (release l).1 = [].
Proof.
  unfold pending, release. destruct (l_active l) eqn:Ea, (l_mgr l) eqn:Em; cbn [andb fst]; rewrite ?Ea, ?Em; try done.
  case_bool_decide as Ep; cbn [negb fst]; rewrite ?Ea, ?Em; cbn [andb].
  - by rewrite bool_decide_true.
  - done.
Qed.

(** The lease variables of the program, and what it does with them: assign a new
    lease, move one into another, release, let one die (which releases). *)
Inductive lease_op :=
| Assign (i : nat) (l : RemoteRouteLease)
| MoveTo (i j : nat)
| Release (i : nat)
| Destroy (i : nat).

Abbreviation pool := (list RemoteRouteLease).

Definition lease_step (o : lease_op) (ls : pool) : pool * list (bytes * bytes * bytes) :=
  match o with
  | Assign i l =>
      match ls !! i with
      | Some this => let '(this, _, calls) := move_assign this l in (<[i := this]> ls, calls)
      | None => ((move_lease l).1 :: ls, [])
      end
  | MoveTo i j =>
      if (i =? j)%nat then (ls, [])
      else match ls !! i, ls !! j with
           | Some this, Some other =>
               let '(this, other, calls) := move_assign this other in (<[j := other]> (<[i := this]> ls), calls)
           | _, _ => (ls, [])
           end
  | Release i | Destroy i =>
      match ls !! i with
      | Some l => let '(l, calls) := release l in (<[i := l]> ls, calls)
      | None => (ls, [])
      end
  end.

Fixpoint lease_run (os : list lease_op) (ls : pool) : pool * list (bytes * bytes * bytes) :=
  match os with
  | [] => (ls, [])
  | o :: os =>
      let '(ls, calls) := lease_step o ls in
      let '(ls, more) := lease_run os ls in (ls, calls ++ more)
  end.

Definition acquired (o : lease_op) : list (bytes * bytes * bytes) :=
  match o with Assign _ l => pending l | _ => [] end.
Definition owed (ls : pool) : list (bytes * bytes * bytes) := concat (pending <$> ls).

Lemma owed_insert ls i x old : ls !! i = Some old -> pending old ++ owed (<[i := x]> ls) ≡ₚ pending x ++ owed ls.
Proof.
  unfold owed. induction ls as [|l ls IH] in i |- *; [done|]. destruct i as [|i]; cbn [lookup list_lookup].
  - intros [= ->]. cbn [insert list_insert fmap list_fmap concat]. solve_Permutation.
  - intros H. cbn [insert list_insert fmap list_fmap concat]. specialize (IH i H).
    rewrite (Permutation_app_swap_app (pending old)), (Permutation_app_swap_app (pending x)).
    by rewrite IH.
Qed.

Lemma move_pending l : pending (move_lease l).2 = [].
Proof. done. Qed.

Lemma lease_step_balance o ls ls' calls : lease_step o ls = (ls', calls) ->
  acquired o ++ owed ls ≡ₚ calls ++ owed ls'.
Proof.
  destruct o as [i l|i j|i|i]; cbn [lease_step acquired].
  - destruct (ls !! i) as [this|] eqn:Ei; unfold move_assign.
    + destruct (release this) as [this' calls'] eqn:Er. cbn [move_lease]. intros [= <- <-].
      assert (calls' = pending this) as -> by (unfold pending; by rewrite Er).
      by rewrite (owed_insert ls i l this Ei).
    + intros [= <- <-]. done.
  - destruct (Nat.eqb_spec i j) as [->|Hne]; [by intros [= <- <-]|].
    destruct (ls !! i) as [this|] eqn:Ei; [|by intros [= <- <-]].
    destruct (ls !! j) as [other|] eqn:Ej; [|by intros [= <- <-]]. unfold move_assign.
    destruct (release this) as [this' calls'] eqn:Er. cbn [move_lease]. intros [= <- <-].
    assert (calls' = pending this) as -> by (unfold pending; by rewrite Er).
    assert (<[i := other]> ls !! j = Some other) as Ej' by by rewrite list_lookup_insert_ne.
    pose proof (owed_insert _ _ (set_active_refused other false false false) _ Ej') as H1.
    pose proof (owed_insert _ _ other _ Ei) as H2. cbn [app] in *.
    apply (Permutation_app_inv_l (pending other)). rewrite <- H2.
    rewrite (Permutation_app_swap_app (pending other) (pending this)). rewrite H1. done.
  - destruct (ls !! i) as [l|] eqn:Ei; [|by intros [= <- <-]].
    destruct (release l) as [l' calls'] eqn:Er. intros [= <- <-].
    assert (calls' = pending l) as -> by (unfold pending; by rewrite Er).
    pose proof (release_pending l) as Hp. rewrite Er in Hp. cbn [fst] in Hp.
    rewrite (owed_insert ls i l' l Ei), Hp. done.
  - destruct (ls !! i) as [l|] eqn:Ei; [|by intros [= <- <-]].
    destruct (release l) as [l' calls'] eqn:Er. intros [= <- <-].
    assert (calls' = pending l) as -> by (unfold pending; by rewrite Er).
    pose proof (release_pending l) as Hp. rewrite Er in Hp. cbn [fst] in Hp.
    rewrite (owed_insert ls i l' l Ei), Hp. done.
Qed.

(** Every route a lease has activated is given back exactly once. However
    leases are assigned, moved between variables, released and destroyed, the
    releases made so far and those still owed by live leases are together the
    activations the leases were made with: none is lost in a move, none is
    released twice. *)
Theorem lease_balance os : forall ls ls' calls, lease_run os ls = (ls', calls) ->
  concat (acquired <$> os) ++ owed ls ≡ₚ calls ++ owed ls'.
Proof.
  induction os as [|o os IH]; intros ls ls' calls; cbn [lease_run]; [by intros [= <- <-]|].
  destruct (lease_step o ls) as [ls1 c1] eqn:E1. destruct (lease_run os ls1) as [ls2 c2] eqn:E2.
  intros [= <- <-]. apply lease_step_balance in E1. apply IH in E2.
  cbn [fmap list_fmap concat]. rewrite <- !app_assoc, <- E2.
  rewrite (Permutation_app_swap_app c1), <- E1. solve_Permutation.
Qed.

Lemma lease_balance_witness :
  let l := make_lease (fun _ _ => true) (bs "ts")
    {| rt_peerId := bs "p"; rt_peerAddress := []; rt_targetAddress := bs "t"; rt_connectAddress := [];
       rt_mode := Proxy |} in
  let '(ls', calls) := lease_run [Assign 0 l; Assign 5 no_lease; MoveTo 0 1; Release 1; Destroy 0] [no_lease] in
  [(bs "ts", bs "p", bs "t")] ≡ₚ calls ++ owed ls'.
Proof.
  intros l. set (os := [Assign 0 l; Assign 5 no_lease; MoveTo 0 1; Release 1; Destroy 0]).
  destruct (lease_run os [no_lease]) as [ls' calls] eqn:E.
  exact (lease_balance os [no_lease] ls' calls E).
Defined.

(** [acquireRouteFor] gives up a lease the provider refused, so no caller ever
    sees one: the check that is to fail fast in the connect loop never fires and
    the loop dials the tunnel address itself. *)
Example refused_never_seen providerId resolve activate address :
  l_refused (acquireRouteFor providerId resolve activate address) = false.
Proof.
  unfold acquireRouteFor, make_lease.
  destruct (bool_decide (address = [])), (bool_decide (providerId = [])); try done. cbn [orb negb].
  destruct resolve as [res|]; [|done]. cbv zeta. destruct (bool_decide (host _ = [])); [done|].
  destruct (res _) as [t|]; [|done]. cbn [l_active l_refused].
  set (t' := {| rt_peerId := _ |}). by destruct (activate providerId t').
Qed.
