(* ===== verification/AddHost.v ===== *)
(** Which remote peers the Add Host screen offers ([AddHostPeerFilter.hpp],
    [AddHostPeerFilter.cpp]): the verdict on a peer, the subnet shortcuts, and
    the cache of probe results. *)

From S2P Require Import Prelude Bytes Text.

Record RemoteAccessPeer := {
  rp_providerId : bytes;
  rp_peerId : bytes;
  rp_name : bytes;
  rp_address : bytes;
  rp_online : bool;
  rp_metadata : bytes;
  rp_os : bytes;
  rp_tcpPortsKnown : bool;
  rp_tcpPorts : list Z;
  rp_subnets : list bytes;
}.

Inductive PeerVerdict := Hidden | Host | Probe.

Definition kGameStreamHttpPort : Z := 47989.
Definition kGameStreamHttpsPort : Z := 47984.

Definition isMobileOs (os : bytes) : bool :=
  let value := lower os in
  bool_decide (value = bs "android") || bool_decide (value = bs "ios") || bool_decide (value = bs "ipados").

Definition classifyPeerForAddHost (peer : RemoteAccessPeer) : PeerVerdict :=
  if negb (rp_online peer) || bool_decide (rp_address peer = []) then Hidden
  else if isMobileOs (rp_os peer) then Hidden
  else if rp_tcpPortsKnown peer &&
          existsb (fun p => (p =? kGameStreamHttpPort) || (p =? kGameStreamHttpsPort)) (rp_tcpPorts peer)
  then Host else Probe.

(** [while (!name.empty() && name.back() == '.') name.pop_back();] *)
Fixpoint skip_dots (l : bytes) : bytes :=
  match l with c :: rest => if bool_decide (c = ch ".") then skip_dots rest else l | [] => [] end.
Definition drop_dots (name : bytes) : bytes := reverse (skip_dots (reverse name)).

Definition peerDisplayName (peer : RemoteAccessPeer) : bytes :=
  let name := drop_dots (if bool_decide (rp_name peer = []) then rp_address peer else rp_name peer) in
  if bool_decide (name = []) then rp_address peer else name.

(** The octet loop, [n] octets to go; [None] when it gives up. *)
Fixpoint octets_loop (n : nat) (network : bytes) (begin : nat) (out : bytes) : option bytes :=
  match n with
  | O => Some out
  | S k =>
      match find_from (ch ".") begin network with
      | None => None
      | Some dot => octets_loop k network (dot + 1) (out ++ substr begin (dot - begin) network ++ [ch "."])
      end
  end.

Definition subnetInputPrefix (cidr : bytes) : bytes :=
  match find (ch "/") cidr with
  | None => []
  | Some slash =>
      let prefixText := substr_from (slash + 1) cidr in
      let r := from_chars_int prefixText (-1) in
      let bits := fc_value r in
      if negb (bool_decide (fc_ec r = ErrNone)) || negb (fc_ptr r =? length prefixText)%nat ||
         (bits <? 8) || (32 <? bits)
      then []
      else default [] (octets_loop (Z.to_nat (Z.min (Z.quot bits 8) 3)) (substr 0 slash cidr) 0 [])
  end.

Record SubnetShortcut := { sc_subnet : bytes; sc_inputPrefix : bytes; sc_viaName : bytes }.

Fixpoint peer_subnets (peer : RemoteAccessPeer) (subnets : list bytes) (out : list SubnetShortcut)
  : list SubnetShortcut :=
  match subnets with
  | [] => out
  | subnet :: rest =>
      let prefix := subnetInputPrefix subnet in
      if bool_decide (prefix = []) then peer_subnets peer rest out
      else if existsb (fun s => bool_decide (sc_subnet s = subnet)) out then peer_subnets peer rest out
      else peer_subnets peer rest
             (out ++ [{| sc_subnet := subnet; sc_inputPrefix := prefix; sc_viaName := peerDisplayName peer |}])
  end.

Definition subnetShortcuts (peers : list RemoteAccessPeer) : list SubnetShortcut :=
  foldl (fun out peer => if negb (rp_online peer) then out else peer_subnets peer (rp_subnets peer) out) [] peers.

(** ** [ProbeCache] *)

Module ProbeCache.
Definition kNegativeTtl : Z := 10 * 60 * 1000000000.

Record Entry := { isHost : bool; at_ : Z }.
Abbreviation cache := (gmap bytes Entry).

Definition lookup_probe (peerId : bytes) (now : Z) (entries_ : cache) : option bool :=
  match entries_ !! peerId with
  | None => None
  | Some found =>
      if negb (isHost found) && (kNegativeTtl <? now - at_ found) then None else Some (isHost found)
  end.
Definition store (peerId : bytes) (host : bool) (now : Z) (entries_ : cache) : cache :=
  <[peerId := {| isHost := host; at_ := now |}]> entries_.
Definition forgetMisses (entries_ : cache) : cache := filter (fun '(_, e) => isHost e = true) entries_.
Definition clear (_ : cache) : cache := ∅.
End ProbeCache.

(** ** The shortcuts *)

(** Where a shortcut comes from. *)
Definition offered (peers : list RemoteAccessPeer) (s : SubnetShortcut) : Prop :=
  exists peer, peer ∈ peers /\ rp_online peer = true /\ sc_subnet s ∈ rp_subnets peer /\
    sc_inputPrefix s = subnetInputPrefix (sc_subnet s) /\ sc_inputPrefix s <> [] /\
    sc_viaName s = peerDisplayName peer.

Lemma existsb_subnet out subnet : existsb (fun s => bool_decide (sc_subnet s = subnet)) out = true <->
  subnet ∈ (sc_subnet <$> out).
Proof.
  rewrite existsb_exists, list_elem_of_fmap. split.
  - intros (s&Hin&E%bool_decide_eq_true). exists s. split; [done|by apply list_elem_of_In].
  - intros (s&->&Hin). exists s. split; [by apply list_elem_of_In|by apply bool_decide_eq_true].
Qed.

Lemma peer_subnets_spec peer subnets : forall out,
  let r := peer_subnets peer subnets out in
  (exists new, r = out ++ new /\
    Forall (fun s => sc_subnet s ∈ subnets /\ sc_inputPrefix s = subnetInputPrefix (sc_subnet s) /\
      sc_inputPrefix s <> [] /\ sc_viaName s = peerDisplayName peer) new) /\
  (NoDup (sc_subnet <$> out) -> NoDup (sc_subnet <$> r)) /\
  (forall subnet, subnet ∈ subnets -> subnetInputPrefix subnet <> [] -> subnet ∈ (sc_subnet <$> r)).
Proof.
  induction subnets as [|subnet rest IH]; intros out; cbv zeta in *; cbn [peer_subnets].
  - split_and!; [exists []; by rewrite app_nil_r|done|]. by intros ? ?%elem_of_nil.
  - assert (forall new, Forall (fun s => sc_subnet s ∈ rest /\ sc_inputPrefix s = subnetInputPrefix (sc_subnet s) /\
      sc_inputPrefix s <> [] /\ sc_viaName s = peerDisplayName peer) new ->
      Forall (fun s => sc_subnet s ∈ subnet :: rest /\ sc_inputPrefix s = subnetInputPrefix (sc_subnet s) /\
      sc_inputPrefix s <> [] /\ sc_viaName s = peerDisplayName peer) new) as Hmono.
    { intros new Hn. eapply list.Forall_impl; [exact Hn|]. intros s (?&?). split; [by apply list_elem_of_further|done]. }
    case_bool_decide as Ep; [|destruct (existsb _ out) eqn:Eb].
    + destruct (IH out) as ((new&->&Hn)&Hd&Hc). split_and!; [exists new; auto|done|].
      intros s [->|Hs]%elem_of_cons ?; [done|by apply Hc].
    + apply existsb_subnet in Eb. destruct (IH out) as ((new&->&Hn)&Hd&Hc). split_and!; [exists new; auto|done|].
      intros s [->|Hs]%elem_of_cons ?; [rewrite fmap_app; apply elem_of_app; by left|by apply Hc].
    + set (s0 := {| sc_subnet := subnet; sc_inputPrefix := subnetInputPrefix subnet;
        sc_viaName := peerDisplayName peer |}).
      assert (~ (subnet ∈ (sc_subnet <$> out))) as Hni by (rewrite <- existsb_subnet, Eb; done).
      destruct (IH (out ++ [s0])) as ((new&->&Hn)&Hd&Hc). split_and!.
      * exists (s0 :: new). rewrite <- app_assoc. split; [done|]. constructor; [|by apply Hmono].
        split_and!; [apply list_elem_of_here|done..].
      * intros Hnd. apply Hd. rewrite fmap_app. cbn [fmap list_fmap]. apply list.NoDup_app.
        split_and!; [done| |apply NoDup_singleton]. by intros x Hx ->%list_elem_of_singleton.
      * intros s [->|Hs]%elem_of_cons ?; [|by apply Hc].
        rewrite !fmap_app. apply elem_of_app. left. apply elem_of_app. right. apply list_elem_of_here.
Qed.

(** The Add Host screen's subnet rows. Every row is for a subnet an online peer
    shares, with that peer's display name and the subnet's non-empty prefix; no
    subnet has two rows; and every shared subnet with a usable prefix has one. *)
Theorem shortcuts_spec peers :
  NoDup (sc_subnet <$> subnetShortcuts peers) /\ Forall (offered peers) (subnetShortcuts peers) /\
  forall peer subnet, peer ∈ peers -> rp_online peer = true -> subnet ∈ rp_subnets peer ->
    subnetInputPrefix subnet <> [] -> subnet ∈ (sc_subnet <$> subnetShortcuts peers).
Proof.
  unfold subnetShortcuts.
  induction peers as [|peer peers (IHd&IHo&IHc)] using rev_ind.
  - split_and!; [apply base.NoDup_nil_2|done|]. by intros ? ? ?%elem_of_nil.
  - rewrite foldl_app. cbn [foldl]. set (out := foldl _ [] peers) in *.
    assert (Forall (offered (peers ++ [peer])) out) as Ho.
    { eapply list.Forall_impl; [exact IHo|]. intros s (q&?&?). exists q. split; [apply elem_of_app; by left|done]. }
    destruct (rp_online peer) eqn:Eon; cbn [negb].
    2: { split_and!; [done|done|]. intros q subnet [Hq|Hq%list_elem_of_singleton]%elem_of_app; [by apply IHc|].
         subst q. congruence. }
    destruct (peer_subnets_spec peer (rp_subnets peer) out) as ((new&E&Hn)&Hd&Hc).
    split_and!; [by apply Hd| |].
    + rewrite E. apply list.Forall_app. split; [done|]. eapply list.Forall_impl; [exact Hn|].
      intros s (?&?&?&?). exists peer. split_and!; [|done..]. apply elem_of_app. right. apply list_elem_of_here.
    + intros q subnet [Hq|Hq%list_elem_of_singleton]%elem_of_app Hon Hs Hp.
      * rewrite E, fmap_app. apply elem_of_app. left. by eapply IHc.
      * subst q. by apply Hc.
Qed.

(** A host stays known, a miss expires, and [forgetMisses] drops misses only. *)
Lemma probe_store p h t now c :
  ProbeCache.lookup_probe p now (ProbeCache.store p h t c) =
    (if h || (now - t <=? ProbeCache.kNegativeTtl) then Some h else None).
Proof.
  unfold ProbeCache.lookup_probe, ProbeCache.store. rewrite lookup_insert_eq. cbn [ProbeCache.isHost ProbeCache.at_].
  destruct h; [done|]. cbn [negb andb orb]. rewrite Z.leb_antisym. by destruct (_ <? _).
Qed.

Lemma probe_forget p now c : ProbeCache.lookup_probe p now (ProbeCache.forgetMisses c) =
  match ProbeCache.lookup_probe p now c with Some true => Some true | _ => None end.
Proof.
  unfold ProbeCache.lookup_probe, ProbeCache.forgetMisses. rewrite map_lookup_filter.
  destruct (c !! p) as [[h t]|]; [|done]. cbn [mbind option_bind ProbeCache.isHost ProbeCache.at_].
  destruct h; cbn; [done|]. by destruct (_ <? _).
Qed.

Example prefix_24 : subnetInputPrefix (bs "192.168.1.0/24") = bs "192.168.1.".
Proof. vm_compute. reflexivity. Qed.
Example prefix_20 : subnetInputPrefix (bs "10.20.0.0/20") = bs "10.20.".
Proof. vm_compute. reflexivity. Qed.
