(* ===== verification/Disco.v ===== *)
(** Disco ([TailscaleDisco.cpp], namespace [disco]): the ping, pong and
    call-me-maybe messages peers exchange to find a UDP path, and the sealed
    packet around them. *)

From S2P Require Import Prelude Bytes Endpoint DirectPath Box.

Definition kMagic : bytes := u8 <$> [0x54; 0x53; 0xf0; 0x9f; 0x92; 0xac].
Definition kNonceLen : Z := 24.
Definition kHeaderLen : Z := zlen kMagic + 32 + kNonceLen.
Definition kAddrPortLen : nat := 18.

Inductive MessageType := Ping | Pong | CallMeMaybe.
Definition MessageType_value (t : MessageType) : Z :=
  match t with Ping => 1 | Pong => 2 | CallMeMaybe => 3 end.

Definition zeros (n : nat) : bytes := replicate n Init.Byte.x00.

Record Message := {
  type : MessageType;
  txid : bytes;
  nodeKey : bytes;
  hasNodeKey : bool;
  source : IPv4Endpoint;
  endpoints : list IPv4Endpoint;
}.

(** A value-initialised [Message], of the given type. *)
Definition fresh_message (t : MessageType) : Message :=
  {| type := t; txid := zeros 12; nodeKey := zeros 32; hasNodeKey := false;
     source := no_endpoint; endpoints := [] |}.

(** The sizes of the [std::array] fields and the ranges of the endpoints. *)
Definition message_wf (m : Message) : Prop :=
  length (txid m) = 12%nat /\ length (nodeKey m) = 32%nat /\
  endpoint_wf (source m) /\ Forall endpoint_wf (endpoints m).

(** ** Address fields: 16 bytes of IPv6, with IPv4 as ::ffff:a.b.c.d *)

Definition putAddrPort (out : bytes) (ep : IPv4Endpoint) : bytes :=
  let out := out ++ zeros 10 in
  let out := out ++ [u8 0xff; u8 0xff] in
  let out := putU32 out (address ep) in
  putU16 out (port ep).

(** [for (i = 0; i < n; ++i) if (p[i] != 0) return nullopt;] *)
Fixpoint leading_zeros (p : bytes) (off n : nat) : option bool :=
  match n with
  | O => Some true
  | S k => b ← rd p off; if b =? 0 then leading_zeros p (off + 1) k else Some false
  end.

Definition getAddrPort (p : bytes) (off : nat) : option (option IPv4Endpoint) :=
  z ← leading_zeros p off 10;
  if negb z then Some None else
  b10 ← rd p (off + 10);
  if negb (b10 =? 0xff) then Some None else
  b11 ← rd p (off + 11);
  if negb (b11 =? 0xff) then Some None else
  a ← getU32 p (off + 12);
  q ← getU16 p (off + 16);
  let ep := {| address := a; port := q |} in
  if negb (valid ep) then Some None else Some (Some ep).

(** ** Plaintext *)

Definition encodePlaintext (message : Message) : bytes :=
  let out := [u8 (MessageType_value (type message)); u8 0] in
  match type message with
  | Ping => out ++ txid message ++ nodeKey message
  | Pong => putAddrPort (out ++ txid message) (source message)
  | CallMeMaybe => foldl putAddrPort out (endpoints message)
  end.

(** The call-me-maybe loop: [off] advances by 18 until [body.size()]. *)
Fixpoint read_endpoints (fuel : nat) (body : bytes) (off : nat) (eps : list IPv4Endpoint)
  : option (list IPv4Endpoint) :=
  match fuel with
  | O => Some eps
  | S k =>
      if (off <? length body)%nat then
        if (kMaxCandidates <=? length eps)%nat then Some eps
        else
          ep ← getAddrPort body off;
          read_endpoints k body (off + kAddrPortLen)
            (match ep with Some e => eps ++ [e] | None => eps end)
      else Some eps
  end.

(** Outer [None]: an out-of-bounds read. Inner [None]: [std::nullopt]. *)
Definition decodePlaintext (plaintext : bytes) : option (option Message) :=
  if (length plaintext <? 2)%nat then Some None else
  let body := drop 2 plaintext in
  t ← rd plaintext 0;
  if t =? MessageType_value Ping then
    if (length body <? 12)%nat then Some None else
    tx ← rd_n body 0 12;
    let m := fresh_message Ping in
    if (12 + 32 <=? length body)%nat then
      key ← rd_n body 12 32;
      Some (Some {| type := Ping; txid := tx; nodeKey := key; hasNodeKey := true;
                    source := source m; endpoints := endpoints m |})
    else Some (Some {| type := Ping; txid := tx; nodeKey := nodeKey m; hasNodeKey := false;
                       source := source m; endpoints := endpoints m |})
  else if t =? MessageType_value Pong then
    if (length body <? 12 + kAddrPortLen)%nat then Some None else
    tx ← rd_n body 0 12;
    ep ← getAddrPort body 12;
    let m := fresh_message Pong in
    Some (Some {| type := Pong; txid := tx; nodeKey := nodeKey m; hasNodeKey := false;
                  source := match ep with Some e => e | None => source m end;
                  endpoints := endpoints m |})
  else if t =? MessageType_value CallMeMaybe then
    if negb (length body mod kAddrPortLen =? 0)%nat then Some None else
    eps ← read_endpoints (length body) body 0 [];
    let m := fresh_message CallMeMaybe in
    Some (Some {| type := CallMeMaybe; txid := txid m; nodeKey := nodeKey m; hasNodeKey := false;
                  source := source m; endpoints := eps |})
  else Some None.

(** ** Packets *)

Definition looksLikeDisco (packet : bytes) : bool :=
  (kHeaderLen <=? zlen packet) && bool_decide (take 6 packet = kMagic).

Definition senderKey (packet : bytes) : option bytes :=
  if negb (looksLikeDisco packet) then None else Some (slice 6 32 packet).

Record Opened := { sender : bytes; message : Message }.

Section packets.
Context (x25519 poly1305 : bytes -> bytes -> bytes).

Definition seal (m : Message) (myPrivate myPublic theirPublic nonce : bytes) : bytes :=
  match boxSeal x25519 poly1305 (encodePlaintext m) myPrivate theirPublic nonce with
  | Err _ => []
  | Ok boxed => kMagic ++ myPublic ++ nonce ++ boxed
  end.

(** Outer [None]: an out-of-bounds read, as in [decodePlaintext]. *)
Definition open (packet myPrivate : bytes) : option (option Opened) :=
  match senderKey packet with
  | None => Some None
  | Some from =>
      let nonce := slice 38 24 packet in
      match boxOpen x25519 poly1305 (drop 62 packet) myPrivate from nonce with
      | Err _ => Some None
      | Ok plaintext =>
          m ← decodePlaintext plaintext;
          Some (match m with None => None
                | Some m => Some {| sender := from; message := m |} end)
      end
  end.
End packets.

(** ** Facts *)

Definition addr_port_bytes (ep : IPv4Endpoint) : bytes :=
  zeros 10 ++ [u8 0xff; u8 0xff] ++ be_bytes 4 (address ep) ++ be_bytes 2 (port ep).

Lemma putAddrPort_bytes out ep : putAddrPort out ep = out ++ addr_port_bytes ep.
Proof. unfold putAddrPort, addr_port_bytes. rewrite putU16_be, putU32_be, <- !app_assoc. done. Qed.

Lemma length_addr_port_bytes ep : length (addr_port_bytes ep) = kAddrPortLen.
Proof. unfold addr_port_bytes. by rewrite !length_app, !length_be_bytes. Qed.

Lemma foldl_putAddrPort eps : forall out,
  foldl putAddrPort out eps = out ++ concat (addr_port_bytes <$> eps).
Proof.
  induction eps as [|ep eps IH]; intros out; cbn [foldl fmap list_fmap concat]; [by rewrite app_nil_r|].
  rewrite IH, putAddrPort_bytes, <- app_assoc. done.
Qed.

Lemma leading_zeros_total n : forall p off, (off + n <= length p)%nat ->
  exists z, leading_zeros p off n = Some z.
Proof.
  induction n as [|n IH]; intros p off H; simpl; [eauto|].
  destruct (lookup_lt_is_Some_2 p off) as [a Ha]; [lia|]. rewrite (rd_lookup _ _ _ Ha). simpl.
  destruct (ub a =? 0); [apply IH; lia|eauto].
Qed.

Lemma getAddrPort_total p off : (off + kAddrPortLen <= length p)%nat ->
  exists r, getAddrPort p off = Some r.
Proof.
  unfold kAddrPortLen. intros H. unfold getAddrPort.
  destruct (leading_zeros_total 10 p off) as [[|] ->]; [lia| |eauto]. simpl.
  destruct (lookup_lt_is_Some_2 p (off + 10)) as [b Hb]; [lia|]. rewrite (rd_lookup _ _ _ Hb). simpl.
  destruct (ub b =? 255); simpl; [|eauto].
  destruct (lookup_lt_is_Some_2 p (off + 11)) as [c Hc]; [lia|]. rewrite (rd_lookup _ _ _ Hc). simpl.
  destruct (ub c =? 255); simpl; [|eauto].
  rewrite getU32_be, getU16_be by lia. simpl. destruct (valid _); simpl; eauto.
Qed.

Lemma leading_zeros_app pre rest : leading_zeros (pre ++ zeros 10 ++ rest) (length pre) 10 = Some true.
Proof.
  assert (forall n l, leading_zeros (l ++ zeros n ++ rest) (length l) n = Some true) as Hg; [|apply Hg].
  induction n as [|n IH]; intros l; cbn [leading_zeros]; [done|].
  change (zeros (S n)) with (Init.Byte.x00 :: zeros n). cbn [app].
  rewrite rd_middle by done.
  cbn [mbind option_bind]. change (ub Init.Byte.x00 =? 0) with true. cbv iota.
  specialize (IH (l ++ [Init.Byte.x00])). by rewrite length_app, <- app_assoc in IH.
Qed.

(** Reading back a written address field, at any position of a buffer. *)
Lemma getAddrPort_bytes pre ep rest : endpoint_wf ep ->
  getAddrPort (pre ++ addr_port_bytes ep ++ rest) (length pre)
  = Some (if valid ep then Some ep else None).
Proof.
  intros [Ha Hp]. unfold getAddrPort, addr_port_bytes. rewrite <- !app_assoc, leading_zeros_app.
  cbn [mbind option_bind negb].
  rewrite !(app_assoc pre (zeros 10)). cbn [app].
  rewrite (rd_middle (pre ++ zeros 10) _ _ (length pre + 10)) by by rewrite length_app.
  cbn [mbind option_bind]. rewrite ub_u8_small by lia. simpl negb. cbv iota.
  rewrite (cons_middle (u8 0xff)), (app_assoc (pre ++ zeros 10)).
  rewrite (rd_middle ((pre ++ zeros 10) ++ [u8 0xff])) by (rewrite !length_app; simpl; lia).
  cbn [mbind option_bind]. rewrite ub_u8_small by lia. simpl negb. cbv iota.
  set (q := ((pre ++ zeros 10) ++ [u8 0xff]) ++ [u8 0xff]).
  assert (length q = length pre + 12)%nat as HQ by (unfold q; rewrite !length_app; simpl; lia).
  assert (((pre ++ zeros 10) ++ [u8 255]) ++ u8 255 :: be_bytes 4 (address ep) ++ be_bytes 2 (port ep) ++ rest
     = q ++ be_bytes 4 (address ep) ++ be_bytes 2 (port ep) ++ rest) as ->.
  { unfold q. by rewrite <- (app_assoc ((pre ++ zeros 10) ++ [u8 255]) [u8 255]). }
  rewrite getU32_be by (rewrite !length_app, !length_be_bytes; lia).
  rewrite getU16_be by (rewrite !length_app, !length_be_bytes; lia).
  rewrite (drop_app_length' q _ (length pre + 12)) by lia.
  rewrite take_app_length' by by rewrite length_be_bytes.
  rewrite (app_assoc q), (drop_app_length' (q ++ _)) by (rewrite length_app, length_be_bytes; lia).
  rewrite take_app_length' by by rewrite length_be_bytes.
  rewrite !be_value_bytes by done. cbn [mbind option_bind].
  destruct ep as [a q']. simpl. by destruct (valid _).
Qed.

Definition valid_endpoints (eps : list IPv4Endpoint) : list IPv4Endpoint :=
  filter (fun ep => valid ep = true) eps.

Lemma read_endpoints_bytes eps : forall fuel pre acc,
  Forall endpoint_wf eps -> (length eps < fuel)%nat -> (length acc <= kMaxCandidates)%nat ->
  read_endpoints fuel (pre ++ concat (addr_port_bytes <$> eps)) (length pre) acc
  = Some (take kMaxCandidates (acc ++ valid_endpoints eps)).
Proof.
  induction eps as [|e eps IH]; intros [|fuel] pre acc Hwf Hf Ha; simpl in Hf; try lia;
    cbn [read_endpoints fmap list_fmap concat].
  - rewrite !app_nil_r, Nat.ltb_irrefl, take_ge by done. done.
  - apply Forall_cons_1 in Hwf as [He Hwf].
    rewrite (proj2 (Nat.ltb_lt _ _)).
    2: { rewrite !length_app, length_addr_port_bytes. unfold kAddrPortLen. lia. }
    destruct (Nat.leb_spec kMaxCandidates (length acc)).
    { rewrite take_app_le, take_ge by lia. done. }
    rewrite getAddrPort_bytes by done. cbn [mbind option_bind].
    rewrite app_assoc.
    replace (length pre + kAddrPortLen)%nat with (length (pre ++ addr_port_bytes e))
      by by rewrite length_app, length_addr_port_bytes.
    unfold valid_endpoints. rewrite filter_cons. destruct (valid e) eqn:Ev; simpl.
    + rewrite IH by (done || rewrite ?length_app; simpl; lia).
      rewrite <- app_assoc. done.
    + rewrite IH by (done || lia). done.
Qed.

Lemma read_endpoints_total fuel : forall body off acc,
  (exists k, length body = k * kAddrPortLen)%nat -> (exists k, off = k * kAddrPortLen)%nat ->
  exists r, read_endpoints fuel body off acc = Some r.
Proof.
  induction fuel as [|fuel IH]; intros body off acc Hb Ho; cbn [read_endpoints]; [eauto|].
  destruct (Nat.ltb_spec off (length body)); [|eauto].
  destruct (kMaxCandidates <=? length acc)%nat; [eauto|].
  destruct Hb as [kb Hb]. destruct Ho as [ko Ho].
  destruct (getAddrPort_total body off) as [r ->]; [unfold kAddrPortLen in *; lia|].
  cbn [mbind option_bind]. apply IH; [eauto|]. exists (S ko). lia.
Qed.

Lemma decodePlaintext_total plaintext : exists r, decodePlaintext plaintext = Some r.
Proof.
  unfold decodePlaintext. destruct (Nat.ltb_spec (length plaintext) 2); [eauto|].
  destruct (lookup_lt_is_Some_2 plaintext 0) as [t Ht]; [lia|]. rewrite (rd_lookup _ _ _ Ht).
  cbn [mbind option_bind]. set (body := drop 2 plaintext).
  case_match.
  { destruct (Nat.ltb_spec (length body) 12); [eauto|]. rewrite (rd_n_is_Some body 0 12) by lia.
    cbn [mbind option_bind]. destruct (Nat.leb_spec (12 + 32) (length body)); [|eauto].
    rewrite rd_n_is_Some by lia. eauto. }
  case_match.
  { destruct (Nat.ltb_spec (length body) (12 + kAddrPortLen)); [eauto|].
    rewrite rd_n_is_Some by lia. cbn [mbind option_bind].
    destruct (getAddrPort_total body 12) as [r ->]; [lia|]. eauto. }
  case_match; [|eauto].
  destruct (Nat.eqb_spec (length body mod kAddrPortLen) 0) as [Hm|]; simpl; [|eauto].
  edestruct (read_endpoints_total (length body) body 0 []) as [r ->]; [|by exists O|simpl; eauto].
  exists (length body / kAddrPortLen)%nat. pose proof (Nat.div_mod_eq (length body) kAddrPortLen) as HD.
  rewrite Hm, Nat.add_0_r, Nat.mul_comm in HD. done.
Qed.

(** [decodePlaintext] reads only inside the plaintext it is given, for every
    byte string a peer can send. *)
Theorem decodePlaintext_in_bounds plaintext : exists r, decodePlaintext plaintext = Some r.
Proof. apply decodePlaintext_total. Qed.

Lemma open_total x25519 poly1305 packet priv : exists r, open x25519 poly1305 packet priv = Some r.
Proof.
  unfold open. destruct (senderKey packet) as [k|]; [|eauto]. destruct (boxOpen _ _ _ _ _ _) as [p|e]; [|eauto].
  destruct (decodePlaintext_total p) as [m ->]. simpl. eauto.
Qed.

(** What the receiver of a message learns: the fields of its type, with
    unusable addresses dropped and call-me-maybe lists cut at 16. *)
Definition delivered (m : Message) : Message :=
  match type m with
  | Ping => {| type := Ping; txid := txid m; nodeKey := nodeKey m; hasNodeKey := true;
               source := no_endpoint; endpoints := [] |}
  | Pong => {| type := Pong; txid := txid m; nodeKey := zeros 32; hasNodeKey := false;
               source := if valid (source m) then source m else no_endpoint; endpoints := [] |}
  | CallMeMaybe => {| type := CallMeMaybe; txid := zeros 12; nodeKey := zeros 32;
                      hasNodeKey := false; source := no_endpoint;
                      endpoints := take kMaxCandidates (valid_endpoints (endpoints m)) |}
  end.

Lemma length_concat_addr eps :
  length (concat (addr_port_bytes <$> eps)) = (length eps * kAddrPortLen)%nat.
Proof.
  induction eps as [|e eps IH]; [done|]. cbn [fmap list_fmap concat].
  rewrite length_app, length_addr_port_bytes. simpl. by rewrite <- IH.
Qed.

Lemma decode_encode m : message_wf m ->
  decodePlaintext (encodePlaintext m) = Some (Some (delivered m)).
Proof.
  intros (Ht&Hk&Hs&He). unfold encodePlaintext, delivered, decodePlaintext. destruct (type m) eqn:E.
  - cbn [app length drop]. rewrite !drop_0. change (rd _ 0) with (Some (ub (u8 1))). rewrite ub_u8_small by lia.
    cbn [mbind option_bind]. change (1 =? MessageType_value Ping) with true. cbv iota.
    rewrite length_app, Ht, Hk. simpl Nat.ltb. simpl Nat.leb. cbv iota.
    unfold rd_n. rewrite length_app, Ht, Hk. simpl Nat.leb. cbv iota. cbn [mbind option_bind].
    rewrite drop_0, take_app_length', drop_app_length', take_ge by (done || lia). done.
  - rewrite putAddrPort_bytes. cbn [app length drop]. rewrite !drop_0.
    change (rd _ 0) with (Some (ub (u8 2))). rewrite ub_u8_small by lia.
    cbn [mbind option_bind]. change (2 =? MessageType_value Ping) with false.
    change (2 =? MessageType_value Pong) with true. cbv iota.
    rewrite length_app, Ht, length_addr_port_bytes. simpl Nat.ltb. cbv iota.
    unfold rd_n. rewrite length_app, Ht, length_addr_port_bytes. simpl Nat.leb. cbv iota.
    cbn [mbind option_bind]. rewrite drop_0, take_app_length' by done.
    pose proof (getAddrPort_bytes (txid m) (source m) [] Hs) as HG.
    rewrite app_nil_r, Ht in HG. rewrite HG. simpl. by destruct (valid (source m)).
  - rewrite foldl_putAddrPort. cbn [app length drop]. rewrite !drop_0.
    change (rd _ 0) with (Some (ub (u8 3))). rewrite ub_u8_small by lia.
    cbn [mbind option_bind]. change (3 =? MessageType_value Ping) with false.
    change (3 =? MessageType_value Pong) with false.
    change (3 =? MessageType_value CallMeMaybe) with true. cbv iota. simpl (S (S _) <? 2)%nat. cbv iota.
    rewrite length_concat_addr, Nat.Div0.mod_mul. simpl negb. cbv iota.
    destruct (endpoints m) as [|e eps] eqn:Ee; [done|].
    rewrite (read_endpoints_bytes (e :: eps) _ []) by (done || unfold kAddrPortLen; simpl; lia).
    done.
Qed.

(** Every message a peer encodes is decoded to what it said. *)
Theorem decodePlaintext_encodePlaintext m : message_wf m ->
  decodePlaintext (encodePlaintext m) = Some (Some (delivered m)).
Proof. apply decode_encode. Qed.

Lemma looksLikeDisco_header k n b : length k = 32%nat -> length n = 24%nat ->
  looksLikeDisco (kMagic ++ k ++ n ++ b) = true.
Proof.
  intros Hk Hn. unfold looksLikeDisco. rewrite take_app_length' by done.
  rewrite bool_decide_true, andb_true_r by done. apply Z.leb_le.
  unfold kHeaderLen, kNonceLen, zlen. rewrite !length_app, Hk, Hn. lia.
Qed.

(** The two ends of a disco exchange: a packet sealed with [myPrivate] for
    the owner of [theirPrivate] is recognised, names the sender's key, and
    opens to the delivered message. [Hdh] is the Diffie-Hellman agreement of
    X25519, [Hok] that the shared secret is not the all-zero weak value. *)
Theorem open_seal (x25519 poly1305 : bytes -> bytes -> bytes)
    (Hlen : forall m k, length (poly1305 m k) = 16%nat)
    m myPrivate myPublic theirPrivate theirPublic nonce
    (Hdh : x25519 theirPrivate myPublic = x25519 myPrivate theirPublic)
    (Hok : all_zero (x25519 myPrivate theirPublic) = false)
    (Hm : message_wf m) (Hk : length myPublic = 32%nat) (Hn : length nonce = 24%nat) :
  let packet := seal x25519 poly1305 m myPrivate myPublic theirPublic nonce in
  looksLikeDisco packet = true /\ senderKey packet = Some myPublic /\
  open x25519 poly1305 packet theirPrivate
  = Some (Some {| sender := myPublic; message := delivered m |}).
Proof.
  intros packet. unfold packet, seal.
  pose proof (boxSeal_cases x25519 poly1305 Hlen (encodePlaintext m) myPrivate theirPublic nonce) as HS.
  rewrite Hok in HS. destruct HS as (c&Hc&_). rewrite Hc.
  pose proof (looksLikeDisco_header myPublic nonce c Hk Hn) as HL.
  assert (senderKey (kMagic ++ myPublic ++ nonce ++ c) = Some myPublic) as HSK.
  { unfold senderKey. rewrite HL. simpl negb. cbv iota. unfold slice.
    change (Z.to_nat 6) with 6%nat. change (Z.to_nat 32) with 32%nat.
    by rewrite drop_app_length', take_app_length' by done. }
  split_and!; [done|done|]. unfold open. rewrite HSK. unfold slice.
  change (Z.to_nat 38) with 38%nat. change (Z.to_nat 24) with 24%nat.
  rewrite (app_assoc kMagic), (drop_app_length' (kMagic ++ myPublic) _ 38)
    by by rewrite length_app, Hk.
  rewrite take_app_length' by done.
  rewrite (app_assoc _ nonce), (drop_app_length' ((kMagic ++ myPublic) ++ nonce) _ 62)
    by by rewrite !length_app, Hk, Hn.
  rewrite (boxSeal_agree _ _ _ _ myPublic theirPrivate) in Hc by done.
  apply boxOpen_boxSeal_same in Hc; [|done]. rewrite Hc, decode_encode by done. done.
Qed.

Definition ping_message : Message :=
  {| type := Ping; txid := replicate 12 (u8 7); nodeKey := replicate 32 (u8 9); hasNodeKey := true;
     source := no_endpoint; endpoints := [] |}.

Lemma ping_message_wf : message_wf ping_message.
Proof. repeat split; cbn; try lia. constructor. Qed.

Lemma decodePlaintext_encodePlaintext_witness :
  decodePlaintext (encodePlaintext ping_message) = Some (Some ping_message).
Proof. apply (decodePlaintext_encodePlaintext ping_message ping_message_wf). Defined.

Lemma open_seal_witness :
  let packet := seal toy_x25519 toy_poly1305 ping_message (toy_key 1) (toy_key 1) (toy_key 2) (zeros 24) in
  looksLikeDisco packet = true /\ senderKey packet = Some (toy_key 1) /\
  open toy_x25519 toy_poly1305 packet (toy_key 2)
  = Some (Some {| sender := toy_key 1; message := ping_message |}).
Proof.
  apply (open_seal toy_x25519 toy_poly1305 length_toy_poly1305 ping_message (toy_key 1) (toy_key 1)
    (toy_key 2) (toy_key 2) (zeros 24)); [apply toy_x25519_sym|vm_compute; reflexivity|
    exact ping_message_wf|reflexivity|reflexivity].
Defined.
