(* ===== verification/Stun.v ===== *)
(** STUN binding ([TailscaleDisco.cpp], namespace [stun]): the request
    Tailscale's servers accept, with its CRC-32 fingerprint, and the parser of
    the response that reports this node's public endpoint. *)

From S2P Require Import Prelude Bytes Endpoint Disco.

Definition kMagicCookie : Z := 0x2112A442.
Definition kStunHeaderLen : nat := 20.
Definition kStunBindingRequest : Z := 0x0001.
Definition kStunBindingSuccess : Z := 0x0101.
Definition kStunAttrMappedAddress : Z := 0x0001.
Definition kStunAttrXorMappedAddress : Z := 0x0020.

(** ** Fingerprint *)

(** One bit of the CRC: [crc = (crc >> 1) ^ (poly & (0 - (crc & 1)))]. *)
Definition crc_bit (crc : Z) : Z :=
  Z.lxor (Z.shiftr crc 1) (Z.land 0xedb88320 (u32 (0 - Z.land crc 1))).
Definition crc_byte (crc : Z) (b : byte) : Z := Nat.iter 8 crc_bit (Z.lxor crc (ub b)).
Definition fingerprint (l : bytes) : Z :=
  let crc := foldl crc_byte 0xffffffff l in
  Z.lxor (Z.lxor crc 0xffffffff) 0x5354554e.

(** ** Request *)

Definition kSoftware : bytes := bs "tailnode".

Definition bindingRequest (tx : bytes) : bytes :=
  let kAttrSoftware := 0x8022 in
  let kAttrFingerprint := 0x8028 in
  let kSoftwareAttrLen := 4 + zlen kSoftware in
  let kFingerprintAttrLen := 4 + 4 in
  let out := putU16 [] kStunBindingRequest in
  let out := putU16 out (kSoftwareAttrLen + kFingerprintAttrLen) in
  let out := putU32 out kMagicCookie in
  let out := out ++ tx in
  let out := putU16 out kAttrSoftware in
  let out := putU16 out (u16 (zlen kSoftware)) in
  let out := out ++ kSoftware in
  let fp := fingerprint out in
  let out := putU16 out kAttrFingerprint in
  let out := putU16 out 4 in
  putU32 out fp.

(** ** Response. Outer [None]s are out-of-bounds reads, as in [Endpoint]. *)

Definition looksLikeStun (packet : bytes) : option bool :=
  if negb (kStunHeaderLen <=? length packet)%nat then Some false else
  b0 ← rd packet 0;
  if negb (Z.land b0 0xc0 =? 0) then Some false else
  cookie ← getU32 packet 4;
  Some (cookie =? kMagicCookie).

(** The address attribute test and decoding, for the attribute whose value
    starts at [value]: [Some (Some (is_xor, ep))] when it is one. The reads
    follow the short-circuit order of the source. *)
Definition read_mapped (packet : bytes) (atype : Z) (attrLen value : nat)
  : option (option (bool * IPv4Endpoint)) :=
  if ((atype =? kStunAttrXorMappedAddress) || (atype =? kStunAttrMappedAddress)) &&
     (8 <=? attrLen)%nat then
    family ← rd packet (value + 1);
    if negb (family =? 0x01) then Some None else
    q ← getU16 packet (value + 2);
    a ← getU32 packet (value + 4);
    if atype =? kStunAttrXorMappedAddress
    then Some (Some (true, {| address := Z.lxor a kMagicCookie;
                              port := Z.lxor q (u16 (Z.shiftr kMagicCookie 16)) |}))
    else Some (Some (false, {| address := a; port := q |}))
  else Some None.

(** [(attrLen + 3U) & ~std::size_t{3}] *)
Definition padded (attrLen : nat) : nat := Z.to_nat (Z.land (Z.of_nat attrLen + 3) (Z.lnot 3)).

(** The attribute loop; [off] grows by at least four each round. *)
Fixpoint attributes_loop (fuel : nat) (packet : bytes) (off end_ : nat)
    (mapped : option IPv4Endpoint) : option (option IPv4Endpoint) :=
  match fuel with
  | O => Some mapped
  | S k =>
      if (off + 4 <=? end_)%nat then
        atype ← getU16 packet off;
        len ← getU16 packet (off + 2);
        let attrLen := Z.to_nat len in
        let value := (off + 4)%nat in
        if (end_ <? value + attrLen)%nat then Some mapped
        else
          r ← read_mapped packet atype attrLen value;
          let next := (value + padded attrLen)%nat in
          match r with
          | Some (true, ep) =>
              if valid ep then Some (Some ep) else attributes_loop k packet next end_ mapped
          | Some (false, ep) =>
              attributes_loop k packet next end_
                (match mapped with
                 | Some _ => mapped
                 | None => if valid ep then Some ep else mapped
                 end)
          | None => attributes_loop k packet next end_ mapped
          end
      else Some mapped
  end.

Definition parseBindingResponse (packet tx : bytes) : option (option IPv4Endpoint) :=
  stun ← looksLikeStun packet;
  if negb stun then Some None else
  mtype ← getU16 packet 0;
  if negb (mtype =? kStunBindingSuccess) then Some None else
  id ← rd_n packet 8 12;
  if negb (bool_decide (tx = id)) then Some None else
  len ← getU16 packet 2;
  let len := Z.to_nat len in
  if (length packet <? kStunHeaderLen + len)%nat then Some None else
  attributes_loop len packet kStunHeaderLen (kStunHeaderLen + len) None.

(** ** Facts *)

Lemma padded_spec n : (padded n = 4 * ((n + 3) / 4))%nat.
Proof.
  unfold padded. apply Nat2Z.inj. rewrite Z2Nat.id.
  2: { apply Z.land_nonneg. left. lia. }
  assert (Z.lnot 3 = Z.shiftl (-1) 2) as -> by done.
  rewrite Nat2Z.inj_mul, Nat2Z.inj_div. replace (Z.of_nat (n + 3)) with (Z.of_nat n + 3) by lia.
  set (v := Z.of_nat n + 3). change (Z.of_nat 4) with (2 ^ 2).
  rewrite Z.mul_comm, <- Z.shiftr_div_pow2, <- Z.shiftl_mul_pow2 by lia.
  apply Z.bits_inj'. intros i Hi. rewrite Z.land_spec.
  destruct (Z.lt_ge_cases i 2).
  - rewrite !Z.shiftl_spec_low by done. apply andb_false_r.
  - rewrite !Z.shiftl_spec, Z.shiftr_spec, Z.bits_m1 by lia. rewrite andb_true_r. f_equal. lia.
Qed.

Lemma padded_bounds n : (n <= padded n <= n + 3)%nat.
Proof.
  rewrite padded_spec. pose proof (Nat.div_mod_eq (n + 3) 4).
  pose proof (Nat.mod_upper_bound (n + 3) 4). lia.
Qed.

Lemma getU16_total p off : (off + 2 <= length p)%nat -> exists v, getU16 p off = Some v.
Proof. intros. rewrite getU16_be by done. eauto. Qed.
Lemma getU32_total p off : (off + 4 <= length p)%nat -> exists v, getU32 p off = Some v.
Proof. intros. rewrite getU32_be by done. eauto. Qed.

Lemma read_mapped_total packet t n v : (v + n <= length packet)%nat ->
  exists r, read_mapped packet t n v = Some r.
Proof.
  intros H. unfold read_mapped. destruct (_ || _); cbn [andb]; [|eauto].
  destruct (Nat.leb_spec 8 n); [|eauto].
  destruct (lookup_lt_is_Some_2 packet (v + 1)) as [b Hb]; [lia|].
  rewrite (rd_lookup _ _ _ Hb). cbn [mbind option_bind].
  destruct (negb _); [eauto|]. destruct (getU16_total packet (v + 2)) as [q ->]; [lia|].
  destruct (getU32_total packet (v + 4)) as [a ->]; [lia|]. cbn [mbind option_bind].
  destruct (t =? _); eauto.
Qed.

Lemma attributes_loop_total fuel : forall packet off end_ mapped,
  (end_ <= length packet)%nat -> exists r, attributes_loop fuel packet off end_ mapped = Some r.
Proof.
  induction fuel as [|k IH]; intros packet off end_ mapped He; cbn [attributes_loop]; [eauto|].
  destruct (Nat.leb_spec (off + 4) end_); [|eauto].
  destruct (getU16_total packet off) as [t ->]; [lia|].
  destruct (getU16_total packet (off + 2)) as [l ->]; [lia|]. cbn [mbind option_bind].
  destruct (Nat.ltb_spec end_ (off + 4 + Z.to_nat l)); [eauto|].
  destruct (read_mapped_total packet t (Z.to_nat l) (off + 4)) as [r ->]; [lia|].
  cbn [mbind option_bind]. destruct r as [[[] ep]|]; try apply IH; try done.
  destruct (valid ep); [eauto|by apply IH].
Qed.

Lemma looksLikeStun_total packet : exists r, looksLikeStun packet = Some r.
Proof.
  unfold looksLikeStun, kStunHeaderLen. destruct (Nat.leb_spec 20 (length packet)); simpl; [|eauto].
  destruct (lookup_lt_is_Some_2 packet 0) as [b Hb]; [lia|].
  rewrite (rd_lookup _ _ _ Hb). cbn [mbind option_bind]. destruct (negb _); [eauto|].
  destruct (getU32_total packet 4) as [v ->]; [lia|]. simpl. eauto.
Qed.

Lemma looksLikeStun_length packet : looksLikeStun packet = Some true -> (20 <= length packet)%nat.
Proof. unfold looksLikeStun, kStunHeaderLen. by destruct (Nat.leb_spec 20 (length packet)). Qed.

Lemma parseBindingResponse_total packet tx :
  exists r, parseBindingResponse packet tx = Some r.
Proof.
  unfold parseBindingResponse. destruct (looksLikeStun_total packet) as [[|] HS];
    rewrite HS; cbn [mbind option_bind negb]; [|eauto].
  apply looksLikeStun_length in HS.
  destruct (getU16_total packet 0) as [t ->]; [lia|]. cbn [mbind option_bind].
  destruct (negb _); [eauto|]. rewrite rd_n_is_Some by lia. cbn [mbind option_bind].
  destruct (negb _); [eauto|]. destruct (getU16_total packet 2) as [l ->]; [lia|].
  cbn [mbind option_bind]. destruct (Nat.ltb_spec (length packet) (kStunHeaderLen + Z.to_nat l)); [eauto|].
  apply attributes_loop_total. lia.
Qed.

(** Whatever arrives on the UDP socket, [parseBindingResponse] reads only
    inside the packet. *)
Theorem parseBindingResponse_in_bounds packet tx :
  exists r, parseBindingResponse packet tx = Some r.
Proof. apply parseBindingResponse_total. Qed.

(** A mapped address is usable. *)
Lemma attributes_loop_valid fuel : forall packet off end_ mapped ep,
  (forall e, mapped = Some e -> valid e = true) ->
  attributes_loop fuel packet off end_ mapped = Some (Some ep) -> valid ep = true.
Proof.
  induction fuel as [|fuel IH]; intros packet off end_ mapped ep Hm; cbn [attributes_loop]; [intros [= ->]; by apply Hm|].
  destruct (_ <=? _)%nat; [|intros [= ->]; by apply Hm].
  destruct (getU16 packet off) as [t|]; cbn [mbind option_bind]; [|done].
  destruct (getU16 packet (off + 2)) as [n|]; cbn [mbind option_bind]; [|done].
  destruct (_ <? _)%nat; [intros [= ->]; by apply Hm|].
  destruct (read_mapped _ _ _ _) as [[[[] e]|]|]; cbn [mbind option_bind]; [| | |done].
  - destruct (valid e) eqn:Ev; [by intros [= <-]|by apply IH].
  - apply IH. destruct mapped as [m|]; [done|]. destruct (valid e) eqn:Ev; [by intros ? [= <-]|done].
  - by apply IH.
Qed.

Lemma parseBindingResponse_valid packet tx ep : parseBindingResponse packet tx = Some (Some ep) -> valid ep = true.
Proof.
  unfold parseBindingResponse. intros E. apply bind_Some in E as (stun&_&E). destruct (negb stun); [done|].
  apply bind_Some in E as (t&_&E). destruct (negb _); [done|]. apply bind_Some in E as (id&_&E).
  destruct (negb _); [done|]. apply bind_Some in E as (n&_&E). cbv zeta in E. destruct (_ <? _)%nat; [done|].
  by eapply attributes_loop_valid in E.
Qed.

(** ** What the response means: a list of attributes *)

Definition attribute : Type := Z * bytes.
Definition attr_wf (a : attribute) : Prop := 0 <= a.1 < 2 ^ 16 /\ zlen a.2 < 2 ^ 16.

Definition attr_bytes (a : attribute) : bytes :=
  be_bytes 2 a.1 ++ be_bytes 2 (zlen a.2) ++ a.2 ++ zeros (padded (length a.2) - length a.2).

Definition response (tx : bytes) (attrs : list attribute) : bytes :=
  let body := concat (attr_bytes <$> attrs) in
  be_bytes 2 kStunBindingSuccess ++ be_bytes 2 (zlen body) ++ be_bytes 4 kMagicCookie ++ tx ++ body.

(** The endpoint an attribute reports, and whether it is the XOR form. *)
Definition attr_endpoint (a : attribute) : option (bool * IPv4Endpoint) :=
  if ((a.1 =? kStunAttrXorMappedAddress) || (a.1 =? kStunAttrMappedAddress)) &&
     (8 <=? length a.2)%nat && bool_decide (a.2 !! 1%nat = Some (u8 1)) then
    let q := be_value (slice 2 2 a.2) in
    let v := be_value (slice 4 4 a.2) in
    if a.1 =? kStunAttrXorMappedAddress
    then Some (true, {| address := Z.lxor v kMagicCookie;
                        port := Z.lxor q (u16 (Z.shiftr kMagicCookie 16)) |})
    else Some (false, {| address := v; port := q |})
  else None.

(** The first usable XOR-MAPPED-ADDRESS; failing that, the first usable
    MAPPED-ADDRESS. *)
Fixpoint select (attrs : list attribute) (mapped : option IPv4Endpoint) : option IPv4Endpoint :=
  match attrs with
  | [] => mapped
  | a :: rest =>
      match attr_endpoint a with
      | Some (true, ep) => if valid ep then Some ep else select rest mapped
      | Some (false, ep) =>
          select rest (match mapped with
                       | Some _ => mapped
                       | None => if valid ep then Some ep else None end)
      | None => select rest mapped
      end
  end.

Lemma length_attr_bytes a : length (attr_bytes a) = (4 + padded (length a.2))%nat.
Proof.
  unfold attr_bytes, zeros. rewrite !length_app, !length_be_bytes, length_replicate.
  pose proof (padded_bounds (length a.2)). lia.
Qed.

Lemma take_drop_app3 {A} (pre mid rest : list A) n k :
  n = length pre -> k = length mid -> take k (drop n (pre ++ mid ++ rest)) = mid.
Proof. intros -> ->. by rewrite drop_app_length, take_app_length. Qed.

Lemma slice_in (pre v rest : bytes) (i n : nat) : (i + n <= length v)%nat ->
  take n (drop (length pre + i) (pre ++ v ++ rest)) = take n (drop i v).
Proof.
  intros H. rewrite drop_app, drop_ge, app_nil_l by lia.
  replace (length pre + i - length pre)%nat with i by lia.
  rewrite drop_app_le, take_app_le by (rewrite ?length_drop; lia). done.
Qed.

Lemma read_mapped_attr pre a rest : 
  read_mapped (pre ++ a.2 ++ rest) a.1 (length a.2) (length pre) = Some (attr_endpoint a).
Proof.
  unfold read_mapped, attr_endpoint. destruct (_ || _); cbn [andb]; [|done].
  destruct (Nat.leb_spec 8 (length a.2)) as [H8|]; cbn [andb]; [|done].
  destruct (lookup_lt_is_Some_2 a.2 1) as [f Hf]; [lia|].
  rewrite (rd_lookup _ (length pre + 1) f).
  2: { rewrite lookup_app_r by lia. replace (length pre + 1 - length pre)%nat with 1%nat by lia.
       by rewrite lookup_app_l by lia. }
  cbn [mbind option_bind]. rewrite Hf.
  destruct (Z.eqb_spec (ub f) 1) as [E|E]; cbn [negb].
  2: { rewrite bool_decide_false; [done|]. intros [= ->]. by rewrite ub_u8_small in E. }
  rewrite bool_decide_true by (f_equal; apply ub_inj; by rewrite ub_u8_small).
  rewrite getU16_be, getU32_be by (rewrite !length_app; lia). cbn [mbind option_bind].
  rewrite !slice_in by lia. unfold slice. simpl. by destruct (_ =? _).
Qed.

Lemma attributes_loop_attrs attrs : forall fuel pre rest mapped,
  Forall attr_wf attrs -> (length attrs < fuel)%nat ->
  attributes_loop fuel (pre ++ concat (attr_bytes <$> attrs) ++ rest) (length pre)
    (length pre + length (concat (attr_bytes <$> attrs))) mapped = Some (select attrs mapped).
Proof.
  induction attrs as [|a attrs IH]; intros [|fuel] pre rest mapped Hwf Hf; simpl in Hf; try lia;
    cbn [attributes_loop fmap list_fmap concat].
  - destruct (Nat.leb_spec (length pre + 4) (length pre + length (@nil byte))); [simpl in *; lia|done].
  - apply Forall_cons_1 in Hwf as [[Ht Hl] Hwf]. rewrite length_app, length_attr_bytes.
    set (tail := concat (attr_bytes <$> attrs)). pose proof (padded_bounds (length a.2)) as Hpad.
    destruct (Nat.leb_spec (length pre + 4) (length pre + (4 + padded (length a.2) + length tail))); [|lia].
    set (z := zeros (padded (length a.2) - length a.2)).
    assert (pre ++ (attr_bytes a ++ tail) ++ rest
      = (pre ++ be_bytes 2 a.1 ++ be_bytes 2 (zlen a.2)) ++ a.2 ++ z ++ tail ++ rest) as Hp.
    { unfold attr_bytes. fold z. by rewrite <- !app_assoc. }
    assert (length (pre ++ be_bytes 2 a.1 ++ be_bytes 2 (zlen a.2)) = length pre + 4)%nat as Hpl.
    { rewrite !length_app, !length_be_bytes. lia. }
    rewrite getU16_be by (rewrite Hp, length_app, Hpl; lia).
    rewrite getU16_be by (rewrite Hp, length_app, Hpl; lia).
    assert (take 2 (drop (length pre) (pre ++ (attr_bytes a ++ tail) ++ rest)) = be_bytes 2 a.1) as ->.
    { rewrite Hp, <- !app_assoc. apply take_drop_app3; [done|by rewrite length_be_bytes]. }
    assert (take 2 (drop (length pre + 2) (pre ++ (attr_bytes a ++ tail) ++ rest))
      = be_bytes 2 (zlen a.2)) as ->.
    { rewrite Hp, <- !app_assoc, app_assoc. apply take_drop_app3; [|by rewrite length_be_bytes].
      by rewrite length_app, length_be_bytes. }
    rewrite !be_value_bytes by (done || (split; [apply zlen_nonneg|done])).
    cbn [mbind option_bind]. rewrite to_nat_zlen.
    rewrite (proj2 (Nat.ltb_ge _ _)) by lia.
    rewrite Hp. rewrite <- Hpl, read_mapped_attr. cbn [mbind option_bind select].
    rewrite <- Hp, Hpl.
    assert (forall mp, attributes_loop fuel (pre ++ (attr_bytes a ++ tail) ++ rest)
      (length pre + 4 + padded (length a.2))
      (length pre + (4 + padded (length a.2) + length tail)) mp = Some (select attrs mp)) as HIH.
    { intros mp. specialize (IH fuel (pre ++ attr_bytes a) rest mp Hwf ltac:(lia)).
      rewrite length_app, length_attr_bytes, <- !app_assoc in IH. fold tail in IH.
      rewrite <- app_assoc. rewrite <- IH. f_equal; lia. }
    destruct (attr_endpoint a) as [[[] ep]|]; [destruct (valid ep)|..]; rewrite ?HIH; try done.
    by destruct mapped.
Qed.

(** The header of a response, read back. *)
Lemma response_header tx attrs rest :
  length tx = 12%nat -> zlen (concat (attr_bytes <$> attrs)) < 2 ^ 16 ->
  let body := concat (attr_bytes <$> attrs) in
  let packet := response tx attrs ++ rest in
  (exists h, packet = h ++ body ++ rest /\ length h = 20%nat) /\
  getU16 packet 0 = Some kStunBindingSuccess /\ getU16 packet 2 = Some (zlen body) /\
  getU32 packet 4 = Some kMagicCookie /\ rd_n packet 8 12 = Some tx /\ rd packet 0 = Some 1.
Proof.
  intros Htx Hsz body packet.
  set (h := be_bytes 2 kStunBindingSuccess ++ be_bytes 2 (zlen body) ++ be_bytes 4 kMagicCookie ++ tx).
  assert (length h = 20%nat) as Hh.
  { unfold h. rewrite !length_app, !length_be_bytes, Htx. done. }
  assert (packet = h ++ body ++ rest) as E.
  { unfold packet, response, h. fold body. by rewrite <- !app_assoc. }
  assert (length packet = 20 + length body + length rest)%nat as Hpk.
  { rewrite E, !length_app. lia. }
  split; [by exists h|]. split_and!.
  - rewrite getU16_be by lia. rewrite E. unfold h. rewrite <- !app_assoc, drop_0.
    by rewrite take_app_length', be_value_bytes by by rewrite ?length_be_bytes.
  - rewrite getU16_be by lia. rewrite E. unfold h. rewrite <- !app_assoc.
    rewrite (take_drop_app3 (be_bytes 2 kStunBindingSuccess)) by by rewrite length_be_bytes.
    by rewrite be_value_bytes by by (split; [apply zlen_nonneg|]).
  - rewrite getU32_be by lia. rewrite E. unfold h. rewrite <- !app_assoc.
    rewrite (app_assoc (be_bytes 2 kStunBindingSuccess)).
    rewrite (take_drop_app3 (be_bytes 2 kStunBindingSuccess ++ be_bytes 2 (zlen body)))
      by by rewrite ?length_app, ?length_be_bytes. by rewrite be_value_bytes.
  - rewrite rd_n_is_Some by lia. rewrite E. unfold h. rewrite <- !app_assoc.
    rewrite (app_assoc (be_bytes 2 kStunBindingSuccess)),
      (app_assoc (be_bytes 2 kStunBindingSuccess ++ _)).
    rewrite take_drop_app3; [done| |done]. by rewrite !length_app, !length_be_bytes.
  - rewrite E. unfold h. rewrite <- !app_assoc. vm_compute (be_bytes 2 kStunBindingSuccess). done.
Qed.

Lemma length_attrs (l : list attribute) : (length l <= length (concat (attr_bytes <$> l)))%nat.
Proof.
  induction l as [|x l IH]; cbn [fmap list_fmap concat length]; [done|].
  rewrite length_app, length_attr_bytes. lia.
Qed.

(** The parser computes exactly the specified choice on every well-formed
    success response, whatever attributes it carries and whatever bytes trail
    it: an XOR-MAPPED-ADDRESS anywhere wins over a legacy MAPPED-ADDRESS. *)
Theorem parseBindingResponse_spec tx attrs rest :
  length tx = 12%nat -> Forall attr_wf attrs ->
  zlen (concat (attr_bytes <$> attrs)) < 2 ^ 16 ->
  parseBindingResponse (response tx attrs ++ rest) tx = Some (select attrs None).
Proof.
  intros Htx Hwf Hsz. destruct (response_header tx attrs rest Htx Hsz) as ((h&E&Hh)&H0&H2&H4&H8&Hr).
  set (packet := response tx attrs ++ rest) in *. set (body := concat (attr_bytes <$> attrs)) in *.
  assert (length packet = 20 + length body + length rest)%nat as Hpk by (rewrite E, !length_app; lia).
  assert (looksLikeStun packet = Some true) as HL.
  { unfold looksLikeStun, kStunHeaderLen. rewrite (proj2 (Nat.leb_le _ _)) by lia. simpl negb. cbv iota.
    rewrite Hr. cbn [mbind option_bind].
    change (Z.land 1 0xc0 =? 0) with true. simpl negb. cbv iota. by rewrite H4. }
  unfold parseBindingResponse. rewrite HL, H0, H8, H2. cbn [mbind option_bind negb].
  rewrite Z.eqb_refl, bool_decide_true by done. simpl negb. cbv iota. rewrite to_nat_zlen.
  unfold kStunHeaderLen at 1. rewrite (proj2 (Nat.ltb_ge _ _)) by lia. rewrite E.
  destruct attrs as [|a attrs]; [done|].
  change kStunHeaderLen with 20%nat. rewrite <- Hh.
  apply attributes_loop_attrs; [done|].
  unfold body. pose proof (length_attrs attrs) as Hl. cbn [fmap list_fmap concat length].
  rewrite length_app, length_attr_bytes. unfold list_fmap in *. simpl in *. lia.
Qed.

(** The attribute a server writes to report [ep]. *)
Definition xor_mapped (ep : IPv4Endpoint) : attribute :=
  (kStunAttrXorMappedAddress,
   [u8 0; u8 1] ++ be_bytes 2 (Z.lxor (port ep) (u16 (Z.shiftr kMagicCookie 16)))
   ++ be_bytes 4 (Z.lxor (address ep) kMagicCookie)).

(** A server's report of this node's public endpoint is learned exactly,
    also behind attributes this client does not know. *)
Theorem parseBindingResponse_learns tx others ep rest :
  length tx = 12%nat -> Forall attr_wf others -> Forall (fun a => attr_endpoint a = None) others ->
  zlen (concat (attr_bytes <$> others)) < 2 ^ 15 ->
  endpoint_wf ep -> valid ep = true ->
  parseBindingResponse (response tx (others ++ [xor_mapped ep]) ++ rest) tx = Some (Some ep).
Proof.
  intros Htx Hwf Hno Hsz [Ha Hp] Hv. rewrite parseBindingResponse_spec; [|done|..].
  - f_equal. rewrite <- (app_nil_r [xor_mapped ep]).
    assert (forall l, Forall (fun a => attr_endpoint a = None) l ->
      select (l ++ [xor_mapped ep] ++ []) None = select ([xor_mapped ep] ++ []) None) as ->.
    { induction 1 as [|x l Hx Hl IH]; [done|]. simpl. by rewrite Hx. }
    2: done.
    pose proof (lxor_range (port ep) (u16 (Z.shiftr kMagicCookie 16)) 16 ltac:(lia) Hp ltac:(done)) as Hxp.
    pose proof (lxor_range (address ep) kMagicCookie 32 ltac:(lia) Ha ltac:(done)) as Hxa.
    cbn [app select]. unfold attr_endpoint, xor_mapped. cbn [fst snd].
    rewrite Z.eqb_refl. cbn [orb andb].
    assert (slice 2 2 ([u8 0; u8 1] ++ be_bytes 2 (Z.lxor (port ep) (u16 (Z.shiftr kMagicCookie 16)))
      ++ be_bytes 4 (Z.lxor (address ep) kMagicCookie)) =
      be_bytes 2 (Z.lxor (port ep) (u16 (Z.shiftr kMagicCookie 16)))) as ->.
    { apply take_drop_app3; [done|by rewrite length_be_bytes]. }
    assert (slice 4 4 ([u8 0; u8 1] ++ be_bytes 2 (Z.lxor (port ep) (u16 (Z.shiftr kMagicCookie 16)))
      ++ be_bytes 4 (Z.lxor (address ep) kMagicCookie)) =
      be_bytes 4 (Z.lxor (address ep) kMagicCookie)) as ->.
    { unfold slice. rewrite app_assoc, drop_app_length' by by rewrite length_app, length_be_bytes.
      by rewrite take_ge by by rewrite length_be_bytes. }
    rewrite !length_app, !length_be_bytes, !be_value_bytes by done. cbn [length Nat.leb Nat.add andb].
    rewrite bool_decide_true by done.
    rewrite !Z.lxor_assoc, !Z.lxor_nilpotent, !Z.lxor_0_r.
    replace {| address := address ep; port := port ep |} with ep by by destruct ep. by rewrite Hv.
  - apply Forall_app. split; [done|]. repeat constructor; try done.
  - rewrite fmap_app, concat_app, zlen_app.
    assert (zlen (concat (attr_bytes <$> [xor_mapped ep])) = 12) as ->; [|lia].
    cbn [fmap list_fmap concat]. unfold zlen. rewrite app_nil_r, length_attr_bytes.
    unfold xor_mapped. cbn [snd]. by rewrite !length_app, !length_be_bytes.
Qed.

(** ** The request, and telling the protocols on one socket apart *)

Lemma land_range a b n : 0 < n -> 0 <= a < 2 ^ n -> 0 <= b -> 0 <= Z.land a b < 2 ^ n.
Proof.
  intros Hn Ha Hb. rewrite <- (Z.mod_small a (2 ^ n)) at 1 2 by done.
  rewrite <- Z.land_ones, <- Z.land_assoc, (Z.land_comm (Z.ones n)), Z.land_assoc, Z.land_ones by lia.
  apply Z.mod_pos_bound. lia.
Qed.

Lemma crc_bit_range c : 0 <= c < 2 ^ 32 -> 0 <= crc_bit c < 2 ^ 32.
Proof.
  intros Hc. unfold crc_bit. apply lxor_range; [lia| |].
  - rewrite Z.shiftr_div_pow2 by lia. change (2 ^ 1) with 2.
    split; [apply Z.div_pos; lia|]. apply Z.div_lt_upper_bound; lia.
  - apply land_range; [lia..|]. apply Z.mod_pos_bound. lia.
Qed.

Lemma fingerprint_range l : 0 <= fingerprint l < 2 ^ 32.
Proof.
  assert (forall n c, 0 <= c < 2 ^ 32 -> 0 <= Nat.iter n crc_bit c < 2 ^ 32) as Hi.
  { induction n as [|n IH]; intros c Hc; simpl; [done|]. by apply crc_bit_range, IH. }
  assert (forall c, 0 <= c < 2 ^ 32 -> 0 <= foldl crc_byte c l < 2 ^ 32) as Hf.
  { induction l as [|b l IH]; intros c Hc; cbn [foldl]; [done|]. apply IH, Hi.
    apply lxor_range; [lia|done|]. ub_bounds. lia. }
  unfold fingerprint. apply lxor_range; [lia| |done]. apply lxor_range; [lia| |done]. by apply Hf.
Qed.

(** Everything of the request that precedes the fingerprint attribute. *)
Definition request_head (tx : bytes) : bytes :=
  be_bytes 2 kStunBindingRequest ++ be_bytes 2 20 ++ be_bytes 4 kMagicCookie ++ tx ++
  be_bytes 2 0x8022 ++ be_bytes 2 8 ++ kSoftware.

Lemma bindingRequest_bytes tx :
  bindingRequest tx = request_head tx ++ be_bytes 2 0x8028 ++ be_bytes 2 4
                      ++ be_bytes 4 (fingerprint (request_head tx)).
Proof.
  assert (putU16 (putU16 (putU32 (putU16 (putU16 [] kStunBindingRequest)
      (4 + zlen kSoftware + (4 + 4))) kMagicCookie ++ tx) 0x8022) (u16 (zlen kSoftware)) ++ kSoftware
    = request_head tx) as Hh.
  { unfold request_head. rewrite !putU16_be, putU32_be, <- !app_assoc. reflexivity. }
  unfold bindingRequest. cbv zeta. rewrite Hh.
  generalize (fingerprint (request_head tx)) (request_head tx). intros fp h.
  by rewrite putU32_be, !putU16_be, <- !app_assoc.
Qed.

#[local] Transparent be_bytes.

(** The binding request is a 40-byte STUN message whose length field counts
    its attributes and whose last attribute is the fingerprint of everything
    before it, which is what Tailscale's servers check before answering. *)
Theorem bindingRequest_wellformed tx : length tx = 12%nat ->
  let r := bindingRequest tx in
  length r = 40%nat /\ looksLikeStun r = Some true /\ looksLikeDisco r = false /\
  getU16 r 0 = Some kStunBindingRequest /\ getU16 r 2 = Some 20 /\
  rd_n r 8 12 = Some tx /\
  getU16 r 32 = Some 0x8028 /\ getU32 r 36 = Some (fingerprint (take 32 r)).
Proof.
  intros Htx r. unfold r. rewrite bindingRequest_bytes. clear r.
  pose proof (fingerprint_range (request_head tx)) as Hfp. remember (fingerprint (request_head tx)) as fp eqn:Efp.
  assert (length (request_head tx) = 32%nat) as Hh.
  { unfold request_head. rewrite !length_app, !length_be_bytes, Htx. done. }
  set (r := request_head tx ++ be_bytes 2 0x8028 ++ be_bytes 2 4 ++ be_bytes 4 fp).
  assert (length r = 40%nat) as Hr by by (unfold r; rewrite !length_app, !length_be_bytes, Hh).
  assert (take 32 r = request_head tx) as H32 by by (unfold r; rewrite take_app_length').
  assert (getU32 r 36 = Some fp) as H36.
  { rewrite getU32_be by lia. unfold r. rewrite !app_assoc, drop_app_length', take_ge.
    - by rewrite be_value_bytes.
    - by rewrite length_be_bytes.
    - by rewrite !length_app, !length_be_bytes, Hh. }
  rewrite H32, <- Efp. split_and!; try done; unfold r, request_head;
    do 12 (destruct tx as [|? tx]; [done|]); by destruct tx.
Qed.

(** A packet that carries the disco header is never taken for STUN, so the
    order in which the socket's dispatcher asks does not matter. *)
Theorem disco_is_not_stun packet : looksLikeDisco packet = true -> looksLikeStun packet = Some false.
Proof.
  unfold looksLikeDisco, looksLikeStun. intros [_ Hm%bool_decide_eq_true]%andb_true_iff.
  destruct (kStunHeaderLen <=? length packet)%nat; simpl; [|done].
  destruct packet as [|b packet]; [done|]. simpl in Hm. injection Hm as -> _. done.
Qed.

Definition public_endpoint : IPv4Endpoint := {| address := 0xCB007107; port := 54321 |}.

Lemma parseBindingResponse_spec_witness :
  parseBindingResponse
    (response (zeros 12) [(kStunAttrMappedAddress, [u8 0; u8 1; u8 0; u8 80; u8 10; u8 0; u8 0; u8 1]);
                          (0x8022, bs "srv"); xor_mapped public_endpoint] ++ []) (zeros 12)
  = Some (Some public_endpoint).
Proof.
  rewrite (parseBindingResponse_spec (zeros 12));
    [vm_compute; reflexivity|reflexivity| |vm_compute; reflexivity].
  repeat constructor; vm_compute; congruence.
Defined.

Lemma parseBindingResponse_learns_witness :
  parseBindingResponse (response (zeros 12) ([(0x8022, bs "srv")] ++ [xor_mapped public_endpoint]) ++ [])
    (zeros 12) = Some (Some public_endpoint).
Proof.
  apply (parseBindingResponse_learns (zeros 12) [(0x8022, bs "srv")] public_endpoint []);
    [reflexivity|repeat constructor; vm_compute; congruence|repeat constructor|
     vm_compute; reflexivity|split; cbn; lia|reflexivity].
Defined.

Lemma bindingRequest_wellformed_witness :
  length (bindingRequest (zeros 12)) = 40%nat /\
  getU32 (bindingRequest (zeros 12)) 36 = Some (fingerprint (take 32 (bindingRequest (zeros 12)))).
Proof. split; apply (bindingRequest_wellformed (zeros 12) eq_refl). Defined.

Lemma disco_is_not_stun_witness :
  looksLikeStun (kMagic ++ replicate 32 (u8 1) ++ zeros 24 ++ []) = Some false.
Proof. apply (disco_is_not_stun _). vm_compute. reflexivity. Defined.

(** The check value of CRC-32 over "123456789", through the STUN mask. *)
Example fingerprint_check : fingerprint (bs "123456789") = Z.lxor 0xcbf43926 0x5354554e.
Proof. vm_compute. reflexivity. Qed.
