(* ===== verification/DirectLink.v ===== *)
(** The direct UDP path of a route ([RealWgxBackend] of [TailscaleWgxRoute.cpp]):
    one socket for STUN, disco and WireGuard, the thread that serves it, and the
    critical sections of [directMutex_] that the DERP reader and the egress
    callback enter. Every section is one step, so a sequence of steps is an
    interleaving of the threads. Counters and flags that only choose what is
    logged are left out. *)

From S2P Require Import Prelude Bytes Endpoint DirectPath Box ControlCodec Disco Stun.

(** ** Data *)

(** The two hooks: is the [std::function] set? What is called is an effect. *)
Record DirectPathConfig := {
  dc_peerStableId : bytes;
  dc_peerNodeKey : bytes;
  dc_peerDiscoKey : bytes;
  dc_peerEndpoints : list bytes;
  dc_localNodePrivate : bytes;
  dc_localDiscoPrivate : bytes;
  dc_derpMap : list DerpRegion;
  dc_derpRegion : Z;
  dc_publishEndpoints : bool;
  dc_pathChanged : bool;
}.

(** The locals of [udpLoop]. *)
Record UdpLoop := {
  stunServer : option IPv4Endpoint;
  nextStun : Z;
  nextCallMeMaybe : Z;
  nextHousekeeping : Z;
}.

(** [udpThread_]: not running, started, in its loop. *)
Inductive UdpThread := NoThread | Started | InLoop (l : UdpLoop).

Record Direct := {
  directConfig_ : option DirectPathConfig;
  directPath_ : DirectPath;
  localDiscoPublic_ : bytes;
  localNodePublic_ : bytes;
  udpFd_ : bool;
  udpPort_ : Z;
  udpThread_ : UdpThread;
  udpRunning_ : bool;
  directActive_ : bool;
  reportedBest_ : IPv4Endpoint;
  stunMapped_ : IPv4Endpoint;
  localEndpoints_ : list IPv4Endpoint;
  stunTx_ : bytes;
  endpointsChanged_ : bool;
  dnsId_ : bytes;
}.

Definition fresh_direct : Direct :=
  {| directConfig_ := None; directPath_ := fresh_path; localDiscoPublic_ := zeros 32; localNodePublic_ := zeros 32;
     udpFd_ := false; udpPort_ := 0; udpThread_ := NoThread; udpRunning_ := false; directActive_ := false;
     reportedBest_ := no_endpoint; stunMapped_ := no_endpoint; localEndpoints_ := []; stunTx_ := zeros 12;
     endpointsChanged_ := false; dnsId_ := zeros 2 |}.

Definition with_path (p : DirectPath) (d : Direct) : Direct :=
  {| directConfig_ := directConfig_ d; directPath_ := p; localDiscoPublic_ := localDiscoPublic_ d;
     localNodePublic_ := localNodePublic_ d; udpFd_ := udpFd_ d; udpPort_ := udpPort_ d; udpThread_ := udpThread_ d;
     udpRunning_ := udpRunning_ d; directActive_ := directActive_ d; reportedBest_ := reportedBest_ d;
     stunMapped_ := stunMapped_ d; localEndpoints_ := localEndpoints_ d; stunTx_ := stunTx_ d;
     endpointsChanged_ := endpointsChanged_ d; dnsId_ := dnsId_ d |}.
Definition with_endpoints (mapped : IPv4Endpoint) (eps : list IPv4Endpoint) (changed : bool) (d : Direct) : Direct :=
  {| directConfig_ := directConfig_ d; directPath_ := directPath_ d; localDiscoPublic_ := localDiscoPublic_ d;
     localNodePublic_ := localNodePublic_ d; udpFd_ := udpFd_ d; udpPort_ := udpPort_ d; udpThread_ := udpThread_ d;
     udpRunning_ := udpRunning_ d; directActive_ := directActive_ d; reportedBest_ := reportedBest_ d;
     stunMapped_ := mapped; localEndpoints_ := eps; stunTx_ := stunTx_ d;
     endpointsChanged_ := changed; dnsId_ := dnsId_ d |}.
Definition with_report (best : IPv4Endpoint) (active : bool) (d : Direct) : Direct :=
  {| directConfig_ := directConfig_ d; directPath_ := directPath_ d; localDiscoPublic_ := localDiscoPublic_ d;
     localNodePublic_ := localNodePublic_ d; udpFd_ := udpFd_ d; udpPort_ := udpPort_ d; udpThread_ := udpThread_ d;
     udpRunning_ := udpRunning_ d; directActive_ := active; reportedBest_ := best;
     stunMapped_ := stunMapped_ d; localEndpoints_ := localEndpoints_ d; stunTx_ := stunTx_ d;
     endpointsChanged_ := endpointsChanged_ d; dnsId_ := dnsId_ d |}.
Definition with_thread (t : UdpThread) (running : bool) (d : Direct) : Direct :=
  {| directConfig_ := directConfig_ d; directPath_ := directPath_ d; localDiscoPublic_ := localDiscoPublic_ d;
     localNodePublic_ := localNodePublic_ d; udpFd_ := udpFd_ d; udpPort_ := udpPort_ d; udpThread_ := t;
     udpRunning_ := running; directActive_ := directActive_ d; reportedBest_ := reportedBest_ d;
     stunMapped_ := stunMapped_ d; localEndpoints_ := localEndpoints_ d; stunTx_ := stunTx_ d;
     endpointsChanged_ := endpointsChanged_ d; dnsId_ := dnsId_ d |}.
Definition with_ids (tx dns : bytes) (d : Direct) : Direct :=
  {| directConfig_ := directConfig_ d; directPath_ := directPath_ d; localDiscoPublic_ := localDiscoPublic_ d;
     localNodePublic_ := localNodePublic_ d; udpFd_ := udpFd_ d; udpPort_ := udpPort_ d; udpThread_ := udpThread_ d;
     udpRunning_ := udpRunning_ d; directActive_ := directActive_ d; reportedBest_ := reportedBest_ d;
     stunMapped_ := stunMapped_ d; localEndpoints_ := localEndpoints_ d; stunTx_ := tx;
     endpointsChanged_ := endpointsChanged_ d; dnsId_ := dns |}.
Definition with_session (cfg : option DirectPathConfig) (disco node : bytes) (fd : bool) (port : Z) (d : Direct) : Direct :=
  {| directConfig_ := cfg; directPath_ := directPath_ d; localDiscoPublic_ := disco;
     localNodePublic_ := node; udpFd_ := fd; udpPort_ := port; udpThread_ := udpThread_ d;
     udpRunning_ := udpRunning_ d; directActive_ := directActive_ d; reportedBest_ := reportedBest_ d;
     stunMapped_ := stunMapped_ d; localEndpoints_ := localEndpoints_ d; stunTx_ := stunTx_ d;
     endpointsChanged_ := endpointsChanged_ d; dnsId_ := dnsId_ d |}.

(** What a step does to the world: a datagram the socket took whole, a disco
    packet for [sendDiscoViaDerp], a packet for [wgx_inject_encrypted], and the
    two hooks of the configuration. *)
Inductive effect :=
| ToUdp (to : IPv4Endpoint) (packet : bytes)
| ViaDerp (packet : bytes)
| ToWireGuard (peer : Z) (packet : bytes)
| Published (endpoints : list bytes)
| PathChanged (endpoint : bytes) (rttMs : Z).

Definition kLoopback : Z := 0x7f000001.
Definition kLoopbackMarker : bytes := bs "artemis-udp-test".
Definition kDnsProbeServer : Z := 0x08080808.
Definition kDerpMagicAddress : Z := 0x7f030328.
Definition kMaxLocalEndpoints : nat := 8.
Definition kDefaultPort : Z := 41641.

Section link.
Context (x25519 poly1305 : bytes -> bytes -> bytes) (x25519_public : bytes -> bytes).

(** [sendto]: does the socket take the datagram whole? *)
Abbreviation network := (IPv4Endpoint -> bytes -> bool).

(** ** Starting and stopping *)

(** The first half of [stopDirectPath], before the thread is joined. *)
Definition stopDirectPath_request (d : Direct) : Direct :=
  with_thread (udpThread_ d) false (with_report (reportedBest_ d) false d).

(** The second half, once the thread has ended. *)
Definition stopDirectPath_finish (d : Direct) : Direct * list effect :=
  let notify := match directConfig_ d with
                | Some config => if valid (reportedBest_ d) && dc_pathChanged config then [PathChanged [] (-1)] else []
                | None => [] end in
  (with_path (reset (directPath_ d))
     (with_report no_endpoint (directActive_ d)
        (with_session None (localDiscoPublic_ d) (localNodePublic_ d) false (udpPort_ d)
           (with_thread NoThread (udpRunning_ d) d))), notify).

Definition add_texts (texts : list bytes) (p : DirectPath) : DirectPath :=
  foldl (fun p text => match parse text with Some ep => addCandidate p ep | None => p end) p texts.

(** [startDirectPath] after its [stopDirectPath]: [enabled] is the setting,
    [bound] the port [socket] and [bind] gave, if they did, and [lan] the address
    [discoverLanAddress] found. *)
Definition startDirectPath (config : DirectPathConfig) (enabled : bool) (bound lan : option Z) (d : Direct) : Direct :=
  if negb enabled then d
  else
    match bound with
    | None => d
    | Some localPort =>
        let path := add_texts (dc_peerEndpoints config) (reset (directPath_ d)) in
        let locals := match lan with Some a => [{| address := a; port := localPort |}] | None => [] end in
        with_thread Started true
          (with_endpoints no_endpoint locals true
             (with_report no_endpoint false
                (with_session (Some config) (x25519_public (dc_localDiscoPrivate config))
                   (x25519_public (dc_localNodePrivate config)) true localPort (with_path path d))))
    end.

(** ** Sending *)

Definition udp_send (net : network) (to : IPv4Endpoint) (packet : bytes) : bool * list effect :=
  if net to packet then (true, [ToUdp to packet]) else (false, []).

Definition sendDirect (now : Z) (packet : bytes) (net : network) (d : Direct) : bool * list effect :=
  if negb (udpFd_ d) then (false, [])
  else
    match best (directPath_ d) now with
    | None => (false, [])
    | Some best => udp_send net best packet
    end.

Definition sendUdpLocked (packet : bytes) (to : IPv4Endpoint) (net : network) (d : Direct) : bool * list effect :=
  if negb (udpFd_ d) || bool_decide (packet = []) then (false, []) else udp_send net to packet.

Definition sealDiscoLocked (config : DirectPathConfig) (m : Message) (nonce : bytes) (d : Direct) : bytes :=
  seal x25519 poly1305 m (dc_localDiscoPrivate config) (localDiscoPublic_ d) (dc_peerDiscoKey config) nonce.

Definition sendDiscoViaDerp (packet : bytes) : list effect := if bool_decide (packet = []) then [] else [ViaDerp packet].

(** The query for tailscale.com, type A. *)
Definition dns_query (id : bytes) : bytes :=
  id ++ (u8 <$> [0x01; 0x00; 0x00; 0x01; 0x00; 0x00; 0x00; 0x00; 0x00; 0x00]) ++
  [u8 9] ++ bs "tailscale" ++ [u8 3] ++ bs "com" ++ [u8 0] ++ (u8 <$> [0x00; 0x01; 0x00; 0x01]).

Definition sendSelfTests (id : bytes) (net : network) (d : Direct) : Direct * list effect :=
  (with_ids (stunTx_ d) id d,
   (udp_send net {| address := kLoopback; port := udpPort_ d |} kLoopbackMarker).2 ++
   (udp_send net {| address := kDnsProbeServer; port := 53 |} (dns_query id)).2).

Definition handleSelfTest (packet : bytes) (from : IPv4Endpoint) (d : Direct) : bool :=
  ((address from =? kLoopback) && bool_decide (packet = kLoopbackMarker)) ||
  ((address from =? kDnsProbeServer) && (port from =? 53) && (12 <=? length packet)%nat &&
   bool_decide (take 2 packet = dnsId_ d)).

(** ** Disco *)

Definition pong_to (txid : bytes) (source : IPv4Endpoint) : Message :=
  {| type := Pong; txid := txid; nodeKey := zeros 32; hasNodeKey := false; source := source; endpoints := [] |}.

(** How the peer saw us, of a pong. *)
Definition learn_source (source : IPv4Endpoint) (d : Direct) : Direct :=
  if valid source && negb (bool_decide (source = stunMapped_ d)) && negb (address source =? kDerpMagicAddress) then
    let known := existsb (fun e => bool_decide (e = source)) (localEndpoints_ d) in
    if negb known && (length (localEndpoints_ d) <? kMaxLocalEndpoints)%nat
    then with_endpoints (stunMapped_ d) (localEndpoints_ d ++ [source]) true d else d
  else d.

(** The [switch] of [handleDisco]. [region] is [activeDerpRegion_]. *)
Definition handle_message (config : DirectPathConfig) (m : Message) (from : option IPv4Endpoint) (now region : Z)
    (nonce : bytes) (net : network) (d : Direct) : Direct * list effect :=
  match type m with
  | Ping =>
      let source := match from with Some f => f
                    | None => {| address := kDerpMagicAddress; port := u16 region |} end in
      let reply := sealDiscoLocked config (pong_to (txid m) source) nonce d in
      match from with
      | Some from =>
          let d := with_path (addCandidate (directPath_ d) from) d in
          (d, (sendUdpLocked reply from net d).2)
      | None => (d, sendDiscoViaDerp reply)
      end
  | Pong =>
      match from with
      | None => (d, [])
      | Some from =>
          let d := with_path (notePong (directPath_ d) (txid m) from now).1 d in
          (learn_source (source m) d, [])
      end
  | CallMeMaybe => (with_path (foldl addCandidate (directPath_ d) (endpoints m)) d, [])
  end.

(** [None]: a read outside the packet. *)
Definition handleDisco (packet : bytes) (from : option IPv4Endpoint) (now region : Z) (nonce : bytes)
    (net : network) (d : Direct) : option (Direct * list effect) :=
  match directConfig_ d with
  | None => Some (d, [])
  | Some config =>
      opened ← open x25519 poly1305 packet (dc_localDiscoPrivate config);
      match opened with
      | Some o =>
          if bool_decide (sender o = dc_peerDiscoKey config)
          then Some (handle_message config (message o) from now region nonce net d) else Some (d, [])
      | None => Some (d, [])
      end
  end.

(** ** The thread *)

(** The first node of the region's regions with a STUN port whose name
    resolves. *)
Fixpoint stun_node (lookup : bytes -> option Z) (nodes : list DerpNode) : option IPv4Endpoint :=
  match nodes with
  | [] => None
  | node :: rest =>
      if dn_stunPort node =? 0 then stun_node lookup rest
      else match lookup (dn_host node) with
           | Some a => Some {| address := a; port := dn_stunPort node |}
           | None => stun_node lookup rest
           end
  end.
Fixpoint stun_region (lookup : bytes -> option Z) (region : Z) (regions : list DerpRegion) : option IPv4Endpoint :=
  match regions with
  | [] => None
  | candidate :: rest =>
      if negb (dr_regionId candidate =? region) then stun_region lookup region rest
      else match stun_node lookup (dr_nodes candidate) with
           | Some ep => Some ep
           | None => stun_region lookup region rest
           end
  end.
Definition resolveStunServer (active : Z) (lookup : bytes -> option Z) (d : Direct) : option IPv4Endpoint :=
  match directConfig_ d with
  | None => None
  | Some config => stun_region lookup (if active <=? 0 then dc_derpRegion config else active) (dc_derpMap config)
  end.

(** What [secureRandomBytes] gives one round: the STUN transaction, the
    transaction and nonce of each ping, the nonce of the call-me-maybe. *)
Record Draws := { dw_stun : bytes; dw_ping : nat -> bytes * bytes; dw_call : bytes }.

Definition ping_of (tx : bytes) (d : Direct) : Message :=
  {| type := Ping; txid := tx; nodeKey := localNodePublic_ d; hasNodeKey := true; source := no_endpoint; endpoints := [] |}.

(** The loop over [due]. The result of the send is counted, not used. *)
Fixpoint ping_loop (config : DirectPathConfig) (draws : nat -> bytes * bytes) (i : nat) (now : Z) (due : list IPv4Endpoint)
    (net : network) (d : Direct) : Direct * list effect :=
  match due with
  | [] => (d, [])
  | endpoint :: rest =>
      let '(tx, nonce) := draws i in
      let sent := (sendUdpLocked (sealDiscoLocked config (ping_of tx d) nonce d) endpoint net d).2 in
      let '(d, more) := ping_loop config draws (S i) now rest net
                          (with_path (notePingSent (directPath_ d) tx endpoint now) d) in
      (d, sent ++ more)
  end.

Definition stun_refresh (now : Z) (draws : Draws) (net : network) (l : UdpLoop) (d : Direct) : Direct * UdpLoop * list effect :=
  match stunServer l with
  | Some server =>
      if nextStun l <=? now then
        let d := with_ids (dw_stun draws) (dnsId_ d) d in
        (d, {| stunServer := stunServer l;
               nextStun := now + if valid (stunMapped_ d) then seconds 20 else seconds 3;
               nextCallMeMaybe := nextCallMeMaybe l; nextHousekeeping := nextHousekeeping l |},
         (udp_send net server (bindingRequest (stunTx_ d))).2)
      else (d, l, [])
  | None => (d, l, [])
  end.

(** The part of [directHousekeeping] after the pings. *)
Definition report (config : DirectPathConfig) (now : Z) (nonce : bytes) (l : UdpLoop) (d : Direct) : Direct * UdpLoop * list effect :=
  let best := best (directPath_ d) now in
  let asks := negb (bool_decide (localEndpoints_ d = [])) &&
              (endpointsChanged_ d || (negb (bool_decide (is_Some best)) && (nextCallMeMaybe l <=? now))) in
  let call := if asks
              then sendDiscoViaDerp (sealDiscoLocked config
                     {| type := CallMeMaybe; txid := zeros 12; nodeKey := zeros 32; hasNodeKey := false;
                        source := no_endpoint; endpoints := localEndpoints_ d |} nonce d)
              else [] in
  let l := {| stunServer := stunServer l; nextStun := nextStun l;
              nextCallMeMaybe := if asks then now + seconds 10 else nextCallMeMaybe l;
              nextHousekeeping := nextHousekeeping l |} in
  let published := if endpointsChanged_ d && dc_publishEndpoints config && negb (bool_decide (localEndpoints_ d = []))
                   then [Published (toString <$> localEndpoints_ d)] else [] in
  let d := with_endpoints (stunMapped_ d) (localEndpoints_ d) false d in
  let current := default no_endpoint best in
  let changed := if negb (bool_decide (current = reportedBest_ d)) && dc_pathChanged config
                 then [match best with
                       | Some ep => PathChanged (toString ep) (bestRttMs_ (directPath_ d))
                       | None => PathChanged [] (-1) end]
                 else [] in
  (with_report current (bool_decide (is_Some best)) d, l, call ++ published ++ changed).

Definition directHousekeeping (now : Z) (draws : Draws) (net : network) (l : UdpLoop) (d : Direct) : Direct * UdpLoop * list effect :=
  match directConfig_ d with
  | None => (d, l, [])
  | Some config =>
      let '(d, l, request) := stun_refresh now draws net l d in
      let '(path, due) := due (directPath_ d) now in
      let '(d, pings) := ping_loop config (dw_ping draws) 0 now due net (with_path path d) in
      let '(d, l, reports) := report config now (dw_call draws) l d in
      (d, l, request ++ pings ++ reports)
  end.

(** A public address the STUN server reported. *)
Definition learn_mapped (mapped : IPv4Endpoint) (d : Direct) : Direct :=
  if bool_decide (mapped = stunMapped_ d) then d
  else with_endpoints mapped (filter (fun e => e <> stunMapped_ d) (localEndpoints_ d) ++ [mapped]) true d.

Definition wg_header (packet : bytes) : bool :=
  (4 <=? length packet)%nat && (1 <=? byte_at packet 0) && (byte_at packet 0 <=? 4) &&
  (byte_at packet 1 =? 0) && (byte_at packet 2 =? 0) && (byte_at packet 3 =? 0).

(** [inject]: [activePeerId_], when there is a [context_]. *)
Definition handleUdpPacket (packet : bytes) (from : IPv4Endpoint) (now region : Z) (nonce : bytes) (inject : option Z)
    (net : network) (d : Direct) : option (Direct * list effect) :=
  if handleSelfTest packet from d then Some (d, [])
  else
    stun ← looksLikeStun packet;
    if stun : bool then
      mapped ← parseBindingResponse packet (stunTx_ d);
      Some (match mapped with Some mapped => learn_mapped mapped d | None => d end, [])
    else if looksLikeDisco packet then handleDisco packet (Some from) now region nonce net d
    else
      match inject with
      | Some peer =>
          if negb (wg_header packet) || negb (isCandidate (directPath_ d) from) then Some (d, [])
          else Some (d, [ToWireGuard peer packet])
      | None => Some (d, [])
      end.

(** ** The steps, and the sequences of them that can happen *)

Inductive op :=
| Start (config : DirectPathConfig) (enabled : bool) (bound lan : option Z)
| Begin (now region : Z) (lookup : bytes -> option Z) (id : bytes) (net : network)
| Tick (now : Z) (draws : Draws) (net : network)
| Packet (now : Z) (from : IPv4Endpoint) (packet : bytes) (region : Z) (nonce : bytes) (inject : option Z) (net : network)
| FromDerp (now : Z) (packet : bytes) (region : Z) (nonce : bytes)
| Send (now : Z) (packet : bytes) (net : network)
| StopRequest
| StopFinish.

(** When a step can happen: the thread's steps while it exists; [Start] follows
    a [stopDirectPath], which has joined it. *)
Definition enabled (o : op) (d : Direct) : bool :=
  match o, udpThread_ d with
  | Start _ _ _ _, NoThread => bool_decide (directConfig_ d = None)
  | Start _ _ _ _, _ => false
  | Begin _ _ _ _ _, Started => true
  | Begin _ _ _ _ _, _ => false
  | (Tick _ _ _ | Packet _ _ _ _ _ _ _), InLoop _ => true
  | (Tick _ _ _ | Packet _ _ _ _ _ _ _), _ => false
  | (FromDerp _ _ _ _ | Send _ _ _ | StopRequest | StopFinish), _ => true
  end.

(** [udpLoop] up to its loop, and the housekeeping of a round. *)
Definition loop_begin (now region : Z) (lookup : bytes -> option Z) (id : bytes) (net : network) (d : Direct) : Direct * list effect :=
  let l := {| stunServer := resolveStunServer region lookup d; nextStun := now; nextCallMeMaybe := now;
              nextHousekeeping := now |} in
  sendSelfTests id net (with_thread (InLoop l) (udpRunning_ d) d).
Definition loop_tick (now : Z) (draws : Draws) (net : network) (l : UdpLoop) (d : Direct) : Direct * list effect :=
  if nextHousekeeping l <=? now then
    let '(d, l, effects) := directHousekeeping now draws net l d in
    (with_thread (InLoop {| stunServer := stunServer l; nextStun := nextStun l; nextCallMeMaybe := nextCallMeMaybe l;
                            nextHousekeeping := now + milliseconds 100 |}) (udpRunning_ d) d, effects)
  else (d, []).

Definition step (o : op) (d : Direct) : option (Direct * list effect) :=
  match o with
  | Start config on bound lan => Some (startDirectPath config on bound lan d, [])
  | Begin now region lookup id net => Some (loop_begin now region lookup id net d)
  | Tick now draws net =>
      match udpThread_ d with InLoop l => Some (loop_tick now draws net l d) | _ => Some (d, []) end
  | Packet now from packet region nonce inject net => handleUdpPacket packet from now region nonce inject net d
  | FromDerp now packet region nonce => handleDisco packet None now region nonce (fun _ _ => false) d
  | Send now packet net => Some (d, (sendDirect now packet net d).2)
  | StopRequest => Some (stopDirectPath_request d, [])
  | StopFinish => Some (stopDirectPath_finish d)
  end.

(** [reaches trace effects d]: the steps of [trace], each with the state it was
    taken in, lead from the initial state to [d]. *)
Inductive reaches : list (op * Direct) -> list effect -> Direct -> Prop :=
| reaches_fresh : reaches [] [] fresh_direct
| reaches_step trace effects d o d' more : reaches trace effects d -> enabled o d = true ->
    step o d = Some (d', more) -> reaches (trace ++ [(o, d)]) (effects ++ more) d'.

(** ** The calls a step makes on the [DirectPath] *)

Definition message_events (m : Message) (from : option IPv4Endpoint) (now : Z) : list event :=
  match type m, from with
  | Ping, Some from => [AddCandidate from]
  | Pong, Some from => [PongReceived (txid m) from now]
  | CallMeMaybe, _ => AddCandidate <$> endpoints m
  | _, _ => []
  end.

(** The message of a disco packet from the peer of the configuration. *)
Definition peer_message (packet : bytes) (d : Direct) : option Message :=
  config ← directConfig_ d;
  opened ← open x25519 poly1305 packet (dc_localDiscoPrivate config);
  o ← opened;
  if bool_decide (sender o = dc_peerDiscoKey config) then Some (message o) else None.

Definition disco_events (packet : bytes) (from : option IPv4Endpoint) (now : Z) (d : Direct) : list event :=
  match peer_message packet d with Some m => message_events m from now | None => [] end.

Definition ping_events (draws : nat -> bytes * bytes) (now : Z) (due : list IPv4Endpoint) : list event :=
  imap (fun i ep => PingSent (draws i).1 ep now) due.

Definition events (o : op) (d : Direct) : list event :=
  match o with
  | Start config true (Some _) _ => Reset :: (AddCandidate <$> omap parse (dc_peerEndpoints config))
  | Tick now draws _ =>
      match udpThread_ d, directConfig_ d with
      | InLoop l, Some _ =>
          if nextHousekeeping l <=? now then Due now :: ping_events (dw_ping draws) now (due (directPath_ d) now).2 else []
      | _, _ => []
      end
  | Packet now from packet _ _ _ _ =>
      if negb (handleSelfTest packet from d) && negb (default false (looksLikeStun packet)) && looksLikeDisco packet
      then disco_events packet (Some from) now d else []
  | FromDerp now packet _ _ => disco_events packet None now d
  | StopFinish => [Reset]
  | _ => []
  end.

(** ** Facts *)

(** Every step that can happen has an outcome: the handlers read inside the
    packets they are given. *)
Lemma handleDisco_total packet from now region nonce net d :
  exists r, handleDisco packet from now region nonce net d = Some r.
Proof.
  unfold handleDisco. destruct (directConfig_ d) as [config|]; [|eauto].
  destruct (open_total x25519 poly1305 packet (dc_localDiscoPrivate config)) as [[o|] ->]; cbn [mbind option_bind]; [|eauto].
  case_bool_decide; eauto.
Qed.

Lemma step_total o d : exists r, step o d = Some r.
Proof.
  destruct o as [| | |now from packet region nonce inject net|now packet region nonce| | |]; cbn [step]; eauto.
  - destruct (udpThread_ d); eauto.
  - unfold handleUdpPacket. destruct (handleSelfTest packet from d); [eauto|].
    destruct (looksLikeStun_total packet) as [[|] ->]; cbn [mbind option_bind].
    + destruct (parseBindingResponse_total packet (stunTx_ d)) as [[m|] ->]; simpl; eauto.
    + destruct (looksLikeDisco packet); [apply handleDisco_total|].
      destruct inject; [|eauto]. destruct (_ || _); eauto.
  - apply handleDisco_total.
Qed.

(** A step makes exactly its calls on the path. *)
Lemma add_texts_events texts : forall p, add_texts texts p = foldl DirectPath.step p (AddCandidate <$> omap parse texts).
Proof. 
  induction texts as [|t texts IH]; intros p; [done|]. unfold add_texts. cbn [foldl omap list_omap].
  etransitivity; [apply IH|]. by destruct (parse t).
Qed.

Lemma add_candidates_events eps : forall p, foldl addCandidate p eps = foldl DirectPath.step p (AddCandidate <$> eps).
Proof. induction eps as [|e eps IH]; intros p; [done|]. cbn [foldl fmap list_fmap]. by rewrite IH. Qed.

Lemma learn_source_path source d : directPath_ (learn_source source d) = directPath_ d.
Proof. unfold learn_source. by repeat case_match. Qed.

Lemma handle_message_path config m from now region nonce net d :
  directPath_ (handle_message config m from now region nonce net d).1 =
    foldl DirectPath.step (directPath_ d) (message_events m from now).
Proof.
  unfold handle_message, message_events. destruct (type m), from as [f|]; try done.
  - cbn [fst]. by rewrite learn_source_path.
  - cbn [fst with_path directPath_]. apply add_candidates_events.
  - cbn [fst with_path directPath_]. apply add_candidates_events.
Qed.

Lemma handleDisco_path packet from now region nonce net d d' effects :
  handleDisco packet from now region nonce net d = Some (d', effects) ->
  directPath_ d' = foldl DirectPath.step (directPath_ d) (disco_events packet from now d).
Proof.
  unfold handleDisco, disco_events, peer_message. destruct (directConfig_ d) as [config|]; [|by intros [= <- <-]].
  cbn [mbind option_bind]. destruct (open x25519 poly1305 packet (dc_localDiscoPrivate config)) as [[o|]|];
    cbn [mbind option_bind]; [|by intros [= <- <-]|done].
  case_bool_decide as Es; [|by intros [= <- <-]]. intros [= E].
  pose proof (handle_message_path config (message o) from now region nonce net d) as H. by rewrite E in H.
Qed.

Lemma ping_loop_path config net now : forall due draws i d,
  directPath_ (ping_loop config draws i now due net d).1 =
    foldl DirectPath.step (directPath_ d) (imap (fun k ep => PingSent (draws (i + k)%nat).1 ep now) due).
Proof.
  induction due as [|ep due IH]; intros draws i d; [done|]. cbn [ping_loop imap].
  destruct (draws i) as [tx nonce] eqn:Ed. specialize (IH draws (S i) (with_path (notePingSent (directPath_ d) tx ep now) d)).
  destruct (ping_loop _ _ _ _ _ _ _) as [d' more]. cbn [fst]. cbn [fst with_path directPath_] in IH. rewrite IH.
  cbn [foldl]. rewrite Nat.add_0_r, Ed. cbn [DirectPath.step fst].
  f_equal. apply imap_ext. intros k x _. cbn. by rewrite Nat.add_succ_r.
Qed.

Lemma stun_refresh_path now draws net l d : directPath_ (stun_refresh now draws net l d).1.1 = directPath_ d.
Proof. unfold stun_refresh. by repeat case_match. Qed.

Lemma housekeeping_path config now draws net l d : directConfig_ d = Some config ->
  directPath_ (directHousekeeping now draws net l d).1.1 =
    foldl DirectPath.step (directPath_ d) (Due now :: ping_events (dw_ping draws) now (due (directPath_ d) now).2).
Proof.
  intros Hc. unfold directHousekeeping. rewrite Hc.
  pose proof (stun_refresh_path now draws net l d) as H1. destruct (stun_refresh now draws net l d) as [[d1 l1] e1].
  cbn [fst] in H1. rewrite H1. cbn [foldl DirectPath.step].
  destruct (due (directPath_ d) now) as [path eps]. cbn [fst snd].
  pose proof (ping_loop_path config net now eps (dw_ping draws) 0 (with_path path d1)) as H2.
  destruct (ping_loop _ _ _ _ _ _ _) as [d2 e2]. exact H2.
Qed.

Lemma handleUdpPacket_path now from packet region nonce inject net d d' effects :
  handleUdpPacket packet from now region nonce inject net d = Some (d', effects) ->
  directPath_ d' = foldl DirectPath.step (directPath_ d) (events (Packet now from packet region nonce inject net) d).
Proof.
  unfold handleUdpPacket. cbn [events]. destruct (handleSelfTest packet from d); [by intros [= <- _]|].
  destruct (looksLikeStun_total packet) as [[|] ->]; cbn [mbind option_bind default negb andb].
  - destruct (parseBindingResponse_total packet (stunTx_ d)) as [[m|] ->]; cbn [mbind option_bind]; intros [= <- _]; [|done].
    unfold learn_mapped. by case_bool_decide.
  - destruct (looksLikeDisco packet); [apply handleDisco_path|].
    destruct inject; [|by intros [= <- _]]. destruct (_ || _); by intros [= <- _].
Qed.

Lemma step_path o d d' effects : step o d = Some (d', effects) ->
  directPath_ d' = foldl DirectPath.step (directPath_ d) (events o d).
Proof.
  destruct o as [config [] [p|] lan| |now draws net| | | | |]; cbn [step events]; try by intros [= <- _].
  - intros [= <- _]. cbn [startDirectPath negb with_thread with_endpoints with_report with_session with_path directPath_].
    cbn [foldl DirectPath.step]. apply add_texts_events.
  - destruct (udpThread_ d) as [| |l]; [by intros [= <- _]..|]. unfold loop_tick.
    destruct (directConfig_ d) as [config|] eqn:Hc.
    + destruct (nextHousekeeping l <=? now); [|by intros [= <- _]].
      pose proof (housekeeping_path config now draws net l d Hc) as H.
      destruct (directHousekeeping now draws net l d) as [[d1 l1] e1]. by intros [= <- _].
    + destruct (nextHousekeeping l <=? now); [|by intros [= <- _]].
      unfold directHousekeeping. rewrite Hc. by intros [= <- _].
  - apply handleUdpPacket_path.
  - apply handleDisco_path.
Qed.

(** Only [Start] and [StopFinish] touch the configuration, and both reset the
    path. *)
Lemma handleDisco_config packet from now region nonce net d d' effects :
  handleDisco packet from now region nonce net d = Some (d', effects) -> directConfig_ d' = directConfig_ d.
Proof.
  unfold handleDisco. destruct (directConfig_ d) as [config|] eqn:Hc; [|by intros [= <- _]].
  intros E. apply bind_Some in E as (opened&_&E). destruct opened as [o|]; [|by injection E as <- _].
  destruct (bool_decide _); [|by injection E as <- _]. injection E as E.
  assert (directConfig_ (handle_message config (message o) from now region nonce net d).1 = directConfig_ d) as H.
  { unfold handle_message. repeat case_match; try done. cbn [fst]. unfold learn_source. by repeat case_match. }
  rewrite E in H. cbn [fst] in H. congruence.
Qed.

Lemma ping_loop_fields config net now : forall due draws i d,
  let d' := (ping_loop config draws i now due net d).1 in d' = with_path (directPath_ d') d.
Proof.
  induction due as [|ep due IH]; intros draws i d; cbn [ping_loop]; [by destruct d|].
  destruct (draws i) as [tx nonce]. specialize (IH draws (S i) (with_path (notePingSent (directPath_ d) tx ep now) d)).
  destruct (ping_loop _ _ _ _ _ _ _) as [d' more]. cbn [fst] in IH |- *. cbv zeta in IH |- *. exact IH.
Qed.

Lemma housekeeping_config now draws net l d : directConfig_ (directHousekeeping now draws net l d).1.1 = directConfig_ d.
Proof.
  unfold directHousekeeping. destruct (directConfig_ d) as [config|] eqn:Hc; [|done].
  assert (directConfig_ (stun_refresh now draws net l d).1.1 = directConfig_ d) as H1 by (unfold stun_refresh; by repeat case_match).
  destruct (stun_refresh now draws net l d) as [[d1 l1] e1]. cbn [fst] in H1.
  destruct (due (directPath_ d1) now) as [path eps].
  pose proof (ping_loop_fields config net now eps (dw_ping draws) 0 (with_path path d1)) as H2.
  destruct (ping_loop _ _ _ _ _ _ _) as [d2 e2]. cbn [fst] in H2. cbv zeta in H2. rewrite H2. cbn [report fst]. cbn. congruence.
Qed.

Lemma step_config o d d' effects : step o d = Some (d', effects) -> (Reset ∉ events o d) -> directConfig_ d' = directConfig_ d.
Proof.
  destruct o as [config [] [p|] lan| |now draws net|now from packet region nonce inject net| | | |]; cbn [step events];
    try by intros [= <- _].
  - intros _ H. exfalso. apply H. by left.
  - destruct (udpThread_ d) as [| |l]; [by intros [= <- _]..|]. unfold loop_tick.
    destruct (nextHousekeeping l <=? now); [|by intros [= <- _]].
    pose proof (housekeeping_config now draws net l d) as H.
    destruct (directHousekeeping now draws net l d) as [[d1 l1] e1]. by intros [= <- _].
  - unfold handleUdpPacket. destruct (handleSelfTest packet from d); [by intros [= <- _]|].
    intros E _. apply bind_Some in E as ([]&_&E).
    + apply bind_Some in E as ([m|]&_&E); injection E as <- _; [|done]. unfold learn_mapped. by case_bool_decide.
    + destruct (looksLikeDisco packet); [by eapply handleDisco_config|]. repeat case_match; by injection E as <- _.
  - intros E _. by eapply handleDisco_config.
  - intros _ H. exfalso. apply H. by left.
Qed.

(** ** The history of the path *)

Abbreviation entry := (event * (op * Direct))%type.
Definition history (trace : list (op * Direct)) : list entry :=
  trace ≫= fun x => (fun e => (e, x)) <$> events x.1 x.2.

Lemma history_snoc trace x : history (trace ++ [x]) = history trace ++ ((fun e => (e, x)) <$> events x.1 x.2).
Proof. unfold history. rewrite bind_app. cbn [mbind list_bind]. by rewrite app_nil_r. Qed.

Lemma foldl_run es more : foldl DirectPath.step (DirectPath.run es) more = DirectPath.run (es ++ more).
Proof. unfold DirectPath.run. by rewrite foldl_app. Qed.

Lemma tags_fst (x : op * Direct) es : ((fun e : event => (e, x)) <$> es).*1 = es.
Proof. rewrite <- list_fmap_compose. by apply list_fmap_id. Qed.

Lemma reaches_path trace effects d : reaches trace effects d -> directPath_ d = DirectPath.run (history trace).*1.
Proof.
  induction 1 as [|trace effects d o d' more _ IH He Hs]; [done|].
  rewrite history_snoc, fmap_app, tags_fst, <- foldl_run, <- IH. by eapply step_path.
Qed.

(** Where the pings and pongs come from. *)
Lemma message_events_in m from now e : e ∈ message_events m from now ->
  (exists ep, e = AddCandidate ep) \/
  (exists f, from = Some f /\ type m = Pong /\ e = PongReceived (txid m) f now /\ message_events m from now = [e]).
Proof.
  unfold message_events. destruct (type m), from as [f|]; intros He;
    try (apply list_elem_of_singleton in He as ->); try by apply not_elem_of_nil in He.
  - left. eauto.
  - right. exists f. by split_and!.
  - left. apply list_elem_of_fmap in He as (ep&->&_). eauto.
  - left. apply list_elem_of_fmap in He as (ep&->&_). eauto.
Qed.

Lemma disco_events_in packet from now d e : e ∈ disco_events packet from now d ->
  (exists ep, e = AddCandidate ep) \/
  (exists f m, from = Some f /\ peer_message packet d = Some m /\ type m = Pong /\ e = PongReceived (txid m) f now /\
     disco_events packet from now d = [e]).
Proof.
  unfold disco_events. destruct (peer_message packet d) as [m|]; [|by intros ?%not_elem_of_nil].
  intros [?|(f&?&?&?&?)]%message_events_in; [by left|right]. by exists f, m.
Qed.

Lemma ping_events_in draws now due e : e ∈ ping_events draws now due ->
  exists i ep, due !! i = Some ep /\ e = PingSent (draws i).1 ep now.
Proof.
  unfold ping_events. intros (i&Hi)%list_elem_of_lookup. rewrite list_lookup_imap in Hi.
  destruct (due !! i) as [ep|] eqn:E; [|done]. injection Hi as <-. eauto.
Qed.

(** The steps that receive a pong, and those that ping. *)
Definition answered_by (tx : bytes) (from : IPv4Endpoint) (now : Z) (x : op * Direct) : Prop :=
  exists packet region nonce inject net m, x.1 = Packet now from packet region nonce inject net /\
    peer_message packet x.2 = Some m /\ type m = Pong /\ txid m = tx.
Definition pinged_by (tx : bytes) (to : IPv4Endpoint) (now : Z) (x : op * Direct) : Prop :=
  exists draws net i, x.1 = Tick now draws net /\
    (due (directPath_ x.2) now).2 !! i = Some to /\ (dw_ping draws i).1 = tx.

Lemma events_pong o d tx from now : PongReceived tx from now ∈ events o d ->
  answered_by tx from now (o, d) /\ (Reset ∉ events o d).
Proof.
  destruct o as [config [] [p|] lan| |t draws net|t f packet region nonce inject net|t packet region nonce| | |];
    cbn [events]; try by intros ?%not_elem_of_nil.
  - intros [H|H]%elem_of_cons; [discriminate H|]. by apply list_elem_of_fmap in H as (?&?&_).
  - destruct (udpThread_ d); try by intros ?%not_elem_of_nil. destruct (directConfig_ d); [|by intros ?%not_elem_of_nil].
    destruct (_ <=? _); [|by intros ?%not_elem_of_nil]. intros [H|H]%elem_of_cons; [discriminate H|].
    by apply ping_events_in in H as (?&?&?&?).
  - destruct (negb (handleSelfTest packet f d) && _ && _); [|by intros ?%not_elem_of_nil].
    intros [(?&H)|(f'&m&[= <-]&Hm&Ht&[= -> -> ->]&Hone)]%disco_events_in; [discriminate H|].
    split; [by exists packet, region, nonce, inject, net, m|]. rewrite Hone. by intros ?%list_elem_of_singleton.
  - intros [(?&H)|(f'&m&[=]&_)]%disco_events_in; discriminate H.
  - by intros ?%list_elem_of_singleton.
Qed.

Lemma events_ping o d tx to now : PingSent tx to now ∈ events o d -> pinged_by tx to now (o, d).
Proof.
  destruct o as [config [] [p|] lan| |t draws net|t f packet region nonce inject net|t packet region nonce| | |];
    cbn [events]; try by intros ?%not_elem_of_nil.
  - intros [H|H]%elem_of_cons; [discriminate H|]. by apply list_elem_of_fmap in H as (?&?&_).
  - destruct (udpThread_ d); try by intros ?%not_elem_of_nil. destruct (directConfig_ d); [|by intros ?%not_elem_of_nil].
    destruct (_ <=? _); [|by intros ?%not_elem_of_nil]. intros [H|H]%elem_of_cons; [discriminate H|].
    apply ping_events_in in H as (i&ep&Hi&[= -> -> ->]). by exists draws, net, i.
  - destruct (negb (handleSelfTest packet f d) && _ && _); [|by intros ?%not_elem_of_nil].
    intros [(?&H)|(f'&m&_&_&_&H&_)]%disco_events_in; discriminate H.
  - intros [(?&H)|(f'&m&_&_&_&H&_)]%disco_events_in; discriminate H.
  - by intros ?%list_elem_of_singleton.
Qed.

Lemma history_in trace pre e x post : history trace = pre ++ (e, x) :: post ->
  exists l1 l2 p q, trace = l1 ++ x :: l2 /\ e ∈ events x.1 x.2 /\ pre = history l1 ++ p /\ post = q ++ history l2 /\
    Forall (fun y => y.2 = x /\ y.1 ∈ events x.1 x.2) q.
Proof.
  intros (l1&y&l2&p&q&->&Hy&->&->)%bind_split.
  assert (y = x /\ e ∈ events y.1 y.2) as [-> He].
  { assert ((e, x) ∈ (fun e => (e, y)) <$> events y.1 y.2) as Hin by (rewrite Hy; apply elem_of_app; right; left).
    apply list_elem_of_fmap in Hin as (e'&[= -> ->]&?). done. }
  exists l1, l2, p, q. split_and!; try done. apply list.Forall_forall. intros z Hz.
  assert (z ∈ (fun e => (e, x)) <$> events x.1 x.2) as Hin by (rewrite Hy; apply elem_of_app; right; by right).
  by apply list_elem_of_fmap in Hin as (?&->&?).
Qed.

(** The steps that end a path: it is started again, or stopped. *)
Definition ends_path (o : op) : bool :=
  match o with Start _ true (Some _) _ | StopFinish => true | _ => false end.
Lemma ends_path_events o d : ends_path o = true -> Reset ∈ events o d.
Proof. destruct o as [config [] [p|] lan| | | | | | |]; try done; intros _; left. Qed.
Lemma no_reset_kept trace : Reset ∉ (history trace).*1 -> Forall (fun y => ends_path y.1 = false) trace.
Proof.
  intros Hr. apply list.Forall_forall. intros [o d] Hy. cbn [fst]. apply not_true_is_false. intros He%(ends_path_events o d). apply Hr.
  apply list_elem_of_fmap. exists (Reset, (o, d)). split; [done|]. apply list_elem_of_bind. exists (o, d). split; [|done].
  apply list_elem_of_fmap. by exists Reset.
Qed.

(** Since the last reset the configuration has been the one it is now. *)
Lemma reaches_config trace effects d : reaches trace effects d ->
  forall pre tx from now x post, history trace = pre ++ (PongReceived tx from now, x) :: post ->
  (Reset ∉ post.*1) -> directConfig_ x.2 = directConfig_ d.
Proof.
  induction 1 as [|trace effects d o d' more _ IH He Hs]; intros pre tx from now x post E Hr; [by destruct pre|].
  assert ((PongReceived tx from now, x) ∈ (fun e : event => (e, (o, d))) <$> events o d ->
    directConfig_ x.2 = directConfig_ d') as Hlast.
  { intros (e&[= <- ->]&Hin)%list_elem_of_fmap. symmetry. eapply step_config; [exact Hs|]. by eapply events_pong. }
  rewrite history_snoc in E. cbn [fst snd] in E. apply app_eq_app in E as (k&[(E1&E2)|(E1&E2)]).
  - destruct k as [|y k]; cbn [app] in E2; [apply Hlast; rewrite <- E2; left|].
    injection E2 as <- E2. subst post. rewrite fmap_app in Hr.
    rewrite (IH pre tx from now x k E1) by (intros H; apply Hr, elem_of_app; by left).
    symmetry. eapply step_config; [exact Hs|]. intros H. apply Hr, elem_of_app. right. by rewrite tags_fst.
  - apply Hlast. rewrite E2. apply elem_of_app. right. left.
Qed.

(** An answered ping of the history, in the trace, and the path it is of. *)
Lemma history_answered trace pre tx to t0 x0 mid t1 x1 post :
  history trace = pre ++ (PingSent tx to t0, x0) :: mid ++ (PongReceived tx to t1, x1) :: post ->
  (Reset ∉ mid.*1) -> (Reset ∉ post.*1) ->
  exists before between after, trace = before ++ x0 :: between ++ x1 :: after /\ pinged_by tx to t0 x0 /\ answered_by tx to t1 x1 /\
    Forall (fun y => ends_path y.1 = false) (between ++ x1 :: after).
Proof.
  intros (l1&l2&p&q&->&He0&->&E&Hq)%history_in Hmid Hpost. destruct x0 as [o0 d0]. apply events_ping in He0 as Hping.
  assert (Forall (fun y => ends_path y.1 = false) l2) as Hl2.
  { apply no_reset_kept. intros H. assert (Reset ∈ (mid ++ (PongReceived tx to t1, x1) :: post).*1) as H'.
    { rewrite E, fmap_app. apply elem_of_app. by right. }
    rewrite fmap_app in H'. cbn [fmap list_fmap fst] in H'. by apply elem_of_app in H' as [?|[[=]|?]%elem_of_cons]. }
  assert ((PongReceived tx to t1, x1) ∉ q) as Hnot.
  { intros H. rewrite list.Forall_forall in Hq. apply Hq in H as [Hx Hin]. cbn [fst snd] in Hx, Hin. subst x1.
    apply events_pong in Hin as ((?&?&?&?&?&?&Ho&_)&_). destruct Hping as (?&?&?&Ho'&_). cbn [fst] in *. congruence. }
  assert (forall k, history l2 = k ++ (PongReceived tx to t1, x1) :: post ->
    exists before between after, l1 ++ (o0, d0) :: l2 = before ++ (o0, d0) :: between ++ x1 :: after /\ pinged_by tx to t0 (o0, d0) /\ answered_by tx to t1 x1 /\ Forall (fun y => ends_path y.1 = false) (between ++ x1 :: after)) as Hlater.
  { intros k (m1&m2&p'&q'&->&He1&_&_&_)%history_in. destruct x1 as [o1 d1].
    apply events_pong in He1 as [Hpong _]. by exists l1, m1, m2. }
  apply app_eq_app in E as (k&[(->&E)|(->&E)]); [by apply (Hlater k)|].
  destruct k as [|y k]; cbn [app] in E; [by apply (Hlater [])|].
  injection E as <- _. exfalso. apply Hnot, elem_of_app. right. left.
Qed.

(** C1: wireGuard leaves this node directly only on proof. In every interleaving
    of the socket's thread, the relay's reader, the egress callback and the
    starts and stops of routes: when an egress packet goes out on the socket, it
    is unchanged and goes to an endpoint this node pinged, for which a pong with
    the ping's transaction came back from that very endpoint, sealed with the
    disco key of the peer of the present route, within five seconds of the ping
    and no more than 6.5 seconds ago; and since the ping the path was neither
    stopped nor started again, so the proof is one of the present path. *)
Theorem direct_only_after_proof trace effects d now packet net d' sent to bytes :
  reaches trace effects d -> step (Send now packet net) d = Some (d', sent) -> ToUdp to bytes ∈ sent ->
  bytes = packet /\
  exists tx t0 x0 t1 x1 before between after,
    trace = before ++ x0 :: between ++ x1 :: after /\ pinged_by tx to t0 x0 /\ answered_by tx to t1 x1 /\
    Forall (fun y => ends_path y.1 = false) (between ++ x1 :: after) /\
    directConfig_ x1.2 = directConfig_ d /\ t1 - t0 <= kPingTimeout /\ now - t1 <= kTrustDuration.
Proof.
  intros Hr Hs Hin. cbn [step] in Hs. injection Hs as <- <-. unfold sendDirect in Hin.
  destruct (negb (udpFd_ d)); [by apply not_elem_of_nil in Hin|].
  destruct (best (directPath_ d) now) as [ep|] eqn:Hb; [|by apply not_elem_of_nil in Hin].
  unfold udp_send in Hin. destruct (net ep packet); [|by apply not_elem_of_nil in Hin].
  apply list_elem_of_singleton in Hin as [= -> ->]. split; [done|].
  pose proof (reaches_path _ _ _ Hr) as Hp. rewrite Hp in Hb. unfold best in Hb.
  destruct (valid (best_ (DirectPath.run (history trace).*1))) eqn:Hv; cbn [negb orb] in Hb; [|done].
  destruct (Z.gtb_spec (now - bestPong_ (DirectPath.run (history trace).*1)) kTrustDuration) as [|Ht]; [done|].
  injection Hb as Hb. apply run_trust in Hv as (pre&tx&t0&mid&post&E&Ht0&Hmid&Hpost). rewrite Hb in E.
  apply fmap_app_inv in E as (pre'&rest&->&E&Eh). destruct rest as [|[e0 x0] rest]; [done|].
  cbn [fmap list_fmap fst] in E. injection E as <- E. symmetry in E.
  apply fmap_app_inv in E as (mid'&rest'&->&E&->). destruct rest' as [|[e1 x1] post']; [done|].
  cbn [fmap list_fmap fst] in E. injection E as <- ->.
  destruct (history_answered _ _ _ _ _ _ _ _ _ _ Eh Hmid Hpost) as (before&between&after&Et&Hping&Hpong&Hkept).
  exists tx, t0, x0, (bestPong_ (DirectPath.run (history trace).*1)), x1, before, between, after. split_and!; try done.
  eapply (reaches_config _ _ _ Hr (pre' ++ (PingSent tx ep t0, x0) :: mid')); [|exact Hpost]. rewrite <- app_assoc. exact Eh.
Qed.

(** ** What the observers have been told *)

(** The last endpoint the path observer was told, and the last list that was
    published. *)
Definition last_told (effects : list effect) : bytes :=
  foldl (fun told e => match e with PathChanged ep _ => ep | _ => told end) [] effects.
Definition last_published (effects : list effect) : list bytes :=
  foldl (fun eps e => match e with Published eps => eps | _ => eps end) [] effects.

Definition shown (d : Direct) : bytes := if valid (reportedBest_ d) then toString (reportedBest_ d) else [].

(** Every route was started with both hooks. *)
Definition hooked (c : DirectPathConfig) : Prop := dc_publishEndpoints c = true /\ dc_pathChanged c = true.
Definition hooks_set (trace : list (op * Direct)) : Prop :=
  Forall (fun x => match x.1 with Start c _ _ _ => hooked c | _ => True end) trace.

Definition quiet (effects : list effect) : Prop :=
  Forall (fun e => match e with Published _ | PathChanged _ _ => False | _ => True end) effects.

Lemma quiet_last more : quiet more -> forall effects,
  last_told (effects ++ more) = last_told effects /\ last_published (effects ++ more) = last_published effects.
Proof.
  unfold last_told, last_published. induction 1 as [|e more He _ IH]; intros effects; [by rewrite app_nil_r|].
  rewrite (cons_middle e effects more), app_assoc. destruct (IH (effects ++ [e])) as [-> ->].
  rewrite !foldl_app. by destruct e.
Qed.

Lemma quiet_app a b : quiet a -> quiet b -> quiet (a ++ b).
Proof. intros Ha Hb. by apply list.Forall_app. Qed.
Lemma quiet_udp net to packet : quiet (udp_send net to packet).2.
Proof. unfold udp_send. case_match; repeat constructor. Qed.
Lemma quiet_locked packet to net d : quiet (sendUdpLocked packet to net d).2.
Proof. unfold sendUdpLocked. case_match; [constructor|apply quiet_udp]. Qed.
Lemma quiet_derp packet : quiet (sendDiscoViaDerp packet).
Proof. unfold sendDiscoViaDerp. case_match; repeat constructor. Qed.
Lemma quiet_pings config net now : forall due draws i d, quiet (ping_loop config draws i now due net d).2.
Proof.
  induction due as [|ep due IH]; intros draws i d; cbn [ping_loop]; [constructor|].
  destruct (draws i) as [tx nonce]. specialize (IH draws (S i) (with_path (notePingSent (directPath_ d) tx ep now) d)).
  destruct (ping_loop _ _ _ _ _ _ _) as [d' more]. apply quiet_app; [apply quiet_locked|exact IH].
Qed.
Lemma quiet_refresh now draws net l d : quiet (stun_refresh now draws net l d).2.
Proof. unfold stun_refresh. destruct (stunServer l); [|constructor]. destruct (_ <=? _); [apply quiet_udp|constructor]. Qed.

(** The books: what is reported, learnt and still to be told. *)
Record books (effects : list effect) (d : Direct) : Prop := {
  bk_told : last_told effects = shown d;
  bk_idle : directConfig_ d = None -> valid (reportedBest_ d) = false;
  bk_hooks : forall c, directConfig_ d = Some c -> hooked c;
  bk_published : directConfig_ d <> None -> endpointsChanged_ d = false -> localEndpoints_ d <> [] ->
    last_published effects = toString <$> localEndpoints_ d;
  bk_mapped : valid (stunMapped_ d) = true -> stunMapped_ d ∈ localEndpoints_ d;
  bk_bound : (length (localEndpoints_ d) <= kMaxLocalEndpoints + if valid (stunMapped_ d) then 1 else 0)%nat;
}.

Definition same_books (d d' : Direct) : Prop :=
  directConfig_ d' = directConfig_ d /\ reportedBest_ d' = reportedBest_ d /\ stunMapped_ d' = stunMapped_ d /\
  localEndpoints_ d' = localEndpoints_ d /\ endpointsChanged_ d' = endpointsChanged_ d.

Lemma books_same effects d d' more : books effects d -> same_books d d' -> quiet more -> books (effects ++ more) d'.
Proof.
  intros [H1 H2 H3 H4 H5 H6] (Ec&Er&Em&El&Eh) Hq. destruct (quiet_last _ Hq effects) as [Et Ep].
  constructor; unfold shown; rewrite ?Et, ?Ep, ?Ec, ?Er, ?Em, ?El, ?Eh; done.
Qed.

Lemma books_learn_source effects d source : books effects d -> books effects (learn_source source d).
Proof.
  intros [H1 H2 H3 H4 H5 H6]. unfold learn_source. destruct (_ && _) eqn:Ec; [|done].
  destruct (existsb _ _); cbn [negb andb]; [done|].
  destruct (Nat.ltb_spec (length (localEndpoints_ d)) kMaxLocalEndpoints); [|done].
  constructor; cbn [with_endpoints directConfig_ reportedBest_ endpointsChanged_ localEndpoints_ stunMapped_]; try done.
  - intros Hv. apply elem_of_app. left. by apply H5.
  - rewrite length_app. cbn [length]. lia.
Qed.

Lemma books_learn_mapped effects d mapped : valid mapped = true -> books effects d -> books effects (learn_mapped mapped d).
Proof.
  intros Hm [H1 H2 H3 H4 H5 H6]. unfold learn_mapped. case_bool_decide as E; [done|].
  constructor; cbn [with_endpoints directConfig_ reportedBest_ endpointsChanged_ localEndpoints_ stunMapped_]; try done.
  - intros _. apply elem_of_app. right. by apply list_elem_of_singleton.
  - rewrite Hm, length_app. cbn [length]. destruct (valid (stunMapped_ d)) eqn:Ev.
    + specialize (H5 eq_refl).
      assert (length (filter (fun e => e <> stunMapped_ d) (localEndpoints_ d)) < length (localEndpoints_ d))%nat; [|lia].
      eapply length_filter_lt; [exact H5|]. by intros Hn.
    + pose proof (length_filter (fun e => e <> stunMapped_ d) (localEndpoints_ d)). lia.
Qed.

(** Every step keeps the books. *)
Lemma handleDisco_books effects packet from now region nonce net d d' more : books effects d ->
  handleDisco packet from now region nonce net d = Some (d', more) -> books (effects ++ more) d'.
Proof.
  intros Hb. unfold handleDisco. destruct (directConfig_ d) as [config|] eqn:Hc;
    [|intros [= <- <-]; by apply (books_same _ d); [..|constructor]].
  intros E. apply bind_Some in E as (opened&_&E).
  destruct opened as [o|]; [|injection E as <- <-; by apply (books_same _ d); [..|constructor]].
  destruct (bool_decide _); [|injection E as <- <-; by apply (books_same _ d); [..|constructor]].
  injection E as E. unfold handle_message in E. destruct (type (message o)), from as [f|]; injection E as <- <-;
    try (apply (books_same _ d); [done..|]; first [constructor|apply quiet_locked|apply quiet_derp]).
  rewrite app_nil_r. apply books_learn_source. rewrite <- (app_nil_r effects). by apply (books_same _ d); [..|constructor].
Qed.

Lemma handleUdpPacket_books effects packet from now region nonce inject net d d' more : books effects d ->
  handleUdpPacket packet from now region nonce inject net d = Some (d', more) -> books (effects ++ more) d'.
Proof.
  intros Hb. unfold handleUdpPacket.
  assert (books (effects ++ []) d) as Hsame by (by apply (books_same _ d); [..|constructor]).
  destruct (handleSelfTest packet from d); [by intros [= <- <-]|].
  intros E. apply bind_Some in E as ([]&_&E).
  - apply bind_Some in E as ([m|]&Em&E); injection E as <- <-; [|done].
    apply books_learn_mapped; [|done]. by eapply parseBindingResponse_valid.
  - destruct (looksLikeDisco packet); [by eapply handleDisco_books|].
    destruct inject as [peer|]; [|by injection E as <- <-]. destruct (_ || _); injection E as <- <-; [done|].
    apply (books_same _ d); [done..|]. by repeat constructor.
Qed.

Lemma best_valid p now ep : best p now = Some ep -> valid ep = true.
Proof. unfold best. destruct (valid (best_ p)) eqn:Ev; cbn [negb orb]; [|done]. destruct (_ >? _); [done|]. by intros [= <-]. Qed.

Lemma report_books effects config now nonce l d : directConfig_ d = Some config -> books effects d ->
  let '(d', _, more) := report config now nonce l d in
  books (effects ++ more) d' /\ endpointsChanged_ d' = false /\ reportedBest_ d' = default no_endpoint (best (directPath_ d') now).
Proof.
  intros Hc [H1 H2 H3 H4 H5 H6]. unfold report. cbv zeta.
  set (call := if _ && _ then sendDiscoViaDerp _ else []). assert (quiet call) as Hq.
  { unfold call. destruct (_ && _); [apply quiet_derp|constructor]. }
  clearbody call. destruct (quiet_last _ Hq effects) as [Et Ep]. destruct (H3 _ Hc) as [Hpub Hnot].
  rewrite Hpub, Hnot, !andb_true_r. split; [|done].
  set (published := if _ && _ then [Published _] else []). set (changed := if negb _ then [_] else []).
  assert (forall effs, last_told (effs ++ published) = last_told effs) as Et2.
  { intros effs. unfold published, last_told. rewrite foldl_app. by destruct (_ && _). }
  assert (forall effs, last_published (effs ++ changed) = last_published effs) as Ep2.
  { intros effs. unfold changed, last_published. rewrite foldl_app. case_bool_decide; cbn [negb foldl]; [done|]. by destruct (best (directPath_ d) now). }
  rewrite !app_assoc. constructor; unfold shown;
    cbn [with_report with_endpoints directConfig_ reportedBest_ endpointsChanged_ localEndpoints_ stunMapped_]; try done.
  - unfold changed, last_told. rewrite foldl_app. fold (last_told ((effects ++ call) ++ published)).
    case_bool_decide as Eb; cbn [negb foldl].
    + rewrite Et2, Et, H1, Eb. done.
    + destruct (best (directPath_ d) now) as [ep|] eqn:Ep'; cbn [default from_option id]; [|done]. by rewrite (best_valid _ _ _ Ep').
  - intros Hn. by rewrite Hn in Hc.
  - intros _ _ Hne. rewrite Ep2. unfold published, last_published. rewrite foldl_app.
    fold (last_published (effects ++ call)). rewrite (bool_decide_false (localEndpoints_ d = [])) by done.
    destruct (endpointsChanged_ d) eqn:Ech; cbn [negb andb foldl]; [done|]. rewrite Ep. apply H4; [congruence|done|done].
Qed.

Lemma housekeeping_books effects now draws net l d : books effects d ->
  let '(d', _, more) := directHousekeeping now draws net l d in
  books (effects ++ more) d' /\
  (directConfig_ d <> None -> endpointsChanged_ d' = false /\ reportedBest_ d' = default no_endpoint (best (directPath_ d') now)).
Proof.
  intros Hb. unfold directHousekeeping. destruct (directConfig_ d) as [config|] eqn:Hc.
  2: { split; [by apply (books_same _ d); [..|constructor]|done]. }
  assert (same_books d (stun_refresh now draws net l d).1.1) as Hs1 by (unfold stun_refresh; by repeat case_match).
  pose proof (quiet_refresh now draws net l d) as Hq1. destruct (stun_refresh now draws net l d) as [[d1 l1] e1].
  destruct (due (directPath_ d1) now) as [path eps].
  pose proof (ping_loop_fields config net now eps (dw_ping draws) 0 (with_path path d1)) as Hf.
  pose proof (quiet_pings config net now eps (dw_ping draws) 0 (with_path path d1)) as Hq2.
  destruct (ping_loop _ _ _ _ _ _ _) as [d2 e2]. cbn [fst snd] in Hf, Hq1, Hq2, Hs1. cbv zeta in Hf.
  assert (same_books d d2) as Hs2 by (rewrite Hf; destruct Hs1 as (?&?&?&?&?); by split_and!).
  pose proof (books_same _ _ _ _ Hb Hs2 (quiet_app _ _ Hq1 Hq2)) as Hb2.
  assert (directConfig_ d2 = Some config) as Hc2 by (destruct Hs2 as (->&_); done).
  pose proof (report_books _ config now (dw_call draws) l1 d2 Hc2 Hb2) as H.
  destruct (report _ _ _ _ _) as [[d3 l3] e3]. destruct H as (H&H1&H2). rewrite <- !app_assoc in H. done.
Qed.

Lemma books_start effects d config on bound lan : hooked config -> directConfig_ d = None -> books effects d ->
  books effects (startDirectPath config on bound lan d).
Proof.
  intros Hh Hn Hb. unfold startDirectPath. destruct on; cbn [negb]; [|done]. destruct bound as [localPort|]; [|done].
  destruct Hb as [H1 H2 H3 H4 H5 H6]. constructor;
    cbn [with_thread with_endpoints with_report with_session directConfig_ reportedBest_ endpointsChanged_ localEndpoints_ stunMapped_];
    try done.
  - rewrite H1. unfold shown. by rewrite (H2 Hn).
  - by intros c [= <-].
  - destruct lan; cbn; lia.
Qed.

Lemma step_books effects o d d' more : enabled o d = true ->
  match o with Start c _ _ _ => hooked c | _ => True end -> step o d = Some (d', more) ->
  books effects d -> books (effects ++ more) d'.
Proof.
  intros He Hh Hs Hb.
  destruct o as [config on bound lan|now region lookup id net|now draws net|now from packet region nonce inject net
    |now packet region nonce|now packet net| |]; cbn [step] in Hs.
  - injection Hs as <- <-. rewrite app_nil_r. apply books_start; [done| |done].
    cbn [enabled] in He. destruct (udpThread_ d); try done. by apply bool_decide_eq_true in He.
  - injection Hs as <- <-. apply (books_same _ d); [done..|]. apply quiet_app; apply quiet_udp.
  - destruct (udpThread_ d) as [| |l]; [by injection Hs as <- <-; apply (books_same _ d); [..|constructor]..|].
    unfold loop_tick in Hs. destruct (nextHousekeeping l <=? now); [|by injection Hs as <- <-; apply (books_same _ d); [..|constructor]].
    pose proof (housekeeping_books effects now draws net l d Hb) as H.
    destruct (directHousekeeping now draws net l d) as [[d1 l1] e1]. injection Hs as <- <-. destruct H as [H _].
    rewrite <- (app_nil_r (effects ++ _)). by apply (books_same _ d1); [..|constructor].
  - by eapply handleUdpPacket_books.
  - by eapply handleDisco_books.
  - injection Hs as <- <-. apply (books_same _ d); [done..|]. unfold sendDirect.
    destruct (negb _); [constructor|]. destruct (best _ _); [apply quiet_udp|constructor].
  - injection Hs as <- <-. by apply (books_same _ d); [..|constructor].
  - injection Hs as <- <-. destruct Hb as [H1 H2 H3 H4 H5 H6]. constructor; unfold shown;
      cbn [with_thread with_path with_report with_session directConfig_ reportedBest_ endpointsChanged_ localEndpoints_ stunMapped_];
      try done.
    unfold last_told. rewrite foldl_app. fold (last_told effects). destruct (directConfig_ d) as [config|] eqn:Hc.
    + destruct (H3 _ eq_refl) as [_ ->]. rewrite andb_true_r. destruct (valid (reportedBest_ d)) eqn:Ev; cbn [foldl]; [done|].
      rewrite H1. unfold shown. by rewrite Ev.
    + cbn [foldl]. rewrite H1. unfold shown. by rewrite (H2 eq_refl).
Qed.

Lemma reaches_books trace effects d : reaches trace effects d -> hooks_set trace -> books effects d.
Proof.
  induction 1 as [|trace effects d o d' more _ IH He Hs]; intros Hh.
  - constructor; try done. cbn. lia.
  - apply list.Forall_app in Hh as [Hh Ho]. apply Forall_cons_1 in Ho as [Ho _].
    eapply step_books; [exact He|exact Ho|exact Hs|by apply IH].
Qed.

(** What is shown and advertised follows the path. In every interleaving the
    path observer was last told the endpoint in use, or that there is none, and
    none once the path is stopped; the list last given to control is the list of
    known local endpoints, up to changes the next housekeeping round publishes;
    that list has at most nine entries; and a round leaves the report equal to
    the best path of its time. *)
Theorem reports_follow_path trace effects d : reaches trace effects d -> hooks_set trace ->
  last_told effects = shown d /\ (directConfig_ d = None -> last_told effects = []) /\
  (directConfig_ d <> None -> endpointsChanged_ d = false -> localEndpoints_ d <> [] ->
    last_published effects = toString <$> localEndpoints_ d) /\
  (length (localEndpoints_ d) <= 9)%nat /\
  (forall now draws net l d' more, udpThread_ d = InLoop l -> nextHousekeeping l <= now -> directConfig_ d <> None ->
    step (Tick now draws net) d = Some (d', more) ->
    endpointsChanged_ d' = false /\ reportedBest_ d' = default no_endpoint (best (directPath_ d') now)).
Proof.
  intros Hr Hh. pose proof (reaches_books _ _ _ Hr Hh) as Hb. pose proof Hb as [H1 H2 H3 H4 H5 H6]. split_and!.
  - done.
  - intros Hn. rewrite H1. unfold shown. by rewrite (H2 Hn).
  - done.
  - unfold kMaxLocalEndpoints in H6. destruct (valid (stunMapped_ d)); lia.
  - intros now draws net l d' more Hl Hle Hn Hs. cbn [step] in Hs. rewrite Hl in Hs. unfold loop_tick in Hs.
    rewrite (proj2 (Z.leb_le _ _) Hle) in Hs. pose proof (housekeeping_books effects now draws net l d Hb) as H.
    destruct (directHousekeeping now draws net l d) as [[d1 l1] e1]. injection Hs as <- _. by apply H.
Qed.

(** Runs, computed. *)
Fixpoint play (ops : list op) (trace : list (op * Direct)) (effects : list effect) (d : Direct)
  : option (list (op * Direct) * list effect * Direct) :=
  match ops with
  | [] => Some (trace, effects, d)
  | o :: rest =>
      if enabled o d then
        match step o d with
        | Some (d', more) => play rest (trace ++ [(o, d)]) (effects ++ more) d'
        | None => None
        end
      else None
  end.

Lemma play_reaches ops : forall trace effects d r, reaches trace effects d -> play ops trace effects d = Some r ->
  reaches r.1.1 r.1.2 r.2.
Proof.
  induction ops as [|o ops IH]; intros trace effects d r Hr; cbn [play]; [by intros [= <-]|].
  destruct (enabled o d) eqn:He; [|done]. destruct (step o d) as [[d' more]|] eqn:Hs; [|done].
  apply IH. by eapply reaches_step.
Qed.
End link.

(** ** A route with a peer that answers *)

Definition ex_peer : IPv4Endpoint := {| address := 0xC0A80132; port := 41641 |}.
Definition ex_config : DirectPathConfig :=
  {| dc_peerStableId := bs "n1"; dc_peerNodeKey := toy_key 20; dc_peerDiscoKey := toy_key 30;
     dc_peerEndpoints := [toString ex_peer; bs "nonsense"]; dc_localNodePrivate := toy_key 40;
     dc_localDiscoPrivate := toy_key 50; dc_derpMap := []; dc_derpRegion := 1;
     dc_publishEndpoints := true; dc_pathChanged := true |}.
Definition ex_nonce : bytes := replicate 24 (u8 5).
Definition ex_tx (n : nat) : bytes := replicate 12 (u8 (Z.of_nat n + 1)).
Definition ex_draws : Draws := {| dw_stun := zeros 12; dw_ping := fun i => (ex_tx i, ex_nonce); dw_call := ex_nonce |}.

(** The toy key agreement has every key its own public key. *)
Definition ex_public (k : bytes) : bytes := k.
Definition ex_pong (tx : bytes) : bytes :=
  seal toy_x25519 toy_poly1305 (pong_to tx {| address := 0xC0A80114; port := 41641 |}) (toy_key 30) (toy_key 30) (toy_key 50) ex_nonce.
Definition all_sent : IPv4Endpoint -> bytes -> bool := fun _ _ => true.

Definition ex_ops : list op :=
  [Start ex_config true (Some 41641) (Some 0xC0A80114); Begin (seconds 1) 0 (fun _ => None) [u8 1; u8 2] all_sent;
   Tick (seconds 1) ex_draws all_sent; Packet (milliseconds 1020) ex_peer (ex_pong (ex_tx 0)) 0 ex_nonce (Some 1) all_sent;
   Tick (milliseconds 1100) ex_draws all_sent].
Definition ex_play (ops : list op) : list (op * Direct) * list effect * Direct :=
  default ([], [], fresh_direct) (play toy_x25519 toy_poly1305 ex_public ops [] [] fresh_direct).

Lemma ex_reaches ops : play toy_x25519 toy_poly1305 ex_public ops [] [] fresh_direct <> None ->
  reaches toy_x25519 toy_poly1305 ex_public (ex_play ops).1.1 (ex_play ops).1.2 (ex_play ops).2.
Proof.
  intros H. unfold ex_play. destruct (play _ _ _ ops [] [] fresh_direct) as [r|] eqn:E; [|done].
  cbn [default from_option id]. eapply play_reaches; [apply reaches_fresh|exact E].
Qed.

Lemma direct_only_after_proof_witness :
  let d := (ex_play ex_ops).2 in
  step toy_x25519 toy_poly1305 ex_public (Send (seconds 2) (bs "packet") all_sent) d = Some (d, [ToUdp ex_peer (bs "packet")]) /\
  exists tx t0 x0 t1 x1 before between after,
    (ex_play ex_ops).1.1 = before ++ x0 :: between ++ x1 :: after /\ pinged_by tx ex_peer t0 x0 /\
    answered_by toy_x25519 toy_poly1305 tx ex_peer t1 x1 /\ Forall (fun y => ends_path y.1 = false) (between ++ x1 :: after) /\
    directConfig_ x1.2 = directConfig_ d /\
    t1 - t0 <= kPingTimeout /\ seconds 2 - t1 <= kTrustDuration.
Proof.
  cbv zeta. assert (play toy_x25519 toy_poly1305 ex_public ex_ops [] [] fresh_direct <> None) as Hp by (vm_compute; discriminate).
  assert (step toy_x25519 toy_poly1305 ex_public (Send (seconds 2) (bs "packet") all_sent) (ex_play ex_ops).2 =
    Some ((ex_play ex_ops).2, [ToUdp ex_peer (bs "packet")])) as Hs by (vm_compute; reflexivity).
  split; [exact Hs|].
  destruct (direct_only_after_proof toy_x25519 toy_poly1305 ex_public _ _ _ (seconds 2) (bs "packet") all_sent _ _ ex_peer (bs "packet")
    (ex_reaches ex_ops Hp) Hs) as [_ H]; [left|exact H].
Defined.

Lemma reports_follow_path_witness :
  let d := (ex_play ex_ops).2 in let effects := (ex_play ex_ops).1.2 in
  shown d = toString ex_peer /\ last_told effects = shown d /\ (length (localEndpoints_ d) <= 9)%nat.
Proof.
  cbv zeta. split; [vm_compute; reflexivity|].
  assert (play toy_x25519 toy_poly1305 ex_public ex_ops [] [] fresh_direct <> None) as Hp by (vm_compute; discriminate).
  assert (hooks_set (ex_play ex_ops).1.1) as Hh by (vm_compute; repeat constructor).
  destruct (reports_follow_path toy_x25519 toy_poly1305 ex_public _ _ _ (ex_reaches ex_ops Hp) Hh) as (H1&_&_&H4&_).
  split; [exact H1|exact H4].
Defined.

(** ** What the runs also show *)

(** With no STUN server no request is ever sent and [stunTx_] stays zero: a
    binding response with a zero transaction, from anyone who can reach the
    socket, sets the public endpoint that is then published. *)
Definition ex_forged : bytes := response (zeros 12) [xor_mapped {| address := 0x06060606; port := 666 |}].
Example unsolicited_mapping :
  let ops := [Start ex_config true (Some 41641) None; Begin (seconds 1) 0 (fun _ => None) [u8 1; u8 2] all_sent;
              Packet (seconds 1) {| address := 0x06060606; port := 99 |} ex_forged 0 ex_nonce (Some 1) all_sent;
              Tick (seconds 1) ex_draws all_sent] in
  last_published (ex_play ops).1.2 = [bs "6.6.6.6:666"].
Proof. vm_compute. reflexivity. Qed.

(** The peer saw us at the public address before the STUN answer came: the
    address is then in the list twice. *)
Definition ex_public_pong : bytes :=
  seal toy_x25519 toy_poly1305 (pong_to (ex_tx 0) {| address := 0x06060606; port := 666 |}) (toy_key 30) (toy_key 30) (toy_key 50) ex_nonce.
Example public_endpoint_twice :
  let ops := [Start ex_config true (Some 41641) None; Begin (seconds 1) 0 (fun _ => None) [u8 1; u8 2] all_sent;
              Tick (seconds 1) ex_draws all_sent;
              Packet (seconds 1) ex_peer ex_public_pong 0 ex_nonce (Some 1) all_sent;
              Packet (seconds 1) {| address := 0x06060607; port := 3478 |} ex_forged 0 ex_nonce (Some 1) all_sent;
              Tick (seconds 2) ex_draws all_sent] in
  last_published (ex_play ops).1.2 = [bs "6.6.6.6:666"; bs "6.6.6.6:666"].
Proof. vm_compute. reflexivity. Qed.

(** A call-me-maybe with sixteen new endpoints evicts the candidate that works:
    WireGuard still sends to it, but no more pings renew it and packets that
    arrive from it are dropped. *)
Definition ex_call : bytes :=
  seal toy_x25519 toy_poly1305
    {| type := CallMeMaybe; txid := zeros 12; nodeKey := zeros 32; hasNodeKey := false; source := no_endpoint;
       endpoints := (fun n => {| address := 0x0A000001 + Z.of_nat n; port := 41641 |}) <$> seq 0 16 |}
    (toy_key 30) (toy_key 30) (toy_key 50) ex_nonce.
Example working_path_evicted :
  let d := (ex_play (ex_ops ++ [FromDerp (seconds 2) ex_call 1 ex_nonce])).2 in
  best (directPath_ d) (seconds 2) = Some ex_peer /\ isCandidate (directPath_ d) ex_peer = false /\
  step toy_x25519 toy_poly1305 ex_public (Packet (seconds 2) ex_peer (u8 <$> [4; 0; 0; 0; 9]) 1 ex_nonce (Some 1) all_sent) d = Some (d, []).
Proof. vm_compute. done. Qed.

(** The flag [stopDirectPath] clears can be set again by the round the thread is
    in while it is joined; it is then left set with no path. *)
Example active_after_stop :
  let d := (ex_play (ex_ops ++ [StopRequest; Tick (milliseconds 1300) ex_draws all_sent; StopFinish])).2 in
  directActive_ d = true /\ udpThread_ d = NoThread /\ udpFd_ d = false.
Proof. vm_compute. done. Qed.
