(* ===== verification/Ownership.v ===== *)
(** Components that own outside resources (sockets, PCBs, packet slots, frames)
    and use them by calls: the interface [Uses] says what a call needs to be open
    and what of it is open afterwards, [run] checks a log of calls, [moves] is
    the rule that lets proofs about one operation ignore what else is open. *)

From stdpp Require Import gmultiset.
From S2P Require Import Prelude.

Class Uses (call resource : Type) `{Countable resource} := {
  needs : call -> gmultiset resource;
  gives : call -> gmultiset resource;
}.

Section ownership.
Context `{Uses call resource}.
Implicit Types r a b f : gmultiset resource.

(** [None] is a breach: a call on something not open, or closed twice. *)
Definition next (c : call) r : option (gmultiset resource) :=
  if bool_decide (needs c ⊆ r) then Some (gives c ⊎ (r ∖ needs c)) else None.
Fixpoint run (calls : list call) r : option (gmultiset resource) :=
  match calls with [] => Some r | c :: rest => r ← next c r; run rest r end.

(** Whatever else is open, the calls use nothing but [a] and leave [b]. *)
Definition moves (calls : list call) a b : Prop := forall f, run calls (a ⊎ f) = Some (b ⊎ f).

Lemma moves_run_app l1 l2 r : run (l1 ++ l2) r = (r ← run l1 r; run l2 r).
Proof. revert r; induction l1 as [|c l1 IH]; intros r; [done|]. cbn. destruct (next c r); [apply IH|done]. Qed.

Lemma moves_done a b : a = b -> moves [] a b.
Proof. by intros ->. Qed.
Lemma moves_nil a : moves [] a a.
Proof. by apply moves_done. Qed.

Lemma moves_call c : moves [c] (needs c) (gives c).
Proof.
  intros f. cbn. unfold next. rewrite bool_decide_eq_true_2 by apply gmultiset_disj_union_subseteq_l. cbn.
  f_equal. f_equal. multiset_solver.
Qed.

Lemma moves_app l1 l2 a b c : moves l1 a b -> moves l2 b c -> moves (l1 ++ l2) a c.
Proof. intros H1 H2 f. rewrite moves_run_app, H1. apply H2. Qed.
Lemma moves_frame l a b x : moves l a b -> moves l (a ⊎ x) (b ⊎ x).
Proof. intros Hm f. rewrite <- !(assoc_L (⊎)). apply Hm. Qed.
Lemma moves_eq l a b a' b' : moves l a' b' -> a = a' -> b = b' -> moves l a b.
Proof. by intros Hm -> ->. Qed.

Lemma moves_cons c l x a b : a = needs c ⊎ x -> moves l (gives c ⊎ x) b -> moves (c :: l) a b.
Proof. intros -> Hm. apply (moves_app [c] l _ (gives c ⊎ x)); [by apply moves_frame, moves_call|done]. Qed.
Lemma moves_next c l a b : needs c ⊆ a -> moves l (gives c ⊎ (a ∖ needs c)) b -> moves (c :: l) a b.
Proof. intros Ha. apply moves_cons. by apply gmultiset_disj_union_difference. Qed.

(** Calls that only use part of what is open. *)
Lemma moves_within l a whole : moves l a a -> a ⊆ whole -> moves l whole whole.
Proof. intros Hm Hs. rewrite (gmultiset_disj_union_difference a whole Hs). by apply moves_frame. Qed.

(** From an empty start, what is open is what was moved there. *)
Lemma moves_run l a b : moves l a b -> run l a = Some b.
Proof. intros Hm. specialize (Hm ∅). by rewrite !(right_id_L ∅ (⊎)) in Hm. Qed.

(** Each element gives up what it owns. *)
Lemma concat_moves {A} (own : A -> gmultiset resource) (close : A -> list call) (l : list A) :
  Forall (fun x => moves (close x) (own x) ∅) l -> moves (concat (close <$> l)) (foldr (fun x acc => own x ⊎ acc) ∅ l) ∅.
Proof.
  induction 1 as [|x l Hx _ IH]; cbn; [apply moves_nil|]. eapply moves_app; [by apply moves_frame|].
  eapply moves_eq; [exact IH|by rewrite (left_id_L ∅ (⊎))|done].
Qed.
End ownership.

(** What the entries of a map own. *)
Section own_all.
Context `{Countable resource} `{Countable K} {A : Type} (own : A -> gmultiset resource).

Definition own_all (m : gmap K A) : gmultiset resource := map_fold (fun _ x acc => own x ⊎ acc) ∅ m.

Lemma own_all_insert (m : gmap K A) k x : m !! k = None -> own_all (<[k := x]> m) = own x ⊎ own_all m.
Proof. intros Hk. unfold own_all. apply (map_fold_insert_L (fun _ x acc => own x ⊎ acc)); [intros; multiset_solver|done]. Qed.
Lemma own_all_delete (m : gmap K A) k x : m !! k = Some x -> own_all m = own x ⊎ own_all (delete k m).
Proof. intros Hk. unfold own_all. apply (map_fold_delete_L (fun _ x acc => own x ⊎ acc)); [intros; multiset_solver|done]. Qed.
Lemma own_all_update (m : gmap K A) k x y : m !! k = Some x -> own_all (<[k := y]> m) = own y ⊎ own_all (delete k m).
Proof. intros Hk. by rewrite <- insert_delete_eq, own_all_insert by apply lookup_delete_eq. Qed.
Lemma own_all_list (m : gmap K A) : own_all m = foldr (fun x acc => own x.2 ⊎ acc) ∅ (map_to_list m).
Proof. unfold own_all. rewrite map_fold_foldr. induction (map_to_list m) as [|[k x] l IH]; cbn; [done|by rewrite IH]. Qed.

Lemma own_all_alter f (m : gmap K A) k : (forall x, own (f x) = own x) -> own_all (alter f k m) = own_all m.
Proof.
  intros Hf. destruct (m !! k) as [x|] eqn:Ex; [|by rewrite alter_id by congruence].
  rewrite (own_all_delete _ _ _ Ex), <- (Hf x). rewrite <- (own_all_update m k x) by done. f_equal.
  apply map_eq. intros i. destruct (decide (i = k)) as [->|Hi].
  - by rewrite lookup_alter_eq, lookup_insert_eq, Ex.
  - by rewrite lookup_alter_ne, lookup_insert_ne.
Qed.
End own_all.
#[global] Arguments own_all : simpl never.

(** Runs a concrete list of calls; [norm] unfolds the component's [needs] and
    [gives]. *)
Ltac moves_with norm :=
  repeat match goal with H : ?P |- _ => match type of P with Prop => clear H end end; cbn [app];
  repeat (apply moves_next; [norm tt; multiset_solver|norm tt]); apply moves_done; multiset_solver.
