(* ===== verification/TsRelay.v ===== *)
(** The loopback relay of the tunnel ([relay/TsLwipRelay.cpp]): listeners on
    127.0.0.1, TCP connections and UDP bindings carried through lwIP, the queue
    of packets from WireGuard, and the loop thread with its wake socket. The loop
    and the calls hold [mutex_]; the queue has its own mutex, so a packet can
    arrive between the steps of the loop, and lwIP's callbacks run while the loop
    gives it packets. [signalWake]'s test of the wake socket and its write are one
    step. Log lines, the byte counters only they use and the lwIP interface that
    [start] adds and [stop] removes are left out. *)

From Stdlib Require Import Init.Byte.
From stdpp Require Import gmultiset.
From S2P Require Import Prelude Ownership.

(** ** Data *)

Record TcpConnection := {
  tc_localSock : Z;
  tc_pcb : option Z;
  tc_port : Z;
  tc_connected : bool;
  tc_hostDone : bool;
}.
Record UdpBinding := {
  ud_localSock : Z;
  ud_pcb : Z;
  ud_client : option Z;
}.
Record IncomingSlot := { is_slot : Z; is_data : bytes }.

(** Where the loop thread is: not started, at [poll], past it with the wake
    socket drained, with packets taken from the queue, ended. *)
Inductive Phase := NoLoop | AtPoll | Drained | Working (packets : list IncomingSlot) (more : bool) | Ended.

(** [wakeFd_] are the wake sockets, [wake] is a byte in the first, [arriving] the packets of the callbacks
    that have found [running_] true and not yet pushed, [signalling] how many have
    pushed the first packet and not yet called [signalWake]. *)
Record Relay := {
  running_ : bool;
  tcpListeners_ : gmap Z Z;
  tcpConnections_ : gmap Z TcpConnection;
  udpBindings_ : gmap Z UdpBinding;
  incomingQueue_ : list IncomingSlot;
  arriving : list IncomingSlot;
  wakeFd_ : Z * Z;
  wake : bool;
  signalling : nat;
  phase : Phase;
  targetAddr_ : Z;
  viaAddr_ : Z;
  viaSubnetRouter_ : bool;
}.
Implicit Types s : Relay.

Definition fresh_relay : Relay :=
  {| running_ := false; tcpListeners_ := ∅; tcpConnections_ := ∅; udpBindings_ := ∅; incomingQueue_ := [];
     arriving := []; wakeFd_ := (-1, -1); wake := false; signalling := 0; phase := NoLoop; targetAddr_ := 0; viaAddr_ := 0; viaSubnetRouter_ := false |}.

(** The calls on sockets, lwIP and wg-nx; [PcbFreed] is lwIP freeing a PCB before
    its error callback. *)
Inductive call :=
| Open (sock : Z)
| Close (sock : Z)
| Wake (sock : Z)
| Drain (sock : Z)
| Send (sock : Z) (data : bytes) (sent : nat)
| SendTo (sock client : Z) (data : bytes)
| PcbNew (pcb : Z)
| PcbConnect (pcb port : Z) (ok : bool)
| PcbWrite (pcb : Z) (data : bytes) (ok : bool)
| PcbClose (pcb : Z) (ok : bool)
| PcbAbort (pcb : Z)
| PcbFreed (pcb : Z)
| UdpRemove (pcb : Z)
| UdpSendTo (pcb port : Z) (data : bytes)
| SlotTaken (slot : Z)
| SlotRelease (slot : Z)
| SlotInput (slot : Z).

Definition with_tcp (ls : gmap Z Z) (cs : gmap Z TcpConnection) s : Relay :=
  {| running_ := running_ s; tcpListeners_ := ls; tcpConnections_ := cs; udpBindings_ := udpBindings_ s;
     incomingQueue_ := incomingQueue_ s; arriving := arriving s; wakeFd_ := wakeFd_ s; wake := wake s; signalling := signalling s; phase := phase s;
     targetAddr_ := targetAddr_ s; viaAddr_ := viaAddr_ s; viaSubnetRouter_ := viaSubnetRouter_ s |}.
Definition with_udp (us : gmap Z UdpBinding) s : Relay :=
  {| running_ := running_ s; tcpListeners_ := tcpListeners_ s; tcpConnections_ := tcpConnections_ s; udpBindings_ := us;
     incomingQueue_ := incomingQueue_ s; arriving := arriving s; wakeFd_ := wakeFd_ s; wake := wake s; signalling := signalling s; phase := phase s;
     targetAddr_ := targetAddr_ s; viaAddr_ := viaAddr_ s; viaSubnetRouter_ := viaSubnetRouter_ s |}.
Definition with_queue (q arr : list IncomingSlot) (w : bool) (n : nat) s : Relay :=
  {| running_ := running_ s; tcpListeners_ := tcpListeners_ s; tcpConnections_ := tcpConnections_ s; udpBindings_ := udpBindings_ s;
     incomingQueue_ := q; arriving := arr; wakeFd_ := wakeFd_ s; wake := w; signalling := n; phase := phase s;
     targetAddr_ := targetAddr_ s; viaAddr_ := viaAddr_ s; viaSubnetRouter_ := viaSubnetRouter_ s |}.
Definition with_phase (r : bool) (p : Phase) s : Relay :=
  {| running_ := r; tcpListeners_ := tcpListeners_ s; tcpConnections_ := tcpConnections_ s; udpBindings_ := udpBindings_ s;
     incomingQueue_ := incomingQueue_ s; arriving := arriving s; wakeFd_ := wakeFd_ s; wake := wake s; signalling := signalling s; phase := p;
     targetAddr_ := targetAddr_ s; viaAddr_ := viaAddr_ s; viaSubnetRouter_ := viaSubnetRouter_ s |}.

(** A byte, while the wake sockets are open. *)
Definition signalWake s : Relay * list call :=
  if (wakeFd_ s).2 <? 0 then (s, [])
  else (with_queue (incomingQueue_ s) (arriving s) true (signalling s) s, [Wake (wakeFd_ s).2]).

Definition kMaxPerIteration : nat := 16.

(** ** Listeners *)

(** [sock] is what [createListener] gave. *)
Definition addTcp (port : Z) (sock : option Z) s : bool * Relay * list call :=
  if bool_decide (is_Some (tcpListeners_ s !! port)) then (true, s, [])
  else
    match sock with
    | None => (false, s, [])
    | Some sock =>
        let '(s, woken) := signalWake (with_tcp (<[port := sock]> (tcpListeners_ s)) (tcpConnections_ s) s) in
        (true, s, Open sock :: woken)
    end.

(** [pcb] is what [udp_new] gave, [bound] whether [udp_bind] succeeded. *)
Definition addUdp (port : Z) (sock pcb : option Z) (bound : bool) s : bool * Relay * list call :=
  if bool_decide (is_Some (udpBindings_ s !! port)) then (true, s, [])
  else
    match sock, pcb with
    | None, _ => (false, s, [])
    | Some sock, None => (false, s, [Open sock; Close sock])
    | Some sock, Some pcb =>
        if negb bound then (false, s, [Open sock; PcbNew pcb; UdpRemove pcb; Close sock])
        else
          let b := {| ud_localSock := sock; ud_pcb := pcb; ud_client := None |} in
          let '(s, woken) := signalWake (with_udp (<[port := b]> (udpBindings_ s)) s) in
          (true, s, [Open sock; PcbNew pcb] ++ woken)
    end.

(** What a listener's [accept] gave: nothing, or a client with the PCB that
    [tcp_new] gave for it and whether [tcp_connect] succeeded. *)
Record Accepted := { ac_client : Z; ac_pcb : option Z; ac_connected : bool }.

Definition accept_one (port : Z) (a : option Accepted) (cs : gmap Z TcpConnection) : gmap Z TcpConnection * list call :=
  match a with
  | None => (cs, [])
  | Some a =>
      let c := ac_client a in
      match ac_pcb a with
      | None => (cs, [Open c; Close c])
      | Some pcb =>
          let opened := <[c := {| tc_localSock := c; tc_pcb := Some pcb; tc_port := port; tc_connected := false; tc_hostDone := false |}]> cs in
          if ac_connected a then (opened, [Open c; PcbNew pcb; PcbConnect pcb port true])
          else (delete c opened, [Open c; PcbNew pcb; PcbConnect pcb port false; PcbAbort pcb; Close c])
      end
  end.

Fixpoint pollTcpListeners (accepts : list (Z * option Accepted)) (cs : gmap Z TcpConnection) : gmap Z TcpConnection * list call :=
  match accepts with
  | [] => (cs, [])
  | (port, a) :: rest =>
      let '(cs, calls) := accept_one port a cs in
      let '(cs, more) := pollTcpListeners rest cs in (cs, calls ++ more)
  end.

(** ** Connections *)

Inductive RecvResult := Received (data : bytes) | ClosedByClient | WouldBlock | RecvFailed.
(** [poll] on the client's socket ([None]: it failed), [recv], [tcp_write],
    [tcp_close]. *)
Record ConnEvents := { ce_poll : option (bool * bool); ce_recv : RecvResult; ce_write : bool; ce_close : bool }.

Definition without_pcb (c : TcpConnection) : TcpConnection :=
  {| tc_localSock := tc_localSock c; tc_pcb := None; tc_port := tc_port c; tc_connected := tc_connected c; tc_hostDone := tc_hostDone c |}.

(** The loop's body on one connection: the connection, is it to be removed. *)
Definition poll_connection (e : ConnEvents) (c : TcpConnection) : TcpConnection * bool * list call :=
  if tc_hostDone c then (c, true, [])
  else if negb (tc_connected c) then (c, false, [])
  else
    match ce_poll e with
    | None => (c, true, [])
    | Some (readable, hungUp) =>
        if negb readable then (c, hungUp, [])
        else
          match ce_recv e with
          | Received data =>
              (c, hungUp, match tc_pcb c with Some pcb => [PcbWrite pcb data (ce_write e)] | None => [] end)
          | WouldBlock => (c, false, [])
          | ClosedByClient | RecvFailed =>
              match tc_pcb c with
              | Some pcb => (without_pcb c, true, PcbClose pcb (ce_close e) :: (if ce_close e then [] else [PcbAbort pcb]))
              | None => (c, true, [])
              end
          end
    end.

(** The first loop over [tcpConnections_], in the order [socks]: [toRemove]. *)
Fixpoint poll_connections (events : Z -> ConnEvents) (socks : list Z) (cs : gmap Z TcpConnection)
    : gmap Z TcpConnection * list Z * list call :=
  match socks with
  | [] => (cs, [], [])
  | sock :: rest =>
      match cs !! sock with
      | None => poll_connections events rest cs
      | Some c =>
          let '(c, remove, calls) := poll_connection (events sock) c in
          let '(cs, toRemove, more) := poll_connections events rest (<[sock := c]> cs) in
          (cs, (if remove : bool then [sock] else []) ++ toRemove, calls ++ more)
      end
  end.

Definition reap (sock : Z) (cs : gmap Z TcpConnection) : gmap Z TcpConnection * list call :=
  match cs !! sock with
  | None => (cs, [])
  | Some c =>
      (delete sock cs, (if 0 <=? tc_localSock c then [Close (tc_localSock c)] else []) ++
                       match tc_pcb c with Some pcb => [PcbAbort pcb] | None => [] end)
  end.
Fixpoint reap_all (socks : list Z) (cs : gmap Z TcpConnection) : gmap Z TcpConnection * list call :=
  match socks with
  | [] => (cs, [])
  | sock :: rest => let '(cs, calls) := reap sock cs in let '(cs, more) := reap_all rest cs in (cs, calls ++ more)
  end.

Definition pollTcpConnections (events : Z -> ConnEvents) (socks : list Z) (cs : gmap Z TcpConnection) : gmap Z TcpConnection * list call :=
  let '(cs, toRemove, calls) := poll_connections events socks cs in
  let '(cs, more) := reap_all toRemove cs in (cs, calls ++ more).

(** ** UDP *)

(** A datagram from the client, its sender, and whether [pbuf_alloc] succeeded. *)
Record Datagram := { dg_data : bytes; dg_from : Z; dg_pbuf : bool }.

Fixpoint pollUdpSockets (received : list (Z * option Datagram)) (us : gmap Z UdpBinding) : gmap Z UdpBinding * list call :=
  match received with
  | [] => (us, [])
  | (port, d) :: rest =>
      match us !! port, d with
      | Some b, Some d =>
          let us := <[port := {| ud_localSock := ud_localSock b; ud_pcb := ud_pcb b; ud_client := Some (dg_from d) |}]> us in
          let '(us, more) := pollUdpSockets rest us in
          (us, (if dg_pbuf d then [UdpSendTo (ud_pcb b) port (dg_data d)] else []) ++ more)
      | _, _ => pollUdpSockets rest us
      end
  end.

(** ** Packets from WireGuard *)

(** [handleIncomingPacket]: the guards; then the push, when the slot is kept; the
    wake-up after the first packet is a step of its own. *)
Definition packet_arrives (p : IncomingSlot) s : bool * Relay :=
  if negb (running_ s) || bool_decide (is_data p = []) then (false, s)
  else (true, with_queue (incomingQueue_ s) (arriving s ++ [p]) (wake s) (signalling s) s).
Definition packet_pushed (i : nat) s : Relay * list call :=
  match arriving s !! i with
  | None => (s, [])
  | Some p =>
      (with_queue (incomingQueue_ s ++ [p]) (delete i (arriving s)) (wake s)
         (match incomingQueue_ s with [] => S (signalling s) | _ => signalling s end) s,
       [SlotTaken (is_slot p)])
  end.
Definition packet_signals s : Relay * list call :=
  signalWake (with_queue (incomingQueue_ s) (arriving s) (wake s) (Nat.pred (signalling s)) s).

(** [processIncomingQueue]: the packets taken, the body for one of them ([holder]:
    is a slot holder free?), the wake-up. *)
Definition take_packets s : Relay :=
  let n := Nat.min (length (incomingQueue_ s)) kMaxPerIteration in
  let q := drop n (incomingQueue_ s) in
  with_phase (running_ s) (Working (take n (incomingQueue_ s)) (negb (bool_decide (q = []))))
    (with_queue q (arriving s) (wake s) (signalling s) s).
Definition input_packet (holder : bool) s : Relay * list call :=
  match phase s with
  | Working (p :: rest) more =>
      (with_phase (running_ s) (Working rest more) s, [if holder then SlotInput (is_slot p) else SlotRelease (is_slot p)])
  | _ => (s, [])
  end.

(** ** The loop *)

(** [poll] returned; [readable]: the wake socket. *)
Definition loop_poll (readable : bool) s : Relay * list call :=
  if negb (running_ s) then (with_phase (running_ s) Ended s, [])
  else
    (with_phase (running_ s) Drained (with_queue (incomingQueue_ s) (arriving s) (if readable then false else wake s) (signalling s) s),
     if readable then [Drain (wakeFd_ s).1] else []).

(** What the world answers to the polls of one round. *)
Record Round := {
  rd_accepts : list (Z * option Accepted);
  rd_socks : list Z;
  rd_events : Z -> ConnEvents;
  rd_datagrams : list (Z * option Datagram);
}.

(** The rest of a round, when the packets have been given to lwIP. *)
Definition loop_work (r : Round) s : Relay * list call :=
  match phase s with
  | Working [] more =>
      let '(s, woken) := if more then signalWake s else (s, []) in
      let '(cs, accepted) := pollTcpListeners (rd_accepts r) (tcpConnections_ s) in
      let '(cs, polled) := pollTcpConnections (rd_events r) (rd_socks r) cs in
      let '(us, datagrams) := pollUdpSockets (rd_datagrams r) (udpBindings_ s) in
      (with_phase (running_ s) AtPoll (with_udp us (with_tcp (tcpListeners_ s) cs s)), woken ++ accepted ++ polled ++ datagrams)
  | _ => (s, [])
  end.

(** ** lwIP's callbacks *)

Definition update_connection (sock : Z) (f : TcpConnection -> TcpConnection) s : Relay :=
  with_tcp (tcpListeners_ s) (alter f sock (tcpConnections_ s)) s.

Definition set_connected (c : TcpConnection) : TcpConnection :=
  {| tc_localSock := tc_localSock c; tc_pcb := tc_pcb c; tc_port := tc_port c; tc_connected := true; tc_hostDone := tc_hostDone c |}.
Definition set_hostDone (c : TcpConnection) : TcpConnection :=
  {| tc_localSock := tc_localSock c; tc_pcb := tc_pcb c; tc_port := tc_port c; tc_connected := tc_connected c; tc_hostDone := true |}.

Definition onTcpConnected (sock : Z) (ok : bool) s : Relay := if ok then update_connection sock set_connected s else s.

(** What [send] on a non-blocking socket answers; [sendAll] takes the answers in
    order, [None] when they run out. *)
Inductive SendAnswer := Sent (n : nat) | Again | SendError.
Definition kMaxStalls : nat := 200.
Fixpoint sendAll (answers : list SendAnswer) (len sent stalls : nat) : option (bool * nat) :=
  if (len <=? sent)%nat then Some (true, sent)
  else
    match answers with
    | [] => None
    | Sent (S n) :: rest => sendAll rest len (sent + S n) 0
    | Again :: rest => if (S stalls <? kMaxStalls)%nat then sendAll rest len sent (S stalls) else Some (false, sent)
    | Sent O :: _ | SendError :: _ => Some (false, sent)
    end.

(** The segments of the chain, each with what [sendAll] returned, until one fails. *)
Fixpoint send_chain (sock : Z) (segments : list (bytes * (bool * nat))) : list call :=
  match segments with
  | [] => []
  | (data, (ok, sent)) :: rest => Send sock data sent :: (if ok then send_chain sock rest else [])
  end.
(** [None]: the host closed, or an error. *)
Definition onTcpRecv (sock : Z) (chain : option (list (bytes * (bool * nat)))) s : Relay * list call :=
  match tcpConnections_ s !! sock with
  | None => (s, [])
  | Some c =>
      match chain with
      | None => (update_connection sock set_hostDone s, [])
      | Some segments => (s, send_chain (tc_localSock c) segments)
      end
  end.
Definition onTcpError (sock : Z) s : Relay * list call :=
  match tcpConnections_ s !! sock with
  | None => (s, [])
  | Some c => (update_connection sock (fun c => set_hostDone (without_pcb c)) s, match tc_pcb c with Some pcb => [PcbFreed pcb] | None => [] end)
  end.
Definition onUdpRecv (port : Z) (data : bytes) s : list call :=
  match udpBindings_ s !! port with
  | Some b => match ud_client b with
              | Some client => if 2048 <? zlen data then [] else [SendTo (ud_localSock b) client data]
              | None => [] end
  | None => []
  end.

(** ** Starting and stopping *)

Definition close_wake (fds : Z * Z) : list call :=
  (if 0 <=? fds.1 then [Close fds.1] else []) ++ (if 0 <=? fds.2 then [Close fds.2] else []).
Definition open_wake (fds : Z * Z) : list call :=
  (if 0 <=? fds.1 then [Open fds.1] else []) ++ (if 0 <=? fds.2 then [Open fds.2] else []).

(** The addresses as [inet_pton] reads them; [viaIp] is [None] when the pointer is
    null or the string empty. [fds]: what [socket] gave for the wake sockets;
    [bound]: whether the first could be bound and the second connected to it. *)
Definition start (tunnel : bool) (tunnelIp targetIp : option Z) (viaIp : option (option Z)) (fds : Z * Z) (bound : bool) s
    : bool * Relay * list call :=
  let addressed (r : bool) (fds : Z * Z) (w : bool) (p : Phase) (target via : Z) (routed : bool) :=
    {| running_ := r; tcpListeners_ := tcpListeners_ s; tcpConnections_ := tcpConnections_ s; udpBindings_ := udpBindings_ s;
       incomingQueue_ := incomingQueue_ s; arriving := arriving s; wakeFd_ := fds; wake := w; signalling := signalling s; phase := p;
       targetAddr_ := target; viaAddr_ := via; viaSubnetRouter_ := routed |} in
  if running_ s || negb tunnel then (false, s, [])
  else
    match tunnelIp, targetIp with
    | Some _, Some target =>
        match default targetIp viaIp with
        | None => (false, addressed (running_ s) (wakeFd_ s) (wake s) (phase s) target (viaAddr_ s) (viaSubnetRouter_ s), [])
        | Some via =>
            let routed := negb (via =? target) in
            if (fds.1 <? 0) || (fds.2 <? 0) || negb bound
            then (false, addressed (running_ s) (-1, -1) (wake s) (phase s) target via routed, open_wake fds ++ close_wake fds)
            else (true, addressed true fds false AtPoll target via routed, open_wake fds)
        end
    | _, _ => (false, s, [])
    end.

(** [onNetifOutput]: the address under which wg-nx looks up the peer. *)
Definition onNetifOutput (dest : Z) s : Z :=
  if viaSubnetRouter_ s && (dest =? targetAddr_ s) then viaAddr_ s else dest.

(** [stop] up to the join. *)
Definition stop_request s : Relay * list call := signalWake (with_phase false (phase s) s).

Definition stop_connections (cs : list (Z * TcpConnection)) : list call :=
  concat ((fun '(_, c) => (if 0 <=? tc_localSock c then [Close (tc_localSock c)] else []) ++
                          match tc_pcb c with Some pcb => [PcbAbort pcb] | None => [] end) <$> cs).
Definition stop_bindings (us : list (Z * UdpBinding)) : list call :=
  concat ((fun '(_, b) => (if 0 <=? ud_localSock b then [Close (ud_localSock b)] else []) ++ [UdpRemove (ud_pcb b)]) <$> us).

(** [stop] after it. *)
Definition stop_finish s : Relay * list call :=
  ({| running_ := running_ s; tcpListeners_ := ∅; tcpConnections_ := ∅; udpBindings_ := ∅; incomingQueue_ := [];
      arriving := arriving s; wakeFd_ := (-1, -1); wake := false; signalling := signalling s; phase := NoLoop; targetAddr_ := targetAddr_ s;
      viaAddr_ := viaAddr_ s; viaSubnetRouter_ := viaSubnetRouter_ s |},
   close_wake (wakeFd_ s) ++ ((fun p => SlotRelease (is_slot p)) <$> incomingQueue_ s) ++
   ((fun '(_, sock) => Close sock) <$> map_to_list (tcpListeners_ s)) ++
   stop_connections (map_to_list (tcpConnections_ s)) ++ stop_bindings (map_to_list (udpBindings_ s))).

(** ** The steps *)

Inductive op :=
| AddTcp (port : Z) (sock : option Z)
| AddUdp (port : Z) (sock pcb : option Z) (bound : bool)
| Begin (tunnel : bool) (tunnelIp targetIp : option Z) (viaIp : option (option Z)) (fds : Z * Z) (bound : bool)
| Arrive (p : IncomingSlot)
| Push (i : nat)
| Signal
| LoopPoll (readable : bool)
| LoopTake
| LoopInput (holder : bool)
| LoopWork (r : Round)
| Connected (sock : Z) (ok : bool)
| FromHost (sock : Z) (chain : option (list (bytes * (bool * nat))))
| HostError (sock : Z)
| UdpFromHost (port : Z) (data : bytes)
| StopRequest
| StopFinish.

Definition step (o : op) s : Relay * list call :=
  match o with
  | AddTcp port sock => let '(_, s, calls) := addTcp port sock s in (s, calls)
  | AddUdp port sock pcb bound => let '(_, s, calls) := addUdp port sock pcb bound s in (s, calls)
  | Begin tunnel ip target via fds bound => let '(_, s, calls) := start tunnel ip target via fds bound s in (s, calls)
  | Arrive p => ((packet_arrives p s).2, [])
  | Push i => packet_pushed i s
  | Signal => packet_signals s
  | LoopPoll readable => loop_poll readable s
  | LoopTake => (take_packets s, [])
  | LoopInput holder => input_packet holder s
  | LoopWork r => loop_work r s
  | Connected sock ok => (onTcpConnected sock ok s, [])
  | FromHost sock chain => onTcpRecv sock chain s
  | HostError sock => onTcpError sock s
  | UdpFromHost port data => (s, onUdpRecv port data s)
  | StopRequest => stop_request s
  | StopFinish => stop_finish s
  end.

(** [accept] gives a descriptor that is not open, when it is called. *)
Fixpoint fresh_accepts (accepts : list (Z * option Accepted)) (cs : gmap Z TcpConnection) : Prop :=
  match accepts with
  | [] => True
  | (port, a) :: rest =>
      match a with Some a => 0 <= ac_client a /\ cs !! ac_client a = None | None => True end /\
      fresh_accepts rest (accept_one port a cs).1
  end.

(** Where each step can happen. *)
Definition enabled (o : op) s : Prop :=
  match o with
  | AddTcp _ sock | AddUdp _ sock _ _ => match sock with Some sock => 0 <= sock | None => True end
  | Begin _ _ _ _ _ _ => phase s = NoLoop
  | Signal => (0 < signalling s)%nat
  | LoopPoll readable => phase s = AtPoll /\ (readable = true -> wake s = true)
  | LoopTake => phase s = Drained
  | LoopWork r => fresh_accepts (rd_accepts r) (tcpConnections_ s)
  | StopFinish => phase s = Ended \/ (phase s = NoLoop /\ running_ s = false)
  | _ => True
  end.

(** The runs whose steps [may] allows, with the calls they make. *)
Inductive reaches (may : op -> Relay -> Prop) : list call -> Relay -> Prop :=
| reaches_fresh : reaches may [] fresh_relay
| reaches_step calls s o : reaches may calls s -> may o s -> reaches may (calls ++ (step o s).2) (step o s).1.

(** No callback of the tunnel is between its check and its push when [stop]
    finishes. *)
Definition quiet (o : op) s : Prop := enabled o s /\ (o = StopFinish -> arriving s = []).

(** ** What is open *)

Inductive resource := Sock (x : Z) | Pcb (x : Z) | Slot (x : Z).
#[export] Instance resource_eq_dec : EqDecision resource.
Proof. solve_decision. Defined.
#[export] Instance resource_countable : Countable resource.
Proof.
  apply (inj_countable' (fun r => match r with Sock x => inl x | Pcb x => inr (inl x) | Slot x => inr (inr x) end)
           (fun e : Z + (Z + Z) => match e with inl x => Sock x | inr (inl x) => Pcb x | inr (inr x) => Slot x end)); by intros [].
Defined.
Abbreviation Open_ := (gmultiset resource).

(** What a call needs to be open, and what of that is open after it. *)
#[export] Instance relay_uses : Uses call resource := {
  needs c :=
    match c with
    | Open _ | PcbNew _ | SlotTaken _ => ∅
    | Close x | Wake x | Drain x | Send x _ _ | SendTo x _ _ => {[+ Sock x +]}
    | PcbConnect x _ _ | PcbWrite x _ _ | PcbClose x _ | PcbAbort x | PcbFreed x | UdpRemove x | UdpSendTo x _ _ => {[+ Pcb x +]}
    | SlotRelease x | SlotInput x => {[+ Slot x +]}
    end;
  gives c :=
    match c with
    | Open x | Wake x | Drain x | Send x _ _ | SendTo x _ _ => {[+ Sock x +]}
    | PcbNew x | PcbConnect x _ _ | PcbWrite x _ _ | PcbClose x false | UdpSendTo x _ _ => {[+ Pcb x +]}
    | SlotTaken x => {[+ Slot x +]}
    | _ => ∅
    end;
}.

Definition own_sock (x : Z) : Open_ := {[+ Sock x +]}.
Definition own_pcb (pcb : option Z) : Open_ := match pcb with Some x => {[+ Pcb x +]} | None => ∅ end.
Definition own_conn (c : TcpConnection) : Open_ := {[+ Sock (tc_localSock c) +]} ⊎ own_pcb (tc_pcb c).
Definition own_udp (b : UdpBinding) : Open_ := {[+ Sock (ud_localSock b) +]} ⊎ {[+ Pcb (ud_pcb b) +]}.
Definition own_slots (l : list IncomingSlot) : Open_ := list_to_set_disj (Slot ∘ is_slot <$> l).
Definition in_hand s : list IncomingSlot := match phase s with Working packets _ => packets | _ => [] end.
Definition own_fd (fd : Z) : Open_ := if 0 <=? fd then {[+ Sock fd +]} else ∅.
Definition own_wake (fds : Z * Z) : Open_ := own_fd fds.1 ⊎ own_fd fds.2.
Definition owned s : Open_ :=
  own_all own_sock (tcpListeners_ s) ⊎ own_all own_conn (tcpConnections_ s) ⊎ own_all own_udp (udpBindings_ s) ⊎
  own_slots (in_hand s) ⊎ own_slots (incomingQueue_ s) ⊎ own_wake (wakeFd_ s).

#[local] Arguments own_slots : simpl never.
#[local] Arguments own_wake : simpl never.
#[local] Arguments own_fd : simpl never.

Lemma own_slots_app l1 l2 : own_slots (l1 ++ l2) = own_slots l1 ⊎ own_slots l2.
Proof. unfold own_slots. by rewrite fmap_app, list_to_set_disj_app. Qed.
Lemma own_slots_cons p l : own_slots (p :: l) = {[+ Slot (is_slot p) +]} ⊎ own_slots l.
Proof. done. Qed.

Ltac moves_solver := moves_with ltac:(fun _ => cbn [needs gives relay_uses]).

(** The wake sockets are open while the loop's thread exists. *)
Definition wakeful s : Prop :=
  match phase s with NoLoop => wakeFd_ s = (-1, -1) | _ => 0 <= (wakeFd_ s).1 /\ 0 <= (wakeFd_ s).2 end.

Lemma own_fd_open fd : 0 <= fd -> own_fd fd = {[+ Sock fd +]}.
Proof. intros H. unfold own_fd. by rewrite (proj2 (Z.leb_le _ _) H). Qed.
Lemma fd_moves x : moves (if 0 <=? x then [Close x] else []) (own_fd x) ∅ /\ moves (if 0 <=? x then [Open x] else []) ∅ (own_fd x).
Proof. unfold own_fd. destruct (0 <=? x); split; try apply moves_nil; moves_solver. Qed.
Lemma close_wake_moves fds : moves (close_wake fds) (own_wake fds) ∅.
Proof.
  eapply moves_app; [apply moves_frame, fd_moves|]. rewrite (left_id_L ∅ (⊎)). apply fd_moves.
Qed.
Lemma open_wake_moves fds : moves (open_wake fds) ∅ (own_wake fds).
Proof.
  eapply moves_app; [apply fd_moves|]. rewrite <- (left_id_L ∅ (⊎) (own_fd fds.1)) at 1.
  eapply moves_eq; [apply (moves_frame _ ∅ (own_fd fds.2)), fd_moves|done|]. unfold own_wake. apply (comm_L (⊎)).
Qed.

Lemma open_wake_frame fds rest : moves (open_wake fds) rest (rest ⊎ own_wake fds).
Proof.
  eapply moves_eq; [exact (moves_frame _ _ _ rest (open_wake_moves fds))|by rewrite (left_id_L ∅ (⊎))|apply (comm_L (⊎))].
Qed.
Lemma close_wake_frame fds rest : moves (open_wake fds ++ close_wake fds) rest rest.
Proof.
  eapply moves_app; [apply open_wake_frame|]. rewrite (comm_L (⊎)).
  eapply moves_eq; [apply moves_frame, close_wake_moves|done|by rewrite (left_id_L ∅ (⊎))].
Qed.

(** What [signalWake] does: nothing but a byte, when the sockets are open. *)
Lemma signalWake_inv s :
  exists w, (signalWake s).1 = with_queue (incomingQueue_ s) (arriving s) w (signalling s) s /\
    (wake s = true -> w = true) /\ (0 <= (wakeFd_ s).2 -> w = true) /\ moves (signalWake s).2 (owned s) (owned s) /\
    Forall (fun c => exists x, c = Wake x) (signalWake s).2.
Proof.
  unfold signalWake. destruct (Z.ltb_spec (wakeFd_ s).2 0) as [|Hfd]; cbn [fst snd].
  - exists (wake s). split_and!; [by destruct s|done|lia|apply moves_nil|constructor].
  - exists true. split_and!; try done; [|by repeat econstructor].
    apply (moves_within _ (own_fd (wakeFd_ s).2)); [rewrite own_fd_open by done; moves_solver|].
    unfold owned, own_wake. multiset_solver.
Qed.

(** A connection is filed under its socket. *)
Definition filed (cs : gmap Z TcpConnection) : Prop := forall k c, cs !! k = Some c -> tc_localSock c = k /\ 0 <= k.

Lemma filed_insert cs k c : filed cs -> tc_localSock c = k -> 0 <= k -> filed (<[k := c]> cs).
Proof. intros H Hc Hk i d. rewrite lookup_insert_Some. intros [[<- <-]|[_ Hd]]; [done|by apply H]. Qed.
Lemma filed_delete cs k : filed cs -> filed (delete k cs).
Proof. intros H i c [_ Hc]%lookup_delete_Some. by apply H. Qed.

Lemma accept_one_moves port a cs :
  filed cs -> match a with Some a => 0 <= ac_client a /\ cs !! ac_client a = None | None => True end ->
  filed (accept_one port a cs).1 /\ moves (accept_one port a cs).2 (own_all own_conn cs) (own_all own_conn (accept_one port a cs).1).
Proof.
  intros Hf Ha. unfold accept_one. destruct a as [[c pcb ok]|]; cbn [ac_client ac_pcb ac_connected] in *; [|split; [done|apply moves_nil]].
  destruct Ha as [Hc Hn]. destruct pcb as [pcb|]; [destruct ok|]; cbn [fst snd].
  - split; [by apply filed_insert|]. rewrite own_all_insert by done. unfold own_conn at 2. cbn [tc_localSock tc_pcb own_pcb]. moves_solver.
  - split; [by apply filed_delete, filed_insert|]. rewrite delete_insert_id by done. moves_solver.
  - split; [done|]. moves_solver.
Qed.

Lemma pollTcpListeners_moves accepts cs :
  filed cs -> fresh_accepts accepts cs ->
  filed (pollTcpListeners accepts cs).1 /\
  moves (pollTcpListeners accepts cs).2 (own_all own_conn cs) (own_all own_conn (pollTcpListeners accepts cs).1).
Proof.
  revert cs; induction accepts as [|[port a] rest IH]; intros cs Hf Ha; cbn; [split; [done|apply moves_nil]|].
  destruct Ha as [Ha Hr]. destruct (accept_one_moves port a cs Hf Ha) as [Hf1 Hm1].
  destruct (accept_one port a cs) as [cs1 calls]; cbn [fst snd] in *. destruct (IH cs1 Hf1 Hr) as [Hf2 Hm2].
  destruct (pollTcpListeners rest cs1) as [cs2 more]; cbn [fst snd] in *. split; [done|by eapply moves_app].
Qed.

Lemma poll_connection_moves e c :
  tc_localSock (poll_connection e c).1.1 = tc_localSock c /\
  moves (poll_connection e c).2 (own_conn c) (own_conn (poll_connection e c).1.1).
Proof.
  unfold poll_connection, own_conn.
  destruct (tc_hostDone c); [split; [done|apply moves_nil]|]. destruct (tc_connected c); [|split; [done|apply moves_nil]]. cbn [negb].
  destruct (ce_poll e) as [[[] hungUp]|]; cbn [negb]; try by (split; [|apply moves_nil]).
  destruct (ce_recv e), (tc_pcb c) eqn:Ep, (ce_close e); cbn [fst snd without_pcb tc_localSock tc_pcb];
    rewrite ?Ep; cbn [own_pcb]; split; try done; moves_solver.
Qed.

Lemma poll_connections_moves events socks cs :
  filed cs ->
  filed (poll_connections events socks cs).1.1 /\
  moves (poll_connections events socks cs).2 (own_all own_conn cs) (own_all own_conn (poll_connections events socks cs).1.1).
Proof.
  revert cs; induction socks as [|sock rest IH]; intros cs Hf; cbn; [split; [done|apply moves_nil]|].
  destruct (cs !! sock) as [c|] eqn:Ec; [|by apply IH].
  destruct (poll_connection_moves (events sock) c) as [Hs Hm]. destruct (Hf _ _ Ec) as [Hk Hp].
  destruct (poll_connection (events sock) c) as [[c' remove] calls]; cbn [fst snd] in *.
  destruct (IH (<[sock := c']> cs)) as [Hf2 Hm2]; [apply filed_insert; [done|congruence|done]|].
  destruct (poll_connections events rest (<[sock := c']> cs)) as [[cs2 rm] more]; cbn [fst snd] in *. split; [done|].
  eapply moves_app; [|exact Hm2]. rewrite (own_all_delete _ _ _ _ Ec), (own_all_update _ _ _ _ _ Ec). by apply moves_frame.
Qed.

Lemma close_moves c : 0 <= tc_localSock c ->
  moves ((if 0 <=? tc_localSock c then [Close (tc_localSock c)] else []) ++ match tc_pcb c with Some pcb => [PcbAbort pcb] | None => [] end)
    (own_conn c) ∅.
Proof. intros H. rewrite (proj2 (Z.leb_le _ _) H). unfold own_conn. destruct (tc_pcb c); cbn [own_pcb]; moves_solver. Qed.

Lemma reap_all_moves socks cs :
  filed cs ->
  filed (reap_all socks cs).1 /\ moves (reap_all socks cs).2 (own_all own_conn cs) (own_all own_conn (reap_all socks cs).1).
Proof.
  revert cs; induction socks as [|sock rest IH]; intros cs Hf; cbn; [split; [done|apply moves_nil]|]. unfold reap.
  destruct (cs !! sock) as [c|] eqn:Ec.
  - destruct (IH (delete sock cs) (filed_delete _ _ Hf)) as [Hf2 Hm2]. destruct (Hf _ _ Ec) as [Hk Hp].
    destruct (reap_all rest (delete sock cs)) as [cs2 more]; cbn [fst snd] in *. split; [done|].
    eapply moves_app; [|exact Hm2]. rewrite (own_all_delete _ _ _ _ Ec).
    eapply moves_eq; [eapply moves_frame, close_moves; congruence|done|by rewrite (left_id_L ∅ (⊎))].
  - destruct (IH cs Hf) as [Hf2 Hm2]. by destruct (reap_all rest cs).
Qed.

Lemma pollTcpConnections_moves events socks cs :
  filed cs ->
  filed (pollTcpConnections events socks cs).1 /\
  moves (pollTcpConnections events socks cs).2 (own_all own_conn cs) (own_all own_conn (pollTcpConnections events socks cs).1).
Proof.
  intros Hf. unfold pollTcpConnections. destruct (poll_connections_moves events socks cs Hf) as [Hf1 Hm1].
  destruct (poll_connections events socks cs) as [[cs1 rm] calls]; cbn [fst snd] in *.
  destruct (reap_all_moves rm cs1 Hf1) as [Hf2 Hm2]. destruct (reap_all rm cs1); cbn [fst snd] in *. split; [done|by eapply moves_app].
Qed.

Lemma pollUdpSockets_moves received us :
  (forall k b, us !! k = Some b -> 0 <= ud_localSock b) ->
  (forall k b, (pollUdpSockets received us).1 !! k = Some b -> 0 <= ud_localSock b) /\
  moves (pollUdpSockets received us).2 (own_all own_udp us) (own_all own_udp (pollUdpSockets received us).1).
Proof.
  revert us; induction received as [|[port d] rest IH]; intros us Hu; cbn; [split; [done|apply moves_nil]|].
  destruct (us !! port) as [b|] eqn:Eb; [destruct d as [d|]|]; [|exact (IH us Hu)..].
  set (us1 := <[port := _]> us). destruct (IH us1) as [Hu2 Hm2].
  { intros k x. unfold us1. rewrite lookup_insert_Some. intros [[_ <-]|[_ Hx]]; [exact (Hu _ _ Eb)|exact (Hu _ _ Hx)]. }
  destruct (pollUdpSockets rest us1) as [us2 more]; cbn [fst snd] in *. split; [done|].
  eapply moves_app; [|exact Hm2]. unfold us1. rewrite (own_all_delete _ _ _ _ Eb), (own_all_update _ _ _ _ _ Eb). apply moves_frame.
  unfold own_udp; cbn [ud_localSock ud_pcb]. destruct (dg_pbuf d); moves_solver.
Qed.

Lemma release_moves l : moves ((fun p => SlotRelease (is_slot p)) <$> l) (own_slots l) ∅.
Proof.
  induction l as [|p l IH]; cbn; [apply moves_nil|]. eapply moves_cons; [apply own_slots_cons|].
  eapply moves_eq; [exact IH|by cbn [gives relay_uses]; rewrite (left_id_L ∅ (⊎))|done].
Qed.

Definition sound s : Prop := filed (tcpConnections_ s) /\ forall k b, udpBindings_ s !! k = Some b -> 0 <= ud_localSock b.

Lemma stop_finish_moves s : sound s -> in_hand s = [] -> moves (stop_finish s).2 (owned s) ∅.
Proof.
  intros [Hf Hu] Hh. unfold stop_finish, owned. rewrite Hh. cbn [snd].
  change (own_slots []) with (∅ : Open_). rewrite (right_id_L ∅ (⊎)), (comm_L (⊎) _ (own_slots _)), (comm_L (⊎) _ (own_wake _)).
  rewrite <- !(assoc_L (⊎)).
  eapply moves_app; [apply moves_frame, close_wake_moves|]. rewrite (left_id_L ∅ (⊎)).
  eapply moves_app; [apply moves_frame, release_moves|]. rewrite (left_id_L ∅ (⊎)).
  eapply moves_app; [apply moves_frame|rewrite (left_id_L ∅ (⊎)); eapply moves_app; [apply moves_frame|rewrite (left_id_L ∅ (⊎))]].
  - rewrite own_all_list. induction (map_to_list (tcpListeners_ s)) as [|[k x] l IH]; cbn; [apply moves_nil|].
    eapply moves_cons; [done|]. cbn [gives relay_uses]. by rewrite (left_id_L ∅ (⊎)).
  - rewrite own_all_list. apply (concat_moves (fun x => own_conn x.2)). apply list.Forall_forall. intros [k c] Hc%elem_of_map_to_list.
    apply close_moves. destruct (Hf _ _ Hc). cbn. congruence.
  - rewrite own_all_list. apply (concat_moves (fun x => own_udp x.2)). apply list.Forall_forall. intros [k b] Hb%elem_of_map_to_list.
    apply Hu in Hb. cbn [snd]. rewrite (proj2 (Z.leb_le _ _) Hb). unfold own_udp. moves_solver.
Qed.

Lemma filed_alter f cs sock : (forall c, tc_localSock (f c) = tc_localSock c) -> filed cs -> filed (alter f sock cs).
Proof. intros Hf H k c. rewrite lookup_alter_Some. intros [(-> & d & Hd & ->)|[_ Hc]]; [rewrite Hf|]; by apply H. Qed.

Lemma addTcp_moves port sock s : sound s -> sound (addTcp port sock s).1.2 /\ moves (addTcp port sock s).2 (owned s) (owned (addTcp port sock s).1.2).
Proof.
  intros H. unfold addTcp. destruct (bool_decide _) eqn:E; [split; [done|apply moves_nil]|].
  destruct sock as [sock|]; [|split; [done|apply moves_nil]].
  set (s1 := with_tcp _ _ s). destruct (signalWake_inv s1) as (w&Ew&_&_&Hm&_). destruct (signalWake s1) as [s2 woken].
  cbn [fst snd] in *. subst s2. split; [done|]. apply (moves_app [_] _ _ (owned s1)); [|exact Hm].
  apply bool_decide_eq_false, eq_None_not_Some in E. unfold owned, in_hand, s1. cbn. rewrite own_all_insert by done. unfold own_sock at 2. moves_solver.
Qed.
Lemma addUdp_moves port sock pcb bound s :
  sound s -> match sock with Some x => 0 <= x | None => True end ->
  sound (addUdp port sock pcb bound s).1.2 /\ moves (addUdp port sock pcb bound s).2 (owned s) (owned (addUdp port sock pcb bound s).1.2).
Proof.
  intros [Hf Hu] Hs. unfold addUdp. destruct (bool_decide _) eqn:E; [split; [done|apply moves_nil]|].
  destruct sock as [sock|], pcb as [pcb|]; try (split; [done|]; first [apply moves_nil|cbn [fst snd]; moves_solver]).
  destruct bound; cbn [negb fst snd]; [|split; [done|moves_solver]].
  set (s1 := with_udp _ s). destruct (signalWake_inv s1) as (w&Ew&_&_&Hm&_). destruct (signalWake s1) as [s2 woken].
  cbn [fst snd] in *. subst s2. apply bool_decide_eq_false, eq_None_not_Some in E. split.
  - split; [done|]. cbn. intros k b. rewrite lookup_insert_Some. intros [[_ <-]|[_ Hb]]; [done|exact (Hu _ _ Hb)].
  - eapply moves_app; [|exact Hm]. unfold owned, in_hand, s1. cbn. rewrite own_all_insert by done. unfold own_udp at 2. cbn [ud_localSock ud_pcb]. moves_solver.
Qed.

Lemma callback_moves o s :
  match o with Connected _ _ | FromHost _ _ | HostError _ | UdpFromHost _ _ => True | _ => False end -> sound s ->
  sound (step o s).1 /\ moves (step o s).2 (owned s) (owned (step o s).1).
Proof.
  intros Ho [Hf Hu]. destruct o; try done; cbn [step].
  - unfold onTcpConnected. destruct ok; cbn [fst snd]; [|split; [done|apply moves_nil]].
    split; [split; [by apply filed_alter|done]|]. apply moves_done. unfold owned, in_hand, update_connection; cbn. by rewrite own_all_alter.
  - unfold onTcpRecv. destruct (tcpConnections_ s !! sock) as [c|] eqn:Ec; [|split; [done|apply moves_nil]].
    destruct chain as [segments|]; cbn [fst snd].
    + split; [done|]. unfold owned. rewrite (own_all_delete _ _ _ _ Ec). unfold own_conn at 1 3.
      induction segments as [|[data [ok n]] rest IH]; cbn [send_chain]; [apply moves_nil|].
      destruct ok; [|moves_solver]. eapply moves_app with (l1 := [_]); [|exact IH]. moves_solver.
    + split; [split; [by apply filed_alter|done]|]. apply moves_done. unfold owned, in_hand, update_connection; cbn. by rewrite own_all_alter.
  - unfold onTcpError. destruct (tcpConnections_ s !! sock) as [c|] eqn:Ec; [|split; [done|apply moves_nil]]. cbn [fst snd].
    split; [split; [by apply filed_alter|done]|]. unfold owned, in_hand, update_connection; cbn.
    assert (alter (fun c => set_hostDone (without_pcb c)) sock (tcpConnections_ s) = <[sock := set_hostDone (without_pcb c)]> (tcpConnections_ s)) as ->.
    { apply map_eq. intros i. destruct (decide (i = sock)) as [->|Hi];
        [by rewrite lookup_alter_eq, lookup_insert_eq, Ec|by rewrite lookup_alter_ne, lookup_insert_ne]. }
    rewrite (own_all_delete _ _ _ _ Ec), (own_all_update _ _ _ _ _ Ec). unfold own_conn at 1 3. cbn [tc_localSock tc_pcb set_hostDone without_pcb own_pcb].
    destruct (tc_pcb c); cbn [own_pcb]; moves_solver.
  - split; [done|]. unfold onUdpRecv. destruct (udpBindings_ s !! port) as [b|] eqn:Eb; [|apply moves_nil].
    destruct (ud_client b); [|apply moves_nil]. destruct (2048 <? _); [apply moves_nil|].
    cbn [fst snd]. unfold owned. rewrite (own_all_delete _ _ _ _ Eb). unfold own_udp at 1 3. moves_solver.
Qed.

Lemma loop_work_moves r s : sound s -> fresh_accepts (rd_accepts r) (tcpConnections_ s) ->
  sound (loop_work r s).1 /\ moves (loop_work r s).2 (owned s) (owned (loop_work r s).1).
Proof.
  intros [Hf Hu] Ha. unfold loop_work. destruct (phase s) as [| | |[|p rest] more|] eqn:Ep; try (split; [done|apply moves_nil]).
  assert (exists w, (if more then signalWake s else (s, [])).1 = with_queue (incomingQueue_ s) (arriving s) w (signalling s) s /\
    moves (if more then signalWake s else (s, [])).2 (owned s) (owned s)) as (w&Ew&Hm).
  { destruct more; [destruct (signalWake_inv s) as (w&Ew&_&_&Hm&_); eauto|]. exists (wake s). split; [by destruct s|apply moves_nil]. }
  destruct (if more then signalWake s else (s, [])) as [s1 woken]; cbn [fst snd] in *. subst s1. cbn [tcpConnections_ udpBindings_ with_queue].
  destruct (pollTcpListeners_moves _ _ Hf Ha) as [Hf1 Hm1]. destruct (pollTcpListeners _ _) as [cs1 c1]; cbn [fst snd] in *.
  destruct (pollTcpConnections_moves (rd_events r) (rd_socks r) _ Hf1) as [Hf2 Hm2]. destruct (pollTcpConnections _ _ _) as [cs2 c2]; cbn [fst snd] in *.
  destruct (pollUdpSockets_moves (rd_datagrams r) _ Hu) as [Hu3 Hm3]. destruct (pollUdpSockets _ _) as [us3 c3]; cbn [fst snd] in *.
  split; [done|]. eapply moves_app; [exact Hm|]. unfold owned, in_hand. cbn. rewrite Ep.
  pose (rest := own_all own_sock (tcpListeners_ s) ⊎ own_slots (incomingQueue_ s) ⊎ own_wake (wakeFd_ s)).
  apply (moves_eq _ _ _ (own_all own_conn (tcpConnections_ s) ⊎ (own_all own_udp (udpBindings_ s) ⊎ rest))
           (own_all own_udp us3 ⊎ (own_all own_conn cs2 ⊎ rest))).
  - eapply moves_app; [by apply moves_frame|]. eapply moves_app; [by apply moves_frame|].
    rewrite (assoc_L (⊎)), (comm_L (⊎) (own_all own_conn cs2)), <- (assoc_L (⊎)). by apply moves_frame.
  - unfold rest. change (own_slots []) with (∅ : Open_). clear. multiset_solver.
  - unfold rest. change (own_slots []) with (∅ : Open_). clear. multiset_solver.
Qed.

(** Every step keeps the books. *)
Lemma start_moves tunnel ip target via fds bound s : sound s -> phase s = NoLoop -> wakeful s ->
  sound (start tunnel ip target via fds bound s).1.2 /\ wakeful (start tunnel ip target via fds bound s).1.2 /\
  moves (start tunnel ip target via fds bound s).2 (owned s) (owned (start tunnel ip target via fds bound s).1.2).
Proof.
  intros Hs Ep Hw. assert (wakeFd_ s = (-1, -1)) as Ew by (unfold wakeful in Hw; by rewrite Ep in Hw).
  unfold start. destruct (running_ s || negb tunnel); [by split_and!; [..|apply moves_nil]|].
  destruct ip, target as [target|]; try by split_and!; [..|apply moves_nil].
  destruct (default (Some target) via) as [v|]; [|split_and!; [done|unfold wakeful; cbn; by rewrite Ep|apply moves_done; done]].
  destruct (Z.ltb_spec fds.1 0), (Z.ltb_spec fds.2 0), bound; cbn [orb negb fst snd];
    (split_and!; [done|unfold wakeful; cbn; rewrite ?Ep; done|]); unfold owned, in_hand; cbn; rewrite ?Ep, ?Ew;
    change (own_wake (-1, -1)) with (∅ : Open_); rewrite ?(right_id_L ∅ (⊎)).
  all: first [apply (open_wake_frame fds)|apply close_wake_frame].
Qed.

Lemma step_moves o s : sound s -> wakeful s -> enabled o s ->
  sound (step o s).1 /\ moves (step o s).2 (owned s) (owned (step o s).1).
Proof.
  intros Hs Hw He. destruct o; try (by apply callback_moves); cbn [step enabled] in *.
  - pose proof (addTcp_moves port sock s Hs). by destruct (addTcp port sock s) as [[ok s'] calls].
  - pose proof (addUdp_moves port sock pcb bound s Hs He). by destruct (addUdp port sock pcb bound s) as [[ok s'] calls].
  - pose proof (start_moves tunnel tunnelIp targetIp viaIp fds bound s Hs He Hw) as (?&_&?).
    by destruct (start tunnel tunnelIp targetIp viaIp fds bound s) as [[ok s'] calls].
  - unfold packet_arrives. destruct (negb (running_ s) || _); (split; [done|]); apply moves_nil.
  - unfold packet_pushed. destruct (arriving s !! i) as [p|]; [|split; [done|apply moves_nil]]. split; [done|].
    unfold owned, in_hand. cbn. rewrite own_slots_app, own_slots_cons. change (own_slots []) with (∅ : Open_). moves_solver.
  - unfold packet_signals. set (s1 := with_queue _ _ _ _ s). destruct (signalWake_inv s1) as (w&->&_&_&Hm&_). by split.
  - destruct He as [Ep _]. unfold wakeful in Hw. rewrite Ep in Hw. destruct Hw as [Hw _].
    unfold loop_poll. destruct (running_ s); cbn [negb fst snd]; (split; [done|]);
      [|apply moves_done; unfold owned, in_hand; cbn; by rewrite Ep].
    unfold owned, in_hand, own_wake; cbn. rewrite Ep, (own_fd_open _ Hw). destruct readable; moves_solver.
  - split; [done|]. apply moves_done. unfold owned, in_hand, take_packets. cbn. rewrite He.
    rewrite <- (take_drop (Nat.min (length (incomingQueue_ s)) kMaxPerIteration) (incomingQueue_ s)) at 1. rewrite own_slots_app.
    change (own_slots []) with (∅ : Open_). multiset_solver.
  - unfold input_packet. destruct (phase s) as [| | |[|p rest] more|] eqn:Ep; try (split; [done|apply moves_nil]). split; [done|].
    unfold owned, in_hand. cbn. rewrite Ep, own_slots_cons. destruct holder; moves_solver.
  - by apply loop_work_moves.
  - unfold stop_request. set (s1 := with_phase _ _ s). destruct (signalWake_inv s1) as (w&->&_&_&Hm&_). by split.
  - assert (in_hand s = []) as Hh by (unfold in_hand; by destruct He as [->|[-> _]]).
    split; [split; intros k x; cbn; by rewrite lookup_empty|]. by apply stop_finish_moves.
Qed.

Lemma step_wakeful o s : sound s -> wakeful s -> enabled o s -> wakeful (step o s).1.
Proof.
  intros Hs Hw He.
  assert (forall s1, phase s1 = phase s -> wakeFd_ s1 = wakeFd_ s -> wakeful (signalWake s1).1) as Hsig.
  { intros s1 E1 E2. destruct (signalWake_inv s1) as (w&->&_). unfold wakeful. cbn. by rewrite E1, E2. }
  destruct o; cbn [step enabled] in *.
  - unfold addTcp. destruct (bool_decide _), sock as [sock|]; try done. set (s1 := with_tcp _ _ s).
    specialize (Hsig s1 eq_refl eq_refl). by destruct (signalWake s1).
  - unfold addUdp. destruct (bool_decide _), sock, pcb, bound; try done. cbn [negb]. set (s1 := with_udp _ s).
    specialize (Hsig s1 eq_refl eq_refl). by destruct (signalWake s1).
  - pose proof (start_moves tunnel tunnelIp targetIp viaIp fds bound s Hs He Hw) as (_&?&_).
    by destruct (start tunnel tunnelIp targetIp viaIp fds bound s) as [[ok s'] calls].
  - unfold packet_arrives. by destruct (negb (running_ s) || _).
  - unfold packet_pushed. by destruct (arriving s !! i).
  - by apply Hsig.
  - destruct He as [Ep _]. unfold wakeful in *. rewrite Ep in Hw. unfold loop_poll. by destruct (running_ s).
  - unfold wakeful in *. by rewrite He in Hw.
  - unfold wakeful, input_packet in *. destruct (phase s) as [| | |[|p rest] more|] eqn:Ep; cbn; rewrite ?Ep; done.
  - unfold wakeful in Hw. unfold loop_work. destruct (phase s) as [| | |[|p rest] more|] eqn:Ep; try (unfold wakeful; cbn; by rewrite Ep).
    assert (wakeFd_ (if more then signalWake s else (s, [])).1 = wakeFd_ s) as Hfd.
    { destruct more; [|done]. by destruct (signalWake_inv s) as (w&->&_). }
    destruct (if more then signalWake s else (s, [])) as [s1 woken], (pollTcpListeners _ _) as [cs1 c1].
    destruct (pollTcpConnections _ _ _) as [cs2 c2], (pollUdpSockets _ _) as [us3 c3].
    unfold wakeful. cbn in *. by rewrite Hfd.
  - unfold onTcpConnected. by destruct ok.
  - unfold onTcpRecv. destruct (tcpConnections_ s !! sock); [|done]. by destruct chain.
  - unfold onTcpError. by destruct (tcpConnections_ s !! sock).
  - done.
  - by apply Hsig.
  - done.
Qed.

Lemma reaches_sound may calls s :
  (forall o s, may o s -> enabled o s) -> reaches may calls s -> sound s /\ wakeful s /\ run calls ∅ = Some (owned s).
Proof.
  intros Hm. induction 1 as [|calls s o _ (Hs&Hw&Hr) Ho].
  - split_and!; [split; intros k x; cbn; by rewrite lookup_empty|done..].
  - destruct (step_moves o s Hs Hw (Hm _ _ Ho)) as [Hs' Hc]. split_and!; [done|by eapply step_wakeful, Hm|].
    rewrite moves_run_app, Hr. cbn. by apply moves_run.
Qed.


(** ** The wake-up *)

(** A packet in the queue while the loop waits: its wake-up is in the socket or on
    its way. *)
Definition no_packet_waits s : Prop :=
  match phase s with
  | NoLoop => running_ s = false /\ incomingQueue_ s = [] /\ arriving s = []
  | AtPoll => incomingQueue_ s <> [] -> wake s = true \/ (0 < signalling s)%nat
  | Working _ more => incomingQueue_ s <> [] -> more = true \/ wake s = true \/ (0 < signalling s)%nat
  | Drained => True
  | Ended => running_ s = false
  end.

Lemma no_packet_waits_queue s s' :
  phase s' = phase s -> running_ s' = running_ s -> incomingQueue_ s' = incomingQueue_ s -> arriving s' = arriving s ->
  signalling s' = signalling s -> (wake s = true -> wake s' = true) -> no_packet_waits s -> no_packet_waits s'.
Proof.
  unfold no_packet_waits. intros -> -> -> -> -> Hw. destruct (phase s); [done| |done| |done]; intros H Hq; specialize (H Hq); intuition.
Qed.

Lemma signalWake_waits s : no_packet_waits s -> no_packet_waits (signalWake s).1.
Proof. destruct (signalWake_inv s) as (w&->&Hw&_). by apply no_packet_waits_queue. Qed.

Lemma step_waits o s : wakeful s -> no_packet_waits s -> quiet o s -> no_packet_waits (step o s).1.
Proof.
  intros Hfd H [He Hq]. destruct o; cbn [step enabled] in *.
  - unfold addTcp. destruct (bool_decide _); [done|]. destruct sock as [sock|]; [|done]. set (s1 := with_tcp _ _ s).
    pose proof (signalWake_waits s1 H). by destruct (signalWake s1).
  - unfold addUdp. destruct (bool_decide _); [done|]. destruct sock, pcb; try done. destruct bound; [|done]. cbn [negb]. set (s1 := with_udp _ s).
    pose proof (signalWake_waits s1 H). by destruct (signalWake s1).
  - unfold no_packet_waits in H. rewrite He in H. destruct H as (Hr & Hi & Ha). unfold start. rewrite Hr. cbn [orb].
    assert (no_packet_waits s) as Hs by (unfold no_packet_waits; by rewrite He).
    destruct tunnel; cbn [negb]; [|done]. destruct tunnelIp, targetIp as [target|]; try done.
    destruct (default (Some target) viaIp), (fds.1 <? 0), (fds.2 <? 0), bound; unfold no_packet_waits; cbn; rewrite ?He, ?Hi; done.
  - unfold packet_arrives. destruct (negb (running_ s) || _) eqn:E; [done|]. apply orb_false_iff in E as [E _]. apply negb_false_iff in E.
    unfold no_packet_waits in *. cbn. destruct (phase s); intuition congruence.
  - unfold packet_pushed. destruct (arriving s !! i) as [p|] eqn:Ep; [|done]. unfold no_packet_waits in *. cbn.
    destruct (phase s); [|destruct (incomingQueue_ s); [intros _; lia|intros _; by apply H]|done
      |destruct (incomingQueue_ s); [intros _; right; right; lia|intros _; by apply H]|done].
    destruct H as (_ & _ & Ha). by rewrite Ha in Ep.
  - unfold packet_signals. set (s1 := with_queue _ _ _ _ s). destruct (signalWake_inv s1) as (w&->&_&Hw&_).
    unfold wakeful, no_packet_waits in *. cbn in *. destruct (phase s); try done; intros _; [left|right; left]; by apply Hw, Hfd.
  - destruct He as [Ep _]. unfold loop_poll. destruct (running_ s) eqn:Er; cbn [negb]; unfold no_packet_waits; cbn; done.
  - unfold no_packet_waits, take_packets. cbn. intros Hd. left. by rewrite bool_decide_eq_false_2.
  - unfold input_packet. destruct (phase s) as [| | |[|p rest] more|] eqn:Ep; try done. unfold no_packet_waits in *. cbn. by rewrite Ep in H.
  - unfold loop_work. destruct (phase s) as [| | |[|p rest] more|] eqn:Ep; try done.
    unfold wakeful, no_packet_waits in *. rewrite Ep in H, Hfd. destruct more.
    + destruct (signalWake_inv s) as (w&Ew&_&Hw&_). destruct (signalWake s) as [s1 woken]. cbn [fst] in Ew. subst s1.
      destruct (pollTcpListeners _ _) as [cs1 c1], (pollTcpConnections _ _ _) as [cs2 c2], (pollUdpSockets _ _) as [us3 c3].
      cbn. intros _. left. by apply Hw, Hfd.
    + destruct (pollTcpListeners _ _) as [cs1 c1], (pollTcpConnections _ _ _) as [cs2 c2], (pollUdpSockets _ _) as [us3 c3].
      cbn. intros Hi. destruct (H Hi); [done|auto].
  - unfold onTcpConnected. destruct ok; done.
  - unfold onTcpRecv. destruct (tcpConnections_ s !! sock); [|done]. destruct chain; done.
  - unfold onTcpError. destruct (tcpConnections_ s !! sock); done.
  - done.
  - apply (signalWake_waits (with_phase false (phase s) s)). unfold no_packet_waits in *. cbn. destruct (phase s); intuition.
  - unfold no_packet_waits in *. cbn. destruct He as [Ep|[Ep Er]]; rewrite Ep in H; intuition.
Qed.

(** C25: no wake-up is lost, in the runs where no callback of the tunnel is
    between its check of [running_] and its push when a [stop] finishes: whenever
    the loop waits in [poll] with a packet in the queue, a byte is in the wake
    socket, which is open, or a callback that has pushed is about to write one. *)
Theorem no_lost_wakeup calls s : reaches quiet calls s -> phase s = AtPoll -> incomingQueue_ s <> [] ->
  0 <= (wakeFd_ s).1 /\ 0 <= (wakeFd_ s).2 /\ (wake s = true \/ (0 < signalling s)%nat).
Proof.
  intros H Hp Hq. destruct (reaches_sound _ _ _ (fun o s h => proj1 h) H) as (_&Hw&_).
  assert (no_packet_waits s) as Hn.
  { clear Hp Hq Hw. induction H as [|calls s o H IH Ho]; [done|].
    destruct (reaches_sound _ _ _ (fun o s h => proj1 h) H) as (_&Hw&_). by apply step_waits. }
  unfold wakeful, no_packet_waits in *. rewrite Hp in *. destruct Hw. auto.
Qed.

(** ** The order of the packets *)

Definition taken (calls : list call) : list Z := omap (fun c => match c with SlotTaken x => Some x | _ => None end) calls.
Definition handled (calls : list call) : list Z :=
  omap (fun c => match c with SlotInput x | SlotRelease x => Some x | _ => None end) calls.
Definition queued s : list Z := is_slot <$> in_hand s ++ incomingQueue_ s.
(** Calls on no slot. *)
Definition slotless (c : call) : bool := match c with SlotTaken _ | SlotRelease _ | SlotInput _ => false | _ => true end.

Lemma slotless_silent l : Forall slotless l -> taken l = [] /\ handled l = [].
Proof. induction 1 as [|c l Hc _ [IH1 IH2]]; [done|]. by destruct c. Qed.
Lemma handled_app l1 l2 : handled (l1 ++ l2) = handled l1 ++ handled l2.
Proof. apply omap_app. Qed.
Lemma taken_app l1 l2 : taken (l1 ++ l2) = taken l1 ++ taken l2.
Proof. apply omap_app. Qed.

Lemma slotless_listeners accepts cs : Forall slotless (pollTcpListeners accepts cs).2.
Proof.
  revert cs; induction accepts as [|[port a] rest IH]; intros cs; cbn; [constructor|]. unfold accept_one.
  destruct a as [[c [pcb|] []]|]; cbn [ac_client ac_pcb ac_connected];
    match goal with |- context [pollTcpListeners rest ?cs] => specialize (IH cs); destruct (pollTcpListeners rest cs) end;
    cbn [fst snd app] in *; repeat constructor; done.
Qed.
Lemma slotless_connections events socks cs : Forall slotless (poll_connections events socks cs).2.
Proof.
  revert cs; induction socks as [|sock rest IH]; intros cs; cbn; [constructor|]. destruct (cs !! sock) as [c|]; [|done].
  assert (Forall slotless (poll_connection (events sock) c).2) as Hc.
  { unfold poll_connection. destruct (tc_hostDone c), (tc_connected c), (ce_poll (events sock)) as [[[] hu]|], (ce_recv (events sock)), (tc_pcb c), (ce_close (events sock)); repeat constructor. }
  destruct (poll_connection (events sock) c) as [[c' rm] calls]. specialize (IH (<[sock := c']> cs)).
  destruct (poll_connections events rest _) as [[cs2 rm2] more]. by apply list.Forall_app.
Qed.
Lemma slotless_reap socks cs : Forall slotless (reap_all socks cs).2.
Proof.
  revert cs; induction socks as [|sock rest IH]; intros cs; cbn; [constructor|]. unfold reap. destruct (cs !! sock) as [c|].
  - specialize (IH (delete sock cs)). destruct (reap_all rest _). apply list.Forall_app; split; [|done].
    destruct (0 <=? _), (tc_pcb c); repeat constructor.
  - specialize (IH cs). by destruct (reap_all rest cs).
Qed.
Lemma slotless_udp received us : Forall slotless (pollUdpSockets received us).2.
Proof.
  revert us; induction received as [|[port d] rest IH]; intros us; cbn; [constructor|]. destruct (us !! port) as [b|]; [destruct d as [d|]|]; [|done..].
  match goal with |- context [pollUdpSockets rest ?m] => specialize (IH m); destruct (pollUdpSockets rest m) end.
  cbn [fst snd] in *. destruct (dg_pbuf d); [by constructor|done].
Qed.
Lemma slotless_send_chain sock l : Forall slotless (send_chain sock l).
Proof. induction l as [|[data [[] n]] l IH]; repeat constructor; done. Qed.

Lemma slotless_wakes l : Forall (fun c => exists x, c = Wake x) l -> Forall slotless l.
Proof. intros H. eapply list.Forall_impl; [exact H|]. by intros ? [x ->]. Qed.
Lemma signalWake_order s : Forall slotless (signalWake s).2 /\ queued (signalWake s).1 = queued s.
Proof. destruct (signalWake_inv s) as (w&->&_&_&_&H). split; [by apply slotless_wakes|done]. Qed.
Lemma slotless_fds (f : Z -> call) fds : (forall x, slotless (f x)) ->
  Forall slotless ((if 0 <=? fds.1 then [f fds.1] else []) ++ (if 0 <=? fds.2 then [f fds.2] else [])).
Proof. intros H. destruct (0 <=? fds.1), (0 <=? fds.2); repeat constructor; apply H. Qed.

Lemma loop_work_order r s : Forall slotless (loop_work r s).2 /\ queued (loop_work r s).1 = queued s.
Proof.
  unfold loop_work, queued, in_hand. destruct (phase s) as [| | |[|p rest] more|] eqn:Ep; try (cbn [fst snd]; rewrite ?Ep; by split; [constructor|]).
  assert (Forall slotless (if more then signalWake s else (s, [])).2 /\
    incomingQueue_ (if more then signalWake s else (s, [])).1 = incomingQueue_ s) as [H0 Eq].
  { destruct more; [|by split; [constructor|]]. destruct (signalWake_inv s) as (w&->&_&_&_&?). split; [by apply slotless_wakes|done]. }
  destruct (if more then signalWake s else (s, [])) as [s1 woken]; cbn [fst snd] in H0, Eq.
  pose proof (slotless_listeners (rd_accepts r) (tcpConnections_ s1)) as H1.
  destruct (pollTcpListeners _ _) as [cs1 c1]. unfold pollTcpConnections.
  pose proof (slotless_connections (rd_events r) (rd_socks r) cs1) as H2. destruct (poll_connections _ _ _) as [[cs2 rm] c2].
  pose proof (slotless_reap rm cs2) as H3. destruct (reap_all _ _) as [cs3 c3].
  pose proof (slotless_udp (rd_datagrams r) (udpBindings_ s1)) as H4.
  destruct (pollUdpSockets _ _) as [us c4]. cbn [fst snd] in *. split; [by rewrite !list.Forall_app|]. cbn. by rewrite Eq.
Qed.

Lemma released_queue l : taken ((fun p => SlotRelease (is_slot p)) <$> l) = [] /\ handled ((fun p => SlotRelease (is_slot p)) <$> l) = is_slot <$> l.
Proof. induction l as [|p l [IH1 IH2]]; [done|]. cbn. by rewrite <- IH2. Qed.

Lemma stop_closes_slotless s :
  Forall slotless (((fun '(_, sock) => Close sock) <$> map_to_list (tcpListeners_ s)) ++ stop_connections (map_to_list (tcpConnections_ s)) ++
                   stop_bindings (map_to_list (udpBindings_ s))).
Proof.
  rewrite !list.Forall_app. split; [|split].
  - apply list.Forall_forall. intros c ([k x] & -> & _)%list_elem_of_fmap. done.
  - unfold stop_connections. induction (map_to_list (tcpConnections_ s)) as [|[k c] l IH]; cbn; [constructor|].
    apply list.Forall_app; split; [|done]. destruct (0 <=? _), (tc_pcb c); repeat constructor.
  - unfold stop_bindings. induction (map_to_list (udpBindings_ s)) as [|[k c] l IH]; cbn; [constructor|].
    apply list.Forall_app; split; [|done]. destruct (0 <=? _); repeat constructor.
Qed.

Lemma step_order o s : enabled o s -> queued s ++ taken (step o s).2 = handled (step o s).2 ++ queued (step o s).1.
Proof.
  assert (forall l s', Forall slotless l -> queued s' = queued s -> queued s ++ taken l = handled l ++ queued s') as silent.
  { intros l s' Hl ->. destruct (slotless_silent l Hl) as [-> ->]. by rewrite app_nil_r. }
  intros He. destruct o; cbn [step enabled] in *.
  - unfold addTcp. destruct (bool_decide _), sock as [sock|]; try by (apply silent; repeat constructor). set (s1 := with_tcp _ _ s).
    destruct (signalWake_order s1). destruct (signalWake s1). cbn [fst snd] in *. apply silent; [by constructor|done].
  - unfold addUdp. destruct (bool_decide _), sock, pcb, bound; try by (apply silent; repeat constructor). cbn [negb]. set (s1 := with_udp _ s).
    destruct (signalWake_order s1). destruct (signalWake s1). cbn [fst snd] in *. apply silent; [by repeat constructor|done].
  - assert (Forall slotless (open_wake fds) /\ Forall slotless (close_wake fds)) as [Ho Hc] by (split; by apply slotless_fds).
    unfold start. destruct (running_ s || negb tunnel); [by apply silent|]. destruct tunnelIp, targetIp as [target|]; try by apply silent.
    destruct (default (Some target) viaIp), (fds.1 <? 0), (fds.2 <? 0), bound; cbn [orb negb]; apply silent;
      try (unfold queued, in_hand; cbn; by rewrite ?He); try done; apply list.Forall_app; by split.
  - apply silent; [constructor|]. unfold packet_arrives. by destruct (negb (running_ s) || _).
  - unfold packet_pushed. destruct (arriving s !! i) as [p|]; [|by apply silent].
    unfold queued, in_hand; cbn. by rewrite !fmap_app, <- !(assoc_L (++)).
  - unfold packet_signals. set (s1 := with_queue _ _ _ _ s). destruct (signalWake_order s1). by apply silent.
  - destruct He as [Ep _]. unfold loop_poll. apply silent; destruct (running_ s), readable; try by repeat constructor.
    all: unfold queued, in_hand; cbn; by rewrite Ep.
  - apply silent; [constructor|]. unfold queued, in_hand; cbn. by rewrite He, take_drop.
  - unfold input_packet. destruct (phase s) as [| | |[|p rest] more|] eqn:Ep; try by apply silent.
    unfold queued, in_hand; cbn. rewrite Ep. by destruct holder; rewrite app_nil_r.
  - destruct (loop_work_order r s). by apply silent.
  - apply silent; [constructor|]. unfold onTcpConnected. by destruct ok.
  - unfold onTcpRecv. destruct (tcpConnections_ s !! sock); [|by apply silent]. destruct chain; apply silent; [apply slotless_send_chain|done|constructor|done].
  - unfold onTcpError. destruct (tcpConnections_ s !! sock) as [c|]; [|by apply silent]. apply silent; [|done]. destruct (tc_pcb c); repeat constructor.
  - apply silent; [|done]. unfold onUdpRecv. destruct (udpBindings_ s !! port) as [b|]; [|constructor]. destruct (ud_client b); [|constructor].
    destruct (2048 <? _); repeat constructor.
  - unfold stop_request. set (s1 := with_phase _ _ s). destruct (signalWake_order s1). by apply silent.
  - unfold stop_finish. cbn [fst snd].
    destruct (slotless_silent (close_wake (wakeFd_ s))) as [Ht Hh]; [by apply slotless_fds|].
    pose proof (slotless_silent _ (stop_closes_slotless s)) as [Ht' Hh']. generalize dependent (close_wake (wakeFd_ s)).
    generalize dependent (((fun '(_, sock) => Close sock) <$> map_to_list (tcpListeners_ s)) ++ stop_connections (map_to_list (tcpConnections_ s)) ++
      stop_bindings (map_to_list (udpBindings_ s))). intros l2 Ht2 Hh2 l1 Ht1 Hh1.
    destruct (released_queue (incomingQueue_ s)) as [Ht3 Hh3]. rewrite !taken_app, !handled_app, Ht1, Ht2, Ht3, Hh1, Hh2, Hh3.
    unfold queued, in_hand; cbn. destruct He as [->|[-> _]]; cbn; by rewrite !app_nil_r.
Qed.

(** Packets from WireGuard are given to lwIP or released in the order they were
    taken, each once: those handled, then those of the loop's hand, then the
    queue, are those taken. *)
Theorem packets_in_order calls s : reaches enabled calls s -> taken calls = handled calls ++ queued s.
Proof.
  induction 1 as [|calls s o _ IH Ho]; [done|]. rewrite taken_app, handled_app, IH, <- !(assoc_L (++)). f_equal. by apply step_order.
Qed.

(** ** Sending to a client *)

Lemma sendAll_ends answers len sent stalls :
  (stalls < kMaxStalls)%nat -> ((len - sent) * kMaxStalls <= length answers + stalls)%nat ->
  exists ok n, sendAll answers len sent stalls = Some (ok, n) /\ (ok = true <-> (len <= n)%nat).
Proof.
  revert sent stalls; induction answers as [|a rest IH]; intros sent stalls Hs Hl; cbn [sendAll length] in *;
    (destruct (Nat.leb_spec len sent); [by exists true, sent|]); [unfold kMaxStalls in *; lia|].
  destruct a as [[|n]| |].
  - exists false, sent. split; [done|]. split; [done|lia].
  - apply IH; unfold kMaxStalls in *; lia.
  - destruct (Nat.ltb_spec (S stalls) kMaxStalls); [apply IH; lia|]. exists false, sent. split; [done|]. split; [done|lia].
  - exists false, sent. split; [done|]. split; [done|lia].
Qed.

(** [sendAll] returns, after at most 200 answers of [send] per byte, and it
    reports success exactly when every byte was sent. *)
Theorem sendAll_returns answers len : (len * kMaxStalls <= length answers)%nat ->
  exists ok n, sendAll answers len 0 0 = Some (ok, n) /\ (ok = true <-> (len <= n)%nat).
Proof. intros H. apply sendAll_ends; unfold kMaxStalls in *; lia. Qed.
Lemma sendAll_returns_witness : exists ok n, sendAll (repeat Again 400) 2 0 0 = Some (ok, n) /\ (ok = true <-> (2 <= n)%nat).
Proof. apply sendAll_returns. vm_compute. repeat constructor. Defined.

(** ** A session *)

Fixpoint steps (ops : list op) s : Relay * list call :=
  match ops with
  | [] => (s, [])
  | o :: rest => let '(s1, c1) := step o s in let '(s2, c2) := steps rest s1 in (s2, c1 ++ c2)
  end.
Fixpoint allowed (may : op -> Relay -> Prop) (ops : list op) s : Prop :=
  match ops with [] => True | o :: rest => may o s /\ allowed may rest (step o s).1 end.

Lemma reaches_steps may ops calls s :
  reaches may calls s -> allowed may ops s -> reaches may (calls ++ (steps ops s).2) (steps ops s).1.
Proof.
  revert calls s; induction ops as [|o rest IH]; intros calls s H Ha; cbn; [by rewrite app_nil_r|].
  destruct Ha as [Ho Hr]. pose proof (reaches_step _ _ _ _ H Ho) as H1. specialize (IH _ _ H1 Hr).
  destruct (step o s) as [s1 c1]; cbn [fst snd] in *. destruct (steps rest s1) as [s2 c2]; cbn [fst snd] in *.
  by rewrite (assoc_L (++)).
Qed.

(** A listener and a UDP port, a packet, a client whose connection the host ends,
    and a second one still open when the relay is told to stop. *)
Definition demo_events (sock : Z) : ConnEvents :=
  {| ce_poll := Some (true, false); ce_recv := Received [x01; x02]; ce_write := negb (sock =? 5); ce_close := true |}.
Definition demo_round (accepts : list (Z * option Accepted)) (socks : list Z) : op :=
  LoopWork {| rd_accepts := accepts; rd_socks := socks; rd_events := demo_events; rd_datagrams := [(47998, Some {| dg_data := [x07]; dg_from := 9; dg_pbuf := true |})] |}.
Definition demo : list op :=
  [AddTcp 47984 (Some 3); AddUdp 47998 (Some 4) (Some 200) true; Begin true (Some 1) (Some 2) None (90, 91) true;
   Arrive {| is_slot := 1000; is_data := [x00] |}; Push 0; Signal; LoopPoll true; LoopTake; LoopInput true;
   demo_round [(47984, Some {| ac_client := 5; ac_pcb := Some 100; ac_connected := true |})] [];
   Connected 5 true; Arrive {| is_slot := 1001; is_data := [x00] |}; Push 0].
Definition demo_end : list op :=
  [Signal; LoopPoll true; LoopTake; LoopInput false; FromHost 5 (Some [([x05; x06], (true, 2%nat))]);
   demo_round [(47984, Some {| ac_client := 6; ac_pcb := Some 101; ac_connected := false |});
               (47984, Some {| ac_client := 6; ac_pcb := Some 102; ac_connected := true |})] [5];
   HostError 5; LoopPoll false; LoopTake; demo_round [] [5; 6]; Arrive {| is_slot := 1002; is_data := [x00] |}; Push 0; StopRequest; LoopPoll false].

Lemma no_lost_wakeup_witness :
  incomingQueue_ (steps demo fresh_relay).1 <> [] /\
  0 <= (wakeFd_ (steps demo fresh_relay).1).1 /\ 0 <= (wakeFd_ (steps demo fresh_relay).1).2 /\
  (wake (steps demo fresh_relay).1 = true \/ (0 < signalling (steps demo fresh_relay).1)%nat).
Proof.
  split; [vm_compute; congruence|].
  apply (no_lost_wakeup _ _ (reaches_steps quiet demo [] fresh_relay (reaches_fresh _)
    ltac:(vm_compute; repeat split; auto; lia || congruence))); vm_compute; congruence.
Defined.
Lemma packets_in_order_witness :
  taken (steps demo fresh_relay).2 = [1000; 1001] /\
  handled (steps demo fresh_relay).2 ++ queued (steps demo fresh_relay).1 = taken (steps demo fresh_relay).2.
Proof.
  split; [vm_compute; reflexivity|].
  symmetry. apply (packets_in_order _ _ (reaches_steps enabled demo [] fresh_relay (reaches_fresh _)
    ltac:(vm_compute; repeat split; auto; lia || congruence))).
Defined.

(** What the client sent is gone when lwIP refuses it, and the connection goes on:
    the host sees a stream with a hole. *)
Lemma refused_bytes_are_dropped e c data pcb hungUp :
  tc_hostDone c = false -> tc_connected c = true -> tc_pcb c = Some pcb -> ce_poll e = Some (true, hungUp) -> ce_recv e = Received data ->
  ce_write e = false -> poll_connection e c = (c, hungUp, [PcbWrite pcb data false]).
Proof. intros H1 H2 H3 H4 H5 H6. unfold poll_connection. by rewrite H1, H2, H3, H4, H5, H6. Qed.
(** And the other way: after a segment the client did not take whole, the next
    chain is sent as if nothing was missing. *)
Example hole_towards_client :
  let s := (steps demo fresh_relay).1 in
  (steps [FromHost 5 (Some [([x01; x02; x03], (false, 1%nat)); ([x04], (true, 1%nat))]); FromHost 5 (Some [([x05], (true, 1%nat))])] s).2 =
  [Send 5 [x01; x02; x03] 1; Send 5 [x05] 1].
Proof. vm_compute. reflexivity. Qed.
(** A packet pushed after [stop] stays in the queue; after a new start it is not
    signalled, nor are those that follow it. *)
Example late_push_is_not_signalled :
  let s := (steps [Begin true (Some 1) (Some 2) None (90, 91) true; Arrive {| is_slot := 1; is_data := [x00] |}; StopRequest; LoopPoll true; StopFinish;
                   Push 0; Signal; Begin true (Some 1) (Some 2) None (90, 91) true; Arrive {| is_slot := 2; is_data := [x00] |}; Push 0] fresh_relay).1 in
  (length (incomingQueue_ s), wake s, signalling s) = (2%nat, false, 0%nat).
Proof. vm_compute. reflexivity. Qed.

(** A LAN host behind a subnet router is reached through the router's address,
    every other destination under its own. *)
Theorem output_peer tunnel ip target via fds bound s dest :
  running_ s = false -> (start tunnel ip target via fds bound s).1.1 = true ->
  onNetifOutput dest (start tunnel ip target via fds bound s).1.2 =
  (if bool_decide (Some dest = target) then default dest (default target via) else dest).
Proof.
  unfold start, onNetifOutput. intros -> . destruct tunnel; [|done]. cbn [orb negb]. destruct ip as [ip|], target as [target|]; try done.
  destruct (default (Some target) via) as [v|] eqn:Ev; [|done]. destruct (_ || negb bound); [done|]. intros _. cbn.
  destruct (Z.eqb_spec dest target) as [->|Hd]; [rewrite bool_decide_eq_true_2 by done|rewrite bool_decide_eq_false_2 by congruence].
  - cbn. by destruct (Z.eqb_spec v target) as [->|].
  - by rewrite andb_false_r.
Qed.
Lemma output_peer_witness :
  onNetifOutput 20 (start true (Some 10) (Some 20) (Some (Some 30)) (90, 91) true fresh_relay).1.2 = 30 /\
  onNetifOutput 21 (start true (Some 10) (Some 20) (Some (Some 30)) (90, 91) true fresh_relay).1.2 = 21.
Proof.
  split; [rewrite (output_peer true (Some 10) (Some 20) (Some (Some 30)) (90, 91) true fresh_relay 20 eq_refl eq_refl)
         |rewrite (output_peer true (Some 10) (Some 20) (Some (Some 30)) (90, 91) true fresh_relay 21 eq_refl eq_refl)]; reflexivity.
Defined.
