(* ===== verification/WgxBackend.v ===== *)
(** The packet path of a route ([RealWgxBackend] of [TailscaleWgxRoute.cpp]): the
    WireGuard context and the loopback relay, which belong to the wgx library,
    the DERP session that carries packets while there is no direct path, and the
    thread that reads it. The direct path is [DirectLink]. Operations of the
    route are single steps ([TailscaleWgxRoute] holds its mutex around them), as
    are the rounds of the two threads; a stop joins both before it goes on. *)

From S2P Require Import Prelude Bytes Text Endpoint DirectPath Transport Box Derp DerpSession HttpUpgrade ControlCodec Disco DirectLink.

(** ** Data *)

Record Backend (W : Type) := {
  context_ : bool;
  tunnelCreated_ : bool;
  running_ : bool;
  localIp_ : bytes;
  activePeerIp_ : bytes;
  activePeerId_ : Z;
  relay_ : bool;
  udpPrepared_ : bool;
  derp_ : option (DerpSession W);
  derpRunning_ : bool;
  derpAlive_ : bool;
  lastPongToken_ : Z;
  peerNodeKey_ : bytes;
  havePeer_ : bool;
  activeDerpRegion_ : Z;
  peerHomeRegion_ : Z;
  activeDerpHost_ : bytes;
  direct_ : Direct;
}.
Arguments context_ {W}. Arguments tunnelCreated_ {W}. Arguments running_ {W}. Arguments localIp_ {W}.
Arguments activePeerIp_ {W}. Arguments activePeerId_ {W}. Arguments relay_ {W}. Arguments udpPrepared_ {W}.
Arguments derp_ {W}. Arguments derpRunning_ {W}. Arguments derpAlive_ {W}. Arguments lastPongToken_ {W}.
Arguments peerNodeKey_ {W}. Arguments havePeer_ {W}. Arguments activeDerpRegion_ {W}. Arguments peerHomeRegion_ {W}.
Arguments activeDerpHost_ {W}. Arguments direct_ {W}.

(** The calls on the wgx library, and what the library answers to them. *)
Inductive wgx_call :=
| WgxCreate (privateKey : bytes) (localIp : Z) (made : bool)
| WgxAddPeer (peerId : Z) (publicKey : bytes) (peerIp : Z)
| WgxStart
| WgxConnect (peerId : Z)
| WgxInject (peerId : Z) (packet : bytes)
| WgxDestroy
| RelayCreate (made : bool)
| RelayStart (localIp hostIp viaPeerIp : bytes)
| RelayIsRunning
| RelayAddTcp (port : Z)
| RelayAddUdp (port : Z)
| RelayDestroy.

Record WgxAnswers := {
  wgx_create : bool;
  wgx_add_or_update_peer : Z;
  wgx_start : Z;
  wgx_connect_peer : Z;
  wgx_relay_create : bool;
  wgx_relay_start : Z;
  wgx_relay_is_running : bool;
  wgx_relay_add_tcp : Z -> Z;
  wgx_relay_add_udp : Z -> Z;
}.

(** What a step does: a call of the library, or an effect of the direct path. *)
Inductive output := Call (c : wgx_call) | Out (e : effect).

Definition kMaxHeader : nat := Z.to_nat (16 * 1024).
Definition kMaxFallbackRegions : nat := 6.

Section fields.
Context {W : Type}.
Implicit Types b : Backend W.

Definition fresh_backend : Backend W :=
  {| context_ := false; tunnelCreated_ := false; running_ := false; localIp_ := []; activePeerIp_ := [];
     activePeerId_ := 0; relay_ := false; udpPrepared_ := false; derp_ := None; derpRunning_ := false;
     derpAlive_ := false; lastPongToken_ := 0; peerNodeKey_ := zeros 32; havePeer_ := false; activeDerpRegion_ := 0;
     peerHomeRegion_ := 0; activeDerpHost_ := []; direct_ := fresh_direct |}.
Definition with_tunnel (context created running : bool) (localIp : bytes) b : Backend W :=
  {| context_ := context; tunnelCreated_ := created; running_ := running; localIp_ := localIp;
     activePeerIp_ := activePeerIp_ b; activePeerId_ := activePeerId_ b; relay_ := relay_ b; udpPrepared_ := udpPrepared_ b;
     derp_ := derp_ b; derpRunning_ := derpRunning_ b; derpAlive_ := derpAlive_ b; lastPongToken_ := lastPongToken_ b;
     peerNodeKey_ := peerNodeKey_ b; havePeer_ := havePeer_ b; activeDerpRegion_ := activeDerpRegion_ b;
     peerHomeRegion_ := peerHomeRegion_ b; activeDerpHost_ := activeDerpHost_ b; direct_ := direct_ b |}.
Definition with_active (peerIp : bytes) (peerId : Z) b : Backend W :=
  {| context_ := context_ b; tunnelCreated_ := tunnelCreated_ b; running_ := running_ b; localIp_ := localIp_ b;
     activePeerIp_ := peerIp; activePeerId_ := peerId; relay_ := relay_ b; udpPrepared_ := udpPrepared_ b;
     derp_ := derp_ b; derpRunning_ := derpRunning_ b; derpAlive_ := derpAlive_ b; lastPongToken_ := lastPongToken_ b;
     peerNodeKey_ := peerNodeKey_ b; havePeer_ := havePeer_ b; activeDerpRegion_ := activeDerpRegion_ b;
     peerHomeRegion_ := peerHomeRegion_ b; activeDerpHost_ := activeDerpHost_ b; direct_ := direct_ b |}.
Definition with_relay (relay prepared : bool) b : Backend W :=
  {| context_ := context_ b; tunnelCreated_ := tunnelCreated_ b; running_ := running_ b; localIp_ := localIp_ b;
     activePeerIp_ := activePeerIp_ b; activePeerId_ := activePeerId_ b; relay_ := relay; udpPrepared_ := prepared;
     derp_ := derp_ b; derpRunning_ := derpRunning_ b; derpAlive_ := derpAlive_ b; lastPongToken_ := lastPongToken_ b;
     peerNodeKey_ := peerNodeKey_ b; havePeer_ := havePeer_ b; activeDerpRegion_ := activeDerpRegion_ b;
     peerHomeRegion_ := peerHomeRegion_ b; activeDerpHost_ := activeDerpHost_ b; direct_ := direct_ b |}.
Definition with_derp (derp : option (DerpSession W)) (running alive : bool) b : Backend W :=
  {| context_ := context_ b; tunnelCreated_ := tunnelCreated_ b; running_ := running_ b; localIp_ := localIp_ b;
     activePeerIp_ := activePeerIp_ b; activePeerId_ := activePeerId_ b; relay_ := relay_ b; udpPrepared_ := udpPrepared_ b;
     derp_ := derp; derpRunning_ := running; derpAlive_ := alive; lastPongToken_ := lastPongToken_ b;
     peerNodeKey_ := peerNodeKey_ b; havePeer_ := havePeer_ b; activeDerpRegion_ := activeDerpRegion_ b;
     peerHomeRegion_ := peerHomeRegion_ b; activeDerpHost_ := activeDerpHost_ b; direct_ := direct_ b |}.
Definition with_target (key : bytes) (have : bool) (region home : Z) (host : bytes) b : Backend W :=
  {| context_ := context_ b; tunnelCreated_ := tunnelCreated_ b; running_ := running_ b; localIp_ := localIp_ b;
     activePeerIp_ := activePeerIp_ b; activePeerId_ := activePeerId_ b; relay_ := relay_ b; udpPrepared_ := udpPrepared_ b;
     derp_ := derp_ b; derpRunning_ := derpRunning_ b; derpAlive_ := derpAlive_ b; lastPongToken_ := lastPongToken_ b;
     peerNodeKey_ := key; havePeer_ := have; activeDerpRegion_ := region;
     peerHomeRegion_ := home; activeDerpHost_ := host; direct_ := direct_ b |}.
Definition with_token (token : Z) b : Backend W :=
  {| context_ := context_ b; tunnelCreated_ := tunnelCreated_ b; running_ := running_ b; localIp_ := localIp_ b;
     activePeerIp_ := activePeerIp_ b; activePeerId_ := activePeerId_ b; relay_ := relay_ b; udpPrepared_ := udpPrepared_ b;
     derp_ := derp_ b; derpRunning_ := derpRunning_ b; derpAlive_ := derpAlive_ b; lastPongToken_ := token;
     peerNodeKey_ := peerNodeKey_ b; havePeer_ := havePeer_ b; activeDerpRegion_ := activeDerpRegion_ b;
     peerHomeRegion_ := peerHomeRegion_ b; activeDerpHost_ := activeDerpHost_ b; direct_ := direct_ b |}.
Definition with_direct (d : Direct) b : Backend W :=
  {| context_ := context_ b; tunnelCreated_ := tunnelCreated_ b; running_ := running_ b; localIp_ := localIp_ b;
     activePeerIp_ := activePeerIp_ b; activePeerId_ := activePeerId_ b; relay_ := relay_ b; udpPrepared_ := udpPrepared_ b;
     derp_ := derp_ b; derpRunning_ := derpRunning_ b; derpAlive_ := derpAlive_ b; lastPongToken_ := lastPongToken_ b;
     peerNodeKey_ := peerNodeKey_ b; havePeer_ := havePeer_ b; activeDerpRegion_ := activeDerpRegion_ b;
     peerHomeRegion_ := peerHomeRegion_ b; activeDerpHost_ := activeDerpHost_ b; direct_ := d |}.
End fields.

Definition str (b : bytes) : string := String.string_of_list_byte b.
Definition int_to_string (n : Z) : bytes := if n <? 0 then bs "-" ++ to_string (- n) else to_string n.

Section backend.
Context {W : Type} `{ITransport W} `{IDerpCrypto}.
Implicit Types b : Backend W.

(** [crypto_x25519] and Poly1305, the public key of a private one, and
    [inet_pton(AF_INET, ...)]. *)
Context (x25519 poly1305 : bytes -> bytes -> bytes) (x25519_public : bytes -> bytes) (inet_pton : bytes -> option Z).

Abbreviation network := (IPv4Endpoint -> bytes -> bool).

(** ** Sending over DERP *)

(** The test of [sendEgress] and [sendDiscoViaDerp], and the write. *)
Definition derp_send (packet : bytes) b : Backend W :=
  match derp_ b with
  | Some s => if derpAlive_ b && havePeer_ b
              then with_derp (Some (sendPacket (peerNodeKey_ b) packet s "").1.2) (derpRunning_ b) (derpAlive_ b) b else b
  | None => b
  end.

(** The effects of the direct path, carried out. *)
Fixpoint deliver (effects : list effect) b : Backend W * list output :=
  match effects with
  | [] => (b, [])
  | ViaDerp packet :: rest => deliver rest (derp_send packet b)
  | ToWireGuard peer packet :: rest => let '(b, outs) := deliver rest b in (b, Call (WgxInject peer packet) :: outs)
  | e :: rest => let '(b, outs) := deliver rest b in (b, Out e :: outs)
  end.

(** [realEgressCallback] and [sendEgress]. *)
Definition sendEgress (now : Z) (packet : bytes) (net : network) b : Backend W * list output :=
  if bool_decide (packet = []) || (kDerpMaxPacketSize <? zlen packet) then (b, [])
  else
    let '(gone, sent) := if directActive_ (direct_ b) then sendDirect now packet net (direct_ b) else (false, []) in
    if gone : bool then (b, Out <$> sent) else (derp_send packet b, []).

(** ** The tunnel *)

Definition stopDerp b : Backend W :=
  with_target (peerNodeKey_ b) false 0 0 [] (with_derp None false false b).

Definition stopDirectPath b : Backend W * list output :=
  let '(d, notes) := stopDirectPath_finish (stopDirectPath_request (direct_ b)) in
  (with_direct d b, Out <$> notes).

Definition stop b : Backend W * list output :=
  let '(b, notes) := stopDirectPath b in
  let b := stopDerp b in
  (with_active [] 0 (with_relay false false (with_tunnel false false false [] b)),
   notes ++ (if relay_ b then [Call RelayDestroy] else []) ++ (if context_ b then [Call WgxDestroy] else [])).

Definition isRunning b : bool := tunnelCreated_ b && context_ b.

Definition startTunnel (privateKey localIp : bytes) (answers : WgxAnswers) b : result unit * Backend W * list output :=
  let '(b, outs) := stop b in
  match inet_pton localIp with
  | None => (Err ("Invalid local IPv4 for wgx: " ++ str localIp), b, outs)
  | Some a =>
      let outs := outs ++ [Call (WgxCreate privateKey a (wgx_create answers))] in
      if wgx_create answers then (Ok tt, with_tunnel true true (running_ b) localIp b, outs)
      else (Err "wgx_create failed", b, outs)
  end.

Definition handshake (peerId : Z) (answers : WgxAnswers) b (outs : list output) : result unit * Backend W * list output :=
  let outs := outs ++ [Call (WgxConnect peerId)] in
  if wgx_connect_peer answers =? 0 then (Ok tt, b, outs)
  else (Err ("WireGuard handshake with peer timed out over DERP (rc=" ++ str (int_to_string (wgx_connect_peer answers)) ++ ")"), b, outs).

Definition addOrUpdatePeer (peerId : Z) (publicKey peerIp : bytes) (answers : WgxAnswers) b : result unit * Backend W * list output :=
  if negb (context_ b) || negb (tunnelCreated_ b) then (Err "wgx tunnel is not created", b, [])
  else
    match inet_pton peerIp with
    | None => (Err ("Invalid peer IPv4: " ++ str peerIp), b, [])
    | Some a =>
        let outs := [Call (WgxAddPeer peerId publicKey a)] in
        if negb (wgx_add_or_update_peer answers =? 0) then (Err "wgx_add_or_update_peer failed", b, outs)
        else
          let b := with_active peerIp peerId b in
          if running_ b then handshake peerId answers b outs
          else if negb (wgx_start answers =? 0) then (Err "wgx_start failed", b, outs ++ [Call WgxStart])
          else handshake peerId answers (with_tunnel (context_ b) (tunnelCreated_ b) true (localIp_ b) b) (outs ++ [Call WgxStart])
    end.

(** The listeners: the ports opened, and the first that could not be. *)
Fixpoint add_ports (add : Z -> Z) (call : Z -> wgx_call) (ports : list Z) : list output * option Z :=
  match ports with
  | [] => ([], None)
  | port :: rest =>
      if add port =? 0 then let '(outs, failed) := add_ports add call rest in (Call (call port) :: outs, failed)
      else ([Call (call port)], Some port)
  end.

Definition startTcpProxy (peerIp hostIp : bytes) (ports : list Z) (answers : WgxAnswers) b : result unit * Backend W * list output :=
  if negb (context_ b) || negb (running_ b) then (Err "wgx tunnel is not running", b, [])
  else
    let outs := if relay_ b then [Call RelayDestroy] else [] in
    let outs := outs ++ [Call (RelayCreate (wgx_relay_create answers))] in
    if negb (wgx_relay_create answers) then (Err "wgx_relay_create failed", with_relay false (udpPrepared_ b) b, outs)
    else
      let outs := outs ++ [Call (RelayStart (localIp_ b) hostIp peerIp)] in
      if negb (wgx_relay_start answers =? 0)
      then (Err ("LwipRelay start failed for " ++ str hostIp), with_relay false (udpPrepared_ b) b, outs ++ [Call RelayDestroy])
      else
        match add_ports (wgx_relay_add_tcp answers) RelayAddTcp ports with
        | (added, Some port) =>
            (Err ("Failed to start TCP relay port " ++ str (to_string port)), with_relay false (udpPrepared_ b) b,
             outs ++ added ++ [Call RelayDestroy])
        | (added, None) => (Ok tt, with_active peerIp (activePeerId_ b) (with_relay true (udpPrepared_ b) b), outs ++ added)
        end.

Definition startUdpRelay (peerIp : bytes) (ports : list Z) (answers : WgxAnswers) b : result unit * Backend W * list output :=
  let query := if relay_ b then [Call RelayIsRunning] else [] in
  if negb (relay_ b) || negb (wgx_relay_is_running answers)
  then (Err "Cannot start UDP relays: TCP proxy is not running", b, query)
  else if udpPrepared_ b then (Ok tt, b, query)
  else
    match add_ports (wgx_relay_add_udp answers) RelayAddUdp ports with
    | (added, Some port) => (Err ("Failed to start UDP relay port " ++ str (to_string port)), b, query ++ added)
    | (added, None) => (Ok tt, with_relay (relay_ b) true b, query ++ added)
    end.

Definition stopUdpRelay b : Backend W := with_relay (relay_ b) false b.

(** [startDirectPath], with the [stopDirectPath] it begins with. *)
Definition startDirectPath (config : DirectPathConfig) (on : bool) (bound lan : option Z) b : Backend W * list output :=
  let '(b, notes) := stopDirectPath b in
  (with_direct (DirectLink.startDirectPath x25519_public config on bound lan (direct_ b)) b, notes).

(** ** The DERP relay *)

(** [readDerpUpgradeHeader]; [room] is what is left of the cap. *)
Fixpoint readDerpUpgradeHeader (room : nat) (w : W) (header : bytes) (error : string) : option bytes * W * string :=
  match room with
  | O => (None, w, "oversized DERP upgrade response"%string)
  | S k =>
      match tr_read 1 w with
      | (ReadError msg, w') => (None, w', default error msg)
      | (Closed, w') => (None, w', "DERP connection closed during HTTP upgrade"%string)
      | (Received data, w') =>
          let header := header ++ firstn 1 data in
          if ends_with (crlf ++ crlf) header then (Some header, w', error) else readDerpUpgradeHeader k w' header error
      end
  end.

(** The region of the peer, and the regions that are tried. *)
Definition home_region (home : Z) (derpMap : list DerpRegion) : option DerpRegion :=
  List.find (fun candidate => dr_regionId candidate =? home) derpMap.
Fixpoint fallback_loop (region : option DerpRegion) (derpMap regions : list DerpRegion) : list DerpRegion :=
  match derpMap with
  | [] => regions
  | candidate :: rest =>
      if (kMaxFallbackRegions <=? length regions)%nat then regions
      else if match region with Some r => dr_regionId candidate =? dr_regionId r | None => false end
      then fallback_loop region rest regions
      else if bool_decide (dr_nodes candidate = []) then fallback_loop region rest regions
      else fallback_loop region rest (regions ++ [candidate])
  end.
Definition candidate_regions (home : Z) (derpMap : list DerpRegion) : list DerpRegion :=
  let region := home_region home derpMap in
  fallback_loop region derpMap
    match region with Some r => if bool_decide (dr_nodes r = []) then [] else [r] | None => [] end.

(** What dialing a node gives: the answer of [SwitchTlsTransport::connect], the
    transport, and the random nonce of the DERP handshake. *)
Record Dialed := { dl_connect : result unit; dl_transport : W; dl_nonce : bytes }.

(** One node: an authenticated session, or nothing and the last error. [None]:
    the fuel of [connect] is out, or a read outside the response. *)
Definition dial_node (fuel : nat) (dial : DerpNode -> Dialed) (privateKey : bytes) (node : DerpNode) (lastError : string)
  : option (option (DerpSession W) * string) :=
  match dl_connect (dial node) with
  | Err e => Some (None, e)
  | Ok _ =>
      match tr_write (buildDerpUpgradeRequest (dn_host node)) (dl_transport (dial node)) with
      | (WriteFailed msg, _) => Some (None, default lastError msg)
      | (Written, w) =>
          match readDerpUpgradeHeader kMaxHeader w [] lastError with
          | (None, _, e) => Some (None, e)
          | (Some header, w, e) =>
              verdict ← validateDerpUpgradeResponse header;
              match verdict with
              | Err e => Some (None, e)
              | Ok _ =>
                  match connect fuel (dl_nonce (dial node)) (open_session (Some w) privateKey (x25519_public privateKey)) with
                  | (None, _, _) => None
                  | (Some true, s, e) => Some (Some s, e)
                  | (Some false, _, e) => Some (None, e)
                  end
              end
          end
      end
  end.

Fixpoint dial_nodes (fuel : nat) (dial : DerpNode -> Dialed) (privateKey : bytes) (nodes : list DerpNode) (lastError : string)
  : option (option (DerpSession W * DerpNode) * string) :=
  match nodes with
  | [] => Some (None, lastError)
  | node :: rest =>
      '(session, lastError) ← dial_node fuel dial privateKey node lastError;
      match session with
      | Some s => Some (Some (s, node), lastError)
      | None => dial_nodes fuel dial privateKey rest lastError
      end
  end.

Fixpoint dial_regions (fuel : nat) (dial : DerpNode -> Dialed) (privateKey : bytes) (regions : list DerpRegion) (lastError : string)
  : option (option (DerpSession W * DerpNode * DerpRegion) * string) :=
  match regions with
  | [] => Some (None, lastError)
  | region :: rest =>
      '(session, lastError) ← dial_nodes fuel dial privateKey (dr_nodes region) lastError;
      match session with
      | Some (s, node) => Some (Some (s, node, region), lastError)
      | None => dial_regions fuel dial privateKey rest lastError
      end
  end.

(** What is written on the new session: the note that this is the preferred
    relay, and the self-test ping with [token]. *)
Definition announce (token : Z) (s : DerpSession W) : DerpSession W :=
  (sendPing token (writeRaw DerpFrameType.NotePreferred [u8 1] s "").1.2 "").1.2.

Definition ensureDerpRoute (peerNodeKey : bytes) (homeDerpRegion : Z) (derpMap : list DerpRegion) (localPrivateKey : bytes)
    (fuel : nat) (dial : DerpNode -> Dialed) (token : Z) b : option (result unit * Backend W) :=
  if all_zero peerNodeKey then Some (Err "DERP route requires a valid peer node key", b)
  else if all_zero localPrivateKey then Some (Err "DERP route requires the local node identity (key is all zero)", b)
  else if homeDerpRegion <=? 0 then
    Some (Err "peer has no home DERP region; the control-plane netmap is incomplete", b)
  else
    let regions := candidate_regions homeDerpRegion derpMap in
    if bool_decide (regions = []) then
      Some (Err ("DERP region " ++ str (to_string homeDerpRegion) ++
                 " is missing from the control-plane map and no fallback region has nodes; cannot relay"), b)
    else if derpAlive_ b && bool_decide (is_Some (derp_ b)) && havePeer_ b && bool_decide (peerNodeKey_ b = peerNodeKey)
    then Some (Ok tt, b)
    else
      let b := stopDerp b in
      '(dialed, lastError) ← dial_regions fuel dial localPrivateKey regions "no DERP node attempted";
      match dialed with
      | None =>
          Some (Err ("DERP regions unreachable (" ++ str (to_string (zlen regions)) ++ " tried): " ++ lastError), b)
      | Some (s, node, region) =>
          Some (Ok tt, with_derp (Some (announce token s)) true true
                         (with_target peerNodeKey true (dr_regionId region) homeDerpRegion (dn_host node) b))
      end.

(** ** The reader thread *)

(** The bytes of a number, least significant first. *)
Definition le_token (payload : bytes) : Z :=
  foldr (fun (x : byte) token => Z.lor (u64 (Z.shiftl token 8)) (ub x)) 0 (take 8 payload).

(** The [switch] of [derpReader]. Frames that are only logged do nothing here. *)
Definition reader_frame (frame : DerpFrame) (now : Z) (nonce : bytes) b : option (Backend W * list output) :=
  if bool_decide (Derp.type frame = DerpFrameType.RecvPacket) then
    if (length (payload frame) <=? kDerpKeyLen)%nat then Some (b, [])
    else if negb (context_ b) || negb (bool_decide (take kDerpKeyLen (payload frame) = peerNodeKey_ b)) then Some (b, [])
    else
      let inner := drop kDerpKeyLen (payload frame) in
      if looksLikeDisco inner then
        '(d, effects) ← handleDisco x25519 poly1305 inner None now (activeDerpRegion_ b) nonce (fun _ _ => false) (direct_ b);
        Some (deliver effects (with_direct d b))
      else Some (b, [Call (WgxInject (activePeerId_ b) inner)])
  else if bool_decide (Derp.type frame = DerpFrameType.Ping) then
    match derp_ b with
    | Some s =>
        if derpAlive_ b then
          Some (with_derp (Some (writeRaw DerpFrameType.Pong (payload frame) s "").1.2) (derpRunning_ b) (derpAlive_ b) b, [])
        else Some (b, [])
    | None => Some (b, [])
    end
  else if bool_decide (Derp.type frame = DerpFrameType.Pong) then
    if (8 <=? length (payload frame))%nat then Some (with_token (le_token (payload frame)) b, []) else Some (b, [])
  else Some (b, []).

(** A round of the loop. It ends the thread when [recvFrame] fails. *)
Definition reader_round (fuel : nat) (now : Z) (nonce : bytes) b : option (Backend W * list output) :=
  match derp_ b with
  | None => Some (with_derp None (derpRunning_ b) false b, [])
  | Some s =>
      match recvFrame fuel s "" with
      | (None, _, _) => None
      | (Some None, s, _) => Some (with_derp (Some s) (derpRunning_ b) false b, [])
      | (Some (Some frame), s, _) => reader_frame frame now nonce (with_derp (Some s) (derpRunning_ b) (derpAlive_ b) b)
      end
  end.

(** A step of the direct path, with what it reads of the rest of the backend. *)
Definition direct_step (o : op) b : option (Backend W * list output) :=
  '(d, effects) ← step x25519 poly1305 x25519_public o (direct_ b);
  Some (deliver effects (with_direct d b)).
Definition inject_target b : option Z := if context_ b then Some (activePeerId_ b) else None.

(** ** The steps *)

Inductive bop :=
| StartTunnel (privateKey localIp : bytes) (answers : WgxAnswers)
| AddPeer (peerId : Z) (publicKey peerIp : bytes) (answers : WgxAnswers)
| EnsureDerp (peerNodeKey : bytes) (homeDerpRegion : Z) (derpMap : list DerpRegion) (localPrivateKey : bytes)
    (fuel : nat) (dial : DerpNode -> Dialed) (token : Z)
| TcpProxy (peerIp hostIp : bytes) (ports : list Z) (answers : WgxAnswers)
| UdpRelay (peerIp : bytes) (ports : list Z) (answers : WgxAnswers)
| StopUdpRelay
| StopAll
| StartDirect (config : DirectPathConfig) (on : bool) (bound lan : option Z)
| ReaderRound (fuel : nat) (now : Z) (nonce : bytes)
| Egress (now : Z) (packet : bytes) (net : network)
| UdpBegin (now : Z) (lookup : bytes -> option Z) (id : bytes) (net : network)
| UdpTick (now : Z) (draws : Draws) (net : network)
| UdpPacket (now : Z) (from : IPv4Endpoint) (packet nonce : bytes) (net : network).

(** The steps of [DirectLink] among them. *)
Definition direct_op (o : bop) b : option op :=
  match o with
  | UdpBegin now lookup id net => Some (Begin now (activeDerpRegion_ b) lookup id net)
  | UdpTick now draws net => Some (Tick now draws net)
  | UdpPacket now from packet nonce net => Some (Packet now from packet (activeDerpRegion_ b) nonce (inject_target b) net)
  | _ => None
  end.

(** The reader runs until [derpAlive_] falls; the socket's thread as in
    [DirectLink.enabled]. *)
Definition benabled (o : bop) b : bool :=
  match o with
  | ReaderRound _ _ _ => derpAlive_ b
  | _ => match direct_op o b with Some o => enabled o (direct_ b) | None => true end
  end.

Definition bstep (o : bop) b : option (Backend W * list output) :=
  match o with
  | StartTunnel privateKey localIp answers => let '(_, b, outs) := startTunnel privateKey localIp answers b in Some (b, outs)
  | AddPeer peerId publicKey peerIp answers => let '(_, b, outs) := addOrUpdatePeer peerId publicKey peerIp answers b in Some (b, outs)
  | EnsureDerp key home derpMap priv fuel dial token =>
      '(_, b) ← ensureDerpRoute key home derpMap priv fuel dial token b; Some (b, [])
  | TcpProxy peerIp hostIp ports answers => let '(_, b, outs) := startTcpProxy peerIp hostIp ports answers b in Some (b, outs)
  | UdpRelay peerIp ports answers => let '(_, b, outs) := startUdpRelay peerIp ports answers b in Some (b, outs)
  | StopUdpRelay => Some (stopUdpRelay b, [])
  | StopAll => Some (stop b)
  | StartDirect config on bound lan => Some (startDirectPath config on bound lan b)
  | ReaderRound fuel now nonce => reader_round fuel now nonce b
  | Egress now packet net => Some (sendEgress now packet net b)
  | _ => match direct_op o b with Some o => direct_step o b | None => Some (b, []) end
  end.

(** Peer keys are [Key32]. *)
Definition bop_ok (o : bop) : Prop :=
  match o with EnsureDerp key _ _ _ _ _ _ => length key = kDerpKeyLen | _ => True end.

(** The states and outputs every interleaving can lead to. *)
Inductive breaches : list output -> Backend W -> Prop :=
| breaches_fresh : breaches [] fresh_backend
| breaches_step outs b o b' more : breaches outs b -> benabled o b = true -> bop_ok o -> bstep o b = Some (b', more) ->
    breaches (outs ++ more) b'.

(** ** The wgx library's objects *)

(** The objects that exist. *)
Record Library := { lib_context : bool; lib_relay : bool }.

(** The contract of [wgx.h]: a context is made when there is none, the relay on
    a context when there is none, both are used and destroyed only while they
    exist, and the relay is destroyed before its context. *)
Definition library_call (c : wgx_call) (l : Library) : option Library :=
  match c with
  | WgxCreate _ _ made => if lib_context l then None else Some {| lib_context := made; lib_relay := lib_relay l |}
  | WgxAddPeer _ _ _ | WgxStart | WgxConnect _ | WgxInject _ _ => if lib_context l then Some l else None
  | WgxDestroy => if lib_context l && negb (lib_relay l) then Some {| lib_context := false; lib_relay := false |} else None
  | RelayCreate made =>
      if lib_context l && negb (lib_relay l) then Some {| lib_context := true; lib_relay := made |} else None
  | RelayStart _ _ _ | RelayIsRunning | RelayAddTcp _ | RelayAddUdp _ => if lib_relay l then Some l else None
  | RelayDestroy => if lib_relay l then Some {| lib_context := lib_context l; lib_relay := false |} else None
  end.
Fixpoint library_run (outs : list output) (l : Library) : option Library :=
  match outs with
  | [] => Some l
  | Call c :: rest => l ← library_call c l; library_run rest l
  | Out _ :: rest => library_run rest l
  end.

Definition library b : Library := {| lib_context := context_ b; lib_relay := relay_ b |}.

Lemma library_run_app outs more l : library_run (outs ++ more) l = library_run outs l ≫= library_run more.
Proof.
  revert l. induction outs as [|[c|e] outs IH]; intros l; cbn [app library_run]; [done| |apply IH].
  destruct (library_call c l) as [l'|]; [apply IH|done].
Qed.

Lemma library_run_out effects l : library_run (Out <$> effects) l = Some l.
Proof. by induction effects. Qed.

(** What the objects of a state are needed for. *)
Definition objects_ok b : Prop := (running_ b = true -> context_ b = true) /\ (relay_ b = true -> context_ b = true).

(** Steps of the direct path inject only what [inject] allows. *)
Definition injects (effects : list effect) : Prop := Exists (fun e => match e with ToWireGuard _ _ => True | _ => False end) effects.

Lemma injects_app l k : injects (l ++ k) -> injects l \/ injects k.
Proof. apply Exists_app. Qed.
Lemma injects_nil : ~ injects [].
Proof. by intros ?%Exists_nil. Qed.
Lemma injects_udp net to packet : ~ injects (udp_send net to packet).2.
Proof. unfold udp_send. case_match; cbn; [intros [|]%Exists_cons; [done|by apply injects_nil]|apply injects_nil]. Qed.
Lemma injects_locked packet to net d : ~ injects (sendUdpLocked packet to net d).2.
Proof. unfold sendUdpLocked. case_match; [apply injects_nil|apply injects_udp]. Qed.
Lemma injects_derp packet : ~ injects (sendDiscoViaDerp packet).
Proof. unfold sendDiscoViaDerp. case_match; [apply injects_nil|]. intros [|]%Exists_cons; [done|by apply injects_nil]. Qed.
Lemma injects_pings config net now : forall due draws i d,
  ~ injects (ping_loop x25519 poly1305 config draws i now due net d).2.
Proof.
  induction due as [|ep due IH]; intros draws i d; cbn [ping_loop]; [apply injects_nil|].
  destruct (draws i) as [tx nonce]. specialize (IH draws (S i) (with_path (notePingSent (directPath_ d) tx ep now) d)).
  destruct (ping_loop _ _ _ _ _ _ _ _ _) as [d' more]. intros [H1|H1]%injects_app; [by apply injects_locked in H1|done].
Qed.

Lemma injects_disco packet from now region nonce net d d' effects :
  handleDisco x25519 poly1305 packet from now region nonce net d = Some (d', effects) -> ~ injects effects.
Proof.
  unfold handleDisco. destruct (directConfig_ d) as [config|]; [|intros [= _ <-]; apply injects_nil].
  intros E. apply bind_Some in E as (opened&_&E). destruct opened as [o|]; [|injection E as _ <-; apply injects_nil].
  destruct (bool_decide _); [|injection E as _ <-; apply injects_nil]. injection E as E.
  unfold handle_message in E. destruct (Disco.type (message o)), from as [f|]; injection E as _ <-;
    first [apply injects_nil | apply injects_locked | apply injects_derp].
Qed.

Lemma injects_tick now draws net l d : ~ injects (loop_tick x25519 poly1305 now draws net l d).2.
Proof.
  unfold loop_tick. destruct (_ <=? _); [|apply injects_nil]. unfold directHousekeeping.
  destruct (directConfig_ d) as [config|]; [|apply injects_nil].
  assert (~ injects (stun_refresh now draws net l d).2) as H1.
  { unfold stun_refresh. destruct (stunServer l); [|apply injects_nil]. destruct (_ <=? _); [apply injects_udp|apply injects_nil]. }
  destruct (stun_refresh now draws net l d) as [[d1 l1] e1]. destruct (due (directPath_ d1) now) as [path eps].
  pose proof (injects_pings config net now eps (dw_ping draws) 0 (with_path path d1)) as H2.
  destruct (ping_loop _ _ _ _ _ _ _ _ _) as [d2 e2]. unfold report. cbv zeta. cbn [snd] in H1, H2 |- *.
  intros [?|[?|[Hc|[Hp|Hn]%injects_app]%injects_app]%injects_app]%injects_app; [done..| | |].
  - destruct (_ && _) in Hc; [by apply injects_derp in Hc|by apply injects_nil in Hc].
  - destruct (_ && _) in Hp; [|by apply injects_nil in Hp]. by apply Exists_cons in Hp as [|?%Exists_nil].
  - destruct (_ && _) in Hn; [|by apply injects_nil in Hn].
    apply Exists_cons in Hn as [Hn|?%Exists_nil]; [|done]. by destruct (best _ _).
Qed.

Lemma injects_step o d d' effects : step x25519 poly1305 x25519_public o d = Some (d', effects) -> injects effects ->
  exists now from packet region nonce peer net, o = Packet now from packet region nonce (Some peer) net.
Proof.
  destruct o as [| |now draws net|now from packet region nonce inject net|now packet region nonce|now packet net| |];
    cbn [step]; intros E Hi.
  - injection E as <- <-. by apply injects_nil in Hi.
  - injection E as <- <-. by apply injects_app in Hi as [Hi|Hi]; apply injects_udp in Hi.
  - destruct (udpThread_ d) as [| |l]; [by injection E as <- <-; apply injects_nil in Hi..|].
    injection E as E. pose proof (injects_tick now draws net l d) as Ht. by rewrite E in Ht.
  - destruct inject as [peer|]; [by eexists _, _, _, _, _, _, _|]. exfalso. unfold handleUdpPacket in E.
    destruct (handleSelfTest packet from d); [injection E as <- <-; by apply injects_nil in Hi|].
    apply bind_Some in E as ([]&_&E).
    + apply bind_Some in E as (m&_&E). injection E as _ <-. by apply injects_nil in Hi.
    + destruct (looksLikeDisco packet); [by apply injects_disco in E|]. injection E as <- <-. by apply injects_nil in Hi.
  - by apply injects_disco in E.
  - injection E as <- <-. unfold sendDirect in Hi. destruct (negb _); [by apply injects_nil in Hi|].
    destruct (best _ _); [by apply injects_udp in Hi|by apply injects_nil in Hi].
  - injection E as <- <-. by apply injects_nil in Hi.
  - unfold stopDirectPath_finish in E. injection E as _ <-. destruct (directConfig_ d); [|by apply injects_nil in Hi].
    destruct (_ && _); [|by apply injects_nil in Hi]. by apply Exists_cons in Hi as [|?%Exists_nil].
Qed.

(** Carrying out effects changes nothing but the DERP session. *)
Lemma derp_send_same packet b : exists s, derp_send packet b = with_derp s (derpRunning_ b) (derpAlive_ b) b.
Proof.
  unfold derp_send. destruct (derp_ b) as [s|] eqn:Es; [|exists None; destruct b; cbn in *; by subst].
  destruct (_ && _); [by eexists|]. exists (Some s). destruct b; cbn in *; by subst.
Qed.

Lemma deliver_same effects : forall b, exists s,
  (deliver effects b).1 = with_derp s (derpRunning_ b) (derpAlive_ b) b.
Proof.
  induction effects as [|e effects IH]; intros b; [exists (derp_ b); by destruct b|].
  destruct (derp_send_same (match e with ViaDerp p => p | _ => [] end) b) as (s1&E1).
  destruct e; cbn [deliver]; [destruct (IH b) as (s&E)|rewrite E1|destruct (IH b) as (s&E)..];
    [by exists s; destruct (deliver effects b)| |by exists s; destruct (deliver effects b)..].
  destruct (IH (with_derp s1 (derpRunning_ b) (derpAlive_ b) b)) as (s&->). by exists s.
Qed.

Lemma deliver_library effects : forall b, (injects effects -> context_ b = true) ->
  library_run (deliver effects b).2 (library b) = Some (library b).
Proof.
  induction effects as [|e effects IH]; intros b Hi; [done|].
  assert (injects effects -> context_ b = true) as Hr by (intros ?; apply Hi, Exists_cons; by right).
  destruct e as [to p|p|peer p|eps|ep rtt]; cbn [deliver].
  - specialize (IH b Hr). destruct (deliver effects b). done.
  - destruct (derp_send_same p b) as (s&->). by apply (IH (with_derp s (derpRunning_ b) (derpAlive_ b) b)).
  - specialize (IH b Hr). destruct (deliver effects b). cbn [snd library_run library_call library lib_context] in *.
    rewrite Hi by (apply Exists_cons; by left). done.
  - specialize (IH b Hr). destruct (deliver effects b). done.
  - specialize (IH b Hr). destruct (deliver effects b). done.
Qed.

Definition kept b b' : Prop :=
  context_ b' = context_ b /\ relay_ b' = relay_ b /\ running_ b' = running_ b.

Lemma deliver_kept effects b : kept b (deliver effects b).1.
Proof. by destruct (deliver_same effects b) as (s&->). Qed.

(** A step that keeps the objects and makes no call, or harmless ones. *)
Definition library_step b (r : Backend W * list output) : Prop :=
  library_run r.2 (library b) = Some (library r.1) /\ (objects_ok b -> objects_ok r.1).

Lemma library_keeps b b' outs : kept b b' -> library_run outs (library b) = Some (library b) -> library_step b (b', outs).
Proof.
  intros (Ec&Er&En) E. split; [|unfold objects_ok; cbn [fst]; by rewrite Ec, Er, En].
  cbn [fst snd]. rewrite E. unfold library. by rewrite Ec, Er.
Qed.

Lemma stop_library b : objects_ok b ->
  library_run (stop b).2 (library b) = Some {| lib_context := false; lib_relay := false |} /\
  context_ (stop b).1 = false /\ relay_ (stop b).1 = false /\ running_ (stop b).1 = false.
Proof.
  intros [Hn Hr]. unfold stop, stopDirectPath. destruct (stopDirectPath_finish _) as [d notes]. cbn [fst snd].
  split; [|done]. rewrite library_run_app, library_run_out. cbn [mbind option_bind].
  cbn [stopDerp with_target with_derp with_direct relay_ context_]. unfold library.
  destruct (relay_ b) eqn:Er; cbn [app library_run library_call lib_relay lib_context mbind option_bind].
  - rewrite (Hr eq_refl). done.
  - by destruct (context_ b).
Qed.

Lemma add_ports_library add call ports l : (forall port, library_call (call port) l = Some l) ->
  library_run (add_ports add call ports).1 l = Some l.
Proof.
  intros Hc. induction ports as [|port ports IH]; [done|]. cbn [add_ports].
  destruct (add port =? 0); [destruct (add_ports add call ports)|]; cbn [fst library_run]; rewrite Hc; done.
Qed.

Lemma startTunnel_library key ip answers b : objects_ok b ->
  let '(_, b', outs) := startTunnel key ip answers b in library_step b (b', outs).
Proof.
  intros Ho. unfold startTunnel. destruct (stop_library b Ho) as (El&Ec&Er&En).
  destruct (stop b) as [b1 outs]. cbn [fst snd] in El, Ec, Er, En.
  assert (forall b', context_ b' = false -> relay_ b' = false -> running_ b' = false -> objects_ok b') as Hok.
  { intros b' _ H1 H2. split; congruence. }
  destruct (inet_pton ip) as [a|]; [|split; [cbn [fst snd]; rewrite El; unfold library; by rewrite Ec, Er|intros _; by apply Hok]].
  destruct (wgx_create answers) eqn:Ew; (split; [cbn [fst snd]; rewrite library_run_app, El; unfold library; cbn; by rewrite ?Ec, ?Er|]).
  - intros _. split; [done|]. cbn. by rewrite Er.
  - intros _. by apply Hok.
Qed.

(** [lib_run]: the run of a list of calls whose answers are known. *)
Ltac lib_run :=
  repeat first [progress cbn [fst snd app library_run mbind option_bind]
    | match goal with E : library_call _ _ = Some _ |- _ => rewrite E end]; try done.

Lemma addOrUpdatePeer_library id key ip answers b :
  let '(_, b', outs) := addOrUpdatePeer id key ip answers b in library_step b (b', outs).
Proof.
  unfold addOrUpdatePeer. destruct (context_ b) eqn:Ec; cbn [negb orb]; [|by apply library_keeps].
  destruct (negb (tunnelCreated_ b)); [by apply library_keeps|].
  destruct (inet_pton ip) as [a|]; [|by apply library_keeps].
  assert (library_call (WgxAddPeer id key a) (library b) = Some (library b)) as E1 by (cbn; by rewrite Ec).
  assert (library_call WgxStart (library b) = Some (library b)) as E2 by (cbn; by rewrite Ec).
  assert (library_call (WgxConnect id) (library b) = Some (library b)) as E3 by (cbn; by rewrite Ec).
  destruct (negb _); [apply library_keeps; [done|lib_run]|].
  cbn [with_active running_]. destruct (running_ b) eqn:En.
  - unfold handshake. destruct (_ =? 0); (apply library_keeps; [done|lib_run]).
  - destruct (negb _); [apply library_keeps; [done|lib_run]|].
    unfold handshake. destruct (_ =? 0); (split; [lib_run|intros [Hn Hr]; split; cbn; done]).
Qed.

Lemma startTcpProxy_library peerIp hostIp ports answers b : objects_ok b ->
  let '(_, b', outs) := startTcpProxy peerIp hostIp ports answers b in library_step b (b', outs).
Proof.
  intros Hok. unfold startTcpProxy. destruct (context_ b) eqn:Ec; cbn [negb orb]; [|by apply library_keeps].
  destruct (negb (running_ b)); [by apply library_keeps|].
  set (first := if relay_ b then [Call RelayDestroy] else []).
  assert (library_run first (library b) = Some {| lib_context := true; lib_relay := false |}) as E0.
  { unfold first, library. rewrite Ec. by destruct (relay_ b). }
  assert (forall relay, objects_ok b -> objects_ok (with_relay relay (udpPrepared_ b) b)) as Hk.
  { intros relay [Hn Hr]. split; cbn; [done|by intros _]. }
  destruct (wgx_relay_create answers); cbn [negb].
  2: { split; [|by apply Hk]. cbn [fst snd]. rewrite library_run_app, E0. unfold library. cbn. by rewrite Ec. }
  set (outs := (first ++ [Call (RelayCreate true)]) ++ [Call (RelayStart (localIp_ b) hostIp peerIp)]).
  assert (library_run outs (library b) = Some {| lib_context := true; lib_relay := true |}) as E1.
  { unfold outs. by rewrite !library_run_app, E0. }
  destruct (negb _).
  { split; [|by apply Hk]. cbn [fst snd]. rewrite library_run_app, E1. unfold library. cbn. by rewrite Ec. }
  pose proof (add_ports_library (wgx_relay_add_tcp answers) RelayAddTcp ports {| lib_context := true; lib_relay := true |}
    (fun _ => eq_refl)) as E2.
  destruct (add_ports _ _ _) as [added [port|]]; cbn [fst] in E2.
  - split; [|by apply Hk]. cbn [fst snd]. rewrite !library_run_app, E1. cbn [mbind option_bind].
    rewrite library_run_app, E2. unfold library. cbn. by rewrite Ec.
  - split; [|intros Ho; by apply (Hk true)]. cbn [fst snd]. rewrite library_run_app, E1. cbn [mbind option_bind].
    rewrite E2. unfold library. cbn. by rewrite Ec.
Qed.

Lemma startUdpRelay_library peerIp ports answers b :
  let '(_, b', outs) := startUdpRelay peerIp ports answers b in library_step b (b', outs).
Proof.
  unfold startUdpRelay. destruct (relay_ b) eqn:Er; cbn [negb orb]; [|by apply library_keeps].
  assert (library_run [Call RelayIsRunning] (library b) = Some (library b)) as E0.
  { unfold library. rewrite Er. done. }
  destruct (negb _); [by apply library_keeps|]. destruct (udpPrepared_ b); [by apply library_keeps|].
  pose proof (add_ports_library (wgx_relay_add_udp answers) RelayAddUdp ports (library b)) as E2.
  destruct (add_ports _ _ _) as [added [port|]]; cbn [fst] in E2; (apply library_keeps; [by unfold kept; cbn; rewrite ?Er|]);
    rewrite library_run_app, E0; cbn [mbind option_bind]; apply E2; intros port'; unfold library; cbn; by rewrite Er.
Qed.

Lemma ensureDerpRoute_kept key home derpMap priv fuel dial token b r b' :
  ensureDerpRoute key home derpMap priv fuel dial token b = Some (r, b') -> kept b b'.
Proof.
  unfold ensureDerpRoute. destruct (all_zero key); [by intros [= _ <-]|]. destruct (all_zero priv); [by intros [= _ <-]|].
  destruct (_ <=? _); [by intros [= _ <-]|]. destruct (bool_decide (candidate_regions home derpMap = [])); [by intros [= _ <-]|].
  destruct (_ && _ && _ && _); [by intros [= _ <-]|]. intros E. apply bind_Some in E as ([dialed e]&_&E).
  destruct dialed as [[[s node] region]|]; by injection E as _ <-.
Qed.

Lemma reader_round_library fuel now nonce b r : reader_round fuel now nonce b = Some r -> library_step b r.
Proof.
  unfold reader_round. destruct (derp_ b) as [s|]; [|intros [= <-]; by apply library_keeps].
  destruct (recvFrame fuel s "") as [[[[frame|]|] s1] e]; [|intros [= <-]; by apply library_keeps|done].
  assert (forall b', kept b b' -> library_step b (b', [])) as Hk by (intros; by apply library_keeps).
  unfold reader_frame. set (b1 := with_derp (Some s1) _ _ b).
  destruct (bool_decide (Derp.type frame = DerpFrameType.RecvPacket)).
  - destruct (_ <=? _)%nat; [intros [= <-]; by apply Hk|].
    destruct (context_ b1) eqn:Ec; cbn [negb orb]; [|intros [= <-]; by apply Hk].
    destruct (negb _); [intros [= <-]; by apply Hk|]. destruct (looksLikeDisco _).
    + intros E. apply bind_Some in E as ([d effects]&E&E1). injection E1 as <-. apply injects_disco in E.
      pose proof (deliver_kept effects (with_direct d b1)) as Hd.
      pose proof (deliver_library effects (with_direct d b1)) as Hl.
      destruct (deliver effects (with_direct d b1)) as [b2 outs]. apply library_keeps; [exact Hd|].
      apply Hl. intros Hi. by apply E in Hi.
    + intros [= <-]. apply library_keeps; [done|]. cbn [library_run library_call library lib_context].
      change (context_ b) with (context_ b1). by rewrite Ec.
  - destruct (bool_decide (Derp.type frame = DerpFrameType.Ping)).
    { destruct (derp_ b1); [|intros [= <-]; by apply Hk]. destruct (derpAlive_ b1); intros [= <-]; by apply Hk. }
    destruct (bool_decide _); [|intros [= <-]; by apply Hk]. destruct (_ <=? _)%nat; intros [= <-]; by apply Hk.
Qed.

Lemma sendEgress_library now packet net b : library_step b (sendEgress now packet net b).
Proof.
  unfold sendEgress. destruct (_ || _); [by apply library_keeps|].
  destruct (if directActive_ (direct_ b) then _ else _) as [[] sent].
  - apply library_keeps; [done|apply library_run_out].
  - apply library_keeps; [|done]. by destruct (derp_send_same packet b) as (s&->).
Qed.

Lemma direct_step_library o b r : (forall now from packet region nonce inject net,
    o = Packet now from packet region nonce inject net -> inject = inject_target b) ->
  direct_step o b = Some r -> library_step b r.
Proof.
  intros Ho. unfold direct_step. intros E. apply bind_Some in E as ([d effects]&E&E1). injection E1 as <-.
  assert (injects effects -> context_ b = true) as Hi.
  { intros Hi. destruct (injects_step _ _ _ _ E Hi) as (now&from&packet&region&nonce&peer&net&->).
    specialize (Ho _ _ _ _ _ _ _ eq_refl). unfold inject_target in Ho. by destruct (context_ b). }
  pose proof (deliver_kept effects (with_direct d b)) as Hd. pose proof (deliver_library effects (with_direct d b) Hi) as Hl.
  destruct (deliver effects (with_direct d b)) as [b2 outs]. by apply library_keeps.
Qed.

Lemma bstep_library o b r : objects_ok b -> bstep o b = Some r -> library_step b r.
Proof.
  intros Hok. destruct o as [key ip answers|id key ip answers|key home derpMap priv fuel dial token|peerIp hostIp ports answers
    |peerIp ports answers| | |config on bound lan|fuel now nonce|now packet net|now lookup id net|now draws net|now from packet nonce net];
    cbn [bstep direct_op].
  - pose proof (startTunnel_library key ip answers b Hok). destruct (startTunnel _ _ _ _) as [[? ?] ?]. by intros [= <-].
  - pose proof (addOrUpdatePeer_library id key ip answers b). destruct (addOrUpdatePeer _ _ _ _ _) as [[? ?] ?]. by intros [= <-].
  - intros E. apply bind_Some in E as ([res b']&E&E1). injection E1 as <-. apply library_keeps; [|done].
    by eapply ensureDerpRoute_kept.
  - pose proof (startTcpProxy_library peerIp hostIp ports answers b Hok). destruct (startTcpProxy _ _ _ _ _) as [[? ?] ?]. by intros [= <-].
  - pose proof (startUdpRelay_library peerIp ports answers b). destruct (startUdpRelay _ _ _ _) as [[? ?] ?]. by intros [= <-].
  - intros [= <-]. by apply library_keeps.
  - intros [= <-]. destruct (stop_library b Hok) as (El&Ec&Er&En). split; [by rewrite El; unfold library; rewrite Ec, Er|].
    intros _. split; congruence.
  - intros [= <-]. unfold startDirectPath, stopDirectPath. destruct (stopDirectPath_finish _) as [d notes].
    apply library_keeps; [done|apply library_run_out].
  - apply reader_round_library.
  - intros [= <-]. apply sendEgress_library.
  - by apply direct_step_library.
  - by apply direct_step_library.
  - apply direct_step_library. intros; congruence.
Qed.

(** C16: the wgx library is used as its header says, in every interleaving of the
    route's calls with the reader, the socket's thread and the egress callback
    and whatever the library answers: a context is never lost or destroyed twice,
    nothing is called on a context or relay that does not exist, and the relay
    is destroyed before its context. *)
Theorem library_contract outs b : breaches outs b ->
  library_run outs {| lib_context := false; lib_relay := false |} = Some (library b).
Proof.
  intros Hr. enough (library_run outs {| lib_context := false; lib_relay := false |} = Some (library b) /\ objects_ok b) by tauto.
  induction Hr as [|outs b o b' more _ [IH Hok] _ _ Hs]; [by split|].
  apply bstep_library in Hs as [Hl Hk]; [|done]. split; [|by apply Hk]. by rewrite library_run_app, IH.
Qed.

(** ** The relay in use is authenticated *)

Definition session_ok (s : DerpSession W) : Prop :=
  connected_ s = true /\ is_Some (transport_ s) /\ exists nonce, authenticated (clientPrivate_ s) nonce (serverKey_ s).

Lemma session_ok_keys s s' : same_keys s s' -> same_client s s' -> session_ok s -> session_ok s'.
Proof. intros (_&_&Ek&Ec) [Ep Et] (Hc&Ht&nonce&Ha). split; [congruence|]. split; [auto|]. exists nonce. by rewrite Ep, Ek. Qed.

Lemma session_ok_write t p s e : session_ok s -> session_ok (writeRaw t p s e).1.2.
Proof.
  destruct (writeRaw t p s e) as [[r s'] e'] eqn:E. apply session_ok_keys; [by apply writeRaw_keys in E|by apply writeRaw_client in E].
Qed.

Lemma session_ok_send key packet s e : session_ok s -> session_ok (sendPacket key packet s e).1.2.
Proof. unfold sendPacket. destruct (_ || _); [done|]. destruct (_ <? _); [done|]. apply session_ok_write. Qed.

Lemma session_ok_announce token s : session_ok s -> session_ok (announce token s).
Proof. intros Hs. unfold announce, sendPing. by repeat apply session_ok_write. Qed.

Lemma session_ok_recv fuel s r s' e : recvFrame fuel s "" = (r, s', e) -> session_ok s -> session_ok s'.
Proof. intros E. apply session_ok_keys; [by apply recvFrame_keys in E|by apply recvFrame_client in E]. Qed.

Lemma dial_node_ok fuel dial priv node e s e' : dial_node fuel dial priv node e = Some (Some s, e') -> session_ok s.
Proof.
  unfold dial_node. destruct (dl_connect (dial node)); [|done]. destruct (tr_write _ _) as [[|msg] w]; [|done].
  destruct (readDerpUpgradeHeader _ _ _ _) as [[[header|] w1] e1]; [|done].
  intros E. apply bind_Some in E as ([u|m]&_&E); [|done].
  destruct (connect _ _ _) as [[[[]|] s1] e2] eqn:Ec; [|done..]. injection E as <- _.
  apply connect_session in Ec as (Hc&_&Ha&Hp&Ht). split; [done|]. split; [done|]. rewrite Hp. eauto.
Qed.

Lemma dial_nodes_ok fuel dial priv nodes : forall e s node e',
  dial_nodes fuel dial priv nodes e = Some (Some (s, node), e') -> session_ok s /\ node ∈ nodes.
Proof.
  induction nodes as [|n nodes IH]; intros e s node e'; cbn [dial_nodes]; [done|].
  intros E. apply bind_Some in E as ([[s1|] e1]&E1&E).
  - injection E as <- <- _. split; [by eapply dial_node_ok|left].
  - apply IH in E as [? ?]. split; [done|by right].
Qed.

Lemma dial_regions_ok fuel dial priv regions : forall e s node region e',
  dial_regions fuel dial priv regions e = Some (Some (s, node, region), e') ->
  session_ok s /\ region ∈ regions /\ node ∈ dr_nodes region.
Proof.
  induction regions as [|r regions IH]; intros e s node region e'; cbn [dial_regions]; [done|].
  intros E. apply bind_Some in E as ([[[s1 n1]|] e1]&E1&E).
  - injection E as <- <- <- _. apply dial_nodes_ok in E1 as [? ?]. split_and!; [done|left|done].
  - apply IH in E as (?&?&?). split_and!; [done|by right|done].
Qed.

Definition relay_ok b : Prop :=
  length (peerNodeKey_ b) = kDerpKeyLen /\
  (derpAlive_ b = true -> havePeer_ b = true /\ exists s, derp_ b = Some s /\ session_ok s).

(** Steps that leave the relay alone, or end it. *)
Lemma relay_ok_same b b' : peerNodeKey_ b' = peerNodeKey_ b -> havePeer_ b' = havePeer_ b -> derp_ b' = derp_ b ->
  derpAlive_ b' = derpAlive_ b -> relay_ok b -> relay_ok b'.
Proof. unfold relay_ok. by intros -> -> -> ->. Qed.

Lemma relay_ok_down b b' : peerNodeKey_ b' = peerNodeKey_ b -> derpAlive_ b' = false -> relay_ok b -> relay_ok b'.
Proof. unfold relay_ok. intros -> -> [? _]. by split. Qed.

Lemma relay_ok_session b s s' running : derp_ b = Some s -> (session_ok s -> session_ok s') -> relay_ok b ->
  relay_ok (with_derp (Some s') running (derpAlive_ b) b).
Proof.
  intros Es Hs [Hk Ha]. split; [done|]. intros Hl. destruct (Ha Hl) as (Hp&s0&E0&Hs0). split; [done|].
  exists s'. split; [done|]. apply Hs. congruence.
Qed.

Lemma derp_send_relay packet b : relay_ok b -> relay_ok (derp_send packet b).
Proof.
  intros Hr. unfold derp_send. destruct (derp_ b) as [s|] eqn:Es; [|done]. destruct (_ && _); [|done].
  apply (relay_ok_session b s); [done| |done]. apply session_ok_send.
Qed.

Lemma deliver_relay effects : forall b, relay_ok b -> relay_ok (deliver effects b).1.
Proof.
  induction effects as [|e effects IH]; intros b Hr; [done|]. destruct e; cbn [deliver];
    try (specialize (IH b Hr); by destruct (deliver effects b)). by apply IH, derp_send_relay.
Qed.

Lemma stop_relay b : relay_ok b -> relay_ok (stop b).1.
Proof.
  unfold stop, stopDirectPath. destruct (stopDirectPath_finish _) as [d notes]. by apply relay_ok_down.
Qed.

Lemma ensureDerpRoute_relay key home derpMap priv fuel dial token b r b' : length key = kDerpKeyLen ->
  ensureDerpRoute key home derpMap priv fuel dial token b = Some (r, b') -> relay_ok b -> relay_ok b'.
Proof.
  intros Hk. unfold ensureDerpRoute. destruct (all_zero key); [by intros [= _ <-]|]. destruct (all_zero priv); [by intros [= _ <-]|].
  destruct (_ <=? _); [by intros [= _ <-]|]. destruct (bool_decide (candidate_regions home derpMap = [])); [by intros [= _ <-]|].
  destruct (_ && _ && _ && _); [by intros [= _ <-]|]. intros E Hr. apply bind_Some in E as ([dialed e]&Ed&E).
  destruct dialed as [[[s node] region]|]; injection E as _ <-; [|by apply (relay_ok_down b)].
  split; [done|]. intros _. split; [done|]. eexists. split; [done|]. apply dial_regions_ok in Ed as (Hs&_).
  by apply session_ok_announce.
Qed.

Lemma reader_round_relay fuel now nonce b r : reader_round fuel now nonce b = Some r -> relay_ok b -> relay_ok r.1.
Proof.
  intros E Hr. unfold reader_round in E. destruct (derp_ b) as [s|] eqn:Es; [|injection E as <-; by apply (relay_ok_down b)].
  destruct (recvFrame fuel s "") as [[[[frame|]|] s1] e] eqn:Er; [|injection E as <-; by apply (relay_ok_down b)|done].
  pose proof (relay_ok_session b s s1 (derpRunning_ b) Es (session_ok_recv _ _ _ _ _ Er) Hr) as H1.
  revert E. unfold reader_frame. set (b1 := with_derp (Some s1) _ _ b) in *.
  destruct (bool_decide (Derp.type frame = DerpFrameType.RecvPacket)).
  - destruct (_ <=? _)%nat; [by intros [= <-]|]. destruct (_ || _); [by intros [= <-]|].
    destruct (looksLikeDisco _); [|by intros [= <-]].
    intros E. apply bind_Some in E as ([d effects]&_&E). injection E as <-. by apply deliver_relay.
  - destruct (bool_decide (Derp.type frame = DerpFrameType.Ping)).
    { destruct (derp_ b1) as [s2|] eqn:E2; [|by intros [= <-]]. destruct (derpAlive_ b1) eqn:Ea; intros [= <-]; [|done].
      rewrite <- Ea. apply (relay_ok_session b1 s2); [done| |done]. apply session_ok_write. }
    destruct (bool_decide _); [|by intros [= <-]]. destruct (_ <=? _)%nat; by intros [= <-].
Qed.

Lemma bstep_relay o b r : bop_ok o -> bstep o b = Some r -> relay_ok b -> relay_ok r.1.
Proof.
  intros Ho. destruct o as [key ip answers|id key ip answers|key home derpMap priv fuel dial token|peerIp hostIp ports answers
    |peerIp ports answers| | |config on bound lan|fuel now nonce|now packet net|now lookup id net|now draws net|now from packet nonce net];
    cbn [bstep direct_op].
  - unfold startTunnel. pose proof (stop_relay b) as Hs. destruct (stop b) as [b1 outs].
    destruct (inet_pton ip); [destruct (wgx_create answers)|]; intros [= <-] Hr; apply Hs in Hr; done.
  - unfold addOrUpdatePeer, handshake. intros E Hr. repeat case_match; by simplify_eq.
  - intros E Hr. apply bind_Some in E as ([res b']&E&E1). injection E1 as <-. by eapply ensureDerpRoute_relay.
  - unfold startTcpProxy. intros E Hr. repeat case_match; by simplify_eq.
  - unfold startUdpRelay. intros E Hr. repeat case_match; by simplify_eq.
  - by intros [= <-].
  - intros [= <-]. apply stop_relay.
  - intros [= <-]. unfold startDirectPath, stopDirectPath. by destruct (stopDirectPath_finish _) as [d notes].
  - apply reader_round_relay.
  - intros [= <-] Hr. unfold sendEgress. destruct (_ || _); [done|].
    destruct (if directActive_ (direct_ b) then _ else _) as [[] sent]; [done|by apply derp_send_relay].
  - unfold direct_step. intros E Hr. apply bind_Some in E as ([d effects]&_&E). injection E as <-. by apply deliver_relay.
  - unfold direct_step. intros E Hr. apply bind_Some in E as ([d effects]&_&E). injection E as <-. by apply deliver_relay.
  - unfold direct_step. intros E Hr. apply bind_Some in E as ([d effects]&_&E). injection E as <-. by apply deliver_relay.
Qed.

Lemma breaches_relay outs b : breaches outs b -> relay_ok b.
Proof. induction 1 as [|outs b o b' more _ IH _ Ho Hs]; [done|]. by apply bstep_relay in Hs. Qed.

(** In every interleaving, while [derpAlive_] says the relay is up there is a
    peer to send to and a session over an open transport, connected, whose server
    proved in the handshake that it holds the key it greeted with. *)
Theorem relay_authenticated outs b : breaches outs b -> derpAlive_ b = true ->
  havePeer_ b = true /\ exists s nonce, derp_ b = Some s /\ connected_ s = true /\ is_Some (transport_ s) /\
    authenticated (clientPrivate_ s) nonce (serverKey_ s).
Proof. intros [_ Hr]%breaches_relay Ha. destruct (Hr Ha) as (Hp&s&Es&Hc&Ht&nonce&Hn). split; [done|]. by exists s, nonce. Qed.

(** ** What comes in *)

Lemma reader_inject frame now nonce b b' outs id p : reader_frame frame now nonce b = Some (b', outs) ->
  Call (WgxInject id p) ∈ outs ->
  Derp.type frame = DerpFrameType.RecvPacket /\ context_ b = true /\ id = activePeerId_ b /\ p <> [] /\
  payload frame = take kDerpKeyLen (payload frame) ++ p /\ take kDerpKeyLen (payload frame) = peerNodeKey_ b /\
  looksLikeDisco p = false.
Proof.
  intros E Hin. unfold reader_frame in E.
  assert (forall effects b, ~ injects effects -> Call (WgxInject id p) ∉ (deliver effects b).2) as Hd.
  { clear. induction effects as [|e effects IH]; intros b Hi; [by apply not_elem_of_nil|].
    assert (~ injects effects) as Hr by (intros Hr; apply Hi, Exists_cons; by right).
    destruct e; cbn [deliver]; try (specialize (IH b Hr); destruct (deliver effects b); cbn [snd] in *;
      intros [[=]|]%elem_of_cons; done).
    - by apply IH.
    - exfalso. apply Hi, Exists_cons. by left. }
  case_bool_decide as Et.
  2: { destruct (bool_decide (Derp.type frame = DerpFrameType.Ping)).
       { destruct (derp_ b); [destruct (derpAlive_ b)|]; injection E as _ <-; by apply not_elem_of_nil in Hin. }
       destruct (bool_decide _); [destruct (_ <=? _)%nat|]; injection E as _ <-; by apply not_elem_of_nil in Hin. }
  destruct (Nat.leb_spec (length (payload frame)) kDerpKeyLen) as [|Hl]; [injection E as _ <-; by apply not_elem_of_nil in Hin|].
  destruct (context_ b) eqn:Ec; cbn [negb orb] in E; [|injection E as _ <-; by apply not_elem_of_nil in Hin].
  case_bool_decide as Ek; cbn [negb] in E; [|injection E as _ <-; by apply not_elem_of_nil in Hin].
  destruct (looksLikeDisco (drop kDerpKeyLen (payload frame))) eqn:El.
  - apply bind_Some in E as ([d effects]&Eh&E). injection E as E. apply injects_disco in Eh.
    apply (Hd effects (with_direct d b)) in Eh. rewrite E in Eh. by cbn [snd] in Eh.
  - injection E as _ <-. apply list_elem_of_singleton in Hin as [= -> ->]. split_and!; try done.
    + intros Hn. apply (f_equal length) in Hn. rewrite length_drop in Hn. cbn in Hn. lia.
    + by rewrite take_drop.
Qed.

(** Of what the relay delivers, WireGuard is handed exactly the packets of the
    route's peer: frames from the peer's node key with something after the key
    that is not a disco packet, without the key, for the active peer - and
    nothing else, whatever the frame. *)
Theorem relay_input_is_the_peers frame now nonce b : length (peerNodeKey_ b) = kDerpKeyLen -> context_ b = true ->
  exists b' outs, reader_frame frame now nonce b = Some (b', outs) /\
    forall id p, Call (WgxInject id p) ∈ outs <->
      Derp.type frame = DerpFrameType.RecvPacket /\ payload frame = peerNodeKey_ b ++ p /\ p <> [] /\
      looksLikeDisco p = false /\ id = activePeerId_ b.
Proof.
  intros Hk Hc. destruct (reader_frame frame now nonce b) as [[b' outs]|] eqn:E.
  - exists b', outs. split; [done|]. intros id p. split.
    + intros Hin. destruct (reader_inject _ _ _ _ _ _ _ _ E Hin) as (Ht&_&Hid&Hp&Hsplit&Hkey&Hl).
      split_and!; try done. by rewrite <- Hkey.
    + intros (Ht&Hpay&Hp&Hl&->). unfold reader_frame in E. rewrite Ht, bool_decide_true in E by done.
      rewrite Hpay, <- Hk, take_app_length, drop_app_length, Hc, bool_decide_true, Hl in E by done.
      cbn [negb orb] in E. rewrite length_app in E.
      destruct (Nat.leb_spec (length (peerNodeKey_ b) + length p) (length (peerNodeKey_ b))) as [Hle|].
      * destruct p; [done|]. cbn in Hle. lia.
      * injection E as _ <-. by left.
  - exfalso. revert E. unfold reader_frame. repeat (case_match; try done).
    destruct (handleDisco_total x25519 poly1305 (drop kDerpKeyLen (payload frame)) None now (activeDerpRegion_ b) nonce
      (fun _ _ => false) (direct_ b)) as [[d effects] ->]. done.
Qed.

(** ** Where packets go *)

(** The regions tried: the peer's, if it has nodes, then the others of the map
    that have, in its order, six in all. *)
Lemma fallback_loop_spec home r derpMap : (forall r', r = Some r' -> dr_regionId r' = home) ->
  (r = None -> Forall (fun c => dr_regionId c <> home) derpMap) -> forall regions, (length regions <= kMaxFallbackRegions)%nat ->
  fallback_loop r derpMap regions =
    take kMaxFallbackRegions (regions ++ filter (fun c => dr_regionId c <> home /\ dr_nodes c <> []) derpMap).
Proof.
  intros Hs. induction derpMap as [|c derpMap IH]; intros Hn regions Hl; cbn [fallback_loop].
  - cbn [filter list_filter]. rewrite app_nil_r. by rewrite take_ge.
  - assert (r = None -> Forall (fun c => dr_regionId c <> home) derpMap) as Hn'.
    { intros Hr. by apply Forall_cons_1 in Hn as [_ ?]. }
    destruct (Nat.leb_spec kMaxFallbackRegions (length regions)) as [Hge|Hlt].
    { rewrite take_app_le by lia. symmetry. apply take_ge. lia. }
    assert (match r with Some r => dr_regionId c =? dr_regionId r | None => false end = bool_decide (dr_regionId c = home)) as ->.
    { destruct r as [r'|].
      - rewrite (Hs r' eq_refl). case_bool_decide as E; [by apply Z.eqb_eq|by apply Z.eqb_neq].
      - symmetry. apply bool_decide_eq_false. by apply Forall_cons_1 in Hn as [? _]. }
    case_bool_decide as Eh; [rewrite filter_cons_False by (intros [? _]; done); by apply IH|].
    case_bool_decide as En; [rewrite filter_cons_False by (intros [_ ?]; done); by apply IH|].
    rewrite filter_cons_True by done. rewrite IH by (done || rewrite length_app; cbn; lia). by rewrite <- app_assoc.
Qed.

Lemma candidate_regions_eq home derpMap : candidate_regions home derpMap =
  take kMaxFallbackRegions
    (match home_region home derpMap with Some r => if bool_decide (dr_nodes r = []) then [] else [r] | None => [] end ++
     filter (fun c => dr_regionId c <> home /\ dr_nodes c <> []) derpMap).
Proof.
  unfold candidate_regions. apply fallback_loop_spec.
  - intros r' Hr. unfold home_region in Hr. apply find_some in Hr as [_ Hr]. by apply Z.eqb_eq.
  - intros Hr. apply list.Forall_forall. intros c Hc. unfold home_region in Hr.
    apply list_elem_of_In in Hc. by apply (find_none _ _ Hr), Z.eqb_neq in Hc.
  - destruct (home_region home derpMap) as [r|]; [case_bool_decide|]; cbn; unfold kMaxFallbackRegions; lia.
Qed.

(** The nodes in the order they are dialed. *)
Definition dial_order (home : Z) (derpMap : list DerpRegion) : list (DerpRegion * DerpNode) :=
  take kMaxFallbackRegions
    (match home_region home derpMap with Some r => if bool_decide (dr_nodes r = []) then [] else [r] | None => [] end ++
     filter (fun c => dr_regionId c <> home /\ dr_nodes c <> []) derpMap) ≫= fun r => (fun n => (r, n)) <$> dr_nodes r.

(** What a dial ends with does not depend on the error before it. *)
Definition dials fuel (dial : DerpNode -> Dialed) priv (node : DerpNode) (r : option (DerpSession W)) : Prop :=
  forall e, exists e', dial_node fuel dial priv node e = Some (r, e').

Lemma readDerpUpgradeHeader_error room : forall w header e r w' e', readDerpUpgradeHeader room w header e = (r, w', e') ->
  forall e2, exists e2', readDerpUpgradeHeader room w header e2 = (r, w', e2').
Proof.
  induction room as [|room IH]; intros w header e r w' e'; cbn [readDerpUpgradeHeader]; [intros [= <- <- _]; eauto|].
  destruct (tr_read 1 w) as [[data| |msg] w1]; [|intros [= <- <- _]; eauto..].
  destruct (ends_with _ _); [intros [= <- <- _]; eauto|apply IH].
Qed.

Lemma dial_node_dials fuel dial priv node e r e' : dial_node fuel dial priv node e = Some (r, e') -> dials fuel dial priv node r.
Proof.
  intros E e2. revert E. unfold dial_node. destruct (dl_connect (dial node)) as [u|m]; [|intros [= <- _]; eauto].
  destruct (tr_write _ _) as [[|msg] w]; [|intros [= <- _]; eauto].
  destruct (readDerpUpgradeHeader kMaxHeader w [] e) as [[header w1] e1] eqn:Eh.
  destruct (readDerpUpgradeHeader_error _ _ _ _ _ _ _ Eh e2) as (e2'&->).
  destruct header as [header|]; [|intros [= <- _]; eauto].
  destruct (validateDerpUpgradeResponse header) as [[u'|m]|]; cbn [mbind option_bind]; [|intros [= <- _]; eauto|done].
  destruct (connect _ _ _) as [[[[]|] s] e3]; [intros [= <- _]; eauto..|done].
Qed.

Lemma dial_nodes_first fuel dial priv r nodes : forall e res e', dial_nodes fuel dial priv nodes e = Some (res, e') ->
  match res with
  | Some (s, node) => exists pre post, nodes = pre ++ node :: post /\ Forall (fun n => dials fuel dial priv n None) pre /\
      dials fuel dial priv node (Some s)
  | None => Forall (fun x : DerpRegion * DerpNode => dials fuel dial priv x.2 None) ((fun n => (r, n)) <$> nodes)
  end.
Proof.
  induction nodes as [|n nodes IH]; intros e res e'; cbn [dial_nodes]; [by intros [= <- _]|].
  intros E. apply bind_Some in E as ([[s1|] e1]&E1&E); apply dial_node_dials in E1.
  - injection E as <- _. by exists [], nodes.
  - apply IH in E. destruct res as [[s node]|].
    + destruct E as (pre&post&->&Hp&Hd). exists (n :: pre), post. split; [done|]. split; [by constructor|done].
    + by constructor.
Qed.

Lemma dial_regions_first fuel dial priv regions : forall e res e', dial_regions fuel dial priv regions e = Some (res, e') ->
  let order := regions ≫= fun r => (fun n => (r, n)) <$> dr_nodes r in
  match res with
  | Some (s, node, region) => exists pre post, order = pre ++ (region, node) :: post /\
      Forall (fun x => dials fuel dial priv x.2 None) pre /\ dials fuel dial priv node (Some s)
  | None => Forall (fun x => dials fuel dial priv x.2 None) order
  end.
Proof.
  induction regions as [|r regions IH]; intros e res e'; cbn [dial_regions]; [by intros [= <- _]|].
  intros E. apply bind_Some in E as ([[[s1 n1]|] e1]&E1&E); apply (dial_nodes_first _ _ _ r) in E1; cbv zeta;
    change ((r :: regions) ≫= ?f) with (f r ++ (regions ≫= f)); cbv beta.
  - injection E as <- _. destruct E1 as (pre&post&->&Hp&Hd). rewrite fmap_app, <- app_assoc.
    eexists _, _. split; [reflexivity|]. split; [|done]. by apply list.Forall_fmap.
  - apply IH in E. cbv zeta in E. destruct res as [[[s node] region]|].
    + destruct E as (pre&post&->&Hp&Hd). eexists (_ ++ pre), post. rewrite <- app_assoc. split; [done|].
      split; [|done]. by apply list.Forall_app.
    + by apply list.Forall_app.
Qed.

(** How a relay is found. A live session for the same peer is kept. Otherwise
    the nodes of the peer's region are dialed, then those of the other regions in
    the map's order, at most six regions; the first node that completes the
    upgrade and the handshake is used, and its server has proved its key. The
    call fails only on arguments that cannot work, which leaves the relay as it
    was, or when every one of those nodes has failed, which leaves no relay. *)
Theorem ensureDerpRoute_spec key home derpMap priv fuel dial token b res b' :
  ensureDerpRoute key home derpMap priv fuel dial token b = Some (res, b') ->
  match res with
  | Ok _ =>
      (b' = b /\ derpAlive_ b = true /\ peerNodeKey_ b = key) \/
      exists pre region node post s, dial_order home derpMap = pre ++ (region, node) :: post /\
        Forall (fun x => dials fuel dial priv x.2 None) pre /\ dials fuel dial priv node (Some s) /\ session_ok s /\
        b' = with_derp (Some (announce token s)) true true
               (with_target key true (dr_regionId region) home (dn_host node) (stopDerp b))
  | Err _ =>
      (b' = b /\ (all_zero key = true \/ all_zero priv = true \/ home <= 0 \/ dial_order home derpMap = [])) \/
      (b' = stopDerp b /\ Forall (fun x => dials fuel dial priv x.2 None) (dial_order home derpMap))
  end.
Proof.
  unfold ensureDerpRoute, dial_order. rewrite <- candidate_regions_eq.
  destruct (all_zero key); [intros [= <- <-]; left; tauto|]. destruct (all_zero priv); [intros [= <- <-]; left; tauto|].
  destruct (Z.leb_spec home 0); [intros [= <- <-]; left; tauto|].
  case_bool_decide as En; [intros [= <- <-]; left; rewrite En; tauto|].
  destruct (derpAlive_ b && _ && _ && _) eqn:Er.
  { intros [= <- <-]. left. apply andb_prop in Er as [[[Ha _]%andb_prop _]%andb_prop Ek].
    by apply bool_decide_eq_true in Ek. }
  intros E. apply bind_Some in E as ([dialed e]&Ed&E). apply dial_regions_first in Ed as Hf. cbv zeta in Hf.
  destruct dialed as [[[s node] region]|]; injection E as <- <-; right; [|done].
  destruct Hf as (pre&post&->&Hp&Hd). apply dial_regions_ok in Ed as (Hs&_). by exists pre, region, node, post, s.
Qed.

(** Runs, computed. *)
Fixpoint bplay (ops : list bop) (outs : list output) b : option (list output * Backend W) :=
  match ops with
  | [] => Some (outs, b)
  | o :: rest =>
      if benabled o b then
        match bstep o b with Some (b', more) => bplay rest (outs ++ more) b' | None => None end
      else None
  end.

Lemma bplay_breaches ops : forall outs b r, Forall bop_ok ops -> breaches outs b -> bplay ops outs b = Some r -> breaches r.1 r.2.
Proof.
  induction ops as [|o ops IH]; intros outs b r Ho Hr; cbn [bplay]; [by intros [= <-]|].
  apply Forall_cons_1 in Ho as [Ho Hos]. destruct (benabled o b) eqn:He; [|done].
  destruct (bstep o b) as [[b' more]|] eqn:Hs; [|done]. apply IH; [done|]. by eapply breaches_step.
Qed.
End backend.

(** ** Where packets go *)

Section egress.
Context {W : Type} `{ITransport W} `{IDerpCrypto}.
Context (x25519 poly1305 : bytes -> bytes -> bytes) (x25519_public : bytes -> bytes) (inet_pton : bytes -> option Z).
Implicit Types b : Backend W.

(** The direct path takes the packet to [ep]. *)
Definition goes_direct (now : Z) (packet : bytes) (net : IPv4Endpoint -> bytes -> bool) b (ep : IPv4Endpoint) : Prop :=
  directActive_ (direct_ b) = true /\ udpFd_ (direct_ b) = true /\ best (directPath_ (direct_ b)) now = Some ep /\ net ep packet = true.

Lemma sendDirect_cases now packet net b :
  (exists ep, goes_direct now packet net b ep /\
     (if directActive_ (direct_ b) then sendDirect now packet net (direct_ b) else (false, [])) = (true, [ToUdp ep packet])) \/
  ((forall ep, ~ goes_direct now packet net b ep) /\ exists sent,
     (if directActive_ (direct_ b) then sendDirect now packet net (direct_ b) else (false, [])) = (false, sent)).
Proof.
  unfold goes_direct. destruct (directActive_ (direct_ b)) eqn:Ea; [|right; split; [by intros ep (?&_)|eauto]].
  unfold sendDirect, udp_send. destruct (udpFd_ (direct_ b)) eqn:Ef; cbn [negb]; [|right; split; [by intros ep (_&?&_)|eauto]].
  destruct (best (directPath_ (direct_ b)) now) as [ep|] eqn:Eb; [|right; split; [by intros ep (_&_&?&_)|eauto]].
  destruct (net ep packet) eqn:En; [left; by exists ep|].
  right. split; [|eauto]. intros ep' (_&_&[= ->]&?). congruence.
Qed.

(** One SendPacket frame is offered to the relay's transport, which may refuse it. *)
Lemma derp_send_writes packet b : relay_ok b -> 1 <= zlen packet <= kDerpMaxPacketSize -> derpAlive_ b = true ->
  exists s w written w', derp_ b = Some s /\ transport_ s = Some w /\
    tr_write (DerpCodec.encode DerpFrameType.SendPacket (peerNodeKey_ b ++ packet)) w = (written, w') /\
    derp_send packet b = with_derp (Some (with_io s w' (codec_ s))) (derpRunning_ b) true b.
Proof.
  intros [Hk Ha] Hl El. destruct (Ha El) as (Hp&s&Es&_&[w Hw]&_). unfold derp_send. rewrite Es, El, Hp. cbn [andb].
  assert (sendPacket (peerNodeKey_ b) packet s "" = writeRaw DerpFrameType.SendPacket (peerNodeKey_ b ++ packet) s "") as ->.
  { unfold sendPacket. rewrite Hw, bool_decide_true, Hk, Nat.eqb_refl, bool_decide_false, (proj2 (Z.ltb_ge _ _)); try done; try lia.
    intros ->. by zl. }
  exists s, w. unfold writeRaw. rewrite Hw. destruct (tr_write _ w) as [[|msg] w'] eqn:Ew; eexists _, w'; by split_and!.
Qed.

(** C19: where an encrypted packet goes, in every interleaving: to the best direct
    endpoint, unchanged, and nowhere else, when the direct path is in use and the
    socket takes it; otherwise, while the relay is marked alive, one SendPacket
    frame with the peer's node key and the packet is written to the relay, in one
    write, and nothing else; otherwise it is dropped. A write that fails loses
    the packet too and leaves the relay marked alive: it is not tried again and
    no other way is. *)
Theorem egress_goes_to_peer outs b now packet net b' more :
  breaches x25519 poly1305 x25519_public inet_pton outs b -> 1 <= zlen packet <= kDerpMaxPacketSize ->
  sendEgress now packet net b = (b', more) ->
  (exists ep, goes_direct now packet net b ep /\ more = [Out (ToUdp ep packet)] /\ b' = b) \/
  ((forall ep, ~ goes_direct now packet net b ep) /\ more = [] /\
   if derpAlive_ b
   then exists s w written w', derp_ b = Some s /\ transport_ s = Some w /\
          tr_write (DerpCodec.encode DerpFrameType.SendPacket (peerNodeKey_ b ++ packet)) w = (written, w') /\
          b' = with_derp (Some (with_io s w' (codec_ s))) (derpRunning_ b) true b
   else b' = b).
Proof.
  intros Hr Hl. apply breaches_relay in Hr. unfold sendEgress.
  rewrite bool_decide_false by (intros ->; by zl). rewrite (proj2 (Z.ltb_ge _ _)) by lia. cbn [orb].
  destruct (sendDirect_cases now packet net b) as [(ep&Hg&->)|(Hg&sent&->)]; intros [= <- <-]; [left; by exists ep|right].
  split; [done|]. split; [done|]. destruct (derpAlive_ b) eqn:El; [|unfold derp_send; rewrite El; by destruct (derp_ b)].
  by apply derp_send_writes.
Qed.
End egress.

(** ** A route's packet path *)

Definition ex_answers : WgxAnswers :=
  {| wgx_create := true; wgx_add_or_update_peer := 0; wgx_start := 0; wgx_connect_peer := 0; wgx_relay_create := true;
     wgx_relay_start := 0; wgx_relay_is_running := true; wgx_relay_add_tcp := fun _ => 0; wgx_relay_add_udp := fun _ => 0 |}.
Definition ex_pton (address : bytes) : option Z := if bool_decide (address = []) then None else Some 1.
Definition ex_key : bytes := toy_key 7.
Definition ex_upgrade : bytes :=
  bs "HTTP/1.1 101 Switching" ++ crlf ++ bs "Upgrade: DERP" ++ crlf ++ crlf.
Definition ex_frames : list DerpFrame :=
  [greeting_of (toy_key 2) []; info_of toy_nonce (sealed_of (bs "{}") (toy_key 2) (toy_key 1));
   {| Derp.type := DerpFrameType.RecvPacket; payload := ex_key ++ (u8 <$> [4; 0; 0; 0; 9]) |}].
(** The first node does not answer. *)
Definition ex_dial (node : DerpNode) : @Dialed script :=
  {| dl_connect := if bool_decide (dn_host node = bs "down") then Err "refused" else Ok tt;
     dl_transport := {| sc_incoming := [ex_upgrade ++ stream ex_frames]; sc_outgoing := [] |}; dl_nonce := toy_nonce |}.
Definition ex_map : list DerpRegion :=
  [{| dr_regionId := 1; dr_regionCode := []; dr_nodes := [] |};
   {| dr_regionId := 2; dr_regionCode := []; dr_nodes := [{| dn_host := bs "down"; dn_port := 443; dn_stunPort := 0 |};
                                                       {| dn_host := bs "up"; dn_port := 443; dn_stunPort := 0 |}] |}].

Definition ex_tunnel : list bop :=
  [StartTunnel (toy_key 1) (bs "100.64.0.1") ex_answers; EnsureDerp ex_key 2 ex_map (toy_key 1) 10 ex_dial 77;
   AddPeer 5 ex_key (bs "100.64.0.2") ex_answers; TcpProxy (bs "100.64.0.2") (bs "100.64.0.2") [47989; 47984] ex_answers].

Definition ex_bplay (ops : list (@bop script)) : list output * Backend script :=
  default ([], fresh_backend) (bplay (H0 := toy_crypto) toy_x25519 toy_poly1305 ex_public ex_pton ops [] fresh_backend).

Lemma ex_breaches ops : Forall bop_ok ops ->
  bool_decide (is_Some (bplay (H0 := toy_crypto) toy_x25519 toy_poly1305 ex_public ex_pton ops [] fresh_backend)) = true ->
  breaches (H0 := toy_crypto) toy_x25519 toy_poly1305 ex_public ex_pton (ex_bplay ops).1 (ex_bplay ops).2.
Proof.
  intros Ho Hs%bool_decide_eq_true. unfold ex_bplay. destruct Hs as [r Hs]. rewrite Hs. cbn [default from_option id].
  eapply bplay_breaches; [exact Ho|apply breaches_fresh|exact Hs].
Qed.

Lemma ex_tunnel_ok : Forall bop_ok ex_tunnel.
Proof. repeat constructor. Qed.

Lemma library_contract_witness :
  let outs := (ex_bplay (ex_tunnel ++ [ReaderRound 10 0 ex_nonce; StopAll])).1 in
  length outs = 11%nat /\
  library_run outs {| lib_context := false; lib_relay := false |} = Some {| lib_context := false; lib_relay := false |}.
Proof.
  cbv zeta. split; [vm_compute; reflexivity|].
  rewrite (library_contract (H0 := toy_crypto) toy_x25519 toy_poly1305 ex_public ex_pton _ (ex_bplay (ex_tunnel ++ [ReaderRound 10 0 ex_nonce; StopAll])).2).
  - vm_compute. reflexivity.
  - apply ex_breaches; [|vm_compute; reflexivity]. apply list.Forall_app. split; [exact ex_tunnel_ok|repeat constructor].
Defined.

Lemma relay_authenticated_witness :
  exists (s : DerpSession script) nonce, derp_ (ex_bplay ex_tunnel).2 = Some s /\
    @authenticated toy_crypto (clientPrivate_ s) nonce (serverKey_ s).
Proof.
  destruct (relay_authenticated (H0 := toy_crypto) toy_x25519 toy_poly1305 ex_public ex_pton (ex_bplay ex_tunnel).1 (ex_bplay ex_tunnel).2)
    as (_&s&nonce&Es&_&_&Ha).
  - apply ex_breaches; [exact ex_tunnel_ok|vm_compute; reflexivity].
  - vm_compute. reflexivity.
  - exists s, nonce. split; [exact Es|exact Ha].
Defined.

Lemma relay_input_is_the_peers_witness :
  let b := (ex_bplay ex_tunnel).2 in
  exists b' outs, reader_frame toy_x25519 toy_poly1305
      {| Derp.type := DerpFrameType.RecvPacket; payload := ex_key ++ (u8 <$> [4; 0; 0; 0; 9]) |} 0 ex_nonce b = Some (b', outs) /\
    Call (WgxInject 5 (u8 <$> [4; 0; 0; 0; 9])) ∈ outs.
Proof.
  cbv zeta.
  destruct (relay_input_is_the_peers toy_x25519 toy_poly1305
    {| Derp.type := DerpFrameType.RecvPacket; payload := ex_key ++ (u8 <$> [4; 0; 0; 0; 9]) |} 0 ex_nonce (ex_bplay ex_tunnel).2)
    as (b'&outs&E&Hi); [vm_compute; reflexivity..|].
  exists b', outs. split; [exact E|]. apply Hi. split_and!; [reflexivity|vm_compute; reflexivity|discriminate|vm_compute; reflexivity|vm_compute; reflexivity].
Defined.

Lemma ensureDerpRoute_spec_witness :
  exists b', ensureDerpRoute (H0 := toy_crypto) ex_public ex_key 2 ex_map (toy_key 1) 10 ex_dial 77 fresh_backend = Some (Ok tt, b') /\
    exists pre region node post s, dial_order 2 ex_map = pre ++ (region, node) :: post /\
      Forall (fun x => dials (H0 := toy_crypto) ex_public 10 ex_dial (toy_key 1) x.2 None) pre /\
      dials (H0 := toy_crypto) ex_public 10 ex_dial (toy_key 1) node (Some s) /\ @session_ok script toy_crypto s /\
      activeDerpHost_ b' = dn_host node.
Proof.
  assert (exists b', ensureDerpRoute (H0 := toy_crypto) ex_public ex_key 2 ex_map (toy_key 1) 10 ex_dial 77 fresh_backend = Some (Ok tt, b'))
    as [b' E] by (vm_compute; eexists; reflexivity).
  exists b'. split; [exact E|].
  destruct (ensureDerpRoute_spec (H0 := toy_crypto) toy_x25519 toy_poly1305 ex_public ex_pton _ _ _ _ _ _ _ _ _ _ E)
    as [(_&Ha&_)|(pre&region&node&post&s&Eo&Hp&Hd&Hs&->)]; [discriminate Ha|].
  exists pre, region, node, post, s. by split_and!.
Defined.

Lemma egress_goes_to_peer_witness :
  let b := (ex_bplay ex_tunnel).2 in let r := sendEgress 0 (bs "packet") all_sent b in
  exists s w w', derp_ b = Some s /\ transport_ s = Some w /\
    tr_write (DerpCodec.encode DerpFrameType.SendPacket (ex_key ++ bs "packet")) w = (Written, w') /\
    outgoing w' = outgoing w ++ DerpCodec.encode DerpFrameType.SendPacket (ex_key ++ bs "packet") /\
    r = (with_derp (Some (with_io s w' (codec_ s))) (derpRunning_ b) true b, []).
Proof.
  cbv zeta. assert (breaches (H0 := toy_crypto) toy_x25519 toy_poly1305 ex_public ex_pton (ex_bplay ex_tunnel).1 (ex_bplay ex_tunnel).2) as Hr.
  { apply ex_breaches; [exact ex_tunnel_ok|vm_compute; reflexivity]. }
  destruct (egress_goes_to_peer (H0 := toy_crypto) toy_x25519 toy_poly1305 ex_public ex_pton _ _ 0 (bs "packet") all_sent
    (sendEgress 0 (bs "packet") all_sent (ex_bplay ex_tunnel).2).1
    (sendEgress 0 (bs "packet") all_sent (ex_bplay ex_tunnel).2).2 Hr) as [(ep&_&Hm&_)|(_&Hm&He)].
  - split; apply Z.leb_le; vm_compute; reflexivity.
  - by destruct (sendEgress _ _ _ _).
  - exfalso. vm_compute in Hm. discriminate Hm.
  - assert (derpAlive_ (ex_bplay ex_tunnel).2 = true) as Ha by (vm_compute; reflexivity). rewrite Ha in He.
    destruct He as (s&w&written&w'&Es&Ew&Et&Eb). exists s, w, w'.
    assert (peerNodeKey_ (ex_bplay ex_tunnel).2 = ex_key) as Ek by (vm_compute; reflexivity). rewrite Ek in Et.
    destruct (write_outgoing w (DerpCodec.encode DerpFrameType.SendPacket (ex_key ++ bs "packet"))) as (w2&E2&_&Eo).
    rewrite E2 in Et. injection Et as <- <-. split_and!; [exact Es|exact Ew|exact E2|exact Eo|].
    rewrite <- Eb, <- Hm. by destruct (sendEgress _ _ _ _).
Defined.

(** ** What the runs also show *)

(** When the relay's connection ends, nothing opens another: egress is dropped
    from then on. (The comment in [derpReader] leaves the reconnection to the next
    activation, but [TailscaleCore::activateRoute] returns at once for the route
    that is active.) *)
Example relay_not_reopened :
  let b := (ex_bplay (ex_tunnel ++ [ReaderRound 10 0 ex_nonce; ReaderRound 10 0 ex_nonce])).2 in
  derpAlive_ b = false /\ sendEgress 0 (bs "packet") all_sent b = (b, []).
Proof. vm_compute. done. Qed.

(** A new TCP proxy makes a new relay object but [udpPrepared_] stays set: the
    media ports are then reported ready and never opened on it. *)
Example media_ports_not_reopened :
  let b := (ex_bplay (ex_tunnel ++ [UdpRelay [] [47998] ex_answers; TcpProxy [] [] [47989] ex_answers])).2 in
  startUdpRelay [] [47998] ex_answers b = (Ok tt, b, [Call RelayIsRunning]).
Proof. vm_compute. reflexivity. Qed.

(** Ports opened before a media port fails stay open; the next attempt asks for
    them again. *)
Definition ex_busy : WgxAnswers :=
  {| wgx_create := true; wgx_add_or_update_peer := 0; wgx_start := 0; wgx_connect_peer := 0; wgx_relay_create := true;
     wgx_relay_start := 0; wgx_relay_is_running := true; wgx_relay_add_tcp := fun _ => 0;
     wgx_relay_add_udp := fun port => if port =? 48000 then -1 else 0 |}.
Example media_ports_asked_twice :
  let outs := (ex_bplay (ex_tunnel ++ [UdpRelay [] [47998; 48000] ex_busy; UdpRelay [] [47998; 48000] ex_answers])).1 in
  drop 8 outs = [Call RelayIsRunning; Call (RelayAddUdp 47998); Call (RelayAddUdp 48000);
                 Call RelayIsRunning; Call (RelayAddUdp 47998); Call (RelayAddUdp 48000)].
Proof. vm_compute. reflexivity. Qed.
