(* ===== verification/WgxRoute.v ===== *)
(** The route of a Tailscale host ([TailscaleWgxRoute.cpp]): [TailscaleWgxRoute]
    over the interface [IWgxBackend], and the two backends behind it, the
    simulated one of the tests and [RealWgxBackend] with its threads. *)

From S2P Require Import Prelude Bytes Text Endpoint DirectPath Transport Box Derp DerpSession ControlCodec Disco PeerDirectory Core DirectLink WgxBackend Types.

(** The host's ports that the loopback relays. *)
Definition kTailscaleTcpPorts : list Z := [47989; 47984; 48010].
Definition kTailscaleUdpPorts : list Z := [47998; 48000; 47999; 48002; 48010].

(** ** The interface *)

(** [IWgxBackend]. [World] is what the world answers during a call, [None] that
    the call does not return; [background] is what the backend's threads do
    between calls. *)
Class IWgxBackend (B World : Type) := {
  startTunnel : bytes -> bytes -> World -> B -> option (result unit * B);
  addOrUpdatePeer : Z -> bytes -> bytes -> World -> B -> option (result unit * B);
  startTcpProxy : bytes -> bytes -> list Z -> World -> B -> option (result unit * B);
  startUdpRelay : bytes -> list Z -> World -> B -> option (result unit * B);
  ensureDerpRoute : bytes -> Z -> list DerpRegion -> bytes -> World -> B -> option (result unit * B);
  stopUdpRelay : B -> B;
  stop : B -> B;
  isRunning : B -> bool;
  startDirectPath : DirectPathConfig -> World -> B -> option B;
  background : World -> B -> option B;
}.

(** What the route relies on: which calls make the tunnel run and stop it, and
    which host the loopback ports lead to. *)
Class WgxBackendLaws (B World : Type) `{IWgxBackend B World} := {
  serving : B -> option bytes;
  startTunnel_runs key ip w b b' : startTunnel key ip w b = Some (Ok tt, b') -> isRunning b' = true;
  ensureDerpRoute_keeps key home map priv w b r b' : ensureDerpRoute key home map priv w b = Some (r, b') -> isRunning b' = isRunning b;
  addOrUpdatePeer_keeps id key ip w b r b' : addOrUpdatePeer id key ip w b = Some (r, b') -> isRunning b' = isRunning b;
  startTcpProxy_serves peerIp hostIp ports w b b' : startTcpProxy peerIp hostIp ports w b = Some (Ok tt, b') ->
    isRunning b' = isRunning b /\ serving b' = Some hostIp;
  startUdpRelay_keeps ip ports w b r b' : startUdpRelay ip ports w b = Some (r, b') ->
    isRunning b' = isRunning b /\ serving b' = serving b;
  startDirectPath_keeps config w b b' : startDirectPath config w b = Some b' ->
    isRunning b' = isRunning b /\ serving b' = serving b;
  background_keeps w b b' : background w b = Some b' -> isRunning b' = isRunning b /\ serving b' = serving b;
  stop_stops b : isRunning (stop b) = false;
}.

(** ** The route *)

Record Route (B : Type) := {
  backend_ : option B;
  peerResolver_ : bool;
  localInfoProvider_ : bool;
  derpMapProvider_ : bool;
  discoKeyProvider_ : bool;
  endpointPublisher_ : bool;
  pathObserver_ : bool;
  activeTarget_ : option RemoteRouteTarget;
  streamingPrepared_ : bool;
}.
Arguments backend_ {B}. Arguments peerResolver_ {B}. Arguments localInfoProvider_ {B}. Arguments derpMapProvider_ {B}.
Arguments discoKeyProvider_ {B}. Arguments endpointPublisher_ {B}. Arguments pathObserver_ {B}. Arguments activeTarget_ {B}.
Arguments streamingPrepared_ {B}.

(** What the providers answer during a call; the route knows which are set. *)
Record Providers := {
  pv_local : option (bytes * bytes);
  pv_peer : bytes -> option Peer;
  pv_derpMap : list DerpRegion;
  pv_disco : option bytes;
}.

Section route.
Context {B World : Type} `{IWgxBackend B World}.
Implicit Types r : Route B.

Definition with_backend (b : option B) r : Route B :=
  {| backend_ := b; peerResolver_ := peerResolver_ r; localInfoProvider_ := localInfoProvider_ r;
     derpMapProvider_ := derpMapProvider_ r; discoKeyProvider_ := discoKeyProvider_ r;
     endpointPublisher_ := endpointPublisher_ r; pathObserver_ := pathObserver_ r;
     activeTarget_ := activeTarget_ r; streamingPrepared_ := streamingPrepared_ r |}.
Definition with_target (target : option RemoteRouteTarget) (prepared : bool) r : Route B :=
  {| backend_ := backend_ r; peerResolver_ := peerResolver_ r; localInfoProvider_ := localInfoProvider_ r;
     derpMapProvider_ := derpMapProvider_ r; discoKeyProvider_ := discoKeyProvider_ r;
     endpointPublisher_ := endpointPublisher_ r; pathObserver_ := pathObserver_ r;
     activeTarget_ := target; streamingPrepared_ := prepared |}.
Definition with_providers (peer local derpMap disco publisher observer : bool) r : Route B :=
  {| backend_ := backend_ r; peerResolver_ := peer; localInfoProvider_ := local;
     derpMapProvider_ := derpMap; discoKeyProvider_ := disco; endpointPublisher_ := publisher; pathObserver_ := observer;
     activeTarget_ := activeTarget_ r; streamingPrepared_ := streamingPrepared_ r |}.

Definition TailscaleWgxRoute (backend : option B) (peerResolver localInfoProvider : bool) : Route B :=
  {| backend_ := backend; peerResolver_ := peerResolver; localInfoProvider_ := localInfoProvider; derpMapProvider_ := false;
     discoKeyProvider_ := false; endpointPublisher_ := false; pathObserver_ := false; activeTarget_ := None;
     streamingPrepared_ := false |}.

Definition setPeerResolver (set : bool) r : Route B :=
  with_providers set (localInfoProvider_ r) (derpMapProvider_ r) (discoKeyProvider_ r) (endpointPublisher_ r) (pathObserver_ r) r.
Definition setLocalInfoProvider (set : bool) r : Route B :=
  with_providers (peerResolver_ r) set (derpMapProvider_ r) (discoKeyProvider_ r) (endpointPublisher_ r) (pathObserver_ r) r.
Definition setDerpMapProvider (set : bool) r : Route B :=
  with_providers (peerResolver_ r) (localInfoProvider_ r) set (discoKeyProvider_ r) (endpointPublisher_ r) (pathObserver_ r) r.
Definition setDirectPathHooks (disco publisher observer : bool) r : Route B :=
  with_providers (peerResolver_ r) (localInfoProvider_ r) (derpMapProvider_ r) disco publisher observer r.
Definition setBackend (backend : option B) r : Route B := with_backend backend r.

(** [std::hash<std::string>]. *)
Context (hash : bytes -> Z).

Definition hostOf (target : RemoteRouteTarget) : bytes :=
  if bool_decide (rt_targetAddress target = []) then rt_peerAddress target else rt_targetAddress target.

Definition peerNumId (peerId : bytes) : Z :=
  let id := Z.land (hash peerId) 0x7FFFFFFF in if id =? 0 then 1 else id.

(** What is asked of the providers before the backend is touched: the local
    address and key, and the peer. *)
Definition resolve (target : RemoteRouteTarget) (p : Providers) r : result (bytes * bytes * Peer) :=
  if bool_decide (rt_peerAddress target = []) || negb (isLiteralIPv4 (rt_peerAddress target))
  then Err ("Tailscale route target has no valid IPv4 address: " ++ str (rt_peerAddress target))
  else if negb (isLiteralIPv4 (hostOf target))
  then Err ("Tailscale route host is not a valid IPv4 address: " ++ str (hostOf target))
  else if negb (localInfoProvider_ r) then Err "Tailscale local identity provider is not configured"
  else
    match pv_local p with
    | None => Err "Tailscale local identity is not available"
    | Some (localIp, localPrivateKey) =>
        if negb (peerResolver_ r) then Err "Tailscale peer resolver is not configured"
        else
          match pv_peer p (rt_peerId target) with
          | None => Err ("Tailscale peer not found in netmap: " ++ str (rt_peerId target))
          | Some peer =>
              if all_zero (nodeKey peer) then Err ("Tailscale peer has no valid node key: " ++ str (rt_peerId target))
              else Ok (localIp, localPrivateKey, peer)
          end
    end.

Definition direct_config (target : RemoteRouteTarget) (localPrivateKey disco : bytes) (peer : Peer) (derpMap : list DerpRegion) r
    : DirectPathConfig :=
  {| dc_peerStableId := rt_peerId target; dc_peerNodeKey := nodeKey peer; dc_peerDiscoKey := discoKey peer;
     dc_peerEndpoints := (fun e => pe_address e ++ bs ":" ++ to_string (pe_port e)) <$> endpoints peer;
     dc_localNodePrivate := localPrivateKey; dc_localDiscoPrivate := disco; dc_derpMap := derpMap;
     dc_derpRegion := homeDerp peer; dc_publishEndpoints := endpointPublisher_ r; dc_pathChanged := pathObserver_ r |}.

(** The calls on the backend, up to the proxy. *)
Definition bring_up (target : RemoteRouteTarget) (localIp localPrivateKey : bytes) (peer : Peer) (derpMap : list DerpRegion)
    (w : World) (b : B) : option (result unit * B) :=
  '(tunnel, b) ← (if isRunning b then Some (Ok tt, b) else startTunnel localPrivateKey localIp w b);
  match tunnel with
  | Err e => Some (Err e, b)
  | Ok _ =>
      '(relayed, b) ← ensureDerpRoute (nodeKey peer) (homeDerp peer) derpMap localPrivateKey w b;
      match relayed with
      | Err e => Some (Err e, b)
      | Ok _ =>
          '(added, b) ← addOrUpdatePeer (peerNumId (rt_peerId target)) (nodeKey peer) (rt_peerAddress target) w b;
          match added with
          | Err e => Some (Err e, b)
          | Ok _ => startTcpProxy (rt_peerAddress target) (hostOf target) kTailscaleTcpPorts w b
          end
      end
  end.

Definition start (target : RemoteRouteTarget) (p : Providers) (w : World) r : option (result unit * Route B) :=
  match backend_ r with
  | None => Some (Err "Tailscale encrypted packet path is not release-ready; refusing to advertise a routable connection", r)
  | Some b =>
      match resolve target p r with
      | Err e => Some (Err e, r)
      | Ok (localIp, localPrivateKey, peer) =>
          let derpMap := if derpMapProvider_ r then pv_derpMap p else [] in
          '(up, b) ← bring_up target localIp localPrivateKey peer derpMap w b;
          match up with
          | Err e => Some (Err e, with_backend (Some b) r)
          | Ok _ =>
              let discoPrivate := if discoKeyProvider_ r then pv_disco p else None in
              b ← match discoPrivate with
                  | Some disco => if negb (all_zero (discoKey peer))
                                  then startDirectPath (direct_config target localPrivateKey disco peer derpMap r) w b
                                  else Some b
                  | None => Some b
                  end;
              Some (Ok tt, with_target (Some target) false (with_backend (Some b) r))
          end
      end
  end.

Definition prepareForStreaming (target : RemoteRouteTarget) (w : World) r : option (result unit * Route B) :=
  if negb match activeTarget_ r with Some a => bool_decide (rt_peerId a = rt_peerId target) | None => false end
  then Some (Err ("Cannot prepare streaming: route is not active for peer " ++ str (rt_peerId target)), r)
  else
    match backend_ r with
    | None => Some (Err "Cannot prepare streaming: tunnel backend is not running", r)
    | Some b =>
        if negb (isRunning b) then Some (Err "Cannot prepare streaming: tunnel backend is not running", r)
        else
          '(prepared, b) ← startUdpRelay (rt_peerAddress target) kTailscaleUdpPorts w b;
          match prepared with
          | Err e => Some (Err e, with_backend (Some b) r)
          | Ok _ => Some (Ok tt, with_target (activeTarget_ r) true (with_backend (Some b) r))
          end
    end.

Definition stop_route r : Route B :=
  with_target None false (match backend_ r with Some b => with_backend (Some (stop b)) r | None => r end).

Definition isActive r : bool :=
  bool_decide (is_Some (activeTarget_ r)) && match backend_ r with Some b => isRunning b | None => false end.
Definition isStreamingPrepared r : bool := streamingPrepared_ r.
Definition activePeerId r : bytes := match activeTarget_ r with Some t => rt_peerId t | None => [] end.
End route.

(** ** The route as an overlay *)

Section overlay.
Context {B World : Type} `{WgxBackendLaws B World} (hash : bytes -> Z).
Implicit Types r : Route B.

(** The calls [TailscaleCore] makes, and the time between them. *)
Inductive rcall :=
| CStart (target : RemoteRouteTarget) (p : Providers) (w : World)
| CPrepare (target : RemoteRouteTarget) (w : World)
| CStop
| CBackground (w : World).

Definition succeeded (res : result unit) : bool := match res with Ok _ => true | Err _ => false end.

(** A call, and how the core records it. *)
Definition perform (c : rcall) r : option (Route B * list overlay_call) :=
  match c with
  | CStart target p w => '(res, r) ← start hash target p w r; Some (r, [OverlayStart target (succeeded res)])
  | CPrepare target w => '(res, r) ← prepareForStreaming target w r; Some (r, [OverlayPrepare target (succeeded res)])
  | CStop => Some (stop_route r, [OverlayStop])
  | CBackground w =>
      match backend_ r with
      | Some b => b ← background w b; Some (with_backend (Some b) r, [])
      | None => Some (r, [])
      end
  end.
Fixpoint perform_all (cs : list rcall) r : option (Route B * list overlay_call) :=
  match cs with
  | [] => Some (r, [])
  | c :: cs => '(r, ks) ← perform c r; '(r, more) ← perform_all cs r; Some (r, ks ++ more)
  end.

(** Has the route been prepared for streaming since it was started? *)
Definition prepared_next (prepared : bool) (k : overlay_call) : bool :=
  match k with
  | OverlayStart _ ok => if ok then false else prepared
  | OverlayPrepare _ ok => prepared || ok
  | OverlayStop => false
  end.
Definition prepared_by (ks : list overlay_call) : bool := foldl prepared_next false ks.

(** The route's state for the overlay's. *)
Definition shows (st : option RemoteRouteTarget) r : Prop :=
  activeTarget_ r = st /\
  match st with
  | Some target => exists b, backend_ r = Some b /\ isRunning b = true /\ serving b = Some (hostOf target)
  | None => True
  end.

Lemma bring_up_serves target ip key peer derpMap w b b' :
  bring_up hash target ip key peer derpMap w b = Some (Ok tt, b') -> isRunning b' = true /\ serving b' = Some (hostOf target).
Proof.
  unfold bring_up. intros ([tunnel b1]&Et&E)%bind_Some.
  destruct tunnel as [[]|]; [|done]. assert (isRunning b1 = true) as Hr.
  { destruct (isRunning b) eqn:Eb; [by injection Et as <-|by eapply startTunnel_runs]. }
  apply bind_Some in E as ([relayed b2]&Ed&E). apply ensureDerpRoute_keeps in Ed. destruct relayed as [[]|]; [|done].
  apply bind_Some in E as ([added b3]&Ea&E). apply addOrUpdatePeer_keeps in Ea. destruct added as [[]|]; [|done].
  apply startTcpProxy_serves in E as [Ep Es]. split; [congruence|done].
Qed.

(** A start that succeeds shows its target; one that fails leaves what the route
    says of itself. *)
Lemma start_shows target p w r res r' : start hash target p w r = Some (res, r') ->
  match res with
  | Ok _ => shows (Some target) r' /\ streamingPrepared_ r' = false
  | Err _ => activeTarget_ r' = activeTarget_ r /\ streamingPrepared_ r' = streamingPrepared_ r
  end.
Proof.
  unfold start. destruct (backend_ r) as [b|] eqn:Eb; [|by intros [= <- <-]].
  destruct (resolve target p r) as [[[ip key] peer]|]; [|by intros [= <- <-]]. cbv zeta.
  intros ([up b1]&Eu&E)%bind_Some. destruct up as [[]|]; [|by injection E as <- <-].
  apply bring_up_serves in Eu as [Hr Hs]. apply bind_Some in E as (b2&Ed&E). injection E as <- <-.
  split; [|done]. split; [done|]. exists b2. split; [done|].
  assert (isRunning b2 = isRunning b1 /\ serving b2 = serving b1) as [-> ->].
  { destruct (if discoKeyProvider_ r then _ else _) as [disco|]; [|by injection Ed as <-].
    destruct (negb _); [by eapply startDirectPath_keeps|by injection Ed as <-]. }
  done.
Qed.

Lemma prepare_shows target w r res r' active : prepareForStreaming target w r = Some (res, r') -> shows (Some active) r ->
  shows (Some active) r' /\ streamingPrepared_ r' = streamingPrepared_ r || succeeded res.
Proof.
  intros E (Ea&b&Eb&Hr&Hs). unfold prepareForStreaming in E. rewrite Ea, Eb, Hr in E. cbn [negb] in E.
  destruct (negb (bool_decide (rt_peerId active = rt_peerId target))).
  { injection E as <- <-. rewrite orb_false_r. split; [|done]. split; [done|]. by exists b. }
  apply bind_Some in E as ([up b1]&Eu&E). apply startUdpRelay_keeps in Eu as [Hr' Hs'].
  destruct up as [[]|]; injection E as <- <-; cbn [succeeded]; rewrite ?orb_true_r, ?orb_false_r;
    (split; [split; [by rewrite <- Ea|]; exists b1; by rewrite Hr', Hs'|done]).
Qed.

Lemma perform_shows c r r' ks st st' prepared : perform c r = Some (r', ks) -> shows st r -> streamingPrepared_ r = prepared ->
  foldl (fun o k => s ← o; overlay_next s k) (Some st) ks = Some st' ->
  shows st' r' /\ streamingPrepared_ r' = foldl prepared_next prepared ks.
Proof.
  intros E Hs Hp Ho. destruct c as [target p w|target w| |w]; cbn [perform] in E.
  - apply bind_Some in E as ([res r1]&Er&E). injection E as <- <-. apply start_shows in Er. cbn [foldl] in *. cbn in Ho.
    destruct st; [done|]. destruct res as [[]|]; cbn [succeeded prepared_next] in *; injection Ho as <-; [done|].
    destruct Er as [Ea ->]. split; [|done]. split; [|done]. by rewrite Ea, (proj1 Hs).
  - apply bind_Some in E as ([res r1]&Er&E). injection E as <- <-. cbn [foldl] in *. cbn in Ho.
    destruct st as [active|]; [|done]. case_bool_decide; [|done]. injection Ho as <-.
    destruct (prepare_shows _ _ _ _ _ _ Er Hs) as [Hs' ->]. by rewrite Hp.
  - injection E as <- <-. cbn [foldl] in *. cbn in Ho. injection Ho as <-. by split.
  - destruct (backend_ r) as [b|] eqn:Eb.
    + apply bind_Some in E as (b'&Ek&E). injection E as <- <-. cbn in Ho. injection Ho as <-. split; [|done].
      apply background_keeps in Ek as [Hr' Hs']. destruct Hs as [Ha Hb]. split; [done|]. destruct st as [active|]; [|done].
      destruct Hb as (b0&Eb0&Hr&Hsv). rewrite Eb in Eb0. injection Eb0 as <-. exists b'. cbn. by rewrite Hr', Hs'.
    + injection E as <- <-. cbn in Ho. by injection Ho as <-.
Qed.

Lemma perform_all_shows cs : forall r0 r ks st0 st prepared, perform_all cs r0 = Some (r, ks) -> shows st0 r0 ->
  streamingPrepared_ r0 = prepared -> foldl (fun o k => s ← o; overlay_next s k) (Some st0) ks = Some st ->
  shows st r /\ streamingPrepared_ r = foldl prepared_next prepared ks.
Proof.
  induction cs as [|c cs IH]; intros r0 r ks st0 st prepared E Hs Hp Ho; cbn [perform_all] in E.
  - injection E as <- <-. injection Ho as <-. done.
  - apply bind_Some in E as ([r1 ks1]&E1&E). apply bind_Some in E as ([r2 ks2]&E2&E). injection E as <- <-.
    rewrite list.foldl_app in Ho. rewrite list.foldl_app. destruct (foldl _ (Some st0) ks1) as [st1|] eqn:Eo.
    + destruct (perform_shows _ _ _ _ _ _ _ E1 Hs Hp Eo) as [Hs1 Hp1]. by eapply IH.
    + exfalso. clear -Ho. induction ks2; [done|]. by apply IHks2.
Qed.

(** C20: [TailscaleWgxRoute] implements the overlay its user sees, over any backend
    that keeps the laws of the interface. After any calls that keep the contract
    of [IOverlayRoute], with the backend's threads running in between, the
    route's active target is the contract's state, [isActive] says whether there
    is one, the loopback ports lead to the target's host, and
    [isStreamingPrepared] whether a prepare has succeeded since the start. *)
Theorem route_implements_overlay cs b peer local r ks st :
  perform_all cs (TailscaleWgxRoute (Some b) peer local) = Some (r, ks) -> overlay_state ks = Some st ->
  activeTarget_ r = st /\ isActive r = bool_decide (is_Some st) /\ isStreamingPrepared r = prepared_by ks /\
  forall target, st = Some target -> exists b', backend_ r = Some b' /\ serving b' = Some (hostOf target).
Proof.
  intros E Ho.
  destruct (perform_all_shows _ _ _ _ None st false E (conj eq_refl I) eq_refl Ho) as ((Ha&Hb)&Hp).
  split; [done|]. split; [|split; [done|]].
  - unfold isActive. rewrite Ha. destruct st as [target|]; [|done]. destruct Hb as (b'&->&->&_). done.
  - intros target ->. destruct Hb as (b'&Eb&_&Hs). by exists b'.
Qed.
End overlay.

(** ** The simulated backend *)

Module Simulated.
Record SimulatedWgxBackend := {
  running_ : bool;
  tcpActive_ : bool;
  udpActive_ : bool;
  derpReady_ : bool;
  privateKey_ : bytes;
  localIp_ : bytes;
  activePeerIp_ : bytes;
  activeHostIp_ : bytes;
  directConfig_ : option DirectPathConfig;
  tcpPorts_ : list Z;
  udpPorts_ : list Z;
}.
Implicit Types b : SimulatedWgxBackend.

Definition fresh : SimulatedWgxBackend :=
  {| running_ := false; tcpActive_ := false; udpActive_ := false; derpReady_ := false; privateKey_ := zeros 32; localIp_ := [];
     activePeerIp_ := []; activeHostIp_ := []; directConfig_ := None; tcpPorts_ := []; udpPorts_ := [] |}.

Definition startTunnel (privateKey localIp : bytes) b : result unit * SimulatedWgxBackend :=
  if all_zero privateKey then (Err "Simulated backend: private key is uninitialized", b)
  else if bool_decide (localIp = []) || negb (isLiteralIPv4 localIp)
  then (Err ("Simulated backend: invalid local IP address: " ++ str localIp), b)
  else (Ok tt, {| running_ := true; tcpActive_ := tcpActive_ b; udpActive_ := udpActive_ b; derpReady_ := derpReady_ b;
                  privateKey_ := privateKey; localIp_ := localIp; activePeerIp_ := activePeerIp_ b;
                  activeHostIp_ := activeHostIp_ b; directConfig_ := directConfig_ b; tcpPorts_ := tcpPorts_ b;
                  udpPorts_ := udpPorts_ b |}).

Definition addOrUpdatePeer (peerId : Z) (publicKey peerIp : bytes) b : result unit * SimulatedWgxBackend :=
  if negb (running_ b) then (Err "Simulated backend: tunnel not running", b)
  else if peerId =? 0 then (Err "Simulated backend: peer ID must be non-zero", b)
  else if all_zero publicKey then (Err "Simulated backend: public key is uninitialized", b)
  else if bool_decide (peerIp = []) || negb (isLiteralIPv4 peerIp)
  then (Err ("Simulated backend: invalid peer IP address: " ++ str peerIp), b)
  else (Ok tt, {| running_ := running_ b; tcpActive_ := tcpActive_ b; udpActive_ := udpActive_ b; derpReady_ := derpReady_ b;
                  privateKey_ := privateKey_ b; localIp_ := localIp_ b; activePeerIp_ := peerIp;
                  activeHostIp_ := activeHostIp_ b; directConfig_ := directConfig_ b; tcpPorts_ := tcpPorts_ b;
                  udpPorts_ := udpPorts_ b |}).

Definition startTcpProxy (peerIp hostIp : bytes) (ports : list Z) b : result unit * SimulatedWgxBackend :=
  if negb (running_ b) then (Err "Simulated backend: tunnel not running", b)
  else if bool_decide (ports = []) then (Err "Simulated backend: no TCP ports specified", b)
  else (Ok tt, {| running_ := running_ b; tcpActive_ := true; udpActive_ := udpActive_ b; derpReady_ := derpReady_ b;
                  privateKey_ := privateKey_ b; localIp_ := localIp_ b; activePeerIp_ := peerIp;
                  activeHostIp_ := hostIp; directConfig_ := directConfig_ b; tcpPorts_ := ports;
                  udpPorts_ := udpPorts_ b |}).

Definition startUdpRelay (peerIp : bytes) (ports : list Z) b : result unit * SimulatedWgxBackend :=
  if negb (running_ b) || negb (tcpActive_ b)
  then (Err "Simulated backend: cannot start UDP without active TCP route", b)
  else if bool_decide (ports = []) then (Err "Simulated backend: no UDP ports specified", b)
  else (Ok tt, {| running_ := running_ b; tcpActive_ := tcpActive_ b; udpActive_ := true; derpReady_ := derpReady_ b;
                  privateKey_ := privateKey_ b; localIp_ := localIp_ b; activePeerIp_ := peerIp;
                  activeHostIp_ := activeHostIp_ b; directConfig_ := directConfig_ b; tcpPorts_ := tcpPorts_ b;
                  udpPorts_ := ports |}).

Definition stopUdpRelay b : SimulatedWgxBackend :=
  {| running_ := running_ b; tcpActive_ := tcpActive_ b; udpActive_ := false; derpReady_ := derpReady_ b;
     privateKey_ := privateKey_ b; localIp_ := localIp_ b; activePeerIp_ := activePeerIp_ b;
     activeHostIp_ := activeHostIp_ b; directConfig_ := directConfig_ b; tcpPorts_ := tcpPorts_ b; udpPorts_ := [] |}.

Definition ensureDerpRoute (peerNodeKey : bytes) (homeDerpRegion : Z) (derpMap : list DerpRegion) (localPrivateKey : bytes) b
    : result unit * SimulatedWgxBackend :=
  if negb (running_ b) then (Err "Simulated backend: tunnel not running", b)
  else if all_zero peerNodeKey then (Err "Simulated backend: peer node key is uninitialized", b)
  else if homeDerpRegion <=? 0 then (Err "Simulated backend: peer has no home DERP region", b)
  else (Ok tt, {| running_ := running_ b; tcpActive_ := tcpActive_ b; udpActive_ := udpActive_ b; derpReady_ := true;
                  privateKey_ := privateKey_ b; localIp_ := localIp_ b; activePeerIp_ := activePeerIp_ b;
                  activeHostIp_ := activeHostIp_ b; directConfig_ := directConfig_ b; tcpPorts_ := tcpPorts_ b;
                  udpPorts_ := udpPorts_ b |}).

Definition stop b : SimulatedWgxBackend :=
  let b := stopUdpRelay b in
  {| running_ := false; tcpActive_ := false; udpActive_ := udpActive_ b; derpReady_ := false;
     privateKey_ := privateKey_ b; localIp_ := localIp_ b; activePeerIp_ := []; activeHostIp_ := [];
     directConfig_ := None; tcpPorts_ := []; udpPorts_ := udpPorts_ b |}.

Definition startDirectPath (config : DirectPathConfig) b : SimulatedWgxBackend :=
  {| running_ := running_ b; tcpActive_ := tcpActive_ b; udpActive_ := udpActive_ b; derpReady_ := derpReady_ b;
     privateKey_ := privateKey_ b; localIp_ := localIp_ b; activePeerIp_ := activePeerIp_ b;
     activeHostIp_ := activeHostIp_ b; directConfig_ := Some config; tcpPorts_ := tcpPorts_ b; udpPorts_ := udpPorts_ b |}.
End Simulated.
Abbreviation SimulatedWgxBackend := Simulated.SimulatedWgxBackend.

#[export] Instance simulated_backend : IWgxBackend SimulatedWgxBackend unit := {
  startTunnel key ip _ b := Some (Simulated.startTunnel key ip b);
  addOrUpdatePeer id key ip _ b := Some (Simulated.addOrUpdatePeer id key ip b);
  startTcpProxy peerIp hostIp ports _ b := Some (Simulated.startTcpProxy peerIp hostIp ports b);
  startUdpRelay ip ports _ b := Some (Simulated.startUdpRelay ip ports b);
  ensureDerpRoute key home derpMap priv _ b := Some (Simulated.ensureDerpRoute key home derpMap priv b);
  stopUdpRelay := Simulated.stopUdpRelay;
  stop := Simulated.stop;
  isRunning := Simulated.running_;
  startDirectPath config _ b := Some (Simulated.startDirectPath config b);
  background _ b := Some b;
}.

#[export] Instance simulated_laws : WgxBackendLaws SimulatedWgxBackend unit.
Proof.
  refine {| serving b := if Simulated.tcpActive_ b then Some (Simulated.activeHostIp_ b) else None |}; cbn; intros;
    repeat match goal with
    | E : Some _ = Some _ |- _ => injection E as E; simplify_eq
    | E : ?f _ _ _ _ _ = _ |- _ => unfold f in E
    | E : ?f _ _ _ _ = _ |- _ => unfold f in E
    | E : ?f _ _ _ = _ |- _ => unfold f in E
    | E : context [if ?c then _ else _] |- _ => destruct c
    end; simplify_eq; try done.
Defined.

(** What a start asks of its inputs. *)
Record startable (target : RemoteRouteTarget) (p : Providers) (ip key : bytes) (peer : Peer) : Prop := {
  st_peer_ip : isLiteralIPv4 (rt_peerAddress target) = true;
  st_host_ip : isLiteralIPv4 (hostOf target) = true;
  st_local : pv_local p = Some (ip, key);
  st_key : all_zero key = false;
  st_ip : isLiteralIPv4 ip = true;
  st_peer : pv_peer p (rt_peerId target) = Some peer;
  st_node : all_zero (nodeKey peer) = false;
  st_home : 0 < homeDerp peer;
}.

Lemma literal_nonempty ip : isLiteralIPv4 ip = true -> bool_decide (ip = []) = false.
Proof. intros Hl. apply bool_decide_false. intros ->. vm_compute in Hl. discriminate Hl. Qed.

Lemma resolve_ok {B} target p (r : Route B) ip key peer : resolve target p r = Ok (ip, key, peer) <->
  localInfoProvider_ r = true /\ peerResolver_ r = true /\ isLiteralIPv4 (rt_peerAddress target) = true /\
  isLiteralIPv4 (hostOf target) = true /\ pv_local p = Some (ip, key) /\ pv_peer p (rt_peerId target) = Some peer /\
  all_zero (nodeKey peer) = false.
Proof.
  unfold resolve. assert (forall (x : string) (Q : Prop), ~ Q -> (Err x = Ok (ip, key, peer) <-> Q)) as Hno.
  { intros x Q Hq. split; [discriminate|done]. }
  destruct (isLiteralIPv4 (rt_peerAddress target)) eqn:Ep; [|rewrite orb_true_r; apply Hno; by intros (_&_&?&_)].
  rewrite (literal_nonempty _ Ep). cbn [orb negb].
  destruct (isLiteralIPv4 (hostOf target)); cbn [negb]; [|apply Hno; by intros (_&_&_&?&_)].
  destruct (localInfoProvider_ r); cbn [negb]; [|apply Hno; by intros (?&_)].
  destruct (pv_local p) as [[ip' key']|]; [|apply Hno; by intros (_&_&_&_&?&_)].
  destruct (peerResolver_ r); cbn [negb]; [|apply Hno; by intros (_&?&_)].
  destruct (pv_peer p (rt_peerId target)) as [peer'|]; [|apply Hno; by intros (_&_&_&_&_&?&_)].
  destruct (all_zero (nodeKey peer')) eqn:Ez.
  - apply Hno. intros (_&_&_&_&_&[= ->]&?). congruence.
  - split; [by intros [= -> -> ->]|]. by intros (_&_&_&_&[= -> ->]&[= ->]&_).
Qed.

Lemma peerNumId_nonzero hash id : peerNumId hash id <> 0.
Proof. unfold peerNumId. destruct (Z.eqb_spec (Z.land (hash id) 2147483647) 0); lia. Qed.

Lemma simulated_up hash target ip key peer derpMap b : Simulated.running_ b = false ->
  isLiteralIPv4 (rt_peerAddress target) = true -> all_zero (nodeKey peer) = false ->
  exists res b', bring_up hash target ip key peer derpMap tt b = Some (res, b') /\
    (res = Ok tt <-> all_zero key = false /\ isLiteralIPv4 ip = true /\ 0 < homeDerp peer).
Proof.
  intros Hr Hl Hk. unfold bring_up. cbn [isRunning startTunnel ensureDerpRoute addOrUpdatePeer startTcpProxy simulated_backend].
  rewrite Hr. cbn [mbind option_bind]. unfold Simulated.startTunnel at 1.
  destruct (all_zero key); [eexists _, _; split; [done|]; by split; [discriminate|intros (?&_)]|].
  destruct (isLiteralIPv4 ip) eqn:Ei; [|rewrite orb_true_r; eexists _, _; split; [done|]; by split; [discriminate|intros (_&?&_)]].
  rewrite (literal_nonempty _ Ei). cbn [orb negb]. unfold Simulated.ensureDerpRoute at 1. cbn [Simulated.running_ negb].
  rewrite Hk. destruct (Z.leb_spec (homeDerp peer) 0); [eexists _, _; split; [done|]; split; [discriminate|lia]|].
  unfold Simulated.addOrUpdatePeer. cbn [Simulated.running_ negb].
  rewrite (proj2 (Z.eqb_neq _ _) (peerNumId_nonzero hash _)), Hk, (literal_nonempty _ Hl), Hl. cbn.
  eexists _, _. split; [done|]. tauto.
Qed.

(** What a start needs, over the backend that answers as its inputs say: it
    always returns; it succeeds exactly when the peer's and the host's addresses
    are IPv4 literals, the local identity is there with a key and an address, and
    the netmap has the peer with a node key and a home region; otherwise the
    error is returned and the route shows no target. *)
Theorem start_needs hash target p b :
  Simulated.running_ b = false ->
  exists res r', start hash target p tt (TailscaleWgxRoute (Some b) true true) = Some (res, r') /\
    (res = Ok tt <-> exists ip key peer, startable target p ip key peer) /\
    activeTarget_ r' = if succeeded res then Some target else None.
Proof.
  intros Hr. unfold start. cbn [backend_ TailscaleWgxRoute].
  destruct (resolve target p (TailscaleWgxRoute (Some b) true true)) as [[[ip key] peer]|e] eqn:E.
  - apply resolve_ok in E as (_&_&Hp&Hh&Hl&Hf&Hk). cbv zeta. cbn [derpMapProvider_ discoKeyProvider_ TailscaleWgxRoute].
    destruct (simulated_up hash target ip key peer [] b Hr Hp Hk) as (res&b'&->&Hok). cbn [mbind option_bind].
    assert ((exists ip key peer, startable target p ip key peer) <-> res = Ok tt) as Hiff.
    { rewrite Hok. split.
      - intros (ip'&key'&peer'&[]). rewrite Hl in st_local0. injection st_local0 as <- <-. by simplify_eq.
      - intros (Hz&Hi&Hd). exists ip, key, peer. by split. }
    destruct res as [[]|]; eexists _, _; (split; [reflexivity|]); (split; [by rewrite Hiff|done]).
  - eexists _, _. split; [reflexivity|]. split; [|done]. split; [done|]. intros (ip&key&peer&[]).
    exfalso. assert (resolve target p (TailscaleWgxRoute (Some b) true true) = Ok (ip, key, peer)) as Ek by (by apply resolve_ok).
    congruence.
Qed.

(** ** The real backend *)

(** What the world answers during a call of the route: the wgx library, the
    servers dialed, the setting and socket of the direct path; and what the
    backend's threads do meanwhile: their steps before the call (or, where the
    route makes several, the call of that number) takes effect. *)
Record RealWorld (W : Type) := {
  rw_answers : WgxAnswers;
  rw_fuel : nat;
  rw_dial : DerpNode -> @Dialed W;
  rw_token : Z;
  rw_on : bool;
  rw_bound : option Z;
  rw_lan : option Z;
  rw_threads : nat -> list (@bop W);
}.
Arguments rw_answers {W}. Arguments rw_fuel {W}. Arguments rw_dial {W}. Arguments rw_token {W}. Arguments rw_on {W}.
Arguments rw_bound {W}. Arguments rw_lan {W}. Arguments rw_threads {W}.

Section real.
Context {W : Type} `{ITransport W} `{IDerpCrypto}.
Context (x25519 poly1305 : bytes -> bytes -> bytes) (x25519_public : bytes -> bytes) (inet_pton : bytes -> option Z).

(** The backend and what it has done. *)
Definition RealWgxBackend : Type := Backend W * list output.
Implicit Types s : RealWgxBackend.

Definition thread_op (o : @bop W) : bool :=
  match o with ReaderRound _ _ _ | Egress _ _ _ | UdpBegin _ _ _ _ | UdpTick _ _ _ | UdpPacket _ _ _ _ _ => true | _ => false end.

Abbreviation bstep := (WgxBackend.bstep x25519 poly1305 x25519_public inet_pton).
Abbreviation breaches := (WgxBackend.breaches x25519 poly1305 x25519_public inet_pton).

Fixpoint run_threads (ops : list (@bop W)) s : option RealWgxBackend :=
  match ops with
  | [] => Some s
  | o :: rest =>
      if thread_op o && benabled o s.1
      then '(b, more) ← bstep o s.1; run_threads rest (b, s.2 ++ more)
      else run_threads rest s
  end.

(** A call, after the threads' steps. *)
Definition called (w : RealWorld W) (i : nat) (f : Backend W -> option (result unit * Backend W * list output)) s
    : option (result unit * RealWgxBackend) :=
  s ← run_threads (rw_threads w i) s; '(res, b, more) ← f s.1; Some (res, (b, s.2 ++ more)).

#[export] Instance real_backend : IWgxBackend RealWgxBackend (RealWorld W) := {
  startTunnel key ip w := called w 0 (fun b => Some (WgxBackend.startTunnel inet_pton key ip (rw_answers w) b));
  ensureDerpRoute key home derpMap priv w :=
    called w 1 (fun b => '(res, b) ← WgxBackend.ensureDerpRoute x25519_public key home derpMap priv (rw_fuel w) (rw_dial w) (rw_token w) b;
                         Some (res, b, []));
  addOrUpdatePeer id key ip w := called w 2 (fun b => Some (WgxBackend.addOrUpdatePeer inet_pton id key ip (rw_answers w) b));
  startTcpProxy peerIp hostIp ports w := called w 3 (fun b => Some (WgxBackend.startTcpProxy peerIp hostIp ports (rw_answers w) b));
  startDirectPath config w s :=
    s ← run_threads (rw_threads w 4) s;
    let '(b, more) := WgxBackend.startDirectPath x25519_public config (rw_on w) (rw_bound w) (rw_lan w) s.1 in
    Some (b, s.2 ++ more);
  startUdpRelay peerIp ports w := called w 0 (fun b => Some (WgxBackend.startUdpRelay peerIp ports (rw_answers w) b));
  stopUdpRelay s := (WgxBackend.stopUdpRelay s.1, s.2);
  stop s := let '(b, more) := WgxBackend.stop s.1 in (b, s.2 ++ more);
  isRunning s := WgxBackend.isRunning s.1;
  background w s := run_threads (rw_threads w 0) s;
}.

(** The host of the relay that runs. *)
Definition relay_host (h : option bytes) (o : output) : option bytes :=
  match o with
  | Call (RelayStart _ host _) => Some host
  | Call (RelayCreate _) | Call RelayDestroy => None
  | _ => h
  end.
Definition relayed (outs : list output) : option bytes := foldl relay_host None outs.

Definition still (outs : list output) : Prop := forall h, foldl relay_host h outs = h.

Lemma still_app a b : still a -> still b -> still (a ++ b).
Proof. intros Ha Hb h. by rewrite foldl_app, Ha. Qed.
Lemma still_out effects : still (Out <$> effects).
Proof. intros h. by induction effects. Qed.
Lemma still_relayed outs more : still more -> relayed (outs ++ more) = relayed outs.
Proof. intros Hs. unfold relayed. by rewrite foldl_app, Hs. Qed.
Lemma still_ports add call ports : (forall h port, relay_host h (Call (call port)) = h) -> still (add_ports add call ports).1.
Proof.
  intros Hc h. revert h. induction ports as [|port ports IH]; intros h; [done|]. cbn [add_ports].
  destruct (add port =? 0); [destruct (add_ports add call ports)|]; cbn [fst foldl]; rewrite Hc; [apply IH|done].
Qed.
Lemma still_deliver effects : forall b : Backend W, still (deliver effects b).2.
Proof.
  induction effects as [|e effects IH]; intros b; [done|]. destruct e; cbn [deliver]; try apply IH;
    specialize (IH b); destruct (deliver effects b); intros h; apply IH.
Qed.

(** What the threads leave alone. *)
Record same_route (b b' : Backend W) : Prop := {
  sr_running : WgxBackend.isRunning b' = WgxBackend.isRunning b;
  sr_key : peerNodeKey_ b' = peerNodeKey_ b;
  sr_have : havePeer_ b' = havePeer_ b;
  sr_id : activePeerId_ b' = activePeerId_ b;
}.
Lemma same_route_refl b : same_route b b.
Proof. done. Qed.
Lemma same_route_trans a b c : same_route a b -> same_route b c -> same_route a c.
Proof. intros [] []. split; congruence. Qed.
Lemma same_route_deliver effects b : same_route b (deliver effects b).1.
Proof. by destruct (deliver_same effects b) as (s&->). Qed.

Lemma direct_step_still o b b' more : direct_step x25519 poly1305 x25519_public o b = Some (b', more) -> same_route b b' /\ still more.
Proof.
  unfold direct_step. intros ([d effects]&_&E)%bind_Some. injection E as E.
  pose proof (same_route_deliver effects (with_direct d b)) as Hs. pose proof (still_deliver effects (with_direct d b)) as Ht.
  rewrite E in Hs, Ht. split; [|exact Ht]. by eapply same_route_trans; [|exact Hs].
Qed.

Lemma reader_frame_still frame now nonce b b' more :
  reader_frame x25519 poly1305 frame now nonce b = Some (b', more) -> same_route b b' /\ still more.
Proof.
  unfold reader_frame. destruct (bool_decide _).
  - destruct (_ <=? _)%nat; [by intros [= <- <-]|]. destruct (_ || _); [by intros [= <- <-]|].
    destruct (looksLikeDisco _); [|by intros [= <- <-]]. intros ([d effects]&_&E)%bind_Some. injection E as E.
    pose proof (same_route_deliver effects (with_direct d b)) as Hs. pose proof (still_deliver effects (with_direct d b)) as Ht.
    rewrite E in Hs, Ht. split; [|exact Ht]. by eapply same_route_trans; [|exact Hs].
  - destruct (bool_decide _).
    + destruct (derp_ b) as [s|]; [|by intros [= <- <-]]. destruct (derpAlive_ b); by intros [= <- <-].
    + destruct (bool_decide _); [|by intros [= <- <-]]. destruct (_ <=? _)%nat; by intros [= <- <-].
Qed.

Lemma thread_still o b b' more : thread_op o = true -> bstep o b = Some (b', more) -> same_route b b' /\ still more.
Proof.
  destruct o; try done; intros _; cbn [WgxBackend.bstep direct_op]; try apply direct_step_still.
  - unfold reader_round. destruct (derp_ b) as [s|]; [|by intros [= <- <-]].
    destruct (recvFrame fuel s "") as [[[[frame|]|] s1] e]; [|by intros [= <- <-]|done].
    intros E. apply reader_frame_still in E as [Hs Ht]. split; [|exact Ht]. by eapply same_route_trans; [|exact Hs].
  - intros [= E]. unfold sendEgress in E. destruct (_ || _); [by injection E as <- <-|].
    destruct (if directActive_ (direct_ b) then _ else _) as [[] sent]; injection E as <- <-.
    + split; [done|apply still_out].
    + by destruct (derp_send_same packet b) as (s&->).
Qed.

Lemma run_threads_still ops : forall s s', run_threads ops s = Some s' ->
  same_route s.1 s'.1 /\ relayed s'.2 = relayed s.2 /\ s.2 ⊆ s'.2.
Proof.
  induction ops as [|o ops IH]; intros s s'; cbn [run_threads]; [by intros [= <-]|].
  destruct (thread_op o) eqn:Eo; cbn [andb]; [|apply IH]. destruct (benabled o s.1); [|apply IH].
  intros ([b more]&E&Er)%bind_Some. apply thread_still in E as [Hs Ht]; [|done]. apply IH in Er as (Hs'&Hr&Hm).
  split; [by eapply same_route_trans|]. split; [rewrite Hr; by apply still_relayed|]. etrans; [|exact Hm]. by apply list_subseteq_app_l.
Qed.

Lemma called_inv w i f s res s' : called w i f s = Some (res, s') ->
  exists s1 more, run_threads (rw_threads w i) s = Some s1 /\ f s1.1 = Some (res, s'.1, more) /\ s'.2 = s1.2 ++ more /\
    same_route s.1 s1.1 /\ relayed s1.2 = relayed s.2 /\ s.2 ⊆ s1.2.
Proof.
  unfold called. intros (s1&Et&E)%bind_Some. apply bind_Some in E as ([[r b] more]&Ef&E). injection E as <- <-.
  apply run_threads_still in Et as Hs. exists s1, more. by destruct Hs as (?&?&?).
Qed.

Lemma startTunnel_up key ip answers (b b' : Backend W) outs :
  WgxBackend.startTunnel inet_pton key ip answers b = (Ok tt, b', outs) -> WgxBackend.isRunning b' = true.
Proof.
  unfold WgxBackend.startTunnel. destruct (WgxBackend.stop b) as [b1 outs1]. destruct (inet_pton ip); [|done].
  by destruct (wgx_create answers); [intros [= <- _]|].
Qed.

Lemma ensure_shape key home derpMap priv fuel dial token (b : Backend W) r b' :
  WgxBackend.ensureDerpRoute x25519_public key home derpMap priv fuel dial token b = Some (r, b') ->
  WgxBackend.isRunning b' = WgxBackend.isRunning b /\
  (r = Ok tt -> peerNodeKey_ b' = key /\ havePeer_ b' = true).
Proof.
  unfold WgxBackend.ensureDerpRoute.
  repeat match goal with |- (if ?c then _ else _) = _ -> _ => destruct c eqn:?; [intros [= <- <-]; split; [done|] |] end; try done.
  - intros _. apply andb_prop in Heqb4 as [[_ Hh]%andb_prop Hk]. by apply bool_decide_eq_true in Hk.
  - intros ([[[[s node] region]|] e]&_&E)%bind_Some; injection E as <- <-; (split; [done|]); [done|discriminate].
Qed.

Lemma addOrUpdatePeer_shape id key ip answers (b : Backend W) r b' outs :
  WgxBackend.addOrUpdatePeer inet_pton id key ip answers b = (r, b', outs) ->
  WgxBackend.isRunning b' = WgxBackend.isRunning b /\ still outs /\ peerNodeKey_ b' = peerNodeKey_ b /\ havePeer_ b' = havePeer_ b /\
  (r = Ok tt -> activePeerId_ b' = id /\ exists a, Call (WgxAddPeer id key a) ∈ outs).
Proof.
  unfold WgxBackend.addOrUpdatePeer, handshake. destruct (_ || _); [by intros [= <- <- <-]|].
  destruct (inet_pton ip) as [a|]; [|by intros [= <- <- <-]]. destruct (negb _); [by intros [= <- <- <-]|].
  destruct (running_ _); [|destruct (negb (wgx_start answers =? 0)); [by intros [= <- <- <-]|]];
    destruct (wgx_connect_peer answers =? 0); intros [= <- <- <-]; (split_and!; [done..|]); try discriminate;
    intros _; (split; [done|]); exists a; apply elem_of_cons; by left.
Qed.

Lemma startTcpProxy_shape peerIp hostIp ports answers (b : Backend W) r b' outs :
  WgxBackend.startTcpProxy peerIp hostIp ports answers b = (r, b', outs) ->
  same_route b b' /\ (r = Ok tt -> forall before, relayed (before ++ outs) = Some hostIp).
Proof.
  unfold WgxBackend.startTcpProxy. destruct (_ || _); [by intros [= <- <- <-]|].
  destruct (negb (wgx_relay_create answers)); [by intros [= <- <- <-]|].
  destruct (negb (wgx_relay_start answers =? 0)); [by intros [= <- <- <-]|].
  pose proof (still_ports (wgx_relay_add_tcp answers) RelayAddTcp ports) as Hp.
  destruct (add_ports (wgx_relay_add_tcp answers) RelayAddTcp ports) as [added [port|]]; intros [= <- <- <-]; (split; [done|]); [done|].
  intros _ before. unfold relayed. rewrite app_assoc, foldl_app, Hp by done. rewrite !foldl_app. done.
Qed.

Lemma startUdpRelay_shape ip ports answers (b : Backend W) r b' outs :
  WgxBackend.startUdpRelay ip ports answers b = (r, b', outs) -> same_route b b' /\ still outs.
Proof.
  unfold WgxBackend.startUdpRelay. assert (still (if relay_ b then [Call RelayIsRunning] else [])) as Hq by by destruct (relay_ b).
  destruct (_ || _); [by intros [= <- <- <-]|]. destruct (udpPrepared_ b); [by intros [= <- <- <-]|].
  pose proof (still_ports (wgx_relay_add_udp answers) RelayAddUdp ports) as Hp.
  destruct (add_ports _ _ _) as [added [port|]]; intros [= <- <- <-]; (split; [done|]); apply still_app; auto.
Qed.

Lemma startDirectPath_shape config on bound lan (b b' : Backend W) outs :
  WgxBackend.startDirectPath x25519_public config on bound lan b = (b', outs) -> same_route b b' /\ still outs.
Proof.
  unfold WgxBackend.startDirectPath, stopDirectPath. destruct (stopDirectPath_finish _) as [d notes].
  intros [= <- <-]. split; [done|apply still_out].
Qed.

#[export] Instance real_laws : WgxBackendLaws RealWgxBackend (RealWorld W).
Proof.
  refine {| serving s := relayed s.2 |}.
  - intros key ip w s s' E. apply called_inv in E as (s1&more&_&E&_). injection E as E. by apply startTunnel_up in E.
  - intros key home derpMap priv w s r s' E. apply called_inv in E as (s1&more&_&E&_&[Hr _ _ _]&_).
    apply bind_Some in E as ([res b]&E&E1). injection E1 as _ Eb _. apply ensure_shape in E as [E _]. cbn. congruence.
  - intros id key ip w s r s' E. apply called_inv in E as (s1&more&_&E&_&[Hr _ _ _]&_). injection E as E.
    apply addOrUpdatePeer_shape in E as [E _]. cbn. congruence.
  - intros peerIp hostIp ports w s s' E. apply called_inv in E as (s1&more&_&E&Eo&[Hr _ _ _]&_). injection E as E.
    apply startTcpProxy_shape in E as [[E _ _ _] Eh]. split; [cbn; congruence|]. rewrite Eo. by apply Eh.
  - intros ip ports w s r s' E. apply called_inv in E as (s1&more&_&E&Eo&[Hr _ _ _]&Es&_). injection E as E.
    apply startUdpRelay_shape in E as [[E _ _ _] Eh]. split; [cbn; congruence|]. rewrite Eo. by rewrite still_relayed.
  - intros config w s s' (s1&Et&E)%bind_Some. apply run_threads_still in Et as ([Hr _ _ _]&Es&_).
    destruct (WgxBackend.startDirectPath _ _ _ _ _ _) as [b more] eqn:Ed. injection E as <-.
    apply startDirectPath_shape in Ed as [[E _ _ _] Eh]. split; [cbn; congruence|]. cbn. by rewrite still_relayed.
  - intros w s s' E. apply run_threads_still in E as ([Hr _ _ _]&Es&_). split; done.
  - intros s. cbn. unfold WgxBackend.stop, stopDirectPath. by destruct (stopDirectPath_finish (stopDirectPath_request (direct_ s.1))).
Defined.

(** *** A route's run is a run of the backend *)

Definition reached s : Prop := breaches s.2 s.1.

Lemma run_threads_reached ops : forall s s', run_threads ops s = Some s' -> reached s -> reached s'.
Proof.
  induction ops as [|o ops IH]; intros s s'; cbn [run_threads]; [by intros [= <-]|].
  destruct (thread_op o) eqn:Eo; cbn [andb]; [|apply IH]. destruct (benabled o s.1) eqn:Ee; [|apply IH].
  intros ([b more]&E&Er)%bind_Some Hr. eapply IH; [exact Er|]. eapply breaches_step; [exact Hr|exact Ee|by destruct o|exact E].
Qed.

Lemma called_reached w i f (o : bop) s res s' : called w i f s = Some (res, s') -> reached s -> bop_ok o ->
  (forall b, benabled o b = true) ->
  (forall b r b' more, f b = Some (r, b', more) -> bstep o b = Some (b', more)) -> reached s'.
Proof.
  intros (s1&more&Et&E&Eo&_)%called_inv Hr Hok He Hf. unfold reached. rewrite Eo.
  eapply breaches_step; [by eapply run_threads_reached|apply He|exact Hok|by eapply Hf].
Qed.

Lemma startTunnel_reached key ip w s res s' : startTunnel key ip w s = Some (res, s') -> reached s -> reached s'.
Proof.
  intros E Hr. eapply (called_reached _ _ _ (StartTunnel key ip (rw_answers w))); [exact E|done..|].
  intros b r b' more [= E']. cbn [WgxBackend.bstep]. by rewrite E'.
Qed.
Lemma ensureDerpRoute_reached key home derpMap priv w s res s' : ensureDerpRoute key home derpMap priv w s = Some (res, s') ->
  length key = kDerpKeyLen -> reached s -> reached s'.
Proof.
  intros E Hk Hr. eapply (called_reached _ _ _ (EnsureDerp key home derpMap priv (rw_fuel w) (rw_dial w) (rw_token w))); [exact E|done..|].
  intros b r b' more ([r1 b1]&E1&E2)%bind_Some. injection E2 as <- <- <-. cbn [WgxBackend.bstep]. by rewrite E1.
Qed.
Lemma addOrUpdatePeer_reached id key ip w s res s' : addOrUpdatePeer id key ip w s = Some (res, s') -> reached s -> reached s'.
Proof.
  intros E Hr. eapply (called_reached _ _ _ (AddPeer id key ip (rw_answers w))); [exact E|done..|].
  intros b r b' more [= E']. cbn [WgxBackend.bstep]. by rewrite E'.
Qed.
Lemma startTcpProxy_reached peerIp hostIp ports w s res s' : startTcpProxy peerIp hostIp ports w s = Some (res, s') -> reached s -> reached s'.
Proof.
  intros E Hr. eapply (called_reached _ _ _ (TcpProxy peerIp hostIp ports (rw_answers w))); [exact E|done..|].
  intros b r b' more [= E']. cbn [WgxBackend.bstep]. by rewrite E'.
Qed.
Lemma startUdpRelay_reached ip ports w s res s' : startUdpRelay ip ports w s = Some (res, s') -> reached s -> reached s'.
Proof.
  intros E Hr. eapply (called_reached _ _ _ (UdpRelay ip ports (rw_answers w))); [exact E|done..|].
  intros b r b' more [= E']. cbn [WgxBackend.bstep]. by rewrite E'.
Qed.
Lemma startDirectPath_reached config w s s' : startDirectPath config w s = Some s' -> reached s -> reached s'.
Proof.
  intros (s1&Et&E)%bind_Some Hr. destruct (WgxBackend.startDirectPath _ _ _ _ _ _) as [b more] eqn:Ed. injection E as <-.
  eapply (breaches_step _ _ _ _ _ _ (StartDirect config (rw_on w) (rw_bound w) (rw_lan w)));
    [by eapply run_threads_reached|done|done|]. cbn [WgxBackend.bstep fst snd]. by rewrite Ed.
Qed.
Lemma stop_reached s : reached s -> reached (stop s).
Proof.
  intros Hr. cbn [stop real_backend]. destruct (WgxBackend.stop s.1) as [b more] eqn:E.
  eapply (breaches_step _ _ _ _ _ _ StopAll); [exact Hr|done|done|]. cbn [WgxBackend.bstep fst]. by rewrite E.
Qed.

Context (hash : bytes -> Z).

Lemma bring_up_reached target ip key peer derpMap w s res s' : bring_up hash target ip key peer derpMap w s = Some (res, s') ->
  length (nodeKey peer) = kDerpKeyLen -> reached s -> reached s'.
Proof.
  unfold bring_up. intros ([tunnel s1]&Et&E)%bind_Some Hk Hr.
  assert (reached s1) as Hr1. { destruct (isRunning s); [by injection Et as _ <-|by eapply startTunnel_reached]. }
  destruct tunnel as [[]|]; [|by injection E as _ <-]. apply bind_Some in E as ([relay s2]&Ed&E).
  apply ensureDerpRoute_reached in Ed; [|done..]. destruct relay as [[]|]; [|by injection E as _ <-].
  apply bind_Some in E as ([added s3]&Ea&E). apply addOrUpdatePeer_reached in Ea; [|done].
  destruct added as [[]|]; [by eapply startTcpProxy_reached|by injection E as _ <-].
Qed.

(** The netmap's keys are [Key32]. *)
Definition call_ok (c : @rcall (RealWorld W)) : Prop :=
  match c with CStart _ p _ => forall id peer, pv_peer p id = Some peer -> length (nodeKey peer) = kDerpKeyLen | _ => True end.

Definition route_reached (r : Route RealWgxBackend) : Prop := exists s, backend_ r = Some s /\ reached s.

Lemma start_reached target p w r res r' : start hash target p w r = Some (res, r') ->
  (forall id peer, pv_peer p id = Some peer -> length (nodeKey peer) = kDerpKeyLen) -> route_reached r -> route_reached r'.
Proof.
  intros E Hk (s&Eb&Hr). unfold start in E. rewrite Eb in E. assert (route_reached r) as Hr0 by by exists s.
  destruct (resolve target p r) as [[[ip key] peer]|] eqn:Er; [|by injection E as _ <-]. cbv zeta in E.
  apply resolve_ok in Er as (_&_&_&_&_&Hp&_). apply Hk in Hp.
  apply bind_Some in E as ([up s1]&Eu&E). apply bring_up_reached in Eu; [|done..].
  destruct up as [[]|]; [|injection E as _ <-; by exists s1]. apply bind_Some in E as (s2&Ed&E). injection E as _ <-.
  exists s2. split; [done|]. destruct (if discoKeyProvider_ r then _ else _); [|by injection Ed as <-].
  destruct (negb _); [by eapply startDirectPath_reached|by injection Ed as <-].
Qed.

Lemma perform_reached c r r' ks : perform hash c r = Some (r', ks) -> call_ok c -> route_reached r -> route_reached r'.
Proof.
  intros E Hc Hr. destruct c as [target p w|target w| |w]; cbn [perform] in E.
  - apply bind_Some in E as ([res r1]&Er&E). injection E as <- <-. by eapply start_reached.
  - apply bind_Some in E as ([res r1]&Er&E). injection E as <- <-. unfold prepareForStreaming in Er.
    destruct (negb _); [by injection Er as _ <-|]. destruct Hr as (s&Eb&Hr). rewrite Eb in Er.
    destruct (negb (isRunning s)); [injection Er as _ <-; by exists s|]. apply bind_Some in Er as ([res1 s1]&Eu&Er).
    apply startUdpRelay_reached in Eu; [|done]. destruct res1 as [[]|]; injection Er as _ <-; by exists s1.
  - injection E as <- <-. destruct Hr as (s&Eb&Hr). unfold stop_route. rewrite Eb. exists (stop s). split; [done|by apply stop_reached].
  - destruct Hr as (s&Eb&Hr). rewrite Eb in E. apply bind_Some in E as (s'&Ek&E). injection E as <- <-.
    exists s'. split; [done|exact (run_threads_reached _ _ _ Ek Hr)].
Qed.

(** A route over [RealWgxBackend], with its threads running between and during
    the calls, does to the backend only what [WgxBackend] considers: whatever
    holds of every run of the backend holds of the route's. *)
Theorem real_route_runs cs peer local r ks :
  perform_all hash cs (TailscaleWgxRoute (Some (fresh_backend, [])) peer local) = Some (r, ks) -> Forall call_ok cs ->
  exists b outs, backend_ r = Some (b, outs) /\ breaches outs b.
Proof.
  intros E Hc. enough (route_reached r) as ([b outs]&Eb&Hr) by by exists b, outs.
  assert (route_reached (TailscaleWgxRoute (Some (fresh_backend, [])) peer local)) as Hr.
  { exists (fresh_backend, []). split; [done|apply breaches_fresh]. }
  revert Hr E. generalize (TailscaleWgxRoute (Some (@fresh_backend W, @nil output)) peer local) as r0.
  revert ks. induction cs as [|c cs IH]; intros ks r0 Hr E; cbn [perform_all] in E; [by injection E as <- _|].
  apply list.Forall_cons in Hc as [Hc Hcs]. apply bind_Some in E as ([r1 ks1]&E1&E). apply bind_Some in E as ([r2 ks2]&E2&E).
  injection E as <- _. eapply IH; [done| |exact E2]. by eapply perform_reached.
Qed.

Lemma startDirectPath_grows config w s s' : startDirectPath config w s = Some s' ->
  same_route s.1 s'.1 /\ relayed s'.2 = relayed s.2 /\ s.2 ⊆ s'.2.
Proof.
  intros (s1&Et&E)%bind_Some. apply run_threads_still in Et as (Hs&Er&Hm).
  destruct (WgxBackend.startDirectPath _ _ _ _ _ _) as [b more] eqn:Ed. injection E as <-.
  apply startDirectPath_shape in Ed as [Hd Ht]. split; [by eapply same_route_trans|].
  split; [cbn; rewrite <- Er; by apply still_relayed|]. cbn. etrans; [exact Hm|]. by apply list_subseteq_app_l.
Qed.

Lemma bring_up_joins target ip key peer derpMap w s s' : bring_up hash target ip key peer derpMap w s = Some (Ok tt, s') ->
  exists a, peerNodeKey_ s'.1 = nodeKey peer /\ havePeer_ s'.1 = true /\
    activePeerId_ s'.1 = peerNumId hash (rt_peerId target) /\
    Call (WgxAddPeer (peerNumId hash (rt_peerId target)) (nodeKey peer) a) ∈ s'.2 /\ relayed s'.2 = Some (hostOf target).
Proof.
  unfold bring_up. intros ([tunnel s1]&_&E)%bind_Some. destruct tunnel as [[]|]; [|done].
  apply bind_Some in E as ([relay s2]&Ed&E). destruct relay as [[]|]; [|done].
  apply called_inv in Ed as (s1'&more1&_&Ed&_). apply bind_Some in Ed as ([res b2]&Ed&Ed'). injection Ed' as -> Eb _.
  apply ensure_shape in Ed as [_ Hk]. destruct (Hk eq_refl) as [Hkey Hhave]. rewrite Eb in Hkey, Hhave.
  apply bind_Some in E as ([added s3]&Ea&E). destruct added as [[]|]; [|done].
  apply called_inv in Ea as (s2'&more2&_&Ea&Eo&[_ Ek Eh _]&_). injection Ea as Ea.
  apply addOrUpdatePeer_shape in Ea as (_&_&Ek3&Eh3&Hid). destruct (Hid eq_refl) as (Hid3&a&Ha).
  apply called_inv in E as (s3'&more3&_&E&Eo4&[_ Ek4 Eh4 Ei4]&_&Hm). injection E as E.
  apply startTcpProxy_shape in E as [[_ Ek5 Eh5 Ei5] Hs].
  exists a. split; [congruence|]. split; [congruence|]. split; [congruence|].
  split; [|rewrite Eo4; by apply Hs]. rewrite Eo4. apply elem_of_app. left. apply Hm. rewrite Eo. apply elem_of_app. by right.
Qed.

(** C21: a start that succeeds has joined the peer of the netmap and no other: the
    relay carries packets for its node key, WireGuard was given that key under
    the identifier packets from the relay are injected for, and the ports lead to
    the target's host - whatever the threads did meanwhile. *)
Theorem start_joins_peer target p w r s r' : start hash target p w r = Some (Ok tt, r') -> backend_ r = Some s ->
  exists peer b outs a, pv_peer p (rt_peerId target) = Some peer /\ backend_ r' = Some (b, outs) /\
    peerNodeKey_ b = nodeKey peer /\ havePeer_ b = true /\ activePeerId_ b = peerNumId hash (rt_peerId target) /\
    Call (WgxAddPeer (peerNumId hash (rt_peerId target)) (nodeKey peer) a) ∈ outs /\ relayed outs = Some (hostOf target).
Proof.
  intros E Eb. unfold start in E. rewrite Eb in E.
  destruct (resolve target p r) as [[[ip key] peer]|] eqn:Er; [|done]. cbv zeta in E.
  apply resolve_ok in Er as (_&_&_&_&_&Hp&_). apply bind_Some in E as ([up s1]&Eu&E). destruct up as [[]|]; [|done].
  destruct (bring_up_joins _ _ _ _ _ _ _ _ Eu) as (a&Hk&Hh&Hid&Ha&Hs). apply bind_Some in E as (s2&Ed&E). injection E as <-.
  exists peer, s2.1, s2.2, a. split; [done|]. split; [by destruct s2|].
  assert (same_route s1.1 s2.1 /\ relayed s2.2 = relayed s1.2 /\ s1.2 ⊆ s2.2) as ([_ -> -> ->]&->&Hm).
  { destruct (if discoKeyProvider_ r then _ else _); [|by injection Ed as <-].
    destruct (negb _); [by eapply startDirectPath_grows|by injection Ed as <-]. }
  split_and!; try done. by apply Hm.
Qed.
End real.

(** ** Routes *)

Definition ex_hash (id : bytes) : Z := zlen id.
Definition ex_peer : Peer :=
  {| stableId := bs "n1"; nodeKey := ex_key; discoKey := zeros 32; hostname := bs "pc"; addresses := [bs "100.64.0.2"];
     allowedIPs := [bs "192.168.1.0/24"]; endpoints := []; homeDerp := 2; online := true; os := []; tcpServicePorts := [];
     servicesKnown := false |}.
Definition ex_target (host : string) : RemoteRouteTarget :=
  {| rt_peerId := bs "n1"; rt_peerAddress := bs "100.64.0.2"; rt_targetAddress := bs host; rt_connectAddress := bs "127.0.0.1";
     rt_mode := Proxy |}.
Definition ex_providers (key : bytes) : Providers :=
  {| pv_local := Some (bs "100.64.0.1", key); pv_peer := fun id => if bool_decide (id = bs "n1") then Some ex_peer else None;
     pv_derpMap := ex_map; pv_disco := None |}.

Definition ex_calls : list (@rcall unit) :=
  [CStop; CStart (ex_target "192.168.1.7") (ex_providers (toy_key 1)) tt; CPrepare (ex_target "192.168.1.7") tt].

Lemma route_implements_overlay_witness :
  exists r ks, perform_all ex_hash ex_calls (TailscaleWgxRoute (Some Simulated.fresh) true true) = Some (r, ks) /\
    length ks = 3%nat /\ isActive r = true /\ isStreamingPrepared r = true.
Proof.
  assert (exists r ks, perform_all ex_hash ex_calls (TailscaleWgxRoute (Some Simulated.fresh) true true) = Some (r, ks) /\
    length ks = 3%nat /\ prepared_by ks = true /\ overlay_state ks = Some (Some (ex_target "192.168.1.7"))) as (r&ks&E&El&Ep&Eo).
  { eexists _, _. split; [vm_compute; reflexivity|]. split; [reflexivity|]. split; vm_compute; reflexivity. }
  destruct (route_implements_overlay ex_hash _ _ _ _ _ _ _ E Eo) as (_&Ha&Hp&_).
  exists r, ks. split; [exact E|]. split; [exact El|]. split; [exact Ha|]. rewrite Hp. exact Ep.
Defined.

Lemma start_needs_witness :
  exists res r', start ex_hash (ex_target "") (ex_providers (toy_key 1)) tt (TailscaleWgxRoute (Some Simulated.fresh) true true) = Some (res, r') /\
    res = Ok tt /\ activeTarget_ r' = Some (ex_target "").
Proof.
  destruct (start_needs ex_hash (ex_target "") (ex_providers (toy_key 1)) Simulated.fresh eq_refl) as (res&r'&E&Hok&Ha).
  assert (res = Ok tt) as ->.
  { apply Hok. exists (bs "100.64.0.1"), (toy_key 1), ex_peer. split; vm_compute; reflexivity. }
  exists (Ok tt), r'. split; [exact E|]. split; [reflexivity|exact Ha].
Defined.

(** The route of the examples of [WgxBackend], with a round of its reader before
    the proxy is made. *)
Definition ex_world : RealWorld script :=
  {| rw_answers := ex_answers; rw_fuel := 10; rw_dial := ex_dial; rw_token := 77; rw_on := true; rw_bound := None; rw_lan := None;
     rw_threads := fun i => if (i =? 3)%nat then [ReaderRound 10 0 ex_nonce] else [] |}.
#[local] Abbreviation ex_real := (real_backend (W := script) (H0 := toy_crypto) toy_x25519 toy_poly1305 ex_public ex_pton).
Definition ex_route : Route (@RealWgxBackend script) :=
  setDerpMapProvider true (TailscaleWgxRoute (Some (fresh_backend, [])) true true).
#[local] Abbreviation ex_start :=
  (start (H := ex_real) ex_hash (ex_target "192.168.1.7") (ex_providers (toy_key 1)) ex_world ex_route).

Lemma start_joins_peer_witness :
  exists r' b outs, ex_start = Some (Ok tt, r') /\ backend_ r' = Some (b, outs) /\
    peerNodeKey_ b = ex_key /\ activePeerId_ b = 2 /\ relayed outs = Some (bs "192.168.1.7").
Proof.
  assert (exists r', ex_start = Some (Ok tt, r')) as [r' E] by (vm_compute; eexists; reflexivity).
  destruct (start_joins_peer (H0 := toy_crypto) toy_x25519 toy_poly1305 ex_public ex_pton ex_hash
    (ex_target "192.168.1.7") (ex_providers (toy_key 1)) ex_world ex_route (fresh_backend, []) r' E eq_refl)
    as (peer&b&outs&a&Ep&Eb&Ek&_&Ei&_&Eh).
  exists r', b, outs. split; [exact E|]. split; [exact Eb|]. split; [|split; [exact Ei|exact Eh]].
  vm_compute in Ep. injection Ep as <-. exact Ek.
Defined.

#[local] Abbreviation ex_run :=
  (perform_all (H := ex_real) ex_hash [CStart (ex_target "192.168.1.7") (ex_providers (toy_key 1)) ex_world; CStop]
    (TailscaleWgxRoute (Some (fresh_backend, [])) true true)).
Lemma real_route_runs_witness :
  exists r ks b outs, ex_run = Some (r, ks) /\ backend_ r = Some (b, outs) /\
    breaches (H0 := toy_crypto) toy_x25519 toy_poly1305 ex_public ex_pton outs b.
Proof.
  assert (exists r ks, ex_run = Some (r, ks)) as (r&ks&E) by (vm_compute; eexists _, _; reflexivity).
  destruct (real_route_runs (H0 := toy_crypto) toy_x25519 toy_poly1305 ex_public ex_pton ex_hash _ _ _ _ _ E) as (b&outs&Eb&Hr).
  - repeat constructor. intros id peer. cbn. case_bool_decide; [|done]. by intros [= <-].
  - exists r, ks, b, outs. split; [exact E|]. split; [exact Eb|exact Hr].
Defined.

(** ** What the runs also show *)

(** A start that fails after the tunnel is up leaves it up: neither the route nor
    the core, which forgets the target, stops the backend. *)
Example failed_start_keeps_tunnel :
  exists e r', start ex_hash (ex_target "192.168.1.7")
      {| pv_local := pv_local (ex_providers (toy_key 1)); pv_derpMap := []; pv_disco := None;
         pv_peer := fun _ => Some {| stableId := bs "n1"; nodeKey := ex_key; discoKey := zeros 32; hostname := []; addresses := [];
           allowedIPs := []; endpoints := []; homeDerp := 0; online := true; os := []; tcpServicePorts := []; servicesKnown := false |} |}
      tt (TailscaleWgxRoute (Some Simulated.fresh) true true) = Some (Err e, r') /\
    activeTarget_ r' = None /\ match backend_ r' with Some b => Simulated.running_ b | None => false end = true.
Proof. eexists _, _. split; [vm_compute; reflexivity|]. split; reflexivity. Qed.

(** A host behind the same subnet router is accepted for streaming although the
    ports lead to the host the route was started for. *)
Example other_host_accepted :
  let cs := [CStart (ex_target "192.168.1.7") (ex_providers (toy_key 1)) tt; CPrepare (ex_target "192.168.1.8") tt] in
  exists r ks, perform_all ex_hash cs (TailscaleWgxRoute (Some Simulated.fresh) true true) = Some (r, ks) /\
    isStreamingPrepared r = true /\ (serving <$> backend_ r) = Some (Some (bs "192.168.1.7")).
Proof. eexists _, _. split; [vm_compute; reflexivity|]. split; reflexivity. Qed.
