(* ===== verification/WireGuardConfig.v ===== *)
(** The configuration of the standalone WireGuard provider
    ([vpn/WireGuardConfig.cpp]): the parser of [wg-quick] files, the validation
    the settings screen shows, and the AllowedIPs test that decides which hosts
    are reached through the tunnel. *)

From S2P Require Import Prelude Bytes Text Endpoint Types PeerDirectory HostAddress.

(** ** Data *)

Record WireGuardPeerConfig := {
  publicKey : bytes;
  presharedKey : bytes;
  endpoint : bytes;
  allowedIps : bytes;
  persistentKeepalive : Z;
}.
Definition no_peer : WireGuardPeerConfig :=
  {| publicKey := []; presharedKey := []; endpoint := []; allowedIps := []; persistentKeepalive := 0 |}.

Record WireGuardConfig := {
  privateKey : bytes;
  address : bytes;
  dns : bytes;
  listenPort : Z;
  mtu : Z;
  peers : list WireGuardPeerConfig;
}.
Definition no_config : WireGuardConfig :=
  {| privateKey := []; address := []; dns := []; listenPort := 0; mtu := 0; peers := [] |}.

Inductive Problem :=
| NoProblem | MissingPrivateKey | MalformedPrivateKey | MissingAddress | MalformedAddress | NoPeers
| MultiplePeersUnsupported | MissingPeerPublicKey | MalformedPeerPublicKey | MalformedPeerPresharedKey
| MalformedEndpoint | InvalidListenPort | InvalidKeepalive | InvalidMtu.
#[export] Instance problem_eq_dec : EqDecision Problem.
Proof. solve_decision. Defined.

(** ** Text *)

Definition trim (value : bytes) : bytes := trim_back (trim_front value).

(** [std::stol]: the value and the characters used; [None] for either
    exception. *)
Definition stol (l : bytes) : option (Z * nat) :=
  let spaces := take_while is_space l in
  let rest := drop (length spaces) l in
  let signed := bool_decide (head rest = Some (ch "-")) || bool_decide (head rest = Some (ch "+")) in
  let ds := take_while is_digit (if signed then drop 1 rest else rest) in
  let v := if bool_decide (head rest = Some (ch "-")) then - dec_value ds else dec_value ds in
  if bool_decide (ds = []) || negb ((- 2 ^ 63 <=? v) && (v <? 2 ^ 63)) then None
  else Some (v, (length spaces + (if signed then 1 else 0) + length ds)%nat).

Definition parse_int (value : bytes) : option Z :=
  if bool_decide (value = []) then None
  else
    '(parsed, consumed) ← stol value;
    if negb (consumed =? length value)%nat then None
    else if (parsed <? 0) || (0x7fffffff <? parsed) then None
    else Some parsed.

Definition is_alnum (b : byte) : bool :=
  is_digit b || is_upper b || ((97 <=? ub b) && (ub b <=? 122)).
Definition is_xdigit (b : byte) : bool :=
  is_digit b || ((65 <=? ub b) && (ub b <=? 70)) || ((97 <=? ub b) && (ub b <=? 102)).

Definition looks_like_wg_key (value : bytes) : bool :=
  (length value =? 44)%nat && bool_decide (list.last value = Some (ch "=")) &&
  forallb (fun c => is_alnum c || bool_decide (c = ch "+") || bool_decide (c = ch "/")) (take 43 value).

(** The pieces the loops over [pos] visit: up to the separator, or to the end. *)
Definition piece_at (pos : nat) (sep : option nat) (l : bytes) : bytes :=
  match sep with None => substr_from pos l | Some d => substr pos (d - pos) l end.

(** The body of [valid_ipv4] on one part. *)
Definition octet_part (part : bytes) : bool :=
  if bool_decide (part = []) || (3 <? length part)%nat then false
  else if negb (forallb is_digit part) then false
  else match parse_int part with None => false | Some number => number <=? 255 end.

(** The parts counted, [None] when one is refused. *)
Fixpoint octets_loop (fuel : nat) (value : bytes) (pos : nat) (octets : Z) : option Z :=
  match fuel with
  | O => None
  | S k =>
      if (pos <=? length value)%nat then
        let dot := find_from (ch ".") pos value in
        if negb (octet_part (piece_at pos dot value)) then None
        else match dot with None => Some (octets + 1) | Some d => octets_loop k value (d + 1) (octets + 1) end
      else Some octets
  end.
Definition valid_ipv4 (value : bytes) : bool :=
  match octets_loop (S (length value)) value 0 0 with None => false | Some octets => octets =? 4 end.

(** The four rounds of [parse_ipv4]. *)
Fixpoint quad_loop (rounds : nat) (value : bytes) (pos : nat) (result : Z) : option Z :=
  match rounds with
  | O => Some result
  | S k =>
      let dot := find_from (ch ".") pos value in
      number ← parse_int (piece_at pos dot value);
      quad_loop k value (match dot with None => length value | Some d => d + 1 end)
        (Z.lor (u32 (Z.shiftl result 8)) (u32 number))
  end.
Definition parse_ipv4 (value : bytes) : option Z :=
  if negb (valid_ipv4 value) then None else quad_loop 4 value 0 0.

(** One entry of an address list, trimmed. *)
Definition address_entry (entry : bytes) : bool :=
  let bare entry :=
    if bool_decide (is_Some (find (ch ":") entry)) then forallb (fun c => is_xdigit c || bool_decide (c = ch ":")) entry
    else valid_ipv4 entry in
  if bool_decide (entry = []) then false
  else
    match find (ch "/") entry with
    | None => bare entry
    | Some slash =>
        match parse_int (substr_from (slash + 1) entry) with
        | None => false
        | Some prefix =>
            let entry := substr 0 slash entry in
            if (if bool_decide (is_Some (find (ch ":") entry)) then 128 else 32) <? prefix then false else bare entry
        end
    end.

(** A loop over a comma-separated list that stops when [test] gives [stop], and
    answers [negb stop] at the end. *)
Fixpoint comma_loop (fuel : nat) (test : bytes -> bool) (stop : bool) (value : bytes) (pos : nat) : bool :=
  match fuel with
  | O => negb stop
  | S k =>
      if (pos <=? length value)%nat then
        let comma := find_from (ch ",") pos value in
        if Bool.eqb (test (trim (piece_at pos comma value))) stop then stop
        else match comma with None => negb stop | Some d => comma_loop k test stop value (d + 1) end
      else negb stop
  end.

Definition valid_address (value : bytes) : bool :=
  if bool_decide (value = []) then false else comma_loop (S (length value)) address_entry false value 0.

Definition valid_endpoint (value : bytes) : bool :=
  if bool_decide (value = []) then false
  else
    match rfind (ch ":") value with
    | None => false
    | Some colon =>
        if (colon =? 0)%nat || (length value <=? colon + 1)%nat then false
        else match parse_int (substr_from (colon + 1) value) with
             | None => false | Some port => (1 <=? port) && (port <=? 65535) end
    end.

(** ** Validation *)

Fixpoint validate_peers (ps : list WireGuardPeerConfig) : Problem :=
  match ps with
  | [] => NoProblem
  | peer :: rest =>
      if bool_decide (publicKey peer = []) then MissingPeerPublicKey
      else if negb (looks_like_wg_key (publicKey peer)) then MalformedPeerPublicKey
      else if negb (bool_decide (presharedKey peer = [])) && negb (looks_like_wg_key (presharedKey peer))
      then MalformedPeerPresharedKey
      else if negb (bool_decide (endpoint peer = [])) && negb (valid_endpoint (endpoint peer)) then MalformedEndpoint
      else if (persistentKeepalive peer <? 0) || (65535 <? persistentKeepalive peer) then InvalidKeepalive
      else validate_peers rest
  end.

Definition validate (c : WireGuardConfig) : Problem :=
  if bool_decide (privateKey c = []) then MissingPrivateKey
  else if negb (looks_like_wg_key (privateKey c)) then MalformedPrivateKey
  else if bool_decide (address c = []) then MissingAddress
  else if negb (valid_address (address c)) then MalformedAddress
  else if negb (listenPort c =? 0) && ((listenPort c <? 1) || (65535 <? listenPort c)) then InvalidListenPort
  else if negb (mtu c =? 0) && ((mtu c <? 576) || (1500 <? mtu c)) then InvalidMtu
  else if bool_decide (peers c = []) then NoPeers
  else
    match validate_peers (peers c) with
    | NoProblem => if (1 <? length (peers c))%nat then MultiplePeersUnsupported else NoProblem
    | problem => problem
    end.
Definition config_valid (c : WireGuardConfig) : bool := bool_decide (validate c = NoProblem).

Definition wireguard_problem_i18n_key (problem : Problem) : string :=
  match problem with
  | NoProblem => "artemis/settings/wireguard_problem_none"
  | MissingPrivateKey => "artemis/settings/wireguard_problem_missing_private_key"
  | MalformedPrivateKey => "artemis/settings/wireguard_problem_malformed_private_key"
  | MissingAddress => "artemis/settings/wireguard_problem_missing_address"
  | MalformedAddress => "artemis/settings/wireguard_problem_malformed_address"
  | NoPeers => "artemis/settings/wireguard_problem_no_peers"
  | MultiplePeersUnsupported => "artemis/settings/wireguard_problem_multiple_peers"
  | MissingPeerPublicKey => "artemis/settings/wireguard_problem_missing_peer_key"
  | MalformedPeerPublicKey => "artemis/settings/wireguard_problem_malformed_peer_key"
  | MalformedPeerPresharedKey => "artemis/settings/wireguard_problem_malformed_psk"
  | MalformedEndpoint => "artemis/settings/wireguard_problem_malformed_endpoint"
  | InvalidListenPort => "artemis/settings/wireguard_problem_listen_port"
  | InvalidKeepalive => "artemis/settings/wireguard_problem_keepalive"
  | InvalidMtu => "artemis/settings/wireguard_problem_mtu"
  end.

(** ** AllowedIPs *)

Definition entry_allows (candidate : Z) (entry : bytes) : bool :=
  if bool_decide (entry = []) || bool_decide (is_Some (find (ch ":") entry)) then false
  else
    let slash := find (ch "/") entry in
    let prefix := match slash with
                  | None => 32
                  | Some k => match parse_int (substr_from (k + 1) entry) with
                              | Some prefix => if 32 <? prefix then -1 else prefix
                              | None => -1 end
                  end in
    let entry := match slash with None => entry | Some k => substr 0 k entry end in
    match parse_ipv4 entry with
    | None => false
    | Some network =>
        if prefix <? 0 then false
        else
          let mask := if prefix =? 0 then 0 else u32 (Z.shiftl (2 ^ 32 - 1) (32 - prefix)) in
          Z.land candidate mask =? Z.land network mask
    end.

Definition wireguard_ipv4_matches_allowed_ips (address allowedIps : bytes) : bool :=
  match parse_ipv4 (trim address) with
  | None => false
  | Some candidate =>
      if bool_decide (allowedIps = []) then false
      else comma_loop (S (length allowedIps)) (entry_allows candidate) true allowedIps 0
  end.

(** ** The parser *)

Inductive Section_ := NoSection | Interface | PeerSection.

(** The locals of [parse_wireguard_conf]. *)
Record Parsing := {
  pg_config : WireGuardConfig;
  pg_section : Section_;
  pg_peer : WireGuardPeerConfig;
  pg_badListenPort : bool;
  pg_badMtu : bool;
  pg_badKeepalive : bool;
}.
Definition start_parsing : Parsing :=
  {| pg_config := no_config; pg_section := NoSection; pg_peer := no_peer; pg_badListenPort := false; pg_badMtu := false;
     pg_badKeepalive := false |}.

Definition with_config (c : WireGuardConfig) (badListenPort badMtu : bool) (p : Parsing) : Parsing :=
  {| pg_config := c; pg_section := pg_section p; pg_peer := pg_peer p; pg_badListenPort := badListenPort; pg_badMtu := badMtu;
     pg_badKeepalive := pg_badKeepalive p |}.
Definition with_peer (peer : WireGuardPeerConfig) (badKeepalive : bool) (p : Parsing) : Parsing :=
  {| pg_config := pg_config p; pg_section := pg_section p; pg_peer := peer; pg_badListenPort := pg_badListenPort p;
     pg_badMtu := pg_badMtu p; pg_badKeepalive := badKeepalive |}.

Definition set_peers (ps : list WireGuardPeerConfig) (c : WireGuardConfig) : WireGuardConfig :=
  {| privateKey := privateKey c; address := address c; dns := dns c; listenPort := listenPort c; mtu := mtu c; peers := ps |}.
Definition set_numbers (port m : Z) (c : WireGuardConfig) : WireGuardConfig :=
  {| privateKey := privateKey c; address := address c; dns := dns c; listenPort := port; mtu := m; peers := peers c |}.
Definition set_texts (key addr names : bytes) (c : WireGuardConfig) : WireGuardConfig :=
  {| privateKey := key; address := addr; dns := names; listenPort := listenPort c; mtu := mtu c; peers := peers c |}.

(** [flushPeer], and the section that begins. *)
Definition flushPeer (section : Section_) (p : Parsing) : Parsing :=
  let c := pg_config p in
  {| pg_config := match pg_section p with
                  | PeerSection => if bool_decide (publicKey (pg_peer p) = []) then c else set_peers (peers c ++ [pg_peer p]) c
                  | _ => c end;
     pg_section := section; pg_peer := no_peer; pg_badListenPort := pg_badListenPort p; pg_badMtu := pg_badMtu p;
     pg_badKeepalive := pg_badKeepalive p |}.

Definition interface_key (key value : bytes) (p : Parsing) : Parsing :=
  let c := pg_config p in
  if bool_decide (key = bs "privatekey") then with_config (set_texts value (address c) (dns c) c) (pg_badListenPort p) (pg_badMtu p) p
  else if bool_decide (key = bs "address") then with_config (set_texts (privateKey c) value (dns c) c) (pg_badListenPort p) (pg_badMtu p) p
  else if bool_decide (key = bs "dns") then with_config (set_texts (privateKey c) (address c) value c) (pg_badListenPort p) (pg_badMtu p) p
  else if bool_decide (key = bs "listenport") then
    match parse_int value with
    | Some port => with_config (set_numbers port (mtu c) c) (pg_badListenPort p) (pg_badMtu p) p
    | None => with_config c true (pg_badMtu p) p end
  else if bool_decide (key = bs "mtu") then
    match parse_int value with
    | Some m => with_config (set_numbers (listenPort c) m c) (pg_badListenPort p) (pg_badMtu p) p
    | None => with_config c (pg_badListenPort p) true p end
  else p.

Definition peer_key (key value : bytes) (p : Parsing) : Parsing :=
  let q := pg_peer p in
  let put pub psk ep ips keep := {| publicKey := pub; presharedKey := psk; endpoint := ep; allowedIps := ips; persistentKeepalive := keep |} in
  if bool_decide (key = bs "publickey")
  then with_peer (put value (presharedKey q) (endpoint q) (allowedIps q) (persistentKeepalive q)) (pg_badKeepalive p) p
  else if bool_decide (key = bs "presharedkey")
  then with_peer (put (publicKey q) value (endpoint q) (allowedIps q) (persistentKeepalive q)) (pg_badKeepalive p) p
  else if bool_decide (key = bs "endpoint")
  then with_peer (put (publicKey q) (presharedKey q) value (allowedIps q) (persistentKeepalive q)) (pg_badKeepalive p) p
  else if bool_decide (key = bs "allowedips")
  then with_peer (put (publicKey q) (presharedKey q) (endpoint q) value (persistentKeepalive q)) (pg_badKeepalive p) p
  else if bool_decide (key = bs "persistentkeepalive") then
    match parse_int value with
    | Some keep => with_peer (put (publicKey q) (presharedKey q) (endpoint q) (allowedIps q) keep) (pg_badKeepalive p) p
    | None => with_peer q true p end
  else p.

(** The body of the loop on one line. *)
Definition conf_line (p : Parsing) (line : bytes) : Parsing :=
  let line := match find_first_of (bs "#;") line with Some k => substr 0 k line | None => line end in
  let line := trim line in
  match line with
  | [] => p
  | front :: _ =>
      if bool_decide (front = ch "[") then
        let header := lower line in
        if bool_decide (header = bs "[interface]") then flushPeer Interface p
        else if bool_decide (header = bs "[peer]") then flushPeer PeerSection p
        else flushPeer NoSection p
      else
        match find (ch "=") line with
        | None => p
        | Some eq =>
            let key := lower (trim (substr 0 eq line)) in
            let value := trim (substr_from (eq + 1) line) in
            match pg_section p with
            | Interface => interface_key key value p
            | PeerSection => peer_key key value p
            | NoSection => p
            end
        end
  end.

(** [std::getline]: no line after a final newline. *)
Definition newline : byte := u8 10.
Definition text_lines (text : bytes) : list bytes :=
  let ls := split_on newline text in
  if bool_decide (list.last ls = Some []) then removelast ls else ls.

(** What follows the loop. *)
Definition finish_parsing (p : Parsing) : WireGuardConfig :=
  let p := flushPeer (pg_section p) p in
  let c := pg_config p in
  let c := set_numbers (if pg_badListenPort p then -1 else listenPort c) (if pg_badMtu p then -1 else mtu c) c in
  match peers c with
  | front :: rest =>
      if pg_badKeepalive p
      then set_peers ({| publicKey := publicKey front; presharedKey := presharedKey front; endpoint := endpoint front;
                         allowedIps := allowedIps front; persistentKeepalive := -1 |} :: rest) c
      else c
  | [] => c
  end.

Definition parse_wireguard_conf (text : bytes) : WireGuardConfig :=
  finish_parsing (foldl conf_line start_parsing (text_lines text)).

(** ** Numbers *)

Lemma digit_not_space b : is_digit b = true -> is_space b = false.
Proof. intros Hd%is_digit_range. unfold is_space. destruct (Z.eqb_spec (ub b) 32), (Z.leb_spec 9 (ub b)), (Z.leb_spec (ub b) 13); done || lia. Qed.

Lemma stol_digits p : p <> [] -> Forall (fun x => is_digit x = true) p -> dec_value p < 2 ^ 63 ->
  stol p = Some (dec_value p, length p).
Proof.
  intros Hne Hd Hv. destruct p as [|d p]; [done|]. apply Forall_cons_1 in Hd as Hd'. destruct Hd' as [Hd1 _].
  assert (ub d <> 45 /\ ub d <> 43) as [Hm Hp] by (apply is_digit_range in Hd1; lia).
  assert (bool_decide (head (d :: p) = Some (ch "-")) = false) as Em by (apply bool_decide_false; by intros [= ->]).
  assert (bool_decide (head (d :: p) = Some (ch "+")) = false) as Ep by (apply bool_decide_false; by intros [= ->]).
  assert (take_while is_space (d :: p) = []) as Es by (cbn [take_while]; by rewrite (digit_not_space _ Hd1)).
  unfold stol. rewrite Es. cbn [length]. rewrite drop_0, Em, Ep. cbn [orb]. rewrite take_while_all by done.
  rewrite bool_decide_false by done.
  pose proof (dec_value_bound (d :: p) Hd). rewrite (proj2 (Z.leb_le _ _)), (proj2 (Z.ltb_lt _ _)) by lia. done.
Qed.

Lemma parse_int_digits p : p <> [] -> Forall (fun x => is_digit x = true) p -> dec_value p <= 0x7fffffff ->
  parse_int p = Some (dec_value p).
Proof.
  intros Hne Hd Hv. unfold parse_int. rewrite bool_decide_false by done. rewrite stol_digits by (done || lia).
  cbn [mbind option_bind]. rewrite Nat.eqb_refl. pose proof (dec_value_bound p Hd).
  by rewrite (proj2 (Z.ltb_ge _ _)), (proj2 (Z.ltb_ge _ _)) by lia.
Qed.

Lemma parse_int_to_string n : 0 <= n <= 0x7fffffff -> parse_int (to_string n) = Some n.
Proof.
  intros Hn. assert (dec_value (to_string n) = n) as Hv by (apply to_string_value; lia).
  rewrite <- Hv at 2. apply parse_int_digits; [apply to_string_nonempty; lia|apply to_string_digits; lia|lia].
Qed.

Lemma take_while_split p l : l = take_while p l ++ drop (length (take_while p l)) l.
Proof. induction l as [|x l IH]; [done|]. cbn [take_while]. destruct (p x); [cbn; by rewrite <- IH|done]. Qed.

(** The characters of a number: no separator among them. *)
Lemma parse_int_chars value n c : parse_int value = Some n -> is_space c = false -> is_digit c = false -> c <> ch "-" -> c <> ch "+" ->
  c ∉ value.
Proof.
  unfold parse_int. case_bool_decide; [done|]. intros ([v k]&Es&E)%bind_Some Hs Hd Hm Hp.
  destruct (Nat.eqb_spec k (length value)) as [->|]; [|done]. clear E. unfold stol in Es.
  set (spaces := take_while is_space value) in *. set (rest := drop (length spaces) value) in *.
  set (signed := bool_decide (head rest = Some (ch "-")) || bool_decide (head rest = Some (ch "+"))) in *.
  set (ds := take_while is_digit (if signed then drop 1 rest else rest)) in *.
  destruct (bool_decide (ds = []) || _); [done|]. injection Es as _ El. rewrite (take_while_split is_space value). fold spaces. fold rest.
  assert (length value = length spaces + length rest)%nat as Elen.
  { rewrite (take_while_split is_space value) at 1. fold spaces. fold rest. by rewrite length_app. }
  rewrite elem_of_app. intros [Hi|Hi].
  { pose proof (take_while_Forall is_space value) as Hf. rewrite list.Forall_forall in Hf. fold spaces in Hf. apply Hf in Hi. congruence. }
  assert (forall l, length (take_while is_digit l) = length l -> c ∈ l -> False) as Hall.
  { intros l Hl Hc. pose proof (take_while_Forall is_digit l) as Hf. rewrite take_while_full in Hf by done.
    rewrite list.Forall_forall in Hf. apply Hf in Hc. congruence. }
  clearbody spaces. destruct signed eqn:Esg; [|apply (Hall rest); [fold ds; lia|done]].
  destruct rest as [|x rest'] eqn:Er; [done|]. apply elem_of_cons in Hi as [->|Hi].
  - unfold signed in Esg. cbn [head] in Esg. apply orb_prop in Esg as [E|E]; apply bool_decide_eq_true in E; congruence.
  - apply (Hall rest'); [|done]. assert (length ds = length (take_while is_digit rest')) as Eds by done. cbn [length] in Elen. lia.
Qed.

(** ** Addresses *)

Lemma octet_part_ok p : octet_ok p = if octet_part p then parse_int p else None.
Proof.
  unfold octet_part. case_bool_decide as Hne; cbn [orb]; [by unfold octet_ok; rewrite bool_decide_true by done|].
  destruct (Nat.ltb_spec 3 (length p)) as [Hl|Hl].
  { unfold octet_ok. rewrite bool_decide_false by done. by rewrite (proj2 (Nat.ltb_lt _ _)). }
  destruct (forallb is_digit p) eqn:Hd; cbn [negb].
  - assert (Forall (fun x => is_digit x = true) p) as Hd'.
    { apply list.Forall_forall. intros x Hx. rewrite forallb_forall in Hd. by apply Hd, list_elem_of_In. }
    pose proof (dec_value_bound p Hd') as [_ Hb]. assert (10 ^ zlen p <= 10 ^ 3) as Hp by (apply Z.pow_le_mono_r; unfold zlen; lia).
    rewrite parse_int_digits by (done || lia). destruct (Z.leb_spec (dec_value p) 255).
    + by apply octet_ok_Some.
    + destruct (octet_ok p) as [o|] eqn:E; [|done]. apply octet_ok_Some in E as (_&_&_&_&?). lia.
  - destruct (octet_ok p) as [o|] eqn:E; [|done]. apply octet_ok_Some in E as (_&_&Hf&_). exfalso.
    assert (forallb is_digit p = true) as Ht; [|congruence]. apply forallb_forall. intros x Hx.
    rewrite list.Forall_forall in Hf. by apply Hf, list_elem_of_In.
Qed.

Lemma octets_loop_spec fuel : forall value pos n, (pos <= length value)%nat -> (length value < pos + fuel)%nat ->
  octets_loop fuel value pos n =
  if forallb octet_part (split_on (ch ".") (drop pos value)) then Some (n + zlen (split_on (ch ".") (drop pos value))) else None.
Proof.
  induction fuel as [|k IH]; intros value pos n Hp Hf; [lia|]. cbn [octets_loop]. rewrite (proj2 (Nat.leb_le _ _)) by done.
  rewrite find_from_split by done. unfold piece_at.
  destruct (find_from (ch ".") pos value) as [d|] eqn:E.
  - apply find_from_bound in E. cbn [forallb]. destruct (octet_part _); cbn [negb andb]; [|done].
    rewrite Nat.add_1_r. rewrite IH by lia. destruct (forallb _ _); [|done]. f_equal. zl.
  - cbn [forallb]. unfold substr_from. rewrite andb_true_r. by destruct (octet_part _).
Qed.

Lemma quad_loop_spec ps : forall value pos r n, (pos <= length value)%nat -> split_on (ch ".") (drop pos value) = ps ->
  forallb octet_part ps = true -> quad_loop (length ps) value pos r = fst <$> quad_fold ps r n.
Proof.
  induction ps as [|p ps IH]; intros value pos r n Hp Hs Ho; [done|]. cbn [length quad_loop quad_fold].
  rewrite find_from_split in Hs by done. apply andb_prop in Ho as [Ho Hos].
  assert (piece_at pos (find_from (ch ".") pos value) value = p) as ->.
  { unfold piece_at. destruct (find_from _ _ _); by injection Hs. }
  pose proof (octet_part_ok p) as Eo. rewrite Ho in Eo. rewrite <- Eo.
  destruct (octet_ok p) as [o|] eqn:E; [|done]. cbn [mbind option_bind]. apply octet_ok_range in E.
  assert (u32 o = o) as -> by (unfold u32; apply Z.mod_small; lia).
  destruct (find_from (ch ".") pos value) as [d|] eqn:Ed; injection Hs as _ Hs.
  - apply find_from_bound in Ed. apply IH; [lia|by rewrite Nat.add_1_r|done].
  - by subst ps.
Qed.

Lemma ipv4_value value : parse_ipv4 value = parseIPv4Value value.
Proof.
  rewrite parseIPv4Value_fold. unfold parse_ipv4, valid_ipv4.
  rewrite octets_loop_spec, drop_0 by lia. set (ps := split_on (ch ".") value).
  destruct (forallb octet_part ps) eqn:Ho; cbn [negb].
  - assert (exists r, quad_fold ps 0 0 = Some (r, zlen ps)) as [r Er].
    { cut (forall v n, exists r, quad_fold ps v n = Some (r, n + zlen ps)); [intros Hc; apply (Hc 0 0)|].
      clear -Ho. induction ps as [|p ps IH]; intros v n; [exists v; cbn; f_equal; f_equal; zl|].
      apply andb_prop in Ho as [Ho Hos]. cbn [quad_fold]. rewrite octet_part_ok, Ho.
      unfold octet_part in Ho. destruct (_ || _); [done|]. destruct (negb _); [done|].
      destruct (parse_int p); [|done]. cbn [mbind option_bind]. destruct (IH Hos (Z.lor (u32 (Z.shiftl v 8)) z) (n + 1)) as [r ->].
      exists r. f_equal. f_equal. zl. }
    rewrite Er. cbn [mbind option_bind]. rewrite Z.add_0_l. destruct (Z.eqb_spec (zlen ps) 4) as [E4|]; cbn [negb]; [|done].
    assert (length ps = 4%nat) as El by (unfold zlen in E4; lia).
    rewrite <- El. by rewrite (quad_loop_spec ps value 0 0 0), Er by (done || lia).
  - destruct (quad_fold ps 0 0) as [[r n]|] eqn:E; [|done]. exfalso.
    assert (forall v n, quad_fold ps v n <> None -> forallb octet_part ps = true) as Hc.
    { clear. induction ps as [|p ps IH]; intros v n; [done|]. cbn [quad_fold forallb]. rewrite octet_part_ok.
      destruct (octet_part p); [|done]. destruct (parse_int p); [|done]. cbn [mbind option_bind]. apply IH. }
    rewrite (Hc 0 0) in Ho; [done|]. by rewrite E.
Qed.

(** ** AllowedIPs *)

Lemma find_Some c l k : find c l = Some k -> l = take k l ++ c :: drop (k + 1) l /\ c ∉ take k l.
Proof.
  unfold find, find_from. rewrite drop_0. destruct (find_if _ l) as [j|] eqn:E; intros [= <-].
  apply find_if_Some in E as (Hj&(x&Hx&Hp)&Hf). apply bool_decide_eq_true in Hp as ->. split.
  - rewrite Nat.add_1_r. by rewrite take_drop_middle.
  - intros Hi. rewrite list.Forall_forall in Hf. apply Hf in Hi. by rewrite bool_decide_true in Hi.
Qed.

Lemma quad_text_char net v c : quad_text net v -> is_digit c = false -> c <> ch "." -> c ∉ net.
Proof.
  intros (a&b&d&e&Ha&Hb&Hd&He&->&_) Hc Hdot. cbn [join].
  assert (forall p, octet_text p -> c ∉ p) as Hp by (intros p (_&_&Hf&_); by eapply digits_no_char).
  pose proof (Hp _ Ha). pose proof (Hp _ Hb). pose proof (Hp _ Hd). pose proof (Hp _ He).
  rewrite !elem_of_app, !elem_of_cons, !elem_of_app, !elem_of_cons, !elem_of_app, !elem_of_cons. tauto.
Qed.

Lemma comma_loop_spec fuel test stop : forall value pos, (pos <= length value)%nat -> (length value < pos + fuel)%nat ->
  comma_loop fuel test stop value pos =
  if existsb (fun e => Bool.eqb (test (trim e)) stop) (split_on (ch ",") (drop pos value)) then stop else negb stop.
Proof.
  induction fuel as [|k IH]; intros value pos Hp Hf; [lia|]. cbn [comma_loop]. rewrite (proj2 (Nat.leb_le _ _)) by done.
  rewrite find_from_split by done. unfold piece_at.
  destruct (find_from (ch ",") pos value) as [d|] eqn:E.
  - apply find_from_bound in E. cbn [existsb]. destruct (Bool.eqb _ stop); cbn [orb]; [done|].
    rewrite Nat.add_1_r. apply IH; lia.
  - unfold substr_from. cbn [existsb]. by destruct (Bool.eqb _ stop).
Qed.

(** A network in CIDR text (or one address), and an address in it: the first [k]
    bits are the same. *)
Definition covers (c : Z) (entry : bytes) : Prop :=
  exists net v k, quad_text net v /\ 0 <= k <= 32 /\ Z.shiftr c (32 - k) = Z.shiftr v (32 - k) /\
    ((entry = net /\ k = 32) \/ (exists t, entry = net ++ ch "/" :: t /\ parse_int t = Some k)).

Lemma parse_int_range t k : parse_int t = Some k -> 0 <= k <= 0x7fffffff.
Proof.
  unfold parse_int. case_bool_decide; [done|]. intros ([v n]&_&E)%bind_Some. destruct (negb _); [done|].
  destruct (Z.ltb_spec v 0), (Z.ltb_spec 2147483647 v); try done. injection E as <-. lia.
Qed.

Lemma mask_allows c net v k : 0 <= c < 2 ^ 32 -> parse_ipv4 net = Some v -> 0 <= k <= 32 ->
  (Z.land c (prefixMask k) =? Z.land v (prefixMask k)) = true <-> Z.shiftr c (32 - k) = Z.shiftr v (32 - k).
Proof.
  intros Hc Hv Hk. rewrite ipv4_value in Hv. rewrite Z.eqb_eq. apply mask_match; [done..|]. by eapply parseIPv4Value_range.
Qed.

Lemma entry_allows_covers c entry : 0 <= c < 2 ^ 32 -> entry_allows c entry = true <-> covers c entry.
Proof.
  intros Hc. unfold entry_allows. split.
  - case_bool_decide as Hne; [done|]. case_bool_decide as Hcolon; [done|]. cbn [orb].
    destruct (find (ch "/") entry) as [k|] eqn:Ef.
    + apply find_Some in Ef as [Esplit _]. unfold substr, substr_from. rewrite drop_0.
      destruct (parse_ipv4 (take k entry)) as [v|] eqn:Ev; [|done].
      destruct (parse_int (drop (k + 1) entry)) as [p|] eqn:Ep; [|done].
      pose proof (parse_int_range _ _ Ep). destruct (Z.ltb_spec 32 p); [done|]. rewrite (proj2 (Z.ltb_ge p 0)) by lia.
      fold (prefixMask p). intros Hm%(mask_allows c _ v p Hc Ev); [|lia].
      exists (take k entry), v, p. split; [apply parseIPv4Value_Some; by rewrite <- ipv4_value|]. split; [lia|]. split; [done|].
      right. by exists (drop (k + 1) entry).
    + destruct (parse_ipv4 entry) as [v|] eqn:Ev; [|done]. cbn [Z.ltb Z.compare].
      intros Hm%(mask_allows c _ v 32 Hc Ev); [|lia].
      exists entry, v, 32. split; [apply parseIPv4Value_Some; by rewrite <- ipv4_value|]. split; [lia|]. split; [done|]. by left.
  - intros (net&v&k&Hq&Hk&Hb&He).
    assert (parse_ipv4 net = Some v) as Ev by (rewrite ipv4_value; by apply parseIPv4Value_Some).
    assert (net <> []) as Hne. { intros ->. vm_compute in Ev. discriminate Ev. }
    assert (ch ":" ∉ net) as Hnc by (by eapply quad_text_char). assert (ch "/" ∉ net) as Hns by (by eapply quad_text_char).
    destruct He as [[-> ->]|(t&->&Et)].
    + rewrite bool_decide_false by done. rewrite (find_none _ _ Hnc), bool_decide_false by by intros [? ?].
      rewrite (find_none _ _ Hns), Ev. cbn [orb Z.ltb Z.compare]. by apply (mask_allows c net v 32).
    + rewrite bool_decide_false by by destruct net. rewrite (find_none (ch ":")).
      2: { rewrite elem_of_app, elem_of_cons. intros [?|[?|?]]; [done|done|]. by apply (parse_int_chars _ _ (ch ":") Et). }
      rewrite bool_decide_false by by intros [? ?]. rewrite (find_first _ _ _ Hns). cbn [orb]. unfold substr, substr_from.
      rewrite drop_0, take_app_length.
      assert (drop (length net + 1) (net ++ ch "/" :: t) = t) as ->.
      { rewrite (cons_middle (ch "/")), app_assoc. apply drop_app_length'. rewrite length_app. done. }
      rewrite Et, Ev, (proj2 (Z.ltb_ge 32 k)), (proj2 (Z.ltb_ge k 0)) by lia. by apply (mask_allows c net v k).
Qed.

Lemma allowed_spec addr allowed :
  wireguard_ipv4_matches_allowed_ips addr allowed = true <->
  exists c entry, quad_text (trim addr) c /\ entry ∈ split_on (ch ",") allowed /\ covers c (trim entry).
Proof.
  unfold wireguard_ipv4_matches_allowed_ips. rewrite ipv4_value.
  destruct (parseIPv4Value (trim addr)) as [c|] eqn:Ec.
  - pose proof (parseIPv4Value_range _ _ Ec) as Hc. apply parseIPv4Value_Some in Ec as Hq.
    assert (forall c', quad_text (trim addr) c' -> c' = c) as Huniq.
    { intros c' Hq'. apply parseIPv4Value_Some in Hq'. congruence. }
    case_bool_decide as Hne.
    + subst allowed. split; [done|]. intros (c'&entry&_&Hi&net&v&k&Hn&_&_&He). apply list_elem_of_singleton in Hi as ->.
      exfalso. change (trim []) with (@nil byte) in He.
      assert (net = []) as -> by (destruct He as [[He _]|(t&He&_)]; [done|by destruct net]).
      apply parseIPv4Value_Some in Hn. vm_compute in Hn. discriminate Hn.
    + rewrite comma_loop_spec, drop_0 by lia. destruct (existsb _ _) eqn:Ex.
      * split; [intros _|done]. apply existsb_exists in Ex as (entry&Hi&He). apply eqb_prop in He.
        exists c, entry. split; [done|]. split; [by apply list_elem_of_In|]. by apply entry_allows_covers.
      * split; [done|]. intros (c'&entry&Hq'&Hi&Hcov). apply Huniq in Hq' as ->. exfalso.
        apply not_true_iff_false in Ex. apply Ex. apply existsb_exists. exists entry. split; [by apply list_elem_of_In|].
        by rewrite (proj2 (entry_allows_covers c _ Hc)).
  - split; [done|]. intros (c&entry&Hq&_). apply parseIPv4Value_Some in Hq. congruence.
Qed.

(** An address is let through exactly when it is an IPv4 literal that one
    entry of the comma-separated list covers: an IPv4 network whose first bits it
    has, or the address itself; IPv6 entries and entries that do not parse let
    nothing through. *)
Theorem allowed_ips_spec addr allowed :
  wireguard_ipv4_matches_allowed_ips addr allowed = true <->
  exists c entry, quad_text (trim addr) c /\ entry ∈ split_on (ch ",") allowed /\ covers c (trim entry).
Proof. apply allowed_spec. Qed.

(** The two IPv4 parsers of the program agree on every text: the one behind
    AllowedIPs and the one behind Tailscale's routes. *)
Theorem ipv4_parsers_agree value : parse_ipv4 value = parseIPv4Value value.
Proof. apply ipv4_value. Qed.

(** ** Files are read back *)

(** A [wg-quick] file for a configuration. *)
Definition conf_entry (key : string) (value : bytes) : bytes := bs key ++ bs " =" ++ ch " " :: value.
Definition peer_lines (q : WireGuardPeerConfig) : list bytes :=
  [bs "[Peer]"; conf_entry "PublicKey" (publicKey q); conf_entry "PresharedKey" (presharedKey q);
   conf_entry "Endpoint" (endpoint q); conf_entry "AllowedIPs" (allowedIps q);
   conf_entry "PersistentKeepalive" (to_string (persistentKeepalive q))].
Definition conf_lines (c : WireGuardConfig) : list bytes :=
  [bs "[Interface]"; conf_entry "PrivateKey" (privateKey c); conf_entry "Address" (address c); conf_entry "DNS" (dns c);
   conf_entry "ListenPort" (to_string (listenPort c)); conf_entry "MTU" (to_string (mtu c))] ++ concat (peer_lines <$> peers c).
Definition conf_text (c : WireGuardConfig) : bytes := join newline (conf_lines c ++ [[]]).

(** Values a line can hold: no comment or line ends inside, no spaces around. *)
Record clean (value : bytes) : Prop := {
  cl_chars : Forall (fun x => x <> ch "#" /\ x <> ch ";" /\ x <> newline) value;
  cl_head : forall c, head value = Some c -> is_space c = false;
  cl_last : forall c, list.last value = Some c -> is_space c = false;
}.
Definition int_ok (n : Z) : Prop := 0 <= n <= 0x7fffffff.
Record peer_ok (q : WireGuardPeerConfig) : Prop := {
  pk_key : publicKey q <> [];
  pk_clean : clean (publicKey q) /\ clean (presharedKey q) /\ clean (endpoint q) /\ clean (allowedIps q);
  pk_keepalive : int_ok (persistentKeepalive q);
}.
Record config_ok (c : WireGuardConfig) : Prop := {
  ck_clean : clean (privateKey c) /\ clean (address c) /\ clean (dns c);
  ck_port : int_ok (listenPort c);
  ck_mtu : int_ok (mtu c);
  ck_peers : Forall peer_ok (peers c);
}.

Lemma clean_digits n : 0 <= n -> clean (to_string n).
Proof.
  intros Hn. pose proof (to_string_digits n Hn) as Hd. rewrite list.Forall_forall in Hd. split.
  - apply list.Forall_forall. intros x Hx%Hd. cbv beta in Hx. split_and!; by intros ->.
  - intros c Hc. apply digit_not_space, Hd. destruct (to_string n); [done|]. injection Hc as ->. apply elem_of_cons; by left.
  - intros c Hc. apply digit_not_space, Hd. by apply list.last_Some_elem_of.
Qed.

Lemma alnum_not c x : is_alnum x = true -> is_alnum c = false -> x <> c.
Proof. intros Hx Hc ->. congruence. Qed.

Lemma alnum_not_space x : is_alnum x = true -> is_space x = false.
Proof.
  unfold is_alnum. intros [[Hd|Hu]%orb_prop|Hl]%orb_prop; [by apply digit_not_space| |];
    unfold is_upper in *; unfold is_space;
    destruct (Z.eqb_spec (ub x) 32), (Z.leb_spec 9 (ub x)), (Z.leb_spec (ub x) 13); try done; exfalso; lia.
Qed.

(** A key of the file: letters and digits. *)
Definition word (k : bytes) : Prop := k <> [] /\ Forall (fun x => is_alnum x = true) k.

Lemma word_head k c : word k -> head k = Some c -> is_alnum c = true.
Proof. intros [_ Hf] Hh. destruct k; [done|]. injection Hh as ->. by apply Forall_cons_1 in Hf as [? _]. Qed.
Lemma word_last k c : word k -> list.last k = Some c -> is_alnum c = true.
Proof. intros [_ Hf] Hl. rewrite list.Forall_forall in Hf. by apply Hf, list.last_Some_elem_of. Qed.
Lemma word_no k c : word k -> is_alnum c = false -> c ∉ k.
Proof. intros [_ Hf] Hc Hi. rewrite list.Forall_forall in Hf. apply Hf in Hi. congruence. Qed.

Lemma trim_space l : trim (ch " " :: l) = trim l.
Proof. done. Qed.

Lemma trim_snoc_space l : trim (l ++ [ch " "]) = trim l.
Proof.
  unfold trim. assert (trim_front (l ++ [ch " "]) = match trim_front l with [] => [] | t => t ++ [ch " "] end) as ->.
  { induction l as [|x l IH]; [done|]. cbn [app trim_front]. by destruct (is_space x). }
  destruct (trim_front l) as [|x t]; [done|]. unfold trim_back. by rewrite reverse_app.
Qed.

Lemma trim_clean v : clean v -> trim v = v.
Proof. intros []. by apply trim_id. Qed.

(** A line of the file, taken apart. *)
Lemma conf_line_entry p key value : word (bs key) -> clean value ->
  conf_line p (conf_entry key value) =
  match pg_section p with
  | Interface => interface_key (lower (bs key)) value p
  | PeerSection => peer_key (lower (bs key)) value p
  | NoSection => p
  end.
Proof.
  intros Hw Hc. unfold conf_line, conf_entry. set (k := bs key) in *. set (tail := ch " " :: value).
  assert (find_first_of (bs "#;") (k ++ bs " =" ++ tail) = None) as ->.
  { apply find_if_None, list.Forall_forall. intros x Hx. apply bool_decide_eq_false_2. intros Hs.
    change (bs "#;") with [ch "#"; ch ";"] in Hs. rewrite !elem_of_cons in Hs.
    assert (x = ch "#" \/ x = ch ";") as Hs' by (destruct Hs as [|[|[]%elem_of_nil]]; tauto).
    apply elem_of_app in Hx as [Hx|Hx].
    - destruct Hs' as [-> | ->]; by apply (word_no _ _ Hw) in Hx.
    - destruct Hs' as [-> | ->]; unfold tail in Hx; change (bs " =") with [ch " "; ch "="] in Hx;
        rewrite elem_of_app, !elem_of_cons in Hx; destruct Hc as [Hf _ _]; rewrite list.Forall_forall in Hf;
        destruct Hx as [[|[|[]%elem_of_nil]]|[|Hx]]; try done; by apply Hf in Hx as (?&?&?). }
  destruct (head k) as [x|] eqn:Hh; [|by destruct Hw as [Hne _]; destruct k].
  pose proof (word_head _ _ Hw Hh) as Hx.
  set (line := trim (k ++ bs " =" ++ tail)).
  assert (exists rest, line = k ++ bs " =" ++ rest /\ trim rest = value) as (rest&Eline&Erest).
  { unfold line, tail. destruct (list.last value) as [z|] eqn:Ez.
    - exists (ch " " :: value). split; [|rewrite trim_space; by apply trim_clean]. apply trim_id.
      + intros c Hc'. destruct k; [done|]. injection Hh as ->. injection Hc' as <-. by apply alnum_not_space.
      + intros c Hc'. rewrite !app_assoc in Hc'. change (ch " " :: value) with ([ch " "] ++ value) in Hc'.
        rewrite app_assoc, last_app_ne in Hc' by by destruct value. by apply (cl_last _ Hc).
    - apply list.last_None in Ez as ->. exists []. split; [|done].
      change (ch " " :: []) with [ch " "]. rewrite app_assoc, trim_snoc_space, app_nil_r. apply trim_id.
      + intros c Hc'. destruct k; [done|]. injection Hh as ->. injection Hc' as <-. by apply alnum_not_space.
      + intros c Hc'. rewrite last_app_ne in Hc' by done. by injection Hc' as <-. }
  assert (head line = Some x) as Hl by (rewrite Eline; by destruct k).
  destruct line as [|front l']; [done|]. injection Hl as ->.
  rewrite bool_decide_false by by eapply alnum_not. rewrite Eline.
  change (bs " =") with ([ch " "] ++ [ch "="]). rewrite <- app_assoc, app_assoc.
  assert (ch "=" ∉ k ++ [ch " "]) as Hno.
  { rewrite elem_of_app, list_elem_of_singleton. intros [?|?]; [by apply (word_no k (ch "=") Hw)|done]. }
  change ([ch "="] ++ rest) with (ch "=" :: rest). rewrite (find_first _ _ _ Hno).
  unfold substr, substr_from. rewrite drop_0, take_app_length, trim_snoc_space.
  assert (trim k = k) as ->.
  { apply trim_id; intros c Hc'; apply alnum_not_space; [by apply (word_head k)|by apply (word_last k)]. }
  assert (drop (length (k ++ [ch " "]) + 1) ((k ++ [ch " "]) ++ ch "=" :: rest) = rest) as ->.
  { rewrite (cons_middle (ch "=")), app_assoc. apply drop_app_length'. by rewrite !length_app. }
  by rewrite Erest.
Qed.

Lemma conf_line_header p section header : (section, header) ∈ [(Interface, bs "[Interface]"); (PeerSection, bs "[Peer]")] ->
  conf_line p header = flushPeer section p.
Proof. intros [[= -> ->]|[[= -> ->]|[]%elem_of_nil]%elem_of_cons]%elem_of_cons; reflexivity. Qed.

Lemma is_word (key : string) : bs key <> [] -> forallb is_alnum (bs key) = true -> word (bs key).
Proof. intros Hne Hf. split; [done|]. apply list.Forall_forall. intros x Hx. rewrite forallb_forall in Hf. by apply Hf, list_elem_of_In. Qed.

(** Each key's effect. *)
Section keys.
Context (value : bytes) (p : Parsing).
Abbreviation c := (pg_config p).
Abbreviation q := (pg_peer p).
Lemma key_private : interface_key (lower (bs "PrivateKey")) value p = with_config (set_texts value (address c) (dns c) c) (pg_badListenPort p) (pg_badMtu p) p.
Proof. reflexivity. Qed.
Lemma key_address : interface_key (lower (bs "Address")) value p = with_config (set_texts (privateKey c) value (dns c) c) (pg_badListenPort p) (pg_badMtu p) p.
Proof. reflexivity. Qed.
Lemma key_dns : interface_key (lower (bs "DNS")) value p = with_config (set_texts (privateKey c) (address c) value c) (pg_badListenPort p) (pg_badMtu p) p.
Proof. reflexivity. Qed.
Lemma key_port n : parse_int value = Some n ->
  interface_key (lower (bs "ListenPort")) value p = with_config (set_numbers n (mtu c) c) (pg_badListenPort p) (pg_badMtu p) p.
Proof. intros E. change (lower (bs "ListenPort")) with (bs "listenport"). unfold interface_key. by rewrite E. Qed.
Lemma key_mtu n : parse_int value = Some n ->
  interface_key (lower (bs "MTU")) value p = with_config (set_numbers (listenPort c) n c) (pg_badListenPort p) (pg_badMtu p) p.
Proof. intros E. change (lower (bs "MTU")) with (bs "mtu"). unfold interface_key. by rewrite E. Qed.
Lemma key_public : peer_key (lower (bs "PublicKey")) value p =
  with_peer {| publicKey := value; presharedKey := presharedKey q; endpoint := endpoint q; allowedIps := allowedIps q;
               persistentKeepalive := persistentKeepalive q |} (pg_badKeepalive p) p.
Proof. reflexivity. Qed.
Lemma key_psk : peer_key (lower (bs "PresharedKey")) value p =
  with_peer {| publicKey := publicKey q; presharedKey := value; endpoint := endpoint q; allowedIps := allowedIps q;
               persistentKeepalive := persistentKeepalive q |} (pg_badKeepalive p) p.
Proof. reflexivity. Qed.
Lemma key_endpoint : peer_key (lower (bs "Endpoint")) value p =
  with_peer {| publicKey := publicKey q; presharedKey := presharedKey q; endpoint := value; allowedIps := allowedIps q;
               persistentKeepalive := persistentKeepalive q |} (pg_badKeepalive p) p.
Proof. reflexivity. Qed.
Lemma key_allowed : peer_key (lower (bs "AllowedIPs")) value p =
  with_peer {| publicKey := publicKey q; presharedKey := presharedKey q; endpoint := endpoint q; allowedIps := value;
               persistentKeepalive := persistentKeepalive q |} (pg_badKeepalive p) p.
Proof. reflexivity. Qed.
Lemma key_keepalive n : parse_int value = Some n -> peer_key (lower (bs "PersistentKeepalive")) value p =
  with_peer {| publicKey := publicKey q; presharedKey := presharedKey q; endpoint := endpoint q; allowedIps := allowedIps q;
               persistentKeepalive := n |} (pg_badKeepalive p) p.
Proof. intros E. change (lower (bs "PersistentKeepalive")) with (bs "persistentkeepalive"). unfold peer_key. by rewrite E. Qed.

Lemma fold_header section header rest : (section, header) ∈ [(Interface, bs "[Interface]"); (PeerSection, bs "[Peer]")] ->
  foldl conf_line p (header :: rest) = foldl conf_line (flushPeer section p) rest.
Proof. intros Hh. cbn [foldl]. by rewrite (conf_line_header _ section). Qed.
Lemma fold_interface key rest : pg_section p = Interface -> word (bs key) -> clean value ->
  foldl conf_line p (conf_entry key value :: rest) = foldl conf_line (interface_key (lower (bs key)) value p) rest.
Proof. intros Es Hw Hc. cbn [foldl]. by rewrite conf_line_entry, Es. Qed.
Lemma fold_peer key rest : pg_section p = PeerSection -> word (bs key) -> clean value ->
  foldl conf_line p (conf_entry key value :: rest) = foldl conf_line (peer_key (lower (bs key)) value p) rest.
Proof. intros Es Hw Hc. cbn [foldl]. by rewrite conf_line_entry, Es. Qed.
End keys.

(** The state after the interface, and after each peer. *)
Lemma interface_lines c : config_ok c ->
  foldl conf_line start_parsing (take 6 (conf_lines c)) =
  {| pg_config := set_peers [] c; pg_section := Interface; pg_peer := no_peer; pg_badListenPort := false; pg_badMtu := false;
     pg_badKeepalive := false |}.
Proof.
  intros [(Ck&Ca&Cd) Hp Hm _]. unfold conf_lines. cbn [app take].
  assert (clean (to_string (listenPort c)) /\ clean (to_string (mtu c))) as [Cp Cm]
    by (split; apply clean_digits; [apply Hp|apply Hm]).
  rewrite (fold_header _ Interface) by (apply list_elem_of_In; by left).
  rewrite fold_interface, key_private, fold_interface, key_address, fold_interface, key_dns by first [done|by apply is_word].
  rewrite fold_interface, (key_port _ _ (listenPort c)), fold_interface, (key_mtu _ _ (mtu c))
    by first [done|by apply is_word|by apply parse_int_to_string]. reflexivity.
Qed.

Lemma one_peer p q : peer_ok q ->
  foldl conf_line p (peer_lines q) =
  {| pg_config := pg_config (flushPeer PeerSection p); pg_section := PeerSection; pg_peer := q;
     pg_badListenPort := pg_badListenPort p; pg_badMtu := pg_badMtu p; pg_badKeepalive := pg_badKeepalive p |}.
Proof.
  intros [_ (Ck&Cs&Ce&Ca) Hk]. unfold peer_lines. assert (clean (to_string (persistentKeepalive q))) as Cn by apply clean_digits, Hk.
  rewrite (fold_header _ PeerSection) by (apply list_elem_of_In; right; by left).
  rewrite fold_peer, key_public, fold_peer, key_psk, fold_peer, key_endpoint, fold_peer, key_allowed by first [done|by apply is_word].
  rewrite fold_peer, (key_keepalive _ _ (persistentKeepalive q)) by first [done|by apply is_word|by apply parse_int_to_string].
  cbn. by destruct q.
Qed.

(** The configuration with the peer being read. *)
Definition flushed (p : Parsing) : WireGuardConfig := pg_config (flushPeer NoSection p).

Lemma all_peers ps : forall p, Forall peer_ok ps ->
  let p' := foldl conf_line p (concat (peer_lines <$> ps)) in
  flushed p' = set_peers (peers (flushed p) ++ ps) (flushed p) /\ pg_badListenPort p' = pg_badListenPort p /\
  pg_badMtu p' = pg_badMtu p /\ pg_badKeepalive p' = pg_badKeepalive p.
Proof.
  induction ps as [|q ps IH]; intros p Hps; cbv zeta.
  - cbn [fmap list_fmap concat foldl]. rewrite app_nil_r. split; [by destruct (flushed p)|done].
  - apply Forall_cons_1 in Hps as [Hq Hps]. cbn [fmap list_fmap concat]. rewrite list.foldl_app, one_peer by done.
    set (p1 := {| pg_config := _ |}). destruct (IH p1 Hps) as (E&->&->&->). split; [|done]. rewrite E.
    assert (flushed p1 = set_peers (peers (flushed p) ++ [q]) (flushed p)) as ->.
    { unfold flushed at 1, flushPeer. cbn. by rewrite bool_decide_false by apply Hq. }
    cbn. by rewrite <- app_assoc.
Qed.

Ltac no_newline := match goal with |- ?x ∉ ?l => apply (bool_decide_eq_false_1 (x ∈ l)); reflexivity end.

Lemma conf_lines_newline c : config_ok c -> Forall (fun l => newline ∉ l) (conf_lines c).
Proof.
  intros [(Ck&Ca&Cd) [Hp _] [Hm _] Hps].
  assert (forall key v, newline ∉ bs key -> clean v -> newline ∉ conf_entry key v) as He.
  { intros key v Hk [Hf _ _] Hi. unfold conf_entry in Hi. rewrite list.Forall_forall in Hf.
    apply elem_of_app in Hi as [|Hi]; [done|]. apply elem_of_app in Hi as [Hi|Hi].
    - by apply (bool_decide_eq_true_2 (newline ∈ bs " =")) in Hi.
    - apply elem_of_cons in Hi as [?|Hi]; [done|]. by apply Hf in Hi as (_&_&?). }
  assert (forall n, 0 <= n -> clean (to_string n)) as Hd by apply clean_digits.
  unfold conf_lines. apply list.Forall_app. split.
  - repeat (apply list.Forall_cons; split); [..|by apply list.Forall_nil];
      first [apply He; [no_newline|by auto] | no_newline].
  - apply list.Forall_forall. intros l Hl. apply list_elem_of_In, in_concat in Hl as (ls&Hls&Hl).
    apply list_elem_of_In, list_elem_of_fmap in Hls as (q&->&Hq). rewrite list.Forall_forall in Hps. apply Hps in Hq as [_ (?&?&?&?) [Hk _]].
    assert (Forall (fun l => newline ∉ l) (peer_lines q)) as Hf.
    { repeat (apply list.Forall_cons; split); [..|by apply list.Forall_nil];
        first [apply He; [no_newline|by auto] | no_newline]. }
    rewrite list.Forall_forall in Hf. by apply Hf, list_elem_of_In.
Qed.

(** A configuration written as a [wg-quick] file is read back, whatever its
    peers: keys, addresses, numbers, and peers in their order. *)
Theorem parse_conf_text c : config_ok c -> parse_wireguard_conf (conf_text c) = c.
Proof.
  intros Hc. unfold parse_wireguard_conf, text_lines, conf_text.
  rewrite split_on_join; [|by destruct (conf_lines c)|].
  2: { apply list.Forall_app. split; [by apply conf_lines_newline|]. repeat constructor. by intros ?%elem_of_nil. }
  rewrite list.last_app, bool_decide_true, removelast_last by done.
  assert (conf_lines c = take 6 (conf_lines c) ++ concat (peer_lines <$> peers c)) as -> by done.
  rewrite list.foldl_app, interface_lines by done. pose proof Hc as [_ _ _ Hps].
  match goal with |- context [foldl conf_line ?p _] => destruct (all_peers (peers c) p Hps) as (E&El&Em&Ek) end.
  unfold finish_parsing. set (p := foldl conf_line _ _) in *.
  assert (pg_config (flushPeer (pg_section p) p) = c) as ->.
  { change (pg_config (flushPeer (pg_section p) p)) with (flushed p). rewrite E. by destruct c. }
  cbn [flushPeer pg_badListenPort pg_badMtu pg_badKeepalive]. rewrite El, Em, Ek. cbn. destruct c as [? ? ? ? ? [|]]; done.
Qed.

Definition ex_wg_key : bytes := replicate 42 (ch "A") ++ bs "E=".
Definition ex_wg_peer : WireGuardPeerConfig :=
  {| publicKey := ex_wg_key; presharedKey := []; endpoint := bs "vpn.example.com:51820"; allowedIps := bs "10.0.0.0/24, fd00::/8";
     persistentKeepalive := 25 |}.
Definition ex_wg_config : WireGuardConfig :=
  {| privateKey := ex_wg_key; address := bs "10.0.0.2/32"; dns := bs "1.1.1.1"; listenPort := 51820; mtu := 1420;
     peers := [ex_wg_peer; ex_wg_peer] |}.

(** A check of [clean] by computation. *)
Definition clean_dec (v : bytes) : bool :=
  forallb (fun x => negb (bool_decide (x ∈ [ch "#"; ch ";"; newline]))) v &&
  match head v with Some c => negb (is_space c) | None => true end &&
  match list.last v with Some c => negb (is_space c) | None => true end.
Lemma clean_by_dec v : clean_dec v = true -> clean v.
Proof.
  intros [[Hf Hh]%andb_prop Hl]%andb_prop. split.
  - apply list.Forall_forall. intros x Hx. rewrite forallb_forall in Hf. apply list_elem_of_In, Hf in Hx.
    apply negb_true_iff, bool_decide_eq_false_1 in Hx. rewrite !elem_of_cons in Hx. tauto.
  - intros c E. rewrite E in Hh. by destruct (is_space c).
  - intros c E. rewrite E in Hl. by destruct (is_space c).
Qed.

Lemma parse_conf_text_witness : parse_wireguard_conf (conf_text ex_wg_config) = ex_wg_config.
Proof.
  apply parse_conf_text.
  assert (peer_ok ex_wg_peer) as Hp.
  { split; [discriminate| |split; discriminate]. split_and!; apply clean_by_dec; vm_compute; reflexivity. }
  split; [split_and!; apply clean_by_dec; vm_compute; reflexivity|split; discriminate..|].
  constructor; [exact Hp|]. constructor; [exact Hp|]. constructor.
Defined.

(** ** What the parser also does *)

Lemma conf_line_keys p line : Forall (fun q => publicKey q <> []) (peers (pg_config p)) ->
  Forall (fun q => publicKey q <> []) (peers (pg_config (conf_line p line))).
Proof.
  intros Hp. assert (forall s, Forall (fun q => publicKey q <> []) (peers (pg_config (flushPeer s p)))) as Hflush.
  { intros s. unfold flushPeer. cbn. destruct (pg_section p); [done..|]. case_bool_decide; [done|].
    cbn. apply list.Forall_app. split; [done|]. by constructor. }
  unfold conf_line. destruct (trim _) as [|x l]; [done|]. destruct (bool_decide (x = ch "[")).
  { destruct (bool_decide _); [apply Hflush|]. destruct (bool_decide _); apply Hflush. }
  destruct (find (ch "=") (x :: l)); [|done]. cbv zeta. destruct (pg_section p); [done| |].
  - unfold interface_key. repeat (destruct (bool_decide _); [done || by destruct (parse_int _)|]). done.
  - unfold peer_key. repeat (destruct (bool_decide _); [done || by destruct (parse_int _)|]). done.
Qed.

(** A peer without a key never reaches validation: [MissingPeerPublicKey], which
    the settings screen has a text for, cannot be the answer for a file. *)
Theorem missing_peer_key_unreachable text : validate (parse_wireguard_conf text) <> MissingPeerPublicKey.
Proof.
  assert (Forall (fun q => publicKey q <> []) (peers (parse_wireguard_conf text))) as Hp.
  { unfold parse_wireguard_conf. set (p := foldl _ _ _).
    assert (Forall (fun q => publicKey q <> []) (peers (pg_config p))) as Hp.
    { unfold p. assert (Forall (fun q => publicKey q <> []) (peers (pg_config start_parsing))) as Hs by constructor.
      revert Hs. generalize start_parsing. induction (text_lines text) as [|l ls IH]; intros p0 Hp0; [done|].
      cbn [foldl]. by apply IH, conf_line_keys. }
    unfold finish_parsing. assert (Forall (fun q => publicKey q <> []) (peers (flushed p))) as Hf.
    { unfold flushed, flushPeer. cbn. destruct (pg_section p); [done..|]. case_bool_decide; [done|].
      cbn. apply list.Forall_app. split; [done|]. by constructor. }
    change (peers (set_numbers ?a ?b (pg_config (flushPeer (pg_section p) p)))) with (peers (flushed p)).
    pose proof Hf as Hf'. destruct (peers (flushed p)) as [|q qs] eqn:E in Hf |- *; [exact Hf'|].
    destruct (pg_badKeepalive _); [|exact Hf']. apply Forall_cons_1 in Hf as [Hq Hqs]. by constructor. }
  assert (forall ps, Forall (fun q => publicKey q <> []) ps -> validate_peers ps <> MissingPeerPublicKey) as Hv.
  { induction 1 as [|q qs Hq _ IH]; [done|]. cbn [validate_peers]. rewrite bool_decide_false by done.
    repeat (destruct (_ : bool); [done|]). done. }
  unfold validate. repeat (case_match; try done). intros E. destruct (Hv _ Hp). congruence.
Qed.

(** So a second [Peer] section without a key goes unnoticed. *)
Example keyless_peer_unnoticed :
  let text := join newline [bs "[Interface]"; conf_entry "PrivateKey" ex_wg_key; conf_entry "Address" (bs "10.0.0.2/32");
    bs "[Peer]"; conf_entry "PublicKey" ex_wg_key; bs "[Peer]"; conf_entry "Endpoint" (bs "other.example.com:1")] in
  validate (parse_wireguard_conf text) = NoProblem /\ length (peers (parse_wireguard_conf text)) = 1%nat.
Proof. vm_compute. done. Qed.

(** [wg-quick] adds up repeated AllowedIPs and Address lines; here the last one
    wins, so hosts of the first network are not routed. *)
Example repeated_allowed_ips :
  let text := join newline [bs "[Peer]"; conf_entry "PublicKey" ex_wg_key; conf_entry "AllowedIPs" (bs "10.0.0.0/24");
    conf_entry "AllowedIPs" (bs "192.168.1.0/24")] in
  map (fun q => wireguard_ipv4_matches_allowed_ips (bs "10.0.0.7") (allowedIps q)) (peers (parse_wireguard_conf text)) = [false].
Proof. vm_compute. done. Qed.
