(* ===== verification/WireGuardTunnel.v ===== *)
(** The standalone WireGuard provider on the Switch: the tunnel object
    ([vpn/wg_nx_real.cpp]) over the wg-nx library and its lwIP relay, the manager
    that owns it ([vpn/WireGuardManager.cpp]) and the provider the route manager
    sees ([providers/WireGuardProvider.cpp]). A method of the manager holds its
    mutex and is one step. *)

From S2P Require Import Prelude Text Types PeerDirectory WireGuardConfig.

(** ** The libraries *)

(** What [wg_init] is given. *)
Record WgConfig := {
  private_key : bytes;
  peer_public_key : bytes;
  preshared_key : option bytes;
  tunnel_ip : Z;
  endpoint_host : bytes;
  endpoint_port : Z;
  keepalive_interval : Z;
}.

(** The calls on wg-nx and on the relay, with what they answered. *)
Inductive wg_call :=
| WgInit (config : WgConfig) (made : bool)
| WgConnect (ok : bool)
| WgStart (ok : bool)
| WgGetIp
| WgStop
| WgClose
| RelayNew
| RelayStart (local host : bytes) (ok : bool)
| RelayTcp (port : Z) (ok : bool)
| RelayUdp (port : Z) (ok : bool)
| RelayIsRunning
| RelayDelete.

(** What the libraries answer during a call. *)
Record Answers := {
  an_init : bool;
  an_connect : bool;
  an_start : bool;
  an_ip : option bytes;
  an_relay_start : bool;
  an_relay_running : bool;
  an_tcp : Z -> bool;
  an_udp : Z -> bool;
}.

(** ** The tunnel *)

Record WgNxTunnel := {
  config : WireGuardConfig;
  tunnel : bool;
  running : bool;
  resolvedAddress : bytes;
  relay : bool;
  activeTarget : bytes;
  udpPrepared : bool;
}.

Definition with_tunnel (made up : bool) (resolved : bytes) (t : WgNxTunnel) : WgNxTunnel :=
  {| config := config t; tunnel := made; running := up; resolvedAddress := resolved; relay := relay t;
     activeTarget := activeTarget t; udpPrepared := udpPrepared t |}.
Definition with_relay (up : bool) (target : bytes) (prepared : bool) (t : WgNxTunnel) : WgNxTunnel :=
  {| config := config t; tunnel := tunnel t; running := running t; resolvedAddress := resolvedAddress t; relay := up;
     activeTarget := target; udpPrepared := prepared |}.

Definition kTcpPorts : list Z := [47989; 47984; 48010].
Definition kUdpPorts : list Z := [47998; 48000; 47999; 48002; 48010].

(** What a callee reads of a [c_str()]. *)
Definition c_str (s : bytes) : bytes := take_while (fun x => negb (bool_decide (x = Init.Byte.x00))) s.

Definition address_host_part (address : bytes) : bytes :=
  match find (ch "/") address with None => address | Some slash => substr 0 slash address end.

(** [std::strtol] in base ten: 0 when there is no number. *)
Definition strtol (l : bytes) : Z :=
  let rest := drop (length (take_while HostAddress.is_space l)) l in
  let negative := bool_decide (head rest = Some (ch "-")) in
  let signed := negative || bool_decide (head rest = Some (ch "+")) in
  let v := dec_value (take_while is_digit (if signed then drop 1 rest else rest)) in
  Z.max (- 2 ^ 63) (Z.min (2 ^ 63 - 1) (if negative then - v else v)).

Definition split_endpoint (endpoint : bytes) : option (bytes * Z) :=
  if bool_decide (endpoint = []) || bool_decide (head endpoint = Some (ch "[")) then None
  else
    match rfind (ch ":") endpoint with
    | None => None
    | Some colon =>
        if (colon =? 0)%nat || (length endpoint <=? colon + 1)%nat then None
        else
          let parsed := strtol (c_str (substr_from (colon + 1) endpoint)) in
          if (parsed <=? 0) || (65535 <? parsed) then None else Some (substr 0 colon endpoint, u16 parsed)
    end.

Section tunnel.
(** [wg_key_from_base64], [inet_pton(AF_INET, ...)], and the size of
    [WgConfig::endpoint_host]. *)
Context (key_from_base64 : bytes -> option bytes) (inet_pton : bytes -> option Z) (host_size : nat).

(** The secrets of a configuration, scrubbed. *)
Definition scrub_config (c : WireGuardConfig) : WireGuardConfig :=
  {| privateKey := []; address := address c; dns := dns c; listenPort := listenPort c; mtu := mtu c;
     peers := (fun q => {| publicKey := publicKey q; presharedKey := []; endpoint := endpoint q; allowedIps := allowedIps q;
                           persistentKeepalive := persistentKeepalive q |}) <$> peers c |}.

(** The [WgConfig] for a valid configuration. *)
Definition wg_config (c : WireGuardConfig) (peer : WireGuardPeerConfig) : option WgConfig :=
  priv ← key_from_base64 (c_str (privateKey c));
  pub ← key_from_base64 (c_str (publicKey peer));
  psk ← (if bool_decide (presharedKey peer = []) then Some None else Some <$> key_from_base64 (c_str (presharedKey peer)));
  ip ← inet_pton (c_str (address_host_part (address c)));
  '(host, port) ← split_endpoint (endpoint peer);
  Some {| private_key := priv; peer_public_key := pub; preshared_key := psk; tunnel_ip := ip;
          endpoint_host := take (host_size - 1) (c_str host); endpoint_port := port;
          keepalive_interval := if 0 <? persistentKeepalive peer then u16 (persistentKeepalive peer) else 25 |}.

Definition wg_nx_tunnel_create (conf_text : bytes) (a : Answers) : option WgNxTunnel * list wg_call :=
  let c := parse_wireguard_conf conf_text in
  if negb (config_valid c) then (None, [])
  else
    match peers c with
    | [] => (None, [])
    | peer :: _ =>
        match wg_config c peer with
        | None => (None, [])
        | Some wg =>
            let calls := [WgInit wg (an_init a)] in
            if an_init a
            then (Some {| config := scrub_config c; tunnel := true; running := false; resolvedAddress := []; relay := false;
                          activeTarget := []; udpPrepared := false |}, calls)
            else (None, calls)
        end
    end.

Definition clear_relay (t : WgNxTunnel) : WgNxTunnel * list wg_call :=
  (with_relay false [] false t, if relay t then [RelayDelete] else []).

(** The result is the C status code. *)
Definition wg_nx_tunnel_start (a : Answers) (t : WgNxTunnel) : Z * WgNxTunnel * list wg_call :=
  if negb (tunnel t) then (-1, t, [])
  else if running t then (0, t, [])
  else if negb (an_connect a) then (-1, t, [WgConnect false])
  else if negb (an_start a) then (-1, t, [WgConnect true; WgStart false; WgStop])
  else (0, with_tunnel true true (match an_ip a with Some text => text | None => resolvedAddress t end) t,
        [WgConnect true; WgStart true; WgGetIp]).

Definition wg_nx_tunnel_can_route (ipv4 : bytes) (t : WgNxTunnel) : bool :=
  if negb (running t) then false
  else match peers (config t) with
       | [peer] => wireguard_ipv4_matches_allowed_ips ipv4 (allowedIps peer)
       | _ => false end.

(** The listeners until one fails. *)
Fixpoint open_ports (answer : Z -> bool) (call : Z -> bool -> wg_call) (ports : list Z) : bool * list wg_call :=
  match ports with
  | [] => (true, [])
  | port :: rest =>
      if answer port then let '(ok, calls) := open_ports answer call rest in (ok, call port true :: calls)
      else (false, [call port false])
  end.

Definition wg_nx_tunnel_activate_route (ipv4 : bytes) (a : Answers) (t : WgNxTunnel) : Z * WgNxTunnel * list wg_call :=
  if negb (wg_nx_tunnel_can_route ipv4 t) then (-1, t, [])
  else
    let asked := relay t && bool_decide (activeTarget t = ipv4) in
    let query := if asked then [RelayIsRunning] else [] in
    if asked && an_relay_running a then (0, t, query)
    else
      let '(t, cleared) := clear_relay t in
      let local := if bool_decide (resolvedAddress t = []) then address_host_part (address (config t)) else resolvedAddress t in
      let calls := query ++ cleared ++ [RelayNew; RelayStart local ipv4 (an_relay_start a)] in
      if negb (an_relay_start a) then (-2, t, calls ++ [RelayDelete])
      else
        let '(ok, opened) := open_ports (an_tcp a) RelayTcp kTcpPorts in
        if ok then (0, with_relay true ipv4 false t, calls ++ opened)
        else (-3, t, calls ++ opened ++ [RelayDelete]).

Definition wg_nx_tunnel_prepare_stream (ipv4 : bytes) (a : Answers) (t : WgNxTunnel) : Z * WgNxTunnel * list wg_call :=
  let query := if relay t then [RelayIsRunning] else [] in
  if negb (relay t) || negb (an_relay_running a) || negb (bool_decide (activeTarget t = ipv4)) then (-1, t, query)
  else if udpPrepared t then (0, t, query)
  else
    let '(ok, opened) := open_ports (an_udp a) RelayUdp kUdpPorts in
    if ok then (0, with_relay true (activeTarget t) true t, query ++ opened) else (-2, t, query ++ opened).

Definition wg_nx_tunnel_deactivate_route (ipv4 : bytes) (t : WgNxTunnel) : WgNxTunnel * list wg_call :=
  if bool_decide (activeTarget t = ipv4) then clear_relay t else (t, []).

Definition wg_nx_tunnel_stop (t : WgNxTunnel) : WgNxTunnel * list wg_call :=
  if negb (tunnel t) || negb (running t) then (t, [])
  else
    let '(t, calls) := clear_relay t in
    (with_tunnel (tunnel t) false (resolvedAddress t) t, calls ++ [WgStop]).

Definition wg_nx_tunnel_destroy (t : WgNxTunnel) : list wg_call :=
  let '(t, calls) := wg_nx_tunnel_stop t in
  calls ++ (if tunnel t then [WgClose] else []) ++ (if relay t then [RelayDelete] else []).

Definition wg_nx_tunnel_address (t : WgNxTunnel) : bytes :=
  if bool_decide (resolvedAddress t = []) then c_str (address (config t)) else c_str (resolvedAddress t).

(** ** The manager *)

Inductive Status := Disabled | Unavailable | Stopped | Starting | Running | Error.
Record WireGuardManager := {
  status_ : Status;
  tunnelAddress_ : bytes;
  lastError_ : string;
  tunnel_ : option WgNxTunnel;
}.
Definition fresh_manager : WireGuardManager :=
  {| status_ := Disabled; tunnelAddress_ := []; lastError_ := ""; tunnel_ := None |}.
Implicit Types m : WireGuardManager.

Definition disable_locked m : WireGuardManager * list wg_call :=
  ({| status_ := status_ m; tunnelAddress_ := []; lastError_ := ""; tunnel_ := None |},
   match tunnel_ m with Some t => wg_nx_tunnel_destroy t | None => [] end).

(** The state an error of [enable_from_settings] leaves. *)
Definition enable_failed (status : Status) (error : string) : WireGuardManager :=
  {| status_ := status; tunnelAddress_ := []; lastError_ := error; tunnel_ := None |}.

(** [text] is what [load_text_file] gave, [real] whether wg-nx is linked. *)
Definition enable_from_settings (text : bytes) (real : bool) (a : Answers) m : bool * WireGuardManager * list wg_call :=
  let '(m, calls) := disable_locked m in
  if bool_decide (text = []) then (false, enable_failed Error "artemis/settings/wireguard_error_unreadable", calls)
  else
    let problem := validate (parse_wireguard_conf text) in
    if negb (bool_decide (problem = NoProblem)) then (false, enable_failed Error (wireguard_problem_i18n_key problem), calls)
    else if negb real then (false, enable_failed Unavailable "", calls)
    else
      let '(made, more) := wg_nx_tunnel_create (c_str text) a in
      let calls := calls ++ more in
      match made with
      | None => (false, enable_failed Error "artemis/settings/wireguard_error_rejected", calls)
      | Some t =>
          let '(rc, t, more) := wg_nx_tunnel_start a t in
          let calls := calls ++ more in
          if negb (rc =? 0)
          then (false, enable_failed Error "artemis/settings/wireguard_error_start_failed", calls ++ wg_nx_tunnel_destroy t)
          else (true, {| status_ := Running; tunnelAddress_ := address_host_part (wg_nx_tunnel_address t); lastError_ := "";
                         tunnel_ := Some t |}, calls)
      end.

Definition disable m : WireGuardManager * list wg_call :=
  let '(m, calls) := disable_locked m in
  ({| status_ := Stopped; tunnelAddress_ := tunnelAddress_ m; lastError_ := lastError_ m; tunnel_ := tunnel_ m |}, calls).

Definition is_running (s : Status) : bool := match s with Running => true | _ => false end.

Definition can_route_address (address : bytes) m : bool :=
  match tunnel_ m with Some t => is_running (status_ m) && wg_nx_tunnel_can_route (c_str address) t | None => false end.

(** [activate_route] and [prepare_route_for_streaming]: a call on the tunnel, and
    what its status code does to [lastError_]. *)
Definition route_call (f : WgNxTunnel -> Z * WgNxTunnel * list wg_call) m : bool * WireGuardManager * list wg_call :=
  let failed t := {| status_ := status_ m; tunnelAddress_ := tunnelAddress_ m;
                     lastError_ := "artemis/settings/wireguard_proxy_failed"; tunnel_ := t |} in
  match tunnel_ m with
  | None => (false, failed None, [])
  | Some t =>
      if negb (is_running (status_ m)) then (false, failed (Some t), [])
      else
        let '(rc, t, calls) := f t in
        if rc =? 0
        then (true, {| status_ := status_ m; tunnelAddress_ := tunnelAddress_ m; lastError_ := ""; tunnel_ := Some t |}, calls)
        else (false, failed (Some t), calls)
  end.
Definition activate_route (address : bytes) (a : Answers) m := route_call (wg_nx_tunnel_activate_route (c_str address) a) m.
Definition prepare_route_for_streaming (address : bytes) (a : Answers) m := route_call (wg_nx_tunnel_prepare_stream (c_str address) a) m.

Definition deactivate_route (address : bytes) m : WireGuardManager * list wg_call :=
  match tunnel_ m with
  | None => (m, [])
  | Some t =>
      let '(t, calls) := wg_nx_tunnel_deactivate_route (c_str address) t in
      ({| status_ := status_ m; tunnelAddress_ := tunnelAddress_ m; lastError_ := lastError_ m; tunnel_ := Some t |}, calls)
  end.

(** ** The provider *)

Definition provider_resolveRoute (address : bytes) m : option RemoteRouteTarget :=
  if can_route_address address m
  then Some {| rt_peerId := bs "wireguard:peer0"; rt_peerAddress := address; rt_targetAddress := address;
               rt_connectAddress := bs "127.0.0.1"; rt_mode := Proxy |}
  else None.
(** [selected]: is WireGuard the provider of the settings? *)
Definition provider_start (selected : bool) (text : bytes) (real : bool) (a : Answers) m : bool * WireGuardManager * list wg_call :=
  if negb selected then (false, m, []) else enable_from_settings text real a m.
Definition provider_activateRoute (target : RemoteRouteTarget) := activate_route (rt_peerAddress target).
Definition provider_prepareRouteForStreaming (target : RemoteRouteTarget) := prepare_route_for_streaming (rt_peerAddress target).
Definition provider_deactivateRoute (target : RemoteRouteTarget) := deactivate_route (rt_peerAddress target).

(** ** Every sequence of calls *)

Inductive mop :=
| MEnable (text : bytes) (real : bool) (a : Answers)
| MDisable
| MActivate (address : bytes) (a : Answers)
| MPrepare (address : bytes) (a : Answers)
| MDeactivate (address : bytes).
Definition mstep (o : mop) m : WireGuardManager * list wg_call :=
  match o with
  | MEnable text real a => let '(_, m, calls) := enable_from_settings text real a m in (m, calls)
  | MDisable => disable m
  | MActivate address a => let '(_, m, calls) := activate_route address a m in (m, calls)
  | MPrepare address a => let '(_, m, calls) := prepare_route_for_streaming address a m in (m, calls)
  | MDeactivate address => deactivate_route address m
  end.
Fixpoint mrun (os : list mop) m : WireGuardManager * list wg_call :=
  match os with
  | [] => (m, [])
  | o :: rest => let '(m, calls) := mstep o m in let '(m, more) := mrun rest m in (m, calls ++ more)
  end.

(** The objects of the libraries: the tunnel, is it started, the relay, is it
    started. *)
Record WgObjects := { wo_tunnel : bool; wo_up : bool; wo_relay : bool; wo_serving : bool }.
Definition no_objects : WgObjects := {| wo_tunnel := false; wo_up := false; wo_relay := false; wo_serving := false |}.

(** The order the libraries ask for: everything on an object that exists, the
    relay only on a started tunnel and gone before the tunnel is stopped or
    closed, ports only on a started relay. *)
Definition wg_next (c : wg_call) (o : WgObjects) : option WgObjects :=
  let ok (b : bool) r := if b then Some r else None in
  match c with
  | WgInit _ made => ok (negb (wo_tunnel o)) {| wo_tunnel := made; wo_up := false; wo_relay := false; wo_serving := false |}
  | WgConnect _ => ok (wo_tunnel o && negb (wo_up o)) o
  | WgStart up => ok (wo_tunnel o && negb (wo_up o)) {| wo_tunnel := true; wo_up := up; wo_relay := false; wo_serving := false |}
  | WgGetIp => ok (wo_up o) o
  | WgStop => ok (wo_tunnel o && negb (wo_relay o)) {| wo_tunnel := true; wo_up := false; wo_relay := false; wo_serving := false |}
  | WgClose => ok (wo_tunnel o && negb (wo_up o) && negb (wo_relay o)) no_objects
  | RelayNew => ok (wo_up o && negb (wo_relay o)) {| wo_tunnel := wo_tunnel o; wo_up := true; wo_relay := true; wo_serving := false |}
  | RelayStart _ _ up => ok (wo_relay o && negb (wo_serving o)) {| wo_tunnel := wo_tunnel o; wo_up := wo_up o; wo_relay := true; wo_serving := up |}
  | RelayTcp _ _ | RelayUdp _ _ | RelayIsRunning => ok (wo_serving o) o
  | RelayDelete => ok (wo_relay o) {| wo_tunnel := wo_tunnel o; wo_up := wo_up o; wo_relay := false; wo_serving := false |}
  end.
Fixpoint wg_run (calls : list wg_call) (o : WgObjects) : option WgObjects :=
  match calls with [] => Some o | c :: rest => o ← wg_next c o; wg_run rest o end.

Definition objects m : WgObjects :=
  match tunnel_ m with
  | Some t => {| wo_tunnel := tunnel t; wo_up := running t; wo_relay := relay t; wo_serving := relay t |}
  | None => no_objects
  end.

Lemma wg_run_app a b o : wg_run (a ++ b) o = wg_run a o ≫= wg_run b.
Proof. revert o. induction a as [|c a IH]; intros o; cbn; [done|]. destruct (wg_next c o); cbn; [apply IH|done]. Qed.

(** A tunnel the manager owns: up, with one peer, without its secrets, and with a
    relay only to a host the peer's AllowedIPs let through. *)
Record tunnel_ok (t : WgNxTunnel) : Prop := {
  tk_tunnel : tunnel t = true;
  tk_running : running t = true;
  tk_private : privateKey (config t) = [];
  tk_peer : exists peer, peers (config t) = [peer] /\ presharedKey peer = [] /\
    (relay t = true -> wireguard_ipv4_matches_allowed_ips (activeTarget t) (allowedIps peer) = true);
  tk_idle : relay t = false -> activeTarget t = [] /\ udpPrepared t = false;
}.
Definition manager_ok m : Prop :=
  match tunnel_ m with
  | Some t => status_ m = Running /\ tunnel_ok t
  | None => status_ m <> Running /\ status_ m <> Starting /\ tunnelAddress_ m = []
  end.

Lemma open_ports_run answer call ports o : (forall port ok, wg_next (call port ok) o = Some o) ->
  wg_run (open_ports answer call ports).2 o = Some o.
Proof.
  intros Hc. induction ports as [|port ports IH]; [done|]. cbn [open_ports].
  destruct (answer port); [destruct (open_ports answer call ports)|]; cbn [snd wg_run]; rewrite Hc; done.
Qed.

Lemma destroy_run t : tunnel_ok t ->
  wg_run (wg_nx_tunnel_destroy t) {| wo_tunnel := tunnel t; wo_up := running t; wo_relay := relay t; wo_serving := relay t |} = Some no_objects.
Proof. intros [Et Er _ _ _]. unfold wg_nx_tunnel_destroy, wg_nx_tunnel_stop, clear_relay. rewrite Et, Er. cbn. rewrite Et. by destruct (relay t). Qed.

Lemma disable_locked_run m : manager_ok m -> wg_run (disable_locked m).2 (objects m) = Some no_objects.
Proof. unfold manager_ok, objects, disable_locked. destruct (tunnel_ m) as [t|]; [|done]. intros [_ Ht]. exact (destroy_run t Ht). Qed.

Lemma valid_one_peer c : config_valid c = true -> exists peer, peers c = [peer].
Proof.
  unfold config_valid, validate. intros Hv%bool_decide_eq_true. repeat (case_match; try done).
  destruct (peers c) as [|p [|q ps]]; [done|by exists p|]. done.
Qed.

(** A tunnel just made and started. *)
Lemma create_start text a t calls rc t' more : wg_nx_tunnel_create text a = (Some t, calls) ->
  wg_nx_tunnel_start a t = (rc, t', more) ->
  exists wg, calls = [WgInit wg true] /\
  if rc =? 0
  then tunnel_ok t' /\ relay t' = false /\ wg_run more {| wo_tunnel := true; wo_up := false; wo_relay := false; wo_serving := false |} =
         Some {| wo_tunnel := true; wo_up := true; wo_relay := false; wo_serving := false |}
  else wg_run (more ++ wg_nx_tunnel_destroy t') {| wo_tunnel := true; wo_up := false; wo_relay := false; wo_serving := false |} = Some no_objects.
Proof.
  unfold wg_nx_tunnel_create. destruct (config_valid (parse_wireguard_conf text)) eqn:Hv; cbn [negb]; [|done].
  apply valid_one_peer in Hv as [peer Ep]. rewrite Ep. destruct (wg_config _ peer) as [wg|]; [|done].
  destruct (an_init a); [|done]. intros [= <- <-]. unfold wg_nx_tunnel_start. cbn [tunnel running negb].
  intros E. exists wg. split; [done|]. destruct (an_connect a); cbn [negb] in E; [|by injection E as <- <- <-].
  destruct (an_start a); cbn [negb] in E; [|by injection E as <- <- <-]. injection E as <- <- <-. cbn [Z.eqb].
  split; [|done]. split; cbn; [done..| |done]. rewrite Ep. cbn. eexists. split_and!; done.
Qed.

(** What a step keeps. *)
Definition keeps m m' (calls : list wg_call) : Prop := manager_ok m' /\ wg_run calls (objects m) = Some (objects m').

Lemma enable_keeps text real a m ok m' calls : enable_from_settings text real a m = (ok, m', calls) -> manager_ok m -> keeps m m' calls.
Proof.
  intros E Hm. pose proof (disable_locked_run m Hm) as Hd. unfold enable_from_settings in E.
  destruct (disable_locked m) as [m0 calls0]. cbn [snd] in Hd.
  assert (forall status e, status <> Running -> status <> Starting -> forall more, wg_run more no_objects = Some no_objects ->
    keeps m (enable_failed status e) (calls0 ++ more)) as Hfail.
  { intros status e H1 H2 more Hmore. split; [done|]. rewrite wg_run_app, Hd. exact Hmore. }
  destruct (bool_decide (text = [])).
  { injection E as <- <- <-. rewrite <- (app_nil_r calls0). by apply Hfail. }
  destruct (negb (bool_decide (validate _ = NoProblem))).
  { injection E as <- <- <-. rewrite <- (app_nil_r calls0). by apply Hfail. }
  destruct (negb real). { injection E as <- <- <-. rewrite <- (app_nil_r calls0). by apply Hfail. }
  destruct (wg_nx_tunnel_create (c_str text) a) as [[t|] more] eqn:Ec.
  2: { injection E as <- <- <-. apply Hfail; [done..|]. unfold wg_nx_tunnel_create in Ec.
       destruct (negb _); [by injection Ec as <-|]. destruct (peers _); [by injection Ec as <-|].
       destruct (wg_config _ _); [|by injection Ec as <-]. destruct (an_init a); [done|]. by injection Ec as <-. }
  destruct (wg_nx_tunnel_start a t) as [[rc t'] more'] eqn:Es.
  destruct (create_start _ _ _ _ _ _ _ Ec Es) as (wg&->&Hr). destruct (rc =? 0); cbn [negb] in E.
  - destruct Hr as (Ht&Hrel&Hrun). injection E as <- <- <-. split; [by split|].
    rewrite <- app_assoc, wg_run_app, Hd. cbn [mbind option_bind app wg_run wg_next negb no_objects wo_tunnel].
    rewrite Hrun. unfold objects. cbn. destruct Ht as [-> -> _ _ _]. by rewrite Hrel.
  - injection E as <- <- <-. rewrite <- !app_assoc. apply Hfail; [done..|]. cbn [app wg_run wg_next negb no_objects wo_tunnel mbind option_bind].
    exact Hr.
Qed.

Lemma clear_relay_ok t t' calls : clear_relay t = (t', calls) -> tunnel_ok t ->
  tunnel_ok t' /\ relay t' = false /\ config t' = config t /\ running t' = running t /\
  wg_run calls {| wo_tunnel := true; wo_up := true; wo_relay := relay t; wo_serving := relay t |} =
    Some {| wo_tunnel := true; wo_up := true; wo_relay := false; wo_serving := false |}.
Proof.
  intros [= <- <-] [Et Er Ep (peer&Epeer&Epsk&_) _]. split; [|split; [done|]; split; [done|]; split; [done|]; by destruct (relay t)].
  split; cbn; try done. exists peer. by split_and!.
Qed.

(** A call on a tunnel that keeps it. *)
Definition tunnel_keeps (f : WgNxTunnel -> Z * WgNxTunnel * list wg_call) : Prop :=
  forall t rc t' calls, f t = (rc, t', calls) -> tunnel_ok t ->
    tunnel_ok t' /\ wg_run calls {| wo_tunnel := true; wo_up := true; wo_relay := relay t; wo_serving := relay t |} =
      Some {| wo_tunnel := true; wo_up := true; wo_relay := relay t'; wo_serving := relay t' |}.

Lemma route_call_keeps f m ok m' calls : tunnel_keeps f -> route_call f m = (ok, m', calls) -> manager_ok m -> keeps m m' calls.
Proof.
  intros Hf E Hm. unfold route_call in E. unfold keeps, manager_ok, objects in *. destruct (tunnel_ m) as [t|] eqn:Et.
  - destruct Hm as [Es Ht]. rewrite Es in E. cbn [is_running negb] in E. destruct (f t) as [[rc t'] calls'] eqn:Ef.
    destruct (Hf _ _ _ _ Ef Ht) as [Ht' Hr]. pose proof Ht as [Et1 Er1 _ _ _]. pose proof Ht' as [Et2 Er2 _ _ _].
    destruct (rc =? 0); injection E as <- <- <-; cbn; rewrite Et1, Er1, Et2, Er2; by rewrite Hr.
  - injection E as <- <- <-. by cbn.
Qed.

(** The part of an activation after the old relay is gone. *)
Lemma activate_tail ipv4 a t query t1 cleared rc t' calls :
  wg_nx_tunnel_can_route ipv4 t = true -> tunnel_ok t1 -> relay t1 = false -> config t1 = config t ->
  wg_run (query ++ cleared) {| wo_tunnel := true; wo_up := true; wo_relay := relay t; wo_serving := relay t |} =
    Some {| wo_tunnel := true; wo_up := true; wo_relay := false; wo_serving := false |} ->
  (let local := if bool_decide (resolvedAddress t1 = []) then address_host_part (address (config t1)) else resolvedAddress t1 in
   let calls := query ++ cleared ++ [RelayNew; RelayStart local ipv4 (an_relay_start a)] in
   if negb (an_relay_start a) then (-2, t1, calls ++ [RelayDelete])
   else
     let '(ok, opened) := open_ports (an_tcp a) RelayTcp kTcpPorts in
     if ok then (0, with_relay true ipv4 false t1, calls ++ opened)
     else (-3, t1, calls ++ opened ++ [RelayDelete])) = (rc, t', calls) ->
  tunnel_ok t' /\ wg_run calls {| wo_tunnel := true; wo_up := true; wo_relay := relay t; wo_serving := relay t |} =
    Some {| wo_tunnel := true; wo_up := true; wo_relay := relay t'; wo_serving := relay t' |}.
Proof.
  intros Hcan Ht1 Hr1 Ecfg Hrun. cbv zeta. rewrite app_assoc. revert Hrun. generalize (query ++ cleared) as pre. intros pre Hrun.
  pose proof (open_ports_run (an_tcp a) RelayTcp kTcpPorts {| wo_tunnel := true; wo_up := true; wo_relay := true; wo_serving := true |}
    (fun _ _ => eq_refl)) as Ho.
  destruct (an_relay_start a); cbn [negb].
  - destruct (open_ports (an_tcp a) RelayTcp kTcpPorts) as [ok opened]. cbn [snd] in Ho.
    destruct ok; intros [= <- <- <-]; rewrite !wg_run_app, Hrun; cbn [mbind option_bind wg_run wg_next andb negb wo_up wo_relay wo_tunnel wo_serving].
    + rewrite Ho. split; [|done]. destruct Ht1 as [Et Er Ep (peer&Epeer&Epsk&_) _]. split; cbn; try done.
      exists peer. split_and!; try done. intros _. unfold wg_nx_tunnel_can_route in Hcan. rewrite <- Ecfg, Epeer in Hcan.
      by destruct (negb (running t)).
    + rewrite wg_run_app, Ho. cbn [mbind option_bind wg_run wg_next wo_relay]. by rewrite Hr1.
  - intros [= <- <- <-]. rewrite !wg_run_app, Hrun. cbn. by rewrite Hr1.
Qed.

Lemma activate_keeps ipv4 a : tunnel_keeps (wg_nx_tunnel_activate_route ipv4 a).
Proof.
  intros t rc t' calls E Ht. unfold wg_nx_tunnel_activate_route in E.
  destruct (wg_nx_tunnel_can_route ipv4 t) eqn:Hcan; cbn [negb] in E; [|by injection E as <- <- <-].
  destruct (relay t && bool_decide (activeTarget t = ipv4)) eqn:Ea.
  { apply andb_prop in Ea as [Er _]. cbn [andb] in E. destruct (an_relay_running a).
    - injection E as <- <- <-. split; [done|]. by rewrite Er.
    - destruct (clear_relay t) as [t1 cleared] eqn:Ec. destruct (clear_relay_ok _ _ _ Ec Ht) as (Ht1&Hr1&Ecfg&_&Hrun).
      apply (activate_tail ipv4 a t [RelayIsRunning] t1 cleared rc t' calls); try done.
      cbn [app wg_run wg_next wo_serving]. rewrite Er in Hrun |- *. exact Hrun. }
  cbn [andb] in E. destruct (clear_relay t) as [t1 cleared] eqn:Ec. destruct (clear_relay_ok _ _ _ Ec Ht) as (Ht1&Hr1&Ecfg&_&Hrun).
  by apply (activate_tail ipv4 a t [] t1 cleared rc t' calls).
Qed.

Lemma prepare_keeps ipv4 a : tunnel_keeps (wg_nx_tunnel_prepare_stream ipv4 a).
Proof.
  intros t rc t' calls E Ht. unfold wg_nx_tunnel_prepare_stream in E. destruct (relay t) eqn:Er; cbn [negb orb] in E.
  2: { injection E as <- <- <-. by rewrite Er. }
  pose proof (open_ports_run (an_udp a) RelayUdp kUdpPorts {| wo_tunnel := true; wo_up := true; wo_relay := true; wo_serving := true |}
    (fun _ _ => eq_refl)) as Ho.
  destruct (_ || _); [injection E as <- <- <-; by rewrite Er|].
  destruct (udpPrepared t); [injection E as <- <- <-; by rewrite Er|].
  destruct (open_ports (an_udp a) RelayUdp kUdpPorts) as [ok opened]. cbn [snd] in Ho.
  destruct ok; injection E as <- <- <-; cbn [app wg_run wg_next wo_serving mbind option_bind]; rewrite Ho; cbn; rewrite ?Er; (split; [|done]); [|done].
  destruct Ht as [Et Eu Ep (peer&Epeer&Epsk&Hcov) _]. split; cbn; try done. exists peer. split_and!; try done. intros _. by apply Hcov.
Qed.

Lemma mstep_keeps o m : manager_ok m -> keeps m (mstep o m).1 (mstep o m).2.
Proof.
  intros Hm. destruct o as [text real a| |addr a|addr a|addr]; cbn [mstep].
  - destruct (enable_from_settings text real a m) as [[ok m'] calls] eqn:E. by eapply enable_keeps.
  - unfold disable. pose proof (disable_locked_run m Hm) as Hd. destruct (disable_locked m) as [m0 calls] eqn:E.
    injection E as <- _. by split.
  - destruct (activate_route addr a m) as [[ok m'] calls] eqn:E. eapply route_call_keeps; [apply activate_keeps|exact E|exact Hm].
  - destruct (prepare_route_for_streaming addr a m) as [[ok m'] calls] eqn:E.
    eapply route_call_keeps; [apply prepare_keeps|exact E|exact Hm].
  - unfold deactivate_route. destruct (tunnel_ m) as [t|] eqn:Et; [|by split].
    unfold wg_nx_tunnel_deactivate_route. unfold keeps, manager_ok, objects in *. rewrite Et in *. destruct Hm as [Es Ht].
    pose proof Ht as [Et1 Er1 _ _ _]. destruct (bool_decide _); [|by split].
    destruct (clear_relay t) as [t' calls] eqn:Ec. destruct (clear_relay_ok _ _ _ Ec Ht) as (Ht'&Hr'&_&_&Hrun).
    pose proof Ht' as [Et2 Er2 _ _ _]. cbn. rewrite Et1, Er1, Et2, Er2, Hr'. by split.
Qed.

Lemma mrun_keeps os : forall m, manager_ok m -> keeps m (mrun os m).1 (mrun os m).2.
Proof.
  induction os as [|o os IH]; intros m Hm; [by split|]. cbn [mrun]. destruct (mstep_keeps o m Hm) as [H1 E1].
  destruct (mstep o m) as [m1 calls1]. destruct (IH m1 H1) as [H2 E2]. destruct (mrun os m1) as [m2 calls2].
  split; [done|]. cbn [snd] in *. by rewrite wg_run_app, E1.
Qed.

(** After any calls on the manager, whatever the libraries answer: the status
    is Running exactly while there is a tunnel, it is up and has one peer, no
    key is left in its configuration, and while a relay is up the peer's
    AllowedIPs let its host through. The libraries are called in the order they
    ask for: no call on a tunnel or relay that does not exist, none left behind,
    and the relay always gone before the tunnel is stopped or closed. *)
Theorem manager_invariant os :
  let m := (mrun os fresh_manager).1 in
  wg_run (mrun os fresh_manager).2 no_objects = Some (objects m) /\
  match tunnel_ m with
  | None => status_ m <> Running
  | Some t => status_ m = Running /\ running t = true /\ privateKey (config t) = [] /\
      exists peer, peers (config t) = [peer] /\ presharedKey peer = [] /\
        (relay t = true -> exists c entry, quad_text (trim (activeTarget t)) c /\
           entry ∈ split_on (ch ",") (allowedIps peer) /\ covers c (trim entry))
  end.
Proof.
  cbv zeta. assert (manager_ok fresh_manager) as H0 by by split. destruct (mrun_keeps os fresh_manager H0) as [Hm Hr].
  split; [exact Hr|]. unfold manager_ok in Hm. destruct (tunnel_ _) as [t|]; [|tauto].
  destruct Hm as [Hs [_ Hu Hp (peer&Epeer&Epsk&Hcov) _]]. split_and!; try done. exists peer. split_and!; try done.
  intros Hrel. apply allowed_spec. by apply Hcov.
Qed.

(** Starting the tunnel. An earlier one is always taken down first. The tunnel
    comes up exactly when there is a file, it validates, wg-nx is linked, its
    keys and addresses convert and the library takes it, connects and starts;
    each other case leaves no tunnel and the error that says which it was. *)
Theorem enable_spec text real a m ok m' calls : enable_from_settings text real a m = (ok, m', calls) ->
  let c := parse_wireguard_conf (c_str text) in
  (ok = true <-> text <> [] /\ validate (parse_wireguard_conf text) = NoProblem /\ real = true /\
     an_init a = true /\ an_connect a = true /\ an_start a = true /\
     exists peer wg, validate c = NoProblem /\ peers c = [peer] /\ wg_config c peer = Some wg) /\
  (ok = false -> tunnel_ m' = None /\
     (status_ m' = Unavailable <-> text <> [] /\ validate (parse_wireguard_conf text) = NoProblem /\ real = false) /\
     (validate (parse_wireguard_conf text) <> NoProblem -> text <> [] ->
        lastError_ m' = wireguard_problem_i18n_key (validate (parse_wireguard_conf text)))).
Proof.
  unfold enable_from_settings. destruct (disable_locked m) as [m0 calls0].
  case_bool_decide as Ht; [intros [= <- <- <-]; cbn; intuition congruence|]. case_bool_decide as Hv; cbn [negb]; [|intros [= <- <- <-]; cbn; intuition congruence].
  destruct real; cbn [negb]; [|intros [= <- <- <-]; cbn; intuition congruence].
  unfold wg_nx_tunnel_create, config_valid. set (c := parse_wireguard_conf (c_str text)).
  case_bool_decide as Hv'; cbn [negb].
  2: { intros [= <- <- <-]. cbn. split; [split; [done|]|intuition congruence]. intros (_&_&_&_&_&_&peer&wg&?&_). done. }
  destruct (valid_one_peer c ltac:(unfold config_valid; by apply bool_decide_true)) as [peer Ep]. rewrite Ep.
  destruct (wg_config c peer) as [wg|] eqn:Ew.
  2: { intros [= <- <- <-]. cbn. split; [split; [done|]|intuition congruence]. intros (_&_&_&_&_&_&peer'&wg&_&E'&Ew'). congruence. }
  destruct (an_init a); [|intros [= <- <- <-]; cbn; intuition congruence].
  unfold wg_nx_tunnel_start. cbn [tunnel running negb].
  destruct (an_connect a); cbn [negb Z.eqb]; [|intros [= <- <- <-]; cbn; intuition congruence].
  destruct (an_start a); cbn [negb Z.eqb]; intros [= <- <- <-]; cbn; [|intuition congruence].
  split; [|done]. split; [|done]. intros _. split_and!; try done. by exists peer, wg.
Qed.
End tunnel.

(** ** A tunnel *)

(** Stand-ins for the library's conversions. *)
Definition ex_key64 (text : bytes) : option bytes := if (length text =? 44)%nat then Some (take 32 text) else None.
Definition ex_answers : Answers :=
  {| an_init := true; an_connect := true; an_start := true; an_ip := None; an_relay_start := true; an_relay_running := true;
     an_tcp := fun _ => true; an_udp := fun _ => true |}.
Definition ex_conf (address endpoint : string) : bytes :=
  conf_text {| privateKey := ex_wg_key; address := bs address; dns := []; listenPort := 0; mtu := 0;
               peers := [{| publicKey := ex_wg_key; presharedKey := []; WireGuardConfig.endpoint := bs endpoint;
                            allowedIps := bs "10.0.0.0/24, fd00::/8"; persistentKeepalive := 0 |}] |}.
#[local] Abbreviation ex_enable text := (enable_from_settings ex_key64 parse_ipv4 64 text true ex_answers fresh_manager).

Lemma enable_spec_witness :
  exists m calls, ex_enable (ex_conf "10.0.0.2/32" "vpn.example.com:51820") = (true, m, calls) /\
    validate (parse_wireguard_conf (ex_conf "10.0.0.2/32" "vpn.example.com:51820")) = NoProblem.
Proof.
  assert (exists m calls, ex_enable (ex_conf "10.0.0.2/32" "vpn.example.com:51820") = (true, m, calls)) as (m&calls&E)
    by (vm_compute; eexists _, _; reflexivity).
  exists m, calls. split; [exact E|].
  destruct (enable_spec ex_key64 parse_ipv4 64 _ _ _ _ _ _ _ E) as [[Hok _] _]. exact (proj1 (proj2 (Hok eq_refl))).
Defined.

(** A host in AllowedIPs is reached; one outside is not. *)
Example ex_route :
  let os := [MEnable (ex_conf "10.0.0.2/32" "vpn.example.com:51820") true ex_answers; MActivate (bs "10.0.0.7") ex_answers;
             MPrepare (bs "10.0.0.7") ex_answers; MActivate (bs "10.0.1.7") ex_answers; MDisable] in
  let '(m, calls) := mrun ex_key64 parse_ipv4 64 os fresh_manager in
  status_ m = Stopped /\ length calls = 18%nat /\ calls !! 5%nat = Some (RelayStart (bs "10.0.0.2") (bs "10.0.0.7") true).
Proof. vm_compute. done. Qed.

(** Files that validate and that the tunnel refuses, with the general
    [wireguard_error_rejected]: an IPv6 address, two addresses of which the first
    has no prefix, a bracketed endpoint, and no endpoint at all. *)
Example valid_but_rejected :
  Forall (fun text => validate (parse_wireguard_conf text) = NoProblem /\
      (ex_enable text).1.2 = enable_failed Error "artemis/settings/wireguard_error_rejected")
    [ex_conf "fd00::2/64" "vpn.example.com:51820"; ex_conf "10.0.0.2, 10.0.0.3/32" "vpn.example.com:51820";
     ex_conf "10.0.0.2/32" "[2001:db8::1]:51820"; ex_conf "10.0.0.2/32" ""].
Proof. repeat constructor. Qed.

(** Deactivating a route for another host than the active one does nothing, and
    a failed activation has already taken the active route down. *)
Example failed_activation_drops_route :
  let refuse := {| an_init := true; an_connect := true; an_start := true; an_ip := None; an_relay_start := false;
                   an_relay_running := true; an_tcp := fun _ => true; an_udp := fun _ => true |} in
  let os := [MEnable (ex_conf "10.0.0.2/32" "vpn.example.com:51820") true ex_answers; MActivate (bs "10.0.0.7") ex_answers;
             MActivate (bs "10.0.0.8") refuse] in
  match tunnel_ (mrun ex_key64 parse_ipv4 64 os fresh_manager).1 with Some t => relay t | None => true end = false.
Proof. vm_compute. done. Qed.
