(* ===== verification/Double.v ===== *)
(** [double] and [float] as IEEE 754 defines them: the executable specification of
    the Standard Library at 53 and 24 bits, rounding to the nearest even value.
    Ordered comparisons are false on NaN, and [std::min], [std::max] and
    [std::clamp] are built from them as the C++ library builds them. *)

From Stdlib Require Export SpecFloat.
From S2P Require Import Prelude.

Abbreviation double := spec_float.

Section format.
Context (prec emax : Z).
Definition of_Z_at (a : Z) : spec_float := binary_normalize prec emax a 0 false.
End format.

(** ** binary64 *)

Definition dbl (a : Z) : double := of_Z_at 53 1024 a.
Definition dadd : double -> double -> double := SFadd 53 1024.
Definition dsub : double -> double -> double := SFsub 53 1024.
Definition dmul : double -> double -> double := SFmul 53 1024.
Definition ddiv : double -> double -> double := SFdiv 53 1024.
Definition dabs : double -> double := SFabs.
Definition dlt (a b : double) : bool := SFltb a b.
Definition dle (a b : double) : bool := SFleb a b.
Definition deq (a b : double) : bool := SFeqb a b.

(** The decimal literal [a / b]: the quotient of two exact numbers is rounded
    once, as the literal is. *)
Definition lit (a b : Z) : double := ddiv (dbl a) (dbl b).

Definition dmax (a b : double) : double := if dlt a b then b else a.
Definition dmin (a b : double) : double := if dlt b a then b else a.
Definition clamp (v lo hi : double) : double := if dlt v lo then lo else if dlt hi v then hi else v.
Definition isfinite (a : double) : bool := match a with S754_zero _ | S754_finite _ _ _ => true | _ => false end.
Definition isnan (a : double) : bool := match a with S754_nan => true | _ => false end.

(** [static_cast] to a 64-bit integer drops the fraction; [None] where the
    standard leaves it undefined. *)
Definition truncated (a : double) : option Z :=
  match a with
  | S754_zero _ => Some 0
  | S754_finite s m e =>
      let n := if 0 <=? e then Z.pos m * 2 ^ e else Z.pos m / 2 ^ (- e) in Some (if s then - n else n)
  | _ => None
  end.
Definition to_int64 (a : double) : option Z :=
  match truncated a with Some n => if (- 2 ^ 63 <=? n) && (n <? 2 ^ 63) then Some n else None | None => None end.
Definition to_uint64 (a : double) : option Z :=
  match truncated a with Some n => if (0 <=? n) && (n <? 2 ^ 64) then Some n else None | None => None end.

(** ** binary32, to which the statistics are narrowed *)

Definition to_float (a : double) : spec_float :=
  match a with
  | S754_finite s m e => binary_normalize 24 128 (if s then Z.neg m else Z.pos m) e s
  | _ => a
  end.

(** ** Order *)

Lemma dlt_nan_l a : dlt S754_nan a = false.
Proof. done. Qed.
Lemma dlt_nan_r a : dlt a S754_nan = false.
Proof. by destruct a. Qed.

Lemma dlt_irrefl a : dlt a a = false.
Proof.
  unfold dlt, SFltb. destruct a as [[]|[]| |[] m e]; try done; cbn; change (IntDef.Z.compare e e) with (e ?= e); rewrite Z.compare_refl;
    change (PosDef.Pos.compare_cont Eq m m) with (m ?= m)%positive; by rewrite Pos.compare_refl.
Qed.

Lemma clamp_range v lo hi : dlt hi lo = false -> dlt (clamp v lo hi) lo = false /\ dlt hi (clamp v lo hi) = false.
Proof.
  intros H. unfold clamp. destruct (dlt v lo) eqn:E1; [by rewrite dlt_irrefl|]. destruct (dlt hi v) eqn:E2; [by rewrite dlt_irrefl|done].
Qed.
Lemma dmin_le a b : dlt b (dmin a b) = false.
Proof. unfold dmin. destruct (dlt b a) eqn:E; [apply dlt_irrefl|done]. Qed.
Lemma dmax_ge a b : dlt (dmax a b) b = false.
Proof. unfold dmax. destruct (dlt a b) eqn:E; [apply dlt_irrefl|done]. Qed.

(** The literals are the doubles the compiler writes. *)
Example lit_tenth : lit 1 10 = S754_finite false 7205759403792794 (-56).
Proof. vm_compute. reflexivity. Qed.
Example truncation : (truncated (lit 5 2), truncated (lit (-5) 2), to_uint64 (lit (-5) 2), to_int64 (ddiv (dbl 1) (dbl 0))) = (Some 2, Some (-2), None, None).
Proof. vm_compute. reflexivity. Qed.

(** ** Values that are not negative *)

(** Not NaN and not below zero; a zero may carry the sign. *)
Definition nonneg (a : double) : Prop :=
  match a with S754_nan => False | S754_zero _ => True | S754_infinity s | S754_finite s _ _ => s = false end.
Definition positive_finite (a : double) : Prop := match a with S754_finite false _ _ => True | _ => False end.

Lemma shr_1_nonneg r : 0 <= shr_m r -> 0 <= shr_m (shr_1 r).
Proof. destruct r as [[|[p|p|]|p] rb sb]; cbn; lia. Qed.
Lemma iter_shr_nonneg p r : 0 <= shr_m r -> 0 <= shr_m (SpecFloat.iter_pos shr_1 p r).
Proof. revert r; induction p as [p IH|p IH|]; intros r H; cbn; auto using shr_1_nonneg. Qed.
Lemma shr_fexp_nonneg prec emax m e l : 0 <= m -> 0 <= shr_m (shr_fexp prec emax m e l).1.
Proof.
  intros H. unfold shr_fexp, shr. destruct (_ - _); cbn; try (by destruct l as [|[]]). apply iter_shr_nonneg. by destruct l as [|[]].
Qed.
Lemma round_nonneg m l : 0 <= m -> 0 <= round_nearest_even m l.
Proof. intros H. destruct l as [|[]]; cbn; try lia. destruct (Z.even m); lia. Qed.

Lemma binary_round_aux_nonneg prec emax mx ex lx : 0 <= mx -> nonneg (binary_round_aux prec emax false mx ex lx).
Proof.
  intros H. unfold binary_round_aux. pose proof (shr_fexp_nonneg prec emax mx ex lx H) as H1.
  destruct (shr_fexp prec emax mx ex lx) as [r1 e1]; cbn [fst] in H1.
  pose proof (shr_fexp_nonneg prec emax (round_nearest_even (shr_m r1) (loc_of_shr_record r1)) e1 loc_Exact (round_nonneg _ _ H1)) as H2.
  destruct (shr_fexp _ _ _ e1 loc_Exact) as [r2 e2]; cbn [fst] in H2. destruct (shr_m r2); [done| |lia]. by destruct (e2 <=? emax - prec)%Z.
Qed.
Lemma of_pos_nonneg prec emax m e : 0 <= m -> nonneg (binary_normalize prec emax m e false).
Proof.
  intros H. destruct m as [|p|p]; [done| |lia]. cbn. unfold binary_round. destruct (shl_align _ _ _) as [m' e']. by apply binary_round_aux_nonneg.
Qed.

Lemma dadd_nonneg a b : nonneg a -> nonneg b -> nonneg (dadd a b).
Proof.
  destruct a as [[]|[]| |[] m1 e1], b as [[]|[]| |[] m2 e2]; try done. intros _ _. unfold dadd, SFadd. apply of_pos_nonneg. cbn. lia.
Qed.
Lemma dmul_nonneg a b : nonneg a -> positive_finite b -> nonneg (dmul a b).
Proof.
  destruct a as [[]|[]| |[] m1 e1], b as [[]|[]| |[] m2 e2]; try done. intros _ _. unfold dmul, SFmul. by apply binary_round_aux_nonneg.
Qed.

Lemma dmul_nonneg_l a b : positive_finite a -> nonneg b -> nonneg (dmul a b).
Proof.
  destruct a as [[]|[]| |[] m1 e1], b as [[]|[]| |[] m2 e2]; try done. intros _ _. unfold dmul, SFmul. by apply binary_round_aux_nonneg.
Qed.
Lemma dmax_0_nonneg a : isnan a = false -> nonneg (dmax (dbl 0) a).
Proof. by destruct a as [[]|[]| |[] m e]. Qed.
Lemma clamp_nonneg v lo hi : nonneg v -> nonneg lo -> nonneg hi -> nonneg (clamp v lo hi).
Proof. intros Hv Hl Hh. unfold clamp. by destruct (dlt v lo), (dlt hi v). Qed.
Lemma isfinite_notnan a : isfinite a = true -> isnan a = false.
Proof. by destruct a. Qed.
