(* ===== verification/Telemetry.v ===== *)
(** The stream's timing statistics ([FramePipelineTelemetry.hpp]) and the lead of
    the present gate they feed ([PresentDeadline.hpp]). Times are nanoseconds of
    the steady clock; where a call reads the clock more than once, it takes the
    readings in order. A flag with the value it guards is an option. *)

From S2P Require Import Prelude Double.

Implicit Types now : Z.

(** ** Present deadline *)

Definition safetyMs : double := dbl 1.
Definition minLeadMs : double := lit 3 2.
Definition maxLeadMs : double := dbl 8.
Definition defaultLeadMs : double := dbl 3.
Definition jitterMultiplier : double := lit 3 2.
Definition maxJitterMs : double := dbl 8.

Definition clampPresentLeadMs (renderP95Ms gpuSubmitP95Ms : double) (havePresentSamples : bool) : double :=
  if negb havePresentSamples || (negb (isfinite renderP95Ms) && negb (isfinite gpuSubmitP95Ms)) then defaultLeadMs
  else
    let render := if isfinite renderP95Ms then dmax (dbl 0) renderP95Ms else dbl 0 in
    let gpu := if isfinite gpuSubmitP95Ms then dmax (dbl 0) gpuSubmitP95Ms else dbl 0 in
    clamp (dadd (dadd render gpu) safetyMs) minLeadMs maxLeadMs.

Definition presentGateLeadMs (renderP95Ms gpuSubmitP95Ms : double) (havePresentSamples : bool) (jitterMs : double) : double :=
  let base := clampPresentLeadMs renderP95Ms gpuSubmitP95Ms havePresentSamples in
  let jitter := clamp (if isfinite jitterMs then dmax (dbl 0) jitterMs else dbl 0) (dbl 0) maxJitterMs in
  dadd base (dmul jitterMultiplier jitter).

(** ** Telemetry *)

Record State := {
  streamStart : option Z;
  firstPacket : option Z;
  firstDecode : option Z;
  firstPresent : option Z;
  pendingTiming : option (Z * Z);
  lastSelected : option (Z * Z * Z);
  lastPresentAt : option Z;
  decodeMsEma : double;
  queueWaitMsEma : double;
  queueWaitMsP95 : double;
  clientPipelineMsEma : double;
  clientPipelineMsP95 : double;
  renderMsEma : double;
  renderMsP95 : double;
  gpuSubmitMsEma : double;
  gpuSubmitMsP95 : double;
  presentIntervalMsEma : double;
  havePresentCostSamples : bool;
  windowBytes : Z;
  windowStart : option Z;
  lastMbps : spec_float;
}.
Implicit Types t : State.

Definition fresh : State :=
  {| streamStart := None; firstPacket := None; firstDecode := None; firstPresent := None; pendingTiming := None; lastSelected := None;
     lastPresentAt := None; decodeMsEma := dbl 0; queueWaitMsEma := dbl 0; queueWaitMsP95 := dbl 0; clientPipelineMsEma := dbl 0;
     clientPipelineMsP95 := dbl 0; renderMsEma := dbl 0; renderMsP95 := dbl 0; gpuSubmitMsEma := dbl 0; gpuSubmitMsP95 := dbl 0;
     presentIntervalMsEma := dbl 0; havePresentCostSamples := false; windowBytes := 0; windowStart := None; lastMbps := dbl 0 |}.

(** The fields that record times, the statistics, the byte window. *)
Definition set_marks (start packet decode present : option Z) (pending : option (Z * Z)) (selected : option (Z * Z * Z)) (presented : option Z) t : State :=
  {| streamStart := start; firstPacket := packet; firstDecode := decode; firstPresent := present; pendingTiming := pending; lastSelected := selected;
     lastPresentAt := presented; decodeMsEma := decodeMsEma t; queueWaitMsEma := queueWaitMsEma t; queueWaitMsP95 := queueWaitMsP95 t;
     clientPipelineMsEma := clientPipelineMsEma t; clientPipelineMsP95 := clientPipelineMsP95 t; renderMsEma := renderMsEma t;
     renderMsP95 := renderMsP95 t; gpuSubmitMsEma := gpuSubmitMsEma t; gpuSubmitMsP95 := gpuSubmitMsP95 t;
     presentIntervalMsEma := presentIntervalMsEma t; havePresentCostSamples := havePresentCostSamples t; windowBytes := windowBytes t;
     windowStart := windowStart t; lastMbps := lastMbps t |}.
Definition set_waits (decode wait wait95 client client95 interval : double) t : State :=
  {| streamStart := streamStart t; firstPacket := firstPacket t; firstDecode := firstDecode t; firstPresent := firstPresent t;
     pendingTiming := pendingTiming t; lastSelected := lastSelected t; lastPresentAt := lastPresentAt t; decodeMsEma := decode;
     queueWaitMsEma := wait; queueWaitMsP95 := wait95; clientPipelineMsEma := client; clientPipelineMsP95 := client95;
     renderMsEma := renderMsEma t; renderMsP95 := renderMsP95 t; gpuSubmitMsEma := gpuSubmitMsEma t; gpuSubmitMsP95 := gpuSubmitMsP95 t;
     presentIntervalMsEma := interval; havePresentCostSamples := havePresentCostSamples t; windowBytes := windowBytes t;
     windowStart := windowStart t; lastMbps := lastMbps t |}.
Definition set_costs (render render95 gpu gpu95 : double) (samples : bool) t : State :=
  {| streamStart := streamStart t; firstPacket := firstPacket t; firstDecode := firstDecode t; firstPresent := firstPresent t;
     pendingTiming := pendingTiming t; lastSelected := lastSelected t; lastPresentAt := lastPresentAt t; decodeMsEma := decodeMsEma t;
     queueWaitMsEma := queueWaitMsEma t; queueWaitMsP95 := queueWaitMsP95 t; clientPipelineMsEma := clientPipelineMsEma t;
     clientPipelineMsP95 := clientPipelineMsP95 t; renderMsEma := render; renderMsP95 := render95; gpuSubmitMsEma := gpu;
     gpuSubmitMsP95 := gpu95; presentIntervalMsEma := presentIntervalMsEma t; havePresentCostSamples := samples;
     windowBytes := windowBytes t; windowStart := windowStart t; lastMbps := lastMbps t |}.
Definition set_window (bytes : Z) (start : option Z) (mbps : spec_float) t : State :=
  {| streamStart := streamStart t; firstPacket := firstPacket t; firstDecode := firstDecode t; firstPresent := firstPresent t;
     pendingTiming := pendingTiming t; lastSelected := lastSelected t; lastPresentAt := lastPresentAt t; decodeMsEma := decodeMsEma t;
     queueWaitMsEma := queueWaitMsEma t; queueWaitMsP95 := queueWaitMsP95 t; clientPipelineMsEma := clientPipelineMsEma t;
     clientPipelineMsP95 := clientPipelineMsP95 t; renderMsEma := renderMsEma t; renderMsP95 := renderMsP95 t;
     gpuSubmitMsEma := gpuSubmitMsEma t; gpuSubmitMsP95 := gpuSubmitMsP95 t; presentIntervalMsEma := presentIntervalMsEma t;
     havePresentCostSamples := havePresentCostSamples t; windowBytes := bytes; windowStart := start; lastMbps := mbps |}.

(** [duration<double, milli>] and [duration<double>] of nanoseconds. *)
Definition msBetween (a b : Z) : double := ddiv (dbl (b - a)) (dbl 1000000).
Definition seconds (ns : Z) : double := ddiv (dbl ns) (dbl 1000000000).

Definition ignored (sample : double) : bool := negb (isfinite sample) || dlt sample (dbl 0).
Definition blend (old sample alpha : double) : double := dadd (dmul old (dsub (dbl 1) alpha)) (dmul sample alpha).

Definition updateEma (ema sample : double) : double :=
  if ignored sample then ema else if dle ema (dbl 0) then sample else blend ema sample (lit 1 5).
Definition updateP95 (p95 sample : double) : double :=
  if ignored sample then p95
  else if dle p95 (dbl 0) then sample
  else if dle p95 sample then blend p95 sample (lit 35 100)
  else blend p95 sample (lit 5 100).

Definition first (old : option Z) (v : Z) : option Z := match old with None => Some v | Some _ => old end.
Definition ensureStreamLocked now t : State :=
  set_marks (first (streamStart t) now) (firstPacket t) (firstDecode t) (firstPresent t) (pendingTiming t) (lastSelected t) (lastPresentAt t) t.

Definition noteStreamStart now : State := ensureStreamLocked now fresh.

Definition accumulateBytesLocked (bytes : Z) (now1 now2 : Z) t : State :=
  let t := ensureStreamLocked now1 t in
  let start := default now2 (windowStart t) in
  let total := u64 ((match windowStart t with Some _ => windowBytes t | None => 0 end) + bytes) in
  let elapsedSec := seconds (now2 - start) in
  if dle (lit 1 4) elapsedSec
  then set_window 0 (Some now2) (to_float (ddiv (dmul (dbl total) (dbl 8)) (dmul elapsedSec (dbl 1000000)))) t
  else set_window total (Some start) (lastMbps t) t.

Definition noteFirstPacket (bytes : Z) (now1 now2 now3 now4 : Z) t : State :=
  let t := ensureStreamLocked now1 t in
  let t := set_marks (streamStart t) (first (firstPacket t) now2) (firstDecode t) (firstPresent t) (pendingTiming t) (lastSelected t) (lastPresentAt t) t in
  accumulateBytesLocked bytes now3 now4 t.

Definition noteDecodedFrame (networkComplete decodeDone : Z) now t : State :=
  let t := ensureStreamLocked now t in
  let t := set_marks (streamStart t) (firstPacket t) (first (firstDecode t) decodeDone) (firstPresent t) (Some (networkComplete, decodeDone))
             (lastSelected t) (lastPresentAt t) t in
  set_waits (updateEma (decodeMsEma t) (msBetween networkComplete decodeDone)) (queueWaitMsEma t) (queueWaitMsP95 t)
    (clientPipelineMsEma t) (clientPipelineMsP95 t) (presentIntervalMsEma t) t.

Definition consumePendingDecodeTiming t : option (Z * Z) * State :=
  (pendingTiming t,
   set_marks (streamStart t) (firstPacket t) (firstDecode t) (firstPresent t) None (lastSelected t) (lastPresentAt t) t).

Definition noteFrameSelected (networkComplete decodeDone selectedAt : Z) t : State :=
  let queueWaitMs := msBetween decodeDone selectedAt in
  let t := set_marks (streamStart t) (firstPacket t) (firstDecode t) (firstPresent t) (pendingTiming t)
             (Some (networkComplete, decodeDone, selectedAt)) (lastPresentAt t) t in
  set_waits (decodeMsEma t) (updateEma (queueWaitMsEma t) queueWaitMs) (updateP95 (queueWaitMsP95 t) queueWaitMs)
    (clientPipelineMsEma t) (clientPipelineMsP95 t) (presentIntervalMsEma t) t.

Definition cost_sample (ms : double) : bool := isfinite ms && dle (dbl 0) ms.

Definition noteFramePresented (renderMs gpuSubmitMs : double) (now1 presentedAt : Z) t : State :=
  let t := ensureStreamLocked now1 t in
  let t := match lastSelected t with
           | Some (network, _, _) =>
               let clientMs := msBetween network presentedAt in
               set_waits (decodeMsEma t) (queueWaitMsEma t) (queueWaitMsP95 t) (updateEma (clientPipelineMsEma t) clientMs)
                 (updateP95 (clientPipelineMsP95 t) clientMs) (presentIntervalMsEma t) t
           | None => t
           end in
  let t := if cost_sample renderMs
           then set_costs (updateEma (renderMsEma t) renderMs) (updateP95 (renderMsP95 t) renderMs) (gpuSubmitMsEma t) (gpuSubmitMsP95 t) true t
           else t in
  let t := if cost_sample gpuSubmitMs
           then set_costs (renderMsEma t) (renderMsP95 t) (updateEma (gpuSubmitMsEma t) gpuSubmitMs) (updateP95 (gpuSubmitMsP95 t) gpuSubmitMs) true t
           else t in
  let t := match lastPresentAt t with
           | Some last =>
               let intervalMs := msBetween last presentedAt in
               if dlt (dbl 0) intervalMs && dlt intervalMs (dbl 250)
               then set_waits (decodeMsEma t) (queueWaitMsEma t) (queueWaitMsP95 t) (clientPipelineMsEma t) (clientPipelineMsP95 t)
                      (updateEma (presentIntervalMsEma t) intervalMs) t
               else t
           | None => t
           end in
  set_marks (streamStart t) (firstPacket t) (firstDecode t) (first (firstPresent t) presentedAt) (pendingTiming t) (lastSelected t) (Some presentedAt) t.

Definition noteVideoBytes : Z -> Z -> Z -> State -> State := accumulateBytesLocked.

Record Snapshot := {
  sn_queueWaitMs : spec_float; sn_queueWaitMsP95 : spec_float; sn_clientPipelineMs : spec_float; sn_clientPipelineMsP95 : spec_float;
  sn_decodeMs : spec_float; sn_renderMsP95 : spec_float; sn_gpuSubmitMsP95 : spec_float; sn_presentIntervalMs : spec_float;
  sn_actualVideoMbps : spec_float; sn_havePresentCostSamples : bool; sn_hasFirstPresent : bool;
  sn_timeToFirstPacketMs : spec_float; sn_timeToFirstDecodeMs : spec_float; sn_timeToFirstPresentMs : spec_float;
}.
Definition time_to (start event : option Z) : spec_float :=
  match start, event with Some a, Some b => to_float (msBetween a b) | _, _ => dbl (-1) end.
Definition snapshot t : Snapshot :=
  {| sn_queueWaitMs := to_float (queueWaitMsEma t); sn_queueWaitMsP95 := to_float (queueWaitMsP95 t);
     sn_clientPipelineMs := to_float (clientPipelineMsEma t); sn_clientPipelineMsP95 := to_float (clientPipelineMsP95 t);
     sn_decodeMs := to_float (decodeMsEma t); sn_renderMsP95 := to_float (renderMsP95 t); sn_gpuSubmitMsP95 := to_float (gpuSubmitMsP95 t);
     sn_presentIntervalMs := to_float (presentIntervalMsEma t); sn_actualVideoMbps := lastMbps t;
     sn_havePresentCostSamples := havePresentCostSamples t; sn_hasFirstPresent := bool_decide (is_Some (firstPresent t));
     sn_timeToFirstPacketMs := time_to (streamStart t) (firstPacket t); sn_timeToFirstDecodeMs := time_to (streamStart t) (firstDecode t);
     sn_timeToFirstPresentMs := time_to (streamStart t) (firstPresent t) |}.

(** ** The statistics are numbers *)

(** Every statistic is a number and not below zero. *)
Definition telemetry_wf t : Prop :=
  nonneg (decodeMsEma t) /\ nonneg (queueWaitMsEma t) /\ nonneg (queueWaitMsP95 t) /\ nonneg (clientPipelineMsEma t) /\
  nonneg (clientPipelineMsP95 t) /\ nonneg (renderMsEma t) /\ nonneg (renderMsP95 t) /\ nonneg (gpuSubmitMsEma t) /\
  nonneg (gpuSubmitMsP95 t) /\ nonneg (presentIntervalMsEma t) /\ 0 <= windowBytes t < 2 ^ 64.

Lemma accepted_nonneg sample : ignored sample = false -> nonneg sample.
Proof. destruct sample as [[]|[]| |[] m e]; done. Qed.

Lemma blend_nonneg old sample alpha :
  nonneg old -> nonneg sample -> positive_finite alpha -> positive_finite (dsub (dbl 1) alpha) -> nonneg (blend old sample alpha).
Proof. intros Ho Hs Ha Hb. apply dadd_nonneg; by apply dmul_nonneg. Qed.

Lemma updateEma_nonneg ema sample : nonneg ema -> nonneg (updateEma ema sample).
Proof.
  intros H. unfold updateEma. destruct (ignored sample) eqn:E; [done|]. apply accepted_nonneg in E.
  destruct (dle ema (dbl 0)); [done|]. by apply blend_nonneg; try (vm_compute; exact I).
Qed.
Lemma updateP95_nonneg p95 sample : nonneg p95 -> nonneg (updateP95 p95 sample).
Proof.
  intros H. unfold updateP95. destruct (ignored sample) eqn:E; [done|]. apply accepted_nonneg in E.
  destruct (dle p95 (dbl 0)); [done|]. destruct (dle p95 sample); by apply blend_nonneg; try (vm_compute; exact I).
Qed.
Create HintDb telemetry.
#[export] Hint Resolve updateEma_nonneg updateP95_nonneg : telemetry.

(** ** The calls *)

Inductive note :=
| StreamStart (now : Z)
| ResetAll
| FirstPacket (bytes now1 now2 now3 now4 : Z)
| Decoded (networkComplete decodeDone now : Z)
| Consumed
| Selected (networkComplete decodeDone selectedAt : Z)
| Presented (renderMs gpuSubmitMs : double) (now1 presentedAt : Z)
| VideoBytes (bytes now1 now2 : Z).
Definition noted (n : note) t : State :=
  match n with
  | StreamStart now => noteStreamStart now
  | ResetAll => fresh
  | FirstPacket bytes n1 n2 n3 n4 => noteFirstPacket bytes n1 n2 n3 n4 t
  | Decoded net dec now => noteDecodedFrame net dec now t
  | Consumed => (consumePendingDecodeTiming t).2
  | Selected net dec sel => noteFrameSelected net dec sel t
  | Presented r g n1 at_ => noteFramePresented r g n1 at_ t
  | VideoBytes bytes n1 n2 => noteVideoBytes bytes n1 n2 t
  end.

Lemma set_marks_wf a b c d e f g t : telemetry_wf t -> telemetry_wf (set_marks a b c d e f g t).
Proof. done. Qed.
Lemma set_window_wf bytes start mbps t : telemetry_wf t -> 0 <= bytes < 2 ^ 64 -> telemetry_wf (set_window bytes start mbps t).
Proof. unfold telemetry_wf. cbn. intuition. Qed.
Lemma set_waits_wf a b c d e f t :
  telemetry_wf t -> nonneg a -> nonneg b -> nonneg c -> nonneg d -> nonneg e -> nonneg f -> telemetry_wf (set_waits a b c d e f t).
Proof. unfold telemetry_wf. cbn. intuition. Qed.
Lemma set_costs_wf a b c d s t : telemetry_wf t -> nonneg a -> nonneg b -> nonneg c -> nonneg d -> telemetry_wf (set_costs a b c d s t).
Proof. unfold telemetry_wf. cbn. intuition. Qed.

Lemma accumulate_wf bytes n1 n2 t : telemetry_wf t -> telemetry_wf (accumulateBytesLocked bytes n1 n2 t).
Proof.
  intros H. unfold accumulateBytesLocked, u64. destruct (dle _ _); (apply set_window_wf; [done|]); [lia|]. apply Z.mod_pos_bound. lia.
Qed.


(** Whatever the calls report (times that run backwards, NaN or infinite costs),
    every statistic stays a number that is not negative. *)
Theorem statistics_wf notes : telemetry_wf (foldl (fun t n => noted n t) fresh notes).
Proof.
  assert (forall n t, telemetry_wf t -> telemetry_wf (noted n t)) as step.
  { intros n t H. pose proof H as (H1 & H2 & H3 & H4 & H5 & H6 & H7 & H8 & H9 & H10 & Hw). destruct n; cbn [noted].
    - by repeat split.
    - by repeat split.
    - by apply accumulate_wf, set_marks_wf.
    - apply set_waits_wf; auto with telemetry.
    - done.
    - apply set_waits_wf; auto with telemetry.
    - unfold noteFramePresented. apply set_marks_wf.
      match goal with |- telemetry_wf (match _ with Some _ => _ | None => ?x end) => assert (telemetry_wf x) as Hx end.
      2: { destruct (lastPresentAt _); [|done]. destruct (_ && _); [|done]. pose proof Hx as (?&?&?&?&?&?&?&?&?&?&?). apply set_waits_wf; auto with telemetry. }
      match goal with |- telemetry_wf (if _ then _ else ?x) => assert (telemetry_wf x) as Hx end.
      2: { destruct (cost_sample gpuSubmitMs); [|done]. pose proof Hx as (?&?&?&?&?&?&?&?&?&?&?). apply set_costs_wf; auto with telemetry. }
      match goal with |- telemetry_wf (if _ then _ else ?x) => assert (telemetry_wf x) as Hx end.
      2: { destruct (cost_sample renderMs); [|done]. pose proof Hx as (?&?&?&?&?&?&?&?&?&?&?). apply set_costs_wf; auto with telemetry. }
      destruct (lastSelected _) as [[[net dec] sel]|]; [|done]. apply set_waits_wf; auto with telemetry.
    - by apply accumulate_wf. }
  assert (telemetry_wf fresh) as Hf by (by repeat split).
  revert Hf. generalize fresh. induction notes as [|n notes IH]; intros t Ht; cbn; [done|]. apply IH, step, Ht.
Qed.

(** The lead of the present gate is between 1.5 and 8 ms before jitter, whatever
    the measured costs; with jitter it is still a number that is not negative. *)
Theorem gate_lead_bounds render gpu samples jitter :
  let base := clampPresentLeadMs render gpu samples in
  dlt base minLeadMs = false /\ dlt maxLeadMs base = false /\ nonneg base /\ nonneg (presentGateLeadMs render gpu samples jitter).
Proof.
  assert (forall a, nonneg (if isfinite a then dmax (dbl 0) a else dbl 0)) as Hm.
  { intros a. destruct (isfinite a) eqn:E; [|done]. by apply dmax_0_nonneg, isfinite_notnan. }
  assert (let base := clampPresentLeadMs render gpu samples in dlt base minLeadMs = false /\ dlt maxLeadMs base = false /\ nonneg base) as (H1 & H2 & H3).
  { cbv zeta. unfold clampPresentLeadMs. destruct (negb samples || _); [by vm_compute|].
    match goal with |- context [clamp ?v _ _] => destruct (clamp_range v minLeadMs maxLeadMs) as [Ha Hb]; [by vm_compute|] end.
    split; [done|]. split; [done|]. apply clamp_nonneg; [|by vm_compute..]. apply dadd_nonneg; [by apply dadd_nonneg|by vm_compute]. }
  cbv zeta. split; [done|]. split; [done|]. split; [done|]. unfold presentGateLeadMs. apply dadd_nonneg; [done|].
  apply dmul_nonneg_l; [by vm_compute|]. apply clamp_nonneg; [apply Hm|by vm_compute..].
Qed.

(** No samples, large ones, and NaN for one of the two. *)
Example gate_leads :
  (clampPresentLeadMs (dbl 100) (dbl 100) false, clampPresentLeadMs (dbl 100) (dbl 100) true, clampPresentLeadMs S754_nan (dbl 2) true) =
  (dbl 3, dbl 8, dbl 3).
Proof. vm_compute. reflexivity. Qed.
