(* ===== verification/FrameQueue.v ===== *)
(** The queue between the decoder and the renderer ([AVFrameHolder.cpp]): its pool
    of frames, the two pacing paths, and the ownership of every [AVFrame]. Frames
    are the addresses [av_frame_alloc] returned; times are nanoseconds. The
    members are grouped by the part of the code that uses them. *)

From stdpp Require Import gmultiset.
From S2P Require Import Prelude Ownership Double Telemetry.

Implicit Types now : Z.

(** ** Data *)

Record TimedFrame := { timeEstimate : Z; networkComplete : Z; decodeDone : Z; queued : Z; frame : Z }.

Record Configuration := { limit : nat; targetBufferedFrames : nat; streamFps : Z; transferOwnership : bool; lowLatency : bool }.
Record Draw := {
  lastDraw : Z; averageDrawInterval : Z; frameCredit : double; drawClockStarted : bool; startupBuffering : bool; playoutResyncNeeded : bool;
}.
Record Arrival := {
  arrivalWindowStart : Z; lastArrival : Z; arrivalWindowFrames : nat; arrivalRateSamples : nat; estimatedSourceFps : double;
  adaptiveFrameInterval : Z; arrivalClockStarted : bool;
}.
Record LLFilter := {
  ll_firstArrival : bool; ll_smoothedIntervalNs : double; ll_intervalVelocityNs : double; ll_jitterNs : double; ll_lastArrival : Z;
}.
Record PresentCost := { ll_renderP95Ms : double; ll_gpuSubmitP95Ms : double; ll_havePresentCost : bool }.
Record Stats := {
  fakeFrameUsedStat : nat; framesDroppedStat : nat; emptyQueueStat : nat; rebufferHoldStat : nat; overflowDropStat : nat; pacingSkipStat : nat;
  scheduledHoldStat : nat; pushesSincePop : nat; maxPushBurstStat : nat; localClockPacedFrameStat : nat; playoutResyncStat : nat;
}.

Record AVFrameQueue := {
  queue : list TimedFrame;
  freeQueue : list Z;
  bufferFrame : option Z;
  config : Configuration;
  draw : Draw;
  arrival : Arrival;
  filter_ : LLFilter;
  cost : PresentCost;
  stats : Stats;
}.
Implicit Types q : AVFrameQueue.

Definition no_stats : Stats :=
  {| fakeFrameUsedStat := 0; framesDroppedStat := 0; emptyQueueStat := 0; rebufferHoldStat := 0; overflowDropStat := 0; pacingSkipStat := 0;
     scheduledHoldStat := 0; pushesSincePop := 0; maxPushBurstStat := 0; localClockPacedFrameStat := 0; playoutResyncStat := 0 |}.
Definition fresh_draw (last : Z) : Draw :=
  {| lastDraw := last; averageDrawInterval := 0; frameCredit := dbl 0; drawClockStarted := false; startupBuffering := true; playoutResyncNeeded := true |}.
Definition resetArrivalRateEstimatorLocked (a : Arrival) : Arrival :=
  {| arrivalWindowStart := arrivalWindowStart a; lastArrival := lastArrival a; arrivalWindowFrames := 0; arrivalRateSamples := 0;
     estimatedSourceFps := dbl 0; adaptiveFrameInterval := 0; arrivalClockStarted := false |}.
Definition resetLLFilterLocked : LLFilter :=
  {| ll_firstArrival := true; ll_smoothedIntervalNs := dbl 0; ll_intervalVelocityNs := dbl 0; ll_jitterNs := dbl 0; ll_lastArrival := 0 |}.
Definition no_cost : PresentCost := {| ll_renderP95Ms := dbl 0; ll_gpuSubmitP95Ms := dbl 0; ll_havePresentCost := false |}.
Definition new_queue : AVFrameQueue :=
  {| queue := []; freeQueue := []; bufferFrame := None;
     config := {| limit := 0; targetBufferedFrames := 0; streamFps := 0; transferOwnership := false; lowLatency := false |};
     draw := fresh_draw 0;
     arrival := {| arrivalWindowStart := 0; lastArrival := 0; arrivalWindowFrames := 0; arrivalRateSamples := 0; estimatedSourceFps := dbl 0;
                   adaptiveFrameInterval := 0; arrivalClockStarted := false |};
     filter_ := resetLLFilterLocked; cost := no_cost; stats := no_stats |}.

(** FFmpeg's calls on frames, and three marks: a frame enters the queue, leaves it
    unseen, is shown. *)
Inductive event :=
| Alloc (f : Z)
| RefFrom (f src : Z) (ok : bool)
| Unref (f : Z)
| Free (f : Z)
| Queued (f : Z)
| Dropped (f : Z)
| Shown (f : Z).

(** ** Updates *)

Definition with_frames (l : list TimedFrame) (free : list Z) (b : option Z) q : AVFrameQueue :=
  {| queue := l; freeQueue := free; bufferFrame := b; config := config q; draw := draw q; arrival := arrival q; filter_ := filter_ q;
     cost := cost q; stats := stats q |}.
Definition with_pacing (d : Draw) (a : Arrival) (f : LLFilter) q : AVFrameQueue :=
  {| queue := queue q; freeQueue := freeQueue q; bufferFrame := bufferFrame q; config := config q; draw := d; arrival := a; filter_ := f;
     cost := cost q; stats := stats q |}.
Definition with_stats (s : Stats) q : AVFrameQueue :=
  {| queue := queue q; freeQueue := freeQueue q; bufferFrame := bufferFrame q; config := config q; draw := draw q; arrival := arrival q;
     filter_ := filter_ q; cost := cost q; stats := s |}.
Definition with_cost (c : PresentCost) q : AVFrameQueue :=
  {| queue := queue q; freeQueue := freeQueue q; bufferFrame := bufferFrame q; config := config q; draw := draw q; arrival := arrival q;
     filter_ := filter_ q; cost := c; stats := stats q |}.

(** Statistics, by what happened. *)
Definition count_push (s : Stats) : Stats :=
  let n := S (pushesSincePop s) in
  {| fakeFrameUsedStat := fakeFrameUsedStat s; framesDroppedStat := framesDroppedStat s; emptyQueueStat := emptyQueueStat s;
     rebufferHoldStat := rebufferHoldStat s; overflowDropStat := overflowDropStat s; pacingSkipStat := pacingSkipStat s;
     scheduledHoldStat := scheduledHoldStat s; pushesSincePop := n; maxPushBurstStat := Nat.max (maxPushBurstStat s) n;
     localClockPacedFrameStat := localClockPacedFrameStat s; playoutResyncStat := playoutResyncStat s |}.
Definition count_pop (s : Stats) : Stats :=
  {| fakeFrameUsedStat := fakeFrameUsedStat s; framesDroppedStat := framesDroppedStat s; emptyQueueStat := emptyQueueStat s;
     rebufferHoldStat := rebufferHoldStat s; overflowDropStat := overflowDropStat s; pacingSkipStat := pacingSkipStat s;
     scheduledHoldStat := scheduledHoldStat s; pushesSincePop := 0; maxPushBurstStat := maxPushBurstStat s;
     localClockPacedFrameStat := localClockPacedFrameStat s; playoutResyncStat := playoutResyncStat s |}.
(** [overflow] and [skipped] frames dropped. *)
Definition count_drops (overflow skipped : nat) (s : Stats) : Stats :=
  {| fakeFrameUsedStat := fakeFrameUsedStat s; framesDroppedStat := framesDroppedStat s + overflow + skipped; emptyQueueStat := emptyQueueStat s;
     rebufferHoldStat := rebufferHoldStat s; overflowDropStat := overflowDropStat s + overflow; pacingSkipStat := pacingSkipStat s + skipped;
     scheduledHoldStat := scheduledHoldStat s; pushesSincePop := pushesSincePop s; maxPushBurstStat := maxPushBurstStat s;
     localClockPacedFrameStat := localClockPacedFrameStat s; playoutResyncStat := playoutResyncStat s |}.
(** The old frame shown again, for an empty queue or while buffering. *)
Definition count_fake (empty rebuffer : nat) (s : Stats) : Stats :=
  {| fakeFrameUsedStat := fakeFrameUsedStat s + empty + rebuffer; framesDroppedStat := framesDroppedStat s; emptyQueueStat := emptyQueueStat s + empty;
     rebufferHoldStat := rebufferHoldStat s + rebuffer; overflowDropStat := overflowDropStat s; pacingSkipStat := pacingSkipStat s;
     scheduledHoldStat := scheduledHoldStat s; pushesSincePop := pushesSincePop s; maxPushBurstStat := maxPushBurstStat s;
     localClockPacedFrameStat := localClockPacedFrameStat s; playoutResyncStat := playoutResyncStat s |}.
Definition count_paced (holds paced resyncs : nat) (s : Stats) : Stats :=
  {| fakeFrameUsedStat := fakeFrameUsedStat s; framesDroppedStat := framesDroppedStat s; emptyQueueStat := emptyQueueStat s;
     rebufferHoldStat := rebufferHoldStat s; overflowDropStat := overflowDropStat s; pacingSkipStat := pacingSkipStat s;
     scheduledHoldStat := scheduledHoldStat s + holds; pushesSincePop := pushesSincePop s; maxPushBurstStat := maxPushBurstStat s;
     localClockPacedFrameStat := localClockPacedFrameStat s + paced; playoutResyncStat := playoutResyncStat s + resyncs |}.

(** ** Configuration *)

Definition kBurstHeadroomFrames : nat := 5.
Definition kArrivalRateWindow : Z := 250000000.
Definition kArrivalRateResetGap : Z := 500000000.
Definition kArrivalRateSmoothing : double := lit 35 100.
Definition kOccupancyCorrectionPerFrame : double := lit 1 100.
Definition kMaximumOccupancyCorrection : double := lit 8 100.
Definition kLL_Alpha : double := lit 1 8.
Definition kLL_FastAlpha : double := lit 1 4.

Definition capacityFor (configuredQueueSize : nat) : nat := Nat.max configuredQueueSize 1 + kBurstHeadroomFrames.

Definition configure (queueLimit : nat) (fps : Z) (transfer low : bool) q : AVFrameQueue :=
  let configuredDepth := Nat.max queueLimit 1 in
  let c := {| limit := capacityFor configuredDepth;
              targetBufferedFrames := if (1 <? configuredDepth)%nat then Nat.min (configuredDepth - 1) (if low then 1 else 2) else 0;
              streamFps := fps; transferOwnership := transfer; lowLatency := low |} in
  {| queue := queue q; freeQueue := freeQueue q; bufferFrame := bufferFrame q; config := c; draw := fresh_draw (lastDraw (draw q));
     arrival := resetArrivalRateEstimatorLocked (arrival q); filter_ := resetLLFilterLocked; cost := cost q; stats := stats q |}.

Section casts.
(** What the compiled code makes of a conversion the standard leaves undefined. *)
Context (undefined_cast : double -> Z).
Definition cast_int64 (a : double) : Z := default (undefined_cast a) (to_int64 a).
Definition cast_size (a : double) : nat := Z.to_nat (default (undefined_cast a) (to_uint64 a)).

(** ** The estimators *)

Definition recordArrivalLocked now (fps : Z) (a : Arrival) : Arrival :=
  let restarted := {| arrivalWindowStart := now; lastArrival := now; arrivalWindowFrames := 1; arrivalRateSamples := arrivalRateSamples a;
                      estimatedSourceFps := estimatedSourceFps a; adaptiveFrameInterval := adaptiveFrameInterval a; arrivalClockStarted := true |} in
  if negb (arrivalClockStarted a) then restarted
  else if kArrivalRateResetGap <? now - lastArrival a then restarted
  else
    let frames := S (arrivalWindowFrames a) in
    let elapsed := now - arrivalWindowStart a in
    if elapsed <? kArrivalRateWindow
    then {| arrivalWindowStart := arrivalWindowStart a; lastArrival := now; arrivalWindowFrames := frames; arrivalRateSamples := arrivalRateSamples a;
            estimatedSourceFps := estimatedSourceFps a; adaptiveFrameInterval := adaptiveFrameInterval a; arrivalClockStarted := true |}
    else if (1 <? frames)%nat then
      let maximumFps := if 0 <? fps then dbl fps else dbl 240 in
      let sampleFps := clamp (ddiv (dbl (Z.of_nat (frames - 1))) (seconds elapsed)) (dbl 1) maximumFps in
      let estimated := if (arrivalRateSamples a =? 0)%nat then sampleFps
                       else dadd (dmul (estimatedSourceFps a) (dsub (dbl 1) kArrivalRateSmoothing)) (dmul sampleFps kArrivalRateSmoothing) in
      {| arrivalWindowStart := now; lastArrival := now; arrivalWindowFrames := 1; arrivalRateSamples := S (arrivalRateSamples a);
         estimatedSourceFps := estimated; adaptiveFrameInterval := cast_int64 (ddiv (dbl 1000000000) estimated); arrivalClockStarted := true |}
    else restarted.

(** The new filter and the estimate of the next arrival. *)
Definition updateLLFilterLocked now (fps : Z) (f : LLFilter) : LLFilter * Z :=
  if ll_firstArrival f then
    let smoothed := if 0 <? fps then ddiv (dbl 1000000000) (dbl fps) else ddiv (dbl 1000000000) (dbl 60) in
    ({| ll_firstArrival := false; ll_smoothedIntervalNs := smoothed; ll_intervalVelocityNs := dbl 0; ll_jitterNs := dmul smoothed (lit 1 10);
        ll_lastArrival := now |}, now + cast_int64 smoothed)
  else
    let measuredNs := dbl (now - ll_lastArrival f) in
    let predictedInterval := dadd (ll_smoothedIntervalNs f) (ll_intervalVelocityNs f) in
    let predError := dsub measuredNs predictedInterval in
    let alpha := if dlt (dmul predictedInterval (lit 1 2)) (dabs predError) then kLL_FastAlpha else kLL_Alpha in
    let beta := ddiv (dmul alpha alpha) (dsub (dbl 2) alpha) in
    let smoothed := dadd predictedInterval (dmul alpha predError) in
    let velocity := dadd (ll_intervalVelocityNs f) (dmul beta predError) in
    let smoothed := if 0 <? fps then dmax smoothed (ddiv (dbl 1000000000) (dmul (dbl fps) (lit 12 10))) else smoothed in
    let smoothed := dmin smoothed (dbl 1000000000) in
    let velLimit := dmul smoothed (lit 2 10) in
    ({| ll_firstArrival := false; ll_smoothedIntervalNs := smoothed; ll_intervalVelocityNs := clamp velocity (SFopp velLimit) velLimit;
        ll_jitterNs := dadd (dmul (ll_jitterNs f) (dsub (dbl 1) kLL_Alpha)) (dmul (dabs predError) kLL_Alpha); ll_lastArrival := now |},
     now + cast_int64 smoothed).

(** ** Frames in and out of the pool *)

Definition acquireFrameLocked (alloc : option Z) q : option Z * AVFrameQueue * list event :=
  match freeQueue q with
  | f :: rest => (Some f, with_frames (queue q) rest (bufferFrame q) q, [Unref f])
  | [] => (alloc, q, match alloc with Some f => [Alloc f] | None => [] end)
  end.
Definition recycleWriteFrame (f : option Z) q : AVFrameQueue * list event :=
  match f with
  | None => (q, [])
  | Some f => (with_frames (queue q) (freeQueue q ++ [f]) (bufferFrame q) q, [Unref f])
  end.

(** The loops that drop the oldest frames until [keep] are left: the dropped, the
    rest. *)
Fixpoint trim (keep : nat) (l : list TimedFrame) : list TimedFrame * list TimedFrame :=
  match l with
  | [] => ([], [])
  | tf :: rest => if (keep <? length l)%nat then let '(d, r) := trim keep rest in (tf :: d, r) else ([], l)
  end.
Definition drop_events (l : list TimedFrame) : list event := concat ((fun tf => [Dropped (frame tf); Unref (frame tf)]) <$> l).
Definition drop_to (keep : nat) q : AVFrameQueue * list TimedFrame :=
  let '(d, r) := trim keep (queue q) in (with_frames r (freeQueue q ++ (frame <$> d)) (bufferFrame q) q, d).

(** [makeTimedFrame]; [pending] is what the telemetry had for it. *)
Definition makeTimedFrame (f estimate : Z) (pending : option (Z * Z)) now : TimedFrame :=
  let '(network, decode) := default (now, now) pending in
  {| timeEstimate := estimate; networkComplete := network; decodeDone := decode; queued := now; frame := f |}.

(** ** Pushing *)

(** What [push] and [pushTransferredLocked] do with a frame that is the queue's. *)
Definition enqueue (item : Z) now (pending : option (Z * Z)) q : AVFrameQueue * list event :=
  let fps := streamFps (config q) in
  let '(a, f, estimate) :=
    if lowLatency (config q) then let '(f, e) := updateLLFilterLocked now fps (filter_ q) in (arrival q, f, e)
    else (recordArrivalLocked now fps (arrival q), filter_ q, 0) in
  let q := with_pacing (draw q) a f q in
  let q := with_frames (queue q ++ [makeTimedFrame item estimate pending now]) (freeQueue q) (bufferFrame q) q in
  let q := with_stats (count_push (stats q)) q in
  if (limit (config q) <? length (queue q))%nat then
    let '(q, d) := drop_to (targetBufferedFrames (config q) + 1) q in
    let q := with_stats (count_drops (length d) 0 (stats q)) q in
    let q := if lowLatency (config q) then with_pacing (draw q) (arrival q) resetLLFilterLocked q
             else with_pacing {| lastDraw := lastDraw (draw q); averageDrawInterval := averageDrawInterval (draw q);
                                 frameCredit := frameCredit (draw q); drawClockStarted := drawClockStarted (draw q);
                                 startupBuffering := startupBuffering (draw q); playoutResyncNeeded := true |}
                    (resetArrivalRateEstimatorLocked (arrival q)) (filter_ q) q in
    (q, Queued item :: drop_events d)
  else (q, [Queued item]).

Definition pushTransferred (item : option Z) now (pending : option (Z * Z)) q : bool * AVFrameQueue * list event :=
  match item with
  | None => (false, q, [])
  | Some item => let '(q, e) := enqueue item now pending q in (true, q, e)
  end.

(** [alloc] is what [av_frame_alloc] gives, [ref_ok] whether [av_frame_ref]
    succeeds. *)
Definition push (item : option Z) (alloc : option Z) (ref_ok : bool) now (pending : option (Z * Z)) q : bool * AVFrameQueue * list event :=
  match item with
  | None => (false, q, [])
  | Some src =>
      if transferOwnership (config q) then pushTransferred item now pending q
      else
        match acquireFrameLocked alloc q with
        | (None, q, e) => (false, q, e)
        | (Some f, q, e) =>
            if negb ref_ok then (false, q, e ++ [RefFrom f src false; Free f])
            else let '(q, e') := enqueue f now pending q in (true, q, e ++ RefFrom f src true :: e')
        end
  end.

(** ** Popping *)

(** What a [pop] returned ([bufferFrame] of the new state) and the telemetry stamp
    of the frame selected on the low-latency path. *)
Record Popped := { pp_queue : AVFrameQueue; pp_consumed : bool; pp_selected : option TimedFrame; pp_events : list event }.
Definition held q : Popped := {| pp_queue := q; pp_consumed := false; pp_selected := None; pp_events := [] |}.

(** [recycleFrame(freeQueue, bufferFrame)]. *)
Definition recycle_buffer q : AVFrameQueue * list event :=
  match bufferFrame q with
  | None => (q, [])
  | Some f => (with_frames (queue q) (freeQueue q ++ [f]) None q, [Unref f])
  end.

(** [prepareLatestFrame]: the frames it drops and the queue it leaves, when one is
    released. *)
Definition prepareLatestFrame now (lead : Z) (target : nat) (l : list TimedFrame) : option (list TimedFrame * list TimedFrame) :=
  match l with
  | [] => None
  | front :: _ =>
      let backlogged := (target <? length l - 1)%nat in
      if negb backlogged && (now <? timeEstimate front - lead) then None else Some (trim 1 l)
  end.

Definition gate_lead q : Z :=
  let jitterMs := ddiv (ll_jitterNs (filter_ q)) (dbl 1000000) in
  let leadMs := presentGateLeadMs (ll_renderP95Ms (cost q)) (ll_gpuSubmitP95Ms (cost q)) (ll_havePresentCost (cost q)) jitterMs in
  cast_int64 (dmul (dmax (dbl 0) leadMs) (dbl 1000000)).

Definition pop_low_latency now q : Popped :=
  match queue q with
  | [] => held (match bufferFrame q with Some _ => with_stats (count_fake 1 0 (stats q)) q | None => q end)
  | _ :: _ =>
      match prepareLatestFrame now (gate_lead q) (targetBufferedFrames (config q)) (queue q) with
      | Some (d, selected :: rest) =>
          let q := with_frames (selected :: rest) (freeQueue q ++ (frame <$> d)) (bufferFrame q) q in
          let q := with_stats (count_drops 0 (length d) (stats q)) q in
          let '(q, e) := recycle_buffer q in
          let q := with_frames rest (freeQueue q) (Some (frame selected)) q in
          {| pp_queue := with_stats (count_paced 0 1 0 (stats q)) q; pp_consumed := true; pp_selected := Some selected;
             pp_events := drop_events d ++ e ++ [Shown (frame selected)] |}
      | _ => held (with_stats (count_paced 1 0 0 (stats q)) q)
      end
  end.

(** The clock of the draws. *)
Definition draw_clock now (d : Draw) : Draw :=
  if negb (drawClockStarted d)
  then {| lastDraw := now; averageDrawInterval := averageDrawInterval d; frameCredit := frameCredit d; drawClockStarted := true;
          startupBuffering := startupBuffering d; playoutResyncNeeded := playoutResyncNeeded d |}
  else
    let drawInterval := now - lastDraw d in
    if (drawInterval <=? 0) || (250000000 <? drawInterval)
    then {| lastDraw := now; averageDrawInterval := 0; frameCredit := dbl 0; drawClockStarted := true;
            startupBuffering := startupBuffering d; playoutResyncNeeded := true |}
    else {| lastDraw := now;
            averageDrawInterval := if averageDrawInterval d =? 0 then drawInterval else Z.quot (averageDrawInterval d * 15 + drawInterval) 16;
            frameCredit := frameCredit d; drawClockStarted := true; startupBuffering := startupBuffering d;
            playoutResyncNeeded := playoutResyncNeeded d |}.
Definition set_credit (credit : double) (startup resync : bool) (d : Draw) : Draw :=
  {| lastDraw := lastDraw d; averageDrawInterval := averageDrawInterval d; frameCredit := credit; drawClockStarted := drawClockStarted d;
     startupBuffering := startup; playoutResyncNeeded := resync |}.

(** The frames due at this draw and the new credit, from the estimates. *)
Definition due_from_rate q : nat * double :=
  let d := draw q in
  let baseFramesPerDraw := ddiv (dbl (averageDrawInterval d)) (dbl (adaptiveFrameInterval (arrival q))) in
  let desiredDepth := dbl (Z.of_nat (targetBufferedFrames (config q) + 1)) in
  let depthError := dsub (dbl (zlen (queue q))) desiredDepth in
  let occupancyCorr := clamp (dmul depthError kOccupancyCorrectionPerFrame) (SFopp kMaximumOccupancyCorrection) kMaximumOccupancyCorrection in
  let framesPerDraw := dmax (dbl 0) (dadd baseFramesPerDraw occupancyCorr) in
  if dle (lit 98 100) baseFramesPerDraw && dle baseFramesPerDraw (lit 102 100) && deq depthError (dbl 0) then (1%nat, dbl 0)
  else
    let credit := dadd (frameCredit d) framesPerDraw in
    let wholeFrames := cast_size credit in
    (Nat.min wholeFrames (limit (config q)), dsub credit (dbl (Z.of_nat wholeFrames))).

(** The frames due at a draw: a resync trims the queue first. *)
Definition due_frames q : nat * AVFrameQueue * list event :=
  let d := draw q in
  let backlogResync := (0 <? limit (config q))%nat && (limit (config q) <=? length (queue q))%nat in
  if (playoutResyncNeeded d || backlogResync) && negb (bool_decide (queue q = [])) then
    let '(q, dropped) := drop_to (targetBufferedFrames (config q) + 1) q in
    let q := with_stats (count_paced 0 0 1 (count_drops 0 (length dropped) (stats q))) q in
    (1%nat, with_pacing (set_credit (dbl 0) (startupBuffering d) false d)
              (if backlogResync then resetArrivalRateEstimatorLocked (arrival q) else arrival q) (filter_ q) q, drop_events dropped)
  else if (arrivalRateSamples (arrival q) =? 0)%nat || (adaptiveFrameInterval (arrival q) <=? 0) || (averageDrawInterval d <=? 0) then
    ((if (targetBufferedFrames (config q) <? length (queue q))%nat then 1 else 0)%nat, q, [])
  else
    let '(due, credit) := due_from_rate q in
    (due, with_pacing (set_credit credit (startupBuffering d) (playoutResyncNeeded d) d) (arrival q) (filter_ q) q, []).

(** [consume n]: the first [n] frames leave, the last of them is shown. *)
Definition consume (n : nat) q : AVFrameQueue * list event :=
  let '(q, e) := recycle_buffer q in
  let skipped := take (n - 1) (queue q) in
  match drop (n - 1) (queue q) with
  | [] => (q, e)
  | item :: rest =>
      let q := with_frames rest (freeQueue q ++ (frame <$> skipped)) (Some (frame item)) q in
      (with_stats (count_paced 0 1 0 (count_drops 0 (length skipped) (stats q))) q, e ++ drop_events skipped ++ [Shown (frame item)])
  end.

Definition pop_legacy now q : Popped :=
  let q := with_pacing (draw_clock now (draw q)) (arrival q) (filter_ q) q in
  if startupBuffering (draw q) && (length (queue q) <=? targetBufferedFrames (config q))%nat then
    held (match bufferFrame q with Some _ => with_stats (count_fake 0 1 (stats q)) q | None => q end)
  else
    let q := if startupBuffering (draw q) then with_pacing (set_credit (dbl 0) false true (draw q)) (arrival q) (filter_ q) q else q in
    let '(due, q, dropped) := due_frames q in
    match due with
    | O => {| pp_queue := with_stats (count_paced 1 0 0 (stats q)) q; pp_consumed := false; pp_selected := None; pp_events := dropped |}
    | S _ =>
        if bool_decide (queue q = []) then
          let q := match bufferFrame q with Some _ => with_stats (count_fake 1 0 (stats q)) q | None => q end in
          {| pp_queue := with_pacing (set_credit (dbl 0) (startupBuffering (draw q)) true (draw q))
                           (resetArrivalRateEstimatorLocked (arrival q)) (filter_ q) q;
             pp_consumed := false; pp_selected := None; pp_events := dropped |}
        else
          let '(q, e) := consume (Nat.min (length (queue q)) due) q in
          {| pp_queue := q; pp_consumed := true; pp_selected := None; pp_events := dropped ++ e |}
    end.

Definition pop now q : Popped :=
  let q := with_stats (count_pop (stats q)) q in
  if lowLatency (config q) then pop_low_latency now q else pop_legacy now q.

(** ** Cleaning up *)

Definition updatePresentCostMs (render gpu : double) (samples : bool) q : AVFrameQueue :=
  with_cost {| ll_renderP95Ms := render; ll_gpuSubmitP95Ms := gpu; ll_havePresentCost := samples |} q.

Definition cleanup q : AVFrameQueue * list event :=
  ({| queue := []; freeQueue := []; bufferFrame := None; config := config q; draw := fresh_draw (lastDraw (draw q));
      arrival := resetArrivalRateEstimatorLocked (arrival q); filter_ := resetLLFilterLocked; cost := no_cost; stats := no_stats |},
   match bufferFrame q with Some f => [Free f] | None => [] end ++
   concat ((fun tf => [Dropped (frame tf); Free (frame tf)]) <$> queue q) ++ (Free <$> freeQueue q)).

Definition getEstimatedSourceFps q : double :=
  if lowLatency (config q) && dlt (dbl 0) (ll_smoothedIntervalNs (filter_ q)) then ddiv (dbl 1000000000) (ll_smoothedIntervalNs (filter_ q))
  else estimatedSourceFps (arrival q).
Definition getJitterMs q : double := ddiv (ll_jitterNs (filter_ q)) (dbl 1000000).
End casts.

(** ** Ownership of the frames *)

(** Queueing, dropping and showing move a frame inside the queue; [Unref] and
    [RefFrom] change what it refers to. *)
#[export] Instance frame_uses : Uses event Z := {
  needs e := match e with Alloc _ => ∅ | RefFrom f src _ => {[+ f; src +]} | Unref f | Free f | Queued f | Dropped f | Shown f => {[+ f +]} end;
  gives e := match e with Free _ => ∅ | RefFrom f src _ => {[+ f; src +]} | Alloc f | Unref f | Queued f | Dropped f | Shown f => {[+ f +]} end;
}.
Ltac frames_solver := moves_with ltac:(fun _ => cbn [needs gives frame_uses]).

Definition own_list (l : list Z) : gmultiset Z := list_to_set_disj l.
#[global] Arguments own_list : simpl never.
Definition own_frame (f : option Z) : gmultiset Z := match f with Some f => {[+ f +]} | None => ∅ end.
Definition owned q : gmultiset Z := own_list (frame <$> queue q) ⊎ own_list (freeQueue q) ⊎ own_frame (bufferFrame q).

Lemma own_list_cons f l : own_list (f :: l) = {[+ f +]} ⊎ own_list l.
Proof. done. Qed.
Lemma own_list_app l1 l2 : own_list (l1 ++ l2) = own_list l1 ⊎ own_list l2.
Proof. apply list_to_set_disj_app. Qed.
Lemma own_list_nil : own_list [] = ∅.
Proof. done. Qed.
Ltac own_simpl := rewrite ?fmap_app, ?fmap_cons, ?fmap_nil, ?own_list_app, ?own_list_cons, ?own_list_nil; cbn [own_frame frame].

(** ** The order of the frames *)

(** The frames that entered the queue and those that left it, in order. *)
Definition entered (l : list event) : list Z := omap (fun e => match e with Queued f => Some f | _ => None end) l.
Definition left (l : list event) : list Z := omap (fun e => match e with Dropped f | Shown f => Some f | _ => None end) l.
Definition shown (l : list event) : list Z := omap (fun e => match e with Shown f => Some f | _ => None end) l.
Definition dropped (l : list event) : list Z := omap (fun e => match e with Dropped f => Some f | _ => None end) l.

(** What every operation keeps: the events move what the queue owns, frames leave
    in the order they came, and the counters count. *)
Record kept (q : AVFrameQueue) (e : list event) (q' : AVFrameQueue) (inn out : gmultiset Z) : Prop := {
  kept_owned : moves e (owned q ⊎ inn) (owned q' ⊎ out);
  kept_order : (frame <$> queue q) ++ entered e = left e ++ (frame <$> queue q');
  kept_drops : framesDroppedStat (stats q') = (framesDroppedStat (stats q) + length (dropped e))%nat;
  kept_shown : localClockPacedFrameStat (stats q') = (localClockPacedFrameStat (stats q) + length (shown e))%nat;
  kept_sum : framesDroppedStat (stats q) = (overflowDropStat (stats q) + pacingSkipStat (stats q))%nat ->
             framesDroppedStat (stats q') = (overflowDropStat (stats q') + pacingSkipStat (stats q'))%nat;
  kept_fake : fakeFrameUsedStat (stats q) = (emptyQueueStat (stats q) + rebufferHoldStat (stats q))%nat ->
              fakeFrameUsedStat (stats q') = (emptyQueueStat (stats q') + rebufferHoldStat (stats q'))%nat;
}.

Lemma entered_app l1 l2 : entered (l1 ++ l2) = entered l1 ++ entered l2.
Proof. apply omap_app. Qed.
Lemma left_app l1 l2 : left (l1 ++ l2) = left l1 ++ left l2.
Proof. apply omap_app. Qed.
Lemma shown_app l1 l2 : shown (l1 ++ l2) = shown l1 ++ shown l2.
Proof. apply omap_app. Qed.
Lemma dropped_app l1 l2 : dropped (l1 ++ l2) = dropped l1 ++ dropped l2.
Proof. apply omap_app. Qed.
Lemma drop_events_log l :
  entered (drop_events l) = [] /\ left (drop_events l) = frame <$> l /\ dropped (drop_events l) = frame <$> l /\ shown (drop_events l) = [].
Proof. induction l as [|tf l (IH1 & IH2 & IH3 & IH4)]; [done|]. split; [exact IH1|]. rewrite fmap_cons.
  split; [change (frame tf :: left (drop_events l) = frame tf :: (frame <$> l)); by rewrite IH2|].
  split; [change (frame tf :: dropped (drop_events l) = frame tf :: (frame <$> l)); by rewrite IH3|exact IH4].
Qed.

Lemma kept_app q1 q2 q3 e1 e2 i o o' : kept q1 e1 q2 i o -> kept q2 e2 q3 o o' -> kept q1 (e1 ++ e2) q3 i o'.
Proof.
  intros [H1 H2 H3 H4 H5 H6] [K1 K2 K3 K4 K5 K6]. split; [by eapply moves_app| | | |auto..].
  - rewrite entered_app, left_app, (assoc_L (++)), H2, <- (assoc_L (++)), K2. by rewrite (assoc_L (++)).
  - rewrite dropped_app, length_app. lia.
  - rewrite shown_app, length_app. lia.
Qed.

Lemma kept_frame q e q' i o x : kept q e q' i o -> kept q e q' (i ⊎ x) (o ⊎ x).
Proof. intros [H1 H2 H3 H4 H5 H6]. split; try done. rewrite !(assoc_L (⊎)). by apply moves_frame. Qed.

(** An operation with no event that keeps the frames. *)
Lemma kept_quiet q q' :
  queue q' = queue q -> freeQueue q' = freeQueue q -> bufferFrame q' = bufferFrame q ->
  framesDroppedStat (stats q') = framesDroppedStat (stats q) -> localClockPacedFrameStat (stats q') = localClockPacedFrameStat (stats q) ->
  overflowDropStat (stats q') = overflowDropStat (stats q) -> pacingSkipStat (stats q') = pacingSkipStat (stats q) ->
  (fakeFrameUsedStat (stats q) = (emptyQueueStat (stats q) + rebufferHoldStat (stats q))%nat ->
   fakeFrameUsedStat (stats q') = (emptyQueueStat (stats q') + rebufferHoldStat (stats q'))%nat) -> kept q [] q' ∅ ∅.
Proof.
  intros E1 E2 E3 E4 E5 E6 E7 E8. split; cbn [entered left dropped shown omap list_omap length]; rewrite ?E1, ?app_nil_r; try lia; try done.
  apply moves_done. unfold owned. by rewrite E1, E2, E3.
Qed.

Lemma trim_spec keep l : trim keep l = (take (length l - keep) l, drop (length l - keep) l).
Proof.
  induction l as [|tf l IH]; [done|]. cbn [trim]. destruct (Nat.ltb_spec keep (length (tf :: l))) as [H|H]; cbn [length] in H.
  - rewrite IH. cbn [length]. by replace (S (length l) - keep)%nat with (S (length l - keep)) by lia.
  - cbn [length]. by replace (S (length l) - keep)%nat with 0%nat by lia.
Qed.

Lemma drop_events_moves l : moves (drop_events l) (own_list (frame <$> l)) (own_list (frame <$> l)).
Proof.
  induction l as [|tf l IH]; [apply moves_nil|]. change (drop_events (tf :: l)) with ([Dropped (frame tf); Unref (frame tf)] ++ drop_events l).
  own_simpl. apply (moves_app _ _ _ ({[+ frame tf +]} ⊎ own_list (frame <$> l))); [frames_solver|].
  rewrite !(comm_L (⊎) {[+ frame tf +]}). by apply moves_frame.
Qed.

(** The frames [d] leave the front for the pool. *)
Lemma drop_kept q d r over skip :
  queue q = d ++ r -> (over + skip)%nat = length d ->
  kept q (drop_events d) (with_stats (count_drops over skip (stats q)) (with_frames r (freeQueue q ++ (frame <$> d)) (bufferFrame q) q)) ∅ ∅.
Proof.
  intros Hq Hn. destruct (drop_events_log d) as (L1 & L2 & L3 & L4).
  split; cbn [queue freeQueue bufferFrame stats with_frames with_stats count_drops framesDroppedStat localClockPacedFrameStat overflowDropStat
    pacingSkipStat fakeFrameUsedStat emptyQueueStat rebufferHoldStat]; rewrite ?L1, ?L2, ?L3, ?L4, ?length_fmap; cbn [length]; try lia.
  - unfold owned; cbn [queue freeQueue bufferFrame with_stats with_frames]. rewrite Hq. own_simpl.
    eapply moves_eq; [apply moves_frame with (x := own_list (frame <$> r) ⊎ own_list (freeQueue q) ⊎ own_frame (bufferFrame q)), (drop_events_moves d)|
      multiset_solver..].
  - by rewrite app_nil_r, Hq, fmap_app.
Qed.

Lemma drop_to_kept q keep over skip :
  let '(q', d) := drop_to keep q in
  (over + skip)%nat = length d -> kept q (drop_events d) (with_stats (count_drops over skip (stats q)) q') ∅ ∅.
Proof.
  unfold drop_to. rewrite trim_spec. intros Hn. apply drop_kept; [by rewrite take_drop|done].
Qed.
Lemma drop_to_length q keep : length (queue (drop_to keep q).1) = Nat.min (length (queue q)) keep.
Proof. unfold drop_to. rewrite trim_spec. cbn. rewrite length_drop. lia. Qed.

Lemma queued_kept q item tf d a f :
  frame tf = item ->
  kept q [Queued item]
    (with_stats (count_push (stats q)) (with_frames (queue q ++ [tf]) (freeQueue q) (bufferFrame q) (with_pacing d a f q))) {[+ item +]} ∅.
Proof.
  intros <-. split; cbn; try lia; try done.
  - unfold owned; cbn. own_simpl. frames_solver.
  - by rewrite fmap_app.
Qed.

Lemma enqueue_kept u item now pending q : kept q (enqueue u item now pending q).2 (enqueue u item now pending q).1 {[+ item +]} ∅.
Proof.
  unfold enqueue.
  destruct (if lowLatency (config q) then _ else _) as [[a f] estimate].
  match goal with |- context [with_stats _ (with_frames (queue _ ++ [?tf]) _ _ _)] => assert (frame tf = item) as Hf by (unfold makeTimedFrame; by destruct pending as [[]|]) end.
  pose proof (queued_kept q item _ (draw q) a f Hf) as H1.
  match type of H1 with kept _ _ ?x _ _ => set (q1 := x) in * end.
  cbv zeta. destruct (_ <? _)%nat; [|exact H1]. match goal with |- context [drop_to _ ?x] => change x with q1 end.
  pose proof (drop_to_kept q1 (targetBufferedFrames (config q1) + 1)) as H2.
  destruct (drop_to (targetBufferedFrames (config q1) + 1) q1) as [q2 d] eqn:Ed. specialize (H2 (length d) 0%nat ltac:(lia)).
  replace (stats q1) with (stats q2) in H2 by (unfold drop_to in Ed; rewrite trim_spec in Ed; injection Ed as <- _; done).
  set (q3 := with_stats (count_drops (length d) 0 (stats q2)) q2) in *.
  assert (forall dr a' f', kept q (Queued item :: drop_events d) (with_pacing dr a' f' q3) {[+ item +]} ∅) as Hp.
  { intros dr a' f'. rewrite <- (app_nil_r (drop_events d)). eapply (kept_app q q1 _ [Queued item]); [exact H1|].
    eapply kept_app; [exact H2|]. apply kept_quiet; done || lia. }
  destruct (lowLatency (config q3)); apply Hp.
Qed.

(** Calls on frames that leave the queue as it is. *)
Lemma kept_silent q e i o :
  moves e (owned q ⊎ i) (owned q ⊎ o) -> entered e = [] -> left e = [] -> dropped e = [] -> shown e = [] -> kept q e q i o.
Proof. intros Hm E1 E2 E3 E4. split; rewrite ?E1, ?E2, ?E3, ?E4, ?app_nil_r; cbn [length]; try lia; done. Qed.

(** The pool gives a frame, its own or a new one. *)
Lemma acquire_kept alloc q :
  let '(f, q', e) := acquireFrameLocked alloc q in kept q e q' ∅ (own_frame f).
Proof.
  unfold acquireFrameLocked. destruct (freeQueue q) as [|f rest] eqn:Ef.
  - destruct alloc as [f|]; (split; cbn; [|by rewrite ?app_nil_r|lia|lia|done|done]); unfold owned; frames_solver.
  - split; cbn; [|by rewrite app_nil_r|lia|lia|done|done]. unfold owned; cbn. rewrite Ef. own_simpl. frames_solver.
Qed.
Lemma recycle_kept f q : kept q (recycleWriteFrame f q).2 (recycleWriteFrame f q).1 (own_frame f) ∅.
Proof.
  destruct f as [f|]; (split; cbn; [|by rewrite ?app_nil_r|lia|lia|done|done]); unfold owned; cbn; own_simpl; frames_solver.
Qed.

(** A caller's frame: the queue takes it, or copies what it refers to. *)
Lemma pushTransferred_kept u item now pending q :
  let '(ok, q', e) := pushTransferred u (Some item) now pending q in ok = true /\ kept q e q' {[+ item +]} ∅.
Proof. cbn. pose proof (enqueue_kept u item now pending q). by destruct (enqueue u item now pending q). Qed.

Lemma push_copy_kept u src alloc ref_ok now pending q :
  transferOwnership (config q) = false ->
  let '(ok, q', e) := push u (Some src) alloc ref_ok now pending q in kept q e q' {[+ src +]} {[+ src +]}.
Proof.
  intros Ht. unfold push. rewrite Ht. pose proof (acquire_kept alloc q) as H1. destruct (acquireFrameLocked alloc q) as [[[f|] q1] e1].
  2: { eapply kept_frame with (x := {[+ src +]}) in H1. cbn [own_frame] in H1. by rewrite !(left_id_L ∅ (⊎)) in H1. }
  eapply kept_frame with (x := {[+ src +]}) in H1. rewrite (left_id_L ∅ (⊎)) in H1. cbn [own_frame] in H1.
  destruct ref_ok; cbn [negb].
  - pose proof (enqueue_kept u f now pending q1) as H2. destruct (enqueue u f now pending q1) as [q2 e2]; cbn [fst snd] in H2.
    eapply kept_app; [exact H1|]. eapply kept_frame with (x := {[+ src +]}) in H2. rewrite (left_id_L ∅ (⊎)) in H2.
    apply (kept_app q1 q1 q2 [RefFrom f src true] e2 _ ({[+ f +]} ⊎ {[+ src +]})); [|exact H2].
    apply kept_silent; [|done..]. frames_solver.
  - eapply kept_app; [exact H1|]. apply kept_silent; [|done..]. frames_solver.
Qed.

(** ** Popping keeps the frames *)

Lemma held_kept q q' : kept q [] q' ∅ ∅ -> kept q (pp_events (held q')) (pp_queue (held q')) ∅ ∅.
Proof. done. Qed.

(** The buffer frame goes back to the pool and the head of the queue takes its
    place. *)
Lemma show_kept q item rest :
  queue q = item :: rest ->
  let '(q1, e) := recycle_buffer q in
  kept q (e ++ [Shown (frame item)])
    (with_stats (count_paced 0 1 0 (stats q1)) (with_frames rest (freeQueue q1) (Some (frame item)) q1)) ∅ ∅.
Proof.
  intros Hq. unfold recycle_buffer. destruct (bufferFrame q) as [f|] eqn:Eb;
    (split; cbn; [|by rewrite Hq, ?app_nil_r|lia|lia|lia|lia]); unfold owned; cbn; rewrite Hq, Eb; own_simpl; frames_solver.
Qed.

Lemma fake_kept q empty rebuffer : kept q [] (match bufferFrame q with Some _ => with_stats (count_fake empty rebuffer (stats q)) q | None => q end) ∅ ∅.
Proof. destruct (bufferFrame q); apply kept_quiet; cbn; done || lia. Qed.
Lemma pacing_kept q d a f : kept q [] (with_pacing d a f q) ∅ ∅.
Proof. by apply kept_quiet. Qed.
Lemma paced_kept q holds resyncs : kept q [] (with_stats (count_paced holds 0 resyncs (stats q)) q) ∅ ∅.
Proof. apply kept_quiet; cbn; done || lia. Qed.
Lemma kept_nil q1 q2 q3 e : kept q1 [] q2 ∅ ∅ -> kept q2 e q3 ∅ ∅ -> kept q1 e q3 ∅ ∅.
Proof. apply (kept_app q1 q2 q3 []). Qed.
Lemma kept_nil_r q1 q2 q3 e : kept q1 e q2 ∅ ∅ -> kept q2 [] q3 ∅ ∅ -> kept q1 e q3 ∅ ∅.
Proof. intros H1 H2. rewrite <- (app_nil_r e). by eapply kept_app. Qed.

Lemma prepareLatestFrame_spec now lead target l d r :
  prepareLatestFrame now lead target l = Some (d, r) -> l = d ++ r /\ length r = 1%nat.
Proof.
  unfold prepareLatestFrame. destruct l as [|front l]; [done|]. destruct (negb _ && _); [done|]. rewrite trim_spec. intros [= <- <-]. split; [by rewrite take_drop|]. rewrite length_drop. cbn [length]. lia.
Qed.

Lemma pop_low_latency_kept u now q : kept q (pp_events (pop_low_latency u now q)) (pp_queue (pop_low_latency u now q)) ∅ ∅.
Proof.
  unfold pop_low_latency. destruct (queue q) as [|tf0 l0] eqn:Eq0; [apply fake_kept|]. rewrite <- Eq0.
  destruct (prepareLatestFrame _ _ _ _) as [[d [|selected rest]]|] eqn:Ep; [apply paced_kept| |apply paced_kept].
  apply prepareLatestFrame_spec in Ep as [Eq _].
  pose proof (drop_kept q d (selected :: rest) 0 (length d) Eq eq_refl) as H1.
  match type of H1 with kept _ _ ?x _ _ => set (q1 := x) in * end. cbv zeta.
  match goal with |- context [recycle_buffer ?x] => change x with q1 end.
  pose proof (show_kept q1 selected rest eq_refl) as H2. destruct (recycle_buffer q1) as [q2 e]. cbn [pp_events pp_queue]. eapply kept_app; [exact H1|exact H2].
Qed.

Lemma due_frames_kept u q : let '(due, q', e) := due_frames u q in kept q e q' ∅ ∅.
Proof.
  unfold due_frames. cbv zeta. destruct (_ && negb _).
  - pose proof (drop_to_kept q (targetBufferedFrames (config q) + 1)) as H. destruct (drop_to _ q) as [q1 d] eqn:Ed.
    replace (stats q1) with (stats q) by (unfold drop_to in Ed; rewrite trim_spec in Ed; by injection Ed as <- _).
    eapply kept_nil_r; [exact (H 0%nat (length d) eq_refl)|]. apply kept_quiet; cbn; done || lia.
  - destruct (_ || _); [by apply kept_quiet|]. destruct (due_from_rate u q). apply pacing_kept.
Qed.

Lemma consume_kept n q : queue q <> [] -> (1 <= n <= length (queue q))%nat -> kept q (consume n q).2 (consume n q).1 ∅ ∅.
Proof.
  intros Hq Hn. unfold consume, recycle_buffer.
  assert (exists item rest, drop (n - 1) (queue q) = item :: rest) as (item & rest & Ed).
  { destruct (drop (n - 1) (queue q)) eqn:E; [|by eexists _, _]. apply (f_equal length) in E. rewrite length_drop in E. cbn in E. lia. }
  pose proof (take_drop (n - 1) (queue q)) as Etd. rewrite Ed in Etd. set (skipped := take (n - 1) (queue q)) in *.
  destruct (drop_events_log skipped) as (L1 & L2 & L3 & L4).
  assert (forall fr e0, moves (e0 ++ drop_events skipped ++ [Shown (frame item)]) (owned q)
     (own_list (frame <$> rest) ⊎ own_list (fr ++ (frame <$> skipped)) ⊎ {[+ frame item +]}) ->
     entered e0 = [] -> left e0 = [] -> dropped e0 = [] -> shown e0 = [] ->
     kept q (e0 ++ drop_events skipped ++ [Shown (frame item)])
       (with_stats (count_paced 0 1 0 (count_drops 0 (length skipped) (stats q))) (with_frames rest (fr ++ (frame <$> skipped)) (Some (frame item)) q)) ∅ ∅) as Hk.
  { intros fr e0 Hm E1 E2 E3 E4. split; rewrite ?entered_app, ?left_app, ?dropped_app, ?shown_app, ?L1, ?L2, ?L3, ?L4, ?E1, ?E2, ?E3, ?E4;
      cbn -[own_list]; rewrite ?length_fmap; try lia.
    - rewrite !(right_id_L ∅ (⊎)). exact Hm.
    - rewrite <- Etd, app_nil_r, fmap_app. cbn. by rewrite <- (assoc_L (++)).
    - rewrite app_nil_r, length_fmap. lia. }
  assert (moves (drop_events skipped) (owned q) (owned q)) as Hd.
  { apply (moves_within _ _ _ (drop_events_moves skipped)). unfold owned. rewrite <- Etd. own_simpl. clear. multiset_solver. }
  assert (moves [Shown (frame item)] (owned q) (owned q)) as Hs.
  { apply (moves_within _ {[+ frame item +]}); [frames_solver|]. unfold owned. rewrite <- Etd. own_simpl. clear. multiset_solver. }
  assert (forall fr, own_list fr = own_list (freeQueue q) ⊎ own_frame (bufferFrame q) ->
    own_list (frame <$> rest) ⊎ own_list (fr ++ (frame <$> skipped)) ⊎ {[+ frame item +]} = owned q) as Hw.
  { intros fr Hf. unfold owned. rewrite <- Etd. own_simpl. rewrite Hf. clear. multiset_solver. }
  destruct (bufferFrame q) as [f|] eqn:Eb; cbn [fst snd queue with_frames]; fold skipped; rewrite Ed; cbn [fst snd].
  - apply (Hk (freeQueue q ++ [f]) [Unref f]); [|done..]. eapply moves_eq; [|done|apply Hw; own_simpl; clear; multiset_solver].
    apply (moves_app _ _ _ (owned q)); [apply (moves_within _ {[+ f +]}); [frames_solver|unfold owned; rewrite Eb; clear; multiset_solver]|].
    apply (moves_app _ _ _ (owned q)); [exact Hd|exact Hs].
  - apply (Hk (freeQueue q) []); [|done..]. eapply moves_eq; [|done|apply Hw; own_simpl; clear; multiset_solver].
    apply (moves_app (drop_events skipped) _ _ (owned q)); [exact Hd|exact Hs].
Qed.

Lemma pop_legacy_kept u now q : kept q (pp_events (pop_legacy u now q)) (pp_queue (pop_legacy u now q)) ∅ ∅.
Proof.
  unfold pop_legacy. set (q1 := with_pacing (draw_clock now (draw q)) _ _ q). cbv zeta.
  apply (kept_nil q q1); [apply pacing_kept|].
  destruct (_ && _); [apply fake_kept|].
  assert (kept q1 [] (if startupBuffering (draw q1) then with_pacing (set_credit (dbl 0) false true (draw q1)) (arrival q1) (filter_ q1) q1 else q1) ∅ ∅) as H2
    by (destruct (startupBuffering (draw q1)); by apply kept_quiet).
  eapply kept_nil; [exact H2|]. generalize (if startupBuffering (draw q1) then with_pacing (set_credit (dbl 0) false true (draw q1)) (arrival q1) (filter_ q1) q1 else q1).
  clear H2. clearbody q1. clear q q1. intros q.
  pose proof (due_frames_kept u q) as H3. destruct (due_frames u q) as [[[|n] q2] e]; [eapply kept_nil_r; [exact H3|apply paced_kept]|].
  destruct (bool_decide (queue q2 = [])) eqn:Eq.
  - eapply kept_nil_r; [exact H3|]. eapply kept_nil; [apply (fake_kept q2 1 0)|apply pacing_kept].
  - apply bool_decide_eq_false in Eq. assert (length (queue q2) <> 0%nat) by (by destruct (queue q2)).
    pose proof (consume_kept (Nat.min (length (queue q2)) (S n)) q2 Eq ltac:(lia)) as H4. destruct (consume _ q2). eapply kept_app; [exact H3|exact H4].
Qed.

Lemma pop_kept u now q : kept q (pp_events (pop u now q)) (pp_queue (pop u now q)) ∅ ∅.
Proof.
  unfold pop. cbv zeta. apply (kept_nil q (with_stats (count_pop (stats q)) q)); [by apply kept_quiet|].
  destruct (lowLatency _); [apply pop_low_latency_kept|apply pop_legacy_kept].
Qed.

(** ** Everything freed *)

Lemma cleanup_log q :
  entered (cleanup q).2 = [] /\ left (cleanup q).2 = frame <$> queue q /\ moves (cleanup q).2 (owned q) ∅.
Proof.
  unfold cleanup, owned. cbn [snd].
  assert (forall l, entered (Free <$> l) = [] /\ left (Free <$> l) = [] /\ moves (Free <$> l) (own_list l) ∅) as Hf.
  { induction l as [|f l (E1 & E2 & IH)]; [split; [done|split; [done|apply moves_nil]]|]. split; [exact E1|]. split; [exact E2|].
    own_simpl. apply (moves_cons (Free f) _ (own_list l)); [done|]. cbn [gives frame_uses]. by rewrite (left_id_L ∅ (⊎)). }
  assert (forall l, entered (concat ((fun tf => [Dropped (frame tf); Free (frame tf)]) <$> l)) = [] /\
    left (concat ((fun tf => [Dropped (frame tf); Free (frame tf)]) <$> l)) = frame <$> l /\
    moves (concat ((fun tf => [Dropped (frame tf); Free (frame tf)]) <$> l)) (own_list (frame <$> l)) ∅) as Hq.
  { induction l as [|tf l (E1 & E2 & IH)]; [split; [done|split; [done|apply moves_nil]]|]. split; [exact E1|].
    split; [change (frame tf :: left (concat ((fun tf => [Dropped (frame tf); Free (frame tf)]) <$> l)) = frame tf :: (frame <$> l)); by rewrite E2|].
    rewrite !fmap_cons. own_simpl. cbn [concat]. apply (moves_app _ _ _ (own_list (frame <$> l))); [frames_solver|exact IH]. }
  destruct (Hf (freeQueue q)) as (F1 & F2 & F3), (Hq (queue q)) as (Q1 & Q2 & Q3).
  assert (forall e0 x, entered e0 = [] -> left e0 = [] -> moves e0 x ∅ ->
    entered (e0 ++ concat ((fun tf => [Dropped (frame tf); Free (frame tf)]) <$> queue q) ++ (Free <$> freeQueue q)) = [] /\
    left (e0 ++ concat ((fun tf => [Dropped (frame tf); Free (frame tf)]) <$> queue q) ++ (Free <$> freeQueue q)) = frame <$> queue q /\
    moves (e0 ++ concat ((fun tf => [Dropped (frame tf); Free (frame tf)]) <$> queue q) ++ (Free <$> freeQueue q))
      (own_list (frame <$> queue q) ⊎ own_list (freeQueue q) ⊎ x) ∅) as H.
  { intros e0 x E1 E2 Hm. rewrite !entered_app, !left_app, E1, E2, F1, F2, Q1, Q2, ?app_nil_r. split; [done|]. split; [done|].
    rewrite (comm_L (⊎) _ x). eapply moves_app; [by apply moves_frame|]. rewrite (left_id_L ∅ (⊎)).
    eapply moves_app; [by apply moves_frame|]. by rewrite (left_id_L ∅ (⊎)). }
  destruct (bufferFrame q) as [f|]; (apply H; [done|done|]); [frames_solver|apply moves_nil].
Qed.

(** ** What a pop returns *)

(** Nothing enters at a pop; a consumed frame is the one shown, otherwise the old
    one stays. *)
Definition pops_to (q : AVFrameQueue) (p : Popped) : Prop :=
  entered (pp_events p) = [] /\
  if pp_consumed p then exists f, shown (pp_events p) = [f] /\ bufferFrame (pp_queue p) = Some f
  else shown (pp_events p) = [] /\ bufferFrame (pp_queue p) = bufferFrame q.

Lemma recycle_buffer_log q :
  entered (recycle_buffer q).2 = [] /\ shown (recycle_buffer q).2 = [] /\ queue (recycle_buffer q).1 = queue q /\ config (recycle_buffer q).1 = config q.
Proof. unfold recycle_buffer. by destruct (bufferFrame q). Qed.
Lemma fake_buffer q empty rebuffer :
  bufferFrame (match bufferFrame q with Some _ => with_stats (count_fake empty rebuffer (stats q)) q | None => q end) = bufferFrame q.
Proof. by destruct (bufferFrame q) eqn:E. Qed.
Lemma held_pops q q' : bufferFrame q' = bufferFrame q -> pops_to q (held q').
Proof. done. Qed.

Lemma pop_low_latency_pops u now q : pops_to q (pop_low_latency u now q).
Proof.
  unfold pop_low_latency. destruct (queue q); [apply held_pops, fake_buffer|].
  destruct (prepareLatestFrame _ _ _ _) as [[d [|sel rest]]|]; try done. cbn [bufferFrame with_frames with_stats].
  match goal with |- context [recycle_buffer ?x] => destruct (recycle_buffer_log x) as (E1 & E2 & _ & _); destruct (recycle_buffer x) as [q2 e] end.
  destruct (drop_events_log d) as (D1 & _ & _ & D4). unfold pops_to; cbn [pp_events pp_consumed pp_queue fst snd] in *.
  rewrite !entered_app, !shown_app, D1, D4, E1, E2. split; [done|]. by eexists.
Qed.

Lemma due_frames_log u q :
  entered (due_frames u q).2 = [] /\ shown (due_frames u q).2 = [] /\ bufferFrame (due_frames u q).1.2 = bufferFrame q /\
  config (due_frames u q).1.2 = config q.
Proof.
  unfold due_frames, drop_to. rewrite trim_spec. cbv zeta. destruct (_ && negb _).
  - match goal with |- context [drop_events ?d] => destruct (drop_events_log d) as (D1 & _ & _ & D4) end. done.
  - destruct (_ || _); [done|]. by destruct (due_from_rate u q).
Qed.

Lemma consume_log n q : (1 <= n <= length (queue q))%nat ->
  entered (consume n q).2 = [] /\ config (consume n q).1 = config q /\ exists f, shown (consume n q).2 = [f] /\ bufferFrame (consume n q).1 = Some f.
Proof.
  intros Hn. unfold consume. destruct (recycle_buffer_log q) as (E1 & E2 & E3 & E4). destruct (recycle_buffer q) as [q1 e]; cbn [fst snd] in *.
  rewrite E3. destruct (drop (n - 1) (queue q)) as [|item rest] eqn:Ed.
  { apply (f_equal length) in Ed. rewrite length_drop in Ed. cbn in Ed. lia. }
  destruct (drop_events_log (take (n - 1) (queue q))) as (D1 & _ & _ & D4). cbn [fst snd].
  rewrite !entered_app, !shown_app, D1, D4, E1, E2. split; [done|]. split; [done|]. by eexists.
Qed.

Lemma pop_legacy_pops u now q : pops_to q (pop_legacy u now q) /\ config (pp_queue (pop_legacy u now q)) = config q.
Proof.
  unfold pop_legacy. cbv zeta. set (q2 := with_pacing _ _ _ q). change (bufferFrame q) with (bufferFrame q2).
  assert (pops_to q = pops_to q2) as -> by done. change (config q) with (config q2). clearbody q2.
  destruct (_ && _); [split; [apply held_pops, fake_buffer|cbn; by destruct (bufferFrame q2)]|].
  set (q3 := if startupBuffering (draw q2) then _ else q2).
  assert (bufferFrame q3 = bufferFrame q2 /\ config q3 = config q2) as [Hb Hc] by (unfold q3; by destruct (startupBuffering (draw q2))).
  assert (pops_to q2 = pops_to q3) as -> by (unfold pops_to; by rewrite Hb). rewrite <- Hc. clearbody q3. clear Hb Hc q2.
  destruct (due_frames_log u q3) as (E1 & E2 & E3 & E4). destruct (due_frames u q3) as [[[|n] q4] e]; cbn [fst snd] in *; [done|].
  destruct (bool_decide (queue q4 = [])) eqn:Eq.
  - unfold pops_to; cbn [pp_events pp_consumed pp_queue]. rewrite E1, E2, <- E3, <- E4.
    by destruct (bufferFrame q4) eqn:Eb; cbn [bufferFrame config with_pacing with_stats]; rewrite ?Eb.
  - apply bool_decide_eq_false in Eq. assert (length (queue q4) <> 0%nat) by (by destruct (queue q4)).
    destruct (consume_log (Nat.min (length (queue q4)) (S n)) q4 ltac:(lia)) as (F1 & F2 & f & F3 & F4). destruct (consume _ q4) as [q5 e'].
    unfold pops_to; cbn [pp_events pp_consumed pp_queue fst snd] in *. rewrite entered_app, shown_app, E1, E2, F1. split; [|congruence]. split; [done|]. by exists f.
Qed.

Lemma pop_low_latency_config u now q : config (pp_queue (pop_low_latency u now q)) = config q.
Proof.
  unfold pop_low_latency. destruct (queue q); [by cbn; destruct (bufferFrame q)|].
  destruct (prepareLatestFrame _ _ _ _) as [[d [|sel rest]]|]; try done. cbn [bufferFrame with_frames with_stats].
  match goal with |- context [recycle_buffer ?x] => destruct (recycle_buffer_log x) as (_ & _ & _ & E4); by destruct (recycle_buffer x) end.
Qed.

Lemma pop_pops u now q : pops_to q (pop u now q) /\ config (pp_queue (pop u now q)) = config q.
Proof.
  unfold pop. cbv zeta. destruct (lowLatency _).
  - split; [apply (pop_low_latency_pops u now (with_stats (count_pop (stats q)) q))|by rewrite pop_low_latency_config].
  - apply (pop_legacy_pops u now (with_stats (count_pop (stats q)) q)).
Qed.

(** ** Bounds *)

Lemma enqueue_config u item now pending q : config (enqueue u item now pending q).1 = config q.
Proof.
  unfold enqueue. destruct (if lowLatency (config q) then _ else _) as [[a f] e]. cbv zeta. destruct (_ <? _)%nat; [|done].
  unfold drop_to. rewrite trim_spec. cbn. by destruct (lowLatency (config q)).
Qed.

Lemma enqueue_queue u item now pending q :
  exists tf, frame tf = item /\ queued tf = now /\
    queue (enqueue u item now pending q).1 =
      (if (limit (config q) <? S (length (queue q)))%nat
       then drop (S (length (queue q)) - (targetBufferedFrames (config q) + 1)) (queue q ++ [tf]) else queue q ++ [tf]).
Proof.
  unfold enqueue. destruct (if lowLatency (config q) then _ else _) as [[a f] estimate]. cbv zeta.
  exists (makeTimedFrame item estimate pending now). split; [unfold makeTimedFrame; by destruct pending as [[]|]|].
  split; [unfold makeTimedFrame; by destruct pending as [[]|]|]. cbn [config queue with_stats with_frames with_pacing].
  rewrite length_app, Nat.add_1_r. cbn [length]. rewrite ?Nat.add_1_r. destruct (_ <? _)%nat; [|done].
  unfold drop_to. rewrite trim_spec. cbn [queue with_stats with_frames with_pacing config]. rewrite length_app. cbn [length]. rewrite !Nat.add_1_r.
  by destruct (lowLatency (config q)).
Qed.

Lemma kept_length q e q' i o : kept q e q' i o -> entered e = [] -> (length (queue q') <= length (queue q))%nat.
Proof. intros [_ H _ _ _ _] E. apply (f_equal length) in H. rewrite E, !length_app, !length_fmap in H. cbn in H. lia. Qed.

Inductive use := Pushed (item now : Z) (pending : option (Z * Z)) | PoppedAt (now : Z).
Definition used (u : double -> Z) (q : AVFrameQueue) (o : use) : AVFrameQueue :=
  match o with Pushed item now pending => (enqueue u item now pending q).1 | PoppedAt now => pp_queue (pop u now q) end.

Lemma used_bounded u q o c :
  config q = c -> (targetBufferedFrames c + 1 <= limit c)%nat ->
  config (used u q o) = c /\ ((length (queue q) <= limit c)%nat \/ (exists i n p, o = Pushed i n p) -> (length (queue (used u q o)) <= limit c)%nat).
Proof.
  intros <- Ht. destruct o as [i n p|n]; cbn [used].
  - split; [apply enqueue_config|]. intros _. destruct (enqueue_queue u i n p q) as (tf & _ & _ & ->).
    destruct (Nat.ltb_spec (limit (config q)) (S (length (queue q)))); [rewrite length_drop|]; rewrite length_app; cbn [length]; lia.
  - split; [apply pop_pops|]. intros [H|(i & m & p & [=])].
    destruct (pop_pops u n q) as [[E _] _]. pose proof (kept_length _ _ _ _ _ (pop_kept u n q) E). lia.
Qed.

(** Once a frame has been pushed after [configure], the queue never holds more
    than its capacity, whatever is pushed and popped. *)
Theorem queue_bounded u depth fps transfer low q item now pending uses :
  (length (queue (foldl (used u) (configure depth fps transfer low q) (Pushed item now pending :: uses))) <= capacityFor depth)%nat.
Proof.
  set (q0 := configure depth fps transfer low q).
  assert (limit (config q0) = capacityFor depth) as <- by (unfold q0, configure, capacityFor; cbn; lia).
  assert (targetBufferedFrames (config q0) + 1 <= limit (config q0))%nat as Ht.
  { unfold q0, configure, capacityFor, kBurstHeadroomFrames; cbn [config limit targetBufferedFrames]. destruct (1 <? Nat.max depth 1)%nat, low; lia. }
  cbn [foldl]. destruct (used_bounded u q0 (Pushed item now pending) _ eq_refl Ht) as [Hc Hl].
  specialize (Hl (or_intror (ex_intro _ item (ex_intro _ now (ex_intro _ pending eq_refl))))).
  revert Hc Hl. generalize (used u q0 (Pushed item now pending)). clear item now pending.
  induction uses as [|o uses IH]; intros q1 Hc Hl; cbn [foldl]; [done|].
  destruct (used_bounded u q1 o _ Hc Ht) as [Hc1 Hl1]. apply IH; [done|]. apply Hl1. by left.
Qed.

(** ** Pacing *)

Lemma low_latency_spec u now q front l :
  lowLatency (config q) = true -> queue q = front :: l ->
  let p := pop u now q in
  if bool_decide (timeEstimate front - gate_lead u q <= now \/ (targetBufferedFrames (config q) < length l)%nat)
  then pp_consumed p = true /\ bufferFrame (pp_queue p) = frame <$> list.last (queue q) /\ queue (pp_queue p) = [] /\
       dropped (pp_events p) = take (length l) (frame <$> queue q)
  else pp_consumed p = false /\ queue (pp_queue p) = queue q /\ bufferFrame (pp_queue p) = bufferFrame q.
Proof.
  intros Hl Hq. unfold pop. cbv zeta. cbn [lowLatency config with_stats]. rewrite Hl. unfold pop_low_latency. cbn [queue with_stats]. rewrite Hq.
  unfold prepareLatestFrame. cbn [length config with_stats]. rewrite Nat.sub_succ, Nat.sub_0_r, trim_spec.
  change (gate_lead u (with_stats (count_pop (stats q)) q)) with (gate_lead u q).
  destruct (bool_decide (_ \/ _)) eqn:Ed.
  - apply bool_decide_eq_true in Ed.
    assert (negb (targetBufferedFrames (config q) <? length l)%nat && (now <? timeEstimate front - gate_lead u q) = false) as ->
      by (destruct (Nat.ltb_spec (targetBufferedFrames (config q)) (length l)), (Z.ltb_spec now (timeEstimate front - gate_lead u q)); cbn; lia).
    cbn [length]. rewrite Nat.sub_succ, Nat.sub_0_r.
    destruct (List.exists_last (l := front :: l)) as (tail & x & E); [done|]. rewrite E.
    assert (length tail = length l) as Ht by (apply (f_equal length) in E; rewrite length_app in E; cbn in E; lia).
    rewrite <- Ht, drop_app_length, take_app_length. cbn [bufferFrame with_stats with_frames].
    match goal with |- context [recycle_buffer ?y] => destruct (recycle_buffer_log y) as (E1 & E2 & _ & _);
      assert (dropped (recycle_buffer y).2 = []) as E3 by (unfold recycle_buffer; by destruct (bufferFrame y)); destruct (recycle_buffer y) as [q2 e] end.
    cbn [fst snd] in *. split; [done|]. cbn [pp_queue pp_events bufferFrame queue with_stats with_frames].
    rewrite list.last_snoc. split; [done|]. split; [done|]. destruct (drop_events_log tail) as (_ & _ & D3 & _).
    rewrite !dropped_app, D3, E3, fmap_app. cbn [app]. rewrite app_nil_r, take_app_le, take_ge; [done|..]; rewrite length_fmap; lia.
  - apply bool_decide_eq_false in Ed.
    assert (negb (targetBufferedFrames (config q) <? length l)%nat && (now <? timeEstimate front - gate_lead u q) = true) as ->
      by (destruct (Nat.ltb_spec (targetBufferedFrames (config q)) (length l)), (Z.ltb_spec now (timeEstimate front - gate_lead u q)); cbn; lia).
    cbn. by rewrite Hq.
Qed.

(** The low-latency path releases the newest frame and drops the older ones as
    soon as the oldest is due or too many wait, and otherwise leaves the queue as
    it is. *)
Theorem low_latency_pop u now q front l :
  lowLatency (config q) = true -> queue q = front :: l ->
  let p := pop u now q in
  if bool_decide (timeEstimate front - gate_lead u q <= now \/ (targetBufferedFrames (config q) < length l)%nat)
  then pp_consumed p = true /\ bufferFrame (pp_queue p) = frame <$> list.last (queue q) /\ queue (pp_queue p) = [] /\
       dropped (pp_events p) = take (length l) (frame <$> queue q)
  else pp_consumed p = false /\ queue (pp_queue p) = queue q /\ bufferFrame (pp_queue p) = bufferFrame q.
Proof. apply low_latency_spec. Qed.

(** A queue for the examples: 60 frames per second, depth 3, frames pushed 16 ms
    apart. *)
Definition demo_pushes (q : AVFrameQueue) (n : nat) : AVFrameQueue :=
  foldl (used (fun _ => 0)) q ((fun i => Pushed (Z.of_nat i) (16666667 * Z.of_nat i) None) <$> seq 1 n).
Lemma low_latency_pop_witness :
  let q := demo_pushes (configure 3 60 true true new_queue) 4 in
  pp_consumed (pop (fun _ => 0) 70000000 q) = true /\ bufferFrame (pp_queue (pop (fun _ => 0) 70000000 q)) = Some 4 /\
  dropped (pp_events (pop (fun _ => 0) 70000000 q)) = [1; 2; 3].
Proof.
  destruct (queue (demo_pushes (configure 3 60 true true new_queue) 4)) as [|front l] eqn:E; [vm_compute in E; discriminate E|].
  assert (length (queue (demo_pushes (configure 3 60 true true new_queue) 4)) = 4%nat) as El by (vm_compute; reflexivity).
  assert (length l = 3%nat) as Hn by (rewrite E in El; cbn [length] in El; lia). clear El.
  pose proof (low_latency_pop (fun _ => 0) 70000000 (demo_pushes (configure 3 60 true true new_queue) 4) front l ltac:(vm_compute; reflexivity) E) as H.
  rewrite bool_decide_eq_true_2 in H by (right; rewrite Hn; vm_compute; lia).
  destruct H as (H1 & H2 & _ & H4). cbv zeta. rewrite H1, H2, H4, Hn. split; [reflexivity|]. split; vm_compute; reflexivity.
Defined.

(** A push that does not overflow the queue, a pop that shows nothing. *)
Definition undisturbed u (o : use) q : Prop :=
  match o with
  | Pushed _ _ _ => (length (queue q) < limit (config q))%nat
  | PoppedAt now => pp_consumed (pop u now q) = false
  end.
Fixpoint waits u (uses : list use) q : Prop :=
  match uses with [] => True | o :: rest => undisturbed u o q /\ waits u rest (used u q o) end.
Definition is_push (o : use) : bool := match o with Pushed _ _ _ => true | PoppedAt _ => false end.

Lemma undisturbed_front u o q front l : lowLatency (config q) = true -> queue q = front :: l -> undisturbed u o q ->
  config (used u q o) = config q /\ exists l', queue (used u q o) = front :: l' /\
    length l' = (length l + if is_push o then 1 else 0)%nat.
Proof.
  intros Hl Hq Ho. destruct o as [item now pending|now]; cbn [used undisturbed is_push] in *.
  - destruct (enqueue_queue u item now pending q) as (tf & _ & _ & Hq1). rewrite enqueue_config. split; [done|].
    rewrite Hq1. destruct (Nat.ltb_spec (limit (config q)) (S (length (queue q)))); [lia|]. rewrite Hq. cbn [app].
    eexists. split; [done|]. rewrite length_app. done.
  - split; [apply pop_pops|]. pose proof (low_latency_spec u now q front l Hl Hq) as H. cbv zeta in H.
    destruct (bool_decide _); [destruct H as [H _]; congruence|]. destruct H as (_ & H & _). exists l. split; [by rewrite H|lia].
Qed.

Lemma waits_front u uses q front l : lowLatency (config q) = true -> queue q = front :: l -> waits u uses q ->
  config (foldl (used u) q uses) = config q /\ exists l', queue (foldl (used u) q uses) = front :: l' /\
    length l' = (length l + length (List.filter is_push uses))%nat.
Proof.
  revert q l; induction uses as [|o uses IH]; intros q l Hl Hq Hw; cbn [foldl].
  { split; [done|]. exists l. split; [done|]. cbn. lia. }
  destruct Hw as [Ho Hw]. destruct (undisturbed_front u o q front l Hl Hq Ho) as (Hc & l1 & Hq1 & Hn).
  destruct (IH _ _ ltac:(by rewrite Hc) Hq1 Hw) as (Hc' & l' & Hq' & Hn'). split; [congruence|].
  exists l'. split; [done|]. rewrite Hn', Hn. cbn. destruct (is_push o); cbn; lia.
Qed.

(** C30: on the low-latency path the oldest frame's time stands: through any
    pushes that do not overflow the queue and any pops that show nothing it stays
    the oldest, with the time it was given when it came, and the next pop shows a
    frame - the newest - exactly when that time less the gate's lead, as the
    measured costs and the jitter make it by then, has come, or more frames wait
    behind it than the queue is to buffer. (A push that overflows drops it, and
    the lead can shrink meanwhile.) *)
Theorem deadline_stands u q front l uses now :
  lowLatency (config q) = true -> queue q = front :: l -> waits u uses q ->
  let q' := foldl (used u) q uses in let p := pop u now q' in
  let behind := (length l + length (List.filter is_push uses))%nat in
  list.head (queue q') = Some front /\
  if bool_decide (timeEstimate front - gate_lead u q' <= now \/ (targetBufferedFrames (config q) < behind)%nat)
  then pp_consumed p = true /\ bufferFrame (pp_queue p) = frame <$> list.last (queue q')
  else pp_consumed p = false /\ queue (pp_queue p) = queue q'.
Proof.
  intros Hl Hq Hw. cbv zeta. destruct (waits_front u uses q front l Hl Hq Hw) as (Hc & l' & Hq' & <-).
  split; [by rewrite Hq'|]. rewrite <- Hc in Hl. pose proof (low_latency_spec u now _ front l' Hl Hq') as H.
  cbv zeta in H. rewrite Hc in H. destruct (bool_decide _); by destruct H as (?&?&_).
Qed.
Lemma deadline_stands_witness :
  let q := demo_pushes (configure 3 60 true true new_queue) 1 in
  let q' := foldl (used (fun _ => 0)) q [PoppedAt 20000000; Pushed 2 30000000 None] in
  pp_consumed (pop (fun _ => 0) 34000000 q') = true /\ bufferFrame (pp_queue (pop (fun _ => 0) 34000000 q')) = Some 2.
Proof.
  destruct (queue (demo_pushes (configure 3 60 true true new_queue) 1)) as [|front l] eqn:E; [vm_compute in E; discriminate E|].
  pose proof (deadline_stands (fun _ => 0) (demo_pushes (configure 3 60 true true new_queue) 1) front l
    [PoppedAt 20000000; Pushed 2 30000000 None] 34000000 ltac:(vm_compute; reflexivity) E) as H.
  destruct H as [_ H]; [split; [vm_compute; reflexivity|split; [vm_compute; lia|exact I]]|].
  vm_compute in E. injection E as <- <-. rewrite bool_decide_eq_true_2 in H by (left; vm_compute; congruence).
  cbv zeta. destruct H as [H1 H2]. split; [exact H1|]. rewrite H2. vm_compute. reflexivity.
Defined.

(** A full queue never waits on the legacy path: the next pop drops down to the
    playout window and shows the frame at its head. *)
Theorem backlog_resync u q now :
  lowLatency (config q) = false -> (targetBufferedFrames (config q) + 1 <= limit (config q) <= length (queue q))%nat ->
  let p := pop u now q in
  pp_consumed p = true /\ length (queue (pp_queue p)) = targetBufferedFrames (config q) /\
  bufferFrame (pp_queue p) = frame <$> queue q !! (length (queue q) - (targetBufferedFrames (config q) + 1))%nat.
Proof.
  intros Hl Hn. unfold pop. cbv zeta. cbn [lowLatency config with_stats]. rewrite Hl. unfold pop_legacy. cbv zeta.
  set (q1 := with_pacing _ _ _ _). change (queue q) with (queue q1). change (config q) with (config q1) in *. change (queue q) with (queue q1) in Hn.
  clearbody q1. clear q Hl.
  assert ((length (queue q1) <=? targetBufferedFrames (config q1))%nat = false) as -> by (apply Nat.leb_gt; lia). rewrite andb_false_r.
  assert (forall q, config q = config q1 -> queue q = queue q1 ->
    (let '(due, q, dropped) := due_frames u q in due = 1%nat /\ queue q = drop (length (queue q1) - (targetBufferedFrames (config q1) + 1)) (queue q1))) as Hd.
  { intros q Hc Hq. unfold due_frames. rewrite Hc, Hq. cbv zeta.
    assert ((0 <? limit (config q1))%nat && (limit (config q1) <=? length (queue q1))%nat = true) as ->
      by (apply andb_true_iff; split; [apply Nat.ltb_lt|apply Nat.leb_le]; lia).
    rewrite orb_true_r, bool_decide_eq_false_2 by (intros E; rewrite E in Hn; cbn in Hn; lia). cbn [andb negb].
    unfold drop_to. rewrite trim_spec, Hq. done. }
  specialize (Hd (if startupBuffering (draw q1) then with_pacing (set_credit (dbl 0) false true (draw q1)) (arrival q1) (filter_ q1) q1 else q1)
    ltac:(by destruct (startupBuffering (draw q1))) ltac:(by destruct (startupBuffering (draw q1)))).
  destruct (due_frames u _) as [[due q2] e]. destruct Hd as [-> Hq2].
  assert (length (queue q2) = targetBufferedFrames (config q1) + 1)%nat as Hlen by (rewrite Hq2, length_drop; lia).
  rewrite bool_decide_eq_false_2 by (intros E; rewrite E in Hlen; cbn in Hlen; lia). rewrite Nat.min_r by lia.
  unfold consume. destruct (recycle_buffer_log q2) as (_ & _ & E3 & _). destruct (recycle_buffer q2) as [q3 e']. cbn [fst] in E3. cbn [Nat.sub]. rewrite drop_0.
  rewrite E3. destruct (queue q2) as [|item rest] eqn:Eq2; [cbn in Hlen; lia|].
  cbn [pp_consumed pp_queue queue bufferFrame with_stats with_frames take length] in *.
  split; [done|]. split; [lia|]. rewrite <- (Nat.add_0_r (length (queue q1) - _)), <- lookup_drop, <- Hq2. done.
Qed.
Lemma backlog_resync_witness :
  let q := demo_pushes (configure 3 60 true false new_queue) 8 in
  pp_consumed (pop (fun _ => 0) 70000000 q) = true /\ bufferFrame (pp_queue (pop (fun _ => 0) 70000000 q)) = Some 6.
Proof.
  destruct (backlog_resync (fun _ => 0) (demo_pushes (configure 3 60 true false new_queue) 8) 70000000 ltac:(vm_compute; reflexivity)) as (H1 & _ & H3); [vm_compute; lia|].
  cbv zeta. rewrite H1, H3. split; [reflexivity|]. vm_compute. reflexivity.
Defined.
