(* ===== verification/VideoDecoder.v ===== *)
(** The decoder's side of the frame queue ([FFmpegVideoDecoder.cpp], the deko3d
    build of the Switch: hardware frames are passed on by reference): setup and
    cleanup of its frames, draining the codec, what a decode unit does to the
    queue and the telemetry; and the renderer's draws. FFmpeg's answers are
    inputs. *)

From stdpp Require Import gmultiset.
From S2P Require Import Prelude Ownership Double Telemetry FrameQueue.

(** ** Data *)

(** [m_frames] holds what is in its memory; an entry that was never written is
    garbage. The counters are those of [m_video_decode_stats_progress], which start
    over with every window of a quarter of a second; [m_stats_window_start] is the
    start of the window, if one has started. *)
Record Decoder := {
  m_decoder_ready : bool;
  m_decoder_finalized : bool;
  m_use_zero_copy_holder : bool;
  m_frames : list (option Z);
  tmp_frame : option Z;
  m_next_frame : nat;
  m_last_frame : Z;
  m_frames_in : Z;
  m_frames_out : Z;
  current_received_frames : Z;
  current_decoded_frames : Z;
  total_frames : Z;
  network_dropped_frames : Z;
  m_stats_window_start : option Z;
}.
Record System := { dec : Decoder; tel : State; holder : AVFrameQueue }.
Implicit Types (d : Decoder) (s : System).

Definition new_decoder : Decoder :=
  {| m_decoder_ready := false; m_decoder_finalized := false; m_use_zero_copy_holder := false; m_frames := []; tmp_frame := None;
     m_next_frame := 0; m_last_frame := 0; m_frames_in := 0; m_frames_out := 0; current_received_frames := 0; current_decoded_frames := 0;
     total_frames := 0; network_dropped_frames := 0; m_stats_window_start := None |}.
Definition new_system : System := {| dec := new_decoder; tel := fresh; holder := new_queue |}.

Definition with_setup (ready finalized zero : bool) (frames : list (option Z)) (tmp : option Z) d : Decoder :=
  {| m_decoder_ready := ready; m_decoder_finalized := finalized; m_use_zero_copy_holder := zero; m_frames := frames; tmp_frame := tmp;
     m_next_frame := m_next_frame d; m_last_frame := m_last_frame d; m_frames_in := m_frames_in d; m_frames_out := m_frames_out d;
     current_received_frames := current_received_frames d; current_decoded_frames := current_decoded_frames d;
     total_frames := total_frames d; network_dropped_frames := network_dropped_frames d; m_stats_window_start := m_stats_window_start d |}.
Definition with_next (n : nat) d : Decoder :=
  {| m_decoder_ready := m_decoder_ready d; m_decoder_finalized := m_decoder_finalized d; m_use_zero_copy_holder := m_use_zero_copy_holder d;
     m_frames := m_frames d; tmp_frame := tmp_frame d; m_next_frame := n; m_last_frame := m_last_frame d; m_frames_in := m_frames_in d;
     m_frames_out := m_frames_out d; current_received_frames := current_received_frames d;
     current_decoded_frames := current_decoded_frames d; total_frames := total_frames d; network_dropped_frames := network_dropped_frames d;
     m_stats_window_start := m_stats_window_start d |}.
Definition with_counts (last inn out received decoded total lost : Z) d : Decoder :=
  {| m_decoder_ready := m_decoder_ready d; m_decoder_finalized := m_decoder_finalized d; m_use_zero_copy_holder := m_use_zero_copy_holder d;
     m_frames := m_frames d; tmp_frame := tmp_frame d; m_next_frame := m_next_frame d; m_last_frame := last; m_frames_in := inn;
     m_frames_out := out; current_received_frames := received; current_decoded_frames := decoded; total_frames := total;
     network_dropped_frames := lost; m_stats_window_start := m_stats_window_start d |}.
(** A window that starts: only the frames lost in the network are counted on. *)
Definition with_window (start : option Z) (received decoded total lost : Z) d : Decoder :=
  {| m_decoder_ready := m_decoder_ready d; m_decoder_finalized := m_decoder_finalized d; m_use_zero_copy_holder := m_use_zero_copy_holder d;
     m_frames := m_frames d; tmp_frame := tmp_frame d; m_next_frame := m_next_frame d; m_last_frame := m_last_frame d; m_frames_in := m_frames_in d;
     m_frames_out := m_frames_out d; current_received_frames := received; current_decoded_frames := decoded; total_frames := total;
     network_dropped_frames := lost; m_stats_window_start := start |}.

Definition DECODER_BUFFER_SIZE : Z := 1024 * 1024.

Section decoder.
Context (undefined_cast : double -> Z).

(** ** Setup and cleanup *)

(** [alloc i] is what [av_frame_alloc] gives for entry [i], [garbage i] what the
    uninitialised array holds there. *)
Fixpoint alloc_frames (alloc garbage : nat -> option Z) (i n : nat) : bool * list (option Z) * list event :=
  match n with
  | O => (true, [], [])
  | S n =>
      match alloc i with
      | None => (false, None :: (garbage <$> seq (S i) n), [])
      | Some f => let '(ok, frames, e) := alloc_frames alloc garbage (S i) n in (ok, Some f :: frames, Alloc f :: e)
      end
  end.

Definition finalize_decoder_setup (queue_size : nat) (fps : Z) (low hw : bool) (tmp : option Z) (alloc garbage : nat -> option Z) (now : Z) s
    : bool * System * list event :=
  if m_decoder_finalized (dec s) then (true, s, [])
  else
    let t := noteStreamStart now in
    let q := configure queue_size fps hw low (holder s) in
    if hw then (true, {| dec := with_setup (m_decoder_ready (dec s)) true true (m_frames (dec s)) (tmp_frame (dec s)) (dec s); tel := t; holder := q |}, [])
    else
      let '(ok, frames, e) := alloc_frames alloc garbage 0 (capacityFor queue_size + 1) in
      (ok, {| dec := with_setup (m_decoder_ready (dec s)) ok false frames tmp (dec s); tel := t; holder := q |},
       match tmp with Some f => [Alloc f] | None => [] end ++ e).

Definition free_cell (f : option Z) : list event := match f with Some f => [Free f] | None => [] end.
Definition decoder_cleanup s : System * list event :=
  let '(q, e) := cleanup (holder s) in
  ({| dec := with_window None 0 0 0 0 (with_setup false false false [] None (dec s)); tel := fresh; holder := q |},
   concat (free_cell <$> m_frames (dec s)) ++ free_cell (tmp_frame (dec s)) ++ e).

(** [setup]: there may be no packet, codec or hardware device, or the buffer or the
    codec may fail, before the frames are set up. The result is whether it succeeded
    and whether it cleaned up. *)
Inductive Opening := NoCodec | NotOpened | Opened.
Definition setup (opening : Opening) (queue_size : nat) (fps : Z) (low hw : bool) (tmp : option Z) (alloc garbage : nat -> option Z) (now : Z) s
    : bool * bool * System * list event :=
  let flags ready s := {| dec := with_setup ready false false (m_frames (dec s)) (tmp_frame (dec s)) (dec s); tel := tel s; holder := holder s |} in
  let s := flags false s in
  match opening with
  | NoCodec => (false, false, s, [])
  | NotOpened => let '(s, e) := decoder_cleanup s in (false, true, s, e)
  | Opened =>
      let '(ok, s, e) := finalize_decoder_setup queue_size fps low hw tmp alloc garbage now (flags true s) in
      if ok then (true, false, s, e) else let '(s, e') := decoder_cleanup s in (false, true, s, e ++ e')
  end.

(** ** Decoding *)

Inductive Received := GotFrame | GotAgain | GotEof | GotError.
(** The answers of one round of [drain_frames]: the pool's allocation, the codec,
    the copy's allocation and reference, the clock of the push. *)
Record Answer := { an_alloc : option Z; an_receive : Received; an_copy : option Z; an_ref : bool; an_now : Z }.

Inductive Drained := Count (n : nat) | DecodeError.

(** A frame for the queue, with the timing that is pending. *)
Definition push_frame (f : Z) (a : Answer) s : System * list event :=
  let '(pending, t) := consumePendingDecodeTiming (tel s) in
  let '(ok, q, e) :=
    if m_use_zero_copy_holder (dec s) then pushTransferred undefined_cast (Some f) (an_now a) pending (holder s)
    else push undefined_cast (Some f) (an_copy a) (an_ref a) (an_now a) pending (holder s) in
  ({| dec := dec s; tel := if ok : bool then t else tel s; holder := q |}, e).

(** [get_frame]: the frame, or how draining ends. [None]: the answers ran out, or
    [m_frames] is read outside its bounds. *)
Definition get_frame (a : Answer) (decoded : nat) s : option ((Z + Drained) * System * list event) :=
  let ended := match an_receive a with GotError => DecodeError | _ => Count decoded end in
  if m_use_zero_copy_holder (dec s) then
    let '(f, q, e) := acquireFrameLocked (an_alloc a) (holder s) in
    let s := {| dec := dec s; tel := tel s; holder := q |} in
    match f with
    | None => Some (inr (Count decoded), s, e)
    | Some f =>
        match an_receive a with
        | GotFrame => Some (inl f, s, e)
        | _ => let '(q, e') := recycleWriteFrame (Some f) (holder s) in
               Some (inr ended, {| dec := dec s; tel := tel s; holder := q |}, e ++ e')
        end
    end
  else
    match m_frames (dec s) !! m_next_frame (dec s) with
    | Some (Some f) =>
        match an_receive a with
        | GotFrame =>
            Some (inl f, {| dec := with_next ((m_next_frame (dec s) + 1) mod length (m_frames (dec s))) (dec s); tel := tel s; holder := holder s |}, [])
        | _ => Some (inr ended, s, [])
        end
    | _ => None
    end.

Fixpoint drain_frames (answers : list Answer) (decoded : nat) s : option (Drained * System * list event) :=
  match answers with
  | [] => None
  | a :: rest =>
      match get_frame a decoded s with
      | None => None
      | Some (inr r, s, e) => Some (r, s, e)
      | Some (inl f, s, e) =>
          let '(s, e') := push_frame f a s in
          match drain_frames rest (S decoded) s with
          | None => None
          | Some (r, s, e'') => Some (r, s, e ++ e' ++ e'')
          end
      end
  end.

(** [decode]: [avcodec_send_packet] takes the packet, asks to drain first, or
    fails; [second] is its second answer. *)
Inductive Sent := SentOk | SentAgain (first : list Answer) (second : bool) | SentError.
Definition decode (sent : Sent) (answers : list Answer) s : option (Drained * System * list event) :=
  match sent with
  | SentError => Some (DecodeError, s, [])
  | SentOk => drain_frames answers 0 s
  | SentAgain first second =>
      match drain_frames first 0 s with
      | None => None
      | Some (DecodeError, s, e) => Some (DecodeError, s, e)
      | Some (Count n, s, e) =>
          if negb second then Some (DecodeError, s, e)
          else match drain_frames answers 0 s with
               | None => None
               | Some (DecodeError, s, e') => Some (DecodeError, s, e ++ e')
               | Some (Count m, s, e') => Some (Count (n + m), s, e ++ e')
               end
      end
  end.

(** ** A decode unit *)

Inductive Status := DR_OK | DR_NEED_IDR | DR_Restart.
Record Unit_ := {
  un_fullLength : Z; un_frameNumber : Z; un_arrival : Z; un_clocks : Z * Z * Z * Z; un_sent : Sent; un_answers : list Answer; un_after : Z; un_clock : Z;
}.

Definition kStatsWindow : Z := 250 * 1000000.
(** The first unit starts a window. *)
Definition start_window (u : Unit_) d : Decoder :=
  match m_stats_window_start d with
  | Some _ => d
  | None => with_window (Some (un_arrival u)) (current_received_frames d) (current_decoded_frames d) (total_frames d) (network_dropped_frames d) d
  end.
(** After frames were decoded: a window that is over starts anew. *)
Definition end_window (u : Unit_) d : Decoder :=
  match m_stats_window_start d with
  | Some start => if kStatsWindow <=? un_after u - start then with_window (Some (un_after u)) 0 0 0 (network_dropped_frames d) d else d
  | None => d
  end.
(** The frame numbers: a gap counts as frames lost in the network. *)
Definition count_unit (u : Unit_) d : Decoder :=
  let lost := if m_last_frame d =? 0 then 0 else u32 (un_frameNumber u - u32 (m_last_frame d + 1)) in
  with_counts (u32 (un_frameNumber u)) (m_frames_in d) (m_frames_out d) (u32 (current_received_frames d + 1)) (current_decoded_frames d)
    (u32 (u32 (total_frames d + lost) + 1)) (u32 (network_dropped_frames d + lost)) d.

Definition submit_decode_unit (u : Unit_) s : option (Status * System * list event) :=
  if negb (un_fullLength u <? DECODER_BUFFER_SIZE) then Some (DR_OK, s, [])
  else
    let '(c1, c2, c3, c4) := un_clocks u in
    let t := noteFirstPacket (un_fullLength u) c1 c2 c3 c4 (tel s) in
    let d := count_unit u (start_window u (dec s)) in
    if negb (m_decoder_ready d) then Some (DR_NEED_IDR, {| dec := d; tel := t; holder := holder s |}, [])
    else
      let d := with_counts (m_last_frame d) (m_frames_in d + 1) (m_frames_out d) (current_received_frames d) (current_decoded_frames d)
                 (total_frames d) (network_dropped_frames d) d in
      match decode (un_sent u) (un_answers u) {| dec := d; tel := t; holder := holder s |} with
      | None => None
      | Some (DecodeError, s, e) => Some (DR_Restart, s, e)
      | Some (Count 0, s, e) => Some (DR_OK, s, e)
      | Some (Count n, s, e) =>
          let d := dec s in
          let d := with_counts (m_last_frame d) (m_frames_in d) (m_frames_out d + Z.of_nat n) (current_received_frames d)
                     (u32 (current_decoded_frames d + Z.of_nat n)) (total_frames d) (network_dropped_frames d) d in
          Some (DR_OK, {| dec := end_window u d; tel := noteDecodedFrame (un_arrival u) (un_after u) (un_clock u) (tel s); holder := holder s |}, e)
      end.

(** ** A draw *)

(** [AVFrameHolder::get] and the statistics of the frame it selected. *)
Definition draw_frame (now : Z) s : option Z * System * list event :=
  let p := pop undefined_cast now (holder s) in
  (bufferFrame (pp_queue p),
   {| dec := dec s;
      tel := match pp_selected p with
             | Some tf => noteFrameSelected (networkComplete tf) (decodeDone tf) now (tel s)
             | None => tel s end;
      holder := pp_queue p |}, pp_events p).
(** [MoonlightSession::draw]: the frame is drawn, the renderer reports what it
    cost ([present]: the costs and the clock's readings), and the queue is given
    the statistics. *)
Definition draw (now : Z) (present : double * double * Z * Z) s : System * list event :=
  let '(f, s, e) := draw_frame now s in
  let '(render, gpu, now1, at_) := present in
  let t := match f with Some _ => noteFramePresented render gpu now1 at_ (tel s) | None => tel s end in
  let pipe := snapshot t in
  ({| dec := dec s; tel := t;
      holder := updatePresentCostMs (sn_renderMsP95 pipe) (sn_gpuSubmitMsP95 pipe) (sn_havePresentCostSamples pipe) (holder s) |}, e).
End decoder.

(** ** The steps *)

Inductive op :=
| Setup (opening : Opening) (queue_size : nat) (fps : Z) (low hw : bool) (tmp : option Z) (alloc garbage : nat -> option Z) (now : Z)
| Submit (u : Unit_)
| DrawAt (now : Z) (present : double * double * Z * Z)
| Cleanup.
(** With it, whether the step cleaned up. *)
Definition step (u : double -> Z) (o : op) s : option (bool * System * list event) :=
  match o with
  | Setup opening n fps low hw tmp alloc garbage now => let '(_, cleaned, s, e) := setup opening n fps low hw tmp alloc garbage now s in Some (cleaned, s, e)
  | Submit un => match submit_decode_unit u un s with Some (_, s, e) => Some (false, s, e) | None => None end
  | DrawAt now present => let '(s, e) := draw u now present s in Some (false, s, e)
  | Cleanup => let '(s, e) := decoder_cleanup s in Some (true, s, e)
  end.

(** Runs of calls that are all [allowed]: all their events, and those since the last
    cleanup. *)
Inductive reaches (u : double -> Z) (allowed : System -> op -> Prop) : list event -> list event -> System -> Prop :=
| reaches_new : reaches u allowed [] [] new_system
| reaches_step calls since s o cleaned s' e :
    reaches u allowed calls since s -> allowed s o -> step u o s = Some (cleaned, s', e) ->
    reaches u allowed (calls ++ e) (if cleaned : bool then [] else since ++ e) s'.

(** What ownership needs of the calls: the decoder is cleaned up before it is set up
    again; and with software frames each of them is allocated, and their ring is not
    smaller than the index the last session left. *)
Definition orderly s (o : op) : Prop :=
  match o with
  | Setup opening n _ _ hw _ alloc _ _ =>
      m_decoder_finalized (dec s) = false /\
      (opening = Opened -> hw = false -> (forall i, is_Some (alloc i)) /\ (m_next_frame (dec s) < capacityFor n + 1)%nat)
  | _ => True
  end.

(** ** Ownership *)

Definition own_dec d : gmultiset Z := own_list (omap id (m_frames d)) ⊎ own_frame (tmp_frame d).
Definition owned_system s : gmultiset Z := owned (holder s) ⊎ own_dec (dec s).

(** When the decoder is ready the mode of the queue is set up. *)
Definition ready_wf s : Prop :=
  (m_decoder_ready (dec s) = true -> m_decoder_finalized (dec s) = true) /\
  (m_decoder_finalized (dec s) = true -> transferOwnership (config (holder s)) = m_use_zero_copy_holder (dec s)).
(** Its frames are there from the setup to the cleanup, and the next one is among them. *)
Definition ring_wf s : Prop :=
  (m_decoder_finalized (dec s) = false -> m_frames (dec s) = [] /\ tmp_frame (dec s) = None) /\
  (m_decoder_finalized (dec s) = true -> m_use_zero_copy_holder (dec s) = false ->
    Forall is_Some (m_frames (dec s)) /\ (m_next_frame (dec s) < length (m_frames (dec s)))%nat).

Abbreviation sys_kept s e s' := (kept (holder s) e (holder s') (own_dec (dec s)) (own_dec (dec s'))).

Lemma sys_kept_dec s e q' d' :
  own_dec d' = own_dec (dec s) -> kept (holder s) e q' ∅ ∅ -> kept (holder s) e q' (own_dec (dec s)) (own_dec d').
Proof. intros ->. intros H. eapply kept_frame with (x := own_dec (dec s)) in H. by rewrite !(left_id_L ∅ (⊎)) in H. Qed.

Lemma own_dec_frames d d' : m_frames d' = m_frames d -> tmp_frame d' = tmp_frame d -> own_dec d' = own_dec d.
Proof. unfold own_dec. by intros -> ->. Qed.

(** Draining the codec keeps the frames and the set-up. *)
Record drains s e s' : Prop := {
  drains_kept : sys_kept s e s';
  drains_config : config (holder s') = config (holder s);
  drains_ready : m_decoder_ready (dec s') = m_decoder_ready (dec s) /\ m_decoder_finalized (dec s') = m_decoder_finalized (dec s) /\
    m_use_zero_copy_holder (dec s') = m_use_zero_copy_holder (dec s) /\ m_frames (dec s') = m_frames (dec s) /\ tmp_frame (dec s') = tmp_frame (dec s);
  drains_next : (m_next_frame (dec s) < length (m_frames (dec s)) -> m_next_frame (dec s') < length (m_frames (dec s)))%nat;
}.
Lemma drains_app s1 s2 s3 e1 e2 : drains s1 e1 s2 -> drains s2 e2 s3 -> drains s1 (e1 ++ e2) s3.
Proof.
  intros [H1 H2 H3 H4] [K1 K2 K3 K4]. destruct H3 as (?&?&?&E&?), K3 as (?&?&?&?&?). rewrite E in K4. split; [by eapply kept_app|congruence| |auto].
  repeat split; congruence.
Qed.
Lemma drains_refl s : drains s [] s.
Proof. split; [by apply sys_kept_dec, kept_quiet|done..]. Qed.

Lemma acquire_config alloc q : config (acquireFrameLocked alloc q).1.2 = config q.
Proof. unfold acquireFrameLocked. by destruct (freeQueue q). Qed.

Lemma m_frames_own s i f : m_frames (dec s) !! i = Some (Some f) -> exists x, own_dec (dec s) = {[+ f +]} ⊎ x.
Proof.
  intros H. apply take_drop_middle in H. unfold own_dec. rewrite <- H, omap_app. cbn. own_simpl.
  eexists. rewrite !(assoc_L (⊎)), (comm_L (⊎) (own_list (omap id (take i (m_frames (dec s)))))), <- !(assoc_L (⊎)). reflexivity.
Qed.

Lemma enqueue_pushed u f now pending q :
  config (enqueue u f now pending q).1 = config q /\ kept q (enqueue u f now pending q).2 (enqueue u f now pending q).1 {[+ f +]} ∅.
Proof. split; [apply enqueue_config|apply enqueue_kept]. Qed.

Lemma push_copy_config u f a ok now pending q : transferOwnership (config q) = false ->
  config (push u (Some f) a ok now pending q).1.2 = config q.
Proof.
  intros Ht. unfold push. rewrite Ht. pose proof (acquire_config a q) as Hc. destruct (acquireFrameLocked a q) as [[[g|] q1] e]; [|done].
  destruct ok; cbn [negb fst snd] in *; [|done]. destruct (enqueue_pushed u g now pending q1) as [H _]. destruct (enqueue u g now pending q1). cbn in *. congruence.
Qed.

Lemma round_drains u a n s f s1 e1 :
  get_frame a n s = Some (inl f, s1, e1) -> transferOwnership (config (holder s)) = m_use_zero_copy_holder (dec s) ->
  drains s (e1 ++ (push_frame u f a s1).2) (push_frame u f a s1).1.
Proof.
  unfold get_frame. intros Hg Ht. destruct (m_use_zero_copy_holder (dec s)) eqn:Ez.
  - pose proof (acquire_kept (an_alloc a) (holder s)) as H1. pose proof (acquire_config (an_alloc a) (holder s)) as Hc.
    destruct (acquireFrameLocked (an_alloc a) (holder s)) as [[[g|] q] e]; [|done].
    destruct (an_receive a); [|done..]. injection Hg as <- <- <-. unfold push_frame. cbn [dec tel holder]. rewrite Ez. unfold pushTransferred.
    destruct (consumePendingDecodeTiming (tel s)) as [pending t].
    destruct (enqueue_pushed u g (an_now a) pending q) as [Hc2 H2]. destruct (enqueue u g (an_now a) pending q) as [q2 e2]. cbn [fst snd] in *.
    split; cbn [dec holder]; [|congruence|done|done]. apply (sys_kept_dec s); [done|]. by eapply kept_app.
  - destruct (m_frames (dec s) !! m_next_frame (dec s)) as [[g|]|] eqn:Ef; [|done..]. destruct (an_receive a); [|done..].
    injection Hg as <- <- <-. unfold push_frame. cbn [dec tel holder with_next m_use_zero_copy_holder]. rewrite Ez.
    destruct (consumePendingDecodeTiming (tel s)) as [pending t].
    pose proof (push_copy_kept u g (an_copy a) (an_ref a) (an_now a) pending (holder s) Ht) as H1.
    pose proof (push_copy_config u g (an_copy a) (an_ref a) (an_now a) pending (holder s) Ht) as Hc.
    destruct (push u (Some g) (an_copy a) (an_ref a) (an_now a) pending (holder s)) as [[ok q] e]. cbn [fst snd app] in *.
    split; cbn [dec holder with_next m_next_frame m_frames]; [|done|done|intros ?; apply Nat.mod_upper_bound; lia]. destruct (m_frames_own _ _ _ Ef) as [x Hx].
    change (kept (holder s) e q (own_dec (dec s)) (own_dec (dec s))). rewrite Hx. by apply kept_frame.
Qed.

Lemma end_drains a n s r s1 e1 : get_frame a n s = Some (inr r, s1, e1) -> drains s e1 s1.
Proof.
  unfold get_frame. intros Hg. destruct (m_use_zero_copy_holder (dec s)) eqn:Ez.
  - pose proof (acquire_kept (an_alloc a) (holder s)) as H1. pose proof (acquire_config (an_alloc a) (holder s)) as Hc.
    destruct (acquireFrameLocked (an_alloc a) (holder s)) as [[[g|] q] e]; cbn [fst snd holder dec tel] in *.
    2: { injection Hg as <- <- <-. split; cbn [dec holder]; [|done|by rewrite Ez|done]. by apply sys_kept_dec. }
    assert (drains s (e ++ [Unref g]) {| dec := dec s; tel := tel s; holder := (recycleWriteFrame (Some g) q).1 |}) as Hd.
    { split; cbn [dec holder]; [|done|by rewrite Ez|done]. apply (sys_kept_dec s); [done|]. eapply kept_app; [exact H1|]. apply (recycle_kept (Some g) q). }
    destruct (an_receive a); [done|..]; injection Hg as <- <- <-; exact Hd.
  - destruct (m_frames (dec s) !! m_next_frame (dec s)) as [[g|]|]; [|done..].
    destruct (an_receive a); [done|..]; injection Hg as <- <- <-; apply drains_refl.
Qed.

Lemma drain_frames_drains u answers n s r s' e :
  drain_frames u answers n s = Some (r, s', e) -> transferOwnership (config (holder s)) = m_use_zero_copy_holder (dec s) -> drains s e s'.
Proof.
  revert n s e; induction answers as [|a rest IH]; intros n s e; cbn [drain_frames]; [done|]. intros Hd Ht.
  destruct (get_frame a n s) as [[[[f|r1] s1] e1]|] eqn:Eg; [| |done].
  - pose proof (round_drains u a n s f s1 e1 Eg Ht) as H1. destruct (push_frame u f a s1) as [s2 e2]; cbn [fst snd] in *.
    destruct (drain_frames u rest (S n) s2) as [[[r2 s3] e3]|] eqn:Er; [|done]. injection Hd as <- <- <-.
    rewrite (assoc_L (++)). eapply drains_app; [exact H1|]. apply (IH _ _ _ Er). destruct H1 as [_ Hc (_ & _ & Hz & _) _]. congruence.
  - injection Hd as <- <- <-. by eapply end_drains.
Qed.

Lemma decode_drains u sent answers s r s' e :
  decode u sent answers s = Some (r, s', e) -> transferOwnership (config (holder s)) = m_use_zero_copy_holder (dec s) -> drains s e s'.
Proof.
  intros Hd Ht. destruct sent as [|first second|]; cbn [decode] in Hd.
  - by eapply drain_frames_drains.
  - destruct (drain_frames u first 0 s) as [[[[n|] s1] e1]|] eqn:E1; [| |done].
    + pose proof (drain_frames_drains _ _ _ _ _ _ _ E1 Ht) as H1. destruct second; cbn [negb] in Hd; [|by injection Hd as <- <- <-].
      destruct (drain_frames u answers 0 s1) as [[[r2 s2] e2]|] eqn:E2; [|done].
      assert (drains s (e1 ++ e2) s2) as H2.
      { eapply drains_app; [exact H1|]. apply (drain_frames_drains _ _ _ _ _ _ _ E2). destruct H1 as [_ Hc (_ & _ & Hz & _) _]. congruence. }
      destruct r2; by injection Hd as <- <- <-.
    + injection Hd as <- <- <-. by eapply drain_frames_drains.
  - injection Hd as <- <- <-. apply drains_refl.
Qed.

(** The parts of the decoder that counting does not touch. *)
Definition same_setup d d' : Prop :=
  m_decoder_ready d' = m_decoder_ready d /\ m_decoder_finalized d' = m_decoder_finalized d /\ m_use_zero_copy_holder d' = m_use_zero_copy_holder d /\
  m_frames d' = m_frames d /\ tmp_frame d' = tmp_frame d /\ m_next_frame d' = m_next_frame d.
Lemma drains_same s e s' d t t' d' : drains {| dec := d; tel := t; holder := holder s |} e s' -> same_setup (dec s) d -> same_setup (dec s') d' ->
  drains s e {| dec := d'; tel := t'; holder := holder s' |}.
Proof.
  intros [H1 H2 (R1 & R2 & R3 & R4 & R5) H4] (S1 & S2 & S3 & S4 & S5 & S6) (T1 & T2 & T3 & T4 & T5 & T6). cbn [dec holder] in *. split; cbn [dec holder].
  - rewrite (own_dec_frames (dec s') d') by congruence. by rewrite <- (own_dec_frames (dec s) d) by congruence.
  - done.
  - repeat split; congruence.
  - rewrite T6, <- S4, <- S6. exact H4.
Qed.
Lemma start_window_same un d : same_setup d (start_window un d).
Proof. unfold start_window. by destruct (m_stats_window_start d). Qed.
Lemma end_window_same un d : same_setup d (end_window un d).
Proof. unfold end_window. destruct (m_stats_window_start d); [|done]. by destruct (_ <=? _). Qed.

Lemma submit_drains u un s st s' e : submit_decode_unit u un s = Some (st, s', e) -> ready_wf s -> drains s e s'.
Proof.
  unfold submit_decode_unit. intros Hs (Hr & Ht). destruct (negb (un_fullLength un <? DECODER_BUFFER_SIZE)).
  { injection Hs as <- <- <-. apply drains_refl. }
  destruct (un_clocks un) as [[[c1 c2] c3] c4]. pose proof (start_window_same un (dec s)) as Hd. set (d0 := start_window un (dec s)) in *. clearbody d0.
  pose proof Hd as (S1 & S2 & S3 & _). cbn [count_unit with_counts m_decoder_ready] in Hs. rewrite S1 in Hs.
  destruct (m_decoder_ready (dec s)) eqn:Erd; cbn [negb] in Hs.
  2: { injection Hs as <- <- <-. destruct s as [d1 t1 q1]; cbn [dec tel holder] in *. by apply (drains_same _ _ {| dec := d1; tel := t1; holder := q1 |} d1 t1); [apply drains_refl| |]. }
  destruct (decode _ _ _ _) as [[[r s1] e1]|] eqn:Ed; [|done].
  apply decode_drains in Ed; [|cbn; rewrite S3; auto]. assert (forall d' t', same_setup (dec s1) d' -> drains s e1 {| dec := d'; tel := t'; holder := holder s1 |}) as Hk.
  { intros d' t' Hd'. eapply drains_same; [exact Ed|exact Hd|exact Hd']. }
  destruct s1 as [d1 t1 q1]; cbn [dec tel holder] in *. destruct r as [[|n]|]; injection Hs as <- <- <-; apply Hk; [done| |done].
  match goal with |- same_setup _ (end_window _ ?d) => exact (end_window_same un d) end.
Qed.

Lemma draw_drains u now present s : drains s (draw u now present s).2 (draw u now present s).1.
Proof.
  unfold draw, draw_frame. destruct present as [[[render gpu] now1] at_]. destruct (pop_pops u now (holder s)) as [_ Hc].
  cbv zeta. split; cbn [fst snd dec holder]; [|exact Hc|done|done]. apply sys_kept_dec; [done|].
  eapply kept_nil_r; [apply pop_kept|]. by apply kept_quiet.
Qed.

(** Events that are no frame of the queue. *)
Definition silent (e : list event) : Prop := entered e = [] /\ left e = [] /\ dropped e = [] /\ shown e = [].
Lemma silent_app e1 e2 : silent e1 -> silent e2 -> silent (e1 ++ e2).
Proof.
  intros (A1 & A2 & A3 & A4) (B1 & B2 & B3 & B4). unfold silent. rewrite entered_app, left_app, dropped_app. unfold shown. rewrite omap_app. fold (shown e1) (shown e2).
  by rewrite A1, A2, A3, A4.
Qed.
Lemma alloc_frames_silent alloc garbage i n : silent (alloc_frames alloc garbage i n).2.
Proof.
  revert i; induction n as [|n IH]; intros i; cbn [alloc_frames]; [done|]. destruct (alloc i) as [f|]; [|done].
  specialize (IH (S i)). destruct (alloc_frames alloc garbage (S i) n) as [[ok frames] e]. by apply (silent_app [Alloc f] e).
Qed.
Lemma alloc_frames_moves alloc garbage i n : (forall i, is_Some (alloc i)) ->
  let '(ok, frames, e) := alloc_frames alloc garbage i n in
  ok = true /\ moves e ∅ (own_list (omap id frames)) /\ length frames = n /\ Forall is_Some frames.
Proof.
  intros Ha. revert i; induction n as [|n IH]; intros i; cbn [alloc_frames].
  { split; [done|]. split; [apply moves_nil|done]. }
  destruct (Ha i) as [f ->]. specialize (IH (S i)). destruct (alloc_frames alloc garbage (S i) n) as [[ok frames] e].
  destruct IH as (-> & Hm & Hl & Hf). split; [done|]. split; [|split; [cbn; by rewrite Hl|by constructor]]. cbn [omap list_omap id]. own_simpl.
  apply (moves_app [Alloc f] e _ {[+ f +]}); [frames_solver|]. rewrite <- (right_id_L ∅ (⊎) {[+ f +]}) at 1.
  rewrite !(comm_L (⊎) {[+ f +]}). by apply moves_frame.
Qed.
Definition tmp_event (tmp : option Z) : list event := match tmp with Some f => [Alloc f] | None => [] end.

Lemma free_cells_moves l : moves (concat (free_cell <$> l)) (own_list (omap id l)) ∅ /\
  entered (concat (free_cell <$> l)) = [] /\ left (concat (free_cell <$> l)) = [].
Proof.
  induction l as [|[f|] l (Hm & E1 & E2)]; [split; [apply moves_nil|done]| |done]. cbn [fmap list_fmap concat free_cell omap list_omap id]. own_simpl.
  split; [|split; [exact E1|exact E2]]. apply (moves_cons (Free f) _ (own_list (omap id l))); [done|]. cbn [gives frame_uses]. by rewrite (left_id_L ∅ (⊎)).
Qed.

Lemma decoder_cleanup_log s :
  moves (decoder_cleanup s).2 (owned_system s) ∅ /\ entered (decoder_cleanup s).2 = [] /\ left (decoder_cleanup s).2 = frame <$> queue (holder s) /\
  ready_wf (decoder_cleanup s).1 /\ ring_wf (decoder_cleanup s).1 /\ owned_system (decoder_cleanup s).1 = ∅ /\ stats (holder (decoder_cleanup s).1) = no_stats /\
  queue (holder (decoder_cleanup s).1) = [].
Proof.
  unfold decoder_cleanup, owned_system, own_dec. destruct (cleanup_log (holder s)) as (E1 & E2 & Hm).
  assert (owned (cleanup (holder s)).1 = ∅ /\ stats (cleanup (holder s)).1 = no_stats /\ queue (cleanup (holder s)).1 = []) as (Ho & Hst & Hqq) by done.
  destruct (cleanup (holder s)) as [q e]; cbn [fst snd] in *.
  destruct (free_cells_moves (m_frames (dec s))) as (F1 & F2 & F3). cbn [dec holder with_setup m_frames tmp_frame].
  assert (entered (free_cell (tmp_frame (dec s))) = [] /\ left (free_cell (tmp_frame (dec s))) = [] /\
    moves (free_cell (tmp_frame (dec s))) (own_frame (tmp_frame (dec s))) ∅) as (T1 & T2 & T3).
  { destruct (tmp_frame (dec s)); (split; [done|split; [done|]]); [cbn [free_cell own_frame]; frames_solver|apply moves_nil]. }
  split; [|rewrite !entered_app, !left_app, F2, F3, T1, T2, E1, E2; repeat split; try done; by rewrite Ho].
  rewrite (comm_L (⊎)), <- (assoc_L (⊎)). eapply moves_app; [by apply moves_frame|]. rewrite (left_id_L ∅ (⊎)).
  eapply moves_app; [by apply moves_frame|]. by rewrite (left_id_L ∅ (⊎)).
Qed.

(** A setup leaves the queue's frames as they are, or cleans up. *)
Lemma setup_counts opening n fps low hw tmp alloc garbage now s :
  let '(_, cleaned, s', e) := setup opening n fps low hw tmp alloc garbage now s in
  ready_wf s' /\
  if cleaned : bool then exists e1 s1, e = e1 ++ (decoder_cleanup s1).2 /\ s' = (decoder_cleanup s1).1 /\ silent e1 /\ queue (holder s1) = queue (holder s)
  else silent e /\ kept (holder s) [] (holder s') ∅ ∅.
Proof.
  unfold setup. destruct opening.
  - split; [by split|]. split; [done|]. by apply kept_quiet.
  - set (s1 := {| dec := _; tel := _; holder := _ |}). destruct (decoder_cleanup_log s1) as (_ & _ & _ & Hw & _).
    rewrite (surjective_pairing (decoder_cleanup s1)). split; [exact Hw|]. by exists [], s1.
  - unfold finalize_decoder_setup. cbn [dec tel holder with_setup m_decoder_finalized]. destruct hw.
    + split; [by split|]. split; [done|]. by apply kept_quiet.
    + pose proof (alloc_frames_silent alloc garbage 0 (capacityFor n + 1)) as Hs.
      destruct (alloc_frames alloc garbage 0 (capacityFor n + 1)) as [[ok frames] e]. cbn [snd] in Hs.
      assert (silent (tmp_event tmp ++ e)) as Hs' by (apply silent_app; [by destruct tmp|done]). destruct ok.
      * split; [by split|]. split; [exact Hs'|]. by apply kept_quiet.
      * match goal with |- context [decoder_cleanup ?x] => set (s1 := x) end. destruct (decoder_cleanup_log s1) as (_ & _ & _ & Hw & _).
        rewrite (surjective_pairing (decoder_cleanup s1)). split; [exact Hw|]. by exists (tmp_event tmp ++ e), s1.
Qed.

Record books (calls since : list event) s : Prop := {
  books_ready : ready_wf s;
  books_order : entered calls = left calls ++ (frame <$> queue (holder s));
  books_since : entered since = left since ++ (frame <$> queue (holder s));
  books_drops : framesDroppedStat (stats (holder s)) = length (dropped since);
  books_shown : localClockPacedFrameStat (stats (holder s)) = length (shown since);
  books_sum : framesDroppedStat (stats (holder s)) = (overflowDropStat (stats (holder s)) + pacingSkipStat (stats (holder s)))%nat;
  books_fake : fakeFrameUsedStat (stats (holder s)) = (emptyQueueStat (stats (holder s)) + rebufferHoldStat (stats (holder s)))%nat;
}.

Lemma books_step calls since s e s' i o : books calls since s -> kept (holder s) e (holder s') i o -> ready_wf s' -> books (calls ++ e) (since ++ e) s'.
Proof.
  intros [B1 B3 B4 B5 B6 B7 B8] [_ K2 K3 K4 K5 K6] Hr. split; try done; try by auto.
  - by rewrite entered_app, left_app, B3, <- !(assoc_L (++)), K2.
  - by rewrite entered_app, left_app, B4, <- !(assoc_L (++)), K2.
  - rewrite dropped_app, length_app. lia.
  - rewrite shown_app, length_app. lia.
Qed.
Lemma books_silent calls since s e : books calls since s -> silent e -> books (calls ++ e) (since ++ e) s.
Proof.
  intros [B1 B3 B4 B5 B6 B7 B8] (E1 & E2 & E3 & E4). split; try done; rewrite ?entered_app, ?left_app, ?dropped_app, ?shown_app, ?E1, ?E2, ?E3, ?E4, ?app_nil_r; done.
Qed.
Lemma books_cleaned calls since s e : books calls since s -> silent e -> forall s1, queue (holder s1) = queue (holder s) ->
  books (calls ++ e ++ (decoder_cleanup s1).2) [] (decoder_cleanup s1).1.
Proof.
  intros [_ B3 _ _ _ _ _] (E1 & E2 & _) s1 Hq. destruct (decoder_cleanup_log s1) as (_ & C2 & C3 & C4 & _ & _ & C6 & C7).
  split; rewrite ?C6, ?C7; try done. by rewrite !entered_app, !left_app, B3, C2, C3, E1, E2, Hq, !app_nil_r.
Qed.

Lemma drains_wf s e s' : drains s e s' -> ready_wf s -> ready_wf s'.
Proof. intros [_ H2 (E1 & E2 & E3 & E4 & E5) _] (R1 & R2). unfold ready_wf. by rewrite H2, E1, E2, E3. Qed.
Lemma drains_ring s e s' : drains s e s' -> ring_wf s -> ring_wf s'.
Proof. intros [_ H2 (E1 & E2 & E3 & E4 & E5) H4] (R1 & R2). unfold ring_wf. rewrite E2, E3, E4, E5. split; [done|]. intros Hf Hz. destruct (R2 Hf Hz). auto. Qed.

(** Decode units and draws move the frames, and keep the set-up. *)
Lemma step_drains u o s cleaned s' e : step u o s = Some (cleaned, s', e) -> ready_wf s ->
  match o with Setup _ _ _ _ _ _ _ _ _ | Cleanup => True | _ => cleaned = false /\ drains s e s' end.
Proof.
  intros Hs Hw. destruct o; cbn [step] in Hs; try done.
  - destruct (submit_decode_unit u u0 s) as [[[st s1] e1]|] eqn:E; [|done]. injection Hs as <- <- <-. split; [done|]. by eapply submit_drains.
  - pose proof (draw_drains u now present s) as Hd. destruct (draw u now present s) as [s1 e1]. by injection Hs as <- <- <-.
Qed.

Lemma decoder_books u allowed calls since s : reaches u allowed calls since s -> books calls since s.
Proof.
  induction 1 as [|calls since s o cleaned s' e _ IH _ Hs]; [by split|].
  pose proof (step_drains _ _ _ _ _ _ Hs (books_ready _ _ _ IH)) as Hd. destruct o; cbn [step] in Hs.
  - pose proof (setup_counts opening queue_size fps low hw tmp alloc garbage now s) as Hc.
    destruct (setup _ _ _ _ _ _ _ _ _ s) as [[[ok c] s1] e1]. injection Hs as <- <- <-. destruct Hc as [Hw Hc]. destruct c.
    + destruct Hc as (e0 & s0 & -> & -> & He & Hq). by eapply books_cleaned.
    + destruct Hc as [He Hk]. rewrite <- (app_nil_r e1), !(assoc_L (++)). eapply books_step; [by apply books_silent|exact Hk|exact Hw].
  - destruct Hd as [-> Hd]. eapply books_step; [done|apply Hd|eapply drains_wf; [exact Hd|apply IH]].
  - destruct Hd as [-> Hd]. eapply books_step; [done|apply Hd|eapply drains_wf; [exact Hd|apply IH]].
  - rewrite (surjective_pairing (decoder_cleanup s)) in Hs. injection Hs as <- <- <-. by apply (books_cleaned calls since s []).
Qed.

(** An orderly setup: the frames are allocated, or nothing is kept. *)
Lemma setup_moves opening n fps low hw tmp alloc garbage now s : orderly s (Setup opening n fps low hw tmp alloc garbage now) -> ring_wf s ->
  let '(_, _, s', e) := setup opening n fps low hw tmp alloc garbage now s in moves e (owned_system s) (owned_system s') /\ ring_wf s'.
Proof.
  intros [Hf Ha] [Hr _]. destruct (Hr Hf) as [Ef1 Ef2]. unfold setup. destruct opening.
  - split; [apply moves_nil|]. by split.
  - set (s1 := {| dec := _; tel := _; holder := _ |}). destruct (decoder_cleanup_log s1) as (Hm & _ & _ & _ & Hw & Ho & _).
    rewrite (surjective_pairing (decoder_cleanup s1)). split; [by rewrite Ho|exact Hw].
  - unfold finalize_decoder_setup. cbn [dec tel holder with_setup m_decoder_finalized]. destruct hw.
    + split; [apply moves_nil|]. by split.
    + destruct (Ha eq_refl eq_refl) as [Ha' Hn]. pose proof (alloc_frames_moves alloc garbage 0 (capacityFor n + 1) Ha') as H.
      destruct (alloc_frames alloc garbage 0 (capacityFor n + 1)) as [[ok frames] e]. destruct H as (-> & Hm & Hl & Hs). split.
      * unfold owned_system, own_dec. cbn [dec holder m_frames tmp_frame with_setup]. rewrite Ef1, Ef2. cbn [omap list_omap own_frame]. rewrite own_list_nil, !(right_id_L ∅ (⊎)).
        change (owned (configure n fps false low (holder s))) with (owned (holder s)). eapply moves_app with (b := own_frame tmp ⊎ owned (holder s)).
        -- destruct tmp; frames_solver.
        -- eapply moves_eq; [exact (moves_frame e _ _ (own_frame tmp ⊎ owned (holder s)) Hm)|by rewrite (left_id_L ∅ (⊎))|].
           clear. multiset_solver.
      * split; [done|]. intros _ _. cbn [dec m_frames m_next_frame with_setup]. by rewrite Hl.
Qed.

(** In orderly runs the frames that are open are those that are owned. *)
Lemma orderly_owned u calls since s : reaches u orderly calls since s -> run calls ∅ = Some (owned_system s) /\ ring_wf s.
Proof.
  induction 1 as [|calls since s o cleaned s' e Hreach [IH Hr] Ho Hs]; [by split|].
  pose proof (books_ready _ _ _ (decoder_books _ _ _ _ _ Hreach)) as Hw. rewrite moves_run_app, IH. cbn [mbind option_bind].
  enough (moves e (owned_system s) (owned_system s') /\ ring_wf s') as [Hm ?] by (split; [by apply moves_run|done]).
  pose proof (step_drains _ _ _ _ _ _ Hs Hw) as Hd. destruct o; cbn [step] in Hs.
  - pose proof (setup_moves _ _ _ _ _ _ _ _ _ _ Ho Hr) as H. destruct (setup _ _ _ _ _ _ _ _ _ s) as [[[ok c] s1] e1]. by injection Hs as <- <- <-.
  - destruct Hd as [_ Hd]. split; [apply Hd|by eapply drains_ring].
  - destruct Hd as [_ Hd]. split; [apply Hd|by eapply drains_ring].
  - pose proof (decoder_cleanup_log s) as H. destruct (decoder_cleanup s) as [s1 e1]. cbn [fst snd] in H. destruct H as (Hm & _ & _ & _ & Hw' & Ho' & _). injection Hs as <- <- <-.
    split; [by rewrite Ho'|exact Hw'].
Qed.


(** C27: through any calls at all, frames leave the queue in the order they were decoded, each shown or dropped
    once; since the last cleanup the statistics count them: queued is shown, plus
    dropped (by overflow or pacing), plus those still waiting. *)
Theorem frames_in_order u allowed calls since s :
  reaches u allowed calls since s ->
  entered calls = left calls ++ (frame <$> queue (holder s)) /\
  length (entered since) = (localClockPacedFrameStat (stats (holder s)) + framesDroppedStat (stats (holder s)) + length (queue (holder s)))%nat /\
  framesDroppedStat (stats (holder s)) = (overflowDropStat (stats (holder s)) + pacingSkipStat (stats (holder s)))%nat /\
  fakeFrameUsedStat (stats (holder s)) = (emptyQueueStat (stats (holder s)) + rebufferHoldStat (stats (holder s)))%nat.
Proof.
  intros H. destruct (decoder_books _ _ _ _ _ H) as [_ B3 B4 B5 B6 B7 B8]. split; [done|]. split; [|done].
  rewrite B4, length_app, length_fmap, B5, B6.
  enough (length (left since) = (length (shown since) + length (dropped since))%nat) by lia. clear.
  induction since as [|c l IH]; [done|]. destruct c; cbn; unfold left, shown, dropped in IH; lia.
Qed.

(** ** A session *)

Fixpoint runs (u : double -> Z) (ops : list op) (calls since : list event) s : option (list event * list event * System) :=
  match ops with
  | [] => Some (calls, since, s)
  | o :: rest =>
      match step u o s with
      | None => None
      | Some (cleaned, s', e) => runs u rest (calls ++ e) (if cleaned : bool then [] else since ++ e) s'
      end
  end.
(** The conditions of the calls, along the run. *)
Fixpoint all_allowed (u : double -> Z) (allowed : System -> op -> Prop) (ops : list op) s : Prop :=
  match ops with
  | [] => True
  | o :: rest => allowed s o /\ match step u o s with Some (_, s', _) => all_allowed u allowed rest s' | None => True end
  end.
Lemma runs_reaches u allowed ops calls since s calls' since' s' :
  reaches u allowed calls since s -> runs u ops calls since s = Some (calls', since', s') -> all_allowed u allowed ops s -> reaches u allowed calls' since' s'.
Proof.
  revert calls since s. induction ops as [|o rest IH]; intros calls since s H Hr Ha; cbn [runs all_allowed] in Hr, Ha.
  - by injection Hr as <- <- <-.
  - destruct Ha as [Ho Ha]. destruct (step u o s) as [[[c s1] e]|] eqn:E; [|done]. eapply IH; [|exact Hr|exact Ha]. by eapply reaches_step.
Qed.

(** A decode unit: frame number, arrival, the answers of the codec. *)
Definition demo_unit (n arrival : Z) (answers : list Answer) : op :=
  Submit {| un_fullLength := 1000; un_frameNumber := n; un_arrival := arrival; un_clocks := (arrival, arrival, arrival, arrival); un_sent := SentOk;
            un_answers := answers; un_after := arrival + 4000000; un_clock := arrival |}.
Definition demo_answer (f now : Z) (r : Received) : Answer :=
  {| an_alloc := Some f; an_receive := r; an_copy := Some (f + 1000); an_ref := true; an_now := now |}.
Definition demo_units (first count : nat) : list op :=
  (fun i => demo_unit (Z.of_nat i) (16666667 * Z.of_nat i)
     [demo_answer (Z.of_nat i) (16666667 * Z.of_nat i + 3000000) GotFrame; demo_answer (100 + Z.of_nat i) 0 GotAgain]) <$> seq first count.
Definition demo_setup (n : nat) (hw : bool) : op :=
  Setup Opened n 60 false hw (Some 500) (fun i => Some (501 + Z.of_nat i)) (fun _ => Some 77) 0.
Definition demo_draw (now : Z) : op := DrawAt now (dbl 2, dbl 1, now, now).
Definition no_cast : double -> Z := fun _ => 0.

Definition demo_session (hw : bool) : list op :=
  [demo_setup 3 hw] ++ demo_units 1 4 ++ [demo_draw 70000000; demo_draw 86000000] ++ demo_units 5 10 ++ [demo_draw 250000000].

Lemma frames_in_order_witness :
  exists calls since s, runs no_cast (demo_session true) [] [] new_system = Some (calls, since, s) /\
    length (entered since) = (localClockPacedFrameStat (stats (holder s)) + framesDroppedStat (stats (holder s)) + length (queue (holder s)))%nat.
Proof.
  destruct (runs no_cast (demo_session true) [] [] new_system) as [[[calls since] s]|] eqn:E; [|vm_compute in E; discriminate E].
  exists calls, since, s. split; [reflexivity|].
  apply (frames_in_order no_cast (fun _ _ => True) calls since s). eapply runs_reaches; [apply reaches_new|exact E|]. vm_compute. repeat split.
Defined.

(** ** What the composition shows *)

(** [drain_frames] pushes before [submit_decode_unit] notes the timing, so every
    frame carries the timing of the unit before it: the frame decoded from the
    unit that arrived at 33 ms says 16 ms, and its wait is one frame too long. *)
Example stamps_lag_one_unit :
  option_map (fun '(_, _, s) => (fun tf => (frame tf, networkComplete tf, decodeDone tf)) <$> queue (holder s))
    (runs no_cast (demo_setup 5 true :: demo_units 1 4) [] [] new_system) =
  Some [(1, 19666667, 19666667); (101, 16666667, 20666667); (102, 33333334, 37333334); (103, 50000001, 54000001)].
Proof. vm_compute. reflexivity. Qed.

(** On the legacy path no frame is reported as selected, so the wait and pipeline
    times shown stay zero. *)
Lemma legacy_never_selects u now q : lowLatency (config q) = false -> pp_selected (pop u now q) = None.
Proof.
  intros H. unfold pop. cbv zeta. cbn [lowLatency config with_stats]. rewrite H. unfold pop_legacy. cbv zeta. destruct (_ && _); [done|].
  destruct (due_frames u _) as [[[|n] q2] e]; [done|]. destruct (bool_decide _); [done|]. by destruct (consume _ q2).
Qed.

(** [cleanup] keeps [m_last_frame]: after a restart of the session the host numbers
    from one again and the gap is counted modulo 2^32. *)
Example restart_counts_lost_frames :
  option_map (fun '(_, _, s) => network_dropped_frames (dec s))
    (runs no_cast (demo_setup 3 true :: demo_units 1 10 ++ [Cleanup; demo_setup 3 true] ++ demo_units 1 1) [] [] new_system) =
  Some (2 ^ 32 - 10).
Proof. vm_compute. reflexivity. Qed.

(** It keeps [m_next_frame] too: when the queue is made smaller between two setups
    the ring of frames is read outside its bounds. *)
Example smaller_queue_reads_past_ring :
  (runs no_cast (demo_setup 8 false :: demo_units 1 9) [] [] new_system <> None) /\
  runs no_cast (demo_setup 8 false :: demo_units 1 9 ++ [Cleanup; demo_setup 1 false] ++ demo_units 10 1) [] [] new_system = None.
Proof. split; [vm_compute; discriminate|vm_compute; reflexivity]. Qed.

(** Set up twice without a cleanup, the frames of the first setup are lost. *)
Example second_setup_loses_frames :
  option_map (fun '(calls, _, s) => bool_decide (run (calls ++ (decoder_cleanup s).2) ∅ = Some ∅))
    (runs no_cast [demo_setup 1 false; Setup Opened 1 60 false false (Some 600) (fun i => Some (601 + Z.of_nat i)) (fun _ => Some 77) 0] [] [] new_system) =
  Some false.
Proof. vm_compute. reflexivity. Qed.

(** When a frame of [m_frames] cannot be allocated, [cleanup] frees the entries that
    were never written. *)
Example failed_setup_frees_garbage :
  let '(ok, _, _, e) := setup Opened 1 60 false false (Some 500) (fun i => if (i <? 2)%nat then Some (501 + Z.of_nat i) else None) (fun _ => Some 77) 0 new_system in
  ok = false /\ run e ∅ = None.
Proof. vm_compute. split; reflexivity. Qed.
