(* ===== verification/CText.v ===== *)
(** C strings and the C library's number parsing ([strtol], [strtoul], [atoi],
    [std::stoi], [std::stoul], [strlen]), [std::to_string] of an [int], and what
    [snprintf] leaves in a buffer: the text the game stream client reads and
    writes. [long] is 64 bits wide. *)

From S2P Require Import Prelude Text HostAddress.

(** The bytes in front of the terminator. *)
Definition c_str (l : bytes) : bytes := take_while (fun b => negb (bool_decide (b = Init.Byte.x00))) l.

(** [snprintf(buffer, n, "%s", ...)]: what fits, the terminator not counted. *)
Definition snprintf (n : nat) (text : bytes) : bytes := take (n - 1) text.

Definition int_text (n : Z) : bytes := if n <? 0 then ch "-" :: to_string (- n) else to_string n.

(** The value of a digit in bases up to 36. *)
Definition digit_value (b : byte) : Z :=
  if is_digit b then ub b - 48
  else if (97 <=? ub b) && (ub b <=? 122) then ub b - 87
  else if is_upper b then ub b - 55 else 36.
Definition in_base (base : Z) (b : byte) : bool := digit_value b <? base.
Definition value_in (base : Z) (ds : bytes) : Z := foldl (fun acc b => acc * base + digit_value b) 0 ds.

(** What [strtol] and [strtoul] read: the sign, the digits' value, and the
    characters used - none when there is no digit. *)
Definition strto (base : Z) (l : bytes) : bool * Z * nat :=
  let spaces := take_while is_space l in
  let rest := drop (length spaces) l in
  let minus := bool_decide (head rest = Some (ch "-")) in
  let signs := if minus || bool_decide (head rest = Some (ch "+")) then 1%nat else 0%nat in
  let rest := drop signs rest in
  let hex := ((base =? 0) || (base =? 16)) && bool_decide (head rest = Some (ch "0")) &&
    match rest !! 1%nat, rest !! 2%nat with
    | Some x, Some d => bool_decide (tolower x = ch "x") && in_base 16 d
    | _, _ => false
    end in
  let base := if hex then 16 else if base =? 0 then (if bool_decide (head rest = Some (ch "0")) then 8 else 10) else base in
  let skipped := if hex then 2%nat else 0%nat in
  let ds := take_while (in_base base) (drop skipped rest) in
  if bool_decide (ds = []) then (false, 0, 0%nat)
  else (minus, value_in base ds, (length spaces + signs + skipped + length ds)%nat).

Definition LONG_MAX : Z := 2 ^ 63 - 1.
Definition ULONG_MAX : Z := 2 ^ 64 - 1.

(** The value, the characters used, and whether [errno] is [ERANGE]. *)
Definition strtol (l : bytes) : Z * nat * bool :=
  let '(minus, magnitude, used) := strto 10 l in
  let v := if minus then - magnitude else magnitude in
  if v <? - LONG_MAX - 1 then (- LONG_MAX - 1, used, true)
  else if LONG_MAX <? v then (LONG_MAX, used, true) else (v, used, false).

Definition strtoul (base : Z) (l : bytes) : Z * nat * bool :=
  let '(minus, magnitude, used) := strto base l in
  if ULONG_MAX <? magnitude then (ULONG_MAX, used, true)
  else (if minus then u64 (- magnitude) else magnitude, used, false).

(** [atoi] is [strtol] narrowed. *)
Definition atoi (l : bytes) : Z := let '(v, _, _) := strtol l in i32 v.

(** [None] where they throw. *)
Definition stoi (l : bytes) : option Z :=
  let '(v, used, range) := strtol l in
  if (used =? 0)%nat || range || negb ((- 2 ^ 31 <=? v) && (v <? 2 ^ 31)) then None else Some v.
Definition stoul (base : Z) (l : bytes) : option Z :=
  let '(v, used, range) := strtoul base l in if (used =? 0)%nat || range then None else Some v.

(** ** Facts *)

Example strtol_reads : strtol (bs " -12.") = (-12, 4%nat, false). Proof. reflexivity. Qed.
Example stoul_reads : stoul 0 (bs "0x10000") = Some 65536 /\ stoul 0 (bs "010") = Some 8 /\ stoul 0 (bs "-1") = Some ULONG_MAX.
Proof. done. Qed.

Lemma c_str_id l : Init.Byte.x00 ∉ l -> c_str l = l.
Proof.
  intros H. apply take_while_all, list.Forall_forall. intros b Hb. rewrite bool_decide_false by (by intros ->). done.
Qed.

Lemma snprintf_fits n l : (length l < n)%nat -> snprintf n l = l.
Proof. intros H. unfold snprintf. apply take_ge. lia. Qed.

Lemma length_snprintf n l : (length (snprintf n l) <= n - 1)%nat.
Proof. unfold snprintf. rewrite length_take. lia. Qed.

Lemma digit_in_base_10 b : in_base 10 b = is_digit b.
Proof.
  unfold in_base, digit_value. destruct (is_digit b) eqn:E; [apply is_digit_range in E; lia|].
  destruct ((97 <=? ub b) && (ub b <=? 122)) eqn:E2; [lia|]. destruct (is_upper b) eqn:E3; [|done].
  unfold is_upper in E3. lia.
Qed.

Lemma value_in_10 ds : Forall (fun b => is_digit b = true) ds -> value_in 10 ds = dec_value ds.
Proof.
  unfold value_in, dec_value. generalize 0. induction ds as [|d ds IH]; intros acc H; [done|].
  apply Forall_cons_1 in H as [Hd Hr]. cbn [foldl]. rewrite IH by done. unfold digit_value. by rewrite Hd.
Qed.

Lemma digits_lead ds : Forall (fun b => is_digit b = true) ds -> ds <> [] ->
  take_while is_space ds = [] /\ head ds <> Some (ch "-") /\ head ds <> Some (ch "+").
Proof.
  intros H Hn. destruct ds as [|d ds]; [done|]. apply Forall_cons_1 in H as [Hd _]. apply is_digit_range in Hd.
  cbn [take_while head]. assert (is_space d = false) as -> by (unfold is_space; lia).
  split_and!; [done| |]; intros [= ->]; vm_compute in Hd; by destruct Hd.
Qed.

(** Digits read back as their value. *)
Lemma strtol_digits ds : ds <> [] -> Forall (fun b => is_digit b = true) ds -> dec_value ds <= LONG_MAX ->
  strtol ds = (dec_value ds, length ds, false).
Proof.
  intros Hn Hd Hv. destruct (digits_lead ds Hd Hn) as (Hs & Hm & Hp).
  assert (0 <= dec_value ds) by (pose proof (dec_value_bound ds Hd); lia).
  unfold strtol, strto. rewrite Hs. cbn [length]. rewrite drop_0, (bool_decide_false (head ds = _)) by done.
  rewrite (bool_decide_false (head ds = Some (ch "+"))) by done. cbn [orb]. rewrite drop_0.
  replace ((10 =? 0) || (10 =? 16)) with false by done. cbn [andb].
  replace (if 10 =? 0 then if bool_decide (head ds = Some (ch "0")) then 8 else 10 else 10) with 10 by done.
  rewrite drop_0, (take_while_all (in_base 10)).
  2: { eapply list.Forall_impl; [done|]. intros b Hb. by rewrite digit_in_base_10. }
  rewrite bool_decide_false by done. rewrite value_in_10 by done. unfold LONG_MAX in *.
  rewrite (proj2 (Z.ltb_ge _ _)), (proj2 (Z.ltb_ge _ _)) by lia. done.
Qed.

Lemma i32_small n : - 2 ^ 31 <= n < 2 ^ 31 -> i32 n = n.
Proof. intros H. unfold i32. rewrite Z.mod_small; lia. Qed.

Lemma atoi_to_string n : 0 <= n < 2 ^ 31 -> atoi (to_string n) = n.
Proof.
  intros H. unfold atoi. rewrite strtol_digits.
  - rewrite to_string_value by lia. apply i32_small. lia.
  - apply to_string_nonempty. lia.
  - apply to_string_digits. lia.
  - rewrite to_string_value by lia. unfold LONG_MAX. lia.
Qed.
