(* ===== verification/Data.v ===== *)
(** Byte buffers ([crypto/Data.cpp]) and the application's wrappers of the
    cryptographic library ([crypto/MbedTLSCryptoManager.cpp], the build the
    console uses). A [Data] is its bytes; an empty one may hold a null pointer,
    which no operation here looks at. What the library computes - the hashes, the
    AES block, signatures, certificates - is the class [MbedTLS]. *)

From S2P Require Import Prelude Bytes Text CText.

(** ** [Data] *)

(** [subdata]; [None]: the request is out of range and the process exits. *)
Definition subdata (start size : nat) (d : bytes) : option bytes :=
  if (length d <? start + size)%nat then None else Some (take size (drop start d)).

Definition append (d other : bytes) : bytes := if bool_decide (d = []) then other else d ++ other.

(** [sprintf("%02X")]. *)
Definition hex_char (v : Z) : byte := if v <? 10 then u8 (48 + v) else u8 (55 + v).
Definition hex_byte (b : byte) : bytes := [hex_char (ub b / 16); hex_char (ub b mod 16)].
Definition hex (d : bytes) : bytes := if bool_decide (d = []) then [u8 10] else d ≫= hex_byte.

(** The last character of an odd number of them is paired with the terminator and
    its value stored in place of the result's own. *)
Fixpoint hex_to_bytes (d : bytes) : bytes :=
  match d with
  | a :: b :: rest => u8 (let '(v, _, _) := strtoul 16 (c_str [a; b]) in v) :: hex_to_bytes rest
  | _ => []
  end.

(** [srand(time(NULL))] and [rand()], the [i]-th number after a seed. *)
Definition random_bytes (rand : Z -> nat -> Z) (time : Z) (size : nat) : bytes :=
  (fun i => u8 (rand time i mod 255)) <$> seq 0 size.

(** ** The cryptographic library *)

Class MbedTLS := {
  mbedtls_sha1 : bytes -> bytes;
  mbedtls_sha256 : bytes -> bytes;
  (** [mbedtls_aes_crypt_ecb] on one block, under a 128-bit key. *)
  aes_enc_block : bytes -> bytes -> bytes;
  aes_dec_block : bytes -> bytes -> bytes;
  (** The signature of a certificate, and [mbedtls_pk_sign]: nothing when it fails. *)
  cert_signature : bytes -> bytes;
  pk_sign : bytes -> bytes -> bytes;
}.
Class MbedTLSLaws `{MbedTLS} : Prop := {
  sha1_length d : length (mbedtls_sha1 d) = 20%nat;
  sha256_length d : length (mbedtls_sha256 d) = 32%nat;
  aes_enc_length k b : length b = 16%nat -> length (aes_enc_block k b) = 16%nat;
  aes_dec_enc k b : length b = 16%nat -> aes_dec_block k (aes_enc_block k b) = b;
}.

Section crypto.
Context `{MbedTLS}.

Definition SHA1_hash_data (d : bytes) : bytes := mbedtls_sha1 d.
Definition SHA256_hash_data (d : bytes) : bytes := mbedtls_sha256 d.
Definition create_AES_key_from_salt_SHA1 (salted_pin : bytes) : option bytes := subdata 0 16 (SHA1_hash_data salted_pin).
Definition create_AES_key_from_salt_SHA256 (salted_pin : bytes) : option bytes := subdata 0 16 (SHA256_hash_data salted_pin).

Definition get_encrypt_size (d : bytes) : nat := ((length d + 15) / 16 * 16)%nat.

(** The loops over [block_offset]. *)
Fixpoint ecb (block : bytes -> bytes) (n : nat) (d : bytes) : bytes :=
  match n with O => [] | S n => block (take 16 d) ++ ecb block n (drop 16 d) end.

Definition aes_encrypt (d key : bytes) : bytes :=
  let size := get_encrypt_size d in
  ecb (aes_enc_block key) (size / 16) (d ++ replicate (size - length d) Init.Byte.x00).

(** [None]: the last block reaches past both buffers. *)
Definition aes_decrypt (d key : bytes) : option bytes :=
  if negb (length d mod 16 =? 0)%nat then None else Some (ecb (aes_dec_block key) (length d / 16) d).

Definition signature (cert : bytes) : bytes := cert_signature cert.
Definition verify_signature (d sig cert : bytes) : bool := true.
Definition sign_data (d key : bytes) : bytes := if bool_decide (pk_sign key d = []) then d else pk_sign key d.

(** ** The client's certificate *)

(** The two static members and the two files; a file that is not there is [None]. *)
Record CertStore := { m_cert : bytes; m_key : bytes; cert_file : option bytes; key_file : option bytes }.

Definition read_from_file (f : option bytes) : bytes := default [] f.
(** [writable]: whether the file can be opened for writing. *)
Definition write_to_file (writable : bool) (d : bytes) (f : option bytes) : option bytes := if writable then Some d else f.

Definition load_cert_key_pair (c : CertStore) : bool * CertStore :=
  if bool_decide (m_key c = []) || bool_decide (m_cert c = []) then
    let cert := read_from_file (cert_file c) in
    let key := read_from_file (key_file c) in
    if negb (bool_decide (cert = [])) && negb (bool_decide (key = []))
    then (true, {| m_cert := cert; m_key := key; cert_file := cert_file c; key_file := key_file c |})
    else (false, c)
  else (true, c).

(** [pem_key], [pem_cert]: the buffers the library has written the new pair to. *)
Definition generate_new_cert_key_pair (writable : bool) (pem_key pem_cert : bytes) (c : CertStore) : bool * CertStore :=
  let key := c_str pem_key in
  let cert := c_str pem_cert in
  if negb (bool_decide (cert = [])) && negb (bool_decide (key = []))
  then (true, {| m_cert := cert; m_key := key;
                 cert_file := write_to_file writable cert (cert_file c);
                 key_file := write_to_file writable key (key_file c) |})
  else (false, {| m_cert := cert; m_key := key; cert_file := cert_file c; key_file := key_file c |}).

Definition remove_cert_key_pair (c : CertStore) : CertStore :=
  {| m_cert := []; m_key := []; cert_file := None; key_file := None |}.

(** What is left of it when the application starts again. *)
Definition restarted (c : CertStore) : CertStore :=
  {| m_cert := []; m_key := []; cert_file := cert_file c; key_file := key_file c |}.
End crypto.

(** ** Facts *)

Lemma hex_byte_value b : u8 (let '(v, _, _) := strtoul 16 (c_str (hex_byte b)) in v) = b.
Proof. destruct b; vm_compute; reflexivity. Qed.

Lemma length_bind_hex d : length (d ≫= hex_byte) = (2 * length d)%nat.
Proof. induction d as [|b d IH]; [done|]. cbn [mbind list_bind]. rewrite length_app, IH. cbn. lia. Qed.

Lemma hex_bytes (d : bytes) : hex_to_bytes (hex d) = d.
Proof.
  unfold hex. case_bool_decide as E; [by subst|]. clear E.
  induction d as [|b d IH]; [done|]. cbn [mbind list_bind]. unfold hex_byte at 1. cbn [app hex_to_bytes].
  rewrite IH. f_equal. apply hex_byte_value.
Qed.

(** [hex] writes what [hex_to_bytes] reads back, for every buffer (an empty
    one is written as a line feed, which reads as no byte). *)
Theorem hex_roundtrip (d : bytes) : hex_to_bytes (hex d) = d.
Proof. apply hex_bytes. Qed.

Lemma append_app a b : append a b = a ++ b.
Proof. unfold append. case_bool_decide; by subst. Qed.

Lemma subdata_app a b c : subdata (length a) (length b) (a ++ b ++ c) = Some b.
Proof.
  unfold subdata. rewrite !length_app. destruct (Nat.ltb_spec (length a + (length b + length c)) (length a + length b)); [lia|].
  by rewrite drop_app_length, take_app_length.
Qed.

Lemma length_random_bytes rand t n : length (random_bytes rand t n) = n.
Proof. unfold random_bytes. by rewrite length_fmap, length_seq. Qed.

(** No byte of a random buffer is 255. *)
Lemma random_bytes_below rand t n : Forall (fun b => ub b < 255) (random_bytes rand t n).
Proof.
  apply list.Forall_forall. intros b (i&->&_)%list_elem_of_fmap.
  pose proof (Z.mod_pos_bound (rand t i) 255 ltac:(lia)). rewrite ub_u8_small; lia.
Qed.

Section crypto_facts.
Context `{MbedTLSLaws}.

Lemma aes_size d : (get_encrypt_size d mod 16 = 0 /\ length d <= get_encrypt_size d < length d + 16)%nat.
Proof.
  unfold get_encrypt_size. split; [apply Nat.Div0.mod_mul|].
  pose proof (Nat.div_mod (length d + 15) 16 ltac:(lia)). pose proof (Nat.mod_upper_bound (length d + 15) 16 ltac:(lia)). lia.
Qed.

Lemma length_ecb f n d : (forall b, length b = 16%nat -> length (f b) = 16%nat) -> length d = (16 * n)%nat ->
  length (ecb f n d) = (16 * n)%nat.
Proof.
  intros Hf. revert d. induction n as [|n IH]; intros d Hd; [done|]. cbn [ecb]. rewrite length_app, IH, Hf.
  - lia.
  - rewrite length_take. lia.
  - rewrite length_drop. lia.
Qed.

Lemma ecb_inverse f g n d : (forall b, length b = 16%nat -> length (f b) = 16%nat /\ g (f b) = b) -> length d = (16 * n)%nat ->
  ecb g n (ecb f n d) = d.
Proof.
  intros Hf. revert d. induction n as [|n IH]; intros d Hd; [by destruct d|]. cbn [ecb].
  assert (length (take 16 d) = 16%nat) as Ht by (rewrite length_take; lia).
  destruct (Hf _ Ht) as [Hl Hg].
  rewrite take_app_le, take_ge by lia. rewrite drop_app_ge, Hl, Nat.sub_diag, drop_0 by lia.
  rewrite Hg, IH by (rewrite length_drop; lia). apply take_drop.
Qed.

Lemma aes_inverse (d key : bytes) :
  aes_decrypt (aes_encrypt d key) key = Some (d ++ replicate (get_encrypt_size d - length d) Init.Byte.x00).
Proof.
  pose proof (aes_size d) as [Hm Hs]. set (n := (get_encrypt_size d / 16)%nat).
  assert (get_encrypt_size d = 16 * n)%nat as Hn by (pose proof (Nat.div_mod (get_encrypt_size d) 16 ltac:(lia)); lia).
  set (padded := d ++ replicate (get_encrypt_size d - length d) Init.Byte.x00).
  assert (length padded = 16 * n)%nat as Hp by (unfold padded; rewrite length_app, length_replicate; lia).
  assert (length (aes_encrypt d key) = 16 * n)%nat as Hl.
  { unfold aes_encrypt. fold n. fold padded. apply length_ecb; [|done]. intros b. apply aes_enc_length. }
  unfold aes_decrypt. rewrite Hl. rewrite Nat.mul_comm, Nat.Div0.mod_mul, Nat.div_mul by lia. cbn [Nat.eqb negb].
  f_equal. unfold aes_encrypt. fold n. fold padded. apply ecb_inverse; [|lia].
  intros b Hb. split; [by apply aes_enc_length|by apply aes_dec_enc].
Qed.
End crypto_facts.

(** C: decrypting what was encrypted gives the buffer back, followed by the zeros
    it was padded with to a whole number of blocks. *)
Theorem aes_roundtrip (lib : MbedTLS) (laws : MbedTLSLaws) (d key : bytes) :
  aes_decrypt (aes_encrypt d key) key = Some (d ++ replicate (get_encrypt_size d - length d) Init.Byte.x00).
Proof. apply aes_inverse. Qed.

(** A certificate pair generated on writable storage is the one the next
    start loads. *)
Theorem certificate_persists (pem_key pem_cert : bytes) (c c' : CertStore) :
  generate_new_cert_key_pair true pem_key pem_cert c = (true, c') ->
  load_cert_key_pair (restarted c') = (true, c').
Proof.
  unfold generate_new_cert_key_pair. destruct (negb _ && negb _) eqn:E; [|done]. intros [= <-].
  unfold load_cert_key_pair, restarted. cbn. by rewrite E.
Qed.
Lemma certificate_persists_witness :
  load_cert_key_pair (restarted (generate_new_cert_key_pair true (bs "key") (bs "cert")
      {| m_cert := []; m_key := []; cert_file := None; key_file := None |}).2)
  = (true, {| m_cert := bs "cert"; m_key := bs "key"; cert_file := Some (bs "cert"); key_file := Some (bs "key") |}).
Proof.
  apply (certificate_persists (bs "key") (bs "cert")
    {| m_cert := []; m_key := []; cert_file := None; key_file := None |}).
  vm_compute. reflexivity.
Defined.
