(* ===== verification/Xml.v ===== *)
(** What the game stream client reads out of a host's XML ([libgamestream/xml.cpp],
    [errors.h]): the text of an element, of every element of a name, the list of
    applications and the status of the reply. The parser (expat) is the class
    [Expat]: the callbacks it makes, and the error that stopped it; when it fails,
    the callbacks made before still happened. Allocation does not fail. *)

From S2P Require Import Prelude Text CText.

#[local] Set Warnings "-clear-no-such-hyp,-register-all".

Definition GS_OK : Z := 0.
Definition GS_FAILED : Z := -1.
Definition GS_OUT_OF_MEMORY : Z := -2.
Definition GS_INVALID : Z := -3.
Definition GS_WRONG_STATE : Z := -4.
Definition GS_IO_ERROR : Z := -5.
Definition GS_NOT_SUPPORTED_4K : Z := -6.
Definition GS_UNSUPPORTED_VERSION : Z := -7.
Definition GS_ERROR : Z := -9.
Definition GS_CANCELLED : Z := -11.

Inductive xml_event :=
| StartElement (name : bytes) (atts : list (bytes * bytes))
| EndElement (name : bytes)
| CharData (text : bytes).

Class Expat := xml_parse : bytes -> list xml_event * option bytes.

(** ** [xml_search] *)

(** [xml_query]'s [start] and [memory]. *)
Definition search_step (node : bytes) (q : Z * bytes) (e : xml_event) : Z * bytes :=
  let '(start, memory) := q in
  match e with
  | StartElement name _ => (if bool_decide (name = node) then start + 1 else start, memory)
  | EndElement name => (if bool_decide (name = node) then start - 1 else start, memory)
  | CharData text => (start, if 0 <? start then memory ++ text else memory)
  end.

(** ** [xml_search_all] *)

Record xml_array_query := { xa_values : list bytes; xa_current : bytes; xa_depth : Z }.

Definition array_step (node : bytes) (q : xml_array_query) (e : xml_event) : xml_array_query :=
  match e with
  | StartElement name _ =>
      if bool_decide (name = node)
      then {| xa_values := xa_values q; xa_current := if xa_depth q =? 0 then [] else xa_current q; xa_depth := xa_depth q + 1 |}
      else q
  | EndElement name =>
      if bool_decide (name = node) && (0 <? xa_depth q)
      then {| xa_values := if xa_depth q - 1 =? 0 then xa_values q ++ [xa_current q] else xa_values q;
              xa_current := xa_current q; xa_depth := xa_depth q - 1 |}
      else q
  | CharData text =>
      if 0 <? xa_depth q
      then {| xa_values := xa_values q; xa_current := xa_current q ++ text; xa_depth := xa_depth q |}
      else q
  end.

(** ** [xml_applist] *)

(** A [char*]: null, a string, or a block nothing was written to. *)
Inductive cell := Null | Str (s : bytes) | Garbage.

(** [id] is [None] when it was read out of such a block. *)
Record APP_LIST := { app_id : option Z; app_name : cell; app_uuid : cell; server_order : Z }.

Definition new_app : APP_LIST := {| app_id := Some 0; app_name := Null; app_uuid := Null; server_order := 0 |}.
Definition set_id (i : option Z) (a : APP_LIST) : APP_LIST :=
  {| app_id := i; app_name := app_name a; app_uuid := app_uuid a; server_order := server_order a |}.
Definition set_name (c : cell) (a : APP_LIST) : APP_LIST :=
  {| app_id := app_id a; app_name := c; app_uuid := app_uuid a; server_order := server_order a |}.
Definition set_uuid (c : cell) (a : APP_LIST) : APP_LIST :=
  {| app_id := app_id a; app_name := app_name a; app_uuid := c; server_order := server_order a |}.
Definition set_order (i : Z) (a : APP_LIST) : APP_LIST :=
  {| app_id := app_id a; app_name := app_name a; app_uuid := app_uuid a; server_order := i |}.

Record applist_query := { al_memory : cell; al_start : bool; al_apps : list APP_LIST }.

Definition is_field (name : bytes) : bool :=
  bool_decide (name = bs "ID") || bool_decide (name = bs "AppTitle") || bool_decide (name = bs "UUID").

Definition cell_atoi (c : cell) : option Z := match c with Str s => Some (atoi s) | _ => None end.

(** The element that ends, with the text collected for it. *)
Definition set_field (name : bytes) (c : cell) (a : APP_LIST) : APP_LIST :=
  if bool_decide (name = bs "ID") then set_id (cell_atoi c) a
  else if bool_decide (name = bs "AppTitle") then set_name c a
  else if bool_decide (name = bs "UUID") then set_uuid c a else a.

Definition applist_step (q : applist_query) (e : xml_event) : applist_query :=
  match e with
  | StartElement name _ =>
      if bool_decide (name = bs "App") then
        {| al_memory := al_memory q; al_start := al_start q; al_apps := new_app :: al_apps q |}
      else if is_field name then {| al_memory := Garbage; al_start := true; al_apps := al_apps q |}
      else q
  | EndElement name =>
      if al_start q then
        match al_apps q with
        | [] => q
        | a :: rest => {| al_memory := al_memory q; al_start := false; al_apps := set_field name (al_memory q) a :: rest |}
        end
      else q
  | CharData text =>
      if al_start q then
        {| al_memory := Str (match al_memory q with Str m => m ++ text | _ => text end);
           al_start := al_start q; al_apps := al_apps q |}
      else q
  end.

(** ** [xml_status] *)

Definition STATUS_OK : Z := 200.

(** The loop over the attributes: the status, and the error set. *)
Definition status_att (q : Z * option bytes) (att : bytes * bytes) : Z * option bytes :=
  let '(status, error) := q in
  if bool_decide (att.1 = bs "status_code") then (atoi att.2, error)
  else if negb (status =? STATUS_OK) && bool_decide (att.1 = bs "status_message") then (status, Some att.2)
  else q.
Definition status_step (q : Z * option bytes) (e : xml_event) : Z * option bytes :=
  match e with
  | StartElement name atts => if bool_decide (name = bs "root") then foldl status_att q atts else q
  | _ => q
  end.

Section xml.
Context `{Expat}.

(** Each returns its code, its result, and the last error it set with
    [gs_set_error], if any. *)
Definition xml_search (data node : bytes) : Z * option bytes * option bytes :=
  let '(events, stopped) := xml_parse data in
  let '(_, memory) := foldl (search_step node) (0, []) events in
  match stopped with
  | Some error => (GS_INVALID, None, Some error)
  | None => (GS_OK, Some (c_str memory), None)
  end.

Definition xml_search_int (data node : bytes) : Z * option Z * option bytes :=
  let '(res, text, error) := xml_search data node in
  match text with
  | Some text =>
      if negb (res =? GS_OK) || bool_decide (text = []) then (GS_INVALID, None, error)
      else match stoi text with Some n => (res, Some n, error) | None => (GS_INVALID, None, error) end
  | None => (GS_INVALID, None, error)
  end.

Definition xml_search_all (data node : bytes) : Z * list bytes * option bytes :=
  let '(events, stopped) := xml_parse data in
  let q := foldl (array_step node) {| xa_values := []; xa_current := []; xa_depth := 0 |} events in
  match stopped with
  | Some error => (GS_INVALID, xa_values q, Some error)
  | None => (GS_OK, xa_values q, None)
  end.

(** The loop that reverses the list, and the one that numbers it. *)
Definition number_apps (apps : list APP_LIST) : list APP_LIST := imap (fun i a => set_order (Z.of_nat i) a) apps.

Definition xml_applist (data : bytes) : Z * option (list APP_LIST) * option bytes :=
  let '(events, stopped) := xml_parse data in
  let q := foldl applist_step {| al_memory := Str []; al_start := false; al_apps := [] |} events in
  match stopped with
  | Some error => (GS_INVALID, None, Some error)
  | None => (GS_OK, Some (number_apps (reverse (al_apps q))), None)
  end.

Definition xml_status (data : bytes) : Z * option bytes :=
  let '(events, stopped) := xml_parse data in
  let '(status, error) := foldl status_step (0, None) events in
  match stopped with
  | Some error => (GS_INVALID, Some error)
  | None => (if status =? STATUS_OK then GS_OK else GS_ERROR, error)
  end.
End xml.

(** ** Documents

    What the functions mean, on the tree of the document. *)

Inductive node :=
| Elem (name : bytes) (atts : list (bytes * bytes)) (children : list node)
| Txt (text : bytes).

Definition node_ind' (P : node -> Prop) (He : forall n a cs, Forall P cs -> P (Elem n a cs)) (Ht : forall t, P (Txt t)) :
  forall d, P d :=
  fix go d := match d with
  | Elem n a cs => He n a cs ((fix all l : Forall P l := match l with [] => List.Forall_nil P | x :: r => List.Forall_cons P x r (go x) (all r) end) cs)
  | Txt t => Ht t
  end.

Fixpoint node_events (d : node) : list xml_event :=
  match d with
  | Elem name atts cs => StartElement name atts :: (cs ≫= node_events) ++ [EndElement name]
  | Txt t => [CharData t]
  end.

(** The text under the elements called [name], at any depth. *)
Fixpoint text_under (name : bytes) (deep : bool) (d : node) : bytes :=
  match d with
  | Elem m _ cs => cs ≫= text_under name (deep || bool_decide (m = name))
  | Txt t => if deep then t else []
  end.

(** The text of each outermost element called [name]. *)
Fixpoint outermost (name : bytes) (d : node) : list bytes :=
  match d with
  | Elem m _ cs => if bool_decide (m = name) then [cs ≫= text_under name true] else cs ≫= outermost name
  | Txt _ => []
  end.

Lemma search_events node d : forall start memory, 0 <= start ->
  foldl (search_step node) (start, memory) (node_events d) = (start, memory ++ text_under node (0 <? start) d).
Proof.
  induction d as [n a cs IH|t] using node_ind'; intros start memory Hs.
  - cbn [node_events foldl search_step text_under].
    set (start' := if bool_decide (n = node) then start + 1 else start).
    assert (0 <= start') as Hs' by (unfold start'; case_bool_decide; lia).
    assert ((0 <? start) || bool_decide (n = node) = (0 <? start')) as ->.
    { unfold start'. case_bool_decide; [rewrite orb_true_r; symmetry; apply Z.ltb_lt; lia|by rewrite orb_false_r]. }
    rewrite foldl_app.
    assert (foldl (search_step node) (start', memory) (cs ≫= node_events) =
            (start', memory ++ (cs ≫= text_under node (0 <? start')))) as ->.
    { clear -IH Hs'. revert memory. induction IH as [|x l Hx Hl IHl]; intros memory; [by rewrite app_nil_r|].
      rewrite !bind_cons, foldl_app, Hx, IHl by done. by rewrite app_assoc. }
    cbn [foldl search_step]. f_equal. unfold start'. case_bool_decide; lia.
  - cbn. destruct (0 <? start); by rewrite ?app_nil_r.
Qed.

Lemma array_deep node d : forall values current depth, 0 < depth ->
  foldl (array_step node) {| xa_values := values; xa_current := current; xa_depth := depth |} (node_events d)
  = {| xa_values := values; xa_current := current ++ text_under node true d; xa_depth := depth |}.
Proof.
  induction d as [n a cs IH|t] using node_ind'; intros values current depth Hd.
  - cbn [node_events text_under orb foldl array_step]. rewrite foldl_app.
    assert (forall k, 0 < k -> foldl (array_step node) {| xa_values := values; xa_current := current; xa_depth := k |} (cs ≫= node_events) =
      {| xa_values := values; xa_current := current ++ (cs ≫= text_under node true); xa_depth := k |}) as Hall.
    { clear -IH. intros k Hk. revert current. induction IH as [|x l Hx Hl IHl]; intros current; [by rewrite app_nil_r|].
      rewrite !bind_cons, foldl_app, Hx, IHl by done. by rewrite app_assoc. }
    cbn [xa_values xa_current xa_depth]. rewrite (proj2 (Z.eqb_neq depth 0)) by lia.
    case_bool_decide as E; rewrite Hall by lia; cbn [foldl array_step xa_values xa_current xa_depth].
    + rewrite bool_decide_true by done. rewrite (proj2 (Z.ltb_lt _ _)) by lia. cbn [andb].
      rewrite (proj2 (Z.eqb_neq (depth + 1 - 1) 0)) by lia. f_equal; lia.
    + by rewrite bool_decide_false by done.
  - cbn. by rewrite (proj2 (Z.ltb_lt _ _)) by done.
Qed.

Lemma array_events node d : forall values current,
  exists current', foldl (array_step node) {| xa_values := values; xa_current := current; xa_depth := 0 |} (node_events d)
  = {| xa_values := values ++ outermost node d; xa_current := current'; xa_depth := 0 |}.
Proof.
  induction d as [n a cs IH|t] using node_ind'; intros values current.
  2: { exists current. cbn. by rewrite app_nil_r. }
  cbn [node_events outermost foldl array_step xa_depth xa_values xa_current]. case_bool_decide as E.
  - cbn [Z.eqb Z.add]. rewrite foldl_app.
    assert (forall current, foldl (array_step node) {| xa_values := values; xa_current := current; xa_depth := 1 |} (cs ≫= node_events) =
      {| xa_values := values; xa_current := current ++ (cs ≫= text_under node true); xa_depth := 1 |}) as ->.
    { clear. induction cs as [|x l IHl]; intros current; [by rewrite app_nil_r|].
      rewrite !bind_cons, foldl_app, array_deep, IHl by lia. by rewrite app_assoc. }
    exists (cs ≫= text_under node true). cbn. by rewrite bool_decide_true by done.
  - rewrite foldl_app.
    assert (exists current', foldl (array_step node) {| xa_values := values; xa_current := current; xa_depth := 0 |} (cs ≫= node_events) =
      {| xa_values := values ++ (cs ≫= outermost node); xa_current := current'; xa_depth := 0 |}) as [current' ->].
    { clear -IH. revert values current. induction IH as [|x l Hx Hl IHl]; intros values current; [exists current; by rewrite app_nil_r|].
      rewrite !bind_cons, foldl_app. destruct (Hx values current) as [c1 ->]. destruct (IHl (values ++ outermost node x) c1) as [c2 ->].
      exists c2. by rewrite app_assoc. }
    exists current'. cbn. by rewrite bool_decide_false by done.
Qed.

Lemma outermost_text node d : text_under node false d = mjoin (outermost node d).
Proof.
  induction d as [n a cs IH|t] using node_ind'; [|done]. cbn [text_under outermost orb].
  case_bool_decide; [cbn; by rewrite app_nil_r|].
  induction IH as [|x l Hx Hl IHl]; [done|]. rewrite !bind_cons, Hx, IHl. by rewrite join_app.
Qed.

Lemma search_doc `{Expat} (data name : bytes) (d : node) : xml_parse data = (node_events d, None) ->
  xml_search_all data name = (GS_OK, outermost name d, None) /\
  xml_search data name = (GS_OK, Some (c_str (mjoin (outermost name d))), None).
Proof.
  intros Hp. unfold xml_search_all, xml_search. rewrite Hp.
  destruct (array_events name d [] []) as [c ->]. rewrite (search_events name d 0 []) by lia. cbn [xa_values app Z.ltb].
  split; [done|]. by rewrite <- outermost_text.
Qed.

(** C40: in a document the parser accepts, [xml_search_all] finds the text of every
    outermost element of the name, in order, and [xml_search] the same texts run
    together (as far as the first zero byte) - the empty string, and no error,
    when there is no such element. *)
Theorem xml_search_spec `{Expat} (data name : bytes) (d : node) :
  xml_parse data = (node_events d, None) ->
  xml_search_all data name = (GS_OK, outermost name d, None) /\
  xml_search data name = (GS_OK, Some (c_str (mjoin (outermost name d))), None).
Proof. apply search_doc. Qed.

Definition ex_doc : node :=
  Elem (bs "root") [(bs "status_code", bs "200")]
    [Elem (bs "c") [] [Txt (bs "one"); Elem (bs "c") [] [Txt (bs "!")]]; Elem (bs "d") [] [Txt (bs "x")];
     Elem (bs "c") [] [Txt (bs "two")]].
Lemma xml_search_spec_witness :
  let H : Expat := fun _ => (node_events ex_doc, None) in
  xml_search_all [] (bs "c") = (GS_OK, [bs "one!"; bs "two"], None) /\
  xml_search [] (bs "c") = (GS_OK, Some (bs "one!two"), None).
Proof. intros H. apply (xml_search_spec [] (bs "c") ex_doc). reflexivity. Defined.

(** ** Lists of applications *)

Definition field_node (f : bytes * bytes) : node := Elem f.1 [] [Txt f.2].
Definition app_node (fields : list (bytes * bytes)) : node := Elem (bs "App") [] (field_node <$> fields).
Definition app_doc (apps : list (list (bytes * bytes))) : node := Elem (bs "root") [] (app_node <$> apps).

(** The application a list of fields describes: the last one of a name counts. *)
Definition app_of (fields : list (bytes * bytes)) : APP_LIST :=
  foldl (fun a f => set_field f.1 (Str f.2) a) new_app fields.

Lemma set_field_other name c a : is_field name = false -> set_field name c a = a.
Proof. unfold is_field, set_field. repeat case_bool_decide; done. Qed.

Lemma applist_field f q a rest : f.1 <> bs "App" -> al_start q = false -> al_apps q = a :: rest ->
  exists m, foldl applist_step q (node_events (field_node f)) =
    {| al_memory := m; al_start := false; al_apps := set_field f.1 (Str f.2) a :: rest |}.
Proof.
  destruct f as [name text], q as [m s apps]. cbn [fst snd al_start al_apps]. intros Hn -> ->.
  unfold field_node. cbn [fst snd node_events mbind list_bind app foldl]. cbn [applist_step al_start al_apps al_memory].
  rewrite bool_decide_false by done. destruct (is_field name) eqn:E; cbn; [by eexists|].
  rewrite set_field_other by done. by eexists.
Qed.

Lemma applist_app fields q : Forall (fun f => f.1 <> bs "App") fields -> al_start q = false ->
  exists m, foldl applist_step q (node_events (app_node fields)) =
    {| al_memory := m; al_start := false; al_apps := app_of fields :: al_apps q |}.
Proof.
  intros Hf Hs. unfold app_node. cbn [node_events foldl]. rewrite foldl_app.
  assert (exists m, foldl applist_step (applist_step q (StartElement (bs "App") [])) ((field_node <$> fields) ≫= node_events) =
    {| al_memory := m; al_start := false; al_apps := app_of fields :: al_apps q |}) as [m ->].
  2: { by exists m. }
  cbn [applist_step]. rewrite bool_decide_true by done. rewrite Hs. unfold app_of.
  generalize (al_memory q), new_app. induction Hf as [|f fs Hn _ IH]; intros m a; [by exists m|].
  cbn [fmap list_fmap]. rewrite bind_cons, foldl_app.
  destruct (applist_field f {| al_memory := m; al_start := false; al_apps := a :: al_apps q |} a (al_apps q) Hn eq_refl eq_refl) as [m' ->].
  apply IH.
Qed.

(** [xml_applist] reads a host's list of applications in the order the host
    sent it, numbered from zero, each with the number, title and identifier its
    fields say. *)
Theorem xml_applist_spec `{Expat} (data : bytes) (apps : list (list (bytes * bytes))) :
  xml_parse data = (node_events (app_doc apps), None) ->
  Forall (Forall (fun f => f.1 <> bs "App")) apps ->
  xml_applist data = (GS_OK, Some (imap (fun i fields => set_order (Z.of_nat i) (app_of fields)) apps), None).
Proof.
  intros Hp Hf. unfold xml_applist. rewrite Hp. unfold app_doc. cbn [node_events foldl]. rewrite foldl_app.
  assert (forall q, al_start q = false -> exists m, foldl applist_step q ((app_node <$> apps) ≫= node_events) =
    {| al_memory := m; al_start := false; al_apps := reverse (app_of <$> apps) ++ al_apps q |}) as Hall.
  { clear Hp. induction Hf as [|fs l Hfs _ IH]; intros q Hq; [exists (al_memory q); destruct q; cbn in *; by subst|].
    cbn [fmap list_fmap]. rewrite bind_cons, foldl_app. destruct (applist_app fs q Hfs Hq) as [m ->].
    destruct (IH {| al_memory := m; al_start := false; al_apps := app_of fs :: al_apps q |} eq_refl) as [m' ->].
    exists m'. f_equal. by rewrite reverse_cons, <- app_assoc. }
  destruct (Hall (applist_step {| al_memory := Str []; al_start := false; al_apps := [] |} (StartElement (bs "root") [])) eq_refl)
    as [m ->]. cbn -[reverse]. rewrite app_nil_r, reverse_involutive. unfold number_apps. by rewrite imap_fmap.
Qed.

Definition ex_apps : list (list (bytes * bytes)) :=
  [[(bs "AppTitle", bs "Desktop"); (bs "ID", bs "881"); (bs "IsHdrSupported", bs "1")];
   [(bs "ID", bs "12"); (bs "AppTitle", bs "Game"); (bs "UUID", bs "u-1")]].
Lemma xml_applist_spec_witness :
  let H : Expat := fun _ => (node_events (app_doc ex_apps), None) in
  xml_applist [] =
    (GS_OK, Some [{| app_id := Some 881; app_name := Str (bs "Desktop"); app_uuid := Null; server_order := 0 |};
                  {| app_id := Some 12; app_name := Str (bs "Game"); app_uuid := Str (bs "u-1"); server_order := 1 |}], None).
Proof.
  intros H. refine (eq_trans (xml_applist_spec [] ex_apps eq_refl _) _).
  - repeat constructor; vm_compute; discriminate.
  - vm_compute. reflexivity.
Defined.

(** An element with no text: what the title points to was never written, and the
    number was read from it. *)
Lemma xml_applist_empty_element :
  let H : Expat := fun _ => (node_events (Elem (bs "root") [] [Elem (bs "App") [] [Elem (bs "ID") [] []; Elem (bs "AppTitle") [] []]]), None) in
  xml_applist [] = (GS_OK, Some [{| app_id := None; app_name := Garbage; app_uuid := Null; server_order := 0 |}], None).
Proof. vm_compute. reflexivity. Qed.
