(* ===== verification/HttpClient.v ===== *)
(** The HTTP client of the game stream protocol ([libgamestream/http.cpp],
    [http.h]) over libcurl, of which a [transfer] records what one
    [curl_easy_perform] does: the pieces it hands to the write callback, its
    result when every one is taken, the status and the text of its error buffer. *)

From S2P Require Import Prelude Text CText Xml.

#[local] Set Warnings "-clear-no-such-hyp".

Inductive HTTPMethod := Get | Post.
Record HTTPRequestOptions := {
  ho_method : HTTPMethod;
  ho_body : bytes;
  ho_contentType : bytes;
  ho_maxResponseBytes : Z;
  ho_sensitive : bool;
  ho_suppressErrors : bool;
  ho_connectTimeoutMs : Z;
  ho_totalTimeoutMs : Z;
}.
Definition default_options : HTTPRequestOptions :=
  {| ho_method := Get; ho_body := []; ho_contentType := []; ho_maxResponseBytes := 4 * 1024 * 1024;
     ho_sensitive := false; ho_suppressErrors := false; ho_connectTimeoutMs := 0; ho_totalTimeoutMs := 0 |}.

Definition HTTPRequestTimeoutLow : Z := 1.
Definition HTTPRequestTimeoutMedium : Z := 5.
Definition HTTPRequestTimeoutLong : Z := 120.

(** What is set on the handle. *)
Record http_call := { hc_url : bytes; hc_timeout : Z; hc_options : HTTPRequestOptions }.

Record transfer := { tr_chunks : list bytes; tr_code : Z; tr_status : Z; tr_detail : bytes }.
Definition CURLE_OK : Z := 0.
Definition CURLE_WRITE_ERROR : Z := 23.
Definition CURLE_ABORTED_BY_CALLBACK : Z := 42.

Record HTTP_DATA := { hd_memory : bytes; hd_limit : Z; hd_tooLarge : bool }.

(** [_write_curl]: what it returns, and the buffer. *)
Definition write_curl (contents : bytes) (mem : HTTP_DATA) : Z * HTTP_DATA :=
  let realsize := zlen contents in
  if (hd_limit mem <? realsize) || (hd_limit mem - realsize <? zlen (hd_memory mem))
  then (0, {| hd_memory := hd_memory mem; hd_limit := hd_limit mem; hd_tooLarge := true |})
  else (realsize, {| hd_memory := hd_memory mem ++ contents; hd_limit := hd_limit mem; hd_tooLarge := hd_tooLarge mem |}).

(** [curl_easy_perform]: a callback that does not take a whole piece ends the
    transfer. *)
Fixpoint perform (chunks : list bytes) (code : Z) (mem : HTTP_DATA) : Z * HTTP_DATA :=
  match chunks with
  | [] => (code, mem)
  | c :: rest =>
      let '(taken, mem) := write_curl c mem in
      if negb (taken =? zlen c) then (CURLE_WRITE_ERROR, mem) else perform rest code mem
  end.

Record HTTPResponseInfo := { hi_status : Z; hi_tooLarge : bool }.

(** The code returned, the body stored in [*data], the response information, and
    the error set with [gs_set_error]. *)
Record http_result := {
  hr_code : Z; hr_data : option bytes; hr_info : option HTTPResponseInfo; hr_error : option bytes }.

(** [strerror] is [curl_easy_strerror], [handle] what the transfer does ([None]:
    there is no handle), [cancelled] what the token says when it is asked. *)
Definition http_request (strerror : Z -> bytes) (options : HTTPRequestOptions) (handle : option transfer) (cancelled : bool)
  : http_result :=
  match handle with
  | None => {| hr_code := GS_FAILED; hr_data := None; hr_info := None; hr_error := None |}
  | Some t =>
      let '(res, mem) := perform (tr_chunks t) (tr_code t)
        {| hd_memory := []; hd_limit := ho_maxResponseBytes options; hd_tooLarge := false |} in
      let info := Some {| hi_status := tr_status t; hi_tooLarge := hd_tooLarge mem |} in
      if negb (res =? CURLE_OK) then
        let tooLarge := hd_tooLarge mem in
        let cancelled := (res =? CURLE_ABORTED_BY_CALLBACK) && cancelled in
        let message := if tooLarge then bs "HTTP response exceeded configured limit"
                       else if cancelled then bs "Request cancelled" else strerror res in
        let message :=
          if negb tooLarge && negb cancelled && negb (bool_decide (tr_detail t = [])) && negb (bool_decide (message = tr_detail t))
          then message ++ bs " (" ++ tr_detail t ++ bs ")" else message in
        {| hr_code := if tooLarge then GS_INVALID else GS_FAILED; hr_data := None; hr_info := info;
           hr_error := if ho_suppressErrors options then None else Some message |}
      else if (tr_status t <? 200) || (300 <=? tr_status t) then
        {| hr_code := GS_ERROR; hr_data := Some (hd_memory mem); hr_info := info;
           hr_error := if ho_suppressErrors options then None
                       else Some (bs "HTTP request failed with status " ++ int_text (tr_status t)) |}
      else {| hr_code := GS_OK; hr_data := Some (hd_memory mem); hr_info := info; hr_error := None |}
  end.

(** ** Facts *)

Lemma perform_spec chunks code : forall mem, zlen (hd_memory mem) <= hd_limit mem ->
  let '(res, out) := perform chunks code mem in
  hd_limit out = hd_limit mem /\ zlen (hd_memory out) <= hd_limit mem /\
  if zlen (hd_memory mem ++ mjoin chunks) <=? hd_limit mem
  then res = code /\ out = {| hd_memory := hd_memory mem ++ mjoin chunks; hd_limit := hd_limit mem; hd_tooLarge := hd_tooLarge mem |}
  else res = CURLE_WRITE_ERROR /\ hd_tooLarge out = true.
Proof.
  induction chunks as [|c rest IH]; intros mem Hm; cbn [perform].
  - change (mjoin []) with (@nil byte). rewrite app_nil_r. rewrite (proj2 (Z.leb_le _ _)) by done. by destruct mem.
  - unfold write_curl. change (mjoin (c :: rest)) with (c ++ mjoin rest). rewrite !zlen_app. pose proof (zlen_nonneg c). pose proof (zlen_nonneg (mjoin rest)). pose proof (zlen_nonneg (hd_memory mem)).
    destruct ((hd_limit mem <? zlen c) || (hd_limit mem - zlen c <? zlen (hd_memory mem))) eqn:E.
    + assert (0 <> zlen c) by lia.
      rewrite (proj2 (Z.eqb_neq 0 (zlen c))) by done. cbn [negb]. split_and!; [done|done|].
      rewrite (proj2 (Z.leb_gt _ _)) by lia. done.
    + rewrite Z.eqb_refl. cbn [negb].
      specialize (IH {| hd_memory := hd_memory mem ++ c; hd_limit := hd_limit mem; hd_tooLarge := hd_tooLarge mem |}).
      cbn [hd_memory hd_limit hd_tooLarge] in IH. rewrite <- app_assoc in IH. rewrite !zlen_app in IH.
      specialize (IH ltac:(lia)). by destruct (perform rest code _).
Qed.

Lemma perform_taken t limit : zlen (mjoin (tr_chunks t)) <= limit -> tr_code t = CURLE_OK ->
  perform (tr_chunks t) (tr_code t) {| hd_memory := []; hd_limit := limit; hd_tooLarge := false |} =
  (CURLE_OK, {| hd_memory := mjoin (tr_chunks t); hd_limit := limit; hd_tooLarge := false |}).
Proof.
  intros Hf Hc. pose proof (zlen_nonneg (mjoin (tr_chunks t))).
  pose proof (perform_spec (tr_chunks t) (tr_code t) {| hd_memory := []; hd_limit := limit; hd_tooLarge := false |}) as Hp.
  cbn [hd_memory hd_limit hd_tooLarge app] in Hp. specialize (Hp ltac:(rewrite zlen_nil; lia)).
  destruct (perform _ _ _) as [res mem]. rewrite (proj2 (Z.leb_le _ _)) in Hp by done. destruct Hp as (_ & _ & -> & ->). by rewrite Hc.
Qed.

(** A transfer that succeeds. *)
Lemma http_request_ok strerror options t cancelled : zlen (mjoin (tr_chunks t)) <= ho_maxResponseBytes options ->
  tr_code t = CURLE_OK -> 200 <= tr_status t < 300 ->
  http_request strerror options (Some t) cancelled =
  {| hr_code := GS_OK; hr_data := Some (mjoin (tr_chunks t));
     hr_info := Some {| hi_status := tr_status t; hi_tooLarge := false |}; hr_error := None |}.
Proof.
  intros Hf Hc Hs. unfold http_request. rewrite perform_taken by done. cbn [CURLE_OK Z.eqb negb hd_tooLarge hd_memory].
  rewrite (proj2 (Z.ltb_ge (tr_status t) 200)), (proj2 (Z.leb_gt 300 (tr_status t))) by lia. done.
Qed.

(** A request's body is everything the host sent, and never longer than the
    limit; it succeeds exactly when the transfer does, the body fits and the
    status is a success, and a failed transfer stores no body. *)
Theorem http_request_spec (strerror : Z -> bytes) (options : HTTPRequestOptions) (t : transfer) (cancelled : bool) :
  let r := http_request strerror options (Some t) cancelled in
  let fits := zlen (mjoin (tr_chunks t)) <=? ho_maxResponseBytes options in
  0 <= ho_maxResponseBytes options ->
  (hr_code r = GS_OK <-> fits = true /\ tr_code t = CURLE_OK /\ 200 <= tr_status t < 300) /\
  hr_data r = (if fits && (tr_code t =? CURLE_OK) then Some (mjoin (tr_chunks t)) else None) /\
  (fits = false -> hr_code r = GS_INVALID) /\
  (hr_error r = None <-> hr_code r = GS_OK \/ ho_suppressErrors options = true).
Proof.
  intros r fits Hl. subst r fits. unfold http_request.
  pose proof (perform_spec (tr_chunks t) (tr_code t)
    {| hd_memory := []; hd_limit := ho_maxResponseBytes options; hd_tooLarge := false |}) as Hp.
  cbn [hd_memory hd_limit hd_tooLarge app] in Hp. specialize (Hp Hl).
  destruct (perform _ _ _) as [res mem]. destruct Hp as (_ & _ & Hp). destruct (zlen _ <=? _) eqn:Ef.
  - destruct Hp as [-> ->]. cbn [hd_memory hd_tooLarge andb negb]. unfold CURLE_OK, GS_OK, GS_ERROR.
    destruct (Z.eqb_spec (tr_code t) 0) as [->|Hn]; cbn [negb].
    + destruct ((tr_status t <? 200) || (300 <=? tr_status t)) eqn:Es; cbn [hr_code hr_data hr_error];
        (split; [split; intros; repeat split; lia|]; split; [done|]; split; [done|]; destruct (ho_suppressErrors options); naive_solver).
    + cbn [hr_code hr_data hr_error]. destruct (ho_suppressErrors options);
      (split; [split; [done|by intros (_&?&_)]|]; split; [done|]; split; [done|]; naive_solver).
  - destruct Hp as [-> Htl]. rewrite Htl. cbn [CURLE_WRITE_ERROR CURLE_OK Z.eqb Pos.eqb negb andb hr_code hr_data hr_error]. destruct (ho_suppressErrors options);
      (split; [split; [done|by intros (?&_)]|]; split; [done|]; split; [done|]; naive_solver).
Qed.
Lemma http_request_spec_witness :
  let r := http_request (fun _ => bs "e") default_options (Some {| tr_chunks := [bs "a"; bs "b"]; tr_code := 0; tr_status := 404; tr_detail := [] |}) false in
  hr_data r = Some (bs "ab") /\ hr_code r = GS_ERROR.
Proof.
  intros r.
  destruct (http_request_spec (fun _ => bs "e") default_options
    {| tr_chunks := [bs "a"; bs "b"]; tr_code := 0; tr_status := 404; tr_detail := [] |} false) as (_ & H & _); [vm_compute; discriminate|].
  split; [exact H|reflexivity].
Defined.
