(* ===== verification/Capabilities.v ===== *)
(** What a host can do ([host/HostCapabilities.cpp],
    [host/GameStreamHostCapabilities.cpp], [features/host/CodecCapabilities.cpp]):
    which server it runs, recognised from its version strings, and the extensions
    the client may use with it; the probes that tell servers apart
    ([host/HostIdentityProbe.cpp]); and the frame rates a launch can ask for
    ([features/stream/FrameRateOptions.cpp]). *)

From S2P Require Import Prelude Text CText HostAddress Xml HttpClient.

#[local] Set Warnings "-clear-no-such-hyp".

(** ** Servers *)

Inductive HostKind :=
| Unknown | Sunshine | Apollo | Vibeshine | Punktfunk | Vibepollo | Polaris | SolarFlare | FoundationSunshine.
#[export] Instance HostKind_eq_dec : EqDecision HostKind.
Proof. solve_decision. Defined.

Definition isApolloFamily (k : HostKind) : bool := bool_decide (k = Apollo) || bool_decide (k = Vibepollo).

Record HostIdentity := { id_kind : HostKind; id_product : bytes; id_version : bytes; id_webConsolePort : Z }.

Record CodecCapabilities := {
  cc_h264 : bool; cc_hevc : bool; cc_hevcMain10 : bool; cc_av1 : bool; cc_av1Main10 : bool }.
Definition no_codecs : CodecCapabilities :=
  {| cc_h264 := true; cc_hevc := false; cc_hevcMain10 := false; cc_av1 := false; cc_av1Main10 := false |}.

Definition decodeServerCodecMask (mask : Z) : CodecCapabilities :=
  {| cc_h264 := true;
     cc_hevc := negb (Z.land mask 0x100 =? 0);
     cc_hevcMain10 := negb (Z.land mask 0x200 =? 0);
     cc_av1 := negb (Z.land mask 0x10000 =? 0);
     cc_av1Main10 := negb (Z.land mask 0x20000 =? 0) |}.

Inductive CodecKind := H264 | H265 | AV1.
Definition supportsCodec (c : CodecCapabilities) (k : CodecKind) (hdr : bool) : bool :=
  match k with
  | H264 => cc_h264 c
  | H265 => if hdr then cc_hevcMain10 c else cc_hevc c
  | AV1 => if hdr then cc_av1Main10 c else cc_av1 c
  end.

Record HostCapabilities := {
  hc_kind : HostKind;
  hc_standardGameStream : bool;
  hc_gamepadInput : bool;
  hc_extendedLaunchOptions : bool;
  hc_preciseRefreshRate : bool;
  hc_virtualDisplay : bool;
  hc_hostManagedVirtualDisplay : bool;
  hc_virtualDisplayDriverReady : bool;
  hc_serverCommands : bool;
  hc_clipboardSync : bool;
  hc_inputOnly : bool;
  hc_permissionAdvertised : bool;
  hc_permissions : Z;
  hc_serverCommandList : list bytes;
  hc_detectionReason : bytes;
  hc_codecs : CodecCapabilities;
}.

(** The record the factories start from: standard GameStream with a gamepad. *)
Definition gamestream (kind : HostKind) (extended precise virtual managed : bool) (reason : string) : HostCapabilities :=
  {| hc_kind := kind; hc_standardGameStream := true; hc_gamepadInput := true; hc_extendedLaunchOptions := extended;
     hc_preciseRefreshRate := precise; hc_virtualDisplay := virtual; hc_hostManagedVirtualDisplay := managed;
     hc_virtualDisplayDriverReady := false; hc_serverCommands := false; hc_clipboardSync := false; hc_inputOnly := false;
     hc_permissionAdvertised := false; hc_permissions := 0; hc_serverCommandList := [];
     hc_detectionReason := bs reason; hc_codecs := no_codecs |}.

Definition standardSunshine := gamestream Sunshine false false false false "standard GameStream/Sunshine fallback".
Definition apollo := gamestream Apollo true true true false "explicit Apollo identity".
Definition vibeshine := gamestream Vibeshine true true false false "explicit Vibeshine identity".
Definition punktfunk := gamestream Punktfunk false false false true "Punktfunk health probe".
Definition vibepollo := gamestream Vibepollo true true true false "explicit Vibepollo identity".
Definition polaris := gamestream Polaris false false false false "explicit Polaris identity".
Definition solarFlare := gamestream SolarFlare false false false false "explicit Solar Flare identity".
Definition foundationSunshine :=
  gamestream FoundationSunshine false false false false "explicit Foundation Sunshine identity".

Definition identityFor (k : HostKind) : HostIdentity :=
  let product := match k with
    | Sunshine => "Sunshine-compatible" | Apollo => "Apollo" | Vibeshine => "Vibeshine" | Punktfunk => "Punktfunk"
    | Vibepollo => "Vibepollo" | Polaris => "Polaris" | SolarFlare => "Solar Flare"
    | FoundationSunshine => "Foundation Sunshine" | Unknown => "GameStream host" end%string in
  {| id_kind := k; id_product := bs product; id_version := [];
     id_webConsolePort := if bool_decide (k = Punktfunk) then 47992 else 47990 |}.

Record HostMetadata := { hm_appVersion : bytes; hm_gfeVersion : bytes; hm_gsVersion : bytes; hm_advertisedExtensions : bytes }.

Definition contains (haystack : bytes) (needle : string) : bool := bool_decide (is_Some (find_sub (bs needle) (lower haystack))).

(** A token in one of the version strings or the extensions. *)
Definition mentions (m : HostMetadata) (token : string) : bool :=
  contains (hm_appVersion m) token || contains (hm_gfeVersion m) token || contains (hm_gsVersion m) token ||
  contains (hm_advertisedExtensions m) token.

(** The extension list of an Apollo host, when it has one. *)
Definition with_extensions (e : bytes) (vibepollo : bool) (c : HostCapabilities) : HostCapabilities :=
  if bool_decide (e = []) then c
  else
    {| hc_kind := hc_kind c; hc_standardGameStream := hc_standardGameStream c; hc_gamepadInput := hc_gamepadInput c;
       hc_extendedLaunchOptions := hc_extendedLaunchOptions c; hc_preciseRefreshRate := hc_preciseRefreshRate c;
       hc_virtualDisplay := contains e "virtual-display" || contains e "virtual_display";
       hc_hostManagedVirtualDisplay := hc_hostManagedVirtualDisplay c;
       hc_virtualDisplayDriverReady := hc_virtualDisplayDriverReady c;
       hc_serverCommands := contains e "client-commands" || contains e "server-commands";
       hc_clipboardSync := contains e "clipboard";
       hc_inputOnly := contains e "input-only" || contains e "input_only";
       hc_permissionAdvertised := hc_permissionAdvertised c; hc_permissions := hc_permissions c;
       hc_serverCommandList := hc_serverCommandList c;
       hc_detectionReason := if vibepollo then bs "Vibepollo identity with explicit extension list"
                             else bs "Apollo identity with explicit extension list";
       hc_codecs := hc_codecs c |}.

Definition detect (m : HostMetadata) : HostCapabilities :=
  if mentions m "vibeshine" then vibeshine
  else if mentions m "punktfunk" then punktfunk
  else
    let explicitVibepollo := mentions m "vibepollo" in
    let explicitApollo := explicitVibepollo || mentions m "apollo" in
    if negb explicitApollo then
      if mentions m "polaris" then polaris
      else if mentions m "solar-flare" || mentions m "solarflare" then solarFlare
      else if mentions m "foundation" then foundationSunshine
      else standardSunshine
    else with_extensions (hm_advertisedExtensions m) explicitVibepollo (if explicitVibepollo then vibepollo else apollo).

Definition for_kind (k : HostKind) : HostCapabilities :=
  match k with
  | Apollo => apollo | Vibepollo => vibepollo | Vibeshine => vibeshine | Punktfunk => punktfunk | Polaris => polaris
  | SolarFlare => solarFlare | FoundationSunshine => foundationSunshine | Sunshine | Unknown => standardSunshine
  end.

Definition clipboardSet : Z := 0x00010000.
Definition clipboardRead : Z := 0x00020000.
Definition serverCommand : Z := 0x00100000.

Definition fromServerInfo (identity : HostKind) (virtualDisplayCapable virtualDisplayDriverReady permissionAdvertised : bool)
    (permissions : Z) (serverCommands : list bytes) (currentAppHasUuid : bool) : HostCapabilities :=
  let c := for_kind identity in
  let c := if bool_decide (hc_kind c = Sunshine) && (permissionAdvertised || negb (bool_decide (serverCommands = [])))
           then apollo else c in
  let family := isApolloFamily (hc_kind c) in
  {| hc_kind := hc_kind c; hc_standardGameStream := hc_standardGameStream c; hc_gamepadInput := hc_gamepadInput c;
     hc_extendedLaunchOptions := virtualDisplayCapable || hc_extendedLaunchOptions c;
     hc_preciseRefreshRate := virtualDisplayCapable || hc_preciseRefreshRate c;
     hc_virtualDisplay := virtualDisplayCapable || hc_virtualDisplay c;
     hc_hostManagedVirtualDisplay := hc_hostManagedVirtualDisplay c;
     hc_virtualDisplayDriverReady := virtualDisplayDriverReady;
     hc_serverCommands := family && negb (bool_decide (serverCommands = [])) &&
       (negb permissionAdvertised || negb (Z.land permissions serverCommand =? 0));
     hc_clipboardSync := family && permissionAdvertised && negb (Z.land permissions (Z.lor clipboardSet clipboardRead) =? 0);
     hc_inputOnly := family && currentAppHasUuid;
     hc_permissionAdvertised := permissionAdvertised; hc_permissions := permissions; hc_serverCommandList := serverCommands;
     hc_detectionReason := match hc_kind c with
       | Vibepollo => bs "Vibepollo identity or server-info fields"
       | Apollo => bs "Apollo identity or server-info fields"
       | Vibeshine => bs "Vibeshine identity with server-info fields"
       | _ => hc_detectionReason c
       end;
     hc_codecs := hc_codecs c |}.

(** ** Probes *)

Definition quote : byte := u8 34.
Definition json_spaces : bytes := [ch " "; u8 9; u8 13; u8 10].

(** [body.find_first_not_of(" \t\r\n", pos)]. *)
Definition next_not_space (pos : nat) (body : bytes) : option nat :=
  (fun k => (pos + k)%nat) <$> find_first_not_of json_spaces (drop pos body).

(** Where the value of a key starts: past its first mention, the colon and blanks. *)
Definition json_value_at (body : bytes) (key : string) : option nat :=
  let marker := quote :: bs key ++ [quote] in
  pos ← find_sub marker body;
  pos ← find_from (ch ":") (pos + length marker) body;
  next_not_space (pos + 1) body.

Definition jsonString (body : bytes) (key : string) : option bytes :=
  pos ← json_value_at body key;
  if negb (bool_decide (body !! pos = Some quote)) then None
  else fin ← find_from quote (pos + 1) body; Some (substr (pos + 1) (fin - pos - 1) body).

Definition jsonNonNegativeInteger (body : bytes) (key : string) : bool :=
  match json_value_at body key with
  | None => false
  | Some pos =>
      match body !! pos with
      | Some d =>
          if negb (is_digit d) then false
          else
            match next_not_space (pos + length (take_while is_digit (drop pos body))) body with
            | Some fin => bool_decide (body !! fin = Some (ch ",")) || bool_decide (body !! fin = Some (ch "}"))
            | None => false
            end
      | None => false
      end
  end.

Definition trimmed (l : bytes) : bytes := trim_back (trim_front l).

Definition parsePunktfunkHealth (body : bytes) : option HostIdentity :=
  let object := trimmed body in
  if (length object <? 2)%nat || negb (bool_decide (head object = Some (ch "{"))) ||
     negb (bool_decide (list.last object = Some (ch "}"))) then None
  else
    match jsonString body "status", jsonString body "version" with
    | Some status, Some version =>
        if negb (bool_decide (lower status = bs "ok")) || bool_decide (version = []) ||
           negb (jsonNonNegativeInteger body "abi_version") then None
        else Some {| id_kind := Punktfunk; id_product := id_product (identityFor Punktfunk); id_version := version;
                     id_webConsolePort := id_webConsolePort (identityFor Punktfunk) |}
    | _, _ => None
    end.

Definition vibeshine_marks : list bytes :=
  [bs "<title>vibeshine</title>"; bs "content=" ++ quote :: bs "vibeshine" ++ [quote]; bs "content='vibeshine'"].
Definition parseVibeshineWebUi (body : bytes) : option HostIdentity :=
  if forallb (fun mark => bool_decide (find_sub mark (lower body) = None)) vibeshine_marks then None
  else Some (identityFor Vibeshine).

Definition urlHost (address : bytes) : bytes :=
  let p := parse_host_address address in
  format_host_address {| host := host p; port := None; isIpv6 := isIpv6 p; isIpv4 := isIpv4 p; isHostname := isHostname p |}.

Definition probe_options : HTTPRequestOptions :=
  {| ho_method := Get; ho_body := []; ho_contentType := []; ho_maxResponseBytes := 64 * 1024; ho_sensitive := false;
     ho_suppressErrors := true; ho_connectTimeoutMs := 350; ho_totalTimeoutMs := 750 |}.

(** [getProbe], on what [http_request] returned. *)
Definition probe_body (r : http_result) : option bytes :=
  if negb (hr_code r =? GS_OK) || negb (bool_decide ((hi_status <$> hr_info r) = Some 200)) then None else hr_data r.

Definition punktfunk_url (host : bytes) : bytes := bs "https://" ++ host ++ bs ":47992/api/v1/health".
Definition vibeshine_url (host : bytes) : bytes := bs "https://" ++ host ++ bs ":47990/".

Definition hostConsoleUrl (address : bytes) (identity : HostIdentity) : bytes :=
  let host := urlHost address in
  if bool_decide (host = []) then []
  else bs "https://" ++ host ++ bs ":" ++
       to_string (if negb (id_webConsolePort identity =? 0) then id_webConsolePort identity else 47990) ++ bs "/".

(** ** Frame rates *)

Record FrameRatePreset := { fr_fps : Z; fr_x100 : Z; fr_label : bytes }.
Definition availableFrameRatePresets : list FrameRatePreset :=
  [{| fr_fps := 30; fr_x100 := 0; fr_label := bs "30 FPS" |};
   {| fr_fps := 40; fr_x100 := 0; fr_label := bs "40 FPS" |};
   {| fr_fps := 60; fr_x100 := 5994; fr_label := bs "59.94 FPS (NTSC)" |};
   {| fr_fps := 60; fr_x100 := 0; fr_label := bs "60 FPS" |};
   {| fr_fps := 90; fr_x100 := 0; fr_label := bs "90 FPS" |};
   {| fr_fps := 120; fr_x100 := 11988; fr_label := bs "119.88 FPS (NTSC)" |};
   {| fr_fps := 120; fr_x100 := 0; fr_label := bs "120 FPS" |}].

Definition isNtscX100 (x100 : Z) : bool := (x100 =? 2997) || (x100 =? 5994) || (x100 =? 11988).
Definition resolveClientRefreshRateX100 (fps x100 : Z) : Z :=
  if 0 <? x100 then x100 else if fps <=? 0 then 6000 else i32 (fps * 100).
Definition launchModeFpsValue (fps x100 : Z) (apolloHost : bool) : Z :=
  let x100 := resolveClientRefreshRateX100 fps x100 in
  if apolloHost && isNtscX100 x100 then x100 * 10 else if 0 <? fps then fps else 60.

(** The loops over the presets: the first that satisfies a test, and the nearest. *)
Fixpoint preset_index (test : FrameRatePreset -> bool) (i : nat) (l : list FrameRatePreset) : option nat :=
  match l with [] => None | p :: rest => if test p then Some i else preset_index test (S i) rest end.
Fixpoint nearest (fps : Z) (i : nat) (best : nat) (bestDistance : Z) (l : list FrameRatePreset) : nat :=
  match l with
  | [] => best
  | p :: rest =>
      let distance := Z.abs (fr_fps p - fps) in
      if distance <? bestDistance then nearest fps (S i) i distance rest else nearest fps (S i) best bestDistance rest
  end.
Definition frameRatePresetIndex (fps x100 : Z) : nat :=
  let x100 := if 0 <? x100 then x100 else 0 in
  match preset_index (fun p => (fr_fps p =? fps) && (fr_x100 p =? x100)) 0 availableFrameRatePresets with
  | Some i => i
  | None =>
      match preset_index (fun p => (fr_fps p =? fps) && (fr_x100 p =? 0)) 0 availableFrameRatePresets with
      | Some i => i
      | None => nearest fps 0 3 (Z.abs (60 - fps)) availableFrameRatePresets
      end
  end.

(** ** Facts *)

Lemma fromServerInfo_kind k v d p perms cmds u :
  hc_kind (fromServerInfo k v d p perms cmds u) =
  if bool_decide (k = Sunshine \/ k = Unknown) then (if p || negb (bool_decide (cmds = [])) then Apollo else Sunshine) else k.
Proof. unfold fromServerInfo. destruct k, p; cbn; try done; by destruct (bool_decide (cmds = [])). Qed.

(** The Apollo extensions - server commands, the clipboard, input-only
    sessions - are offered only for a host of the Apollo family, and each only
    with the evidence it needs; a host recognised as any other server is never
    offered one, whatever its server information says. *)
Theorem extensions_gated (k : HostKind) (v d p : bool) (perms : Z) (cmds : list bytes) (u : bool) :
  let c := fromServerInfo k v d p perms cmds u in
  (hc_serverCommands c = true <-> isApolloFamily (hc_kind c) = true /\ cmds <> [] /\ (p = true -> Z.land perms serverCommand <> 0)) /\
  (hc_clipboardSync c = true <-> isApolloFamily (hc_kind c) = true /\ p = true /\
     (Z.land perms clipboardSet <> 0 \/ Z.land perms clipboardRead <> 0)) /\
  (hc_inputOnly c = true <-> isApolloFamily (hc_kind c) = true /\ u = true) /\
  (isApolloFamily (hc_kind c) = true <-> k = Apollo \/ k = Vibepollo \/ ((k = Sunshine \/ k = Unknown) /\ (p = true \/ cmds <> []))).
Proof.
  intros c. pose proof (fromServerInfo_kind k v d p perms cmds u) as Hk. fold c in Hk.
  assert (hc_serverCommands c = isApolloFamily (hc_kind c) && negb (bool_decide (cmds = [])) &&
    (negb p || negb (Z.land perms serverCommand =? 0))) as -> by reflexivity.
  assert (hc_clipboardSync c = isApolloFamily (hc_kind c) && p &&
    negb (Z.land perms (Z.lor clipboardSet clipboardRead) =? 0)) as -> by reflexivity.
  assert (hc_inputOnly c = isApolloFamily (hc_kind c) && u) as -> by reflexivity.
  assert (Z.land perms (Z.lor clipboardSet clipboardRead) = 0 <-> Z.land perms clipboardSet = 0 /\ Z.land perms clipboardRead = 0) as Hlor.
  { rewrite Z.land_lor_distr_r. apply Z.lor_eq_0_iff. }
  split; [|split; [|split]].
  - rewrite !andb_true_iff, orb_true_iff, !negb_true_iff, bool_decide_eq_false, Z.eqb_neq. destruct p; naive_solver.
  - rewrite !andb_true_iff, negb_true_iff, Z.eqb_neq, Hlor.
    destruct (Z.eq_dec (Z.land perms clipboardSet) 0), (Z.eq_dec (Z.land perms clipboardRead) 0); naive_solver.
  - by rewrite andb_true_iff.
  - rewrite Hk. destruct (bool_decide (cmds = [])) eqn:E; [apply bool_decide_eq_true in E|apply bool_decide_eq_false in E];
      destruct k, p; cbn; naive_solver.
Qed.

(** A preset, checked against each of the others. *)
Ltac preset Hall :=
  eexists; split; [reflexivity|]; split; refine (Hall (fun q => _) _); repeat constructor; cbn; intros; try done; try lia.

(** The index of a frame rate is that of a preset: its own when it is one of
    them, and otherwise one nearest to it. *)
Theorem frameRatePresetIndex_spec (fps x100 : Z) :
  exists p, availableFrameRatePresets !! frameRatePresetIndex fps x100 = Some p /\
    (forall q, q ∈ availableFrameRatePresets -> Z.abs (fr_fps p - fps) <= Z.abs (fr_fps q - fps)) /\
    (forall q, q ∈ availableFrameRatePresets -> fr_fps q = fps -> fr_x100 q = Z.max x100 0 -> p = q).
Proof.
  assert (forall P : FrameRatePreset -> Prop, Forall P availableFrameRatePresets -> forall q, q ∈ availableFrameRatePresets -> P q) as Hall.
  { intros P HP q Hq. rewrite list.Forall_forall in HP. by apply HP. }
  unfold frameRatePresetIndex. assert ((if 0 <? x100 then x100 else 0) = Z.max x100 0) as ->.
  { destruct (Z.ltb_spec 0 x100); lia. }
  generalize (Z.max x100 0). clear x100. intros x. cbn [preset_index availableFrameRatePresets fr_fps fr_x100].
  destruct (Z.eqb_spec 30 fps) as [<-|]; [destruct (Z.eqb_spec 0 x); subst; cbn; preset Hall|].
  destruct (Z.eqb_spec 40 fps) as [<-|]; [destruct (Z.eqb_spec 0 x); subst; cbn; preset Hall|].
  destruct (Z.eqb_spec 60 fps) as [<-|]; [destruct (Z.eqb_spec 5994 x); [|destruct (Z.eqb_spec 0 x)]; subst; cbn; preset Hall|].
  destruct (Z.eqb_spec 90 fps) as [<-|]; [destruct (Z.eqb_spec 0 x); subst; cbn; preset Hall|].
  destruct (Z.eqb_spec 120 fps) as [<-|]; [destruct (Z.eqb_spec 11988 x); [|destruct (Z.eqb_spec 0 x)]; subst; cbn; preset Hall|].
  cbn [andb nearest availableFrameRatePresets fr_fps].
  repeat match goal with |- context [?a <? ?b] => destruct (Z.ltb_spec a b) end; preset Hall.
Qed.
