(* ===== verification/GameStream.v ===== *)
(** The GameStream protocol's client ([libgamestream/client.cpp]): finding out what
    a host is, pairing with it, starting and quitting its applications, its
    clipboard. The host is on the other side of [http_request]: any function of
    the requests made so far. A pairing can be cancelled from another thread,
    which acts on the token between two looks the worker takes at it. *)

From S2P Require Import Prelude Text CText HostAddress Data Xml HttpClient Capabilities.

#[local] Set Warnings "-clear-no-such-hyp".

(** ** The server's record *)

(** [SERVER_INFORMATION], of the streaming library: what is used of it here, with
    the text its pointers show. *)
Record SERVER_INFORMATION := {
  si_address : option bytes;
  si_serverInfoAppVersion : option bytes;
  si_serverInfoGfeVersion : option bytes;
  si_rtspSessionUrl : option bytes;
  si_serverCodecModeSupport : Z;
}.

Record SERVER_DATA := {
  sd_address : bytes;
  sd_serverInfoAppVersion : bytes;
  sd_serverInfoGfeVersion : bytes;
  sd_mac : bytes;
  sd_gpuType : bytes;
  sd_paired : bool;
  sd_supports4K : bool;
  sd_currentGame : Z;
  sd_currentGameUuid : bytes;
  sd_serverMajorVersion : Z;
  sd_gsVersion : bytes;
  sd_hostname : bytes;
  sd_serverInfo : SERVER_INFORMATION;
  sd_httpPort : Z;
  sd_httpsPort : Z;
  sd_virtualDisplayCapable : bool;
  sd_virtualDisplayDriverReady : bool;
  sd_permission : Z;
  sd_hasApolloPermissionField : bool;
  sd_serverCommands : list bytes;
  sd_hostIdentity : HostIdentity;
}.

Definition set_appVersion (v : bytes) (s : SERVER_DATA) : SERVER_DATA :=
  {| sd_address := sd_address s; sd_serverInfoAppVersion := v; sd_serverInfoGfeVersion := sd_serverInfoGfeVersion s;
     sd_mac := sd_mac s; sd_gpuType := sd_gpuType s; sd_paired := sd_paired s; sd_supports4K := sd_supports4K s;
     sd_currentGame := sd_currentGame s; sd_currentGameUuid := sd_currentGameUuid s;
     sd_serverMajorVersion := sd_serverMajorVersion s; sd_gsVersion := sd_gsVersion s; sd_hostname := sd_hostname s;
     sd_serverInfo := sd_serverInfo s; sd_httpPort := sd_httpPort s; sd_httpsPort := sd_httpsPort s;
     sd_virtualDisplayCapable := sd_virtualDisplayCapable s;
     sd_virtualDisplayDriverReady := sd_virtualDisplayDriverReady s; sd_permission := sd_permission s;
     sd_hasApolloPermissionField := sd_hasApolloPermissionField s; sd_serverCommands := sd_serverCommands s;
     sd_hostIdentity := sd_hostIdentity s |}.
Definition set_gfeVersion (v : bytes) (s : SERVER_DATA) : SERVER_DATA :=
  {| sd_address := sd_address s; sd_serverInfoAppVersion := sd_serverInfoAppVersion s; sd_serverInfoGfeVersion := v;
     sd_mac := sd_mac s; sd_gpuType := sd_gpuType s; sd_paired := sd_paired s; sd_supports4K := sd_supports4K s;
     sd_currentGame := sd_currentGame s; sd_currentGameUuid := sd_currentGameUuid s;
     sd_serverMajorVersion := sd_serverMajorVersion s; sd_gsVersion := sd_gsVersion s; sd_hostname := sd_hostname s;
     sd_serverInfo := sd_serverInfo s; sd_httpPort := sd_httpPort s; sd_httpsPort := sd_httpsPort s;
     sd_virtualDisplayCapable := sd_virtualDisplayCapable s;
     sd_virtualDisplayDriverReady := sd_virtualDisplayDriverReady s; sd_permission := sd_permission s;
     sd_hasApolloPermissionField := sd_hasApolloPermissionField s; sd_serverCommands := sd_serverCommands s;
     sd_hostIdentity := sd_hostIdentity s |}.
Definition set_mac (v : bytes) (s : SERVER_DATA) : SERVER_DATA :=
  {| sd_address := sd_address s; sd_serverInfoAppVersion := sd_serverInfoAppVersion s;
     sd_serverInfoGfeVersion := sd_serverInfoGfeVersion s; sd_mac := v; sd_gpuType := sd_gpuType s;
     sd_paired := sd_paired s; sd_supports4K := sd_supports4K s; sd_currentGame := sd_currentGame s;
     sd_currentGameUuid := sd_currentGameUuid s; sd_serverMajorVersion := sd_serverMajorVersion s;
     sd_gsVersion := sd_gsVersion s; sd_hostname := sd_hostname s; sd_serverInfo := sd_serverInfo s;
     sd_httpPort := sd_httpPort s; sd_httpsPort := sd_httpsPort s;
     sd_virtualDisplayCapable := sd_virtualDisplayCapable s;
     sd_virtualDisplayDriverReady := sd_virtualDisplayDriverReady s; sd_permission := sd_permission s;
     sd_hasApolloPermissionField := sd_hasApolloPermissionField s; sd_serverCommands := sd_serverCommands s;
     sd_hostIdentity := sd_hostIdentity s |}.
Definition set_gpuType (v : bytes) (s : SERVER_DATA) : SERVER_DATA :=
  {| sd_address := sd_address s; sd_serverInfoAppVersion := sd_serverInfoAppVersion s;
     sd_serverInfoGfeVersion := sd_serverInfoGfeVersion s; sd_mac := sd_mac s; sd_gpuType := v;
     sd_paired := sd_paired s; sd_supports4K := sd_supports4K s; sd_currentGame := sd_currentGame s;
     sd_currentGameUuid := sd_currentGameUuid s; sd_serverMajorVersion := sd_serverMajorVersion s;
     sd_gsVersion := sd_gsVersion s; sd_hostname := sd_hostname s; sd_serverInfo := sd_serverInfo s;
     sd_httpPort := sd_httpPort s; sd_httpsPort := sd_httpsPort s;
     sd_virtualDisplayCapable := sd_virtualDisplayCapable s;
     sd_virtualDisplayDriverReady := sd_virtualDisplayDriverReady s; sd_permission := sd_permission s;
     sd_hasApolloPermissionField := sd_hasApolloPermissionField s; sd_serverCommands := sd_serverCommands s;
     sd_hostIdentity := sd_hostIdentity s |}.
Definition set_paired (v : bool) (s : SERVER_DATA) : SERVER_DATA :=
  {| sd_address := sd_address s; sd_serverInfoAppVersion := sd_serverInfoAppVersion s;
     sd_serverInfoGfeVersion := sd_serverInfoGfeVersion s; sd_mac := sd_mac s; sd_gpuType := sd_gpuType s;
     sd_paired := v; sd_supports4K := sd_supports4K s; sd_currentGame := sd_currentGame s;
     sd_currentGameUuid := sd_currentGameUuid s; sd_serverMajorVersion := sd_serverMajorVersion s;
     sd_gsVersion := sd_gsVersion s; sd_hostname := sd_hostname s; sd_serverInfo := sd_serverInfo s;
     sd_httpPort := sd_httpPort s; sd_httpsPort := sd_httpsPort s;
     sd_virtualDisplayCapable := sd_virtualDisplayCapable s;
     sd_virtualDisplayDriverReady := sd_virtualDisplayDriverReady s; sd_permission := sd_permission s;
     sd_hasApolloPermissionField := sd_hasApolloPermissionField s; sd_serverCommands := sd_serverCommands s;
     sd_hostIdentity := sd_hostIdentity s |}.
Definition set_currentGame (v : Z) (s : SERVER_DATA) : SERVER_DATA :=
  {| sd_address := sd_address s; sd_serverInfoAppVersion := sd_serverInfoAppVersion s;
     sd_serverInfoGfeVersion := sd_serverInfoGfeVersion s; sd_mac := sd_mac s; sd_gpuType := sd_gpuType s;
     sd_paired := sd_paired s; sd_supports4K := sd_supports4K s; sd_currentGame := v;
     sd_currentGameUuid := sd_currentGameUuid s; sd_serverMajorVersion := sd_serverMajorVersion s;
     sd_gsVersion := sd_gsVersion s; sd_hostname := sd_hostname s; sd_serverInfo := sd_serverInfo s;
     sd_httpPort := sd_httpPort s; sd_httpsPort := sd_httpsPort s;
     sd_virtualDisplayCapable := sd_virtualDisplayCapable s;
     sd_virtualDisplayDriverReady := sd_virtualDisplayDriverReady s; sd_permission := sd_permission s;
     sd_hasApolloPermissionField := sd_hasApolloPermissionField s; sd_serverCommands := sd_serverCommands s;
     sd_hostIdentity := sd_hostIdentity s |}.
Definition set_currentGameUuid (v : bytes) (s : SERVER_DATA) : SERVER_DATA :=
  {| sd_address := sd_address s; sd_serverInfoAppVersion := sd_serverInfoAppVersion s;
     sd_serverInfoGfeVersion := sd_serverInfoGfeVersion s; sd_mac := sd_mac s; sd_gpuType := sd_gpuType s;
     sd_paired := sd_paired s; sd_supports4K := sd_supports4K s; sd_currentGame := sd_currentGame s;
     sd_currentGameUuid := v; sd_serverMajorVersion := sd_serverMajorVersion s; sd_gsVersion := sd_gsVersion s;
     sd_hostname := sd_hostname s; sd_serverInfo := sd_serverInfo s; sd_httpPort := sd_httpPort s;
     sd_httpsPort := sd_httpsPort s; sd_virtualDisplayCapable := sd_virtualDisplayCapable s;
     sd_virtualDisplayDriverReady := sd_virtualDisplayDriverReady s; sd_permission := sd_permission s;
     sd_hasApolloPermissionField := sd_hasApolloPermissionField s; sd_serverCommands := sd_serverCommands s;
     sd_hostIdentity := sd_hostIdentity s |}.
Definition set_gsVersion (v : bytes) (s : SERVER_DATA) : SERVER_DATA :=
  {| sd_address := sd_address s; sd_serverInfoAppVersion := sd_serverInfoAppVersion s;
     sd_serverInfoGfeVersion := sd_serverInfoGfeVersion s; sd_mac := sd_mac s; sd_gpuType := sd_gpuType s;
     sd_paired := sd_paired s; sd_supports4K := sd_supports4K s; sd_currentGame := sd_currentGame s;
     sd_currentGameUuid := sd_currentGameUuid s; sd_serverMajorVersion := sd_serverMajorVersion s; sd_gsVersion := v;
     sd_hostname := sd_hostname s; sd_serverInfo := sd_serverInfo s; sd_httpPort := sd_httpPort s;
     sd_httpsPort := sd_httpsPort s; sd_virtualDisplayCapable := sd_virtualDisplayCapable s;
     sd_virtualDisplayDriverReady := sd_virtualDisplayDriverReady s; sd_permission := sd_permission s;
     sd_hasApolloPermissionField := sd_hasApolloPermissionField s; sd_serverCommands := sd_serverCommands s;
     sd_hostIdentity := sd_hostIdentity s |}.
Definition set_hostname (v : bytes) (s : SERVER_DATA) : SERVER_DATA :=
  {| sd_address := sd_address s; sd_serverInfoAppVersion := sd_serverInfoAppVersion s;
     sd_serverInfoGfeVersion := sd_serverInfoGfeVersion s; sd_mac := sd_mac s; sd_gpuType := sd_gpuType s;
     sd_paired := sd_paired s; sd_supports4K := sd_supports4K s; sd_currentGame := sd_currentGame s;
     sd_currentGameUuid := sd_currentGameUuid s; sd_serverMajorVersion := sd_serverMajorVersion s;
     sd_gsVersion := sd_gsVersion s; sd_hostname := v; sd_serverInfo := sd_serverInfo s;
     sd_httpPort := sd_httpPort s; sd_httpsPort := sd_httpsPort s;
     sd_virtualDisplayCapable := sd_virtualDisplayCapable s;
     sd_virtualDisplayDriverReady := sd_virtualDisplayDriverReady s; sd_permission := sd_permission s;
     sd_hasApolloPermissionField := sd_hasApolloPermissionField s; sd_serverCommands := sd_serverCommands s;
     sd_hostIdentity := sd_hostIdentity s |}.
Definition set_serverInfo (v : SERVER_INFORMATION) (s : SERVER_DATA) : SERVER_DATA :=
  {| sd_address := sd_address s; sd_serverInfoAppVersion := sd_serverInfoAppVersion s;
     sd_serverInfoGfeVersion := sd_serverInfoGfeVersion s; sd_mac := sd_mac s; sd_gpuType := sd_gpuType s;
     sd_paired := sd_paired s; sd_supports4K := sd_supports4K s; sd_currentGame := sd_currentGame s;
     sd_currentGameUuid := sd_currentGameUuid s; sd_serverMajorVersion := sd_serverMajorVersion s;
     sd_gsVersion := sd_gsVersion s; sd_hostname := sd_hostname s; sd_serverInfo := v; sd_httpPort := sd_httpPort s;
     sd_httpsPort := sd_httpsPort s; sd_virtualDisplayCapable := sd_virtualDisplayCapable s;
     sd_virtualDisplayDriverReady := sd_virtualDisplayDriverReady s; sd_permission := sd_permission s;
     sd_hasApolloPermissionField := sd_hasApolloPermissionField s; sd_serverCommands := sd_serverCommands s;
     sd_hostIdentity := sd_hostIdentity s |}.
Definition set_displayCapable (v : bool) (s : SERVER_DATA) : SERVER_DATA :=
  {| sd_address := sd_address s; sd_serverInfoAppVersion := sd_serverInfoAppVersion s;
     sd_serverInfoGfeVersion := sd_serverInfoGfeVersion s; sd_mac := sd_mac s; sd_gpuType := sd_gpuType s;
     sd_paired := sd_paired s; sd_supports4K := sd_supports4K s; sd_currentGame := sd_currentGame s;
     sd_currentGameUuid := sd_currentGameUuid s; sd_serverMajorVersion := sd_serverMajorVersion s;
     sd_gsVersion := sd_gsVersion s; sd_hostname := sd_hostname s; sd_serverInfo := sd_serverInfo s;
     sd_httpPort := sd_httpPort s; sd_httpsPort := sd_httpsPort s; sd_virtualDisplayCapable := v;
     sd_virtualDisplayDriverReady := sd_virtualDisplayDriverReady s; sd_permission := sd_permission s;
     sd_hasApolloPermissionField := sd_hasApolloPermissionField s; sd_serverCommands := sd_serverCommands s;
     sd_hostIdentity := sd_hostIdentity s |}.
Definition set_driverReady (v : bool) (s : SERVER_DATA) : SERVER_DATA :=
  {| sd_address := sd_address s; sd_serverInfoAppVersion := sd_serverInfoAppVersion s;
     sd_serverInfoGfeVersion := sd_serverInfoGfeVersion s; sd_mac := sd_mac s; sd_gpuType := sd_gpuType s;
     sd_paired := sd_paired s; sd_supports4K := sd_supports4K s; sd_currentGame := sd_currentGame s;
     sd_currentGameUuid := sd_currentGameUuid s; sd_serverMajorVersion := sd_serverMajorVersion s;
     sd_gsVersion := sd_gsVersion s; sd_hostname := sd_hostname s; sd_serverInfo := sd_serverInfo s;
     sd_httpPort := sd_httpPort s; sd_httpsPort := sd_httpsPort s;
     sd_virtualDisplayCapable := sd_virtualDisplayCapable s; sd_virtualDisplayDriverReady := v;
     sd_permission := sd_permission s; sd_hasApolloPermissionField := sd_hasApolloPermissionField s;
     sd_serverCommands := sd_serverCommands s; sd_hostIdentity := sd_hostIdentity s |}.
Definition set_permission (v : Z) (present : bool) (s : SERVER_DATA) : SERVER_DATA :=
  {| sd_address := sd_address s; sd_serverInfoAppVersion := sd_serverInfoAppVersion s;
     sd_serverInfoGfeVersion := sd_serverInfoGfeVersion s; sd_mac := sd_mac s; sd_gpuType := sd_gpuType s;
     sd_paired := sd_paired s; sd_supports4K := sd_supports4K s; sd_currentGame := sd_currentGame s;
     sd_currentGameUuid := sd_currentGameUuid s; sd_serverMajorVersion := sd_serverMajorVersion s;
     sd_gsVersion := sd_gsVersion s; sd_hostname := sd_hostname s; sd_serverInfo := sd_serverInfo s;
     sd_httpPort := sd_httpPort s; sd_httpsPort := sd_httpsPort s;
     sd_virtualDisplayCapable := sd_virtualDisplayCapable s;
     sd_virtualDisplayDriverReady := sd_virtualDisplayDriverReady s; sd_permission := v;
     sd_hasApolloPermissionField := present; sd_serverCommands := sd_serverCommands s;
     sd_hostIdentity := sd_hostIdentity s |}.
Definition set_serverCommands (v : list bytes) (s : SERVER_DATA) : SERVER_DATA :=
  {| sd_address := sd_address s; sd_serverInfoAppVersion := sd_serverInfoAppVersion s;
     sd_serverInfoGfeVersion := sd_serverInfoGfeVersion s; sd_mac := sd_mac s; sd_gpuType := sd_gpuType s;
     sd_paired := sd_paired s; sd_supports4K := sd_supports4K s; sd_currentGame := sd_currentGame s;
     sd_currentGameUuid := sd_currentGameUuid s; sd_serverMajorVersion := sd_serverMajorVersion s;
     sd_gsVersion := sd_gsVersion s; sd_hostname := sd_hostname s; sd_serverInfo := sd_serverInfo s;
     sd_httpPort := sd_httpPort s; sd_httpsPort := sd_httpsPort s;
     sd_virtualDisplayCapable := sd_virtualDisplayCapable s;
     sd_virtualDisplayDriverReady := sd_virtualDisplayDriverReady s; sd_permission := sd_permission s;
     sd_hasApolloPermissionField := sd_hasApolloPermissionField s; sd_serverCommands := v;
     sd_hostIdentity := sd_hostIdentity s |}.
Definition set_hostIdentity (v : HostIdentity) (s : SERVER_DATA) : SERVER_DATA :=
  {| sd_address := sd_address s; sd_serverInfoAppVersion := sd_serverInfoAppVersion s;
     sd_serverInfoGfeVersion := sd_serverInfoGfeVersion s; sd_mac := sd_mac s; sd_gpuType := sd_gpuType s;
     sd_paired := sd_paired s; sd_supports4K := sd_supports4K s; sd_currentGame := sd_currentGame s;
     sd_currentGameUuid := sd_currentGameUuid s; sd_serverMajorVersion := sd_serverMajorVersion s;
     sd_gsVersion := sd_gsVersion s; sd_hostname := sd_hostname s; sd_serverInfo := sd_serverInfo s;
     sd_httpPort := sd_httpPort s; sd_httpsPort := sd_httpsPort s;
     sd_virtualDisplayCapable := sd_virtualDisplayCapable s;
     sd_virtualDisplayDriverReady := sd_virtualDisplayDriverReady s; sd_permission := sd_permission s;
     sd_hasApolloPermissionField := sd_hasApolloPermissionField s; sd_serverCommands := sd_serverCommands s;
     sd_hostIdentity := v |}.
Definition set_status (is_paired k4 : bool) (game major port : Z) (s : SERVER_DATA) : SERVER_DATA :=
  {| sd_address := sd_address s; sd_serverInfoAppVersion := sd_serverInfoAppVersion s;
     sd_serverInfoGfeVersion := sd_serverInfoGfeVersion s; sd_mac := sd_mac s; sd_gpuType := sd_gpuType s;
     sd_paired := is_paired; sd_supports4K := k4; sd_currentGame := game; sd_currentGameUuid := sd_currentGameUuid s;
     sd_serverMajorVersion := major; sd_gsVersion := sd_gsVersion s; sd_hostname := sd_hostname s;
     sd_serverInfo := sd_serverInfo s; sd_httpPort := sd_httpPort s; sd_httpsPort := port;
     sd_virtualDisplayCapable := sd_virtualDisplayCapable s;
     sd_virtualDisplayDriverReady := sd_virtualDisplayDriverReady s; sd_permission := sd_permission s;
     sd_hasApolloPermissionField := sd_hasApolloPermissionField s; sd_serverCommands := sd_serverCommands s;
     sd_hostIdentity := sd_hostIdentity s |}.
Definition set_endpoint (a : bytes) (i : SERVER_INFORMATION) (port : Z) (s : SERVER_DATA) : SERVER_DATA :=
  {| sd_address := a; sd_serverInfoAppVersion := sd_serverInfoAppVersion s;
     sd_serverInfoGfeVersion := sd_serverInfoGfeVersion s; sd_mac := sd_mac s; sd_gpuType := sd_gpuType s;
     sd_paired := sd_paired s; sd_supports4K := sd_supports4K s; sd_currentGame := sd_currentGame s;
     sd_currentGameUuid := sd_currentGameUuid s; sd_serverMajorVersion := sd_serverMajorVersion s;
     sd_gsVersion := sd_gsVersion s; sd_hostname := sd_hostname s; sd_serverInfo := i; sd_httpPort := port;
     sd_httpsPort := 0; sd_virtualDisplayCapable := sd_virtualDisplayCapable s;
     sd_virtualDisplayDriverReady := sd_virtualDisplayDriverReady s; sd_permission := sd_permission s;
     sd_hasApolloPermissionField := sd_hasApolloPermissionField s; sd_serverCommands := sd_serverCommands s;
     sd_hostIdentity := sd_hostIdentity s |}.

(** [LiInitializeServerInformation] clears the record. *)
Definition no_information : SERVER_INFORMATION :=
  {| si_address := None; si_serverInfoAppVersion := None; si_serverInfoGfeVersion := None;
     si_rtspSessionUrl := None; si_serverCodecModeSupport := 0 |}.
Definition set_codecs (v : Z) (i : SERVER_INFORMATION) : SERVER_INFORMATION :=
  {| si_address := si_address i; si_serverInfoAppVersion := si_serverInfoAppVersion i;
     si_serverInfoGfeVersion := si_serverInfoGfeVersion i; si_rtspSessionUrl := si_rtspSessionUrl i;
     si_serverCodecModeSupport := v |}.
Definition set_rtsp (v : bytes) (i : SERVER_INFORMATION) : SERVER_INFORMATION :=
  {| si_address := si_address i; si_serverInfoAppVersion := si_serverInfoAppVersion i;
     si_serverInfoGfeVersion := si_serverInfoGfeVersion i; si_rtspSessionUrl := Some v;
     si_serverCodecModeSupport := si_serverCodecModeSupport i |}.
Definition set_versions (app gfe : bytes) (i : SERVER_INFORMATION) : SERVER_INFORMATION :=
  {| si_address := si_address i; si_serverInfoAppVersion := Some app; si_serverInfoGfeVersion := Some gfe;
     si_rtspSessionUrl := si_rtspSessionUrl i; si_serverCodecModeSupport := si_serverCodecModeSupport i |}.
Definition server_at (a : bytes) : SERVER_INFORMATION :=
  {| si_address := Some a; si_serverInfoAppVersion := None; si_serverInfoGfeVersion := None;
     si_rtspSessionUrl := None; si_serverCodecModeSupport := 0 |}.

(** ** Pure parts *)

Definition kLoopback : bytes := bs "127.0.0.1".
Definition is_proxied_session (s : SERVER_DATA) : bool := bool_decide (si_address (sd_serverInfo s) = Some kLoopback).

Definition rewrite_rtsp_host_to_loopback (url : bytes) : bytes :=
  match find_sub (bs "://") url with
  | None => url
  | Some schemeEnd =>
      let hostStart := (schemeEnd + 3)%nat in
      let hostEnd := match find_first_of (bs ":/") (drop hostStart url) with
                     | Some k => (hostStart + k)%nat
                     | None => length url
                     end in
      substr 0 hostStart url ++ bs "127.0.0.1" ++ substr_from hostEnd url
  end.

(** [extractVersionQuadFromString]: the loop, [n] components left. *)
Fixpoint version_quad (n : nat) (nextNumber : bytes) : list Z :=
  match n with
  | O => []
  | S n => let '(v, used, _) := strtol nextNumber in i32 v :: version_quad n (drop 1 (drop used nextNumber))
  end.
Definition isSunshine (s : SERVER_DATA) : bool :=
  match version_quad 4 (c_str (sd_serverInfoAppVersion s)) !! 3%nat with Some v => v <? 0 | None => false end.

Definition metadataFromServerData (s : SERVER_DATA) : HostMetadata :=
  {| hm_appVersion := sd_serverInfoAppVersion s; hm_gfeVersion := sd_serverInfoGfeVersion s; hm_gsVersion := sd_gsVersion s;
     hm_advertisedExtensions := [] |}.
Definition detectServerCapabilities (s : SERVER_DATA) : HostCapabilities :=
  let fromVersion := detect (metadataFromServerData s) in
  let identity := if negb (bool_decide (id_kind (sd_hostIdentity s) = Unknown)) then id_kind (sd_hostIdentity s)
                  else hc_kind fromVersion in
  let c := fromServerInfo identity (sd_virtualDisplayCapable s) (sd_virtualDisplayDriverReady s) (sd_hasApolloPermissionField s)
             (sd_permission s) (sd_serverCommands s) (negb (bool_decide (sd_currentGameUuid s = []))) in
  {| hc_kind := hc_kind c; hc_standardGameStream := hc_standardGameStream c; hc_gamepadInput := hc_gamepadInput c;
     hc_extendedLaunchOptions := hc_extendedLaunchOptions c; hc_preciseRefreshRate := hc_preciseRefreshRate c;
     hc_virtualDisplay := hc_virtualDisplay c; hc_hostManagedVirtualDisplay := hc_hostManagedVirtualDisplay c;
     hc_virtualDisplayDriverReady := hc_virtualDisplayDriverReady c; hc_serverCommands := hc_serverCommands c;
     hc_clipboardSync := hc_clipboardSync c; hc_inputOnly := hc_inputOnly c;
     hc_permissionAdvertised := hc_permissionAdvertised c; hc_permissions := hc_permissions c;
     hc_serverCommandList := hc_serverCommandList c; hc_detectionReason := hc_detectionReason c;
     hc_codecs := decodeServerCodecMask (u32 (si_serverCodecModeSupport (sd_serverInfo s))) |}.

Definition unique_id : bytes := bs "0123456789ABCDEF".
(** [char url[4096]]. *)
Definition url_text (text : bytes) : bytes := snprintf 4096 text.

Definition server_text (s : SERVER_DATA) : bytes := default (bs "(null)") (si_address (sd_serverInfo s)).
Definition http_base (s : SERVER_DATA) (path : string) : bytes :=
  bs "http://" ++ server_text s ++ bs ":" ++ to_string (sd_httpPort s) ++ bs path.
Definition https_base (s : SERVER_DATA) (path : string) : bytes :=
  bs "https://" ++ server_text s ++ bs ":" ++ to_string (sd_httpsPort s) ++ bs path.

(** ** The worker's state *)

(** [CancellationToken]'s state. *)
Inductive token := TokenActive | TokenCancelled | TokenCompleted.
#[export] Instance token_eq_dec : EqDecision token.
Proof. solve_decision. Defined.

(** [w_ticks] looks at the token and [w_clock] readings of the clock so far. *)
Record world := {
  w_server : SERVER_DATA;
  w_error : bytes;
  w_calls : list http_call;
  w_token : token;
  w_ticks : nat;
  w_clock : nat;
}.

Definition with_server (s : SERVER_DATA) (w : world) : world :=
  {| w_server := s; w_error := w_error w; w_calls := w_calls w; w_token := w_token w; w_ticks := w_ticks w; w_clock := w_clock w |}.
Definition with_error (e : bytes) (w : world) : world :=
  {| w_server := w_server w; w_error := e; w_calls := w_calls w; w_token := w_token w; w_ticks := w_ticks w; w_clock := w_clock w |}.
Definition with_call (c : http_call) (w : world) : world :=
  {| w_server := w_server w; w_error := w_error w; w_calls := w_calls w ++ [c]; w_token := w_token w; w_ticks := w_ticks w; w_clock := w_clock w |}.
Definition with_token (t : token) (w : world) : world :=
  {| w_server := w_server w; w_error := w_error w; w_calls := w_calls w; w_token := t; w_ticks := S (w_ticks w); w_clock := w_clock w |}.
Definition with_clock (w : world) : world :=
  {| w_server := w_server w; w_error := w_error w; w_calls := w_calls w; w_token := w_token w; w_ticks := w_ticks w; w_clock := S (w_clock w) |}.

(** Why a call does not come back: [exit(-1)], or an access past a buffer. *)
Inductive halt := Exited | Overrun.

Definition M (A : Type) : Type := world -> (halt + A) * world.
#[export] Instance M_ret : MRet M := fun A a w => (inr a, w).
#[export] Instance M_bind : MBind M := fun A B k m w =>
  match m w with (inr a, w) => k a w | (inl h, w) => (inl h, w) end.

Definition get_server : M SERVER_DATA := fun w => (inr (w_server w), w).
Definition modify_server (f : SERVER_DATA -> SERVER_DATA) : M unit := fun w => (inr tt, with_server (f (w_server w)) w).
Definition gs_set_error (e : bytes) : M unit := fun w => (inr tt, with_error e w).
Definition gs_error (w : world) : bytes := if bool_decide (w_error w = []) then bs "Unknown error..." else w_error w.

(** [exit(-1)] where [subdata] is out of range, and the overrun of a decryption. *)
Definition or_exit {A} (o : option A) : M A := fun w => match o with Some a => (inr a, w) | None => (inl Exited, w) end.
Definition or_overrun {A} (o : option A) : M A := fun w => match o with Some a => (inr a, w) | None => (inl Overrun, w) end.

(** The code of a function of [Xml], and the error it set. *)
Definition lift_xml {A} (r : Z * A * option bytes) : M (Z * A) :=
  let '(code, a, error) := r in
  match error with Some e => gs_set_error e | None => mret tt end ;; mret (code, a).

(** ** The environment *)

(** The host as libcurl sees it, given the requests before; the clock; the C
    library's generator; whether the user presses cancel before a look at the
    token; what the streaming library adds to a launch. *)
Record environment := {
  env_host : list http_call -> http_call -> option transfer;
  env_strerror : Z -> bytes;
  env_time : nat -> Z;
  env_rand : Z -> nat -> Z;
  env_cancel : nat -> bool;
  env_launch_query : bytes;
}.

Section client.
Context (env : environment) `{MbedTLS} `{Expat}.

(** [isCancellationRequested], after what the user did. *)
Definition isCancellationRequested : M bool := fun w =>
  let t := match w_token w with
           | TokenActive => if env_cancel env (w_ticks w) then TokenCancelled else TokenActive
           | t => t
           end in
  (inr (bool_decide (t = TokenCancelled)), with_token t w).
(** [tryComplete]. *)
Definition tryComplete : M bool := fun w =>
  let t := match w_token w with
           | TokenActive => if env_cancel env (w_ticks w) then TokenCancelled else TokenCompleted
           | t => t
           end in
  (inr (match w_token w with TokenActive => bool_decide (t = TokenCompleted) | _ => false end), with_token t w).

(** [Data::random_bytes]: reads the clock. *)
Definition random_data (size : nat) : M bytes := fun w =>
  (inr (random_bytes (env_rand env) (env_time env (w_clock w)) size), with_clock w).

(** [http_request]: its code, the body if it stored one, the response
    information. [watched]: whether the options carry the caller's token. *)
Definition send (watched : bool) (url : bytes) (timeout : Z) (options : HTTPRequestOptions) : M (Z * option bytes * option HTTPResponseInfo) :=
  fun w =>
    let call := {| hc_url := url; hc_timeout := timeout; hc_options := options |} in
    let handle := env_host env (w_calls w) call in
    let w := with_call call w in
    let asks := match handle with
      | Some t => (perform (tr_chunks t) (tr_code t)
          {| hd_memory := []; hd_limit := ho_maxResponseBytes options; hd_tooLarge := false |}).1 =? CURLE_ABORTED_BY_CALLBACK
      | None => false
      end in
    let '(cancelled, w) := if watched && asks then
        match isCancellationRequested w with (inr c, w) => (c, w) | (inl _, w) => (false, w) end else (false, w) in
    let r := http_request (env_strerror env) options handle cancelled in
    let w := match hr_error r with Some e => with_error e w | None => w end in
    (inr (hr_code r, hr_data r, hr_info r), w).

Definition send_plain (url : bytes) (timeout : Z) : M (Z * bytes) :=
  '(code, body, _) ← send false url timeout default_options; mret (code, default [] body).

Definition status_of (data : bytes) : M Z :=
  '(code, _) ← lift_xml (let '(code, error) := xml_status data in (code, tt, error)); mret code.

(** [xml_search], with the text if it is found. *)
Definition search (data : bytes) (node : string) : M (option bytes) :=
  '(_, text) ← lift_xml (xml_search data (bs node)); mret text.

(** The steps of [load_serverinfo] that go to [cleanup] when a field is missing. *)
Definition need {A} (m : M (option A)) (k : A -> M Z) : M Z := o ← m; match o with Some a => k a | None => mret GS_INVALID end.
Definition need_into (data : bytes) (node : string) (set : bytes -> SERVER_DATA -> SERVER_DATA) (k : M Z) : M Z :=
  need (search data node) (fun text => modify_server (set text) ;; k).

Definition truthy (text : bytes) : bool := bool_decide (text = bs "true") || bool_decide (text = bs "1").

(** The optional fields of Apollo. *)
Definition load_optional (data : bytes) : M unit :=
  uuid ← search data "currentgameuuid";
  match uuid with Some u => modify_server (set_currentGameUuid u) | None => mret tt end ;;
  capable ← search data "VirtualDisplayCapable";
  match capable with Some t => modify_server (set_displayCapable (truthy t)) | None => mret tt end ;;
  ready ← search data "VirtualDisplayDriverReady";
  match ready with Some t => modify_server (set_driverReady (truthy t)) | None => mret tt end ;;
  permission ← search data "Permission";
  match permission with
  | Some t =>
      if bool_decide (t = []) then mret tt
      else match stoul 0 t with
           | Some v => modify_server (set_permission (u32 v) true)
           | None => modify_server (set_permission 0 false)
           end
  | None => mret tt
  end ;;
  '(_, commands) ← lift_xml (xml_search_all data (bs "ServerCommand"));
  modify_server (set_serverCommands commands).

Definition load_serverinfo (https : bool) : M Z :=
  s ← get_server;
  let url := url_text ((if https then bs "https" else bs "http") ++ bs "://" ++ server_text s ++ bs ":" ++
    to_string (if https then sd_httpsPort s else sd_httpPort s) ++ bs "/serverinfo?uniqueid=" ++ unique_id) in
  '(code, data) ← send_plain url (if is_proxied_session s then HTTPRequestTimeoutLong else HTTPRequestTimeoutLow);
  if negb (code =? GS_OK) then mret GS_IO_ERROR
  else
    status ← status_of data;
    if status =? GS_ERROR then mret GS_ERROR
    else
      need (search data "currentgame") (fun currentGameText =>
      need (search data "PairStatus") (fun pairedText =>
      need_into data "appversion" set_appVersion (
      need (search data "state") (fun stateText =>
      need ('(_, n) ← lift_xml (xml_search_int data (bs "ServerCodecModeSupport")); mret n) (fun codecs =>
      modify_server (fun s => set_serverInfo (set_codecs codecs (sd_serverInfo s)) s) ;;
      need_into data "gputype" set_gpuType (
      need_into data "GsVersion" set_gsVersion (
      need_into data "hostname" set_hostname (
      need_into data "GfeVersion" set_gfeVersion (
      need (search data "HttpsPort") (fun httpsPortText =>
      need_into data "mac" set_mac (
      load_optional data ;;
      s ← get_server;
      if bool_decide (currentGameText = []) || bool_decide (pairedText = []) ||
         bool_decide (sd_serverInfoAppVersion s = []) || bool_decide (stateText = []) then mret GS_INVALID
      else
        let port := u16 (atoi httpsPortText) in
        modify_server (set_status (bool_decide (pairedText = bs "1"))
          (negb (si_serverCodecModeSupport (sd_serverInfo s) =? 0))
          (if bool_decide (stateText = bs "_SERVER_BUSY") then 0 else atoi currentGameText)
          (atoi (sd_serverInfoAppVersion s))
          (if port =? 0 then 47984 else port)) ;;
        mret GS_OK))))))))))).

Definition MIN_SUPPORTED_GFE_VERSION : Z := 3.
Definition MAX_SUPPORTED_GFE_VERSION : Z := 7.

(** The loop of two attempts: over HTTPS, then over HTTP. *)
Definition load_server_status : M Z :=
  s ← get_server;
  ret ← (if sd_httpsPort s =? 0 then load_serverinfo false else mret GS_OK);
  if negb (ret =? GS_OK) then mret ret
  else
    ret ← load_serverinfo true;
    ret ← (if negb (ret =? GS_OK) then load_serverinfo false else mret ret);
    if negb (ret =? GS_OK) then mret ret
    else
      s ← get_server;
      if MAX_SUPPORTED_GFE_VERSION <? sd_serverMajorVersion s then
        gs_set_error (bs "Ensure you're running the latest version of Moonlight-Switch or downgrade GeForce Experience and try again") ;;
        mret GS_UNSUPPORTED_VERSION
      else if sd_serverMajorVersion s <? MIN_SUPPORTED_GFE_VERSION then
        gs_set_error (bs "Moonlight-Switch requires a newer version of GeForce Experience. Please upgrade GFE on your PC and try again.") ;;
        mret GS_UNSUPPORTED_VERSION
      else mret GS_OK.

(** ** Pairing *)

Definition gs_unpair : M Z :=
  s ← get_server;
  '(code, _) ← send_plain (url_text (http_base s "/unpair?uniqueid=" ++ unique_id)) HTTPRequestTimeoutLow;
  mret code.

(** What it returns when the status is not right is the value of a comparison. *)
Definition gs_pair_validate (data : bytes) : M Z :=
  status ← status_of data;
  if negb (status =? GS_OK) then mret 1
  else '(code, _) ← lift_xml (xml_search data (bs "paired")); mret code.

Definition gs_pair_cleanup (ret : Z) : M Z :=
  cancelled ← isCancellationRequested;
  (if negb (ret =? GS_OK) || cancelled then gs_unpair else mret 0) ;;
  if cancelled : bool then
    modify_server (set_paired false) ;; gs_set_error (bs "Pairing cancelled") ;; mret GS_CANCELLED
  else mret ret.

Definition gs_pair_request (url : bytes) : M (Z * bytes) :=
  cancelled ← isCancellationRequested;
  if cancelled : bool then gs_set_error (bs "Pairing cancelled") ;; mret (GS_CANCELLED, [])
  else
    '(result, body, _) ← send true url HTTPRequestTimeoutLong default_options;
    cancelled ← isCancellationRequested;
    if cancelled : bool then gs_set_error (bs "Pairing cancelled") ;; mret (GS_CANCELLED, [])
    else mret (result, default [] body).

(** A stage: the request, and the look at its reply; [ret] becomes the value of a
    comparison when the reply is not right. *)
Definition stage (url : bytes) (k : bytes -> M Z) : M Z :=
  '(ret, data) ← gs_pair_request (url_text url);
  if negb (ret =? GS_OK) then gs_pair_cleanup ret
  else
    ret ← gs_pair_validate data;
    if negb (ret =? GS_OK) then gs_pair_cleanup 1 else k data.

(** A field of the reply the next stage needs. *)
Definition stage_field (data : bytes) (node : string) (k : bytes -> M Z) : M Z :=
  result ← search data node;
  match result with Some r => k r | None => gs_pair_cleanup GS_INVALID end.

Definition pair_base (s : SERVER_DATA) (rest : string) : bytes :=
  http_base s "/pair?uniqueid=" ++ unique_id ++ bs "&devicename=roth&updateState=1" ++ bs rest.

(** [cert], [key]: [CryptoManager::cert_data()] and [key_data()]. *)
Definition gs_pair (cert key pin : bytes) : M Z :=
  s ← get_server;
  if sd_paired s then gs_set_error (bs "Already paired") ;; mret GS_WRONG_STATE
  else if negb (sd_currentGame s =? 0) then
    gs_set_error (bs "The computer is currently in a game. You must close the game before pairing") ;; mret GS_WRONG_STATE
  else
    salt ← random_data 16;
    let salted_pin := append salt pin in
    stage (pair_base s "&phrase=getservercert&salt=" ++ hex salt ++ bs "&clientcert=" ++ hex cert) (fun data =>
    stage_field data "plaincert" (fun plainCert =>
    let gen7 := 7 <=? sd_serverMajorVersion s in
    aesKey ← or_exit (if gen7 then create_AES_key_from_salt_SHA256 salted_pin else create_AES_key_from_salt_SHA1 salted_pin);
    let hashLength := if gen7 then 32%nat else 20%nat in
    let hash d := if gen7 then SHA256_hash_data d else SHA1_hash_data d in
    randomChallenge ← random_data 16;
    stage (pair_base s "&clientchallenge=" ++ hex (aes_encrypt randomChallenge aesKey)) (fun data =>
    stage_field data "challengeresponse" (fun result =>
    decServerChallengeResp ← or_overrun (aes_decrypt (hex_to_bytes result) aesKey);
    serverResponse ← or_exit (subdata 0 hashLength decServerChallengeResp);
    serverChallenge ← or_exit (subdata hashLength 16 decServerChallengeResp);
    clientSecret ← random_data 16;
    let challengeRespHash := hash (append (append serverChallenge (signature cert)) clientSecret) in
    stage (pair_base s "&serverchallengeresp=" ++ hex (aes_encrypt challengeRespHash aesKey)) (fun data =>
    stage_field data "pairingsecret" (fun result =>
    let serverSecretResp := hex_to_bytes result in
    serverSecret ← or_exit (subdata 0 16 serverSecretResp);
    serverSignature ← or_exit (subdata 16 256 serverSecretResp);
    if negb (verify_signature serverSecret serverSignature (hex_to_bytes plainCert)) then
      gs_set_error (bs "MITM attack detected") ;; gs_pair_cleanup GS_FAILED
    else
      let serverChallengeRespHash := hash (append (append randomChallenge (signature (hex_to_bytes plainCert))) serverSecret) in
      let clientPairingSecret := append clientSecret (sign_data clientSecret key) in
      stage (pair_base s "&clientpairingsecret=" ++ hex clientPairingSecret) (fun _ =>
      stage (https_base s "/pair?uniqueid=" ++ unique_id ++ bs "&devicename=roth&updateState=1&phrase=pairchallenge") (fun _ =>
      modify_server (set_paired true) ;; gs_pair_cleanup GS_OK)))))))).

(** ** Applications *)

Definition gs_applist : M (Z * option (list APP_LIST)) :=
  s ← get_server;
  '(code, data) ← send_plain (url_text (https_base s "/applist?uniqueid=" ++ unique_id)) HTTPRequestTimeoutMedium;
  if negb (code =? GS_OK) then mret (GS_IO_ERROR, None)
  else
    status ← status_of data;
    if status =? GS_ERROR then mret (GS_ERROR, None)
    else
      '(code, apps) ← lift_xml (xml_applist data);
      if negb (code =? GS_OK) then mret (GS_INVALID, None) else mret (GS_OK, apps).

Definition gs_app_boxart (app_id : Z) : M (Z * option bytes) :=
  s ← get_server;
  '(code, data) ← send_plain (url_text (https_base s "/appasset?uniqueid=" ++ unique_id ++ bs "&appid=" ++ int_text app_id ++
    bs "&AssetType=2&AssetIdx=0")) HTTPRequestTimeoutMedium;
  if negb (code =? GS_OK) then mret (GS_IO_ERROR, None) else mret (GS_OK, Some data).

(** What is used of [STREAM_CONFIGURATION], and of its audio configuration. *)
Record StreamConfiguration := {
  st_width : Z; st_height : Z; st_fps : Z; st_clientRefreshRateX100 : Z; st_stereo : bool; st_remoteInputAesKey : bytes }.

Record APOLLO_LAUNCH_OPTIONS := {
  ap_virtualDisplay : bool; ap_appUuid : bytes; ap_width : Z; ap_height : Z; ap_refreshRate : Z; ap_scaleFactor : Z }.

Definition bit (b : bool) : bytes := if b then bs "1" else bs "0".

(** The Apollo part of the query; an [inl] is the error returned instead. *)
Definition apollo_query (s : SERVER_DATA) (options : option APOLLO_LAUNCH_OPTIONS) : (Z * bytes) + bytes :=
  match options with
  | None => inr []
  | Some o =>
      if negb (hc_extendedLaunchOptions (detectServerCapabilities s)) then inr []
      else if ap_virtualDisplay o && negb (sd_virtualDisplayCapable s) then
        inl (GS_NOT_SUPPORTED_4K, bs "Virtual display launch control is not supported by this host")
      else if ap_virtualDisplay o && negb (sd_virtualDisplayDriverReady s) then
        inl (GS_WRONG_STATE, bs "The host virtual display driver is not ready; install or enable it on the host")
      else
        inr ((if ap_virtualDisplay o then bs "&virtualDisplay=1" else []) ++
             (if bool_decide (ap_appUuid o = []) then [] else bs "&appuuid=" ++ ap_appUuid o) ++
             (if (0 <? ap_width o) && (0 <? ap_height o)
              then bs "&resolution=" ++ int_text (ap_width o) ++ bs "x" ++ int_text (ap_height o) else []) ++
             (if 0 <? ap_refreshRate o then bs "&refreshRate=" ++ int_text (ap_refreshRate o) else []) ++
             bs "&scaleFactor=" ++ int_text (if ap_scaleFactor o <=? 0 then 100 else ap_scaleFactor o))
  end.

(** The request: a launch when the host plays nothing, and a resume otherwise. *)
Definition start_url (s : SERVER_DATA) (c : StreamConfiguration) (appId : Z) (sops localaudio : bool) (gamepad_mask : Z)
    (rikey apolloQuery : bytes) : bytes :=
  let query := env_launch_query env ++ apolloQuery in
  if sd_currentGame s =? 0 then
    let channelCount := if st_stereo c then 2 else 6 in
    let mask := if st_stereo c then 0x3 else 0xFC in
    let precise := hc_preciseRefreshRate (detectServerCapabilities s) in
    let fps := launchModeFpsValue (st_fps c) (st_clientRefreshRateX100 c) precise in
    let fps := if negb precise && sops && (60 <? st_fps c) then 60 else fps in
    https_base s "/launch?uniqueid=" ++ unique_id ++ bs "&appid=" ++ int_text appId ++ bs "&mode=" ++ int_text (st_width c) ++
    bs "x" ++ int_text (st_height c) ++ bs "x" ++ int_text fps ++ bs "&additionalStates=1&sops=" ++ bit sops ++
    bs "&rikey=" ++ hex rikey ++ bs "&rikeyid=0&localAudioPlayMode=" ++ bit localaudio ++
    bs "&surroundAudioInfo=" ++ int_text (Z.shiftl mask 16 + channelCount) ++
    bs "&remoteControllersBitmap=" ++ int_text gamepad_mask ++ bs "&gcmap=" ++ int_text gamepad_mask ++ query
  else
    https_base s "/resume?uniqueid=" ++ unique_id ++ bs "&rikey=" ++ hex rikey ++ bs "&rikeyid=0" ++ query.

Definition with_key (k : bytes) (c : StreamConfiguration) : StreamConfiguration :=
  {| st_width := st_width c; st_height := st_height c; st_fps := st_fps c;
     st_clientRefreshRateX100 := st_clientRefreshRateX100 c; st_stereo := st_stereo c; st_remoteInputAesKey := k |}.

(** The code, and the configuration with its key. *)
Definition gs_start_app (c : StreamConfiguration) (appId : Z) (sops localaudio : bool) (gamepad_mask : Z)
    (options : option APOLLO_LAUNCH_OPTIONS) : M (Z * StreamConfiguration) :=
  s ← get_server;
  if (2160 <=? st_height c) && negb (sd_supports4K s) then
    gs_set_error (bs "4K not supported") ;; mret (GS_NOT_SUPPORTED_4K, c)
  else
    rikey ← random_data 16;
    let c := with_key rikey c in
    match apollo_query s options with
    | inl (code, message) => gs_set_error message ;; mret (code, c)
    | inr query =>
        '(code, data) ← send_plain (url_text (start_url s c appId sops localaudio gamepad_mask rikey query)) HTTPRequestTimeoutLong;
        if negb (code =? GS_OK) then mret (code, c)
        else
          modify_server (set_currentGame appId) ;;
          status ← status_of data;
          if negb (status =? GS_OK) then mret (1, c)
          else
            session ← search data "gamesession";
            match session with
            | None => mret (GS_INVALID, c)
            | Some result =>
                if bool_decide (result = bs "0") then mret (GS_FAILED, c)
                else
                  url ← search data "sessionUrl0";
                  match url with
                  | Some u =>
                      modify_server (fun s => set_serverInfo (set_rtsp
                        (if is_proxied_session s then rewrite_rtsp_host_to_loopback u else u) (sd_serverInfo s)) s)
                  | None => mret tt
                  end ;;
                  mret (GS_OK, c)
            end
    end.

Definition gs_quit_app : M Z :=
  s ← get_server;
  '(code, data) ← send_plain (url_text (https_base s "/cancel?uniqueid=" ++ unique_id)) HTTPRequestTimeoutMedium;
  if negb (code =? GS_OK) then mret code
  else
    status ← status_of data;
    if negb (status =? GS_OK) then mret 1
    else
      result ← search data "cancel";
      match result with
      | None => mret GS_INVALID
      | Some r => mret (if bool_decide (r = bs "0") then GS_FAILED else GS_OK)
      end.

(** ** The clipboard *)

Definition ApolloClipboardLimit : Z := 64 * 1024.
Definition ApolloPermissionClipboardSet : Z := 0x00010000.
Definition ApolloPermissionClipboardRead : Z := 0x00020000.

Definition clipboard_url (s : SERVER_DATA) : bytes := url_text (https_base s "/actions/clipboard?type=text").
Definition get_options : HTTPRequestOptions :=
  {| ho_method := Get; ho_body := []; ho_contentType := []; ho_maxResponseBytes := ApolloClipboardLimit;
     ho_sensitive := true; ho_suppressErrors := false; ho_connectTimeoutMs := 0; ho_totalTimeoutMs := 0 |}.
Definition set_options (text : bytes) : HTTPRequestOptions :=
  {| ho_method := Post; ho_body := text; ho_contentType := bs "text/plain; charset=utf-8"; ho_maxResponseBytes := 4096;
     ho_sensitive := true; ho_suppressErrors := false; ho_connectTimeoutMs := 0; ho_totalTimeoutMs := 0 |}.

(** Both also report the status of the reply. *)
Definition gs_clipboard_get : M (Z * option bytes * option Z) :=
  s ← get_server;
  if negb (hc_clipboardSync (detectServerCapabilities s)) then
    gs_set_error (bs "Clipboard is unsupported by this host") ;; mret (GS_NOT_SUPPORTED_4K, None, None)
  else if sd_hasApolloPermissionField s && (Z.land (sd_permission s) ApolloPermissionClipboardRead =? 0) then
    gs_set_error (bs "Apollo denied clipboard read permission") ;; mret (GS_WRONG_STATE, None, None)
  else
    '(result, body, info) ← send false (clipboard_url s) HTTPRequestTimeoutMedium get_options;
    let status := Some (default 0 (hi_status <$> info)) in
    if negb (result =? GS_OK) then mret (result, None, status) else mret (GS_OK, body, status).

Definition gs_clipboard_set (text : bytes) : M (Z * option Z) :=
  s ← get_server;
  if negb (hc_clipboardSync (detectServerCapabilities s)) then
    gs_set_error (bs "Clipboard is unsupported by this host") ;; mret (GS_NOT_SUPPORTED_4K, None)
  else if ApolloClipboardLimit <? zlen text then
    gs_set_error (bs "Clipboard text exceeds the 64 KiB limit") ;; mret (GS_INVALID, None)
  else if sd_hasApolloPermissionField s && (Z.land (sd_permission s) ApolloPermissionClipboardSet =? 0) then
    gs_set_error (bs "Apollo denied clipboard upload permission") ;; mret (GS_WRONG_STATE, None)
  else
    '(result, _, info) ← send false (clipboard_url s) HTTPRequestTimeoutMedium (set_options text);
    mret (result, Some (default 0 (hi_status <$> info))).

(** ** Connecting *)

Definition getProbe (url : bytes) : M (option bytes) :=
  '(code, body, info) ← send false url HTTPRequestTimeoutLow probe_options;
  mret (probe_body {| hr_code := code; hr_data := body; hr_info := info; hr_error := None |}).

Definition probePunktfunkIdentity (address : bytes) : M (option HostIdentity) :=
  let host := urlHost address in
  if bool_decide (host = []) then mret None
  else body ← getProbe (punktfunk_url host); mret (b ← body; parsePunktfunkHealth b).

Definition probeHostIdentity (address : bytes) (virtualDisplayHint : bool) : M (option HostIdentity) :=
  let host := urlHost address in
  if bool_decide (host = []) then mret None
  else
    vibeshine ← (if virtualDisplayHint : bool then body ← getProbe (vibeshine_url host); mret (b ← body; parseVibeshineWebUi b) else mret None);
    match vibeshine with Some i => mret (Some i) | None => probePunktfunkIdentity address end.

(** What [gs_init] does once the host has answered. *)
Definition identify : M unit :=
  s ← get_server;
  let metadata := detect {| hm_appVersion := sd_serverInfoAppVersion s; hm_gfeVersion := sd_serverInfoGfeVersion s;
                            hm_gsVersion := sd_gsVersion s; hm_advertisedExtensions := [] |} in
  modify_server (set_hostIdentity (identityFor (hc_kind metadata))) ;;
  if bool_decide (hc_kind metadata = Sunshine) then
    probed ← probeHostIdentity (sd_address s) (sd_virtualDisplayCapable s);
    match probed with
    | Some i => modify_server (set_hostIdentity i)
    | None =>
        if sd_hasApolloPermissionField s || negb (bool_decide (sd_serverCommands s = []))
        then modify_server (set_hostIdentity (identityFor Apollo)) else mret tt
    end
  else mret tt.

(** The certificate [gs_init] needs: the one on storage, or a new one. *)
Definition ensure_certificate (writable : bool) (pem_key pem_cert : bytes) (c : CertStore) : bool * CertStore :=
  let '(loaded, c) := load_cert_key_pair c in
  if loaded : bool then (true, c) else generate_new_cert_key_pair writable pem_key pem_cert c.

(** [has_certificate] is the first component of [ensure_certificate]. *)
Definition gs_init (has_certificate : bool) (address : bytes) : M Z :=
  let parsed := parse_host_address address in
  let port := default 47989 (port parsed) in
  if bool_decide (host parsed = []) then gs_set_error (bs "Address is Empty") ;; mret GS_FAILED
  else if negb has_certificate then mret GS_FAILED
  else
    modify_server (set_endpoint (host parsed) (server_at (host parsed)) port) ;;
    result ← load_server_status;
    (if result =? GS_OK then identify else mret tt) ;;
    modify_server (fun s => set_serverInfo
      (set_versions (sd_serverInfoAppVersion s) (sd_serverInfoGfeVersion s) (sd_serverInfo s)) s) ;;
    mret result.
End client.
