(* ===== verification/Pairing.v ===== *)
(** Pairing ([gs_pair] of [libgamestream/client.cpp]): how it comes out for every
    host and every cancellation, and what a host that plays its part can check. *)

From S2P Require Import Prelude Text CText HostAddress Data Xml HttpClient Capabilities GameStream.

#[local] Set Warnings "-clear-no-such-hyp".

(** ** What a call leaves alone *)

Section facts.
Context (env : environment) `{lib : MbedTLS} `{laws : !MbedTLSLaws} `{xml : Expat}.

(** Neither the server's record nor the requests. *)
Definition quiet {A} (m : M A) : Prop :=
  forall w, w_server (m w).2 = w_server w /\ w_calls (m w).2 = w_calls w.

Lemma quiet_bind {A B} (m : M A) (k : A -> M B) : quiet m -> (forall a, quiet (k a)) -> quiet (m ≫= k).
Proof.
  intros Hm Hk w. unfold mbind, M_bind. destruct (Hm w) as [H1 H2]. destruct (m w) as [[h|a] w']; cbn in *; [done|].
  destruct (Hk a w') as [H3 H4]. by rewrite H3, H4.
Qed.
Lemma quiet_ret {A} (a : A) : quiet (mret a). Proof. done. Qed.
Lemma quiet_error e : quiet (gs_set_error e). Proof. done. Qed.
Lemma quiet_get : quiet get_server. Proof. done. Qed.
Lemma quiet_random n : quiet (random_data env n). Proof. done. Qed.
Lemma quiet_exit {A} (o : option A) : quiet (or_exit o). Proof. by destruct o. Qed.
Lemma quiet_overrun {A} (o : option A) : quiet (or_overrun o). Proof. by destruct o. Qed.
Lemma quiet_asked : quiet (isCancellationRequested env). Proof. done. Qed.
Lemma quiet_lift {A} (r : Z * A * option bytes) : quiet (lift_xml r).
Proof. unfold lift_xml. destruct r as [[code a] [e|]]; by apply quiet_bind. Qed.
Lemma quiet_search data node : quiet (search data node).
Proof. unfold search. apply quiet_bind; [apply quiet_lift|]. intros []. apply quiet_ret. Qed.
Lemma quiet_status data : quiet (status_of data).
Proof. unfold status_of. apply quiet_bind; [apply quiet_lift|]. intros []. apply quiet_ret. Qed.
Lemma quiet_validate data : quiet (gs_pair_validate data).
Proof.
  unfold gs_pair_validate. apply quiet_bind; [apply quiet_status|]. intros a. destruct (negb _); [apply quiet_ret|].
  apply quiet_bind; [apply quiet_lift|]. intros []. apply quiet_ret.
Qed.

Lemma bind_inr {A B} (m : M A) (k : A -> M B) w a w' : m w = (inr a, w') -> (m ≫= k) w = k a w'.
Proof. unfold mbind, M_bind. by intros ->. Qed.
Lemma bind_exit {A B} (a : A) (k : A -> M B) w : (or_exit (Some a) ≫= k) w = k a w. Proof. done. Qed.
Lemma bind_overrun {A B} (a : A) (k : A -> M B) w : (or_overrun (Some a) ≫= k) w = k a w. Proof. done. Qed.
Lemma asked w : exists b t, isCancellationRequested env w = (inr b, with_token t w).
Proof. unfold isCancellationRequested. eauto. Qed.

(** One request, and the server's record as it was. *)
Lemma send_calls watched url timeout options w :
  let '(r, w') := send env watched url timeout options w in
  w_server w' = w_server w /\ w_calls w' = w_calls w ++ [{| hc_url := url; hc_timeout := timeout; hc_options := options |}] /\
  exists v, r = inr v.
Proof.
  unfold send. set (call := {| hc_url := url; hc_timeout := timeout; hc_options := options |}).
  set (asks := match env_host env (w_calls w) call with Some _ => _ | None => _ end). clearbody asks.
  unfold isCancellationRequested. destruct (watched && asks); cbv zeta beta iota; destruct (hr_error _); cbn; eauto.
Qed.

(** ** Pairing *)

Definition unpair_call (s : SERVER_DATA) : http_call :=
  {| hc_url := url_text (http_base s "/unpair?uniqueid=" ++ unique_id); hc_timeout := HTTPRequestTimeoutLow; hc_options := default_options |}.
Definition pair_call (url : bytes) : http_call :=
  {| hc_url := url_text url; hc_timeout := HTTPRequestTimeoutLong; hc_options := default_options |}.

(** How pairing comes out, [n] stages before its end: paired after [n] more
    requests; or not, and then the last thing asked of the host is to forget the
    client - unless the process died. *)
Definition ends (n : nat) (s : SERVER_DATA) (before : list http_call) (r : (halt + Z) * world) : Prop :=
  exists made, w_calls r.2 = before ++ made /\
    match r.1 with
    | inr ret =>
        (ret = GS_OK /\ w_server r.2 = set_paired true s /\ length made = n /\ Forall (fun c => exists url, c = pair_call url) made) \/
        (ret <> GS_OK /\ sd_paired (w_server r.2) = false /\ set_paired (sd_paired s) (w_server r.2) = s /\
         (length made <= S n)%nat /\ list.last made = Some (unpair_call s))
    | inl _ => w_server r.2 = s /\ (length made <= n)%nat
    end.

Lemma cleanup_ends ret n s w : set_paired (sd_paired s) (w_server w) = s -> sd_paired s = false ->
  (ret = GS_OK -> n = 0%nat /\ w_server w = set_paired true s) -> (ret <> GS_OK -> w_server w = s) ->
  ends n s (w_calls w) (gs_pair_cleanup env ret w).
Proof.
  intros Hs Hp Hok Hbad. unfold gs_pair_cleanup. unfold mbind at 1, M_bind at 1.
  unfold isCancellationRequested at 1. set (t := match w_token w with TokenActive => _ | t => t end).
  set (w1 := with_token t w).
  assert (forall w2, w_server w2 = w_server w -> unpair_call (w_server w2) = unpair_call s) as Hu.
  { intros w2 ->. rewrite <- Hs. done. }
  assert (forall w2, w_server w2 = w_server w -> w_calls w2 = w_calls w ->
    exists code w3, gs_unpair env w2 = (inr code, w3) /\ w_server w3 = w_server w /\ w_calls w3 = w_calls w ++ [unpair_call s]) as Hun.
  { intros w2 H1 H2. unfold gs_unpair, get_server. unfold mbind at 1, M_bind at 1. unfold send_plain. unfold mbind, M_bind.
    pose proof (send_calls false (url_text (http_base (w_server w2) "/unpair?uniqueid=" ++ unique_id)) HTTPRequestTimeoutLow default_options w2) as Hc.
    destruct (send env false _ _ _ w2) as [r w3]. destruct Hc as (H3 & H4 & [[[code body] info] ->]).
    exists code, w3. split; [done|]. rewrite H3, H4, H1, H2. split; [done|]. f_equal. f_equal. by apply Hu. }
  destruct (bool_decide (t = TokenCancelled)) eqn:Ec; cbn [orb].
  - rewrite orb_true_r. destruct (Hun w1 eq_refl eq_refl) as (code & w3 & E & H3 & H4).
    unfold mbind at 1, M_bind at 1. rewrite E. exists [unpair_call s]. split; [exact H4|]. right.
    split_and!; [done|done| |cbn; lia|done]. change (set_paired (sd_paired s) (set_paired false (w_server w3)) = s).
    rewrite H3. rewrite <- Hs at 2. by rewrite Hp.
  - rewrite orb_false_r. destruct (Z.eqb_spec ret GS_OK) as [Er|Er]; cbn [negb].
    + destruct (Hok Er) as [-> E]. exists []. rewrite app_nil_r. split; [done|]. left. by rewrite Er, <- E.
    + destruct (Hun w1 eq_refl eq_refl) as (code & w3 & E & H3 & H4).
      unfold mbind at 1, M_bind at 1. rewrite E. exists [unpair_call s]. split; [exact H4|]. right.
      cbn. rewrite H3, (Hbad Er) in *. split_and!; [done|done|done|lia|done].
Qed.

Lemma ends_after n m s before w (k : world -> (halt + Z) * world) made :
  w_calls w = before ++ made -> Forall (fun c => exists url, c = pair_call url) made -> (length made + n = m)%nat ->
  ends n s (w_calls w) (k w) -> ends m s before (k w).
Proof.
  intros Hw Hp Hm (rest & Hr & H1). exists (made ++ rest). rewrite Hr, Hw, <- app_assoc. split; [done|].
  rewrite length_app. destruct ((k w).1) as [h|ret]; [split; [tauto|lia]|].
  destruct H1 as [(?&?&?&?)|(?&?&?&?&Hl)]; [left|right]; split_and!; [done|done|lia|by apply list.Forall_app|done|done|done|lia|].
  rewrite list.last_app. by rewrite Hl.
Qed.

Lemma ends_quiet {A} (m : M A) (k : A -> M Z) n s w : quiet m -> w_server w = s ->
  (forall a w', w_server w' = s -> ends n s (w_calls w') (k a w')) -> ends n s (w_calls w) ((m ≫= k) w).
Proof.
  intros Hm Hs Hk. unfold mbind, M_bind. destruct (Hm w) as [H1 H2]. destruct (m w) as [[h|a] w']; cbn [snd] in *.
  - exists []. rewrite app_nil_r. split; [done|]. cbn. split; [congruence|lia].
  - rewrite <- H2. apply Hk. congruence.
Qed.

(** [gs_pair_request]: cancelled before the request, or the request was made. *)
Lemma request_spec url w : let '(r, w') := gs_pair_request env url w in
  w_server w' = w_server w /\
  ((r = inr (GS_CANCELLED, []) /\ w_calls w' = w_calls w) \/
   w_calls w' = w_calls w ++ [{| hc_url := url; hc_timeout := HTTPRequestTimeoutLong; hc_options := default_options |}]) /\
  exists v, r = inr v.
Proof.
  unfold gs_pair_request. destruct (asked w) as (b & t & E). rewrite (bind_inr _ _ _ _ _ E). set (w1 := with_token t w).
  destruct b; [split; [done|]; split; [by left|by eexists]|].
  pose proof (send_calls true url HTTPRequestTimeoutLong default_options w1) as Hc.
  destruct (send env true url _ _ w1) as [r w2] eqn:Es. destruct Hc as (Hs & Hc & [[[code body] info] ->]).
  rewrite (bind_inr _ _ _ _ _ Es). destruct (asked w2) as (b & t2 & E2). rewrite (bind_inr _ _ _ _ _ E2).
  destruct b; (split; [exact Hs|]); (split; [right; exact Hc|]); by eexists.
Qed.

Lemma failed_ends ret n m s before w made : w_server w = s -> sd_paired s = false -> ret <> GS_OK ->
  w_calls w = before ++ made -> Forall (fun c => exists url, c = pair_call url) made -> (length made + n = m)%nat ->
  ends m s before (gs_pair_cleanup env ret w).
Proof.
  intros Hs Hp Hr Hw Hf Hl. assert (ends n s (w_calls w) (gs_pair_cleanup env ret w)) as He.
  { apply cleanup_ends; rewrite ?Hs; try done. by destruct s. }
  by eapply (ends_after n m s before w (gs_pair_cleanup env ret)).
Qed.

Lemma stage_ends n url (k : bytes -> M Z) s w : w_server w = s -> sd_paired s = false ->
  (forall data w', w_server w' = s -> ends n s (w_calls w') (k data w')) -> ends (S n) s (w_calls w) (stage env url k w).
Proof.
  intros Hs Hp Hk.
  assert (Forall (fun c => exists url, c = pair_call url) [pair_call url]) as Hf by (apply list.Forall_singleton; by exists url).
  unfold stage. pose proof (request_spec (url_text url) w) as Hr.
  destruct (gs_pair_request env (url_text url) w) as [r w1] eqn:E. destruct Hr as (H1 & Hc & [[ret data] ->]).
  rewrite (bind_inr _ _ _ _ _ E). destruct Hc as [[[= -> ->] Hc]|Hc].
  { eapply (failed_ends _ (S n) (S n) s (w_calls w) w1 []); try done; [congruence|by rewrite app_nil_r]. }
  destruct (Z.eqb_spec ret GS_OK) as [->|Hr]; cbn [negb].
  2: { eapply (failed_ends ret n (S n) s (w_calls w) w1 [pair_call url]); try done. congruence. }
  destruct (quiet_validate data w1) as [H3 H4].
  destruct (gs_pair_validate data w1) as [[h|v] w2] eqn:E2; cbn [snd] in *.
  - unfold mbind, M_bind. rewrite E2. exists [pair_call url]. cbn. rewrite H4. split; [exact Hc|]. split; [congruence|lia].
  - rewrite (bind_inr _ _ _ _ _ E2). destruct (Z.eqb_spec v GS_OK) as [->|Hv]; cbn [negb].
    + apply (ends_after n (S n) s (w_calls w) w2 (k data) [pair_call url]); [by rewrite H4, Hc|done|done|]. apply Hk. congruence.
    + apply (failed_ends 1 n (S n) s (w_calls w) w2 [pair_call url]); try done; [congruence|]. by rewrite H4, Hc.
Qed.

Lemma field_ends n data node (k : bytes -> M Z) s w : w_server w = s -> sd_paired s = false ->
  (forall text w', w_server w' = s -> ends n s (w_calls w') (k text w')) -> ends n s (w_calls w) (stage_field env data node k w).
Proof.
  intros Hs Hp Hk. unfold stage_field. apply ends_quiet; [apply quiet_search|done|]. intros [text|] w' Hw'; [by apply Hk|].
  apply (failed_ends GS_INVALID n n s (w_calls w') w' []); try done. by rewrite app_nil_r.
Qed.

Lemma pair_ends cert key pin w : sd_paired (w_server w) = false -> sd_currentGame (w_server w) = 0 ->
  ends 5 (w_server w) (w_calls w) (gs_pair env cert key pin w).
Proof.
  intros Hp Hg. set (s := w_server w) in *. unfold gs_pair. unfold mbind at 1, M_bind at 1, get_server at 1.
  fold s. rewrite Hp, Hg. cbn [Z.eqb negb].
  repeat first
    [ apply stage_ends; [by subst|done|intros ? ? ?]
    | apply field_ends; [by subst|done|intros ? ? ?]
    | apply ends_quiet; [first [apply quiet_random|apply quiet_exit|apply quiet_overrun]|by subst|intros ? ? ?]
    | progress cbn [verify_signature negb] ].
  match goal with |- ends 0 s (w_calls ?w') _ => rename w' into w9 end.
  unfold mbind, M_bind, modify_server. set (wp := with_server _ w9).
  change (w_calls w9) with (w_calls wp).
  assert (w_server w9 = s) as Hw9 by done. assert (w_server wp = set_paired true s) as Hwp by (unfold wp; cbn; by rewrite Hw9).
  apply cleanup_ends; [|done|done|done]. rewrite Hwp. by destruct s.
Qed.

(** ** Cancelling *)

(** What does not look at the token, nor ask anything of the host. *)
Definition still {A} (m : M A) : Prop :=
  forall w, w_token (m w).2 = w_token w /\ w_ticks (m w).2 = w_ticks w /\ w_calls (m w).2 = w_calls w.
Lemma still_bind {A B} (m : M A) (k : A -> M B) : still m -> (forall a, still (k a)) -> still (m ≫= k).
Proof.
  intros Hm Hk w. unfold mbind, M_bind. destruct (Hm w) as (H1 & H2 & H3). destruct (m w) as [[h|a] w']; cbn in *; [done|].
  destruct (Hk a w') as (H4 & H5 & H6). by rewrite H4, H5, H6.
Qed.
Lemma still_exit {A} (o : option A) : still (or_exit o). Proof. by destruct o. Qed.
Lemma still_overrun {A} (o : option A) : still (or_overrun o). Proof. by destruct o. Qed.
Lemma still_random n : still (random_data env n). Proof. done. Qed.
Lemma still_lift {A} (r : Z * A * option bytes) : still (lift_xml r).
Proof. unfold lift_xml. destruct r as [[code a] [e|]]; by apply still_bind. Qed.
Lemma still_search data node : still (search data node).
Proof. unfold search. apply still_bind; [apply still_lift|]. by intros []. Qed.
Lemma still_validate data : still (gs_pair_validate data).
Proof.
  unfold gs_pair_validate, status_of. apply still_bind; [apply still_bind; [apply still_lift|by intros []]|]. intros a. destruct (negb _); [done|].
  apply still_bind; [apply still_lift|by intros []].
Qed.

(** No look from the [a]th to the one before the [b]th sees a cancellation. *)
Definition unseen (a b : nat) : Prop := forall t, (a <= t < b)%nat -> env_cancel env t = false.
(** The requests of a pairing: they have the long timeout. *)
Definition pairing_requests (made : list http_call) : nat := length (filter (fun c => hc_timeout c = HTTPRequestTimeoutLong) made).

(** How a pairing that may have [n] requests left heeds the user: each request is
    framed by looks; a cancellation that a look sees is the outcome; and success was
    looked for after the last request. *)
Definition heeds (n : nat) (w : world) (r : (halt + Z) * world) : Prop :=
  exists made, w_calls r.2 = w_calls w ++ made /\ (w_ticks w <= w_ticks r.2)%nat /\
    (forall m, env_cancel env (w_ticks w + m) = true -> (2 * pairing_requests made <= m + 1)%nat) /\
    match r.1 with
    | inr ret => (ret = GS_OK -> (w_ticks w + 2 * n < w_ticks r.2)%nat) /\ (ret <> GS_CANCELLED -> unseen (w_ticks w) (w_ticks r.2))
    | inl _ => unseen (w_ticks w) (w_ticks r.2)
    end.

Lemma look w : w_token w = TokenActive -> isCancellationRequested env w =
  (inr (env_cancel env (w_ticks w)), with_token (if env_cancel env (w_ticks w) then TokenCancelled else TokenActive) w).
Proof. intros Ht. unfold isCancellationRequested. rewrite Ht. by destruct (env_cancel env (w_ticks w)). Qed.

(** The steps before [w1] made [k] requests and saw no cancellation. *)
Lemma heeds_after n k w w1 made r :
  w_calls w1 = w_calls w ++ made -> pairing_requests made = k -> (w_ticks w + 2 * k <= w_ticks w1)%nat -> unseen (w_ticks w) (w_ticks w1) ->
  heeds n w1 r -> heeds (k + n) w r.
Proof.
  intros Hc Hk Ht Hu (rest & H1 & H2 & H3 & H4). exists (made ++ rest). rewrite H1, Hc, app_assoc. split; [done|]. split; [lia|]. split.
  - intros m Hm. unfold pairing_requests. rewrite list.filter_app, length_app. fold (pairing_requests made) (pairing_requests rest). rewrite Hk.
    destruct (decide (m < w_ticks w1 - w_ticks w)%nat) as [Hl|Hl]; [rewrite Hu in Hm by lia; done|].
    specialize (H3 (m - (w_ticks w1 - w_ticks w))%nat). replace (w_ticks w1 + (m - (w_ticks w1 - w_ticks w)))%nat with (w_ticks w + m)%nat in H3 by lia.
    specialize (H3 Hm). lia.
  - assert (unseen (w_ticks w1) (w_ticks r.2) -> unseen (w_ticks w) (w_ticks r.2)) as Hall.
    { intros Hu' t Htt. destruct (decide (t < w_ticks w1)%nat); [apply Hu|apply Hu']; lia. }
    destruct (r.1) as [h|ret]; [by apply Hall|]. destruct H4 as [H4 H5]. split; [intros ->; specialize (H4 eq_refl); lia|]. intros Hr. by apply Hall, H5.
Qed.

Lemma heeds_still {A} (m : M A) (k : A -> M Z) n w : still m -> w_token w = TokenActive ->
  (forall a w', w_token w' = TokenActive -> heeds n w' (k a w')) -> heeds n w ((m ≫= k) w).
Proof.
  intros Hm Ht Hk. unfold mbind, M_bind. destruct (Hm w) as (H1 & H2 & H3). destruct (m w) as [[h|a] w']; cbn [snd] in *.
  - exists []. cbn [fst snd]. rewrite app_nil_r, H2. split; [done|]. split; [lia|]. split; [intros i ?; change (2 * 0 <= i + 1)%nat; lia|]. intros t Htt. lia.
  - apply (heeds_after n 0 w w' []); [by rewrite app_nil_r|done|lia| |apply Hk; congruence]. intros t Htt. lia.
Qed.

Lemma unpair_once w : exists code w', gs_unpair env w = (inr code, w') /\ w_ticks w' = w_ticks w /\ w_calls w' = w_calls w ++ [unpair_call (w_server w)].
Proof.
  unfold gs_unpair, get_server. unfold mbind at 1, M_bind at 1. unfold send_plain, send. cbn [andb]. cbv zeta. unfold mbind, M_bind. cbv beta iota.
  eexists _, _. split; [reflexivity|]. cbn [snd]. by destruct (hr_error _).
Qed.
Lemma cleanup_cancelled ret w : w_token w = TokenCancelled ->
  exists w', gs_pair_cleanup env ret w = (inr GS_CANCELLED, w') /\ w_ticks w' = S (w_ticks w) /\ w_calls w' = w_calls w ++ [unpair_call (w_server w)].
Proof.
  intros Ht. unfold gs_pair_cleanup. assert (isCancellationRequested env w = (inr true, with_token TokenCancelled w)) as E by (unfold isCancellationRequested; by rewrite Ht).
  rewrite (bind_inr _ _ _ _ _ E), orb_true_r. destruct (unpair_once (with_token TokenCancelled w)) as (code & w' & E' & H1 & H2). rewrite (bind_inr _ _ _ _ _ E').
  eexists. split; [reflexivity|]. split; [exact H1|exact H2].
Qed.
Lemma no_requests s : pairing_requests [unpair_call s] = 0%nat.
Proof. done. Qed.
Lemma cleanup_heeds ret w : w_token w = TokenActive -> heeds 0 w (gs_pair_cleanup env ret w).
Proof.
  intros Ht. destruct (env_cancel env (w_ticks w)) eqn:Ec.
  - assert (gs_pair_cleanup env ret w = gs_pair_cleanup env ret {| w_server := w_server w; w_error := w_error w; w_calls := w_calls w; w_token := TokenCancelled;
      w_ticks := w_ticks w; w_clock := w_clock w |}) as ->.
    { unfold gs_pair_cleanup. unfold mbind at 1 3, M_bind at 1 3. rewrite (look _ Ht), Ec. done. }
    set (w0 := {| w_server := _ |}). destruct (cleanup_cancelled ret w0 eq_refl) as (w' & -> & H1 & H2). exists [unpair_call (w_server w)]. cbn [fst snd]. split; [exact H2|].
    change (w_ticks w' = S (w_ticks w)) in H1. split; [lia|]. split; [intros; rewrite no_requests; lia|]. by split.
  - unfold gs_pair_cleanup. rewrite (bind_inr _ _ _ _ _ (look w Ht)), Ec, orb_false_r.
    assert (unseen (w_ticks w) (S (w_ticks w))) as Hu by (intros t Htt; by replace t with (w_ticks w) by lia).
    destruct (Z.eqb_spec ret GS_OK) as [->|Hr]; cbn [negb].
    + change (heeds 0 w (inr GS_OK, with_token TokenActive w)). exists []. rewrite app_nil_r. split; [done|]. split; [cbn; lia|]. split; [intros i ?; change (2 * 0 <= i + 1)%nat; lia|]. split; [intros _; cbn; lia|by intros _].
    + destruct (unpair_once (with_token TokenActive w)) as (code & w' & E' & H1 & H2). rewrite (bind_inr _ _ _ _ _ E'). exists [unpair_call (w_server w)].
      change (w_calls w' = w_calls w ++ [unpair_call (w_server w)] /\ (w_ticks w <= w_ticks w')%nat /\ (forall m, env_cancel env (w_ticks w + m) = true -> (2 * pairing_requests [unpair_call (w_server w)] <= m + 1)%nat) /\
        (ret = GS_OK -> (w_ticks w + 2 * 0 < w_ticks w')%nat) /\ (ret <> GS_CANCELLED -> unseen (w_ticks w) (w_ticks w'))). split; [exact H2|]. rewrite H1. split; [cbn; lia|]. split; [intros; rewrite no_requests; lia|]. split; [done|]. by intros _.
Qed.

(** A request: cancelled, or made between two looks that see nothing. *)
Lemma request_heeds url w : w_token w = TokenActive ->
  exists ret data w1 made, gs_pair_request env url w = (inr (ret, data), w1) /\ w_calls w1 = w_calls w ++ made /\
    ((ret = GS_CANCELLED /\ w_token w1 = TokenCancelled /\ (w_ticks w < w_ticks w1)%nat /\
      (made = [] \/ (pairing_requests made = 1%nat /\ env_cancel env (w_ticks w) = false))) \/
     (w_token w1 = TokenActive /\ pairing_requests made = 1%nat /\ (w_ticks w + 2 <= w_ticks w1)%nat /\ unseen (w_ticks w) (w_ticks w1))).
Proof.
  intros Ht. unfold gs_pair_request. rewrite (bind_inr _ _ _ _ _ (look w Ht)). destruct (env_cancel env (w_ticks w)) eqn:Ec.
  { eexists _, _, _, []. split; [reflexivity|]. split; [by rewrite app_nil_r|]. left. split; [done|]. split; [done|]. split; [cbn; lia|by left]. }
  set (wa := with_token TokenActive w). set (call := {| hc_url := url; hc_timeout := HTTPRequestTimeoutLong; hc_options := default_options |}).
  assert (exists v w2, send env true url HTTPRequestTimeoutLong default_options wa = (inr v, w2) /\ w_calls w2 = w_calls w ++ [call] /\
    ((w_token w2 = TokenActive /\ (S (w_ticks w) <= w_ticks w2)%nat /\ unseen (w_ticks w) (w_ticks w2)) \/
     (w_token w2 = TokenCancelled /\ (w_ticks w < w_ticks w2)%nat))) as (v & w2 & Es & Hc & Hs).
  { unfold send. fold call. set (asks := match env_host env (w_calls wa) call with Some _ => _ | None => _ end). clearbody asks.
    assert (unseen (w_ticks w) (S (w_ticks w))) as Hu by (intros t Htt; by replace t with (w_ticks w) by lia). cbn [andb]. destruct asks.
    - rewrite (look (with_call call wa) eq_refl). destruct (env_cancel env (w_ticks (with_call call wa))) eqn:Ec2.
      + eexists _, _. split; [reflexivity|]. destruct (hr_error _); cbn; (split; [done|]); right; (split; [done|]); lia.
      + eexists _, _. split; [reflexivity|].
        assert (unseen (w_ticks w) (S (S (w_ticks w)))) as Hu2 by (intros t Htt; destruct (decide (t = w_ticks w)) as [->|]; [done|]; by replace t with (S (w_ticks w)) by lia).
        destruct (hr_error _); cbn; (split; [done|]); left; (split; [done|]); (split; [lia|exact Hu2]).
    - eexists _, _. split; [reflexivity|]. destruct (hr_error _); cbn; (split; [done|]); left; (split; [done|]); (split; [lia|exact Hu]). }
  rewrite (bind_inr _ _ _ _ _ Es). destruct v as [[code body] info]. cbv beta iota. assert (pairing_requests [call] = 1%nat) as Hone by done. destruct Hs as [(H1 & H2 & H3)|(H1 & H2)].
  - rewrite (bind_inr _ _ _ _ _ (look w2 H1)). destruct (env_cancel env (w_ticks w2)) eqn:Ec2.
    + eexists _, _, _, [call]. split; [reflexivity|]. split; [exact Hc|]. left. split; [done|]. split; [done|]. split; [cbn; lia|by right].
    + eexists _, _, _, [call]. split; [reflexivity|]. split; [exact Hc|]. right. split; [done|]. split; [done|]. split; [cbn; lia|].
      intros t Htt. cbn in Htt. destruct (decide (t < w_ticks w2)%nat); [apply H3; lia|]. by replace t with (w_ticks w2) by lia.
  - assert (isCancellationRequested env w2 = (inr true, with_token TokenCancelled w2)) as E by (unfold isCancellationRequested; by rewrite H1).
    rewrite (bind_inr _ _ _ _ _ E). eexists _, _, _, [call]. split; [reflexivity|]. split; [exact Hc|]. left. split; [done|]. split; [done|]. split; [cbn; lia|by right].
Qed.

(** A pairing that fails needs fewer looks for success: none. *)
Lemma heeds_failed n w r : heeds 0 w r -> match r.1 with inr ret => ret <> GS_OK | inl _ => True end -> heeds n w r.
Proof. intros (made & H1 & H2 & H3 & H4) Hr. exists made. split; [done|]. split; [done|]. split; [done|]. destruct (r.1) as [h|ret]; [done|]. split; [by intros ?%Hr|apply H4]. Qed.
Lemma cleanup_fails ret w : ret <> GS_OK -> match (gs_pair_cleanup env ret w).1 with inr ret => ret <> GS_OK | inl _ => True end.
Proof.
  intros Hr. unfold gs_pair_cleanup. destruct (asked w) as (b & t & E). rewrite (bind_inr _ _ _ _ _ E).
  assert (exists code w2, (if negb (ret =? GS_OK) || b then gs_unpair env else mret 0) (with_token t w) = (inr code, w2)) as (code & w2 & E2).
  { destruct (negb _ || b); [|by eexists _, _]. destruct (unpair_once (with_token t w)) as (code & w2 & E2 & _). by eexists _, _. }
  rewrite (bind_inr _ _ _ _ _ E2). by destruct b.
Qed.
Lemma failed_heeds n ret w : w_token w = TokenActive -> ret <> GS_OK -> heeds n w (gs_pair_cleanup env ret w).
Proof. intros Ht Hr. apply heeds_failed; [by apply cleanup_heeds|by apply cleanup_fails]. Qed.

Lemma stage_heeds n url (k : bytes -> M Z) w : w_token w = TokenActive ->
  (forall data w', w_token w' = TokenActive -> heeds n w' (k data w')) -> heeds (S n) w (stage env url k w).
Proof.
  intros Ht Hk. unfold stage. destruct (request_heeds (url_text url) w Ht) as (ret & data & w1 & made & E & Hc & Hr). rewrite (bind_inr _ _ _ _ _ E).
  destruct Hr as [(-> & H1 & H2 & H3)|(H1 & H2 & H3 & H4)].
  - destruct (cleanup_cancelled GS_CANCELLED w1 H1) as (w' & E' & H5 & H6). cbn [Z.eqb GS_OK GS_CANCELLED negb]. rewrite E'. exists (made ++ [unpair_call (w_server w1)]). cbn [fst snd].
    rewrite H6, Hc, app_assoc. split; [done|]. split; [lia|]. split; [|by split]. intros m Hm. unfold pairing_requests. rewrite list.filter_app, length_app. fold (pairing_requests made).
    replace (length (filter (fun c => hc_timeout c = HTTPRequestTimeoutLong) [unpair_call (w_server w1)])) with 0%nat by done.
    destruct H3 as [->|[-> H3]]; [cbn; lia|]. destruct m; [rewrite Nat.add_0_r in Hm; congruence|lia].
  - apply (heeds_after n 1 w w1 made); [done|done|lia|done|]. destruct (Z.eqb_spec ret GS_OK) as [->|Hr]; cbn [negb]; [|by apply failed_heeds].
    apply heeds_still; [apply still_validate|done|]. intros v w2 H5. destruct (Z.eqb_spec v GS_OK) as [->|Hv]; cbn [negb]; [by apply Hk|by apply failed_heeds].
Qed.
Lemma field_heeds n data node (k : bytes -> M Z) w : w_token w = TokenActive ->
  (forall text w', w_token w' = TokenActive -> heeds n w' (k text w')) -> heeds n w (stage_field env data node k w).
Proof.
  intros Ht Hk. unfold stage_field. apply heeds_still; [apply still_search|done|]. intros [text|] w' Hw'; [by apply Hk|by apply failed_heeds].
Qed.
Lemma pair_heeds cert key pin w : sd_paired (w_server w) = false -> sd_currentGame (w_server w) = 0 -> w_token w = TokenActive ->
  heeds 5 w (gs_pair env cert key pin w).
Proof.
  intros Hp Hg Ht. unfold gs_pair. unfold mbind at 1, M_bind at 1, get_server at 1. rewrite Hp, Hg. cbn [Z.eqb negb].
  repeat first
    [ apply stage_heeds; [done|intros ? ? ?]
    | apply field_heeds; [done|intros ? ? ?]
    | apply heeds_still; [first [apply still_random|apply still_exit|apply still_overrun|done]|done|intros ? ? ?]
    | progress cbn [verify_signature negb] ].
  by apply cleanup_heeds.
Qed.
End facts.

(** C4: for every host, and whenever the user cancels: pairing a host that was not
    paired either makes its five requests and leaves the record paired, or fails
    - leaving it unpaired, with a request to forget the client as the last thing
    the host hears, after at most the five - or ends the process. The user is heeded:
    a cancellation that any look at the token sees is the outcome; once the user has
    cancelled no further pairing request is made, each being framed by two looks; and
    a pairing that succeeds has looked twice at every request and once more after the
    last, and has seen no cancellation. *)
Theorem pair_outcome (env : environment) (lib : MbedTLS) (xml : Expat) (cert key pin : bytes) (w : world) :
  sd_paired (w_server w) = false -> sd_currentGame (w_server w) = 0 ->
  let '(r, w') := gs_pair env cert key pin w in
  exists made, w_calls w' = w_calls w ++ made /\
    match r with
    | inr ret =>
        (ret = GS_OK /\ w_server w' = set_paired true (w_server w) /\ length made = 5%nat /\
         Forall (fun c => exists url, c = pair_call url) made) \/
        (ret <> GS_OK /\ w_server w' = set_paired false (w_server w) /\ (length made <= 6)%nat /\
         list.last made = Some (unpair_call (w_server w)))
    | inl _ => w_server w' = w_server w /\ (length made <= 5)%nat
    end /\
    (w_token w = TokenActive ->
      (forall m, env_cancel env (w_ticks w + m) = true -> (2 * pairing_requests made <= m + 1)%nat) /\
      (forall t, (w_ticks w <= t < w_ticks w')%nat -> env_cancel env t = true -> r = inr GS_CANCELLED) /\
      (r = inr GS_OK -> (w_ticks w + 11 <= w_ticks w')%nat)).
Proof.
  intros Hp Hg. pose proof (pair_ends env cert key pin w Hp Hg) as (made & Hw & Hr). pose proof (pair_heeds env cert key pin w Hp Hg) as Hh.
  destruct (gs_pair env cert key pin w) as [r w']. cbn [fst snd] in *. exists made. split; [done|]. split.
  - destruct r as [h|ret]; [done|]. destruct Hr as [Hr|(H1&H2&H3&H4&H5)]; [by left|right]. split_and!; try done.
    rewrite <- H3, Hp. destruct (w_server w'). cbn in *. by subst.
  - intros Ht. destruct (Hh Ht) as (made' & H1 & _ & H3 & H4). cbn [fst snd] in *. rewrite Hw in H1. apply app_inv_head in H1 as <-. split; [exact H3|].
    destruct r as [h|ret].
    + split; [intros t Htt Hc; rewrite (H4 t Htt) in Hc; done|done].
    + destruct H4 as [H4 H5]. split; [|intros [= ->]; specialize (H4 eq_refl); lia]. intros t Htt Hc. destruct (decide (ret = GS_CANCELLED)) as [->|Hn]; [done|].
      rewrite (H5 Hn t Htt) in Hc. done.
Qed.

(** ** A pairing that succeeds *)

Definition reply_doc (fields : list (bytes * bytes)) : node :=
  Elem (bs "root") [(bs "status_code", bs "200")] (field_node <$> fields).

(** The host replies with these fields. *)
Definition answers (env : environment) `{Expat} (before : list http_call) (call : http_call) (fields : list (bytes * bytes)) : Prop :=
  exists t, env_host env before call = Some t /\ tr_code t = CURLE_OK /\ 200 <= tr_status t < 300 /\
    zlen (mjoin (tr_chunks t)) <= ho_maxResponseBytes (hc_options call) /\
    xml_parse (mjoin (tr_chunks t)) = (node_events (reply_doc fields), None).

(** The world after a stage, and after a random draw. *)
Definition staged (url : bytes) (w : world) : world :=
  {| w_server := w_server w; w_error := w_error w; w_calls := w_calls w ++ [pair_call url]; w_token := TokenActive;
     w_ticks := S (S (w_ticks w)); w_clock := w_clock w |}.

Section success.
Context (env : environment) `{lib : MbedTLS} `{laws : !MbedTLSLaws} `{xml : Expat}.
Context (never : forall n, env_cancel env n = false).

Lemma not_cancelled w : w_token w = TokenActive ->
  isCancellationRequested env w = (inr false, with_token TokenActive w).
Proof. intros Ht. unfold isCancellationRequested. by rewrite Ht, never. Qed.

Lemma status_fields fields q : Forall (fun f => f.1 <> bs "root") fields ->
  foldl status_step q ((field_node <$> fields) ≫= node_events) = q.
Proof.
  intros H. revert q. induction H as [|f fs Hf _ IH]; intros q; [done|].
  cbn [fmap list_fmap]. rewrite bind_cons, foldl_app. rewrite <- (IH q) at 2. f_equal. unfold field_node.
  cbn [node_events foldl mbind list_bind app]. unfold status_step. by rewrite bool_decide_false by done.
Qed.

Lemma validate_ok data fields w : xml_parse data = (node_events (reply_doc fields), None) ->
  Forall (fun f => f.1 <> bs "root") fields -> gs_pair_validate data w = (inr GS_OK, w).
Proof.
  intros Hx Hf. unfold gs_pair_validate.
  assert (status_of data w = (inr GS_OK, w)) as Hs.
  { unfold status_of, xml_status. rewrite Hx. unfold reply_doc. cbn [node_events foldl]. rewrite foldl_app, status_fields by done.
    by vm_compute. }
  rewrite (bind_inr _ _ _ _ _ Hs). cbn [Z.eqb GS_OK negb]. unfold lift_xml.
  destruct (search_doc data (bs "paired") _ Hx) as [_ ->]. done.
Qed.

Lemma stage_ok url w fields : w_token w = TokenActive ->
  answers env (w_calls w) (pair_call url) fields -> Forall (fun f => f.1 <> bs "root") fields ->
  exists data, (forall k, stage env url k w = k data (staged url w)) /\ xml_parse data = (node_events (reply_doc fields), None).
Proof.
  intros Ht (t & Hh & Hc & Hs & Hz & Hx) Hf. exists (mjoin (tr_chunks t)). split; [|done].
  intros k. unfold stage.
  assert (gs_pair_request env (url_text url) w = (inr (GS_OK, mjoin (tr_chunks t)), staged url w)) as E.
  { unfold gs_pair_request. rewrite (bind_inr _ _ _ _ _ (not_cancelled w Ht)).
    set (w1 := with_token TokenActive w).
    assert (send env true (url_text url) HTTPRequestTimeoutLong default_options w1 =
      (inr (GS_OK, Some (mjoin (tr_chunks t)), Some {| hi_status := tr_status t; hi_tooLarge := false |}),
       with_call (pair_call url) w1)) as Es.
    { unfold send. fold (pair_call url). change (w_calls w1) with (w_calls w). rewrite Hh.
      rewrite perform_taken by done. cbn [fst CURLE_OK CURLE_ABORTED_BY_CALLBACK Z.eqb andb]. by rewrite http_request_ok by done. }
    rewrite (bind_inr _ _ _ _ _ Es). rewrite (bind_inr _ _ _ _ _ (not_cancelled (with_call (pair_call url) w1) eq_refl)). done. }
  rewrite (bind_inr _ _ _ _ _ E). cbn [Z.eqb GS_OK negb].
  rewrite (bind_inr _ _ _ _ _ (validate_ok _ _ _ Hx Hf)). done.
Qed.

Lemma field_ok data node text (k : bytes -> M Z) w fields : xml_parse data = (node_events (reply_doc fields), None) ->
  outermost (bs node) (reply_doc fields) = [text] -> Init.Byte.x00 ∉ text ->
  stage_field env data node k w = k text w.
Proof.
  intros Hx Ho Ht. unfold stage_field, search, lift_xml. destruct (search_doc data (bs node) _ Hx) as [_ ->].
  rewrite Ho. cbn [mjoin list_join]. rewrite app_nil_r, c_str_id by done. done.
Qed.

Lemma second_field name f text : f.1 <> name -> bs "root" <> name -> outermost name (reply_doc [f; (name, text)]) = [text].
Proof.
  intros Hf Hr. unfold reply_doc. cbn [outermost fmap list_fmap mbind list_bind app field_node fst snd].
  rewrite !bool_decide_false by done. rewrite bool_decide_true by done. cbn. by rewrite app_nil_r.
Qed.

Lemma paired_last s w : w_token w = TokenActive -> w_server w = s ->
  (modify_server (set_paired true) ;; gs_pair_cleanup env GS_OK) w = (inr GS_OK, with_token TokenActive (with_server (set_paired true s) w)).
Proof.
  intros Ht <-. set (w' := with_server (set_paired true (w_server w)) w).
  rewrite (bind_inr (modify_server (set_paired true)) _ w tt w') by done.
  unfold gs_pair_cleanup. by rewrite (bind_inr _ _ _ _ _ (not_cancelled w' Ht)).
Qed.

Lemma drawn n w : random_data env n w = (inr (random_bytes (env_rand env) (env_time env (w_clock w)) n), with_clock w).
Proof. done. Qed.
End success.

(** The choices of a pairing: its hash, and what the client draws. *)
Section transcript.
Context (env : environment) `{MbedTLS} (s : SERVER_DATA) (clock : nat) (cert key pin : bytes).

Definition gen7 : bool := 7 <=? sd_serverMajorVersion s.
Definition pair_hash (d : bytes) : bytes := if gen7 then SHA256_hash_data d else SHA1_hash_data d.
Definition hash_length : nat := if gen7 then 32 else 20.
Definition draw (i : nat) : bytes := random_bytes (env_rand env) (env_time env (i + clock)) 16.
(** The key both sides derive from the salt and the number the user types in. *)
Definition pair_key : bytes := take 16 (pair_hash (draw 0 ++ pin)).
(** What the client proves to know, given the host's challenge. *)
Definition pair_proof (challenge : bytes) : bytes := pair_hash (challenge ++ signature cert ++ draw 2).
Definition secret_message : bytes := hex (draw 2 ++ sign_data (draw 2) key).
Definition proof_message (challenge : bytes) : bytes := hex (aes_encrypt (pair_proof challenge) pair_key).

(** The five requests. *)
Definition url1 : bytes := pair_base s "&phrase=getservercert&salt=" ++ hex (draw 0) ++ bs "&clientcert=" ++ hex cert.
Definition url2 : bytes := pair_base s "&clientchallenge=" ++ hex (aes_encrypt (draw 1) pair_key).
Definition url3 (challenge : bytes) : bytes := pair_base s "&serverchallengeresp=" ++ proof_message challenge.
Definition url4 : bytes := pair_base s "&clientpairingsecret=" ++ secret_message.
Definition url5 : bytes := https_base s "/pair?uniqueid=" ++ unique_id ++ bs "&devicename=roth&updateState=1&phrase=pairchallenge".
End transcript.

Lemma subdata_some n m d : (n + m <= length d)%nat -> subdata n m d = Some (take m (drop n d)).
Proof. intros Hl. unfold subdata. rewrite (proj2 (Nat.ltb_ge _ _)) by done. done. Qed.

Lemma field_names : bs "paired" <> bs "plaincert" /\ bs "root" <> bs "plaincert" /\ bs "paired" <> bs "challengeresponse" /\
  bs "root" <> bs "challengeresponse" /\ bs "paired" <> bs "pairingsecret" /\ bs "root" <> bs "pairingsecret".
Proof. split_and!; vm_compute; discriminate. Qed.

Section runs.
Context (env : environment) `{lib : MbedTLS} `{laws : !MbedTLSLaws} `{xml : Expat} (s : SERVER_DATA).

Lemma length_hash d : length (pair_hash s d) = hash_length s.
Proof. unfold pair_hash, hash_length. destruct (gen7 s); [apply sha256_length|apply sha1_length]. Qed.

Lemma key_derived clock pin :
  (if gen7 s then create_AES_key_from_salt_SHA256 (append (draw env clock 0) pin)
   else create_AES_key_from_salt_SHA1 (append (draw env clock 0) pin)) = Some (pair_key env s clock pin).
Proof.
  rewrite append_app. unfold create_AES_key_from_salt_SHA256, create_AES_key_from_salt_SHA1, pair_key.
  pose proof (length_hash (draw env clock 0 ++ pin)) as Hl. unfold pair_hash, hash_length in *.
  destruct (gen7 s); rewrite subdata_some by (rewrite Hl; lia); done.
Qed.

(** Five stages, and the world after them. *)
Definition after (urls : list bytes) (w : world) : world := foldl (fun w u => staged u w) w urls.

Lemma pair_runs cert key pin w yes1 yes2 yes3 plaincert response secret plain done4 done5 :
  let clock := w_clock w in
  let challenge := take 16 (drop (hash_length s) plain) in
  let u1 := url1 env s clock cert in
  let u2 := url2 env s clock pin in
  let u3 := url3 env s clock cert pin challenge in
  let u4 := url4 env s clock key in
  let ask us u := answers env (w_calls w ++ (pair_call <$> us)) (pair_call u) in
  w_server w = s -> sd_paired s = false -> sd_currentGame s = 0 -> w_token w = TokenActive -> (forall n, env_cancel env n = false) ->
  Init.Byte.x00 ∉ plaincert -> Init.Byte.x00 ∉ response -> Init.Byte.x00 ∉ secret ->
  aes_decrypt (hex_to_bytes response) (pair_key env s clock pin) = Some plain -> (hash_length s + 16 <= length plain)%nat ->
  (272 <= length (hex_to_bytes secret))%nat ->
  Forall (fun f => f.1 <> bs "root") done4 -> Forall (fun f => f.1 <> bs "root") done5 ->
  ask [] u1 [(bs "paired", yes1); (bs "plaincert", plaincert)] ->
  ask [u1] u2 [(bs "paired", yes2); (bs "challengeresponse", response)] ->
  ask [u1; u2] u3 [(bs "paired", yes3); (bs "pairingsecret", secret)] ->
  ask [u1; u2; u3] u4 done4 -> ask [u1; u2; u3; u4] (url5 s) done5 ->
  exists w', gs_pair env cert key pin w = (inr GS_OK, w') /\ w_server w' = set_paired true s /\
    w_calls w' = w_calls w ++ (pair_call <$> [u1; u2; u3; u4; url5 s]).
Proof.
  intros clock challenge u1 u2 u3 u4 ask Hw Hp Hg Ht Hn Hz1 Hz2 Hz3 Hd Hl Hs2 Hf4 Hf5 A1 A2 A3 A4 A5.
  destruct field_names as (N1&N2&N3&N4&N5&N6).
  assert (forall (f g : bytes * bytes), f.1 <> bs "root" -> g.1 <> bs "root" -> Forall (fun f => f.1 <> bs "root") [f; g]) as Hroot
    by (intros; repeat constructor; done).
  unfold ask in *. cbn [fmap list_fmap] in *. rewrite app_nil_r in A1. subst challenge.
  set (w1 := with_clock w). destruct (stage_ok env Hn u1 w1 _ Ht A1 ltac:(by apply Hroot)) as (d1 & E1 & X1).
  set (w2 := with_clock (staged u1 w1)). destruct (stage_ok env Hn u2 w2 _ eq_refl A2 ltac:(by apply Hroot)) as (d2 & E2 & X2).
  change [pair_call u1; pair_call u2] with ([pair_call u1] ++ [pair_call u2]) in A3. rewrite app_assoc in A3.
  set (w3 := with_clock (staged u2 w2)). destruct (stage_ok env Hn u3 w3 _ eq_refl A3 ltac:(by apply Hroot)) as (d3 & E3 & X3).
  change [pair_call u1; pair_call u2; pair_call u3] with ([pair_call u1] ++ [pair_call u2] ++ [pair_call u3]) in A4. rewrite !app_assoc in A4.
  set (w4 := staged u3 w3). destruct (stage_ok env Hn u4 w4 _ eq_refl A4 Hf4) as (d4 & E4 & X4).
  change [pair_call u1; pair_call u2; pair_call u3; pair_call u4] with ([pair_call u1] ++ [pair_call u2] ++ [pair_call u3] ++ [pair_call u4]) in A5.
  rewrite !app_assoc in A5. set (w5 := staged u4 w4). destruct (stage_ok env Hn (url5 s) w5 _ eq_refl A5 Hf5) as (d5 & E5 & X5).
  exists (with_token TokenActive (with_server (set_paired true s) (staged (url5 s) w5))). split_and!.
  2: done.
  2: { cbn. by rewrite <- !app_assoc. }
  unfold gs_pair. rewrite (bind_inr get_server _ w s w) by (unfold get_server; by rewrite Hw). rewrite Hp, Hg. cbn [Z.eqb negb].
  rewrite (bind_inr _ _ _ _ _ (drawn env 16 w)). fold w1. rewrite E1.
  rewrite (field_ok env d1 "plaincert" plaincert _ (staged u1 w1) _ X1 (second_field _ (bs "paired", yes1) _ N1 N2) Hz1). fold (gen7 s).
  change (random_bytes (env_rand env) (env_time env (w_clock w)) 16) with (draw env clock 0). rewrite key_derived.
  rewrite bind_exit, (bind_inr _ _ _ _ _ (drawn env 16 (staged u1 w1))). fold w2. rewrite E2.
  rewrite (field_ok env d2 "challengeresponse" response _ (staged u2 w2) _ X2 (second_field _ (bs "paired", yes2) _ N3 N4) Hz2), Hd.
  fold (hash_length s). rewrite bind_overrun, !subdata_some by lia.
  rewrite !bind_exit, (bind_inr _ _ _ _ _ (drawn env 16 (staged u2 w2))). fold w3. rewrite !append_app, <- (app_assoc _ (signature cert) _).
  rewrite E3.
  rewrite (field_ok env d3 "pairingsecret" secret _ (staged u3 w3) _ X3 (second_field _ (bs "paired", yes3) _ N5 N6) Hz3).
  rewrite !subdata_some by lia. rewrite !bind_exit. cbn [verify_signature negb]. rewrite E4, E5. apply paired_last; [done|done|by rewrite <- Hw].
Qed.
End runs.

(** C8: a host that answers each request, with a challenge response that decrypts
    to the hash and a challenge, and with a pairing secret, is paired by exactly
    five requests; and what the client sent is what the host checks: under the key
    of salt and number, the third request carries the hash of the host's
    challenge, the client certificate's signature and the secret that the fourth
    one reveals. *)
Theorem pairing_agrees (env : environment) (lib : MbedTLS) (laws : MbedTLSLaws) (xml : Expat) (cert key pin : bytes) (w : world)
    (yes1 yes2 yes3 plaincert response secret plain : bytes) (done4 done5 : list (bytes * bytes)) :
  let s := w_server w in
  let k := pair_key env s (w_clock w) pin in
  let challenge := take 16 (drop (hash_length s) plain) in
  let u1 := url1 env s (w_clock w) cert in
  let u2 := url2 env s (w_clock w) pin in
  let u3 := url3 env s (w_clock w) cert pin challenge in
  let u4 := url4 env s (w_clock w) key in
  sd_paired s = false -> sd_currentGame s = 0 -> w_token w = TokenActive -> (forall n, env_cancel env n = false) ->
  Init.Byte.x00 ∉ plaincert -> Init.Byte.x00 ∉ response -> Init.Byte.x00 ∉ secret ->
  aes_decrypt (hex_to_bytes response) k = Some plain -> (hash_length s + 16 <= length plain)%nat ->
  (272 <= length (hex_to_bytes secret))%nat ->
  Forall (fun f => f.1 <> bs "root") done4 -> Forall (fun f => f.1 <> bs "root") done5 ->
  answers env (w_calls w) (pair_call u1) [(bs "paired", yes1); (bs "plaincert", plaincert)] ->
  answers env (w_calls w ++ [pair_call u1]) (pair_call u2) [(bs "paired", yes2); (bs "challengeresponse", response)] ->
  answers env (w_calls w ++ [pair_call u1; pair_call u2]) (pair_call u3) [(bs "paired", yes3); (bs "pairingsecret", secret)] ->
  answers env (w_calls w ++ [pair_call u1; pair_call u2; pair_call u3]) (pair_call u4) done4 ->
  answers env (w_calls w ++ [pair_call u1; pair_call u2; pair_call u3; pair_call u4]) (pair_call (url5 s)) done5 ->
  exists w', gs_pair env cert key pin w = (inr GS_OK, w') /\ w_server w' = set_paired true s /\
    w_calls w' = w_calls w ++ [pair_call u1; pair_call u2; pair_call u3; pair_call u4; pair_call (url5 s)] /\
    exists d, aes_decrypt (hex_to_bytes (proof_message env s (w_clock w) cert pin challenge)) k = Some d /\
      take (hash_length s) d = pair_hash s (challenge ++ signature cert ++ take 16 (hex_to_bytes (secret_message env (w_clock w) key))).
Proof.
  intros s k challenge u1 u2 u3 u4 Hp Hg Ht Hn Hz1 Hz2 Hz3 Hd Hl Hs2 Hf4 Hf5 A1 A2 A3 A4 A5.
  rewrite <- (app_nil_r (w_calls w)) in A1.
  destruct (pair_runs env s cert key pin w yes1 yes2 yes3 plaincert response secret plain done4 done5
    eq_refl Hp Hg Ht Hn Hz1 Hz2 Hz3 Hd Hl Hs2 Hf4 Hf5 A1 A2 A3 A4 A5) as (w' & Hr & Hw & Hc).
  exists w'. split_and!; [done|done|done|].
  unfold proof_message, secret_message. rewrite !hex_bytes, aes_inverse. eexists. split; [done|].
  unfold pair_proof. rewrite take_app_le by (rewrite length_hash; lia). rewrite take_ge by (rewrite length_hash; lia).
  rewrite take_app_le, take_ge; [done| |]; unfold draw; rewrite length_random_bytes; lia.
Qed.

(** ** A host to talk to *)

(** The cryptographic library, the parser and the host of the examples: hashes
    that cut their input to length, a block cipher that reverses the block, bodies
    that are the number of their document, and a host that answers its requests
    with the documents in order. *)
#[local] Instance toy_crypto : MbedTLS := {|
  mbedtls_sha1 := fun d => take 20 (d ++ replicate 20 Init.Byte.x00);
  mbedtls_sha256 := fun d => take 32 (d ++ replicate 32 Init.Byte.x00);
  aes_enc_block := fun _ b => reverse b;
  aes_dec_block := fun _ b => reverse b;
  cert_signature := fun c => c;
  pk_sign := fun k d => k |}.

Lemma toy_laws : MbedTLSLaws.
Proof.
  split.
  - intros d. unfold mbedtls_sha1, toy_crypto. rewrite length_take, length_app, length_replicate. lia.
  - intros d. unfold mbedtls_sha256, toy_crypto. rewrite length_take, length_app, length_replicate. lia.
  - intros k b. unfold aes_enc_block, toy_crypto. by rewrite length_reverse.
  - intros k b _. apply reverse_involutive.
Qed.

Definition toy_expat (docs : list node) : Expat := fun data =>
  match data with
  | [b] => match docs !! Z.to_nat (ub b) with Some d => (node_events d, None) | None => ([], Some (bs "syntax error")) end
  | _ => ([], Some (bs "no element found"))
  end.

Definition toy_env (cancel : nat -> bool) : environment :=
  {| env_host := fun before _ => Some {| tr_chunks := [[u8 (zlen before)]]; tr_code := 0; tr_status := 200; tr_detail := [] |};
     env_strerror := fun _ => bs "error"; env_time := fun _ => 1700000000; env_rand := fun seed i => seed + Z.of_nat i;
     env_cancel := cancel; env_launch_query := [] |}.

Definition toy_server : SERVER_DATA :=
  {| sd_address := bs "10.0.0.2"; sd_serverInfoAppVersion := bs "7.1.431.-1"; sd_serverInfoGfeVersion := bs "3.23.0.74"; sd_mac := [];
     sd_gpuType := []; sd_paired := false; sd_supports4K := true; sd_currentGame := 0; sd_currentGameUuid := [];
     sd_serverMajorVersion := 7; sd_gsVersion := []; sd_hostname := bs "pc"; sd_serverInfo := server_at (bs "10.0.0.2");
     sd_httpPort := 47989; sd_httpsPort := 47984; sd_virtualDisplayCapable := false; sd_virtualDisplayDriverReady := false;
     sd_permission := 0; sd_hasApolloPermissionField := false; sd_serverCommands := []; sd_hostIdentity := identityFor Sunshine |}.
Definition toy_world (s : SERVER_DATA) : world :=
  {| w_server := s; w_error := []; w_calls := []; w_token := TokenActive; w_ticks := 0; w_clock := 0 |}.

Definition zero_text (n : nat) : bytes := replicate (2 * n) (ch "0").
Definition reply_no : bytes * bytes := (bs "paired", bs "0").
Definition impostor : list node :=
  [reply_doc [reply_no; (bs "plaincert", bs "00")]; reply_doc [reply_no; (bs "challengeresponse", zero_text 48)];
   reply_doc [reply_no; (bs "pairingsecret", zero_text 272)]; reply_doc [reply_no]; reply_doc [reply_no]].

Definition ex_pin : bytes := bs "1234".

Definition ex_cancel (n : nat) : bool := bool_decide (n = 6%nat).
#[local] Abbreviation ex_run := (@gs_pair (toy_env ex_cancel) toy_crypto (toy_expat impostor) (bs "cert") (bs "key") ex_pin (toy_world toy_server)).
Lemma pair_outcome_witness :
  let '(r, w') := ex_run in
  r = inr GS_CANCELLED /\ exists made, w_calls w' = [] ++ made /\ (2 * pairing_requests made <= 6 + 1)%nat /\
    list.last made = Some (unpair_call toy_server).
Proof.
  assert (6 < w_ticks ex_run.2)%nat as Ht by (apply Nat.ltb_lt; vm_compute; reflexivity).
  pose proof (pair_outcome (toy_env ex_cancel) toy_crypto (toy_expat impostor) (bs "cert") (bs "key") ex_pin (toy_world toy_server) eq_refl eq_refl) as H.
  revert Ht H. generalize ex_run. intros [r w'] Ht (made & H1 & H2 & H3). cbn [snd] in Ht. destruct (H3 eq_refl) as (H4 & H5 & _).
  assert (r = inr GS_CANCELLED) as -> by (apply (H5 6%nat); [cbn; lia|reflexivity]). split; [done|]. exists made. split; [exact H1|]. split; [by apply (H4 6%nat)|].
  destruct H2 as [(Hno & _)|(_ & _ & _ & H2)]; [done|exact H2].
Defined.

(** A host that knows neither the number nor a certificate, and says at every step
    that the client is not paired, ends up as a paired one. *)
Lemma pairing_agrees_witness :
  exists w', @gs_pair (toy_env (fun _ => false)) toy_crypto (toy_expat impostor) (bs "cert") (bs "key") ex_pin (toy_world toy_server)
    = (inr GS_OK, w') /\ sd_paired (w_server w') = true.
Proof.
  destruct (pairing_agrees (toy_env (fun _ => false)) toy_crypto toy_laws (toy_expat impostor) (bs "cert") (bs "key") ex_pin (toy_world toy_server)
    (bs "0") (bs "0") (bs "0") (bs "00") (zero_text 48) (zero_text 272) (replicate 48 Init.Byte.x00) [reply_no] [reply_no]) as (w' & E & Hs & _).
  1-4: done.
  1-3: by apply (bool_decide_eq_false_1 (Init.Byte.x00 ∈ _)).
  1: vm_compute; reflexivity.
  1-2: vm_compute; lia.
  1-2: repeat constructor; discriminate.
  1-5: (eexists; split_and!; [reflexivity|done|done|done|vm_compute; discriminate|vm_compute; reflexivity]).
  exists w'. split; [exact E|]. by rewrite Hs.
Defined.

(** A reply without the field the client looks for: the search succeeds with the
    empty string, and the process exits on cutting the hash out of it. *)
Lemma missing_challenge_exits :
  (@gs_pair (toy_env (fun _ => false)) toy_crypto
    (toy_expat [reply_doc [reply_no; (bs "plaincert", bs "00")]; reply_doc [reply_no]]) (bs "cert") (bs "key") ex_pin (toy_world toy_server)).1
  = inl Exited.
Proof. vm_compute. reflexivity. Qed.

(** A challenge response that is not a whole number of blocks is decrypted past
    the end of the buffers. *)
Lemma ragged_challenge_overruns :
  (@gs_pair (toy_env (fun _ => false)) toy_crypto
    (toy_expat [reply_doc [reply_no; (bs "plaincert", bs "00")]; reply_doc [reply_no; (bs "challengeresponse", zero_text 50)]])
    (bs "cert") (bs "key") ex_pin (toy_world toy_server)).1
  = inl Overrun.
Proof. vm_compute. reflexivity. Qed.

(** Draws in one second are the same bytes: the secret the client proves to know
    is the salt it sent in the clear. *)
Lemma same_second (env : environment) clock i j : env_time env (i + clock) = env_time env (j + clock) ->
  draw env clock i = draw env clock j.
Proof. unfold draw. by intros ->. Qed.

(** A refused step: the code returned is none of the client's. *)
Lemma refused_code :
  (@gs_pair (toy_env (fun _ => false)) toy_crypto (toy_expat [Elem (bs "root") [(bs "status_code", bs "400")] []])
    (bs "cert") (bs "key") ex_pin (toy_world toy_server)).1 = inr 1.
Proof. vm_compute. reflexivity. Qed.
