(* ===== verification/Launch.v ===== *)
(** Connecting to a host and starting its applications ([gs_init], [gs_start_app]
    of [libgamestream/client.cpp]): that they come back, what they ask of the
    host, and what they leave in the server's record. *)

From S2P Require Import Prelude Text CText HostAddress Data Xml HttpClient Capabilities GameStream Pairing.

#[local] Set Warnings "-clear-no-such-hyp".

(** ** Asking what a host is *)

Section status.
Context (env : environment) `{lib : MbedTLS} `{xml : Expat}.

(** It comes back, with such a result. *)
Definition returns {A} (m : M A) (Q : A -> world -> Prop) (w : world) : Prop := exists a w', m w = (inr a, w') /\ Q a w'.

(** It comes back and makes no request. *)
Definition calm {A} (m : M A) : Prop := forall w, returns m (fun _ w' => w_calls w' = w_calls w) w.

Lemma returns_bind {A B} (m : M A) (k : A -> M B) Q w : returns m (fun a w' => returns (k a) Q w') w -> returns (m ≫= k) Q w.
Proof. intros (a & w' & E & b & w2 & E2 & HQ). exists b, w2. split; [|done]. by rewrite (bind_inr _ _ _ _ _ E). Qed.
Lemma returns_mono {A} (m : M A) (Q R : A -> world -> Prop) w : returns m Q w -> (forall a w', Q a w' -> R a w') -> returns m R w.
Proof. intros (a & w' & E & HQ) H. exists a, w'. eauto. Qed.
Lemma returns_ret {A} (a : A) (Q : A -> world -> Prop) w : Q a w -> returns (mret a) Q w.
Proof. intros HQ. by exists a, w. Qed.
Lemma returns_calm {A B} (m : M A) (k : A -> M B) Q w : calm m ->
  (forall a w', w_calls w' = w_calls w -> returns (k a) Q w') -> returns (m ≫= k) Q w.
Proof. intros Hm Hk. apply returns_bind. eapply returns_mono; [apply Hm|]. intros a w' Hw. by apply Hk. Qed.

Lemma calm_ret {A} (a : A) : calm (mret a). Proof. intros w. by exists a, w. Qed.
Lemma calm_bind {A B} (m : M A) (k : A -> M B) : calm m -> (forall a, calm (k a)) -> calm (m ≫= k).
Proof.
  intros Hm Hk w. apply returns_calm; [done|]. intros a w' Hw. eapply returns_mono; [apply Hk|].
  intros b w2 Hw2. by rewrite Hw2, Hw.
Qed.
Lemma calm_get : calm get_server. Proof. intros w. by eexists _, _. Qed.
Lemma calm_modify f : calm (modify_server f). Proof. intros w. by eexists _, _. Qed.
Lemma calm_error e : calm (gs_set_error e). Proof. intros w. by eexists _, _. Qed.
Lemma calm_lift {A} (r : Z * A * option bytes) : calm (lift_xml r).
Proof. unfold lift_xml. destruct r as [[code a] [e|]]; apply calm_bind; [apply calm_error| |apply calm_ret|]; intros _; apply calm_ret. Qed.
Lemma calm_search data node : calm (search data node).
Proof. unfold search. apply calm_bind; [apply calm_lift|]. intros []. apply calm_ret. Qed.
Lemma calm_status data : calm (status_of data).
Proof. unfold status_of. apply calm_bind; [apply calm_lift|]. intros []. apply calm_ret. Qed.
End status.
Create HintDb calm.
#[export] Hint Resolve calm_ret calm_get calm_modify calm_error calm_lift calm_search calm_status : calm.

(** A [match] or a test between two calm computations, and binds. *)
Ltac calm :=
  repeat first
    [ solve [auto with calm]
    | apply calm_bind; [|intros ?]
    | match goal with |- calm (match ?x with _ => _ end) => destruct x end ].

Section status_facts.
Context (env : environment) `{lib : MbedTLS} `{xml : Expat}.

Lemma calm_optional data : calm (load_optional data).
Proof. unfold load_optional. calm. Qed.

Lemma returns_need {A} (m : M (option A)) (k : A -> M Z) Q w : calm m -> (forall w', w_calls w' = w_calls w -> Q GS_INVALID w') ->
  (forall a w', w_calls w' = w_calls w -> returns (k a) Q w') -> returns (need m k) Q w.
Proof.
  intros Hm Hn Hk. unfold need. apply returns_calm; [done|]. intros [a|] w' Hw; [by apply Hk|]. by apply returns_ret, Hn.
Qed.

Lemma returns_need_into data node set (k : M Z) Q w : (forall w', w_calls w' = w_calls w -> Q GS_INVALID w') ->
  (forall w', w_calls w' = w_calls w -> returns k Q w') -> returns (need_into data node set k) Q w.
Proof.
  intros Hn Hk. unfold need_into. apply returns_need; [apply calm_search|done|]. intros text w' Hw.
  apply returns_calm; [apply calm_modify|]. intros _ w2 Hw2. apply Hk. congruence.
Qed.

(** A request that was made. *)
Lemma returns_send {B} url timeout (k : Z * bytes -> M B) (Q : B -> world -> Prop) w :
  (forall r w', w_calls w' = w_calls w ++ [{| hc_url := url; hc_timeout := timeout; hc_options := default_options |}] ->
    w_server w' = w_server w -> returns (k r) Q w') ->
  returns (send_plain env url timeout ≫= k) Q w.
Proof.
  intros Hk. apply returns_bind. unfold send_plain. apply returns_bind.
  pose proof (send_calls env false url timeout default_options w) as Hc.
  destruct (send env false url timeout default_options w) as [r w'] eqn:E. destruct Hc as (Hs & Hc & [[[code body] info] ->]).
  exists (code, body, info), w'. split; [done|]. apply returns_ret. by apply Hk.
Qed.

(** What a loaded record says. *)
Definition loaded (s : SERVER_DATA) : Prop :=
  sd_serverInfoAppVersion s <> [] /\ 0 < sd_httpsPort s < 2 ^ 16 /\
  sd_serverMajorVersion s = atoi (sd_serverInfoAppVersion s) /\
  sd_supports4K s = negb (si_serverCodecModeSupport (sd_serverInfo s) =? 0).

Definition serverinfo_codes : list Z := [GS_OK; GS_ERROR; GS_IO_ERROR; GS_INVALID].

Lemma load_serverinfo_spec https w :
  returns (load_serverinfo env https) (fun ret w' => (exists c, w_calls w' = w_calls w ++ [c]) /\
    ret ∈ serverinfo_codes /\ (ret = GS_OK -> loaded (w_server w'))) w.
Proof.
  unfold load_serverinfo. apply returns_calm; [apply calm_get|]. intros s w0 Hw0.
  apply returns_send. intros [code data] w1 Hw1 _.
  set (Q := fun (ret : Z) (w' : world) => _).
  assert (forall ret w', ret ∈ [GS_ERROR; GS_IO_ERROR; GS_INVALID] -> w_calls w' = w_calls w1 -> Q ret w') as HQ.
  { intros ret w' Hr Hw. unfold Q. rewrite Hw, Hw1, Hw0. split; [by eexists|]. unfold serverinfo_codes. split; [set_solver|].
    intros ->. apply list_elem_of_In in Hr. by destruct Hr as [|[|[|[]]]]. }
  destruct (negb (code =? GS_OK)); [apply returns_ret, HQ; [set_solver|done]|].
  apply returns_calm; [apply calm_status|]. intros status w2 Hw2.
  destruct (status =? GS_ERROR); [apply returns_ret, HQ; [set_solver|done]|].
  assert (forall w', w_calls w' = w_calls w2 -> Q GS_INVALID w') as HI by (intros w' Hw'; apply HQ; [set_solver|congruence]).
  repeat match goal with
  | |- returns (need _ _) Q ?w' => apply returns_need; [calm|intros w3 Hw3; apply HI; congruence|intros ? ? ?]
  | |- returns (need_into _ _ _ _) Q ?w' => apply returns_need_into; [intros w3 Hw3; apply HI; congruence|intros ? ?]
  | |- returns (modify_server _ ≫= _) Q ?w' => apply returns_calm; [apply calm_modify|intros ? ? ?]
  | |- returns (load_optional _ ≫= _) Q ?w' => apply returns_calm; [apply calm_optional|intros ? ? ?]
  end.
  apply returns_bind. eexists _, _. split; [reflexivity|]. match goal with |- returns _ _ ?w' => rename w' into w9 end.
  destruct (_ || _) eqn:E; [apply returns_ret, HI; congruence|].
  apply orb_false_iff in E as [E _]. apply orb_false_iff in E as [_ E]. apply bool_decide_eq_false in E.
  apply returns_bind. eexists _, _. split; [reflexivity|]. apply returns_ret. unfold Q.
  split; [eexists; cbn; etransitivity; [|rewrite <- Hw0; exact Hw1]; congruence|]. split; [unfold serverinfo_codes; set_solver|].
  intros _. unfold loaded. cbn. split; [exact E|]. split; [|done].
  unfold u16. match goal with |- context [?a mod 2 ^ 16] => pose proof (Z.mod_pos_bound a (2 ^ 16) ltac:(lia)); destruct (Z.eqb_spec (a mod 2 ^ 16) 0) end; lia.
Qed.
End status_facts.

Lemma load_status_spec (env : environment) (xml : Expat) (w : world) :
  returns (load_server_status env) (fun ret w' => exists made, w_calls w' = w_calls w ++ made /\ (1 <= length made <= 3)%nat /\
    ret ∈ GS_UNSUPPORTED_VERSION :: serverinfo_codes /\ (ret = GS_OK -> loaded (w_server w') /\
      MIN_SUPPORTED_GFE_VERSION <= sd_serverMajorVersion (w_server w') <= MAX_SUPPORTED_GFE_VERSION)) w.
Proof.
  unfold load_server_status. apply returns_calm; [apply calm_get|]. intros s w0 Hw0. apply returns_bind.
  assert (returns (if sd_httpsPort s =? 0 then load_serverinfo env false else mret GS_OK) (fun ret w' => exists made,
    w_calls w' = w_calls w0 ++ made /\ (length made <= 1)%nat /\ ret ∈ serverinfo_codes /\ (ret <> GS_OK -> length made = 1%nat)) w0) as H.
  { destruct (sd_httpsPort s =? 0).
    - eapply returns_mono; [apply load_serverinfo_spec|]. intros ret w' ([c Hc] & Hr & _). exists [c]. split_and!; [done|cbn; lia|done|done].
    - apply returns_ret. exists []. rewrite app_nil_r. split_and!; [done|cbn; lia|unfold serverinfo_codes; set_solver|done]. }
  eapply returns_mono; [exact H|]. intros ret w1 (made & Hw1 & Hl & Hr & Hn). clear H. cbv beta.
  destruct (Z.eqb_spec ret GS_OK) as [->|Hne]; cbn [negb].
  2: { apply returns_ret. exists made. specialize (Hn Hne). (split; [congruence|]); (split; [lia|]); (split; [set_solver|]); done. }
  apply returns_bind. eapply returns_mono; [apply load_serverinfo_spec|]. intros ret w2 ([c Hc] & Hr2 & Hg). cbv beta. apply returns_bind.
  assert (returns (if negb (ret =? GS_OK) then load_serverinfo env false else mret ret) (fun ret w' => exists more,
    w_calls w' = w_calls w2 ++ more /\ (length more <= 1)%nat /\ ret ∈ serverinfo_codes /\ (ret = GS_OK -> loaded (w_server w'))) w2) as H.
  { destruct (Z.eqb_spec ret GS_OK) as [->|]; cbn [negb].
    - apply returns_ret. exists []. rewrite app_nil_r. split_and!; [done|cbn; lia|done|done].
    - eapply returns_mono; [apply load_serverinfo_spec|]. intros ret' w' ([c' Hc'] & Hr' & Hg'). exists [c']. split_and!; [done|cbn; lia|done|done]. }
  eapply returns_mono; [exact H|]. intros ret' w3 (more & Hw3 & Hl3 & Hr3 & Hg3). cbv beta.
  assert (exists made', w_calls w3 = w_calls w ++ made' /\ (1 <= length made' <= 3)%nat) as (made' & Hm1 & Hm2).
  { exists ((made ++ [c]) ++ more). rewrite Hw3, Hc, Hw1, Hw0, <- !app_assoc. split; [done|]. rewrite !length_app. cbn. lia. }
  destruct (Z.eqb_spec ret' GS_OK) as [->|Hne]; cbn [negb].
  2: { apply returns_ret. exists made'. (split; [done|]); (split; [lia|]); (split; [set_solver|]); done. }
  apply returns_bind. eexists _, _. split; [reflexivity|]. specialize (Hg3 eq_refl).
  destruct (Z.ltb_spec MAX_SUPPORTED_GFE_VERSION (sd_serverMajorVersion (w_server w3))).
  { apply returns_calm; [apply calm_error|]. intros _ w4 Hw4. apply returns_ret. exists made'. (split; [congruence|]); (split; [lia|]); (split; [set_solver|]); done. }
  destruct (Z.ltb_spec (sd_serverMajorVersion (w_server w3)) MIN_SUPPORTED_GFE_VERSION).
  { apply returns_calm; [apply calm_error|]. intros _ w4 Hw4. apply returns_ret. exists made'. (split; [congruence|]); (split; [lia|]); (split; [set_solver|]); done. }
  apply returns_ret. exists made'. split_and!; [done|lia|lia|unfold serverinfo_codes; set_solver|]. done.
Qed.

(** Asking a host for its status always comes to an end, after one to three
    requests whatever the host answers; and when it succeeds the record holds a
    version the client supports, a port for HTTPS, and 4K exactly when the host
    says which codecs it has. *)
Theorem server_status (env : environment) (xml : Expat) (w : world) :
  exists ret w' made, load_server_status env w = (inr ret, w') /\
    w_calls w' = w_calls w ++ made /\ (1 <= length made <= 3)%nat /\
    ret ∈ [GS_OK; GS_ERROR; GS_IO_ERROR; GS_INVALID; GS_UNSUPPORTED_VERSION] /\
    (ret = GS_OK -> loaded (w_server w') /\ MIN_SUPPORTED_GFE_VERSION <= sd_serverMajorVersion (w_server w') <= MAX_SUPPORTED_GFE_VERSION).
Proof.
  destruct (load_status_spec env xml w) as (ret & w' & E & made & H1 & H2 & H3 & H4).
  exists ret, w', made. split_and!; [done|done|lia|lia| |done]. unfold serverinfo_codes in H3. set_solver.
Qed.

(** ** The session's address *)

Lemma find_sub_first c needle pre post : c ∉ pre -> find_sub (c :: needle) (pre ++ (c :: needle) ++ post) = Some (length pre).
Proof. intros Hc. rewrite find_sub_skip, find_sub_here by done. cbn. f_equal. lia. Qed.

(** Rewriting a session URL for the local proxy replaces the host and nothing
    else: the scheme before it and the port or path after it are kept, and a URL
    without a scheme is left as it is. *)
Theorem rtsp_loopback (scheme h rest : bytes) :
  ch ":" ∉ scheme -> ch ":" ∉ h -> ch "/" ∉ h -> (rest = [] \/ head rest = Some (ch ":") \/ head rest = Some (ch "/")) ->
  rewrite_rtsp_host_to_loopback (scheme ++ bs "://" ++ h ++ rest) = scheme ++ bs "://127.0.0.1" ++ rest /\
  (find_sub (bs "://") (scheme ++ h) = None -> rewrite_rtsp_host_to_loopback (scheme ++ h) = scheme ++ h).
Proof.
  intros Hs H1 H2 Hr. split; [|by unfold rewrite_rtsp_host_to_loopback; intros ->].
  unfold rewrite_rtsp_host_to_loopback. assert (find_sub (bs "://") (scheme ++ bs "://" ++ h ++ rest) = Some (length scheme)) as ->
    by exact (find_sub_first (ch ":") [ch "/"; ch "/"] scheme (h ++ rest) Hs).
  set (url := scheme ++ bs "://" ++ h ++ rest).
  assert (take (length scheme + 3) url = scheme ++ bs "://") as Ht.
  { unfold url. rewrite app_assoc. rewrite take_app_le by (rewrite length_app; cbn; lia). apply take_ge. rewrite length_app. cbn. lia. }
  assert (drop (length scheme + 3) url = h ++ rest) as Hd.
  { unfold url. rewrite app_assoc. rewrite drop_app_ge by (rewrite length_app; cbn; lia). rewrite length_app.
    replace (length scheme + 3 - (length scheme + length (bs "://")))%nat with 0%nat by (cbn; lia). done. }
  rewrite Hd. assert (drop match find_first_of (bs ":/") (h ++ rest) with Some k => (length scheme + 3 + k)%nat | None => length url end url = rest) as Hf.
  2: { unfold substr, substr_from. rewrite drop_0, Ht, Hf. by rewrite <- app_assoc. }
  assert (Forall (fun x => bool_decide (x ∈ bs ":/") = false) h) as Hh.
  { apply list.Forall_forall. intros x Hx. apply bool_decide_false. cbn. rewrite !elem_of_cons, elem_of_nil.
    intros [->|[->|[]]]; [by destruct H1|by destruct H2]. }
  destruct rest as [|c rest].
  - rewrite app_nil_r in *. unfold find_first_of. rewrite (proj2 (find_if_None _ _)) by done. apply drop_ge. lia.
  - unfold find_first_of. rewrite find_if_app_r by (done || (apply bool_decide_true; destruct Hr as [|[[= ->]|[= ->]]]; [done| |]; set_solver)).
    rewrite <- drop_drop, Hd. apply drop_app_length.
Qed.
Lemma rtsp_loopback_witness :
  rewrite_rtsp_host_to_loopback (bs "rtspenc" ++ bs "://" ++ bs "100.64.0.7" ++ bs ":48010") = bs "rtspenc://127.0.0.1:48010".
Proof.
  apply (rtsp_loopback (bs "rtspenc") (bs "100.64.0.7") (bs ":48010")).
  - by apply (bool_decide_eq_false_1 (ch ":" ∈ bs "rtspenc")).
  - by apply (bool_decide_eq_false_1 (ch ":" ∈ bs "100.64.0.7")).
  - by apply (bool_decide_eq_false_1 (ch "/" ∈ bs "100.64.0.7")).
  - right. left. reflexivity.
Defined.

(** An IPv6 literal has colons of its own: the host's first group goes, the rest
    of it stays. *)
Lemma rtsp_ipv6 : rewrite_rtsp_host_to_loopback (bs "rtsp://[fe80::1]:48010") = bs "rtsp://127.0.0.1::1]:48010".
Proof. reflexivity. Qed.

(** ** Starting an application *)

Section launching.
Context (env : environment) `{lib : MbedTLS} `{xml : Expat}.

(** What [http_request] hands over for a request made after those: its code and
    the body. *)
Definition host_reply (before : list http_call) (call : http_call) : Z * bytes :=
  let r := http_request (env_strerror env) (hc_options call) (env_host env before call) false in
  (hr_code r, default [] (hr_data r)).

Lemma send_plain_reply url timeout w :
  let call := {| hc_url := url; hc_timeout := timeout; hc_options := default_options |} in exists w',
  send_plain env url timeout w = (inr (host_reply (w_calls w) call), w') /\ w_server w' = w_server w /\ w_calls w' = w_calls w ++ [call].
Proof.
  cbv zeta. unfold send_plain, host_reply. set (call := {| hc_url := url; hc_timeout := timeout; hc_options := default_options |}).
  pose proof (send_calls env false url timeout default_options w) as Hc. fold call in Hc.
  assert ((send env false url timeout default_options w).1 =
    let r := http_request (env_strerror env) default_options (env_host env (w_calls w) call) false in
    inr (hr_code r, hr_data r, hr_info r)) as Hr by (unfold send; fold call; reflexivity).
  destruct (send env false url timeout default_options w) as [r w'] eqn:E. destruct Hc as (Hs & Hc & _). cbn [fst] in Hr.
  subst r. exists w'. split; [|done]. by erewrite bind_inr by exact E.
Qed.

(** What the three readers of a reply return; they leave the record alone. *)
Lemma lift_xml_result {A} (r : Z * A * option bytes) w :
  exists w', lift_xml r w = (inr r.1, w') /\ w_server w' = w_server w /\ w_calls w' = w_calls w.
Proof. destruct r as [[code a] [e|]]; by eexists. Qed.
Lemma status_result data w : exists w',
  status_of data w = (inr (xml_status data).1, w') /\ w_server w' = w_server w /\ w_calls w' = w_calls w.
Proof.
  unfold status_of. destruct (xml_status data) as [code error].
  destruct (lift_xml_result (code, tt, error) w) as (w'&E&?&?). exists w'. split; [|done]. by erewrite bind_inr by exact E.
Qed.
Lemma search_result data node w : exists w',
  search data node w = (inr (xml_search data (bs node)).1.2, w') /\ w_server w' = w_server w /\ w_calls w' = w_calls w.
Proof.
  unfold search. destruct (lift_xml_result (xml_search data (bs node)) w) as (w'&E&?&?). exists w'. split; [|done].
  erewrite bind_inr by exact E. by destruct (xml_search data (bs node)) as [[code text] error].
Qed.

(** A reply that grants the session: its status is good, its [gamesession] is not
    [0], and [sessionUrl0] is the address. *)
Definition granted (data session url : bytes) : Prop :=
  (xml_status data).1 = GS_OK /\ (xml_search data (bs "gamesession")).1.2 = Some session /\ session <> bs "0" /\
  (xml_search data (bs "sessionUrl0")).1.2 = Some url.

(** A reply one field was read from can be read again. *)
Lemma search_parsed data node text other : (xml_search data node).1.2 = Some text ->
  exists t, (xml_search data other).1.2 = Some t.
Proof.
  unfold xml_search. destruct (xml_parse data) as [events [e|]]; destruct (foldl _ _ events); [done|].
  intros _. destruct (foldl (search_step other) (0, []) events) as [start m]. by eexists.
Qed.

(** The outcome of a start whose request was answered with this code and body:
    an error leaves the record; any reply makes the application the one running;
    one that grants the session, and no other, is a success and gives its address. *)
Definition started (s : SERVER_DATA) (appId code : Z) (data : bytes) (ret : Z) (s' : SERVER_DATA) : Prop :=
  (code <> GS_OK /\ ret = code /\ s' = s) \/
  (code = GS_OK /\ ret <> GS_OK /\ s' = set_currentGame appId s /\ forall session url, ~ granted data session url) \/
  (code = GS_OK /\ ret = GS_OK /\ exists session url, granted data session url /\
     s' = set_currentGame appId (set_serverInfo
       (set_rtsp (if is_proxied_session s then rewrite_rtsp_host_to_loopback url else url) (sd_serverInfo s)) s)).

Lemma started_server data s appId c w : w_server w = s ->
  returns (modify_server (set_currentGame appId) ;; status ← status_of data;
    if negb (status =? GS_OK) then mret (1, c)
    else session ← search data "gamesession";
      match session with
      | None => mret (GS_INVALID, c)
      | Some result =>
          if bool_decide (result = bs "0") then mret (GS_FAILED, c)
          else url ← search data "sessionUrl0";
            match url with
            | Some u => modify_server (fun s => set_serverInfo (set_rtsp
                (if is_proxied_session s then rewrite_rtsp_host_to_loopback u else u) (sd_serverInfo s)) s)
            | None => mret tt
            end ;; mret (GS_OK, c)
      end) (fun (r : Z * StreamConfiguration) w' => r.2 = c /\ w_calls w' = w_calls w /\ started s appId GS_OK data r.1 (w_server w')) w.
Proof.
  intros Hs. apply returns_bind. eexists _, _. split; [reflexivity|]. set (w1 := with_server _ w).
  assert (w_server w1 = set_currentGame appId s) as S1 by (unfold w1; cbn; by rewrite Hs).
  assert (w_calls w1 = w_calls w) as C1 by done. clearbody w1.
  assert (forall ret w', ret <> GS_OK -> w_calls w' = w_calls w -> w_server w' = set_currentGame appId s ->
    (forall session url, ~ granted data session url) ->
    returns (mret (ret, c)) (fun (r : Z * StreamConfiguration) w' => r.2 = c /\ w_calls w' = w_calls w /\ started s appId GS_OK data r.1 (w_server w')) w') as Hbad.
  { intros ret w' Hr Hw S Hg. apply returns_ret. split_and!; [done|done|]. right; left. by split_and!. }
  destruct (status_result data w1) as (w2&E2&S2&C2). apply returns_bind. exists (xml_status data).1, w2. split; [done|].
  destruct (Z.eqb_spec (xml_status data).1 GS_OK) as [Est|Hst]; cbn [negb];
    [|apply Hbad; [done|congruence|congruence|by intros ? ? [? _]]].
  destruct (search_result data "gamesession" w2) as (w3&E3&S3&C3). apply returns_bind. eexists _, w3. split; [done|].
  destruct ((xml_search data (bs "gamesession")).1.2) as [session|] eqn:Eg;
    [|apply Hbad; [done|congruence|congruence|intros ? ? (_&Hg&_); congruence]].
  case_bool_decide as H0; [apply Hbad; [done|congruence|congruence|intros ? ? (_&Hg&Hn&_); congruence]|].
  destruct (search_parsed _ _ _ (bs "sessionUrl0") Eg) as [url Eu].
  destruct (search_result data "sessionUrl0" w3) as (w4&E4&S4&C4). rewrite Eu in E4. apply returns_bind. exists (Some url), w4. split; [done|].
  apply returns_bind. eexists _, _. split; [reflexivity|]. apply returns_ret. cbn [fst snd]. split_and!; [done|cbn; congruence|].
  right; right. split; [done|]. split; [done|]. exists session, url. split; [by split_and!|].
  unfold with_server. cbn [w_server]. by rewrite S4, S3, S2, S1.
Qed.

Lemma apollo_query_refuses s options code message : apollo_query s options = inl (code, message) -> code <> GS_OK.
Proof. unfold apollo_query. destruct options as [o|]; [|done]. repeat case_match; try done; by intros [= <- _]. Qed.
End launching.


(** ** Connecting *)

Section connecting.
Context (env : environment) `{xml : Expat}.

Lemma returns_probe {B} url (k : option bytes -> M B) (Q : B -> world -> Prop) w :
  (forall body w', (exists c, w_calls w' = w_calls w ++ [c]) -> w_server w' = w_server w -> returns (k body) Q w') ->
  returns (getProbe env url ≫= k) Q w.
Proof.
  intros Hk. apply returns_bind. unfold getProbe. apply returns_bind.
  pose proof (send_calls env false url HTTPRequestTimeoutLow probe_options w) as Hc.
  destruct (send env false url HTTPRequestTimeoutLow probe_options w) as [r w'] eqn:E. destruct Hc as (Hs & Hc & [[[code body] info] ->]).
  eexists (_, _, _), w'. split; [done|]. apply returns_ret. apply Hk; [by eexists|done].
Qed.

Lemma punktfunk_kind body i : parsePunktfunkHealth body = Some i -> id_kind i <> Unknown.
Proof. unfold parsePunktfunkHealth. repeat case_match; try done. by intros [= <-]. Qed.
Lemma vibeshine_kind body i : parseVibeshineWebUi body = Some i -> id_kind i <> Unknown.
Proof. unfold parseVibeshineWebUi. case_match; [done|]. by intros [= <-]. Qed.
Lemma detect_known m : hc_kind (detect m) <> Unknown.
Proof. unfold detect, with_extensions. repeat case_match; done. Qed.

(** At most [n] more requests, the record as it was, and a kind of host found. *)
Definition found (n : nat) (w : world) (o : option HostIdentity) (w' : world) : Prop :=
  (exists made, w_calls w' = w_calls w ++ made /\ (length made <= n)%nat) /\ w_server w' = w_server w /\
  forall i, o = Some i -> id_kind i <> Unknown.

Lemma found_after n w w1 o w' : found n w1 o w' -> (exists c, w_calls w1 = w_calls w ++ [c]) -> w_server w1 = w_server w -> found (S n) w o w'.
Proof.
  intros ((made & Hm & Hl) & Hs & Hi) [c Hc] Hw. split; [|split; [congruence|done]].
  exists (c :: made). rewrite Hm, Hc, <- app_assoc. split; [done|cbn; lia].
Qed.

Lemma punktfunk_spec address w : returns (probePunktfunkIdentity env address) (found 1 w) w.
Proof.
  assert (forall o, (forall i, o = Some i -> id_kind i <> Unknown) -> found 0 w o w) as H0.
  { intros o Ho. split; [exists []; by rewrite app_nil_r|]. done. }
  unfold probePunktfunkIdentity. case_bool_decide.
  - apply returns_ret. split; [exists []; rewrite app_nil_r; split; [done|cbn; lia]|done].
  - apply returns_probe. intros body w' [c Hc] Hs. apply returns_ret. split; [exists [c]; split; [done|cbn; lia]|]. split; [done|].
    destruct body; [|done]. apply punktfunk_kind.
Qed.

Lemma probe_spec address hint w : returns (probeHostIdentity env address hint) (found 2 w) w.
Proof.
  unfold probeHostIdentity. case_bool_decide.
  { apply returns_ret. split; [exists []; rewrite app_nil_r; split; [done|cbn; lia]|done]. }
  destruct hint.
  - apply returns_bind. apply returns_probe. intros body w1 Hc Hs. apply returns_ret.
    destruct (b ← body; parseVibeshineWebUi b) as [i|] eqn:E.
    + apply returns_ret. destruct Hc as [c Hc]. split; [exists [c]; split; [done|cbn; lia]|]. split; [done|].
      intros i' [= <-]. destruct body; [|done]. by eapply vibeshine_kind.
    + eapply returns_mono; [apply punktfunk_spec|]. intros o w' Ho. by eapply found_after.
  - apply returns_bind, returns_ret. eapply returns_mono; [apply punktfunk_spec|].
    intros o w' ((made & Hm & Hl) & Hr). split; [exists made; split; [done|lia]|done].
Qed.

Lemma identify_spec w : returns (identify env) (fun _ w' => exists made i, w_calls w' = w_calls w ++ made /\
  (length made <= 2)%nat /\ w_server w' = set_hostIdentity i (w_server w) /\ id_kind i <> Unknown) w.
Proof.
  unfold identify. apply returns_bind. eexists _, _. split; [reflexivity|]. set (m := detect _).
  apply returns_bind. eexists _, _. split; [reflexivity|]. set (w1 := with_server _ w).
  assert (id_kind (identityFor (hc_kind m)) <> Unknown) as Hm by (pose proof (detect_known
    {| hm_appVersion := sd_serverInfoAppVersion (w_server w); hm_gfeVersion := sd_serverInfoGfeVersion (w_server w);
       hm_gsVersion := sd_gsVersion (w_server w); hm_advertisedExtensions := [] |}) as Hd; fold m in Hd; cbn; done).
  case_bool_decide.
  2: { apply returns_ret. exists [], (identityFor (hc_kind m)). rewrite app_nil_r. split_and!; [done|cbn; lia|done|done]. }
  apply returns_bind. eapply returns_mono; [apply probe_spec|]. intros o w' ((made & Hc & Hl) & Hs & Hi). cbv beta.
  destruct o as [i|].
  - eexists _, _. split; [reflexivity|]. exists made, i. split_and!; [done|done| |by apply Hi].
    cbn [with_server w_server]. rewrite Hs. done.
  - destruct (_ || _).
    + eexists _, _. split; [reflexivity|]. exists made, (identityFor Apollo). split_and!; [done|done| |done].
      cbn [with_server w_server]. rewrite Hs. done.
    + apply returns_ret. exists made, (identityFor (hc_kind m)). split_and!; [done|done| |done]. by rewrite Hs.
Qed.
End connecting.

(** What connecting does; [init_outcome] is its account. *)
Lemma init_spec (env : environment) (xml : Expat) (has_certificate : bool) (address : bytes) (w : world) :
  exists ret w' made, gs_init env has_certificate address w = (inr ret, w') /\ w_calls w' = w_calls w ++ made /\
    (length made <= 5)%nat /\
    (host (parse_host_address address) = [] \/ has_certificate = false -> ret = GS_FAILED /\ made = []) /\
    (ret = GS_OK -> loaded (w_server w') /\ id_kind (sd_hostIdentity (w_server w')) <> Unknown /\
       MIN_SUPPORTED_GFE_VERSION <= sd_serverMajorVersion (w_server w') <= MAX_SUPPORTED_GFE_VERSION).
Proof.
  unfold gs_init. case_bool_decide as Eh.
  { exists GS_FAILED, (with_error (bs "Address is Empty") w), []. rewrite app_nil_r. split_and!; [done|done|cbn; lia|done|done]. }
  destruct has_certificate; cbn [negb].
  2: { exists GS_FAILED, w, []. rewrite app_nil_r. split_and!; [done|done|cbn; lia|done|done]. }
  set (w1 := with_server (set_endpoint (host (parse_host_address address)) (server_at (host (parse_host_address address)))
    (default 47989 (port (parse_host_address address))) (w_server w)) w).
  rewrite (bind_inr _ _ w tt w1) by done.
  destruct (load_status_spec env xml w1) as (ret & w2 & E & made & Hc & Hl & Hr & Hg). rewrite (bind_inr _ _ _ _ _ E).
  assert (returns (if ret =? GS_OK then identify env else mret tt) (fun _ w' => exists more, w_calls w' = w_calls w2 ++ more /\
    (length more <= 2)%nat /\ (ret = GS_OK -> exists i, w_server w' = set_hostIdentity i (w_server w2) /\ id_kind i <> Unknown)) w2)
    as ([] & w3 & E3 & more & Hc3 & Hl3 & Hi).
  { destruct (Z.eqb_spec ret GS_OK).
    - eapply returns_mono; [apply identify_spec|]. intros _ w' (more & i & H1 & H2 & H3). exists more. eauto.
    - apply returns_ret. exists []. rewrite app_nil_r. split_and!; [done|cbn; lia|done]. }
  rewrite (bind_inr _ _ _ _ _ E3). eexists ret, _, (made ++ more). split; [reflexivity|]. split_and!.
  - cbn. by rewrite Hc3, Hc, <- app_assoc.
  - rewrite length_app. lia.
  - by intros [?|?].
  - intros ->. destruct (Hi eq_refl) as (i & Hs & Hk). destruct (Hg eq_refl) as [Hld Hv]. cbn [w_server with_server].
    rewrite Hs. done.
Qed.

(** C33: connecting to a host always comes back, after at most five requests: none
    when the address names no host or there is no certificate; and when it
    succeeds the record is loaded, its version is one the client supports, and
    the kind of the host is known. *)
Theorem init_outcome (env : environment) (xml : Expat) (has_certificate : bool) (address : bytes) (w : world) :
  exists ret w' made, gs_init env has_certificate address w = (inr ret, w') /\ w_calls w' = w_calls w ++ made /\
    (length made <= 5)%nat /\
    (host (parse_host_address address) = [] \/ has_certificate = false -> ret = GS_FAILED /\ made = []) /\
    (ret = GS_OK -> loaded (w_server w') /\ id_kind (sd_hostIdentity (w_server w')) <> Unknown /\
       MIN_SUPPORTED_GFE_VERSION <= sd_serverMajorVersion (w_server w') <= MAX_SUPPORTED_GFE_VERSION).
Proof. apply init_spec. Qed.

(** ** Replies *)

Definition info_doc (state : string) : node :=
  Elem (bs "root") [(bs "status_code", bs "200")]
    (field_node <$> [(bs "currentgame", bs "7"); (bs "PairStatus", bs "1"); (bs "appversion", bs "7.1.431.-1"); (bs "state", bs state);
      (bs "ServerCodecModeSupport", bs "259"); (bs "hostname", bs "pc"); (bs "HttpsPort", bs "47984"); (bs "mac", bs "00:11")]).

(** The application of a host that streams nothing counts as running, and the
    one of a host whose state is exactly [_SERVER_BUSY] does not. *)
Lemma idle_host_keeps_game :
  let run state := @load_serverinfo (toy_env (fun _ => false)) (toy_expat [info_doc state]) true (toy_world toy_server) in
  (run "SUNSHINE_SERVER_FREE").1 = inr GS_OK /\ sd_currentGame (w_server (run "SUNSHINE_SERVER_FREE").2) = 7 /\
  sd_currentGame (w_server (run "_SERVER_BUSY").2) = 0.
Proof. vm_compute. done. Qed.

Definition ex_stream : StreamConfiguration :=
  {| st_width := 1280; st_height := 720; st_fps := 60; st_clientRefreshRateX100 := 0; st_stereo := true; st_remoteInputAesKey := [] |}.

(** A launch the host refuses leaves its application as the one running: the next
    try is a resume. *)
Lemma refused_launch_resumes :
  let r := @gs_start_app (toy_env (fun _ => false)) (toy_expat [Elem (bs "root") [(bs "status_code", bs "503")] []]) ex_stream 42 false false 1 None
    (toy_world toy_server) in
  r.1 = inr (1, with_key (st_remoteInputAesKey (with_key (random_bytes (fun seed i => seed + Z.of_nat i) 1700000000 16) ex_stream)) ex_stream) /\
  sd_currentGame (w_server r.2) = 42 /\
  starts_with (https_base toy_server "/resume?") (start_url (toy_env (fun _ => false)) (w_server r.2) ex_stream 42 false false 1 [] []) = true.
Proof. vm_compute. done. Qed.

(** A reply with no session address: the address becomes the empty string. *)
Lemma missing_session_url :
  let r := @gs_start_app (toy_env (fun _ => false)) (toy_expat [reply_doc [(bs "gamesession", bs "1")]]) ex_stream 42 false false 1 None
    (toy_world toy_server) in
  (exists c, r.1 = inr (GS_OK, c)) /\ si_rtspSessionUrl (sd_serverInfo (w_server r.2)) = Some [].
Proof. vm_compute. eauto. Qed.
