(* ===== verification/Jansson.v ===== *)
(** What the application uses of jansson (not part of the repository): its
    values, and the calls that build and take them apart. The text of a value is
    the interface [Jansson]: [json_dumps] and [json_loads], whose law is that a
    value that can be stored is read back - with the keys of its objects in order,
    if they were sorted. *)

From Stdlib Require Import SpecFloat.
From S2P Require Import Prelude Text CText Double.

#[local] Set Warnings "-register-all,-clear-no-such-hyp".

Inductive value :=
| VObject (fields : list (bytes * value))
| VArray (items : list value)
| VString (s : bytes)
| VInteger (n : Z)
| VReal (d : double)
| VTrue
| VFalse
| VNull.

(** [json_true()] or [json_false()]. *)
Definition json_boolean (b : bool) : value := if b then VTrue else VFalse.

(** ** Objects *)

Definition field := (bytes * value)%type.
Fixpoint lookup_field (key : bytes) (fields : list field) : option value :=
  match fields with
  | [] => None
  | (k, v) :: rest => if bool_decide (k = key) then Some v else lookup_field key rest
  end.
(** A key that is there keeps its place. *)
Fixpoint set_field (key : bytes) (v : value) (fields : list field) : list field :=
  match fields with
  | [] => [(key, v)]
  | (k, x) :: rest => if bool_decide (k = key) then (k, v) :: rest else (k, x) :: set_field key v rest
  end.

Definition json_object_get (key : string) (v : value) : option value :=
  match v with VObject fields => lookup_field (bs key) fields | _ => None end.

(** The test and the value that follows it. *)
Definition get_string (key : string) (v : value) : option bytes :=
  match json_object_get key v with Some (VString s) => Some s | _ => None end.
Definition get_integer (key : string) (v : value) : option Z :=
  match json_object_get key v with Some (VInteger n) => Some n | _ => None end.
Definition get_object (key : string) (v : value) : option (list field) :=
  match json_object_get key v with Some (VObject l) => Some l | _ => None end.
Definition get_array (key : string) (v : value) : option (list value) :=
  match json_object_get key v with Some (VArray l) => Some l | _ => None end.
(** [json_is_true] of a key that is there; [json_is_boolean] as well. *)
Definition get_true (key : string) (v : value) : option bool :=
  match json_object_get key v with Some VTrue => Some true | Some _ => Some false | None => None end.
Definition get_boolean (key : string) (v : value) : option bool :=
  match json_object_get key v with Some VTrue => Some true | Some VFalse => Some false | _ => None end.

(** [json_number_value] converts an integer. *)
Definition get_number (key : string) (v : value) : option double :=
  match json_object_get key v with Some (VReal d) => Some d | Some (VInteger n) => Some (dbl n) | _ => None end.

(** ** Order of the keys *)

Fixpoint lex_le (a b : bytes) : bool :=
  match a, b with
  | [], _ => true
  | _ :: _, [] => false
  | x :: a, y :: b => if ub x <? ub y then true else if ub y <? ub x then false else lex_le a b
  end.
Fixpoint insert_field (f : field) (l : list field) : list field :=
  match l with [] => [f] | x :: rest => if lex_le f.1 x.1 then f :: l else x :: insert_field f rest end.
Definition sort_fields (l : list field) : list field := foldr insert_field [] l.
(** What [JSON_SORT_KEYS] does to a value. *)
Fixpoint sorted (v : value) : value :=
  match v with
  | VObject l => VObject (sort_fields (map (fun f => (f.1, sorted f.2)) l))
  | VArray l => VArray (map sorted l)
  | v => v
  end.

(** ** Text *)

Definition no_nul (s : bytes) : Prop := Init.Byte.x00 ∉ s.

Class Jansson := {
  utf8_check : bytes -> bool;
  json_dumps : bool -> value -> bytes;
  json_loads : bytes -> option value;
}.

(** A double of the hardware. *)
Definition is_double (d : double) : Prop := SpecFloat.valid_binary 53 1024 d = true /\ isfinite d = true.

Section jansson.
Context `{lib : Jansson}.

Definition json_string (s : bytes) : option value := let s := c_str s in if utf8_check s then Some (VString s) else None.
Definition json_real (d : double) : option value := if isfinite d then Some (VReal d) else None.

(** Nothing is set when there is no value, or the key is not UTF-8. *)
Definition json_object_set_new (key : bytes) (v : option value) (fields : list field) : list field :=
  let key := c_str key in
  match v with Some v => if utf8_check key then set_field key v fields else fields | None => fields end.
Definition json_array_append_new (v : option value) (items : list value) : list value :=
  match v with Some v => items ++ [v] | None => items end.

Definition text_ok (s : bytes) : Prop := utf8_check s = true /\ no_nul s.

(** A value whose text is read back: texts are UTF-8, keys are distinct, numbers
    are in range, and it is at most [n] deep. *)
Fixpoint storable (n : nat) (v : value) : Prop :=
  match v with
  | VObject l => match n with O => False | S n => NoDup l.*1 /\ Forall (fun f => text_ok f.1) l /\ foldr (fun f P => storable n f.2 /\ P) True l end
  | VArray l => match n with O => False | S n => foldr (fun v P => storable n v /\ P) True l end
  | VString s => text_ok s
  | VInteger z => - 2 ^ 63 <= z < 2 ^ 63
  | VReal d => is_double d
  | VTrue | VFalse | VNull => True
  end.
End jansson.

(** jansson's parser stops at a depth of 2048. *)
Definition JSON_PARSER_MAX_DEPTH : nat := 2048.

Class JanssonLaws `{Jansson} : Prop := {
  utf8_ascii s : Forall (fun b => ub b < 128) s -> utf8_check s = true;
  loads_dumps n v : (n <= JSON_PARSER_MAX_DEPTH)%nat -> storable n v -> json_loads (json_dumps false v) = Some v;
  loads_sorted n v : (n <= JSON_PARSER_MAX_DEPTH)%nat -> storable n v -> json_loads (json_dumps true v) = Some (sorted v);
}.

(** ** Lookup *)

Lemma lookup_set key v l k : lookup_field k (set_field key v l) = if bool_decide (key = k) then Some v else lookup_field k l.
Proof.
  induction l as [|[k' x] l IH]; cbn [set_field lookup_field]; [done|].
  destruct (decide (k' = key)) as [->|Hne]; [rewrite bool_decide_true by done|rewrite (bool_decide_false (k' = key)) by done]; cbn [lookup_field].
  - by destruct (bool_decide (key = k)).
  - rewrite IH. destruct (decide (key = k)) as [->|]; [|by rewrite (bool_decide_false (key = k)) by done].
    by rewrite (bool_decide_true (k = k)), (bool_decide_false (k' = k)) by done.
Qed.
Lemma lookup_field_elem k v l : NoDup l.*1 -> lookup_field k l = Some v <-> (k, v) ∈ l.
Proof.
  induction l as [|[k' x] l IH]; intros Hn; [split; [done|intros H; inversion H]|].
  apply list.NoDup_cons in Hn as [H1 H2]. cbn. case_bool_decide; subst.
  - split; [intros [= ->]; by left|]. intros [[= ->]|Hin]%elem_of_cons; [done|]. destruct H1. apply list_elem_of_fmap. by exists (k, v).
  - rewrite (IH H2), elem_of_cons. naive_solver.
Qed.
Lemma lookup_field_perm k l l' : NoDup l.*1 -> l ≡ₚ l' -> lookup_field k l = lookup_field k l'.
Proof.
  intros Hn Hp. assert (NoDup l'.*1) as Hn' by (by rewrite <- Hp). apply option_eq. intros v.
  rewrite !lookup_field_elem by done. by rewrite Hp.
Qed.

Lemma insert_field_perm f l : insert_field f l ≡ₚ f :: l.
Proof. induction l as [|x l IH]; cbn; [done|]. destruct (lex_le _ _); [done|]. rewrite IH. apply Permutation_swap. Qed.
Lemma sort_fields_perm l : sort_fields l ≡ₚ l.
Proof. induction l as [|x l IH]; cbn; [done|]. by rewrite insert_field_perm, IH. Qed.

Lemma lookup_map_field k (f : value -> value) l : lookup_field k (map (fun x => (x.1, f x.2)) l) = f <$> lookup_field k l.
Proof. induction l as [|[k' x] l IH]; cbn; [done|]. by case_bool_decide. Qed.

Lemma fst_map (f : value -> value) (l : list field) : (map (fun x => (x.1, f x.2)) l).*1 = l.*1.
Proof. induction l as [|x l IH]; cbn; [done|]. by f_equal. Qed.

(** Sorting changes no lookup. *)
Lemma lookup_sorted k l : NoDup l.*1 -> lookup_field k (sort_fields (map (fun f => (f.1, sorted f.2)) l)) = sorted <$> lookup_field k l.
Proof.
  intros Hn. rewrite <- lookup_map_field. symmetry. apply lookup_field_perm; [by rewrite fst_map|]. symmetry. apply sort_fields_perm.
Qed.

(** The object read back from a dump, sorted or not, answers as the one dumped. *)
Definition back (sort : bool) (v : value) : value := if sort then sorted v else v.

Lemma get_back sort key l : NoDup l.*1 -> json_object_get key (back sort (VObject l)) = back sort <$> lookup_field (bs key) l.
Proof. intros Hn. destruct sort; cbn; [by apply lookup_sorted|]. by destruct (lookup_field _ _). Qed.

(** ** Texts and keys *)

Lemma c_str_no_nul s : no_nul s -> c_str s = s.
Proof.
  intros Hz. apply take_while_all, list.Forall_forall. intros b Hb. apply negb_true_iff, bool_decide_eq_false. by intros ->.
Qed.
Lemma string_ok `{Jansson} s : text_ok s -> json_string s = Some (VString s).
Proof. intros [Hu Hz]. unfold json_string. by rewrite c_str_no_nul, Hu. Qed.
Lemma set_ok `{Jansson} k v l : text_ok k -> json_object_set_new k (Some v) l = set_field k v l.
Proof. intros [Hu Hz]. unfold json_object_set_new. by rewrite c_str_no_nul, Hu. Qed.

(** The keys of the source are printable ASCII. *)
Definition literal (k : bytes) : bool := forallb (fun b => (0 <? ub b) && (ub b <? 128)) k.
Lemma literal_ok `{JanssonLaws} k : literal k = true -> text_ok k.
Proof.
  intros Hk. unfold literal in Hk. rewrite forallb_forall in Hk. split.
  - apply utf8_ascii, list.Forall_forall. intros b Hb%list_elem_of_In. specialize (Hk b Hb). lia.
  - intros Hz%list_elem_of_In. specialize (Hk _ Hz). done.
Qed.
Lemma set_literal `{JanssonLaws} k v l : literal (bs k) = true -> json_object_set_new (bs k) (Some v) l = set_field (bs k) v l.
Proof. intros Hk. by apply set_ok, literal_ok. Qed.

(** ** A concrete text *)

(** A value as a tree, and the tree as the digits of a number: an instance of the
    interface, for the examples. *)
Abbreviation leaf := (bytes + (Z + spec_float))%type.
#[export] Instance spec_float_eq_dec : EqDecision spec_float.
Proof. solve_decision. Defined.
#[export] Program Instance spec_float_countable : Countable spec_float :=
  inj_countable' (fun d => match d with
      | S754_zero s => inl (inl s) | S754_infinity s => inl (inr s) | S754_nan => inr (inl tt) | S754_finite s m e => inr (inr (s, m, e)) end)
    (fun t => match t with
      | inl (inl s) => S754_zero s | inl (inr s) => S754_infinity s | inr (inl _) => S754_nan | inr (inr (s, m, e)) => S754_finite s m e end) _.
Next Obligation. by intros []. Qed.

Fixpoint to_tree (v : value) : gen_tree leaf :=
  match v with
  | VObject l => GenNode 0 (concat (map (fun f => [GenLeaf (inl f.1); to_tree f.2]) l))
  | VArray l => GenNode 1 (map to_tree l)
  | VString s => GenLeaf (inl s)
  | VInteger z => GenLeaf (inr (inl z))
  | VReal d => GenLeaf (inr (inr d))
  | VTrue => GenNode 2 []
  | VFalse => GenNode 3 []
  | VNull => GenNode 4 []
  end.
Fixpoint of_tree (t : gen_tree leaf) : value :=
  match t with
  | GenLeaf (inl s) => VString s
  | GenLeaf (inr (inl z)) => VInteger z
  | GenLeaf (inr (inr d)) => VReal d
  | GenNode 0 ts =>
      VObject ((fix fields (ts : list (gen_tree leaf)) : list field :=
        match ts with GenLeaf (inl k) :: t :: rest => (k, of_tree t) :: fields rest | _ => [] end) ts)
  | GenNode 1 ts => VArray (map of_tree ts)
  | GenNode 2 _ => VTrue
  | GenNode 3 _ => VFalse
  | GenNode _ _ => VNull
  end.

Fixpoint of_to_tree (v : value) : of_tree (to_tree v) = v.
Proof.
  destruct v as [l|l|s|z|d| | |]; [| |exact eq_refl..]; cbn.
  - apply (f_equal VObject). induction l as [|[k v] l IH]; [exact eq_refl|]. cbn. rewrite of_to_tree, IH. exact eq_refl.
  - apply (f_equal VArray). induction l as [|v l IH]; [exact eq_refl|]. cbn. rewrite of_to_tree, IH. exact eq_refl.
Qed.

Definition digits (p : positive) : bytes := positive_rec (fun _ => bytes) (fun _ l => u8 49 :: l) (fun _ l => u8 48 :: l) [] p.
Fixpoint undigits (l : bytes) : positive :=
  match l with [] => 1 | b :: rest => if bool_decide (b = u8 49) then (undigits rest)~1 else (undigits rest)~0 end.
Lemma undigits_digits p : undigits (digits p) = p.
Proof. induction p as [p IH|p IH|]; [| |done]; cbn; by f_equal. Qed.

#[local] Instance toy_jansson : Jansson := {|
  utf8_check := fun _ => true;
  json_dumps := fun sort v => digits (encode (to_tree (if sort then sorted v else v)));
  json_loads := fun text => of_tree <$> decode (undigits text);
|}.
Lemma toy_jansson_laws : JanssonLaws.
Proof. split; [done| |]; intros n v _ _; cbn; rewrite undigits_digits, decode_encode; cbn; by rewrite of_to_tree. Qed.
