(* ===== verification/JsonFile.v ===== *)
(** How the settings of [src/app/src/features] and the stream profiles reach the
    disk: [dumpAtomically] (the same function in [WakeOnLanOverridesStore.cpp],
    [ApolloHostOptionsStore.cpp], [DisplayTransformStore.cpp] and, as [atomicDump],
    in [InputSettingsStore.cpp]) and [json_dump_file] in place, with every state
    the files pass through; and the interface [Store] of the classes that keep
    their settings in one such file. *)

From S2P Require Import Prelude Text CText Double Jansson.

(** ** Files *)

(** A store's file, and the [.tmp] and [.bak] beside it. *)
Record disk := { dst : option bytes; tmp : option bytes; bak : option bytes }.
Definition with_dst (c : option bytes) (d : disk) : disk := {| dst := c; tmp := tmp d; bak := bak d |}.
Definition with_tmp (c : option bytes) (d : disk) : disk := {| dst := dst d; tmp := c; bak := bak d |}.
Definition with_bak (c : option bytes) (d : disk) : disk := {| dst := dst d; tmp := tmp d; bak := c |}.

(** The calls that can fail; a write that does leaves [written] bytes. *)
Inductive file_call := OpenFile | WriteFile | Replace | RemoveOld | MoveAway | MoveIn | MoveBack | RemoveBackup.
Record outcome := { succeeds : file_call -> bool; written : nat }.

(** [json_dump_file]: the states of the one file, and whether it worked. *)
Definition json_dump_file (o : outcome) (text : bytes) (old : option bytes) : list (option bytes) * bool :=
  if negb (succeeds o OpenFile) then ([old], false)
  else
    let partial := (fun n => Some (take n text)) <$> seq 0 (S (length text)) in
    if succeeds o WriteFile then (old :: partial ++ [Some text], true)
    else (old :: partial ++ [Some (take (written o) text)], false).

(** The end of [dumpAtomically]: the new file goes where there is none. *)
Definition put_back (o : outcome) (d : disk) : disk :=
  match bak d with
  | Some b => if succeeds o MoveBack then {| dst := Some b; tmp := tmp d; bak := None |} else d
  | None => d
  end.
Definition move_in (o : outcome) (trace : list disk) (d : disk) : list disk * bool :=
  if succeeds o MoveIn then
    let d1 := {| dst := tmp d; tmp := None; bak := bak d |} in
    (trace ++ [d1; if succeeds o RemoveBackup then with_bak None d1 else d1], true)
  else (trace ++ [put_back o d], false).

(** The states the files pass through, in order, and the result. A rename
    replaces its target. *)
Definition dumpAtomically (o : outcome) (text : bytes) (d : disk) : list disk * bool :=
  let '(files, dumped) := json_dump_file o text (tmp d) in
  let trace := (fun c => with_tmp c d) <$> files in
  if negb dumped then (trace, false)
  else
    let d1 := with_tmp (Some text) d in
    if succeeds o Replace then (trace ++ [{| dst := tmp d1; tmp := None; bak := bak d1 |}], true)
    else
      let d2 := if succeeds o RemoveOld then with_bak None d1 else d1 in
      match dst d2 with
      | None => move_in o (trace ++ [d2]) d2
      | Some old =>
          if succeeds o MoveAway
          then let d3 := {| dst := None; tmp := tmp d2; bak := Some old |} in move_in o (trace ++ [d2; d3]) d3
          else (trace ++ [d2], false)
      end.

Lemma json_dump_file_states o text old files ok : json_dump_file o text old = (files, ok) ->
  list.last files = Some (if ok then Some text else if succeeds o OpenFile then Some (take (written o) text) else old) /\
  Forall (fun c => c = old \/ exists n, c = Some (take n text)) files.
Proof.
  unfold json_dump_file. set (partial := _ <$> seq 0 _). set (P := fun c => c = old \/ exists n, c = Some (take n text)).
  assert (Forall P partial) as Hp by (apply list.Forall_forall; intros x (n & -> & _)%list_elem_of_fmap; right; eauto).
  clearbody partial. assert (forall c, P c -> Forall P (old :: partial ++ [c])) as H.
  { intros c Hc. constructor; [by left|]. apply list.Forall_app. split; [done|by apply list.Forall_singleton]. }
  destruct (succeeds o OpenFile); cbn [negb]; [|intros [= <- <-]; split; [done|apply list.Forall_singleton; by left]].
  destruct (succeeds o WriteFile); intros [= <- <-]; (split; [by rewrite app_comm_cons, list.last_snoc|]); apply H; right; [|eauto].
  exists (length text). by rewrite take_ge.
Qed.

(** What a dump that failed leaves: the file as it was, or away - then the old one
    is the backup - or an old backup put back where there was no file. *)
Definition kept_by (d s : disk) : Prop :=
  dst s = dst d \/ (dst s = None /\ bak s = dst d) \/ (dst d = None /\ dst s = bak d).
Definition left_by (text : bytes) (d s : disk) : Prop := dst s = Some text \/ kept_by d s.
Definition dumped_well (text : bytes) (d : disk) (r : list disk * bool) : Prop :=
  Forall (left_by text d) r.1 /\
  exists s, list.last r.1 = Some s /\ (if r.2 then dst s = Some text /\ tmp s = None else kept_by d s).

Lemma dumped_snoc text d trace s (ok : bool) : Forall (left_by text d) trace ->
  (if ok then dst s = Some text /\ tmp s = None else kept_by d s) -> dumped_well text d (trace ++ [s], ok).
Proof.
  intros Ht Hs. split; cbn [fst snd]; [|exists s; by rewrite list.last_snoc]. apply list.Forall_app. split; [done|]. apply list.Forall_singleton.
  destruct ok; [left; apply Hs|by right].
Qed.

Lemma move_in_well o text d trace s : Forall (left_by text d) trace -> dst s = None -> tmp s = Some text ->
  (bak s = dst d \/ dst d = None /\ (bak s = bak d \/ bak s = None)) -> dumped_well text d (move_in o trace s).
Proof.
  intros Ht H1 H2 H3. unfold move_in. destruct (succeeds o MoveIn).
  - set (d1 := {| dst := tmp s |}). change (trace ++ [d1; ?b]) with (trace ++ [d1] ++ [b]). rewrite app_assoc. apply dumped_snoc.
    + apply list.Forall_app. split; [done|]. apply list.Forall_singleton. by left.
    + by destruct (succeeds o RemoveBackup).
  - apply dumped_snoc; [done|]. unfold put_back, kept_by. destruct (bak s) as [b|] eqn:Eb; [destruct (succeeds o MoveBack)|]; cbn [dst bak];
      destruct H3 as [H3|[H3 [H4|H4]]]; rewrite ?H1, ?H3, <- ?H4; auto; try congruence; right; left; split; congruence.
Qed.

Lemma dump_states o text d : dumped_well text d (dumpAtomically o text d).
Proof.
  unfold dumpAtomically. destruct (json_dump_file o text (tmp d)) as [files dumped] eqn:E. apply json_dump_file_states in E as [Hl _].
  assert (Forall (left_by text d) ((fun c => with_tmp c d) <$> files)) as Ht.
  { apply list.Forall_forall. intros x (c & -> & _)%list_elem_of_fmap. by right; left. }
  set (trace := _ <$> files) in *. destruct dumped; cbn [negb]; cycle 1.
  { split; [done|]. unfold trace. cbn [fst snd]. rewrite fmap_last, Hl. eexists. split; [reflexivity|]. by left. }
  set (d1 := with_tmp (Some text) d). destruct (succeeds o Replace); [by apply dumped_snoc|].
  set (d2 := if succeeds o RemoveOld then with_bak None d1 else d1).
  assert (dst d2 = dst d /\ tmp d2 = Some text /\ (bak d2 = bak d \/ bak d2 = None)) as (H1 & H2 & H3).
  { unfold d2. destruct (succeeds o RemoveOld); cbn; auto. }
  assert (kept_by d d2) as Hd2 by (by left). assert (Forall (left_by text d) (trace ++ [d2])) as Ht2.
  { apply list.Forall_app. split; [done|]. apply list.Forall_singleton. by right. }
  destruct (dst d2) as [old|] eqn:Ed.
  - destruct (succeeds o MoveAway); [|by apply dumped_snoc]. change [d2; ?x] with ([d2] ++ [x]). rewrite app_assoc.
    apply move_in_well; [|done|done|by left]. apply list.Forall_app. split; [done|]. apply list.Forall_singleton. right; right; left.
    cbn. by rewrite <- H1.
  - apply move_in_well; [done|done|done|]. right. split; [by rewrite <- H1|done].
Qed.

(** An atomic dump that says it worked has the new text in place; one that
    fails, or the machine stopping at any moment, leaves the file with the old
    text or the new one, never a part of it, or with no file and the old text in
    the backup. *)
Theorem dump_atomic (o : outcome) (text : bytes) (d : disk) : dumped_well text d (dumpAtomically o text d).
Proof. apply dump_states. Qed.

(** ** Maps *)

(** [std::map] with string keys is walked in their order. *)
Fixpoint insert_key {A} (e : bytes * A) (l : list (bytes * A)) : list (bytes * A) :=
  match l with [] => [e] | x :: rest => if lex_le e.1 x.1 then e :: l else x :: insert_key e rest end.
Definition in_order {A} (m : gmap bytes A) : list (bytes * A) := foldr insert_key [] (map_to_list m).

Lemma insert_key_perm {A} e (l : list (bytes * A)) : insert_key e l ≡ₚ e :: l.
Proof. induction l as [|x l IH]; cbn; [done|]. destruct (lex_le _ _); [done|]. rewrite IH. apply Permutation_swap. Qed.
Lemma in_order_perm {A} (m : gmap bytes A) : in_order m ≡ₚ map_to_list m.
Proof. unfold in_order. induction (map_to_list m) as [|x l IH]; cbn; [done|]. by rewrite insert_key_perm, IH. Qed.
Lemma in_order_keys {A} (m : gmap bytes A) : NoDup (in_order m).*1.
Proof. rewrite in_order_perm. apply NoDup_fst_map_to_list. Qed.
Lemma in_order_elem {A} (m : gmap bytes A) k a : (k, a) ∈ in_order m <-> m !! k = Some a.
Proof. by rewrite in_order_perm, elem_of_map_to_list. Qed.

(** The loop over an object that fills a map: an item that says nothing is passed over. *)
Definition read_entries {A} (read : value -> option A) (l : list field) : gmap bytes A :=
  foldl (fun m f => match read f.2 with Some a => <[f.1 := a]> m | None => m end) ∅ l.

Lemma read_entries_lookup {A} (read : value -> option A) l k : NoDup l.*1 ->
  read_entries read l !! k = lookup_field k l ≫= read.
Proof.
  intros Hn. unfold read_entries.
  enough (forall m : gmap bytes A, foldl (fun m f => match read f.2 with Some a => <[f.1 := a]> m | None => m end) m l !! k =
    match lookup_field k l ≫= read with Some a => Some a | None => m !! k end) as H.
  { rewrite H, lookup_empty. by destruct (_ ≫= _). }
  induction l as [|[k' v] l IH]; intros m; [done|]. apply list.NoDup_cons in Hn as [H1 H2]. cbn [foldl lookup_field fst snd].
  rewrite (IH H2). destruct (decide (k' = k)) as [->|Hne]; [rewrite (bool_decide_true (k = k)) by done|rewrite (bool_decide_false (k' = k)) by done].
  - assert (lookup_field k l = None) as ->.
    { destruct (lookup_field k l) as [x|] eqn:E; [|done]. apply lookup_field_elem in E; [|done]. destruct H1. apply list_elem_of_fmap. by exists (k, x). }
    cbn [mbind option_bind]. destruct (read v); [by rewrite lookup_insert_eq|done].
  - destruct (_ ≫= _); [done|]. destruct (read v); [by rewrite lookup_insert_ne|done].
Qed.

Section maps.
Context `{lib : Jansson}.

(** The loop over a map that fills an object. *)
Definition write_entries {A} (write : A -> value) (m : gmap bytes A) : list field :=
  foldl (fun l e => json_object_set_new e.1 (Some (write e.2)) l) [] (in_order m).

Lemma set_all_new {A} (write : A -> value) (es : list (bytes * A)) : forall l, NoDup (l.*1 ++ es.*1) -> Forall (fun e => text_ok e.1) es ->
  foldl (fun l e => json_object_set_new e.1 (Some (write e.2)) l) l es = l ++ map (fun e => (e.1, write e.2)) es.
Proof.
  induction es as [|[k a] es IH]; intros l Hn Hk; cbn [foldl map]; [by rewrite app_nil_r|].
  apply list.Forall_cons in Hk as [[Hu Hz] Hk]. cbn [fst] in Hu, Hz.
  assert (json_object_set_new k (Some (write a)) l = l ++ [(k, write a)]) as E.
  { rewrite set_ok by done.
    clear IH. cbn [fmap list_fmap] in Hn. induction l as [|[k' v] l IH]; [done|]. cbn in Hn |- *. apply list.NoDup_cons in Hn as [H1 H2].
    rewrite bool_decide_false by (intros ->; apply H1; rewrite elem_of_app; right; left). f_equal. by apply IH. }
  cbn [fst snd]. rewrite E, IH; [by rewrite <- app_assoc| |done]. rewrite fmap_app, <- app_assoc. exact Hn.
Qed.

Lemma write_entries_eq {A} (write : A -> value) (m : gmap bytes A) : map_Forall (fun k _ => text_ok k) m ->
  write_entries write m = map (fun e => (e.1, write e.2)) (in_order m).
Proof.
  intros Hm. unfold write_entries. rewrite set_all_new; [done|apply in_order_keys|].
  apply list.Forall_forall. intros [k a] H. apply in_order_elem in H. by apply (Hm k a).
Qed.
Lemma write_entries_lookup {A} (write : A -> value) (m : gmap bytes A) k : map_Forall (fun k _ => text_ok k) m ->
  lookup_field k (write_entries write m) = write <$> m !! k.
Proof.
  intros Hm. rewrite write_entries_eq by done. pose proof (in_order_keys m) as Hn. apply option_eq. intros v.
  assert ((map (fun e => (e.1, write e.2)) (in_order m)).*1 = (in_order m).*1) as Ek.
  { rewrite <- list_fmap_compose. by apply list_fmap_ext. }
  rewrite lookup_field_elem by (by rewrite Ek). rewrite fmap_Some. split.
  - intros ([k' a] & [= -> ->] & H)%list_elem_of_fmap. exists a. by apply in_order_elem in H.
  - intros (a & Ha & ->). apply list_elem_of_fmap. exists (k, a). split; [done|by apply in_order_elem].
Qed.

(** A map written and read back, through sorted text or not. *)
Lemma entries_back {A} (write : A -> value) (read : value -> option A) (sort : bool) (m : gmap bytes A) :
  map_Forall (fun k a => text_ok k /\ read (back sort (write a)) = Some a) m ->
  match back sort (VObject (write_entries write m)) with VObject l => read_entries read l = m | _ => False end.
Proof.
  intros Hm. assert (map_Forall (fun k _ => text_ok k) m) as Hk by (intros k a Ha; by apply (Hm k a)).
  assert (NoDup (write_entries write m).*1) as Hn.
  { rewrite write_entries_eq by done. change (map ?f ?l) with (f <$> l). rewrite <- list_fmap_compose. erewrite list_fmap_ext; [apply in_order_keys|done]. }
  assert (forall k, (lookup_field k (write_entries write m) ≫= fun v => read (back sort v)) = m !! k) as Hl.
  { intros k. rewrite write_entries_lookup by done. destruct (m !! k) as [a|] eqn:E; [|done]. cbn. by apply (Hm k a). }
  destruct sort; cbn [back sorted]; apply map_eq; intros k.
  - rewrite read_entries_lookup.
    + rewrite lookup_sorted by done. rewrite <- Hl. by destruct (lookup_field _ _).
    + rewrite sort_fields_perm. by rewrite fst_map.
  - rewrite read_entries_lookup by done. apply Hl.
Qed.
End maps.

(** ** Stores *)

(** A class of the application that keeps its settings in one file: what [save]
    writes, whether it sorts the keys, and what [reload] makes of the file -
    [None] when there is none, or it is not JSON. *)
Class Store (S : Type) := {
  store_sorted : bool;
  store_json : S -> value;
  store_read : option value -> S;
}.

(** What [save] wrote, [reload] understands. *)
Class StoreLaws (S : Type) `{Jansson} `{Store S} (wf : S -> Prop) : Prop :=
  store_back s : wf s -> exists n, (n <= JSON_PARSER_MAX_DEPTH)%nat /\ storable n (store_json s) /\
    store_read (Some (back store_sorted (store_json s))) = s.

Section stores.
Context `{laws : JanssonLaws} {S : Type} `{store : Store S} (wf : S -> Prop) `{!StoreLaws S wf}.

Definition store_text (s : S) : bytes := json_dumps store_sorted (store_json s).
Definition reload (text : option bytes) : S := store_read (text ≫= json_loads).
Definition save_atomically (o : outcome) (s : S) (d : disk) : list disk * bool := dumpAtomically o (store_text s) d.
Definition save_in_place (o : outcome) (s : S) (old : option bytes) : list (option bytes) * bool := json_dump_file o (store_text s) old.

Lemma reload_text s : wf s -> reload (Some (store_text s)) = s.
Proof.
  intros (n & Hn & Hs & Hb)%store_back. unfold reload, store_text. cbn [mbind option_bind]. destruct store_sorted.
  - by rewrite (loads_sorted n).
  - by rewrite (loads_dumps n).
Qed.

(** After a save that worked the settings are read back; at any moment of it, and
    after one that failed, either the new or the old ones are - unless the file
    is away. *)
Lemma saved_atomically o s d : wf s -> let r := save_atomically o s d in
  (exists c, list.last r.1 = Some c /\ (r.2 = true -> reload (dst c) = s)) /\
  forall c, c ∈ r.1 -> reload (dst c) = s \/ reload (dst c) = reload (dst d) \/
    (dst c = None /\ bak c = dst d) \/ (dst d = None /\ dst c = bak d).
Proof.
  intros Hw. cbv zeta. destruct (dump_states o (store_text s) d) as [Ht (c & Hl & Hc)]. unfold save_atomically. split.
  - exists c. split; [done|]. intros E. rewrite E in Hc. destruct Hc as [-> _]. by apply reload_text.
  - intros x Hx. rewrite list.Forall_forall in Ht. destruct (Ht x Hx) as [E|[E|[E|E]]]; [left|right; left|by right; right; left|by right; right; right].
    + rewrite E. by apply reload_text.
    + by rewrite E.
Qed.

Lemma saved_in_place o s old : wf s -> let r := save_in_place o s old in
  exists c, list.last r.1 = Some c /\ (r.2 = true -> reload c = s).
Proof.
  intros Hw. cbv zeta. unfold save_in_place. destruct (json_dump_file _ _ _) as [files ok] eqn:E.
  apply json_dump_file_states in E as [Hl _]. eexists. split; [exact Hl|]. cbn [snd]. intros ->. by apply reload_text.
Qed.
End stores.
