(* ===== verification/HostRecords.v ===== *)
(** The hosts the application remembers: their addresses ([host/HostEndpoints.hpp]),
    when two records are the same machine ([utils/UsableMac.hpp],
    [HostRecordIdentity.hpp], [Settings.hpp]), the list kept in the settings
    ([Settings.cpp]) and the one a search on the network builds
    ([GameStreamClient.cpp]). *)

From stdpp Require Import sorting.
From S2P Require Import Prelude Bytes Text CText HostAddress.
#[local] Open Scope Z_scope.
#[local] Set Warnings "-clear-no-such-hyp,-register-all".

(** ** Addresses *)

Record HostEndpoint := { ep_label : bytes; ep_address : bytes; ep_priority : Z }.

Definition endpoints_or_legacy (endpoints : list HostEndpoint) (address remoteAddress : bytes) : list HostEndpoint :=
  match endpoints with
  | _ :: _ => endpoints
  | [] =>
      (if bool_decide (address = []) then [] else [{| ep_label := bs "Local"; ep_address := address; ep_priority := 0 |}]) ++
      (if negb (bool_decide (remoteAddress = [])) && negb (bool_decide (remoteAddress = address))
       then [{| ep_label := bs "Remote"; ep_address := remoteAddress; ep_priority := 1 |}] else [])
  end.

(** [std::stable_sort] by priority. *)
Fixpoint insert_endpoint (e : HostEndpoint) (l : list HostEndpoint) : list HostEndpoint :=
  match l with
  | [] => [e]
  | x :: rest => if ep_priority x <? ep_priority e then x :: insert_endpoint e rest else e :: l
  end.
Definition stable_sort (l : list HostEndpoint) : list HostEndpoint := foldr insert_endpoint [] l.

(** The loop that collects each address once. *)
Definition collect (addresses : list bytes) (e : HostEndpoint) : list bytes :=
  if bool_decide (ep_address e = []) || bool_decide (ep_address e ∈ addresses) then addresses
  else addresses ++ [ep_address e].

Definition ordered_connection_addresses (endpoints : list HostEndpoint) (address remoteAddress : bytes) : list bytes :=
  foldl collect [] (stable_sort (endpoints_or_legacy endpoints address remoteAddress)).

(** The two legacy fields. *)
Definition sync_legacy_fields_from_endpoints (endpoints : list HostEndpoint) (address remoteAddress : bytes) : bytes * bytes :=
  let addresses := ordered_connection_addresses endpoints address remoteAddress in
  (default [] (addresses !! 0%nat), default [] (addresses !! 1%nat)).

(** The new endpoints and legacy fields. *)
Definition add_host_endpoint (endpoints : list HostEndpoint) (address remoteAddress label endpointAddress : bytes)
  : list HostEndpoint * (bytes * bytes) :=
  if bool_decide (endpointAddress = []) then (endpoints, (address, remoteAddress))
  else
    let endpoints := endpoints_or_legacy endpoints address remoteAddress in
    if existsb (fun e => bool_decide (ep_address e = endpointAddress)) endpoints
    then (endpoints, sync_legacy_fields_from_endpoints endpoints address remoteAddress)
    else
      let nextPriority := foldl (fun p e => Z.max p (i32 (ep_priority e + 1))) 0 endpoints in
      let endpoints := endpoints ++ [{| ep_label := if bool_decide (label = []) then bs "Custom" else label;
                                        ep_address := endpointAddress; ep_priority := nextPriority |}] in
      (endpoints, sync_legacy_fields_from_endpoints endpoints address remoteAddress).

(** ** Hosts *)

Record App := { ap_name : bytes; ap_id : Z }.
Record Host := {
  h_address : bytes;
  h_remoteAddress : bytes;
  h_hostname : bytes;
  h_mac : bytes;
  h_favorites : list App;
  h_endpoints : list HostEndpoint;
}.

Definition connection_addresses (h : Host) : list bytes :=
  ordered_connection_addresses (h_endpoints h) (h_address h) (h_remoteAddress h).
Definition preferred_address (h : Host) : bytes := default [] (connection_addresses h !! 0%nat).
Definition has_address (value : bytes) (h : Host) : bool :=
  negb (bool_decide (value = [])) && existsb (fun a => bool_decide (a = value)) (connection_addresses h).

Definition with_endpoints (eps : list HostEndpoint) (fields : bytes * bytes) (h : Host) : Host :=
  {| h_address := fields.1; h_remoteAddress := fields.2; h_hostname := h_hostname h; h_mac := h_mac h;
     h_favorites := h_favorites h; h_endpoints := eps |}.
Definition ensure_endpoints (h : Host) : Host :=
  let eps := endpoints_or_legacy (h_endpoints h) (h_address h) (h_remoteAddress h) in
  with_endpoints eps (sync_legacy_fields_from_endpoints eps (h_address h) (h_remoteAddress h)) h.
Definition add_endpoint (label endpointAddress : bytes) (h : Host) : Host :=
  let '(eps, fields) := add_host_endpoint (h_endpoints h) (h_address h) (h_remoteAddress h) label endpointAddress in
  with_endpoints eps fields h.

(** ** Identity *)

Definition mac_separator (b : byte) : bool := bool_decide (b = ch ":") || bool_decide (b = ch "-") || bool_decide (b = ch " ").
(** The loop ends at the first digit that is not a zero. *)
Fixpoint is_usable_mac (mac : bytes) : bool :=
  match mac with
  | [] => false
  | c :: rest =>
      if mac_separator c then is_usable_mac rest
      else if negb (in_base 16 c) then false
      else if negb (bool_decide (c = ch "0")) then true else is_usable_mac rest
  end.
Definition normalize_mac_key (mac : bytes) : bytes := tolower <$> List.filter (fun c => negb (mac_separator c)) mac.

Definition normalize_host_display_name (name : bytes) : bytes := tolower <$> trim_back (trim_front name).
Definition hosts_share_display_name (l r : bytes) : bool :=
  negb (bool_decide (normalize_host_display_name l = [])) &&
  bool_decide (normalize_host_display_name l = normalize_host_display_name r).
Definition stable_host_profile_key (storedMac serverMac address : bytes) : bytes :=
  if is_usable_mac storedMac then storedMac else if is_usable_mac serverMac then serverMac else address.

Definition shares_address (l r : Host) : bool := existsb (fun a => has_address a r) (connection_addresses l).
Definition hosts_match (l r : Host) : bool :=
  if is_usable_mac (h_mac l) && is_usable_mac (h_mac r) &&
     bool_decide (normalize_mac_key (h_mac l) = normalize_mac_key (h_mac r)) then true
  else if negb (bool_decide (h_hostname l = [])) && bool_decide (h_hostname l = h_hostname r) && shares_address l r then true
  else if negb (is_usable_mac (h_mac l)) || negb (is_usable_mac (h_mac r)) then shares_address l r
  else false.
Definition hosts_match_for_upsert (l r : Host) : bool :=
  hosts_match l r || hosts_share_display_name (h_hostname l) (h_hostname r).

(** [GameStreamClient]'s key of a host. *)
Definition host_key (h : Host) : bytes :=
  if is_usable_mac (h_mac h) then bs "mac:" ++ h_mac h
  else if negb (bool_decide (h_address h = [])) then bs "address:" ++ h_address h
  else if negb (bool_decide (h_remoteAddress h = [])) then bs "remote:" ++ h_remoteAddress h
  else bs "hostname:" ++ h_hostname h.

(** ** The list in the settings *)

Definition with_fields (address remoteAddress hostname mac : bytes) (h : Host) : Host :=
  {| h_address := address; h_remoteAddress := remoteAddress; h_hostname := hostname; h_mac := mac;
     h_favorites := h_favorites h; h_endpoints := h_endpoints h |}.
Definition with_favorites (favorites : list App) (h : Host) : Host :=
  {| h_address := h_address h; h_remoteAddress := h_remoteAddress h; h_hostname := h_hostname h; h_mac := h_mac h;
     h_favorites := favorites; h_endpoints := h_endpoints h |}.

(** The four fields that both merges take over. *)
Definition take_fields (source target : Host) : Host :=
  with_fields (if bool_decide (h_address source = []) then h_address target else h_address source)
    (if bool_decide (h_remoteAddress source = []) then h_remoteAddress target else h_remoteAddress source)
    (if bool_decide (h_hostname source = []) then h_hostname target else h_hostname source)
    (if is_usable_mac (h_mac source) then h_mac source else h_mac target) target.

Definition add_missing (favorites : list App) (app : App) : list App :=
  if existsb (fun f => ap_id f =? ap_id app) favorites then favorites else favorites ++ [app].
Definition merge_host (target source : Host) : Host :=
  let target := take_fields source target in
  let target := match h_endpoints source with
    | [] => ensure_endpoints target
    | eps => foldl (fun t e => add_endpoint (ep_label e) (ep_address e) t) target eps
    end in
  with_favorites (foldl add_missing (h_favorites target) (h_favorites source)) target.

(** [std::find_if]. *)
Fixpoint find_index (test : Host -> bool) (hosts : list Host) : option nat :=
  match hosts with [] => None | h :: rest => if test h then Some 0%nat else S <$> find_index test rest end.
Definition find_host (hosts : list Host) (target : Host) : option nat := find_index (fun h => hosts_match h target) hosts.

Definition add_host (host : Host) (hosts : list Host) : list Host :=
  let incoming := ensure_endpoints host in
  match find_index (fun h => hosts_match_for_upsert h incoming) hosts with
  | Some i => alter (fun existing => ensure_endpoints (merge_host existing incoming)) i hosts
  | None => if negb (bool_decide (preferred_address incoming = [])) then hosts ++ [incoming] else hosts
  end.
Definition remove_host (host : Host) (hosts : list Host) : list Host :=
  match find_host hosts host with Some i => delete i hosts | None => hosts end.

Fixpoint erase_app (app_id : Z) (favorites : list App) : list App :=
  match favorites with [] => [] | f :: rest => if ap_id f =? app_id then rest else f :: erase_app app_id rest end.
Definition add_favorite (host : Host) (app : App) (hosts : list Host) : list Host :=
  match find_host hosts host with
  | Some i => alter (fun h => with_favorites (erase_app (ap_id app) (h_favorites h) ++ [app]) h) i hosts
  | None => hosts
  end.
Definition remove_favorite (host : Host) (app_id : Z) (hosts : list Host) : list Host :=
  match find_host hosts host with
  | Some i => alter (fun h => with_favorites (erase_app app_id (h_favorites h)) h) i hosts
  | None => hosts
  end.
Definition is_favorite (host : Host) (app_id : Z) (hosts : list Host) : bool :=
  match i ← find_host hosts host; hosts !! i with
  | Some h => existsb (fun f => ap_id f =? app_id) (h_favorites h)
  | None => false
  end.
Definition has_any_favorite (hosts : list Host) : bool := existsb (fun h => negb (bool_decide (length (h_favorites h) = 0%nat))) hosts.

(** ** The search on the network *)

Definition merge_discovered_host (hosts : list Host) (host : Host) : list Host :=
  match find_host hosts host with
  | None => hosts ++ [host]
  | Some i => alter (take_fields host) i hosts
  end.

Definition strip_ipv4_port (address : bytes) : bytes :=
  match find (ch ":") address with
  | None => address
  | Some firstColon =>
      match find_from (ch ":") (firstColon + 1) address with Some _ => address | None => substr 0 firstColon address end
  end.
Definition ipv4_port_suffix (address : bytes) : bytes :=
  match find (ch ":") address with
  | None => []
  | Some firstColon =>
      match find_from (ch ":") (firstColon + 1) address with Some _ => [] | None => substr_from firstColon address end
  end.

(** [host_addresses_for_find], given the console's own address in network order. *)
Definition host_addresses_for_find (address : Z) : list bytes :=
  if address =? 0 then []
  else
    let octet k := Z.land (Z.shiftr address k) 255 in
    (fun i => to_string (octet 0) ++ bs "." ++ to_string (octet 8) ++ bs "." ++ to_string (octet 16) ++ bs "." ++ to_string i) <$>
      List.filter (fun i => negb (i =? octet 24)) (Z.of_nat <$> seq 0 256).

(** ** Facts *)

Definition before (a b : HostEndpoint) : Prop := ep_priority a <= ep_priority b.

Lemma insert_perm e l : insert_endpoint e l ≡ₚ e :: l.
Proof.
  induction l as [|x l IH]; [done|]. cbn. destruct (_ <? _); [|done]. rewrite IH. apply Permutation_swap.
Qed.
Lemma sort_perm l : stable_sort l ≡ₚ l.
Proof. induction l as [|e l IH]; [done|]. cbn. by rewrite insert_perm, IH. Qed.
Lemma insert_sorted e l : StronglySorted before l -> StronglySorted before (insert_endpoint e l).
Proof.
  induction 1 as [|x l Hs IH Hx]; [repeat constructor|]. cbn. destruct (Z.ltb_spec (ep_priority x) (ep_priority e)).
  - constructor; [done|]. rewrite insert_perm. constructor; [unfold before; lia|done].
  - constructor; [by constructor|]. constructor; [done|]. eapply list.Forall_impl; [exact Hx|]. unfold before. cbn. lia.
Qed.
Lemma sort_sorted l : StronglySorted before (stable_sort l).
Proof. induction l; [constructor|]. by apply insert_sorted. Qed.

Lemma insert_snoc x l e : before x e -> insert_endpoint x (l ++ [e]) = insert_endpoint x l ++ [e].
Proof.
  unfold before. intros H. induction l as [|y l IH]; cbn.
  - by rewrite (proj2 (Z.ltb_ge _ _)) by lia.
  - destruct (_ <? _); [|done]. by rewrite IH.
Qed.
(** An endpoint of the lowest rank comes last. *)
Lemma sort_snoc l e : Forall (fun x => before x e) l -> stable_sort (l ++ [e]) = stable_sort l ++ [e].
Proof. induction 1 as [|x l Hx Hl IH]; [done|]. cbn [app stable_sort foldr]. fold (stable_sort (l ++ [e])). by rewrite IH, insert_snoc. Qed.

Lemma collect_elem l : forall acc x, x ∈ foldl collect acc l <-> x ∈ acc \/ (x <> [] /\ exists e, e ∈ l /\ ep_address e = x).
Proof.
  induction l as [|e l IH]; intros acc x; cbn [foldl]; [split; [auto|intros [?|(_&e&H&_)]; [done|set_solver]]|].
  rewrite IH. unfold collect. destruct (bool_decide (ep_address e = [])) eqn:E1; cbn [orb].
  { apply bool_decide_eq_true in E1. split; [set_solver|]. intros [?|(Hn&e'&[->|He]%elem_of_cons&Ha)]; [by left|congruence|right; eauto]. }
  apply bool_decide_eq_false in E1. case_bool_decide as E2.
  - split; [set_solver|]. intros [?|(Hn&e'&[->|He]%elem_of_cons&Ha)]; [by left|subst; by left|right; eauto].
  - rewrite elem_of_app, list_elem_of_singleton. split.
    + intros [[?| ->]|(Hn&e'&He&Ha)]; [by left|right; split; [done|]; exists e; set_solver|right; split; [done|]; exists e'; set_solver].
    + intros [?|(Hn&e'&[->|He]%elem_of_cons&Ha)]; [by left; left|by left; right|right; eauto].
Qed.
Lemma collect_nodup l : forall acc, NoDup acc -> NoDup (foldl collect acc l).
Proof.
  induction l as [|e l IH]; intros acc H; [done|]. cbn. apply IH. unfold collect. case_bool_decide; cbn [orb]; [done|].
  case_bool_decide; [done|]. apply list.NoDup_app. split_and!; [done|set_solver|apply list.NoDup_singleton].
Qed.

(** The loop keeps the order of first appearance. *)
Lemma collect_order l i j a b : StronglySorted before l -> foldl collect [] l !! i = Some a -> foldl collect [] l !! j = Some b ->
  (i < j)%nat -> exists ea, ea ∈ l /\ ep_address ea = a /\ forall eb, eb ∈ l -> ep_address eb = b -> before ea eb.
Proof.
  revert i j a b. induction l as [|e l IH] using rev_ind; intros i j a b Hs Hi Hj Hij; [done|].
  assert (StronglySorted before l /\ forall x, x ∈ l -> before x e) as [Hl He].
  { apply StronglySorted_app in Hs as (Hx & Hl & _). split; [done|]. intros x H. apply Hx; [done|set_solver]. }
  rewrite foldl_app in Hi, Hj. cbn [foldl] in Hi, Hj. pose proof (collect_elem l []) as Hin. set (R := foldl collect [] l) in *.
  assert (forall i j a b, R !! i = Some a -> R !! j = Some b -> (i < j)%nat ->
    exists ea, ea ∈ l ++ [e] /\ ep_address ea = a /\ forall eb, eb ∈ l ++ [e] -> ep_address eb = b -> before ea eb) as Hold.
  { intros i' j' a' b' Ha Hb H. destruct (IH i' j' a' b' Hl Ha Hb H) as (ea & E1 & E2 & E3). exists ea.
    split_and!; [set_solver|done|]. intros eb [H1| ->%list_elem_of_singleton]%elem_of_app Hb'; [by apply E3|by apply He]. }
  unfold collect in Hi, Hj. destruct (bool_decide _ || bool_decide _) eqn:E; [by eapply Hold|].
  apply orb_false_iff in E as [E1%bool_decide_eq_false E2%bool_decide_eq_false].
  apply lookup_app_Some in Hj as [Hj|[Hge Hj]].
  - apply lookup_app_Some in Hi as [Hi|[Hge Hi]]; [by eapply Hold|]. apply lookup_lt_Some in Hj. lia.
  - apply list_lookup_singleton_Some in Hj as [Hj <-]. apply lookup_app_Some in Hi as [Hi|[Hge' Hi]].
    2: { apply list_lookup_singleton_Some in Hi as [Hi _]. lia. }
    apply list_elem_of_lookup_2 in Hi. apply Hin in Hi as [Hi|(_ & ea & Hea & Ha)]; [set_solver|].
    exists ea. split_and!; [set_solver|done|]. intros eb [H1| ->%list_elem_of_singleton]%elem_of_app Hb; [|by apply He].
    destruct E2. apply Hin. right. split; [done|]. exists eb. by rewrite Hb.
Qed.

Lemma elem_of_sort e l : e ∈ stable_sort l <-> e ∈ l.
Proof. by rewrite sort_perm. Qed.

(** A host is tried at each of its addresses once, at every one it has, and in
    the order of their priorities. *)
Theorem connection_addresses_spec (endpoints : list HostEndpoint) (address remoteAddress : bytes) :
  let l := ordered_connection_addresses endpoints address remoteAddress in
  let eps := endpoints_or_legacy endpoints address remoteAddress in
  NoDup l /\
  (forall a, a ∈ l <-> a <> [] /\ exists e, e ∈ eps /\ ep_address e = a) /\
  (forall i j a b, l !! i = Some a -> l !! j = Some b -> (i < j)%nat ->
     exists ea, ea ∈ eps /\ ep_address ea = a /\ forall eb, eb ∈ eps -> ep_address eb = b -> ep_priority ea <= ep_priority eb).
Proof.
  intros l eps. split_and!.
  - apply collect_nodup. constructor.
  - intros a. unfold l, ordered_connection_addresses. rewrite collect_elem. setoid_rewrite elem_of_sort. set_solver.
  - intros i j a b Hi Hj Hij. destruct (collect_order _ i j a b (sort_sorted eps) Hi Hj Hij) as (ea & H1 & H2 & H3).
    exists ea. split; [by apply elem_of_sort|]. split; [done|]. intros eb Hb. apply H3. by apply elem_of_sort.
Qed.

(** ** Adding an address *)

(** Priorities that leave room for one more. *)
Definition ranked (n : Z) (eps : list HostEndpoint) : Prop := Forall (fun e => - 2 ^ 31 <= ep_priority e < n) eps.

Lemma legacy_twice eps a r : endpoints_or_legacy (endpoints_or_legacy eps a r) a r = endpoints_or_legacy eps a r.
Proof. destruct eps; [|done]. by destruct (endpoints_or_legacy [] a r) eqn:E. Qed.
Lemma addresses_legacy eps a r :
  ordered_connection_addresses (endpoints_or_legacy eps a r) a r = ordered_connection_addresses eps a r.
Proof. unfold ordered_connection_addresses. by rewrite legacy_twice. Qed.
Lemma legacy_nil eps a r : endpoints_or_legacy eps a r = [] -> eps = [] /\ a = [] /\ r = [].
Proof.
  destruct eps; [|done]. cbn. destruct (bool_decide (a = [])) eqn:E; [|done].
  apply bool_decide_eq_true in E as ->. destruct (bool_decide (r = [])) eqn:E; [by apply bool_decide_eq_true in E as ->|].
  apply bool_decide_eq_false in E. by rewrite bool_decide_false.
Qed.
Lemma legacy_ranked n eps a r : 1 < n -> ranked n eps -> ranked n (endpoints_or_legacy eps a r).
Proof.
  intros Hn H. destruct eps; [|done]. cbn. destruct (bool_decide (a = [])), (_ && _); repeat constructor; cbn; lia.
Qed.

(** The fields the last synchronisation left do not matter any more. *)
Lemma synced_addresses eps a r :
  let eps' := endpoints_or_legacy eps a r in
  let fields := sync_legacy_fields_from_endpoints eps' a r in
  ordered_connection_addresses eps' fields.1 fields.2 = ordered_connection_addresses eps a r.
Proof.
  cbv zeta. rewrite <- (addresses_legacy eps a r). destruct (endpoints_or_legacy eps a r) eqn:E; [|done].
  apply legacy_nil in E as (-> & -> & ->). done.
Qed.

Lemma ensure_addresses h : connection_addresses (ensure_endpoints h) = connection_addresses h.
Proof. apply synced_addresses. Qed.

Lemma next_priority n eps : forall q, ranked n eps -> 0 <= q <= n -> n <= 2 ^ 31 - 1 ->
  let p := foldl (fun p e => Z.max p (i32 (ep_priority e + 1))) q eps in
  q <= p <= n /\ Forall (fun e => ep_priority e < p) eps.
Proof.
  induction eps as [|e eps IH]; intros q H Hq Hn; [cbn; split; [lia|constructor]|].
  apply Forall_cons_1 in H as [He H]. cbn [foldl]. rewrite (i32_small (ep_priority e + 1)) by lia.
  specialize (IH (Z.max q (ep_priority e + 1)) H ltac:(lia) Hn) as (IH1 & IH2). split; [lia|]. constructor; [lia|done].
Qed.

Lemma elem_of_addresses eps a r x : x ∈ ordered_connection_addresses eps a r <->
  x <> [] /\ exists e, e ∈ endpoints_or_legacy eps a r /\ ep_address e = x.
Proof. unfold ordered_connection_addresses. rewrite collect_elem. setoid_rewrite elem_of_sort. set_solver. Qed.

Lemma add_addresses n label a h : ranked n (h_endpoints h) -> 1 < n <= 2 ^ 31 - 1 ->
  connection_addresses (add_endpoint label a h) =
    (if bool_decide (a = [] \/ a ∈ connection_addresses h) then connection_addresses h else connection_addresses h ++ [a]) /\
  ranked (n + 1) (h_endpoints (add_endpoint label a h)).
Proof.
  intros Hr Hn. unfold add_endpoint, add_host_endpoint. case_bool_decide as Ea.
  { rewrite bool_decide_true by auto. split; [done|]. eapply list.Forall_impl; [exact Hr|]. cbn. lia. }
  pose proof (legacy_ranked n (h_endpoints h) (h_address h) (h_remoteAddress h) ltac:(lia) Hr) as Hl.
  set (eps := endpoints_or_legacy _ _ _) in *. destruct (existsb _ eps) eqn:Ex.
  - rewrite (bool_decide_true (_ \/ _)). { split; [apply synced_addresses|]. cbn. eapply list.Forall_impl; [exact Hl|]. cbn. lia. }
    right. apply elem_of_addresses. split; [done|]. apply existsb_exists in Ex as (e & He & Hd%bool_decide_eq_true).
    exists e. split; [by apply list_elem_of_In|done].
  - rewrite (bool_decide_false (_ \/ _)).
    2: { intros [?|(_ & e & He & Hd)%elem_of_addresses]; [done|]. apply not_true_iff_false in Ex. apply Ex, existsb_exists.
         exists e. split; [by apply list_elem_of_In|by apply bool_decide_true]. }
    destruct (next_priority n eps 0 Hl ltac:(lia) ltac:(lia)) as [Hp1 Hp2]. set (p := foldl _ 0 eps) in *.
    set (e := {| ep_label := _; ep_address := a; ep_priority := p |}). split.
    2: { cbn. apply list.Forall_app. split; [eapply list.Forall_impl; [exact Hl|]; cbn; lia|]. apply list.Forall_singleton. cbn. lia. }
    unfold connection_addresses at 1. cbn [with_endpoints h_endpoints h_address h_remoteAddress].
    assert (forall x y, ordered_connection_addresses (eps ++ [e]) x y = connection_addresses h ++ [a]) as ->; [|done].
    intros x y. unfold ordered_connection_addresses.
    assert (endpoints_or_legacy (eps ++ [e]) x y = eps ++ [e]) as -> by (by destruct eps).
    rewrite sort_snoc by (eapply list.Forall_impl; [exact Hp2|]; unfold before; cbn; lia).
    rewrite foldl_app. cbn [foldl]. assert (foldl collect [] (stable_sort eps) = connection_addresses h) as -> by done.
    unfold collect. cbn [ep_address e]. rewrite bool_decide_false by done. cbn [orb]. rewrite bool_decide_false; [done|].
    intros (_ & e' & He & Hd)%elem_of_addresses. apply not_true_iff_false in Ex. apply Ex, existsb_exists.
    exists e'. split; [by apply list_elem_of_In|by apply bool_decide_true].
Qed.

(** Adding an address to a host puts it behind all the others - where it is
    tried last - unless the host has it already; no other address is lost or
    moved, whether the record had a list of endpoints or the two legacy fields. *)
Theorem add_endpoint_spec (label a : bytes) (h : Host) : ranked (2 ^ 31 - 1) (h_endpoints h) ->
  connection_addresses (add_endpoint label a h) =
    if bool_decide (a = [] \/ a ∈ connection_addresses h) then connection_addresses h else connection_addresses h ++ [a].
Proof. intros H. by apply (add_addresses (2 ^ 31 - 1)). Qed.

Definition ex_host (address remote hostname mac : string) : Host :=
  {| h_address := bs address; h_remoteAddress := bs remote; h_hostname := bs hostname; h_mac := bs mac; h_favorites := []; h_endpoints := [] |}.

Lemma add_endpoint_spec_witness :
  ranked (2 ^ 31 - 1) (h_endpoints (ex_host "10.0.0.2" "203.0.113.7" "pc" "")) /\
  connection_addresses (add_endpoint (bs "VPN") (bs "100.64.0.7") (ex_host "10.0.0.2" "203.0.113.7" "pc" "")) =
    [bs "10.0.0.2"; bs "203.0.113.7"; bs "100.64.0.7"].
Proof.
  split; [constructor|].
  exact (add_endpoint_spec (bs "VPN") (bs "100.64.0.7") (ex_host "10.0.0.2" "203.0.113.7" "pc" "") (list.Forall_nil_2 _)).
Defined.

(** ** Identity *)

Lemma shares_address_iff l r : shares_address l r = true <-> exists a, a ∈ connection_addresses l /\ a ∈ connection_addresses r.
Proof.
  unfold shares_address. rewrite existsb_exists. unfold has_address. split.
  - intros (a & Ha & Hr). apply andb_true_iff in Hr as [_ Hr]. apply existsb_exists in Hr as (b & Hb & ->%bool_decide_eq_true).
    exists a. by rewrite !list_elem_of_In.
  - intros (a & Ha & Hr). exists a. split; [by apply list_elem_of_In|]. apply andb_true_iff. split.
    + apply negb_true_iff, bool_decide_eq_false. by apply elem_of_addresses in Hr as [? _].
    + apply existsb_exists. exists a. split; [by apply list_elem_of_In|by apply bool_decide_true].
Qed.
Lemma shares_address_sym l r : shares_address l r = shares_address r l.
Proof. apply eq_true_iff_eq. rewrite !shares_address_iff. naive_solver. Qed.

(** Whether two records are the same machine does not depend on which is
    asked about the other; a record with a usable MAC or an address is the same
    as itself; and two usable MACs that differ keep records apart unless name and
    address both agree. *)
Theorem hosts_match_spec (l r : Host) :
  hosts_match l r = hosts_match r l /\
  (is_usable_mac (h_mac l) = true \/ connection_addresses l <> [] -> hosts_match l l = true) /\
  (is_usable_mac (h_mac l) = true -> is_usable_mac (h_mac r) = true -> normalize_mac_key (h_mac l) <> normalize_mac_key (h_mac r) ->
   hosts_match l r = true <-> h_hostname l <> [] /\ h_hostname l = h_hostname r /\
     exists a, a ∈ connection_addresses l /\ a ∈ connection_addresses r).
Proof.
  split_and!.
  - unfold hosts_match. rewrite (shares_address_sym l r), (andb_comm (is_usable_mac (h_mac l))), (orb_comm (negb (is_usable_mac (h_mac l)))).
    assert (bool_decide (normalize_mac_key (h_mac l) = normalize_mac_key (h_mac r)) =
            bool_decide (normalize_mac_key (h_mac r) = normalize_mac_key (h_mac l))) as -> by (apply bool_decide_ext; split; congruence).
    assert (negb (bool_decide (h_hostname l = [])) && bool_decide (h_hostname l = h_hostname r) =
            negb (bool_decide (h_hostname r = [])) && bool_decide (h_hostname r = h_hostname l)) as ->; [|done].
    destruct (decide (h_hostname l = h_hostname r)) as [->|Hn]; [done|].
    rewrite !(bool_decide_false (_ = h_hostname _)) by congruence. by rewrite !andb_false_r.
  - unfold hosts_match. intros H. rewrite (bool_decide_true (normalize_mac_key _ = _)), andb_true_r by done.
    destruct (is_usable_mac (h_mac l)) eqn:E; cbn [andb negb orb]; [done|]. destruct H as [?|H]; [done|].
    assert (shares_address l l = true) as ->; [|by rewrite andb_true_r; destruct (_ && _)].
    apply shares_address_iff. destruct (connection_addresses l) as [|a ?]; [done|]. exists a. set_solver.
  - intros H1 H2 H3. unfold hosts_match. rewrite H1, H2, (bool_decide_false (normalize_mac_key _ = _)) by done. cbn [andb negb orb].
    destruct (negb _ && bool_decide _ && shares_address l r) eqn:E.
    + split; [intros _|done]. rewrite !andb_true_iff, negb_true_iff, bool_decide_eq_false, bool_decide_eq_true, shares_address_iff in E.
      by destruct E as [[? ?] ?].
    + split; [done|]. intros (Hh & He & Hs). rewrite <- shares_address_iff in Hs. rewrite Hs, (bool_decide_true _ He), (bool_decide_false _ Hh) in E. done.
Qed.
Lemma hosts_match_spec_witness :
  hosts_match (ex_host "10.0.0.2" "" "pc" "00:11:22:33:44:55") (ex_host "10.0.0.2" "" "pc" "aa-bb-cc-dd-ee-ff") = true.
Proof.
  apply (hosts_match_spec (ex_host "10.0.0.2" "" "pc" "00:11:22:33:44:55") (ex_host "10.0.0.2" "" "pc" "aa-bb-cc-dd-ee-ff"));
    [vm_compute; reflexivity|vm_compute; reflexivity|vm_compute; discriminate|].
  split; [vm_compute; discriminate|]. split; [reflexivity|]. exists (bs "10.0.0.2"). split; vm_compute; left.
Defined.

(** The match is not transitive: a record without a MAC joins two machines that
    are told apart. *)
Lemma match_not_transitive :
  let a := ex_host "10.0.0.2" "" "a" "00:11:22:33:44:55" in
  let b := ex_host "10.0.0.2" "" "" "" in
  let c := ex_host "10.0.0.2" "" "c" "aa-bb-cc-dd-ee-ff" in
  hosts_match a b = true /\ hosts_match b c = true /\ hosts_match a c = false.
Proof. vm_compute. done. Qed.

(** Text after the first digit that is not a zero is not looked at. *)
Lemma usable_mac_prefix : is_usable_mac (bs "1 is not a MAC") = true. Proof. reflexivity. Qed.

(** A search hears from a machine with two network cards at one address, from an
    unknown one at the other, and again from the first at the second address: the
    list shows two records that are the same machine. *)
Lemma discovery_duplicates :
  let mac := "00:11:22:33:44:55" in
  let found := merge_discovered_host (merge_discovered_host (merge_discovered_host []
    (ex_host "10.0.0.2" "" "" mac)) (ex_host "10.0.0.3" "" "" "00:00:00:00:00:00")) (ex_host "10.0.0.3" "" "" mac) in
  match found with [a; b] => hosts_match a b = true | _ => False end.
Proof. vm_compute. done. Qed.

(** ** The stored list *)

(** A stored host: an address, and legacy fields that show its first two. *)
Definition wf_host (h : Host) : Prop :=
  connection_addresses h <> [] /\ h_endpoints h <> [] /\
  h_address h = preferred_address h /\ h_remoteAddress h = default [] (connection_addresses h !! 1%nat).

Lemma wf_ensured h : connection_addresses h <> [] -> wf_host (ensure_endpoints h).
Proof.
  intros H. pose proof (ensure_addresses h) as E. unfold wf_host, preferred_address. rewrite !E. split; [done|].
  split.
  - cbn. intros H0. apply legacy_nil in H0 as (H1 & H2 & H3). destruct H. unfold connection_addresses. by rewrite H1, H2, H3.
  - cbn. unfold sync_legacy_fields_from_endpoints. rewrite addresses_legacy. done.
Qed.

Lemma take_fields_addresses source h : h_endpoints h <> [] -> connection_addresses (take_fields source h) = connection_addresses h.
Proof. intros H. unfold connection_addresses, ordered_connection_addresses. cbn. by destruct (h_endpoints h). Qed.

Lemma favorites_addresses l h : connection_addresses (with_favorites l h) = connection_addresses h.
Proof. done. Qed.

Lemma fold_addresses eps : forall n h, ranked n (h_endpoints h) -> 1 < n -> n + zlen eps <= 2 ^ 31 - 1 ->
  let h' := foldl (fun t e => add_endpoint (ep_label e) (ep_address e) t) h eps in
  connection_addresses h `prefix_of` connection_addresses h' /\
  (forall e, e ∈ eps -> ep_address e <> [] -> ep_address e ∈ connection_addresses h').
Proof.
  induction eps as [|e eps IH]; intros n h Hr Hn Hl; [by split; [|intros e H; set_solver]|]. rewrite zlen_cons in Hl.
  pose proof (zlen_nonneg eps). cbn [foldl].
  destruct (add_addresses n (ep_label e) (ep_address e) h Hr ltac:(lia)) as [Ha Hr'].
  destruct (IH (n + 1) _ Hr' ltac:(lia) ltac:(lia)) as [IH1 IH2]. rewrite Ha in IH1.
  assert (connection_addresses h `prefix_of` connection_addresses (add_endpoint (ep_label e) (ep_address e) h)) as Hp.
  { rewrite Ha. case_bool_decide; [done|by apply prefix_app_r]. }
  rewrite <- Ha in IH1. split; [by etrans|]. intros e' [->|He]%elem_of_cons Hne; [|by apply IH2].
  eapply (elem_of_prefix _ _ _ _ IH1). Unshelve. rewrite Ha. case_bool_decide as Hd; [by destruct Hd|]. set_solver.
Qed.

Lemma merge_addresses n h source : h_endpoints h <> [] -> ranked n (h_endpoints h) -> 1 < n ->
  n + zlen (h_endpoints source) <= 2 ^ 31 - 1 -> h_endpoints source <> [] ->
  connection_addresses h `prefix_of` connection_addresses (merge_host h source) /\
  (forall e, e ∈ h_endpoints source -> ep_address e <> [] -> ep_address e ∈ connection_addresses (merge_host h source)).
Proof.
  intros He Hr Hn Hl Hs. unfold merge_host. destruct (h_endpoints source) as [|e eps] eqn:E; [done|]. rewrite <- E in *.
  rewrite favorites_addresses, <- (take_fields_addresses source h He). by apply (fold_addresses _ n).
Qed.

Lemma find_index_Some test l i : find_index test l = Some i -> exists h, l !! i = Some h /\ test h = true.
Proof.
  revert i. induction l as [|h l IH]; intros i; cbn; [done|]. destruct (test h) eqn:E; [intros [= <-]; eauto|].
  destruct (find_index test l) as [j|]; [|done]. intros [= <-]. by apply IH.
Qed.

(** What a stored host becomes when a record is saved over it. *)
Lemma merged_addresses n h host : h_endpoints h <> [] -> ranked n (h_endpoints h) -> 1 < n ->
  n + zlen (h_endpoints (ensure_endpoints host)) <= 2 ^ 31 - 1 ->
  let h' := ensure_endpoints (merge_host h (ensure_endpoints host)) in
  connection_addresses h `prefix_of` connection_addresses h' /\
  (forall a, a ∈ connection_addresses host -> a ∈ connection_addresses h').
Proof.
  intros Hw Hr Hn Hl h'. unfold h'. pose proof (ensure_addresses host) as Ea. set (incoming := ensure_endpoints host) in *.
  rewrite !ensure_addresses. destruct (h_endpoints incoming) as [|e0 eps] eqn:E.
  - unfold merge_host. rewrite E, favorites_addresses, ensure_addresses, take_fields_addresses by done. split; [done|].
    intros a Hin. rewrite <- Ea in Hin. unfold incoming in *. apply legacy_nil in E as (E1 & E2 & E3).
    unfold connection_addresses in Ea, Hin. rewrite Ea, E1, E2, E3 in Hin. set_solver.
  - destruct (merge_addresses n h incoming Hw Hr Hn) as [H1 H2]; [by rewrite E|by rewrite E|]. split; [done|].
    intros a Hin. rewrite <- Ea in Hin. apply elem_of_addresses in Hin as (Hne & e & He & <-). rewrite E in He. apply H2; [by rewrite E|done].
Qed.

(** Saving a host loses no address: every stored host keeps its place and its
    addresses in their order, what the saved record adds comes behind them, each
    of its addresses is stored, at most one record is new, and the list stays
    well formed. *)
Theorem add_host_spec (n : Z) (host : Host) (hosts : list Host) :
  Forall wf_host hosts -> Forall (fun h => ranked n (h_endpoints h)) hosts -> 1 < n ->
  n + zlen (h_endpoints (ensure_endpoints host)) <= 2 ^ 31 - 1 ->
  Forall wf_host (add_host host hosts) /\
  (forall i h, hosts !! i = Some h -> exists h', add_host host hosts !! i = Some h' /\
     connection_addresses h `prefix_of` connection_addresses h') /\
  (forall a, a ∈ connection_addresses host -> exists h', h' ∈ add_host host hosts /\ a ∈ connection_addresses h') /\
  (length hosts <= length (add_host host hosts) <= S (length hosts))%nat.
Proof.
  intros Hw Hr Hn Hl. unfold add_host. set (incoming := ensure_endpoints host) in *.
  pose proof (ensure_addresses host) as Ea. fold incoming in Ea. destruct (find_index _ hosts) as [i|] eqn:E.
  - apply find_index_Some in E as (h & Hi & _). pose proof (proj1 (list.Forall_lookup _ _) Hw i h Hi) as (Hw1 & Hw2 & _).
    pose proof (proj1 (list.Forall_lookup _ _) Hr i h Hi) as Hrh. cbn beta in Hrh.
    set (h' := ensure_endpoints (merge_host h incoming)).
    destruct (merged_addresses n h host Hw2 Hrh Hn Hl) as [Hp Ha]. fold incoming h' in Hp, Ha.
    assert (wf_host h') as Hw'. { apply wf_ensured. unfold h' in Hp. rewrite ensure_addresses in Hp. intros H0. rewrite H0 in Hp.
      apply prefix_nil_inv in Hp. done. }
    split_and!.
    + apply list.Forall_alter; [done|]. intros x Hx _. rewrite Hi in Hx. injection Hx as <-. done.
    + intros j x Hx. destruct (decide (i = j)) as [->|Hne]; [|rewrite list_lookup_alter_ne by done; eauto].
      rewrite Hi in Hx. injection Hx as <-. exists h'. split; [|done]. rewrite list_lookup_alter_eq, Hi. done.
    + intros a Hin. exists h'. split; [|by apply Ha]. eapply list_elem_of_lookup_2. rewrite list_lookup_alter_eq, Hi. done.
    + rewrite length_alter. lia.
    + rewrite length_alter. lia.
  - destruct (bool_decide (preferred_address incoming = [])) eqn:Ep; cbn [negb].
    + split_and!; [done|eauto| |lia|lia]. intros a Hin. exfalso. apply bool_decide_eq_true in Ep. rewrite <- Ea in Hin.
      unfold preferred_address in Ep. apply list_elem_of_lookup in Hin as [k Hk].
      destruct (connection_addresses incoming) as [|b l] eqn:Eb; [done|]. cbn in Ep. subst b.
      assert ([] ∈ connection_addresses incoming) as Hn0 by (rewrite Eb; left). by apply elem_of_addresses in Hn0 as [? _].
    + split_and!.
      * apply list.Forall_app. split; [done|]. apply list.Forall_singleton, wf_ensured. intros H0. apply bool_decide_eq_false in Ep.
        destruct Ep. unfold preferred_address. by rewrite Ea, H0.
      * intros i h Hi. exists h. split; [by apply lookup_app_l_Some|done].
      * intros a Hin. exists incoming. split; [set_solver|by rewrite Ea].
      * rewrite length_app. cbn. lia.
      * rewrite length_app. cbn. lia.
Qed.

Lemma add_host_spec_witness :
  let stored := [ensure_endpoints (ex_host "10.0.0.2" "" "pc" "00:11:22:33:44:55")] in
  let saved := ex_host "100.64.0.7" "" "PC " "" in
  Forall wf_host (add_host saved stored) /\ connection_addresses <$> add_host saved stored = [[bs "10.0.0.2"; bs "100.64.0.7"]].
Proof.
  split; [|vm_compute; reflexivity].
  refine (proj1 (add_host_spec 2 (ex_host "100.64.0.7" "" "PC " "") [ensure_endpoints (ex_host "10.0.0.2" "" "pc" "00:11:22:33:44:55")] _ _ _ _)).
  - repeat constructor; vm_compute; discriminate.
  - repeat constructor; vm_compute; done.
  - reflexivity.
  - vm_compute. discriminate.
Defined.

(** ** Favourites *)

Lemma find_index_alter test f l i : (forall h, test (f h) = test h) -> find_index test (alter f i l) = find_index test l.
Proof.
  intros H. revert i. induction l as [|h l IH]; intros [|i]; cbn; [done|done|by rewrite H|]. fold (alter f i l). by rewrite IH.
Qed.

Definition distinct_apps (favorites : list App) : Prop := NoDup (ap_id <$> favorites).

Lemma erase_app_ids app_id l : distinct_apps l -> distinct_apps (erase_app app_id l) /\
  forall i, i ∈ ap_id <$> erase_app app_id l <-> i ∈ ap_id <$> l /\ i <> app_id.
Proof.
  unfold distinct_apps. induction l as [|f l IH]; [cbn; set_solver|]. cbn. intros [Hn Hl]%list.NoDup_cons.
  destruct (IH Hl) as [IH1 IH2]. destruct (Z.eqb_spec (ap_id f) app_id) as [E|E].
  - split; [done|]. intros i. split; [set_solver|]. intros [[->|Hi]%elem_of_cons Hne]; [done|done].
  - cbn. split; [constructor; [by rewrite IH2; naive_solver|done]|]. intros i. rewrite !elem_of_cons, IH2. naive_solver.
Qed.

Lemma existsb_ids app_id l : existsb (fun f => ap_id f =? app_id) l = true <-> app_id ∈ ap_id <$> l.
Proof.
  rewrite existsb_exists, list_elem_of_fmap. split.
  - intros (f & Hf & <-%Z.eqb_eq). exists f. by rewrite list_elem_of_In.
  - intros (f & -> & Hf). exists f. rewrite Z.eqb_refl. by rewrite <- list_elem_of_In.
Qed.

(** After an application is added to a stored host's favourites it is one, and
    after it is removed it is not; no host ever has the same favourite twice. *)
Theorem favorites_spec (host : Host) (app : App) (hosts : list Host) :
  Forall (fun h => distinct_apps (h_favorites h)) hosts -> is_Some (find_host hosts host) ->
  is_favorite host (ap_id app) (add_favorite host app hosts) = true /\
  is_favorite host (ap_id app) (remove_favorite host (ap_id app) hosts) = false /\
  Forall (fun h => distinct_apps (h_favorites h)) (add_favorite host app hosts) /\
  Forall (fun h => distinct_apps (h_favorites h)) (remove_favorite host (ap_id app) hosts).
Proof.
  intros Hd [i Hi]. unfold add_favorite, remove_favorite, is_favorite. rewrite Hi.
  assert (forall f, find_host (alter (fun h => with_favorites (f h) h) i hosts) host = Some i) as Hf.
  { intros f. unfold find_host. rewrite find_index_alter; [done|]. done. }
  rewrite !Hf. cbn [mbind option_bind]. rewrite !list_lookup_alter_eq. pose proof Hi as (h & Hh & _)%find_index_Some.
  rewrite Hh. cbn [fmap option_fmap option_map with_favorites h_favorites].
  assert (forall f, (forall h, distinct_apps (h_favorites h) -> distinct_apps (f h)) ->
    Forall (fun h => distinct_apps (h_favorites h)) (alter (fun h => with_favorites (f h) h) i hosts)) as Hall.
  { intros f H. apply list.Forall_alter; [done|]. intros x Hx Hx2. by apply H. }
  pose proof (proj1 (list.Forall_lookup _ _) Hd i h Hh) as Hdh. cbn beta in Hdh.
  split_and!.
  - apply existsb_ids. rewrite fmap_app. cbn. set_solver.
  - apply not_true_iff_false. rewrite existsb_ids. destruct (erase_app_ids (ap_id app) _ Hdh) as [_ ->]. naive_solver.
  - apply Hall. intros x Hx. destruct (erase_app_ids (ap_id app) _ Hx) as [H1 H2]. unfold distinct_apps. rewrite fmap_app. cbn.
    apply list.NoDup_app. split_and!; [done| |apply list.NoDup_singleton]. intros j Hj. apply H2 in Hj. set_solver.
  - apply Hall. intros x Hx. by apply erase_app_ids.
Qed.
Lemma favorites_spec_witness :
  is_favorite (ex_host "10.0.0.2" "" "pc" "") 7 (add_favorite (ex_host "10.0.0.2" "" "pc" "") {| ap_name := bs "Game"; ap_id := 7 |}
    [ex_host "10.0.0.2" "" "pc" ""]) = true.
Proof.
  apply (favorites_spec (ex_host "10.0.0.2" "" "pc" "") {| ap_name := bs "Game"; ap_id := 7 |} [ex_host "10.0.0.2" "" "pc" ""]).
  - repeat constructor.
  - exists 0%nat. vm_compute. reflexivity.
Defined.

(** ** Network addresses *)

(** The port and the rest of an address make up the address. *)
Theorem strip_port_suffix (address : bytes) : strip_ipv4_port address ++ ipv4_port_suffix address = address.
Proof.
  unfold strip_ipv4_port, ipv4_port_suffix. destruct (find _ address) as [k|]; [|by rewrite app_nil_r].
  destruct (find_from _ _ _); [by rewrite app_nil_r|]. unfold substr, substr_from. rewrite drop_0. apply take_drop.
Qed.
