(* ===== verification/WakeOnLan.v ===== *)
(** Waking a host: addresses, ports and packets ([features/host/WakeOnLanTargets.cpp]),
    the overrides of a host and their file ([WakeOnLanOverridesStore.cpp]), and
    sending the packets ([streaming/WakeOnLanManager.cpp], the build with BSD
    sockets) with every call made on the network. *)

From stdpp Require Import gmultiset.
From S2P Require Import Prelude Text CText HostAddress Ownership Double Data Jansson JsonFile HostRecords.

#[local] Open Scope Z_scope.
#[local] Set Warnings "-clear-no-such-hyp".

(** ** Targets *)

Record WakeOnLanOverride := {
  ov_mac : bytes;
  ov_address : bytes;
  ov_port : Z;
  ov_secureOnPassword : bytes;
  ov_resendAttempts : Z;
}.
Definition no_override : WakeOnLanOverride :=
  {| ov_mac := []; ov_address := []; ov_port := 0; ov_secureOnPassword := []; ov_resendAttempts := 0 |}.

Definition kDefaultSunshinePort : Z := 47989.
Definition kStaticPorts : list Z := [9; 47009].
Definition kDynamicPorts : list Z := [47998; 47999; 48000; 48002; 48010].

Definition pushUniqueString (out : list bytes) (v : bytes) : list bytes :=
  if negb (bool_decide (v = [])) && negb (bool_decide (v ∈ out)) then out ++ [v] else out.
Definition pushUniquePort (out : list Z) (p : Z) : list Z := if bool_decide (p ∈ out) then out else out ++ [p].

(** [std::isxdigit], [std::toupper] in the "C" locale. *)
Definition isxdigit (b : byte) : bool := in_base 16 b.
Definition toupper (b : byte) : byte := if (97 <=? ub b) && (ub b <=? 122) then u8 (ub b - 32) else b.

(** The loop; [None]: a character that is neither a digit nor a separator. *)
Fixpoint mac_digits (mac : bytes) : option bytes :=
  match mac with
  | [] => Some []
  | c :: rest =>
      if isxdigit c then cons (toupper c) <$> mac_digits rest
      else if bool_decide (c = ch ":") || bool_decide (c = ch "-") || is_space c then mac_digits rest
      else None
  end.
Definition normalizeMacAddress (mac : bytes) : bytes :=
  match mac_digits mac with
  | None => []
  | Some normalized =>
      if negb (length normalized =? 12)%nat then []
      else if forallb (fun c => bool_decide (c = ch "0")) normalized then [] else normalized
  end.

Definition hasUsableOverrideMac (over : WakeOnLanOverride) : bool := negb (bool_decide (normalizeMacAddress (ov_mac over) = [])).

Definition wakeTargetAddresses (over : WakeOnLanOverride) (hostAddresses : list bytes) : list bytes :=
  foldl pushUniqueString (pushUniqueString [] (ov_address over)) hostAddresses.

Definition wakeTargetPorts (over : WakeOnLanOverride) (basePort : Z) : list Z :=
  if negb (ov_port over =? 0) then [ov_port over]
  else
    let out := foldl pushUniquePort [] kStaticPorts in
    let base := if negb (basePort =? 0) then basePort else kDefaultSunshinePort in
    foldl (fun out p => pushUniquePort out (u16 (p - kDefaultSunshinePort + base))) out kDynamicPorts.

Definition nibble (c : byte) : option Z :=
  if is_digit c then Some (ub c - 48)
  else if is_upper c && (ub c <=? 70) then Some (ub c - 55)
  else if (97 <=? ub c) && (ub c <=? 102) then Some (ub c - 87)
  else None.
Fixpoint mac_bytes (n : nat) (normalized : bytes) : option bytes :=
  match n, normalized with
  | O, _ => Some []
  | S n, hi :: lo :: rest =>
      h ← nibble hi; l ← nibble lo; cons (u8 (Z.lor (Z.shiftl h 4) l)) <$> mac_bytes n rest
  | _, _ => None
  end.
Definition macToBytes (normalized : bytes) : option bytes :=
  if negb (length normalized =? 12)%nat then None else mac_bytes 6 normalized.

Definition buildMagicPacket (normalizedMac secureOnPassword : bytes) : bytes :=
  match macToBytes (normalizeMacAddress normalizedMac) with
  | None => []
  | Some mac =>
      let packet := replicate 6 (u8 255) ++ concat (replicate 16 mac) in
      let packet := if bool_decide (secureOnPassword = []) then Some packet
                    else (fun pwd => packet ++ pwd) <$> macToBytes (normalizeMacAddress secureOnPassword) in
      match packet with
      | None => []
      | Some packet => if negb (length packet =? 102)%nat && negb (length packet =? 108)%nat then [] else packet
      end
  end.

(** ** Overrides *)

Section store.
Context `{lib : Jansson}.

Record overrides_store := { m_overrides : gmap bytes WakeOnLanOverride }.
Definition SchemaVersion : Z := 1.

Definition override_json (over : WakeOnLanOverride) : value :=
  let l := json_object_set_new (bs "mac") (json_string (ov_mac over)) [] in
  let l := json_object_set_new (bs "address") (json_string (ov_address over)) l in
  let l := json_object_set_new (bs "port") (Some (VInteger (ov_port over))) l in
  let l := json_object_set_new (bs "resend_attempts") (Some (VInteger (ov_resendAttempts over))) l in
  VObject (json_object_set_new (bs "secure_on_password") (json_string (ov_secureOnPassword over)) l).
Definition overrides_json (s : overrides_store) : value :=
  let l := json_object_set_new (bs "schema_version") (Some (VInteger SchemaVersion)) [] in
  VObject (json_object_set_new (bs "hosts") (Some (VObject (write_entries override_json (m_overrides s)))) l).

Definition read_override (item : value) : option WakeOnLanOverride :=
  match item with
  | VObject _ => Some
      {| ov_mac := default [] (get_string "mac" item);
         ov_address := default [] (get_string "address" item);
         ov_port := default 0 (u16 <$> get_integer "port" item);
         ov_secureOnPassword := default [] (get_string "secure_on_password" item);
         ov_resendAttempts := default 0 (i32 <$> get_integer "resend_attempts" item) |}
  | _ => None
  end.
Definition read_overrides (root : option value) : overrides_store :=
  {| m_overrides :=
       match root with
       | Some (VObject l) =>
           match get_integer "schema_version" (VObject l), get_object "hosts" (VObject l) with
           | Some version, Some hosts => if version =? SchemaVersion then read_entries read_override hosts else ∅
           | _, _ => ∅
           end
       | _ => ∅
       end |}.

#[export] Instance overrides_file : Store overrides_store :=
  {| store_sorted := true; store_json := overrides_json; store_read := read_overrides |}.

(** The operations on a loaded store; the [bool]: whether the file is written. *)
Definition get_override (hostKey : bytes) (s : overrides_store) : WakeOnLanOverride := default no_override (m_overrides s !! hostKey).
Definition set_override (hostKey : bytes) (over : WakeOnLanOverride) (s : overrides_store) : overrides_store * bool :=
  ({| m_overrides := if bool_decide (hostKey = []) then m_overrides s else <[hostKey := over]> (m_overrides s) |}, true).
Definition clear_override (hostKey : bytes) (s : overrides_store) : overrides_store * bool :=
  ({| m_overrides := delete hostKey (m_overrides s) |}, bool_decide (is_Some (m_overrides s !! hostKey))).
End store.

(** ** Sending *)

(** [normalize_mac_address] is the same text as [normalizeMacAddress]. *)
Definition normalize_mac_address : bytes -> bytes := normalizeMacAddress.

(** What a call that may leave by an exception gives. *)
Inductive thrown A := Threw | Came (a : A).
Arguments Threw {A}. Arguments Came {A}.

(** [std::stoul] throws on a number of more than 64 bits. *)
Definition try_parse_port (portText : bytes) : thrown (option Z) :=
  if bool_decide (portText = []) then Came None
  else if negb (forallb is_digit portText) then Came None
  else match stoul 10 portText with
       | None => Threw
       | Some parsedPort => Came (if (parsedPort =? 0) || (65535 <? parsedPort) then None else Some parsedPort)
       end.

Definition DEFAULT_SUNSHINE_PORT : Z := 47989.
Definition count_colons (l : bytes) : nat := length (List.filter (fun c => bool_decide (c = ch ":")) l).
(** The address and the base port. *)
Definition split_address_and_port (addressPort : bytes) : thrown (option (bytes * Z)) :=
  match addressPort with
  | [] => Came None
  | front :: _ =>
      if bool_decide (front = ch "[") then
        match find (ch "]") addressPort with
        | None => Came None
        | Some closing =>
            let address := substr 1 (closing - 1) addressPort in
            match addressPort !! (closing + 1)%nat with
            | Some c =>
                if negb (bool_decide (c = ch ":")) then Came None
                else match try_parse_port (substr_from (closing + 2) addressPort) with
                     | Threw => Threw
                     | Came p => Came ((fun p => (address, p)) <$> p)
                     end
            | None => Came (if bool_decide (address = []) then None else Some (address, DEFAULT_SUNSHINE_PORT))
            end
        end
      else
        let whole := Came (Some (addressPort, DEFAULT_SUNSHINE_PORT)) in
        match (if (count_colons addressPort =? 1)%nat then rfind (ch ":") addressPort else None) with
        | None => whole
        | Some separator =>
            match try_parse_port (substr_from (separator + 1) addressPort) with
            | Threw => Threw
            | Came None => whole
            | Came (Some p) =>
                let address := substr 0 separator addressPort in
                Came (if bool_decide (address = []) then None else Some (address, p))
            end
        end
  end.

(** [broadcast]: the address of the console's network, as text, when it is known. *)
Definition wake_address_candidates (h : Host) (over : WakeOnLanOverride) (broadcast : option bytes) : list bytes :=
  let candidates := if bool_decide (ov_address over = []) then [] else [ov_address over] in
  let candidates := foldl pushUniqueString candidates (connection_addresses h) in
  let candidates := match broadcast with Some a => pushUniqueString candidates a | None => candidates end in
  pushUniqueString candidates (bs "255.255.255.255").

Definition wake_port_candidates (basePort : Z) (over : WakeOnLanOverride) : list Z :=
  if negb (ov_port over =? 0) then [ov_port over]
  else foldl (fun out p => pushUniquePort out (u16 (p - DEFAULT_SUNSHINE_PORT + basePort))) (foldl pushUniquePort [] kStaticPorts) kDynamicPorts.

Definition create_payload (normalizedMac : bytes) : bytes :=
  let macAddress := hex_to_bytes normalizedMac in
  if negb (length macAddress =? 6)%nat then [] else replicate 6 (u8 255) ++ concat (replicate 16 macAddress).

(** *** The network *)

Inductive family := Inet | Inet6 | OtherFamily.
Record addrinfo := { ai_family : family; ai_addr : bytes }.

(** The calls and what they gave. A handle is the number of the call that gave it. *)
Inductive net_call :=
| Getaddrinfo (address : bytes) (result : option nat)
| OpenSocket (f : family) (h : option nat)
| EnableBroadcast (h : nat) (ok : bool)
| SendTo (h : nat) (target : bytes) (port : option Z) (payload : bytes) (ok : bool)
| CloseSocket (h : nat)
| Freeaddrinfo (r : nat).

(** What the network answers, given the calls before: the addresses of a name, or
    none; whether a call works; the text of the last error. *)
Record network := {
  net_resolve : list net_call -> bytes -> list addrinfo;
  net_ok : list net_call -> bool;
  net_errno : list net_call -> bytes;
}.

Inductive handle := Socket (h : nat) | Results (r : nat).
#[export] Instance handle_eq_dec : EqDecision handle.
Proof. solve_decision. Defined.
#[export] Program Instance handle_countable : Countable handle :=
  inj_countable' (fun x => match x with Socket h => inl h | Results r => inr r end) (fun s => match s with inl h => Socket h | inr r => Results r end) _.
Next Obligation. by intros []. Qed.
#[export] Instance net_uses : Uses net_call handle := {|
  needs c := match c with
    | EnableBroadcast h _ | SendTo h _ _ _ _ | CloseSocket h => {[+ Socket h +]}
    | Freeaddrinfo r => {[+ Results r +]}
    | _ => ∅ end;
  gives c := match c with
    | Getaddrinfo _ (Some r) => {[+ Results r +]}
    | OpenSocket _ (Some h) | EnableBroadcast h _ | SendTo h _ _ _ _ => {[+ Socket h +]}
    | _ => ∅ end;
|}.

(** The locals of [send_magic_packets], and the calls so far. *)
Record sending := { lastError : bytes; packetsSent : nat; calls : list net_call }.
Definition with_calls (l : list net_call) (s : sending) : sending :=
  {| lastError := lastError s; packetsSent := packetsSent s; calls := calls s ++ l |}.
Definition failing (text : string) (error : bytes) (s : sending) : sending :=
  {| lastError := bs text ++ error; packetsSent := packetsSent s; calls := calls s |}.
Definition one_more (s : sending) : sending :=
  {| lastError := lastError s; packetsSent := S (packetsSent s); calls := calls s |}.

(** [populate_port]. *)
Definition populate_port (f : family) (port : Z) : option Z := match f with Inet | Inet6 => Some port | OtherFamily => None end.

Section sending.
Context (net : network) (payload : bytes) (over : WakeOnLanOverride).

Definition send_to_port (h : nat) (current : addrinfo) (s : sending) (port : Z) : sending :=
  let ok := net_ok net (calls s) in
  let s := with_calls [SendTo h (ai_addr current) (populate_port (ai_family current) port) payload ok] s in
  if ok then one_more s else failing "Failed to send magic packet: " (net_errno net (calls s)) s.

Definition send_to_address (basePort : Z) (s : sending) (current : addrinfo) : sending :=
  if negb (net_ok net (calls s)) then
    let s := with_calls [OpenSocket (ai_family current) None] s in
    failing "Failed to create wake socket: " (net_errno net (calls s)) s
  else
    let h := length (calls s) in
    let s := with_calls [OpenSocket (ai_family current) (Some h)] s in
    let send s := with_calls [CloseSocket h] (foldl (send_to_port h current) s (wake_port_candidates basePort over)) in
    match ai_family current with
    | Inet =>
        if net_ok net (calls s) then send (with_calls [EnableBroadcast h true] s)
        else
          let s := with_calls [EnableBroadcast h false] s in
          with_calls [CloseSocket h] (failing "Failed to enable broadcast: " (net_errno net (calls s)) s)
    | _ => send s
    end.

(** The [bool]: an exception left the loop. *)
Definition send_to_candidate (r : sending * bool) (candidate : bytes) : sending * bool :=
  let '(s, threw) := r in
  if threw : bool then r
  else
    match split_address_and_port candidate with
    | Threw => (s, true)
    | Came None => (s, false)
    | Came (Some (rawAddress, basePort)) =>
        if bool_decide (rawAddress = []) then (s, false)
        else
          match net_resolve net (calls s) rawAddress with
          | [] => (failing "Failed to resolve wake address: " rawAddress (with_calls [Getaddrinfo rawAddress None] s), false)
          | addresses =>
              let r := length (calls s) in
              let s := foldl (send_to_address basePort) (with_calls [Getaddrinfo rawAddress (Some r)] s) addresses in
              (with_calls [Freeaddrinfo r] s, false)
          end
    end.

(** The result - [None]: sent - and the calls. *)
Definition send_magic_packets (candidates : list bytes) : thrown (option bytes) * list net_call :=
  if bool_decide (payload = []) then (Came (Some (bs "Magic packet payload is empty")), [])
  else
    let '(s, threw) := foldl send_to_candidate
      ({| lastError := bs "Failed to resolve any wake address"; packetsSent := 0; calls := [] |}, false) candidates in
    (if threw : bool then Threw else Came (if (packetsSent s =? 0)%nat then Some (lastError s) else None), calls s).
End sending.

Definition host_profile_key (h : Host) : bytes := stable_host_profile_key (h_mac h) [] (preferred_address h).

Definition can_wake_up_host (store : overrides_store) (h : Host) : bool :=
  if negb (bool_decide (normalize_mac_address (h_mac h) = [])) then true
  else hasUsableOverrideMac (get_override (host_profile_key h) store).

(** The MAC to wake: the override's, or the stored one. *)
Definition wake_mac (over : WakeOnLanOverride) (h : Host) : bytes :=
  let overrideMac := normalize_mac_address (ov_mac over) in
  if negb (bool_decide (overrideMac = [])) then overrideMac else normalize_mac_address (h_mac h).

Definition wake_up_host (net : network) (broadcast : option bytes) (store : overrides_store) (h : Host)
  : thrown (option bytes) * list net_call :=
  let over := get_override (host_profile_key h) store in
  let normalizedMac := wake_mac over h in
  if bool_decide (normalizedMac = []) then (Came (Some (bs "Missing or invalid host MAC address")), [])
  else
    let payload := create_payload normalizedMac in
    if negb (length payload =? 102)%nat then (Came (Some (bs "Failed to build Wake-on-LAN payload")), [])
    else send_magic_packets net payload over (wake_address_candidates h over broadcast).

(** ** The packet *)

Definition hex_upper : bytes := bs "0123456789ABCDEF".

Lemma toupper_xdigit c : isxdigit c = true -> toupper c ∈ hex_upper.
Proof. intros H. apply (bool_decide_unpack _). destruct c; try done; vm_compute; exact I. Qed.

Lemma mac_digits_hex mac : forall n, mac_digits mac = Some n -> Forall (fun c => c ∈ hex_upper) n.
Proof.
  induction mac as [|c mac IH]; intros n; cbn [mac_digits]; [by intros [= <-]|]. destruct (isxdigit c) eqn:E.
  - destruct (mac_digits mac) as [m|]; [|done]. intros [= <-]. constructor; [by apply toupper_xdigit|by apply IH].
  - destruct (bool_decide (c = ch ":") || _ || _); [apply IH|done].
Qed.

Lemma normalize_hex mac : normalizeMacAddress mac <> [] ->
  length (normalizeMacAddress mac) = 12%nat /\ Forall (fun c => c ∈ hex_upper) (normalizeMacAddress mac) /\
  exists c, c ∈ normalizeMacAddress mac /\ c <> ch "0".
Proof.
  unfold normalizeMacAddress. destruct (mac_digits mac) as [n|] eqn:E; [|done]. destruct (Nat.eqb_spec (length n) 12) as [Hl|]; [|done].
  cbn [negb]. destruct (forallb _ n) eqn:Ez; [done|]. intros _. split; [done|]. split; [by eapply mac_digits_hex|].
  destruct (decide (Exists (fun c => c <> ch "0") n)) as [(c & Hc & Hne)%list_relations.list.Exists_exists|Hn]; [by exists c|].
  apply not_true_iff_false in Ez. destruct Ez. apply forallb_forall. intros c Hc. apply bool_decide_eq_true, dec_stable. intros Hne.
  apply Hn, list_relations.list.Exists_exists. exists c. split; [by apply list_elem_of_In|done].
Qed.

(** Two digits are a byte, for [strtoul] and for the shifts alike. *)
Definition same_pair (a b : byte) : bool :=
  let v := u8 (let '(v, _, _) := strtoul 16 (c_str [a; b]) in v) in
  bool_decide ((h ← nibble a; l ← nibble b; Some (u8 (Z.lor (Z.shiftl h 4) l))) = Some v) && bool_decide (hex_byte v = [a; b]).
Lemma same_pairs : forallb (fun a => forallb (same_pair a) hex_upper) hex_upper = true.
Proof. vm_compute. reflexivity. Qed.

Lemma mac_pairs n : forall l, length l = (2 * n)%nat -> Forall (fun c => c ∈ hex_upper) l ->
  mac_bytes n l = Some (hex_to_bytes l) /\ length (hex_to_bytes l) = n /\ (hex_to_bytes l ≫= hex_byte) = l.
Proof.
  induction n as [|n IH]; intros l Hl Hf; [by destruct l|]. destruct l as [|a [|b l]]; [done|cbn in Hl; lia|].
  apply list.Forall_cons in Hf as [Ha Hf]. apply list.Forall_cons in Hf as [Hb Hf]. destruct (IH l ltac:(cbn in Hl; lia) Hf) as (H1 & H2 & H3).
  assert (same_pair a b = true) as Hp.
  { pose proof same_pairs as H. rewrite forallb_forall in H. specialize (H a (proj1 (list_elem_of_In _ _) Ha)). rewrite forallb_forall in H.
    by apply H, list_elem_of_In. }
  apply andb_prop in Hp as [Hp1%bool_decide_eq_true Hp2%bool_decide_eq_true]. cbn [mac_bytes hex_to_bytes].
  set (v := u8 _) in *. split_and!.
  - destruct (nibble a); [|done]. cbn [mbind option_bind] in Hp1 |- *. destruct (nibble b); [|done]. cbn [mbind option_bind] in Hp1 |- *.
    injection Hp1 as ->. by rewrite H1.
  - cbn [length]. by rewrite H2.
  - cbn [mbind list_bind]. rewrite Hp2. cbn [app]. f_equal. f_equal. exact H3.
Qed.

(** A MAC that can be used - with separators, in any case, not all zeros - is six
    bytes, and both builders make the same packet of them: six times 255, then the
    MAC sixteen times, 102 bytes; with a password that reads as six bytes too it
    is followed by them, 108 in all. *)
Theorem magic_packet_spec (mac : bytes) : normalizeMacAddress mac <> [] ->
  exists m, length m = 6%nat /\ hex m = normalizeMacAddress mac /\ m <> replicate 6 (u8 0) /\
    let packet := replicate 6 (u8 255) ++ concat (replicate 16 m) in
    length packet = 102%nat /\ create_payload (normalize_mac_address mac) = packet /\ buildMagicPacket mac [] = packet /\
    forall password, normalizeMacAddress password <> [] ->
      exists p, length p = 6%nat /\ hex p = normalizeMacAddress password /\ buildMagicPacket mac password = packet ++ p.
Proof.
  intros H. assert (forall mac, normalizeMacAddress mac <> [] -> let m := hex_to_bytes (normalizeMacAddress mac) in
    macToBytes (normalizeMacAddress mac) = Some m /\ length m = 6%nat /\ (m ≫= hex_byte) = normalizeMacAddress mac /\ m <> replicate 6 (u8 0)) as Hm.
  { intros mac' H'. destruct (normalize_hex mac' H') as (Hl & Hf & c & Hc & Hne). destruct (mac_pairs 6 _ Hl Hf) as (H1 & H2 & H3).
    unfold macToBytes. rewrite Hl. cbn [Nat.eqb negb]. split; [exact H1|]. split; [exact H2|]. split; [exact H3|]. intros E. rewrite E in H3.
    rewrite <- H3 in Hc. vm_compute in Hc. set_solver. }
  destruct (Hm mac H) as (H1 & H2 & H3 & H4). set (m := hex_to_bytes (normalizeMacAddress mac)) in *. cbv zeta in *.
  assert (forall p : bytes, length p = 6%nat -> hex p = p ≫= hex_byte) as Hh by (intros [|? ?] ?; done).
  assert (length (concat (replicate 16 m)) = 96%nat) as H96 by (cbn [replicate concat]; rewrite !length_app, !H2; done).
  exists m. split; [done|]. split; [by rewrite Hh|]. split; [done|]. set (packet := _ ++ concat _).
  assert (length packet = 102%nat) as Hp by (unfold packet; by rewrite length_app, length_replicate, H96). split; [done|]. split_and!.
  - unfold create_payload. change (normalize_mac_address mac) with (normalizeMacAddress mac). fold m. by rewrite H2.
  - unfold buildMagicPacket. rewrite H1. fold packet. cbn [bool_decide decide]. rewrite bool_decide_true by done. by rewrite Hp.
  - intros password Hpw. destruct (Hm password Hpw) as (P1 & P2 & P3 & _). eexists. split; [exact P2|]. split; [by rewrite Hh|].
    unfold buildMagicPacket. rewrite H1, P1. fold packet. rewrite bool_decide_false by (intros ->; by apply Hpw).
    cbn [fmap option_fmap option_map]. by rewrite length_app, Hp, P2.
Qed.

Lemma magic_packet_spec_witness :
  normalizeMacAddress (bs "aa:bb-CC dd:ee:0f") = bs "AABBCCDDEE0F" /\
  exists m, length m = 6%nat /\ hex m = bs "AABBCCDDEE0F" /\ m <> replicate 6 (u8 0) /\
    let packet := replicate 6 (u8 255) ++ concat (replicate 16 m) in
    length packet = 102%nat /\ create_payload (normalize_mac_address (bs "aa:bb-CC dd:ee:0f")) = packet /\
    buildMagicPacket (bs "aa:bb-CC dd:ee:0f") [] = packet /\
    forall password, normalizeMacAddress password <> [] ->
      exists p, length p = 6%nat /\ hex p = normalizeMacAddress password /\ buildMagicPacket (bs "aa:bb-CC dd:ee:0f") password = packet ++ p.
Proof.
  assert (normalizeMacAddress (bs "aa:bb-CC dd:ee:0f") = bs "AABBCCDDEE0F") as E by (vm_compute; reflexivity).
  split; [exact E|]. rewrite <- E. apply (magic_packet_spec (bs "aa:bb-CC dd:ee:0f")). rewrite E. discriminate.
Defined.

(** ** What is sent *)

Definition sent_ok (c : net_call) : bool := match c with SendTo _ _ _ _ ok => ok | _ => false end.
Definition sent_count (l : list net_call) : nat := length (List.filter sent_ok l).
Lemma sent_count_app a b : sent_count (a ++ b) = (sent_count a + sent_count b)%nat.
Proof. unfold sent_count. by rewrite List.filter_app, length_app. Qed.

Lemma net_moves (c : net_call) : moves [c] (needs c : gmultiset handle) (gives c).
Proof. apply moves_call. Qed.

(** A packet is the host's, and goes to the port of the override if there is one. *)
Definition right_packet (payload : bytes) (over : WakeOnLanOverride) (c : net_call) : Prop :=
  match c with SendTo _ _ port p _ => p = payload /\ (ov_port over <> 0 -> port = None \/ port = Some (ov_port over)) | _ => True end.

Section spec.
Context (net : network) (payload : bytes) (over : WakeOnLanOverride).

(** What a part of [send_magic_packets] does, with [own] open at both its ends. *)
Definition sends_by (own : gmultiset handle) (s s' : sending) : Prop := exists made,
  calls s' = calls s ++ made /\ moves made own own /\ Forall (right_packet payload over) made /\
  packetsSent s' = (packetsSent s + sent_count made)%nat /\ (lastError s <> [] -> lastError s' <> []).

Lemma sends_refl own s : sends_by own s s.
Proof. exists []. rewrite app_nil_r. split_and!; [done|apply moves_nil|done|cbn; lia|done]. Qed.
Lemma sends_trans own s1 s2 s3 : sends_by own s1 s2 -> sends_by own s2 s3 -> sends_by own s1 s3.
Proof.
  intros (m1 & E1 & H1 & G1 & N1 & L1) (m2 & E2 & H2 & G2 & N2 & L2). exists (m1 ++ m2). rewrite E2, E1, sent_count_app, <- app_assoc.
  split_and!; [done|by eapply moves_app|by apply list.Forall_app|lia|auto].
Qed.
Lemma sends_foldl {A} own (f : sending -> A -> sending) (l : list A) : (forall s x, sends_by own s (f s x)) -> forall s, sends_by own s (foldl f s l).
Proof. intros Hf. induction l as [|x l IH]; intros s; [apply sends_refl|]. cbn. eapply sends_trans; [apply Hf|apply IH]. Qed.

Lemma sends_port h current s p : p ∈ (if negb (ov_port over =? 0) then [ov_port over] else p :: []) ->
  sends_by {[+ Socket h +]} s (send_to_port net payload h current s p).
Proof.
  intros Hp. unfold send_to_port. set (c := SendTo h _ _ _ _). assert (moves [c] {[+ Socket h +]} {[+ Socket h +]}) as Hm by apply (net_moves c).
  assert (right_packet payload over c) as Hc.
  { split; [done|]. intros H. rewrite (proj2 (Z.eqb_neq _ _) H) in Hp. cbn in Hp. apply list_elem_of_singleton in Hp as ->.
    unfold populate_port. destruct (ai_family current); auto. }
  exists [c]. destruct (net_ok net (calls s)) eqn:E; cbn [with_calls calls one_more failing packetsSent lastError].
  - split_and!; [done|done|by apply list.Forall_singleton| |done]. unfold sent_count, c. cbn. lia.
  - split_and!; [done|done|by apply list.Forall_singleton| |done]. unfold sent_count, c. cbn. lia.
Qed.

Lemma sends_ports h current base s : sends_by {[+ Socket h +]} s (foldl (send_to_port net payload h current) s (wake_port_candidates base over)).
Proof.
  unfold wake_port_candidates. destruct (negb (ov_port over =? 0)) eqn:E.
  - cbn [foldl]. apply sends_port. rewrite E. left.
  - apply sends_foldl. intros s' p. apply sends_port. rewrite E. left.
Qed.

(** A call that opens [x], a part that leaves it open, and the call that closes it. *)
Lemma sends_around own x first last s s' : moves [first] ∅ x -> moves [last] x ∅ -> sent_ok first = false -> sent_ok last = false ->
  right_packet payload over first -> right_packet payload over last ->
  sends_by x (with_calls [first] s) s' -> sends_by own s (with_calls [last] s').
Proof.
  intros H1 H2 S1 S2 R1 R2 (m & E & Hm & G & N & L). exists ([first] ++ m ++ [last]). cbn [with_calls calls packetsSent lastError].
  rewrite E. cbn [with_calls calls]. split_and!.
  - by rewrite <- !app_assoc.
  - eapply moves_eq; [apply (moves_frame _ ∅ ∅ own)| |]; [|by rewrite (left_id_L ∅ (⊎))..].
    eapply moves_app; [exact H1|]. by eapply moves_app; [exact Hm|].
  - apply list.Forall_app. split; [by apply list.Forall_singleton|]. apply list.Forall_app. split; [done|by apply list.Forall_singleton].
  - rewrite N, !sent_count_app. unfold sent_count at 2 4. cbn. rewrite S1, S2. cbn. lia.
  - done.
Qed.

Lemma sends_fail own c text error s : moves [c] ∅ ∅ -> sent_ok c = false -> right_packet payload over c -> text <> ""%string ->
  sends_by own s (failing text error (with_calls [c] s)).
Proof.
  intros Hm Hs Hr Ht. exists [c]. cbn [failing with_calls calls packetsSent lastError]. split_and!; [done| |by apply list.Forall_singleton| |].
  - eapply moves_eq; [apply (moves_frame _ ∅ ∅ own Hm)| |]; by rewrite (left_id_L ∅ (⊎)).
  - unfold sent_count. cbn. rewrite Hs. cbn. lia.
  - intros _. destruct text; done.
Qed.

Lemma sends_address base own s current : sends_by own s (send_to_address net payload over base s current).
Proof.
  unfold send_to_address. destruct (net_ok net (calls s)); cbn [negb]; [|by apply sends_fail; [apply (net_moves (OpenSocket _ None))|..]].
  set (h := length (calls s)). assert (forall f, moves [OpenSocket f (Some h)] ∅ {[+ Socket h +]}) as Ho by (intros f; apply (net_moves (OpenSocket f (Some h)))).
  pose proof (net_moves (CloseSocket h)) as Hc. cbn [needs gives net_uses] in Hc.
  assert (forall ok s, sends_by {[+ Socket h +]} s (with_calls [EnableBroadcast h ok] s)) as Hb.
  { intros ok s0. exists [EnableBroadcast h ok]. split_and!; [done|apply (net_moves (EnableBroadcast h ok))|by apply list.Forall_singleton|cbn; lia|done]. }
  destruct (ai_family current).
  - destruct (net_ok net _).
    + eapply sends_around; [apply Ho|exact Hc|done..|]. eapply sends_trans; [apply Hb|apply sends_ports].
    + eapply sends_around; [apply Ho|exact Hc|done..|]. eapply sends_trans; [apply Hb|]. exists []. rewrite app_nil_r.
      split_and!; [done|apply moves_nil|done|cbn; lia|done].
  - eapply sends_around; [apply Ho|exact Hc|done..|]. apply sends_ports.
  - eapply sends_around; [apply Ho|exact Hc|done..|]. apply sends_ports.
Qed.

Lemma sends_candidate own r candidate : sends_by own r.1 (send_to_candidate net payload over r candidate).1.
Proof.
  destruct r as [s threw]. unfold send_to_candidate. destruct threw; [apply sends_refl|].
  destruct (split_address_and_port candidate) as [|[[rawAddress base]|]]; [apply sends_refl| |apply sends_refl].
  destruct (bool_decide _); [apply sends_refl|]. destruct (net_resolve net _ _) as [|i l].
  - apply sends_fail; [apply (net_moves (Getaddrinfo _ None))|done..].
  - eapply sends_around; [apply (net_moves (Getaddrinfo rawAddress (Some (length (calls s)))))|apply (net_moves (Freeaddrinfo (length (calls s))))|done..|].
    apply sends_foldl. intros s' x. apply sends_address.
Qed.

Lemma sends_candidates candidates r : sends_by ∅ r.1 (foldl (send_to_candidate net payload over) r candidates).1.
Proof.
  revert r; induction candidates as [|c l IH]; intros r; [apply sends_refl|]. cbn [foldl].
  eapply sends_trans; [apply sends_candidate|apply IH].
Qed.
End spec.

(** Waking a host makes no call on the network without a MAC that can be used;
    with one, every packet is that MAC's - the override's if it has one - and goes
    to the override's port if it names one; every socket and every list of
    addresses is used while open and closed once, also when a port number throws;
    and the result is a success exactly when a packet was sent, else a text. *)
Theorem wake_up_spec (net : network) (broadcast : option bytes) (store : overrides_store) (h : Host) :
  let over := get_override (host_profile_key h) store in
  let '(result, log) := wake_up_host net broadcast store h in
  can_wake_up_host store h = negb (bool_decide (wake_mac over h = [])) /\
  (wake_mac over h = [] -> log = [] /\ result = Came (Some (bs "Missing or invalid host MAC address"))) /\
  run log ∅ = Some ∅ /\
  Forall (right_packet (create_payload (wake_mac over h)) over) log /\
  match result with
  | Came None => exists c, c ∈ log /\ sent_ok c = true
  | Came (Some error) => sent_count log = 0%nat /\ error <> []
  | Threw => exists a, a ∈ wake_address_candidates h over broadcast /\ split_address_and_port a = Threw
  end.
Proof.
  cbv zeta. unfold wake_up_host. set (over := get_override _ store). set (mac := wake_mac over h).
  assert (can_wake_up_host store h = negb (bool_decide (mac = []))) as Hcan.
  { unfold can_wake_up_host, hasUsableOverrideMac, mac, wake_mac. fold over. change normalize_mac_address with normalizeMacAddress.
    repeat (case_bool_decide; cbn [negb] in * ); congruence. }
  destruct (bool_decide (mac = [])) eqn:Em.
  { apply bool_decide_eq_true in Em. split; [done|]. by split_and!. }
  apply bool_decide_eq_false in Em. destruct (length (create_payload mac) =? 102)%nat eqn:El; cbn [negb]; [|split; [done|]; by split_and!].
  unfold send_magic_packets. rewrite bool_decide_false by (intros E; by rewrite E in El).
  set (s0 := {| lastError := _ |}). pose proof (sends_candidates net (create_payload mac) over (wake_address_candidates h over broadcast) (s0, false)) as H.
  assert (forall l r, (foldl (send_to_candidate net (create_payload mac) over) r l).2 = true -> r.2 = true \/
    exists a, a ∈ l /\ split_address_and_port a = Threw) as Hthrew.
  { induction l as [|a l IH]; intros r; cbn [foldl]; [auto|]. intros [E|(x & Hx & E)]%IH; [|right; exists x; split; [by right|done]].
    destruct r as [s threw]. unfold send_to_candidate in E. destruct threw; [by left|].
    destruct (split_address_and_port a) as [|[[raw base]|]] eqn:Ea; [right; exists a; split; [left|done]| |done].
    destruct (bool_decide _); [done|]. by destruct (net_resolve net _ _). }
  specialize (Hthrew (wake_address_candidates h over broadcast) (s0, false)).
  destruct (foldl _ _ _) as [s threw]. destruct H as (made & E & Hm & Hg & Hn & Hl). cbn [fst snd calls s0 app packetsSent lastError] in *.
  split; [done|]. split; [done|]. rewrite E. split; [by apply moves_run|]. split; [done|]. destruct threw.
  { by destruct (Hthrew eq_refl). }
  destruct (Nat.eqb_spec (packetsSent s) 0) as [E0|E0]; [split; [lia|by apply Hl]|].
  assert (exists c, c ∈ List.filter sent_ok made) as [c Hc].
  { unfold sent_count in Hn. destruct (List.filter sent_ok made) as [|c l]; [cbn in Hn; lia|]. exists c. left. }
  exists c. apply list_elem_of_In, filter_In in Hc as [Hc1 Hc2]. split; [by apply list_elem_of_In|done].
Qed.

(** ** Targets *)

Lemma push_string_elem out v a : a ∈ pushUniqueString out v <-> a ∈ out \/ (a = v /\ v <> []).
Proof.
  unfold pushUniqueString. case_bool_decide as E1; cbn [negb andb]; [naive_solver|]. case_bool_decide as E2; cbn [negb]; [naive_solver|]. set_solver.
Qed.
Lemma push_string_nodup out v : NoDup out -> NoDup (pushUniqueString out v).
Proof.
  intros H. unfold pushUniqueString. case_bool_decide as E1; cbn [negb andb]; [done|]. case_bool_decide as E2; cbn [negb]; [done|].
  apply list.NoDup_app. split; [done|]. split; [set_solver|apply list.NoDup_singleton].
Qed.
Lemma push_port_elem out v a : a ∈ pushUniquePort out v <-> a ∈ out \/ a = v.
Proof. unfold pushUniquePort. case_bool_decide as E; [naive_solver|set_solver]. Qed.
Lemma push_port_nodup out v : NoDup out -> NoDup (pushUniquePort out v).
Proof.
  intros H. unfold pushUniquePort. case_bool_decide; [done|]. apply list.NoDup_app. split; [done|]. split; [set_solver|apply list.NoDup_singleton].
Qed.
Lemma push_strings l : forall out a, a ∈ foldl pushUniqueString out l <-> a ∈ out \/ (a ∈ l /\ a <> []).
Proof. induction l as [|x l IH]; intros out a; cbn [foldl]; [set_solver|]. rewrite IH, push_string_elem. set_solver. Qed.
Lemma push_strings_nodup l : forall out, NoDup out -> NoDup (foldl pushUniqueString out l).
Proof. induction l as [|x l IH]; intros out H; [done|]. apply IH, push_string_nodup, H. Qed.
Lemma push_strings_head l : forall x out, head (foldl pushUniqueString (x :: out) l) = Some x.
Proof.
  induction l as [|v l IH]; intros x out; [done|]. cbn [foldl]. assert (exists out', pushUniqueString (x :: out) v = x :: out') as [out' ->]; [|apply IH].
  unfold pushUniqueString. destruct (_ && _); eexists; [by rewrite <- app_comm_cons|done].
Qed.

(** The ports of a wake-up: the override's alone, or each of seven once. *)
Definition port_shift (base : Z) (p : Z) : Z := u16 (p - DEFAULT_SUNSHINE_PORT + base).
Lemma push_ports base l : forall out a, a ∈ foldl (fun out p => pushUniquePort out (u16 (p - DEFAULT_SUNSHINE_PORT + base))) out l <->
  a ∈ out \/ exists p, p ∈ l /\ a = port_shift base p.
Proof.
  induction l as [|x l IH]; intros out a; cbn [foldl]; [set_solver|]. rewrite IH, push_port_elem. unfold port_shift. set_solver.
Qed.
Lemma push_ports_nodup base l : forall out, NoDup out -> NoDup (foldl (fun out p => pushUniquePort out (u16 (p - DEFAULT_SUNSHINE_PORT + base))) out l).
Proof. induction l as [|x l IH]; intros out H; [done|]. apply IH, push_port_nodup, H. Qed.

(** The addresses a wake-up goes to are those of the host and the broadcast
    addresses, each once, and the override's first if there is one; the ports are
    the override's, or the two fixed ones and the five that move with the base
    port - the same that [wakeTargetPorts] gives. *)
Theorem wake_targets_spec (h : Host) (over : WakeOnLanOverride) (broadcast : option bytes) (base : Z) :
  let l := wake_address_candidates h over broadcast in
  NoDup l /\
  (forall a, a ∈ l <-> a <> [] /\ (a = ov_address over \/ a ∈ connection_addresses h \/ broadcast = Some a \/ a = bs "255.255.255.255")) /\
  (ov_address over <> [] -> head l = Some (ov_address over)) /\
  let ports := wake_port_candidates base over in
  NoDup ports /\
  (forall p, p ∈ ports <-> if ov_port over =? 0 then p = 9 \/ p = 47009 \/ exists d, d ∈ [9; 10; 11; 13; 21] /\ p = u16 (base + d) else p = ov_port over) /\
  (base <> 0 -> wakeTargetPorts over base = ports).
Proof.
  cbv zeta. set (start := if bool_decide (ov_address over = []) then [] else [ov_address over]).
  assert (forall a, a ∈ start <-> a <> [] /\ a = ov_address over) as Hs by (intros a; unfold start; case_bool_decide; set_solver).
  assert (NoDup start) as Hn by (unfold start; case_bool_decide; [constructor|apply list.NoDup_singleton]).
  assert (wake_address_candidates h over broadcast = foldl pushUniqueString start (connection_addresses h ++ option_list broadcast ++ [bs "255.255.255.255"])) as E.
  { unfold wake_address_candidates. fold start. rewrite foldl_app. by destruct broadcast. }
  split_and!.
  - rewrite E. by apply push_strings_nodup.
  - intros a. rewrite E, push_strings, Hs, !elem_of_app. destruct broadcast; cbn [option_list]; set_solver.
  - intros H. rewrite E. unfold start. rewrite bool_decide_false by done. apply push_strings_head.
  - unfold wake_port_candidates. destruct (_ =? _); cbn [negb]; [|apply list.NoDup_singleton]. apply push_ports_nodup.
    apply (bool_decide_unpack _). vm_compute. exact I.
  - intros p. unfold wake_port_candidates. destruct (_ =? _); cbn [negb]; [|apply list_elem_of_singleton]. rewrite push_ports.
    assert (foldl pushUniquePort [] kStaticPorts = [9; 47009]) as -> by (vm_compute; reflexivity). unfold kDynamicPorts, port_shift, DEFAULT_SUNSHINE_PORT.
    split.
    + intros [H|(q & Hq & ->)]; [set_solver|]. right; right. exists (q - 47989). split; [set_solver|]. f_equal. lia.
    + intros [->|[->|(d & Hd & ->)]]; [left; set_solver|left; set_solver|]. right. exists (d + 47989). split; [set_solver|]. f_equal. lia.
  - intros H. unfold wakeTargetPorts, wake_port_candidates. by rewrite (proj2 (Z.eqb_neq _ _) H).
Qed.

(** ** When the network works *)

Definition sends_of (l : list net_call) : list (bytes * option Z) :=
  omap (fun c => match c with SendTo _ target port _ _ => Some (target, port) | _ => None end) l.
Lemma sends_of_app a b : sends_of (a ++ b) = sends_of a ++ sends_of b.
Proof. apply omap_app. Qed.
(** What one address of one candidate is sent. *)
Definition packets_to (over : WakeOnLanOverride) (base : Z) (i : addrinfo) : list (bytes * option Z) :=
  (fun p => (ai_addr i, populate_port (ai_family i) p)) <$> wake_port_candidates base over.
Definition fan_out (resolve : bytes -> list addrinfo) (over : WakeOnLanOverride) (candidate : bytes) : list (bytes * option Z) :=
  match split_address_and_port candidate with
  | Came (Some (a, base)) => if bool_decide (a = []) then [] else resolve a ≫= packets_to over base
  | _ => []
  end.

Section working.
Context (net : network) (resolve : bytes -> list addrinfo) (payload : bytes) (over : WakeOnLanOverride).
Hypothesis works : forall l, net_ok net l = true.
Hypothesis resolves : forall l a, net_resolve net l a = resolve a.

Lemma working_ports h i ports : forall s, sends_of (calls (foldl (send_to_port net payload h i) s ports)) =
  sends_of (calls s) ++ ((fun p => (ai_addr i, populate_port (ai_family i) p)) <$> ports).
Proof.
  induction ports as [|p ports IH]; intros s; cbn [foldl]; [by rewrite app_nil_r|]. rewrite IH. unfold send_to_port. rewrite works.
  cbn [with_calls one_more calls]. rewrite sends_of_app, <- app_assoc. done.
Qed.
Lemma working_address base i s : sends_of (calls (send_to_address net payload over base s i)) = sends_of (calls s) ++ packets_to over base i.
Proof.
  unfold send_to_address. rewrite works. cbn [negb].
  assert (forall s', sends_of (calls (with_calls [CloseSocket (length (calls s))] (foldl (send_to_port net payload (length (calls s)) i) s'
    (wake_port_candidates base over)))) = sends_of (calls s') ++ packets_to over base i) as H.
  { intros s'. cbn [with_calls calls]. rewrite sends_of_app, working_ports. cbn. by rewrite app_nil_r. }
  destruct (ai_family i); rewrite ?works, H; cbn [with_calls calls]; rewrite ?sends_of_app; cbn; by rewrite !app_nil_r.
Qed.
Lemma working_addresses base l : forall s, sends_of (calls (foldl (send_to_address net payload over base) s l)) =
  sends_of (calls s) ++ (l ≫= packets_to over base).
Proof.
  induction l as [|i l IH]; intros s; cbn [foldl mbind list_bind]; [by rewrite app_nil_r|]. by rewrite IH, working_address, <- app_assoc.
Qed.
Lemma working_candidate s c : split_address_and_port c <> Threw ->
  exists s', send_to_candidate net payload over (s, false) c = (s', false) /\ sends_of (calls s') = sends_of (calls s) ++ fan_out resolve over c.
Proof.
  intros Hc. unfold send_to_candidate, fan_out. destruct (split_address_and_port c) as [|[[a base]|]]; [done| |eexists; by rewrite app_nil_r].
  destruct (bool_decide (a = [])); [eexists; by rewrite app_nil_r|]. rewrite resolves. destruct (resolve a) as [|i l].
  - eexists. split; [done|]. cbn [failing with_calls calls]. rewrite sends_of_app. cbn. by rewrite !app_nil_r.
  - eexists. split; [done|]. change (calls (with_calls ?x ?s)) with (calls s ++ x). rewrite sends_of_app, working_addresses.
    change (calls (with_calls ?x ?s)) with (calls s ++ x). rewrite sends_of_app. cbn [sends_of omap list_omap]. by rewrite !app_nil_r.
Qed.
Lemma working_candidates l : Forall (fun c => split_address_and_port c <> Threw) l -> forall s,
  exists s', foldl (send_to_candidate net payload over) (s, false) l = (s', false) /\ sends_of (calls s') = sends_of (calls s) ++ (l ≫= fan_out resolve over).
Proof.
  induction 1 as [|c l Hc _ IH]; intros s; cbn [foldl mbind list_bind]; [eexists; by rewrite app_nil_r|].
  destruct (working_candidate s c Hc) as (s1 & -> & E1). destruct (IH s1) as (s2 & -> & E2). exists s2. split; [done|].
  rewrite E2, E1, <- app_assoc. reflexivity.
Qed.
End working.

(** When the network works, a host with a MAC that can be woken is sent one packet
    for every address of every target and every port, in the order of the targets,
    whatever the others resolve to. *)
Theorem wake_fans_out (net : network) (resolve : bytes -> list addrinfo) (broadcast : option bytes) (store : overrides_store) (h : Host) :
  (forall l, net_ok net l = true) -> (forall l a, net_resolve net l a = resolve a) ->
  can_wake_up_host store h = true ->
  let over := get_override (host_profile_key h) store in
  let targets := wake_address_candidates h over broadcast in
  Forall (fun c => split_address_and_port c <> Threw) targets ->
  sends_of (wake_up_host net broadcast store h).2 = targets ≫= fan_out resolve over.
Proof.
  intros Hok Hres Hcan over targets Ht. unfold wake_up_host. fold over. fold targets.
  assert (wake_mac over h <> []) as Hm.
  { intros E. unfold can_wake_up_host, hasUsableOverrideMac in Hcan. fold over in Hcan. unfold wake_mac in E.
    change normalize_mac_address with normalizeMacAddress in *. repeat (case_bool_decide; cbn [negb] in * ); congruence. }
  rewrite bool_decide_false by done. assert (exists mac, wake_mac over h = normalizeMacAddress mac) as [mac Hmac].
  { unfold wake_mac. change normalize_mac_address with normalizeMacAddress. case_bool_decide; cbn [negb]; eauto. }
  rewrite Hmac in *. destruct (normalize_hex mac Hm) as (Hl & Hf & _). destruct (mac_pairs 6 _ Hl Hf) as (_ & H6 & _).
  assert (length (create_payload (normalizeMacAddress mac)) = 102%nat) as H102.
  { unfold create_payload. rewrite H6. cbn [Nat.eqb negb]. cbn [replicate concat]. rewrite !length_app, !H6. done. }
  rewrite H102. cbn [Nat.eqb negb]. unfold send_magic_packets. rewrite bool_decide_false by (intros E; by rewrite E in H102).
  destruct (working_candidates net resolve (create_payload (normalizeMacAddress mac)) over Hok Hres targets Ht
    {| lastError := bs "Failed to resolve any wake address"; packetsSent := 0; calls := [] |}) as (s' & -> & E). exact E.
Qed.

Definition ex_pc : Host :=
  {| h_address := bs "10.0.0.2:48000"; h_remoteAddress := []; h_hostname := bs "pc"; h_mac := bs "00:00:00:00:00:00"; h_favorites := []; h_endpoints := [] |}.
Definition ex_over : WakeOnLanOverride :=
  {| ov_mac := bs "aa:bb:cc:dd:ee:ff"; ov_address := bs "wan.example"; ov_port := 0; ov_secureOnPassword := bs "001122334455"; ov_resendAttempts := 3 |}.
Definition ex_store : overrides_store := {| m_overrides := {[ host_profile_key ex_pc := ex_over ]} |}.
Definition ex_resolve (a : bytes) : list addrinfo := if bool_decide (a = bs "wan.example") then [] else [{| ai_family := Inet; ai_addr := a |}].
Definition ex_net : network := {| net_resolve := fun _ => ex_resolve; net_ok := fun _ => true; net_errno := fun _ => [] |}.

Lemma wake_fans_out_witness :
  sends_of (wake_up_host ex_net None ex_store ex_pc).2 = wake_address_candidates ex_pc ex_over None ≫= fan_out ex_resolve ex_over /\
  length (sends_of (wake_up_host ex_net None ex_store ex_pc).2) = 14%nat.
Proof.
  split; [|vm_compute; reflexivity].
  apply (wake_fans_out ex_net ex_resolve None ex_store ex_pc); [done|done|vm_compute; reflexivity|].
  repeat constructor; vm_compute; discriminate.
Defined.

(** ** The overrides on disk *)

(** An override [save] keeps as it is: UTF-8 without NUL, numbers of their types. *)
Definition override_ok `{Jansson} (over : WakeOnLanOverride) : Prop :=
  text_ok (ov_mac over) /\ text_ok (ov_address over) /\ text_ok (ov_secureOnPassword over) /\
  0 <= ov_port over < 2 ^ 16 /\ - 2 ^ 31 <= ov_resendAttempts over < 2 ^ 31.
Definition overrides_ok `{Jansson} (s : overrides_store) : Prop := map_Forall (fun k over => text_ok k /\ override_ok over) (m_overrides s).

Section saved.
Context `{laws : JanssonLaws}.

Lemma override_json_eq over : override_ok over -> override_json over =
  VObject [(bs "mac", VString (ov_mac over)); (bs "address", VString (ov_address over)); (bs "port", VInteger (ov_port over));
    (bs "resend_attempts", VInteger (ov_resendAttempts over)); (bs "secure_on_password", VString (ov_secureOnPassword over))].
Proof. intros (H1 & H2 & H3 & _). unfold override_json. rewrite !string_ok by done. by rewrite !set_literal by reflexivity. Qed.
Lemma overrides_json_eq s : overrides_json s =
  VObject [(bs "schema_version", VInteger SchemaVersion); (bs "hosts", VObject (write_entries override_json (m_overrides s)))].
Proof. unfold overrides_json. by rewrite !set_literal by reflexivity. Qed.

Lemma override_back over : override_ok over -> read_override (back true (override_json over)) = Some over.
Proof.
  intros Hok. pose proof Hok as (_ & _ & _ & H4 & H5). rewrite override_json_eq by done.
  transitivity (Some {| ov_mac := ov_mac over; ov_address := ov_address over; ov_port := u16 (ov_port over);
    ov_secureOnPassword := ov_secureOnPassword over; ov_resendAttempts := i32 (ov_resendAttempts over) |}); [reflexivity|].
  unfold u16, i32. rewrite !Z.mod_small by lia. destruct over. cbn. do 2 f_equal. lia.
Qed.

Lemma overrides_storable s : overrides_ok s -> storable 3 (overrides_json s).
Proof.
  intros Hs. rewrite overrides_json_eq. cbn [storable fmap list_fmap fst snd foldr]. split_and!.
  - apply (bool_decide_unpack _). exact I.
  - repeat constructor; by apply literal_ok.
  - unfold SchemaVersion. lia.
  - unfold SchemaVersion. lia.
  - rewrite write_entries_eq by (intros k a Ha; by apply (Hs k a)). rewrite <- list_fmap_compose. erewrite list_fmap_ext; [apply in_order_keys|done].
  - rewrite write_entries_eq by (intros k a Ha; by apply (Hs k a)). apply list.Forall_forall. intros f ([k over] & -> & Hi)%list_elem_of_fmap.
    apply in_order_elem in Hi. by apply (Hs k over).
  - rewrite write_entries_eq by (intros k a Ha; by apply (Hs k a)).
    assert (forall k over, (k, over) ∈ in_order (m_overrides s) -> override_ok over) as Hin by (intros k over Hi; apply in_order_elem in Hi; by apply (Hs k over)).
    induction (in_order (m_overrides s)) as [|[k over] l IH]; [done|]. cbn [map foldr fst snd]. split; [|apply IH; intros k' o' Hi; eapply Hin; right; exact Hi].
    assert (override_ok over) as Hok by (eapply Hin; left). rewrite override_json_eq by done. destruct Hok as (H1 & H2 & H3 & H4 & H5).
    cbn [storable fmap list_fmap fst snd foldr]. split_and!; try done; try lia.
    + apply (bool_decide_unpack _). exact I.
    + repeat constructor; by apply literal_ok.
  - done.
Qed.

#[export] Instance overrides_laws : StoreLaws overrides_store overrides_ok.
Proof.
  intros s Hs. exists 3%nat. split; [unfold JSON_PARSER_MAX_DEPTH; lia|]. split; [by apply overrides_storable|].
  cbn [store_json store_read store_sorted overrides_file]. rewrite overrides_json_eq. unfold read_overrides, back.
  assert (map_Forall (fun k a => text_ok k /\ read_override (back true (override_json a)) = Some a) (m_overrides s)) as Hm.
  { intros k a Ha. destruct (Hs k a Ha) as [H1 H2]. split; [done|by apply override_back]. }
  pose proof (entries_back override_json read_override true (m_overrides s) Hm) as He. cbn [back] in He.
  destruct (sorted (VObject (write_entries override_json (m_overrides s)))) as [l| | | | | | |] eqn:E; try done.
  cbn [sorted map fst snd] in *. rewrite E.
  transitivity {| m_overrides := read_entries read_override l |}; [reflexivity|]. rewrite He. by destruct s.
Qed.

End saved.

(** The overrides of the hosts survive a save and a restart: after a save that
    worked they are read back as they were, and when it fails or the machine stops
    at any moment either they or the ones before are - unless the file is away,
    with the old one as its backup. *)
Theorem overrides_saved (lib : Jansson) (laws : JanssonLaws) (o : outcome) (s : overrides_store) (d : disk) : overrides_ok s ->
  let r := save_atomically o s d in
  (exists c, list.last r.1 = Some c /\ (r.2 = true -> reload (dst c) = s)) /\
  forall c, c ∈ r.1 -> reload (dst c) = s \/ reload (S := overrides_store) (dst c) = reload (dst d) \/
    (dst c = None /\ bak c = dst d) \/ (dst d = None /\ dst c = bak d).
Proof. apply (saved_atomically overrides_ok). Qed.

(** A system whose renames do not replace, as the console's. *)
Definition no_replace : outcome := {| succeeds := fun c => match c with Replace => false | _ => true end; written := 0 |}.
Definition ex_empty : disk := {| dst := None; tmp := None; bak := None |}.

Lemma overrides_saved_witness :
  @overrides_ok toy_jansson ex_store /\
  let r := @save_atomically toy_jansson _ (@overrides_file toy_jansson) no_replace ex_store ex_empty in
  (exists c, list.last r.1 = Some c /\ (r.2 = true -> @reload toy_jansson _ (@overrides_file toy_jansson) (dst c) = ex_store)) /\
  forall c, c ∈ r.1 -> @reload toy_jansson _ (@overrides_file toy_jansson) (dst c) = ex_store \/
    @reload toy_jansson _ (@overrides_file toy_jansson) (dst c) = @reload toy_jansson _ (@overrides_file toy_jansson) (dst ex_empty) \/
    (dst c = None /\ bak c = dst ex_empty) \/ (dst ex_empty = None /\ dst c = bak ex_empty).
Proof.
  assert (@overrides_ok toy_jansson ex_store) as Hok.
  { intros k over H. unfold ex_store in H. cbn [m_overrides] in H. apply lookup_singleton_Some in H as [<- <-]. assert (forall t : bytes, forallb (fun b => negb (bool_decide (b = Init.Byte.x00))) t = true -> no_nul t) as Hn.
    { intros t Ht Hin%list_elem_of_In. rewrite forallb_forall in Ht. specialize (Ht _ Hin). done. }
    repeat split; try (by apply Hn); vm_compute; done. }
  split; [exact Hok|]. apply (overrides_saved toy_jansson toy_jansson_laws no_replace ex_store ex_empty Hok).
Defined.

(** ** What goes wrong at the edges *)

(** On a system whose renames do not replace, every save has a moment without the
    file; what is read then is no override at all, and no one looks at the backup. *)
Lemma stopped_save_forgets `{Jansson} s old : let r := save_atomically no_replace s {| dst := Some old; tmp := None; bak := None |} in
  let c := {| dst := None; tmp := Some (store_text s); bak := Some old |} in
  c ∈ r.1 /\ reload (dst c) = {| m_overrides := ∅ |}.
Proof.
  cbv zeta. split; [|done]. unfold save_atomically, dumpAtomically, json_dump_file. cbn [succeeds no_replace negb].
  cbn [with_tmp with_bak dst tmp bak]. unfold move_in. cbn [succeeds no_replace fst]. rewrite elem_of_app. left. rewrite elem_of_app. right. right. left.
Qed.

(** The SecureOn password and the number of attempts of an override change nothing
    that is sent. *)
Lemma password_unused net broadcast h over password attempts :
  let plain := {| ov_mac := ov_mac over; ov_address := ov_address over; ov_port := ov_port over; ov_secureOnPassword := password; ov_resendAttempts := attempts |} in
  wake_up_host net broadcast {| m_overrides := {[ host_profile_key h := over ]} |} h =
  wake_up_host net broadcast {| m_overrides := {[ host_profile_key h := plain ]} |} h.
Proof.
  cbv zeta. unfold wake_up_host, get_override. cbn [m_overrides]. rewrite !lookup_singleton_eq. cbn [default].
  unfold wake_mac. cbn [ov_mac]. destruct (bool_decide _); [done|]. destruct (negb _); [done|]. unfold send_magic_packets.
  destruct (bool_decide _); [done|]. done.
Qed.

(** A port of more digits than 64 bits hold is an exception no one catches. *)
Lemma long_port_throws : split_address_and_port (bs "10.0.0.2:99999999999999999999") = Threw.
Proof. vm_compute. reflexivity. Qed.
(** Ports past the last one wrap around. *)
Lemma ports_wrap : wake_port_candidates 65530 no_override = [9; 47009; 3; 4; 5; 7; 15].
Proof. vm_compute. reflexivity. Qed.
