(* ===== verification/NetBirdProvider.v ===== *)
(** The NetBird provider ([providers/NetBirdProvider.cpp], [.hpp]): a thin driver
    of the NetBird library, with a thread that pumps it and workers that refresh
    the list of peers. An operation is a [prog]: its calls on the library, its
    sections under [stateMutex_] and [peersMutex_], and what it does to the pump;
    the programs of the threads interleave one such instruction at a time. The
    library is not in the repository: its answers are left open, and [nb_next]
    is the order of calls its use here relies on. Log lines are left out. *)

From S2P Require Import Prelude Text CText Types AddHost.

#[local] Set Warnings "-clear-no-such-hyp".

(** ** State *)

Record StateSnapshot := {
  ns_lastError : bytes;
  ns_activePeer : bytes;
  ns_localAddress : bytes;
  ns_started : bool;
  ns_ready : bool;
  ns_udpRelaysStarted : bool;
}.
Definition no_state : StateSnapshot :=
  {| ns_lastError := []; ns_activePeer := []; ns_localAddress := []; ns_started := false; ns_ready := false;
     ns_udpRelaysStarted := false |}.
Definition with_lastError (e : bytes) (s : StateSnapshot) : StateSnapshot :=
  {| ns_lastError := e; ns_activePeer := ns_activePeer s; ns_localAddress := ns_localAddress s;
     ns_started := ns_started s; ns_ready := ns_ready s; ns_udpRelaysStarted := ns_udpRelaysStarted s |}.
Definition with_ready (b : bool) (s : StateSnapshot) : StateSnapshot :=
  {| ns_lastError := ns_lastError s; ns_activePeer := ns_activePeer s; ns_localAddress := ns_localAddress s;
     ns_started := ns_started s; ns_ready := b; ns_udpRelaysStarted := ns_udpRelaysStarted s |}.
Definition with_udp (b : bool) (s : StateSnapshot) : StateSnapshot :=
  {| ns_lastError := ns_lastError s; ns_activePeer := ns_activePeer s; ns_localAddress := ns_localAddress s;
     ns_started := ns_started s; ns_ready := ns_ready s; ns_udpRelaysStarted := b |}.
Definition with_active (p : bytes) (s : StateSnapshot) : StateSnapshot :=
  {| ns_lastError := ns_lastError s; ns_activePeer := p; ns_localAddress := ns_localAddress s;
     ns_started := ns_started s; ns_ready := ns_ready s; ns_udpRelaysStarted := ns_udpRelaysStarted s |}.
Definition with_started (ready : bool) (address : bytes) (s : StateSnapshot) : StateSnapshot :=
  {| ns_lastError := []; ns_activePeer := ns_activePeer s; ns_localAddress := address; ns_started := true;
     ns_ready := ready; ns_udpRelaysStarted := ns_udpRelaysStarted s |}.

(** ** The library *)

Inductive nb_call :=
| NbInit (server key : bytes)
| NbGetIp
| NbIsReady
| NbPoll
| NbPeerCount
| NbPeer (i : Z)
| NbIdentity (i : Z)
| NbProxyStart (peer : bytes) (port : Z)
| NbProxyStop
| NbStartUdp (peer : bytes)
| NbStopUdp
| NbShutdown.

(** What a call answers: a code and the text of the error buffer, an optional
    string, the two buffers of a peer. *)
Definition answer (c : nb_call) : Type :=
  match c with
  | NbInit _ _ => Z * bytes
  | NbGetIp => option bytes
  | NbIsReady => bool
  | NbPeerCount => Z
  | NbPeer _ => option (bytes * bytes)
  | NbIdentity _ => option bytes
  | NbProxyStart _ _ | NbStartUdp _ => Z
  | _ => unit
  end.
Inductive event := Ev (c : nb_call) (a : answer c).

(** ** Programs *)

Inductive prog (A : Type) : Type :=
| Ret (a : A)
| Lib (c : nb_call) (k : answer c -> prog A)
| State (f : StateSnapshot -> StateSnapshot) (k : StateSnapshot -> prog A)
| Cache (f : list RemoteAccessPeer -> list RemoteAccessPeer) (k : prog A)
| Exchange (b : bool) (k : bool -> prog A)
| Spawn (k : prog A)
| Join (k : prog A).
Arguments Ret {A}. Arguments Lib {A}. Arguments State {A}. Arguments Cache {A}.
Arguments Exchange {A}. Arguments Spawn {A}. Arguments Join {A}.

Fixpoint bind {A B} (p : prog A) (g : A -> prog B) : prog B :=
  match p with
  | Ret a => g a
  | Lib c k => Lib c (fun a => bind (k a) g)
  | State f k => State f (fun s => bind (k s) g)
  | Cache f k => Cache f (bind k g)
  | Exchange b k => Exchange b (fun old => bind (k old) g)
  | Spawn k => Spawn (bind k g)
  | Join k => Join (bind k g)
  end.
Notation "'let*' x := p 'in' k" := (bind p (fun x => k)) (at level 10, x pattern, p at level 100, k at level 200).

Definition lib (c : nb_call) : prog (answer c) := Lib c Ret.
Definition stateSnapshot : prog StateSnapshot := State id Ret.
Definition update (f : StateSnapshot -> StateSnapshot) : prog unit := State f (fun _ => Ret tt).
Definition setLastError (e : bytes) : prog unit := update (with_lastError e).

(** ** The pump *)

Definition kGameStreamPort : Z := 47989.
Definition kMaxScannedPeers : Z := 256.

(** One round of the thread; [late] when the watchdog is due. *)
Definition pump_round (late : bool) : prog unit :=
  let* _ := lib NbPoll in
  let* ready := lib NbIsReady in
  let* _ := update (fun s => if ns_started s then with_ready ready s else s) in
  if late then let* _ := lib NbPeerCount in Ret tt else Ret tt.

Definition startPump : prog unit :=
  Exchange true (fun running => if running then Ret tt else Spawn (Ret tt)).
Definition stopPump : prog unit :=
  Exchange false (fun running => if negb running then Ret tt else Join (Ret tt)).

(** ** Peers *)

Definition listed_peer (ip name ident : bytes) : RemoteAccessPeer :=
  {| rp_providerId := bs "netbird"; rp_peerId := ident; rp_name := if bool_decide (name = []) then ip else name;
     rp_address := ip; rp_online := true; rp_metadata := bs "Authenticated NetBird peer"; rp_os := [];
     rp_tcpPortsKnown := false; rp_tcpPorts := []; rp_subnets := [] |}.

(** The loop of [refreshPeers] from [i] on, [n] rounds to go. *)
Fixpoint refresh_loop (n : nat) (i : Z) (refreshed : list RemoteAccessPeer) : prog (list RemoteAccessPeer) :=
  match n with
  | O => Ret refreshed
  | S n =>
      let* peer := lib (NbPeer i) in
      match peer with
      | None => refresh_loop n (i + 1) refreshed
      | Some (ip, name) =>
          let* ident := lib (NbIdentity i) in
          match ident with
          | None => refresh_loop n (i + 1) refreshed
          | Some ident =>
              refresh_loop n (i + 1) (refreshed ++ [listed_peer (c_str ip) (c_str name) (c_str ident)])
          end
      end
  end.

Definition refreshPeers : prog unit :=
  let* state := stateSnapshot in
  let* refreshed :=
    if ns_started state && ns_ready state then
      let* reported := lib NbPeerCount in
      refresh_loop (Z.to_nat (Z.min reported kMaxScannedPeers)) 0 []
    else Ret [] in
  Cache (fun _ => refreshed) (Ret tt).

Definition isKnownPeer (address : bytes) (cachedPeers_ : list RemoteAccessPeer) : bool :=
  negb (bool_decide (address = [])) && existsb (fun p => bool_decide (rp_address p = address)) cachedPeers_.

Definition resolveRoute (address : bytes) (cachedPeers_ : list RemoteAccessPeer) : option RemoteRouteTarget :=
  if bool_decide (address = []) then None
  else
    peer ← List.find (fun p => bool_decide (rp_address p = address)) cachedPeers_;
    Some {| rt_peerId := if bool_decide (rp_peerId peer = []) then bs "netbird:" ++ rp_address peer else rp_peerId peer;
            rt_peerAddress := rp_address peer; rt_targetAddress := address; rt_connectAddress := bs "127.0.0.1";
            rt_mode := Proxy |}.

Definition status (s : StateSnapshot) : bytes :=
  if negb (bool_decide (ns_lastError s = [])) then ns_lastError s
  else if negb (ns_started s) then bs "artemis/settings/remote_access_off"
  else if ns_ready s then bs "artemis/settings/remote_access_connected" else bs "artemis/settings/remote_access_connecting".

(** ** Starting and stopping *)

Record Settings := { selected : bool; netbird_server : bytes; netbird_setup_key : bytes }.

Definition start (o : Settings) : prog bool :=
  let* _ := setLastError [] in
  if negb (selected o) then Ret false
  else if bool_decide (netbird_server o = []) then
    let* _ := setLastError (bs "artemis/settings/netbird_missing_server") in Ret false
  else if bool_decide (netbird_setup_key o = []) then
    let* _ := setLastError (bs "artemis/settings/netbird_missing_setup_key") in Ret false
  else
    let* (rc, error) := lib (NbInit (c_str (netbird_server o)) (c_str (netbird_setup_key o))) in
    if negb (rc =? 0) then
      let failure := if bool_decide (c_str error = []) then bs "artemis/settings/netbird_login_failed" else c_str error in
      let* _ := setLastError failure in Ret false
    else
      let* reportedIp := lib NbGetIp in
      let* ready := lib NbIsReady in
      let* _ := update (with_started ready (from_option c_str [] reportedIp)) in
      let* _ := startPump in
      let* _ := lib NbPeerCount in
      let* _ := refreshPeers in
      Ret true.

Definition stop : prog unit :=
  let* state := stateSnapshot in
  if negb (ns_started state) then Ret tt
  else
    let* _ := lib NbStopUdp in
    let* _ := lib NbProxyStop in
    let* _ := stopPump in
    let* _ := lib NbShutdown in
    let* _ := update (fun _ => no_state) in
    Cache (fun _ => []) (Ret tt).

(** The destructor. *)
Definition destroy : prog unit :=
  let* state := stateSnapshot in
  if ns_started state then stop else stopPump.

(** ** Routes *)

(** The loop of [activateRoute], [n] rounds to go: [None] when it refuses, else
    whether the peer is known. *)
Fixpoint scan_loop (n : nat) (i : Z) (target : RemoteRouteTarget) : prog (option bool) :=
  match n with
  | O => Ret (Some false)
  | S n =>
      let* peer := lib (NbPeer i) in
      match peer with
      | None => scan_loop n (i + 1) target
      | Some (ip, _) =>
          if negb (bool_decide (rt_peerAddress target = c_str ip)) then scan_loop n (i + 1) target
          else
            let* ident := lib (NbIdentity i) in
            match ident with
            | None => let* _ := setLastError (bs "artemis/settings/netbird_route_refused") in Ret None
            | Some ident =>
                if negb (bool_decide (rt_peerId target = [])) && negb (bool_decide (rt_peerId target = c_str ident))
                then let* _ := setLastError (bs "artemis/settings/netbird_route_refused") in Ret None
                else Ret (Some true)
            end
      end
  end.

Definition switch_proxy (peerId : bytes) : prog bool :=
  let* _ := lib NbStopUdp in
  let* _ := lib NbProxyStop in
  let* _ := update (with_udp false) in
  let* proxyResult := lib (NbProxyStart (c_str peerId) kGameStreamPort) in
  if negb (proxyResult =? 0) then
    let* _ := setLastError (bs "artemis/settings/netbird_proxy_failed") in Ret false
  else let* _ := update (fun s => with_lastError [] (with_active peerId s)) in Ret true.

Definition activateRoute (target : RemoteRouteTarget) : prog bool :=
  let peerId := rt_peerAddress target in
  let* state := stateSnapshot in
  if negb (ns_started state) then Ret false
  else if negb (ns_ready state) then
    let* _ := setLastError (bs "artemis/settings/netbird_proxy_failed") in Ret false
  else if bool_decide (peerId = []) then Ret false
  else
    let* reported := lib NbPeerCount in
    let* known := scan_loop (Z.to_nat (Z.min (Z.max reported 0) kMaxScannedPeers)) 0 target in
    match known with
    | None | Some false => Ret false
    | Some true =>
        let* state := stateSnapshot in
        if bool_decide (ns_activePeer state = peerId) then Ret true else switch_proxy peerId
    end.

Definition prepareRouteForStreaming (target : RemoteRouteTarget) : prog bool :=
  let peerId := rt_peerAddress target in
  let* state := stateSnapshot in
  if negb (ns_started state) || negb (ns_ready state) || bool_decide (peerId = [])
     || negb (bool_decide (ns_activePeer state = peerId)) then
    let* _ := setLastError (bs "artemis/settings/netbird_proxy_failed") in Ret false
  else
    let* _ :=
      if ns_udpRelaysStarted state then let* _ := lib NbStopUdp in update (with_udp false) else Ret tt in
    let* udpResult := lib (NbStartUdp (c_str peerId)) in
    if negb (udpResult =? 0) then
      let* _ := setLastError (bs "artemis/settings/netbird_proxy_failed") in Ret false
    else let* _ := update (fun s => with_lastError [] (with_udp true s)) in Ret true.

Definition deactivateRoute (target : RemoteRouteTarget) : prog unit :=
  let peerId := rt_peerAddress target in
  let* state := stateSnapshot in
  if negb (ns_started state) || bool_decide (ns_activePeer state = []) || negb (bool_decide (ns_activePeer state = peerId))
  then Ret tt
  else
    let* _ := lib NbStopUdp in
    let* _ := lib NbProxyStop in
    update (fun s => with_udp false (with_active [] s)).

(** ** The order of the library's calls *)

Record nb_state := { nb_up : bool; nb_proxy : option bytes; nb_relays : option bytes }.
Definition nb_off : nb_state := {| nb_up := false; nb_proxy := None; nb_relays := None |}.

(** The library logs in once, pumps and answers while it is up, takes one proxy
    at a time, relays UDP to the peer of the proxy, and is torn down in the
    reverse order, with nobody pumping. [None] is a breach. *)
Definition nb_next (c : nb_call) : answer c -> bool -> nb_state -> option nb_state :=
  match c return answer c -> bool -> nb_state -> option nb_state with
  | NbInit _ _ => fun a _ n =>
      if nb_up n then None else Some (if a.1 =? 0 then {| nb_up := true; nb_proxy := None; nb_relays := None |} else n)
  | NbProxyStart p _ => fun a _ n =>
      if nb_up n && bool_decide (nb_proxy n = None) && bool_decide (nb_relays n = None)
      then Some {| nb_up := true; nb_proxy := if a =? 0 then Some p else None; nb_relays := None |} else None
  | NbProxyStop => fun _ _ n =>
      if nb_up n && bool_decide (nb_relays n = None)
      then Some {| nb_up := true; nb_proxy := None; nb_relays := None |} else None
  | NbStartUdp p => fun a _ n =>
      if nb_up n && bool_decide (nb_proxy n = Some p) && bool_decide (nb_relays n = None)
      then Some {| nb_up := true; nb_proxy := nb_proxy n; nb_relays := if a =? 0 then Some p else None |} else None
  | NbStopUdp => fun _ _ n =>
      if nb_up n then Some {| nb_up := true; nb_proxy := nb_proxy n; nb_relays := None |} else None
  | NbShutdown => fun _ pumping n =>
      if nb_up n && bool_decide (nb_proxy n = None) && bool_decide (nb_relays n = None) && negb pumping
      then Some nb_off else None
  | _ => fun _ _ n => if nb_up n then Some n else None
  end.

(** ** The threads *)

(** [pumpThread_]: no thread, one in its loop, one that has ended but is not
    joined. *)
Inductive pump_thread := NoThread | Looping (p : prog unit) | Ended.
Definition looping (t : pump_thread) : bool := match t with Looping _ => true | _ => false end.
Definition has_thread (t : pump_thread) : bool := match t with NoThread => false | _ => true end.

(** [w_nb] is [None] after a breach, [w_terminated] set when a thread that runs
    is assigned to; [w_late] counts the calls of refreshing workers on a library
    that is down; [w_log] has the calls of the operation that runs. *)
Record world := {
  w_state : StateSnapshot;
  w_cache : list RemoteAccessPeer;
  w_pumpRunning : bool;
  w_thread : pump_thread;
  w_nb : option nb_state;
  w_terminated : bool;
  w_late : nat;
  w_log : list event;
}.
Definition fresh_world : world :=
  {| w_state := no_state; w_cache := []; w_pumpRunning := false; w_thread := NoThread; w_nb := Some nb_off;
     w_terminated := false; w_late := 0; w_log := [] |}.

Definition set_state (s : StateSnapshot) (w : world) : world :=
  {| w_state := s; w_cache := w_cache w; w_pumpRunning := w_pumpRunning w; w_thread := w_thread w; w_nb := w_nb w;
     w_terminated := w_terminated w; w_late := w_late w; w_log := w_log w |}.
Definition set_cache (l : list RemoteAccessPeer) (w : world) : world :=
  {| w_state := w_state w; w_cache := l; w_pumpRunning := w_pumpRunning w; w_thread := w_thread w; w_nb := w_nb w;
     w_terminated := w_terminated w; w_late := w_late w; w_log := w_log w |}.
Definition set_running (b : bool) (w : world) : world :=
  {| w_state := w_state w; w_cache := w_cache w; w_pumpRunning := b; w_thread := w_thread w; w_nb := w_nb w;
     w_terminated := w_terminated w; w_late := w_late w; w_log := w_log w |}.
Definition set_thread (t : pump_thread) (w : world) : world :=
  {| w_state := w_state w; w_cache := w_cache w; w_pumpRunning := w_pumpRunning w; w_thread := t; w_nb := w_nb w;
     w_terminated := w_terminated w; w_late := w_late w; w_log := w_log w |}.
Definition set_terminated (w : world) : world :=
  {| w_state := w_state w; w_cache := w_cache w; w_pumpRunning := w_pumpRunning w; w_thread := w_thread w; w_nb := w_nb w;
     w_terminated := true; w_late := w_late w; w_log := w_log w |}.
Definition set_nb (n : option nb_state) (w : world) : world :=
  {| w_state := w_state w; w_cache := w_cache w; w_pumpRunning := w_pumpRunning w; w_thread := w_thread w; w_nb := n;
     w_terminated := w_terminated w; w_late := w_late w; w_log := w_log w |}.
Definition set_late (n : nat) (w : world) : world :=
  {| w_state := w_state w; w_cache := w_cache w; w_pumpRunning := w_pumpRunning w; w_thread := w_thread w; w_nb := w_nb w;
     w_terminated := w_terminated w; w_late := n; w_log := w_log w |}.
Definition set_log (l : list event) (w : world) : world :=
  {| w_state := w_state w; w_cache := w_cache w; w_pumpRunning := w_pumpRunning w; w_thread := w_thread w; w_nb := w_nb w;
     w_terminated := w_terminated w; w_late := w_late w; w_log := l |}.

Inductive agent := Control | Pump | Refresher.

(** What a call of each does to the library, as far as anyone can see. *)
Definition called (who : agent) (c : nb_call) (a : answer c) (w : world) : world :=
  let moved := set_nb (n ← w_nb w; nb_next c a (looping (w_thread w)) n) w in
  match who with
  | Control => set_log (w_log w ++ [Ev c a]) moved
  | Pump => moved
  | Refresher => if bool_decide (nb_up <$> w_nb w = Some true) then w else set_late (S (w_late w)) w
  end.

(** One instruction; a [Join] waits. *)
Definition exec {A} (who : agent) (p : prog A) (w : world) (p' : prog A) (w' : world) : Prop :=
  match p with
  | Ret _ => False
  | Lib c k => exists a, p' = k a /\ w' = called who c a w
  | State f k => p' = k (w_state w) /\ w' = set_state (f (w_state w)) w
  | Cache f k => p' = k /\ w' = set_cache (f (w_cache w)) w
  | Exchange b k => p' = k (w_pumpRunning w) /\ w' = set_running b w
  | Spawn k =>
      p' = k /\ w' = if has_thread (w_thread w) then set_terminated w else set_thread (Looping (Ret tt)) w
  | Join k => looping (w_thread w) = false /\ p' = k /\ w' = set_thread NoThread w
  end.

Inductive op :=
| Start (o : Settings)
| Stop
| Activate (target : RemoteRouteTarget)
| Prepare (target : RemoteRouteTarget)
| Deactivate (target : RemoteRouteTarget)
| Refresh
| Destroy.
Definition body (o : op) : prog bool :=
  match o with
  | Start settings => start settings
  | Stop => let* _ := stop in Ret true
  | Activate target => activateRoute target
  | Prepare target => prepareRouteForStreaming target
  | Deactivate target => let* _ := deactivateRoute target in Ret true
  | Refresh => let* _ := refreshPeers in Ret true
  | Destroy => let* _ := destroy in Ret true
  end.

(** The provider is called in turn: it is stopped before it is started again, and
    the route of another peer is taken back before one is activated. It is how
    the manager means to call it ([selectAndStartProvider], [activateRoute] of an
    exclusive provider); an activation displaced while it waits for the provider
    is called out of turn ([RouteSafety.displaced_activation]). *)
Definition in_turn (o : op) (s : StateSnapshot) : Prop :=
  match o with
  | Start _ => ns_started s = false
  | Activate target => ns_activePeer s = [] \/ ns_activePeer s = rt_peerAddress target
  | _ => True
  end.

(** Operations run one at a time (the manager's [operations] mutex), next to the
    pump and to the workers of the Add Host screen. *)
Record system := { world_of : world; control : option (op * prog bool); refreshers : list (prog unit) }.
Definition fresh_system : system := {| world_of := fresh_world; control := None; refreshers := [] |}.
Section steps.
Variable turns : op -> StateSnapshot -> Prop.

Inductive sstep : system -> system -> Prop :=
| step_begin w rs o : turns o (w_state w) ->
    sstep {| world_of := w; control := None; refreshers := rs |}
          {| world_of := set_log [] w; control := Some (o, body o); refreshers := rs |}
| step_control w rs o p p' w' : exec Control p w p' w' ->
    sstep {| world_of := w; control := Some (o, p); refreshers := rs |}
          {| world_of := w'; control := Some (o, p'); refreshers := rs |}
| step_return w rs o r :
    sstep {| world_of := w; control := Some (o, Ret r); refreshers := rs |}
          {| world_of := w; control := None; refreshers := rs |}
| step_pump w c rs p p' w' : w_thread w = Looping p -> exec Pump p w p' w' ->
    sstep {| world_of := w; control := c; refreshers := rs |}
          {| world_of := set_thread (Looping p') w'; control := c; refreshers := rs |}
| step_round w c rs late : w_thread w = Looping (Ret tt) ->
    sstep {| world_of := w; control := c; refreshers := rs |}
          {| world_of := set_thread (if w_pumpRunning w then Looping (pump_round late) else Ended) w; control := c;
             refreshers := rs |}
| step_refresh w c rs :
    sstep {| world_of := w; control := c; refreshers := rs |}
          {| world_of := w; control := c; refreshers := refreshPeers :: rs |}
| step_refresher w c l r p' w' k : exec Refresher p' w k w' ->
    sstep {| world_of := w; control := c; refreshers := l ++ p' :: r |}
          {| world_of := w'; control := c; refreshers := l ++ k :: r |}.

Inductive reachable : system -> Prop :=
| reach_start : reachable fresh_system
| reach_step s s' : reachable s -> sstep s s' -> reachable s'.
End steps.

(** ** Reasoning about one thread among the others *)

(** What no other thread changes under an operation: the flags it owns, the
    thread it starts and joins, the library's proxies, and its own calls. *)
Record view := {
  v_started : bool;
  v_active : bytes;
  v_udp : bool;
  v_running : bool;
  v_thread : bool;
  v_nb : nb_state;
  v_log : list event;
}.
Definition view_state (s : StateSnapshot) (v : view) : view :=
  {| v_started := ns_started s; v_active := ns_activePeer s; v_udp := ns_udpRelaysStarted s; v_running := v_running v;
     v_thread := v_thread v; v_nb := v_nb v; v_log := v_log v |}.
Definition view_running (b : bool) (v : view) : view :=
  {| v_started := v_started v; v_active := v_active v; v_udp := v_udp v; v_running := b; v_thread := v_thread v;
     v_nb := v_nb v; v_log := v_log v |}.
Definition view_thread (b : bool) (v : view) : view :=
  {| v_started := v_started v; v_active := v_active v; v_udp := v_udp v; v_running := v_running v; v_thread := b;
     v_nb := v_nb v; v_log := v_log v |}.
Definition view_call (n : nb_state) (e : event) (v : view) : view :=
  {| v_started := v_started v; v_active := v_active v; v_udp := v_udp v; v_running := v_running v;
     v_thread := v_thread v; v_nb := n; v_log := v_log v ++ [e] |}.
Definition seen (s : StateSnapshot) (v : view) : Prop :=
  ns_started s = v_started v /\ ns_activePeer s = v_active v /\ ns_udpRelaysStarted s = v_udp v.

(** The weakest precondition of a program for what its result and the view then
    are: every call is in order whatever the library answers, and every section
    may find what the others have changed. *)
Fixpoint wp {A} (p : prog A) (Q : A -> view -> Prop) (v : view) : Prop :=
  match p with
  | Ret a => Q a v
  | Lib c k => forall a, exists n, nb_next c a (v_thread v) (v_nb v) = Some n /\ wp (k a) Q (view_call n (Ev c a) v)
  | State f k => forall s, seen s v -> wp (k s) Q (view_state (f s) v)
  | Cache f k => wp k Q v
  | Exchange b k => wp (k (v_running v)) Q (view_running b v)
  | Spawn k => v_thread v = false /\ nb_up (v_nb v) = true /\ wp k Q (view_thread true v)
  | Join k => v_running v = false /\ wp k Q (view_thread false v)
  end.

Lemma wp_bind {A B} (p : prog A) (g : A -> prog B) Q v : wp p (fun a => wp (g a) Q) v -> wp (bind p g) Q v.
Proof.
  revert v. induction p as [a|c k IH|f k IH|f k IH|b k IH|k IH|k IH]; intros v; cbn [wp bind]; auto.
  - intros H a. destruct (H a) as (n & Hn & H'). eauto.
  - intuition.
  - intuition.
Qed.

Lemma wp_mono {A} (p : prog A) (Q R : A -> view -> Prop) v : (forall a v, Q a v -> R a v) -> wp p Q v -> wp p R v.
Proof.
  intros HQ. revert v. induction p as [a|c k IH|f k IH|f k IH|b k IH|k IH|k IH]; intros v; cbn [wp]; auto.
  - intros H a. destruct (H a) as (n & Hn & H'). eauto.
  - intuition.
  - intuition.
Qed.

(** Programs that only look: what the pump and the refreshing workers run. *)
Definition only_reads (c : nb_call) : bool :=
  match c with NbGetIp | NbIsReady | NbPoll | NbPeerCount | NbPeer _ | NbIdentity _ => true | _ => false end.
Fixpoint reader {A} (p : prog A) : Prop :=
  match p with
  | Ret _ => True
  | Lib c k => only_reads c = true /\ forall a, reader (k a)
  | State f k =>
      (forall s, ns_started (f s) = ns_started s /\ ns_activePeer (f s) = ns_activePeer s /\
                 ns_udpRelaysStarted (f s) = ns_udpRelaysStarted s) /\ forall s, reader (k s)
  | Cache f k => reader k
  | _ => False
  end.

Lemma reader_bind {A B} (p : prog A) (g : A -> prog B) : reader p -> (forall a, reader (g a)) -> reader (bind p g).
Proof. induction p; cbn; naive_solver. Qed.

Lemma read_next c (a : answer c) b n : only_reads c = true -> nb_up n = true -> nb_next c a b n = Some n.
Proof. intros Hr Hu. destruct c; cbn in *; by rewrite ?Hu. Qed.

Definition view_log (l : list event) (v : view) : view :=
  {| v_started := v_started v; v_active := v_active v; v_udp := v_udp v; v_running := v_running v;
     v_thread := v_thread v; v_nb := v_nb v; v_log := l |}.

(** Looking leaves all but the log as it is. *)
Lemma wp_reader {A} (p : prog A) Q v : reader p -> nb_up (v_nb v) = true -> (forall a l, Q a (view_log l v)) -> wp p Q v.
Proof.
  intros Hr Hu HQ. enough (forall l, wp p Q (view_log l v)) as H by (specialize (H (v_log v)); by destruct v).
  induction p as [a|c k IH|f k IH|f k IH|b k IH|k IH|k IH]; intros l; cbn [wp reader] in *; [apply HQ| | | |done..].
  - destruct Hr as [Hc Hr]. intros a. exists (v_nb v). split; [by apply read_next|]. by apply (IH a (Hr a)).
  - destruct Hr as [Hf Hr]. intros s (H1 & H2 & H3). destruct (Hf s) as (E1 & E2 & E3). cbn in H1, H2, H3.
    specialize (IH s (Hr s) l). unfold view_log in IH. unfold view_state. cbn. by rewrite E1, E2, E3, H1, H2, H3.
  - by apply IH.
Qed.

Lemma refresh_loop_reader n : forall i l, reader (refresh_loop n i l).
Proof.
  induction n as [|n IH]; intros i l; cbn; [done|]. split; [done|]. intros [[ip name]|]; cbn; [|apply IH]. split; [done|].
  intros [ident|]; apply IH.
Qed.

Lemma refreshPeers_reader : reader refreshPeers.
Proof.
  cbn. split; [done|]. intros s. apply reader_bind; [|done]. destruct (_ && _); cbn; [|done]. split; [done|]. intros a.
  apply refresh_loop_reader.
Qed.

Lemma pump_round_reader late : reader (pump_round late).
Proof.
  split; [done|]. intros a. split; [done|]. intros ready. cbn. split; [intros s; destruct (ns_started s) eqn:E; cbn; auto|]. intros s.
  destruct late; cbn; auto.
Qed.

Lemma scan_loop_reader target n : forall i, reader (scan_loop n i target).
Proof.
  induction n as [|n IH]; intros i; cbn; [done|]. split; [done|]. intros [[ip name]|]; cbn; [|apply IH].
  destruct (negb _); [apply IH|]. cbn. split; [done|]. intros [ident|]; cbn; [|done]. by destruct (_ && _).
Qed.

(** ** What each operation promises *)

(** Between operations: the flags say what the library runs. *)
Definition proxied (peer : bytes) : option bytes := if bool_decide (peer = []) then None else Some (c_str peer).
Definition consistent (v : view) : Prop :=
  v_running v = v_started v /\ v_thread v = v_started v /\
  v_nb v = {| nb_up := v_started v; nb_proxy := proxied (v_active v);
              nb_relays := if v_udp v then proxied (v_active v) else None |} /\
  (v_started v = false -> v_active v = []) /\ (v_udp v = true -> v_active v <> []).

(** The library named a peer with the target's address and, right after, the
    identity the target asks for. *)
Definition authenticated (target : RemoteRouteTarget) (log : list event) : Prop :=
  exists pre i ip name ident post,
    log = pre ++ [Ev (NbPeer i) (Some (ip, name)); Ev (NbIdentity i) (Some ident)] ++ post /\
    0 <= i < kMaxScannedPeers /\ rt_peerAddress target = c_str ip /\ (rt_peerId target = [] \/ rt_peerId target = c_str ident).

Definition promise (o : op) (r : bool) (v : view) : Prop :=
  consistent v /\
  match o with
  | Start _ => v_started v = r /\ v_active v = []
  | Stop | Destroy => v_started v = false
  | Activate target =>
      r = true -> v_active v = rt_peerAddress target /\ rt_peerAddress target <> [] /\ authenticated target (v_log v)
  | Prepare target => r = true -> v_active v = rt_peerAddress target /\ v_udp v = true
  | Deactivate target => v_active v <> rt_peerAddress target \/ v_active v = []
  | Refresh => True
  end.

Definition in_turn_view (o : op) (v : view) : Prop :=
  match o with
  | Start _ => v_started v = false
  | Activate target => v_active v = [] \/ v_active v = rt_peerAddress target
  | _ => True
  end.

Lemma c_str_c_str l : c_str (c_str l) = c_str l.
Proof. apply take_while_all, take_while_Forall. Qed.

(** A consistent view of a running provider. *)
Lemma consistent_down v : consistent v -> v_started v = false ->
  v = {| v_started := false; v_active := []; v_udp := false; v_running := false; v_thread := false; v_nb := nb_off;
         v_log := v_log v |}.
Proof.
  destruct v as [st act udp run th nb log]. unfold consistent. cbn. intros (-> & -> & -> & Ha & Hu) ->.
  specialize (Ha eq_refl). subst. destruct udp; [by destruct Hu|]. done.
Qed.

Lemma seen_view v s : seen s v -> view_state s v = v.
Proof. destruct v. unfold seen, view_state. cbn. by intros (-> & -> & ->). Qed.

#[local] Arguments bs : simpl never.
#[local] Arguments c_str : simpl never.
#[local] Arguments setLastError : simpl never.
#[local] Arguments Z.eqb : simpl never.

Lemma wp_snapshot Q v : (forall s, seen s v -> Q s v) -> wp stateSnapshot Q v.
Proof. intros H s Hs. cbn. rewrite seen_view by done. by apply H. Qed.
Lemma wp_error e Q v : Q tt v -> wp (setLastError e) Q v.
Proof. intros H s Hs. cbn. unfold view_state. cbn. destruct v, Hs as (-> & -> & ->). done. Qed.
Lemma wp_update f Q v : (forall s, seen s v -> Q tt (view_state (f s) v)) -> wp (update f) Q v.
Proof. intros H s Hs. by apply H. Qed.

#[local] Arguments wp : simpl never.
#[local] Arguments bind : simpl never.
#[local] Arguments lib : simpl never.
#[local] Arguments update : simpl never.
#[local] Arguments stateSnapshot : simpl never.

Lemma wp_lib c Q v :
  (forall a, exists n, nb_next c a (v_thread v) (v_nb v) = Some n /\ Q a (view_call n (Ev c a) v)) -> wp (lib c) Q v.
Proof. done. Qed.
Lemma wp_exchange {A} b k (Q : A -> view -> Prop) v : wp (k (v_running v)) Q (view_running b v) -> wp (Exchange b k) Q v.
Proof. done. Qed.
Lemma wp_cache {A} f k (Q : A -> view -> Prop) v : wp k Q v -> wp (Cache f k) Q v.
Proof. done. Qed.
Lemma wp_join {A} k (Q : A -> view -> Prop) v : v_running v = false -> wp k Q (view_thread false v) -> wp (Join k) Q v.
Proof. done. Qed.
Lemma wp_spawn {A} k (Q : A -> view -> Prop) v :
  v_thread v = false -> nb_up (v_nb v) = true -> wp k Q (view_thread true v) -> wp (Spawn k) Q v.
Proof. done. Qed.

(** Steps through a program whose view is known. *)
Ltac wp_step :=
  match goal with
  | |- wp (bind _ _) _ _ => apply wp_bind
  | |- wp (Ret _) _ _ => red
  | |- wp (Exchange _ _) _ _ => apply wp_exchange; cbn
  | |- wp (Cache _ _) _ _ => apply wp_cache
  | |- wp (Join _) _ _ => apply wp_join; [done|cbn]
  | |- wp (Spawn _) _ _ => apply wp_spawn; [done|done|cbn]
  | |- wp stateSnapshot _ _ => let s := fresh "s" in apply wp_snapshot; intros s (? & ? & ?); simplify_eq/=
  | |- wp (setLastError _) _ _ => apply wp_error
  | |- wp (update _) _ _ => apply wp_update; intros [? ? ? ? ? ?] (? & ? & ?); simplify_eq/=
  | |- wp (lib ?c) _ _ => let a := fresh "a" in apply wp_lib; intros a; eexists; split; [cbn; reflexivity|cbn]
  end.
Ltac known_view v := destruct v as [st act udp run th nb log]; intros (Hr & Ht & Hn & Hs & Hu); simplify_eq/=.

(** The view of a running provider with its route at [act]. *)
Definition running_view (act : bytes) (proxy : bool) (udp : bool) (log : list event) : view :=
  {| v_started := true; v_active := act; v_udp := udp; v_running := true; v_thread := true;
     v_nb := {| nb_up := true; nb_proxy := if proxy then proxied act else None;
                nb_relays := if udp then proxied act else None |};
     v_log := log |}.

Lemma consistent_up v : consistent v -> v_started v = true -> v = running_view (v_active v) true (v_udp v) (v_log v).
Proof. known_view v. by intros ->. Qed.
Lemma running_consistent act udp log : (udp = true -> act <> []) -> consistent (running_view act true udp log).
Proof. intros H. by repeat split. Qed.

Lemma proxied_some p : p <> [] -> proxied p = Some (c_str p).
Proof. intros H. unfold proxied. by rewrite bool_decide_false. Qed.

Lemma start_relays_wp act log Q : act <> [] ->
  (forall l, Q false (running_view act true false l)) -> (forall l, Q true (running_view act true true l)) ->
  wp (let* udpResult := lib (NbStartUdp (c_str act)) in
      if negb (udpResult =? 0) then
        let* _ := setLastError (bs "artemis/settings/netbird_proxy_failed") in Ret false
      else let* _ := update (fun s => with_lastError [] (with_udp true s)) in Ret true) Q (running_view act true false log).
Proof.
  intros Ha Hf Ht. unfold running_view. wp_step. apply wp_lib. intros a. eexists. split.
  { cbn. rewrite proxied_some by done. rewrite !bool_decide_true by done. reflexivity. }
  rewrite <- proxied_some by done. destruct (a =? 0); cbn [negb]; repeat wp_step; [apply Ht|apply Hf].
Qed.

Lemma prepare_wp target v : consistent v -> wp (prepareRouteForStreaming target) (promise (Prepare target)) v.
Proof.
  intros Hc. unfold prepareRouteForStreaming. cbv zeta. wp_step. apply wp_snapshot. intros s (E1 & E2 & E3).
  destruct (_ || _) eqn:E; [repeat wp_step; by split|]. rewrite !orb_false_iff in E. destruct E as [[[Es _] Ep] Ea].
  apply negb_false_iff in Es, Ea. apply bool_decide_eq_true_1 in Ea. apply bool_decide_eq_false_1 in Ep.
  rewrite (consistent_up v) by congruence. rewrite <- E2, <- E3, Ea. wp_step. 
  assert (forall r udp l, (r = true -> udp = true) -> promise (Prepare target) r (running_view (rt_peerAddress target) true udp l)) as HQ.
  { intros r udp l Hr. split; [by apply running_consistent|]. intros ->. split; [done|]. by apply Hr. }
  destruct (ns_udpRelaysStarted s) eqn:Eu.
  - unfold running_view. repeat wp_step. apply start_relays_wp; [done| |]; intros l; by apply HQ.
  - wp_step. apply start_relays_wp; [done| |]; intros l; by apply HQ.
Qed.

Lemma release_wp v Q : consistent v -> v_started v = true ->
  (forall l, Q tt (running_view [] true false l)) ->
  wp (let* _ := lib NbStopUdp in let* _ := lib NbProxyStop in update (fun s => with_udp false (with_active [] s))) Q v.
Proof. intros Hc Hs HQ. rewrite (consistent_up v) by done. unfold running_view. repeat wp_step. apply HQ. Qed.

Lemma deactivate_wp target v : consistent v -> wp (body (Deactivate target)) (promise (Deactivate target)) v.
Proof.
  intros Hc. cbn [body]. wp_step. unfold deactivateRoute. cbv zeta. wp_step. apply wp_snapshot. intros s (E1 & E2 & E3).
  destruct (_ || _) eqn:E.
  - do 2 wp_step. split; [done|]. rewrite !orb_true_iff, negb_true_iff, bool_decide_eq_true in E. destruct E as [[E|E]|E].
    + right. rewrite (consistent_down v) by congruence. done.
    + right. congruence.
    + left. apply negb_true_iff, bool_decide_eq_false_1 in E. congruence.
  - rewrite !orb_false_iff in E. destruct E as [[E _] _]. apply negb_false_iff in E.
    apply release_wp; [done|congruence|]. intros l. wp_step. split; [by apply running_consistent|by right].
Qed.

(** Looking at the library while it runs. *)
Lemma consistent_log v l : consistent v -> consistent (view_log l v).
Proof. done. Qed.
Lemma running_reader {A} (p : prog A) Q act proxy udp log : reader p -> (forall a l, Q a (running_view act proxy udp l)) ->
  wp p Q (running_view act proxy udp log).
Proof. intros Hp HQ. by apply wp_reader. Qed.

Definition down_view (log : list event) : view :=
  {| v_started := false; v_active := []; v_udp := false; v_running := false; v_thread := false; v_nb := nb_off;
     v_log := log |}.
Lemma down_consistent log : consistent (down_view log).
Proof. by repeat split. Qed.

Lemma refresh_wp v Q : consistent v -> (forall l, Q tt (view_log l v)) -> wp refreshPeers Q v.
Proof.
  intros Hc HQ. unfold refreshPeers. wp_step. apply wp_snapshot. intros s (E1 & E2 & E3). wp_step.
  destruct (ns_started s) eqn:Es; cbn [andb]; [|wp_step; specialize (HQ (v_log v)); by destruct v].
  rewrite (consistent_up v) in HQ |- * by congruence. destruct (ns_ready s); [|wp_step; apply HQ].
  apply running_reader; [apply reader_bind; [done|intros; apply refresh_loop_reader]|]. intros ? l. apply HQ.
Qed.

Lemma stop_wp v Q : consistent v -> (forall l, Q tt (down_view l)) -> wp stop Q v.
Proof.
  intros Hc HQ. unfold stop. wp_step. apply wp_snapshot. intros s (E1 & E2 & E3). destruct (ns_started s) eqn:Es; cbn [negb].
  - rewrite (consistent_up v) by congruence. unfold running_view. unfold stopPump. repeat wp_step. apply HQ.
  - wp_step. rewrite (consistent_down v) by congruence. apply HQ.
Qed.

Lemma start_wp settings v : consistent v -> v_started v = false -> wp (start settings) (promise (Start settings)) v.
Proof.
  intros Hc Hs. rewrite (consistent_down v) by done.
  assert (forall l, promise (Start settings) false (down_view l)) as HF by (intros l; split; [apply down_consistent|done]).
  unfold start. do 2 wp_step. destruct (selected settings); cbn [negb]; [|wp_step; apply HF].
  case_bool_decide; [repeat wp_step; apply HF|]. case_bool_decide; [repeat wp_step; apply HF|].
  wp_step. apply wp_lib. intros [rc error]. eexists. split; [cbn; reflexivity|]. cbn [fst]. destruct (rc =? 0); cbn [negb].
  2: { repeat wp_step. apply HF. }
  repeat wp_step. unfold startPump. repeat wp_step. apply refresh_wp; [done|].
  intros l. wp_step. by split.
Qed.

Lemma authenticated_app target l l' : authenticated target l -> authenticated target (l ++ l').
Proof.
  intros (pre & i & ip & name & ident & post & -> & H). exists pre, i, ip, name, ident, (post ++ l').
  by rewrite <- !(assoc_L (++)).
Qed.

Lemma scan_wp target act udp Q n : forall i log, 0 <= i -> i + Z.of_nat n <= kMaxScannedPeers ->
  (forall r l, r <> Some true -> Q r (running_view act true udp l)) ->
  (forall l, authenticated target l -> Q (Some true) (running_view act true udp l)) ->
  wp (scan_loop n i target) Q (running_view act true udp log).
Proof.
  induction n as [|n IH]; intros i log Hi Hn Hf Ht; cbn [scan_loop]; [wp_step; by apply Hf|].
  assert (forall l, wp (scan_loop n (i + 1) target) Q (running_view act true udp l)) as Hnext by (intros l; apply IH; [lia|lia|done..]).
  wp_step. apply wp_lib. intros peer. eexists. split; [cbn; reflexivity|].
  destruct peer as [[ip name]|]; [|apply Hnext]. destruct (negb _) eqn:Ep; [apply Hnext|].
  apply negb_false_iff, bool_decide_eq_true_1 in Ep. wp_step. apply wp_lib. intros ident. eexists. split; [cbn; reflexivity|].
  destruct ident as [ident|]; [|do 3 wp_step; by apply Hf]. destruct (negb _ && _) eqn:Ei; [do 3 wp_step; by apply Hf|].
  wp_step. apply Ht. exists log, i, ip, name, ident, []. cbn [v_log view_call running_view]. split_and!; [by rewrite app_nil_r, <- (assoc_L (++))|lia|lia|done|].
  apply andb_false_iff in Ei. rewrite !negb_false_iff, !bool_decide_eq_true in Ei. done.
Qed.

Lemma switch_wp peer log Q : peer <> [] -> (forall l, Q false (running_view [] true false l)) ->
  (forall l, Q true (running_view peer true false (log ++ l))) -> wp (switch_proxy peer) Q (running_view [] true false log).
Proof.
  intros Hp Hf Ht. unfold switch_proxy, running_view. do 6 wp_step. wp_step. apply wp_lib. intros rc.
  eexists. split; [cbn; reflexivity|]. destruct (rc =? 0) eqn:Ea; cbn [negb]; repeat wp_step; [|apply Hf].
  rewrite <- proxied_some by done. unfold view_state, view_call. cbn. rewrite <- !(assoc_L (++)). apply Ht.
Qed.

Lemma activate_wp target v : consistent v -> v_active v = [] \/ v_active v = rt_peerAddress target ->
  wp (activateRoute target) (promise (Activate target)) v.
Proof.
  intros Hc Hturn. unfold activateRoute. cbv zeta. wp_step. apply wp_snapshot. intros s (E1 & E2 & E3).
  assert (forall w, consistent w -> promise (Activate target) false w) as HF by by split.
  destruct (ns_started s) eqn:Es; cbn [negb]; [|wp_step; by apply HF].
  destruct (ns_ready s); cbn [negb]; [|do 3 wp_step; by apply HF]. case_bool_decide as Hp; [wp_step; by apply HF|].
  assert (v_udp v = true -> v_active v <> []) as Hu by apply Hc. rewrite (consistent_up v) by congruence.
  wp_step. apply wp_lib. intros reported. eexists. split; [cbn; reflexivity|]. wp_step.
  apply (scan_wp target (v_active v) (v_udp v)); [lia|unfold kMaxScannedPeers; lia| |].
  { intros r l Hr. destruct r as [[]|]; [done|wp_step..]; by apply HF, running_consistent. }
  intros l Hl. wp_step. apply wp_snapshot. intros s' (E1' & E2' & E3'). cbn in E1', E2', E3'. case_bool_decide as Ha.
  - wp_step. split; [by apply running_consistent|]. intros _. cbn. split_and!; [congruence|done|done].
  - destruct Hturn as [Hturn|Hturn]; [|congruence]. rewrite Hturn in Hu |- *.
    destruct (v_udp v) eqn:Ev; [by destruct Hu|]. apply switch_wp; [done|intros; by apply HF, running_consistent|].
    intros l'. split; [by apply running_consistent|]. intros _. cbn. split_and!; [done|done|by apply authenticated_app].
Qed.

Lemma body_wp o v : consistent v -> in_turn_view o v -> wp (body o) (promise o) v.
Proof.
  intros Hc Ht. destruct o; cbn [body]; cbn [in_turn_view] in Ht.
  - by apply start_wp.
  - wp_step. apply stop_wp; [done|]. intros l. wp_step. by split; [apply down_consistent|].
  - by apply activate_wp.
  - by apply prepare_wp.
  - by apply deactivate_wp.
  - wp_step. apply refresh_wp; [done|]. intros l. wp_step. by split.
  - wp_step. unfold destroy. wp_step. apply wp_snapshot. intros s (E1 & E2 & E3). destruct (ns_started s) eqn:Es.
    + apply stop_wp; [done|]. intros l. wp_step. by split; [apply down_consistent|].
    + rewrite (consistent_down v) by congruence. unfold stopPump. wp_step. repeat wp_step. by split; [apply down_consistent|].
Qed.

(** ** The invariant of the whole *)

Definition view_of (w : world) (n : nb_state) : view :=
  {| v_started := ns_started (w_state w); v_active := ns_activePeer (w_state w); v_udp := ns_udpRelaysStarted (w_state w);
     v_running := w_pumpRunning w; v_thread := has_thread (w_thread w); v_nb := n; v_log := w_log w |}.

Definition pump_ok (w : world) (n : nb_state) : Prop :=
  match w_thread w with Looping p => nb_up n = true /\ reader p | _ => True end.

Definition control_ok (c : option (op * prog bool)) (v : view) : Prop :=
  match c with None => consistent v | Some (o, p) => wp p (promise o) v end.

Definition world_ok (w : world) (c : option (op * prog bool)) : Prop :=
  w_terminated w = false /\ exists n, w_nb w = Some n /\ pump_ok w n /\ control_ok c (view_of w n).
Definition system_ok (s : system) : Prop := world_ok (world_of s) (control s) /\ Forall reader (refreshers s).

(** The order does not depend on a pump that is not there, and keeps the library
    up under one that is. *)
Lemma next_without_pump c (a : answer c) b n m : nb_next c a true n = Some m -> nb_next c a b n = Some m.
Proof. destruct c; cbn; try done. rewrite andb_false_r. done. Qed.
Lemma next_with_pump c (a : answer c) n m : nb_next c a true n = Some m -> nb_up n = true -> nb_up m = true.
Proof.
  destruct c; cbn; intros H Hu; rewrite Hu in H; cbn in H; repeat (case_bool_decide; cbn in H); by simplify_eq.
Qed.

Lemma control_exec {A} (p p' : prog A) w w' n Q : w_terminated w = false -> w_nb w = Some n -> pump_ok w n ->
  wp p Q (view_of w n) -> exec Control p w p' w' ->
  w_terminated w' = false /\ exists m, w_nb w' = Some m /\ pump_ok w' m /\ wp p' Q (view_of w' m).
Proof.
  intros Ht Hn Hp Hw He. destruct p as [a|c k|f k|f k|b k|k|k]; cbn in He; [done|..].
  - destruct He as (a & -> & ->). destruct (Hw a) as (m & Hm & Hw'). split; [done|].
    assert (nb_next c a (looping (w_thread w)) n = Some m) as Hm'.
    { cbn in Hm. destruct (w_thread w); cbn in Hm |- *; [done|done|]. by apply next_without_pump. }
    exists m. cbn. rewrite Hn. cbn. split_and!; [done| |done]. unfold pump_ok in *. cbn. destruct (w_thread w); [done| |done].
    split; [|by destruct Hp]. cbn in Hm. eapply next_with_pump; [done|by destruct Hp].
  - destruct He as (-> & ->). split; [done|]. exists n. split_and!; [done|done|]. by apply Hw.
  - destruct He as (-> & ->). split; [done|]. by exists n.
  - destruct He as (-> & ->). split; [done|]. by exists n.
  - destruct He as (-> & ->). destruct Hw as (Hf & Hu & Hw). cbn in Hf. rewrite Hf. split; [done|]. exists n. by split_and!.
  - destruct He as (_ & -> & ->). destruct Hw as (_ & Hw). split; [done|]. by exists n.
Qed.

Lemma reader_exec {A} who (p p' : prog A) w w' n : who <> Control -> (who = Pump -> nb_up n = true) -> w_nb w = Some n ->
  reader p -> exec who p w p' w' ->
  reader p' /\ w_nb w' = Some n /\ view_of w' n = view_of w n /\ w_thread w' = w_thread w /\ w_terminated w' = w_terminated w.
Proof.
  intros Hwho Hup Hn Hr He. destruct p as [a|c k|f k|f k|b k|k|k]; cbn in He, Hr; try done.
  - destruct He as (a & -> & ->), Hr as [Hc Hr]. split; [apply Hr|]. destruct who; [done| |].
    + cbn. rewrite Hn. cbn. rewrite read_next by auto. by split_and!.
    + unfold called. by case_bool_decide; split_and!.
  - destruct He as (-> & ->), Hr as [Hf Hr]. destruct (Hf (w_state w)) as (E1 & E2 & E3). split_and!; try done.
    unfold view_of. cbn. by rewrite E1, E2, E3.
  - by destruct He as (-> & ->).
Qed.

Lemma in_turn_ok o w n : in_turn o (w_state w) -> in_turn_view o (view_of w n).
Proof. by destruct o. Qed.

Lemma sstep_ok s s' : system_ok s -> sstep in_turn s s' -> system_ok s'.
Proof.
  intros [(Ht & n & Hn & Hp & Hc) Hr] Hs. destruct Hs as [w rs o Ho|w rs o p p' w' He|w rs o r|w c rs p p' w' Hl He|w c rs late Hl|w c rs|w c l r p w' k He];
    cbn in *.
  - split; [|done]. split; [done|]. exists n. split_and!; [done|done|]. by apply body_wp, (in_turn_ok o (set_log [] w)).
  - split; [|done]. eapply control_exec in He as (Ht' & m & Hm & Hp' & Hw); [|done..]. split; [done|]. by exists m.
  - split; [|done]. split; [done|]. exists n. split_and!; [done..|]. by destruct Hc.
  - split; [|done]. unfold pump_ok in Hp. rewrite Hl in Hp. destruct Hp as [Hu Hp].
    eapply (reader_exec Pump) in He as (Hp' & Hn' & Hv & Hth & Ht'); [|done..]. split; [cbn; congruence|]. exists n.
    split_and!; [done|done|]. cbn. assert (view_of (set_thread (Looping p') w') n = view_of w n) as ->; [|done].
    rewrite <- Hv. unfold view_of. cbn. by rewrite Hth, Hl.
  - split; [|done]. unfold pump_ok in Hp. rewrite Hl in Hp. destruct Hp as [Hu Hp]. split; [done|]. exists n. split_and!; [done| |].
    + unfold pump_ok. cbn. destruct (w_pumpRunning w); [|done]. split; [done|]. apply pump_round_reader.
    + cbn. enough (view_of (set_thread (if w_pumpRunning w then Looping (pump_round late) else Ended) w) n = view_of w n) as -> by done.
      unfold view_of. cbn. rewrite Hl. by destruct (w_pumpRunning w).
  - split; [by split; [|exists n]|]. constructor; [apply refreshPeers_reader|done].
  - apply list.Forall_app in Hr as [Hr1 Hr2]. apply list.Forall_cons in Hr2 as [Hk Hr2].
    eapply (reader_exec Refresher) in He as (Hp' & Hn' & Hv & Hth & Ht'); [|done..]. split.
    + split; [cbn; congruence|]. exists n. split_and!; [done| |cbn; by rewrite Hv]. unfold pump_ok in *. cbn. by rewrite Hth.
    + apply list.Forall_app. split; [done|]. by constructor.
Qed.

Lemma reachable_ok s : reachable in_turn s -> system_ok s.
Proof.
  induction 1 as [|s s' _ IH Hs]; [|by eapply sstep_ok]. split; [|done]. split; [done|]. exists nb_off. split_and!; [done|done|].
  by repeat split.
Qed.

(** ** Theorems *)

(** The state an operation leaves, as a view. *)
Definition provider_view (w : world) : view := view_of w (default nb_off (w_nb w)).

(** C28: while the provider's operations are called one at a time and in turn
    ([in_turn]), in every interleaving with the pump and with the workers that
    refresh the peers, the operations and the pump use the NetBird library in
    order - one login at a time, UDP relays only to the peer of the running proxy,
    everything torn down in reverse before the shutdown, no call and no pump on a
    library that is down - and no running thread is ever replaced; the workers
    only read from the library, and change none of the flags below (such a read
    can come after a shutdown: it is counted in [w_late], [refresh_outlives_stop]);
    and every operation keeps its promise: the flags say what the library runs; a
    route that is granted is the only proxy, runs to the address asked for, and
    was granted after the library named a peer with that address and the identity
    asked for; a stream is prepared only with relays to that peer; a stopped
    provider has nothing running. *)
Theorem netbird_keeps_promises s : reachable in_turn s ->
  w_nb (world_of s) <> None /\ w_terminated (world_of s) = false /\ Forall reader (refreshers s) /\
  forall o r, control s = Some (o, Ret r) -> promise o r (provider_view (world_of s)).
Proof.
  intros [(Ht & n & Hn & _ & Hc) Hrs]%reachable_ok. rewrite Hn. split_and!; [done|done|done|]. intros o r Hs. rewrite Hs in Hc.
  unfold provider_view. rewrite Hn. exact Hc.
Qed.

(** ** Operations end *)

(** At most [n] instructions are left, whatever the answers. *)
Fixpoint within {A} (p : prog A) (n : nat) : Prop :=
  match p, n with
  | Ret _, _ => True
  | Lib c k, S n => forall a, within (k a) n
  | State f k, S n => forall s, within (k s) n
  | Cache f k, S n => within k n
  | Exchange b k, S n => forall b, within (k b) n
  | Spawn k, S n => within k n
  | Join k, S n => within k n
  | _, O => False
  end.
#[local] Arguments within : simpl never.

Lemma within_mono {A} (p : prog A) n m : (n <= m)%nat -> within p n -> within p m.
Proof.
  revert n m. induction p as [a|c k IH|f k IH|f k IH|b k IH|k IH|k IH]; intros [|n] [|m] Hle Hw; try done; try lia.
  - intros x. apply (IH x n m); [lia|apply (Hw x)].
  - intros x. apply (IH x n m); [lia|apply (Hw x)].
  - apply (IH n m); [lia|exact Hw].
  - intros x. apply (IH x n m); [lia|apply (Hw x)].
  - apply (IH n m); [lia|exact Hw].
  - apply (IH n m); [lia|exact Hw].
Qed.

Lemma within_bind {A B} (p : prog A) (g : A -> prog B) n m :
  within p n -> (forall a, within (g a) m) -> within (bind p g) (n + m).
Proof.
  intros Hp Hg. revert n Hp.
  induction p as [a|c k IH|f k IH|f k IH|b k IH|k IH|k IH]; intros [|n] Hp; try done; try (apply (within_mono _ m); [lia|apply Hg]).
  - intros x. apply (IH x), (Hp x).
  - intros x. apply (IH x), (Hp x).
  - apply IH, Hp.
  - intros x. apply (IH x), (Hp x).
  - apply IH, Hp.
  - apply IH, Hp.
Qed.

Lemma within_lib {B} c (g : answer c -> prog B) n : (forall a, within (g a) n) -> within (bind (lib c) g) (S n).
Proof. intros H a. apply H. Qed.
Lemma within_snapshot {B} (g : StateSnapshot -> prog B) n : (forall s, within (g s) n) -> within (bind stateSnapshot g) (S n).
Proof. intros H s. apply H. Qed.
Lemma within_update {B} f (g : unit -> prog B) n : within (g tt) n -> within (bind (update f) g) (S n).
Proof. intros H s. apply H. Qed.
Lemma within_error {B} e (g : unit -> prog B) n : within (g tt) n -> within (bind (setLastError e) g) (S n).
Proof. apply within_update. Qed.
Lemma within_ret {A} (a : A) n : within (Ret a) n.
Proof. by destruct n. Qed.
Create HintDb within.
#[local] Hint Resolve within_ret : within.
#[local] Hint Extern 1 (within (bind (lib _) _) _) => apply within_lib; intros; cbv beta : within.
#[local] Hint Extern 1 (within (bind stateSnapshot _) _) => apply within_snapshot; intros; cbv beta : within.
#[local] Hint Extern 1 (within (bind (update _) _) _) => apply within_update : within.
#[local] Hint Extern 1 (within (bind (setLastError _) _) _) => apply within_error : within.
#[local] Hint Extern 2 (within (if ?b then _ else _) _) => destruct b : within.
#[local] Hint Extern 2 (within (match ?x with _ => _ end) _) => destruct x : within.

Lemma refresh_loop_within n : forall i l, within (refresh_loop n i l) (2 * n).
Proof.
  induction n as [|n IH]; intros i l; [done|]. replace (2 * S n)%nat with (S (S (2 * n))) by lia. cbn [refresh_loop].
  apply within_lib. intros [[ip name]|]; [|apply (within_mono _ (2 * n)); [lia|apply IH]]. apply within_lib.
  intros [ident|]; apply IH.
Qed.

Lemma scan_loop_within target n : forall i, within (scan_loop n i target) (S (2 * n)).
Proof.
  induction n as [|n IH]; intros i; [done|]. replace (2 * S n)%nat with (S (S (2 * n))) by lia. cbn [scan_loop].
  apply within_lib. intros [[ip name]|]; [|apply (within_mono _ (S (2 * n))); [lia|apply IH]].
  destruct (negb _); [apply (within_mono _ (S (2 * n))); [lia|apply IH]|]. apply within_lib. intros [ident|]; eauto with within.
Qed.

Definition refresh_bound : nat := 2 * Z.to_nat kMaxScannedPeers + 3.

Lemma refreshPeers_within : within refreshPeers refresh_bound.
Proof.
  unfold refreshPeers. apply (within_mono _ (S (2 * Z.to_nat kMaxScannedPeers + 1 + 1))); [unfold refresh_bound; lia|].
  apply within_snapshot. intros s. apply within_bind; [|done]. rewrite Nat.add_1_r. destruct (_ && _); [|done].
  apply within_lib. intros reported. eapply within_mono; [|apply refresh_loop_within]. unfold kMaxScannedPeers. lia.
Qed.

(** What the longest operation, a start, takes. *)
Definition operation_bound : nat := refresh_bound + 10.

Lemma stopPump_within : within stopPump 2.
Proof. intros b. destruct b; exact I. Qed.
Lemma startPump_within : within startPump 2.
Proof. intros b. destruct b; exact I. Qed.
Lemma stop_within : within stop 9.
Proof.
  unfold stop. apply within_snapshot. intros s. destruct (negb _); [auto with within|]. do 2 (apply within_lib; intros ?).
  apply (within_bind _ _ 2 4); [apply stopPump_within|]. intros ?. apply within_lib. intros ?. by apply within_update.
Qed.

Lemma body_within o : within (body o) operation_bound.
Proof.
  unfold operation_bound. destruct o; cbn [body].
  - apply (within_mono _ (6 + (2 + (1 + (refresh_bound + 1))))); [lia|]. unfold start.
    apply (within_mono _ (S (S (S (S (S (2 + (1 + (refresh_bound + 1))))))))); [lia|]. apply within_error.
    destruct (negb _); [apply within_ret|]. case_bool_decide; [by apply within_error|]. case_bool_decide; [by apply within_error|].
    apply within_lib. intros [rc error]. destruct (negb _); [by apply within_error|]. do 2 (apply within_lib; intros ?).
    apply within_update. apply within_bind; [apply startPump_within|]. intros ?. apply within_lib. intros ?.
    apply within_bind; [apply refreshPeers_within|done].
  - apply (within_mono _ (9 + 0)); [unfold refresh_bound; lia|]. apply within_bind; [apply stop_within|done].
  - apply (within_mono _ (2 + (S (2 * Z.to_nat kMaxScannedPeers) + 7))); [unfold refresh_bound; lia|]. unfold activateRoute. cbv zeta.
    apply within_snapshot. intros s. destruct (negb _); [apply within_ret|]. destruct (negb _); [by apply within_error|].
    case_bool_decide; [apply within_ret|]. apply within_lib. intros reported. apply within_bind.
    { eapply within_mono; [|apply scan_loop_within]. unfold kMaxScannedPeers. lia. }
    intros [[]|]; [|apply within_ret..]. apply within_snapshot. intros s'. case_bool_decide; [apply within_ret|].
    unfold switch_proxy. auto 8 with within.
  - apply (within_mono _ (S (2 + 3))); [unfold refresh_bound; lia|]. unfold prepareRouteForStreaming. cbv zeta.
    apply within_snapshot. intros s. destruct (_ || _); [by apply within_error|]. apply within_bind; [|auto 8 with within].
    destruct (ns_udpRelaysStarted s); [|done]. by apply within_lib.
  - apply (within_mono _ (4 + 0)); [unfold refresh_bound; lia|]. apply within_bind; [|done]. unfold deactivateRoute. cbv zeta.
    apply within_snapshot. intros s. destruct (_ || _); [done|]. do 2 (apply within_lib; intros ?). done.
  - apply (within_mono _ (refresh_bound + 0)); [lia|]. apply within_bind; [apply refreshPeers_within|done].
  - apply (within_mono _ (10 + 0)); [unfold refresh_bound; lia|]. apply within_bind; [|done]. unfold destroy.
    apply within_snapshot. intros s. destruct (ns_started s); [apply stop_within|].
    apply (within_mono _ 2); [lia|apply stopPump_within].
Qed.

Definition some_answer (c : nb_call) : answer c :=
  match c with
  | NbInit _ _ => (0, [])
  | NbGetIp | NbPeer _ | NbIdentity _ => None
  | NbIsReady => false
  | NbPeerCount | NbProxyStart _ _ | NbStartUdp _ => 0
  | _ => tt
  end.

(** The instructions of a program: the next one can be done, unless it waits for
    the pump. *)
Lemma can_exec {A} who (p : prog A) w : (exists a, p = Ret a) \/ (exists k, p = Join k) \/ exists p' w', exec who p w p' w'.
Proof.
  destruct p as [a|c k|f k|f k|b k|k|k]; cbn; eauto 6. right; right. exists (k (some_answer c)). eauto.
Qed.

Lemma exec_within {A} who (p p' : prog A) w w' n : within p (S n) -> exec who p w p' w' -> within p' n.
Proof.
  intros Hp He. destruct p as [a|c k|f k|f k|b k|k|k]; cbn in He; [done|..].
  - destruct He as (a & -> & _). apply Hp.
  - destruct He as (-> & _). apply Hp.
  - by destruct He as (-> & _).
  - destruct He as (-> & _). apply Hp.
  - by destruct He as (-> & _).
  - by destruct He as (_ & -> & _).
Qed.

Definition instructions_left (t : pump_thread) (n : nat) : Prop := match t with Looping p => within p n | _ => True end.

Definition bounded (s : system) : Prop :=
  (forall o p, control s = Some (o, p) -> within p operation_bound) /\ instructions_left (w_thread (world_of s)) 4.

Lemma exec_thread {A} who (p p' : prog A) w w' n : exec who p w p' w' -> instructions_left (w_thread w) n -> instructions_left (w_thread w') n.
Proof.
  destruct p as [a|c k|f k|f k|b k|k|k]; cbn; try naive_solver.
  - intros (a & -> & ->). destruct who; cbn; [done..|]. by case_bool_decide.
  - intros (-> & ->). destruct (has_thread _); [done|]. intros _. apply within_ret.
Qed.

Lemma pump_round_within late : within (pump_round late) 4.
Proof. unfold pump_round. do 2 (apply within_lib; intros ?). apply within_update. destruct late; [by apply within_lib|apply within_ret]. Qed.

Lemma reachable_bounded turns s : reachable turns s -> bounded s.
Proof.
  induction 1 as [|s s' _ [IHc IHp] Hs]; [split; [done|exact I]|].
  destruct Hs as [w rs o Ho|w rs o p p' w' He|w rs o r|w c rs p p' w' Hl He|w c rs late Hl|w c rs|w c l r p w' k He]; cbn in *; split;
    try done; cbn in *.
  - intros o' p' [= <- <-]. apply body_within.
  - intros o' p'' [= <- <-]. eapply exec_within; [|done]. eapply within_mono; [|by eapply IHc]. lia.
  - by eapply exec_thread.
  - rewrite Hl in IHp. apply (within_mono _ 3); [lia|]. by eapply exec_within.
  - destruct (w_pumpRunning w); [apply pump_round_within|done].
  - by eapply exec_thread.
Qed.

(** No operation waits forever. What an operation still has to do is bounded by
    the peers it may ask for, whatever the library answers; and it can always do
    its next instruction, except that a stop may wait for the pump - which then
    has been told to end, has at most four instructions left in its round, and
    can do them. *)
Theorem operations_end s o p : reachable in_turn s -> control s = Some (o, p) ->
  within p operation_bound /\
  ((exists r, p = Ret r) \/ (exists p' w', exec Control p (world_of s) p' w') \/
   (exists q, w_thread (world_of s) = Looping q /\ w_pumpRunning (world_of s) = false /\ within q 4 /\
      (q = Ret tt \/ exists q' w', exec Pump q (world_of s) q' w'))).
Proof.
  intros Hr Hc. destruct (reachable_bounded _ _ Hr) as [Hb Hp]. split; [by eapply Hb|].
  destruct (can_exec Control p (world_of s)) as [Ha|[[k ->]|He]]; [by left| |by right; left].
  destruct (w_thread (world_of s)) as [|q|] eqn:El; [right; left|right; right|right; left].
  1, 3: exists k, (set_thread NoThread (world_of s)); cbn; by rewrite El.
  apply reachable_ok in Hr as [(_ & n & _ & Hpo & Hw) _]. rewrite Hc in Hw. destruct Hw as [Hf _]. unfold pump_ok in Hpo.
  rewrite El in Hpo. exists q. split_and!; [done|done|done|].
  destruct (can_exec Pump q (world_of s)) as [[[] ->]|[[k' ->]|He]]; [by left|by destruct Hpo|by right].
Qed.

(** ** The peers a list shows *)

(** A program that only stores lists [P] and returns values [Q]. *)
Fixpoint stores {A} (P : list RemoteAccessPeer -> Prop) (Q : A -> Prop) (p : prog A) : Prop :=
  match p with
  | Ret a => Q a
  | Lib c k => forall a, stores P Q (k a)
  | State f k => forall s, stores P Q (k s)
  | Cache f k => (forall l, P (f l)) /\ stores P Q k
  | Exchange b k => forall b, stores P Q (k b)
  | Spawn k => stores P Q k
  | Join k => stores P Q k
  end.
#[local] Arguments stores : simpl never.

Lemma stores_bind {A B} P (Q : A -> Prop) (R : B -> Prop) (p : prog A) (g : A -> prog B) :
  stores P Q p -> (forall a, Q a -> stores P R (g a)) -> stores P R (bind p g).
Proof.
  intros Hp Hg. induction p as [a|c k IH|f k IH|f k IH|b k IH|k IH|k IH]; cbn.
  - by apply Hg.
  - intros a. apply IH, (Hp a).
  - intros s. apply IH, (Hp s).
  - split; [apply Hp|]. apply IH, Hp.
  - intros old. apply IH, (Hp old).
  - apply IH, Hp.
  - apply IH, Hp.
Qed.

Definition anything {A} (a : A) : Prop := True.
Lemma stores_any {A B} P (R : B -> Prop) (p : prog A) (g : A -> prog B) :
  stores P anything p -> (forall a, stores P R (g a)) -> stores P R (bind p g).
Proof. intros Hp Hg. eapply stores_bind; [done|]. by intros. Qed.

Lemma stores_lib {B} P (R : B -> Prop) c (g : answer c -> prog B) : (forall a, stores P R (g a)) -> stores P R (bind (lib c) g).
Proof. intros H a. apply H. Qed.
Lemma stores_snapshot {B} P (R : B -> Prop) (g : StateSnapshot -> prog B) :
  (forall s, stores P R (g s)) -> stores P R (bind stateSnapshot g).
Proof. intros H s. apply H. Qed.
Lemma stores_update {B} P (R : B -> Prop) f (g : unit -> prog B) : stores P R (g tt) -> stores P R (bind (update f) g).
Proof. intros H s. apply H. Qed.
Lemma stores_error {B} P (R : B -> Prop) e (g : unit -> prog B) : stores P R (g tt) -> stores P R (bind (setLastError e) g).
Proof. apply stores_update. Qed.

Ltac stores_step :=
  match goal with
  | |- stores _ _ (bind (lib _) _) => apply stores_lib; intros ?
  | |- stores _ _ (bind stateSnapshot _) => apply stores_snapshot; intros ?
  | |- stores _ _ (bind (update _) _) => apply stores_update
  | |- stores _ _ (bind (setLastError _) _) => apply stores_error
  | |- stores _ _ (if ?b then _ else _) => destruct b
  | |- stores _ anything (Ret _) => exact I
  end.

(** What [refreshPeers] stores: peers the library has named with an identity, at
    most as many as it scans. *)
Definition named (p : RemoteAccessPeer) : Prop :=
  exists ip name ident, p = listed_peer (c_str ip) (c_str name) (c_str ident).
Definition listing (l : list RemoteAccessPeer) : Prop := zlen l <= kMaxScannedPeers /\ Forall named l.

Lemma refresh_loop_stores P n : forall i l, Forall named l -> zlen l + Z.of_nat n <= kMaxScannedPeers ->
  stores P listing (refresh_loop n i l).
Proof.
  induction n as [|n IH]; intros i l Hl Hn; [split; [lia|done]|]. cbn [refresh_loop]. apply stores_lib.
  intros [[ip name]|]; [|apply IH; [done|lia]]. apply stores_lib. intros [ident|]; [|apply IH; [done|lia]].
  apply IH; [|zl]. apply list.Forall_app. split; [done|]. apply list.Forall_singleton. by exists ip, name, ident.
Qed.

Lemma refreshPeers_stores : stores listing anything refreshPeers.
Proof.
  unfold refreshPeers. stores_step. apply (stores_bind _ listing).
  - stores_step; [|by split]. apply stores_lib. intros reported. apply refresh_loop_stores; [done|]. unfold kMaxScannedPeers. zl.
  - intros l Hl. by split.
Qed.

Lemma scan_loop_stores P target n : forall i, stores P anything (scan_loop n i target).
Proof.
  induction n as [|n IH]; intros i; [done|]. cbn [scan_loop]. apply stores_lib. intros [[ip name]|]; [|apply IH].
  stores_step; [apply IH|]. apply stores_lib. intros [ident|]; repeat stores_step.
Qed.

Lemma stopPump_stores P : stores P anything stopPump.
Proof. intros b. by destruct b. Qed.
Lemma startPump_stores P : stores P anything startPump.
Proof. intros b. by destruct b. Qed.
Lemma stop_stores : stores listing anything stop.
Proof.
  unfold stop. repeat stores_step. apply stores_any; [apply stopPump_stores|]. intros ?. repeat stores_step. by split.
Qed.

Lemma body_stores o : stores listing anything (body o).
Proof.
  destruct o; cbn [body].
  - unfold start. do 6 (try stores_step). all: repeat stores_step. destruct a as [rc error]. repeat stores_step.
    apply stores_any; [apply startPump_stores|]. intros ?. stores_step. by apply stores_any; [apply refreshPeers_stores|].
  - by apply stores_any; [apply stop_stores|].
  - unfold activateRoute. cbv zeta. repeat stores_step. apply stores_any; [apply scan_loop_stores|]. unfold switch_proxy.
    intros [[]|]; repeat stores_step.
  - unfold prepareRouteForStreaming. cbv zeta. repeat stores_step. apply stores_any; [by destruct (ns_udpRelaysStarted _)|].
    intros ?. repeat stores_step.
  - apply stores_any; [|done]. unfold deactivateRoute. cbv zeta. by repeat stores_step.
  - by apply stores_any; [apply refreshPeers_stores|].
  - apply stores_any; [|done]. unfold destroy. do 2 stores_step; [apply stop_stores|apply stopPump_stores].
Qed.

Lemma exec_stores {A} who (Q : A -> Prop) p p' w w' : exec who p w p' w' -> stores listing Q p -> listing (w_cache w) ->
  stores listing Q p' /\ listing (w_cache w').
Proof.
  intros He Hp Hw. destruct p as [a|c k|f k|f k|b k|k|k]; cbn in He; [done|..].
  - destruct He as (a & -> & ->). split; [apply Hp|]. destruct who; cbn; [done..|]. by case_bool_decide.
  - destruct He as (-> & ->). split; [apply Hp|done].
  - destruct He as (-> & ->). split; apply Hp.
  - destruct He as (-> & ->). split; [apply Hp|done].
  - destruct He as (-> & ->). split; [done|]. by destruct (has_thread _).
  - by destruct He as (_ & -> & ->).
Qed.

Definition listings (s : system) : Prop :=
  listing (w_cache (world_of s)) /\ (forall o p, control s = Some (o, p) -> stores listing anything p) /\
  Forall (stores listing anything) (refreshers s) /\
  match w_thread (world_of s) with Looping p => stores listing anything p | _ => True end.

Lemma exec_thread_stores {A} who (p p' : prog A) w w' : exec who p w p' w' ->
  match w_thread w with Looping q => stores listing anything q | _ => True end ->
  match w_thread w' with Looping q => stores listing anything q | _ => True end.
Proof.
  destruct p as [a|c k|f k|f k|b k|k|k]; cbn; try naive_solver.
  - intros (a & -> & ->). destruct who; cbn; [done..|]. by case_bool_decide.
  - intros (-> & ->). by destruct (has_thread _).
Qed.

Lemma reachable_listings turns s : reachable turns s -> listings s.
Proof.
  induction 1 as [|s s' _ (Hl & Hc & Hr & Ht) Hs]; [by repeat split|].
  destruct Hs as [w rs o Ho|w rs o p p' w' He|w rs o r|w c rs p p' w' Hp He|w c rs late Hp|w c rs|w c l r p w' k He]; cbn in *.
  - split_and!; [done| |done|done]. intros o' p' [= <- <-]. apply body_stores.
  - destruct (exec_stores _ _ _ _ _ _ He (Hc _ _ eq_refl) Hl) as [Hs Hl']. split_and!; [done| |done|by eapply exec_thread_stores].
    intros o' p'' [= <- <-]. done.
  - by split_and!.
  - rewrite Hp in Ht. destruct (exec_stores _ _ _ _ _ _ He Ht Hl) as [Hs Hl']. by split_and!.
  - split_and!; [done..|]. cbn. destruct (w_pumpRunning w); [|done]. unfold pump_round. repeat stores_step.
  - split_and!; [done|done| |done]. constructor; [apply refreshPeers_stores|done].
  - apply list.Forall_app in Hr as [Hr1 Hr2]. apply list.Forall_cons in Hr2 as [Hk Hr2].
    destruct (exec_stores _ _ _ _ _ _ He Hk Hl) as [Hs Hl']. split_and!; [done|done| |by eapply exec_thread_stores].
    apply list.Forall_app. split; [done|]. by constructor.
Qed.

Lemma find_known (p : RemoteAccessPeer -> bool) l : is_Some (List.find p l) <-> existsb p l = true.
Proof.
  induction l as [|x l IH]; cbn; [by split; [intros []|]|]. destruct (p x); [by split; [|eauto]|]. exact IH.
Qed.

(** At every moment the list of peers has at most as many entries as are
    scanned, each a peer the library named with an identity; an address is
    resolved exactly when a listed peer has it, to that peer over the loopback
    proxy, with an identity. *)
Theorem resolved_peers_are_listed turns s address : reachable turns s ->
  let peers := w_cache (world_of s) in
  zlen peers <= kMaxScannedPeers /\ Forall named peers /\
  (is_Some (resolveRoute address peers) <-> isKnownPeer address peers = true) /\
  forall target, resolveRoute address peers = Some target ->
    rt_targetAddress target = address /\ rt_peerAddress target = address /\ rt_peerId target <> [] /\
    rt_connectAddress target = bs "127.0.0.1" /\ rt_mode target = Proxy.
Proof.
  intros ([Hl Hn] & _)%reachable_listings. cbv zeta. split_and!; [done|done| |].
  - unfold resolveRoute, isKnownPeer. case_bool_decide; cbn; [by split; [intros []|]|]. rewrite <- find_known.
    destruct (List.find _ _); cbn; [by split; eauto|]. by split; intros [].
  - unfold resolveRoute. case_bool_decide as Ha; [done|]. intros target.
    destruct (List.find _ _) as [peer|] eqn:Ef; cbn; [|done]. apply find_some in Ef as [_ Ef]. apply bool_decide_eq_true_1 in Ef.
    intros [= <-]. cbn. split_and!; [done|done| |done|done]. by case_bool_decide as Hp.
Qed.

(** ** Runs *)

(** A program on its own, with the answers of the library to come. *)
Inductive reply := ANone | AInt (n : Z) | ABool (b : bool) | AText (t : bytes) | APeer (ip name : bytes).
Definition answer_of (c : nb_call) : reply -> answer c :=
  match c return reply -> answer c with
  | NbInit _ _ => fun r => match r with AInt n => (n, []) | _ => (0, []) end
  | NbGetIp | NbIdentity _ => fun r => match r with AText t => Some t | _ => None end
  | NbIsReady => fun r => match r with ABool b => b | _ => false end
  | NbPeerCount | NbProxyStart _ _ | NbStartUdp _ => fun r => match r with AInt n => n | _ => 0 end
  | NbPeer _ => fun r => match r with APeer ip name => Some (ip, name) | _ => None end
  | _ => fun _ => tt
  end.

(** A pump that has been told to end does, between two rounds. *)
Definition settle (w : world) : world :=
  match w_thread w with Looping (Ret _) => if w_pumpRunning w then w else set_thread Ended w | _ => w end.

Fixpoint play {A} (who : agent) (p : prog A) (replies : list reply) (w : world) : option (A * world) :=
  match p with
  | Ret a => Some (a, w)
  | Lib c k =>
      match replies with
      | [] => None
      | r :: rest => let a := answer_of c r in play who (k a) rest (called who c a w)
      end
  | State f k => play who (k (w_state w)) replies (set_state (f (w_state w)) w)
  | Cache f k => play who k replies (set_cache (f (w_cache w)) w)
  | Exchange b k => play who (k (w_pumpRunning w)) replies (set_running b w)
  | Spawn k => play who k replies (if has_thread (w_thread w) then set_terminated w else set_thread (Looping (Ret tt)) w)
  | Join k => let w := settle w in if looping (w_thread w) then None else play who k replies (set_thread NoThread w)
  end.

Lemma settle_reachable turns w c rs : reachable turns {| world_of := w; control := c; refreshers := rs |} ->
  reachable turns {| world_of := settle w; control := c; refreshers := rs |}.
Proof.
  unfold settle. destruct (w_thread w) as [|[[]|c' k|f k|f k|b k|k|k]|] eqn:Et; try done. destruct (w_pumpRunning w) eqn:Er; [done|].
  intros Hr. eapply reach_step; [exact Hr|]. pose proof (step_round turns w c rs false Et) as Hs. by rewrite Er in Hs.
Qed.

Lemma play_control turns o rs p replies w r w' : play Control p replies w = Some (r, w') ->
  reachable turns {| world_of := w; control := Some (o, p); refreshers := rs |} ->
  reachable turns {| world_of := w'; control := Some (o, Ret r); refreshers := rs |}.
Proof.
  revert replies w. induction p as [b|c k IH|f k IH|f k IH|b k IH|k IH|k IH]; intros replies w; cbn [play].
  - by intros [= -> ->].
  - destruct replies as [|a rest]; [done|]. intros H Hr. eapply IH; [exact H|]. eapply reach_step; [exact Hr|].
    apply step_control. by exists (answer_of c a).
  - intros H Hr. eapply IH; [exact H|]. eapply reach_step; [exact Hr|]. by apply step_control.
  - intros H Hr. eapply IH; [exact H|]. eapply reach_step; [exact Hr|]. by apply step_control.
  - intros H Hr. eapply IH; [exact H|]. eapply reach_step; [exact Hr|]. by apply step_control.
  - intros H Hr. eapply IH; [exact H|]. eapply reach_step; [exact Hr|]. by apply step_control.
  - cbv zeta. destruct (looping _) eqn:El; [done|]. intros H Hr. eapply IH; [exact H|]. apply settle_reachable in Hr.
    eapply reach_step; [exact Hr|]. by apply step_control.
Qed.

Lemma play_refresher turns c p replies w r w' : play Refresher p replies w = Some (r, w') -> reader p ->
  reachable turns {| world_of := w; control := c; refreshers := [p] |} ->
  reachable turns {| world_of := w'; control := c; refreshers := [Ret r] |}.
Proof.
  assert (forall q w1 k w2, exec Refresher q w1 k w2 -> reachable turns {| world_of := w1; control := c; refreshers := [q] |} ->
    reachable turns {| world_of := w2; control := c; refreshers := [k] |}) as Hstep.
  { intros q w1 k w2 He Hr. eapply reach_step; [exact Hr|]. exact (step_refresher turns w1 c [] [] q w2 k He). }
  revert replies w. induction p as [b|call k IH|f k IH|f k IH|b k IH|k IH|k IH]; intros replies w; cbn [play]; try (intros ? Hf; by destruct Hf).
  - by intros [= -> ->].
  - destruct replies as [|a rest]; [done|]. intros H [_ Hk] Hr. eapply IH; [exact H|apply Hk|]. eapply Hstep; [|exact Hr]. by eexists.
  - intros H [_ Hk] Hr. eapply IH; [exact H|apply Hk|]. by eapply Hstep; [|exact Hr].
  - intros H Hk Hr. eapply IH; [exact H|apply Hk|]. by eapply Hstep; [|exact Hr].
Qed.

Definition idle (w : world) (rs : list (prog unit)) : system := {| world_of := w; control := None; refreshers := rs |}.

(** What of a world the examples look at. *)
Definition shown (w : world) : StateSnapshot * option nb_state * list RemoteAccessPeer := (w_state w, w_nb w, w_cache w).

(** A sequence of operations, each run to its end; [admits] is asked before. *)
Section play.
Context (turns : op -> StateSnapshot -> Prop) (admits : op -> StateSnapshot -> bool).
Hypothesis admits_turns : forall o s, admits o s = true -> turns o s.

Definition play_op (o : op) (replies : list reply) (w : world) : option (bool * world) :=
  if admits o (w_state w) then play Control (body o) replies (set_log [] w) else None.
Fixpoint play_ops (ops : list (op * list reply)) (w : world) : option world :=
  match ops with
  | [] => Some w
  | (o, replies) :: rest => r ← play_op o replies w; play_ops rest r.2
  end.

Lemma play_op_reachable o replies rs w r w' : reachable turns (idle w rs) -> play_op o replies w = Some (r, w') ->
  reachable turns {| world_of := w'; control := Some (o, Ret r); refreshers := rs |}.
Proof.
  unfold play_op. destruct (admits _ _) eqn:Ec; [|done]. intros Hr Hp. eapply play_control; [exact Hp|].
  eapply reach_step; [exact Hr|]. apply step_begin. by apply admits_turns.
Qed.

Lemma play_ops_reachable rs ops : forall w w', reachable turns (idle w rs) -> play_ops ops w = Some w' -> reachable turns (idle w' rs).
Proof.
  induction ops as [|[o replies] ops IH]; intros w w' Hr; cbn [play_ops]; [by intros [= ->]|].
  destruct (play_op o replies w) as [[r w1]|] eqn:Ep; cbn; [|done]. apply IH.
  eapply reach_step; [by eapply play_op_reachable|]. apply step_return.
Qed.

(** What the last of several operations returns and leaves, from the start. *)
Definition played (ops : list (op * list reply)) (o : op) (replies : list reply)
  : option (bool * (StateSnapshot * option nb_state * list RemoteAccessPeer)) :=
  w ← play_ops ops fresh_world;
  '(r, w') ← play_op o replies w;
  Some (r, shown w').

Lemma played_reachable ops o replies r v : played ops o replies = Some (r, v) ->
  exists w, shown w = v /\ reachable turns {| world_of := w; control := Some (o, Ret r); refreshers := [] |}.
Proof.
  unfold played. destruct (play_ops ops fresh_world) as [w1|] eqn:E1; cbn; [|done].
  destruct (play_op o replies w1) as [[r' w']|] eqn:E2; cbn; [|done]. intros [= -> <-]. exists w'. split; [done|].
  eapply play_op_reachable; [|exact E2]. eapply play_ops_reachable; [|exact E1]. apply reach_start.
Qed.
End play.

Definition in_turn_b (o : op) (s : StateSnapshot) : bool :=
  match o with
  | Start _ => negb (ns_started s)
  | Activate target => bool_decide (ns_activePeer s = []) || bool_decide (ns_activePeer s = rt_peerAddress target)
  | _ => true
  end.
Lemma in_turn_check o s : in_turn_b o s = true -> in_turn o s.
Proof. destruct o; cbn; try done; [by destruct (ns_started s)|]. by rewrite orb_true_iff, !bool_decide_eq_true. Qed.
Definition any_turn (o : op) (s : StateSnapshot) : bool := true.

(** ** An example, and what it shows *)

Definition ex_settings : Settings := {| selected := true; netbird_server := bs "https://nb"; netbird_setup_key := bs "key" |}.
Definition ex_target (n : string) : RemoteRouteTarget :=
  {| rt_peerId := bs n; rt_peerAddress := bs n; rt_targetAddress := bs n; rt_connectAddress := bs "127.0.0.1"; rt_mode := Proxy |}.
Definition ex_start : op * list reply := (Start ex_settings, [AInt 0; AText (bs "100.1.1.1"); ABool true; AInt 0; AInt 0]).
(** The library knows one peer, whose proxy answers [rc]. *)
Definition ex_activate (n : string) (rc : Z) : op * list reply :=
  (Activate (ex_target n), [AInt 1; APeer (bs n) (bs "pc"); AText (bs n); ANone; ANone; AInt rc]).

(** The state of the example, routed to [active]. *)
Definition ex_state (active : string) (udp : bool) (error : string) : StateSnapshot :=
  {| ns_lastError := bs error; ns_activePeer := bs active; ns_localAddress := bs "100.1.1.1"; ns_started := true; ns_ready := true;
     ns_udpRelaysStarted := udp |}.

Lemma netbird_keeps_promises_witness : exists s,
  reachable in_turn s /\ control s = Some (Activate (ex_target "a"), Ret true) /\ w_nb (world_of s) <> None /\
  promise (Activate (ex_target "a")) true (provider_view (world_of s)).
Proof.
  destruct (played_reachable in_turn in_turn_b in_turn_check [ex_start] (ex_activate "a" 0).1 (ex_activate "a" 0).2 true
    _ ltac:(vm_compute; reflexivity)) as (w & _ & Hr).
  eexists. split; [exact Hr|]. split; [reflexivity|].
  destruct (netbird_keeps_promises _ Hr) as (Hn & _ & _ & Hp). split; [exact Hn|]. by apply Hp.
Defined.

Lemma operations_end_witness : exists s, reachable in_turn s /\ control s = Some (Stop, body Stop) /\ within (body Stop) operation_bound.
Proof.
  eexists. assert (reachable in_turn {| world_of := set_log [] fresh_world; control := Some (Stop, body Stop); refreshers := [] |}) as Hr.
  { eapply reach_step; [apply reach_start|]. by apply step_begin. }
  split; [exact Hr|]. split; [reflexivity|]. by apply (operations_end _ _ _ Hr eq_refl).
Defined.

Lemma resolved_peers_are_listed_witness : exists s, reachable in_turn s /\ control s = Some (Refresh, Ret true) /\
  resolveRoute (bs "100.2.2.2") (w_cache (world_of s)) <> None /\ Forall named (w_cache (world_of s)).
Proof.
  destruct (played_reachable in_turn in_turn_b in_turn_check [ex_start] Refresh
    [AInt 3; ANone; APeer (bs "100.2.2.2") []; AText (bs "netbird:wg:a"); APeer (bs "100.2.2.3") []; ANone] true
    _ ltac:(vm_compute; reflexivity)) as (w & Hw & Hr).
  eexists. split; [exact Hr|]. split; [reflexivity|]. cbn [world_of]. injection Hw as _ _ Hw. split; [by rewrite Hw|].
  apply (resolved_peers_are_listed _ _ (bs "100.2.2.2") Hr).
Defined.

(** FINDING: a switch to another peer stops the running proxy; when the new one
    does not start, [state_.activePeer] still names the old peer, so activating
    that peer again says it has a route though no proxy runs, and preparing a
    stream starts its relays without one. The manager takes the old route back
    first, which hides it. *)
Example failed_switch_keeps_the_old_peer :
  let switch := [ex_start; ex_activate "a" 0; ex_activate "b" (-3)] in
  let again := (Activate (ex_target "a"), [AInt 1; APeer (bs "a") []; AText (bs "a")]) in
  let failed := "artemis/settings/netbird_proxy_failed"%string in
  played any_turn switch again.1 again.2 =
    Some (true, (ex_state "a" false failed, Some {| nb_up := true; nb_proxy := None; nb_relays := None |}, [])) /\
  played any_turn (switch ++ [again]) (Prepare (ex_target "a")) [AInt 0] = Some (true, (ex_state "a" true "", None, [])).
Proof. vm_compute. by split. Qed.

(** FINDING: the Add Host screen calls [refreshPeers] outside the manager's
    [operations] mutex: one that began before a stop reads the library after it
    was shut down and puts the peers back into the list of a stopped provider. *)
Definition ex_late : option world :=
  w ← play_ops in_turn_b [ex_start] fresh_world;
  match refreshPeers with
  | State f k =>
      let rest := k (w_state w) in
      w ← play_ops in_turn_b [(Stop, [ANone; ANone; ANone])] (set_state (f (w_state w)) w);
      '(_, w) ← play Refresher rest [AInt 1; APeer (bs "100.2.2.2") []; AText (bs "netbird:wg:a")] w;
      Some w
  | _ => None
  end.

Lemma ex_late_reachable w : ex_late = Some w -> reachable in_turn {| world_of := w; control := None; refreshers := [Ret tt] |}.
Proof.
  unfold ex_late. destruct (play_ops in_turn_b [ex_start] fresh_world) as [w1|] eqn:E1; [|done]. cbn [mbind option_bind].
  destruct refreshPeers as [| |f k| | | |] eqn:Ek; try done. cbv zeta.
  destruct (play_ops in_turn_b [(Stop, _)] _) as [w2|] eqn:E2; [|done]. cbn [mbind option_bind].
  destruct (play Refresher _ _ w2) as [[[] w3]|] eqn:E3; [|done]. intros [= <-].
  pose proof refreshPeers_reader as Hread. rewrite Ek in Hread. destruct Hread as [_ Hread].
  eapply play_refresher; [exact E3|apply Hread|]. eapply play_ops_reachable; [exact in_turn_check| |exact E2].
  eapply reach_step; [|refine (step_refresher in_turn w1 None [] [] (State f k) _ _ _); by split].
  rewrite <- Ek. eapply reach_step; [|apply step_refresh]. eapply play_ops_reachable; [exact in_turn_check|apply reach_start|exact E1].
Qed.

Lemma refresh_outlives_stop : exists s, reachable in_turn s /\ control s = None /\ ns_started (w_state (world_of s)) = false /\
  w_nb (world_of s) = Some nb_off /\ w_late (world_of s) = 3%nat /\ isKnownPeer (bs "100.2.2.2") (w_cache (world_of s)) = true.
Proof.
  destruct ex_late as [w|] eqn:E; [|by vm_compute in E]. eexists. split; [by apply ex_late_reachable|]. split; [done|].
  assert ((fun w => (ns_started (w_state w), w_nb w, w_late w, isKnownPeer (bs "100.2.2.2") (w_cache w))) <$> ex_late =
    Some (false, Some nb_off, 3%nat, true)) as H by (vm_compute; reflexivity).
  rewrite E in H. cbn [world_of]. injection H as H1 H2 H3 H4. by split_and!.
Qed.

(** FINDING: an error stays in [status()] while the provider is connected, until a
    route or a start succeeds. *)
Example refused_route_hides_the_connection :
  (fun r => status r.2.1.1) <$>
    played in_turn_b [ex_start] (Activate (ex_target "a")) [AInt 1; APeer (bs "a") []; AText (bs "other")] =
  Some (bs "artemis/settings/netbird_route_refused").
Proof. vm_compute. done. Qed.
