(* ===== verification/StreamProfiles.v ===== *)
(** Stream profiles ([streaming/StreamConfigProfileStore.cpp] and [.hpp],
    [StreamConfigProfileNormalize.hpp], [DefaultStreamProfiles.hpp]): the settings
    of a stream by name, the profile of each host and the active one, and their
    file. The settings a profile is taken from or applied to, the clock and the
    random numbers of [makeId] and what the file calls answer come from outside;
    the build is the console's. *)

From S2P Require Import Prelude Text CText Double Jansson JsonFile.

#[local] Set Warnings "-clear-no-such-hyp".

(** ** Numbers *)

(** A [float] is held as the double it converts to. *)
Definition widen (f : spec_float) : double :=
  match f with
  | S754_finite s m e => binary_normalize 53 1024 (if s then Z.neg m else Z.pos m) e s
  | f => f
  end.
Definition narrowed (d : double) : double := widen (to_float d).
Definition flt (a b : Z) : double := narrowed (lit a b).
Definition is_float (d : double) : Prop := is_double d /\ narrowed d = d.

Definition clampZ (v lo hi : Z) : Z := if v <? lo then lo else if hi <? v then hi else v.
Definition value_or {A} (o : option A) (d : A) : A := match o with Some a => a | None => d end.

(** [std::abs] of a difference of [int]s. *)
Definition distance (a b : Z) : Z := Z.abs (i32 (a - b)).

(** ** Normal forms *)

Definition kAllowedHeights : list Z := [360; 480; 540; 720; 1080; 1440].
Definition normalizeProfileHeight (height : Z) : Z :=
  if height =? -1 then -1
  else (foldl (fun best value => let d := distance height value in if d <? best.2 then (value, d) else best)
         (720, distance height 720) kAllowedHeights).1.

Definition normalizeNativeResolutionScale (scale : Z) : Z :=
  if (scale =? 50) || (scale =? 75) || (scale =? 100) || (scale =? 200) then scale else 100.
Definition normalizeCustomDimension (value fallback : Z) : Z :=
  if value <? 160 then fallback else if 7680 <? value then 7680 else value.
Definition normalizeVolume (volume : Z) : Z := clampZ volume 0 100.

Inductive StreamAspectRatio := Ratio16x9 | Ratio4x3.
Definition aspectRatioFromInt (value : Z) : StreamAspectRatio := if value =? 1 then Ratio4x3 else Ratio16x9.
Definition aspectRatioToString (a : StreamAspectRatio) : string := match a with Ratio4x3 => "4:3" | Ratio16x9 => "16:9" end.
Definition aspectRatioFromString (s : bytes) : StreamAspectRatio :=
  if bool_decide (s = bs "4:3") || bool_decide (s = bs "4x3") then Ratio4x3 else Ratio16x9.
Definition streamWidthFromHeight (height : Z) (a : StreamAspectRatio) : Z :=
  if height <=? 0 then 0
  else match a with Ratio4x3 => Z.quot (i32 (height * 4)) 3 | Ratio16x9 => Z.quot (i32 (height * 16)) 9 end.

Definition normalizeFsrPreset (value : Z) : Z := if (value =? 1) || (value =? 2) || (value =? 3) then value else 0.

Definition kPacketSizeAuto : Z := 0.
Definition kPacketSizeMin : Z := 200.
Definition kPacketSizeMax : Z := 65535.
Definition clampPacketSize (packetSize : Z) : Z :=
  if packetSize <=? kPacketSizeAuto then kPacketSizeAuto else clampZ packetSize kPacketSizeMin kPacketSizeMax.

Inductive ScaleMode := Fit | Fill | Stretch.
Definition scaleModeToString (mode : ScaleMode) : string := match mode with Fit => "fit" | Stretch => "stretch" | Fill => "fill" end.
Definition scaleModeFromString (s : bytes) : ScaleMode :=
  if bool_decide (s = bs "fit") then Fit else if bool_decide (s = bs "stretch") then Stretch else Fill.

Inductive VideoCodec := H264 | H265 | AV1.
Definition codecToString (codec : VideoCodec) : string := match codec with H264 => "H264" | AV1 => "AV1" | H265 => "H265" end.
Definition codecFromString (s : bytes) : VideoCodec :=
  if bool_decide (s = bs "H264") || bool_decide (s = bs "h264") then H264
  else if bool_decide (s = bs "AV1") || bool_decide (s = bs "av1") then AV1 else H265.

(** The enumerations read from a number may hold any number. *)
Definition SDL : Z := 0.
Definition AUDREN : Z := 1.
Definition audioBackendToString (backend : Z) : string := if backend =? AUDREN then "audren" else "sdl".
Definition audioBackendFromString (s : bytes) : Z := if bool_decide (s = bs "audren") then AUDREN else SDL.

Inductive PointerMode := MultiTouch | Absolute | AbsoluteSwapped | TrackpadNatural | TrackpadGaming | Disabled.
#[export] Instance PointerMode_eq_dec : EqDecision PointerMode.
Proof. solve_decision. Defined.
Definition pointerModeName (mode : PointerMode) : string :=
  match mode with
  | MultiTouch => "multitouch"
  | Absolute => "absolute"
  | AbsoluteSwapped => "absolute-swapped"
  | TrackpadNatural => "natural-trackpad"
  | TrackpadGaming => "gaming-trackpad"
  | Disabled => "disabled"
  end.
Definition pointerModeFromName (name : bytes) : option PointerMode :=
  List.find (fun candidate => bool_decide (name = bs (pointerModeName candidate)))
    [MultiTouch; Absolute; AbsoluteSwapped; TrackpadNatural; TrackpadGaming; Disabled].
Definition pointerModeFromLegacyTouchscreen (touchscreenMouseMode : bool) : PointerMode :=
  if touchscreenMouseMode then MultiTouch else TrackpadNatural.
Definition legacyTouchscreenFromPointerMode (mode : PointerMode) : bool := bool_decide (mode = MultiTouch).

(** ** A profile *)

Record StreamConfigProfile := {
  sp_id : bytes; sp_name : bytes; sp_resolutionHeight : Z; sp_aspectRatio : StreamAspectRatio; sp_fps : Z;
  sp_clientRefreshRateX100 : Z; sp_bitrateKbps : Z; sp_videoCodec : VideoCodec; sp_requestHdr : bool;
  sp_decoderThreads : Z; sp_nativeResolutionScale : Z; sp_useHwDecoding : bool; sp_forceFullRangeVideo : bool;
  sp_preventPacketLoss : bool; sp_lowLatencyPacing : bool; sp_framesQueueSize : Z; sp_packetSize : Z;
  sp_customResolutionEnabled : bool; sp_customWidth : Z; sp_customHeight : Z; sp_scaleMode : ScaleMode;
  sp_rememberZoomPan : bool; sp_upscalingMode : Z; sp_dithering : bool; sp_ditheringStrength : double;
  sp_rcas : bool; sp_rcasStrength : double; sp_fsrPreset : Z; sp_forwardMotion : bool;
  sp_consoleMotionFallback : bool; sp_hidden : bool; sp_streamAudioConfiguration : Z; sp_playAudioOnPc : bool;
  sp_audioBackend : Z; sp_volumeAmplification : bool; sp_volume : Z; sp_sops : bool;
  sp_terminateAppOnDisconnect : bool; sp_keyboardType : Z; sp_keyboardLocale : Z; sp_keyboardFingers : Z;
  sp_touchscreenMouseMode : bool; sp_pointerMode : PointerMode; sp_swapMouseKeys : bool; sp_swapMouseScroll : bool;
  sp_swapMouseSticks : bool; sp_mouseSpeedMultiplier : Z; sp_swapUiAb : bool; sp_swapUiXy : bool;
  sp_deadzoneLeft : double; sp_deadzoneRight : double; sp_rumbleForce : double; sp_swapStickToDpad : bool;
  sp_mappingLayoutTitle : bytes
}.

Definition new_profile : StreamConfigProfile := {|
  sp_id := []; sp_name := []; sp_resolutionHeight := 720; sp_aspectRatio := Ratio16x9; sp_fps := 60;
  sp_clientRefreshRateX100 := 0; sp_bitrateKbps := 10000; sp_videoCodec := H264; sp_requestHdr := false;
  sp_decoderThreads := 4; sp_nativeResolutionScale := 100; sp_useHwDecoding := true; sp_forceFullRangeVideo := false;
  sp_preventPacketLoss := false; sp_lowLatencyPacing := false; sp_framesQueueSize := 3; sp_packetSize := 0;
  sp_customResolutionEnabled := false; sp_customWidth := 1920; sp_customHeight := 1080; sp_scaleMode := Fill;
  sp_rememberZoomPan := false; sp_upscalingMode := 0; sp_dithering := false; sp_ditheringStrength := flt 3 1;
  sp_rcas := true; sp_rcasStrength := flt 2 10; sp_fsrPreset := 0; sp_forwardMotion := true;
  sp_consoleMotionFallback := false; sp_hidden := false; sp_streamAudioConfiguration := 0; sp_playAudioOnPc := false;
  sp_audioBackend := AUDREN; sp_volumeAmplification := false; sp_volume := 100; sp_sops := false;
  sp_terminateAppOnDisconnect := false; sp_keyboardType := 0; sp_keyboardLocale := 0; sp_keyboardFingers := 3;
  sp_touchscreenMouseMode := false; sp_pointerMode := TrackpadNatural; sp_swapMouseKeys := false;
  sp_swapMouseScroll := false; sp_swapMouseSticks := false; sp_mouseSpeedMultiplier := 47; sp_swapUiAb := false;
  sp_swapUiXy := false; sp_deadzoneLeft := flt 0 1; sp_deadzoneRight := flt 0 1; sp_rumbleForce := flt 1 1;
  sp_swapStickToDpad := false; sp_mappingLayoutTitle := [] |}.

Definition normalizeProfile (p : StreamConfigProfile) : StreamConfigProfile :=
  {|
    sp_id := sp_id p; sp_name := if bool_decide (sp_name p = []) then bs "Profile" else sp_name p;
    sp_resolutionHeight := normalizeProfileHeight (sp_resolutionHeight p); sp_aspectRatio := sp_aspectRatio p;
    sp_fps := if sp_fps p <=? 0 then 60 else sp_fps p;
    sp_clientRefreshRateX100 := if sp_clientRefreshRateX100 p <? 0 then 0 else sp_clientRefreshRateX100 p;
    sp_bitrateKbps := if sp_bitrateKbps p <=? 0 then 10000 else sp_bitrateKbps p; sp_videoCodec := sp_videoCodec p;
    sp_requestHdr := sp_requestHdr p;
    sp_decoderThreads := if sp_decoderThreads p <? 0 then 4 else sp_decoderThreads p;
    sp_nativeResolutionScale := normalizeNativeResolutionScale (sp_nativeResolutionScale p);
    sp_useHwDecoding := sp_useHwDecoding p; sp_forceFullRangeVideo := sp_forceFullRangeVideo p;
    sp_preventPacketLoss := sp_preventPacketLoss p; sp_lowLatencyPacing := sp_lowLatencyPacing p;
    sp_framesQueueSize := sp_framesQueueSize p; sp_packetSize := clampPacketSize (sp_packetSize p);
    sp_customResolutionEnabled := sp_customResolutionEnabled p;
    sp_customWidth := normalizeCustomDimension (sp_customWidth p) 1920;
    sp_customHeight := normalizeCustomDimension (sp_customHeight p) 1080; sp_scaleMode := sp_scaleMode p;
    sp_rememberZoomPan := sp_rememberZoomPan p; sp_upscalingMode := sp_upscalingMode p;
    sp_dithering := sp_dithering p; sp_ditheringStrength := clamp (sp_ditheringStrength p) (flt 1 1) (flt 10 1);
    sp_rcas := sp_rcas p; sp_rcasStrength := clamp (sp_rcasStrength p) (flt 0 1) (flt 1 1);
    sp_fsrPreset := normalizeFsrPreset (sp_fsrPreset p); sp_forwardMotion := sp_forwardMotion p;
    sp_consoleMotionFallback := sp_consoleMotionFallback p; sp_hidden := sp_hidden p;
    sp_streamAudioConfiguration := sp_streamAudioConfiguration p; sp_playAudioOnPc := sp_playAudioOnPc p;
    sp_audioBackend := sp_audioBackend p; sp_volumeAmplification := sp_volumeAmplification p;
    sp_volume := sp_volume p; sp_sops := sp_sops p; sp_terminateAppOnDisconnect := sp_terminateAppOnDisconnect p;
    sp_keyboardType := sp_keyboardType p;
    sp_keyboardLocale := if sp_keyboardLocale p <? 0 then 0 else sp_keyboardLocale p;
    sp_keyboardFingers := clampZ (sp_keyboardFingers p) 0 10;
    sp_touchscreenMouseMode := legacyTouchscreenFromPointerMode (sp_pointerMode p);
    sp_pointerMode := sp_pointerMode p; sp_swapMouseKeys := sp_swapMouseKeys p;
    sp_swapMouseScroll := sp_swapMouseScroll p; sp_swapMouseSticks := sp_swapMouseSticks p;
    sp_mouseSpeedMultiplier := clampZ (sp_mouseSpeedMultiplier p) 0 100; sp_swapUiAb := sp_swapUiAb p;
    sp_swapUiXy := sp_swapUiXy p; sp_deadzoneLeft := clamp (sp_deadzoneLeft p) (flt 0 1) (flt 1 1);
    sp_deadzoneRight := clamp (sp_deadzoneRight p) (flt 0 1) (flt 1 1);
    sp_rumbleForce := clamp (sp_rumbleForce p) (flt 0 1) (flt 1 1); sp_swapStickToDpad := sp_swapStickToDpad p;
    sp_mappingLayoutTitle := sp_mappingLayoutTitle p |}.

Definition with_id (id : bytes) (p : StreamConfigProfile) : StreamConfigProfile :=
  {|
    sp_id := id; sp_name := sp_name p; sp_resolutionHeight := sp_resolutionHeight p;
    sp_aspectRatio := sp_aspectRatio p; sp_fps := sp_fps p; sp_clientRefreshRateX100 := sp_clientRefreshRateX100 p;
    sp_bitrateKbps := sp_bitrateKbps p; sp_videoCodec := sp_videoCodec p; sp_requestHdr := sp_requestHdr p;
    sp_decoderThreads := sp_decoderThreads p; sp_nativeResolutionScale := sp_nativeResolutionScale p;
    sp_useHwDecoding := sp_useHwDecoding p; sp_forceFullRangeVideo := sp_forceFullRangeVideo p;
    sp_preventPacketLoss := sp_preventPacketLoss p; sp_lowLatencyPacing := sp_lowLatencyPacing p;
    sp_framesQueueSize := sp_framesQueueSize p; sp_packetSize := sp_packetSize p;
    sp_customResolutionEnabled := sp_customResolutionEnabled p; sp_customWidth := sp_customWidth p;
    sp_customHeight := sp_customHeight p; sp_scaleMode := sp_scaleMode p; sp_rememberZoomPan := sp_rememberZoomPan p;
    sp_upscalingMode := sp_upscalingMode p; sp_dithering := sp_dithering p;
    sp_ditheringStrength := sp_ditheringStrength p; sp_rcas := sp_rcas p; sp_rcasStrength := sp_rcasStrength p;
    sp_fsrPreset := sp_fsrPreset p; sp_forwardMotion := sp_forwardMotion p;
    sp_consoleMotionFallback := sp_consoleMotionFallback p; sp_hidden := sp_hidden p;
    sp_streamAudioConfiguration := sp_streamAudioConfiguration p; sp_playAudioOnPc := sp_playAudioOnPc p;
    sp_audioBackend := sp_audioBackend p; sp_volumeAmplification := sp_volumeAmplification p;
    sp_volume := sp_volume p; sp_sops := sp_sops p; sp_terminateAppOnDisconnect := sp_terminateAppOnDisconnect p;
    sp_keyboardType := sp_keyboardType p; sp_keyboardLocale := sp_keyboardLocale p;
    sp_keyboardFingers := sp_keyboardFingers p; sp_touchscreenMouseMode := sp_touchscreenMouseMode p;
    sp_pointerMode := sp_pointerMode p; sp_swapMouseKeys := sp_swapMouseKeys p;
    sp_swapMouseScroll := sp_swapMouseScroll p; sp_swapMouseSticks := sp_swapMouseSticks p;
    sp_mouseSpeedMultiplier := sp_mouseSpeedMultiplier p; sp_swapUiAb := sp_swapUiAb p; sp_swapUiXy := sp_swapUiXy p;
    sp_deadzoneLeft := sp_deadzoneLeft p; sp_deadzoneRight := sp_deadzoneRight p; sp_rumbleForce := sp_rumbleForce p;
    sp_swapStickToDpad := sp_swapStickToDpad p; sp_mappingLayoutTitle := sp_mappingLayoutTitle p |}.
Definition with_name (name : bytes) (p : StreamConfigProfile) : StreamConfigProfile :=
  {|
    sp_id := sp_id p; sp_name := name; sp_resolutionHeight := sp_resolutionHeight p;
    sp_aspectRatio := sp_aspectRatio p; sp_fps := sp_fps p; sp_clientRefreshRateX100 := sp_clientRefreshRateX100 p;
    sp_bitrateKbps := sp_bitrateKbps p; sp_videoCodec := sp_videoCodec p; sp_requestHdr := sp_requestHdr p;
    sp_decoderThreads := sp_decoderThreads p; sp_nativeResolutionScale := sp_nativeResolutionScale p;
    sp_useHwDecoding := sp_useHwDecoding p; sp_forceFullRangeVideo := sp_forceFullRangeVideo p;
    sp_preventPacketLoss := sp_preventPacketLoss p; sp_lowLatencyPacing := sp_lowLatencyPacing p;
    sp_framesQueueSize := sp_framesQueueSize p; sp_packetSize := sp_packetSize p;
    sp_customResolutionEnabled := sp_customResolutionEnabled p; sp_customWidth := sp_customWidth p;
    sp_customHeight := sp_customHeight p; sp_scaleMode := sp_scaleMode p; sp_rememberZoomPan := sp_rememberZoomPan p;
    sp_upscalingMode := sp_upscalingMode p; sp_dithering := sp_dithering p;
    sp_ditheringStrength := sp_ditheringStrength p; sp_rcas := sp_rcas p; sp_rcasStrength := sp_rcasStrength p;
    sp_fsrPreset := sp_fsrPreset p; sp_forwardMotion := sp_forwardMotion p;
    sp_consoleMotionFallback := sp_consoleMotionFallback p; sp_hidden := sp_hidden p;
    sp_streamAudioConfiguration := sp_streamAudioConfiguration p; sp_playAudioOnPc := sp_playAudioOnPc p;
    sp_audioBackend := sp_audioBackend p; sp_volumeAmplification := sp_volumeAmplification p;
    sp_volume := sp_volume p; sp_sops := sp_sops p; sp_terminateAppOnDisconnect := sp_terminateAppOnDisconnect p;
    sp_keyboardType := sp_keyboardType p; sp_keyboardLocale := sp_keyboardLocale p;
    sp_keyboardFingers := sp_keyboardFingers p; sp_touchscreenMouseMode := sp_touchscreenMouseMode p;
    sp_pointerMode := sp_pointerMode p; sp_swapMouseKeys := sp_swapMouseKeys p;
    sp_swapMouseScroll := sp_swapMouseScroll p; sp_swapMouseSticks := sp_swapMouseSticks p;
    sp_mouseSpeedMultiplier := sp_mouseSpeedMultiplier p; sp_swapUiAb := sp_swapUiAb p; sp_swapUiXy := sp_swapUiXy p;
    sp_deadzoneLeft := sp_deadzoneLeft p; sp_deadzoneRight := sp_deadzoneRight p; sp_rumbleForce := sp_rumbleForce p;
    sp_swapStickToDpad := sp_swapStickToDpad p; sp_mappingLayoutTitle := sp_mappingLayoutTitle p |}.

(** ** Its text *)

Definition jsonToFloat (v : option value) (defaultValue : double) : double :=
  match v with
  | Some (VReal d) => narrowed d
  | Some (VInteger n) => widen (of_Z_at 24 128 n)
  | _ => defaultValue
  end.
Definition read_aspect (v : value) : StreamAspectRatio :=
  match json_object_get "aspect_ratio" v with
  | Some (VString s) => aspectRatioFromString s
  | Some (VInteger n) => aspectRatioFromInt (i32 n)
  | _ => Ratio16x9
  end.
Definition read_audio_backend (v : value) : Z :=
  match json_object_get "audio_backend" v with
  | Some (VString s) => audioBackendFromString s
  | Some (VInteger n) => i32 n
  | _ => AUDREN
  end.
Definition read_pointer_mode (v : value) : PointerMode :=
  match get_string "pointer_mode" v ≫= pointerModeFromName with
  | Some mode => mode
  | None => pointerModeFromLegacyTouchscreen (value_or (get_true "touchscreen_mouse_mode" v) false)
  end.

Section text.
Context `{lib : Jansson}.

(** [json_object_set_new] of each, in turn. *)
Definition set_all (l : list (string * option value)) : list field :=
  foldl (fun fields e => json_object_set_new (bs e.1) e.2 fields) [] l.

Definition profileToJson (p : StreamConfigProfile) : value :=
  VObject (set_all [
    ("id", json_string (sp_id p)); ("name", json_string (sp_name p));
    ("resolution_height", Some (VInteger (sp_resolutionHeight p)));
    ("aspect_ratio", json_string (bs (aspectRatioToString (sp_aspectRatio p)))); ("fps", Some (VInteger (sp_fps p)));
    ("client_refresh_rate_x100", Some (VInteger (sp_clientRefreshRateX100 p)));
    ("bitrate_kbps", Some (VInteger (sp_bitrateKbps p)));
    ("video_codec", json_string (bs (codecToString (sp_videoCodec p))));
    ("request_hdr", Some (json_boolean (sp_requestHdr p)));
    ("decoder_threads", Some (VInteger (sp_decoderThreads p)));
    ("native_resolution_scale", Some (VInteger (sp_nativeResolutionScale p)));
    ("use_hw_decoding", Some (json_boolean (sp_useHwDecoding p)));
    ("force_full_range_video", Some (json_boolean (sp_forceFullRangeVideo p)));
    ("prevent_packet_loss", Some (json_boolean (sp_preventPacketLoss p)));
    ("low_latency_pacing", Some (json_boolean (sp_lowLatencyPacing p)));
    ("frames_queue_size", Some (VInteger (sp_framesQueueSize p)));
    ("packet_size", Some (VInteger (clampPacketSize (sp_packetSize p))));
    ("custom_resolution_enabled", Some (json_boolean (sp_customResolutionEnabled p)));
    ("custom_width", Some (VInteger (sp_customWidth p))); ("custom_height", Some (VInteger (sp_customHeight p)));
    ("scale_mode", json_string (bs (scaleModeToString (sp_scaleMode p))));
    ("remember_zoom_pan", Some (json_boolean (sp_rememberZoomPan p)));
    ("forward_motion", Some (json_boolean (sp_forwardMotion p)));
    ("console_motion_fallback", Some (json_boolean (sp_consoleMotionFallback p)));
    ("upscaling_mode", Some (VInteger (sp_upscalingMode p))); ("dithering", Some (json_boolean (sp_dithering p)));
    ("dithering_strength", json_real (sp_ditheringStrength p)); ("rcas", Some (json_boolean (sp_rcas p)));
    ("rcas_strength", json_real (sp_rcasStrength p)); ("fsr_preset", Some (VInteger (sp_fsrPreset p)));
    ("stream_audio_configuration", Some (VInteger (sp_streamAudioConfiguration p)));
    ("play_audio_on_pc", Some (json_boolean (sp_playAudioOnPc p))); ("sops", Some (json_boolean (sp_sops p)));
    ("terminate_app_on_disconnect", Some (json_boolean (sp_terminateAppOnDisconnect p)));
    ("audio_backend", json_string (bs (audioBackendToString (sp_audioBackend p))));
    ("volume_amplification", Some (json_boolean (sp_volumeAmplification p)));
    ("volume", Some (VInteger (sp_volume p))); ("hidden", Some (json_boolean (sp_hidden p)));
    ("keyboard_type", Some (VInteger (sp_keyboardType p)));
    ("keyboard_locale", Some (VInteger (sp_keyboardLocale p)));
    ("keyboard_fingers", Some (VInteger (sp_keyboardFingers p)));
    ("touchscreen_mouse_mode", Some (json_boolean (sp_touchscreenMouseMode p)));
    ("pointer_mode", json_string (bs (pointerModeName (sp_pointerMode p))));
    ("swap_mouse_keys", Some (json_boolean (sp_swapMouseKeys p)));
    ("swap_mouse_scroll", Some (json_boolean (sp_swapMouseScroll p)));
    ("swap_mouse_sticks", Some (json_boolean (sp_swapMouseSticks p)));
    ("mouse_speed_multiplier", Some (VInteger (sp_mouseSpeedMultiplier p)));
    ("swap_ui_ab", Some (json_boolean (sp_swapUiAb p))); ("swap_ui_xy", Some (json_boolean (sp_swapUiXy p)));
    ("swap_ui_keys", Some (json_boolean (sp_swapUiAb p || sp_swapUiXy p)));
    ("deadzone_left", json_real (sp_deadzoneLeft p)); ("deadzone_right", json_real (sp_deadzoneRight p));
    ("rumble_force", json_real (sp_rumbleForce p));
    ("swap_stick_to_dpad", Some (json_boolean (sp_swapStickToDpad p)));
    ("mapping_layout_title", json_string (sp_mappingLayoutTitle p)) ]).

End text.

Definition profileFromJson (v : value) : StreamConfigProfile :=
  match v with
  | VObject _ => normalizeProfile {|
      sp_id := value_or (get_string "id" v) []; sp_name := value_or (get_string "name" v) [];
      sp_resolutionHeight := value_or (i32 <$> get_integer "resolution_height" v) (sp_resolutionHeight new_profile);
      sp_aspectRatio := read_aspect v; sp_fps := value_or (i32 <$> get_integer "fps" v) (sp_fps new_profile);
      sp_clientRefreshRateX100 := value_or (i32 <$> get_integer "client_refresh_rate_x100" v) (sp_clientRefreshRateX100 new_profile);
      sp_bitrateKbps := value_or (i32 <$> get_integer "bitrate_kbps" v) (sp_bitrateKbps new_profile);
      sp_videoCodec := value_or (codecFromString <$> get_string "video_codec" v) (sp_videoCodec new_profile);
      sp_requestHdr := value_or (get_true "request_hdr" v) (sp_requestHdr new_profile);
      sp_decoderThreads := value_or (i32 <$> get_integer "decoder_threads" v) (sp_decoderThreads new_profile);
      sp_nativeResolutionScale := value_or (i32 <$> get_integer "native_resolution_scale" v) (sp_nativeResolutionScale new_profile);
      sp_useHwDecoding := value_or (get_true "use_hw_decoding" v) (sp_useHwDecoding new_profile);
      sp_forceFullRangeVideo := value_or (get_true "force_full_range_video" v) (sp_forceFullRangeVideo new_profile);
      sp_preventPacketLoss := value_or (get_true "prevent_packet_loss" v) (sp_preventPacketLoss new_profile);
      sp_lowLatencyPacing := value_or (get_true "low_latency_pacing" v) (sp_lowLatencyPacing new_profile);
      sp_framesQueueSize := value_or ((fun n => clampZ (i32 n) 1 5) <$> get_integer "frames_queue_size" v) (sp_framesQueueSize new_profile);
      sp_packetSize := value_or ((fun n => clampPacketSize (i32 n)) <$> get_integer "packet_size" v) (sp_packetSize new_profile);
      sp_customResolutionEnabled := value_or (get_true "custom_resolution_enabled" v) (sp_customResolutionEnabled new_profile);
      sp_customWidth := value_or (i32 <$> get_integer "custom_width" v) (sp_customWidth new_profile);
      sp_customHeight := value_or (i32 <$> get_integer "custom_height" v) (sp_customHeight new_profile);
      sp_scaleMode := value_or (scaleModeFromString <$> get_string "scale_mode" v) (sp_scaleMode new_profile);
      sp_rememberZoomPan := value_or (get_true "remember_zoom_pan" v) (sp_rememberZoomPan new_profile);
      sp_upscalingMode := value_or (i32 <$> get_integer "upscaling_mode" v) (sp_upscalingMode new_profile);
      sp_dithering := value_or (get_true "dithering" v) (sp_dithering new_profile);
      sp_ditheringStrength := jsonToFloat (json_object_get "dithering_strength" v) (sp_ditheringStrength new_profile);
      sp_rcas := value_or (get_true "rcas" v) (sp_rcas new_profile);
      sp_rcasStrength := jsonToFloat (json_object_get "rcas_strength" v) (sp_rcasStrength new_profile);
      sp_fsrPreset := value_or (i32 <$> get_integer "fsr_preset" v) (sp_fsrPreset new_profile);
      sp_forwardMotion := value_or (get_true "forward_motion" v) (sp_forwardMotion new_profile);
      sp_consoleMotionFallback := value_or (get_true "console_motion_fallback" v) (sp_consoleMotionFallback new_profile);
      sp_hidden := value_or (get_true "hidden" v) (sp_hidden new_profile);
      sp_streamAudioConfiguration := value_or (i32 <$> get_integer "stream_audio_configuration" v) (sp_streamAudioConfiguration new_profile);
      sp_playAudioOnPc := value_or (get_true "play_audio_on_pc" v) (sp_playAudioOnPc new_profile);
      sp_audioBackend := read_audio_backend v;
      sp_volumeAmplification := value_or (get_true "volume_amplification" v) (sp_volumeAmplification new_profile);
      sp_volume := value_or ((fun n => normalizeVolume (i32 n)) <$> get_integer "volume" v) (sp_volume new_profile);
      sp_sops := value_or (get_true "sops" v) (sp_sops new_profile);
      sp_terminateAppOnDisconnect := value_or (get_true "terminate_app_on_disconnect" v) (sp_terminateAppOnDisconnect new_profile);
      sp_keyboardType := value_or (i32 <$> get_integer "keyboard_type" v) (sp_keyboardType new_profile);
      sp_keyboardLocale := value_or (i32 <$> get_integer "keyboard_locale" v) (sp_keyboardLocale new_profile);
      sp_keyboardFingers := value_or (i32 <$> get_integer "keyboard_fingers" v) (sp_keyboardFingers new_profile);
      sp_touchscreenMouseMode := legacyTouchscreenFromPointerMode (read_pointer_mode v);
      sp_pointerMode := read_pointer_mode v;
      sp_swapMouseKeys := value_or (get_true "swap_mouse_keys" v) (sp_swapMouseKeys new_profile);
      sp_swapMouseScroll := value_or (get_true "swap_mouse_scroll" v) (sp_swapMouseScroll new_profile);
      sp_swapMouseSticks := value_or (get_true "swap_mouse_sticks" v) (sp_swapMouseSticks new_profile);
      sp_mouseSpeedMultiplier := value_or (i32 <$> get_integer "mouse_speed_multiplier" v) (sp_mouseSpeedMultiplier new_profile);
      sp_swapUiAb := value_or (get_true "swap_ui_ab" v) (value_or (get_true "swap_ui_keys" v) false);
      sp_swapUiXy := value_or (get_true "swap_ui_xy" v) (value_or (get_true "swap_ui_keys" v) false);
      sp_deadzoneLeft := jsonToFloat (json_object_get "deadzone_left" v) (sp_deadzoneLeft new_profile);
      sp_deadzoneRight := jsonToFloat (json_object_get "deadzone_right" v) (sp_deadzoneRight new_profile);
      sp_rumbleForce := jsonToFloat (json_object_get "rumble_force" v) (sp_rumbleForce new_profile);
      sp_swapStickToDpad := value_or (get_true "swap_stick_to_dpad" v) (sp_swapStickToDpad new_profile);
      sp_mappingLayoutTitle := value_or (get_string "mapping_layout_title" v) [] |}
  | _ => new_profile
  end.

(** ** Built-in presets *)

Record DefaultStreamProfileSpec := {
  spec_name : string;
  spec_height : Z;
  spec_fps : Z;
  spec_bitrateKbps : Z;
  spec_lowLatencyPacing : bool;
  spec_framesQueueSize : Z;
}.
Definition spec (name : string) (height fps bitrateKbps : Z) : DefaultStreamProfileSpec :=
  {| spec_name := name; spec_height := height; spec_fps := fps; spec_bitrateKbps := bitrateKbps;
     spec_lowLatencyPacing := false; spec_framesQueueSize := 3 |}.
Definition kDefaultStreamProfiles : list DefaultStreamProfileSpec := [
  spec "360p 30 0.5M" 360 30 500; spec "360p 30 1M" 360 30 1000; spec "480p 30 5M" 480 30 5000;
  spec "480p 60 10M" 480 60 10000; spec "540p 30 5M" 540 30 5000; spec "540p 60 10M" 540 60 10000;
  spec "720p 30 10M" 720 30 10000; spec "720p 60 10M" 720 60 10000; spec "720p 60 20M" 720 60 20000;
  {| spec_name := "720p 60 Low Latency"; spec_height := 720; spec_fps := 60; spec_bitrateKbps := 10000;
     spec_lowLatencyPacing := true; spec_framesQueueSize := 2 |};
  spec "1080p 30 20M" 1080 30 20000; spec "1080p 60 20M" 1080 60 20000; spec "1080p 60 50M" 1080 60 50000;
  spec "1080p 60 100M" 1080 60 100000; spec "1440p 30 20M" 1440 30 20000; spec "1440p 30 50M" 1440 30 50000;
  spec "1440p 60 50M" 1440 60 50000; spec "1440p 60 100M" 1440 60 100000].
Definition kDefaultActiveProfileName : string := "720p 60 10M".
Definition missingDefaultProfiles (existingNames : list bytes) : list DefaultStreamProfileSpec :=
  List.filter (fun s => negb (existsb (fun name => bool_decide (name = bs (spec_name s))) existingNames)) kDefaultStreamProfiles.

(** The profile of a built-in preset; [aspectRatio], [videoCodec] and [scaleMode] are
    set to what a new profile has. *)
Definition preset_profile (id : bytes) (spec : DefaultStreamProfileSpec) : StreamConfigProfile :=
  {|
    sp_id := id; sp_name := bs (spec_name spec); sp_resolutionHeight := spec_height spec;
    sp_aspectRatio := sp_aspectRatio new_profile; sp_fps := spec_fps spec;
    sp_clientRefreshRateX100 := sp_clientRefreshRateX100 new_profile; sp_bitrateKbps := spec_bitrateKbps spec;
    sp_videoCodec := sp_videoCodec new_profile; sp_requestHdr := sp_requestHdr new_profile;
    sp_decoderThreads := sp_decoderThreads new_profile;
    sp_nativeResolutionScale := sp_nativeResolutionScale new_profile;
    sp_useHwDecoding := sp_useHwDecoding new_profile; sp_forceFullRangeVideo := sp_forceFullRangeVideo new_profile;
    sp_preventPacketLoss := sp_preventPacketLoss new_profile; sp_lowLatencyPacing := spec_lowLatencyPacing spec;
    sp_framesQueueSize := spec_framesQueueSize spec; sp_packetSize := sp_packetSize new_profile;
    sp_customResolutionEnabled := sp_customResolutionEnabled new_profile;
    sp_customWidth := sp_customWidth new_profile; sp_customHeight := sp_customHeight new_profile;
    sp_scaleMode := sp_scaleMode new_profile; sp_rememberZoomPan := sp_rememberZoomPan new_profile;
    sp_upscalingMode := sp_upscalingMode new_profile; sp_dithering := sp_dithering new_profile;
    sp_ditheringStrength := sp_ditheringStrength new_profile; sp_rcas := sp_rcas new_profile;
    sp_rcasStrength := sp_rcasStrength new_profile; sp_fsrPreset := sp_fsrPreset new_profile;
    sp_forwardMotion := sp_forwardMotion new_profile;
    sp_consoleMotionFallback := sp_consoleMotionFallback new_profile; sp_hidden := sp_hidden new_profile;
    sp_streamAudioConfiguration := sp_streamAudioConfiguration new_profile;
    sp_playAudioOnPc := sp_playAudioOnPc new_profile; sp_audioBackend := sp_audioBackend new_profile;
    sp_volumeAmplification := sp_volumeAmplification new_profile; sp_volume := sp_volume new_profile;
    sp_sops := sp_sops new_profile; sp_terminateAppOnDisconnect := sp_terminateAppOnDisconnect new_profile;
    sp_keyboardType := sp_keyboardType new_profile; sp_keyboardLocale := sp_keyboardLocale new_profile;
    sp_keyboardFingers := sp_keyboardFingers new_profile;
    sp_touchscreenMouseMode := sp_touchscreenMouseMode new_profile; sp_pointerMode := sp_pointerMode new_profile;
    sp_swapMouseKeys := sp_swapMouseKeys new_profile; sp_swapMouseScroll := sp_swapMouseScroll new_profile;
    sp_swapMouseSticks := sp_swapMouseSticks new_profile;
    sp_mouseSpeedMultiplier := sp_mouseSpeedMultiplier new_profile; sp_swapUiAb := sp_swapUiAb new_profile;
    sp_swapUiXy := sp_swapUiXy new_profile; sp_deadzoneLeft := sp_deadzoneLeft new_profile;
    sp_deadzoneRight := sp_deadzoneRight new_profile; sp_rumbleForce := sp_rumbleForce new_profile;
    sp_swapStickToDpad := sp_swapStickToDpad new_profile; sp_mappingLayoutTitle := sp_mappingLayoutTitle new_profile |}.

(** ** The store *)

(** [m_hostProfile] is a [std::map]. *)
Record profiles := {
  m_profiles : list StreamConfigProfile;
  m_hostProfile : gmap bytes bytes;
  m_activeProfileId : bytes;
  m_loaded : bool;
}.

(** The store, its file and the one of older versions, every state its file has
    been in, and how many identifiers were made and files written. *)
Record world := {
  w_store : profiles;
  w_file : option bytes;
  w_legacy : option bytes;
  w_trace : list (option bytes);
  w_made : nat;
  w_saves : nat;
}.
Definition set_store (s : profiles) (w : world) : world :=
  {| w_store := s; w_file := w_file w; w_legacy := w_legacy w; w_trace := w_trace w; w_made := w_made w; w_saves := w_saves w |}.
Definition set_made (n : nat) (w : world) : world :=
  {| w_store := w_store w; w_file := w_file w; w_legacy := w_legacy w; w_trace := w_trace w; w_made := n; w_saves := w_saves w |}.
Definition with_profiles (l : list StreamConfigProfile) (s : profiles) : profiles :=
  {| m_profiles := l; m_hostProfile := m_hostProfile s; m_activeProfileId := m_activeProfileId s; m_loaded := m_loaded s |}.
Definition with_hosts (m : gmap bytes bytes) (s : profiles) : profiles :=
  {| m_profiles := m_profiles s; m_hostProfile := m; m_activeProfileId := m_activeProfileId s; m_loaded := m_loaded s |}.
Definition with_active (id : bytes) (s : profiles) : profiles :=
  {| m_profiles := m_profiles s; m_hostProfile := m_hostProfile s; m_activeProfileId := id; m_loaded := m_loaded s |}.

(** The clock and the random number of each identifier, and what the file calls of
    each save answer. *)
Record env := { clock : nat -> Z; rng : nat -> Z; dump : nat -> outcome }.

(** [%08x] *)
Definition hex_digit (v : Z) : byte := if v <? 10 then u8 (48 + v) else u8 (87 + v).
Definition hex8 (v : Z) : bytes := (fun i => hex_digit (Z.shiftr (u32 v) (4 * i) mod 16)) <$> [7; 6; 5; 4; 3; 2; 1; 0].
Definition id_text (now random : Z) : bytes := snprintf 48 (bs "p-" ++ int_text now ++ bs "-" ++ hex8 random).

Definition find_profile (id : bytes) (l : list StreamConfigProfile) : option StreamConfigProfile :=
  List.find (fun p => bool_decide (sp_id p = id)) l.

(** [get] of a store that is loaded. *)
Definition lookup_profile (id : bytes) (s : profiles) : option StreamConfigProfile :=
  if bool_decide (id = []) then None else find_profile id (m_profiles s).

Section store.
Context `{lib : Jansson} (e : env).

Definition makeId (w : world) : bytes * world := (id_text (clock e (w_made w)) (rng e (w_made w)), set_made (S (w_made w)) w).

(** What [exportJson] writes. *)
Definition store_value (s : profiles) : value :=
  let hosts := foldl (fun l h => json_object_set_new h.1 (json_string h.2) l) [] (in_order (m_hostProfile s)) in
  VObject (set_all ([("schema_version", Some (VInteger 14)); ("profiles", Some (VArray (profileToJson <$> m_profiles s)));
                     ("host_profile", Some (VObject hosts))] ++
                    if bool_decide (m_activeProfileId s = []) then [] else [("active_profile_id", json_string (m_activeProfileId s))])).

Definition save (w : world) : bool * world :=
  let '(files, ok) := json_dump_file (dump e (w_saves w)) (json_dumps false (store_value (w_store w))) (w_file w) in
  (ok, {| w_store := w_store w; w_file := from_option id (w_file w) (list.last files); w_legacy := w_legacy w;
          w_trace := w_trace w ++ files; w_made := w_made w; w_saves := S (w_saves w) |}).
Definition saved (w : world) : world := (save w).2.

(** ** Loading *)

Definition first_id (l : list StreamConfigProfile) : bytes := from_option sp_id [] (head l).

(** [addMissingDefaults] of a store that is loaded. *)
Definition add_preset (w : world) (s : DefaultStreamProfileSpec) : world :=
  let '(id, w) := makeId w in
  set_store (with_profiles (m_profiles (w_store w) ++ [preset_profile id s]) (w_store w)) w.
Definition default_active (s : profiles) : profiles :=
  if bool_decide (m_activeProfileId s = []) && negb (bool_decide (m_profiles s = [])) then
    match List.find (fun p => bool_decide (sp_name p = bs kDefaultActiveProfileName)) (m_profiles s) with
    | Some p => if bool_decide (sp_id p = []) then with_active (first_id (m_profiles s)) s else with_active (sp_id p) s
    | None => with_active (first_id (m_profiles s)) s
    end
  else s.
Definition add_missing (w : world) : Z * world :=
  let missing := missingDefaultProfiles (sp_name <$> m_profiles (w_store w)) in
  let w := foldl add_preset w missing in
  let w := set_store (default_active (w_store w)) w in
  (zlen missing, if 0 <? zlen missing then saved w else w).
Definition seedDefaultsIfEmpty (w : world) : world :=
  if bool_decide (m_profiles (w_store w) = []) then (add_missing w).2 else w.

Definition read_profile (w : world) (item : value) : world :=
  let p := profileFromJson item in
  let '(p, w) := if bool_decide (sp_id p = []) then let '(id, w) := makeId w in (with_id id p, w) else (p, w) in
  set_store (with_profiles (m_profiles (w_store w) ++ [p]) (w_store w)) w.
Definition read_hosts (l : list field) : gmap bytes bytes :=
  read_entries (fun v => match v with VString s => Some s | _ => None end) l.

(** A file that is there and holds an object. *)
Definition loaded_object (text : option bytes) : option value :=
  match text ≫= json_loads with Some (VObject l) => Some (VObject l) | _ => None end.

Definition read_store (root : value) (w : world) : world :=
  let w := foldl read_profile w (value_or (get_array "profiles" root) []) in
  let s := with_hosts (read_hosts (value_or (get_object "host_profile" root) [])) (w_store w) in
  let s := with_active (value_or (get_string "active_profile_id" root) []) s in
  let s := match lookup_profile (m_activeProfileId s) s with Some _ => s | None => with_active (first_id (m_profiles s)) s end in
  set_store s w.

Definition reload (w : world) : world :=
  let w := set_store {| m_profiles := []; m_hostProfile := ∅; m_activeProfileId := []; m_loaded := true |} w in
  match loaded_object (w_file w) with
  | Some root => read_store root w
  | None =>
      match loaded_object (w_legacy w) with
      | Some root => saved (read_store root w)
      | None => saved (seedDefaultsIfEmpty w)
      end
  end.
Definition ensureLoaded (w : world) : world := if m_loaded (w_store w) then w else reload w.
Definition addMissingDefaults (w : world) : Z * world := add_missing (ensureLoaded w).

(** ** Operations *)

Definition list_profiles (w : world) : list StreamConfigProfile * world := let w := ensureLoaded w in (m_profiles (w_store w), w).

Definition get (id : bytes) (w : world) : option StreamConfigProfile * world :=
  let w := ensureLoaded w in (lookup_profile id (w_store w), w).

(** [current] holds the settings and stores a snapshot is taken from. *)
Definition snapshotFromSettings (name : bytes) (current : StreamConfigProfile) (w : world) : StreamConfigProfile * world :=
  let '(id, w) := makeId w in
  (normalizeProfile (with_id id (with_name (if bool_decide (name = []) then bs "Profile" else name) current)), w).

Definition create (name : bytes) (fromCurrentSettings : bool) (current : StreamConfigProfile) (w : world) : StreamConfigProfile * world :=
  let w := ensureLoaded w in
  let '(p, w) :=
    if fromCurrentSettings then
      let '(p, w) := snapshotFromSettings name current w in
      let p := with_name (if bool_decide (name = []) then sp_name p else name) p in
      if bool_decide (sp_id p = []) then let '(id, w) := makeId w in (with_id id p, w) else (p, w)
    else
      let '(id, w) := makeId w in
      (with_id id (with_name (if bool_decide (name = []) then bs "Profile" else name) new_profile), w) in
  let p := normalizeProfile p in
  let s := with_profiles (m_profiles (w_store w) ++ [p]) (w_store w) in
  let s := if bool_decide (m_activeProfileId s = []) then with_active (sp_id p) s else s in
  (p, saved (set_store s w)).

(** The loop of [rename] and [update]: the first profile with the identifier. *)
Fixpoint change_first (id : bytes) (f : StreamConfigProfile -> StreamConfigProfile) (l : list StreamConfigProfile)
  : option (list StreamConfigProfile) :=
  match l with
  | [] => None
  | p :: rest => if bool_decide (sp_id p = id) then Some (f p :: rest) else cons p <$> change_first id f rest
  end.
Definition changed (o : option (list StreamConfigProfile)) (w : world) : bool * world :=
  match o with Some l => (true, saved (set_store (with_profiles l (w_store w)) w)) | None => (false, w) end.

Definition rename (id name : bytes) (w : world) : bool * world :=
  let w := ensureLoaded w in
  if bool_decide (name = []) then (false, w) else changed (change_first id (with_name name) (m_profiles (w_store w))) w.
Definition update (p : StreamConfigProfile) (w : world) : bool * world :=
  let w := ensureLoaded w in
  if bool_decide (sp_id p = []) then (false, w)
  else changed (change_first (sp_id p) (fun _ => with_id (sp_id p) (normalizeProfile p)) (m_profiles (w_store w))) w.

Definition remove (id : bytes) (w : world) : bool * world :=
  let w := ensureLoaded w in
  let s := w_store w in
  let kept := List.filter (fun p => negb (bool_decide (sp_id p = id))) (m_profiles s) in
  if (length kept =? length (m_profiles s))%nat then (false, w)
  else
    let s := with_hosts (filter (fun h => h.2 <> id) (m_hostProfile s)) (with_profiles kept s) in
    let s := if bool_decide (m_activeProfileId s = id) then with_active (first_id kept) s else s in
    (true, saved (set_store s w)).

Definition duplicate (id newName : bytes) (current : StreamConfigProfile) (w : world) : StreamConfigProfile * world :=
  let '(existing, w) := get id w in
  match existing with
  | None => create (if bool_decide (newName = []) then bs "Profile" else newName) true current w
  | Some p =>
      let '(fresh, w) := makeId w in
      let copy := with_id fresh (with_name (if bool_decide (newName = []) then sp_name p ++ bs " copy" else newName) p) in
      (copy, saved (set_store (with_profiles (m_profiles (w_store w) ++ [copy]) (w_store w)) w))
  end.

Definition selectedForHost (hostKey : bytes) (w : world) : bytes * world :=
  let w := ensureLoaded w in
  let s := w_store w in
  (if bool_decide (hostKey = []) then []
   else match m_hostProfile s !! hostKey with
        | Some id => match lookup_profile id s with Some _ => id | None => [] end
        | None => []
        end, w).
Definition setSelectedForHost (hostKey profileId : bytes) (w : world) : world :=
  let w := ensureLoaded w in
  let s := w_store w in
  if bool_decide (hostKey = []) then w
  else
    let hosts := match lookup_profile profileId s with
                 | Some _ => <[hostKey := profileId]> (m_hostProfile s)
                 | None => delete hostKey (m_hostProfile s)
                 end in
    saved (set_store (with_hosts hosts s) w).
Definition clearSelectedForHost (hostKey : bytes) (w : world) : world := setSelectedForHost hostKey [] w.

Definition activeProfileId (w : world) : bytes * world :=
  let w := ensureLoaded w in
  let s := w_store w in
  (match lookup_profile (m_activeProfileId s) s with Some _ => m_activeProfileId s | None => first_id (m_profiles s) end, w).
Definition setActiveProfileId (profileId : bytes) (w : world) : world :=
  let w := ensureLoaded w in
  match lookup_profile profileId (w_store w) with
  | Some _ => saved (set_store (with_active profileId (w_store w)) w)
  | None => w
  end.

(** The profile that is applied to the settings. *)
Definition applyToSettings (id : bytes) (w : world) : option StreamConfigProfile * world :=
  let '(p, w) := get id w in
  match p with
  | None => (None, w)
  | Some p => (Some (normalizeProfile p), saved (set_store (with_active (sp_id p) (w_store w)) w))
  end.

(** The states of the file exported to. *)
Definition exportJson (old : option bytes) (w : world) : list (option bytes) * bool :=
  json_dump_file (dump e (w_saves w)) (json_dumps false (store_value (w_store (ensureLoaded w)))) old.

Definition import_profile (renameOnConflict : bool) (w : world) (item : value) : world :=
  let p := profileFromJson item in
  let '(p, w) := if bool_decide (sp_id p = []) then let '(id, w) := makeId w in (with_id id p, w) else (p, w) in
  match lookup_profile (sp_id p) (w_store w) with
  | None => set_store (with_profiles (m_profiles (w_store w) ++ [p]) (w_store w)) w
  | Some _ =>
      if negb renameOnConflict then w
      else
        let '(id, w) := makeId w in
        let p := with_name (sp_name p ++ bs " (import)") (with_id id p) in
        set_store (with_profiles (m_profiles (w_store w) ++ [p]) (w_store w)) w
  end.
Definition import_host (s : profiles) (h : field) : profiles :=
  match h.2 with
  | VString id => match lookup_profile id s with Some _ => with_hosts (<[h.1 := id]> (m_hostProfile s)) s | None => s end
  | _ => s
  end.
Definition import_active (root : value) (s : profiles) : profiles :=
  match get_string "active_profile_id" root with
  | Some id => match lookup_profile id s with Some _ => with_active id s | None => s end
  | None => s
  end.

Definition importJson (text : option bytes) (renameOnConflict : bool) (w : world) : bool * world :=
  let w := ensureLoaded w in
  match loaded_object text with
  | None => (false, w)
  | Some root =>
      match get_array "profiles" root with
      | None => (false, w)
      | Some items =>
          let w := foldl (import_profile renameOnConflict) w items in
          let s := foldl import_host (w_store w) (value_or (get_object "host_profile" root) []) in
          (true, saved (set_store (import_active root s) w))
      end
  end.
End store.

(** ** Normal forms are normal *)

Lemma clampZ_range v lo hi : lo <= hi -> lo <= clampZ v lo hi <= hi.
Proof. intros H. unfold clampZ. destruct (Z.ltb_spec v lo); [lia|]. destruct (Z.ltb_spec hi v); lia. Qed.
Lemma clampZ_id v lo hi : lo <= v <= hi -> clampZ v lo hi = v.
Proof. intros H. unfold clampZ. destruct (Z.ltb_spec v lo); [lia|]. destruct (Z.ltb_spec hi v); lia. Qed.
Lemma clamp_clamp v lo hi : dlt hi lo = false -> clamp (clamp v lo hi) lo hi = clamp v lo hi.
Proof. intros H. destruct (clamp_range v lo hi H) as [H1 H2]. unfold clamp at 1. by rewrite H1, H2. Qed.

Definition heights : list Z := -1 :: kAllowedHeights.
Lemma normal_height h : normalizeProfileHeight h ∈ heights.
Proof.
  unfold normalizeProfileHeight, heights. destruct (h =? -1); [left|]. right.
  set (step := fun best value => _). set (best := (720, distance h 720)).
  assert (forall l best, best.1 ∈ kAllowedHeights -> (forall v, v ∈ l -> v ∈ kAllowedHeights) -> (foldl step best l).1 ∈ kAllowedHeights) as H.
  { induction l as [|v l IH]; intros b Hb Hl; [done|]. cbn [foldl]. apply IH; [|set_solver]. unfold step. destruct (_ <? _); [|done].
    cbn [fst]. apply Hl. left. }
  apply H; [|done]. cbn [fst best]. unfold kAllowedHeights. set_solver.
Qed.
Lemma height_normal h : h ∈ heights -> normalizeProfileHeight h = h.
Proof. unfold heights, kAllowedHeights. rewrite !elem_of_cons, elem_of_nil. by intros [->|[->|[->|[->|[->|[->|[->|[]]]]]]]]. Qed.

Lemma normal_scale s : normalizeNativeResolutionScale (normalizeNativeResolutionScale s) = normalizeNativeResolutionScale s.
Proof. unfold normalizeNativeResolutionScale at 2 3. destruct (_ || _) eqn:E; [|done]. unfold normalizeNativeResolutionScale. by rewrite E. Qed.
Lemma dimension_range v f : 160 <= f <= 7680 -> 160 <= normalizeCustomDimension v f <= 7680.
Proof. intros Hf. unfold normalizeCustomDimension. destruct (Z.ltb_spec v 160); [lia|]. destruct (Z.ltb_spec 7680 v); lia. Qed.
Lemma normal_dimension v f : 160 <= f <= 7680 -> normalizeCustomDimension (normalizeCustomDimension v f) f = normalizeCustomDimension v f.
Proof.
  intros Hf. pose proof (dimension_range v f Hf). set (n := normalizeCustomDimension v f) in *. unfold normalizeCustomDimension.
  by rewrite (proj2 (Z.ltb_ge _ _)), (proj2 (Z.ltb_ge _ _)) by lia.
Qed.
Lemma normal_fsr v : normalizeFsrPreset (normalizeFsrPreset v) = normalizeFsrPreset v.
Proof. unfold normalizeFsrPreset at 2 3. destruct (_ || _) eqn:E; [|done]. unfold normalizeFsrPreset. by rewrite E. Qed.
Lemma normal_packet v : clampPacketSize (clampPacketSize v) = clampPacketSize v.
Proof.
  unfold clampPacketSize, kPacketSizeAuto. destruct (Z.leb_spec v 0); [done|].
  pose proof (clampZ_range v kPacketSizeMin kPacketSizeMax) as H1. rewrite (clampZ_id (clampZ v _ _)) by (apply H1; done).
  destruct (Z.leb_spec (clampZ v kPacketSizeMin kPacketSizeMax) 0); [|done]. unfold kPacketSizeMin in *. assert (200 <= kPacketSizeMax) by done. lia.
Qed.

Lemma normal_profile p : normalizeProfile (normalizeProfile p) = normalizeProfile p.
Proof.
  unfold normalizeProfile. cbn.
  rewrite (height_normal (normalizeProfileHeight _)), normal_scale, normal_fsr, normal_packet, !normal_dimension, !clamp_clamp by (done || apply normal_height).
  rewrite !(clampZ_id (clampZ _ _ _)) by (by apply clampZ_range).
  f_equal.
  - destruct (decide (sp_name p = [])) as [->|H]; [done|]. by rewrite !(bool_decide_false (sp_name p = [])) by done.
  - destruct (Z.leb_spec (sp_fps p) 0); [done|]. by rewrite (proj2 (Z.leb_gt _ _)).
  - destruct (Z.ltb_spec (sp_clientRefreshRateX100 p) 0); [done|]. by rewrite (proj2 (Z.ltb_ge _ _)).
  - destruct (Z.leb_spec (sp_bitrateKbps p) 0); [done|]. by rewrite (proj2 (Z.leb_gt _ _)).
  - destruct (Z.ltb_spec (sp_decoderThreads p) 0); [done|]. by rewrite (proj2 (Z.ltb_ge _ _)).
  - destruct (Z.ltb_spec (sp_keyboardLocale p) 0); [done|]. by rewrite (proj2 (Z.ltb_ge _ _)).
Qed.

(** ** The invariant of the store *)

(** A profile has an identifier and, but for its name, is in normal form. *)
Definition settled (p : StreamConfigProfile) : Prop := sp_id p <> [] /\ with_name [] (normalizeProfile p) = with_name [] p.
Definition names (id : bytes) (l : list StreamConfigProfile) : Prop := exists p, p ∈ l /\ sp_id p = id.
Definition store_ok (s : profiles) : Prop :=
  Forall settled (m_profiles s) /\ (m_activeProfileId s = [] \/ names (m_activeProfileId s) (m_profiles s)).

Lemma settled_with_name name p : settled p -> settled (with_name name p).
Proof.
  intros [Hi Hn]. split; [done|]. change (with_name [] (with_name name p)) with (with_name [] p). rewrite <- Hn. done.
Qed.
Lemma settled_with_id id p : id <> [] -> settled p -> settled (with_id id p).
Proof.
  intros Hid [_ Hn]. split; [done|]. apply (f_equal (with_id id)) in Hn. exact Hn.
Qed.
Lemma settled_normal p : sp_id p <> [] -> settled (normalizeProfile p).
Proof. intros Hi. split; [done|]. by rewrite normal_profile. Qed.

Lemma id_text_nonempty now random : id_text now random <> [].
Proof. done. Qed.

Lemma presets_settled id s : id <> [] -> s ∈ kDefaultStreamProfiles -> settled (preset_profile id s).
Proof.
  intros Hid Hs. assert (settled (with_id [u8 49] (preset_profile [] s))) as H; [|by apply (settled_with_id id) in H].
  revert s Hs. apply list.Forall_forall.
  repeat (apply list.Forall_cons; split; [split; [done|vm_compute; reflexivity]|]). constructor.
Qed.

Lemma settled_names id l : Forall settled l -> names id l -> id <> [].
Proof. intros Hl (p & Hp & <-). rewrite list.Forall_forall in Hl. by apply Hl. Qed.
Lemma find_names id l p : find_profile id l = Some p -> p ∈ l /\ sp_id p = id.
Proof. intros [H1 H2]%find_some. split; [by apply list_elem_of_In|by apply bool_decide_eq_true_1 in H2]. Qed.
Lemma lookup_names id s p : lookup_profile id s = Some p -> names id (m_profiles s).
Proof. unfold lookup_profile. destruct (bool_decide _); [done|]. intros [H1 H2]%find_names. by exists p. Qed.
Lemma first_names l : l <> [] -> names (first_id l) l.
Proof. destruct l as [|p l]; [done|]. intros _. exists p. split; [left|done]. Qed.
Lemma names_app id l k : names id l -> names id (l ++ k).
Proof. intros (p & Hp & H). exists p. split; [set_solver|done]. Qed.
Lemma first_or l : first_id l = [] \/ names (first_id l) l.
Proof. destruct l; [by left|right; by apply first_names]. Qed.

Section invariant.
Context `{lib : Jansson} (e : env).

(** What no operation does to what comes before: [ok w] of the worlds it makes. *)
Definition ok (w : world) : Prop := store_ok (w_store w).

Lemma saved_store w : w_store (saved e w) = w_store w.
Proof. unfold saved, save. by destruct (json_dump_file _ _ _). Qed.
Lemma saved_ok w : ok w -> ok (saved e w).
Proof. unfold ok. by rewrite saved_store. Qed.

(** One more profile. *)
Lemma append_ok s p : store_ok s -> settled p -> store_ok (with_profiles (m_profiles s ++ [p]) s).
Proof.
  intros [Hl Ha] Hp. split; cbn; [apply list.Forall_app; split; [done|by apply list.Forall_singleton]|].
  destruct Ha as [Ha|Ha]; [by left|right; by apply names_app].
Qed.
Lemma active_ok s id : store_ok s -> names id (m_profiles s) -> store_ok (with_active id s).
Proof. intros [Hl Ha] Hn. split; [done|by right]. Qed.

Lemma default_active_ok s : store_ok s -> store_ok (default_active s).
Proof.
  intros Hs. unfold default_active. destruct (_ && _) eqn:E; [|done]. apply andb_true_iff in E as [_ E].
  apply negb_true_iff, bool_decide_eq_false_1 in E. destruct (List.find _ _) as [p|] eqn:Ef; [|by apply active_ok, first_names].
  apply find_some in Ef as [Ef _]. case_bool_decide; apply active_ok; try done; [by apply first_names|]. exists p.
  split; [by apply list_elem_of_In|done].
Qed.

Lemma add_preset_ok w s : s ∈ kDefaultStreamProfiles -> ok w -> ok (add_preset e w s).
Proof. intros Hs Hw. unfold add_preset, makeId. by apply append_ok, presets_settled. Qed.
Lemma add_presets_ok l : Forall (fun s => s ∈ kDefaultStreamProfiles) l -> forall w, ok w -> ok (foldl (add_preset e) w l).
Proof. induction 1 as [|s l Hs _ IH]; intros w Hw; [done|]. cbn [foldl]. apply IH. by apply add_preset_ok. Qed.
Lemma filter_sub {A} (f : A -> bool) l : Forall (fun s => s ∈ l) (List.filter f l).
Proof. apply list.Forall_forall. intros s Hs. apply list_elem_of_In, filter_In in Hs as [Hs _]. by apply list_elem_of_In. Qed.
Lemma missing_presets l : Forall (fun s => s ∈ kDefaultStreamProfiles) (missingDefaultProfiles l).
Proof. apply filter_sub. Qed.
Lemma if_saved_ok (b : bool) w : ok w -> ok (if b then saved e w else w).
Proof. destruct b; [apply saved_ok|done]. Qed.
Lemma add_missing_ok w : ok w -> ok (add_missing e w).2.
Proof.
  intros Hw. apply if_saved_ok. unfold ok. cbn [w_store set_store]. apply default_active_ok, add_presets_ok; [apply missing_presets|done].
Qed.

Lemma fromJson_id v : sp_id (profileFromJson v) <> [] -> settled (profileFromJson v).
Proof. destruct v; try done. intros Hid. by apply settled_normal. Qed.
Lemma fromJson_settled id v : id <> [] -> settled (with_id id (profileFromJson v)).
Proof.
  intros Hid. destruct v as [l|l|s|z|d| | |]; [|split; [done|vm_compute; reflexivity]..].
  split; [done|]. cbn [profileFromJson]. set (p := {| sp_id := _ |}). clearbody p. change (normalizeProfile (with_id id (normalizeProfile p))) with (with_id id (normalizeProfile (normalizeProfile p))).
  by rewrite normal_profile.
Qed.
Lemma read_profile_ok w v : ok w -> ok (read_profile e w v).
Proof.
  intros Hw. unfold read_profile, makeId. destruct (bool_decide (sp_id (profileFromJson v) = [])) eqn:E; apply append_ok; try done.
  - by apply fromJson_settled.
  - apply bool_decide_eq_false_1 in E. by apply fromJson_id.
Qed.
Lemma foldl_ok {A} (f : world -> A -> world) l : (forall w a, ok w -> ok (f w a)) -> forall w, ok w -> ok (foldl f w l).
Proof. intros Hf. induction l as [|a l IH]; intros w Hw; [done|]. cbn [foldl]. apply IH, Hf, Hw. Qed.

Lemma read_store_ok root w : ok w -> ok (read_store e root w).
Proof.
  intros Hw. unfold read_store. set (w' := foldl _ _ _). assert (ok w') as [Hl Ha] by (apply foldl_ok; [apply read_profile_ok|done]).
  unfold ok. cbn [w_store set_store]. destruct (lookup_profile _ _) as [p|] eqn:Ep; (split; [done|]).
  - right. by apply lookup_names in Ep.
  - apply first_or.
Qed.

Lemma reload_ok w : ok (reload e w).
Proof.
  unfold reload. set (w0 := set_store _ w). assert (ok w0) as H0 by (split; [constructor|by left]).
  destruct (loaded_object (w_file w0)); [by apply read_store_ok|].
  destruct (loaded_object (w_legacy w0)); [by apply saved_ok, read_store_ok|].
  apply saved_ok. unfold seedDefaultsIfEmpty. destruct (bool_decide _); [by apply add_missing_ok|done].
Qed.
Lemma ensureLoaded_ok w : ok w -> ok (ensureLoaded e w).
Proof. intros Hw. unfold ensureLoaded. destruct (m_loaded _); [done|apply reload_ok]. Qed.

Lemma snapshot_ok name current w : ok w -> let r := snapshotFromSettings e name current w in settled r.1 /\ ok r.2.
Proof. intros Hw. split; [by apply settled_normal|done]. Qed.

Lemma added_ok (p : StreamConfigProfile) w : ok w -> settled p ->
  let s := with_profiles (m_profiles (w_store w) ++ [p]) (w_store w) in
  ok (saved e (set_store (if bool_decide (m_activeProfileId s = []) then with_active (sp_id p) s else s) w)).
Proof.
  intros Hw Hp. cbv zeta. apply saved_ok. unfold ok. cbn [w_store set_store].
  assert (store_ok (with_profiles (m_profiles (w_store w) ++ [p]) (w_store w))) as Hs by by apply append_ok.
  destruct (bool_decide _); [|done]. apply active_ok; [done|]. exists p. split; [|done]. cbn. set_solver.
Qed.

Lemma create_ok name from current w : ok w -> ok (create e name from current w).2.
Proof.
  intros Hw%ensureLoaded_ok. unfold create, makeId. destruct from.
  - destruct (snapshotFromSettings e name current (ensureLoaded e w)) as [p w1] eqn:Es.
    pose proof (snapshot_ok name current (ensureLoaded e w) Hw) as [Hp Hw1]. rewrite Es in Hp, Hw1. cbn [fst snd] in Hp, Hw1.
    assert (bool_decide (sp_id (with_name (if bool_decide (name = []) then sp_name p else name) p) = []) = false) as ->
      by (apply bool_decide_eq_false, Hp).
    cbn [snd]. apply added_ok; [done|]. apply settled_normal. apply Hp.
  - cbn [snd]. by apply added_ok, settled_normal.
Qed.

Lemma change_first_ok id f l l' : change_first id f l = Some l' -> (forall p, sp_id p = id -> settled p -> settled (f p) /\ sp_id (f p) = id) ->
  Forall settled l -> Forall settled l' /\ sp_id <$> l' = sp_id <$> l.
Proof.
  intros Hc Hf. revert l' Hc. induction l as [|p l IH]; intros l'; cbn [change_first]; [done|]. case_bool_decide as Hp.
  - intros [= <-] [H1 H2]%list.Forall_cons. destruct (Hf p Hp H1) as [H3 H4]. split; [by constructor|]. cbn. by rewrite H4, Hp.
  - destruct (change_first id f l) as [k|]; [|done]. intros [= <-] [H1 H2]%list.Forall_cons.
    destruct (IH k eq_refl H2) as [H3 H4]. split; [by constructor|]. cbn. by rewrite H4.
Qed.
Lemma names_ids id l k : sp_id <$> k = sp_id <$> l -> names id l -> names id k.
Proof.
  intros He (p & Hp & <-). assert (sp_id p ∈ sp_id <$> k) as (q & Hq & Hin)%list_elem_of_fmap by (rewrite He; by apply list_elem_of_fmap_2).
  by exists q.
Qed.
Lemma changed_ok id f w : ok w -> (forall p, sp_id p = id -> settled p -> settled (f p) /\ sp_id (f p) = id) ->
  ok (changed e (change_first id f (m_profiles (w_store w))) w).2.
Proof.
  intros [Hl Ha] Hf. unfold changed. destruct (change_first _ _ _) as [l|] eqn:Ec; [|by split]. cbn [snd]. apply saved_ok.
  destruct (change_first_ok _ _ _ _ Ec Hf Hl) as [H1 H2]. split; [done|]. cbn. destruct Ha as [Ha|Ha]; [by left|right]. by eapply names_ids.
Qed.

Lemma rename_ok id name w : ok w -> ok (rename e id name w).2.
Proof.
  intros Hw%ensureLoaded_ok. unfold rename. destruct (bool_decide _); [done|]. apply changed_ok; [done|].
  intros p Hid Hp. split; [by apply settled_with_name|done].
Qed.
Lemma update_ok p w : ok w -> ok (update e p w).2.
Proof.
  intros Hw%ensureLoaded_ok. unfold update. case_bool_decide as Hp; [done|]. apply changed_ok; [done|]. intros q _ _.
  split; [|done]. apply settled_with_id; [done|]. by apply settled_normal.
Qed.

Lemma remove_ok id w : ok w -> ok (remove e id w).2.
Proof.
  intros Hw%ensureLoaded_ok. unfold remove. destruct (_ =? _)%nat; [done|]. cbn [snd]. apply saved_ok. destruct Hw as [Hl Ha].
  set (kept := List.filter _ _). assert (Forall settled kept) as Hk.
  { eapply list.Forall_impl; [apply filter_sub|]. intros p Hp. rewrite list.Forall_forall in Hl. by apply Hl. }
  unfold ok. cbn [w_store set_store]. case_bool_decide as Hid; (split; [done|]); cbn; [apply first_or|]. cbn in Hid.
  destruct Ha as [Ha|(p & Hp & Hi)]; [by left|right]. exists p. split; [|done]. apply list_elem_of_In, filter_In.
  split; [by apply list_elem_of_In|]. by rewrite Hi, bool_decide_false.
Qed.

Lemma duplicate_ok id newName current w : ok w -> ok (duplicate e id newName current w).2.
Proof.
  intros Hw%ensureLoaded_ok. unfold duplicate, get. destruct (lookup_profile _ _) as [p|] eqn:Ep; [|by apply create_ok].
  cbn [snd]. apply saved_ok. apply append_ok; [done|]. apply settled_with_id; [done|]. apply settled_with_name.
  unfold lookup_profile in Ep. destruct (bool_decide _); [done|]. apply find_names in Ep as [Hp _]. destruct Hw as [Hl _].
  rewrite list.Forall_forall in Hl. by apply Hl.
Qed.

Lemma setSelected_ok hostKey id w : ok w -> ok (setSelectedForHost e hostKey id w).
Proof. intros Hw%ensureLoaded_ok. unfold setSelectedForHost. destruct (bool_decide _); [done|]. by apply saved_ok. Qed.
Lemma setActive_ok id w : ok w -> ok (setActiveProfileId e id w).
Proof.
  intros Hw%ensureLoaded_ok. unfold setActiveProfileId. destruct (lookup_profile _ _) eqn:E; [|done]. apply saved_ok, active_ok; [done|].
  by eapply lookup_names.
Qed.
Lemma apply_ok id w : ok w -> ok (applyToSettings e id w).2.
Proof.
  intros Hw%ensureLoaded_ok. unfold applyToSettings, get. destruct (lookup_profile _ _) as [p|] eqn:E; [|done]. cbn [snd].
  apply saved_ok, active_ok; [done|]. pose proof (lookup_names _ _ _ E) as Hn. unfold lookup_profile in E. destruct (bool_decide _); [done|].
  apply find_names in E as [H1 H2]. by exists p.
Qed.

Lemma import_profile_ok b w v : ok w -> ok (import_profile e b w v).
Proof.
  intros Hw. unfold import_profile, makeId.
  assert (exists p w1, (if bool_decide (sp_id (profileFromJson v) = []) then let '(id, w) := (id_text (clock e (w_made w)) (rng e (w_made w)), set_made (S (w_made w)) w) in
    (with_id id (profileFromJson v), w) else (profileFromJson v, w)) = (p, w1) /\ settled p /\ ok w1) as (p & w1 & -> & Hp & Hw1).
  { case_bool_decide as Hid; eexists _, _; (split; [reflexivity|]); split; try done; [by apply fromJson_settled|by apply fromJson_id]. }
  destruct (lookup_profile _ _); [|by apply append_ok]. destruct (negb b); [done|]. apply append_ok; [done|].
  apply settled_with_name, settled_with_id; done.
Qed.
Lemma import_hosts_ok l : forall s, store_ok s -> store_ok (foldl import_host s l).
Proof.
  induction l as [|h l IH]; intros s Hs; [done|]. cbn [foldl]. apply IH. unfold import_host. destruct h.2; try done. by destruct (lookup_profile _ _).
Qed.
Lemma import_active_ok root s : store_ok s -> store_ok (import_active root s).
Proof.
  intros Hs. unfold import_active. destruct (get_string _ _) as [id|]; [|done]. destruct (lookup_profile id s) eqn:E; [|done].
  apply active_ok; [done|by eapply lookup_names].
Qed.
Lemma import_ok text b w : ok w -> ok (importJson e text b w).2.
Proof.
  intros Hw%ensureLoaded_ok. unfold importJson. destruct (loaded_object text) as [root|]; [|done]. destruct (get_array _ _) as [items|]; [|done].
  cbn [snd]. apply saved_ok, import_active_ok, import_hosts_ok. apply (foldl_ok (import_profile e b)); [apply import_profile_ok|done].
Qed.
End invariant.

(** ** Every run *)

Inductive op :=
| OpList
| OpGet (id : bytes)
| OpCreate (name : bytes) (fromCurrentSettings : bool) (current : StreamConfigProfile)
| OpRename (id name : bytes)
| OpUpdate (p : StreamConfigProfile)
| OpRemove (id : bytes)
| OpDuplicate (id newName : bytes) (current : StreamConfigProfile)
| OpSelectedForHost (hostKey : bytes)
| OpSetSelectedForHost (hostKey profileId : bytes)
| OpActiveProfileId
| OpSetActiveProfileId (profileId : bytes)
| OpApplyToSettings (id : bytes)
| OpImportJson (text : option bytes) (renameOnConflict : bool)
| OpAddMissingDefaults
| OpReload
| OpSave.

Section runs.
Context `{lib : Jansson} (e : env).

Definition step (w : world) (o : op) : world :=
  match o with
  | OpList => (list_profiles e w).2
  | OpGet id => (get e id w).2
  | OpCreate name from current => (create e name from current w).2
  | OpRename id name => (rename e id name w).2
  | OpUpdate p => (update e p w).2
  | OpRemove id => (remove e id w).2
  | OpDuplicate id newName current => (duplicate e id newName current w).2
  | OpSelectedForHost key => (selectedForHost e key w).2
  | OpSetSelectedForHost key id => setSelectedForHost e key id w
  | OpActiveProfileId => (activeProfileId e w).2
  | OpSetActiveProfileId id => setActiveProfileId e id w
  | OpApplyToSettings id => (applyToSettings e id w).2
  | OpImportJson text b => (importJson e text b w).2
  | OpAddMissingDefaults => (addMissingDefaults e w).2
  | OpReload => reload e w
  | OpSave => saved e w
  end.

(** The program's start, with whatever the files hold. *)
Definition fresh_world (file legacy : option bytes) : world :=
  {| w_store := {| m_profiles := []; m_hostProfile := ∅; m_activeProfileId := []; m_loaded := false |}; w_file := file;
     w_legacy := legacy; w_trace := [file]; w_made := 0; w_saves := 0 |}.

Lemma step_ok w o : ok w -> ok (step w o).
Proof.
  intros Hw. destruct o; cbn [step].
  - by apply ensureLoaded_ok.
  - by apply ensureLoaded_ok.
  - by apply create_ok.
  - by apply rename_ok.
  - by apply update_ok.
  - by apply remove_ok.
  - by apply duplicate_ok.
  - by apply ensureLoaded_ok.
  - by apply setSelected_ok.
  - by apply ensureLoaded_ok.
  - by apply setActive_ok.
  - by apply apply_ok.
  - by apply import_ok.
  - by apply add_missing_ok, ensureLoaded_ok.
  - by apply reload_ok.
  - by apply saved_ok.
Qed.
Lemma run_ok ops : forall w, ok w -> ok (foldl step w ops).
Proof. induction ops as [|o ops IH]; intros w Hw; [done|]. apply IH, step_ok, Hw. Qed.

(** C34: whatever the files hold, whatever is imported and whichever saves fail, after
    any operations every profile has an identifier and, but for its name, is in
    normal form; the active profile is one of the list, and there is one unless
    the list is empty; the profile of a host is one of the list, if it has one. *)
Theorem profiles_stay_valid (file legacy : option bytes) (ops : list op) :
  let w := foldl step (fresh_world file legacy) ops in
  Forall settled (m_profiles (w_store w)) /\
  (let '(id, w) := activeProfileId e w in
   if bool_decide (m_profiles (w_store w) = []) then id = [] else names id (m_profiles (w_store w))) /\
  forall hostKey, let '(id, w) := selectedForHost e hostKey w in id = [] \/ names id (m_profiles (w_store w)).
Proof.
  cbv zeta. assert (ok (foldl step (fresh_world file legacy) ops)) as Hw by (apply run_ok; split; [constructor|by left]).
  set (w := foldl _ _ _) in *. pose proof (ensureLoaded_ok e w Hw) as Hl. split; [apply Hw|]. split.
  - unfold activeProfileId. case_bool_decide as Hp.
    + unfold lookup_profile. rewrite Hp. by destruct (bool_decide _).
    + destruct (lookup_profile _ _) eqn:E; [by eapply lookup_names|by apply first_names].
  - intros hostKey. unfold selectedForHost. destruct (bool_decide _); [by left|]. destruct (_ !! hostKey) as [id|]; [|by left].
    destruct (lookup_profile id _) eqn:E; [right; by eapply lookup_names|by left].
Qed.
End runs.

(** ** The file is read back *)

Section back.
Context `{laws : JanssonLaws}.

Lemma set_field_new k v l : k ∉ l.*1 -> set_field k v l = l ++ [(k, v)].
Proof.
  induction l as [|[k' x] l IH]; [done|]. cbn. intros Hk. rewrite bool_decide_false by (intros ->; apply Hk; left). f_equal. apply IH.
  intros Hin. apply Hk. by right.
Qed.

(** Setting distinct literal keys makes the fields that have a value, in order. *)
Lemma set_all_eq (l : list (string * option value)) : forallb (fun x => literal (bs x.1)) l = true -> NoDup ((fun x => bs x.1) <$> l) ->
  set_all l = omap (fun x => pair (bs x.1) <$> x.2) l.
Proof.
  unfold set_all. intros Hl Hn. enough (forall l0 : list field, (forall x, x ∈ l0.*1 -> x ∉ (fun x => bs x.1) <$> l) ->
    foldl (fun fields x => json_object_set_new (bs x.1) x.2 fields) l0 l = l0 ++ omap (fun x => pair (bs x.1) <$> x.2) l) as Hgen.
  { rewrite Hgen; [done|]. intros x Hx. by apply elem_of_nil in Hx. }
  induction l as [|[k [v|]] l IH]; intros l0 H0; cbn [foldl].
  - by rewrite app_nil_r.
  - cbn in Hl, Hn. apply andb_true_iff in Hl as [Hk Hl]. apply list.NoDup_cons in Hn as [Hk' Hn].
    cbn [fst snd]. rewrite set_literal, set_field_new by first [done | intros Hin; by apply (H0 _ Hin); left]. rewrite IH; [|done|done|].
    + cbn. by rewrite <- app_assoc.
    + intros x. rewrite fmap_app, elem_of_app. intros [Hx|Hx%list_elem_of_singleton]; [intros Hin; apply (H0 _ Hx); by right|by subst].
  - cbn in Hl, Hn. apply andb_true_iff in Hl as [Hk Hl]. apply list.NoDup_cons in Hn as [Hk' Hn]. cbn [fst snd].
    change (json_object_set_new (bs k) None l0) with l0. rewrite IH; [done|done|done|]. intros x Hx Hin. apply (H0 _ Hx). by right.
Qed.

(** A profile [save] keeps: its texts are UTF-8 without NUL, it is in normal form
    with the numbers that only reading brings into range in it, and its numbers
    are [int]s and finite [float]s. *)
Definition is_int (n : Z) : Prop := - 2 ^ 31 <= n < 2 ^ 31.
Record profile_ok (p : StreamConfigProfile) : Prop := {
  ok_id : sp_id p <> [];
  ok_texts : text_ok (sp_id p) /\ text_ok (sp_name p) /\ text_ok (sp_mappingLayoutTitle p);
  ok_normal : normalizeProfile p = p;
  ok_volume : 0 <= sp_volume p <= 100;
  ok_queue : 1 <= sp_framesQueueSize p <= 5;
  ok_audio : sp_audioBackend p = SDL \/ sp_audioBackend p = AUDREN;
  ok_ints : Forall is_int [sp_fps p; sp_clientRefreshRateX100 p; sp_bitrateKbps p; sp_decoderThreads p; sp_upscalingMode p;
    sp_streamAudioConfiguration p; sp_keyboardType p; sp_keyboardLocale p];
  ok_floats : Forall is_float [sp_ditheringStrength p; sp_rcasStrength p; sp_deadzoneLeft p; sp_deadzoneRight p; sp_rumbleForce p];
}.

Definition profile_fields (p : StreamConfigProfile) : list field := [
    (bs "id", VString (sp_id p)); (bs "name", VString (sp_name p));
    (bs "resolution_height", VInteger (sp_resolutionHeight p));
    (bs "aspect_ratio", VString (bs (aspectRatioToString (sp_aspectRatio p)))); (bs "fps", VInteger (sp_fps p));
    (bs "client_refresh_rate_x100", VInteger (sp_clientRefreshRateX100 p));
    (bs "bitrate_kbps", VInteger (sp_bitrateKbps p));
    (bs "video_codec", VString (bs (codecToString (sp_videoCodec p))));
    (bs "request_hdr", json_boolean (sp_requestHdr p)); (bs "decoder_threads", VInteger (sp_decoderThreads p));
    (bs "native_resolution_scale", VInteger (sp_nativeResolutionScale p));
    (bs "use_hw_decoding", json_boolean (sp_useHwDecoding p));
    (bs "force_full_range_video", json_boolean (sp_forceFullRangeVideo p));
    (bs "prevent_packet_loss", json_boolean (sp_preventPacketLoss p));
    (bs "low_latency_pacing", json_boolean (sp_lowLatencyPacing p));
    (bs "frames_queue_size", VInteger (sp_framesQueueSize p));
    (bs "packet_size", (VInteger (clampPacketSize (sp_packetSize p))));
    (bs "custom_resolution_enabled", json_boolean (sp_customResolutionEnabled p));
    (bs "custom_width", VInteger (sp_customWidth p)); (bs "custom_height", VInteger (sp_customHeight p));
    (bs "scale_mode", VString (bs (scaleModeToString (sp_scaleMode p))));
    (bs "remember_zoom_pan", json_boolean (sp_rememberZoomPan p));
    (bs "forward_motion", json_boolean (sp_forwardMotion p));
    (bs "console_motion_fallback", json_boolean (sp_consoleMotionFallback p));
    (bs "upscaling_mode", VInteger (sp_upscalingMode p)); (bs "dithering", json_boolean (sp_dithering p));
    (bs "dithering_strength", VReal (sp_ditheringStrength p)); (bs "rcas", json_boolean (sp_rcas p));
    (bs "rcas_strength", VReal (sp_rcasStrength p)); (bs "fsr_preset", VInteger (sp_fsrPreset p));
    (bs "stream_audio_configuration", VInteger (sp_streamAudioConfiguration p));
    (bs "play_audio_on_pc", json_boolean (sp_playAudioOnPc p)); (bs "sops", json_boolean (sp_sops p));
    (bs "terminate_app_on_disconnect", json_boolean (sp_terminateAppOnDisconnect p));
    (bs "audio_backend", VString (bs (audioBackendToString (sp_audioBackend p))));
    (bs "volume_amplification", json_boolean (sp_volumeAmplification p)); (bs "volume", VInteger (sp_volume p));
    (bs "hidden", json_boolean (sp_hidden p)); (bs "keyboard_type", VInteger (sp_keyboardType p));
    (bs "keyboard_locale", VInteger (sp_keyboardLocale p)); (bs "keyboard_fingers", VInteger (sp_keyboardFingers p));
    (bs "touchscreen_mouse_mode", json_boolean (sp_touchscreenMouseMode p));
    (bs "pointer_mode", VString (bs (pointerModeName (sp_pointerMode p))));
    (bs "swap_mouse_keys", json_boolean (sp_swapMouseKeys p));
    (bs "swap_mouse_scroll", json_boolean (sp_swapMouseScroll p));
    (bs "swap_mouse_sticks", json_boolean (sp_swapMouseSticks p));
    (bs "mouse_speed_multiplier", VInteger (sp_mouseSpeedMultiplier p));
    (bs "swap_ui_ab", json_boolean (sp_swapUiAb p)); (bs "swap_ui_xy", json_boolean (sp_swapUiXy p));
    (bs "swap_ui_keys", (json_boolean (sp_swapUiAb p || sp_swapUiXy p)));
    (bs "deadzone_left", VReal (sp_deadzoneLeft p)); (bs "deadzone_right", VReal (sp_deadzoneRight p));
    (bs "rumble_force", VReal (sp_rumbleForce p)); (bs "swap_stick_to_dpad", json_boolean (sp_swapStickToDpad p));
    (bs "mapping_layout_title", VString (sp_mappingLayoutTitle p)) ].

Lemma finite_float d : is_float d -> isfinite d = true.
Proof. by intros [[_ Hf] _]. Qed.

Lemma profileToJson_eq p : profile_ok p -> profileToJson p = VObject (profile_fields p).
Proof.
  intros [_ (T1 & T2 & T3) _ _ _ _ _ Hf]. repeat (apply list.Forall_cons in Hf as [?%finite_float Hf]).
  unfold profileToJson. f_equal. rewrite set_all_eq; [|vm_compute; reflexivity|apply (bool_decide_unpack _); vm_compute; exact I].
  rewrite !string_ok by first [assumption | apply literal_ok; by destruct (sp_aspectRatio p) | apply literal_ok; by destruct (sp_videoCodec p) |
    apply literal_ok; by destruct (sp_scaleMode p) | apply literal_ok; by destruct (sp_pointerMode p) |
    apply literal_ok; unfold audioBackendToString; by destruct (_ =? _)].
  unfold json_real. repeat match goal with H : isfinite _ = true |- _ => rewrite H; clear H end. reflexivity.
Qed.

(** The readers undo the writers. *)
Lemma i32_int n : is_int n -> i32 n = n.
Proof. unfold is_int, i32. intros Hn. rewrite Z.mod_small by lia. lia. Qed.
Lemma aspect_back a : aspectRatioFromString (bs (aspectRatioToString a)) = a.
Proof. by destruct a. Qed.
Lemma codec_back c : codecFromString (bs (codecToString c)) = c.
Proof. by destruct c. Qed.
Lemma scale_back m : scaleModeFromString (bs (scaleModeToString m)) = m.
Proof. by destruct m. Qed.
Lemma pointer_back m : pointerModeFromName (bs (pointerModeName m)) = Some m.
Proof. by destruct m. Qed.
Lemma audio_back b : b = SDL \/ b = AUDREN -> audioBackendFromString (bs (audioBackendToString b)) = b.
Proof. by intros [-> | ->]. Qed.
Lemma true_back b : value_or (match json_boolean b with VTrue => Some true | _ => Some false end) false = b.
Proof. by destruct b. Qed.

Lemma height_int h : is_int (normalizeProfileHeight h).
Proof.
  pose proof (normal_height h) as Hh. revert Hh. unfold heights, kAllowedHeights, is_int. rewrite !elem_of_cons, elem_of_nil. lia.
Qed.
Lemma scale_int n : is_int (normalizeNativeResolutionScale n).
Proof. unfold normalizeNativeResolutionScale, is_int. destruct (_ || _) eqn:E; [|done]. rewrite !orb_true_iff, !Z.eqb_eq in E. lia. Qed.
Lemma fsr_int n : is_int (normalizeFsrPreset n).
Proof. unfold normalizeFsrPreset, is_int. destruct (_ || _) eqn:E; [|done]. rewrite !orb_true_iff, !Z.eqb_eq in E. lia. Qed.
Lemma dimension_int n f : 160 <= f <= 7680 -> is_int (normalizeCustomDimension n f).
Proof. intros Hf. pose proof (dimension_range n f Hf). unfold is_int. lia. Qed.
Lemma packet_int n : is_int (clampPacketSize n).
Proof.
  unfold clampPacketSize, is_int. destruct (_ <=? _); [done|]. pose proof (clampZ_range n kPacketSizeMin kPacketSizeMax ltac:(done)) as Hr.
  unfold kPacketSizeMin, kPacketSizeMax in *. lia.
Qed.
Lemma clamp_int n hi : 0 <= hi < 2 ^ 31 -> is_int (clampZ n 0 hi).
Proof. intros Hhi. pose proof (clampZ_range n 0 hi ltac:(lia)). unfold is_int. lia. Qed.

Section read.
Context (l : list field) (key : string).
Abbreviation v := (VObject l).
Lemma read_int n d : lookup_field (bs key) l = Some (VInteger n) -> is_int n -> value_or (i32 <$> get_integer key v) d = n.
Proof. intros Hl Hn. unfold get_integer, json_object_get. rewrite Hl. by apply i32_int. Qed.
Lemma read_bool b d : lookup_field (bs key) l = Some (json_boolean b) -> value_or (get_true key v) d = b.
Proof. intros Hl. unfold get_true, json_object_get. rewrite Hl. by destruct b. Qed.
Lemma read_float f d : lookup_field (bs key) l = Some (VReal f) -> is_float f -> jsonToFloat (json_object_get key v) d = f.
Proof. intros Hl [_ Hf]. unfold json_object_get. by rewrite Hl. Qed.
Lemma read_text (t : bytes) d : lookup_field (bs key) l = Some (VString t) -> value_or (get_string key v) d = t.
Proof. intros Hl. unfold get_string, json_object_get. by rewrite Hl. Qed.
Lemma read_parsed {A} (parse : bytes -> A) (t : bytes) a d : lookup_field (bs key) l = Some (VString t) -> parse t = a ->
  value_or (parse <$> get_string key v) d = a.
Proof. intros Hl <-. unfold get_string, json_object_get. by rewrite Hl. Qed.
Lemma read_number (parse : Z -> Z) n a d : lookup_field (bs key) l = Some (VInteger n) -> parse n = a ->
  value_or (parse <$> get_integer key v) d = a.
Proof. intros Hl <-. unfold get_integer, json_object_get. by rewrite Hl. Qed.
End read.

Lemma profile_eta p : p = {|
    sp_id := sp_id p; sp_name := sp_name p; sp_resolutionHeight := sp_resolutionHeight p;
    sp_aspectRatio := sp_aspectRatio p; sp_fps := sp_fps p; sp_clientRefreshRateX100 := sp_clientRefreshRateX100 p;
    sp_bitrateKbps := sp_bitrateKbps p; sp_videoCodec := sp_videoCodec p; sp_requestHdr := sp_requestHdr p;
    sp_decoderThreads := sp_decoderThreads p; sp_nativeResolutionScale := sp_nativeResolutionScale p;
    sp_useHwDecoding := sp_useHwDecoding p; sp_forceFullRangeVideo := sp_forceFullRangeVideo p;
    sp_preventPacketLoss := sp_preventPacketLoss p; sp_lowLatencyPacing := sp_lowLatencyPacing p;
    sp_framesQueueSize := sp_framesQueueSize p; sp_packetSize := sp_packetSize p;
    sp_customResolutionEnabled := sp_customResolutionEnabled p; sp_customWidth := sp_customWidth p;
    sp_customHeight := sp_customHeight p; sp_scaleMode := sp_scaleMode p; sp_rememberZoomPan := sp_rememberZoomPan p;
    sp_upscalingMode := sp_upscalingMode p; sp_dithering := sp_dithering p;
    sp_ditheringStrength := sp_ditheringStrength p; sp_rcas := sp_rcas p; sp_rcasStrength := sp_rcasStrength p;
    sp_fsrPreset := sp_fsrPreset p; sp_forwardMotion := sp_forwardMotion p;
    sp_consoleMotionFallback := sp_consoleMotionFallback p; sp_hidden := sp_hidden p;
    sp_streamAudioConfiguration := sp_streamAudioConfiguration p; sp_playAudioOnPc := sp_playAudioOnPc p;
    sp_audioBackend := sp_audioBackend p; sp_volumeAmplification := sp_volumeAmplification p;
    sp_volume := sp_volume p; sp_sops := sp_sops p; sp_terminateAppOnDisconnect := sp_terminateAppOnDisconnect p;
    sp_keyboardType := sp_keyboardType p; sp_keyboardLocale := sp_keyboardLocale p;
    sp_keyboardFingers := sp_keyboardFingers p; sp_touchscreenMouseMode := sp_touchscreenMouseMode p;
    sp_pointerMode := sp_pointerMode p; sp_swapMouseKeys := sp_swapMouseKeys p;
    sp_swapMouseScroll := sp_swapMouseScroll p; sp_swapMouseSticks := sp_swapMouseSticks p;
    sp_mouseSpeedMultiplier := sp_mouseSpeedMultiplier p; sp_swapUiAb := sp_swapUiAb p; sp_swapUiXy := sp_swapUiXy p;
    sp_deadzoneLeft := sp_deadzoneLeft p; sp_deadzoneRight := sp_deadzoneRight p; sp_rumbleForce := sp_rumbleForce p;
    sp_swapStickToDpad := sp_swapStickToDpad p; sp_mappingLayoutTitle := sp_mappingLayoutTitle p |}.
Proof. by destruct p. Qed.

Lemma profile_ints p : profile_ok p -> Forall is_int [sp_resolutionHeight p; sp_nativeResolutionScale p; sp_customWidth p; sp_customHeight p;
  sp_packetSize p; sp_mouseSpeedMultiplier p; sp_keyboardFingers p; sp_fsrPreset p].
Proof.
  intros Hp%ok_normal. repeat (apply list.Forall_cons; split); [..|constructor]; rewrite <- Hp.
  - apply height_int.
  - apply scale_int.
  - by apply dimension_int.
  - by apply dimension_int.
  - apply packet_int.
  - by apply clamp_int.
  - by apply clamp_int.
  - apply fsr_int.
Qed.

(** What a profile in normal form reads back as. *)
Lemma profile_back p : profile_ok p -> profileFromJson (profileToJson p) = p.
Proof.
  intros Hp. pose proof (profile_ints p Hp) as Hk. rewrite profileToJson_eq by done. destruct Hp as [_ _ Hn Hv Hq Ha Hi Hf].
  repeat (apply list.Forall_cons in Hk as [? Hk]). repeat (apply list.Forall_cons in Hi as [? Hi]). repeat (apply list.Forall_cons in Hf as [? Hf]). clear Hi Hf.
  unfold profileFromJson. transitivity (normalizeProfile p); [|done]. f_equal.
  pose proof (f_equal sp_packetSize Hn) as E5. pose proof (f_equal sp_touchscreenMouseMode Hn) as E9. clear Hn.
  cbn [normalizeProfile sp_packetSize sp_touchscreenMouseMode] in E5, E9.
  assert (read_pointer_mode (VObject (profile_fields p)) = sp_pointerMode p) as Epm.
  { unfold read_pointer_mode. change (get_string "pointer_mode" _) with (Some (bs (pointerModeName (sp_pointerMode p)))).
    cbn [mbind option_bind]. by rewrite pointer_back. }
  rewrite Epm. etransitivity; [|symmetry; apply profile_eta]. f_equal; try first
    [ apply read_int; [reflexivity|assumption] | apply read_bool; reflexivity | apply read_float; [reflexivity|assumption]
    | apply read_text; reflexivity ].
  - unfold read_aspect. change (json_object_get "aspect_ratio" _) with (Some (VString (bs (aspectRatioToString (sp_aspectRatio p))))).
    apply aspect_back.
  - eapply read_parsed; [reflexivity|apply codec_back].
  - eapply read_number; [reflexivity|]. cbv beta. rewrite i32_int by (unfold is_int; lia). by apply clampZ_id.
  - eapply read_number; [reflexivity|]. cbv beta. by rewrite i32_int, normal_packet by apply packet_int.
  - eapply read_parsed; [reflexivity|apply scale_back].
  - unfold read_audio_backend. change (json_object_get "audio_backend" _) with (Some (VString (bs (audioBackendToString (sp_audioBackend p))))).
    by apply audio_back.
  - eapply read_number; [reflexivity|]. cbv beta. rewrite i32_int by (unfold is_int; lia). by apply clampZ_id.
  - done.
Qed.

Lemma all_storable n (l : list field) : Forall (fun f => storable n f.2) l -> foldr (fun f P => storable n f.2 /\ P) True l.
Proof. induction 1; by cbn. Qed.
Lemma int_storable n z : is_int z -> storable n (VInteger z).
Proof. unfold is_int. destruct n; cbn; lia. Qed.
Lemma bool_storable n b : storable n (json_boolean b).
Proof. by destruct n, b. Qed.
Lemma float_storable n f : is_float f -> storable n (VReal f).
Proof. intros [Hf _]. by destruct n. Qed.
Lemma text_storable n s : text_ok s -> storable n (VString s).
Proof. by destruct n. Qed.

Lemma profile_storable p : profile_ok p -> storable 1 (profileToJson p).
Proof.
  intros Hp. pose proof (profile_ints p Hp) as Hk. rewrite profileToJson_eq by done. destruct Hp as [_ (T1 & T2 & T3) Hn Hv Hq Ha Hi Hf].
  repeat (apply list.Forall_cons in Hi as [? Hi]). repeat (apply list.Forall_cons in Hf as [? Hf]). repeat (apply list.Forall_cons in Hk as [? Hk]).
  assert (is_int (sp_volume p) /\ is_int (sp_framesQueueSize p)) as [? ?] by (unfold is_int; lia).
  split; [apply (bool_decide_unpack _); vm_compute; exact I|]. split.
  - apply list.Forall_forall. intros f Hfi.
    assert (forallb (fun f : field => literal f.1) (profile_fields p) = true) as Hl by (vm_compute; reflexivity).
    rewrite forallb_forall in Hl. apply literal_ok, Hl. by apply list_elem_of_In.
  - apply all_storable. unfold profile_fields.
    repeat (apply list.Forall_cons; split; [first [by apply int_storable | apply int_storable, packet_int | apply bool_storable | by apply float_storable
      | by apply text_storable | apply text_storable, literal_ok; first [by destruct (sp_aspectRatio p) | by destruct (sp_videoCodec p)
      | by destruct (sp_scaleMode p) | by destruct (sp_pointerMode p) | unfold audioBackendToString; by destruct (_ =? _)]]|]). constructor.
Qed.

(** The value of a whole store. *)
Definition hosts_ok (m : gmap bytes bytes) : Prop := map_Forall (fun k id => text_ok k /\ text_ok id) m.
Record profiles_ok (s : profiles) : Prop := {
  all_ok : Forall profile_ok (m_profiles s);
  bindings_ok : hosts_ok (m_hostProfile s);
  active_listed : if bool_decide (m_profiles s = []) then m_activeProfileId s = [] else names (m_activeProfileId s) (m_profiles s);
  is_loaded : m_loaded s = true;
}.
Definition store_fields (s : profiles) : list field :=
  [(bs "schema_version", VInteger 14); (bs "profiles", VArray (profileToJson <$> m_profiles s));
   (bs "host_profile", VObject (write_entries VString (m_hostProfile s)))] ++
  if bool_decide (m_activeProfileId s = []) then [] else [(bs "active_profile_id", VString (m_activeProfileId s))].

Lemma active_text s : profiles_ok s -> m_activeProfileId s = [] \/ text_ok (m_activeProfileId s).
Proof.
  intros [Hl _ Ha _]. case_bool_decide; [by left|right]. destruct Ha as (p & Hp & <-). rewrite list.Forall_forall in Hl.
  by apply Hl.
Qed.

Lemma store_value_eq s : profiles_ok s -> store_value s = VObject (store_fields s).
Proof.
  intros Hs. unfold store_value. f_equal.
  assert (foldl (fun l h => json_object_set_new h.1 (json_string h.2) l) [] (in_order (m_hostProfile s)) = write_entries VString (m_hostProfile s)) as ->.
  { unfold write_entries. assert (Forall (fun h : bytes * bytes => text_ok h.2) (in_order (m_hostProfile s))) as Hh.
    { apply list.Forall_forall. intros [k id] Hi%in_order_elem. by apply (bindings_ok s Hs k id). }
    generalize (@nil field). induction Hh as [|h l Ht _ IH]; intros l0; [done|]. cbn [foldl]. by rewrite string_ok, IH. }
  rewrite set_all_eq; [|by case_bool_decide|case_bool_decide; apply (bool_decide_unpack _); vm_compute; exact I].
  unfold store_fields. case_bool_decide as Ha; [done|]. destruct (active_text s Hs) as [?|Ht]; [done|]. by rewrite string_ok.
Qed.

Lemma store_storable s : profiles_ok s -> storable 3 (store_value s).
Proof.
  intros Hs. pose proof (active_text s Hs) as Ha. rewrite store_value_eq by done. destruct Hs as [Hl Hh _ _]. unfold store_fields.
  assert (map_Forall (fun k _ => text_ok k) (m_hostProfile s)) as Hk by (intros k id Hi; by apply (Hh k id)).
  assert (storable 2 (VArray (profileToJson <$> m_profiles s))) as H1.
  { cbn [storable]. induction Hl as [|p l Hp _ IH]; [done|]. split; [by apply profile_storable|done]. }
  assert (storable 2 (VObject (write_entries VString (m_hostProfile s)))) as H2.
  { rewrite write_entries_eq by done. split; [|split].
    - rewrite <- list_fmap_compose. erewrite list_fmap_ext; [apply in_order_keys|done].
    - apply list.Forall_forall. intros f ([k id] & -> & Hi%in_order_elem)%list_elem_of_fmap. by apply (Hh k id).
    - apply all_storable, list.Forall_forall. intros f ([k id] & -> & Hi%in_order_elem)%list_elem_of_fmap.
      apply text_storable. by apply (Hh k id). }
  split; [case_bool_decide; apply (bool_decide_unpack _); vm_compute; exact I|]. split.
  - case_bool_decide; repeat (apply list.Forall_cons; split; [by apply literal_ok|]); constructor.
  - apply all_storable. do 3 (apply list.Forall_cons; split; [done|]). case_bool_decide as Hne; [constructor|].
    apply list.Forall_singleton, text_storable. by destruct Ha.
Qed.

Context (e : env).

Lemma names_found id l : names id l -> exists p, find_profile id l = Some p.
Proof.
  intros (p & Hp & <-). unfold find_profile. destruct (List.find _ l) as [q|] eqn:Ef; [by exists q|].
  apply list_elem_of_In in Hp. pose proof (find_none _ _ Ef p Hp) as Hn. cbn beta in Hn. by rewrite bool_decide_true in Hn.
Qed.

Lemma read_profiles l : Forall profile_ok l -> forall w,
  foldl (read_profile e) w (profileToJson <$> l) = set_store (with_profiles (m_profiles (w_store w) ++ l) (w_store w)) w.
Proof.
  induction 1 as [|p l Hp _ IH]; intros w; cbn [fmap list_fmap foldl].
  - rewrite app_nil_r. by destruct w as [[]].
  - rewrite IH. unfold read_profile. rewrite profile_back, bool_decide_false by first [done | apply (ok_id p Hp)]. cbn.
    by rewrite <- app_assoc.
Qed.

Lemma hosts_back m : hosts_ok m -> read_hosts (write_entries VString m) = m.
Proof.
  intros Hm. pose proof (entries_back VString (fun v => match v with VString s => Some s | _ => None end) false m) as Hb. cbn [back] in Hb.
  apply Hb. intros k id Hi. split; [by apply (Hm k id)|done].
Qed.

Lemma store_read_back s w : profiles_ok s ->
  w_store (read_store e (store_value s) (set_store {| m_profiles := []; m_hostProfile := ∅; m_activeProfileId := []; m_loaded := true |} w)) = s.
Proof.
  intros Hs. rewrite store_value_eq by done. destruct Hs as [Hl Hh Ha Hld]. unfold read_store.
  change (get_array "profiles" _) with (Some (profileToJson <$> m_profiles s)).
  change (get_object "host_profile" _) with (Some (write_entries VString (m_hostProfile s))). cbn [value_or].
  rewrite read_profiles, hosts_back by done. cbn [w_store set_store with_profiles m_profiles app].
  assert (value_or (get_string "active_profile_id" (VObject (store_fields s))) [] = m_activeProfileId s) as ->.
  { unfold store_fields. destruct (decide (m_activeProfileId s = [])) as [E|E]; [by rewrite E|by rewrite (bool_decide_false (m_activeProfileId s = []))]. }
  destruct s as [l m a ld]. cbn in Ha, Hl, Hh, Hld. subst ld.
  cbn [w_store set_store with_active m_profiles m_activeProfileId].
  unfold lookup_profile. cbn [m_profiles]. destruct (decide (l = [])) as [->|Hp]; [|rewrite bool_decide_false in Ha by done].
  - cbn in Ha. by subst.
  - destruct (names_found a l Ha) as [p Hf]. change (m_profiles (with_active _ _)) with l. rewrite bool_decide_false, Hf; [done|]. destruct Ha as (q & Hq & <-).
    rewrite list.Forall_forall in Hl. by apply Hl.
Qed.

Lemma save_reload w : profiles_ok (w_store w) -> (save e w).1 = true -> w_store (reload e (save e w).2) = w_store w.
Proof.
  intros Hs. unfold save. destruct (json_dump_file _ _ _) as [files worked] eqn:Ed. cbn [fst snd]. intros ->.
  apply json_dump_file_states in Ed as [Hlast _]. unfold reload. cbn [w_file set_store]. rewrite Hlast. cbn [from_option id].
  assert (loaded_object (Some (json_dumps false (store_value (w_store w)))) = Some (store_value (w_store w))) as ->.
  { unfold loaded_object. cbn [mbind option_bind]. rewrite (loads_dumps 3); [|unfold JSON_PARSER_MAX_DEPTH; lia|by apply store_storable].
    by rewrite store_value_eq. }
  by apply store_read_back.
Qed.
End back.

(** A save that works keeps everything: the profiles, what hosts are bound to and
    the active profile are read back as they were at the next start. *)
Theorem profiles_saved (lib : Jansson) (laws : JanssonLaws) (e : env) (w : world) : profiles_ok (w_store w) ->
  (save e w).1 = true -> w_store (reload e (save e w).2) = w_store w.
Proof. apply save_reload. Qed.

Definition ex_env : env := {| clock := fun n => Z.of_nat n; rng := fun n => 7; dump := fun _ => {| succeeds := fun _ => true; written := 0 |} |}.
Definition ex_profile (id : string) : StreamConfigProfile := preset_profile (bs id) (spec "720p 60 10M" 720 60 10000).
Definition ex_profiles : profiles :=
  {| m_profiles := [ex_profile "p-1"; with_name (bs "Travel") (ex_profile "p-2")]; m_hostProfile := {[bs "pc" := bs "p-2"]};
     m_activeProfileId := bs "p-1"; m_loaded := true |}.
Definition world_with (s : profiles) : world :=
  {| w_store := s; w_file := None; w_legacy := None; w_trace := []; w_made := 0; w_saves := 0 |}.

Lemma toy_text t : forallb (fun b => negb (bool_decide (b = Init.Byte.x00))) t = true -> @text_ok toy_jansson t.
Proof. intros Ht. split; [done|]. intros Hin%list_elem_of_In. rewrite forallb_forall in Ht. specialize (Ht _ Hin). done. Qed.
Lemma ex_profile_ok id name : (0 < String.length id)%nat -> (0 < String.length name)%nat ->
  forallb (fun b => negb (bool_decide (b = Init.Byte.x00))) (bs id) = true ->
  forallb (fun b => negb (bool_decide (b = Init.Byte.x00))) (bs name) = true -> @profile_ok toy_jansson (with_name (bs name) (ex_profile id)).
Proof.
  intros Hid Hname Hi Hn. destruct id as [|a id]; [cbn in Hid; lia|]. destruct name as [|b name]; [cbn in Hname; lia|]. split.
  - done.
  - split_and!; [by apply toy_text|by apply toy_text|by apply toy_text].
  - done.
  - done.
  - done.
  - by right.
  - repeat constructor; done.
  - repeat (apply list.Forall_cons; split; [split; [split|]; vm_compute; reflexivity|]). constructor.
Qed.

Lemma profiles_saved_witness : @profiles_ok toy_jansson ex_profiles /\
  w_store (@reload toy_jansson ex_env (@save toy_jansson ex_env (world_with ex_profiles)).2) = ex_profiles.
Proof.
  assert (@profiles_ok toy_jansson ex_profiles) as Hok.
  { split.
    - repeat (apply list.Forall_cons; split); [|by apply ex_profile_ok; first [cbn; lia | vm_compute; reflexivity]|constructor].
      change (ex_profile "p-1") with (with_name (bs "720p 60 10M") (ex_profile "p-1")). by apply ex_profile_ok; first [cbn; lia | vm_compute; reflexivity].
    - intros k id Hk. change (({[bs "pc" := bs "p-2"]} : gmap bytes bytes) !! k = Some id) in Hk.
      apply lookup_singleton_Some in Hk as [<- <-]. split; by apply toy_text.
    - exists (ex_profile "p-1"). split; [left|done].
    - done. }
  split; [exact Hok|]. apply (profiles_saved toy_jansson toy_jansson_laws ex_env (world_with ex_profiles) Hok). reflexivity.
Defined.

(** ** Removing and importing *)

Section effects.
Context `{lib : Jansson} (e : env).

(** Removing an identifier that is listed takes away every profile that has it
    and every host's binding to it, keeps the rest in order, and moves the active
    profile to the first one left if it was removed; any other changes nothing. *)
Theorem remove_spec (id : bytes) (w : world) :
  let s := w_store (ensureLoaded e w) in
  let '(removed, w') := remove e id w in
  (removed = true <-> names id (m_profiles s)) /\
  m_profiles (w_store w') = List.filter (fun p => negb (bool_decide (sp_id p = id))) (m_profiles s) /\
  ~ names id (m_profiles (w_store w')) /\
  (removed = false -> w' = ensureLoaded e w) /\
  (removed = true -> forall key, m_hostProfile (w_store w') !! key =
     match m_hostProfile s !! key with Some other => if bool_decide (other = id) then None else Some other | None => None end) /\
  (removed = true -> m_activeProfileId (w_store w') =
     if bool_decide (m_activeProfileId s = id) then first_id (m_profiles (w_store w')) else m_activeProfileId s).
Proof.
  cbv zeta. unfold remove. set (w1 := ensureLoaded e w). set (s := w_store w1). set (f := fun p => negb (bool_decide (sp_id p = id))).
  assert (forall l, length (List.filter f l) = length l <-> ~ names id l) as Hlen.
  { induction l as [|p l IH]; [split; [intros _ (q & Hq & _); by apply elem_of_nil in Hq|done]|].
    pose proof (filter_length_le f l) as Hle. cbn [List.filter length]. unfold f at 1. case_bool_decide as Hp; cbn [negb length].
    - split; [intros Hl; lia|]. intros Hn. exfalso. apply Hn. exists p. split; [left|done].
    - rewrite Nat.succ_inj_wd, IH. split; intros Hn (q & Hq & Hi); apply Hn.
      + apply elem_of_cons in Hq as [->|Hq]; [done|by exists q].
      + exists q. split; [by right|done]. }
  assert (~ names id (List.filter f (m_profiles s))) as Hgone.
  { intros (p & Hp%list_elem_of_In & Hi). apply filter_In in Hp as [_ Hp]. unfold f in Hp. by rewrite Hi, bool_decide_true in Hp. }
  destruct (Nat.eqb_spec (length (List.filter f (m_profiles s))) (length (m_profiles s))) as [El|El].
  - assert (List.filter f (m_profiles s) = m_profiles s) as Eq.
    { revert El. clear -f. induction (m_profiles s) as [|p l IH]; [done|]. cbn [List.filter]. destruct (f p); cbn [length].
      - intros El. f_equal. apply IH. lia.
      - pose proof (filter_length_le f l). lia. }
    split; [split; [done|intros Hn; by apply Hlen in El]|]. split; [done|]. split; [by rewrite Eq in Hgone|]. by split_and!.
  - rewrite saved_store. cbn [w_store set_store].
    assert (names id (m_profiles s)) as Hn.
    { destruct (decide (Exists (fun p => sp_id p = id) (m_profiles s))) as [(p & Hp & Hi)%list_relations.list.Exists_exists|Hn]; [by exists p|].
      assert (~ names id (m_profiles s)) as Hno%Hlen; [|congruence]. intros (p & Hp & Hi). apply Hn, list_relations.list.Exists_exists. by exists p. }
    split; [done|]. split_and!.
    + cbn [m_activeProfileId with_hosts with_profiles]. by destruct (bool_decide _).
    + cbn [m_activeProfileId with_hosts with_profiles]. by destruct (bool_decide _).
    + done.
    + intros _ key. cbn [m_activeProfileId with_hosts with_profiles].
      transitivity (filter (fun h : bytes * bytes => h.2 <> id) (m_hostProfile s) !! key); [by destruct (bool_decide _)|].
      rewrite map_lookup_filter. destruct (m_hostProfile s !! key) as [other|]; [|done]. cbn. case_guard; by case_bool_decide.
    + intros _. cbn [m_activeProfileId with_hosts with_profiles]. by destruct (bool_decide _).
Qed.

Lemma import_profile_app b w v : exists new, m_profiles (w_store (import_profile e b w v)) = m_profiles (w_store w) ++ new /\
  (length new <= 1)%nat /\ (b = true -> length new = 1%nat) /\
  (b = false -> Forall (fun p => ~ names (sp_id p) (m_profiles (w_store w))) new).
Proof.
  unfold import_profile, makeId.
  assert (exists p w1, (if bool_decide (sp_id (profileFromJson v) = []) then let '(id, w) := (id_text (clock e (w_made w)) (rng e (w_made w)), set_made (S (w_made w)) w) in
    (with_id id (profileFromJson v), w) else (profileFromJson v, w)) = (p, w1) /\ sp_id p <> [] /\ w_store w1 = w_store w) as (p & w1 & -> & Hp & Hw1).
  { case_bool_decide as Hid; eexists _, _; (split; [reflexivity|]); by split. }
  rewrite Hw1. destruct (lookup_profile (sp_id p) (w_store w)) as [q|] eqn:Eq.
  - destruct b; cbn [negb]; [|exists []; rewrite app_nil_r, Hw1; split_and!; [done|cbn; lia|done|constructor]].
    eexists. cbn [w_store set_store set_made m_profiles with_profiles]. rewrite Hw1. split_and!; [reflexivity|cbn; lia|done|done].
  - exists [p]. split_and!; [done|cbn; lia|done|]. intros _. apply list.Forall_singleton. intros [r Hr]%names_found.
    unfold lookup_profile in Eq. rewrite bool_decide_false in Eq by done. congruence.
Qed.

Lemma import_profiles_app b items : forall w, exists new, m_profiles (w_store (foldl (import_profile e b) w items)) = m_profiles (w_store w) ++ new /\
  (b = true -> length new = length items) /\
  (b = false -> NoDup (sp_id <$> new) /\ Forall (fun p => ~ names (sp_id p) (m_profiles (w_store w))) new).
Proof.
  induction items as [|v items IH]; intros w; cbn [foldl].
  - exists []. rewrite app_nil_r. split_and!; [done|done|]. intros _. split; constructor.
  - destruct (import_profile_app b w v) as (n1 & E1 & Hl & Hb & Hf). destruct (IH (import_profile e b w v)) as (n2 & E2 & Hb2 & Hf2).
    exists (n1 ++ n2). rewrite E2, E1, app_assoc. split; [done|]. split; [intros ->; rewrite length_app, Hb, Hb2 by done; done|].
    intros ->. specialize (Hf eq_refl). destruct (Hf2 eq_refl) as [Hn2 Hf2']. rewrite E1 in Hf2'. split.
    + rewrite fmap_app. apply list.NoDup_app. split_and!; [destruct n1 as [|? [|? ?]]; [constructor|apply list.NoDup_singleton|cbn in Hl; lia]| |done].
      intros x (p & -> & Hp)%list_elem_of_fmap (q & Hq & Hin)%list_elem_of_fmap. rewrite list.Forall_forall in Hf2'. apply (Hf2' q Hin).
      exists p. split; [set_solver|congruence].
    + apply list.Forall_app. split; [done|]. eapply list.Forall_impl; [exact Hf2'|]. intros p Hp (q & Hq & Hi). apply Hp. exists q. split; [set_solver|done].
Qed.
Lemma import_hosts_profiles l : forall s, m_profiles (foldl import_host s l) = m_profiles s.
Proof.
  induction l as [|h l IH]; intros s; [done|]. cbn [foldl]. rewrite IH. unfold import_host. destruct h.2; try done. by destruct (lookup_profile _ _).
Qed.
Lemma import_active_profiles root s : m_profiles (import_active root s) = m_profiles s.
Proof. unfold import_active. destruct (get_string _ _) as [id|]; [|done]. by destruct (lookup_profile id s). Qed.

(** An import changes no profile that is there: those of the file come behind
    them, all of them when conflicts are renamed, and otherwise those whose
    identifiers are new, each once. A file that is no object with a list of
    profiles changes nothing. *)
Theorem import_keeps (text : option bytes) (renameOnConflict : bool) (w : world) :
  let s := w_store (ensureLoaded e w) in
  let '(imported, w') := importJson e text renameOnConflict w in
  exists new, m_profiles (w_store w') = m_profiles s ++ new /\
    imported = bool_decide (is_Some (loaded_object text ≫= get_array "profiles")) /\
    (imported = false -> w' = ensureLoaded e w) /\
    (imported = true -> if renameOnConflict then Some (length new) = length <$> (loaded_object text ≫= get_array "profiles")
     else NoDup (sp_id <$> new) /\ Forall (fun p => ~ names (sp_id p) (m_profiles s)) new).
Proof.
  cbv zeta. unfold importJson. destruct (loaded_object text) as [root|]; [|exists []; by rewrite app_nil_r]. cbn [mbind option_bind].
  destruct (get_array "profiles" root) as [items|]; [|exists []; by rewrite app_nil_r].
  destruct (import_profiles_app renameOnConflict items (ensureLoaded e w)) as (new & En & Ht & Hf). exists new.
  rewrite saved_store. cbn [w_store set_store]. rewrite import_active_profiles, import_hosts_profiles. split_and!; [done|done|done|].
  intros _. destruct renameOnConflict; cbn; [by rewrite Ht|by apply Hf].
Qed.
End effects.

(** ** Findings *)

(** The bindings of an imported file are looked up by the identifiers in the file:
    when a profile was given another one because its own was taken, its hosts are
    bound to the profile that was there. *)
Definition ex_items : list value := [VObject [(bs "id", VString (bs "p-1")); (bs "name", VString (bs "Office"))]].
Definition ex_hosts : list field := [(bs "office-pc", VString (bs "p-1"))].
Lemma import_binds_to_the_old :
  let s := foldl import_host (w_store (foldl (import_profile ex_env true) (world_with ex_profiles) ex_items)) ex_hosts in
  (m_hostProfile s !! bs "office-pc", sp_name <$> lookup_profile (bs "p-1") s, list.last (sp_name <$> m_profiles s)) =
  (Some (bs "p-1"), Some (bs "720p 60 10M"), Some (bs "Office (import)")).
Proof. vm_compute. reflexivity. Qed.

(** An item of the list of profiles that is no object becomes a profile without a name. *)
Lemma unnamed_profile : sp_name (profileFromJson VNull) = [] /\ sp_name (profileFromJson (VObject [])) = bs "Profile".
Proof. by split; vm_compute. Qed.

(** The file is written in place: a save that stops early leaves a file that is no
    object, and the next start replaces the profiles by the built-in ones. *)
Lemma cut_save_loses_profiles `{lib : Jansson} (e : env) (w : world) : json_loads [] = None ->
  w_file w = Some [] -> w_legacy w = None ->
  sp_name <$> m_profiles (w_store (reload e w)) = (fun s => bs (spec_name s)) <$> kDefaultStreamProfiles.
Proof.
  intros Hnone Hf Hl. unfold reload, loaded_object. cbn [set_store w_file w_legacy]. rewrite Hf, Hl. cbn [mbind option_bind]. rewrite Hnone.
  rewrite saved_store. unfold seedDefaultsIfEmpty. cbn [set_store w_store m_profiles]. rewrite bool_decide_true by done.
  unfold add_missing. cbv zeta. cbn [snd]. case_match; [rewrite saved_store|]; vm_compute; reflexivity.
Qed.
