(* ===== verification/ControlKey.v ===== *)
(** The control server's public key ([TailscaleControlKey.cpp]): one HTTPS request
    over a verified connection, the three framings of an HTTP/1 body, and the key
    in its JSON. The connection is an [ITransport]; what opens it is an argument. *)

From S2P Require Import Prelude Bytes Text HttpUpgrade Transport Json ControlCodec.

Definition kMaxHeaderSize : Z := 16 * 1024.
Definition kMaxBodySize : Z := 64 * 1024.
Definition kMaxWireSize : Z := kMaxHeaderSize + kMaxBodySize + 16 * 1024.

(** [std::from_chars] into a [std::uint64_t], in base ten or sixteen. *)
Definition digit_of (base : Z) (b : byte) : option Z :=
  let v := if (48 <=? ub b) && (ub b <=? 57) then Some (ub b - 48)
           else if (97 <=? ub b) && (ub b <=? 122) then Some (ub b - 87)
           else if (65 <=? ub b) && (ub b <=? 90) then Some (ub b - 55)
           else None in
  match v with Some d => if d <? base then Some d else None | None => None end.
Definition is_digit_of (base : Z) (b : byte) : bool := match digit_of base b with Some _ => true | None => false end.
Definition value_of (base : Z) (l : bytes) : Z := foldl (fun acc b => acc * base + default 0 (digit_of base b)) 0 l.
Definition from_chars_u64 (base : Z) (l : bytes) (init : Z) : from_chars_result :=
  let ds := take_while (is_digit_of base) l in
  match ds with
  | [] => FromChars init 0 ErrInvalid
  | _ => if value_of base ds <? 2 ^ 64 then FromChars (value_of base ds) (length ds) ErrNone
         else FromChars init (length ds) ErrRange
  end.
Definition whole (l : bytes) (r : from_chars_result) : bool := bool_decide (fc_ec r = ErrNone) && (fc_ptr r =? length l)%nat.

(** [trim] of this file: spaces and tabs. *)
Definition trim_blanks (value : bytes) : bytes := reverse (drop_while is_space (reverse (drop_while is_space value))).

Definition parseHexSize (text : bytes) : option Z :=
  let text := trim_blanks (match find (ch ";") text with Some extension => substr 0 extension text | None => text end) in
  if bool_decide (text = []) then None
  else
    let result := from_chars_u64 16 text 0 in
    if negb (whole text result) || (kMaxBodySize <? fc_value result) then None else Some (fc_value result).

(** The loop; [None] when the fuel ends. *)
Fixpoint chunks_loop (fuel : nat) (wire body : bytes) : option (result bytes) :=
  match fuel with
  | O => None
  | S k =>
      match find_sub crlf wire with
      | None => Some (Err "truncated control-key chunk header")
      | Some lineEnd =>
          match parseHexSize (substr 0 lineEnd wire) with
          | None => Some (Err "invalid control-key chunk size")
          | Some chunkSize =>
              let wire := drop (lineEnd + 2) wire in
              if chunkSize =? 0 then
                if bool_decide (wire = crlf) then Some (Ok body)
                else
                  match find_sub (crlf ++ crlf) wire with
                  | None => Some (Err "invalid control-key chunk trailer")
                  | Some trailerEnd =>
                      if (kMaxHeaderSize <? Z.of_nat trailerEnd) || negb (trailerEnd + 4 =? length wire)%nat
                      then Some (Err "invalid control-key chunk trailer") else Some (Ok body)
                  end
              else if (zlen wire <? chunkSize + 2) || negb (bool_decide (substr (Z.to_nat chunkSize) 2 wire = crlf))
                      || (kMaxBodySize - chunkSize <? zlen body)
              then Some (Err "truncated or oversized control-key chunk")
              else chunks_loop k (drop (Z.to_nat chunkSize + 2) wire) (body ++ substr 0 (Z.to_nat chunkSize) wire)
          end
      end
  end.
Definition decodeChunked (wire : bytes) : option (result bytes) := chunks_loop (S (length wire)) wire [].

(** The loop over the header lines from [cursor]. *)
Fixpoint headers_loop (fuel : nat) (response : bytes) (headerEnd cursor : nat) (headers : gmap bytes bytes)
  : option (result (gmap bytes bytes)) :=
  match fuel with
  | O => None
  | S k =>
      if (cursor <? headerEnd)%nat then
        match find_sub_from crlf cursor response with
        | None => Some (Err "malformed control-key HTTP header")
        | Some lineEnd =>
            if (headerEnd <? lineEnd)%nat then Some (Err "malformed control-key HTTP header")
            else
              let line := substr cursor (lineEnd - cursor) response in
              match find (ch ":") line with
              | None => Some (Err "malformed control-key HTTP field")
              | Some colon =>
                  let name := lower (trim_blanks (substr 0 colon line)) in
                  let value := trim_blanks (substr_from (colon + 1) line) in
                  if bool_decide (name = []) || bool_decide (is_Some (headers !! name))
                  then Some (Err "duplicate control-key HTTP field")
                  else headers_loop k response headerEnd (lineEnd + 2) (<[name := value]> headers)
              end
        end
      else Some (Ok headers)
  end.

Definition status_ok (status : bytes) : bool :=
  match find (ch " ") status with
  | None => false
  | Some firstSpace =>
      starts_with (bs "HTTP/1.") status && bool_decide (substr (firstSpace + 1) 3 status = bs "200")
      && (firstSpace + 4 <? length status)%nat && bool_decide (status !!! (firstSpace + 4)%nat = ch " ")
  end.

(** The end of [decodeHttpBody]: the body by the framing the headers announce. *)
Definition framed_body (headers : gmap bytes bytes) (body : bytes) : option (result bytes) :=
  match headers !! bs "transfer-encoding", headers !! bs "content-length" with
  | Some _, Some _ => Some (Err "ambiguous control-key HTTP framing")
  | Some transfer, None =>
      if negb (bool_decide (lower (trim_blanks transfer) = bs "chunked"))
      then Some (Err "unsupported control-key transfer encoding") else decodeChunked body
  | None, Some length_ =>
      let text := trim_blanks length_ in
      let result := from_chars_u64 10 text 0 in
      if negb (whole text result) || (kMaxBodySize <? fc_value result) || negb (zlen body =? fc_value result)
      then Some (Err "invalid control-key content length") else Some (Ok body)
  | None, None => if kMaxBodySize <? zlen body then Some (Err "oversized control-key response body") else Some (Ok body)
  end.

Definition decodeHttpBody (response : bytes) : option (result bytes) :=
  match find_sub (crlf ++ crlf) response with
  | None => Some (Err "invalid or oversized control-key HTTP header")
  | Some headerEnd =>
      if kMaxHeaderSize <? Z.of_nat headerEnd then Some (Err "invalid or oversized control-key HTTP header")
      else
        match find_sub crlf response with
        | None => Some (Err "invalid control-key HTTP status")
        | Some firstLineEnd =>
            if negb (status_ok (substr 0 firstLineEnd response))
            then Some (Err "control-key endpoint returned a non-200 status")
            else
              match headers_loop (S (length response)) response headerEnd (firstLineEnd + 2) ∅ with
              | None => None
              | Some (Err e) => Some (Err e)
              | Some (Ok headers) => framed_body headers (drop (headerEnd + 4) response)
              end
        end
  end.

Section key.
Context {J : Type} `{Json J}.

Definition parseControlPublicKeyResponse (json : bytes) : result bytes :=
  if bool_decide (json = []) || (kMaxBodySize <? zlen json) then Err "invalid control-key response size"
  else
    match json_parse json with
    | None => Err "invalid control-key JSON"
    | Some root =>
        if negb (is_object root) then Err "invalid control-key JSON"
        else
          match json_find root (bs "publicKey") ≫= as_string with
          | None => Err "control-key response has no TS2021 public key"
          | Some text =>
              match decodeTypedKey text (bs "mkey:") with
              | None => Err "control-key response contains an invalid key"
              | Some key => if all_zero key then Err "control-key response contains an invalid key" else Ok key
              end
          end
    end.

Definition key_request (host : bytes) (capabilityVersion : Z) : bytes :=
  bs "GET /key?v=" ++ to_string capabilityVersion ++ bs " HTTP/1.1" ++ crlf ++ bs "Host: " ++ host ++ crlf ++
  bs "Accept: application/json" ++ crlf ++ bs "Connection: close" ++ crlf ++ crlf.

Context {W : Type} `{ITransport W}.

(** The loop that reads until the server closes; [error] is what the caller's
    string holds. *)
Fixpoint read_response (fuel : nat) (response : bytes) (w : W) (error : string) : option (result bytes) * W :=
  match fuel with
  | O => (None, w)
  | S k =>
      match tr_read 2048 w with
      | (ReadError msg, w) => (Some (Err (default error msg)), tr_close w)
      | (Closed, w) => (Some (Ok response), tr_close w)
      | (Received data, w) =>
          if kMaxWireSize - zlen data <? zlen response
          then (Some (Err "oversized control-key HTTP response"), tr_close w)
          else read_response k (response ++ data) w error
      end
  end.

Definition fetchControlPublicKey (fuel : nat) (connect : bytes -> Z -> W -> result unit * W) (host : bytes) (port : Z)
    (capabilityVersion : Z) (w : W) (error : string) : option (result bytes) * W :=
  if bool_decide (host = []) || bool_decide (is_Some (find_first_of [CR; LF] host)) || (port =? 0) || (capabilityVersion <=? 0)
  then (Some (Err "invalid control-key request parameters"), w)
  else
    match connect host port w with
    | (Err e, w) => (Some (Err e), w)
    | (Ok _, w) =>
        match tr_write (key_request host capabilityVersion) w with
        | (WriteFailed msg, w) => (Some (Err (default error msg)), tr_close w)
        | (Written, w) =>
            match read_response fuel [] w error with
            | (None, w) => (None, w)
            | (Some (Err e), w) => (Some (Err e), w)
            | (Some (Ok response), w) =>
                (match decodeHttpBody response with
                 | None => None
                 | Some (Err e) => Some (Err e)
                 | Some (Ok body) => Some (parseControlPublicKeyResponse body)
                 end, w)
            end
        end
    end.
End key.

(** ** Specification: a response as a server writes it *)

Definition header_text (lines : list bytes) : bytes := concat ((fun l => l ++ crlf) <$> lines).
Definition http_text (status : bytes) (lines : list bytes) (body : bytes) : bytes :=
  status ++ crlf ++ header_text lines ++ crlf ++ body.
Definition header_line (l : bytes) : Prop := l <> [] /\ (CR ∉ l).

(** The fields of the lines, as the map the code keeps. *)
Fixpoint collect (lines : list bytes) (headers : gmap bytes bytes) : result (gmap bytes bytes) :=
  match lines with
  | [] => Ok headers
  | line :: rest =>
      match find (ch ":") line with
      | None => Err "malformed control-key HTTP field"
      | Some colon =>
          let name := lower (trim_blanks (substr 0 colon line)) in
          if bool_decide (name = []) || bool_decide (is_Some (headers !! name))
          then Err "duplicate control-key HTTP field"
          else collect rest (<[name := trim_blanks (substr_from (colon + 1) line)]> headers)
      end
  end.

(** A chunk with its size line, and a chunked body with its last chunk. *)
Definition chunk_text (c : bytes * bytes) : bytes := c.1 ++ crlf ++ c.2 ++ crlf.
Definition chunk_ok (c : bytes * bytes) : Prop := (CR ∉ c.1) /\ c.2 <> [] /\ parseHexSize c.1 = Some (zlen c.2).
Definition chunked (chunks : list (bytes * bytes)) (last : bytes) (trailer : list bytes) : bytes :=
  concat (chunk_text <$> chunks) ++ last ++ crlf ++ header_text trailer ++ crlf.

Lemma find_crlf a r : CR ∉ a -> find_sub crlf (a ++ crlf ++ r) = Some (length a).
Proof. intros Ha. unfold crlf at 1. rewrite find_sub_skip by done. fold crlf. rewrite find_sub_here. cbn. f_equal. lia. Qed.

Lemma find_sub_step needle x r : find_sub needle (x :: r) = if starts_with needle (x :: r) then Some O else S <$> find_sub needle r.
Proof. done. Qed.
Lemma find_blank_skip x r : x <> CR ->
  find_sub (crlf ++ crlf) (crlf ++ x :: r) = (fun k => (2 + k)%nat) <$> find_sub (crlf ++ crlf) (x :: r).
Proof.
  intros Hx. change (crlf ++ x :: r) with (CR :: LF :: x :: r). rewrite (find_sub_step _ CR).
  assert (starts_with (crlf ++ crlf) (CR :: LF :: x :: r) = false) as ->
    by (unfold starts_with; apply bool_decide_eq_false; cbn; intros [= -> _]; done).
  rewrite (find_sub_step _ LF).
  assert (starts_with (crlf ++ crlf) (LF :: x :: r) = false) as -> by (unfold starts_with; apply bool_decide_eq_false; cbn; done).
  by destruct (find_sub _ (x :: r)).
Qed.

Lemma find_blank lines : Forall header_line lines -> forall a r, CR ∉ a ->
  find_sub (crlf ++ crlf) (a ++ crlf ++ header_text lines ++ crlf ++ r) = Some (length (a ++ crlf ++ header_text lines) - 2)%nat.
Proof.
  unfold header_text. induction 1 as [|l lines [Hl Hc] _ IH]; intros a r Ha.
  - change (crlf ++ crlf) with (CR :: (LF :: crlf)) at 1. rewrite find_sub_skip by done. cbn [fmap list_fmap concat app].
    change (CR :: LF :: crlf) with (crlf ++ crlf). rewrite (app_assoc crlf crlf r), find_sub_here. cbn. rewrite length_app. cbn. f_equal. lia.
  - change (crlf ++ crlf) with (CR :: (LF :: crlf)) at 1. rewrite find_sub_skip by done. change (CR :: LF :: crlf) with (crlf ++ crlf).
    cbn [fmap list_fmap concat]. rewrite <- !app_assoc. destruct l as [|x l]; [done|]. pose proof Hc as [Hx _]%not_elem_of_cons.
    change ((x :: l) ++ crlf ++ concat ((fun l => l ++ crlf) <$> lines) ++ crlf ++ r) with
      (x :: (l ++ crlf ++ concat ((fun l => l ++ crlf) <$> lines) ++ crlf ++ r)).
    rewrite find_blank_skip by congruence. specialize (IH (x :: l) r Hc). cbn [app] in IH. rewrite IH.
    cbn [fmap option_fmap option_map]. f_equal. rewrite ?length_app. cbn [length]. rewrite ?length_app. cbn [length]. change (length crlf) with 2%nat. lia.
Qed.

Lemma headers_loop_text lines : Forall header_line lines -> forall fuel pre r headers, (length lines < fuel)%nat ->
  headers_loop fuel (pre ++ header_text lines ++ crlf ++ r) (length (pre ++ header_text lines) - 2) (length pre) headers
  = Some (collect lines headers).
Proof.
  unfold header_text. induction 1 as [|l lines [Hl Hc] _ IH]; intros [|fuel] pre r headers Hf; cbn [length] in Hf; try lia; cbn [headers_loop collect].
  - cbn [fmap list_fmap concat]. rewrite app_nil_r. destruct (Nat.ltb_spec (length pre) (length pre - 2)); [lia|done].
  - cbn [fmap list_fmap concat]. rewrite !length_app. change (length crlf) with 2%nat.
    destruct (Nat.ltb_spec (length pre) (length pre + (length l + 2 + length (concat ((fun l => l ++ crlf) <$> lines))) - 2)) as [_|Hlt];
      [|destruct l; [done|cbn in Hlt; lia]].
    unfold find_sub_from. rewrite drop_app_length, <- !app_assoc, find_crlf by done. cbn [fmap option_fmap option_map].
    destruct (Nat.ltb_spec (length pre + (length l + 2 + length (concat ((fun l => l ++ crlf) <$> lines))) - 2) (length pre + length l)); [lia|].
    assert (substr (length pre) (length pre + length l - length pre)
      (pre ++ l ++ crlf ++ concat ((fun l => l ++ crlf) <$> lines) ++ crlf ++ r) = l) as ->.
    { unfold substr. rewrite drop_app_length, Nat.add_comm, Nat.add_sub, take_app_length. done. }
    destruct (find (ch ":") l) as [colon|]; [|done]. destruct (_ || _); [done|].
    specialize (IH fuel (pre ++ l ++ crlf) r (<[lower (trim_blanks (substr 0 colon l)) := trim_blanks (substr_from (colon + 1) l)]> headers) ltac:(lia)).
    rewrite !length_app in IH. change (length crlf) with 2%nat in IH. rewrite <- !app_assoc in IH. rewrite <- IH. f_equal; lia.
Qed.

Lemma decodeHttpBody_text status lines body : CR ∉ status -> Forall header_line lines ->
  zlen (status ++ crlf ++ header_text lines) <= kMaxHeaderSize + 2 ->
  decodeHttpBody (http_text status lines body) =
    if status_ok status then
      match collect lines ∅ with Err e => Some (Err e) | Ok headers => framed_body headers body end
    else Some (Err "control-key endpoint returned a non-200 status").
Proof.
  intros Hs Hl Hz. unfold decodeHttpBody, http_text. rewrite find_blank, find_crlf by done.
  set (h := header_text lines) in *. unfold zlen in Hz.
  destruct (Z.ltb_spec kMaxHeaderSize (Z.of_nat (length (status ++ crlf ++ h) - 2))); [rewrite !length_app in *; cbn in *; lia|].
  unfold substr at 1. rewrite drop_0, take_app_length. destruct (status_ok status); [|done]. cbn [negb].
  replace (status ++ crlf ++ h ++ crlf ++ body) with ((status ++ crlf) ++ h ++ crlf ++ body) by by rewrite <- app_assoc.
  replace (status ++ crlf ++ h) with ((status ++ crlf) ++ h) by by rewrite <- app_assoc.
  replace (length status + 2)%nat with (length (status ++ crlf)) by (rewrite length_app; done).
  rewrite (headers_loop_text lines Hl).
  - destruct (collect lines ∅); [|done]. f_equal.
    replace (length ((status ++ crlf) ++ h) - 2 + 4)%nat with (length ((status ++ crlf) ++ h ++ crlf)) by (rewrite !length_app; change (length crlf) with 2%nat; lia).
    replace ((status ++ crlf) ++ h ++ crlf ++ body) with (((status ++ crlf) ++ h ++ crlf) ++ body) by by rewrite <- !app_assoc.
    by rewrite drop_app_length.
  - subst h. unfold header_text. rewrite !length_app. enough (length lines <= length (concat ((fun l => l ++ crlf) <$> lines)))%nat by lia.
    clear. induction lines as [|l lines IH]; [done|]. cbn [fmap list_fmap concat length]. rewrite !length_app. cbn. lia.
Qed.

Lemma chunks_loop_text chunks : Forall chunk_ok chunks -> forall last trailer fuel body,
  CR ∉ last -> parseHexSize last = Some 0 -> Forall header_line trailer -> zlen (header_text trailer) <= kMaxHeaderSize ->
  (length chunks < fuel)%nat -> zlen (body ++ concat chunks.*2) <= kMaxBodySize ->
  chunks_loop fuel (chunked chunks last trailer) body = Some (Ok (body ++ concat chunks.*2)).
Proof.
  unfold chunked. induction 1 as [|[size data] chunks (Hc & Hd & Hp) _ IH]; intros last trailer [|fuel] body Hl H0 Ht Hz Hf Hb;
    cbn [length] in Hf; try lia; cbn [chunks_loop fmap list_fmap concat app fst snd].
  - rewrite find_crlf by done. unfold substr at 1. rewrite drop_0, take_app_length, H0. cbn [Z.eqb]. rewrite app_nil_r.
    replace (length last + 2)%nat with (length (last ++ crlf)) by (rewrite length_app; done). rewrite (app_assoc last), drop_app_length.
    destruct Ht as [|l trailer [Hl1 Hl2] Ht]; [cbn [header_text fmap list_fmap concat app]; by rewrite bool_decide_true|].
    rewrite bool_decide_false; [|unfold header_text; cbn [fmap list_fmap concat]; rewrite <- !app_assoc; destruct l as [|x l]; [done|]; 
      apply not_elem_of_cons in Hl2 as [Hx _]; cbn [app]; intros [= ? _]; congruence].
    pose proof (find_blank trailer Ht l [] Hl2) as Hfb. rewrite app_nil_r in Hfb. unfold header_text in Hfb, Hz |- *. cbn [fmap list_fmap concat] in Hz |- *.
    rewrite <- !app_assoc in Hz. rewrite <- !app_assoc. rewrite Hfb. unfold zlen in Hz. rewrite !length_app in Hz |- *. change (length crlf) with 2%nat in *.
    match goal with |- context [?a <? ?b] => destruct (Z.ltb_spec a b); [lia|] end.
    match goal with |- context [(?a =? ?b)%nat] => destruct (Nat.eqb_spec a b); [done|rewrite ?length_app in *; change (length crlf) with 2%nat in *; lia] end.
  - cbn [fst snd] in Hc, Hd, Hp. change (chunk_text (size, data)) with (size ++ crlf ++ data ++ crlf). rewrite <- !app_assoc. rewrite find_crlf by done. unfold substr at 1. rewrite drop_0. rewrite take_app_length, Hp.
    destruct (Z.eqb_spec (zlen data) 0) as [E|_]; [by apply zlen_0 in E|].
    replace (length size + 2)%nat with (length (size ++ crlf)) by (rewrite length_app; done). rewrite (app_assoc size), drop_app_length.
    rewrite to_nat_zlen. cbn [fmap list_fmap concat fst snd] in Hb. rewrite (app_assoc body) in Hb. rewrite (zlen_app (body ++ data)), zlen_app in Hb.
    pose proof (zlen_nonneg (concat chunks.*2)). 
    set (rest := concat (chunk_text <$> chunks) ++ last ++ crlf ++ header_text trailer ++ crlf) in *.
    destruct (Z.ltb_spec (zlen (data ++ crlf ++ rest)) (zlen data + 2)) as [Hlt|_];
      [rewrite !zlen_app in Hlt; pose proof (zlen_nonneg rest); change (zlen crlf) with 2 in Hlt; lia|].
    unfold substr. rewrite drop_app_length. change (take 2 (crlf ++ rest)) with crlf. rewrite bool_decide_true by done. cbn [negb orb].
    destruct (Z.ltb_spec (kMaxBodySize - zlen data) (zlen body)); [lia|].
    rewrite drop_0, take_app_length. replace (length data + 2)%nat with (length (data ++ crlf)) by (rewrite length_app; done).
    rewrite (app_assoc data crlf), drop_app_length. unfold rest. rewrite IH; [by rewrite <- app_assoc|done..|lia|].
    rewrite <- app_assoc. rewrite !zlen_app. lia.
Qed.

(** ** Every answer is handled *)

Lemma hex_size_bound t n : parseHexSize t = Some n -> 0 <= n <= kMaxBodySize.
Proof.
  unfold parseHexSize. set (text := trim_blanks _). destruct (bool_decide _); [done|]. cbv zeta.
  destruct (Z.ltb_spec kMaxBodySize (fc_value (from_chars_u64 16 text 0))); [by rewrite orb_true_r|].
  destruct (whole _ _); [|done]. cbn [negb orb]. intros [= <-]. split; [|done]. clear.
  assert (forall l acc, 0 <= acc -> 0 <= foldl (fun acc b => acc * 16 + default 0 (digit_of 16 b)) acc l) as Hv.
  { induction l as [|b l IH]; intros acc Ha; [done|]. cbn [foldl]. apply IH. unfold digit_of. pose proof (ub_range b).
    repeat (case_match; try done); simplify_eq; cbn; lia. }
  unfold from_chars_u64. destruct (take_while _ text) as [|b l]; [done|]. destruct (_ <? _); [|done]. by apply Hv.
Qed.

Lemma chunks_loop_ends fuel : forall wire body, (length wire < fuel)%nat -> zlen body <= kMaxBodySize ->
  exists r, chunks_loop fuel wire body = Some r /\ forall b, r = Ok b -> zlen b <= kMaxBodySize.
Proof.
  induction fuel as [|fuel IH]; intros wire body Hf Hb; [lia|]. cbn [chunks_loop].
  destruct (find_sub crlf wire) as [lineEnd|] eqn:El; [|by eexists].
  destruct (parseHexSize _) as [size|] eqn:Es; [|by eexists]. apply hex_size_bound in Es. cbv zeta.
  destruct (size =? 0).
  - destruct (bool_decide _); [eexists; split; [done|by intros ? [= <-]]|]. destruct (find_sub (crlf ++ crlf) _); [|by eexists].
    destruct (_ || _); [by eexists|]. eexists. split; [done|by intros ? [= <-]].
  - destruct (_ || _) eqn:E; [by eexists|]. apply orb_false_iff in E as [E E3]. apply orb_false_iff in E as [E1 _].
    apply Z.ltb_ge in E1, E3. apply IH; [rewrite !length_drop; destruct wire; [done|cbn in *; lia]|].
    rewrite zlen_app. unfold substr, zlen in *. rewrite length_take, drop_0. lia.
Qed.

Lemma headers_loop_ends fuel : forall response headerEnd cursor headers, (length response - cursor < fuel)%nat ->
  exists r, headers_loop fuel response headerEnd cursor headers = Some r.
Proof.
  induction fuel as [|fuel IH]; intros response headerEnd cursor headers Hf; [lia|]. cbn [headers_loop].
  destruct (cursor <? headerEnd)%nat; [|by eexists]. unfold find_sub_from.
  destruct (find_sub crlf (drop cursor response)) as [k|] eqn:Ek; [|by eexists]. cbn [fmap option_fmap option_map].
  destruct (headerEnd <? _)%nat; [by eexists|]. destruct (find _ _); [|by eexists]. destruct (_ || _); [by eexists|].
  destruct (Nat.ltb_spec cursor (length response)); [apply IH; lia|]. rewrite drop_ge in Ek by lia. done.
Qed.

Lemma decodeHttpBody_ends response :
  exists r, decodeHttpBody response = Some r /\ forall b, r = Ok b -> zlen b <= kMaxBodySize.
Proof.
  unfold decodeHttpBody. destruct (find_sub (crlf ++ crlf) response) as [headerEnd|]; [|by eexists].
  destruct (_ <? _); [by eexists|]. destruct (find_sub crlf response) as [first|]; [|by eexists].
  destruct (status_ok _); [|by eexists]. cbn [negb].
  destruct (headers_loop_ends (S (length response)) response headerEnd (first + 2) ∅) as [[headers|e] ->]; [lia| |by eexists].
  set (body := drop _ _). unfold framed_body.
  destruct (headers !! bs "transfer-encoding") as [t|], (headers !! bs "content-length") as [l|]; [by eexists| | |].
  - destruct (bool_decide _); [|by eexists]. apply chunks_loop_ends; [lia|done].
  - cbv zeta. destruct (_ || _) eqn:E; [by eexists|]. apply orb_false_iff in E as [E E3]. apply orb_false_iff in E as [_ E2].
    apply negb_false_iff, Z.eqb_eq in E3. apply Z.ltb_ge in E2. eexists. split; [done|]. intros ? [= <-]. lia.
  - destruct (Z.ltb_spec kMaxBodySize (zlen body)); [by eexists|]. eexists. split; [done|]. by intros ? [= <-].
Qed.

Section fetch.
Context {J : Type} `{Json J} {W : Type} `{ITransport W}.

Definition valid_request (host : bytes) (port capabilityVersion : Z) : bool :=
  negb (bool_decide (host = []) || bool_decide (is_Some (find_first_of [CR; LF] host)) || (port =? 0) || (capabilityVersion <=? 0)).

Lemma parse_key_Ok json key : parseControlPublicKeyResponse json = Ok key -> length key = 32%nat /\ all_zero key = false.
Proof.
  unfold parseControlPublicKeyResponse. destruct (_ || _); [done|]. destruct (json_parse json) as [root|]; [|done].
  destruct (is_object root); [|done]. cbn [negb]. destruct (json_find _ _ ≫= as_string) as [text|]; [|done].
  destruct (decodeTypedKey text _) as [k|] eqn:E; [|done]. destruct (all_zero k) eqn:Ez; [done|]. intros [= <-].
  split; [by eapply decodeTypedKey_length|done].
Qed.

(** A read that succeeds returns at least one byte. *)
Definition reads_something : Prop := forall n w data w', tr_read n w = (Received data, w') -> data <> [].

Lemma read_response_ends : reads_something -> forall fuel response w error, kMaxWireSize - zlen response < Z.of_nat fuel ->
  zlen response <= kMaxWireSize ->
  exists r w1, read_response fuel response w error = (Some r, tr_close w1) /\ forall b, r = Ok b -> zlen b <= kMaxWireSize.
Proof.
  intros Hr. induction fuel as [|fuel IH]; intros response w error Hf Hz; [lia|]. cbn [read_response].
  destruct (tr_read 2048 w) as [[data| |msg] w'] eqn:E; [|exists (Ok response), w'; split; [done|by intros ? [= <-]]|by eexists _, w'].
  apply Hr in E. destruct (Z.ltb_spec (kMaxWireSize - zlen data) (zlen response)); [by eexists _, w'|].
  assert (0 < zlen data) by (destruct data; [done|rewrite zlen_cons; pose proof (zlen_nonneg data); lia]).
  apply IH; rewrite zlen_app; lia.
Qed.

(** Whatever the server sends, the request for the control key ends after at
    most [kMaxWireSize] bytes and one read, and an opened connection is closed,
    whether it failed or not. What it answers is a key of 32 bytes that are not
    all zero, out of a response that names it. A host that would add lines to
    the request is refused before anything is opened. *)
Theorem key_fetch_ends fuel connect host port version w error : reads_something -> kMaxWireSize < Z.of_nat fuel ->
  exists r w', fetchControlPublicKey fuel connect host port version w error = (Some r, w') /\
    (if valid_request host port version then
       (exists e, connect host port w = (Err e, w') /\ r = Err e) \/ (exists u w1, connect host port w = (Ok u, w1) /\ exists w2, w' = tr_close w2)
     else w' = w /\ is_ok r = false) /\
    forall key, r = Ok key -> length key = 32%nat /\ all_zero key = false.
Proof.
  intros Hr Hf. unfold fetchControlPublicKey, valid_request. destruct (_ || _) eqn:Ev; cbn [negb]; [by eexists (Err _), w|].
  destruct (connect host port w) as [[u|e] w1]; [|eexists (Err e), w1; split_and!; [done|left; by eexists|done]].
  destruct (tr_write _ w1) as [[|msg] w2]; [|eexists (Err _), _; split_and!; [done|right; by eexists _, _; split; [|eexists]|done]].
  destruct (read_response_ends Hr fuel [] w2 error) as (r & w3 & -> & _); [rewrite zlen_nil; lia|done|].
  destruct r as [response|e]; [|eexists (Err _), _; split_and!; [done|right; by eexists _, _; split; [|eexists]|done]].
  destruct (decodeHttpBody_ends response) as (d & -> & _).
  destruct d as [body|e]; [exists (parseControlPublicKeyResponse body)|exists (Err e)]; eexists; split_and!;
    [done|right; by eexists _, _; split; [|eexists]|intros key; apply parse_key_Ok|done|right; by eexists _, _; split; [|eexists]|done].
Qed.
End fetch.

(** ** A server that answers *)

(** What follows the header block, and the body it stands for. *)
Inductive framed (headers : gmap bytes bytes) : bytes -> bytes -> Prop :=
| framed_length t body :
    headers !! bs "content-length" = Some t -> headers !! bs "transfer-encoding" = None ->
    trim_blanks t = to_string (zlen body) -> zlen body <= kMaxBodySize -> framed headers body body
| framed_chunks t chunks last trailer :
    headers !! bs "transfer-encoding" = Some t -> headers !! bs "content-length" = None ->
    lower (trim_blanks t) = bs "chunked" -> Forall chunk_ok chunks -> (CR ∉ last) -> parseHexSize last = Some 0 ->
    Forall header_line trailer -> zlen (header_text trailer) <= kMaxHeaderSize ->
    zlen (concat chunks.*2) <= kMaxBodySize -> framed headers (chunked chunks last trailer) (concat chunks.*2)
| framed_close body :
    headers !! bs "transfer-encoding" = None -> headers !! bs "content-length" = None ->
    zlen body <= kMaxBodySize -> framed headers body body.

Lemma decimal_digit b : is_digit b = true -> digit_of 10 b = Some (ub b - 48).
Proof.
  unfold is_digit, digit_of. intros Hb. rewrite Hb. apply andb_true_iff in Hb as [H1 H2]. apply Z.leb_le in H1, H2.
  destruct (Z.ltb_spec (ub b - 48) 10); [done|lia].
Qed.
Lemma decimal_value l : Forall (fun b => is_digit b = true) l -> forall acc,
  foldl (fun acc b => acc * 10 + default 0 (digit_of 10 b)) acc l = foldl (fun acc b => acc * 10 + (ub b - 48)) acc l.
Proof. induction 1 as [|b l Hb _ IH]; intros acc; [done|]. cbn [foldl]. by rewrite IH, decimal_digit. Qed.
Lemma read_decimal n : 0 <= n < 2 ^ 64 -> from_chars_u64 10 (to_string n) 0 = FromChars n (length (to_string n)) ErrNone.
Proof.
  intros Hn. pose proof (to_string_digits n ltac:(lia)) as Hd. unfold from_chars_u64. rewrite take_while_all.
  - unfold value_of. rewrite decimal_value by done. fold (dec_value (to_string n)). rewrite to_string_value by lia.
    pose proof (to_string_nonempty n ltac:(lia)). destruct (to_string n); [done|]. by rewrite (proj2 (Z.ltb_lt _ _) (proj2 Hn)).
  - eapply list.Forall_impl; [exact Hd|]. intros b Hb. unfold is_digit_of. by rewrite decimal_digit.
Qed.

Lemma framed_body_read headers wire body : framed headers wire body -> framed_body headers wire = Some (Ok body).
Proof.
  unfold framed_body. intros [t b Hl Ht Hs Hz|t chunks last trailer Ht Hl Hc Hok Hlast H0 Htr Hs Hz|b Ht Hl Hz]; rewrite Ht, Hl.
  - cbv zeta. rewrite Hs. pose proof (zlen_nonneg b). rewrite read_decimal by (unfold kMaxBodySize in Hz; lia). unfold whole.
    cbn [fc_ec fc_ptr fc_value]. rewrite bool_decide_true, Nat.eqb_refl, Z.eqb_refl by done. cbn [andb negb orb].
    by rewrite (proj2 (Z.ltb_ge _ _) Hz).
  - rewrite bool_decide_true by done. cbn [negb]. unfold decodeChunked.
    rewrite (chunks_loop_text chunks Hok); try done. unfold chunked. rewrite length_app.
    enough (length chunks <= length (concat (chunk_text <$> chunks)))%nat by lia. clear.
    induction chunks as [|[s d] l IH]; [done|]. cbn [fmap list_fmap concat length]. unfold chunk_text at 1.
    rewrite !length_app. change (length crlf) with 2%nat. lia.
  - by rewrite (proj2 (Z.ltb_ge _ _) Hz).
Qed.

(** A connection that says so when the peer has sent everything and closed. *)
Class ClosingTransport (W : Type) `{StreamTransport W} : Prop :=
  read_closed : forall w n, incoming w = [] -> exists w', tr_read n w = (Closed, w') /\ outgoing w' = outgoing w.
#[export] Instance script_closing : ClosingTransport script.
Proof. intros w n Hw. simpl. cbn in Hw. rewrite Hw. eauto. Qed.

Section answered.
Context {J : Type} `{Json J} {W : Type} `{ITransport W} `{!StreamTransport W} `{!ClosingTransport W}.

Lemma read_response_all fuel : forall cs response w error, incoming w = cs ->
  Forall (fun c => 0 < zlen c <= 2048) cs -> (length cs < fuel)%nat -> zlen (response ++ concat cs) <= kMaxWireSize ->
  exists w1, read_response fuel response w error = (Some (Ok (response ++ concat cs)), tr_close w1) /\ outgoing w1 = outgoing w.
Proof.
  induction fuel as [|fuel IH]; intros cs response w error Hw Hc Hf Hz; [lia|]. cbn [read_response].
  destruct Hc as [|c cs Hc Hcs].
  - destruct (read_closed w 2048 Hw) as (w1 & -> & Ho). exists w1. cbn [concat]. by rewrite app_nil_r.
  - destruct (read_incoming w c cs 2048 Hw Hc) as (w1 & -> & Hw1 & Ho1). cbn [concat length] in *.
    rewrite !zlen_app in Hz. pose proof (zlen_nonneg (concat cs)).
    destruct (Z.ltb_spec (kMaxWireSize - zlen c) (zlen response)); [lia|].
    destruct (IH cs (response ++ c) w1 error Hw1 Hcs) as (w2 & -> & Ho2); [lia|rewrite !zlen_app; lia|].
    exists w2. by rewrite <- app_assoc, Ho2.
Qed.

(** A server's answer is understood: status 200, header lines without repeated
    names, and a body with a length, in chunks, or up to the end of the connection,
    however the connection cuts it. The key the body names is returned, and the
    server has been sent the request and nothing else. *)
Theorem control_key_fetched fuel connect host port version (w w1 : W) status lines headers wire body root text key error :
  valid_request host port version = true -> connect host port w = (Ok tt, w1) ->
  Forall (fun c => 0 < zlen c <= 2048) (incoming w1) -> (length (incoming w1) < fuel)%nat ->
  concat (incoming w1) = http_text status lines wire -> zlen (http_text status lines wire) <= kMaxWireSize ->
  CR ∉ status -> status_ok status = true -> Forall header_line lines ->
  zlen (status ++ crlf ++ header_text lines) <= kMaxHeaderSize + 2 ->
  collect lines ∅ = Ok headers -> framed headers wire body ->
  body <> [] -> zlen body <= kMaxBodySize -> json_parse body = Some root -> is_object root = true ->
  json_find root (bs "publicKey") ≫= as_string = Some text -> decodeTypedKey text (bs "mkey:") = Some key -> all_zero key = false ->
  exists w2, fetchControlPublicKey fuel connect host port version w error = (Some (Ok key), tr_close w2) /\
    outgoing w2 = outgoing w1 ++ key_request host version.
Proof.
  intros Hv Hco Hc Hf Hcat Hz Hs Hok Hl Hh Hcol Hfr Hne Hb Hp Ho Hfind Hk Hnz. unfold fetchControlPublicKey.
  unfold valid_request in Hv. apply negb_true_iff in Hv. rewrite Hv, Hco.
  destruct (write_outgoing w1 (key_request host version)) as (w2 & -> & Hi & Hout).
  destruct (read_response_all fuel (incoming w1) [] w2 error) as (w3 & -> & Hout3); [done..|cbn [app]; by rewrite Hcat|].
  cbn [app]. rewrite Hcat, decodeHttpBody_text by done. rewrite Hok, Hcol, (framed_body_read _ _ _ Hfr).
  exists w3. split; [|by rewrite Hout3]. f_equal. f_equal. unfold parseControlPublicKeyResponse.
  rewrite bool_decide_false, (proj2 (Z.ltb_ge _ _) Hb), Hp, Ho by done. cbn [negb orb]. by rewrite Hfind, Hk, Hnz.
Qed.
End answered.

(** ** Examples *)

Definition quoted (s : string) : bytes := [u8 34] ++ bs s ++ [u8 34].
Definition ex_key : bytes := replicate 32 (u8 7).
Definition ex_body : bytes := bs "{" ++ quoted "publicKey" ++ bs ":" ++ [u8 34] ++ encodeTypedKey (bs "mkey:") ex_key ++ [u8 34] ++ bs "}".
Definition ex_doc : doc := DObject [(bs "publicKey", DString (encodeTypedKey (bs "mkey:") ex_key))].
Definition ex_json : Json doc := doc_json (fun t => if bool_decide (t = ex_body) then Some ex_doc else None).
Definition ex_status : bytes := bs "HTTP/1.1 200 OK".
Definition ex_lines : list bytes := [bs "Content-Type: application/json"; bs "Transfer-Encoding: Chunked"].
Definition ex_chunks : list (bytes * bytes) := [(bs "0A;x=1", take 10 ex_body); (bs "4b", drop 10 ex_body)].
Definition ex_wire : bytes := chunked ex_chunks (bs "0") [bs "X-Trace: 1"].
Definition ex_answer : bytes := http_text ex_status ex_lines ex_wire.
Definition ex_server : script := {| sc_incoming := [take 40 ex_answer; drop 40 ex_answer]; sc_outgoing := [] |}.
Definition ex_connect (host : bytes) (port : Z) (w : script) : result unit * script := (Ok tt, w).
Definition ex_headers : gmap bytes bytes :=
  <[bs "transfer-encoding" := bs "Chunked"]> (<[bs "content-type" := bs "application/json"]> ∅).

Lemma no_cr l : forallb (fun b => negb (bool_decide (b = CR))) l = true -> CR ∉ l.
Proof. intros Hl Hin%list_elem_of_In. rewrite forallb_forall in Hl. by specialize (Hl _ Hin). Qed.

Lemma ex_collect : collect ex_lines ∅ = Ok ex_headers.
Proof.
  unfold ex_lines. cbn [collect]. change (find (ch ":") (bs "Content-Type: application/json")) with (Some 12%nat).
  change (lower (trim_blanks (substr 0 12 (bs "Content-Type: application/json")))) with (bs "content-type").
  change (trim_blanks (substr_from (12 + 1) (bs "Content-Type: application/json"))) with (bs "application/json").
  cbv iota. rewrite lookup_empty. rewrite bool_decide_false by done. rewrite bool_decide_false by (intros [? ?]; done). cbn [orb].
  change (find (ch ":") (bs "Transfer-Encoding: Chunked")) with (Some 17%nat).
  change (lower (trim_blanks (substr 0 17 (bs "Transfer-Encoding: Chunked")))) with (bs "transfer-encoding").
  change (trim_blanks (substr_from (17 + 1) (bs "Transfer-Encoding: Chunked"))) with (bs "Chunked").
  cbv iota. rewrite lookup_insert_ne by done. rewrite lookup_empty. rewrite bool_decide_false by done.
  rewrite bool_decide_false by (intros [? ?]; done). done.
Qed.
Lemma ex_framed : framed ex_headers ex_wire ex_body.
Proof.
  assert (concat ex_chunks.*2 = ex_body) as <- by (vm_compute; reflexivity).
  apply (framed_chunks _ (bs "Chunked")).
  - unfold ex_headers. by rewrite lookup_insert_eq.
  - unfold ex_headers. by rewrite !lookup_insert_ne, lookup_empty by done.
  - vm_compute. reflexivity.
  - unfold ex_chunks. repeat (apply list.Forall_cons; split; [unfold chunk_ok; split_and!; [apply no_cr; vm_compute; reflexivity|discriminate|vm_compute; reflexivity]|]). constructor.
  - apply no_cr. vm_compute. reflexivity.
  - vm_compute. reflexivity.
  - repeat constructor; [done|apply no_cr; vm_compute; reflexivity].
  - vm_compute. discriminate.
  - vm_compute. discriminate.
Qed.

Lemma control_key_fetched_witness : exists w2,
  @fetchControlPublicKey doc ex_json script _ 3 ex_connect (bs "controlplane.example.com") 443 113 ex_server "" = (Some (Ok ex_key), tr_close w2) /\
  outgoing w2 = outgoing ex_server ++ key_request (bs "controlplane.example.com") 113.
Proof.
  apply (@control_key_fetched doc ex_json script _ _ _ 3 ex_connect (bs "controlplane.example.com") 443 113 ex_server ex_server
    ex_status ex_lines ex_headers ex_wire ex_body ex_doc (encodeTypedKey (bs "mkey:") ex_key) ex_key "").
  - vm_compute. reflexivity.
  - reflexivity.
  - cbn [incoming script_stream sc_incoming ex_server]. repeat (apply list.Forall_cons; split; [split; vm_compute; [reflexivity|discriminate]|]). constructor.
  - cbn. lia.
  - vm_compute. reflexivity.
  - vm_compute. discriminate.
  - apply no_cr. vm_compute. reflexivity.
  - vm_compute. reflexivity.
  - unfold ex_lines. repeat (apply list.Forall_cons; split; [split; [discriminate|apply no_cr; vm_compute; reflexivity]|]). constructor.
  - vm_compute. discriminate.
  - exact ex_collect.
  - exact ex_framed.
  - vm_compute. discriminate.
  - vm_compute. discriminate.
  - vm_compute. reflexivity.
  - reflexivity.
  - reflexivity.
  - vm_compute. reflexivity.
  - vm_compute. reflexivity.
Defined.

(** A connection that sends single bytes. *)
#[local] Instance drip : ITransport nat := {
  tr_read _ w := match w with O => (Closed, O) | S k => (Received [u8 65], k) end;
  tr_write _ w := (Written, w);
  tr_close w := w;
  tr_interrupt w := w;
}.
Lemma key_fetch_ends_witness : exists r w',
  @fetchControlPublicKey doc ex_json nat drip (Z.to_nat 98305) (fun _ _ w => (Ok tt, w)) (bs "c") 443 113 (Z.to_nat 200000) "" = (Some r, w') /\
  forall key, r = Ok key -> length key = 32%nat.
Proof.
  edestruct (@key_fetch_ends doc ex_json nat drip (Z.to_nat 98305) (fun _ _ w => (Ok tt, w)) (bs "c") 443 113 (Z.to_nat 200000) "") as (r & w' & E & _ & K).
  - intros n w data w'. cbn. destruct w; [done|]. by intros [= <- _].
  - rewrite Z2Nat.id by done. done.
  - exists r, w'. split; [exact E|]. intros key Hk. by destruct (K key Hk).
Defined.
