(* ===== verification/FileLog.v ===== *)
(** The diagnostic log ([diagnostics/RotatingFileLog.cpp], behind
    [vpn/VpnFileLogger.cpp]): what is blanked in a message, and the file with its
    one older part. The time and what the file calls answer come from outside. *)

From S2P Require Import Prelude Bytes Text.

Inductive Severity := Info | Warning | Error.
Definition severity_name (severity : Severity) : string :=
  match severity with Info => "INFO" | Warning => "WARN" | Error => "ERROR" end.

(** ** What is blanked *)

Definition secret_fields : list string := [
  "privatekey"; "private key"; "presharedkey"; "preshared key"; "setupkey"; "setup key"; "authkey"; "auth key"; "passphrase";
  "machineprivate"; "machine private"; "nodeprivate"; "node private"; "discoprivate"; "disco private"; "wireguard secret"].
Definition contains_secret_field (line : bytes) : bool :=
  existsb (fun field => bool_decide (is_Some (find_sub (bs field) (lower line)))) secret_fields.

Definition LINE_END : byte := u8 10.

(** What is written for one line. *)
Definition sanitize_line (line : bytes) : bytes :=
  if contains_secret_field line then
    match find (ch "=") line with
    | Some equals => substr 0 (equals + 1) line ++ bs " <redacted>"
    | None => bs "<redacted>"
    end
  else line.

(** The loop over the lines from [start]; [None] when the fuel ends. *)
Fixpoint sanitize_loop (fuel : nat) (message : bytes) (start : nat) (result : bytes) : option bytes :=
  match fuel with
  | O => None
  | S k =>
      if (start <=? length message)%nat then
        let end_ := find_from LINE_END start message in
        let lineEnd := match end_ with None => length message | Some e => e end in
        let result := result ++ sanitize_line (substr start (lineEnd - start) message) in
        match end_ with
        | None => Some result
        | Some e => sanitize_loop k message (e + 1) (result ++ [LINE_END])
        end
      else Some result
  end.
Definition sanitize (message : bytes) : option bytes := sanitize_loop (S (S (length message))) message 0 [].

(** ** The file *)

Definition kMaxLogBytes : Z := 1024 * 1024.

(** The log and its [.1]. *)
Record files := { log : option bytes; backup : option bytes }.

(** What the calls of one [append] answer; a write that fails leaves [written] bytes. *)
Record outcome := { size_known : bool; removed : bool; renamed : bool; opened : bool; written : option nat }.

Definition log_line (timestamp provider : bytes) (severity : Severity) (message : bytes) : option bytes :=
  message ← sanitize message;
  Some (bs "[" ++ timestamp ++ bs "] [" ++ bs (severity_name severity) ++ bs "] [" ++ provider ++ bs "] " ++ message ++ [LINE_END]).

(** Room for the line: the log is moved to the backup when it is full. *)
Definition rotate (o : outcome) (line : bytes) (f : files) : bool * files :=
  let currentSize := match log f with Some text => if size_known o then zlen text else 0 | None => 0 end in
  if (0 <? currentSize) && (kMaxLogBytes <? currentSize + zlen line) then
    let f := if removed o then {| log := log f; backup := None |} else f in
    if renamed o then (true, {| log := None; backup := log f |}) else (false, f)
  else (true, f).

Definition append_line (o : outcome) (line : bytes) (f : files) : bool * files :=
  let '(room, f) := rotate o line f in
  if negb room then (false, f)
  else if negb (opened o) then (false, f)
  else
    let text := default [] (log f) in
    match written o with
    | None => (true, {| log := Some (text ++ line); backup := backup f |})
    | Some n => (false, {| log := Some (text ++ take n line); backup := backup f |})
    end.

Definition append (o : outcome) (path timestamp provider : bytes) (severity : Severity) (message : bytes) (f : files) : option (bool * files) :=
  if bool_decide (path = []) then Some (false, f)
  else line ← log_line timestamp provider severity message; Some (append_line o line f).

(** ** A secret's value is not written *)

(** The lines of a message, each sanitized. *)
Lemma sanitize_loop_spec fuel : forall message start result, (length message - start < fuel)%nat -> (start <= length message)%nat ->
  sanitize_loop fuel message start result = Some (result ++ join LINE_END (sanitize_line <$> split_on LINE_END (drop start message))).
Proof.
  induction fuel as [|fuel IH]; intros message start result Hf Hs; [lia|]. cbn [sanitize_loop].
  rewrite (proj2 (Nat.leb_le _ _) Hs), find_from_split by done.
  destruct (find_from LINE_END start message) as [e|] eqn:Ee.
  - apply find_from_bound in Ee. destruct (decide (e + 1 <= length message)%nat); [|lia]. rewrite IH by lia.
    cbn [fmap list_fmap]. rewrite join_cons.
    + replace (S e) with (e + 1)%nat by lia. rewrite <- !app_assoc. done.
    + intros E%fmap_nil_inv. by apply split_on_nonempty in E.
  - cbn [fmap list_fmap join]. unfold substr. rewrite take_ge by (rewrite length_drop; lia). done.
Qed.
Lemma sanitize_lines message : sanitize message = Some (join LINE_END (sanitize_line <$> split_on LINE_END message)).
Proof. unfold sanitize. rewrite sanitize_loop_spec by lia. by rewrite drop_0. Qed.

(** Two lines an observer of the log cannot tell apart: equal, or both naming a
    secret and equal up to the first equals sign. *)
Definition same_line (a b : bytes) : Prop :=
  a = b \/ contains_secret_field a = true /\ contains_secret_field b = true /\
           match find (ch "=") a, find (ch "=") b with
           | Some i, Some j => take i a = take j b
           | None, None => True
           | _, _ => False
           end.

Lemma find_char c l i : find c l = Some i -> take (S i) l = take i l ++ [c].
Proof.
  unfold find, find_from. rewrite drop_0. destruct (find_if _ l) as [k|] eqn:E; [|done]. intros [= <-].
  apply find_if_Some in E as (_ & (x & Hx & Hc) & _). apply bool_decide_eq_true in Hc as ->. by apply take_S_r.
Qed.
Lemma sanitize_same_line a b : same_line a b -> sanitize_line a = sanitize_line b.
Proof.
  intros [->|(Ha & Hb & Heq)]; [done|]. unfold sanitize_line. rewrite Ha, Hb.
  destruct (find (ch "=") a) as [i|] eqn:Ei, (find (ch "=") b) as [j|] eqn:Ej; try done.
  unfold substr. rewrite !drop_0, !Nat.add_1_r, (find_char _ _ _ Ei), (find_char _ _ _ Ej), Heq. done.
Qed.

(** What follows the equals sign of a line that names a secret does not reach
    the log, and neither does the line when it has none: two messages that
    differ only there are written the same. Every other line is written as it is. *)
Theorem secrets_not_logged (a b : bytes) : Forall2 same_line (split_on LINE_END a) (split_on LINE_END b) ->
  sanitize a = sanitize b /\
  (Forall (fun l => contains_secret_field l = false) (split_on LINE_END a) -> sanitize a = Some a).
Proof.
  intros H. rewrite !sanitize_lines. split.
  - do 2 f_equal. induction H as [|x y l k Hx _ IH]; [done|]. cbn [fmap list_fmap]. by rewrite IH, (sanitize_same_line x y).
  - intros Hn. f_equal. rewrite <- (join_split_on LINE_END a) at 2. f_equal. clear H. induction Hn as [|x l Hx _ IH]; [done|].
    cbn [fmap list_fmap]. unfold sanitize_line at 1. by rewrite Hx, IH.
Qed.

Definition ex_message (secret : string) : bytes := bs "wg-nx config" ++ [LINE_END] ++ bs "PrivateKey = " ++ bs secret ++ [LINE_END] ++ bs "done".
Lemma secrets_not_logged_witness :
  sanitize (ex_message "abcdef") = sanitize (ex_message "another=one") /\
  sanitize (bs "ready") = Some (bs "ready").
Proof.
  split.
  - apply secrets_not_logged.
    assert (forall s, split_on LINE_END (ex_message s) = split_on LINE_END (ex_message s)) as _ by done.
    change (split_on LINE_END (ex_message "abcdef")) with [bs "wg-nx config"; bs "PrivateKey = abcdef"; bs "done"].
    change (split_on LINE_END (ex_message "another=one")) with [bs "wg-nx config"; bs "PrivateKey = another=one"; bs "done"].
    constructor; [by left|]. constructor; [|constructor; [by left|constructor]]. right. split_and!; vm_compute; reflexivity.
  - apply (secrets_not_logged (bs "ready") (bs "ready")); [constructor; [by left|constructor]|].
    constructor; [vm_compute; reflexivity|constructor].
Defined.

(** ** The size of the log *)

(** A call that puts the start of the line, all of it when it works, behind the log
    or, when the log was moved to the backup, into a new one. *)
Definition wrote (line : bytes) (f f' : files) (ok : bool) : Prop := exists n,
  (ok = true -> take n line = line) /\
  (default [] (log f') = default [] (log f) ++ take n line \/ (backup f' = log f /\ default [] (log f') = take n line)).

Lemma wrote_nothing line f f' : log f' = log f -> wrote line f f' false.
Proof. intros E. exists O. split; [done|]. left. by rewrite E, app_nil_r. Qed.

Lemma rotate_spec o line f : zlen line <= kMaxLogBytes -> size_known o = true -> zlen (default [] (log f)) <= kMaxLogBytes ->
  let '(room, f1) := rotate o line f in
  if room then (log f1 = log f /\ zlen (default [] (log f)) + zlen line <= kMaxLogBytes) \/ (log f1 = None /\ backup f1 = log f)
  else log f1 = log f.
Proof.
  intros Hl Hk Hf. unfold rotate. rewrite Hk. destruct (log f) as [text|] eqn:El; cbn in Hf |- *.
  - destruct (Z.ltb_spec 0 (zlen text)), (Z.ltb_spec kMaxLogBytes (zlen text + zlen line)); cbn [andb].
    + destruct (removed o), (renamed o); cbn [log backup]; rewrite ?El; auto.
    + left. rewrite El. split; [done|lia].
    + left. rewrite El. split; [done|]. pose proof (zlen_nonneg text). lia.
    + left. rewrite El. split; [done|lia].
  - left. by rewrite El.
Qed.

(** With sizes that are known the log never grows over its limit by lines that
    fit, whatever else fails: a line is put behind what is there, or into a new
    log when the old one has become the backup, and all of it when that is said. *)
Theorem log_bounded (o : outcome) (line : bytes) (f : files) :
  zlen line <= kMaxLogBytes -> size_known o = true -> zlen (default [] (log f)) <= kMaxLogBytes ->
  let '(ok, f') := append_line o line f in zlen (default [] (log f')) <= kMaxLogBytes /\ wrote line f f' ok.
Proof.
  intros Hl Hk Hf. pose proof (rotate_spec o line f Hl Hk Hf) as Hr. unfold append_line.
  destruct (rotate o line f) as [[] f1]; cbn [negb]; [|rewrite Hr; split; [done|by apply wrote_nothing]].
  assert (forall n, zlen (take n line) <= zlen line) as Htake by (intros n; unfold zlen; rewrite length_take; lia).
  destruct (opened o); cbn [negb].
  - assert (forall n ok, (ok = true -> take n line = line) ->
      zlen (default [] (log f1) ++ take n line) <= kMaxLogBytes /\
      wrote line f {| log := Some (default [] (log f1) ++ take n line); backup := backup f1 |} ok) as Hw.
    { intros n ok Hn. specialize (Htake n). rewrite zlen_app. destruct Hr as [[E Hz]|[E Eb]]; rewrite E.
      - split; [lia|]. exists n. by split; [|left].
      - cbn [default]. rewrite zlen_nil. split; [lia|]. exists n. by split; [|right]. }
    destruct (written o) as [n|].
    + by apply (Hw n).
    + specialize (Hw (length line) true). rewrite take_ge in Hw by lia. by apply Hw.
  - destruct Hr as [[E _]|[E Eb]]; rewrite E; [split; [done|by apply wrote_nothing]|]. split; [done|].
    exists O. split; [done|]. right. split; [done|by rewrite E].
Qed.

Lemma log_bounded_witness : zlen (bs "[t] ready") <= kMaxLogBytes /\
  let '(ok, f') := append_line {| size_known := true; removed := false; renamed := true; opened := true; written := None |}
    (bs "[t] ready") {| log := Some (bs "[s] start"); backup := None |} in
  zlen (default [] (log f')) <= kMaxLogBytes /\ wrote (bs "[t] ready") {| log := Some (bs "[s] start"); backup := None |} f' ok.
Proof. split; [vm_compute; discriminate|]. apply log_bounded; [vm_compute; discriminate|done|vm_compute; discriminate]. Defined.

(** ** Findings *)

(** What stands before the equals sign, and the rest of a secret that takes more
    than one line, is written. *)
Example secret_before_equals : sanitize (bs "login with tskey-0123 as auth key, mode=once") =
  Some (bs "login with tskey-0123 as auth key, mode= <redacted>").
Proof. vm_compute. reflexivity. Qed.
Example secret_on_the_next_line : sanitize (bs "PrivateKey =" ++ [LINE_END] ++ bs "c2VjcmV0") =
  Some (bs "PrivateKey = <redacted>" ++ [LINE_END] ++ bs "c2VjcmV0").
Proof. vm_compute. reflexivity. Qed.
