(* ===== verification/LaunchArgs.v ===== *)
(** Launch requests ([main_args.cpp]) and the forwarders that make them
    ([forwarder_maker.cpp]): the arguments of a command line, the links of the
    [moonlightswitch] scheme, and which host a request starts. How the argument
    vector is made from a forwarder's text is code of the platform and comes from
    outside. *)

From S2P Require Import Prelude Bytes Text CText HostAddress HostRecords.

Definition DEEP_LINK_SCHEME : bytes := bs "moonlightswitch".

Record LaunchRequest := { mac : bytes; ip : bytes; appId : bytes; appName : bytes }.
#[export] Instance LaunchRequest_eq_dec : EqDecision LaunchRequest.
Proof. solve_decision. Defined.
Definition no_request : LaunchRequest := {| mac := []; ip := []; appId := []; appName := [] |}.
Definition set_mac (v : bytes) (r : LaunchRequest) := {| mac := v; ip := ip r; appId := appId r; appName := appName r |}.
Definition set_ip (v : bytes) (r : LaunchRequest) := {| mac := mac r; ip := v; appId := appId r; appName := appName r |}.
Definition set_appId (v : bytes) (r : LaunchRequest) := {| mac := mac r; ip := ip r; appId := v; appName := appName r |}.
Definition set_appName (v : bytes) (r : LaunchRequest) := {| mac := mac r; ip := ip r; appId := appId r; appName := v |}.

(** ** Text *)

Definition startsWithNoCase (prefix value : bytes) : bool := bool_decide (lower (take (length prefix) value) = lower prefix).
Definition isDeepLinkUrl (value : bytes) : bool :=
  match find (ch ":") value with
  | Some schemeEnd => (schemeEnd =? length DEEP_LINK_SCHEME)%nat && startsWithNoCase DEEP_LINK_SCHEME (substr 0 schemeEnd value)
  | None => false
  end.

Definition hexValue (c : byte) : option Z := if in_base 16 c then Some (digit_value c) else None.

Fixpoint urlDecode (plusAsSpace : bool) (value : bytes) : bytes :=
  match value with
  | [] => []
  | c :: rest =>
      let literal := if bool_decide (c = ch "+") && plusAsSpace then ch " " else c in
      match rest with
      | h :: l :: rest' =>
          match bool_decide (c = ch "%"), hexValue h, hexValue l with
          | true, Some high, Some low => u8 (Z.lor (Z.shiftl high 4) low) :: urlDecode plusAsSpace rest'
          | _, _, _ => literal :: urlDecode plusAsSpace rest
          end
      | _ => literal :: urlDecode plusAsSpace rest
      end
  end.

Definition encodedSpace : bytes := bs "&#160;".
Definition decodeSwitchAppName (value : bytes) : option bytes := replace_all encodedSpace (bs " ") value.

Fixpoint drop_dashes (key : bytes) : bytes :=
  match key with
  | c :: rest => if bool_decide (c = ch "-") then drop_dashes rest else key
  | [] => []
  end.
Definition normalizeKey (key : bytes) : bytes :=
  lower (List.filter (fun c => negb (bool_decide (c = ch "-") || bool_decide (c = ch "_"))) (drop_dashes key)).

(** ** Requests *)

Definition one_of (key : bytes) (names : list string) : bool := existsb (fun name => bool_decide (key = bs name)) names.
Definition setLaunchValue (key value : bytes) (request : LaunchRequest) : LaunchRequest :=
  let key := normalizeKey key in
  if one_of key ["host"; "mac"]%string then set_mac value request
  else if one_of key ["ip"; "address"]%string then set_ip value request
  else if one_of key ["appid"]%string then set_appId value request
  else if one_of key ["appname"; "name"]%string then set_appName value request
  else request.

(** One argument of the command line, and one token of a payload. *)
Definition read_argument (request : LaunchRequest) (arg : bytes) : LaunchRequest :=
  if negb (starts_with (bs "--") arg) then request
  else
    match find (ch "=") arg with
    | None => request
    | Some separator => setLaunchValue (substr 2 (separator - 2) arg) (substr_from (separator + 1) arg) request
    end.
Definition parseArgv (argv : list bytes) : LaunchRequest := foldl read_argument no_request (drop 1 argv).

Definition query_pair (request : LaunchRequest) (pair : bytes) : LaunchRequest :=
  if bool_decide (pair = []) then request
  else
    let '(rawKey, rawValue) :=
      match find (ch "=") pair with
      | None => (pair, [])
      | Some equals => (substr 0 equals pair, substr_from (equals + 1) pair)
      end in
    setLaunchValue (urlDecode true rawKey) (urlDecode true rawValue) request.
(** The loop over the query; [None] when the fuel ends. *)
Fixpoint query_loop (fuel : nat) (query : bytes) (request : LaunchRequest) : option LaunchRequest :=
  match fuel with
  | O => None
  | S k =>
      match query with
      | [] => Some request
      | _ =>
          match find_first_of (bs "&;") query with
          | None => query_loop k [] (query_pair request query)
          | Some separator => query_loop k (substr_from (separator + 1) query) (query_pair request (substr 0 separator query))
          end
      end
  end.
Definition parseQuery (query : bytes) (request : LaunchRequest) : option LaunchRequest := query_loop (S (length query)) query request.

Fixpoint split_loop (quote : option byte) (current : bytes) (payload : bytes) : list bytes :=
  match payload with
  | [] => if bool_decide (current = []) then [] else [current]
  | c :: rest =>
      match quote with
      | Some q => if bool_decide (c = q) then split_loop None current rest else split_loop quote (current ++ [c]) rest
      | None =>
          if bool_decide (c = ch "'") || bool_decide (c = u8 34) then split_loop (Some c) current rest
          else if is_space c then
            if bool_decide (current = []) then split_loop None current rest else current :: split_loop None [] rest
          else split_loop None (current ++ [c]) rest
      end
  end.
Definition splitArgumentPayload (payload : bytes) : list bytes := split_loop None [] payload.
Definition parseArgumentPayload (payload : bytes) (request : LaunchRequest) : LaunchRequest :=
  foldl read_argument request (splitArgumentPayload payload).

Definition parseAppId (value : bytes) : option Z :=
  let r := from_chars_int value 0 in
  if bool_decide (fc_ec r = ErrNone) && (fc_ptr r =? length value)%nat then Some (fc_value r) else None.

(** [url.compare(pos, 2, "//") == 0]. *)
Definition slashes (pos : nat) (url : bytes) : bool := bool_decide (substr pos 2 url = bs "//").
Definition or_end (found : option nat) (url : bytes) : nat := default (length url) found.

Definition read_authority (schemeEnd : nat) (queryStart fragmentStart : option nat) (url : bytes) (request : LaunchRequest) : LaunchRequest :=
  let hostStart := (schemeEnd + 3)%nat in
  let slash := find_from (ch "/") hostStart url in
  let ends := Nat.min (or_end queryStart url) (or_end fragmentStart url) in
  let hostEnd := match slash with Some p => Nat.min p ends | None => ends end in
  let authority := urlDecode false (substr hostStart (hostEnd - hostStart) url) in
  if negb (bool_decide (authority = [])) && negb (bool_decide (authority = bs "launch")) &&
     bool_decide (mac request = []) && bool_decide (ip request = []) then set_ip authority request
  else request.
Definition read_payload (schemeEnd : nat) (queryStart fragmentStart : option nat) (url : bytes) (request : LaunchRequest) : LaunchRequest :=
  let payloadStart := if slashes (schemeEnd + 1) url then (schemeEnd + 3)%nat else (schemeEnd + 1)%nat in
  let payloadEnd := Nat.min (or_end queryStart url) (or_end fragmentStart url) in
  let payload := urlDecode true (substr payloadStart (payloadEnd - payloadStart) url) in
  parseArgumentPayload ((fun c => if bool_decide (c = ch "&") then ch " " else c) <$> payload) request.

Definition parseDeepLinkUrl (url : bytes) : option LaunchRequest :=
  match find (ch ":") url with
  | None => Some no_request
  | Some schemeEnd =>
      let queryStart := find_from (ch "?") (schemeEnd + 1) url in
      let fragmentStart := find_from (ch "#") (schemeEnd + 1) url in
      let queryEnd := or_end fragmentStart url in
      request ← match queryStart with
                | Some q => if (q <? queryEnd)%nat then parseQuery (substr (q + 1) (queryEnd - q - 1) url) no_request else Some no_request
                | None => Some no_request
                end;
      let request := if slashes (schemeEnd + 1) url then read_authority schemeEnd queryStart fragmentStart url request else request in
      Some (if bool_decide (mac request = []) && bool_decide (ip request = []) && bool_decide (appId request = [])
            then read_payload schemeEnd queryStart fragmentStart url request else request)
  end.

(** ** Starting *)

(** What the call answers, and the host and application whose stream it opens. *)
Definition request_matches (request : LaunchRequest) (host : Host) : bool :=
  bool_decide (h_mac host = mac request) || has_address (ip request) host.
Definition startFromLaunchRequest (can : bool) (hosts : list Host) (request : LaunchRequest) : option (bool * option (Host * App)) :=
  if negb can then Some (true, None)
  else
    name ← decodeSwitchAppName (appName request);
    if (bool_decide (mac request = []) && bool_decide (ip request = [])) || bool_decide (appId request = []) then Some (false, None)
    else
      match parseAppId (appId request) with
      | None => Some (false, None)
      | Some id =>
          match List.find (request_matches request) hosts with
          | Some host => Some (true, Some (host, {| ap_name := name; ap_id := id |}))
          | None => Some (false, None)
          end
      end.
Definition startFromArgs (can : bool) (hosts : list Host) (argv : list bytes) : option (bool * option (Host * App)) :=
  if negb can then Some (true, None)
  else if (length argv <=? 1)%nat then Some (false, None)
  else startFromLaunchRequest can hosts (parseArgv argv).
Definition startFromUrl (can : bool) (hosts : list Host) (url : bytes) : option (bool * option (Host * App)) :=
  if negb (isDeepLinkUrl url) then Some (false, None)
  else request ← parseDeepLinkUrl url; startFromLaunchRequest can hosts request.

(** ** Forwarders *)

Definition encodeAppName (name : bytes) : bytes := name ≫= fun c => if bool_decide (c = ch " ") then encodedSpace else [c].
Definition append (args value : bytes) : bytes := (if bool_decide (args = []) then [] else args ++ bs " ") ++ value.
Definition buildForwarderArgs (host : Host) (app : App) : bytes :=
  let args :=
    if is_usable_mac (h_mac host) then append [] (bs "--host=" ++ h_mac host)
    else if negb (bool_decide (preferred_address host = [])) then append [] (bs "--ip=" ++ preferred_address host) else [] in
  append (append args (bs "--appid=" ++ int_text (ap_id app))) (bs "--appname=" ++ encodeAppName (ap_name app)).

Definition QUOTE : byte := u8 34.
Definition formatNroPathForForwarder (path : bytes) : bytes :=
  let path := if negb (starts_with (bs "sdmc:") path) then bs "sdmc:" ++ path else path in
  if bool_decide (is_Some (find (ch " ") path)) then [QUOTE] ++ path ++ [QUOTE] else path.

(** What is written to [/nextArgv]. *)
Definition forwarder_args (nro_path : bytes) (host : Host) (app : App) : bytes :=
  let args := buildForwarderArgs host app in
  if bool_decide (args = []) then nro_path else nro_path ++ bs " " ++ args.

(** ** Decoding *)

(** A percent-encoded text: any character but the separators stands for itself,
    and any byte may be written as a percent sign and two hexadecimal digits. *)
Definition literal (c : byte) : Prop := c ∉ bs "%+&;#".
Inductive percent : bytes -> bytes -> Prop :=
  | percent_nil : percent [] []
  | percent_literal c e s : literal c -> percent e s -> percent (c :: e) (c :: s)
  | percent_escape h l high low e s : hexValue h = Some high -> hexValue l = Some low -> percent e s ->
      percent (ch "%" :: h :: l :: e) (u8 (16 * high + low) :: s).

Lemma hexValue_range h v : hexValue h = Some v -> 0 <= v < 16.
Proof.
  unfold hexValue, in_base. destruct (Z.ltb_spec (digit_value h) 16); intros [= <-]. split; [|done].
  unfold digit_value, is_digit, is_upper. destruct (Z.leb_spec 48 (ub h)), (Z.leb_spec 97 (ub h)), (Z.leb_spec 65 (ub h)),
    (Z.leb_spec (ub h) 57), (Z.leb_spec (ub h) 122), (Z.leb_spec (ub h) 90); cbn; lia.
Qed.

Lemma urlDecode_percent e s : percent e s -> urlDecode true e = s.
Proof.
  induction 1 as [|c e s Hc _ IH|h l high low e s Hh Hl _ IH]; [done| |].
  - unfold literal in Hc. assert (c <> ch "%" /\ c <> ch "+") as [H1 H2] by (split; intros ->; apply Hc; apply (bool_decide_unpack _); done).
    cbn [urlDecode]. rewrite !(bool_decide_false (c = _)) by done. cbn [andb]. destruct e as [|? [|? ?]]; by rewrite IH.
  - cbn [urlDecode]. rewrite bool_decide_true, Hh, Hl, IH by done. apply hexValue_range in Hh, Hl.
    rewrite lor_shiftl_add by (change (2 ^ 4) with 16; lia). do 2 f_equal. lia.
Qed.

Lemma hexValue_literal h v c : hexValue h = Some v -> c ∈ bs "&;#" -> h <> c.
Proof. intros Hh Hc ->. repeat (apply elem_of_cons in Hc as [->|Hc]; [by vm_compute in Hh|]). by apply not_elem_of_nil in Hc. Qed.
Lemma percent_chars e s : percent e s -> Forall (fun c => c ∉ bs "&;#") e.
Proof.
  induction 1 as [|c e s Hc _ IH|h l high low e s Hh Hl _ IH]; [done| |].
  - constructor; [|done]. intros Hin. apply Hc. change (bs "%+&;#") with (bs "%+" ++ bs "&;#"). apply elem_of_app. by right.
  - constructor; [by apply (bool_decide_unpack _)|]. constructor; [intros Hc; by eapply (hexValue_literal h)|].
    constructor; [intros Hc; by eapply (hexValue_literal l)|done].
Qed.

(** The query is read pair by pair. *)
Lemma query_loop_pairs pairs : Forall (Forall (fun c => c ∉ bs "&;")) pairs -> forall fuel request, (length (join (ch "&") pairs) < fuel)%nat ->
  query_loop fuel (join (ch "&") pairs) request = Some (foldl query_pair request pairs).
Proof.
  assert (forall p, Forall (fun c => c ∉ bs "&;") p -> Forall (fun c => bool_decide (c ∈ bs "&;") = false) p) as Hnone.
  { intros p Hp. eapply list.Forall_impl; [exact Hp|]. intros c Hc. by apply bool_decide_false. }
  induction 1 as [|p [|q pairs] Hp _ IH]; intros [|k] request Hk; try lia; [done| |].
  - cbn [join]. cbn [join] in Hk. destruct p as [|c p]; [done|]. cbn [query_loop].
    unfold find_first_of. rewrite (proj2 (find_if_None _ _)) by by apply Hnone. cbn in Hk. destruct k; [lia|]. done.
  - change (join (ch "&") (p :: q :: pairs)) with (p ++ ch "&" :: join (ch "&") (q :: pairs)) in *. cbn [query_loop].
    rewrite length_app in Hk. cbn [length] in Hk.
    destruct (p ++ ch "&" :: join (ch "&") (q :: pairs)) eqn:E; [by destruct p|]. rewrite <- E.
    unfold find_first_of. rewrite (find_if_app_r _ p (ch "&")) by (by apply Hnone || done).
    unfold substr_from, substr. rewrite drop_0, take_app_length. rewrite cons_middle, app_assoc.
    replace (length p + 1)%nat with (length (p ++ [ch "&"])) by (rewrite length_app; done). rewrite drop_app_length. apply IH. lia.
Qed.
Lemma query_pair_text k e s request : percent e s -> ch "=" ∉ k -> query_pair request (k ++ ch "=" :: e) = setLaunchValue (urlDecode true k) s request.
Proof.
  intros He Hk. unfold query_pair. rewrite bool_decide_false by by destruct k.
  unfold find, find_from. rewrite drop_0, (find_if_app_r _ k (ch "=")).
  2:{ apply list.Forall_forall. intros c Hc. apply bool_decide_false. by intros ->. }
  2:{ by apply bool_decide_true. }
  cbn [fmap option_fmap option_map Nat.add]. unfold substr_from, substr. rewrite drop_0, take_app_length, cons_middle, app_assoc.
  replace (length k + 1)%nat with (length (k ++ [ch "="])) by (rewrite length_app; done). by rewrite drop_app_length, (urlDecode_percent e s).
Qed.
Lemma query_loop_total fuel : forall query request, (length query < fuel)%nat -> is_Some (query_loop fuel query request).
Proof.
  induction fuel as [|k IH]; intros query request Hk; [lia|]. cbn [query_loop]. destruct query as [|c query]; [done|].
  cbn [length] in Hk. destruct (find_first_of _ _) as [n|]; apply IH; [|cbn; lia].
  unfold substr_from. rewrite length_drop. cbn [length]. lia.
Qed.
Lemma parseDeepLinkUrl_total url : is_Some (parseDeepLinkUrl url).
Proof.
  unfold parseDeepLinkUrl. destruct (find _ url) as [n|]; [|done]. destruct (find_from (ch "?") _ url) as [q|]; [|done].
  destruct (_ <? _)%nat; [|done]. unfold parseQuery. by edestruct query_loop_total as [r ->]; [apply Nat.lt_succ_diag_r|].
Qed.

(** ** Links *)

Definition launch_prefix : bytes := bs "moonlightswitch://launch?".
Lemma launch_link q request : ch "#" ∉ q -> parseQuery q no_request = Some request -> mac request <> [] \/ ip request <> [] ->
  parseDeepLinkUrl (launch_prefix ++ q) = Some request.
Proof.
  intros Hq Hp Hr. unfold parseDeepLinkUrl.
  change (find (ch ":") (launch_prefix ++ q)) with (Some 15%nat). cbv beta iota.
  change (find_from (ch "?") (15 + 1) (launch_prefix ++ q)) with (Some 24%nat). cbv zeta.
  assert (find_from (ch "#") (15 + 1) (launch_prefix ++ q) = None) as ->.
  { unfold find_from. change (drop (15 + 1) (launch_prefix ++ q)) with (bs "//launch?" ++ q). rewrite (proj2 (find_if_None _ _)); [done|].
    apply list.Forall_forall. intros c Hc. apply bool_decide_false. intros ->. apply elem_of_app in Hc as [Hc|Hc]; [|by apply Hq].
    apply (bool_decide_pack _) in Hc. by vm_compute in Hc. }
  cbn [or_end default from_option id]. rewrite length_app. change (length launch_prefix) with 25%nat.
  rewrite (proj2 (Nat.ltb_lt _ _)) by lia. unfold substr at 1. change (drop (24 + 1) (launch_prefix ++ q)) with q.
  rewrite take_ge by lia. rewrite Hp. cbn [mbind option_bind].
  change (slashes (15 + 1) (launch_prefix ++ q)) with true. cbv iota.
  assert (read_authority 15 (Some 24%nat) None (launch_prefix ++ q) request = request) as ->.
  { unfold read_authority, or_end. cbn [default from_option id]. rewrite length_app. change (length launch_prefix) with 25%nat.
    rewrite (Nat.min_l 24) by lia. unfold find_from. change (drop (15 + 3) (launch_prefix ++ q)) with (bs "launch?" ++ q).
    assert (match (fun k => (15 + 3 + k)%nat) <$> find_if (fun x => bool_decide (x = ch "/")) (bs "launch?" ++ q) with
      | Some p => Nat.min p 24 | None => 24%nat end = 24%nat) as ->.
    { change (find_if (fun x => bool_decide (x = ch "/")) (bs "launch?" ++ q)) with
        (S <$> (S <$> (S <$> (S <$> (S <$> (S <$> (S <$> find_if (fun x => bool_decide (x = ch "/")) q))))))).
      destruct (find_if _ q) as [k|]; [|done]. cbn [fmap option_fmap option_map]. lia. }
    change (urlDecode false (substr (15 + 3) (24 - (15 + 3)) (launch_prefix ++ q))) with (bs "launch").
    rewrite (bool_decide_true (bs "launch" = bs "launch")) by done. cbn [negb]. by rewrite andb_false_r. }
  destruct Hr as [Hr|Hr]; [rewrite (bool_decide_false (mac request = [])) by done|rewrite (bool_decide_false (ip request = [])), andb_false_r by done]; done.
Qed.

(** A link as the shortcuts build it is read back: the host or the address, the
    application and its name, each percent-encoded, are what the request holds. *)
Theorem shortcut_link_read (is_mac : bool) (host id name eh ei en : bytes) :
  percent eh host -> percent ei id -> percent en name -> host <> [] ->
  let link := launch_prefix ++ bs (if is_mac then "host=" else "ip=") ++ eh ++ bs "&appid=" ++ ei ++ bs "&appname=" ++ en in
  isDeepLinkUrl link = true /\
  parseDeepLinkUrl link = Some {| mac := if is_mac then host else []; ip := if is_mac then [] else host; appId := id; appName := name |}.
Proof.
  intros Hh Hi Hn Hne link. split; [done|]. unfold link. apply launch_link.
  - pose proof (percent_chars _ _ Hh) as H1. pose proof (percent_chars _ _ Hi) as H2. pose proof (percent_chars _ _ Hn) as H3.
    rewrite list.Forall_forall in H1, H2, H3. rewrite !elem_of_app. intros [Hx|[Hx|[Hx|[Hx|[Hx|Hx]]]]];
      try (apply (bool_decide_pack _) in Hx; by destruct is_mac; vm_compute in Hx); [apply H1 in Hx|apply H2 in Hx|apply H3 in Hx]; apply Hx; by apply (bool_decide_unpack _).
  - unfold parseQuery.
    set (pairs := [bs (if is_mac then "host=" else "ip=") ++ eh; bs "appid=" ++ ei; bs "appname=" ++ en]).
    replace (bs (if is_mac then "host=" else "ip=") ++ eh ++ bs "&appid=" ++ ei ++ bs "&appname=" ++ en) with (join (ch "&") pairs).
    2:{ unfold pairs. cbn [join]. by rewrite <- !app_assoc. }
    rewrite query_loop_pairs; [|unfold pairs|lia].
    2:{ assert (forall k e s, percent e s -> Forall (fun c => c ∉ bs "&;") k -> Forall (fun c => c ∉ bs "&;") (k ++ e)) as Hx.
        { intros k e s He Hk. apply list.Forall_app. split; [done|]. apply percent_chars in He. eapply list.Forall_impl; [exact He|].
          intros c Hc Hin. apply Hc. change (bs "&;#") with (bs "&;" ++ bs "#"). apply elem_of_app. by left. }
        repeat (apply list.Forall_cons; split; [eapply Hx; [eassumption|destruct is_mac; by apply (bool_decide_unpack _)]|]). done. }
    f_equal. unfold pairs. cbn [foldl]. change (bs "appid=" ++ ei) with (bs "appid" ++ ch "=" :: ei).
    change (bs "appname=" ++ en) with (bs "appname" ++ ch "=" :: en).
    replace (bs (if is_mac then "host=" else "ip=") ++ eh) with (bs (if is_mac then "host" else "ip") ++ ch "=" :: eh) by by destruct is_mac.
    rewrite (query_pair_text _ eh host), (query_pair_text _ ei id), (query_pair_text _ en name)
      by (done || (destruct is_mac; by apply (bool_decide_unpack _))). by destruct is_mac.
  - cbn. destruct is_mac; [by left|by right].
Qed.
Lemma shortcut_link_read_witness :
  parseDeepLinkUrl (launch_prefix ++ bs "host=" ++ bs "0a%3A1b" ++ bs "&appid=" ++ bs "7" ++ bs "&appname=" ++ bs "Half%2dLife") =
  Some {| mac := bs "0a:1b"; ip := []; appId := bs "7"; appName := bs "Half-Life" |}.
Proof.
  apply (shortcut_link_read true (bs "0a:1b") (bs "7") (bs "Half-Life") (bs "0a%3A1b") (bs "7") (bs "Half%2dLife")); [| | |done];
    repeat first [exact percent_nil | apply percent_literal; [by apply (bool_decide_unpack _)|]
                 | refine (percent_escape _ _ 3 10 _ _ _ _ _); [done|done|] | refine (percent_escape _ _ 2 13 _ _ _ _ _); [done|done|]].
Defined.

Lemma list_find_split {A} (p : A -> bool) l x : List.find p l = Some x ->
  exists before after, l = before ++ x :: after /\ p x = true /\ Forall (fun y => p y = false) before.
Proof.
  induction l as [|y l IH]; [done|]. cbn [List.find]. destruct (p y) eqn:E.
  - intros [= <-]. by exists [], l.
  - intros Hf. destruct (IH Hf) as (before & after & -> & Hx & Hb). exists (y :: before), after. split_and!; [done..|]. by constructor.
Qed.

(** What a launch does, for every link, list of hosts and answer of the system: it
    always ends; without leave to run nothing is opened; and a stream is opened only
    for a link of the scheme whose request names an application by a number and a
    host or an address, to the first host that has the MAC or the address. *)
Theorem launch_decides (can : bool) (hosts : list Host) (url : bytes) :
  exists answer opened, startFromUrl can hosts url = Some (answer, opened) /\
  forall host app, opened = Some (host, app) ->
    can = true /\ answer = true /\ isDeepLinkUrl url = true /\
    exists request before after, parseDeepLinkUrl url = Some request /\ parseAppId (appId request) = Some (ap_id app) /\
      decodeSwitchAppName (appName request) = Some (ap_name app) /\ (mac request <> [] \/ ip request <> []) /\
      hosts = before ++ host :: after /\ (h_mac host = mac request \/ has_address (ip request) host = true) /\
      Forall (fun h => h_mac h <> mac request /\ has_address (ip request) h = false) before.
Proof.
  unfold startFromUrl. destruct (isDeepLinkUrl url); cbn [negb]; [|by exists false, None].
  destruct (parseDeepLinkUrl_total url) as [request Hr]. rewrite Hr. cbn [mbind option_bind]. unfold startFromLaunchRequest.
  destruct can; cbn [negb]; [|by exists true, None]. unfold decodeSwitchAppName at 1. rewrite replace_all_spec by done. cbn [mbind option_bind].
  destruct ((bool_decide (mac request = []) && bool_decide (ip request = [])) || bool_decide (appId request = [])) eqn:Ee; [by exists false, None|].
  destruct (parseAppId (appId request)) as [id|] eqn:Ei; [|by exists false, None].
  destruct (List.find (request_matches request) hosts) as [host|] eqn:Ef; [|by exists false, None].
  eexists true, _. split; [done|]. intros ? ? [= <- <-]. split_and!; [done..|].
  apply list_find_split in Ef as (before & after & -> & Hm & Hb). exists request, before, after. cbn [ap_id ap_name].
  unfold decodeSwitchAppName. rewrite replace_all_spec by done. split_and!; try done.
  - apply orb_false_iff in Ee as [Ee _]. apply andb_false_iff in Ee as [Ee|Ee]; apply bool_decide_eq_false in Ee; [by left|by right].
  - unfold request_matches in Hm. apply orb_true_iff in Hm as [Hm|Hm]; [left; by apply bool_decide_eq_true in Hm|by right].
  - eapply list.Forall_impl; [exact Hb|]. intros h Hh. unfold request_matches in Hh. apply orb_false_iff in Hh as [Hh ?].
    by apply bool_decide_eq_false in Hh.
Qed.

(** ** Forwarders *)

(** Names without the entity come back. *)
Lemma encoded_prefix m : forall name x, encodeAppName name = m ++ x -> ch "&" ∉ m -> exists x', name = m ++ x'.
Proof.
  induction m as [|y m IH]; intros name x E Hm; [by exists name|]. apply not_elem_of_cons in Hm as [Hy Hm].
  destruct name as [|c name]; [done|]. unfold encodeAppName in E. rewrite bind_cons in E.
  destruct (bool_decide (c = ch " ")); [by injection E as E|]. injection E as -> E.
  destruct (IH name x E Hm) as (x' & ->). by exists x'.
Qed.
Lemma encoded_replaced name : find_sub encodedSpace name = None -> forall fuel, (length (encodeAppName name) < fuel)%nat ->
  replaced fuel encodedSpace (bs " ") (encodeAppName name) = name.
Proof.
  rewrite find_sub_none by done. intros Hn. induction name as [|c name IH]; intros [|k] Hk; try lia; [done|].
  assert (forall a r, name <> a ++ encodedSpace ++ r) as Hname by (intros a r ->; by apply (Hn (c :: a) r)).
  unfold encodeAppName in *. rewrite bind_cons in *. fold (encodeAppName name) in *. cbn [replaced].
  destruct (bool_decide_reflect (c = ch " ")) as [->|Hc].
  - rewrite starts_with_app, drop_app_length, IH; [done|done|]. rewrite length_app in Hk. change (length encodedSpace) with 6%nat in Hk. lia.
  - cbn [app] in *. destruct (starts_with encodedSpace (c :: encodeAppName name)) eqn:Es.
    + exfalso. apply starts_with_take in Es as [r E]. injection E as -> E.
      destruct (encoded_prefix (bs "#160;") name r E) as (x & ->); [by apply (bool_decide_unpack _)|]. by apply (Hn [] x).
    + f_equal. apply IH; [done|]. cbn in Hk. lia.
Qed.
Lemma decode_encoded_name name : find_sub encodedSpace name = None -> decodeSwitchAppName (encodeAppName name) = Some name.
Proof. intros Hn. unfold decodeSwitchAppName. rewrite replace_all_spec by done. by rewrite encoded_replaced by (done || lia). Qed.

Lemma from_chars_int_text n init : - 2 ^ 31 <= n < 2 ^ 31 -> from_chars_int (int_text n) init = FromChars n (length (int_text n)) ErrNone.
Proof.
  intros Hn. unfold int_text, from_chars_int. cbv zeta. destruct (Z.ltb_spec n 0).
  - cbn [head]. rewrite bool_decide_true by done. cbv iota. cbn [drop].
    pose proof (to_string_nonempty (- n) ltac:(lia)). rewrite drop_0, (take_while_all _ _ (to_string_digits (- n) ltac:(lia))), to_string_value by lia.
    rewrite !(proj2 (Z.leb_le _ _)), (proj2 (Z.ltb_lt _ _)) by lia.
    destruct (to_string (- n)); [done|]. cbn [andb length]. f_equal. lia.
  - pose proof (to_string_digits n ltac:(lia)) as Hd. pose proof (to_string_nonempty n ltac:(lia)) as Hne.
    rewrite (bool_decide_false (head (to_string n) = Some (ch "-"))).
    2:{ destruct (to_string n) as [|c l]; [done|]. intros [= ->]. by apply list.Forall_cons in Hd as [Hd _]. }
    cbv iota. rewrite take_while_all, to_string_value by (done || lia). rewrite !(proj2 (Z.leb_le _ _)), (proj2 (Z.ltb_lt _ _)) by lia.
    by destruct (to_string n).
Qed.
Lemma parse_int_text n : - 2 ^ 31 <= n < 2 ^ 31 -> parseAppId (int_text n) = Some n.
Proof. intros Hn. unfold parseAppId. rewrite from_chars_int_text by done. cbn [fc_ec fc_ptr fc_value]. by rewrite bool_decide_true, Nat.eqb_refl. Qed.

(** The words of a forwarder, and the words a launcher leaves as they are. *)
Definition word_char (c : byte) : Prop := is_space c = false /\ c <> QUOTE.
Definition name_char (c : byte) : Prop := word_char c \/ c = ch " ".
#[export] Instance word_char_dec c : Decision (word_char c).
Proof. unfold word_char. apply _. Defined.
#[export] Instance name_char_dec c : Decision (name_char c).
Proof. unfold name_char. apply _. Defined.
Definition plain (word : bytes) : Prop := word <> [] /\ Forall word_char word.
Definition path_word (path : bytes) : Prop := plain path \/ exists s, (QUOTE ∉ s) /\ path = [QUOTE] ++ s ++ [QUOTE].
Lemma formatted_path path : Forall name_char path -> path_word (formatNroPathForForwarder path).
Proof.
  intros Hp. unfold formatNroPathForForwarder. set (p := if negb _ then _ else path).
  assert (Forall name_char p) as Hf.
  { unfold p. destruct (negb _); [|done]. apply list.Forall_app. split; [|done]. repeat (apply list.Forall_cons; split; [left; by apply (bool_decide_unpack _)|]). constructor. }
  assert (p <> []) as Hne.
  { unfold p. destruct (starts_with (bs "sdmc:") path) eqn:E; cbn [negb]; [|done]. apply starts_with_take in E as [r ->]. done. }
  rewrite list.Forall_forall in Hf. destruct (find (ch " ") p) as [n|] eqn:Ef; [rewrite bool_decide_true by done|rewrite bool_decide_false by by intros []].
  - right. exists p. split; [|done]. intros Hq. by destruct (Hf _ Hq) as [[_ Hx]|Hx].
  - left. split; [done|]. apply list.Forall_forall. intros c Hc. destruct (Hf c Hc) as [Hw|Hw]; [done|subst c]. exfalso.
    unfold find, find_from in Ef. rewrite drop_0 in Ef. destruct (find_if _ p) eqn:E; [done|]. apply find_if_None in E.
    rewrite list.Forall_forall in E. specialize (E _ Hc). by rewrite bool_decide_true in E.
Qed.
Definition host_words (host : Host) : list bytes :=
  if is_usable_mac (h_mac host) then [bs "--host=" ++ h_mac host]
  else if bool_decide (preferred_address host = []) then [] else [bs "--ip=" ++ preferred_address host].
Definition forwarder_words (host : Host) (app : App) : list bytes :=
  host_words host ++ [bs "--appid=" ++ int_text (ap_id app); bs "--appname=" ++ encodeAppName (ap_name app)].

Lemma append_next args value : args <> [] -> append args value = args ++ ch " " :: value.
Proof. intros Ha. unfold append. rewrite bool_decide_false by done. by rewrite <- app_assoc. Qed.
Lemma buildForwarderArgs_words host a : buildForwarderArgs host a = join (ch " ") (forwarder_words host a).
Proof.
  unfold buildForwarderArgs, forwarder_words, host_words. destruct (is_usable_mac (h_mac host)); [|destruct (bool_decide (preferred_address host = []))];
    cbn [negb app join]; change (append [] ?v) with v; rewrite !append_next by done; by rewrite <- ?app_assoc.
Qed.
Lemma forwarder_args_words path host a : forwarder_args path host a = join (ch " ") (path :: forwarder_words host a).
Proof.
  unfold forwarder_args. rewrite buildForwarderArgs_words. rewrite join_cons by (unfold forwarder_words; by destruct (host_words host)).
  rewrite bool_decide_false; [done|]. unfold forwarder_words, host_words.
  destruct (is_usable_mac _); [|destruct (bool_decide _)]; done.
Qed.
Lemma read_forwarder host app : - 2 ^ 31 <= ap_id app < 2 ^ 31 -> foldl read_argument no_request (forwarder_words host app) =
  {| mac := if is_usable_mac (h_mac host) then h_mac host else [];
     ip := if is_usable_mac (h_mac host) then [] else preferred_address host;
     appId := int_text (ap_id app); appName := encodeAppName (ap_name app) |}.
Proof.
  intros _. assert (forall r v, read_argument r (bs "--host=" ++ v) = set_mac v r) as H1 by done.
  assert (forall r v, read_argument r (bs "--ip=" ++ v) = set_ip v r) as H2 by done.
  assert (forall r v, read_argument r (bs "--appid=" ++ v) = set_appId v r) as H3 by done.
  assert (forall r v, read_argument r (bs "--appname=" ++ v) = set_appName v r) as H4 by done.
  unfold forwarder_words, host_words. rewrite foldl_app. destruct (is_usable_mac (h_mac host)).
  - cbn [foldl]. by rewrite H1, H3, H4.
  - destruct (bool_decide_reflect (preferred_address host = [])) as [->|]; cbn [foldl]; by rewrite ?H2, H3, H4.
Qed.

Lemma preferred_is_known host : preferred_address host <> [] -> has_address (preferred_address host) host = true.
Proof.
  unfold preferred_address, has_address. destruct (connection_addresses host) as [|a l]; [done|]. cbn [lookup list_lookup default from_option id existsb].
  intros Ha. by rewrite (bool_decide_false (a = [])), bool_decide_true by done.
Qed.
Lemma encoded_plain name : Forall name_char name ->
  Forall word_char (encodeAppName name).
Proof.
  induction 1 as [|c name Hc _ IH]; [constructor|]. unfold encodeAppName. rewrite bind_cons. apply list.Forall_app. split; [|exact IH].
  destruct (bool_decide_reflect (c = ch " ")); [|destruct Hc as [Hc|]; [by constructor|done]]. by apply (bool_decide_unpack _).
Qed.

Section forwarder.
(** The argument vector the platform makes from the text of a forwarder: behind the
    first word, which may be quoted, words without blanks and quotation marks come
    through as they are. *)
Context (argv_of : bytes -> list bytes).
Context (argv_plain : forall path words, path_word path -> Forall plain words ->
  exists name, argv_of (join (ch " ") (path :: words)) = name :: words).

(** The hosts a request made for [host] is taken for. *)
Definition stands_for (host h : Host) : bool :=
  if is_usable_mac (h_mac host) then bool_decide (h_mac h = h_mac host)
  else bool_decide (h_mac h = []) || has_address (preferred_address host) h.

Lemma find_first_host (f : Host -> bool) hosts h : List.find f hosts = Some h ->
  exists pre post, hosts = pre ++ h :: post /\ f h = true /\ Forall (fun x => f x = false) pre.
Proof.
  induction hosts as [|x hosts IH]; [done|]. cbn [List.find]. destruct (f x) eqn:Ex.
  - intros [= ->]. by exists [], hosts.
  - intros (pre&post&->&Hh&Hp)%IH. exists (x :: pre), post. split_and!; [done|done|by constructor].
Qed.

End forwarder.

(** A launcher that cuts at blanks behind a name that may be quoted. *)
Definition words_of (text : bytes) : list bytes := List.filter (fun w => negb (bool_decide (w = []))) (split_on (ch " ") text).
Definition quoted_argv (text : bytes) : list bytes :=
  if bool_decide (head text = Some QUOTE) then
    match find QUOTE (drop 1 text) with
    | Some n => take n (drop 1 text) :: words_of (drop (S n) (drop 1 text))
    | None => [text]
    end
  else words_of text.
Lemma words_of_join words : Forall plain words -> words_of (join (ch " ") words) = words.
Proof.
  intros Hw. unfold words_of. destruct words as [|w words]; [done|]. rewrite split_on_join; [|done|].
  - induction Hw as [|v l [Hv _] _ IH]; [done|]. cbn [List.filter]. rewrite bool_decide_false by done. cbn [negb]. by f_equal.
  - eapply list.Forall_impl; [exact Hw|]. intros v [_ Hv] Hin. rewrite list.Forall_forall in Hv. by destruct (Hv _ Hin).
Qed.
Lemma quoted_argv_plain path words : path_word path -> Forall plain words ->
  exists name, quoted_argv (join (ch " ") (path :: words)) = name :: words.
Proof.
  intros [Hp|(s & Hs & ->)] Hw.
  - exists path. unfold quoted_argv. rewrite bool_decide_false; [apply words_of_join; by constructor|].
    destruct Hp as [Hne Hp]. destruct path as [|c path]; [done|]. apply list.Forall_cons in Hp as [[_ Hc] _].
    destruct words; cbn; congruence.
  - exists s. unfold quoted_argv. assert (exists t, join (ch " ") (([QUOTE] ++ s ++ [QUOTE]) :: words) = QUOTE :: s ++ QUOTE :: t /\ words_of t = words) as (t & -> & Ht).
    { destruct words as [|w words].
      - exists []. done.
      - exists (ch " " :: join (ch " ") (w :: words)). split.
        + cbn [join]. cbn [app]. f_equal. by rewrite <- app_assoc.
        + rewrite <- (words_of_join (w :: words)) at 2 by done. done. }
    cbn [list.head]. rewrite bool_decide_true by done. cbn [drop]. rewrite drop_0. rewrite find_first by done.
    rewrite take_app_length, cons_middle, app_assoc. replace (S (length s)) with (length (s ++ [QUOTE])) by (rewrite length_app; cbn; lia).
    by rewrite drop_app_length, Ht.
Qed.

Definition sample_host (address name mac : bytes) : Host :=
  {| h_address := address; h_remoteAddress := []; h_hostname := name; h_mac := mac; h_favorites := []; h_endpoints := [] |}.
Definition desk : Host := sample_host (bs "10.0.0.5") (bs "desk") (bs "0a:1b:2c:3d:4e:5f").
Definition attic : Host := sample_host (bs "10.0.0.9") (bs "attic") [].


(** A request without a MAC matches every host without one: the forwarder of the
    second host starts the first. *)
Example empty_mac_starts_another_host :
  let other := sample_host (bs "10.0.0.7") (bs "cellar") [] in
  startFromArgs true [attic; other] (quoted_argv (forwarder_args (formatNroPathForForwarder (bs "/my apps/moonlight.nro")) other {| ap_name := bs "Game"; ap_id := 7 |})) =
  Some (true, Some (attic, {| ap_name := bs "Game"; ap_id := 7 |})).
Proof. vm_compute. reflexivity. Qed.

(** A MAC written with blanks is usable, and is cut where the arguments are. *)
Example blank_mac_is_cut :
  let host := sample_host (bs "10.0.0.5") (bs "desk") (bs "0a 1b 2c 3d 4e 5f") in
  is_usable_mac (h_mac host) = true /\
  startFromArgs true [host] (quoted_argv (forwarder_args (formatNroPathForForwarder (bs "/my apps/moonlight.nro")) host {| ap_name := bs "Game"; ap_id := 7 |})) = Some (false, None).
Proof. split; vm_compute; reflexivity. Qed.

(** A plus sign in a link, which the shortcuts leave as it is, is read as a blank. *)
Example plus_is_read_as_a_blank :
  parseDeepLinkUrl (launch_prefix ++ bs "ip=10.0.0.5&appid=7&appname=C++") =
  Some {| mac := []; ip := bs "10.0.0.5"; appId := bs "7"; appName := bs "C  " |}.
Proof. vm_compute. reflexivity. Qed.

(** The path of a forwarder is never empty, so that the test for an empty one
    refuses nothing. *)
Example forwarder_path_never_empty (path : bytes) : formatNroPathForForwarder path <> [].
Proof.
  unfold formatNroPathForForwarder. destruct (bool_decide _); [done|]. destruct (starts_with (bs "sdmc:") path) eqn:E; cbn [negb]; [|done].
  apply starts_with_take in E as [r ->]. done.
Qed.
