(* ===== verification/RomFs.v ===== *)
(** The RomFS images a forwarder holds ([forwarder_maker.cpp]): the growing buffer,
    the builder of the image, and the lookup of the console's file system, which
    finds every file. Memory is assumed to be available. *)

From S2P Require Import Prelude Bytes Text.

Definition IVFC_HASH_BLOCK_SIZE : Z := 0x4000.
Definition ROMFS_ENTRY_EMPTY : Z := 0xFFFFFFFF.
Definition ROMFS_FILEPARTITION_OFS : Z := 0x200.

(** ** The buffer *)

Definition zeros (n : Z) : bytes := replicate (Z.to_nat n) Init.Byte.x00.
Definition overwrite (at_ : Z) (data l : bytes) : bytes :=
  take (Z.to_nat at_) l ++ data ++ drop (Z.to_nat at_ + length data) l.

Record BufHelper := { buf : bytes; offset : Z }.
Definition no_buf : BufHelper := {| buf := []; offset := 0 |}.
Definition write (data : bytes) (b : BufHelper) : BufHelper :=
  let resized :=
    if zlen (buf b) <? offset b + zlen data then buf b ++ zeros (offset b + zlen data - zlen (buf b)) else buf b in
  {| buf := overwrite (offset b) data resized; offset := offset b + zlen data |}.
Definition seek (where_to : Z) (b : BufHelper) : BufHelper := {| buf := buf b; offset := where_to |}.
Definition tell (b : BufHelper) : Z := offset b.

Definition align32 (offset alignment : Z) : Z := Z.land (u32 (offset + (alignment - 1))) (Z.lxor (2 ^ 32 - 1) (alignment - 1)).
Definition align64 (offset alignment : Z) : Z := Z.land (u64 (offset + (alignment - 1))) (Z.lxor (2 ^ 64 - 1) (alignment - 1)).
Definition padding_size (off block : Z) : Z := block - off mod block.
Definition write_padding (off block : Z) (b : BufHelper) : Z * BufHelper :=
  let size := padding_size off block in
  (size, if negb (size =? 0) then write (zeros size) b else b).

(** ** Building *)

Record FileEntry := { name : bytes; data : bytes }.

Definition calcPathHash (parent : Z) (path : bytes) (start path_len : Z) : Z :=
  foldl (fun hash c => Z.lxor (Z.lor (Z.shiftr hash 5) (u32 (Z.shiftl hash 27))) (ub c)) (Z.lxor parent 123456789) (slice start path_len path).

(** The loop over the candidates; [None] when the fuel ends. *)
Definition small_factor (count : Z) : bool := existsb (fun p => count mod p =? 0) [2; 3; 5; 7; 11; 13; 17].
Fixpoint count_loop (fuel : nat) (count : Z) : option Z :=
  match fuel with
  | O => None
  | S k => if small_factor count then count_loop k (u32 (count + 1)) else Some count
  end.
Definition count_fuel : nat := Z.to_nat 510512.
Definition romfsGetHashTableCount (num_entries : Z) : option Z :=
  if num_entries <? 3 then Some 3
  else if num_entries <? 19 then Some (Z.lor num_entries 1)
  else count_loop count_fuel num_entries.

(** A file in the lists of the builder. The list of the directory and that of the
    whole image are the same one: there is a single directory. *)
Record RomfsFileContext := { entry_offset : Z; file_offset : Z; size : Z }.
Definition insert_second (s : Z) (l : list Z) : list Z := match l with [] => [s] | h :: t => h :: s :: t end.

(** What a name takes up in the table. *)
Definition name_size (e : FileEntry) : Z := u32 (zlen (name e) - 1).
Definition entry_size (e : FileEntry) : Z := 0x20 + align32 (name_size e) 4.

Record RomfsContext := { files : list Z; num_files : Z; file_table_size : Z }.
Definition no_files : RomfsContext := {| files := []; num_files := 0; file_table_size := 0 |}.
Definition visit_file (c : RomfsContext) (e : FileEntry) : RomfsContext :=
  {| files := insert_second (zlen (data e)) (files c); num_files := num_files c + 1; file_table_size := file_table_size c + entry_size e |}.
Definition romfsVisitDir (entries : list FileEntry) : RomfsContext := foldl visit_file no_files entries.

(** The first loop: the contexts in their own order get the places, and the end of
    the data is found. *)
Fixpoint layout (entries : list FileEntry) (sizes : list Z) (file_partition_size entry_off : Z) : list RomfsFileContext * Z :=
  match entries, sizes with
  | e :: entries, s :: sizes =>
      let start := align64 file_partition_size 0x10 in
      let '(l, finish) := layout entries sizes (start + s) (u32 (entry_off + entry_size e)) in
      ({| entry_offset := entry_off; file_offset := start; size := s |} :: l, finish)
  | _, _ => ([], file_partition_size)
  end.

(** [RomfsFileEntry], [RomfsDirEntry] and [RomfsHeader]. *)
Definition file_entry (parent sibling dataOff dataSize nextHash nameLen : Z) (nm : bytes) : bytes :=
  le_bytes 4 parent ++ le_bytes 4 sibling ++ le_bytes 8 dataOff ++ le_bytes 8 dataSize ++ le_bytes 4 nextHash ++ le_bytes 4 nameLen ++ nm.
Definition dir_entry (parent sibling childDir childFile nextHash nameLen : Z) : bytes :=
  le_bytes 4 parent ++ le_bytes 4 sibling ++ le_bytes 4 childDir ++ le_bytes 4 childFile ++ le_bytes 4 nextHash ++ le_bytes 4 nameLen.
Definition header (fields : list Z) : bytes := fields ≫= le_bytes 8.

Definition first_offset (l : list RomfsFileContext) : Z := match l with c :: _ => entry_offset c | [] => ROMFS_ENTRY_EMPTY end.

(** The loop over the files: the table, and the heads of the chains. *)
Fixpoint file_loop (count : Z) (entries : list FileEntry) (contexts : list RomfsFileContext) (heads : list Z) (table : bytes) : list Z * bytes :=
  match entries, contexts with
  | e :: entries, c :: contexts =>
      let hash := calcPathHash 0 (name e) 1 (name_size e) in
      let bucket := Z.to_nat (hash mod count) in
      let cur := file_entry 0 (first_offset contexts) (file_offset c) (size c) (nth bucket heads 0) (name_size e) (slice 1 (name_size e) (name e)) in
      file_loop count entries contexts (<[bucket := entry_offset c]> heads) (overwrite (entry_offset c) cur table)
  | _, _ => (heads, table)
  end.

Fixpoint write_files (entries : list FileEntry) (contexts : list RomfsFileContext) (b : BufHelper) : BufHelper :=
  match entries, contexts with
  | e :: entries, c :: contexts => write_files entries contexts (write (data e) (seek (file_offset c + ROMFS_FILEPARTITION_OFS) b))
  | _, _ => b
  end.

Definition DIR_TABLE_SIZE : Z := 24.
Definition table_bytes (t : list Z) : bytes := t ≫= le_bytes 4.

Definition buildRomfsIntoFile (entries : list FileEntry) (b : BufHelper) : option BufHelper :=
  let c := romfsVisitDir entries in
  dir_count ← romfsGetHashTableCount 1;
  file_count ← romfsGetHashTableCount (num_files c);
  let '(contexts, file_partition_size) := layout entries (files c) 0 0 in
  let '(file_hash_table, file_table) :=
    file_loop file_count entries contexts (replicate (Z.to_nat file_count) ROMFS_ENTRY_EMPTY) (zeros (file_table_size c)) in
  let dir_bucket := Z.to_nat (calcPathHash 0 [] 0 0 mod dir_count) in
  let empty_dirs := replicate (Z.to_nat dir_count) ROMFS_ENTRY_EMPTY in
  let dir_table := dir_entry 0 ROMFS_ENTRY_EMPTY ROMFS_ENTRY_EMPTY (first_offset contexts) (nth dir_bucket empty_dirs 0) 0 in
  let dir_hash_table := <[dir_bucket := 0]> empty_dirs in
  let dirHashTableOff := align64 (file_partition_size + ROMFS_FILEPARTITION_OFS) 4 in
  let dirTableOff := dirHashTableOff + 4 * dir_count in
  let fileHashTableOff := dirTableOff + DIR_TABLE_SIZE in
  let fileTableOff := fileHashTableOff + 4 * file_count in
  let b := write (header [80; dirHashTableOff; 4 * dir_count; dirTableOff; DIR_TABLE_SIZE; fileHashTableOff; 4 * file_count;
                          fileTableOff; file_table_size c; ROMFS_FILEPARTITION_OFS]) b in
  let b := write_files entries contexts b in
  Some (write file_table (write (table_bytes file_hash_table) (write dir_table (write (table_bytes dir_hash_table) (seek dirHashTableOff b))))).

(** The image with its padding, and its size without it. *)
Definition buildRomfs (entries : list FileEntry) : option (bytes * Z) :=
  b ← buildRomfsIntoFile entries no_buf;
  let b := seek (zlen (buf b)) b in
  Some (buf (write_padding (tell b) IVFC_HASH_BLOCK_SIZE b).2, tell b).

(** ** The lookup of the file system *)

(** A number of the image, and the hash of a name in the root directory: the hash is
    turned right by five bits before each character. *)
Definition get (n at_ : Z) (img : bytes) : Z := le_value (slice at_ n img).
Definition path_hash (nm : bytes) : Z :=
  foldl (fun hash c => Z.lxor (hash / 32 + hash mod 32 * 2 ^ 27) (ub c)) 123456789 nm.

(** The chain from an entry, and the lookup of a name in the root. *)
Fixpoint romfs_find (fuel : nat) (img : bytes) (off : Z) (nm : bytes) : option bytes :=
  match fuel with
  | O => None
  | S k =>
      if off =? ROMFS_ENTRY_EMPTY then None
      else
        let entry := get 8 56 img + off in
        if (get 4 entry img =? 0) && bool_decide (slice (entry + 32) (get 4 (entry + 28) img) img = nm)
        then Some (slice (get 8 72 img + get 8 (entry + 8) img) (get 8 (entry + 16) img) img)
        else romfs_find k img (get 4 (entry + 24) img) nm
  end.
Definition romfs_lookup (img : bytes) (nm : bytes) : option bytes :=
  romfs_find (length img) img (get 4 (get 8 40 img + 4 * (path_hash nm mod (get 8 48 img / 4))) img) nm.

(** The names of the root directory, along the siblings of its first file. *)
Fixpoint romfs_siblings (fuel : nat) (img : bytes) (off : Z) : list bytes :=
  match fuel with
  | O => []
  | S k =>
      if off =? ROMFS_ENTRY_EMPTY then []
      else
        let entry := get 8 56 img + off in
        slice (entry + 32) (get 4 (entry + 28) img) img :: romfs_siblings k img (get 4 (entry + 4) img)
  end.
Definition romfs_list (img : bytes) : list bytes := romfs_siblings (length img) img (get 4 (get 8 24 img + 12) img).

(** ** Facts *)

Lemma zlen_zeros n : 0 <= n -> zlen (zeros n) = n.
Proof. intros Hn. unfold zlen, zeros. rewrite length_replicate. lia. Qed.
Lemma zlen_le_bytes n v : zlen (le_bytes n v) = Z.of_nat n.
Proof. unfold zlen. by rewrite length_le_bytes. Qed.
Lemma zeros_app a b : 0 <= a -> 0 <= b -> zeros a ++ zeros b = zeros (a + b).
Proof. intros Ha Hb. unfold zeros. rewrite <- replicate_add. f_equal. lia. Qed.

Lemma overwrite_zeros done_ d r : zlen d <= r -> overwrite (zlen done_) d (done_ ++ zeros r) = done_ ++ d ++ zeros (r - zlen d).
Proof.
  intros Hd. unfold overwrite. rewrite to_nat_zlen, take_app_length. f_equal. f_equal.
  rewrite drop_app_ge by lia. unfold zeros. rewrite drop_replicate. f_equal. unfold zlen in *. lia.
Qed.
Lemma overwrite_end done_ d : overwrite (zlen done_) d done_ = done_ ++ d.
Proof. unfold overwrite. rewrite to_nat_zlen, take_ge by lia. rewrite drop_ge by lia. by rewrite app_nil_r. Qed.
Lemma write_end d b : zlen (buf b) <= offset b ->
  write d b = {| buf := buf b ++ zeros (offset b - zlen (buf b)) ++ d; offset := offset b + zlen d |}.
Proof.
  intros Hb. unfold write. f_equal. pose proof (zlen_nonneg d). destruct (Z.ltb_spec (zlen (buf b)) (offset b + zlen d)).
  - replace (zeros (offset b + zlen d - zlen (buf b))) with (zeros (offset b - zlen (buf b)) ++ zeros (zlen d)).
    2:{ rewrite zeros_app by lia. f_equal. lia. }
    rewrite app_assoc. replace (offset b) with (zlen (buf b ++ zeros (offset b - zlen (buf b)))) at 1 by (zl; rewrite zlen_zeros; lia).
    rewrite overwrite_zeros by lia. rewrite Z.sub_diag. unfold zeros at 2. cbn [replicate Z.to_nat]. by rewrite app_nil_r, <- app_assoc.
  - assert (d = []) as -> by (apply zlen_0; lia). rewrite zlen_nil in *. replace (offset b) with (zlen (buf b)) by lia.
    rewrite overwrite_end, Z.sub_diag. done.
Qed.
Lemma write_append d b : zlen (buf b) = offset b -> write d b = {| buf := buf b ++ d; offset := zlen (buf b ++ d) |}.
Proof. intros Hb. rewrite write_end by lia. rewrite Hb, Z.sub_diag. f_equal. zl. Qed.

(** Reading. *)
Lemma slice_at {A} (p m s : list A) a n : zlen p = a -> zlen m = n -> slice a n (p ++ m ++ s) = m.
Proof. intros <- <-. unfold slice. by rewrite !to_nat_zlen, drop_app_length, take_app_length. Qed.
Lemma slice_skip {A} (p l : list A) a n : 0 <= a -> slice (zlen p + a) n (p ++ l) = slice a n l.
Proof. intros Ha. unfold slice. f_equal. rewrite drop_app_ge by (unfold zlen; lia). f_equal. unfold zlen. lia. Qed.
Lemma slice_0 {A} a (l : list A) : slice a 0 l = [].
Proof. reflexivity. Qed.
Lemma get_skip p l a n : 0 <= a -> get n (zlen p + a) (p ++ l) = get n a l.
Proof. intros Ha. unfold get. by rewrite slice_skip. Qed.
Lemma get_le n v l : 0 <= v < 256 ^ Z.of_nat n -> get (Z.of_nat n) 0 (le_bytes n v ++ l) = v.
Proof.
  intros Hv. unfold get. rewrite (slice_at [] (le_bytes n v) l) by (done || apply zlen_le_bytes). by apply le_value_bytes.
Qed.
Lemma get_next n m v l a : Z.of_nat m <= a -> get n a (le_bytes m v ++ l) = get n (a - Z.of_nat m) l.
Proof.
  intros Ha. replace a with (zlen (le_bytes m v) + (a - Z.of_nat m)) at 1 by (rewrite zlen_le_bytes; lia). apply get_skip. lia.
Qed.
Lemma slice_next n m v l a : Z.of_nat m <= a -> slice a n (le_bytes m v ++ l) = slice (a - Z.of_nat m) n l.
Proof.
  intros Ha. replace a with (zlen (le_bytes m v) + (a - Z.of_nat m)) at 1 by (rewrite zlen_le_bytes; lia). apply slice_skip. lia.
Qed.

(** Rounding up. *)
Lemma land_clear y k w : 0 <= k <= w -> 0 <= y < 2 ^ w -> Z.land y (Z.lxor (2 ^ w - 1) (2 ^ k - 1)) = y / 2 ^ k * 2 ^ k.
Proof.
  intros Hk Hy. rewrite <- Z.shiftr_div_pow2, <- Z.shiftl_mul_pow2 by lia.
  replace (2 ^ w - 1) with (Z.ones w) by (rewrite Z.ones_equiv; lia). replace (2 ^ k - 1) with (Z.ones k) by (rewrite Z.ones_equiv; lia).
  apply Z.bits_inj'. intros n Hn. rewrite Z.land_spec, Z.lxor_spec, !Z.testbit_ones by lia.
  rewrite Z.shiftl_spec by lia. destruct (Z.ltb_spec n k).
  - rewrite (Z.testbit_neg_r _ (n - k)) by lia. rewrite !(proj2 (Z.ltb_lt _ _)), (proj2 (Z.leb_le 0 n)) by lia. by rewrite andb_false_r.
  - rewrite Z.shiftr_spec by lia. replace (n - k + k) with n by lia. rewrite (proj2 (Z.leb_le 0 n)) by lia. cbn [andb].
    destruct (Z.ltb_spec n w); [by rewrite andb_true_r|]. rewrite andb_false_r. symmetry.
    destruct (Z.eq_dec y 0) as [->|]; [apply Z.bits_0|]. apply Z.bits_above_log2; [lia|]. assert (Z.log2 y < w) by (apply Z.log2_lt_pow2; lia). lia.
Qed.
Lemma align32_bounds x : 0 <= x < 2 ^ 31 -> x <= align32 x 4 < x + 4.
Proof.
  intros Hx. unfold align32, u32. rewrite Z.mod_small by lia. replace (4 - 1) with (2 ^ 2 - 1) by done. rewrite land_clear by lia.
  pose proof (Z.div_mod (x + (2 ^ 2 - 1)) (2 ^ 2)). pose proof (Z.mod_pos_bound (x + (2 ^ 2 - 1)) (2 ^ 2)). lia.
Qed.
Lemma align64_bounds x k : 0 <= k <= 32 -> 0 <= x < 2 ^ 33 -> x <= align64 x (2 ^ k) < x + 2 ^ k.
Proof.
  intros Hk Hx. pose proof (Z.pow_pos_nonneg 2 k ltac:(lia) ltac:(lia)). pose proof (Z.pow_le_mono_r 2 k 32 ltac:(lia) ltac:(lia)).
  unfold align64, u64. rewrite Z.mod_small by lia. rewrite land_clear by lia.
  pose proof (Z.div_mod (x + (2 ^ k - 1)) (2 ^ k)). pose proof (Z.mod_pos_bound (x + (2 ^ k - 1)) (2 ^ k)). lia.
Qed.

(** The hash of the code is the hash of the lookup. *)
Lemma rotate h : 0 <= h < 2 ^ 32 -> Z.lor (Z.shiftr h 5) (u32 (Z.shiftl h 27)) = h / 32 + h mod 32 * 2 ^ 27.
Proof.
  intros Hh. rewrite Z.shiftr_div_pow2, Z.shiftl_mul_pow2 by lia. change (2 ^ 5) with 32. unfold u32.
  assert ((h * 2 ^ 27) mod 2 ^ 32 = h mod 32 * 2 ^ 27) as ->.
  { change (2 ^ 32) with (32 * 2 ^ 27). by rewrite Z.mul_mod_distr_r. }
  rewrite Z.lor_comm, <- Z.shiftl_mul_pow2 by lia. rewrite lor_shiftl_add; [rewrite Z.shiftl_mul_pow2 by lia; lia|lia|].
  split; [apply Z.div_pos; lia|]. apply Z.div_lt_upper_bound; lia.
Qed.
Lemma hash_range nm : forall h, 0 <= h < 2 ^ 32 ->
  foldl (fun hash c => Z.lxor (Z.lor (Z.shiftr hash 5) (u32 (Z.shiftl hash 27))) (ub c)) h nm =
  foldl (fun hash c => Z.lxor (hash / 32 + hash mod 32 * 2 ^ 27) (ub c)) h nm /\
  0 <= foldl (fun hash c => Z.lxor (hash / 32 + hash mod 32 * 2 ^ 27) (ub c)) h nm < 2 ^ 32.
Proof.
  induction nm as [|c nm IH]; intros h Hh; [by split|]. cbn [foldl]. rewrite rotate by done. apply IH.
  apply lxor_range; [lia| |pose proof (ub_range c); lia].
  pose proof (Z.mod_pos_bound h 32 ltac:(lia)). assert (0 <= h / 32 < 2 ^ 27) by (split; [apply Z.div_pos; lia|apply Z.div_lt_upper_bound; lia]). lia.
Qed.
Lemma calcPathHash_spec e : zlen (name e) < 2 ^ 31 -> name e <> [] -> calcPathHash 0 (name e) 1 (name_size e) = path_hash (drop 1 (name e)).
Proof.
  intros Hl Hne. unfold calcPathHash. change (Z.lxor 0 123456789) with 123456789. rewrite (proj1 (hash_range _ 123456789 ltac:(lia))).
  unfold path_hash. f_equal. unfold slice, name_size, u32. destruct (name e) as [|c l]; [done|]. zl. pose proof (zlen_nonneg l).
  rewrite Z.mod_small by lia. change (Z.to_nat 1) with 1%nat. cbn [drop]. rewrite !drop_0. rewrite take_ge; [done|]. unfold zlen. lia.
Qed.
Lemma path_hash_range nm : 0 <= path_hash nm.
Proof. apply (hash_range nm 123456789). lia. Qed.

(** ** The table of files *)

(** What the two loops put together for a file. *)
Record Item := { it_off : Z; it_name : bytes; it_sib : Z; it_next : Z; it_data : Z; it_size : Z }.
Definition item_bytes (it : Item) : bytes :=
  file_entry 0 (it_sib it) (it_data it) (it_size it) (it_next it) (zlen (it_name it)) (it_name it) ++
  zeros (align32 (zlen (it_name it)) 4 - zlen (it_name it)).
Definition item_ok (it : Item) : Prop :=
  0 <= it_off it < 2 ^ 31 /\ 0 <= it_sib it < 2 ^ 32 /\ 0 <= it_next it < 2 ^ 32 /\ 0 <= it_data it < 2 ^ 31 /\ 0 <= it_size it < 2 ^ 31 /\
  zlen (it_name it) < 2 ^ 31.

Lemma zlen_file_entry a b c d e f nm : zlen (file_entry a b c d e f nm) = 32 + zlen nm.
Proof. unfold file_entry. zl. rewrite !zlen_le_bytes. lia. Qed.
Lemma zlen_item it : zlen (it_name it) < 2 ^ 31 -> zlen (item_bytes it) = 32 + align32 (zlen (it_name it)) 4.
Proof.
  intros Hn. unfold item_bytes. zl. rewrite zlen_file_entry. pose proof (zlen_nonneg (it_name it)).
  pose proof (align32_bounds (zlen (it_name it)) ltac:(lia)). rewrite zlen_zeros; lia.
Qed.

(** An entry's fields, wherever it is. *)
Lemma item_fields it p s : item_ok it ->
  get 4 (zlen p) (p ++ item_bytes it ++ s) = 0 /\ get 4 (zlen p + 4) (p ++ item_bytes it ++ s) = it_sib it /\
  get 8 (zlen p + 8) (p ++ item_bytes it ++ s) = it_data it /\ get 8 (zlen p + 16) (p ++ item_bytes it ++ s) = it_size it /\
  get 4 (zlen p + 24) (p ++ item_bytes it ++ s) = it_next it /\ get 4 (zlen p + 28) (p ++ item_bytes it ++ s) = zlen (it_name it) /\
  slice (zlen p + 32) (zlen (it_name it)) (p ++ item_bytes it ++ s) = it_name it.
Proof.
  intros (Ho & Hs & Hn & Hd & Hz & Hl). pose proof (zlen_nonneg (it_name it)).
  replace (zlen p) with (zlen p + 0) at 1 by lia. rewrite !get_skip, slice_skip by lia.
  unfold item_bytes, file_entry. rewrite <- !app_assoc.
  assert (forall n v l, 0 <= v < 256 ^ 4 -> n = 4%nat -> get 4 0 (le_bytes n v ++ l) = v) as G4 by (intros ? ? ? ? ->; by apply (get_le 4)).
  assert (forall n v l, 0 <= v < 256 ^ 8 -> n = 8%nat -> get 8 0 (le_bytes n v ++ l) = v) as G8 by (intros ? ? ? ? ->; by apply (get_le 8)).
  repeat split; repeat (rewrite get_next by (cbn; lia); match goal with |- context [?a - Z.of_nat ?n] => let v := eval cbn in (a - Z.of_nat n) in change (a - Z.of_nat n) with v end);
    try (apply G4; [lia|done]); try (apply G8; [lia|done]).
  repeat (rewrite slice_next by (cbn; lia); match goal with |- context [?a - Z.of_nat ?n] => let v := eval cbn in (a - Z.of_nat n) in change (a - Z.of_nat n) with v end).
  by apply (slice_at []).
Qed.

(** The chains of the hash table, the latest file first. *)
Section chains.
Context (count : Z).
Context (count_pos : 0 < count).

Definition bucket (nm : bytes) : Z := path_hash nm mod count.
Fixpoint head_of (b : Z) (ritems : list Item) : Z :=
  match ritems with [] => ROMFS_ENTRY_EMPTY | it :: r => if bucket (it_name it) =? b then it_off it else head_of b r end.
Fixpoint linked (ritems : list Item) : Prop :=
  match ritems with [] => True | it :: r => it_next it = head_of (bucket (it_name it)) r /\ linked r end.
Definition heads_are (heads : list Z) (ritems : list Item) : Prop :=
  zlen heads = count /\ forall b, 0 <= b < count -> nth (Z.to_nat b) heads 0 = head_of b ritems.

Lemma bucket_range nm : 0 <= bucket nm < count.
Proof using count_pos. apply Z.mod_pos_bound. done. Qed.

(** What the loop makes of the entries. *)
Fixpoint items_of (entries : list FileEntry) (contexts : list RomfsFileContext) (ritems : list Item) : list Item :=
  match entries, contexts with
  | e :: entries, c :: contexts =>
      let nm := drop 1 (name e) in
      let it := {| it_off := entry_offset c; it_name := nm; it_sib := first_offset contexts; it_next := head_of (bucket nm) ritems;
                   it_data := file_offset c; it_size := size c |} in
      it :: items_of entries contexts (it :: ritems)
  | _, _ => []
  end.
Lemma items_linked entries : forall contexts ritems, linked ritems -> linked (reverse (items_of entries contexts ritems) ++ ritems).
Proof using.
  induction entries as [|e entries IH]; intros [|c contexts] ritems Hr; try done. cbn [items_of]. rewrite reverse_cons, <- app_assoc.
  apply IH. by split.
Qed.

(** The entries lie one behind the other. *)
Fixpoint placed (entries : list FileEntry) (contexts : list RomfsFileContext) (part off finish : Z) : Prop :=
  match entries, contexts with
  | [], [] => part = finish
  | e :: entries, c :: contexts =>
      entry_offset c = off /\ part <= file_offset c /\ size c = zlen (data e) /\
      placed entries contexts (file_offset c + size c) (off + entry_size e) finish
  | _, _ => False
  end.
Definition table_size (entries : list FileEntry) : Z := foldr (fun e n => entry_size e + n) 0 entries.
Definition total (entries : list FileEntry) : Z := foldr (fun e n => zlen (name e) + zlen (data e) + 64 + n) 0 entries.
Definition named (e : FileEntry) : Prop := exists c nm, name e = c :: nm.

Lemma total_nonneg entries : 0 <= total entries.
Proof using. induction entries as [|e l IH]; cbn [total foldr]; [lia|]. fold (total l). pose proof (zlen_nonneg (name e)). pose proof (zlen_nonneg (data e)). lia. Qed.
Lemma name_size_spec e : named e -> zlen (name e) < 2 ^ 31 -> name_size e = zlen (drop 1 (name e)).
Proof using. intros (c & nm & E) Hl. unfold name_size, u32. rewrite E in *. cbn [drop]. rewrite drop_0. zl. pose proof (zlen_nonneg nm). rewrite Z.mod_small; lia. Qed.
Lemma entry_size_bounds e : named e -> zlen (name e) < 2 ^ 31 -> 32 <= entry_size e <= zlen (name e) + 35.
Proof using.
  intros He Hl. unfold entry_size. rewrite name_size_spec by done. destruct He as (c & nm & E). rewrite E in *. cbn [drop]. rewrite drop_0. zl.
  pose proof (zlen_nonneg nm). pose proof (align32_bounds (zlen nm) ltac:(lia)). lia.
Qed.

Lemma layout_placed entries : forall part off, Forall named entries -> 0 <= part -> 0 <= off -> part + total entries < 2 ^ 31 -> off + total entries < 2 ^ 31 ->
  exists contexts finish, layout entries ((fun e => zlen (data e)) <$> entries) part off = (contexts, finish) /\
    placed entries contexts part off finish /\ part <= finish <= part + total entries.
Proof using.
  induction entries as [|e entries IH]; intros part off Hn Hp Ho H1 H2; [exists [], part; repeat split; cbn; lia|].
  apply list.Forall_cons in Hn as [He Hn]. cbn [total foldr] in H1, H2. fold (total entries) in H1, H2.
  pose proof (total_nonneg entries). pose proof (zlen_nonneg (name e)). pose proof (zlen_nonneg (data e)).
  pose proof (entry_size_bounds e He ltac:(lia)). pose proof (align64_bounds part 4 ltac:(lia) ltac:(lia)) as Ha. change (2 ^ 4) with 0x10 in Ha.
  rewrite fmap_cons. cbn [layout]. unfold u32. rewrite Z.mod_small by lia.
  destruct (IH (align64 part 0x10 + zlen (data e)) (off + entry_size e) Hn) as (cs & fin & E & Hpl & Hf); [lia..|].
  rewrite E. eexists _, fin. split; [done|]. cbn [placed entry_offset file_offset size total foldr]. fold (total entries).
  split_and!; [done|lia|done|exact Hpl|lia|lia].
Qed.

Lemma file_loop_items entries : forall contexts part off finish heads ritems done_ r, Forall named entries ->
  placed entries contexts part off finish -> zlen done_ = off -> table_size entries <= r -> total entries < 2 ^ 31 -> heads_are heads ritems ->
  exists heads', file_loop count entries contexts heads (done_ ++ zeros r) =
    (heads', done_ ++ (items_of entries contexts ritems ≫= item_bytes) ++ zeros (r - table_size entries)) /\
    heads_are heads' (reverse (items_of entries contexts ritems) ++ ritems).
Proof using count_pos.
  induction entries as [|e entries IH]; intros [|c contexts] part off finish heads ritems dn r Hn Hp Hd Hr Ht Hh; try done.
  { exists heads. cbn. by rewrite Z.sub_0_r. }
  apply list.Forall_cons in Hn as [He Hn]. destruct Hp as (Hoff & _ & Hsz & Hp). cbn [total foldr] in Ht. fold (total entries) in Ht.
  cbn [table_size foldr] in Hr. fold (table_size entries) in Hr.
  assert (0 <= table_size entries) as Hts.
  { assert (Forall (fun e => zlen (name e) < 2 ^ 31) entries) as Hsmall.
    { pose proof (zlen_nonneg (name e)). pose proof (zlen_nonneg (data e)). assert (total entries < 2 ^ 31) as Hx by lia. clear -Hx.
      induction entries as [|x l IHl]; [constructor|]. cbn [total foldr] in Hx. fold (total l) in Hx. pose proof (total_nonneg l).
      pose proof (zlen_nonneg (name x)). pose proof (zlen_nonneg (data x)). constructor; [lia|apply IHl; lia]. }
    clear -Hn Hsmall. induction Hn as [|x l Hx _ IHl]; cbn [table_size foldr]; [lia|]. fold (table_size l).
    apply list.Forall_cons in Hsmall as [Hs Hsmall]. pose proof (entry_size_bounds x Hx Hs). specialize (IHl Hsmall). lia. }
  pose proof (total_nonneg entries). pose proof (zlen_nonneg (name e)). pose proof (zlen_nonneg (data e)).
  pose proof (name_size_spec e He ltac:(lia)) as Hns.
  cbn [file_loop items_of]. rewrite calcPathHash_spec; [|lia|by destruct He as (? & ? & ->)].
  fold (bucket (drop 1 (name e))). set (nm := drop 1 (name e)) in *.
  assert (slice 1 (name_size e) (name e) = nm) as ->.
  { unfold slice. change (Z.to_nat 1) with 1%nat. fold nm. rewrite take_ge; [done|]. rewrite Hns, to_nat_zlen. done. }
  destruct Hh as [Hlen Hh]. rewrite (Hh _ (bucket_range nm)).
  set (it := {| it_off := entry_offset c; it_name := nm; it_sib := first_offset contexts; it_next := head_of (bucket nm) ritems;
                it_data := file_offset c; it_size := size c |}).
  assert (zlen (item_bytes it) = entry_size e) as Hit.
  { rewrite zlen_item; [unfold entry_size; rewrite Hns; done|]. cbn [it_name it]. unfold nm. destruct He as (c0 & nm0 & E). rewrite E in *. cbn [drop]. rewrite drop_0. zl. }
  rewrite Hns, Hoff, <- Hd. rewrite overwrite_zeros.
  2:{ rewrite zlen_file_entry. pose proof (zlen_item it). unfold item_bytes in Hit. autorewrite with zlen in Hit. rewrite zlen_file_entry in Hit.
      cbn [it_name it] in Hit. pose proof (zlen_nonneg (zeros (align32 (zlen nm) 4 - zlen nm))). lia. }
  replace (dn ++ file_entry 0 (first_offset contexts) (file_offset c) (size c) (head_of (bucket nm) ritems) (zlen nm) nm ++
     zeros (r - zlen (file_entry 0 (first_offset contexts) (file_offset c) (size c) (head_of (bucket nm) ritems) (zlen nm) nm)))
    with ((dn ++ item_bytes it) ++ zeros (r - entry_size e)).
  2:{ rewrite <- Hit. unfold item_bytes. cbn [it_name it_sib it_next it_data it_size it]. rewrite <- !app_assoc. do 2 f_equal.
      pose proof (zlen_nonneg nm). assert (zlen nm < 2 ^ 31) as Hnm.
      { unfold nm. destruct He as (c0 & nm0 & E). rewrite E in *. cbn [drop]. rewrite drop_0. zl. }
      pose proof (align32_bounds (zlen nm) ltac:(lia)). rewrite <- Hit in Hr. rewrite zlen_item in Hr by done. cbn [it_name it] in Hr.
      zl. rewrite zlen_file_entry, zlen_zeros by lia. rewrite zeros_app by lia. f_equal. lia. }
  destruct (IH contexts _ _ _ (<[Z.to_nat (bucket nm) := entry_offset c]> heads) (it :: ritems) (dn ++ item_bytes it) (r - entry_size e) Hn Hp)
    as (heads' & E & Hheads); [zl; lia|lia|lia| |].
  - split; [unfold zlen in *; by rewrite length_insert|]. intros b Hb. cbn [head_of it_name it_off it]. pose proof (bucket_range nm).
    unfold zlen in Hlen. destruct (Z.eqb_spec (bucket nm) b) as [<-|Hne]; rewrite nth_lookup.
    + rewrite list_lookup_insert_eq by lia. done.
    + rewrite list_lookup_insert_ne by lia. rewrite <- nth_lookup. by apply Hh.
  - exists heads'. rewrite Hoff in E. rewrite Hd, E. split; [|by rewrite reverse_cons, <- app_assoc].
    f_equal. rewrite bind_cons, <- !app_assoc. do 4 f_equal. cbn [table_size foldr]. fold (table_size entries). lia.
Qed.
End chains.

(** ** Finding *)

Section finding.
Context (count : Z).
Context (count_pos : 0 < count).
Implicit Types (items ritems : list Item).

Lemma placed_le entries : forall contexts part off finish, placed entries contexts part off finish -> part <= finish.
Proof using.
  induction entries as [|e entries IH]; intros [|c contexts] part off finish Hp; cbn [placed] in Hp; try done; [lia|].
  destruct Hp as (_ & Hp & Hs & Hr). apply IH in Hr. pose proof (zlen_nonneg (data e)). lia.
Qed.
Lemma head_of_range b ritems : Forall (fun it => 0 <= it_off it < 2 ^ 31) ritems -> 0 <= head_of count b ritems < 2 ^ 32.
Proof using. induction 1 as [|it r Hi _ IH]; cbn [head_of]; [unfold ROMFS_ENTRY_EMPTY; lia|]. destruct (_ =? _); [lia|done]. Qed.

Lemma items_ok entries : forall contexts part off finish ritems, Forall named entries -> placed entries contexts part off finish ->
  0 <= part -> 0 <= off -> off + total entries < 2 ^ 31 -> finish < 2 ^ 31 -> Forall (fun it => 0 <= it_off it < 2 ^ 31) ritems ->
  Forall item_ok (items_of count entries contexts ritems).
Proof using.
  induction entries as [|e entries IH]; intros [|c contexts] part off finish ritems Hn Hp H1 H2 H3 H4 Hr; try done.
  apply list.Forall_cons in Hn as [He Hn]. destruct Hp as (Hoff & Hpart & Hs & Hp). cbn [total foldr] in H3. fold (total entries) in H3.
  pose proof (total_nonneg entries). pose proof (zlen_nonneg (name e)). pose proof (zlen_nonneg (data e)). pose proof (placed_le _ _ _ _ _ Hp).
  pose proof (entry_size_bounds e He ltac:(lia)). cbn [items_of]. constructor.
  - pose proof (head_of_range (bucket count (drop 1 (name e))) ritems Hr). destruct He as (c0 & nm & E). rewrite E in *. change (drop 1 (c0 :: nm)) with nm in *. autorewrite with zlen in *.
    unfold item_ok. cbn [it_off it_name it_sib it_next it_data it_size]. split_and!; try lia.
    destruct contexts as [|c' contexts]; cbn [first_offset]; [unfold ROMFS_ENTRY_EMPTY; lia|]. destruct entries; [done|]. destruct Hp as (-> & _). lia.
    destruct contexts as [|c' contexts]; cbn [first_offset]; [unfold ROMFS_ENTRY_EMPTY; lia|]. destruct entries; [done|]. destruct Hp as (-> & _). lia.
  - eapply IH; try done; [lia|lia|lia|]. constructor; [|done]. cbn [it_off]. lia.
Qed.

(** Each item is in the table where its offset says. *)
Lemma items_placed entries : forall contexts part off finish ritems, Forall named entries -> placed entries contexts part off finish -> total entries < 2 ^ 31 ->
  Forall (fun it => exists p s, items_of count entries contexts ritems ≫= item_bytes = p ++ item_bytes it ++ s /\ off + zlen p = it_off it)
    (items_of count entries contexts ritems).
Proof using.
  induction entries as [|e entries IH]; intros [|c contexts] part off finish ritems Hn Hp Ht; try done.
  apply list.Forall_cons in Hn as [He Hn]. destruct Hp as (Hoff & _ & _ & Hp). cbn [total foldr] in Ht. fold (total entries) in Ht.
  pose proof (total_nonneg entries). pose proof (zlen_nonneg (name e)). pose proof (zlen_nonneg (data e)). pose proof (name_size_spec e He ltac:(lia)) as Hns.
  cbn [items_of]. set (it := {| it_off := _ |}). rewrite bind_cons. constructor.
  - exists [], (items_of count entries contexts (it :: ritems) ≫= item_bytes). split; [done|]. rewrite zlen_nil. cbn [it_off it]. lia.
  - eapply list.Forall_impl; [by eapply IH; [| |lia]|]. intros x (p & s & E & Hx). exists (item_bytes it ++ p), s. split; [by rewrite E, <- app_assoc|].
    zl. rewrite zlen_item.
    + cbn [it_name it]. unfold entry_size in Hx. rewrite Hns in Hx. lia.
    + cbn [it_name it]. destruct He as (c0 & nm0 & E0). rewrite E0 in *. cbn [drop]. rewrite drop_0. zl.
Qed.

Lemma zlen_items entries : forall contexts part off finish ritems, Forall named entries -> placed entries contexts part off finish -> total entries < 2 ^ 31 ->
  zlen (items_of count entries contexts ritems ≫= item_bytes) = table_size entries.
Proof using.
  induction entries as [|e entries IH]; intros [|c contexts] part off finish ritems Hn Hp Ht; try done.
  apply list.Forall_cons in Hn as [He Hn]. destruct Hp as (_ & _ & _ & Hp). cbn [total foldr] in Ht. fold (total entries) in Ht.
  pose proof (total_nonneg entries). pose proof (zlen_nonneg (name e)). pose proof (zlen_nonneg (data e)). pose proof (name_size_spec e He ltac:(lia)) as Hns.
  cbn [items_of table_size foldr]. fold (table_size entries). rewrite bind_cons. zl. rewrite (IH _ _ _ _ _ Hn Hp) by lia. rewrite zlen_item; cbn [it_name].
  - unfold entry_size. rewrite Hns. lia.
  - destruct He as (c0 & nm0 & E0). rewrite E0 in *. cbn [drop]. rewrite drop_0. zl.
Qed.

(** An image whose file table, wherever it starts, holds the items. *)
Definition holds img items : Prop :=
  Forall (fun it => let entry := get 8 56 img + it_off it in
    0 <= it_off it < 2 ^ 31 /\ get 4 entry img = 0 /\ get 4 (entry + 4) img = it_sib it /\ get 8 (entry + 8) img = it_data it /\
    get 8 (entry + 16) img = it_size it /\ get 4 (entry + 24) img = it_next it /\
    slice (entry + 32) (get 4 (entry + 28) img) img = it_name it) items.
Lemma holds_items img items pre post : img = pre ++ (items ≫= item_bytes) ++ post -> zlen pre = get 8 56 img -> Forall item_ok items ->
  Forall (fun it => exists p s, items ≫= item_bytes = p ++ item_bytes it ++ s /\ 0 + zlen p = it_off it) items -> holds img items.
Proof using.
  intros -> Hpre Hok Hpl. unfold holds. rewrite <- Hpre. rewrite list.Forall_forall in Hok, Hpl |- *. intros it Hit.
  specialize (Hok it Hit). destruct (Hpl it Hit) as (p & s & E & Ho). rewrite E. cbv zeta.
  replace (pre ++ (p ++ item_bytes it ++ s) ++ post) with ((pre ++ p) ++ item_bytes it ++ (s ++ post)) by by rewrite <- !app_assoc.
  replace (zlen pre + it_off it) with (zlen (pre ++ p)) by zl.
  destruct (item_fields it (pre ++ p) (s ++ post) Hok) as (H1 & H2 & H3 & H4 & H5 & H6 & H7). rewrite H6. split_and!; try done; apply Hok.
Qed.

Definition payload img (it : Item) : bytes := slice (get 8 72 img + it_data it) (it_size it) img.
Lemma find_chain img ritems : holds img ritems -> linked count ritems -> forall nm fuel, (length ritems < fuel)%nat ->
  romfs_find fuel img (head_of count (bucket count nm) ritems) nm = payload img <$> List.find (fun it => bool_decide (it_name it = nm)) ritems.
Proof using.
  induction 1 as [|it ritems Hit _ IH]; intros Hl nm fuel Hf; [by destruct fuel; [lia|]|]. destruct Hl as [Hnext Hl]. cbn [head_of List.find].
  destruct (Z.eqb_spec (bucket count (it_name it)) (bucket count nm)) as [Eb|Hb].
  - destruct fuel as [|k]; [cbn in Hf; lia|]. cbn [romfs_find]. destruct Hit as (Ho & H1 & _ & H3 & H4 & H5 & H6).
    rewrite (proj2 (Z.eqb_neq _ _)) by (unfold ROMFS_ENTRY_EMPTY; lia). rewrite H1, H3, H4, H5, H6. cbn [Z.eqb andb].
    destruct (bool_decide (it_name it = nm)); [done|]. rewrite Hnext, Eb. apply IH; [done|]. cbn in Hf. lia.
  - rewrite bool_decide_false by (intros E; by rewrite E in Hb). apply IH; [done|]. cbn in Hf. lia.
Qed.

(** The siblings are the items in their order. *)
Lemma siblings_listed img entries : forall contexts part off finish ritems fuel, placed entries contexts part off finish ->
  holds img (items_of count entries contexts ritems) -> (length entries < fuel)%nat ->
  romfs_siblings fuel img (first_offset contexts) = (fun e => drop 1 (name e)) <$> entries.
Proof using.
  induction entries as [|e entries IH]; intros [|c contexts] part off finish ritems fuel Hp Hh Hf; try done; [by destruct fuel|].
  destruct fuel as [|k]; [cbn in Hf; lia|]. cbn [items_of] in Hh. apply list.Forall_cons in Hh as [Hc Hh]. cbv zeta in Hc.
  cbn [it_off it_name it_sib] in Hc. destruct Hc as (Ho & _ & H2 & _ & _ & _ & H6).
  cbn [romfs_siblings first_offset]. rewrite (proj2 (Z.eqb_neq _ _)) by (unfold ROMFS_ENTRY_EMPTY; lia). rewrite H2, H6, fmap_cons. f_equal.
  destruct Hp as (_ & _ & _ & Hp). eapply IH; [exact Hp|exact Hh|cbn in Hf; lia].
Qed.

(** The data is where the items say. *)
Lemma write_files_spec entries : forall contexts part off finish ritems b, placed entries contexts part off finish -> 0 <= part ->
  zlen (buf b) <= part + ROMFS_FILEPARTITION_OFS ->
  exists tail, buf (write_files entries contexts b) = buf b ++ tail /\
    zlen (buf (write_files entries contexts b)) <= finish + ROMFS_FILEPARTITION_OFS /\
    Forall2 (fun e it => it_name it = drop 1 (name e) /\ (forall rest,
      slice (ROMFS_FILEPARTITION_OFS + it_data it) (it_size it) (buf (write_files entries contexts b) ++ rest) = data e))
      entries (items_of count entries contexts ritems).
Proof using.
  induction entries as [|e entries IH]; intros [|c contexts] part off finish ritems b Hp H0 Hb; try done.
  - exists []. cbn [placed] in Hp. cbn [write_files items_of]. split_and!; [by rewrite app_nil_r|lia|constructor].
  - destruct Hp as (_ & Hpart & Hs & Hp). cbn [write_files]. pose proof (zlen_nonneg (data e)).
    rewrite write_end by (cbn [buf offset seek]; lia). cbn [buf offset seek].
    set (b' := {| buf := _; offset := _ |}). cbn [items_of]. set (it := {| it_off := _ |}).
    assert (zlen (buf b') = file_offset c + ROMFS_FILEPARTITION_OFS + zlen (data e)) as Hlen.
    { cbn [buf b']. zl. rewrite zlen_zeros by lia. lia. }
    destruct (IH contexts _ _ _ (it :: ritems) b' Hp) as (tail & E & Hl & HF); [lia|lia|].
    eexists. split; [rewrite E; cbn [buf b']; by rewrite <- app_assoc|]. split; [done|]. constructor; [|done].
    cbn [it_name it_data it_size it]. split; [done|]. intros rest. rewrite E. cbn [buf b']. rewrite <- !app_assoc.
    rewrite app_assoc. apply slice_at; [|done]. zl. rewrite zlen_zeros; lia.
Qed.
End finding.

(** ** The image *)

(** A list of numbers of [n] bytes each. *)
Lemma get_number n l s i : 0 <= i < zlen l -> Forall (fun v => 0 <= v < 256 ^ Z.of_nat n) l ->
  get (Z.of_nat n) (Z.of_nat n * i) ((l ≫= le_bytes n) ++ s) = nth (Z.to_nat i) l 0.
Proof.
  intros Hi Hl. revert i Hi. induction Hl as [|v l Hv Hl IH]; intros i Hi; [unfold zlen in Hi; cbn in Hi; lia|].
  rewrite bind_cons, <- app_assoc. destruct (Z.eq_dec i 0) as [->|Hne]; [rewrite Z.mul_0_r; by apply get_le|].
  rewrite get_next by nia. replace (Z.of_nat n * i - Z.of_nat n) with (Z.of_nat n * (i - 1)) by lia.
  rewrite IH by (zl). replace (Z.to_nat i) with (S (Z.to_nat (i - 1))) by lia. done.
Qed.
Lemma zlen_numbers n l : zlen (l ≫= le_bytes n) = Z.of_nat n * zlen l.
Proof. induction l as [|v l IH]; [unfold zlen; cbn; lia|]. rewrite bind_cons. zl. rewrite zlen_le_bytes, IH. lia. Qed.

Lemma length_items items : Forall item_ok items -> 32 * zlen items <= zlen (items ≫= item_bytes).
Proof.
  induction 1 as [|it items Hi _ IH]; [done|]. rewrite bind_cons. zl. destruct Hi as (_ & _ & _ & _ & _ & Hl).
  rewrite zlen_item by done. pose proof (zlen_nonneg (it_name it)). pose proof (align32_bounds (zlen (it_name it)) ltac:(lia)). lia.
Qed.
Lemma head_nil count b : head_of count b [] = ROMFS_ENTRY_EMPTY. Proof. done. Qed.

Lemma find_data {A B C} (es : list A) (its : list B) (f : A -> bytes) (g : B -> bytes) (v : A -> C) (w : B -> C) nm :
  Forall2 (fun e it => g it = f e /\ w it = v e) es its ->
  w <$> List.find (fun it => bool_decide (g it = nm)) its = v <$> List.find (fun e => bool_decide (f e = nm)) es.
Proof.
  induction 1 as [|e it es its [Hn Hd] _ IH]; [done|]. cbn [List.find]. rewrite Hn. destruct (bool_decide _); [|done]. cbn. by rewrite Hd.
Qed.

(** The image of entries whose sizes the builder has in their order. *)
Section image.
Context (entries : list FileEntry) (count : Z).
Context (sizes_in_order : files (romfsVisitDir entries) = (fun e => zlen (data e)) <$> entries).
Context (count_is : romfsGetHashTableCount (num_files (romfsVisitDir entries)) = Some count).
Context (count_small : 0 < count < 2 ^ 20).
Context (named_entries : Forall named entries).
Context (small : total entries < 2 ^ 30).

Lemma visited_table_size l c : file_table_size (foldl visit_file c l) = file_table_size c + table_size l.
Proof using. revert c. induction l as [|e l IH]; intros c; cbn [foldl table_size foldr]; [lia|]. rewrite IH. cbn [visit_file file_table_size]. fold (table_size l). lia. Qed.

Lemma table_size_bounds l : Forall named l -> total l < 2 ^ 31 -> 0 <= table_size l <= total l.
Proof using.
  induction 1 as [|e l He _ IH]; intros Ht; [cbn; lia|]. cbn [total foldr table_size] in *. fold (total l) (table_size l) in *.
  pose proof (total_nonneg l). pose proof (zlen_nonneg (name e)). pose proof (zlen_nonneg (data e)). pose proof (entry_size_bounds e He ltac:(lia)). lia.
Qed.

(** Its parts. *)
Lemma image_parts : exists contexts finish B dht dt heads z,
  let items := items_of count entries contexts [] in
  let dirOff := zlen B + z in
  let img := B ++ zeros z ++ dht ++ dt ++ table_bytes heads ++ (items ≫= item_bytes) in
  buildRomfsIntoFile entries no_buf = Some {| buf := img; offset := zlen img |} /\
  placed entries contexts 0 0 finish /\ finish <= total entries /\ 0 <= z /\ dirOff < finish + 516 /\ zlen dht = 12 /\
  dt = dir_entry 0 ROMFS_ENTRY_EMPTY ROMFS_ENTRY_EMPTY (first_offset contexts) ROMFS_ENTRY_EMPTY 0 /\
  heads_are count heads (reverse items) /\
  (exists rest, B = header [80; dirOff; 12; dirOff + 12; 24; dirOff + 36; 4 * count; dirOff + 36 + 4 * count; table_size entries; ROMFS_FILEPARTITION_OFS] ++ rest) /\
  Forall2 (fun e it => it_name it = drop 1 (name e) /\ forall rest, slice (ROMFS_FILEPARTITION_OFS + it_data it) (it_size it) (B ++ rest) = data e) entries items.
Proof using sizes_in_order count_is count_small named_entries small.
  pose proof (total_nonneg entries) as Ht.
  destruct (layout_placed entries 0 0 named_entries) as (contexts & finish & El & Hp & Hf); [lia..|].
  assert (heads_are count (replicate (Z.to_nat count) ROMFS_ENTRY_EMPTY) []) as Hh0.
  { split; [unfold zlen; rewrite length_replicate; lia|]. intros b Hb. rewrite head_nil, nth_lookup, lookup_replicate_2 by lia. done. }
  destruct (file_loop_items count ltac:(lia) entries contexts 0 0 finish _ [] [] (table_size entries) named_entries Hp eq_refl ltac:(lia) ltac:(lia) Hh0)
    as (heads & Eh & Hheads).
  rewrite Z.sub_diag in Eh. change (zeros 0) with (@nil byte) in Eh. cbn [app] in Eh. rewrite app_nil_r in Eh. rewrite app_nil_r in Hheads.
  pose proof (align64_bounds (finish + ROMFS_FILEPARTITION_OFS) 2 ltac:(lia) ltac:(unfold ROMFS_FILEPARTITION_OFS; lia)) as Ha.
  set (dirOff := align64 (finish + ROMFS_FILEPARTITION_OFS) 4) in *. change (2 ^ 2) with 4 in Ha. fold dirOff in Ha.
  unfold ROMFS_FILEPARTITION_OFS in Ha.
  set (hdr := header [80; dirOff; 12; dirOff + 12; 24; dirOff + 36; 4 * count; dirOff + 36 + 4 * count; table_size entries; ROMFS_FILEPARTITION_OFS]).
  assert (zlen hdr = 80) as Hhdr by (unfold hdr, header; rewrite zlen_numbers; done).
  set (b0 := {| buf := hdr; offset := 80 |}).
  destruct (write_files_spec count entries contexts 0 0 finish [] b0 Hp) as (tail & EB & HB & HF); [lia|cbn [buf b0]; unfold ROMFS_FILEPARTITION_OFS; lia|].
  set (B := buf (write_files entries contexts b0)) in *. cbn [buf b0] in EB. unfold ROMFS_FILEPARTITION_OFS in HB.
  exists contexts, finish, B, (table_bytes (<[Z.to_nat (calcPathHash 0 [] 0 0 mod 3) := 0]> (replicate 3 ROMFS_ENTRY_EMPTY))),
    (dir_entry 0 ROMFS_ENTRY_EMPTY ROMFS_ENTRY_EMPTY (first_offset contexts) ROMFS_ENTRY_EMPTY 0), heads, (dirOff - zlen B).
  cbv zeta. replace (zlen B + (dirOff - zlen B)) with dirOff by lia. fold hdr. split_and!; [|done|lia|lia|lia|done|done|done|by exists tail|done].
  unfold buildRomfsIntoFile. cbv zeta. change (romfsGetHashTableCount 1) with (Some 3). cbn [mbind option_bind]. rewrite count_is. cbn [mbind option_bind].
  rewrite sizes_in_order, El. unfold romfsVisitDir. rewrite visited_table_size. change (file_table_size no_files) with 0. rewrite Z.add_0_l.
  rewrite Eh.
  rewrite (write_end _ no_buf) by done. change (4 * 3) with 12. unfold DIR_TABLE_SIZE. fold dirOff.
  replace (dirOff + 12 + 24) with (dirOff + 36) by lia. fold hdr. cbn [buf offset no_buf]. rewrite Hhdr.
  change ([] ++ zeros (0 - zlen []) ++ hdr) with hdr. change (0 + 80) with 80. fold b0. f_equal.
  rewrite (write_end _ (seek dirOff (write_files entries contexts b0))) by (cbn [buf offset seek]; fold B; lia). cbn [buf offset seek]. fold B.
  do 3 (match goal with |- context [write ?d {| buf := ?x; offset := ?o |}] => rewrite (write_append d {| buf := x; offset := o |}) end;
        [cbn [buf]|cbn [buf offset]; zl; rewrite ?zlen_zeros; lia]).
  rewrite <- !app_assoc. done.
Qed.

(** What the file system reads from it. *)
Lemma image_reads : exists img, buildRomfsIntoFile entries no_buf = Some {| buf := img; offset := zlen img |} /\
  24 <= zlen img <= 2 * total entries + 600 + 4 * count /\
  forall pad, romfs_list (img ++ pad) = (fun e => drop 1 (name e)) <$> entries /\
    (forall nm, romfs_lookup (img ++ pad) nm = data <$> List.find (fun e => bool_decide (drop 1 (name e) = nm)) (reverse entries)).
Proof using sizes_in_order count_is count_small named_entries small.
  destruct image_parts as (contexts & finish & B & dht & dt & heads & z & Hb & Hp & Hf & Hz & Hdir & Hdht & Hdt & Hheads & (rest & HB) & HF).
  set (items := items_of count entries contexts []) in *. set (img := B ++ _) in *. exists img. split; [done|].
  assert (zlen dt = 24) as Hdtl by (rewrite Hdt; unfold dir_entry; zl; rewrite !zlen_le_bytes; done).
  pose proof (table_size_bounds entries named_entries ltac:(lia)) as Hts. destruct Hheads as [Hhl Hheads].
  split; [unfold img, table_bytes; zl; rewrite zlen_numbers, zlen_zeros by lia; unfold items; erewrite zlen_items by (done || exact Hp || lia); pose proof (zlen_nonneg B); lia|]. intros pad.
  set (all := img ++ pad). pose proof (total_nonneg entries).
  assert (Forall item_ok items) as Hok by (eapply items_ok; [done|exact Hp|lia|lia|lia|lia|constructor]).
  assert (forall i, 0 <= i < 10 -> get 8 (8 * i) all = nth (Z.to_nat i)
    [80; zlen B + z; 12; zlen B + z + 12; 24; zlen B + z + 36; 4 * count; zlen B + z + 36 + 4 * count; table_size entries; ROMFS_FILEPARTITION_OFS] 0) as Hg.
  { intros i Hi. unfold all, img. rewrite HB at 1. unfold header. rewrite <- !app_assoc. apply (get_number 8); [done|].
    repeat constructor; unfold ROMFS_FILEPARTITION_OFS; pose proof (zlen_nonneg B); lia. }
  assert (get 8 24 all = zlen B + z + 12) as G3 by (apply (Hg 3); lia). assert (get 8 40 all = zlen B + z + 36) as G5 by (apply (Hg 5); lia).
  assert (get 8 48 all = 4 * count) as G6 by (apply (Hg 6); lia). assert (get 8 56 all = zlen B + z + 36 + 4 * count) as G7 by (apply (Hg 7); lia).
  assert (get 8 72 all = ROMFS_FILEPARTITION_OFS) as G9 by (apply (Hg 9); lia). clear Hg.
  assert (holds all items) as Hholds.
  { apply (holds_items all items (B ++ zeros z ++ dht ++ dt ++ table_bytes heads) pad); [unfold all, img; by rewrite <- !app_assoc| |done|].
    - rewrite G7. unfold table_bytes. zl. rewrite zlen_numbers, zlen_zeros by lia. lia.
    - eapply items_placed; [done|exact Hp|lia]. }
  assert (length entries = length items) as Hlen by by eapply Forall2_length.
  assert (length items < length all)%nat as Hfuel.
  { pose proof (length_items items Hok). unfold all, img. rewrite !length_app. unfold zlen in *. lia. }
  split.
  - unfold romfs_list. rewrite G3. assert (get 4 (zlen B + z + 12 + 12) all = first_offset contexts) as ->.
    + replace (zlen B + z + 12 + 12) with (zlen (B ++ zeros z ++ dht) + 12) by (zl; rewrite zlen_zeros by lia; lia).
      replace all with ((B ++ zeros z ++ dht) ++ dt ++ table_bytes heads ++ (items ≫= item_bytes) ++ pad) by (unfold all, img; by rewrite <- !app_assoc).
      rewrite get_skip by lia. rewrite Hdt. unfold dir_entry. rewrite <- !app_assoc. rewrite !get_next by done. apply (get_le 4).
      unfold items in Hok. destruct contexts as [|c contexts]; [done|]. destruct entries; [done|]. destruct Hp as (E0 & _). cbn [first_offset]. rewrite E0. lia.
    + eapply siblings_listed; [exact Hp|exact Hholds|lia].
  - intros nm. unfold romfs_lookup. rewrite G5, G6. replace (4 * count / 4) with count by (rewrite Z.mul_comm, Z.div_mul; lia).
    change (path_hash nm mod count) with (bucket count nm). pose proof (bucket_range count ltac:(lia) nm) as Hbr.
    assert (get 4 (zlen B + z + 36 + 4 * bucket count nm) all = head_of count (bucket count nm) (reverse items)) as ->.
    + replace (zlen B + z + 36 + 4 * bucket count nm) with (zlen (B ++ zeros z ++ dht ++ dt) + 4 * bucket count nm) by (zl; rewrite zlen_zeros by lia; lia).
      replace all with ((B ++ zeros z ++ dht ++ dt) ++ table_bytes heads ++ (items ≫= item_bytes) ++ pad) by (unfold all, img; by rewrite <- !app_assoc).
      rewrite get_skip by lia. unfold table_bytes. rewrite (get_number 4); [by apply Hheads|lia|].
      apply Forall_lookup_2. intros i v Hv. pose proof (lookup_lt_Some _ _ _ Hv). unfold zlen in Hhl.
      assert (v = head_of count (Z.of_nat i) (reverse items)) as ->.
      { rewrite <- (Hheads (Z.of_nat i)) by lia. by rewrite Nat2Z.id, nth_lookup, Hv. }
      apply head_of_range, Forall_reverse. eapply list.Forall_impl; [exact Hok|]. intros x Hx. apply Hx.
    + rewrite (find_chain count all (reverse items)).
      * unfold payload. rewrite G9. apply find_data, Forall2_reverse. eapply Forall2_impl; [|exact HF]. cbn beta. intros e it [Hn Hd]. split; [done|].
        unfold all, img. rewrite <- app_assoc. apply Hd.
      * by apply Forall_reverse.
      * pose proof (items_linked count entries contexts [] I) as Hl. by rewrite app_nil_r in Hl.
      * by rewrite length_reverse.
Qed.
End image.

(** ** Properties *)

Definition rooted (e : FileEntry) : Prop := exists nm, name e = ch "/" :: nm.
Lemma rooted_named l : Forall rooted l -> Forall named l.
Proof. intros Hl. eapply list.Forall_impl; [exact Hl|]. intros e [nm E]. by exists (ch "/"), nm. Qed.

(** The image of at most two files, and its padding. *)
Lemma romfs_built entries : (length entries <= 2)%nat -> Forall rooted entries -> total entries < 2 ^ 30 ->
  exists img gap, buildRomfs entries = Some (img ++ zeros gap, zlen img) /\ 0 < gap <= IVFC_HASH_BLOCK_SIZE /\
    (zlen img + gap) mod IVFC_HASH_BLOCK_SIZE = 0 /\ 0 < zlen img <= 2 * total entries + 612 /\
    forall pad, romfs_list (img ++ pad) = (fun e => drop 1 (name e)) <$> entries /\
      (forall nm, romfs_lookup (img ++ pad) nm = data <$> List.find (fun e => bool_decide (drop 1 (name e) = nm)) (reverse entries)).
Proof.
  intros Hlen Hroot Hsmall.
  assert (files (romfsVisitDir entries) = (fun e => zlen (data e)) <$> entries) as Hfiles by by destruct entries as [|? [|? [|? ?]]]; cbn in Hlen; try lia.
  assert (romfsGetHashTableCount (num_files (romfsVisitDir entries)) = Some 3) as Hcount by by destruct entries as [|? [|? [|? ?]]]; cbn in Hlen; try lia.
  destruct (image_reads entries 3 Hfiles Hcount ltac:(lia) (rooted_named _ Hroot) Hsmall) as (img & Hb & Hl & Hr).
  unfold buildRomfs. rewrite Hb. cbn [mbind option_bind buf seek tell offset]. unfold write_padding, padding_size.
  pose proof (Z.mod_pos_bound (zlen img) IVFC_HASH_BLOCK_SIZE ltac:(done)) as Hm. set (gap := IVFC_HASH_BLOCK_SIZE - zlen img mod IVFC_HASH_BLOCK_SIZE) in *.
  rewrite (proj2 (Z.eqb_neq gap 0)) by lia. cbn [negb snd]. rewrite write_append by done. cbn [buf].
  exists img, gap. split; [done|]. split; [lia|]. split.
  - replace (zlen img + gap) with ((zlen img / IVFC_HASH_BLOCK_SIZE + 1) * IVFC_HASH_BLOCK_SIZE); [apply Z.mod_mul; done|].
    pose proof (Z.div_mod (zlen img) IVFC_HASH_BLOCK_SIZE ltac:(done)). lia.
  - split; [lia|exact Hr].
Qed.

(** C37: every file of a forwarder's image is found: an image of at most two files, as the
    program makes them, is built and padded to whole blocks, the file system lists its
    files in their order, finds each by its name with its data, and finds no other. *)
Theorem romfs_files_found (entries : list FileEntry) : (length entries <= 2)%nat -> Forall rooted entries -> NoDup (name <$> entries) ->
  total entries < 2 ^ 30 ->
  exists img n, buildRomfs entries = Some (img, n) /\ n <= zlen img <= n + IVFC_HASH_BLOCK_SIZE /\ zlen img mod IVFC_HASH_BLOCK_SIZE = 0 /\
    romfs_list img = (fun e => drop 1 (name e)) <$> entries /\
    (forall e, e ∈ entries -> romfs_lookup img (drop 1 (name e)) = Some (data e)) /\
    (forall nm, nm ∉ (fun e => drop 1 (name e)) <$> entries -> romfs_lookup img nm = None).
Proof.
  intros Hlen Hroot Hnd Hsmall. destruct (romfs_built entries Hlen Hroot Hsmall) as (img & gap & Hb & Hgap & Hm & Hl & Hr).
  exists (img ++ zeros gap), (zlen img). split; [done|]. zl. rewrite zlen_zeros by lia. destruct (Hr (zeros gap)) as [Hlist Hlook]. split_and!; try lia.
  - exact Hlist.
  - intros e He. rewrite Hlook. destruct (List.find _ (reverse entries)) as [e'|] eqn:Ef.
    + apply List.find_some in Ef as [He' Hn]. apply bool_decide_eq_true in Hn. apply list_elem_of_In in He'. rewrite elem_of_reverse in He'. cbn. do 2 f_equal.
      rewrite list.Forall_forall in Hroot. destruct (Hroot e He) as [n1 E1], (Hroot e' He') as [n2 E2].
      rewrite E1, E2 in Hn. cbn in Hn. rewrite !drop_0 in Hn. subst n2. clear -Hnd He He' E1 E2.
      induction entries as [|x l IH]; [by apply not_elem_of_nil in He|]. rewrite fmap_cons in Hnd. apply list.NoDup_cons in Hnd as [Hx Hnd].
      apply elem_of_cons in He as [->|He], He' as [->|He']; [done| | |by apply IH].
      * destruct Hx. rewrite E1, <- E2. by apply list_elem_of_fmap_2.
      * destruct Hx. rewrite E2, <- E1. by apply list_elem_of_fmap_2.
    + exfalso. eapply List.find_none in Ef; [|by apply list_elem_of_In, elem_of_reverse]. by rewrite bool_decide_true in Ef.
  - intros nm Hnm. rewrite Hlook. destruct (List.find _ (reverse entries)) as [e|] eqn:Ef; [|done]. exfalso.
    apply List.find_some in Ef as [He Hn]. apply bool_decide_eq_true in Hn. apply list_elem_of_In in He. rewrite elem_of_reverse in He. apply Hnm.
    rewrite <- Hn. by apply (list_elem_of_fmap_2 (fun e => drop 1 (name e))).
Qed.

Definition sample_files : list FileEntry := [{| name := bs "/nextArgv"; data := bs "--ip=10.0.0.5" |}; {| name := bs "/nextNroPath"; data := bs "sdmc:/moonlight.nro" |}].
Lemma romfs_files_found_witness : exists img n, buildRomfs sample_files = Some (img, n) /\ n <= zlen img <= n + IVFC_HASH_BLOCK_SIZE /\
  zlen img mod IVFC_HASH_BLOCK_SIZE = 0 /\ romfs_list img = (fun e => drop 1 (name e)) <$> sample_files /\
  (forall e, e ∈ sample_files -> romfs_lookup img (drop 1 (name e)) = Some (data e)) /\
  (forall nm, nm ∉ (fun e => drop 1 (name e)) <$> sample_files -> romfs_lookup img nm = None).
Proof.
  apply romfs_files_found; [cbn; lia| |by apply (bool_decide_unpack _)|done].
  repeat constructor; [by exists (bs "nextArgv")|by exists (bs "nextNroPath")].
Defined.

(** The search for the number of chains ends, and what it finds has none of the small factors. *)
Lemma count_loop_ends fuel : forall n, 0 <= n < 2 ^ 32 -> (exists k, 0 <= k < Z.of_nat fuel /\ n + k < 2 ^ 32 /\ small_factor (n + k) = false) ->
  exists c, count_loop fuel n = Some c /\ small_factor c = false /\ n <= c < 2 ^ 32.
Proof.
  induction fuel as [|fuel IH]; intros n Hn (k & Hk & Hw & Hs); [lia|]. cbn [count_loop]. destruct (small_factor n) eqn:E; [|exists n; split_and!; done || lia].
  destruct (Z.eq_dec k 0) as [->|]; [rewrite Z.add_0_r in Hs; congruence|]. unfold u32. rewrite Z.mod_small by lia.
  destruct (IH (n + 1)) as (c & ? & ? & ?); [lia| |exists c; split_and!; done || lia]. exists (k - 1). split_and!; [lia..|]. by replace (n + 1 + (k - 1)) with (n + k) by lia.
Qed.
Lemma small_factor_one q : small_factor (510510 * q + 1) = false.
Proof.
  unfold small_factor. cbn [existsb]. rewrite !orb_false_iff. split_and!; try done; apply Z.eqb_neq;
    (rewrite Z.add_mod by lia); (rewrite Z.mul_mod by lia); cbn [Z.modulo]; rewrite Z.mul_0_l; done.
Qed.
(** The search for the size of a table ends for every number of entries that is not
    within one round of 2^32; from 19 entries on at a size with none of the factors. *)
Theorem hash_table_count (num_entries : Z) : 0 <= num_entries < 2 ^ 32 - 510512 ->
  exists count, romfsGetHashTableCount num_entries = Some count /\ 3 <= count < 2 ^ 32 /\ num_entries <= count /\
    (19 <= num_entries -> small_factor count = false).
Proof.
  intros Hn. unfold romfsGetHashTableCount. destruct (Z.ltb_spec num_entries 3); [exists 3; split_and!; [done|lia..]|].
  destruct (Z.ltb_spec num_entries 19).
  - exists (Z.lor num_entries 1).
    assert (forall n, (3 <= n < 19)%nat -> 3 <= Z.lor (Z.of_nat n) 1 < 2 ^ 32 /\ Z.of_nat n <= Z.lor (Z.of_nat n) 1) as Hx.
    { intros n Hx. do 19 (destruct n as [|n]; [try (exfalso; lia); by split_and!|]). lia. }
    specialize (Hx (Z.to_nat num_entries) ltac:(lia)). rewrite Z2Nat.id in Hx by lia. split_and!; [done|lia..].
  - pose proof (Z.div_mod num_entries 510510 ltac:(lia)). pose proof (Z.mod_pos_bound num_entries 510510 ltac:(lia)).
    destruct (count_loop_ends count_fuel num_entries) as (c & Hc & Hs & Hr); [lia| |exists c; split_and!; [done|lia..|done]].
    exists (510510 * (num_entries / 510510 + 1) + 1 - num_entries). unfold count_fuel. rewrite Z2Nat.id by lia. split_and!; [lia..|].
    rewrite Zplus_minus. apply small_factor_one.
Qed.
Lemma hash_table_count_witness : exists count, romfsGetHashTableCount 20 = Some count /\ 3 <= count < 2 ^ 32 /\ 20 <= count /\ (19 <= 20 -> small_factor count = false).
Proof. apply hash_table_count. lia. Defined.

(** With three files of different sizes the contexts are in another order than the
    files: the second file is read with the size of the third. *)
Example three_files_are_mixed :
  let entries := [{| name := bs "/a"; data := bs "1" |}; {| name := bs "/b"; data := bs "22" |}; {| name := bs "/c"; data := bs "333" |}] in
  match buildRomfs entries with
  | Some (img, _) => romfs_lookup img (bs "a") = Some (bs "1") /\ romfs_lookup img (bs "b") <> Some (bs "22") /\ romfs_lookup img (bs "c") = Some (bs "33")
  | None => False
  end.
Proof. vm_compute. split_and!; [done|intros [=]|done]. Qed.

(** Padding is written also where nothing is missing. *)
Example padding_of_a_full_block : padding_size (2 * IVFC_HASH_BLOCK_SIZE) IVFC_HASH_BLOCK_SIZE = IVFC_HASH_BLOCK_SIZE.
Proof. reflexivity. Qed.
