(* ===== verification/Nca.v ===== *)
(** The content archives of a forwarder ([forwarder_maker.cpp]): file partitions,
    their hash tables, the hash levels above a RomFS, the archive header with its
    sections, and what the console checks before it reads them. SHA-256 and the
    XTS cipher of a header's sectors are the platform's. *)

From S2P Require Import Prelude Bytes Text CText RomFs.

Definition PFS0_EXEFS_HASH_BLOCK_SIZE : Z := 0x10000.
Definition PFS0_LOGO_HASH_BLOCK_SIZE : Z := 0x1000.
Definition PFS0_META_HASH_BLOCK_SIZE : Z := 0x1000.
Definition PFS0_PADDING_SIZE : Z := 0x200.
Definition NCA3_MAGIC : Z := 0x3341434E.
Definition SHA256_HASH_SIZE : Z := 32.
Definition HEADER_SIZE : Z := 0xC00.

(** ** File partitions *)

Record Pfs0FileTable := { data_offset : Z; data_size : Z; name_offset : Z }.
(** The loop over the entries: the table and the names, each with its terminator. *)
Fixpoint pfs0_loop (entries : list FileEntry) (string_offset data_off : Z) : list Pfs0FileTable * bytes :=
  match entries with
  | [] => ([], [])
  | e :: rest =>
      let '(table, strings) := pfs0_loop rest (string_offset + zlen (name e) + 1) (data_off + zlen (data e)) in
      ({| data_offset := data_off; data_size := zlen (data e); name_offset := u32 string_offset |} :: table,
       name e ++ [Init.Byte.x00] ++ strings)
  end.
Definition table_entry (t : Pfs0FileTable) : bytes :=
  le_bytes 8 (data_offset t) ++ le_bytes 8 (data_size t) ++ le_bytes 4 (name_offset t) ++ le_bytes 4 0.
(** [(size + 0x1F) & ~0x1F]. *)
Definition round32 (n : Z) : Z := Z.land (n + 0x1F) (Z.lxor (2 ^ 64 - 1) 0x1F).
Definition buildPfs0 (entries : list FileEntry) : bytes :=
  let '(file_table, string_table) := pfs0_loop entries 0 0 in
  let string_table := string_table ++ zeros (round32 (zlen string_table) - zlen string_table) in
  let b := write (le_bytes 4 0x30534650 ++ le_bytes 4 (u32 (zlen entries)) ++ le_bytes 4 (u32 (zlen string_table)) ++ le_bytes 4 0) no_buf in
  let b := write (file_table ≫= table_entry) b in
  let b := write string_table b in
  buf (foldl (fun b e => write (data e) b) b entries).

(** ** Reading a partition *)

Definition entry_name (img : bytes) (i : Z) : bytes :=
  c_str (drop (Z.to_nat (16 + 24 * get 4 4 img + get 4 (16 + 24 * i + 16) img)) img).
Definition entry_data (img : bytes) (i : Z) : bytes :=
  slice (16 + 24 * get 4 4 img + get 4 8 img + get 8 (16 + 24 * i) img) (get 8 (16 + 24 * i + 8) img) img.
Fixpoint pfs0_find (n : nat) (i : Z) (img nm : bytes) : option bytes :=
  match n with
  | O => None
  | S k => if bool_decide (entry_name img i = nm) then Some (entry_data img i) else pfs0_find k (i + 1) img nm
  end.
Definition pfs0_lookup (img nm : bytes) : option bytes :=
  if get 4 0 img =? 0x30534650 then pfs0_find (Z.to_nat (get 4 4 img)) 0 img nm else None.

Lemma write_files_append (entries : list FileEntry) b : zlen (buf b) = offset b ->
  buf (foldl (fun b e => write (data e) b) b entries) = buf b ++ (entries ≫= data).
Proof.
  revert b. induction entries as [|e entries IH]; intros b Hb; [cbn; by rewrite app_nil_r|]. cbn [foldl]. rewrite write_append by done.
  rewrite IH by done. cbn [buf]. by rewrite bind_cons, app_assoc.
Qed.

(** The table, with where each name and each file begins. *)
Lemma round32_bounds n : 0 <= n < 2 ^ 32 -> n <= round32 n < n + 32.
Proof.
  intros Hn. unfold round32. change 0x1F with (2 ^ 5 - 1). rewrite land_clear by lia.
  pose proof (Z.div_mod (n + (2 ^ 5 - 1)) (2 ^ 5)). pose proof (Z.mod_pos_bound (n + (2 ^ 5 - 1)) (2 ^ 5)). lia.
Qed.

Definition name_ok (e : FileEntry) : Prop := Init.Byte.x00 ∉ name e.
Lemma c_str_app nm rest : (Init.Byte.x00 ∉ nm) -> c_str (nm ++ Init.Byte.x00 :: rest) = nm.
Proof.
  unfold c_str. induction nm as [|c nm IH]; intros Hn; [done|]. apply not_elem_of_cons in Hn as [Hc Hn]. cbn [app take_while].
  rewrite bool_decide_false by congruence. cbn [negb]. by rewrite IH.
Qed.

Lemma zlen_table t : zlen (t ≫= table_entry) = 24 * zlen t.
Proof. induction t as [|x t IH]; [done|]. rewrite bind_cons. zl. rewrite IH. unfold table_entry. zl. rewrite !zlen_le_bytes. lia. Qed.
Lemma pfs0_loop_lengths entries : forall so dof, zlen (pfs0_loop entries so dof).1 = zlen entries /\
  zlen (pfs0_loop entries so dof).2 <= total entries.
Proof.
  induction entries as [|e l IH]; intros so dof; [done|]. cbn [pfs0_loop]. specialize (IH (so + zlen (name e) + 1) (dof + zlen (data e))).
  destruct (pfs0_loop l _ _) as [t s]. cbn [fst snd] in *. cbn [total foldr]. fold (total l). pose proof (zlen_nonneg (data e)). zl.
Qed.
Lemma length_entries_total entries : 64 * zlen entries <= total entries.
Proof. induction entries as [|e l IH]; [done|]. cbn [total foldr]. fold (total l). pose proof (zlen_nonneg (name e)). pose proof (zlen_nonneg (data e)). zl. Qed.

(** The image of a partition, with one of its entries picked out. *)
Lemma pfs0_at pre e post : forall so dof strs table, 0 <= so -> 0 <= dof -> so + total (pre ++ e :: post) < 2 ^ 31 -> dof + total (pre ++ e :: post) < 2 ^ 31 ->
  pfs0_loop (pre ++ e :: post) so dof = (table, strs) ->
  exists t1 t2 s1 s2, table = t1 ++ {| data_offset := dof + zlen (pre ≫= data); data_size := zlen (data e); name_offset := so + zlen s1 |} :: t2 /\
    zlen t1 = zlen pre /\ strs = s1 ++ (name e ++ [Init.Byte.x00]) ++ s2.
Proof.
  induction pre as [|p pre IH]; intros so dof strs table Hso Hd H1 H2 E; cbn [app pfs0_loop] in E.
  - destruct (pfs0_loop post _ _) as [t s] eqn:Er. injection E as <- <-. exists [], t, [], s. cbn [app]. split_and!; [|done|by rewrite <- app_assoc].
    f_equal. cbn [app total foldr] in H1. fold (total post) in H1. pose proof (total_nonneg post). pose proof (zlen_nonneg (name e)). pose proof (zlen_nonneg (data e)).
    assert (u32 so = so) as -> by (unfold u32; rewrite Z.mod_small; lia). unfold zlen at 2 4. cbn. f_equal; lia.
  - destruct (pfs0_loop (pre ++ e :: post) _ _) as [t s] eqn:Er. injection E as <- <-. cbn [app total foldr] in H1, H2. fold (total (pre ++ e :: post)) in H1, H2.
    pose proof (total_nonneg (pre ++ e :: post)). pose proof (zlen_nonneg (name p)). pose proof (zlen_nonneg (data p)).
    destruct (IH (so + zlen (name p) + 1) (dof + zlen (data p)) s t) as (t1 & t2 & s1 & s2 & -> & Hl & ->); [lia..|done|].
    eexists (_ :: t1), t2, (name p ++ [Init.Byte.x00] ++ s1), s2. cbn [app]. split_and!; [|zl|].
    + do 3 f_equal. rewrite bind_cons. f_equal; zl.
    + by rewrite <- !app_assoc.
Qed.

Lemma buildPfs0_parts entries table strs : pfs0_loop entries 0 0 = (table, strs) -> total entries < 2 ^ 30 ->
  exists pad, 0 <= pad < 32 /\
  buildPfs0 entries = (le_bytes 4 0x30534650 ++ le_bytes 4 (zlen entries) ++ le_bytes 4 (zlen strs + pad) ++ le_bytes 4 0) ++
    (table ≫= table_entry) ++ (strs ++ zeros pad) ++ (entries ≫= data).
Proof.
  intros E Ht. pose proof (pfs0_loop_lengths entries 0 0) as [Hl1 Hl2]. rewrite E in Hl1, Hl2. cbn [fst snd] in Hl1, Hl2.
  pose proof (zlen_nonneg strs). pose proof (round32_bounds (zlen strs) ltac:(lia)). pose proof (length_entries_total entries). pose proof (zlen_nonneg entries).
  exists (round32 (zlen strs) - zlen strs). split; [lia|]. unfold buildPfs0. rewrite E.
  assert (u32 (zlen (strs ++ zeros (round32 (zlen strs) - zlen strs))) = zlen strs + (round32 (zlen strs) - zlen strs)) as ->.
  { zl. rewrite zlen_zeros by lia. unfold u32. rewrite Z.mod_small; lia. }
  assert (u32 (zlen entries) = zlen entries) as -> by (unfold u32; rewrite Z.mod_small; lia).
  rewrite (write_append _ no_buf) by done. cbn [buf no_buf].
  do 2 (match goal with |- context [write ?d {| buf := ?x; offset := ?o |}] => rewrite (write_append d {| buf := x; offset := o |}) by done end; cbn [buf]).
  rewrite write_files_append by done. cbn [buf app]. by rewrite <- !app_assoc.
Qed.

(** One entry of the image. *)
Lemma pfs0_entry pre e post : total (pre ++ e :: post) < 2 ^ 30 -> name_ok e ->
  let img := buildPfs0 (pre ++ e :: post) in entry_name img (zlen pre) = name e /\ entry_data img (zlen pre) = data e.
Proof.
  intros Ht Hn. cbv zeta. destruct (pfs0_loop (pre ++ e :: post) 0 0) as [table strs] eqn:E.
  destruct (buildPfs0_parts _ _ _ E Ht) as (pad & Hpad & ->). set (es := pre ++ e :: post) in *.
  pose proof (pfs0_loop_lengths es 0 0) as [Hl1 Hl2]. rewrite E in Hl1, Hl2. cbn [fst snd] in Hl1, Hl2. pose proof (length_entries_total es). pose proof (zlen_nonneg es).
  destruct (pfs0_at pre e post 0 0 strs table) as (t1 & t2 & s1 & s2 & Et & Hl & Es); [lia|lia|fold es; lia|fold es; lia|done|].
  set (rest := (strs ++ zeros pad) ++ (es ≫= data)). set (hdr := le_bytes 4 0x30534650 ++ _).
  assert (zlen hdr = 16) as Hh by (unfold hdr; zl; rewrite !zlen_le_bytes; done).
  set (t := {| data_offset := _; data_size := _; name_offset := _ |}) in Et.
  assert (hdr ++ (table ≫= table_entry) ++ rest = (hdr ++ (t1 ≫= table_entry)) ++ table_entry t ++ ((t2 ≫= table_entry) ++ rest)) as Eimg.
  { rewrite Et, bind_app, bind_cons. by rewrite <- !app_assoc. }
  assert (zlen (hdr ++ (t1 ≫= table_entry)) = 16 + 24 * zlen pre) as Hp by (zl; rewrite zlen_table; lia).
  set (img := hdr ++ (table ≫= table_entry) ++ rest) in *.
  pose proof (zlen_nonneg s1). pose proof (zlen_nonneg s2). pose proof (zlen_nonneg (name e)). pose proof (zlen_nonneg (data e)).
  pose proof (zlen_nonneg (pre ≫= data)). pose proof (zlen_nonneg pre). pose proof (zlen_nonneg strs).
  assert (zlen (pre ≫= data) + zlen (data e) <= total es) as Hdt.
  { unfold es. clear. induction pre as [|p pre IH]; cbn [app total foldr]; [fold (total post); pose proof (total_nonneg post); pose proof (zlen_nonneg (name e)); change (zlen ([] ≫= data)) with 0; lia|].
    fold (total (pre ++ e :: post)). rewrite bind_cons. pose proof (zlen_nonneg (name p)). zl. }
  assert (zlen s1 <= zlen strs) as Hs1 by (rewrite Es; zl).
  assert (get 4 4 img = zlen es) as G4.
  { unfold img, hdr. rewrite <- !app_assoc, get_next by done. apply (get_le 4). lia. }
  assert (get 4 8 img = zlen strs + pad) as G8.
  { unfold img, hdr. rewrite <- !app_assoc, !get_next by done. apply (get_le 4). lia. }
  assert (get 8 (16 + 24 * zlen pre) img = zlen (pre ≫= data) /\ get 8 (16 + 24 * zlen pre + 8) img = zlen (data e) /\
    get 4 (16 + 24 * zlen pre + 16) img = zlen s1) as (Ga & Gb & Gc).
  { rewrite Eimg, <- Hp. rewrite !get_skip by lia. replace (zlen (hdr ++ t1 ≫= table_entry)) with (zlen (hdr ++ t1 ≫= table_entry) + 0) by lia. rewrite get_skip by lia.
    unfold table_entry. rewrite <- !app_assoc. split_and!; rewrite ?get_next by done;
      [apply (get_le 8)|apply (get_le 8)|apply (get_le 4)]; cbn [t data_offset data_size name_offset]; lia. }
  unfold entry_name, entry_data. rewrite G4, G8, Ga, Gb, Gc. split.
  - assert (img = ((hdr ++ (table ≫= table_entry)) ++ s1) ++ name e ++ Init.Byte.x00 :: (s2 ++ zeros pad) ++ (es ≫= data)) as ->.
    { unfold img, rest. rewrite Es. rewrite <- !app_assoc. done. }
    replace (Z.to_nat (16 + 24 * zlen es + zlen s1)) with (length ((hdr ++ (table ≫= table_entry)) ++ s1)).
    2:{ pose proof (zlen_table table). rewrite !length_app. unfold zlen in *. lia. }
    rewrite drop_app_length. by apply c_str_app.
  - assert (img = ((hdr ++ (table ≫= table_entry)) ++ (strs ++ zeros pad) ++ (pre ≫= data)) ++ data e ++ (post ≫= data)) as ->.
    { unfold img, rest, es. rewrite bind_app, bind_cons. by rewrite <- !app_assoc. }
    apply slice_at; [|done]. zl. rewrite zlen_table, zlen_zeros by lia. lia.
Qed.

Lemma pfs0_find_spec (es : list FileEntry) : total es < 2 ^ 30 -> Forall name_ok es -> forall post pre nm, es = pre ++ post ->
  pfs0_find (length post) (zlen pre) (buildPfs0 es) nm = data <$> List.find (fun e => bool_decide (name e = nm)) post.
Proof.
  intros Ht Hn. induction post as [|e post IH]; intros pre nm E; [done|]. cbn [length pfs0_find List.find].
  assert (name_ok e) as He by (rewrite list.Forall_forall in Hn; apply Hn; rewrite E; apply elem_of_app; right; by left).
  pose proof (pfs0_entry pre e post) as Hp. rewrite <- E in Hp. destruct (Hp Ht He) as [-> ->].
  destruct (bool_decide (name e = nm)); [done|]. replace (zlen pre + 1) with (zlen (pre ++ [e])) by zl. apply IH. by rewrite E, <- app_assoc.
Qed.

(** What a partition is looked up with. *)
Lemma pfs0_lookup_spec es nm : total es < 2 ^ 30 -> Forall name_ok es ->
  pfs0_lookup (buildPfs0 es) nm = data <$> List.find (fun e => bool_decide (name e = nm)) es.
Proof.
  intros Ht Hn. destruct (pfs0_loop es 0 0) as [table strs] eqn:E. destruct (buildPfs0_parts _ _ _ E Ht) as (pad & Hpad & Eb).
  pose proof (length_entries_total es). pose proof (zlen_nonneg es).
  assert (get 4 0 (buildPfs0 es) = 0x30534650) as G0 by (rewrite Eb, <- !app_assoc; by apply (get_le 4)).
  assert (get 4 4 (buildPfs0 es) = zlen es) as G4 by (rewrite Eb, <- !app_assoc, get_next by done; apply (get_le 4); lia).
  unfold pfs0_lookup. rewrite G0, G4. cbn [Z.eqb Pos.eqb]. rewrite to_nat_zlen. by apply (pfs0_find_spec es Ht Hn es []).
Qed.

Section archives.
Context (sha256 : bytes -> bytes).
(** A sector of a header under the header key. *)
Context (xts_encrypt : bytes -> Z -> bytes -> bytes).

(** ** Hashes of blocks *)

(** The loops over the blocks; [add] is the addition of the width they use, and [None]
    the end of the fuel. *)
Fixpoint hash_loop (fuel : nat) (add : Z -> Z -> Z) (src : bytes) (i read_size : Z) (b : BufHelper) : option BufHelper :=
  match fuel with
  | O => None
  | S k =>
      if i <? zlen src then
        let read_size := if zlen src <=? add i read_size then zlen src - i else read_size in
        hash_loop k add src (u32 (i + read_size)) read_size (write (sha256 (slice i read_size src)) b)
      else Some b
  end.
Definition buildPfs0HashTable (pfs0 : bytes) (block_size : Z) : option bytes :=
  buf <$> hash_loop (S (length pfs0)) (fun i n => u32 (i + n)) pfs0 0 block_size no_buf.
Definition createIvfcLevel (src : bytes) : option bytes :=
  b ← hash_loop (S (length src)) Z.add src 0 IVFC_HASH_BLOCK_SIZE no_buf;
  Some (buf (write_padding (tell b) IVFC_HASH_BLOCK_SIZE b).2).
Definition buildPfs0MasterHash (table : bytes) : bytes := sha256 table.
Definition buildIvfcMasterHash (level1 : bytes) : bytes := sha256 level1.

(** ** The header *)

Record LevelInformation := { logical_offset : Z; hash_data_size : Z; block_size : Z }.
Inductive HashData :=
  | NoHash
  | HierarchicalSha256Data (master_hash : bytes) (block_size layer_count hash_layer_size pfs0_offset pfs0_size : Z)
  | IntegrityMetaInfo (levels : list LevelInformation) (master_hash : bytes).
Record FsHeader := { version : Z; fs_type : Z; hash_type : Z; encryption_type : Z; hash_data : HashData }.
Record SectionTableEntry := { media_start_offset : Z; media_end_offset : Z; in_use : Z }.
Record Header := {
  magic : Z;
  content_type : Z;
  nca_size : Z;
  program_id : Z;
  sdk_version : Z;
  fs_table : list SectionTableEntry;
  fs_header_hash : list bytes;
  fs_header : list FsHeader;
}.

Definition hash_data_bytes (d : HashData) : bytes :=
  match d with
  | NoHash => zeros 0xF8
  | HierarchicalSha256Data master block layers hash_size offset size =>
      master ++ le_bytes 4 block ++ le_bytes 4 layers ++ le_bytes 8 0 ++ le_bytes 8 hash_size ++ le_bytes 8 offset ++ le_bytes 8 size ++
      zeros 0x30 ++ zeros 0x80
  | IntegrityMetaInfo levels master =>
      le_bytes 4 0x43465649 ++ le_bytes 4 0x20000 ++ le_bytes 4 SHA256_HASH_SIZE ++ le_bytes 4 0x7 ++
      (levels ≫= fun l => le_bytes 8 (logical_offset l) ++ le_bytes 8 (hash_data_size l) ++ le_bytes 4 (block_size l) ++ le_bytes 4 0) ++
      zeros 0x20 ++ master ++ zeros 0x18
  end.
Definition fs_header_bytes (f : FsHeader) : bytes :=
  le_bytes 2 (version f) ++ le_bytes 1 (fs_type f) ++ le_bytes 1 (hash_type f) ++ le_bytes 1 (encryption_type f) ++ zeros 3 ++
  hash_data_bytes (hash_data f) ++ zeros 0x100.
Definition section_bytes (s : SectionTableEntry) : bytes :=
  le_bytes 4 (media_start_offset s) ++ le_bytes 4 (media_end_offset s) ++ le_bytes 1 (in_use s) ++ zeros 7.
Definition header_bytes (h : Header) : bytes :=
  zeros 0x200 ++ le_bytes 4 (magic h) ++ le_bytes 1 0 ++ le_bytes 1 (content_type h) ++ zeros 2 ++ le_bytes 8 (nca_size h) ++
  le_bytes 8 (program_id h) ++ zeros 4 ++ le_bytes 4 (sdk_version h) ++ zeros 0x20 ++
  (fs_table h ≫= section_bytes) ++ (fs_header_hash h ≫= fun x => x) ++ zeros 0x100 ++ (fs_header h ≫= fs_header_bytes).

Definition no_fs_header : FsHeader := {| version := 0; fs_type := 0; hash_type := 0; encryption_type := 0; hash_data := NoHash |}.
Definition no_section : SectionTableEntry := {| media_start_offset := 0; media_end_offset := 0; in_use := 0 |}.
Definition no_header : Header :=
  {| magic := 0; content_type := 0; nca_size := 0; program_id := 0; sdk_version := 0; fs_table := replicate 4 no_section;
     fs_header_hash := replicate 4 (zeros 0x20); fs_header := replicate 4 no_fs_header |}.
Definition with_section (index : nat) (s : SectionTableEntry) (h : Header) : Header :=
  {| magic := magic h; content_type := content_type h; nca_size := nca_size h; program_id := program_id h; sdk_version := sdk_version h;
     fs_table := <[index := s]> (fs_table h); fs_header_hash := fs_header_hash h; fs_header := fs_header h |}.
(** The header of a section, and its hash. *)
Definition with_fs_header (index : nat) (f : FsHeader) (h : Header) : Header :=
  {| magic := magic h; content_type := content_type h; nca_size := nca_size h; program_id := program_id h; sdk_version := sdk_version h;
     fs_table := fs_table h; fs_header_hash := <[index := sha256 (fs_header_bytes f)]> (fs_header_hash h); fs_header := <[index := f]> (fs_header h) |}.

Definition encryptNcaHeader (header key : bytes) : bytes :=
  concat ((fun sector => xts_encrypt key sector (slice (0x200 * sector) 0x200 header)) <$> [0; 1; 2; 3; 4; 5]).

(** ** Sections *)

Definition writeNcaPadding (b : BufHelper) : BufHelper := (write_padding (tell b) 0x200 b).2.
Definition writeNcaSection (index : nat) (start finish : Z) (h : Header) : Header :=
  with_section index {| media_start_offset := u32 (start / 0x200); media_end_offset := u32 (finish / 0x200); in_use := 1 |} h.
(** Where a section starts. *)
Definition section_start (index : nat) (h : Header) : Z :=
  match index with O => HEADER_SIZE | S k => u32 (media_end_offset (nth k (fs_table h) no_section) * 0x200) end.

Definition writeNcaPfs0 (index : nat) (entries : list FileEntry) (block : Z) (h : Header) (b : BufHelper) : option (Header * BufHelper) :=
  let pfs0 := buildPfs0 entries in
  table ← buildPfs0HashTable pfs0 block;
  let master := buildPfs0MasterHash table in
  let b := write table b in
  let '(padding, b) := write_padding (zlen table) PFS0_PADDING_SIZE b in
  let b := writeNcaPadding (write pfs0 b) in
  let h := writeNcaSection index (section_start index h) (tell b) h in
  Some (with_fs_header index
    {| version := 2; fs_type := 1; hash_type := 2; encryption_type := 1;
       hash_data := HierarchicalSha256Data master block 2 (zlen table) (zlen table + padding) (zlen pfs0) |} h, b).

(** The levels from the image up, and where each lies. *)
Fixpoint levels_above (n : nat) (level : bytes) : option (list bytes) :=
  match n with
  | O => Some []
  | S k => above ← createIvfcLevel level; rest ← levels_above k above; Some (rest ++ [above])
  end.
Fixpoint level_informations (offset : Z) (sizes : list Z) : list LevelInformation :=
  match sizes with
  | [] => []
  | s :: sizes => {| logical_offset := offset; hash_data_size := s; block_size := 0x0E |} :: level_informations (offset + s) sizes
  end.
Definition writeNcaRomfs (index : nat) (entries : list FileEntry) (h : Header) (b : BufHelper) : option (Header * BufHelper) :=
  '(image, out_size) ← buildRomfs entries;
  above ← levels_above 5 image;
  let b := writeNcaPadding (foldl (fun b level => write level b) b (above ++ [image])) in
  let master := buildIvfcMasterHash (hd [] above) in
  let h := writeNcaSection index (section_start index h) (tell b) h in
  Some (with_fs_header index
    {| version := 2; fs_type := 0; hash_type := 3; encryption_type := 1;
       hash_data := IntegrityMetaInfo (level_informations 0 ((zlen <$> above) ++ [out_size])) master |} h, b).

Definition finalizeNcaHeader (tid : Z) (key : bytes) (type : Z) (h : Header) (b : BufHelper) : BufHelper :=
  let h := {| magic := NCA3_MAGIC; content_type := type; nca_size := tell b; program_id := tid; sdk_version := 0x000C1100;
              fs_table := fs_table h; fs_header_hash := fs_header_hash h; fs_header := fs_header h |} in
  write (encryptNcaHeader (header_bytes h) key) (seek 0 b).

(** ** Archives *)

Record NcaEntry := { nca_data : bytes; nca_type : Z; nca_hash : bytes }.
Definition nca_entry (type : Z) (b : BufHelper) : NcaEntry := {| nca_data := buf b; nca_type := type; nca_hash := sha256 (buf b) |}.
Definition fresh : BufHelper := write (header_bytes no_header) no_buf.

Definition createProgramNca (tid : Z) (key : bytes) (program_type : Z) (exefs romfs logo : list FileEntry) : option NcaEntry :=
  '(h, b) ← writeNcaPfs0 0 exefs PFS0_EXEFS_HASH_BLOCK_SIZE no_header fresh;
  '(h, b) ← writeNcaRomfs 1 romfs h b;
  '(h, b) ← match logo with
            | [l1; l2] => if negb (bool_decide (data l1 = [])) && negb (bool_decide (data l2 = []))
                          then writeNcaPfs0 2 logo PFS0_LOGO_HASH_BLOCK_SIZE h b else Some (h, b)
            | _ => Some (h, b)
            end;
  Some (nca_entry program_type (finalizeNcaHeader tid key 0 h b)).
Definition createControlNca (tid : Z) (key : bytes) (control_type : Z) (romfs : list FileEntry) : option NcaEntry :=
  '(h, b) ← writeNcaRomfs 0 romfs no_header fresh;
  Some (nca_entry control_type (finalizeNcaHeader tid key 2 h b)).
(** The archive around the content meta, whose bytes the platform's structures give. *)
Definition createMetaNca (tid : Z) (key : bytes) (meta_type : Z) (cnmt_name cnmt : bytes) : option NcaEntry :=
  '(h, b) ← writeNcaPfs0 0 [{| name := cnmt_name; data := cnmt |}] PFS0_META_HASH_BLOCK_SIZE no_header fresh;
  Some (nca_entry meta_type (finalizeNcaHeader tid key 1 h b)).
End archives.

(** ** What the console checks *)

Section checks.
Context (sha256 : bytes -> bytes).
Context (sha256_length : forall d, zlen (sha256 d) = 32).

(** The blocks of [n] bytes from [at_] in [l] have the hashes of [table]; the console
    reads whole blocks. *)
Definition blocks_hashed (block : Z) (l : bytes) (at_ n : Z) (table : bytes) : Prop :=
  forall j, 0 <= j -> block * j < n -> slice (32 * j) 32 table = sha256 (slice (at_ + block * j) block l).
(** The same for a region that ends with its data. *)
Definition region_hashed (block : Z) (l : bytes) (table : bytes) : Prop := blocks_hashed block l 0 (zlen l) table.

Lemma slice_all {A} (l : list A) a n : 0 <= a -> 0 <= n -> zlen l <= a + n -> slice a n l = drop (Z.to_nat a) l.
Proof using. intros Ha Hn Hl. unfold slice. apply take_ge. rewrite length_drop. unfold zlen in Hl. lia. Qed.
Lemma slice_more {A} (l : list A) a n m : 0 <= a -> zlen l - a <= n <= m -> slice a n l = slice a m l.
Proof using. intros Ha Hn. unfold slice. unfold zlen in Hn. rewrite !take_ge; [done|rewrite length_drop; lia..]. Qed.

Lemma hash_loop_hashes add src block : (forall i, 0 <= i <= zlen src -> add i block = i + block) -> 0 < block -> zlen src + block < 2 ^ 32 ->
  forall fuel j b, 0 <= j -> block * j < zlen src + block -> Z.max 0 (zlen src - block * j) < Z.of_nat fuel -> zlen (buf b) = offset b -> zlen (buf b) = 32 * j ->
  (forall k, 0 <= k < j -> slice (32 * k) 32 (buf b) = sha256 (slice (block * k) block src)) ->
  exists b', hash_loop sha256 fuel add src (Z.min (zlen src) (block * j)) (if zlen src <? block * j then zlen src - block * (j - 1) else block) b = Some b' /\
    zlen (buf b') = offset b' /\ region_hashed block src (buf b') /\
    32 * (zlen src / block) <= zlen (buf b') <= 32 * (zlen src / block + 1).
Proof using sha256_length.
  intros Hadd Hblock Hsrc. pose proof (zlen_nonneg src).
  induction fuel as [|fuel IH]; intros j b Hj Hjs Hf Hb Hlen Hk; [|].
  { exfalso. lia. }
  cbn [hash_loop]. destruct (Z.ltb_spec (Z.min (zlen src) (block * j)) (zlen src)) as [Hlt|Hge].
  - rewrite Z.min_r in * by lia. rewrite (proj2 (Z.ltb_ge (zlen src) (block * j))) by lia. rewrite Hadd by lia.
    assert (slice (block * j) (if zlen src <=? block * j + block then zlen src - block * j else block) src = slice (block * j) block src) as ->.
    { destruct (Z.leb_spec (zlen src) (block * j + block)); [|done]. apply slice_more; lia. }
    rewrite write_append by done. set (b2 := {| buf := _; offset := _ |}).
    assert (zlen (buf b2) = 32 * (j + 1)) as Hlen2 by (cbn [buf b2]; zl; rewrite sha256_length; lia).
    destruct (IH (j + 1) b2) as (b' & E & Hrest); try done; [lia|nia|nia| |].
    { intros k Hkj. cbn [buf b2]. destruct (Z.eq_dec k j) as [->|].
      - rewrite <- Hlen. rewrite <- (app_nil_r (buf b ++ _)), <- app_assoc. by apply slice_at.
      - rewrite slice_app by (pose proof (zlen_nonneg (buf b)); lia). apply Hk. lia. }
    exists b'. split; [|done]. rewrite <- E. f_equal.
    + unfold u32. destruct (Z.leb_spec (zlen src) (block * j + block)); rewrite Z.mod_small by lia; [rewrite Z.min_l by lia|rewrite Z.min_r by lia]; lia.
    + replace (j + 1 - 1) with j by lia. destruct (Z.leb_spec (zlen src) (block * j + block)), (Z.ltb_spec (zlen src) (block * (j + 1))); lia.
  - exists b. split; [done|]. split; [done|]. assert (zlen src <= block * j) by lia. split.
    + intros k Hk0 Hkn. rewrite Z.add_0_l. apply Hk. nia.
    + assert (zlen src / block <= j) by (apply Z.div_le_upper_bound; lia). assert (j - 1 <= zlen src / block) by (apply Z.div_le_lower_bound; lia). lia.
Qed.

(** The two loops. *)
Lemma pfs0_table_spec src block : 0 < block -> zlen src + block < 2 ^ 32 -> exists table, buildPfs0HashTable sha256 src block = Some table /\
  region_hashed block src table /\ 32 * (zlen src / block) <= zlen table <= 32 * (zlen src / block + 1).
Proof using sha256_length.
  intros Hb Hs. pose proof (zlen_nonneg src).
  destruct (hash_loop_hashes (fun i n => u32 (i + n)) src block) with (fuel := S (length src)) (j := 0) (b := no_buf) as (b' & E & Hb' & Hr & Hl);
    try done; [intros i Hi; unfold u32; apply Z.mod_small; lia|lia|unfold zlen in *; lia|intros k Hk; lia|].
  rewrite Z.mul_0_r, Z.min_r in E by lia. rewrite (proj2 (Z.ltb_ge (zlen src) 0)) in E by lia.
  exists (buf b'). unfold buildPfs0HashTable. rewrite E. done.
Qed.
Lemma blocks_hashed_app block l at_ n t rest : blocks_hashed block l at_ n t -> 0 < block -> n <= block * (zlen t / 32) -> blocks_hashed block l at_ n (t ++ rest).
Proof using.
  intros Hh Hb Hn j Hj Hjn. rewrite <- Hh by done. apply slice_app; [lia|lia|]. assert (j < zlen t / 32) by nia. pose proof (Z.div_mod (zlen t) 32 ltac:(lia)).
  pose proof (Z.mod_pos_bound (zlen t) 32 ltac:(lia)). lia.
Qed.
Lemma ivfc_level_spec src : zlen src < 2 ^ 31 -> zlen src mod IVFC_HASH_BLOCK_SIZE = 0 ->
  exists level, createIvfcLevel sha256 src = Some level /\ region_hashed IVFC_HASH_BLOCK_SIZE src level /\
    zlen level mod IVFC_HASH_BLOCK_SIZE = 0 /\ 0 < zlen level <= zlen src / 512 + 2 * IVFC_HASH_BLOCK_SIZE.
Proof using sha256_length.
  intros Hs Hm. pose proof (zlen_nonneg src). unfold IVFC_HASH_BLOCK_SIZE in *.
  destruct (hash_loop_hashes Z.add src 0x4000) with (fuel := S (length src)) (j := 0) (b := no_buf) as (b' & E & Hb' & Hr & Hl);
    try done; [lia|lia|unfold zlen in *; lia|intros k Hk; lia|].
  rewrite Z.mul_0_r, Z.min_r in E by lia. rewrite (proj2 (Z.ltb_ge (zlen src) 0)) in E by lia.
  unfold createIvfcLevel, IVFC_HASH_BLOCK_SIZE. rewrite E. cbn [mbind option_bind]. unfold write_padding, padding_size, tell.
  pose proof (Z.mod_pos_bound (offset b') 0x4000 ltac:(done)) as Hp. rewrite (proj2 (Z.eqb_neq _ 0)) by lia. cbn [negb snd].
  rewrite write_append by done. cbn [buf]. eexists. split; [done|]. rewrite <- Hb' in *. zl. rewrite zlen_zeros by lia.
  pose proof (zlen_nonneg (buf b')). pose proof (Z.div_mod (zlen src) 0x4000 ltac:(lia)). split_and!.
  - apply blocks_hashed_app; [done|done|]. assert (zlen src / 0x4000 <= zlen (buf b') / 32) by (apply Z.div_le_lower_bound; lia). lia.
  - replace (zlen (buf b') + _) with ((zlen (buf b') / 0x4000 + 1) * 0x4000); [by apply Z.mod_mul|]. pose proof (Z.div_mod (zlen (buf b')) 0x4000 ltac:(lia)). lia.
  - lia.
  - assert (zlen src / 512 = 32 * (zlen src / 0x4000)) by (replace (zlen src) with (32 * (zlen src / 0x4000) * 512) at 1 by lia; apply Z.div_mul; lia). lia.
Qed.

(** ** The sections of an archive *)

Definition master_ok (f : FsHeader) : Prop :=
  match hash_data f with
  | NoHash => True
  | HierarchicalSha256Data m _ _ _ _ _ => zlen m = 32
  | IntegrityMetaInfo ls m => zlen m = 32 /\ zlen ls = 6
  end.
Definition header_wf (h : Header) : Prop :=
  length (fs_table h) = 4%nat /\ length (fs_header_hash h) = 4%nat /\ length (fs_header h) = 4%nat /\
  Forall (fun x => zlen x = 32) (fs_header_hash h) /\ Forall master_ok (fs_header h).

Lemma zlen_bind {A} (f : A -> bytes) n l : Forall (fun x => zlen (f x) = n) l -> zlen (l ≫= f) = n * zlen l.
Proof using. induction 1 as [|x l Hx _ IH]; [cbn; change (zlen []) with 0; lia|]. rewrite bind_cons. zl. Qed.
Lemma zlen_fs_header f : master_ok f -> zlen (fs_header_bytes f) = 0x200.
Proof using.
  intros Hm. unfold fs_header_bytes. assert (zlen (hash_data_bytes (hash_data f)) = 0xF8) as Hd.
  { unfold master_ok in Hm. destruct (hash_data f) as [|m b n hs o s|ls m]; [by apply zlen_zeros| |]; unfold hash_data_bytes; zl; rewrite !zlen_le_bytes, !zlen_zeros by done.
    - lia.
    - destruct Hm as [Hm Hl]. rewrite (zlen_bind _ 24), Hl; [lia|]. apply list.Forall_forall. intros l _. zl. rewrite !zlen_le_bytes. lia. }
  zl. rewrite !zlen_le_bytes, !zlen_zeros, Hd by done. done.
Qed.
Lemma zlen_header h : header_wf h -> zlen (header_bytes h) = HEADER_SIZE.
Proof using.
  intros (H1 & H2 & H3 & H4 & H5). unfold header_bytes. zl. rewrite !zlen_le_bytes, !zlen_zeros by done.
  rewrite (zlen_bind section_bytes 16), (zlen_bind (fun x => x) 32), (zlen_bind fs_header_bytes 0x200); [unfold zlen, HEADER_SIZE; lia| |done|].
  - eapply list.Forall_impl; [exact H5|]. intros f. apply zlen_fs_header.
  - apply list.Forall_forall. intros s _. unfold section_bytes. zl. by rewrite !zlen_le_bytes, zlen_zeros.
Qed.
Lemma no_header_wf : header_wf no_header.
Proof using. split_and!; try done; repeat constructor. Qed.

(** A section of the archive [img], in the media units of its header, whose own header
    has the hash the archive's header says, and whose content [P] describes. *)
Definition section_ok (img : bytes) (h : Header) (k : nat) (P : FsHeader -> bytes -> Prop) : Prop :=
  let s := nth k (fs_table h) no_section in
  let f := nth k (fs_header h) no_fs_header in
  in_use s = 1 /\ nth k (fs_header_hash h) [] = sha256 (fs_header_bytes f) /\
  0 < media_start_offset s < media_end_offset s /\ media_end_offset s * 0x200 <= zlen img /\
  P f (slice (media_start_offset s * 0x200) ((media_end_offset s - media_start_offset s) * 0x200) img).

(** What is checked of a partition and of a RomFS. *)
Definition partition_holds (entries : list FileEntry) (f : FsHeader) (section : bytes) : Prop :=
  fs_type f = 1 /\ hash_type f = 2 /\ encryption_type f = 1 /\
  exists master block table_size offset size, hash_data f = HierarchicalSha256Data master block 2 table_size offset size /\
    table_size <= offset /\ offset + size <= zlen section /\
    master = sha256 (slice 0 table_size section) /\ region_hashed block (slice offset size section) (slice 0 table_size section) /\
    forall nm, pfs0_lookup (slice offset size section) nm = data <$> List.find (fun e => bool_decide (name e = nm)) entries.
Definition level_bytes (l : LevelInformation) (section : bytes) : bytes := slice (logical_offset l) (hash_data_size l) section.
Definition romfs_holds (entries : list FileEntry) (f : FsHeader) (section : bytes) : Prop :=
  fs_type f = 0 /\ hash_type f = 3 /\ encryption_type f = 1 /\
  exists l0 l1 l2 l3 l4 l5 master, hash_data f = IntegrityMetaInfo [l0; l1; l2; l3; l4; l5] master /\
    master = sha256 (level_bytes l0 section) /\
    Forall (fun p => blocks_hashed IVFC_HASH_BLOCK_SIZE section (logical_offset (snd p)) (hash_data_size (snd p)) (level_bytes (fst p) section))
      [(l0, l1); (l1, l2); (l2, l3); (l3, l4); (l4, l5)] /\
    Forall (fun l => logical_offset l + hash_data_size l <= zlen section /\ block_size l = 0x0E) [l0; l1; l2; l3; l4; l5] /\
    romfs_list (level_bytes l5 section) = (fun e => drop 1 (name e)) <$> entries /\
    (forall nm, romfs_lookup (level_bytes l5 section) nm = data <$> List.find (fun e => bool_decide (drop 1 (name e) = nm)) (reverse entries)).

(** ** Writing a section *)

Definition writing (k : nat) (h : Header) (b : BufHelper) : Prop :=
  header_wf h /\ zlen (buf b) = offset b /\ section_start k h = offset b /\ offset b mod 0x200 = 0 /\ HEADER_SIZE <= offset b.
(** What the writing of a section leaves. *)
Definition section_written (k : nat) (P : FsHeader -> bytes -> Prop) (size : Z) (h : Header) (b : BufHelper) (r : option (Header * BufHelper)) : Prop :=
  exists f sec b', let s := {| media_start_offset := offset b / 0x200; media_end_offset := offset b' / 0x200; in_use := 1 |} in
    r = Some (with_fs_header sha256 k f (with_section k s h), b') /\ buf b' = buf b ++ sec /\ 0 < zlen sec <= size /\ P f sec /\
    writing (S k) (with_fs_header sha256 k f (with_section k s h)) b'.

Lemma padded off block b : 0 < block -> zlen (buf b) = offset b -> exists p, 0 < p <= block /\ (off + p) mod block = 0 /\
  write_padding off block b = (p, {| buf := buf b ++ zeros p; offset := offset b + p |}).
Proof using.
  intros Hb Hl. pose proof (Z.mod_pos_bound off block Hb). exists (block - off mod block). split_and!; [lia|lia| |].
  - replace (off + (block - off mod block)) with ((off / block + 1) * block); [apply Z.mod_mul; lia|]. pose proof (Z.div_mod off block ltac:(lia)). lia.
  - unfold write_padding, padding_size. rewrite (proj2 (Z.eqb_neq _ 0)) by lia. cbn [negb]. rewrite write_append by done. f_equal. f_equal. zl. rewrite zlen_zeros; lia.
Qed.

(** The end of every writer: the content is padded, and the header gets its section. *)
Lemma section_finished k h b content f (P : FsHeader -> bytes -> Prop) size : (k < 4)%nat -> writing k h b -> 0 < zlen content -> zlen content + 0x200 <= size ->
  offset b + size < 2 ^ 32 -> master_ok f -> (forall pad, P f (content ++ zeros pad)) ->
  let b' := writeNcaPadding {| buf := buf b ++ content; offset := zlen (buf b ++ content) |} in
  section_written k P size h b (Some (with_fs_header sha256 k f (writeNcaSection k (section_start k h) (tell b') h), b')).
Proof using sha256_length.
  intros Hk (Hwf & Hl & Hstart & Hm & Hh) Hc Hsize Hbound Hf HP. unfold writeNcaPadding, tell. cbn [offset].
  destruct (padded (zlen (buf b ++ content)) 0x200 {| buf := buf b ++ content; offset := zlen (buf b ++ content) |} ltac:(done) eq_refl) as (p & Hp & Hpm & ->).
  cbn [snd buf offset]. rewrite Hstart. unfold writeNcaSection. autorewrite with zlen in Hpm |- *. rewrite Hl in *. unfold HEADER_SIZE in Hh.
  assert (forall x, 0 <= x < 2 ^ 32 -> x mod 0x200 = 0 -> u32 (x / 0x200) = x / 0x200 /\ x / 0x200 * 0x200 = x) as Hu.
  { intros x Hx Hxm. pose proof (Z.div_mod x 0x200 ltac:(lia)). split; [|lia]. unfold u32. apply Z.mod_small. split; [apply Z.div_pos; lia|]. apply Z.div_lt_upper_bound; lia. }
  destruct (Hu (offset b) ltac:(lia) Hm) as [-> E1]. destruct (Hu (offset b + zlen content + p) ltac:(lia) Hpm) as [-> E2].
  exists f, (content ++ zeros p), {| buf := (buf b ++ content) ++ zeros p; offset := offset b + zlen content + p |}. cbn [buf offset]. split_and!; [done|by rewrite app_assoc| | | |].
  - zl. rewrite zlen_zeros; lia.
  - zl. rewrite zlen_zeros; lia.
  - apply HP.
  - destruct Hwf as (W1 & W2 & W3 & W4 & W5). unfold writing. cbn [buf offset]. zl. rewrite zlen_zeros by lia. split_and!; [|lia| |done|unfold HEADER_SIZE; lia].
    + unfold header_wf. cbn [with_fs_header with_section fs_table fs_header_hash fs_header]. rewrite !length_insert. split_and!; try done; by apply Forall_insert.
    + cbn [section_start with_fs_header with_section fs_table]. rewrite nth_lookup, list_lookup_insert_eq by lia. cbn [default from_option id media_end_offset].
      unfold u32. rewrite E2. apply Z.mod_small. lia.
Qed.

Lemma zlen_pfs0 es : total es < 2 ^ 30 -> 16 <= zlen (buildPfs0 es) <= 2 * total es + 48.
Proof using.
  intros Ht. destruct (pfs0_loop es 0 0) as [table strs] eqn:E. destruct (buildPfs0_parts _ _ _ E Ht) as (pad & Hpad & ->).
  pose proof (pfs0_loop_lengths es 0 0) as [H1 H2]. rewrite E in H1, H2. cbn [fst snd] in H1, H2. pose proof (length_entries_total es).
  pose proof (zlen_nonneg es). pose proof (zlen_nonneg strs). pose proof (zlen_nonneg (es ≫= data)).
  assert (24 * zlen es + zlen (es ≫= data) <= total es).
  { clear. induction es as [|e l IH]; [done|]. cbn [total foldr]. fold (total l). rewrite bind_cons. pose proof (zlen_nonneg (name e)). zl. }
  zl. rewrite zlen_table, !zlen_le_bytes, zlen_zeros by lia. lia.
Qed.

Lemma partition_written k es block h b : (k < 4)%nat -> writing k h b -> 0x1000 <= block <= 0x10000 -> total es < 2 ^ 29 -> Forall name_ok es ->
  offset b + (3 * total es + 0x1000) < 2 ^ 32 ->
  section_written k (partition_holds es) (3 * total es + 0x1000) h b (writeNcaPfs0 sha256 k es block h b).
Proof using sha256_length.
  intros Hk Hw Hblock Ht Hn Hb. pose proof Hw as (Hwf & Hl & _). pose proof (zlen_pfs0 es ltac:(lia)) as Hp. pose proof (total_nonneg es).
  destruct (pfs0_table_spec (buildPfs0 es) block) as (table & Etab & Hreg & Htab); [lia|lia|].
  assert (zlen (buildPfs0 es) / block <= zlen (buildPfs0 es) / 0x1000) as Hdiv by (apply Z.div_le_compat_l; lia).
  assert (zlen (buildPfs0 es) / 0x1000 <= (2 * total es + 48) / 0x1000) by (apply Z.div_le_mono; lia).
  pose proof (Z.div_mod (2 * total es + 48) 0x1000 ltac:(lia)). pose proof (Z.mod_pos_bound (2 * total es + 48) 0x1000 ltac:(lia)).
  unfold writeNcaPfs0. rewrite Etab. cbn [mbind option_bind]. rewrite (write_append table b) by done.
  destruct (padded (zlen table) PFS0_PADDING_SIZE {| buf := buf b ++ table; offset := zlen (buf b ++ table) |} ltac:(done) eq_refl) as (p & Hpp & _ & ->).
  unfold PFS0_PADDING_SIZE in Hpp. cbn [buf offset]. rewrite (write_append (buildPfs0 es)) by (cbn [buf offset]; zl; rewrite zlen_zeros; lia). cbn [buf].
  rewrite <- !app_assoc. apply (section_finished k h b (table ++ zeros p ++ buildPfs0 es)); try done.
  - zl. rewrite zlen_zeros by lia. pose proof (zlen_nonneg table). lia.
  - zl. rewrite zlen_zeros by lia. lia.
  - apply sha256_length.
  - intros pad. split_and!; try done. eexists _, block, (zlen table), (zlen table + p), (zlen (buildPfs0 es)). cbn [hash_data]. split; [done|].
    rewrite <- !app_assoc. assert (slice 0 (zlen table) (table ++ zeros p ++ buildPfs0 es ++ zeros pad) = table) as -> by by apply (slice_at []).
    assert (slice (zlen table + p) (zlen (buildPfs0 es)) (table ++ zeros p ++ buildPfs0 es ++ zeros pad) = buildPfs0 es) as ->.
    { rewrite app_assoc. apply slice_at; [|done]. zl. rewrite zlen_zeros; lia. }
    split_and!; [lia| |done|done|].
    + zl. rewrite zlen_zeros by lia. pose proof (zlen_nonneg (zeros pad)). lia.
    + intros nm. apply pfs0_lookup_spec; [lia|done].
Qed.

(** The blocks of a level, where it lies in its section. *)
Lemma blocks_in block l table pre post n : 0 < block -> region_hashed block l table -> zlen l mod block = 0 -> n <= zlen l ->
  blocks_hashed block (pre ++ l ++ post) (zlen pre) n table.
Proof using.
  intros Hb Hr Hm Hn j Hj Hjn. rewrite (Hr j Hj) by lia. rewrite Z.add_0_l. f_equal. rewrite slice_skip by lia. symmetry.
  pose proof (Z.div_mod (zlen l) block ltac:(lia)). apply slice_app; [nia|lia|].
  assert (j < zlen l / block) by nia. nia.
Qed.
Lemma levels_five image l4 l3 l2 l1 l0 : createIvfcLevel sha256 image = Some l4 -> createIvfcLevel sha256 l4 = Some l3 -> createIvfcLevel sha256 l3 = Some l2 ->
  createIvfcLevel sha256 l2 = Some l1 -> createIvfcLevel sha256 l1 = Some l0 -> levels_above sha256 5 image = Some [l0; l1; l2; l3; l4].
Proof using. intros E4 E3 E2 E1 E0. cbn [levels_above]. rewrite E4. cbn [mbind option_bind]. rewrite E3. cbn [mbind option_bind]. rewrite E2. cbn [mbind option_bind]. rewrite E1. cbn [mbind option_bind]. by rewrite E0. Qed.

Lemma write_levels ls : forall b, zlen (buf b) = offset b ->
  foldl (fun b level => write level b) b ls = {| buf := buf b ++ concat ls; offset := zlen (buf b ++ concat ls) |}.
Proof using.
  induction ls as [|l ls IH]; intros b Hb; cbn [foldl concat]; [destruct b; cbn in *; rewrite app_nil_r; by subst|].
  rewrite write_append by done. rewrite IH by done. cbn [buf]. by rewrite <- app_assoc.
Qed.

(** Where a part lies in what is written one behind the other. *)
Ltac lies := first [done | rewrite ?zlen_app; lia | repeat match goal with x := ?v |- _ => progress unfold x end; by rewrite <- !app_assoc].

(** The levels as they are written, one behind the other, are what is checked. *)
Lemma levels_hold es img gap l0 l1 l2 l3 l4 pad : let image := img ++ zeros gap in
  zlen image mod IVFC_HASH_BLOCK_SIZE = 0 ->
  region_hashed IVFC_HASH_BLOCK_SIZE image l4 -> region_hashed IVFC_HASH_BLOCK_SIZE l4 l3 -> region_hashed IVFC_HASH_BLOCK_SIZE l3 l2 ->
  region_hashed IVFC_HASH_BLOCK_SIZE l2 l1 -> region_hashed IVFC_HASH_BLOCK_SIZE l1 l0 -> zlen img <= zlen image ->
  zlen l4 mod IVFC_HASH_BLOCK_SIZE = 0 -> zlen l3 mod IVFC_HASH_BLOCK_SIZE = 0 -> zlen l2 mod IVFC_HASH_BLOCK_SIZE = 0 -> zlen l1 mod IVFC_HASH_BLOCK_SIZE = 0 ->
  romfs_list img = (fun e => drop 1 (name e)) <$> es /\
    (forall nm, romfs_lookup img nm = data <$> List.find (fun e => bool_decide (drop 1 (name e) = nm)) (reverse es)) ->
  romfs_holds es {| version := 2; fs_type := 0; hash_type := 3; encryption_type := 1;
      hash_data := IntegrityMetaInfo (level_informations 0 ((zlen <$> [l0; l1; l2; l3; l4]) ++ [zlen img])) (buildIvfcMasterHash sha256 l0) |}
    ((l0 ++ l1 ++ l2 ++ l3 ++ l4 ++ image) ++ zeros pad).
Proof using.
  intros image.
  intros Hm R4 R3 R2 R1 R0 Hi M4 M3 M2 M1 Hr. set (sec := (l0 ++ l1 ++ l2 ++ l3 ++ l4 ++ image) ++ zeros pad).
  split; [done|]. split; [done|]. split; [done|].
  cbn [hash_data level_informations fmap list_fmap app]. do 7 eexists. split; [done|]. unfold level_bytes. cbn [logical_offset hash_data_size block_size].
  assert (slice 0 (zlen l0) sec = l0) as S0 by (unfold sec; rewrite <- !app_assoc; by apply (slice_at [])).
  assert (forall pre l post at_, sec = pre ++ l ++ post -> zlen pre = at_ -> slice at_ (zlen l) sec = l) as Hs by (intros pre l post at_ -> <-; by apply slice_at).
  assert (forall pre l post at_ n t, sec = pre ++ l ++ post -> zlen pre = at_ -> region_hashed IVFC_HASH_BLOCK_SIZE l t -> zlen l mod IVFC_HASH_BLOCK_SIZE = 0 ->
    n <= zlen l -> blocks_hashed IVFC_HASH_BLOCK_SIZE sec at_ n t) as Hbl by (intros pre l post at_ n t -> <- ? ? ?; by apply blocks_in).
  assert (slice (0 + zlen l0) (zlen l1) sec = l1) as S1 by (apply (Hs l0 l1 (l2 ++ l3 ++ l4 ++ image ++ zeros pad)); lies).
  assert (slice (0 + zlen l0 + zlen l1) (zlen l2) sec = l2) as S2 by (apply (Hs (l0 ++ l1) l2 (l3 ++ l4 ++ image ++ zeros pad)); lies).
  assert (slice (0 + zlen l0 + zlen l1 + zlen l2) (zlen l3) sec = l3) as S3 by (apply (Hs (l0 ++ l1 ++ l2) l3 (l4 ++ image ++ zeros pad)); lies).
  assert (slice (0 + zlen l0 + zlen l1 + zlen l2 + zlen l3) (zlen l4) sec = l4) as S4 by (apply (Hs (l0 ++ l1 ++ l2 ++ l3) l4 (image ++ zeros pad)); lies).
  assert (slice (0 + zlen l0 + zlen l1 + zlen l2 + zlen l3 + zlen l4) (zlen img) sec = img) as S5 by (apply (Hs (l0 ++ l1 ++ l2 ++ l3 ++ l4) img (zeros gap ++ zeros pad)); lies).
  assert (zlen sec = zlen l0 + zlen l1 + zlen l2 + zlen l3 + zlen l4 + zlen image + zlen (zeros pad)) as Hsec by (unfold sec; rewrite !zlen_app; lia).
  pose proof (zlen_nonneg (zeros pad)). pose proof (zlen_nonneg l0). pose proof (zlen_nonneg l1). pose proof (zlen_nonneg l2).
  pose proof (zlen_nonneg l3). pose proof (zlen_nonneg l4). pose proof (zlen_nonneg image). rewrite S5. split; [by rewrite S0|]. split; [|split].
  + repeat (apply list.Forall_cons; split; [cbn [fst snd logical_offset hash_data_size]; rewrite ?S0, ?S1, ?S2, ?S3, ?S4|]); [..|constructor].
    * apply (Hbl l0 l1 (l2 ++ l3 ++ l4 ++ image ++ zeros pad)); lies.
    * apply (Hbl (l0 ++ l1) l2 (l3 ++ l4 ++ image ++ zeros pad)); lies.
    * apply (Hbl (l0 ++ l1 ++ l2) l3 (l4 ++ image ++ zeros pad)); lies.
    * apply (Hbl (l0 ++ l1 ++ l2 ++ l3) l4 (image ++ zeros pad)); lies.
    * apply (Hbl (l0 ++ l1 ++ l2 ++ l3 ++ l4) image (zeros pad)); lies.
  + repeat (apply list.Forall_cons; split; [cbn [logical_offset hash_data_size block_size]; lia|]). constructor.
  + exact Hr.
Qed.

Lemma romfs_written k es h b : (k < 4)%nat -> writing k h b -> (length es <= 2)%nat -> Forall rooted es -> total es < 2 ^ 28 ->
  offset b + (3 * total es + 0x80000) < 2 ^ 32 ->
  section_written k (romfs_holds es) (3 * total es + 0x80000) h b (writeNcaRomfs sha256 k es h b).
Proof using sha256_length.
  intros Hk Hw Hlen Hroot Ht Hb. pose proof (total_nonneg es). pose proof Hw as (_ & Hl & _).
  destruct (romfs_built es Hlen Hroot ltac:(lia)) as (img & gap & Hbuild & Hgap & Him & Hil & Hr).
  assert (zlen (img ++ zeros gap) = zlen img + gap) as Hi by (zl; rewrite zlen_zeros; lia). set (image := img ++ zeros gap) in *.
  rewrite <- Hi in Him. unfold IVFC_HASH_BLOCK_SIZE in Hgap.
  assert (forall x y, 0 <= x <= y -> 0 <= x / 512 <= y) as Hdiv by (intros x y Hx; split; [apply Z.div_pos; lia|apply Z.div_le_upper_bound; lia]).
  assert (zlen image / 512 <= (2 * total es + 612 + 0x4000) / 512) by (apply Z.div_le_mono; lia).
  pose proof (Z.div_mod (2 * total es + 612 + 0x4000) 512 ltac:(lia)). pose proof (Z.mod_pos_bound (2 * total es + 612 + 0x4000) 512 ltac:(lia)).
  destruct (ivfc_level_spec image) as (l4 & E4 & R4 & M4 & Z4); [lia|done|]. unfold IVFC_HASH_BLOCK_SIZE in Z4.
  assert (zlen l4 / 512 <= zlen l4) by (apply Z.div_le_upper_bound; lia).
  destruct (ivfc_level_spec l4) as (l3 & E3 & R3 & M3 & Z3); [lia|done|]. unfold IVFC_HASH_BLOCK_SIZE in Z3.
  assert (zlen l3 / 512 <= zlen l3) by (apply Z.div_le_upper_bound; lia).
  destruct (ivfc_level_spec l3) as (l2 & E2 & R2 & M2 & Z2); [lia|done|]. unfold IVFC_HASH_BLOCK_SIZE in Z2.
  assert (zlen l2 / 512 <= zlen l2) by (apply Z.div_le_upper_bound; lia).
  destruct (ivfc_level_spec l2) as (l1 & E1 & R1 & M1 & Z1); [lia|done|]. unfold IVFC_HASH_BLOCK_SIZE in Z1.
  assert (zlen l1 / 512 <= zlen l1) by (apply Z.div_le_upper_bound; lia).
  destruct (ivfc_level_spec l1) as (l0 & E0 & R0 & M0 & Z0); [lia|done|]. unfold IVFC_HASH_BLOCK_SIZE in Z0.
  unfold writeNcaRomfs. rewrite Hbuild. cbn [mbind option_bind]. fold image. rewrite (levels_five image l4 l3 l2 l1 l0) by done. cbn [mbind option_bind].
  rewrite write_levels by done. cbn [app hd concat]. rewrite app_nil_r.
  assert (zlen l4 <= zlen image / 512 + 0x8000 /\ zlen l3 <= zlen image / 512 + 0x10000) as [B4 B3] by lia.
  apply (section_finished k h b (l0 ++ l1 ++ l2 ++ l3 ++ l4 ++ image)); try done.
  - zl.
  - rewrite !zlen_app. lia.
  - intros pad. destruct (Hr []) as [Hlist Hlook]. rewrite app_nil_r in Hlist, Hlook. apply levels_hold; fold image; (done || lia).
Qed.

(** ** Whole archives *)

Section whole.
Context (xts_encrypt xts_decrypt : bytes -> Z -> bytes -> bytes).
Context (xts_length : forall key sector d, zlen d = 0x200 -> zlen (xts_encrypt key sector d) = 0x200).
Context (xts_inverse : forall key sector d, zlen d = 0x200 -> xts_decrypt key sector (xts_encrypt key sector d) = d).

(** The header of an archive, as the console decrypts it. *)
Definition read_header (key img : bytes) : bytes :=
  concat ((fun sector => xts_decrypt key sector (slice (0x200 * sector) 0x200 img)) <$> [0; 1; 2; 3; 4; 5]).

(** An archive: its header names it, its sections follow one another from the header to
    its end, and each holds what it should; the other sections are not used. *)
Definition archive_holds (key : bytes) (tid type : Z) (sections : list (FsHeader -> bytes -> Prop)) (img : bytes) : Prop :=
  exists h, read_header key img = header_bytes h /\ header_wf h /\ magic h = NCA3_MAGIC /\ content_type h = type /\ program_id h = tid /\
    nca_size h = zlen img /\
    (forall k P, sections !! k = Some P -> section_ok img h k P /\ media_start_offset (nth k (fs_table h) no_section) * 0x200 = section_start k h) /\
    section_start (length sections) h = zlen img /\
    (forall k, (length sections <= k)%nat -> nth k (fs_table h) no_section = no_section).

Lemma sectors_split (h : bytes) : zlen h = HEADER_SIZE -> h = concat ((fun s => slice (0x200 * s) 0x200 h) <$> [0; 1; 2; 3; 4; 5]).
Proof using.
  intros Hl. unfold HEADER_SIZE in Hl.
  assert (forall a n, 0 <= a -> 0 <= n -> drop (Z.to_nat a) h = slice a n h ++ drop (Z.to_nat (a + n)) h) as Hd.
  { intros a n Ha Hn. unfold slice. rewrite <- (take_drop (Z.to_nat n) (drop (Z.to_nat a) h)) at 1. f_equal. rewrite drop_drop. f_equal. lia. }
  cbn [fmap list_fmap concat]. rewrite <- (drop_0 h) at 1. change 0%nat with (Z.to_nat 0).
  rewrite (Hd 0 0x200), (Hd (0 + 0x200) 0x200), (Hd (0 + 0x200 + 0x200) 0x200), (Hd (0 + 0x200 + 0x200 + 0x200) 0x200),
    (Hd (0 + 0x200 + 0x200 + 0x200 + 0x200) 0x200), (Hd (0 + 0x200 + 0x200 + 0x200 + 0x200 + 0x200) 0x200) by done.
  rewrite (drop_ge h) by (unfold zlen in Hl; lia). done.
Qed.
Lemma concat_sectors (f : Z -> bytes) (rest : bytes) (s : Z) : (forall i, zlen (f i) = 0x200) -> 0 <= s <= 5 ->
  slice (0x200 * s) 0x200 (concat (f <$> [0; 1; 2; 3; 4; 5]) ++ rest) = f s.
Proof using.
  intros Hf Hs. cbn [fmap list_fmap concat]. rewrite <- !app_assoc.
  assert (s = 0 \/ s = 1 \/ s = 2 \/ s = 3 \/ s = 4 \/ s = 5) as Hc by lia.
  destruct Hc as [->|[->|[->|[->|[->| ->]]]]].
  - by apply (slice_at []).
  - by apply slice_at.
  - rewrite app_assoc. apply slice_at; [rewrite !zlen_app, !Hf; done|done].
  - rewrite (app_assoc (f 0)), (app_assoc _ (f 2)). apply slice_at; [rewrite !zlen_app, !Hf; done|done].
  - rewrite (app_assoc (f 0)), (app_assoc _ (f 2)), (app_assoc _ (f 3)). apply slice_at; [rewrite !zlen_app, !Hf; done|done].
  - rewrite (app_assoc (f 0)), (app_assoc _ (f 2)), (app_assoc _ (f 3)), (app_assoc _ (f 4)). apply slice_at; [rewrite !zlen_app, !Hf; done|done].
Qed.
Lemma header_encrypted (h key rest : bytes) : zlen h = HEADER_SIZE ->
  zlen (encryptNcaHeader xts_encrypt h key) = HEADER_SIZE /\ read_header key (encryptNcaHeader xts_encrypt h key ++ rest) = h.
Proof using xts_length xts_inverse.
  intros Hl. assert (forall s, 0 <= s <= 5 -> zlen (slice (0x200 * s) 0x200 h) = 0x200) as Hs by (intros s Hs; apply zlen_slice; unfold HEADER_SIZE in Hl; lia).
  set (f := fun s => if decide (0 <= s <= 5) then xts_encrypt key s (slice (0x200 * s) 0x200 h) else zeros 0x200).
  assert (forall i, zlen (f i) = 0x200) as Hf by (intros i; unfold f; destruct (decide _); [by apply xts_length, Hs|by apply zlen_zeros]).
  assert (encryptNcaHeader xts_encrypt h key = concat (f <$> [0; 1; 2; 3; 4; 5])) as -> by done. split.
  - cbn [fmap list_fmap concat]. rewrite !zlen_app, !Hf. done.
  - unfold read_header. rewrite (sectors_split h Hl) at 1. f_equal. apply list_fmap_ext. intros i s Hi.
    assert (0 <= s <= 5) as Hr by (apply list_elem_of_lookup_2 in Hi; repeat (apply elem_of_cons in Hi as [->|Hi]; [lia|]); by apply not_elem_of_nil in Hi).
    rewrite concat_sectors by done. unfold f. rewrite decide_True by done. by apply xts_inverse, Hs.
Qed.

(** What has been built after some sections. *)
Definition section_at (b : BufHelper) (h : Header) (k : nat) (P : FsHeader -> bytes -> Prop) : Prop :=
  let s := nth k (fs_table h) no_section in
  let f := nth k (fs_header h) no_fs_header in
  in_use s = 1 /\ nth k (fs_header_hash h) [] = sha256 (fs_header_bytes f) /\ media_start_offset s < media_end_offset s /\
  HEADER_SIZE <= media_start_offset s * 0x200 /\ media_end_offset s * 0x200 <= offset b /\
  media_start_offset s * 0x200 = section_start k h /\
  P f (slice (media_start_offset s * 0x200) ((media_end_offset s - media_start_offset s) * 0x200) (buf b)).
Definition built (Ps : list (FsHeader -> bytes -> Prop)) (h : Header) (b : BufHelper) : Prop :=
  writing (length Ps) h b /\ (forall k P, Ps !! k = Some P -> section_at b h k P) /\
  (forall k, (length Ps <= k)%nat -> nth k (fs_table h) no_section = no_section).

Lemma built_nothing : built [] no_header fresh.
Proof using.
  pose proof (zlen_header no_header no_header_wf) as Hz. unfold HEADER_SIZE in Hz. unfold fresh. rewrite write_append by done.
  cbn [buf offset no_buf app]. split; [|split].
  - split; [apply no_header_wf|]. cbn [buf offset section_start]. rewrite Hz. done.
  - intros k P Hk. by rewrite lookup_nil in Hk.
  - intros k _. do 4 (destruct k as [|k]; [done|]). by destruct k.
Qed.
Lemma built_next Ps P size h b r : built Ps h b -> (length Ps < 4)%nat -> section_written (length Ps) P size h b r ->
  exists h' b', r = Some (h', b') /\ built (Ps ++ [P]) h' b' /\ offset b <= offset b' <= offset b + size.
Proof using.
  intros ((Hwf & Hl & Hst & Hm & Hh) & Hs & Hun) Hlt (f & sec & b' & -> & Hbuf & Hsec & HP & Hw). cbv zeta in Hw.
  set (s := {| media_start_offset := offset b / 0x200; media_end_offset := offset b' / 0x200; in_use := 1 |}) in *.
  set (h' := with_fs_header sha256 (length Ps) f (with_section (length Ps) s h)) in *. exists h', b'. split; [done|].
  destruct Hw as (Hwf' & Hl' & Hst' & Hm' & Hh'). destruct Hwf as (W1 & W2 & W3 & _ & _).
  assert (offset b' = offset b + zlen sec) as Hoff by (rewrite <- Hl', Hbuf; zl).
  assert (forall x, x mod 0x200 = 0 -> x / 0x200 * 0x200 = x) as Hdiv by (intros x Hx; pose proof (Z.div_mod x 0x200 ltac:(lia)); lia).
  split; [|lia]. split; [by rewrite length_app, Nat.add_1_r|]. split.
  - intros k Q Hk. apply lookup_app_Some in Hk as [Hk|[Hge Hk]].
    + pose proof (lookup_lt_Some _ _ _ Hk) as Hlk. specialize (Hs k Q Hk). unfold section_at in *.
      assert (nth k (fs_table h') no_section = nth k (fs_table h) no_section /\ nth k (fs_header h') no_fs_header = nth k (fs_header h) no_fs_header /\
        nth k (fs_header_hash h') [] = nth k (fs_header_hash h) []) as (-> & -> & ->).
      { unfold h'. cbn [with_fs_header with_section fs_table fs_header fs_header_hash]. rewrite !nth_lookup, !list_lookup_insert_ne by lia. done. }
      destruct Hs as (A1 & A2 & A3 & A4 & A5 & A6 & A7). split_and!; try done; [lia| |].
      * rewrite A6. destruct k; [done|]. cbn [section_start]. unfold h'. cbn [with_fs_header with_section fs_table]. rewrite !nth_lookup, list_lookup_insert_ne by lia. done.
      * rewrite Hbuf, slice_app; [done|unfold HEADER_SIZE in A4; lia|lia|lia].
    + destruct (k - length Ps)%nat as [|n] eqn:En; [|by destruct n]. injection Hk as <-. assert (k = length Ps) as -> by lia.
      unfold section_at. assert (nth (length Ps) (fs_table h') no_section = s /\ nth (length Ps) (fs_header h') no_fs_header = f /\
        nth (length Ps) (fs_header_hash h') [] = sha256 (fs_header_bytes f)) as (-> & -> & ->).
      { unfold h'. cbn [with_fs_header with_section fs_table fs_header fs_header_hash]. rewrite !nth_lookup, !list_lookup_insert_eq by lia. done. }
      cbn [media_start_offset media_end_offset in_use s].
      rewrite Z.mul_sub_distr_r, !Hdiv by done. split_and!; try done.
      * assert (offset b / 0x200 * 0x200 < offset b' / 0x200 * 0x200) by (rewrite !Hdiv by done; lia). lia.
      * rewrite <- Hst. destruct (length Ps) as [|n] eqn:El; [done|]. cbn [section_start]. unfold h'. cbn [with_fs_header with_section fs_table].
        rewrite !nth_lookup, list_lookup_insert_ne by lia. done.
      * rewrite Hbuf. replace (offset b' - offset b) with (zlen sec) by lia. rewrite <- (app_nil_r (buf b ++ sec)), <- app_assoc. by rewrite slice_at.
  - intros k Hk. rewrite length_app in Hk. cbn [length] in Hk. unfold h'. cbn [with_fs_header with_section fs_table].
    rewrite !nth_lookup, list_lookup_insert_ne by lia. rewrite <- nth_lookup. apply Hun. lia.
Qed.

Lemma built_archive Ps h b tid key type : built Ps h b -> Ps <> [] ->
  archive_holds key tid type Ps (buf (finalizeNcaHeader xts_encrypt tid key type h b)).
Proof using xts_length xts_inverse.
  intros ((Hwf & Hl & Hst & Hm & Hh) & Hs & Hun) Hne. unfold finalizeNcaHeader.
  set (h' := {| magic := NCA3_MAGIC; content_type := type; nca_size := tell b; program_id := tid; sdk_version := _; fs_table := fs_table h;
                fs_header_hash := fs_header_hash h; fs_header := fs_header h |}).
  assert (zlen (header_bytes h') = HEADER_SIZE) as Hz by by apply zlen_header.
  destruct (header_encrypted (header_bytes h') key (drop (Z.to_nat HEADER_SIZE) (buf b)) Hz) as [He Hr].
  set (enc := encryptNcaHeader xts_encrypt (header_bytes h') key) in *.
  assert (buf (write enc (seek 0 b)) = enc ++ drop (Z.to_nat HEADER_SIZE) (buf b)) as Himg.
  { unfold write. cbn [buf offset seek]. rewrite Z.add_0_l, He, (proj2 (Z.ltb_ge (zlen (buf b)) HEADER_SIZE)) by lia. unfold overwrite. cbn [Z.to_nat take app]. rewrite take_0. cbn [app]. f_equal. f_equal.
    unfold zlen in He. lia. }
  rewrite Himg. set (img := enc ++ _) in *. assert (zlen img = offset b) as Hlen.
  { unfold img. zl. unfold zlen at 2. rewrite length_drop. unfold zlen, HEADER_SIZE in *. lia. }
  exists h'. split; [exact Hr|]. split; [exact Hwf|]. do 3 (split; [done|]). split; [done|]. split; [|split].
  - intros k P Hk. specialize (Hs k P Hk). destruct Hs as (A1 & A2 & A3 & A4 & A5 & A6 & A7). split; [|exact A6].
    unfold section_ok. change (fs_table h') with (fs_table h). change (fs_header h') with (fs_header h). change (fs_header_hash h') with (fs_header_hash h).
    split; [exact A1|]. split; [exact A2|]. split; [unfold HEADER_SIZE in A4; lia|]. split; [rewrite Hlen; exact A5|].
    replace (slice _ _ img) with (slice (media_start_offset (nth k (fs_table h) no_section) * 0x200)
      ((media_end_offset (nth k (fs_table h) no_section) - media_start_offset (nth k (fs_table h) no_section)) * 0x200) (buf b)); [exact A7|].
    cbn [fs_table h']. unfold img, slice. f_equal. rewrite drop_app_ge by (unfold zlen in He; lia). rewrite drop_drop. f_equal. unfold zlen, HEADER_SIZE in *. lia.
  - rewrite Hlen. exact Hst.
  - exact Hun.
Qed.

Definition named_archive (tid type : Z) (key : bytes) (sections : list (FsHeader -> bytes -> Prop)) (r : option NcaEntry) : Prop :=
  exists e, r = Some e /\ nca_hash e = sha256 (nca_data e) /\ archive_holds key tid type sections (nca_data e).
Definition logo_used (logo : list FileEntry) : bool :=
  match logo with [l1; l2] => negb (bool_decide (data l1 = [])) && negb (bool_decide (data l2 = [])) | _ => false end.

(** The three archives of a forwarder are what the console accepts: the header decrypts
    and names the title, the sections follow one another, every section's header has
    its hash, every block of a partition and of each level of a RomFS has its hash under
    the master hash, and the files that were put in are found in them. *)
Theorem archives_hold (tid : Z) (key : bytes) (types : Z * Z * Z) (exefs romfs logo control : list FileEntry) (cnmt_name cnmt : bytes) :
  Forall name_ok (exefs ++ logo) -> (Init.Byte.x00 ∉ cnmt_name) -> Forall rooted (romfs ++ control) -> (length romfs <= 2)%nat -> (length control <= 2)%nat ->
  total exefs < 2 ^ 28 -> total romfs < 2 ^ 28 -> total logo < 2 ^ 28 -> total control < 2 ^ 28 -> zlen cnmt_name + zlen cnmt + 64 < 2 ^ 28 ->
  named_archive tid 0 key (partition_holds exefs :: romfs_holds romfs :: (if logo_used logo then [partition_holds logo] else []))
    (createProgramNca sha256 xts_encrypt tid key types.1.1 exefs romfs logo) /\
  named_archive tid 2 key [romfs_holds control] (createControlNca sha256 xts_encrypt tid key types.1.2 control) /\
  named_archive tid 1 key [partition_holds [{| name := cnmt_name; data := cnmt |}]] (createMetaNca sha256 xts_encrypt tid key types.2 cnmt_name cnmt).
Proof using sha256_length xts_length xts_inverse.
  intros Hn Hcn Hr Hl1 Hl2 T1 T2 T3 T4 T5. apply list.Forall_app in Hn as [Hn1 Hn2], Hr as [Hr1 Hr2].
  pose proof built_nothing as Hb0. assert (offset fresh = HEADER_SIZE) as Hf by by destruct Hb0 as ((_ & <- & _) & _).
  unfold HEADER_SIZE in Hf. pose proof (total_nonneg exefs). pose proof (total_nonneg romfs). pose proof (total_nonneg logo).
  split; [|split].
  - unfold createProgramNca.
    destruct (built_next [] _ _ _ _ _ Hb0 ltac:(cbn; lia) (partition_written 0 exefs PFS0_EXEFS_HASH_BLOCK_SIZE no_header fresh ltac:(lia) (proj1 Hb0) ltac:(done) ltac:(lia) Hn1 ltac:(lia)))
      as (h1 & b1 & -> & Hb1 & O1). cbn [mbind option_bind].
    destruct (built_next [partition_holds exefs] _ _ _ _ _ Hb1 ltac:(cbn; lia) (romfs_written 1 romfs h1 b1 ltac:(lia) (proj1 Hb1) Hl1 Hr1 ltac:(lia) ltac:(lia)))
      as (h2 & b2 & -> & Hb2 & O2). cbn [mbind option_bind app].
    assert (logo_used logo = false -> named_archive tid 0 key [partition_holds exefs; romfs_holds romfs]
      (Some (nca_entry sha256 types.1.1 (finalizeNcaHeader xts_encrypt tid key 0 h2 b2)))) as Hplain.
    { intros _. eexists. split; [done|]. split; [done|]. by apply built_archive. }
    unfold logo_used. destruct logo as [|l1 [|l2 [|l3 logo]]]; try by apply Hplain.
    destruct (negb (bool_decide (data l1 = [])) && negb (bool_decide (data l2 = []))) eqn:El; [|by apply Hplain].
    destruct (built_next [partition_holds exefs; romfs_holds romfs] _ _ _ _ _ Hb2 ltac:(cbn; lia)
      (partition_written 2 [l1; l2] PFS0_LOGO_HASH_BLOCK_SIZE h2 b2 ltac:(lia) (proj1 Hb2) ltac:(done) ltac:(lia) Hn2 ltac:(lia))) as (h3 & b3 & -> & Hb3 & O3).
    cbn [mbind option_bind]. eexists. split; [done|]. split; [done|]. by apply built_archive.
  - unfold createControlNca. pose proof (total_nonneg control).
    destruct (built_next [] _ _ _ _ _ Hb0 ltac:(cbn; lia) (romfs_written 0 control no_header fresh ltac:(lia) (proj1 Hb0) Hl2 Hr2 ltac:(lia) ltac:(lia)))
      as (h1 & b1 & -> & Hb1 & O1). cbn [mbind option_bind]. eexists. split; [done|]. split; [done|]. by apply built_archive.
  - unfold createMetaNca. set (es := [{| name := cnmt_name; data := cnmt |}]).
    assert (total es = zlen cnmt_name + zlen cnmt + 64) as Ht by (cbn; lia). assert (Forall name_ok es) as Hes by by constructor.
    destruct (built_next [] _ _ _ _ _ Hb0 ltac:(cbn; lia) (partition_written 0 es PFS0_META_HASH_BLOCK_SIZE no_header fresh ltac:(lia) (proj1 Hb0) ltac:(done) ltac:(lia) Hes ltac:(lia)))
      as (h1 & b1 & -> & Hb1 & O1). cbn [mbind option_bind]. eexists. split; [done|]. split; [done|]. by apply built_archive.
Qed.
End whole.
End checks.

(** ** Findings and examples *)

Definition sample_sha (d : bytes) : bytes := take 32 (d ++ zeros 32).
Lemma sample_sha_length d : zlen (sample_sha d) = 32.
Proof. unfold sample_sha, zlen, zeros. rewrite length_take, length_app, length_replicate. lia. Qed.
Definition sample_xts (key : bytes) (sector : Z) (d : bytes) : bytes := reverse d.
Lemma sample_xts_length key sector d : zlen d = 0x200 -> zlen (sample_xts key sector d) = 0x200.
Proof. unfold sample_xts, zlen. by rewrite length_reverse. Qed.
Lemma sample_xts_inverse key sector d : zlen d = 0x200 -> sample_xts key sector (sample_xts key sector d) = d.
Proof. intros _. apply reverse_involutive. Qed.

Definition sample_exefs : list FileEntry := [{| name := bs "main"; data := bs "NSO0" |}; {| name := bs "main.npdm"; data := bs "META" |}].
Lemma archives_hold_witness :
  named_archive sample_sha sample_xts 0x0500000000001000 0 [] [partition_holds sample_sha sample_exefs; romfs_holds sample_sha sample_files]
    (createProgramNca sample_sha sample_xts 0x0500000000001000 [] 1 sample_exefs sample_files []) /\
  named_archive sample_sha sample_xts 0x0500000000001000 2 [] [romfs_holds sample_sha sample_files]
    (createControlNca sample_sha sample_xts 0x0500000000001000 [] 3 sample_files) /\
  named_archive sample_sha sample_xts 0x0500000000001000 1 [] [partition_holds sample_sha [{| name := bs "Application.cnmt"; data := bs "meta" |}]]
    (createMetaNca sample_sha sample_xts 0x0500000000001000 [] 2 (bs "Application.cnmt") (bs "meta")).
Proof.
  apply (archives_hold sample_sha sample_sha_length sample_xts sample_xts sample_xts_length sample_xts_inverse 0x0500000000001000 []
    (1, 3, 2) sample_exefs sample_files [] sample_files (bs "Application.cnmt") (bs "meta")); try done; try (cbn; lia).
  - repeat (apply list.Forall_cons; split; [by apply (bool_decide_unpack _)|]). constructor.
  - by apply (bool_decide_unpack _).
  - repeat (apply list.Forall_cons; split; [by eexists|]). constructor.
Defined.
