(* ===== verification/Forwarder.v ===== *)
(** Installing a forwarder ([forwarder_maker.cpp]): the patch of its program's meta
    data, the title it gets, and the calls of the console's services in their order,
    over any answers of theirs. The icon, the control data and the structures of the
    content meta are the platform's. *)

From stdpp Require Import gmultiset.
From S2P Require Import Prelude Bytes Text HostRecords Ownership LaunchArgs RomFs Nca.

(** ** The program's meta data *)

(** [memcpy] from and to a buffer; [None] outside of it. *)
Definition read_at (at_ n : Z) (l : bytes) : option bytes :=
  if (0 <=? at_) && (at_ + n <=? zlen l) then Some (slice at_ n l) else None.
Definition write_at (at_ : Z) (d l : bytes) : option bytes :=
  if (0 <=? at_) && (at_ + zlen d <=? zlen l) then Some (overwrite at_ d l) else None.

(** The loop from [i]; [None] outside of the buffer or when the fuel ends. *)
Fixpoint caps_loop (fuel : nat) (off size bitmask value i : Z) (npdm : bytes) : option (bool * bytes) :=
  match fuel with
  | O => None
  | S k =>
      if negb (i <? size) then Some (false, npdm)
      else
        let pattern := 2 ^ bitmask - 1 in
        let mask := Z.lor (2 ^ bitmask) pattern in
        cap ← read_at (u32 (off + i)) 4 npdm;
        if Z.land (le_value cap) mask =? pattern then
          npdm ← write_at (u32 (off + i)) (le_bytes 4 (Z.lor value pattern)) npdm; Some (true, npdm)
        else caps_loop k off size bitmask value (u32 (i + 4)) npdm
  end.
Definition patchNpdmKernelCaps (npdm : bytes) (off size bitmask value : Z) : option (bool * bytes) :=
  caps_loop (S (Z.to_nat size)) off size bitmask value 0 npdm.

Definition META_SIZE : Z := 0x80.
Definition ACI0_SIZE : Z := 0x40.
Definition ACID_SIZE : Z := 0x240.
Definition title_name : bytes := bs "Application" ++ zeros 5.
Definition product_code : bytes := zeros 0x10.

(** The capabilities are patched where the boot loader is new enough. *)
Definition patch_caps (exosphere : option Z) (off1 size1 off2 size2 : Z) (npdm : bytes) : option bytes :=
  match exosphere with
  | Some ver =>
      if 0x010800 <=? Z.shiftr ver 40 then
        '(_, npdm) ← patchNpdmKernelCaps npdm off1 size1 16 (2 ^ 19);
        '(_, npdm) ← patchNpdmKernelCaps npdm off2 size2 16 (2 ^ 19);
        Some npdm
      else Some npdm
  | None => Some npdm
  end.
(** [exosphere] is the version of the boot loader, if it says one. *)
Definition patchNpdm (exosphere : option Z) (tid : Z) (npdm : bytes) : option bytes :=
  meta ← read_at 0 META_SIZE npdm;
  let aci0_offset := get 4 0x70 meta in
  let acid_offset := get 4 0x78 meta in
  aci0 ← read_at aci0_offset ACI0_SIZE npdm;
  acid ← read_at acid_offset ACID_SIZE npdm;
  let meta := overwrite 0x30 product_code (overwrite 0x20 title_name meta) in
  let aci0' := overwrite 0x10 (le_bytes 8 tid) aci0 in
  let acid' := overwrite 0x218 (le_bytes 8 tid) (overwrite 0x210 (le_bytes 8 tid) acid) in
  npdm ← patch_caps exosphere (u32 (aci0_offset + get 4 0x30 aci0)) (get 4 0x34 aci0) (u32 (acid_offset + get 4 0x230 acid)) (get 4 0x234 acid) npdm;
  npdm ← write_at 0 meta npdm;
  npdm ← write_at aci0_offset aci0' npdm;
  write_at acid_offset acid' npdm.

(** ** The title *)

Definition title_bits (hash : bytes) : Z := Z.land (le_value (take 8 hash)) 0x00FFFFFFFFFFF000.
Definition old_tid (hash : bytes) : Z := Z.lor 0x0100000000000000 (title_bits hash).
Definition new_tid (hash : bytes) : Z := Z.lor 0x0500000000000000 (title_bits hash).

(** ** The calls *)

Inductive call :=
  | SplCryptoInitialize | SplCryptoExit | GenerateAesKek | GenerateAesKey (half : Z)
  | NcmInitialize | NcmExit | NsInitialize | NsExit | SplInitialize | SplGetConfig | SplExit
  | OpenContentStorage | GeneratePlaceHolderId | DeletePlaceHolder | CreatePlaceHolder (content_id : bytes) (size : Z)
  | WritePlaceHolder (content : bytes) | ContentDelete (content_id : bytes) | ContentRegister (content_id : bytes) | ContentStorageClose
  | OpenContentMetaDatabase | ContentMetaDatabaseSet | ContentMetaDatabaseCommit | ContentMetaDatabaseClose
  | DeleteApplicationCompletely (tid : Z) | DeleteApplicationEntity (tid : Z)
  | GetApplicationManager | PushApplicationRecord (tid : Z) | InvalidateControlCache (tid : Z) | ServiceClose.
Definition event : Type := call * Z.
Definition failed (rc : Z) : bool := negb (rc =? 0).

(** A step answers a value, or ends the function with a result. [None] is an access
    outside of a buffer, or the end of a fuel. *)
Definition M (A : Type) : Type := list event -> option (list event * (Z + A)).
#[export] Instance M_ret : MRet M := fun A x t => Some (t, inr x).
#[export] Instance M_bind : MBind M := fun A B k m t =>
  match m t with
  | None => None
  | Some (t, inl rc) => Some (t, inl rc)
  | Some (t, inr x) => k x t
  end.

Section install.
Context (sha256 : bytes -> bytes).
Context (xts_encrypt : bytes -> Z -> bytes -> bytes).
(** What a call answers after the calls before it. *)
Context (answers : list event -> call -> Z).
(** The results for a refused path and for a missing file. *)
Context (bad_input not_found : Z).
(** The key material the crypto service derived, and the configuration it answered. *)
Context (header_key : list event -> bytes) (config : list event -> Z).

Definition ask (c : call) : M Z := fun t => let rc := answers t c in Some (t ++ [(c, rc)], inr rc).
Definition finish {A} (rc : Z) : M A := fun t => Some (t, inl rc).
Fixpoint calls (cs : list call) : M unit :=
  match cs with [] => mret tt | c :: rest => ask c;; calls rest end.
Definition lift {A} (o : option A) : M A := fun t => x ← o; Some (t, inr x).

(** [if (R_FAILED(rc)) { cleanup; return rc; }] *)
Definition guard (rc : Z) (cleanup : list call) : M unit := if failed rc then calls cleanup;; finish rc else mret tt.
Definition attempt (c : call) (cleanup : list call) : M unit := rc ← ask c; guard rc cleanup.

Definition deriveHeaderKey : M Z :=
  rc ← ask GenerateAesKek;
  if failed rc then mret rc
  else rc ← ask (GenerateAesKey 0); if failed rc then mret rc else ask (GenerateAesKey 1).

(** The question [patchNpdm] asks for the boot loader's version. *)
Definition exosphere_version : M (option Z) :=
  rc ← ask SplInitialize;
  if failed rc then mret None
  else
    rc ← ask SplGetConfig;
    ver ← (fun t => Some (t, inr (if failed rc then None else Some (config t))));
    ask SplExit;; mret ver.

Definition exits : list call := [NsExit; NcmExit; SplCryptoExit].

(** One archive. *)
Definition store_archive (e : NcaEntry) : M unit :=
  let content_id := take 16 (nca_hash e) in
  attempt GeneratePlaceHolderId (ContentStorageClose :: exits);;
  ask DeletePlaceHolder;;
  attempt (CreatePlaceHolder content_id (zlen (nca_data e))) (ContentStorageClose :: exits);;
  attempt (WritePlaceHolder (nca_data e)) (ContentStorageClose :: exits);;
  ask (ContentDelete content_id);;
  attempt (ContentRegister content_id) (ContentStorageClose :: exits).
Fixpoint store_archives (l : list NcaEntry) : M unit :=
  match l with [] => mret tt | e :: rest => store_archive e;; store_archives rest end.

Definition pushApplicationRecord (tid : Z) : M Z :=
  rc ← ask GetApplicationManager;
  if failed rc then mret rc else rc ← ask (PushApplicationRecord tid); ask ServiceClose;; mret rc.
Definition invalidateApplicationControlCache (tid : Z) : M Z :=
  rc ← ask GetApplicationManager;
  if failed rc then mret rc else rc ← ask (InvalidateControlCache tid); ask ServiceClose;; mret rc.

(** What the installation is made from: the files it read, the control data for a
    title, and the content meta for two archives. *)
Record parts := { launch_path : bytes; icon : bytes; main_nso : bytes; main_npdm : bytes; nacp : Z -> bytes; cnmt : Z -> list NcaEntry -> bytes;
  cnmt_name : Z -> bytes; content_types : Z * Z * Z }.

(** The archives, with the old and the new title. *)
Definition build_archives (p : parts) (host : Host) (app : App) (key : bytes) (exosphere : option Z) : option (list NcaEntry * Z * Z) :=
  let nro_path := formatNroPathForForwarder (launch_path p) in
  let args := forwarder_args nro_path host app in
  let hash := sha256 (nro_path ++ args) in
  let tid := new_tid hash in
  npdm ← patchNpdm exosphere tid (main_npdm p);
  program ← createProgramNca sha256 xts_encrypt tid key (content_types p).1.1
    [{| name := bs "main"; data := main_nso p |}; {| name := bs "main.npdm"; data := npdm |}]
    [{| name := bs "/nextArgv"; data := args |}; {| name := bs "/nextNroPath"; data := nro_path |}] [];
  control ← createControlNca sha256 xts_encrypt tid key (content_types p).1.2
    [{| name := bs "/control.nacp"; data := nacp p tid |}; {| name := bs "/icon_AmericanEnglish.dat"; data := icon p |}];
  meta ← createMetaNca sha256 xts_encrypt tid key (content_types p).2 (cnmt_name p tid) (cnmt p tid [program; control]);
  Some ([program; control; meta], old_tid hash, tid).

(** The function up to the archives, and from there. *)
Definition prepare (p : parts) (host : Host) (app : App) : M (list NcaEntry * Z * Z) :=
  if bool_decide (formatNroPathForForwarder (launch_path p) = []) then finish bad_input
  else if bool_decide (icon p = []) then finish not_found
  else if bool_decide (main_nso p = []) || bool_decide (main_npdm p = []) then finish not_found
  else
    attempt SplCryptoInitialize [];;
    rc ← deriveHeaderKey; guard rc [SplCryptoExit];;
    key ← (fun t => Some (t, inr (header_key t)));
    attempt NcmInitialize [SplCryptoExit];;
    attempt NsInitialize [NcmExit; SplCryptoExit];;
    exosphere ← exosphere_version;
    lift (build_archives p host app key exosphere).
Definition commit (archives : list NcaEntry) (old tid : Z) : M Z :=
  attempt OpenContentStorage exits;;
  store_archives archives;;
  ask ContentStorageClose;;
  attempt OpenContentMetaDatabase exits;;
  rc ← ask ContentMetaDatabaseSet;
  rc ← (if failed rc then mret rc else ask ContentMetaDatabaseCommit);
  ask ContentMetaDatabaseClose;;
  guard rc exits;;
  ask (DeleteApplicationCompletely old);;
  ask (DeleteApplicationEntity tid);;
  rc ← pushApplicationRecord tid;
  rc ← (if failed rc then mret rc else invalidateApplicationControlCache tid);
  calls exits;;
  mret rc.
Definition installForwarder (p : parts) (host : Host) (app : App) : M Z :=
  '(archives, old, tid) ← prepare p host app; commit archives old tid.
End install.

(** ** The patch *)

Lemma zlen_overwrite at_ d l : 0 <= at_ -> at_ + zlen d <= zlen l -> zlen (overwrite at_ d l) = zlen l.
Proof. intros Ha Hl. unfold overwrite. zl. unfold zlen in *. rewrite length_take, length_drop. lia. Qed.
Lemma slice_overwrite_in at_ d l a n : 0 <= at_ -> at_ + zlen d <= zlen l -> at_ <= a -> 0 <= n -> a + n <= at_ + zlen d ->
  slice a n (overwrite at_ d l) = slice (a - at_) n d.
Proof.
  intros Ha Hl H1 H2 H3. unfold overwrite. assert (zlen (take (Z.to_nat at_) l) = at_) as Ht.
  { unfold zlen in *. rewrite length_take. lia. }
  replace a with (zlen (take (Z.to_nat at_) l) + (a - at_)) at 1 by lia. rewrite slice_skip by lia. apply slice_app; lia.
Qed.
Lemma slice_overwrite_out at_ d l a n : 0 <= at_ -> at_ + zlen d <= zlen l -> 0 <= a -> 0 <= n -> a + n <= zlen l ->
  a + n <= at_ \/ at_ + zlen d <= a -> slice a n (overwrite at_ d l) = slice a n l.
Proof.
  intros Ha Hl H1 H2 H3 Ho. unfold overwrite. assert (zlen (take (Z.to_nat at_) l) = at_) as Ht by (unfold zlen in *; rewrite length_take; lia).
  destruct Ho as [Ho|Ho].
  - rewrite slice_app by lia. apply slice_take; unfold zlen in *; lia.
  - rewrite app_assoc. replace a with (zlen (take (Z.to_nat at_) l ++ d) + (a - at_ - zlen d)) at 1 by (zl).
    rewrite slice_skip by lia. unfold slice. rewrite drop_drop. f_equal. f_equal. unfold zlen in *. lia.
Qed.
Lemma read_ok at_ n l : 0 <= at_ -> at_ + n <= zlen l -> read_at at_ n l = Some (slice at_ n l).
Proof. intros H1 H2. unfold read_at. by rewrite (proj2 (Z.leb_le _ _)), (proj2 (Z.leb_le _ _)) by lia. Qed.
Lemma write_ok at_ d l : 0 <= at_ -> at_ + zlen d <= zlen l -> write_at at_ d l = Some (overwrite at_ d l).
Proof. intros H1 H2. unfold write_at. by rewrite (proj2 (Z.leb_le _ _)), (proj2 (Z.leb_le _ _)) by lia. Qed.

(** The capabilities are patched in place. *)
Lemma caps_loop_total fuel off size bitmask value : 0 <= off -> off + size < 2 ^ 32 -> forall i l, 0 <= i -> i <= size -> (size - i) mod 4 = 0 -> off + size <= zlen l ->
  size - i < Z.of_nat fuel -> exists found l', caps_loop fuel off size bitmask value i l = Some (found, l') /\ zlen l' = zlen l.
Proof.
  intros Ho Hs. induction fuel as [|k IH]; intros i l Hi His Hm Hl Hf; [lia|]. cbn [caps_loop].
  destruct (Z.ltb_spec i size); cbn [negb]; [|by eexists _, _].
  assert (i + 4 <= size) by (pose proof (Z.div_mod (size - i) 4 ltac:(lia)); lia).
  unfold u32. rewrite (Z.mod_small (off + i)), (Z.mod_small (i + 4)) by lia. rewrite read_ok by lia. cbn [mbind option_bind].
  destruct (_ =? _).
  - rewrite write_ok by (rewrite ?zlen_le_bytes; lia). cbn [mbind option_bind]. eexists _, _. split; [done|]. apply zlen_overwrite; [lia|rewrite zlen_le_bytes; lia].
  - apply IH; try lia. replace (size - (i + 4)) with (size - i + (-1) * 4) by lia. by rewrite Z.mod_add.
Qed.

(** Meta data whose parts lie inside of it. *)
Definition aci0_at (npdm : bytes) : Z := get 4 0x70 npdm.
Definition acid_at (npdm : bytes) : Z := get 4 0x78 npdm.
Definition region_ok (npdm : bytes) (off size : Z) : Prop := 0 <= off /\ 0 <= size /\ size mod 4 = 0 /\ off + size <= zlen npdm.
Definition npdm_ok (npdm : bytes) : Prop :=
  META_SIZE <= zlen npdm < 2 ^ 32 /\
  META_SIZE <= aci0_at npdm /\ aci0_at npdm + ACI0_SIZE <= zlen npdm /\ META_SIZE <= acid_at npdm /\ acid_at npdm + ACID_SIZE <= zlen npdm /\
  (aci0_at npdm + ACI0_SIZE <= acid_at npdm \/ acid_at npdm + ACID_SIZE <= aci0_at npdm) /\
  region_ok npdm (aci0_at npdm + get 4 (aci0_at npdm + 0x30) npdm) (get 4 (aci0_at npdm + 0x34) npdm) /\
  region_ok npdm (acid_at npdm + get 4 (acid_at npdm + 0x230) npdm) (get 4 (acid_at npdm + 0x234) npdm).

Lemma slice_slice {A} (l : list A) a n b m : 0 <= a -> 0 <= b -> 0 <= m -> b + m <= n -> slice b m (slice a n l) = slice (a + b) m l.
Proof.
  intros Ha Hb Hm Hn. unfold slice. rewrite skipn_firstn_comm, firstn_firstn, drop_drop. f_equal; [lia|]. f_equal. lia.
Qed.

Lemma slice_all_of {A} (l : list A) n : zlen l = n -> slice 0 n l = l.
Proof. intros <-. unfold slice. change (Z.to_nat 0) with 0%nat. rewrite to_nat_zlen, drop_0. by apply take_ge. Qed.

Lemma caps_patched npdm off size l : region_ok npdm off size -> zlen npdm < 2 ^ 32 -> zlen l = zlen npdm ->
  exists found l', patchNpdmKernelCaps l (u32 off) size 16 (2 ^ 19) = Some (found, l') /\ zlen l' = zlen npdm.
Proof.
  intros (H1 & H2 & H3 & H4) Hs Hl. unfold patchNpdmKernelCaps. unfold u32. rewrite (Z.mod_small off) by lia. rewrite <- Hl.
  apply caps_loop_total; try lia. by rewrite Z.sub_0_r.
Qed.

Lemma patch_caps_total exosphere npdm off1 size1 off2 size2 : zlen npdm < 2 ^ 32 -> region_ok npdm off1 size1 -> region_ok npdm off2 size2 ->
  exists l, patch_caps exosphere (u32 off1) size1 (u32 off2) size2 npdm = Some l /\ zlen l = zlen npdm.
Proof.
  intros Hl H1 H2. unfold patch_caps. destruct exosphere as [ver|]; [|by exists npdm]. destruct (_ <=? _); [|by exists npdm].
  destruct (caps_patched npdm off1 size1 npdm H1 Hl eq_refl) as (f1 & l1 & -> & Hl1). cbn [mbind option_bind].
  destruct (caps_patched npdm off2 size2 l1 H2 Hl Hl1) as (f2 & l2 & -> & Hl2). by exists l2.
Qed.

(** The patch of well-formed meta data: it stays in place and in size, gets the title of
    the forwarder in all three places and its name, whatever boot loader is asked. *)
Theorem npdm_patched (exosphere : option Z) (tid : Z) (npdm : bytes) : npdm_ok npdm -> 0 <= tid < 2 ^ 64 ->
  exists out, patchNpdm exosphere tid npdm = Some out /\ zlen out = zlen npdm /\
    get 8 (aci0_at npdm + 0x10) out = tid /\ get 8 (acid_at npdm + 0x210) out = tid /\ get 8 (acid_at npdm + 0x218) out = tid /\
    slice 0x20 16 out = title_name /\ aci0_at out = aci0_at npdm /\ acid_at out = acid_at npdm.
Proof.
  intros (Hlen & Ha1 & Ha2 & Hd1 & Hd2 & Hdis & Hk1 & Hk2) Htid. unfold META_SIZE, ACI0_SIZE, ACID_SIZE in *.
  unfold patchNpdm, META_SIZE, ACI0_SIZE, ACID_SIZE. rewrite (read_ok 0) by lia. cbn [mbind option_bind].
  assert (get 4 0x70 (slice 0 0x80 npdm) = aci0_at npdm) as -> by (unfold aci0_at, get; by rewrite slice_slice by lia).
  assert (get 4 0x78 (slice 0 0x80 npdm) = acid_at npdm) as -> by (unfold acid_at, get; by rewrite slice_slice by lia).
  rewrite !read_ok by lia. cbn [mbind option_bind].
  assert (forall a, 0 <= a -> a + 4 <= 0x40 -> get 4 a (slice (aci0_at npdm) 0x40 npdm) = get 4 (aci0_at npdm + a) npdm) as Hg1 by (intros a H1 H2; unfold get; by rewrite slice_slice by lia).
  assert (forall a, 0 <= a -> a + 4 <= 0x240 -> get 4 a (slice (acid_at npdm) 0x240 npdm) = get 4 (acid_at npdm + a) npdm) as Hg2 by (intros a H1 H2; unfold get; by rewrite slice_slice by lia).
  rewrite !Hg1, !Hg2 by lia.
  set (meta := overwrite 0x30 product_code _). set (aci0 := overwrite 0x10 _ _). set (acid := overwrite 0x218 _ _).
  destruct (patch_caps_total exosphere npdm _ _ _ _ ltac:(lia) Hk1 Hk2) as (l & -> & Hl). cbn [mbind option_bind].
  assert (zlen meta = 0x80) as Hm by (unfold meta; rewrite !zlen_overwrite; rewrite ?zlen_slice by lia; try done; rewrite zlen_overwrite; rewrite ?zlen_slice by lia; done).
  assert (zlen aci0 = 0x40) as Ha0 by (unfold aci0; rewrite zlen_overwrite; rewrite ?zlen_le_bytes, ?zlen_slice by lia; done).
  assert (zlen acid = 0x240) as Hd0.
  { unfold acid. rewrite !zlen_overwrite; rewrite ?zlen_overwrite; rewrite ?zlen_le_bytes, ?zlen_slice by lia; done. }
  rewrite (write_ok 0) by lia. cbn [mbind option_bind].
  assert (zlen (overwrite 0 meta l) = zlen npdm) as L1 by (rewrite zlen_overwrite; lia).
  rewrite write_ok by lia. cbn [mbind option_bind].
  assert (zlen (overwrite (aci0_at npdm) aci0 (overwrite 0 meta l)) = zlen npdm) as L2 by (rewrite zlen_overwrite; lia).
  rewrite write_ok by lia. set (out := overwrite (acid_at npdm) _ _). exists out.
  assert (zlen out = zlen npdm) as L3 by (unfold out; rewrite zlen_overwrite; lia).
  assert (forall a n, 0 <= a -> 0 <= n -> a + n <= 0x80 -> slice a n out = slice a n meta) as Gm.
  { intros a n H1 H2 H3. unfold out. rewrite !slice_overwrite_out by lia. rewrite slice_overwrite_in by lia. f_equal. lia. }
  assert (forall a, 0 <= a -> a + 8 <= 0x40 -> get 8 (aci0_at npdm + a) out = get 8 a aci0) as Ga.
  { intros a H1 H2. unfold get, out. rewrite slice_overwrite_out by lia. rewrite slice_overwrite_in by lia. do 2 f_equal. lia. }
  assert (forall a, 0 <= a -> a + 8 <= 0x240 -> get 8 (acid_at npdm + a) out = get 8 a acid) as Gd.
  { intros a H1 H2. unfold get, out. rewrite slice_overwrite_in by lia. do 2 f_equal. lia. }
  rewrite Ga, !Gd, Gm by lia. unfold aci0_at at 1, acid_at at 1. unfold get. rewrite !Gm by lia.
  assert (zlen (le_bytes 8 tid) = 8) as Ht8 by apply zlen_le_bytes.
  assert (le_value (slice 0 8 (le_bytes 8 tid)) = tid) as Htv by (rewrite slice_all_of by lia; apply le_value_bytes; done).
  assert (zlen (slice (aci0_at npdm) 0x40 npdm) = 0x40) as Z1 by (apply zlen_slice; lia).
  assert (zlen (slice (acid_at npdm) 0x240 npdm) = 0x240) as Z2 by (apply zlen_slice; lia).
  assert (zlen (slice 0 0x80 npdm) = 0x80) as Z3 by (apply zlen_slice; lia).
  split_and!; [done|done| | | | | |].
  - unfold aci0. by rewrite slice_overwrite_in by lia.
  - unfold acid. rewrite slice_overwrite_out by (rewrite ?zlen_overwrite; lia). by rewrite slice_overwrite_in by lia.
  - unfold acid. by rewrite slice_overwrite_in by (rewrite ?zlen_overwrite; lia).
  - unfold meta. assert (zlen title_name = 16 /\ zlen product_code = 16) as [Zt Zp] by done. rewrite slice_overwrite_out by (rewrite ?zlen_overwrite; lia).
    rewrite slice_overwrite_in by lia. by apply slice_all_of.
  - unfold meta. assert (zlen title_name = 16 /\ zlen product_code = 16) as [Zt Zp] by done. rewrite !slice_overwrite_out by (rewrite ?zlen_overwrite; lia).
    by rewrite slice_slice by lia.
  - unfold meta. assert (zlen title_name = 16 /\ zlen product_code = 16) as [Zt Zp] by done. rewrite !slice_overwrite_out by (rewrite ?zlen_overwrite; lia).
    by rewrite slice_slice by lia.
Qed.

(** ** The services *)

Inductive service := Crypto | Ncm | Ns | Spl | Storage | Database | Manager.
#[export] Instance service_eq_dec : EqDecision service.
Proof. solve_decision. Defined.
#[export] Instance service_countable : Countable service.
Proof.
  refine (inj_countable' (fun s => match s with Crypto => 0 | Ncm => 1 | Ns => 2 | Spl => 3 | Storage => 4 | Database => 5 | Manager => 6 end)%nat
    (fun n => match n with 0 => Crypto | 1 => Ncm | 2 => Ns | 3 => Spl | 4 => Storage | 5 => Database | _ => Manager end)%nat _).
  by intros [].
Defined.

(** A call that opens leaves its service open when it succeeded. *)
Definition opened (s : service) (rc : Z) : gmultiset service := if failed rc then ∅ else {[+ s +]}.
#[export] Instance service_uses : Uses event service := {|
  needs e := match e.1 with
    | SplCryptoInitialize | NcmInitialize | NsInitialize | SplInitialize => ∅
    | SplCryptoExit | GenerateAesKek | GenerateAesKey _ => {[+ Crypto +]}
    | NcmExit | OpenContentStorage | OpenContentMetaDatabase => {[+ Ncm +]}
    | NsExit | DeleteApplicationCompletely _ | DeleteApplicationEntity _ | GetApplicationManager => {[+ Ns +]}
    | SplGetConfig | SplExit => {[+ Spl +]}
    | GeneratePlaceHolderId | DeletePlaceHolder | CreatePlaceHolder _ _ | WritePlaceHolder _ | ContentDelete _ | ContentRegister _
    | ContentStorageClose => {[+ Storage +]}
    | ContentMetaDatabaseSet | ContentMetaDatabaseCommit | ContentMetaDatabaseClose => {[+ Database +]}
    | PushApplicationRecord _ | InvalidateControlCache _ | ServiceClose => {[+ Manager +]}
    end;
  gives e := match e.1 with
    | SplCryptoInitialize => opened Crypto e.2
    | NcmInitialize => opened Ncm e.2
    | NsInitialize => opened Ns e.2
    | SplInitialize => opened Spl e.2
    | SplCryptoExit | NcmExit | NsExit | SplExit | ContentStorageClose | ContentMetaDatabaseClose | ServiceClose => ∅
    | GenerateAesKek | GenerateAesKey _ => {[+ Crypto +]}
    | OpenContentStorage => {[+ Ncm +]} ⊎ opened Storage e.2
    | OpenContentMetaDatabase => {[+ Ncm +]} ⊎ opened Database e.2
    | DeleteApplicationCompletely _ | DeleteApplicationEntity _ => {[+ Ns +]}
    | GetApplicationManager => {[+ Ns +]} ⊎ opened Manager e.2
    | SplGetConfig => {[+ Spl +]}
    | GeneratePlaceHolderId | DeletePlaceHolder | CreatePlaceHolder _ _ | WritePlaceHolder _ | ContentDelete _ | ContentRegister _ => {[+ Storage +]}
    | ContentMetaDatabaseSet | ContentMetaDatabaseCommit => {[+ Database +]}
    | PushApplicationRecord _ | InvalidateControlCache _ => {[+ Manager +]}
    end;
|}.

(** What has to have happened before a title is deleted: the archives are registered and
    the new title is in the database. *)
Definition deletes (c : call) : bool := match c with DeleteApplicationCompletely _ | DeleteApplicationEntity _ => true | _ => false end.
Definition installed (archives : list NcaEntry) : list event :=
  ((fun e => (ContentRegister (take 16 (nca_hash e)), 0)) <$> archives) ++ [(ContentMetaDatabaseCommit, 0)].
(** Each deletion comes after something that allows it. *)
Definition deletes_last (allowed : call -> list event -> Prop) (t : list event) : Prop :=
  forall before c rc after, t = before ++ (c, rc) :: after -> deletes c = true -> allowed c before.

Section outcome.
Context (answers : list event -> call -> Z).
Context (allowed : call -> list event -> Prop).

(** The services that are open after [t], what is known to have happened, and that
    nothing was deleted too early. *)
Definition state (a : gmultiset service) (known : list event) (t : list event) : Prop :=
  run t ∅ = Some a /\ deletes_last allowed t /\ forall e, e ∈ known -> e ∈ t.
Definition ended (rc : Z) (t : list event) : Prop := run t ∅ = Some ∅ /\ deletes_last allowed t /\ failed rc = true.
Definition triple {A} (P : list event -> Prop) (m : M A) (Q : A -> list event -> Prop) : Prop :=
  forall t, P t -> exists t' r, m t = Some (t', r) /\ match r with inr x => Q x t' | inl rc => ended rc t' end.

Lemma triple_ret {A} P (x : A) : triple P (mret x) (fun y t => y = x /\ P t).
Proof using. intros t Ht. by exists t, (inr x). Qed.
Lemma triple_bind {A B} P (m : M A) (k : A -> M B) Q R : triple P m Q -> (forall x, triple (Q x) (k x) R) -> triple P (m ≫= k) R.
Proof using.
  intros Hm Hk t Ht. destruct (Hm t Ht) as (t1 & [rc|x] & E & Hr); unfold mbind, M_bind; rewrite E; [by exists t1, (inl rc)|]. by apply Hk.
Qed.
Lemma triple_weaken {A} (P P' : list event -> Prop) (m : M A) (Q Q' : A -> list event -> Prop) :
  triple P m Q -> (forall t, P' t -> P t) -> (forall x t, Q x t -> Q' x t) -> triple P' m Q'.
Proof using. intros Hm HP HQ t Ht. destruct (Hm t (HP t Ht)) as (t1 & [rc|x] & E & Hr); exists t1; eexists; split; [exact E|done|exact E|by apply HQ]. Qed.

(** A call uses what it needs, and a deletion comes when everything needed is known. *)
Lemma triple_ask c a known : needs (c, 0) ⊆ a -> (deletes c = true -> forall t, (forall e, e ∈ known -> e ∈ t) -> allowed c t) ->
  triple (state a known) (ask answers c) (fun rc => state (gives (c, rc) ⊎ (a ∖ needs (c, 0))) ((c, rc) :: known)).
Proof using.
  intros Hn Hd t (H1 & H2 & H3). exists (t ++ [(c, answers t c)]), (inr (answers t c)). split; [done|]. split_and!.
  - rewrite moves_run_app, H1. cbn [mbind option_bind run]. unfold next. change (needs (c, answers t c)) with (needs (c, 0)).
    by rewrite bool_decide_true by done.
  - intros before c' rc' after E Hdel. destruct after as [|x after] using rev_ind.
    + apply app_inj_tail in E as [-> E]. injection E as -> _. by apply Hd.
    + rewrite app_comm_cons, app_assoc in E. apply app_inj_tail in E as [E _]. by eapply H2.
  - intros e He. apply elem_of_app. apply elem_of_cons in He as [->|He]; [right; by left|left; by apply H3].
Qed.
Lemma triple_use c a b known : needs (c, 0) ⊆ a -> (forall rc, gives (c, rc) ⊎ (a ∖ needs (c, 0)) = b) -> (deletes c = true -> forall t, (forall e, e ∈ known -> e ∈ t) -> allowed c t) ->
  triple (state a known) (ask answers c) (fun rc => state b ((c, rc) :: known)).
Proof using.
  intros Hn Hg Hd. eapply triple_weaken; [by apply triple_ask|done|]. cbv beta. intros rc t Ht. by rewrite Hg in Ht.
Qed.

(** Calls that close what is open. *)
Fixpoint closes (cs : list call) (a : gmultiset service) : Prop :=
  match cs with
  | [] => a = ∅
  | c :: rest => deletes c = false /\ needs (c, 0) ⊆ a /\ exists b, (forall rc, gives (c, rc) ⊎ (a ∖ needs (c, 0)) = b) /\ closes rest b
  end.
Lemma triple_calls cs : forall a known, closes cs a -> triple (state a known) (calls answers cs) (fun _ => state ∅ known).
Proof using.
  induction cs as [|c cs IH]; intros a known Hc; cbn [calls closes] in *.
  - subst a. eapply triple_weaken; [apply triple_ret|done|]. by intros x t [_ Ht].
  - destruct Hc as (Hd & Hn & b & Hg & Hc). eapply triple_bind; [eapply triple_use; [done|exact Hg|by rewrite Hd]|].
    intros rc. eapply triple_weaken; [by apply (IH b ((c, rc) :: known))|done|]. cbv beta. intros _ t (H1 & H2 & H3). split_and!; try done.
    intros e He. apply H3. by right.
Qed.
Lemma triple_guard rc cleanup a known : (failed rc = true -> closes cleanup a) ->
  triple (state a known) (guard answers rc cleanup) (fun _ t => state a known t /\ failed rc = false).
Proof using.
  intros Hc. unfold guard. destruct (failed rc) eqn:E.
  - eapply triple_bind; [by apply triple_calls, Hc|]. intros _ t (H1 & H2 & _). exists t, (inl rc). by split.
  - eapply triple_weaken; [apply triple_ret|done|]. by intros _ t [_ Ht].
Qed.

(** A call whose failure ends the function. *)
Lemma triple_attempt c cleanup a b known : needs (c, 0) ⊆ a -> deletes c = false -> gives (c, 0) ⊎ (a ∖ needs (c, 0)) = b ->
  (forall rc, failed rc = true -> closes cleanup (gives (c, rc) ⊎ (a ∖ needs (c, 0)))) ->
  triple (state a known) (attempt answers c cleanup) (fun _ => state b ((c, 0) :: known)).
Proof using.
  intros Hn Hd Hg Hc. unfold attempt. eapply triple_bind; [apply triple_ask; [done|by rewrite Hd]|]. intros rc.
  eapply triple_weaken; [apply triple_guard, Hc|done|]. cbv beta. intros _ t [Ht Hf]. unfold failed in Hf. apply negb_false_iff, Z.eqb_eq in Hf as ->. by rewrite Hg in Ht.
Qed.

(** Calls that leave everything open as it was. *)
Definition keeps (c : call) (a : gmultiset service) : Prop := needs (c, 0) ⊆ a /\ forall rc, gives (c, rc) = needs (c, 0).
Lemma keeps_all c a : keeps c a -> forall rc, gives (c, rc) ⊎ (a ∖ needs (c, 0)) = a.
Proof using. intros [Hn Hg] rc. rewrite Hg. symmetry. by apply gmultiset_disj_union_difference. Qed.
Lemma triple_keep c a known : keeps c a -> (deletes c = true -> forall t, (forall e, e ∈ known -> e ∈ t) -> allowed c t) ->
  triple (state a known) (ask answers c) (fun rc => state a ((c, rc) :: known)).
Proof using. intros Hk Hd. apply triple_use; [apply Hk|by apply keeps_all|done]. Qed.
Lemma triple_try c cleanup a known : keeps c a -> deletes c = false -> closes cleanup a ->
  triple (state a known) (attempt answers c cleanup) (fun _ => state a ((c, 0) :: known)).
Proof using. intros Hk Hd Hc. apply triple_attempt; [apply Hk|done|by apply keeps_all|]. intros rc _. by rewrite keeps_all. Qed.
End outcome.

(** ** What an installation leaves *)

Section installing.
Context (sha256 : bytes -> bytes) (xts_encrypt : bytes -> Z -> bytes -> bytes).
Context (answers : list event -> call -> Z).

Definition sessions : gmultiset service := {[+ Crypto; Ncm; Ns +]}.
Ltac services := repeat match goal with H : ?P |- _ => match type of P with Prop => clear H end end; cbn [needs gives service_uses fst snd opened failed closes negb Z.eqb exits]; unfold sessions; multiset_solver.

Lemma state_knows allowed a known known' t : state allowed a known t -> (forall e, e ∈ known' -> e ∈ known) -> state allowed a known' t.
Proof using. intros (H1 & H2 & H3) Hk. split_and!; try done. intros e He. by apply H3, Hk. Qed.
Lemma ended_finish {A} allowed rc (P : list event -> Prop) (Q : A -> list event -> Prop) : failed rc = true -> (forall t, P t -> state allowed ∅ [] t) -> triple allowed P (finish rc) Q.
Proof using. intros Hf HP t Ht. exists t, (inl rc). destruct (HP t Ht) as (H1 & H2 & _). by repeat split. Qed.
Lemma failed_gives s rc : failed rc = true -> opened s rc = ∅.
Proof using. unfold opened. by intros ->. Qed.

Lemma exits_close : closes exits sessions.
Proof using.
  cbn [closes exits]. split_and!; [done|services|]. exists {[+ Crypto; Ncm +]}. split; [intros rc; services|]. split_and!; [done|services|].
  exists {[+ Crypto +]}. split; [intros rc; services|]. split_and!; [done|services|]. exists ∅. split; [intros rc; services|done].
Qed.
Lemma storage_exits_close : closes (ContentStorageClose :: exits) (sessions ⊎ {[+ Storage +]}).
Proof using.
  cbn [closes]. split_and!; [done|services|]. exists sessions. split; [intros rc; services|apply exits_close].
Qed.

Definition stored (l : list NcaEntry) : list event :=
  l ≫= fun e => [(WritePlaceHolder (nca_data e), 0); (ContentRegister (take 16 (nca_hash e)), 0)].
Lemma store_archive_triple allowed e known : triple allowed (state allowed (sessions ⊎ {[+ Storage +]}) known) (store_archive answers e)
  (fun _ => state allowed (sessions ⊎ {[+ Storage +]}) (stored [e] ++ known)).
Proof using.
  set (a := sessions ⊎ {[+ Storage +]}). pose proof storage_exits_close as Hc. fold a in Hc.
  assert (forall c, needs (c, 0) = {[+ Storage +]} -> (forall rc, gives (c, rc) = {[+ Storage +]}) -> keeps c a) as Hk.
  { intros c H1 H2. split; [rewrite H1; unfold a; services|]. intros rc. by rewrite H1, H2. }
  unfold store_archive.
  eapply triple_bind; [apply triple_try; [by apply Hk|done|exact Hc]|]. intros [].
  eapply triple_bind; [apply triple_keep; [by apply Hk|done]|]. intros rc1.
  eapply triple_bind; [apply triple_try; [by apply Hk|done|exact Hc]|]. intros [].
  eapply triple_bind; [apply triple_try; [by apply Hk|done|exact Hc]|]. intros [].
  eapply triple_bind; [apply triple_keep; [by apply Hk|done]|]. intros rc2.
  eapply triple_weaken; [apply triple_try; [by apply Hk|done|exact Hc]|done|].
  cbv beta. intros _ t Ht. eapply state_knows; [exact Ht|]. cbn. intros ev. rewrite !elem_of_cons. tauto.
Qed.
Lemma store_archives_triple allowed l : forall known, triple allowed (state allowed (sessions ⊎ {[+ Storage +]}) known) (store_archives answers l)
  (fun _ => state allowed (sessions ⊎ {[+ Storage +]}) (stored l ++ known)).
Proof using.
  induction l as [|e l IH]; intros known; cbn [store_archives].
  - eapply triple_weaken; [apply triple_ret|done|]. by intros _ t [_ Ht].
  - eapply triple_bind; [apply store_archive_triple|]. intros []. eapply triple_weaken; [apply IH|done|]. cbv beta. intros _ t Ht.
    eapply state_knows; [exact Ht|]. intros ev. change (stored (e :: l)) with (stored [e] ++ stored l). rewrite !elem_of_app. tauto.
Qed.

Section run.
Context (bad_input not_found : Z).
Context (bad_input_failed : failed bad_input = true) (not_found_failed : failed not_found = true).
Context (header_key : list event -> bytes) (config : list event -> Z).
Context (p : parts) (host : Host) (app : App).
Context (build : forall key exosphere, is_Some (build_archives sha256 xts_encrypt p host app key exosphere)).
(** Some archives the function may have built, with their titles. *)
Definition made (r : list NcaEntry * Z * Z) : Prop := exists key exosphere, build_archives sha256 xts_encrypt p host app key exosphere = Some r.
(** A title is deleted when the archives of its successor are registered. *)
Definition replaced_by (c : call) (before : list event) : Prop :=
  exists archives old tid, made (archives, old, tid) /\ (c = DeleteApplicationCompletely old \/ c = DeleteApplicationEntity tid) /\ forall e, e ∈ installed archives -> e ∈ before.
#[local] Abbreviation hoare := (@triple replaced_by _).
#[local] Abbreviation holds := (state replaced_by).

Lemma derive_triple : hoare (holds {[+ Crypto +]} []) (deriveHeaderKey answers) (fun _ => holds {[+ Crypto +]} []).
Proof using.
  assert (forall c, needs (c, 0) = {[+ Crypto +]} -> (forall rc, gives (c, rc) = {[+ Crypto +]}) -> deletes c = false -> forall known,
    hoare (holds {[+ Crypto +]} known) (ask answers c) (fun _ => holds {[+ Crypto +]} [])) as Hk.
  { intros c H1 H2 H3 known. eapply triple_weaken; [apply triple_keep; [|by rewrite H3]|done|].
    - split; [by rewrite H1|]. intros rc. by rewrite H1, H2.
    - cbv beta. intros rc t Ht. eapply state_knows; [exact Ht|]. intros e He. by apply not_elem_of_nil in He. }
  assert (forall rc, hoare (holds {[+ Crypto +]} []) (mret rc : M Z) (fun _ => holds {[+ Crypto +]} [])) as Hr.
  { intros rc. eapply triple_weaken; [apply triple_ret|done|]. by intros _ t [_ Ht]. }
  unfold deriveHeaderKey. eapply triple_bind; [by apply Hk|]. intros rc. destruct (failed rc); [apply Hr|].
  eapply triple_bind; [by apply Hk|]. intros rc2. destruct (failed rc2); [apply Hr|by apply Hk].
Qed.
Lemma exosphere_triple : hoare (holds sessions []) (exosphere_version answers config) (fun _ => holds sessions []).
Proof using.
  clear header_key. unfold exosphere_version. eapply triple_bind; [apply triple_ask; [services|done]|]. intros rc. cbn [gives service_uses fst snd]. unfold opened.
  destruct (failed rc) eqn:E.
  - eapply triple_weaken; [apply triple_ret| |].
    + intros t Ht. exact Ht.
    + cbv beta. intros _ t [_ (H1 & H2 & _)]. split_and!; [rewrite H1; f_equal; services|done|]. intros e He. by apply not_elem_of_nil in He.
  - eapply triple_bind with (Q := fun _ t => exists known, holds ({[+ Spl +]} ⊎ sessions) known t).
    + eapply triple_weaken; [apply (triple_keep answers _ SplGetConfig ({[+ Spl +]} ⊎ sessions)); [|done]| |].
      * split; [services|done].
      * intros t (H1 & H2 & H3). split_and!; [rewrite H1; f_equal; services|done|exact H3].
      * cbv beta. intros x t Ht. eexists. exact Ht.
    + intros rc2. eapply triple_bind with (Q := fun _ t => exists known, holds ({[+ Spl +]} ⊎ sessions) known t).
      { intros t Ht. by exists t, (inr (if failed rc2 then None else Some (config t))). }
      intros ver. eapply triple_bind with (Q := fun _ => holds sessions []).
      * intros t [known Ht]. revert t Ht. eapply triple_weaken; [eapply (triple_use answers _ SplExit ({[+ Spl +]} ⊎ sessions) sessions); [services|intros x; services|done]|done|].
        cbv beta. intros x t Ht. eapply state_knows; [exact Ht|]. intros e He. by apply not_elem_of_nil in He.
      * intros x. eapply triple_weaken; [apply triple_ret|done|]. by intros _ t [_ Ht].
Qed.

Lemma prepare_triple : hoare (holds ∅ []) (prepare sha256 xts_encrypt answers bad_input not_found header_key config p host app)
  (fun r t => made r /\ holds sessions [] t).
Proof using bad_input_failed not_found_failed build.
  assert (forall known, hoare (holds ∅ known) (finish bad_input) (fun r t => made r /\ holds sessions [] t) /\
    hoare (holds ∅ known) (finish not_found) (fun r t => made r /\ holds sessions [] t)) as Hend.
  { intros known. split; (apply (ended_finish replaced_by); [done|]; intros t Ht; eapply state_knows; [exact Ht|]; intros e He; by apply not_elem_of_nil in He). }
  unfold prepare. destruct (bool_decide _); [apply Hend|]. destruct (bool_decide _); [apply Hend|]. destruct (_ || _); [apply Hend|]. clear Hend.
  eapply triple_bind.
  { apply (triple_attempt answers _ SplCryptoInitialize [] ∅ {[+ Crypto +]}); [services|done|services|]. intros rc Hf. cbn [closes gives service_uses fst snd]. rewrite failed_gives by done. services. }
  intros []. eapply triple_bind.
  { eapply triple_weaken; [apply derive_triple| |done]. intros t Ht. eapply state_knows; [exact Ht|]. intros e He. by apply not_elem_of_nil in He. }
  intros rc. eapply triple_bind.
  { apply (triple_guard answers _ rc [SplCryptoExit]). intros _. cbn [closes]. split_and!; [done|services|]. exists ∅. split; [intros x; services|done]. }
  intros []. eapply triple_bind with (Q := fun _ => holds {[+ Crypto +]} []).
  { intros t [Ht _]. by exists t, (inr (header_key t)). }
  intros key. eapply triple_bind.
  { apply (triple_attempt answers _ NcmInitialize [SplCryptoExit] {[+ Crypto +]} {[+ Crypto; Ncm +]}); [services|done|services|]. intros r Hf. cbn [closes gives service_uses fst snd]. rewrite failed_gives by done.
    split_and!; [done|services|]. exists ∅. split; [intros x; services|done]. }
  intros []. eapply triple_bind.
  { apply (triple_attempt answers _ NsInitialize [NcmExit; SplCryptoExit] {[+ Crypto; Ncm +]} sessions); [services|done|services|]. intros r Hf. cbn [closes gives service_uses fst snd]. rewrite failed_gives by done.
    split_and!; [done|services|]. exists {[+ Crypto +]}. split; [intros x; services|]. split_and!; [done|services|]. exists ∅. split; [intros x; services|done]. }
  intros []. eapply triple_bind.
  { eapply triple_weaken; [apply exosphere_triple| |done]. intros t Ht. eapply state_knows; [exact Ht|]. intros e He. by apply not_elem_of_nil in He. }
  intros exosphere t Ht. unfold lift. destruct (build key exosphere) as [r Hr]. rewrite Hr. exists t, (inr r). split; [done|]. split; [by exists key, exosphere|done].
Qed.

(** What was pushed is known when the result says so. *)
Lemma manager_triple (c : call) known : needs (c, 0) = {[+ Manager +]} -> (forall rc, gives (c, rc) = {[+ Manager +]}) -> deletes c = false ->
  hoare (holds sessions known) (rc ← ask answers GetApplicationManager; if failed rc then mret rc else rc ← ask answers c; ask answers ServiceClose;; mret rc : M Z)
    (fun rc => holds sessions (if failed rc then known else (c, 0) :: known)).
Proof using.
  clear header_key config. intros H1 H2 H3. eapply triple_bind; [apply triple_ask; [services|done]|]. intros rc. cbn [gives service_uses fst snd]. unfold opened. destruct (failed rc) eqn:E.
  - eapply triple_weaken; [apply triple_ret|intros t Ht; exact Ht|]. cbv beta. intros x t [-> (G1 & G2 & G3)]. rewrite E. split_and!; [rewrite G1; f_equal; services|done|].
    intros e He. apply G3. by right.
  - eapply triple_bind with (Q := fun x => holds (sessions ⊎ {[+ Manager +]}) ((c, x) :: known)).
    + eapply triple_weaken; [apply (triple_keep answers _ c (sessions ⊎ {[+ Manager +]})); [|by rewrite H3]| |].
      * split; [rewrite H1; clear; unfold sessions; multiset_solver|]. intros x. by rewrite H1, H2.
      * intros t (G1 & G2 & G3). split_and!; [rewrite G1; f_equal; services|done|exact G3].
      * cbv beta. intros x t Ht. eapply state_knows; [exact Ht|]. intros e. rewrite !elem_of_cons. tauto.
    + intros x. eapply triple_bind; [apply (triple_use answers _ ServiceClose (sessions ⊎ {[+ Manager +]}) sessions); [services|intros y; services|done]|].
      intros y. eapply triple_weaken; [apply triple_ret|intros t Ht; exact Ht|]. cbv beta. intros z t [-> Ht]. eapply state_knows; [exact Ht|].
      intros e. destruct (failed x) eqn:Ex; rewrite !elem_of_cons; [tauto|]. unfold failed in Ex. apply negb_false_iff, Z.eqb_eq in Ex as ->. tauto.
Qed.

Definition database_kept : list event := [(ContentMetaDatabaseSet, 0); (ContentMetaDatabaseCommit, 0)].
Lemma database_triple {A} known (rest : M A) Q : hoare (holds sessions (database_kept ++ known)) rest Q ->
  hoare (holds (sessions ⊎ {[+ Database +]}) known)
  (rc ← ask answers ContentMetaDatabaseSet; rc ← (if failed rc then mret rc else ask answers ContentMetaDatabaseCommit);
   ask answers ContentMetaDatabaseClose;; guard answers rc exits;; rest) Q.
Proof using.
  clear header_key config. intros Hrest. set (a := sessions ⊎ {[+ Database +]}).
  assert (forall c, needs (c, 0) = {[+ Database +]} -> (forall rc, gives (c, rc) = {[+ Database +]}) -> keeps c a) as Hk.
  { intros c H1 H2. split; [rewrite H1; unfold a; clear; unfold sessions; multiset_solver|]. intros rc. by rewrite H1, H2. }
  assert (forall rc : Z, rc = 0 <-> failed rc = false) as Hf by (intros rc; unfold failed; rewrite negb_false_iff, Z.eqb_eq; done).
  eapply triple_bind; [apply triple_keep; [by apply Hk|done]|]. intros set.
  eapply triple_bind with (Q := fun rc => holds a (if failed rc then known else database_kept ++ known)).
  - destruct (failed set) eqn:Es.
    + eapply triple_weaken; [apply triple_ret|intros t Ht; exact Ht|]. cbv beta. intros x t [-> Ht]. rewrite Es. eapply state_knows; [exact Ht|]. intros e He. by right.
    + apply Hf in Es as ->. eapply triple_weaken; [apply triple_keep; [by apply Hk|done]|intros t Ht; exact Ht|]. cbv beta. intros x t Ht.
      eapply state_knows; [exact Ht|]. intros e. destruct (failed x) eqn:Ex; cbn [database_kept Datatypes.app]; rewrite !elem_of_cons; [tauto|]. apply Hf in Ex as ->. tauto.
  - intros rc. eapply triple_bind; [apply (triple_use answers _ ContentMetaDatabaseClose a sessions); [unfold a; services|intros y; unfold a; services|done]|].
    intros y. eapply triple_bind; [apply (triple_guard answers _ rc exits); intros _; apply exits_close|].
    intros []. eapply triple_weaken; [exact Hrest| |done].
    intros t [Ht Hr]. rewrite Hr in Ht. eapply state_knows; [exact Ht|]. intros e He. by right.
Qed.

Definition recorded (tid : Z) : list event := [(InvalidateControlCache tid, 0); (PushApplicationRecord tid, 0)].
Lemma record_triple tid known : hoare (holds sessions known)
  (rc ← pushApplicationRecord answers tid; rc ← (if failed rc then mret rc else invalidateApplicationControlCache answers tid); calls answers exits;; mret rc)
  (fun rc => holds ∅ ((if failed rc then [] else recorded tid) ++ known)).
Proof using.
  clear header_key config. eapply triple_bind; [apply (manager_triple (PushApplicationRecord tid) known eq_refl (fun _ => eq_refl) eq_refl)|]. intros rc.
  eapply triple_bind with (Q := fun rc => holds sessions ((if failed rc then [] else recorded tid) ++ known)).
  - destruct (failed rc) eqn:E.
    + eapply triple_weaken; [apply triple_ret|intros t Ht; exact Ht|]. cbv beta. intros x t [-> Ht]. by rewrite E.
    + eapply triple_weaken; [apply (manager_triple (InvalidateControlCache tid) ((PushApplicationRecord tid, 0) :: known) eq_refl (fun _ => eq_refl) eq_refl)|intros t Ht; exact Ht|].
      cbv beta. intros x t Ht. eapply state_knows; [exact Ht|].
      intros e. destruct (failed x); cbn [recorded Datatypes.app]; rewrite !elem_of_cons; tauto.
  - intros x. eapply triple_bind; [apply triple_calls, exits_close|]. intros []. eapply triple_weaken; [apply triple_ret|intros t Ht; exact Ht|].
    cbv beta. by intros y t [-> Ht].
Qed.

Lemma commit_triple archives old tid : made (archives, old, tid) -> hoare (holds sessions []) (commit answers archives old tid)
  (fun rc => holds ∅ ((if failed rc then [] else recorded tid) ++ database_kept ++ stored archives)).
Proof using.
  clear header_key config. intros Hmade. pose proof exits_close as Hc. unfold commit. eapply triple_bind.
  { apply (triple_attempt answers _ OpenContentStorage exits sessions (sessions ⊎ {[+ Storage +]})); [services|done|services|]. intros r Hf. cbn [gives service_uses fst snd]. rewrite failed_gives by done.
    match goal with |- closes _ ?x => replace x with sessions by services end. done. }
  intros []. eapply triple_bind; [apply store_archives_triple|]. intros [].
  eapply triple_bind; [apply (triple_use answers _ ContentStorageClose (sessions ⊎ {[+ Storage +]}) sessions); [services|intros y; services|done]|]. intros closed.
  eapply triple_bind with (Q := fun _ => holds (sessions ⊎ {[+ Database +]}) (stored archives)).
  { eapply triple_weaken; [apply (triple_attempt answers _ OpenContentMetaDatabase exits sessions (sessions ⊎ {[+ Database +]}) (stored archives)); [services|done|services|]| |].
    - intros r Hf. cbn [gives service_uses fst snd]. rewrite failed_gives by done. match goal with |- closes _ ?x => replace x with sessions by services end. done.
    - intros t Ht. eapply state_knows; [exact Ht|]. intros e. rewrite elem_of_cons, elem_of_app. tauto.
    - cbv beta. intros x t Ht. eapply state_knows; [exact Ht|]. intros e He. by right. }
  intros [].
  assert (forall e, e ∈ installed archives -> e ∈ database_kept ++ stored archives) as Hin.
  { intros e He. unfold installed in He. apply elem_of_app in He as [He|He].
    - apply elem_of_app. right. apply list_elem_of_fmap in He as (x & -> & Hx). unfold stored. apply list_elem_of_bind. exists x. split; [|done]. right. by left.
    - apply list_elem_of_singleton in He as ->. right. by left. }
  apply database_triple. eapply triple_bind.
  { apply (triple_keep answers _ (DeleteApplicationCompletely old)); [split; [services|done]|]. intros _ t Ht. exists archives, old, tid. split_and!; [done|by left|]. intros e He. by apply Ht, Hin. }
  intros r1. eapply triple_bind.
  { apply (triple_keep answers _ (DeleteApplicationEntity tid)); [split; [services|done]|]. intros _ t Ht. exists archives, old, tid. split_and!; [done|by right|]. intros e He. by apply Ht; right; apply Hin. }
  intros r2. eapply triple_weaken; [apply (record_triple tid (database_kept ++ stored archives))| |done].
  intros t Ht. eapply state_knows; [exact Ht|]. intros e He. by right; right.
Qed.
End run.
End installing.

(** ** The whole installation *)

Lemma title_bits_bound hash : 0 <= title_bits hash < 2 ^ 56.
Proof.
  unfold title_bits. set (v := le_value _). assert (Z.land v 0x00FFFFFFFFFFF000 = Z.land (Z.land v 0x00FFFFFFFFFFF000) (Z.ones 56)) as ->.
  { by rewrite <- Z.land_assoc. }
  rewrite Z.land_ones by lia. apply Z.mod_pos_bound. lia.
Qed.
(** A forwarder's title says in its top byte what it is, and the rest is the hash's. *)
Lemma new_tid_value hash : new_tid hash = 5 * 2 ^ 56 + title_bits hash.
Proof. unfold new_tid. change 0x0500000000000000 with (Z.shiftl 5 56). apply lor_shiftl_add; [lia|apply title_bits_bound]. Qed.
Lemma old_tid_value hash : old_tid hash = 1 * 2 ^ 56 + title_bits hash.
Proof. unfold old_tid. change 0x0100000000000000 with (Z.shiftl 1 56). apply lor_shiftl_add; [lia|apply title_bits_bound]. Qed.

Section forwarder.
Context (sha256 : bytes -> bytes) (xts_encrypt xts_decrypt : bytes -> Z -> bytes -> bytes).
Context (sha256_length : forall d, zlen (sha256 d) = 32).
Context (xts_length : forall key sector d, zlen d = 0x200 -> zlen (xts_encrypt key sector d) = 0x200).
Context (xts_inverse : forall key sector d, zlen d = 0x200 -> xts_decrypt key sector (xts_encrypt key sector d) = d).
Context (p : parts) (host : Host) (app : App).

Definition nro_path : bytes := formatNroPathForForwarder (launch_path p).
Definition args : bytes := forwarder_args nro_path host app.
Definition title : Z := new_tid (sha256 (nro_path ++ args)).
(** The files that go into the archives. *)
Definition exefs_files (npdm : bytes) : list FileEntry := [{| name := bs "main"; data := main_nso p |}; {| name := bs "main.npdm"; data := npdm |}].
Definition argument_files : list FileEntry := [{| name := bs "/nextArgv"; data := args |}; {| name := bs "/nextNroPath"; data := nro_path |}].
Definition control_files : list FileEntry := [{| name := bs "/control.nacp"; data := nacp p title |}; {| name := bs "/icon_AmericanEnglish.dat"; data := icon p |}].

(** The program's meta data is well-formed and everything fits into 32 bits. *)
Record parts_ok : Prop := {
  ok_npdm : npdm_ok (main_npdm p);
  ok_program : zlen (main_nso p) + zlen (main_npdm p) + 0x100 < 2 ^ 28;
  ok_arguments : zlen args + zlen nro_path + 0x100 < 2 ^ 28;
  ok_control : zlen (nacp p title) + zlen (icon p) + 0x100 < 2 ^ 28;
  ok_meta : forall l, zlen (cnmt_name p title) + zlen (cnmt p title l) + 64 < 2 ^ 28;
  ok_meta_name : Init.Byte.x00 ∉ cnmt_name p title;
}.
Context (ok : parts_ok).

(** What the archives of the forwarder hold: a program with the patched meta data and
    the two files that start the application, the control data and the content meta. *)
Definition holds_forwarder (key : bytes) (exosphere : option Z) (archives : list NcaEntry) : Prop :=
  exists npdm program control meta, archives = [program; control; meta] /\
    patchNpdm exosphere title (main_npdm p) = Some npdm /\ get 8 (aci0_at npdm + 0x10) npdm = title /\
    named_archive sha256 xts_decrypt title 0 key [partition_holds sha256 (exefs_files npdm); romfs_holds sha256 argument_files] (Some program) /\
    named_archive sha256 xts_decrypt title 2 key [romfs_holds sha256 control_files] (Some control) /\
    named_archive sha256 xts_decrypt title 1 key [partition_holds sha256 [{| name := cnmt_name p title; data := cnmt p title [program; control] |}]] (Some meta).

Lemma bind_some {A B} (o : option A) x (k : A -> option B) r : o = Some x -> k x = r -> (o ≫= k) = r.
Proof using. by intros -> <-. Qed.
Lemma total_cons e l : total (e :: l) = zlen (name e) + zlen (data e) + 64 + total l.
Proof using. done. Qed.
Lemma build_archives_steps key exosphere : build_archives sha256 xts_encrypt p host app key exosphere =
  (npdm ← patchNpdm exosphere title (main_npdm p);
   program ← createProgramNca sha256 xts_encrypt title key (content_types p).1.1 (exefs_files npdm) argument_files [];
   control ← createControlNca sha256 xts_encrypt title key (content_types p).1.2 control_files;
   meta ← createMetaNca sha256 xts_encrypt title key (content_types p).2 (cnmt_name p title) (cnmt p title [program; control]);
   Some ([program; control; meta], old_tid (sha256 (nro_path ++ args)), title)).
Proof using. done. Qed.
Lemma files_fit npdm : zlen npdm = zlen (main_npdm p) -> total (exefs_files npdm) < 2 ^ 28 /\ total argument_files < 2 ^ 28 /\ total control_files < 2 ^ 28.
Proof using ok.
  intros Hn. destruct ok as [_ Hprog Harg Hctl _ _]. unfold exefs_files, argument_files, control_files. rewrite !total_cons. cbn [name data]. change (total []) with 0.
  change (zlen (bs "main")) with 4. change (zlen (bs "main.npdm")) with 9. change (zlen (bs "/nextArgv")) with 9. change (zlen (bs "/nextNroPath")) with 12.
  change (zlen (bs "/control.nacp")) with 13. change (zlen (bs "/icon_AmericanEnglish.dat")) with 25. lia.
Qed.
Lemma names_fit npdm : Forall name_ok (exefs_files npdm ++ []) /\ Forall rooted (argument_files ++ control_files).
Proof using.
  split; repeat (apply list.Forall_cons; split; [first [by apply (bool_decide_unpack _)|by eexists]|]); constructor.
Qed.
Lemma archives_of tid key types exefs romfs control nm m : Forall name_ok (exefs ++ []) -> Forall rooted (romfs ++ control) -> (length romfs <= 2)%nat -> (length control <= 2)%nat ->
  total exefs < 2 ^ 28 /\ total romfs < 2 ^ 28 /\ total control < 2 ^ 28 -> (Init.Byte.x00 ∉ nm) -> zlen nm + zlen m + 64 < 2 ^ 28 ->
  named_archive sha256 xts_decrypt tid 0 key [partition_holds sha256 exefs; romfs_holds sha256 romfs] (createProgramNca sha256 xts_encrypt tid key types.1.1 exefs romfs []) /\
  named_archive sha256 xts_decrypt tid 2 key [romfs_holds sha256 control] (createControlNca sha256 xts_encrypt tid key types.1.2 control) /\
  named_archive sha256 xts_decrypt tid 1 key [partition_holds sha256 [{| name := nm; data := m |}]] (createMetaNca sha256 xts_encrypt tid key types.2 nm m).
Proof using sha256_length xts_length xts_inverse.
  intros N1 N2 L1 L2 (T1 & T2 & T3) Hn Hm. assert (total [] < 2 ^ 28) as T0 by (cbn [total foldr]; lia).
  exact (archives_hold sha256 sha256_length xts_encrypt xts_decrypt xts_length xts_inverse tid key types exefs romfs [] control nm m N1 Hn N2 L1 L2 T1 T2 T0 T3 Hm).
Qed.
Lemma archives_each key npdm l : zlen npdm = zlen (main_npdm p) ->
  named_archive sha256 xts_decrypt title 0 key [partition_holds sha256 (exefs_files npdm); romfs_holds sha256 argument_files]
    (createProgramNca sha256 xts_encrypt title key (content_types p).1.1 (exefs_files npdm) argument_files []) /\
  named_archive sha256 xts_decrypt title 2 key [romfs_holds sha256 control_files] (createControlNca sha256 xts_encrypt title key (content_types p).1.2 control_files) /\
  named_archive sha256 xts_decrypt title 1 key [partition_holds sha256 [{| name := cnmt_name p title; data := cnmt p title l |}]]
    (createMetaNca sha256 xts_encrypt title key (content_types p).2 (cnmt_name p title) (cnmt p title l)).
Proof using sha256_length xts_length xts_inverse ok.
  intros Hn. destruct (names_fit npdm) as [N1 N2]. pose proof (files_fit npdm Hn) as Hfit.
  assert (length argument_files <= 2)%nat as L1 by (unfold argument_files; cbn [length]; lia).
  assert (length control_files <= 2)%nat as L2 by (unfold control_files; cbn [length]; lia).
  exact (archives_of title key (content_types p) (exefs_files npdm) argument_files control_files (cnmt_name p title) (cnmt p title l) N1 N2 L1 L2 Hfit (ok_meta_name ok) (ok_meta ok l)).
Qed.

Lemma archives_built key exosphere : exists archives, build_archives sha256 xts_encrypt p host app key exosphere = Some (archives, old_tid (sha256 (nro_path ++ args)), title) /\
  holds_forwarder key exosphere archives.
Proof using sha256_length xts_length xts_inverse ok.
  assert (0 <= title < 2 ^ 64) as Ht by (unfold title; rewrite new_tid_value; pose proof (title_bits_bound (sha256 (nro_path ++ args))); lia).
  destruct (npdm_patched exosphere title (main_npdm p) (ok_npdm ok) Ht) as (npdm & En & Ln & Hg & _ & _ & _ & Ha & _). rewrite <- Ha in Hg.
  destruct (archives_each key npdm [] Ln) as ((program & Ep & Hp) & (control & Ec & Hc) & _).
  destruct (archives_each key npdm [program; control] Ln) as (_ & _ & (meta & Em & Hm)).
  exists [program; control; meta]. split.
  - rewrite build_archives_steps. by repeat (eapply bind_some; [eassumption|]).
  - exists npdm, program, control, meta. split_and!; [done|exact En|exact Hg| | |]; eexists; (split; [reflexivity|]); assumption.
Qed.

(** C15: the installation, whatever the console answers to each call: it ends, its calls only
    use services that are open and leave none open, and a title is deleted only when the
    archives of the forwarder are registered and the new title is committed. It either
    stops with a failure, or went on to the end with the archives of the forwarder
    written and registered under their hashes; then it succeeded exactly if the record
    of the application was pushed and its cache dropped. *)
Theorem install_outcome (answers : list event -> call -> Z) (bad_input not_found : Z) (header_key : list event -> bytes) (config : list event -> Z) :
  failed bad_input = true -> failed not_found = true ->
  exists t r, installForwarder sha256 xts_encrypt answers bad_input not_found header_key config p host app [] = Some (t, r) /\
    run t ∅ = Some ∅ /\ deletes_last (replaced_by sha256 xts_encrypt p host app) t /\
    match r with
    | inl rc => failed rc = true
    | inr rc => exists key exosphere archives, build_archives sha256 xts_encrypt p host app key exosphere = Some (archives, old_tid (sha256 (nro_path ++ args)), title) /\
        holds_forwarder key exosphere archives /\ (forall e, e ∈ database_kept ++ stored archives -> e ∈ t) /\
        (failed rc = false -> forall e, e ∈ recorded title -> e ∈ t)
    end.
Proof using sha256_length xts_length xts_inverse ok.
  intros Hb Hn. assert (forall key exosphere, is_Some (build_archives sha256 xts_encrypt p host app key exosphere)) as Hbuild.
  { intros key exosphere. destruct (archives_built key exosphere) as (archives & -> & _). by eexists. }
  assert (state (replaced_by sha256 xts_encrypt p host app) ∅ [] []) as H0.
  { split_and!; [done| |by intros e He]. intros before c rc after E. by destruct before. }
  destruct (prepare_triple sha256 xts_encrypt answers bad_input not_found Hb Hn header_key config p host app Hbuild [] H0) as (t1 & [rc|[[archives old] tid]] & E1 & H1).
  - exists t1, (inl rc). unfold installForwarder, mbind, M_bind. rewrite E1. destruct H1 as (G1 & G2 & G3). done.
  - destruct H1 as [(key & exosphere & Hmade) H1].
    destruct (commit_triple sha256 xts_encrypt answers p host app archives old tid ltac:(by exists key, exosphere) t1 H1) as (t2 & [rc|rc] & E2 & H2).
    all: exists t2; eexists; (split; [unfold installForwarder; unfold mbind at 1, M_bind at 1; rewrite E1; exact E2|]); destruct H2 as (G1 & G2 & G3); (split; [done|]); (split; [done|]).
    { done. }
    destruct (archives_built key exosphere) as (l & E & Hl). rewrite Hmade in E. injection E as -> -> ->. exists key, exosphere, l. split_and!; [done|done| |].
    + intros e He. apply G3, elem_of_app. by right.
    + intros Hf e He. rewrite Hf in G3. apply G3, elem_of_app. by left.
Qed.
End forwarder.

(** ** Findings and examples *)

Definition sample_npdm : bytes := zeros 0x70 ++ le_bytes 4 0x80 ++ le_bytes 4 0x40 ++ le_bytes 4 0xC0 ++ le_bytes 4 0x240 ++ zeros 0x280.
Definition sample_parts : parts := {| launch_path := bs "/switch/moonlight.nro"; icon := bs "JFIF"; main_nso := bs "NSO0"; main_npdm := sample_npdm;
  nacp := fun _ => bs "nacp"; cnmt := fun _ _ => bs "meta"; cnmt_name := fun _ => bs "Application.cnmt"; content_types := (1, 3, 2) |}.
Definition sample_app : App := {| ap_name := bs "Half Life"; ap_id := 7 |}.
Lemma sample_parts_ok : parts_ok sample_sha sample_parts desk sample_app.
Proof.
  constructor.
  - unfold npdm_ok, region_ok. vm_compute. repeat split; try done. by left.
  - by vm_compute.
  - by vm_compute.
  - by vm_compute.
  - intros l. by vm_compute.
  - cbn [cnmt_name sample_parts]. by apply (bool_decide_unpack _).
Qed.
Lemma install_outcome_witness :
  exists t r, installForwarder sample_sha sample_xts (fun _ _ => 0) 1 2 (fun _ => zeros 32) (fun _ => 0) sample_parts desk sample_app [] = Some (t, r) /\
    run t ∅ = Some ∅ /\ deletes_last (replaced_by sample_sha sample_xts sample_parts desk sample_app) t /\
    match r with
    | inl rc => failed rc = true
    | inr rc => exists key exosphere archives, build_archives sample_sha sample_xts sample_parts desk sample_app key exosphere =
          Some (archives, old_tid (sample_sha (nro_path sample_parts ++ args sample_parts desk sample_app)), title sample_sha sample_parts desk sample_app) /\
        holds_forwarder sample_sha sample_xts sample_parts desk sample_app key exosphere archives /\ (forall e, e ∈ database_kept ++ stored archives -> e ∈ t) /\
        (failed rc = false -> forall e, e ∈ recorded (title sample_sha sample_parts desk sample_app) -> e ∈ t)
    end.
Proof.
  exact (install_outcome sample_sha sample_xts sample_xts sample_sha_length sample_xts_length sample_xts_inverse sample_parts desk sample_app sample_parts_ok
    (fun _ _ => 0) 1 2 (fun _ => zeros 32) (fun _ => 0) eq_refl eq_refl).
Defined.

(** The first capability of the kind is the one that is replaced. *)
Example caps_patched_in_place : patchNpdmKernelCaps (le_bytes 4 0x1FFFF ++ le_bytes 4 0xFFFF) 0 8 16 (2 ^ 19) = Some (true, le_bytes 4 0x1FFFF ++ le_bytes 4 0x8FFFF).
Proof. by vm_compute. Qed.

(** A failed write leaves its placeholder behind: only the services are closed. *)
Example placeholder_left : let e := {| nca_data := bs "NCA3"; nca_type := 1; nca_hash := zeros 32 |} in
  store_archive (fun _ c => match c with WritePlaceHolder _ => 5 | _ => 0 end) e [] =
  Some ([(GeneratePlaceHolderId, 0); (DeletePlaceHolder, 0); (CreatePlaceHolder (zeros 16) 4, 0); (WritePlaceHolder (bs "NCA3"), 5);
    (ContentStorageClose, 0); (NsExit, 0); (NcmExit, 0); (SplCryptoExit, 0)], inl 5).
Proof. done. Qed.

(** The whole function may fail when the forwarder is installed: a refused record leaves
    the archives and the deleted predecessor. *)
Example refused_record : commit (fun _ c => match c with PushApplicationRecord _ => 9 | _ => 0 end) [] 1 2 [] =
  Some ([(OpenContentStorage, 0); (ContentStorageClose, 0); (OpenContentMetaDatabase, 0); (ContentMetaDatabaseSet, 0); (ContentMetaDatabaseCommit, 0);
    (ContentMetaDatabaseClose, 0); (DeleteApplicationCompletely 1, 0); (DeleteApplicationEntity 2, 0); (GetApplicationManager, 0); (PushApplicationRecord 2, 9);
    (ServiceClose, 0); (NsExit, 0); (NcmExit, 0); (SplCryptoExit, 0)], inr 9).
Proof. done. Qed.
