(* ===== verification/InputManager.v ===== *)
(** The input of a stream ([streaming/InputManagerLegacy.inc], [features/input]): which
    controllers the host is told about and what they hold, mouse buttons, touches and
    keys, the motion sensors, and what is given back when the input is dropped. What is
    computed from analog values in floating point (sticks, triggers, scrolling, the
    pointer's movement) is an input of a frame. *)

From stdpp Require Import sorting.
From S2P Require Import Prelude Bytes.

(** ** The connected controllers *)

Definition MaxSupportedControllers : Z := 5.
Definition clampControllerCount (reported : Z) : Z := Z.min (Z.max reported 0) MaxSupportedControllers.
Definition connectedControllerMask (reported : Z) : Z :=
  let count := clampControllerCount reported in
  if count =? 0 then 0 else u16 (u32 (Z.shiftl 1 count - 1)).
Definition launchControllerMask (reported : Z) : Z :=
  let connected := connectedControllerMask reported in if connected =? 0 then 1 else connected.
Definition range (a b : Z) : list Z := (fun i => a + Z.of_nat i) <$> seq 0 (Z.to_nat (b - a)).
Definition connectedControllerPlayers (reported : Z) : list Z := range 1 (clampControllerCount reported + 1).

Record ControllerTopologyDelta := { releaseFirst : Z; releaseEnd : Z; arriveFirst : Z; arriveEnd : Z; changed : bool }.
Definition controllerTopologyDelta (announced connected : Z) : ControllerTopologyDelta :=
  let announced := Z.max announced 0 in
  let connected := Z.max connected 0 in
  {| changed := negb (announced =? connected); releaseFirst := connected; releaseEnd := Z.max announced connected;
     arriveFirst := announced; arriveEnd := Z.max connected announced |}.
Definition announcedCountForNewSession : Z := 0.

(** ** Batteries *)

Inductive BatteryState := BatteryStateUnknown | BatteryStateNotPresent | BatteryStateDischarging | BatteryStateCharging | BatteryStateNotCharging | BatteryStateFull.
#[export] Instance BatteryState_eq_dec : EqDecision BatteryState.
Proof. solve_decision. Defined.
Definition BatteryPercentageUnknown : Z := 0xFF.
Definition BatteryResendIntervalMs : Z := 30000.
Record BatteryReading := { b_state : BatteryState; b_percentage : Z }.
#[export] Instance BatteryReading_eq_dec : EqDecision BatteryReading.
Proof. solve_decision. Defined.
Definition no_reading : BatteryReading := {| b_state := BatteryStateUnknown; b_percentage := BatteryPercentageUnknown |}.
Definition fromNpad (level : Z) (powered charging connected : bool) : BatteryReading :=
  if negb connected then {| b_state := BatteryStateNotPresent; b_percentage := BatteryPercentageUnknown |}
  else
    let clamped := if 4 <? level then 4 else level in
    {| b_percentage := clamped * 25;
       b_state := if charging then BatteryStateCharging
                  else if powered then (if 4 <=? clamped then BatteryStateFull else BatteryStateNotCharging)
                  else BatteryStateDischarging |}.
Definition shouldResend (last next : BatteryReading) (lastSendMs nowMs : Z) : bool :=
  if bool_decide (b_state next = BatteryStateUnknown) then false
  else if lastSendMs =? 0 then true
  else if negb (bool_decide (last = next)) then true
  else if nowMs <? lastSendMs then false
  else BatteryResendIntervalMs <=? nowMs - lastSendMs.

(** ** The motion sensors *)

Inductive MotionSource := JoyCon | ProController | Console.
Record MotionOptions := { allowGamepadMotionSensors : bool; allowConsoleMotionFallback : bool }.
Definition FALLBACK_DELAY_MS : Z := 500.
(** A time is there when its flag is. *)
Record MotionFallbackGate := { lastControllerSample : option Z; observationStart : option Z }.
Definition new_gate : MotionFallbackGate := {| lastControllerSample := None; observationStart := None |}.
Definition controllerRecentlyActive (nowMs : Z) (g : MotionFallbackGate) : bool :=
  match lastControllerSample g with
  | None => false
  | Some last => if nowMs <? last then true else nowMs - last <? FALLBACK_DELAY_MS
  end.
Definition shouldForward (source : MotionSource) (nowMs : Z) (handheld : bool) (o : MotionOptions) (g : MotionFallbackGate) : bool * MotionFallbackGate :=
  if negb (allowGamepadMotionSensors o) then (false, g)
  else
    match source with
    | Console =>
        if negb handheld || negb (allowConsoleMotionFallback o) then (false, g)
        else
          match observationStart g with
          | None => (false, {| lastControllerSample := lastControllerSample g; observationStart := Some nowMs |})
          | Some start =>
              if (nowMs <? start) || (nowMs - start <? FALLBACK_DELAY_MS) then (false, g)
              else (negb (controllerRecentlyActive nowMs g), g)
          end
    | _ => (true, {| lastControllerSample := Some nowMs; observationStart := observationStart g |})
    end.

(** ** What a controller holds *)

Record GamepadState := { buttonFlags : Z; leftTrigger : Z; rightTrigger : Z; leftStickX : Z; leftStickY : Z; rightStickX : Z; rightStickY : Z }.
#[export] Instance GamepadState_eq_dec : EqDecision GamepadState.
Proof. solve_decision. Defined.
Definition neutral : GamepadState :=
  {| buttonFlags := 0; leftTrigger := 0; rightTrigger := 0; leftStickX := 0; leftStickY := 0; rightStickX := 0; rightStickY := 0 |}.
Definition is_equal (a b : GamepadState) : bool :=
  (buttonFlags a =? buttonFlags b) && (leftTrigger a =? leftTrigger b) && (rightTrigger a =? rightTrigger b) && (leftStickX a =? leftStickX b) &&
  (leftStickY a =? leftStickY b) && (rightStickX a =? rightStickX b) && (rightStickY a =? rightStickY b).
(** Narrowing to a short. *)
Definition i16 (z : Z) : Z := (z + 2 ^ 15) mod 2 ^ 16 - 2 ^ 15.

Inductive Button :=
  | BUTTON_A | BUTTON_B | BUTTON_X | BUTTON_Y | BUTTON_UP | BUTTON_DOWN | BUTTON_LEFT | BUTTON_RIGHT | BUTTON_BACK | BUTTON_START
  | BUTTON_LB | BUTTON_RB | BUTTON_LSB | BUTTON_RSB | BUTTON_LT | BUTTON_RT | BUTTON_GUIDE | BUTTON_OTHER (i : Z).
#[export] Instance Button_eq_dec : EqDecision Button.
Proof. solve_decision. Defined.
(** The flags of the streaming library. *)
Inductive Flag := UP_FLAG | DOWN_FLAG | LEFT_FLAG | RIGHT_FLAG | A_FLAG | B_FLAG | X_FLAG | Y_FLAG | BACK_FLAG | PLAY_FLAG
  | LB_FLAG | RB_FLAG | LS_CLK_FLAG | RS_CLK_FLAG | SPECIAL_FLAG.
#[export] Instance Flag_eq_dec : EqDecision Flag.
Proof. solve_decision. Defined.

(** What is read of a controller: its buttons, the triggers that have an axis, and the
    sticks after their dead zones, in the units they are sent in. *)
Record PadRead := { raw_buttons : Button -> bool; axis_left : option Z; axis_right : option Z; sticks : Z * Z * Z * Z }.
Record PadSettings := { mappingButtons : Button -> Button; button_list : list Button; guide_keys : list Button; on_switch : bool }.

(** [controller.buttons] after [mapController]: buttons may be mapped to the same one. *)
Definition mapController (ps : PadSettings) (raw : Button -> bool) (b : Button) : bool :=
  existsb (fun i => bool_decide (mappingButtons ps i = b) && raw i) (button_list ps).

(** The buttons in the order their flags are set. *)
Definition flag_buttons (ps : PadSettings) : list (Flag * Button) :=
  [(UP_FLAG, BUTTON_UP); (DOWN_FLAG, BUTTON_DOWN); (LEFT_FLAG, BUTTON_LEFT); (RIGHT_FLAG, BUTTON_RIGHT)] ++
  (if on_switch ps then [(A_FLAG, BUTTON_B); (B_FLAG, BUTTON_A); (X_FLAG, BUTTON_Y); (Y_FLAG, BUTTON_X)]
   else [(A_FLAG, BUTTON_A); (B_FLAG, BUTTON_B); (X_FLAG, BUTTON_X); (Y_FLAG, BUTTON_Y)]) ++
  [(BACK_FLAG, BUTTON_BACK); (PLAY_FLAG, BUTTON_START); (LB_FLAG, BUTTON_LB); (RB_FLAG, BUTTON_RB); (LS_CLK_FLAG, BUTTON_LSB); (RS_CLK_FLAG, BUTTON_RSB)].

Section flags.
Context (flag : Flag -> Z).
Definition SET_GAME_PAD_STATE (k : Flag) (pressed : bool) (flags : Z) : Z :=
  i16 (if pressed then Z.lor flags (flag k) else Z.land flags (Z.lnot (flag k))).
Definition pad_flags (ps : PadSettings) (buttons : Button -> bool) : Z :=
  foldl (fun flags '(k, b) => SET_GAME_PAD_STATE k (buttons b) flags) 0 (flag_buttons ps).
Definition guide_combo (ps : PadSettings) (buttons : Button -> bool) : bool :=
  negb (bool_decide (guide_keys ps = [])) && forallb buttons (guide_keys ps).

(** [last] is what the controller held before. *)
Definition getControllerState (ps : PadSettings) (last : GamepadState) (specialKey : bool) (r : PadRead) : GamepadState :=
  let buttons := mapController ps (raw_buttons r) in
  let trigger axis b := if specialKey then 0 else match axis with Some v => v | None => if buttons b then 255 else 0 end in
  let '(lx, ly, rx, ry) := sticks r in
  let stick v := if specialKey then 0 else v in
  let combo := guide_combo ps buttons in
  let flags := if combo || negb (Z.land (buttonFlags last) (flag SPECIAL_FLAG) =? 0) then 0 else pad_flags ps buttons in
  {| buttonFlags := SET_GAME_PAD_STATE SPECIAL_FLAG (combo || buttons BUTTON_GUIDE) flags;
     leftTrigger := trigger (axis_left r) BUTTON_LT; rightTrigger := trigger (axis_right r) BUTTON_RT;
     leftStickX := stick lx; leftStickY := stick ly; rightStickX := stick rx; rightStickY := stick ry |}.
End flags.

(** ** The calls and the state *)

Inductive MouseButton := MouseLeft | MouseMiddle | MouseRight.
#[export] Instance MouseButton_eq_dec : EqDecision MouseButton.
Proof. solve_decision. Defined.
Inductive TouchPhase := START | STAY | END | NONE.
#[export] Instance TouchPhase_eq_dec : EqDecision TouchPhase.
Proof. solve_decision. Defined.
Inductive TouchEvent := TouchDown | TouchMove | TouchUp | TouchCancel.
Inductive call :=
  | SendMultiController (i mask : Z) (g : GamepadState) | SendControllerArrival (i mask : Z) | SendControllerBattery (i : Z) (r : BatteryReading)
  | SendControllerMotion (i : Z) (gyro : bool)
  | SendMouseButton (press : bool) (b : MouseButton) | SendMousePosition (x y : Z) | SendMouseMove (dx dy : Z) | SendScroll (d : Z)
  | SendTouch (e : TouchEvent) (id : Z) (at_ : Z * Z)
  | SendKeyboard (vk : Z) (down : bool) (modifiers : Z).

(** What is remembered of a controller's slot, and the state of the manager. [sent] is
    what the host of the current session was sent, with the library's answers; [held]
    are the shortcuts that are still down. *)
Record Pad := { lastGamepadState : GamepadState; lastBatteryReading : BatteryReading; lastBatterySendMs : Z }.
Definition no_pad : Pad := {| lastGamepadState := neutral; lastBatteryReading := no_reading; lastBatterySendMs := 0 |}.
Record Mouse := { l_pressed : bool; m_pressed : bool; r_pressed : bool }.
Definition no_mouse : Mouse := {| l_pressed := false; m_pressed := false; r_pressed := false |}.
Record Input := { sent : list (call * Z); pads : list Pad; lastControllerCount : Z; lastMouseState : Mouse; activeTouchIDs : gset Z;
  inputDropped : bool; inputEnabled : bool; gate : MotionFallbackGate; held : list (list Z) }.

Definition with_sent v s := {| sent := v; pads := pads s; lastControllerCount := lastControllerCount s; lastMouseState := lastMouseState s;
  activeTouchIDs := activeTouchIDs s; inputDropped := inputDropped s; inputEnabled := inputEnabled s; gate := gate s; held := held s |}.
Definition with_pads v s := {| sent := sent s; pads := v; lastControllerCount := lastControllerCount s; lastMouseState := lastMouseState s;
  activeTouchIDs := activeTouchIDs s; inputDropped := inputDropped s; inputEnabled := inputEnabled s; gate := gate s; held := held s |}.
Definition with_count v s := {| sent := sent s; pads := pads s; lastControllerCount := v; lastMouseState := lastMouseState s;
  activeTouchIDs := activeTouchIDs s; inputDropped := inputDropped s; inputEnabled := inputEnabled s; gate := gate s; held := held s |}.
Definition with_mouse v s := {| sent := sent s; pads := pads s; lastControllerCount := lastControllerCount s; lastMouseState := v;
  activeTouchIDs := activeTouchIDs s; inputDropped := inputDropped s; inputEnabled := inputEnabled s; gate := gate s; held := held s |}.
Definition with_touches v s := {| sent := sent s; pads := pads s; lastControllerCount := lastControllerCount s; lastMouseState := lastMouseState s;
  activeTouchIDs := v; inputDropped := inputDropped s; inputEnabled := inputEnabled s; gate := gate s; held := held s |}.
Definition with_dropped v s := {| sent := sent s; pads := pads s; lastControllerCount := lastControllerCount s; lastMouseState := lastMouseState s;
  activeTouchIDs := activeTouchIDs s; inputDropped := v; inputEnabled := inputEnabled s; gate := gate s; held := held s |}.
Definition with_gate v s := {| sent := sent s; pads := pads s; lastControllerCount := lastControllerCount s; lastMouseState := lastMouseState s;
  activeTouchIDs := activeTouchIDs s; inputDropped := inputDropped s; inputEnabled := inputEnabled s; gate := v; held := held s |}.
Definition with_held v s := {| sent := sent s; pads := pads s; lastControllerCount := lastControllerCount s; lastMouseState := lastMouseState s;
  activeTouchIDs := activeTouchIDs s; inputDropped := inputDropped s; inputEnabled := inputEnabled s; gate := gate s; held := v |}.

(** [None] is an access outside of the arrays. *)
Definition I (A : Type) : Type := Input -> option (A * Input).
#[export] Instance I_ret : MRet I := fun A x s => Some (x, s).
#[export] Instance I_bind : MBind I := fun A B k m s => match m s with None => None | Some (x, s) => k x s end.
Definition get_state : I Input := fun s => Some (s, s).
Definition modify (f : Input -> Input) : I unit := fun s => Some (tt, f s).
Definition in_slots (i : Z) (s : Input) : bool := (0 <=? i) && (i <? zlen (pads s)).
Definition get_pad (i : Z) : I Pad := fun s => if in_slots i s then Some (nth (Z.to_nat i) (pads s) no_pad, s) else None.
Definition set_pad (i : Z) (p : Pad) : I unit := fun s => if in_slots i s then Some (tt, with_pads (<[Z.to_nat i := p]> (pads s)) s) else None.
Fixpoint each {A} (f : A -> I unit) (l : list A) : I unit :=
  match l with [] => mret tt | x :: rest => f x;; each f rest end.
Definition when (b : bool) (m : I unit) : I unit := if b then m else mret tt.

(** ** Frames *)

Inductive PointerMode := MultiTouch | Absolute | AbsoluteSwapped | TrackpadNatural | TrackpadGaming | Disabled.
#[export] Instance PointerMode_eq_dec : EqDecision PointerMode.
Proof. solve_decision. Defined.
Definition isTrackpadMode (m : PointerMode) : bool := match m with TrackpadNatural | TrackpadGaming => true | _ => false end.
Definition isAbsoluteMode (m : PointerMode) : bool := match m with Absolute | AbsoluteSwapped => true | _ => false end.

Record Power := { level : Z; powered : bool; charging : bool }.
Record Npad := { joy_dual : bool; single : Power; left_half : Power; right_half : Power }.
(** A touch: [t_foreign] when it belongs to a view other than the stream, [t_region]
    when it is in the region of the pointer, and where it is in the picture, if it is. *)
Record Touch := { t_id : Z; t_phase : TouchPhase; t_foreign : bool; t_region : bool; t_mapped : option (Z * Z) }.
(** What a frame reads, and what its floating-point parts decide: the scroll step and
    the movement that are due. *)
Record Frame := { f_reported : Z; f_read : Z -> PadRead; f_npad : Z -> Npad; f_now : Z; f_unified : Button -> bool; f_mouse : Mouse; f_states : Z;
  f_ignoreTouch : bool; f_mode : PointerMode; f_swap_mouse_keys : bool; f_tapToClick : bool; f_scroll : option Z; f_pan : option (Z * Z); f_touches : list Touch }.

Section manager.
Context (flag : Flag -> Z) (ps : PadSettings).
(** What the library answers to a call after those before it; 0 is success. *)
Context (answers : list (call * Z) -> call -> Z).
Context (LI_ERR_UNSUPPORTED : Z).
(** The keys in their order and the code a key is sent as. *)
Context (keys : list Z) (vk_of : Z -> Z).

Definition send (c : call) : I Z := fun s => let rc := answers (sent s) c in Some (rc, with_sent (sent s ++ [(c, rc)]) s).
Definition send_ (c : call) : I unit := send c;; mret tt.

(** The reading of a slot: of two halves the lower one. *)
Definition battery_reading (n : Npad) : BatteryReading :=
  if on_switch ps then
    let info := if joy_dual n then (if level (left_half n) <=? level (right_half n) then left_half n else right_half n) else single n in
    fromNpad (level info) (powered info) (charging info) true
  else no_reading.
Definition handleControllerBattery (slot : Z) (n : Npad) (nowMs : Z) : I unit :=
  s ← get_state;
  if (slot <? 0) || (zlen (pads s) <=? slot) then mret tt
  else
    let reading := battery_reading n in
    p ← get_pad slot;
    if shouldResend (lastBatteryReading p) reading (lastBatterySendMs p) nowMs then
      set_pad slot {| lastGamepadState := lastGamepadState p; lastBatteryReading := reading; lastBatterySendMs := nowMs |};;
      send_ (SendControllerBattery slot reading)
    else mret tt.

Definition release_pad (mask i : Z) : I unit :=
  send_ (SendMultiController i mask neutral);; set_pad i no_pad.
Definition arrive_pad (mask i : Z) : I unit :=
  send_ (SendControllerArrival i mask);;
  p ← get_pad i;
  set_pad i {| lastGamepadState := lastGamepadState p; lastBatteryReading := no_reading; lastBatterySendMs := 0 |}.
Definition update_pad (f : Frame) (specialKey topologyChanged : bool) (mask i : Z) : I unit :=
  p ← get_pad i;
  let g := getControllerState flag ps (lastGamepadState p) (specialKey && (i =? 0)) (f_read f i) in
  when (topologyChanged || negb (is_equal g (lastGamepadState p)))
    (set_pad i {| lastGamepadState := g; lastBatteryReading := lastBatteryReading p; lastBatterySendMs := lastBatterySendMs p |};;
     send_ (SendMultiController i mask g));;
  handleControllerBattery i (f_npad f i) (f_now f).
Definition handleControllers (f : Frame) (specialKey : bool) : I unit :=
  let count := clampControllerCount (f_reported f) in
  let mask := i16 (connectedControllerMask count) in
  s ← get_state;
  let topology := controllerTopologyDelta (lastControllerCount s) count in
  when (changed topology)
    (each (release_pad mask) (range (releaseFirst topology) (releaseEnd topology));;
     each (arrive_pad mask) (range (arriveFirst topology) (arriveEnd topology)));;
  each (update_pad f specialKey (changed topology) mask) (range 0 count);;
  modify (with_count count).

Definition mouse_edge (before now : bool) (b : MouseButton) (remember : Mouse -> Mouse) : I unit :=
  when (negb (eqb before now))
    (modify (fun s => with_mouse (remember (lastMouseState s)) s);; send_ (SendMouseButton now b)).
Definition mouse_now (f : Frame) (specialKey : bool) : Mouse :=
  let buttons := mapController ps (f_unified f) in
  if isTrackpadMode (f_mode f) then
    {| l_pressed := (specialKey && buttons BUTTON_RT) || l_pressed (f_mouse f); m_pressed := m_pressed (f_mouse f);
       r_pressed := (specialKey && buttons BUTTON_LT) || r_pressed (f_mouse f) |}
  else f_mouse f.
Definition handle_mouse (f : Frame) (specialKey : bool) : I unit :=
  let now := mouse_now f specialKey in
  s ← get_state;
  mouse_edge (l_pressed (lastMouseState s)) (l_pressed now) (if f_swap_mouse_keys f then MouseRight else MouseLeft)
    (fun m => {| l_pressed := l_pressed now; m_pressed := m_pressed m; r_pressed := r_pressed m |});;
  mouse_edge (m_pressed (lastMouseState s)) (m_pressed now) MouseMiddle
    (fun m => {| l_pressed := l_pressed m; m_pressed := m_pressed now; r_pressed := r_pressed m |});;
  mouse_edge (r_pressed (lastMouseState s)) (r_pressed now) (if f_swap_mouse_keys f then MouseLeft else MouseRight)
    (fun m => {| l_pressed := l_pressed m; m_pressed := m_pressed m; r_pressed := r_pressed now |}).

Definition touch_event (p : TouchPhase) : TouchEvent := match p with START => TouchDown | STAY => TouchMove | END => TouchUp | NONE => TouchCancel end.
(** A touch that is sent as such; the first one falls back to the mouse. *)
Definition multi_touch (first : bool) (t : Touch) : I unit :=
  if t_foreign t then mret tt
  else
    modify (fun s => with_touches (if bool_decide (t_phase t = NONE) then activeTouchIDs s ∖ {[t_id t]} else {[t_id t]} ∪ activeTouchIDs s) s);;
    match t_mapped t with
    | None => mret tt
    | Some (x, y) =>
        rc ← send (SendTouch (touch_event (t_phase t)) (t_id t) (x, y));
        when ((rc =? LI_ERR_UNSUPPORTED) && first)
          (when (negb (bool_decide (t_phase t = NONE))) (send_ (SendMousePosition x y));;
           when (bool_decide (t_phase t = START)) (send_ (SendMouseButton true MouseLeft));;
           when (bool_decide (t_phase t = END)) (send_ (SendMouseButton false MouseLeft)))
    end.
Definition absolute_touch (mode : PointerMode) (tapToClick : bool) (t : Touch) : I unit :=
  if t_foreign t || negb (t_region t) then mret tt
  else
    let button := if bool_decide (mode = AbsoluteSwapped) then MouseRight else MouseLeft in
    let click :=
      if bool_decide (t_phase t = START) && tapToClick then send_ (SendMouseButton true button)
      else when (bool_decide (t_phase t = END) && tapToClick) (send_ (SendMouseButton false button)) in
    if bool_decide (t_phase t = NONE) then click
    else match t_mapped t with None => mret tt | Some (x, y) => send_ (SendMousePosition x y);; click end.
Definition handle_touches (f : Frame) : I unit :=
  if isTrackpadMode (f_mode f) then
    if f_ignoreTouch f then mret tt
    else match f_pan f with Some (dx, dy) => send_ (SendMouseMove dx dy) | None => mret tt end
  else if bool_decide (f_mode f = MultiTouch) then
    if f_ignoreTouch f then mret tt
    else match f_touches f with [] => mret tt | t :: rest => multi_touch true t;; each (multi_touch false) rest end
  else when (isAbsoluteMode (f_mode f) && negb (f_ignoreTouch f)) (each (absolute_touch (f_mode f) (f_tapToClick f)) (f_touches f)).

Definition handleInput (f : Frame) : I unit :=
  modify (with_dropped false);;
  let specialKey := negb (f_ignoreTouch f) && isTrackpadMode (f_mode f) && (f_states f =? 1) in
  handleControllers f specialKey;;
  handle_mouse f specialKey;;
  match f_scroll f with Some d => when (isTrackpadMode (f_mode f) && specialKey) (send_ (SendScroll d)) | None => mret tt end;;
  handle_touches f.

(** ** Sessions and drops *)

Definition resetForNewSession : I unit :=
  modify (fun s => {| sent := []; pads := (fun _ => no_pad) <$> pads s; lastControllerCount := announcedCountForNewSession; lastMouseState := no_mouse;
    activeTouchIDs := activeTouchIDs s; inputDropped := inputDropped s; inputEnabled := inputEnabled s; gate := new_gate; held := held s |}).

(** The neutral state of a controller, and whether it was sent. *)
Definition drop_pad (mask i : Z) : I bool :=
  rc ← send (SendMultiController i mask neutral);
  p ← get_pad i;
  set_pad i {| lastGamepadState := neutral; lastBatteryReading := lastBatteryReading p; lastBatterySendMs := lastBatterySendMs p |};;
  mret (rc =? 0).
Fixpoint drop_pads (mask : Z) (l : list Z) (res : bool) : I bool :=
  match l with [] => mret res | i :: rest => ok ← drop_pad mask i; drop_pads mask rest (res && ok) end.
Definition dropInput (reported : Z) : I unit :=
  s ← get_state;
  if inputDropped s then mret tt
  else
    modify (with_gate new_gate);;
    let count := Z.max (clampControllerCount reported) (lastControllerCount s) in
    res ← drop_pads (i16 (connectedControllerMask reported)) (range 0 count) true;
    send_ (SendMouseButton false MouseLeft);;
    each (fun id => send_ (SendTouch TouchCancel id (0, 0))) (merge_sort Z.le (elements (activeTouchIDs s)));;
    modify (with_touches ∅);;
    each (fun k => send_ (SendKeyboard (vk_of k) false 0)) keys;;
    modify (with_dropped res).

(** ** Events of their own *)

Definition key_event (key : Z) (down : bool) (modifiers : Z) : I unit :=
  s ← get_state; when (inputEnabled s) (send_ (SendKeyboard (vk_of key) down modifiers)).
Definition motion_event (o : MotionOptions) (nowMs i : Z) (gyro : bool) : I unit :=
  s ← get_state;
  when (inputEnabled s)
    (let fallback := i =? 255 in
     let '(forward, g) := shouldForward (if fallback then Console else JoyCon) nowMs fallback o (gate s) in
     modify (with_gate g);; when forward (send_ (SendControllerMotion (if fallback then 0 else i) gyro))).

Definition MaxShortcutKeys : nat := 8.
Definition shortcutEvents (ks : list Z) : list (Z * bool) :=
  if bool_decide (ks = []) || (MaxShortcutKeys <? length ks)%nat then [] else ((fun k => (k, true)) <$> ks) ++ ((fun k => (k, false)) <$> reverse ks).
Definition release_keys (pressed : list Z) : I unit := each (fun k => send_ (SendKeyboard k false 0)) (reverse pressed).
(** The keys go down one after the other; the first that fails takes back those before it. *)
Fixpoint press_keys (ks pressed : list Z) : I bool :=
  match ks with
  | [] => modify (fun s => with_held (held s ++ [pressed]) s);; mret true
  | k :: rest =>
      rc ← send (SendKeyboard k true 0);
      if negb (rc =? 0) then release_keys pressed;; mret false else press_keys rest (pressed ++ [k])
  end.
Definition sendKeyboardShortcut (ks : list Z) : I bool :=
  if bool_decide (shortcutEvents ks = []) then mret false else press_keys ks [].
(** The delayed release of the shortcut that was sent first. *)
Definition release_shortcut : I unit :=
  s ← get_state;
  match held s with [] => mret tt | ks :: rest => modify (with_held rest);; release_keys ks end.

Inductive op :=
  | Handle (f : Frame) | Drop (reported : Z) | NewSession | Key (key : Z) (down : bool) (modifiers : Z)
  | Motion (o : MotionOptions) (nowMs i : Z) (gyro : bool) | Shortcut (ks : list Z) | ReleaseShortcut | Enable (b : bool).
Definition step (o : op) : I unit :=
  match o with
  | Handle f => handleInput f
  | Drop reported => dropInput reported
  | NewSession => resetForNewSession
  | Key key down modifiers => key_event key down modifiers
  | Motion o nowMs i gyro => motion_event o nowMs i gyro
  | Shortcut ks => sendKeyboardShortcut ks;; mret tt
  | ReleaseShortcut => release_shortcut
  | Enable b => modify (fun s => {| sent := sent s; pads := pads s; lastControllerCount := lastControllerCount s; lastMouseState := lastMouseState s;
      activeTouchIDs := activeTouchIDs s; inputDropped := inputDropped s; inputEnabled := b; gate := gate s; held := held s |})
  end.
Definition run : list op -> I unit := each step.
End manager.

Definition fresh (slots : nat) : Input :=
  {| sent := []; pads := replicate slots no_pad; lastControllerCount := 0; lastMouseState := no_mouse; activeTouchIDs := ∅;
     inputDropped := false; inputEnabled := true; gate := new_gate; held := [] |}.

(** ** What the host sees *)

(** The host forgets the controllers that are not in the mask it is sent. *)
Record HostView := { v_pads : Z -> GamepadState; v_announced : gset Z; v_buttons : MouseButton -> bool; v_touches : gset Z; v_keys : gset Z }.
Definition blank : HostView :=
  {| v_pads := fun _ => neutral; v_announced := ∅; v_buttons := fun _ => false; v_touches := ∅; v_keys := ∅ |}.
Definition toggle (on : bool) (x : Z) (l : gset Z) : gset Z := if on then {[x]} ∪ l else l ∖ {[x]}.
Definition host_step (v : HostView) (e : call * Z) : HostView :=
  if negb (e.2 =? 0) then v
  else
    match e.1 with
    | SendMultiController i mask g =>
        {| v_pads := fun j => if j =? i then g else v_pads v j; v_announced := filter (fun j => Z.testbit mask j = true) (v_announced v);
           v_buttons := v_buttons v; v_touches := v_touches v; v_keys := v_keys v |}
    | SendControllerArrival i mask =>
        {| v_pads := v_pads v; v_announced := {[i]} ∪ v_announced v; v_buttons := v_buttons v; v_touches := v_touches v; v_keys := v_keys v |}
    | SendMouseButton press b =>
        {| v_pads := v_pads v; v_announced := v_announced v; v_buttons := fun b' => if bool_decide (b' = b) then press else v_buttons v b';
           v_touches := v_touches v; v_keys := v_keys v |}
    | SendTouch t id _ =>
        {| v_pads := v_pads v; v_announced := v_announced v; v_buttons := v_buttons v;
           v_touches := toggle (match t with TouchDown | TouchMove => true | _ => false end) id (v_touches v); v_keys := v_keys v |}
    | SendKeyboard vk down _ =>
        {| v_pads := v_pads v; v_announced := v_announced v; v_buttons := v_buttons v; v_touches := v_touches v; v_keys := toggle down vk (v_keys v) |}
    | _ => v
    end.
Definition host (l : list (call * Z)) : HostView := foldl host_step blank l.
Lemma host_app l e : host (l ++ [e]) = host_step (host l) e.
Proof. unfold host. by rewrite foldl_app. Qed.

(** Calls that leave the host's controllers as they are. *)
Definition not_pad (c : call) : bool := match c with SendMultiController _ _ _ | SendControllerArrival _ _ => false | _ => true end.
Lemma host_not_pad l c rc : not_pad c = true -> v_pads (host (l ++ [(c, rc)])) = v_pads (host l) /\ v_announced (host (l ++ [(c, rc)])) = v_announced (host l).
Proof. intros Hc. rewrite host_app. unfold host_step. cbn [fst snd]. destruct (negb _); [done|]. by destruct c. Qed.

(** ** The rules of the operations *)

Definition wp {A} (m : I A) (Q : A -> Input -> Prop) (s : Input) : Prop := exists x s', m s = Some (x, s') /\ Q x s'.
Lemma op_mono {A} (m : I A) (Q Q' : A -> Input -> Prop) s : wp m Q s -> (forall x s', Q x s' -> Q' x s') -> wp m Q' s.
Proof. intros (x & s' & E & H) HQ. exists x, s'. split; [done|]. by apply HQ. Qed.
Lemma wp_ret {A} (x : A) (Q : A -> Input -> Prop) s : Q x s -> wp (mret x : I A) Q s.
Proof. intros H. by exists x, s. Qed.
Lemma op_bind {A B} (m : I A) (k : A -> I B) Q s : wp m (fun x s' => wp (k x) Q s') s -> wp (m ≫= k) Q s.
Proof. intros (x & s' & E & y & s2 & E2 & H). exists y, s2. split; [|done]. unfold mbind, I_bind. by rewrite E. Qed.
Lemma wp_get (Q : Input -> Input -> Prop) s : Q s s -> wp get_state Q s.
Proof. intros H. by exists s, s. Qed.
Lemma wp_modify f (Q : unit -> Input -> Prop) s : Q tt (f s) -> wp (modify f) Q s.
Proof. intros H. by exists tt, (f s). Qed.
Lemma wp_when (b : bool) m (Q : unit -> Input -> Prop) s : (b = true -> wp m Q s) -> (b = false -> Q tt s) -> wp (when b m) Q s.
Proof. unfold when. destruct b; intros H1 H2; [by apply H1|by apply wp_ret, H2]. Qed.
Lemma wp_get_pad i (Q : Pad -> Input -> Prop) s : in_slots i s = true -> Q (nth (Z.to_nat i) (pads s) no_pad) s -> wp (get_pad i) Q s.
Proof. intros Hi H. unfold get_pad. eexists _, s. split; [cbn beta; by rewrite Hi|done]. Qed.
Lemma wp_set_pad i p (Q : unit -> Input -> Prop) s : in_slots i s = true -> Q tt (with_pads (<[Z.to_nat i := p]> (pads s)) s) -> wp (set_pad i p) Q s.
Proof. intros Hi H. unfold set_pad. exists tt. eexists. split; [cbn beta; by rewrite Hi|done]. Qed.
Lemma wp_each {A} (f : A -> I unit) (l : list A) (P : list A -> Input -> Prop) s :
  (forall x rest s, P (x :: rest) s -> wp (f x) (fun _ => P rest) s) -> P l s -> wp (each f l) (fun _ => P []) s.
Proof.
  intros Hf. revert s. induction l as [|x l IH]; intros s Hs; cbn [each]; [by apply wp_ret|]. apply op_bind.
  eapply op_mono; [by apply Hf|]. intros ? s'. apply IH.
Qed.
Lemma wp_each_keeps {A} (f : A -> I unit) (l : list A) (P : Input -> Prop) s : (forall x s, x ∈ l -> P s -> wp (f x) (fun _ => P) s) -> P s -> wp (each f l) (fun _ => P) s.
Proof.
  intros Hf Hs. eapply op_mono; [apply (wp_each f l (fun rest s => (forall x, x ∈ rest -> x ∈ l) /\ P s))|by intros ? s' [_ H]].
  - intros x rest s1 [Hin H1]. eapply op_mono; [apply Hf; [apply Hin; by left|done]|]. intros ? s2 H2. split; [|done]. intros y Hy. apply Hin. by right.
  - done.
Qed.

Lemma host_app_list l es : host (l ++ es) = foldl host_step (host l) es.
Proof. unfold host. by rewrite foldl_app. Qed.
Lemma host_cancels at_ l : forall v, let v' := foldl host_step v ((fun id => (SendTouch TouchCancel id at_, 0)) <$> l) in
  v_pads v' = v_pads v /\ v_buttons v' = v_buttons v /\ v_keys v' = v_keys v /\ forall id, id ∈ v_touches v' <-> id ∈ v_touches v /\ (id ∉ l).
Proof.
  induction l as [|x l IH]; intros v v'; [split_and!; try done; intros id; rewrite elem_of_nil; tauto|].
  destruct (IH (host_step v (SendTouch TouchCancel x at_, 0))) as (H1 & H2 & H3 & H4). split_and!; [exact H1|exact H2|exact H3|]. intros id. etransitivity; [apply H4|].
  cbn. rewrite elem_of_difference, elem_of_singleton, not_elem_of_cons. tauto.
Qed.
Lemma host_releases {A} (vk : A -> Z) (l : list A) : forall v, let v' := foldl host_step v ((fun k => (SendKeyboard (vk k) false 0, 0)) <$> l) in
  v_pads v' = v_pads v /\ v_buttons v' = v_buttons v /\ v_touches v' = v_touches v /\ forall k, k ∈ v_keys v' <-> k ∈ v_keys v /\ (k ∉ vk <$> l).
Proof.
  induction l as [|x l IH]; intros v v'; [split_and!; try done; intros id; cbn; rewrite elem_of_nil; tauto|].
  destruct (IH (host_step v (SendKeyboard (vk x) false 0, 0))) as (H1 & H2 & H3 & H4). split_and!; [exact H1|exact H2|exact H3|]. intros k. etransitivity; [apply H4|].
  cbn. rewrite elem_of_difference, elem_of_singleton, not_elem_of_cons. tauto.
Qed.

Section proofs.
Context (flag : Flag -> Z) (ps : PadSettings).
Context (answers : list (call * Z) -> call -> Z).
Context (LI_ERR_UNSUPPORTED : Z).
Context (keys : list Z) (vk_of : Z -> Z).
Context (slots : nat).
Implicit Types s : Input.

Lemma wp_send c (Q : Z -> Input -> Prop) s : Q (answers (sent s) c) (with_sent (sent s ++ [(c, answers (sent s) c)]) s) -> wp (send answers c) Q s.
Proof using. intros H. unfold send. eexists _, _. split; [done|exact H]. Qed.
Lemma wp_send_ c (Q : unit -> Input -> Prop) s : Q tt (with_sent (sent s ++ [(c, answers (sent s) c)]) s) -> wp (send_ answers c) Q s.
Proof using. intros H. unfold send_. apply op_bind, wp_send, wp_ret, H. Qed.

(** What a slot was last sent, and the host's view of now. *)
Definition last_of s (i : Z) : GamepadState := lastGamepadState (nth (Z.to_nat i) (pads s) no_pad).
Definition view s : HostView := host (sent s).
Definition sized s : Prop := length (pads s) = slots.
Definition mirrored s : Prop := forall i, 0 <= i < Z.of_nat slots -> v_pads (view s) i = last_of s i.

Lemma in_slots_sized i s : sized s -> 0 <= i < Z.of_nat slots -> in_slots i s = true.
Proof using. intros Hs Hi. unfold in_slots, zlen. rewrite Hs. apply andb_true_iff. split; [apply Z.leb_le|apply Z.ltb_lt]; lia. Qed.
Lemma last_set i p s j : sized s -> 0 <= i < Z.of_nat slots -> 0 <= j -> last_of (with_pads (<[Z.to_nat i := p]> (pads s)) s) j = if j =? i then lastGamepadState p else last_of s j.
Proof using.
  intros Hs Hi Hj. unfold last_of. cbn [pads with_pads]. rewrite !nth_lookup. unfold sized in Hs. destruct (Z.eqb_spec j i) as [->|Hne].
  - rewrite list_lookup_insert_eq by (rewrite Hs; lia). done.
  - by rewrite list_lookup_insert_ne by lia.
Qed.
Lemma sized_set i p s : sized s -> sized (with_pads (<[Z.to_nat i := p]> (pads s)) s).
Proof using. intros Hs. unfold sized in *. cbn [pads with_pads]. by rewrite length_insert. Qed.

Context (pads_reliable : forall t i mask g, answers t (SendMultiController i mask g) = 0).
Context (arrivals_reliable : forall t i mask, answers t (SendControllerArrival i mask) = 0).

(** The slots after an operation on controllers: what they were last sent, and whom the
    host knows. *)
Definition pads_now (s : Input) (last : Z -> GamepadState) (announced : gset Z) (s' : Input) : Prop :=
  sized s' /\ mirrored s' /\ lastControllerCount s' = lastControllerCount s /\ (forall j, 0 <= j -> last_of s' j = last j) /\ v_announced (view s') = announced.
Definition in_mask (mask : Z) (l : gset Z) : gset Z := filter (fun j => Z.testbit mask j = true) l.
Definition put (i : Z) (g : GamepadState) (last : Z -> GamepadState) (j : Z) : GamepadState := if j =? i then g else last j.
Definition ok_slot (i : Z) : Prop := 0 <= i < Z.of_nat slots.

Lemma pads_now_put s i mask g p : sized s -> mirrored s -> ok_slot i -> lastGamepadState p = g ->
  let sent' := sent s ++ [(SendMultiController i mask g, answers (sent s) (SendMultiController i mask g))] in
  pads_now s (put i g (last_of s)) (in_mask mask (v_announced (view s))) (with_pads (<[Z.to_nat i := p]> (pads s)) (with_sent sent' s)).
Proof using pads_reliable.
  intros Hs Hm Hi Hg sent'. assert (view (with_sent sent' s) = host_step (view s) (SendMultiController i mask g, 0)) as Hv.
  { unfold view, sent'. cbn [sent with_sent]. by rewrite host_app, pads_reliable. }
  split_and!; [by apply (sized_set i p s)| |done| |].
  - intros j Hj. change (view (with_pads _ (with_sent sent' s))) with (view (with_sent sent' s)). rewrite Hv. cbn.
    change (last_of (with_pads (<[Z.to_nat i:=p]> (pads s)) (with_sent sent' s)) j) with (last_of (with_pads (<[Z.to_nat i:=p]> (pads s)) s) j).
    rewrite last_set by (try done; lia). destruct (_ =? _); [done|]. by apply Hm.
  - intros j Hj. change (last_of (with_pads (<[Z.to_nat i:=p]> (pads s)) (with_sent sent' s)) j) with (last_of (with_pads (<[Z.to_nat i:=p]> (pads s)) s) j).
    rewrite last_set by done. unfold put. by rewrite Hg.
  - change (view (with_pads _ (with_sent sent' s))) with (view (with_sent sent' s)). by rewrite Hv.
Qed.

Ltac slot := match goal with Hs : sized _, Hi : ok_slot _ |- _ => exact (in_slots_sized _ _ Hs Hi) end.
Lemma release_pad_wp mask i s : sized s -> mirrored s -> ok_slot i ->
  wp (release_pad answers mask i) (fun _ => pads_now s (put i neutral (last_of s)) (in_mask mask (v_announced (view s)))) s.
Proof using pads_reliable.
  intros Hs Hm Hi. unfold release_pad. apply op_bind, wp_send_, wp_set_pad; [slot|]. exact (pads_now_put s i mask neutral no_pad Hs Hm Hi eq_refl).
Qed.
Lemma arrive_pad_wp mask i s : sized s -> mirrored s -> ok_slot i ->
  wp (arrive_pad answers mask i) (fun _ => pads_now s (last_of s) ({[i]} ∪ v_announced (view s))) s.
Proof using arrivals_reliable.
  intros Hs Hm Hi. unfold arrive_pad. apply op_bind, wp_send_, op_bind. set (s1 := with_sent _ s).
  assert (view s1 = host_step (view s) (SendControllerArrival i mask, 0)) as Hv by (unfold view, s1; cbn [sent with_sent]; by rewrite host_app, arrivals_reliable).
  apply wp_get_pad; [slot|]. apply wp_set_pad; [slot|]. set (p := nth _ (pads s1) no_pad). set (q := {| lastGamepadState := _ |}).
  assert (forall j, 0 <= j -> last_of (with_pads (<[Z.to_nat i:=q]> (pads s1)) s1) j = last_of s j) as Hl.
  { intros j Hj. rewrite last_set by done. destruct (Z.eqb_spec j i) as [->|]; [done|done]. }
  split_and!; [by apply (sized_set i q s1)| |done|exact Hl|].
  - intros j Hj. rewrite Hl by lia. change (view (with_pads _ s1)) with (view s1). rewrite Hv. by apply Hm.
  - change (view (with_pads _ s1)) with (view s1). by rewrite Hv.
Qed.

(** Calls and slots that do not concern what a controller holds. *)
Lemma pads_now_other s c p i : not_pad c = true -> sized s -> mirrored s -> ok_slot i -> lastGamepadState p = last_of s i ->
  pads_now s (last_of s) (v_announced (view s)) (with_sent (sent s ++ [(c, answers (sent s) c)]) (with_pads (<[Z.to_nat i := p]> (pads s)) s)).
Proof using.
  intros Hc Hs Hm Hi Hp. destruct (host_not_pad (sent s) c (answers (sent s) c) Hc) as [H1 H2].
  assert (forall j, 0 <= j -> last_of (with_pads (<[Z.to_nat i:=p]> (pads s)) s) j = last_of s j) as Hl.
  { intros j Hj. rewrite last_set by done. destruct (Z.eqb_spec j i) as [->|]; [done|done]. }
  split_and!; [by apply (sized_set i p s)| |done|exact Hl|].
  - intros j Hj. change (last_of (with_sent _ ?x) j) with (last_of x j). rewrite Hl by lia. unfold view. cbn [sent with_sent with_pads]. rewrite H1. by apply Hm.
  - exact H2.
Qed.
Lemma pads_now_same s : sized s -> mirrored s -> pads_now s (last_of s) (v_announced (view s)) s.
Proof using. intros Hs Hm. by unfold pads_now. Qed.
Lemma battery_wp i n now s : sized s -> mirrored s -> ok_slot i ->
  wp (handleControllerBattery ps answers i n now) (fun _ => pads_now s (last_of s) (v_announced (view s))) s.
Proof using.
  intros Hs Hm Hi. unfold handleControllerBattery. apply op_bind, wp_get. pose proof Hi as Hb. unfold ok_slot in Hb.
  rewrite (proj2 (Z.ltb_ge i 0)), (proj2 (Z.leb_gt (zlen (pads s)) i)) by (unfold zlen; rewrite ?Hs; lia). cbn [orb].
  apply op_bind, wp_get_pad; [slot|]. destruct (shouldResend _ _ _ _).
  - apply op_bind, wp_set_pad; [slot|]. apply wp_send_. by refine (pads_now_other s _ _ i _ Hs Hm Hi _).
  - apply wp_ret. by apply pads_now_same.
Qed.

Lemma is_equal_eq a b : is_equal a b = true -> a = b.
Proof using.
  unfold is_equal. destruct a, b. cbn. intros H. repeat (apply andb_prop in H as [H ?]). repeat match goal with H : (_ =? _) = true |- _ => apply Z.eqb_eq in H end. by subst.
Qed.
Lemma pads_now_step s l1 a1 s1 l2 a2 s2 : pads_now s l1 a1 s1 -> pads_now s1 l2 a2 s2 -> pads_now s l2 a2 s2.
Proof using. intros (H1 & H2 & H3 & H4 & H5) (G1 & G2 & G3 & G4 & G5). unfold pads_now. by rewrite G3. Qed.
Lemma pads_now_ext s l1 a1 l2 a2 s2 : pads_now s l1 a1 s2 -> (forall j, 0 <= j -> l1 j = l2 j) -> a1 = a2 -> pads_now s l2 a2 s2.
Proof using. intros (H1 & H2 & H3 & H4 & H5) Hl ->. split_and!; try done. intros j Hj. by rewrite H4, Hl. Qed.

(** The state a slot is sent when it is read. *)
Definition read_now (f : Frame) (specialKey : bool) (last : Z -> GamepadState) (i : Z) : GamepadState :=
  getControllerState flag ps (last i) (specialKey && (i =? 0)) (f_read f i).
Lemma update_pad_wp f specialKey again mask i s : sized s -> mirrored s -> ok_slot i ->
  wp (update_pad flag ps answers f specialKey again mask i) (fun _ s' => exists announced,
    pads_now s (put i (read_now f specialKey (last_of s) i) (last_of s)) announced s' /\ (announced = v_announced (view s) \/ announced = in_mask mask (v_announced (view s)))) s.
Proof using pads_reliable.
  intros Hs Hm Hi. unfold update_pad. apply op_bind, wp_get_pad; [slot|]. change (lastGamepadState (nth (Z.to_nat i) (pads s) no_pad)) with (last_of s i).
  fold (read_now f specialKey (last_of s) i). set (g := read_now _ _ _ _). apply op_bind.
  eapply op_mono with (Q := fun _ s1 => exists announced, pads_now s (put i g (last_of s)) announced s1 /\ (announced = v_announced (view s) \/ announced = in_mask mask (v_announced (view s)))).
  - apply wp_when.
    + intros _. apply op_bind, wp_set_pad; [slot|]. apply wp_send_. eexists. split; [|by right]. by refine (pads_now_put s i mask g _ Hs Hm Hi _).
    + intros E. apply orb_false_iff in E as [_ E]. apply negb_false_iff, is_equal_eq in E. eexists. split; [|by left].
      eapply pads_now_ext; [by apply pads_now_same| |done]. intros j Hj. unfold put. destruct (Z.eqb_spec j i) as [->|]; [done|done].
  - intros ? s1 (announced & H1 & Ha). pose proof H1 as (G1 & G2 & G3 & G4 & G5). eapply op_mono; [by apply battery_wp|]. intros ? s2 H2. exists announced. split; [|done].
    eapply pads_now_ext; [eapply pads_now_step; [exact H1|exact H2]|exact G4|done].
Qed.
Lemma drop_pad_wp mask i s : sized s -> mirrored s -> ok_slot i ->
  wp (drop_pad answers mask i) (fun ok s' => ok = true /\ pads_now s (put i neutral (last_of s)) (in_mask mask (v_announced (view s))) s') s.
Proof using pads_reliable.
  intros Hs Hm Hi. unfold drop_pad. apply op_bind, wp_send, op_bind, wp_get_pad; [slot|]. apply op_bind, wp_set_pad; [slot|].
  apply wp_ret. split; [by rewrite pads_reliable|]. by refine (pads_now_put s i mask neutral _ Hs Hm Hi _).
Qed.

(** ** Loops over controllers *)

Fixpoint chain (R : Z -> gset Z -> gset Z -> Prop) (l : list Z) (a b : gset Z) : Prop :=
  match l with [] => a = b | i :: rest => exists c, R i a c /\ chain R rest c b end.
Lemma each_pads (f : Z -> I unit) (F : (Z -> GamepadState) -> Z -> GamepadState) (R : Z -> gset Z -> gset Z -> Prop) :
  (forall i s, sized s -> mirrored s -> ok_slot i ->
    wp (f i) (fun _ s' => exists a, pads_now s (put i (F (last_of s) i) (last_of s)) a s' /\ R i (v_announced (view s)) a) s) ->
  (forall g h i, g i = h i -> F g i = F h i) ->
  forall l s, sized s -> mirrored s -> NoDup l -> (forall i, i ∈ l -> ok_slot i) ->
    wp (each f l) (fun _ s' => exists a, pads_now s (fun j => if decide (j ∈ l) then F (last_of s) j else last_of s j) a s' /\ chain R l (v_announced (view s)) a) s.
Proof using.
  intros Hf HF. induction l as [|i l IH]; intros s Hs Hm Hnd Hin; cbn [each].
  - apply wp_ret. eexists. split; [|done]. eapply pads_now_ext; [by apply pads_now_same| |done]. intros j Hj. by rewrite decide_False by apply not_elem_of_nil.
  - apply list.NoDup_cons in Hnd as [Hi Hnd]. assert (ok_slot i) as Hok by (apply Hin; by left).
    apply op_bind. eapply op_mono; [by apply Hf|]. intros [] s1 (a1 & H1 & R1). pose proof H1 as (G1 & G2 & G3 & G4 & G5).
    eapply op_mono; [apply IH; [done|done|done|intros j Hj; apply Hin; by right]|]. intros [] s2 (a2 & H2 & C2). rewrite G5 in C2. exists a2.
    split; [|by exists a1]. eapply pads_now_ext; [eapply pads_now_step; [exact H1|exact H2]| |done].
    intros j Hj. cbn beta. destruct (decide (j ∈ l)) as [Hjl|Hjl].
    + rewrite decide_True by (by right). apply HF. rewrite G4 by done. unfold put. destruct (Z.eqb_spec j i) as [->|]; done.
    + rewrite G4 by done. unfold put. destruct (Z.eqb_spec j i) as [->|Hne].
      * rewrite decide_True by (by left). done.
      * rewrite decide_False; [done|]. intros [?|?]%elem_of_cons; done.
Qed.

Lemma elem_of_range a b j : j ∈ range a b <-> a <= j < b.
Proof using.
  unfold range. rewrite list_elem_of_fmap. split.
  - intros (i & -> & Hi). apply elem_of_seq in Hi. lia.
  - intros Hj. exists (Z.to_nat (j - a)). split; [lia|]. apply elem_of_seq. lia.
Qed.
Lemma range_NoDup a b : NoDup (range a b).
Proof using. unfold range. apply NoDup_fmap_2; [intros x y; lia|apply NoDup_seq]. Qed.
Lemma range_empty a b : b <= a -> range a b = [].
Proof using. intros H. unfold range. by replace (Z.to_nat (b - a)) with 0%nat by lia. Qed.
Lemma range_cons a b : a < b -> range a b = a :: range (a + 1) b.
Proof using.
  intros H. unfold range. replace (Z.to_nat (b - a)) with (S (Z.to_nat (b - (a + 1)))) by lia. cbn [seq fmap list_fmap]. f_equal; [lia|].
  rewrite <- fmap_S_seq, <- list_fmap_compose. apply list_fmap_ext. intros i x _. cbn. lia.
Qed.

(** The set of the controllers below a count, and the mask that names it. *)
Definition upto (n : Z) : gset Z := list_to_set (range 0 n).
Lemma elem_of_upto n j : j ∈ upto n <-> 0 <= j < n.
Proof using. unfold upto. by rewrite elem_of_list_to_set, elem_of_range. Qed.
Lemma clamp_bounds n : 0 <= clampControllerCount n <= 5.
Proof using. unfold clampControllerCount, MaxSupportedControllers. lia. Qed.
Lemma clamp_twice n : clampControllerCount (clampControllerCount n) = clampControllerCount n.
Proof using. unfold clampControllerCount, MaxSupportedControllers. lia. Qed.
Lemma mask_bit n j : 0 <= j -> Z.testbit (i16 (connectedControllerMask n)) j = (j <? clampControllerCount n).
Proof using.
  intros Hj. unfold connectedControllerMask. pose proof (clamp_bounds n). set (c := clampControllerCount n) in *.
  assert (i16 (if c =? 0 then 0 else u16 (u32 (Z.shiftl 1 c - 1))) = Z.ones c) as ->.
  { assert (c = 0 \/ c = 1 \/ c = 2 \/ c = 3 \/ c = 4 \/ c = 5) as Hc by lia. by destruct Hc as [-> | [-> | [-> | [-> | [-> | -> ]]]]]. }
  rewrite Z.testbit_ones by lia. by rewrite (proj2 (Z.leb_le 0 j)) by done.
Qed.
Lemma in_mask_upto n m : in_mask (i16 (connectedControllerMask n)) (upto m) = upto (Z.min (clampControllerCount n) m).
Proof using.
  unfold in_mask. apply set_eq. intros j. rewrite elem_of_filter, !elem_of_upto. split.
  - intros [Hb Hj]. rewrite mask_bit in Hb by lia. lia.
  - intros Hj. rewrite mask_bit by lia. split; [|lia]. apply Z.ltb_lt. lia.
Qed.

Lemma chain_mask n l : forall m b, chain (fun _ a b => b = in_mask (i16 (connectedControllerMask n)) a) l (upto m) b ->
  b = upto (match l with [] => m | _ => Z.min (clampControllerCount n) m end).
Proof using.
  induction l as [|i l IH]; intros m b H; cbn in H; [by rewrite H|]. destruct H as (c & -> & H). rewrite in_mask_upto in H. apply IH in H as ->.
  destruct l; f_equal; lia.
Qed.
Lemma chain_arrive a b : forall c, 0 <= a -> chain (fun i x y => y = {[i]} ∪ x) (range a b) (upto a) c -> c = upto (Z.max a b).
Proof using.
  intros c Ha H. remember (Z.to_nat (b - a)) as k eqn:Hk. revert a Ha H Hk. induction k as [|k IH]; intros a Ha H Hk.
  - rewrite range_empty in H by lia. cbn in H. rewrite <- H. f_equal. lia.
  - rewrite range_cons in H by lia. cbn in H. destruct H as (d & -> & H). rewrite (IH (a + 1)); [f_equal; lia|lia| |lia].
    replace (upto (a + 1)) with ({[a]} ∪ upto a); [done|]. apply set_eq. intros j. rewrite elem_of_union, elem_of_singleton, !elem_of_upto. lia.
Qed.
Lemma chain_updates n l b : chain (fun _ x y => y = x \/ y = in_mask (i16 (connectedControllerMask n)) x) l (upto (clampControllerCount n)) b -> b = upto (clampControllerCount n).
Proof using.
  induction l as [|i l IH]; intros H; cbn in H; [done|]. destruct H as (c & [->| ->] & H); [by apply IH|]. rewrite in_mask_upto, Z.min_id in H. by apply IH.
Qed.

(** ** A frame's controllers *)

Context (slots_enough : (5 <= slots)%nat).
(** What holds between operations: the host sees what the slots remember, and beyond the
    announced controllers they remember nothing. *)
Record consistent (s : Input) : Prop := {
  c_sized : sized s;
  c_mirrored : mirrored s;
  c_count : 0 <= lastControllerCount s <= 5;
  c_quiet : forall j, lastControllerCount s <= j -> last_of s j = neutral;
}.
Definition announced s : Prop := v_announced (view s) = upto (lastControllerCount s).

Lemma topology_wp mask n s : n = clampControllerCount n -> mask = i16 (connectedControllerMask n) -> consistent s ->
  let topology := controllerTopologyDelta (lastControllerCount s) n in
  wp (when (changed topology)
    (each (release_pad answers mask) (range (releaseFirst topology) (releaseEnd topology));;
     each (arrive_pad answers mask) (range (arriveFirst topology) (arriveEnd topology))))
  (fun _ s' => exists a, pads_now s (fun j => if decide (n <= j) then neutral else last_of s j) a s' /\ (announced s -> a = upto n)) s.
Proof using pads_reliable arrivals_reliable slots_enough.
  intros Hn Hmask [Hs Hm Hc Hq] topology. pose proof (clamp_bounds n) as Hb. rewrite <- Hn in Hb. set (m := lastControllerCount s) in *.
  assert (releaseFirst topology = n /\ releaseEnd topology = Z.max m n /\ arriveFirst topology = m /\ arriveEnd topology = Z.max n m /\ changed topology = negb (m =? n)) as (-> & -> & -> & -> & ->).
  { unfold topology, controllerTopologyDelta. cbn. rewrite !(Z.max_l _ 0) by lia. done. }
  apply wp_when.
  - intros Hne. apply negb_true_iff, Z.eqb_neq in Hne. apply op_bind.
    eapply op_mono; [apply (each_pads (release_pad answers mask) (fun _ _ => neutral) (fun _ a b => b = in_mask mask a)); [|done|done|done|apply range_NoDup|]|].
    + intros i s1 H1 H2 H3. eapply op_mono; [by apply release_pad_wp|]. intros [] s2 H4. by eexists.
    + intros i Hi%elem_of_range. unfold ok_slot. lia.
    + intros [] s1 (a1 & H1 & C1). pose proof H1 as (G1 & G2 & G3 & G4 & G5).
      eapply op_mono; [apply (each_pads (arrive_pad answers mask) (fun last i => last i) (fun i a b => b = {[i]} ∪ a)); [|done|done|done|apply range_NoDup|]|].
      * intros i s2 H2 H3 H4. eapply op_mono; [by apply arrive_pad_wp|]. intros [] s3 H5. eexists. split; [|done]. eapply pads_now_ext; [exact H5| |done].
        intros j Hj. unfold put. by destruct (Z.eqb_spec j i) as [->|].
      * intros i Hi%elem_of_range. unfold ok_slot. lia.
      * intros [] s2 (a2 & H2 & C2). exists a2. split.
        -- eapply pads_now_ext; [eapply pads_now_step; [exact H1|exact H2]| |done]. intros j Hj. cbn beta. rewrite G4 by done.
           assert ((if decide (j ∈ range m (Z.max n m)) then (if decide (j ∈ range n (Z.max m n)) then neutral else last_of s j) else (if decide (j ∈ range n (Z.max m n)) then neutral else last_of s j)) =
             (if decide (j ∈ range n (Z.max m n)) then neutral else last_of s j)) as -> by (by destruct (decide (j ∈ range m _))).
           destruct (decide (n <= j)) as [Hnj|Hnj].
           ++ destruct (decide (j ∈ _)) as [|Hr]; [done|]. rewrite elem_of_range in Hr. apply Hq. lia.
           ++ rewrite decide_False; [done|]. rewrite elem_of_range. lia.
        -- intros Ha. unfold announced in Ha. rewrite Ha, Hmask in C1. fold m in C1. apply chain_mask in C1. rewrite <- Hn in C1. rewrite G5, C1 in C2.
           destruct (Z.lt_ge_cases n m).
           ++ rewrite (range_empty m) in C2 by lia. rewrite (range_cons n) in C2 by lia. cbn in C2. rewrite <- C2. f_equal. lia.
           ++ rewrite (range_empty n) in C2 by lia. apply chain_arrive in C2; [|lia]. rewrite C2. f_equal. lia.
  - intros He. apply negb_false_iff, Z.eqb_eq in He. eexists. split; [eapply pads_now_ext; [by apply pads_now_same| |done]|].
    + intros j Hj. destruct (decide (n <= j)); [|done]. apply Hq. lia.
    + intros Ha. unfold announced in Ha. rewrite Ha. f_equal. exact He.
Qed.

Lemma handle_controllers_wp f specialKey s : consistent s ->
  wp (handleControllers flag ps answers f specialKey) (fun _ s' => consistent s' /\ lastControllerCount s' = clampControllerCount (f_reported f) /\
    (forall j, 0 <= j < clampControllerCount (f_reported f) -> last_of s' j = read_now f specialKey (last_of s) j) /\ (announced s -> announced s')) s.
Proof using pads_reliable arrivals_reliable slots_enough.
  intros Hcons. unfold handleControllers. set (n := clampControllerCount (f_reported f)). assert (n = clampControllerCount n) as Hn by (unfold n; by rewrite clamp_twice).
  pose proof (clamp_bounds n) as Hb. rewrite <- Hn in Hb.
  apply op_bind, wp_get, op_bind. eapply op_mono; [by apply (topology_wp (i16 (connectedControllerMask n)))|]. intros [] s1 (a1 & H1 & Ha1). pose proof H1 as (G1 & G2 & G3 & G4 & G5).
  apply op_bind.
  set (again := changed _). set (mask := i16 _).
  eapply op_mono; [apply (each_pads (update_pad flag ps answers f specialKey again mask) (read_now f specialKey) (fun _ x y => y = x \/ y = in_mask mask x)); [|  |done|done|apply range_NoDup|]|].
  - intros i s2 H2 H3 H4. by apply update_pad_wp.
  - intros g h i E. unfold read_now. by rewrite E.
  - intros i Hi%elem_of_range. unfold ok_slot. lia.
  - intros [] s2 (a2 & H2 & C2). pose proof H2 as (K1 & K2 & K3 & K4 & K5). apply wp_modify. split; [split|split; [done|split]].
    + done.
    + done.
    + exact Hb.
    + intros j Hj. cbn [lastControllerCount with_count] in Hj. change (last_of (with_count n s2) j) with (last_of s2 j). rewrite K4 by lia.
      rewrite decide_False by (rewrite elem_of_range; lia). rewrite G4 by lia. by rewrite decide_True.
    + intros j Hj. change (last_of (with_count n s2) j) with (last_of s2 j). rewrite K4 by lia. rewrite decide_True by (rewrite elem_of_range; lia).
      unfold read_now. rewrite G4 by lia. by rewrite decide_False by lia.
    + intros Ha. unfold announced. change (view (with_count n s2)) with (view s2). cbn [lastControllerCount with_count]. rewrite K5. rewrite G5, (Ha1 Ha) in C2.
      unfold mask in C2. pose proof (chain_updates n (range 0 n) a2) as Hch. rewrite <- Hn in Hch. by apply Hch.
Qed.

(** ** Operations that do not concern controllers *)

Definition silent {A} (m : I A) : Prop := forall s, sized s -> mirrored s -> wp m (fun _ => pads_now s (last_of s) (v_announced (view s))) s.
Lemma silent_ret {A} (x : A) : silent (mret x).
Proof using. intros s Hs Hm. apply wp_ret. by apply pads_now_same. Qed.
Lemma silent_bind {A B} (m : I A) (k : A -> I B) : silent m -> (forall x, silent (k x)) -> silent (m ≫= k).
Proof using.
  intros Hm Hk s Hs Hi. apply op_bind. eapply op_mono; [by apply Hm|]. intros x s1 H1. pose proof H1 as (G1 & G2 & G3 & G4 & G5).
  eapply op_mono; [by apply Hk|]. intros y s2 H2. eapply pads_now_ext; [eapply pads_now_step; [exact H1|exact H2]|exact G4|exact G5].
Qed.
Lemma silent_get : silent get_state.
Proof using. intros s Hs Hm. apply wp_get. by apply pads_now_same. Qed.
Lemma silent_modify g : (forall s, sent (g s) = sent s /\ pads (g s) = pads s /\ lastControllerCount (g s) = lastControllerCount s) -> silent (modify g).
Proof using.
  intros Hg s Hs Hm. apply wp_modify. destruct (Hg s) as (H1 & H2 & H3). unfold pads_now, sized, mirrored, view, last_of in *. by rewrite H1, H2, H3.
Qed.
Lemma silent_send c : not_pad c = true -> silent (send answers c).
Proof using.
  intros Hc s Hs Hm. apply wp_send. destruct (host_not_pad (sent s) c (answers (sent s) c) Hc) as [H1 H2]. split_and!; try done.
  intros j Hj. unfold view. cbn [sent with_sent]. rewrite H1. by apply Hm.
Qed.
Lemma silent_send_ c : not_pad c = true -> silent (send_ answers c).
Proof using. intros Hc. unfold send_. apply silent_bind; [by apply silent_send|]. intros x. apply silent_ret. Qed.
Lemma silent_when b m : silent m -> silent (when b m).
Proof using. intros Hm. unfold when. destruct b; [done|apply silent_ret]. Qed.
Lemma silent_each {A} (f : A -> I unit) l : (forall x, silent (f x)) -> silent (each f l).
Proof using. intros Hf. induction l as [|x l IH]; cbn [each]; [apply silent_ret|]. apply silent_bind; [done|]. by intros ?. Qed.
Ltac silence := repeat first
  [ progress intros | apply silent_ret | apply silent_get | apply silent_when | apply silent_send_; done | apply silent_send; done | apply silent_bind
  | apply silent_each | apply silent_modify; done | case_match ].

Lemma silent_mouse f specialKey : silent (handle_mouse ps answers f specialKey).
Proof using. unfold handle_mouse, mouse_edge. silence. Qed.
Lemma silent_touches f : silent (handle_touches answers LI_ERR_UNSUPPORTED f).
Proof using. unfold handle_touches, multi_touch, absolute_touch. silence. Qed.
Lemma silent_release_keys l : silent (release_keys answers l).
Proof using. unfold release_keys. silence. Qed.
Lemma silent_press ks : forall pressed, silent (press_keys answers ks pressed).
Proof using. induction ks as [|k ks IH]; intros pressed; cbn [press_keys]; silence; apply IH. Qed.
Lemma silent_shortcut ks : silent (sendKeyboardShortcut answers ks).
Proof using. unfold sendKeyboardShortcut. case_match; [apply silent_ret|apply silent_press]. Qed.
Lemma silent_release : silent (release_shortcut answers).
Proof using. unfold release_shortcut. silence; apply silent_release_keys. Qed.
Lemma silent_key k down m : silent (key_event answers vk_of k down m).
Proof using. unfold key_event. silence. Qed.
Lemma silent_motion o now i gyro : silent (motion_event answers o now i gyro).
Proof using. unfold motion_event. silence. Qed.

Lemma silent_consistent {A} (m : I A) s : silent m -> consistent s ->
  wp m (fun _ s' => consistent s' /\ lastControllerCount s' = lastControllerCount s /\ (forall j, 0 <= j -> last_of s' j = last_of s j) /\ (announced s -> announced s')) s.
Proof using slots_enough.
  intros Hm [H1 H2 H3 H4]. eapply op_mono; [by apply Hm|]. intros x s' (G1 & G2 & G3 & G4 & G5). split_and!; [split|done|done|].
  - done.
  - done.
  - by rewrite G3.
  - intros j Hj. rewrite G3 in Hj. rewrite G4 by lia. by apply H4.
  - intros Ha. unfold announced in *. by rewrite G5, G3.
Qed.

(** A frame: every connected controller is shown to the host as it was read. *)
Lemma handle_input_wp f s : consistent s ->
  let n := clampControllerCount (f_reported f) in
  let specialKey := negb (f_ignoreTouch f) && isTrackpadMode (f_mode f) && (f_states f =? 1) in
  wp (handleInput flag ps answers LI_ERR_UNSUPPORTED f) (fun _ s' => consistent s' /\ lastControllerCount s' = n /\
    (forall j, 0 <= j < n -> v_pads (view s') j = read_now f specialKey (last_of s) j) /\ (announced s -> announced s')) s.
Proof using pads_reliable arrivals_reliable slots_enough.
  intros Hc n specialKey. unfold handleInput. apply op_bind, wp_modify. set (s0 := with_dropped false s).
  assert (consistent s0) as Hc0 by (destruct Hc; by split). apply op_bind. eapply op_mono; [by apply handle_controllers_wp|]. intros [] s1 (H1 & N1 & L1 & A1). fold specialKey in L1.
  match goal with |- wp ?m _ _ => assert (silent m) as Hsil by (apply silent_bind; [apply silent_mouse|]; silence; apply silent_touches) end.
  eapply op_mono; [by apply (silent_consistent _ s1 Hsil)|]. intros x s2 (H2 & N2 & L2 & A2). split_and!; [done|by rewrite N2| |].
  - intros j Hj. pose proof (clamp_bounds (f_reported f)). rewrite (c_mirrored s2 H2) by lia. rewrite L2 by lia. by apply L1.
  - intros Ha. by apply A2, A1.
Qed.

Lemma drop_pads_wp mask l : forall s res, sized s -> mirrored s -> (forall i, i ∈ l -> ok_slot i) ->
  wp (drop_pads answers mask l res) (fun ok s' => ok = res /\ exists a, pads_now s (fun j => if decide (j ∈ l) then neutral else last_of s j) a s' /\
    chain (fun _ a b => b = in_mask mask a) l (v_announced (view s)) a) s.
Proof using pads_reliable.
  induction l as [|i l IH]; intros s res Hs Hm Hin; cbn [drop_pads].
  - apply wp_ret. split; [done|]. eexists. split; [|done]. eapply pads_now_ext; [by apply pads_now_same| |done]. intros j Hj. by rewrite decide_False by apply not_elem_of_nil.
  - assert (ok_slot i) as Hok by (apply Hin; by left). apply op_bind. eapply op_mono; [by apply drop_pad_wp|]. intros ok s1 [-> H1]. pose proof H1 as (G1 & G2 & G3 & G4 & G5).
    eapply op_mono; [apply IH; [done|done|intros j Hj; apply Hin; by right]|]. intros ok s2 (-> & a & H2 & C). split; [by destruct res|]. exists a. rewrite G5 in C. split; [|eexists; split; [reflexivity|exact C]].
    eapply pads_now_ext; [eapply pads_now_step; [exact H1|exact H2]| |done]. intros j Hj. cbn beta. rewrite G4 by done. unfold put.
    destruct (decide (j ∈ l)) as [Hjl|Hjl]; [by rewrite decide_True by (by right)|]. destruct (Z.eqb_spec j i) as [->|Hne]; [by rewrite decide_True by (by left)|].
    rewrite decide_False; [done|]. by intros [?|?]%elem_of_cons.
Qed.

(** A drop, whatever the library answers to the rest of it. *)
Lemma drop_input_wp reported s : consistent s -> wp (dropInput answers keys vk_of reported) (fun _ s' => consistent s' /\ lastControllerCount s' = lastControllerCount s /\
  (inputDropped s = false -> forall j, 0 <= j -> last_of s' j = neutral) /\ (announced s -> inputDropped s = true \/ lastControllerCount s <= clampControllerCount reported -> announced s')) s.
Proof using pads_reliable slots_enough.
  intros Hcons. pose proof Hcons as [Hs Hm Hc Hq]. unfold dropInput. apply op_bind, wp_get. destruct (inputDropped s) eqn:Ed.
  { apply wp_ret. by split_and!. }
  apply op_bind, wp_modify. set (s0 := with_gate new_gate s). pose proof (clamp_bounds reported). apply op_bind.
  eapply op_mono; [apply drop_pads_wp; [done|done|]|]. { intros i Hi%elem_of_range. unfold ok_slot. lia. }
  intros ok s1 (-> & a & H1 & C). pose proof H1 as (G1 & G2 & G3 & G4 & G5).
  assert (forall j, 0 <= j -> last_of s1 j = neutral) as Hneutral.
  { intros j Hj. rewrite G4 by done. destruct (decide _) as [|Hr]; [done|]. rewrite elem_of_range in Hr. change (last_of s0 j) with (last_of s j). apply Hq. lia. }
  assert (consistent s1) as Hc1. { split; [done|done|by rewrite G3|]. intros j Hj. rewrite G3 in Hj. apply Hneutral. change (lastControllerCount s0) with (lastControllerCount s) in Hj. lia. }
  match goal with |- wp ?m _ _ => assert (silent m) as Hsil by silence end.
  eapply op_mono; [by apply (silent_consistent _ s1 Hsil)|]. intros x s2 (H2 & N2 & L2 & A2). split_and!; [done|by rewrite N2, G3| |].
  - intros _ j Hj. rewrite L2 by done. by apply Hneutral.
  - intros Ha [Hd|Hle]; [done|]. apply A2. unfold announced in *. rewrite G5. change (view s0) with (view s) in C. rewrite Ha in C. apply chain_mask in C as ->.
    rewrite G3. change (lastControllerCount s0) with (lastControllerCount s). destruct (range _ _); [done|]. f_equal. lia.
Qed.

Lemma new_session_wp s : consistent s -> wp resetForNewSession (fun _ s' => consistent s' /\ announced s') s.
Proof using slots_enough.
  intros [Hs Hm Hc Hq]. apply wp_modify. set (s' := {| sent := [] |}).
  assert (forall j, last_of s' j = neutral) as Hl.
  { intros j. unfold last_of, s'. cbn [pads]. rewrite nth_lookup, list_lookup_fmap. by destruct (pads s !! Z.to_nat j). }
  split; [split|].
  - unfold sized, s'. cbn [pads]. by rewrite length_fmap.
  - intros j Hj. by rewrite Hl.
  - unfold s'. cbn. unfold announcedCountForNewSession. lia.
  - intros j _. apply Hl.
  - unfold announced, s', view. done.
Qed.

(** Drops that take no announced controller away from the host. *)
Definition keeps_announced s (o : op) : Prop :=
  match o with Drop reported => inputDropped s = true \/ lastControllerCount s <= clampControllerCount reported | _ => True end.
Lemma step_wp o s : consistent s -> wp (step flag ps answers LI_ERR_UNSUPPORTED keys vk_of o) (fun _ s' => consistent s' /\ (announced s -> keeps_announced s o -> announced s')) s.
Proof using pads_reliable arrivals_reliable slots_enough.
  intros Hc. destruct o as [f|reported| |k down m|o now i gyro|ks| |b]; cbn [step].
  - eapply op_mono; [by apply handle_input_wp|]. cbn beta. intros [] s1 (H1 & _ & _ & H2). split; [done|]. intros Ha _. by apply H2.
  - eapply op_mono; [by apply drop_input_wp|]. cbn beta. intros [] s1 (H1 & _ & _ & H2). by split.
  - eapply op_mono; [by apply new_session_wp|]. cbn beta. by intros [] s1 [H1 H2].
  - eapply op_mono; [apply silent_consistent; [apply silent_key|done]|]. cbn beta. intros [] s1 (H1 & _ & _ & H2). split; [done|]. intros Ha _. by apply H2.
  - eapply op_mono; [apply silent_consistent; [apply silent_motion|done]|]. cbn beta. intros [] s1 (H1 & _ & _ & H2). split; [done|]. intros Ha _. by apply H2.
  - eapply op_mono; [apply silent_consistent; [|done]|].
    + apply silent_bind; [apply silent_shortcut|]. intros ?. apply silent_ret.
    + cbn beta. intros [] s1 (H1 & _ & _ & H2). split; [done|]. intros Ha _. by apply H2.
  - eapply op_mono; [apply silent_consistent; [apply silent_release|done]|]. cbn beta. intros [] s1 (H1 & _ & _ & H2). split; [done|]. intros Ha _. by apply H2.
  - eapply op_mono; [apply silent_consistent; [by apply silent_modify|done]|]. cbn beta. intros [] s1 (H1 & _ & _ & H2). split; [done|]. intros Ha _. by apply H2.
Qed.
Lemma fresh_consistent : consistent (fresh slots) /\ announced (fresh slots).
Proof using slots_enough.
  assert (forall j, last_of (fresh slots) j = neutral) as Hl.
  { intros j. unfold last_of, fresh. cbn [pads]. rewrite nth_lookup. destruct (replicate slots no_pad !! Z.to_nat j) eqn:E; [|done]. apply lookup_replicate in E as [-> _]. done. }
  split; [split|].
  - unfold sized, fresh. cbn [pads]. by rewrite length_replicate.
  - intros j Hj. by rewrite Hl.
  - cbn. lia.
  - intros j _. apply Hl.
  - unfold announced, fresh, view. done.
Qed.
Lemma run_wp ops s : consistent s -> wp (run flag ps answers LI_ERR_UNSUPPORTED keys vk_of ops) (fun _ => consistent) s.
Proof using pads_reliable arrivals_reliable slots_enough.
  intros Hc. unfold run. apply wp_each_keeps; [|done]. intros o s1 _ H1. eapply op_mono; [by apply step_wp|]. cbn beta. by intros [] s2 [H2 _].
Qed.

(** ** What the host sees of the controllers *)

(** C29: in any sequence of frames, drops, sessions and other events every operation comes
    back without leaving the arrays, and the host sees of every slot what the slot
    remembers. After a frame every connected controller shows what was read of it, its
    guide button depending on what the host saw before, and every other slot is
    neutral. *)
Theorem controllers_mirrored (ops : list op) (f : Frame) :
  exists s s', run flag ps answers LI_ERR_UNSUPPORTED keys vk_of ops (fresh slots) = Some (tt, s) /\ handleInput flag ps answers LI_ERR_UNSUPPORTED f s = Some (tt, s') /\
    (forall i, ok_slot i -> v_pads (view s) i = last_of s i) /\
    lastControllerCount s' = clampControllerCount (f_reported f) /\
    (forall i, 0 <= i < clampControllerCount (f_reported f) -> v_pads (view s') i =
      read_now f (negb (f_ignoreTouch f) && isTrackpadMode (f_mode f) && (f_states f =? 1)) (v_pads (view s)) i) /\
    (forall i, ok_slot i -> clampControllerCount (f_reported f) <= i -> v_pads (view s') i = neutral).
Proof using pads_reliable arrivals_reliable slots_enough.
  destruct (run_wp ops (fresh slots) (proj1 fresh_consistent)) as ([] & s & E & Hc). destruct (handle_input_wp f s Hc) as ([] & s' & E' & Hc' & Hn & Hl & _).
  exists s, s'. split_and!; [done|done|apply Hc|done| |].
  - intros i Hi. rewrite Hl by done. unfold read_now. f_equal. symmetry. apply Hc. pose proof (clamp_bounds (f_reported f)). lia.
  - intros i Hi Hni. rewrite (c_mirrored s' Hc') by done. apply Hc'. by rewrite Hn.
Qed.

(** Steps none of which drops input with an announced controller gone. *)
Fixpoint all_kept (ops : list op) (s : Input) : Prop :=
  match ops with
  | [] => True
  | o :: rest => keeps_announced s o /\ forall s', step flag ps answers LI_ERR_UNSUPPORTED keys vk_of o s = Some (tt, s') -> all_kept rest s'
  end.
(** The host knows exactly the connected controllers as announced ones, so they rumble
    and report motion, as long as no drop happens with one of them gone. *)
Theorem controllers_announced (ops : list op) : all_kept ops (fresh slots) ->
  exists s, run flag ps answers LI_ERR_UNSUPPORTED keys vk_of ops (fresh slots) = Some (tt, s) /\
    forall i, i ∈ v_announced (view s) <-> 0 <= i < lastControllerCount s.
Proof using pads_reliable arrivals_reliable slots_enough.
  intros Hk. destruct (wp_each (step flag ps answers LI_ERR_UNSUPPORTED keys vk_of) ops (fun rest s => consistent s /\ announced s /\ all_kept rest s) (fresh slots)) as ([] & s & E & _ & Ha & _).
  - intros o rest s (Hc & Ha & Ho & Hrest). destruct (step_wp o s Hc) as ([] & s' & E & Hc' & Ha'). exists tt, s'. split; [done|]. split_and!; [done|by apply Ha'|by apply Hrest].
  - split; [apply fresh_consistent|]. split; [apply fresh_consistent|done].
  - exists s. split; [exact E|]. intros i. unfold announced in Ha. rewrite Ha. apply elem_of_upto.
Qed.

(** ** What a drop gives back *)

End proofs.

(** Calls that all succeed. *)
Lemma each_sends {A} (answers : list (call * Z) -> call -> Z) (c : A -> call) (l : list A) s : (forall t x, answers t (c x) = 0) ->
  wp (each (fun x => send_ answers (c x)) l) (fun _ s' => s' = with_sent (sent s ++ ((fun x => (c x, 0)) <$> l)) s) s.
Proof.
  intros Hc. revert s. induction l as [|x l IH]; intros s; cbn [each].
  - apply wp_ret. cbn. rewrite app_nil_r. by destruct s.
  - apply op_bind, wp_send_. rewrite Hc. eapply op_mono; [apply IH|]. intros ? s' ->. cbn. by rewrite <- app_assoc.
Qed.

Section drops.
Context (flag : Flag -> Z) (ps : PadSettings).
Context (answers : list (call * Z) -> call -> Z).
Context (LI_ERR_UNSUPPORTED : Z).
Context (keys : list Z) (vk_of : Z -> Z).
Context (slots : nat) (slots_enough : (5 <= slots)%nat).
Context (reliable : forall t c, answers t c = 0).

(** A drop that is due leaves nothing held: every controller is neutral, the left mouse
    button is up, the touches and the keys the manager sends are released. *)
Theorem drop_gives_back (ops : list op) (reported : Z) :
  exists s s', run flag ps answers LI_ERR_UNSUPPORTED keys vk_of ops (fresh slots) = Some (tt, s) /\ dropInput answers keys vk_of reported s = Some (tt, s') /\
    (inputDropped s = false -> inputDropped s' = true /\ (forall i, ok_slot slots i -> v_pads (view s') i = neutral) /\ v_buttons (view s') MouseLeft = false /\
      (forall id, id ∈ activeTouchIDs s -> id ∉ v_touches (view s')) /\ activeTouchIDs s' = ∅ /\ (forall k, k ∈ keys -> vk_of k ∉ v_keys (view s'))).
Proof using reliable slots_enough.
  assert (forall t i mask g, answers t (SendMultiController i mask g) = 0) as R1 by (intros; apply reliable).
  assert (forall t i mask, answers t (SendControllerArrival i mask) = 0) as R2 by (intros; apply reliable).
  destruct (run_wp flag ps answers LI_ERR_UNSUPPORTED keys vk_of slots R1 R2 slots_enough ops (fresh slots) (proj1 (fresh_consistent slots slots_enough))) as ([] & s & E & Hc).
  enough (wp (dropInput answers keys vk_of reported) (fun _ s' => inputDropped s = false -> inputDropped s' = true /\ (forall i, ok_slot slots i -> v_pads (view s') i = neutral) /\ v_buttons (view s') MouseLeft = false /\
      (forall id, id ∈ activeTouchIDs s -> id ∉ v_touches (view s')) /\ activeTouchIDs s' = ∅ /\ (forall k, k ∈ keys -> vk_of k ∉ v_keys (view s'))) s) as ([] & s' & E' & H); [by exists s, s'|].
  unfold dropInput. apply op_bind, wp_get. destruct (inputDropped s) eqn:Ed; [by apply wp_ret|]. apply op_bind, wp_modify. set (s0 := with_gate new_gate s). apply op_bind.
  destruct Hc as [Hs Hm Hcount Hq]. pose proof (clamp_bounds reported).
  eapply op_mono; [apply (drop_pads_wp answers slots R1); [done|done|]|]. { intros i Hi%elem_of_range. unfold ok_slot. lia. }
  intros ok s1 (-> & a & (G1 & G2 & G3 & G4 & G5) & _). apply op_bind, wp_send_, op_bind. rewrite reliable. eapply op_mono; [apply each_sends; intros; apply reliable|]. intros [] s2 ->.
  apply op_bind, wp_modify, op_bind. eapply op_mono; [apply each_sends; intros; apply reliable|]. intros [] s3 ->. apply wp_modify. intros _. cbn [inputDropped with_dropped activeTouchIDs with_touches with_sent]. unfold view.
  cbn [sent with_dropped with_touches with_sent]. rewrite !host_app_list.
  destruct (host_releases vk_of keys (foldl host_step (foldl host_step (host (sent s1)) [(SendMouseButton false MouseLeft, 0)])
    ((fun x => (SendTouch TouchCancel x (0, 0), 0)) <$> merge_sort Z.le (elements (activeTouchIDs s))))) as (K1 & K2 & K3 & K4).
  destruct (host_cancels (0, 0) (merge_sort Z.le (elements (activeTouchIDs s))) (foldl host_step (host (sent s1)) [(SendMouseButton false MouseLeft, 0)])) as (T1 & T2 & T3 & T4).
  split_and!; [done| | | |done|].
  - intros i Hi. rewrite K1, T1. cbn. unfold ok_slot in Hi. change (v_pads (view s1) i = neutral). rewrite G2, G4 by lia. destruct (decide _) as [|Hr]; [done|]. rewrite elem_of_range in Hr.
    apply Hq. lia.
  - rewrite K2, T2. done.
  - intros id Hid. rewrite K3, T4. intros [_ Hn]. apply Hn. rewrite merge_sort_Permutation. by apply elem_of_elements.
  - intros k Hk. rewrite K4. intros [_ Hn]. apply Hn. apply list_elem_of_fmap. by exists k.
Qed.
End drops.

(** ** Buttons *)

Lemma i16_bit z n : 0 <= n < 16 -> Z.testbit (i16 z) n = Z.testbit z n.
Proof.
  intros Hn. rewrite <- (Z.mod_pow2_bits_low (i16 z) 16 n), <- (Z.mod_pow2_bits_low z 16 n) by lia. f_equal. unfold i16.
  rewrite Zminus_mod, Zmod_mod, <- Zminus_mod. f_equal. lia.
Qed.
Section buttons.
Context (bit : Flag -> Z) (bit_range : forall k, 0 <= bit k < 16) (bit_inj : forall j k, bit j = bit k -> j = k).
Context (ps : PadSettings).
Definition flag_of (k : Flag) : Z := 2 ^ bit k.

Lemma set_bit k pressed flags j : Z.testbit (SET_GAME_PAD_STATE flag_of k pressed flags) (bit j) = if decide (j = k) then pressed else Z.testbit flags (bit j).
Proof using bit_range bit_inj.
  unfold SET_GAME_PAD_STATE, flag_of. rewrite i16_bit by done. pose proof (bit_range j). pose proof (bit_range k).
  assert (Z.testbit (2 ^ bit k) (bit j) = bool_decide (j = k)) as Hp.
  { rewrite Z.pow2_bits_eqb by lia. destruct (decide (j = k)) as [->|Hne]; [rewrite Z.eqb_refl; by rewrite bool_decide_true|].
    rewrite bool_decide_false by done. apply Z.eqb_neq. intros E. apply Hne. symmetry. by apply bit_inj. }
  destruct pressed.
  - rewrite Z.lor_spec, Hp. destruct (decide (j = k)); [rewrite bool_decide_true by done; apply orb_true_r|rewrite bool_decide_false by done; apply orb_false_r].
  - rewrite Z.land_spec, Z.lnot_spec, Hp by lia. destruct (decide (j = k)); [rewrite bool_decide_true by done; apply andb_false_r|rewrite bool_decide_false by done; apply andb_true_r].
Qed.
Lemma set_all (buttons : Button -> bool) l : NoDup l.*1 -> forall flags j,
  Z.testbit (foldl (fun flags '(k, b) => SET_GAME_PAD_STATE flag_of k (buttons b) flags) flags l) (bit j) =
  match list_find (fun kb => kb.1 = j) l with Some (_, (_, b)) => buttons b | None => Z.testbit flags (bit j) end.
Proof using bit_range bit_inj.
  induction l as [|[k b] l IH]; intros Hnd flags j; [done|]. cbn in Hnd. apply list.NoDup_cons in Hnd as [Hk Hnd]. cbn [foldl]. rewrite IH by done. cbn [list_find fst].
  destruct (decide (k = j)) as [->|Hne].
  - assert (list_find (fun kb : Flag * Button => kb.1 = j) l = None) as ->.
    { apply list_find_None, list.Forall_forall. intros x Hx Ex. apply Hk. rewrite <- Ex. by apply list_elem_of_fmap_2. }
    rewrite set_bit. by rewrite decide_True.
  - destruct (list_find _ l) as [[i [k' b']]|] eqn:E; cbn; [done|]. rewrite set_bit. by rewrite decide_False by done.
Qed.

(** The flags of a controller are those of its mapped buttons, unless its guide is held
    by the combination, or was before: then the guide's flag is the only one. *)
Theorem flags_of_buttons (last : GamepadState) (specialKey : bool) (r : PadRead) :
  let buttons := mapController ps (raw_buttons r) in
  let g := getControllerState flag_of ps last specialKey r in
  Z.testbit (buttonFlags g) (bit SPECIAL_FLAG) = guide_combo ps buttons || buttons BUTTON_GUIDE /\
  forall k b, (k, b) ∈ flag_buttons ps -> Z.testbit (buttonFlags g) (bit k) =
    buttons b && negb (guide_combo ps buttons) && negb (Z.testbit (buttonFlags last) (bit SPECIAL_FLAG)).
Proof using bit_range bit_inj.
  intros buttons g. unfold g, getControllerState. fold buttons. destruct (sticks r) as [[[lx ly] rx] ry]. cbn [buttonFlags]. split.
  - rewrite set_bit. by rewrite decide_True.
  - intros k b Hkb. assert (k <> SPECIAL_FLAG) as Hk.
    { intros ->. unfold flag_buttons in Hkb. destruct (on_switch ps); repeat (apply elem_of_cons in Hkb as [Hkb|Hkb]; [discriminate Hkb|]); by apply not_elem_of_nil in Hkb. }
    rewrite set_bit, decide_False by done. pose proof (bit_range SPECIAL_FLAG).
    assert (negb (Z.land (buttonFlags last) (flag_of SPECIAL_FLAG) =? 0) = Z.testbit (buttonFlags last) (bit SPECIAL_FLAG)) as ->.
    { unfold flag_of. destruct (Z.testbit (buttonFlags last) (bit SPECIAL_FLAG)) eqn:E.
      - apply negb_true_iff, Z.eqb_neq. intros E0. assert (Z.testbit (Z.land (buttonFlags last) (2 ^ bit SPECIAL_FLAG)) (bit SPECIAL_FLAG) = true) as Ht.
        { by rewrite Z.land_spec, E, Z.pow2_bits_true by lia. }
        by rewrite E0, Z.bits_0 in Ht.
      - apply negb_false_iff, Z.eqb_eq. apply Z.bits_inj_iff'. intros n Hn. rewrite Z.land_spec, Z.bits_0, Z.pow2_bits_eqb by lia.
        destruct (Z.eqb_spec (bit SPECIAL_FLAG) n) as [<-|]; [by rewrite E|apply andb_false_r]. }
    destruct (guide_combo ps buttons); cbn [orb negb]; [by rewrite Z.bits_0, andb_false_r|].
    destruct (Z.testbit (buttonFlags last) _); cbn [negb]; [by rewrite Z.bits_0, !andb_false_r|]. rewrite !andb_true_r. unfold pad_flags. rewrite set_all.
    + destruct (list_find_elem_of (fun kb : Flag * Button => kb.1 = k) (flag_buttons ps) (k, b) Hkb eq_refl) as [[i [k' b']] E]. rewrite E.
      apply list_find_Some in E as (E1 & E2 & _). cbn in E2. subst k'. apply list_elem_of_lookup_2 in E1. f_equal.
      revert Hkb E1. unfold flag_buttons. destruct (on_switch ps); cbn; intros Hkb E1;
        repeat (apply elem_of_cons in Hkb as [Hkb|Hkb]; [injection Hkb as -> ->; repeat (apply elem_of_cons in E1 as [E1|E1]; [by simplify_eq|]); by apply not_elem_of_nil in E1|]);
        by apply not_elem_of_nil in Hkb.
    + unfold flag_buttons. destruct (on_switch ps); by apply (bool_decide_unpack _).
Qed.
End buttons.

(** ** Motion *)

Record Sample := { s_source : MotionSource; s_now : Z; s_handheld : bool; s_options : MotionOptions }.
Definition sample (g : MotionFallbackGate) (x : Sample) : MotionFallbackGate := (shouldForward (s_source x) (s_now x) (s_handheld x) (s_options x) g).2.
Definition from_controller (x : Sample) : bool := allowGamepadMotionSensors (s_options x) && negb (match s_source x with Console => true | _ => false end).
Definition from_console (x : Sample) : bool :=
  allowGamepadMotionSensors (s_options x) && match s_source x with Console => s_handheld x && allowConsoleMotionFallback (s_options x) | _ => false end.
Definition times (p : Sample -> bool) (l : list Sample) : list Z := s_now <$> List.filter p l.

Lemma times_snoc p l x : times p (l ++ [x]) = times p l ++ (if p x then [s_now x] else []).
Proof. unfold times. rewrite List.filter_app, fmap_app. cbn [List.filter]. by destruct (p x). Qed.
Lemma gate_state l : foldl sample new_gate l = {| lastControllerSample := list.last (times from_controller l); observationStart := head (times from_console l) |}.
Proof.
  induction l as [|x l IH] using rev_ind; [done|]. rewrite foldl_app. cbn [foldl]. rewrite IH, !times_snoc. unfold sample.
  destruct x as [src now hh [sensors fb]]. unfold shouldForward, from_controller at 2, from_console at 2. cbn.
  destruct sensors; cbn; [|by rewrite !app_nil_r]. destruct src; cbn; rewrite ?app_nil_r, ?last_snoc; try done.
  destruct hh, fb; cbn; rewrite ?app_nil_r; try done. destruct (times from_console l) as [|t ts]; cbn; [done|]. by destruct (_ || _).
Qed.

(** A sample after any others is forwarded exactly if it is a controller's, or it is the
    console's own in handheld mode, the fallback is on, it was first offered half a
    second ago and no controller sent anything since half a second ago. *)
Theorem motion_forwarded (l : list Sample) (x : Sample) :
  (shouldForward (s_source x) (s_now x) (s_handheld x) (s_options x) (foldl sample new_gate l)).1 = true <->
  from_controller x = true \/
  (from_console x = true /\ (exists t0, head (times from_console l) = Some t0 /\ t0 + FALLBACK_DELAY_MS <= s_now x) /\
   forall t, list.last (times from_controller l) = Some t -> t + FALLBACK_DELAY_MS <= s_now x).
Proof.
  rewrite gate_state. generalize (times from_console l) (times from_controller l). intros starts samples. destruct x as [src now hh [sensors fb]]. unfold shouldForward, from_controller, from_console, controllerRecentlyActive, FALLBACK_DELAY_MS. cbn.
  destruct sensors; cbn; [|naive_solver]. destruct src; cbn; [naive_solver|naive_solver|]. destruct hh, fb; cbn; try naive_solver.
  destruct starts as [|t0 ts]; cbn; [split; [done|by intros [?|(_ & (? & ? & _) & _)]]|].
  replace ((now <? t0) || (now - t0 <? 500)) with (negb (t0 + 500 <=? now)) by lia.
  destruct (list.last samples) as [t|]; cbn.
  - replace (if now <? t then true else now - t <? 500) with (negb (t + 500 <=? now)) by (destruct (Z.ltb_spec now t); lia).
    destruct (Z.leb_spec (t0 + 500) now), (Z.leb_spec (t + 500) now); cbn; split; try done.
    + intros _. right. split_and!; [done|by exists t0|]. by intros ? [= <-].
    + intros [?|(_ & _ & Hall)]; [done|]. specialize (Hall t eq_refl). lia.
    + intros [?|(_ & (? & [= <-] & ?) & _)]; [done|lia].
    + intros [?|(_ & (? & [= <-] & ?) & _)]; [done|lia].
  - destruct (Z.leb_spec (t0 + 500) now); cbn; split; try done.
    + intros _. right. split_and!; [done|by exists t0|done].
    + intros [?|(_ & (? & [= <-] & ?) & _)]; [done|lia].
Qed.

(** ** Shortcuts *)

Section shortcuts.
Context (answers : list (call * Z) -> call -> Z) (ups_reliable : forall t k, answers t (SendKeyboard k false 0) = 0).

Lemma release_keys_wp l s : wp (release_keys answers l) (fun _ s' => held s' = held s /\ forall k, k ∈ v_keys (view s') <-> k ∈ v_keys (view s) /\ (k ∉ l)) s.
Proof using ups_reliable.
  unfold release_keys. eapply op_mono; [apply (each_sends answers (fun k => SendKeyboard k false 0)); intros; apply ups_reliable|]. intros [] s' ->. split; [done|]. intros k.
  unfold view at 1. cbn [sent with_sent]. rewrite host_app_list. destruct (host_releases (fun k => k) (reverse l) (host (sent s))) as (_ & _ & _ & H). etransitivity; [apply H|].
  rewrite list_fmap_id. by rewrite elem_of_reverse.
Qed.
Lemma press_keys_wp (base : gset Z) ks : forall pressed s, (forall k, k ∈ pressed ++ ks -> k ∉ base) -> (forall k, k ∈ v_keys (view s) <-> k ∈ pressed \/ k ∈ base) ->
  wp (press_keys answers ks pressed) (fun b s' => held s' = held s ++ (if b : bool then [pressed ++ ks] else []) /\
    forall k, k ∈ v_keys (view s') <-> ((b = true /\ k ∈ pressed ++ ks) \/ k ∈ base)) s.
Proof using ups_reliable.
  induction ks as [|x ks IH]; intros pressed s Hd Hv; cbn [press_keys].
  - apply op_bind, wp_modify, wp_ret. rewrite app_nil_r. split; [done|]. intros k. change (view (with_held _ s)) with (view s). rewrite Hv. naive_solver.
  - apply op_bind, wp_send. set (rc := answers _ _). set (s1 := with_sent _ s). assert (view s1 = host_step (view s) (SendKeyboard x true 0, rc)) as Hs1 by (unfold view, s1; cbn [sent with_sent]; by rewrite host_app).
    destruct (Z.eqb_spec rc 0) as [Erc|Erc]; cbn [negb].
    + eapply op_mono; [apply IH|].
      * intros k Hk. apply Hd. rewrite <- app_assoc in Hk. exact Hk.
      * intros k. rewrite Hs1, Erc. cbn. rewrite elem_of_union, elem_of_singleton, elem_of_app, list_elem_of_singleton, Hv. tauto.
      * cbn beta. intros b s2 [H1 H2]. rewrite <- app_assoc in *. split; [exact H1|exact H2].
    + assert (view s1 = view s) as Hsame. { rewrite Hs1. unfold host_step. cbn [snd]. by rewrite (proj2 (Z.eqb_neq rc 0)). }
      apply op_bind. eapply op_mono; [apply release_keys_wp|]. intros [] s2 [H1 H2]. apply wp_ret. split; [rewrite H1; by rewrite app_nil_r|].
      intros k. rewrite H2, Hsame, Hv. split; [naive_solver|]. intros [[? _]|Hk]; [done|]. split; [by right|]. intros Hp. apply (Hd k); [|done]. apply elem_of_app. by left.
Qed.

(** A shortcut whose keys are up: all of its keys go down, and the delayed release takes
    them all back; or one of them is refused, and those before it are taken back at
    once. *)
Theorem shortcut_released (ks : list Z) (s : Input) : held s = [] -> (forall k, k ∈ ks -> k ∉ v_keys (view s)) ->
  exists b s1, sendKeyboardShortcut answers ks s = Some (b, s1) /\
    if b : bool then (forall k, k ∈ v_keys (view s1) <-> k ∈ ks \/ k ∈ v_keys (view s)) /\
      exists s2, release_shortcut answers s1 = Some (tt, s2) /\ held s2 = [] /\ v_keys (view s2) = v_keys (view s)
    else v_keys (view s1) = v_keys (view s) /\ held s1 = [].
Proof using ups_reliable.
  intros Hh Hk. unfold sendKeyboardShortcut. destruct (bool_decide _); [by exists false, s|].
  destruct (press_keys_wp (v_keys (view s)) ks [] s) as (b & s1 & E & H1 & H2).
  - exact Hk.
  - intros k. rewrite elem_of_nil. tauto.
  - exists b, s1. split; [done|]. rewrite Hh in H1. cbn [app] in H1, H2. destruct b.
    + split; [intros k; rewrite H2; naive_solver|]. destruct (release_keys_wp ks (with_held [] s1)) as ([] & s2 & E2 & G1 & G2). exists s2.
      split; [|split; [exact G1|]].
      * unfold release_shortcut, mbind, I_bind, get_state. cbn beta. rewrite H1. cbn [modify]. exact E2.
      * apply set_eq. intros k. rewrite G2. change (view (with_held [] s1)) with (view s1). rewrite H2. split; [naive_solver|]. intros Hkv. split; [by right|]. intros Hkk. by apply (Hk k).
    + split; [|done]. apply set_eq. intros k. rewrite H2. naive_solver.
Qed.
End shortcuts.

(** A reading that did not change is sent again after half a minute, not before. *)
Lemma battery_resent last lastSendMs nowMs : b_state last <> BatteryStateUnknown -> 0 < lastSendMs -> lastSendMs <= nowMs ->
  (shouldResend last last lastSendMs nowMs = true <-> lastSendMs + BatteryResendIntervalMs <= nowMs).
Proof.
  intros Hu H0 Hle. unfold shouldResend. rewrite bool_decide_false by done. rewrite (proj2 (Z.eqb_neq lastSendMs 0)) by lia. rewrite bool_decide_true by done. cbn [negb].
  rewrite (proj2 (Z.ltb_ge nowMs lastSendMs)) by lia. rewrite Z.leb_le. lia.
Qed.

(** ** Findings and examples *)

Definition sample_bit (k : Flag) : Z :=
  match k with UP_FLAG => 0 | DOWN_FLAG => 1 | LEFT_FLAG => 2 | RIGHT_FLAG => 3 | PLAY_FLAG => 4 | BACK_FLAG => 5 | LS_CLK_FLAG => 6 | RS_CLK_FLAG => 7
  | LB_FLAG => 8 | RB_FLAG => 9 | SPECIAL_FLAG => 10 | A_FLAG => 12 | B_FLAG => 13 | X_FLAG => 14 | Y_FLAG => 15 end.
Definition sample_settings : PadSettings :=
  {| mappingButtons := fun b => b; button_list := [BUTTON_A; BUTTON_B; BUTTON_X; BUTTON_Y; BUTTON_LB; BUTTON_BACK; BUTTON_START; BUTTON_GUIDE];
     guide_keys := [BUTTON_BACK; BUTTON_START]; on_switch := false |}.
Definition sample_read (pressed : list Button) : PadRead :=
  {| raw_buttons := fun b => bool_decide (b ∈ pressed); axis_left := None; axis_right := None; sticks := (0, 0, 0, 0) |}.
Definition no_power : Power := {| level := 0; powered := false; charging := false |}.
(** A frame with some controllers, the first of which holds some buttons. *)
Definition sample_frame (mode : PointerMode) (count : Z) (pressed : list Button) (m : Mouse) (touches : list Touch) : Frame :=
  {| f_reported := count; f_read := fun i => sample_read (if i =? 0 then pressed else []); f_npad := fun _ => {| joy_dual := false; single := no_power; left_half := no_power; right_half := no_power |};
     f_now := 0; f_unified := fun _ => false; f_mouse := m; f_states := 0; f_ignoreTouch := false; f_mode := mode; f_swap_mouse_keys := false; f_tapToClick := true;
     f_scroll := None; f_pan := None; f_touches := touches |}.
Definition sample_run (answers : list (call * Z) -> call -> Z) (ops : list op) : option Input :=
  snd <$> run (flag_of sample_bit) sample_settings answers (-5501) [32; 65] (fun k => k) ops (fresh 5).
Definition all_sent : list (call * Z) -> call -> Z := fun _ _ => 0.
Definition plain (count : Z) (pressed : list Button) : op := Handle (sample_frame TrackpadNatural count pressed no_mouse []).

Lemma controllers_mirrored_witness :
  exists s s', run (flag_of sample_bit) sample_settings all_sent (-5501) [32; 65] (fun k => k) [plain 2 [BUTTON_A]; Drop 1] (fresh 5) = Some (tt, s) /\
    handleInput (flag_of sample_bit) sample_settings all_sent (-5501) (sample_frame TrackpadNatural 1 [BUTTON_X] no_mouse []) s = Some (tt, s') /\
    (forall i, ok_slot 5 i -> v_pads (view s) i = last_of s i) /\ lastControllerCount s' = clampControllerCount 1 /\
    (forall i, 0 <= i < clampControllerCount 1 -> v_pads (view s') i =
      read_now (flag_of sample_bit) sample_settings (sample_frame TrackpadNatural 1 [BUTTON_X] no_mouse []) false (v_pads (view s)) i) /\
    (forall i, ok_slot 5 i -> clampControllerCount 1 <= i -> v_pads (view s') i = neutral).
Proof.
  exact (controllers_mirrored (flag_of sample_bit) sample_settings all_sent (-5501) [32; 65] (fun k => k) 5 (fun _ _ _ _ => eq_refl) (fun _ _ _ => eq_refl) ltac:(lia)
    [plain 2 [BUTTON_A]; Drop 1] (sample_frame TrackpadNatural 1 [BUTTON_X] no_mouse [])).
Defined.

(** Back and start together are the guide button, and stay it until both are up. *)
Example guide_held : (fun s => buttonFlags (v_pads (view s) 0)) <$> sample_run all_sent [plain 1 [BUTTON_BACK; BUTTON_START]] = Some (2 ^ 10).
Proof. by vm_compute. Qed.
Example guide_left : (fun s => buttonFlags (v_pads (view s) 0)) <$> sample_run all_sent [plain 1 [BUTTON_BACK; BUTTON_START]; plain 1 [BUTTON_BACK]; plain 1 [BUTTON_BACK]] = Some (2 ^ 5).
Proof. by vm_compute. Qed.

(** A state that could not be sent is remembered as sent: the host keeps a button down
    that was let go, until something else changes. *)
Example lost_release : (fun s => (buttonFlags (v_pads (view s) 0), buttonFlags (last_of s 0))) <$>
  sample_run (fun t _ => if (length t =? 2)%nat then -1 else 0) [plain 1 [BUTTON_A]; plain 1 []; plain 1 []; plain 1 []] = Some (2 ^ 12, 0).
Proof. by vm_compute. Qed.

(** A controller that leaves while the input is dropped and is back before the next
    frame is not announced again, though the host was told that it left. *)
Example rejoined_unannounced : (fun s => (elements (v_announced (view s)), lastControllerCount s)) <$> sample_run all_sent [plain 2 []; Drop 1; plain 2 []] = Some ([0], 2).
Proof. by vm_compute. Qed.

(** A finger that leaves the picture before it is lifted stays down at the host, and is
    forgotten by then: not even a drop takes it back. *)
Definition finger (phase : TouchPhase) (at_ : option (Z * Z)) : op :=
  Handle (sample_frame MultiTouch 0 [] no_mouse [{| t_id := 7; t_phase := phase; t_foreign := false; t_region := true; t_mapped := at_ |}]).
Example finger_left_down : (fun s => (elements (v_touches (view s)), elements (activeTouchIDs s))) <$>
  sample_run all_sent [finger START (Some (10, 10)); finger END None; finger NONE None; Drop 0] = Some ([7], []).
Proof. by vm_compute. Qed.

(** Of the mouse a drop releases the left button only. *)
Example right_button_kept : (fun s => v_buttons (view s) MouseRight) <$>
  sample_run all_sent [Handle (sample_frame TrackpadNatural 0 [] {| l_pressed := false; m_pressed := false; r_pressed := true |} []); Drop 0] = Some true.
Proof. by vm_compute. Qed.

(** A key of a shortcut that no key of a keyboard is sent as stays down when its delayed
    release does not come. *)
Example control_key_kept : (fun s => elements (v_keys (view s))) <$> sample_run all_sent [Shortcut [0x11; 65]; Drop 0] = Some [0x11].
Proof. by vm_compute. Qed.

