(* ===== verification/HostShortcuts.v ===== *)
(** Keyboard shortcuts ([features/input/HostKeyboardShortcuts.cpp]): the names of
    keys, what a valid shortcut is, those the application offers, and how the user's
    are kept in the file of [InputSettingsStore.cpp] (the settings of the pointer in the
    same file are left out). *)

From S2P Require Import Prelude Text CText Double Jansson WakeOnLan InputManager.

(** ** Names of keys *)

Definition keySymbols : list (bytes * Z) :=
  [(bs "BACKSPACE", 0x08); (bs "TAB", 0x09); (bs "ENTER", 0x0D); (bs "SHIFT", 0x10); (bs "CTRL", 0x11); (bs "ALT", 0x12); (bs "PAUSE", 0x13);
   (bs "CAPSLOCK", 0x14); (bs "ESC", 0x1B); (bs "SPACE", 0x20); (bs "PAGEUP", 0x21); (bs "PAGEDOWN", 0x22); (bs "END", 0x23); (bs "HOME", 0x24);
   (bs "LEFT", 0x25); (bs "UP", 0x26); (bs "RIGHT", 0x27); (bs "DOWN", 0x28); (bs "PRINTSCREEN", 0x2C); (bs "INSERT", 0x2D); (bs "DELETE", 0x2E);
   (bs "LWIN", 0x5B); (bs "WIN", 0x5B); (bs "RWIN", 0x5C); (bs "CMD", 0x5B); (bs "SUPER", 0x5B); (bs "META", 0x5B); (bs "NUMLOCK", 0x90);
   (bs "SCROLLLOCK", 0x91); (bs "LSHIFT", 0xA0); (bs "RSHIFT", 0xA1); (bs "LCTRL", 0xA2); (bs "RCTRL", 0xA3); (bs "LALT", 0xA4); (bs "RALT", 0xA5);
   (bs "IME", 0x15); (bs "OEM_1", 0xBA); (bs "OEM_PLUS", 0xBB); (bs "OEM_COMMA", 0xBC); (bs "OEM_MINUS", 0xBD); (bs "OEM_PERIOD", 0xBE);
   (bs "OEM_2", 0xBF); (bs "OEM_3", 0xC0); (bs "OEM_4", 0xDB); (bs "OEM_5", 0xDC); (bs "OEM_6", 0xDD); (bs "OEM_7", 0xDE)].

Definition normalized (value : bytes) : bytes :=
  (fun c => if bool_decide (c = ch "-") || bool_decide (c = ch " ") then ch "_" else toupper c) <$> value.
Definition between (a b v : Z) : bool := (a <=? v) && (v <=? b).
Definition virtualKeyFromSymbol (symbol : bytes) : option Z :=
  let value := normalized symbol in
  match list_find (fun e => e.1 = value) keySymbols with
  | Some (_, (_, key)) => Some key
  | None =>
      match value with
      | [c] => if between 65 90 (ub c) || between 48 57 (ub c) then Some (ub c) else None
      | c :: rest =>
          if bool_decide (c = ch "F") then n ← stoi rest; if between 1 24 n then Some (0x70 + (n - 1)) else None else None
      | [] => None
      end
  end.

Section names.
(** The order in which the hash table is walked. *)
Context (order : list (bytes * Z)).
Definition symbolFromVirtualKey (virtualKey : Z) : option bytes :=
  match list_find (fun e => e.2 = virtualKey) order with
  | Some (_, (symbol, _)) => Some symbol
  | None =>
      if between 65 90 virtualKey || between 48 57 virtualKey then Some [u8 virtualKey]
      else if between 0x70 0x87 virtualKey then Some (bs "F" ++ to_string (virtualKey - 0x70 + 1)) else None
  end.

(** ** Shortcuts *)

Record KeyboardShortcut := { ks_id : bytes; ks_name : bytes; ks_keys : list Z; ks_enabled : bool; ks_windowsOnly : bool }.
Inductive ShortcutError := NameRequired | NoKeys | TooManyKeys | UnknownKey | DuplicateKey.
(** The loop over the keys, with those seen. *)
Fixpoint check_keys (keys seen : list Z) : option ShortcutError :=
  match keys with
  | [] => None
  | key :: rest =>
      if (key <=? 0) || negb (bool_decide (is_Some (symbolFromVirtualKey key))) then Some UnknownKey
      else if bool_decide (key ∈ seen) then Some DuplicateKey
      else check_keys rest (key :: seen)
  end.
Definition validateShortcut (s : KeyboardShortcut) : option ShortcutError :=
  if bool_decide (ks_name s = []) then Some NameRequired
  else if bool_decide (ks_keys s = []) then Some NoKeys
  else if (MaxShortcutKeys <? length (ks_keys s))%nat then Some TooManyKeys
  else check_keys (ks_keys s) [].
Definition valid (s : KeyboardShortcut) : bool := bool_decide (validateShortcut s = None).
End names.
#[export] Instance ShortcutError_eq_dec : EqDecision ShortcutError.
Proof. solve_decision. Defined.

Inductive HostDeviceOs := Windows | MacOS | Linux.
Definition shortcut (id name : bytes) (keys : list Z) : KeyboardShortcut :=
  {| ks_id := id; ks_name := name; ks_keys := keys; ks_enabled := true; ks_windowsOnly := false |}.
Definition buildShortcuts (os : HostDeviceOs) : list KeyboardShortcut :=
  [shortcut (bs "escape") (bs "Escape") [0x1B]; shortcut (bs "fullscreen") (bs "Fullscreen") [0x7A];
   shortcut (bs "toggle_fullscreen") (bs "Toggle fullscreen") [0xA4; 0x0D]; shortcut (bs "reverse_tab") (bs "Previous focus") [0xA0; 0x09];
   shortcut (bs "move_window_left") (bs "Move window left") [0x5B; 0xA0; 0x25]; shortcut (bs "move_window_right") (bs "Move window right") [0x5B; 0xA0; 0x27]] ++
  match os with
  | MacOS =>
      [shortcut (bs "close_window") (bs "Close window") [0x5B; 0x51]; shortcut (bs "paste") (bs "Paste") [0x5B; 0x56]; shortcut (bs "meta") (bs "Command menu") [0x5B];
       shortcut (bs "task_manager") (bs "Force quit") [0x5B; 0xA4; 0x1B]; shortcut (bs "task_switcher") (bs "Task switcher") [0xA2; 0xA4; 0x09];
       shortcut (bs "switch_host_ime") (bs "Switch keyboard language") [0xA2; 0x20]; shortcut (bs "desktop") (bs "Hide application") [0x5B; 0x48]]
  | _ =>
      [shortcut (bs "close_window") (bs "Close window") [0xA4; 0x73]; shortcut (bs "paste") (bs "Paste") [0xA2; 0x56];
       shortcut (bs "meta") (match os with Linux => bs "Super key" | _ => bs "Start menu" end) [0x5B]; shortcut (bs "desktop") (bs "Show desktop") [0x5B; 0x44];
       shortcut (bs "task_switcher") (bs "Task switcher") [0xA2; 0xA4; 0x09]; shortcut (bs "task_manager") (bs "Task manager") [0xA2; 0xA0; 0x1B];
       shortcut (bs "switch_host_ime") (bs "Switch keyboard language") [0x5B; 0x20]] ++
      match os with
      | Windows => [{| ks_id := bs "game_bar"; ks_name := bs "Game Bar"; ks_keys := [0x5B; 0x47]; ks_enabled := true; ks_windowsOnly := true |}]
      | _ => []
      end
  end.

(** The move of the window to the next display: its events, and the keys that are sent. *)
Definition moveActiveWindowShortcut (right_ : bool) : list (Z * bool) :=
  let arrow := if right_ then 0x27 else 0x25 in
  [(0x5B, true); (0xA0, true); (arrow, true); (arrow, false); (0xA0, false); (0x5B, false)].
Definition moved_keys (right_ : bool) : list Z := fst <$> List.filter snd (moveActiveWindowShortcut right_).

(** ** The file *)

Section file.
Context `{lib : Jansson} (order : list (bytes * Z)).

Definition shortcut_json (s : KeyboardShortcut) : value :=
  let keys := foldl (fun items key => match symbolFromVirtualKey order key with Some symbol => json_array_append_new (json_string symbol) items | None => items end) [] (ks_keys s) in
  let l := json_object_set_new (bs "id") (json_string (ks_id s)) [] in
  let l := json_object_set_new (bs "name") (json_string (ks_name s)) l in
  let l := json_object_set_new (bs "enabled") (Some (json_boolean (ks_enabled s))) l in
  VObject (json_object_set_new (bs "keys") (Some (VArray keys)) l).
Definition write_shortcuts (l : list KeyboardShortcut) : value :=
  VArray (foldl (fun items s => if valid order s then json_array_append_new (Some (shortcut_json s)) items else items) [] l).

(** The keys of an item; an unknown one leaves none. *)
Fixpoint read_keys (items : list value) (keys : list Z) : list Z :=
  match items with
  | [] => keys
  | VString s :: rest => match virtualKeyFromSymbol s with Some key => read_keys rest (keys ++ [key]) | None => [] end
  | _ :: _ => []
  end.
Definition read_shortcut (item : value) : option KeyboardShortcut :=
  id ← get_string "id" item;
  name ← get_string "name" item;
  keys ← get_array "keys" item;
  let s := {| ks_id := id; ks_name := name; ks_keys := read_keys keys []; ks_enabled := default true (get_boolean "enabled" item); ks_windowsOnly := false |} in
  if valid order s then Some s else None.
(** The file: its version, the settings of the pointer and the shortcuts. *)
Definition InputSchemaVersion : Z := 1.
Definition input_json (pointer : value) (l : list KeyboardShortcut) : value :=
  let f := json_object_set_new (bs "schema_version") (Some (VInteger InputSchemaVersion)) [] in
  let f := json_object_set_new (bs "pointer") (Some pointer) f in
  VObject (json_object_set_new (bs "shortcuts") (Some (write_shortcuts l)) f).
Definition read_input (root : option value) : list KeyboardShortcut :=
  match root with
  | Some (VObject f) =>
      match get_integer "schema_version" (VObject f) with
      | Some version => if version =? InputSchemaVersion then match get_array "shortcuts" (VObject f) with Some items => omap (M:=list) read_shortcut items | None => [] end else []
      | None => []
      end
  | _ => []
  end.
(** [setShortcuts]: all of them are taken, or none. *)
Definition setShortcuts (l old : list KeyboardShortcut) : list KeyboardShortcut * option ShortcutError :=
  match omap (M:=list) (validateShortcut order) l with [] => (l, None) | e :: _ => (old, Some e) end.
End file.

(** ** Facts *)

Definition known_keys : list Z := (snd <$> keySymbols) ++ range 65 91 ++ range 48 58 ++ range 0x70 0x88.
(** Every name of a key, whichever is found first, is read back as the key. *)
Lemma table_names : Forall (fun e => virtualKeyFromSymbol e.1 = Some e.2) keySymbols.
Proof. by apply (bool_decide_unpack _); vm_compute. Qed.
Lemma other_names : Forall (fun k => virtualKeyFromSymbol [u8 k] = Some k) (range 65 91 ++ range 48 58) /\
  Forall (fun k => virtualKeyFromSymbol (bs "F" ++ to_string (k - 0x70 + 1)) = Some k) (range 0x70 0x88).
Proof. split; by apply (bool_decide_unpack _); vm_compute. Qed.

Section facts.
Context (order : list (bytes * Z)) (order_perm : order ≡ₚ keySymbols).

Lemma name_read key symbol : symbolFromVirtualKey order key = Some symbol -> virtualKeyFromSymbol symbol = Some key.
Proof using order_perm.
  unfold symbolFromVirtualKey. destruct (list_find _ order) as [[i [s k]]|] eqn:E.
  - intros [= <-]. apply list_find_Some in E as (E1 & E2 & _). cbn in E2. subst k. apply list_elem_of_lookup_2 in E1. rewrite order_perm in E1.
    pose proof table_names as Ht. rewrite list.Forall_forall in Ht. by apply (Ht (s, key)).
  - destruct other_names as [H1 H2]. rewrite list.Forall_forall in H1, H2. unfold between. destruct (_ || _) eqn:Ea.
    + intros [= <-]. apply H1. rewrite elem_of_app, !elem_of_range. lia.
    + destruct ((0x70 <=? key) && (key <=? 0x87)) eqn:Eb; [|by intros]. intros [= <-]. apply H2. rewrite elem_of_range. lia.
Qed.
Lemma known_key key : is_Some (symbolFromVirtualKey order key) <-> key ∈ known_keys.
Proof using order_perm.
  unfold symbolFromVirtualKey, known_keys. rewrite !elem_of_app, !elem_of_range, list_elem_of_fmap. destruct (list_find _ order) as [[i [s k]]|] eqn:E.
  - apply list_find_Some in E as (E1 & E2 & _). cbn in E2. subst k. apply list_elem_of_lookup_2 in E1. rewrite order_perm in E1. split; [|by eexists]. intros _. left. by exists (s, key).
  - apply list_find_None in E. rewrite list.Forall_forall in E. assert (~ exists e : bytes * Z, key = e.2 /\ e ∈ keySymbols) as Hn.
    { intros (e & -> & He). apply (E e); [by rewrite order_perm|done]. }
    unfold between. destruct (_ || _) eqn:Ea; [split; [intros _; right; lia|by eexists]|]. destruct ((0x70 <=? key) && (key <=? 0x87)) eqn:Eb; [split; [intros _; right; lia|by eexists]|].
    split; [by intros [? ?]|]. intros [?|Hr]; [done|lia].
Qed.
Lemma check_keys_spec keys : forall seen, check_keys order keys seen = None <-> Forall (fun k => 0 < k /\ k ∈ known_keys) keys /\ NoDup keys /\ (forall k, k ∈ keys -> k ∉ seen).
Proof using order_perm.
  induction keys as [|k keys IH]; intros seen; cbn [check_keys].
  - split; [intros _|done]. split_and!; [constructor|constructor|]. intros k Hk. by apply not_elem_of_nil in Hk.
  - rewrite list.Forall_cons, list.NoDup_cons. destruct (Z.leb_spec k 0); cbn [orb]; [split; [done|intros ([[? _] _] & _); lia]|].
    destruct (decide (is_Some (symbolFromVirtualKey order k))) as [Hs|Hs]; [rewrite bool_decide_true by done|rewrite bool_decide_false by done]; cbn [negb];
      [|split; [done|intros ([[_ Hk] _] & _); by apply known_key in Hk]].
    apply known_key in Hs. case_bool_decide as Hseen; [split; [done|intros (_ & _ & Hd); destruct (Hd k); [by left|done]]|].
    rewrite IH. split.
    + intros (H1 & H2 & H3). split_and!; try done.
      * intros Hin. apply (H3 k Hin). by left.
      * intros j [->|Hj]%elem_of_cons; [done|]. intros Hj'. apply (H3 j Hj). by right.
    + intros ((_ & H1) & (H2 & H3) & H4). split_and!; try done. intros j Hj [->|Hs']%elem_of_cons; [done|]. apply (H4 j); [by right|done].
Qed.
(** A shortcut is valid exactly if it has a name and one to eight different keys, each of
    which has a name. *)
Theorem shortcut_valid (s : KeyboardShortcut) : validateShortcut order s = None <->
  ks_name s <> [] /\ (1 <= length (ks_keys s) <= 8)%nat /\ NoDup (ks_keys s) /\ Forall (fun k => 0 < k /\ k ∈ known_keys) (ks_keys s).
Proof using order_perm.
  unfold validateShortcut. case_bool_decide as Hn; [split; [done|by intros []]|]. case_bool_decide as Hk; [split; [done|]; intros (_ & Hl & _); rewrite Hk in Hl; cbn in Hl; lia|].
  unfold MaxShortcutKeys. destruct (Nat.ltb_spec 8 (length (ks_keys s))); [split; [done|]; intros (_ & Hl & _); lia|]. rewrite check_keys_spec. split.
  - intros (H1 & H2 & _). split_and!; try done. destruct (ks_keys s); [done|cbn; lia].
  - intros (_ & _ & H2 & H1). split_and!; try done. intros k _. apply not_elem_of_nil.
Qed.
(** What the application offers is valid for every host. *)
Theorem standard_valid (os : HostDeviceOs) : Forall (fun s => validateShortcut order s = None) (buildShortcuts os) /\ NoDup (ks_id <$> buildShortcuts os).
Proof using order_perm.
  split.
  - apply list.Forall_forall. intros s Hs. apply shortcut_valid. revert s Hs. apply list.Forall_forall. destruct os; by apply (bool_decide_unpack _); vm_compute.
  - destruct os; by apply (bool_decide_unpack _); vm_compute.
Qed.
End facts.

(** ** The file is read back *)

Section saved.
Context `{laws : JanssonLaws} (order : list (bytes * Z)) (order_perm : order ≡ₚ keySymbols).

(** A shortcut of the user: valid, with texts the library can write. *)
Definition shortcut_ok (s : KeyboardShortcut) : Prop :=
  validateShortcut order s = None /\ text_ok (ks_id s) /\ text_ok (ks_name s) /\ ks_windowsOnly s = false.

Lemma names_literal key symbol : symbolFromVirtualKey order key = Some symbol -> literal symbol = true.
Proof using order_perm.
  assert (Forall (fun e : bytes * Z => literal e.1 = true) keySymbols) as Ht by (by apply (bool_decide_unpack _); vm_compute).
  assert (Forall (fun k => literal [u8 k] = true) (range 65 91 ++ range 48 58) /\ Forall (fun k => literal (bs "F" ++ to_string (k - 0x70 + 1)) = true) (range 0x70 0x88)) as [H1 H2]
    by (split; by apply (bool_decide_unpack _); vm_compute).
  rewrite list.Forall_forall in Ht. rewrite list.Forall_forall in H1, H2. unfold symbolFromVirtualKey. destruct (list_find _ order) as [[i [s k]]|] eqn:E.
  - intros [= <-]. apply list_find_Some in E as (E1 & E2 & _). cbn in E2. subst k. apply list_elem_of_lookup_2 in E1. rewrite order_perm in E1. by apply (Ht (s, key)).
  - unfold between. destruct (_ || _) eqn:Ea.
    + intros [= <-]. apply H1. rewrite elem_of_app, !elem_of_range. lia.
    + destruct ((0x70 <=? key) && (key <=? 0x87)) eqn:Eb; [|by intros]. intros [= <-]. apply H2. rewrite elem_of_range. lia.
Qed.
Definition named_keys (keys : list Z) (names : list bytes) : Prop := Forall2 (fun k s => symbolFromVirtualKey order k = Some s) keys names.
Lemma keys_named keys : Forall (fun k => 0 < k /\ k ∈ known_keys) keys -> exists names, named_keys keys names.
Proof using order_perm.
  induction 1 as [|k keys [_ Hk] _ [names IH]]; [by exists []; constructor|]. apply (known_key order order_perm) in Hk as [s Hs]. exists (s :: names). by constructor.
Qed.
Lemma keys_written keys names : named_keys keys names -> forall items,
  foldl (fun items key => match symbolFromVirtualKey order key with Some symbol => json_array_append_new (json_string symbol) items | None => items end) items keys =
  items ++ (VString <$> names).
Proof using laws order_perm.
  induction 1 as [|k s keys names Hk _ IH]; intros items; cbn [foldl fmap list_fmap]; [by rewrite app_nil_r|]. rewrite Hk.
  rewrite string_ok by (apply literal_ok; by eapply names_literal). cbn [json_array_append_new]. rewrite IH. by rewrite <- app_assoc.
Qed.
Lemma keys_back keys names : named_keys keys names -> forall acc, read_keys (VString <$> names) acc = acc ++ keys.
Proof using order_perm.
  induction 1 as [|k s keys names Hk _ IH]; intros acc; cbn [read_keys fmap list_fmap]; [by rewrite app_nil_r|].
  rewrite (name_read order order_perm _ _ Hk). rewrite IH. by rewrite <- app_assoc.
Qed.
Lemma names_text keys names : named_keys keys names -> Forall text_ok names.
Proof using laws order_perm. induction 1 as [|k s keys names Hk _ IH]; constructor; [|done]. apply literal_ok. by eapply names_literal. Qed.

Lemma shortcut_json_eq s names : shortcut_ok s -> named_keys (ks_keys s) names -> shortcut_json order s =
  VObject [(bs "id", VString (ks_id s)); (bs "name", VString (ks_name s)); (bs "enabled", json_boolean (ks_enabled s)); (bs "keys", VArray (VString <$> names))].
Proof using laws order_perm.
  intros (_ & H1 & H2 & _) Hn. unfold shortcut_json. rewrite (keys_written _ _ Hn), !string_ok by done. by rewrite !set_literal by reflexivity.
Qed.
Lemma strings_sorted l : map sorted (VString <$> l) = VString <$> l.
Proof using. induction l as [|s l IH]; cbn; [done|]. by rewrite IH. Qed.
Lemma read_fields (en : bool) (id name : bytes) (items : list value) :
  read_shortcut order (VObject [(bs "enabled", json_boolean en); (bs "id", VString id); (bs "keys", VArray items); (bs "name", VString name)]) =
  let s := {| ks_id := id; ks_name := name; ks_keys := read_keys items []; ks_enabled := en; ks_windowsOnly := false |} in if valid order s then Some s else None.
Proof using. by destruct en. Qed.
Lemma shortcut_back s : shortcut_ok s -> read_shortcut order (sorted (shortcut_json order s)) = Some s.
Proof using laws order_perm.
  intros Hok. pose proof Hok as (Hv & _ & _ & H3). pose proof Hv as Hk. rewrite (shortcut_valid order order_perm) in Hk. destruct Hk as (_ & _ & _ & Hk).
  destruct (keys_named _ Hk) as [names Hn]. rewrite (shortcut_json_eq s names Hok Hn).
  transitivity (read_shortcut order (VObject [(bs "enabled", json_boolean (ks_enabled s)); (bs "id", VString (ks_id s));
    (bs "keys", VArray (map sorted (VString <$> names))); (bs "name", VString (ks_name s))])); [by destruct (ks_enabled s)|].
  rewrite strings_sorted, read_fields, (keys_back _ _ Hn). cbn [app]. cbv zeta.
  assert ({| ks_id := ks_id s; ks_name := ks_name s; ks_keys := ks_keys s; ks_enabled := ks_enabled s; ks_windowsOnly := false |} = s) as -> by (destruct s; cbn in *; by subst).
  unfold valid. by rewrite bool_decide_true by done.
Qed.
Lemma all_written l : Forall shortcut_ok l -> forall items,
  foldl (fun items s => if valid order s then json_array_append_new (Some (shortcut_json order s)) items else items) items l = items ++ (shortcut_json order <$> l).
Proof using.
  induction 1 as [|s l (Hv & _) _ IH]; intros items; cbn [foldl fmap list_fmap]; [by rewrite app_nil_r|]. unfold valid at 2. rewrite bool_decide_true by done.
  cbn [json_array_append_new]. rewrite IH. by rewrite <- app_assoc.
Qed.
Lemma all_back l : Forall shortcut_ok l -> omap (M:=list) (read_shortcut order) (map sorted (shortcut_json order <$> l)) = l.
Proof using laws order_perm.
  induction 1 as [|s l Hs _ IH]; [done|]. change (match read_shortcut order (sorted (shortcut_json order s)) with
    Some y => y :: omap (M:=list) (read_shortcut order) (map sorted (shortcut_json order <$> l)) | None => omap (M:=list) (read_shortcut order) (map sorted (shortcut_json order <$> l)) end = s :: l).
  by rewrite (shortcut_back s Hs), IH.
Qed.
Lemma shortcut_storable s : shortcut_ok s -> storable 2 (shortcut_json order s).
Proof using laws order_perm.
  intros Hok. pose proof Hok as (Hv & H1 & H2 & H3). pose proof Hv as (_ & _ & _ & Hk)%(shortcut_valid order order_perm). destruct (keys_named _ Hk) as [names Hn].
  rewrite (shortcut_json_eq s names Hok Hn). cbn [storable fmap list_fmap fst snd foldr]. split_and!; try done.
  - by apply (bool_decide_unpack _).
  - repeat constructor; by apply literal_ok.
  - by destruct (ks_enabled s).
  - pose proof (names_text _ _ Hn) as Ht. clear Hn. induction Ht as [|x l Hx _ IH]; [done|]. split; [exact Hx|exact IH].
Qed.
End saved.

(** The shortcuts of the user are read back from the file as they were. *)
Theorem shortcuts_saved (lib : Jansson) (laws : JanssonLaws) (order : list (bytes * Z)) (pointer : value) (l : list KeyboardShortcut) :
  order ≡ₚ keySymbols -> storable 3 pointer -> Forall (shortcut_ok order) l ->
  read_input order (json_loads (json_dumps true (input_json order pointer l))) = l.
Proof.
  intros Hp Hpt Hl. unfold input_json. rewrite !set_literal by reflexivity. unfold write_shortcuts. rewrite all_written by done. cbn [app].
  set (root := VObject _). assert (root = VObject [(bs "schema_version", VInteger InputSchemaVersion); (bs "pointer", pointer); (bs "shortcuts", VArray (shortcut_json order <$> l))]) as -> by done.
  rewrite (loads_sorted 4).
  - transitivity (omap (M:=list) (read_shortcut order) (map sorted (shortcut_json order <$> l))); [reflexivity|]. by apply all_back.
  - unfold JSON_PARSER_MAX_DEPTH. lia.
  - cbn [storable fmap list_fmap fst snd foldr]. split_and!; try done.
    + by apply (bool_decide_unpack _).
    + repeat constructor; by apply literal_ok.
    + induction Hl as [|s l Hs _ IH]; [done|]. cbn [foldr fmap list_fmap]. split; [by apply (shortcut_storable order Hp)|exact IH].
Qed.

(** ** Findings and examples *)

(** A name with something behind its number is read as the number. *)
Example function_key_tail : virtualKeyFromSymbol (bs "F5-key") = Some 0x74.
Proof. by vm_compute. Qed.
(** A shortcut that is for Windows only is not any more when it is read back. *)
Example windows_only_lost (lib : Jansson) (laws : JanssonLaws) : let s := {| ks_id := bs "x"; ks_name := bs "X"; ks_keys := [0x5B]; ks_enabled := true; ks_windowsOnly := true |} in
  read_shortcut keySymbols (shortcut_json keySymbols s) = Some {| ks_id := bs "x"; ks_name := bs "X"; ks_keys := [0x5B]; ks_enabled := true; ks_windowsOnly := false |}.
Proof. cbv zeta. unfold shortcut_json. cbn [ks_keys ks_id ks_name ks_enabled foldl]. replace (symbolFromVirtualKey keySymbols 0x5B) with (Some (bs "LWIN")) by (by vm_compute).
  rewrite !string_ok by (by apply literal_ok). by rewrite !set_literal by reflexivity. Qed.
