(* ===== verification/ClientSession.v ===== *)
(** The application's client ([streaming/GameStreamClient.cpp], [.hpp]): the
    connections it keeps by host, the tunnel routes they hold, and the calls of
    the user interface, each a job on a worker thread and a closure on the
    interface's. A job or a closure is one step; the steps of different calls
    interleave in any order. The process ends when a pairing meets a malformed
    challenge. *)

From stdpp Require Import gmultiset.
From S2P Require Import Prelude Text CText Types HostAddress Ownership Data Xml HttpClient Capabilities GameStream HostRecords.

#[local] Open Scope Z_scope.
#[local] Set Warnings "-clear-no-such-hyp".

(** ** Routes *)

Abbreviation route_key := (bytes * bytes * bytes)%type.

(** What the client's leases did to the manager: an activation that succeeded,
    a route given back. *)
Inductive route_call := Acquired (k : route_key) | Released (k : route_key).
#[export] Instance route_uses : Uses route_call route_key := {|
  needs c := match c with Acquired _ => ∅ | Released k => {[+ k +]} end;
  gives c := match c with Acquired k => {[+ k +]} | Released _ => ∅ end;
|}.

(** How a Wake-on-LAN request comes out: an exception that nothing catches ends the
    process (a port number that is too long, [WakeOnLan.long_port_throws]). *)
Inductive wake_answer := WakeThrew | WakeSent | WakeRefused (error : bytes).
(** The manager and the active provider, given the routes so far, and how each
    Wake-on-LAN request comes out. *)
Record remote_access := {
  ra_provider : list route_call -> bytes;
  ra_resolve : list route_call -> option (bytes -> option RemoteRouteTarget);
  ra_activate : list route_call -> bytes -> RemoteRouteTarget -> bool;
  ra_reason : list route_call -> RemoteRouteLease -> bytes;
  ra_prepare : list route_call -> bytes -> bytes -> bytes -> bool;
  ra_wake : nat -> Host -> wake_answer;
}.

(** ** State *)

(** A [SERVER_DATA] that was value-initialised. *)
Definition blank : SERVER_DATA :=
  {| sd_address := []; sd_serverInfoAppVersion := []; sd_serverInfoGfeVersion := []; sd_mac := []; sd_gpuType := [];
     sd_paired := false; sd_supports4K := false; sd_currentGame := 0; sd_currentGameUuid := []; sd_serverMajorVersion := 0;
     sd_gsVersion := []; sd_hostname := []; sd_serverInfo := no_information; sd_httpPort := 0; sd_httpsPort := 0;
     sd_virtualDisplayCapable := false; sd_virtualDisplayDriverReady := false; sd_permission := 0;
     sd_hasApolloPermissionField := false; sd_serverCommands := [];
     sd_hostIdentity := {| id_kind := Unknown; id_product := []; id_version := []; id_webConsolePort := 47990 |} |}.

Record AppInfo := { ai_name : option bytes; ai_id : option Z; ai_uuid : option bytes; ai_order : Z; ai_input_only : bool }.

Inductive answer :=
| Success
| ServerAnswer (d : SERVER_DATA)
| AppsAnswer (l : list AppInfo)
| DataAnswer (d : bytes)
| ConfigAnswer (c : StreamConfiguration)
| Failure (error : bytes).

(** What a closure tells the caller: something fixed, or what it reads when it runs. *)
Inductive reply := Ready (a : answer) | ReadError | ReadConfig.

Inductive job :=
| Connecting (id : nat) (addresses : list bytes) (activeKey : bytes)
| Connected (id : nat) (activeKey connectedAddress : bytes) (server : SERVER_DATA) (error : bytes) (lease : RemoteRouteLease)
| PairWork (id : nat) (address pin : bytes)
| PairDone (id : nat) (address : bytes) (status : Z) (error : bytes) (t : token)
| ListWork (id : nat) (address : bytes)
| BoxartWork (id : nat) (address : bytes) (app_id : Z)
| StartWork (id : nat) (address : bytes) (app_id gamepadMask : Z) (options : APOLLO_LAUNCH_OPTIONS)
| QuitWork (id : nat) (address : bytes)
| WakeWork (id : nat) (h : Host)
| WakePoll (id : nat) (h : Host) (attempt : nat)
| Answering (id : nat) (r : reply)
| Releasing (routes : list RemoteRouteLease).

(** The members of the client, the state its workers share, and the calls: [ids]
    of them so far, those answered, the jobs and closures to run. *)
Record session := {
  m_server_data : gmap bytes SERVER_DATA;
  m_active_addresses : gmap bytes bytes;
  m_active_routes : gmap bytes RemoteRouteLease;
  m_config : StreamConfiguration;
  shared : world;
  routes : list route_call;
  ids : nat;
  answered : list (nat * answer);
  jobs : list job;
  wakes : nat;
}.

Definition with_data (d : gmap bytes SERVER_DATA) (s : session) : session :=
  {| m_server_data := d; m_active_addresses := m_active_addresses s; m_active_routes := m_active_routes s; m_config := m_config s;
     shared := shared s; routes := routes s; ids := ids s; answered := answered s; jobs := jobs s; wakes := wakes s |}.
Definition with_addresses (a : gmap bytes bytes) (s : session) : session :=
  {| m_server_data := m_server_data s; m_active_addresses := a; m_active_routes := m_active_routes s; m_config := m_config s;
     shared := shared s; routes := routes s; ids := ids s; answered := answered s; jobs := jobs s; wakes := wakes s |}.
Definition with_routes (r : gmap bytes RemoteRouteLease) (calls : list route_key) (s : session) : session :=
  {| m_server_data := m_server_data s; m_active_addresses := m_active_addresses s; m_active_routes := r; m_config := m_config s;
     shared := shared s; routes := routes s ++ (Released <$> calls); ids := ids s; answered := answered s; jobs := jobs s; wakes := wakes s |}.
Definition with_config (c : StreamConfiguration) (s : session) : session :=
  {| m_server_data := m_server_data s; m_active_addresses := m_active_addresses s; m_active_routes := m_active_routes s; m_config := c;
     shared := shared s; routes := routes s; ids := ids s; answered := answered s; jobs := jobs s; wakes := wakes s |}.
Definition with_shared (w : world) (log : list route_call) (s : session) : session :=
  {| m_server_data := m_server_data s; m_active_addresses := m_active_addresses s; m_active_routes := m_active_routes s;
     m_config := m_config s; shared := w; routes := log; ids := ids s; answered := answered s; jobs := jobs s; wakes := wakes s |}.
Definition with_jobs (j : list job) (s : session) : session :=
  {| m_server_data := m_server_data s; m_active_addresses := m_active_addresses s; m_active_routes := m_active_routes s;
     m_config := m_config s; shared := shared s; routes := routes s; ids := ids s; answered := answered s; jobs := j; wakes := wakes s |}.
Definition with_answer (id : nat) (a : answer) (s : session) : session :=
  {| m_server_data := m_server_data s; m_active_addresses := m_active_addresses s; m_active_routes := m_active_routes s;
     m_config := m_config s; shared := shared s; routes := routes s; ids := ids s; answered := answered s ++ [(id, a)]; jobs := jobs s;
     wakes := wakes s |}.
Definition with_id (s : session) : session :=
  {| m_server_data := m_server_data s; m_active_addresses := m_active_addresses s; m_active_routes := m_active_routes s;
     m_config := m_config s; shared := shared s; routes := routes s; ids := S (ids s); answered := answered s; jobs := jobs s;
     wakes := wakes s |}.
Definition with_wake (s : session) : session :=
  {| m_server_data := m_server_data s; m_active_addresses := m_active_addresses s; m_active_routes := m_active_routes s;
     m_config := m_config s; shared := shared s; routes := routes s; ids := ids s; answered := answered s; jobs := jobs s;
     wakes := S (wakes s) |}.
Definition spawn (j : job) (s : session) : session := with_jobs (jobs s ++ [j]) s.

(** ** Pure parts *)

Definition rebind_server_info (d : SERVER_DATA) : SERVER_DATA :=
  let i := sd_serverInfo d in
  set_serverInfo {| si_address := Some (sd_address d); si_serverInfoAppVersion := Some (sd_serverInfoAppVersion d);
                    si_serverInfoGfeVersion := Some (sd_serverInfoGfeVersion d); si_rtspSessionUrl := si_rtspSessionUrl i;
                    si_serverCodecModeSupport := si_serverCodecModeSupport i |} d.

Definition ApolloRemoteInputUuid : bytes := bs "8CB5C136-DA67-4F99-B4A1-F9CD35005CF4".
(** [None]: text read from memory that was never written. *)
Definition cell_text (c : cell) : option bytes := match c with Null => Some [] | Str t => Some t | Garbage => None end.
Definition app_info (a : APP_LIST) : AppInfo :=
  {| ai_name := cell_text (app_name a); ai_id := app_id a; ai_uuid := cell_text (app_uuid a); ai_order := server_order a;
     ai_input_only := bool_decide (cell_text (app_uuid a) = Some ApolloRemoteInputUuid) |}.

Definition punktfunkGameStreamRequiredError : bytes :=
  bs "Punktfunk detected, but its Moonlight/GameStream compatibility plane is disabled. Enable GameStream on the host, then reconnect.".

Definition WAKE_POLL_ATTEMPTS : nat := 20.
Definition kWakeResendEveryPoll : nat := 5.

Definition active_address (h : Host) (s : session) : bytes :=
  match m_active_addresses s !! host_key h with
  | Some a => if bool_decide (a = []) then preferred_address h else a
  | None => preferred_address h
  end.

(** [m_server_data[address]]. *)
Definition entry (address : bytes) (s : session) : SERVER_DATA := default blank (m_server_data s !! address).
Definition store (address : bytes) (d : SERVER_DATA) (s : session) : session := with_data (<[address := d]> (m_server_data s)) s.

Definition cache_server_data (address : bytes) (d : SERVER_DATA) (s : session) : session :=
  let s := store address (rebind_server_info d) s in
  if is_usable_mac (sd_mac d) then with_addresses (<[bs "mac:" ++ sd_mac d := address]> (m_active_addresses s)) s else s.

(** [m_active_routes[key] = std::move(lease)]: an entry that is not there is first
    made, without a route. *)
Definition hold_route (key : bytes) (lease : RemoteRouteLease) (s : session) : session :=
  let '(this, _, calls) := move_assign (default no_lease (m_active_routes s !! key)) lease in
  with_routes (<[key := this]> (m_active_routes s)) calls s.

(** The connection of a host becomes the active one. *)
Definition make_active (key address : bytes) (lease : RemoteRouteLease) (s : session) : session :=
  hold_route key lease (with_addresses (<[key := address]> (m_active_addresses s)) s).

(** A lease that dies. *)
Definition drop_lease (lease : RemoteRouteLease) (s : session) : session := with_routes (m_active_routes s) (release lease).2 s.

(** [order] is the order of [m_active_routes]. *)
Abbreviation walk := (list (bytes * RemoteRouteLease)).
Definition on_address (address : bytes) (s : session) (route : bytes * RemoteRouteLease) : bool :=
  bool_decide (m_active_addresses s !! route.1 = Some address).
Definition release_cancelled_pairing_connection (order : walk) (address : bytes) (s : session) : session :=
  let released := List.filter (on_address address s) order in
  let s := with_routes (foldr (fun r m => delete r.1 m) (m_active_routes s) released) [] s in
  let s := with_addresses (filter (fun entry => entry.2 <> address) (m_active_addresses s)) s in
  let s := with_data (delete address (m_server_data s)) s in
  if bool_decide (length released = 0%nat) then s else spawn (Releasing released.*2) s.

(** ** Jobs *)

Section client.
Context (env : environment) `{lib : MbedTLS} `{xml : Expat} (remote : remote_access).
(** Whether there is a certificate, the pair itself, and two settings. *)
Context (certificate : bool) (cert key : bytes) (sops play_audio : bool).

(** What a round of [connect_to_addresses_sync] came to; [Crashed]: the process
    is gone. *)
Inductive attempt :=
| Reached (address : bytes) (server : SERVER_DATA) (lease : RemoteRouteLease)
| Unreached (error : bytes)
| Crashed.

Definition acquire (log : list route_call) (address : bytes) : RemoteRouteLease :=
  acquireRouteFor (ra_provider remote log) (ra_resolve remote log) (ra_activate remote log) address.
Definition refusal (log : list route_call) (lease : RemoteRouteLease) : bytes :=
  let reason := if negb (l_refused lease) || bool_decide (l_providerId lease = []) then [] else ra_reason remote log lease in
  if bool_decide (reason = []) then bs "Tunnel route refused" else reason.

Fixpoint connect_loop (addresses : list bytes) (error : bytes) (w : world) (log : list route_call) : attempt * world * list route_call :=
  match addresses with
  | [] => (Unreached error, w, log)
  | address :: rest =>
      if bool_decide (address = []) then connect_loop rest error w log
      else
        let lease := acquire log address in
        let log := log ++ (Acquired <$> pending lease) in
        if l_refused lease then connect_loop rest (refusal log lease) w (log ++ (Released <$> pending lease))
        else
          match gs_init env certificate (connectAddressFor lease address) (with_server blank w) with
          | (inl _, w) => (Crashed, w, log)
          | (inr status, w) =>
              if status =? GS_OK then (Reached address (w_server w) lease, w, log)
              else
                let error := gs_error w in
                match probePunktfunkIdentity env address w with
                | (inl _, w) => (Crashed, w, log)
                | (inr probed, w) =>
                    let error := if bool_decide ((id_kind <$> probed) = Some Punktfunk) then punktfunkGameStreamRequiredError
                                 else error in
                    connect_loop rest error w (log ++ (Released <$> pending lease))
                end
          end
  end.

Definition no_address_given (addresses : list bytes) : bool := forallb (fun a => bool_decide (a = [])) addresses.
Definition connect_to_addresses_sync (addresses : list bytes) (w : world) (log : list route_call) : attempt * world * list route_call :=
  if no_address_given addresses then (Unreached (bs "Address is Empty"), w, log)
  else connect_loop addresses (bs "Address is Empty") w log.

(** The worker of [connect_to_addresses]. *)
Definition connect_work (id : nat) (addresses : list bytes) (activeKey : bytes) (s : session) : option session :=
  let '(r, w, log) := connect_to_addresses_sync addresses (shared s) (routes s) in
  let s := with_shared w log s in
  match r with
  | Reached address server lease => Some (spawn (Connected id activeKey address server [] lease) s)
  | Unreached error => Some (spawn (Connected id activeKey [] blank error no_lease) s)
  | Crashed => None
  end.

(** Its closure. *)
Definition connected (id : nat) (activeKey connectedAddress : bytes) (server : SERVER_DATA) (error : bytes) (lease : RemoteRouteLease)
    (s : session) : session :=
  if bool_decide (connectedAddress = []) then with_answer id (Failure error) (drop_lease lease s)
  else
    let s := cache_server_data connectedAddress server s in
    let s := if bool_decide (activeKey = []) then drop_lease lease s else make_active activeKey connectedAddress lease s in
    with_answer id (ServerAnswer (entry connectedAddress s)) s.

(** A worker on an entry of [m_server_data]: [m] works on the entry itself. *)
Definition on_entry {A} (address : bytes) (m : M A) (s : session) : option (A * session) :=
  match m (with_server (entry address s) (shared s)) with
  | (inl _, _) => None
  | (inr a, w) => Some (a, store address (w_server w) (with_shared w (routes s) s))
  end.

(** A new token, as the interface makes one for each pairing. *)
Definition fresh_token : M unit := fun w =>
  (inr tt, {| w_server := w_server w; w_error := w_error w; w_calls := w_calls w; w_token := TokenActive; w_ticks := w_ticks w;
              w_clock := w_clock w |}).
Definition get_error : M bytes := fun w => (inr (gs_error w), w).
Definition get_token : M token := fun w => (inr (w_token w), w).

(** The worker of [pair]. *)
Definition pair_entry (pin : bytes) : M (Z * bytes * token) :=
  fresh_token ;;
  status ← gs_pair env cert key (c_str pin);
  completed ← tryComplete env;
  status ← (if completed : bool then mret status
            else
              (if status =? GS_OK then gs_unpair env ;; modify_server (set_paired false) else mret tt) ;;
              gs_set_error (bs "Pairing cancelled") ;; mret GS_CANCELLED);
  error ← (if status =? GS_OK then mret [] else get_error);
  t ← get_token;
  mret (status, error, t).
Definition pair_work (id : nat) (address pin : bytes) (s : session) : option session :=
  '(status, error, t, s) ← on_entry address (pair_entry pin) s; Some (spawn (PairDone id address status error t) s).

(** Its closure. *)
Definition pair_done (order : walk) (id : nat) (address : bytes) (status : Z) (error : bytes) (t : token) (s : session) : session :=
  let s := if bool_decide (t = TokenCancelled) then release_cancelled_pairing_connection order address s else s in
  with_answer id (if status =? GS_OK then Success else Failure error) s.

Definition list_work (id : nat) (address : bytes) (s : session) : option session :=
  '(status, apps, s) ← on_entry address (gs_applist env) s;
  Some (spawn (Answering id (if status =? GS_OK then Ready (AppsAnswer (app_info <$> default [] apps)) else ReadError)) s).
Definition boxart_work (id : nat) (address : bytes) (app_id : Z) (s : session) : option session :=
  '(status, data, s) ← on_entry address (gs_app_boxart env app_id) s;
  Some (spawn (Answering id (if status =? GS_OK then Ready (DataAnswer (default [] data)) else ReadError)) s).

(** [std::find_if] over the routes. *)
Fixpoint find_route (target : bytes) (order : walk) : option RemoteRouteLease :=
  match order with
  | [] => None
  | (_, l) :: rest => if l_active l && bool_decide (l_targetAddress l = target) then Some l else find_route target rest
  end.
Definition prepare_remote_route_for_stream (order : walk) (address : bytes) (s : session) : bool :=
  let parsed := parse_host_address address in
  if bool_decide (host parsed = []) then true
  else match find_route (host parsed) order with
       | None => true
       | Some l => prepareForStreaming (ra_prepare remote (routes s)) l
       end.

Definition start_work (order : walk) (id : nat) (address : bytes) (app_id gamepadMask : Z) (options : APOLLO_LAUNCH_OPTIONS)
    (s : session) : option session :=
  '(status, c, s) ← on_entry address (gs_start_app env (m_config s) app_id sops play_audio gamepadMask (Some options)) s;
  let s := with_config c s in
  let '(status, s) :=
    if (status =? GS_OK) && negb (prepare_remote_route_for_stream order address s)
    then (GS_IO_ERROR, with_shared (with_error (bs "Remote access UDP relay could not start") (shared s)) (routes s) s)
    else (status, s) in
  Some (spawn (Answering id (if status =? GS_OK then ReadConfig else ReadError)) s).

(** [gs_quit_app] on a copy of the entry. *)
Definition quit_copy (address : bytes) (s : session) : option (Z * session) :=
  match gs_quit_app env (with_server (entry address s) (shared s)) with
  | (inl _, _) => None
  | (inr status, w) => Some (status, store address (entry address s) (with_shared w (routes s) s))
  end.
Definition quit_work (id : nat) (address : bytes) (s : session) : option session :=
  '(status, s) ← quit_copy address s; Some (spawn (Answering id (if status =? GS_OK then Ready Success else ReadError)) s).

(** [WakeOnLanManager::wake_up_host]: the error, if it refuses. *)
Definition send_wake (h : Host) (s : session) : option (option bytes * session) :=
  match ra_wake remote (wakes s) h with
  | WakeThrew => None
  | WakeSent => Some (None, with_wake s)
  | WakeRefused error => Some (Some error, with_wake s)
  end.

(** The worker of [wake_up_host], up to its loop, and one round of the loop, which
    changes the members itself. *)
Definition wake_work (id : nat) (h : Host) (s : session) : option session :=
  '(refused, s) ← send_wake h s;
  match refused with
  | Some error => Some (spawn (Answering id (Ready (Failure error))) s)
  | None => Some (spawn (WakePoll id h 0) s)
  end.
Definition wake_poll (id : nat) (h : Host) (attempt : nat) (s : session) : option session :=
  '(_, s) ← (if (0 <? attempt)%nat && (attempt mod kWakeResendEveryPoll =? 0)%nat then send_wake h s else Some (None, s));
  let '(r, w, log) := connect_to_addresses_sync (connection_addresses h) (shared s) (routes s) in
  let s := with_shared w log s in
  match r with
  | Crashed => None
  | Reached address server lease =>
      let s := make_active (host_key h) address lease (cache_server_data address server s) in
      Some (spawn (Answering id (Ready Success)) s)
  | Unreached error =>
      Some (spawn (if (attempt + 1 <? WAKE_POLL_ATTEMPTS)%nat then WakePoll id h (attempt + 1)
                   else Answering id (Ready (Failure (if bool_decide (error = []) then bs "Host did not come online after wake signal"
                                                      else error)))) s)
  end.

Definition reply_answer (r : reply) (s : session) : answer :=
  match r with Ready a => a | ReadError => Failure (gs_error (shared s)) | ReadConfig => ConfigAnswer (m_config s) end.

Definition run_job (order : walk) (j : job) (s : session) : option session :=
  match j with
  | Connecting id addresses activeKey => connect_work id addresses activeKey s
  | Connected id activeKey address server error lease => Some (connected id activeKey address server error lease s)
  | PairWork id address pin => pair_work id address pin s
  | PairDone id address status error t => Some (pair_done order id address status error t s)
  | ListWork id address => list_work id address s
  | BoxartWork id address app => boxart_work id address app s
  | StartWork id address app mask options => start_work order id address app mask options s
  | QuitWork id address => quit_work id address s
  | WakeWork id h => wake_work id h s
  | WakePoll id h attempt => wake_poll id h attempt s
  | Answering id r => Some (with_answer id (reply_answer r s) s)
  | Releasing leases => Some (with_routes (m_active_routes s) (concat (pending <$> leases)) s)
  end.

(** ** Calls *)

Definition call_connect (addresses : list bytes) (activeKey : bytes) (s : session) : session :=
  let id := ids s in
  let s := with_id s in
  if no_address_given addresses then with_answer id (Failure (bs "Address is Empty")) s
  else spawn (Connecting id addresses activeKey) s.
Definition connect_address (address : bytes) (s : session) : session := call_connect [address] (bs "address:" ++ address) s.
Definition connect_host (h : Host) (s : session) : session := call_connect (connection_addresses h) (host_key h) s.

Definition with_cached_server_data (address : bytes) (missing : string) (worker : nat -> job) (s : session) : session :=
  let id := ids s in
  let s := with_id s in
  match m_server_data s !! address with
  | None => with_answer id (Failure (bs missing)) s
  | Some _ => spawn (worker id) s
  end.
Definition call_pair (address pin : bytes) (s : session) : session :=
  with_cached_server_data address "Firstly call connect()..." (fun id => PairWork id address pin) s.
Definition call_applist (address : bytes) (s : session) : session :=
  with_cached_server_data address "Firstly call connect() & pair()..." (fun id => ListWork id address) s.
Definition call_app_boxart (address : bytes) (app_id : Z) (s : session) : session :=
  with_cached_server_data address "Firstly call connect() & pair()..." (fun id => BoxartWork id address app_id) s.
Definition call_start (address : bytes) (c : StreamConfiguration) (app_id gamepadMask : Z) (options : APOLLO_LAUNCH_OPTIONS) (s : session)
  : session :=
  with_cached_server_data address "Firstly call connect() & pair()..." (fun id => StartWork id address app_id gamepadMask options)
    (with_config c s).
Definition call_quit (address : bytes) (s : session) : session :=
  with_cached_server_data address "Firstly call connect() & pair()..." (fun id => QuitWork id address) s.
Definition call_wake (h : Host) (s : session) : session := spawn (WakeWork (ids s) h) (with_id s).
Definition quitNow (address : bytes) (s : session) : option (bool * session) :=
  match m_server_data s !! address with
  | None => Some (false, s)
  | Some _ => '(status, s) ← quit_copy address s; Some (status =? GS_OK, s)
  end.
(** [server_data], by an address: an entry that is not there is made. *)
Definition server_data (address : bytes) (s : session) : SERVER_DATA * session := (entry address s, store address (entry address s) s).

Inductive call : session -> session -> Prop :=
| CallConnect addresses activeKey s : call s (call_connect addresses activeKey s)
| CallPair address pin s : call s (call_pair address pin s)
| CallList address s : call s (call_applist address s)
| CallBoxart address app s : call s (call_app_boxart address app s)
| CallStart address c app mask options s : call s (call_start address c app mask options s)
| CallQuit address s : call s (call_quit address s)
| CallWake h s : call s (call_wake h s)
| CallQuitNow address b s s' : quitNow address s = Some (b, s') -> call s s'
| CallServerData address s : call s (server_data address s).2.

(** Any call, or any job that waits, in any order. *)
Inductive step : session -> session -> Prop :=
| StepCall s s' : call s s' -> step s s'
| StepJob j before after order s s' : jobs s = before ++ j :: after -> order ≡ₚ map_to_list (m_active_routes s) ->
    run_job order j (with_jobs (before ++ after) s) = Some s' -> step s s'.

Definition initial (w : world) (c : StreamConfiguration) : session :=
  {| m_server_data := ∅; m_active_addresses := ∅; m_active_routes := ∅; m_config := c; shared := w; routes := []; ids := 0;
     answered := []; jobs := []; wakes := 0 |}.
Definition reachable (s : session) : Prop := exists w c, rtc step (initial w c) s.

(** ** Routes are held in one place *)

Definition own_lease (l : RemoteRouteLease) : gmultiset route_key := list_to_set_disj (pending l).
Definition own_leases (ls : list RemoteRouteLease) : gmultiset route_key := foldr (fun l acc => own_lease l ⊎ acc) ∅ ls.
Definition own_job (j : job) : gmultiset route_key :=
  match j with Connected _ _ _ _ _ l => own_lease l | Releasing ls => own_leases ls | _ => ∅ end.
Definition own_jobs (js : list job) : gmultiset route_key := foldr (fun j acc => own_job j ⊎ acc) ∅ js.
(** The routes the client holds: those of its connections, and those on their way
    to or from them. *)
Definition held (s : session) : gmultiset route_key := own_all own_lease (m_active_routes s) ⊎ own_jobs (jobs s).

Lemma moves_acquired ks : moves (Acquired <$> ks) ∅ (list_to_set_disj ks).
Proof.
  induction ks as [|k ks IH]; [apply moves_nil|]. cbn [fmap list_fmap list_to_set_disj]. apply (moves_cons _ _ ∅).
  - cbn [needs route_uses]. multiset_solver.
  - cbn [gives route_uses]. eapply moves_eq; [apply (moves_frame _ _ _ {[+ k +]} IH)| |]; multiset_solver.
Qed.
Lemma moves_released ks : moves (Released <$> ks) (list_to_set_disj ks) ∅.
Proof.
  induction ks as [|k ks IH]; [apply moves_nil|]. cbn [fmap list_fmap list_to_set_disj]. eapply moves_cons; [reflexivity|].
  cbn [gives route_uses]. by rewrite (left_id_L ∅ (⊎)).
Qed.
Lemma moves_released_leases ls : moves (Released <$> concat (pending <$> ls)) (own_leases ls) ∅.
Proof.
  induction ls as [|l ls IH]; [apply moves_nil|]. cbn [fmap list_fmap concat own_leases foldr]. rewrite fmap_app.
  eapply moves_app; [|eapply moves_eq; [exact IH| |done]].
  - eapply moves_eq; [apply (moves_frame _ _ _ (own_leases ls) (moves_released (pending l)))|done|]. reflexivity.
  - by rewrite (left_id_L ∅ (⊎)).
Qed.

Lemma own_jobs_app a b : own_jobs (a ++ b) = own_jobs a ⊎ own_jobs b.
Proof.
  induction a as [|j a IH]; cbn [app own_jobs foldr]; [by rewrite (left_id_L ∅ (⊎))|]. fold (own_jobs (a ++ b)). by rewrite IH, (assoc_L (⊎)).
Qed.

Definition own_attempt (r : attempt) : gmultiset route_key := match r with Reached _ _ l => own_lease l | _ => ∅ end.

(** A connection ends with the route of the address it reached, and no other. *)
Lemma connect_loop_routes addresses : forall error w log r w' log',
  connect_loop addresses error w log = (r, w', log') -> r <> Crashed -> exists made, log' = log ++ made /\ moves made ∅ (own_attempt r).
Proof.
  induction addresses as [|address rest IH]; intros error w log r w' log' E Hr; cbn [connect_loop] in E.
  { injection E as <- <- <-. exists []. rewrite app_nil_r. split; [done|apply moves_nil]. }
  destruct (bool_decide (address = [])); [by eapply IH|]. set (lease := acquire log address) in *.
  assert (forall error w, connect_loop rest error w (log ++ (Acquired <$> pending lease) ++ (Released <$> pending lease)) = (r, w', log') ->
    exists made, log' = log ++ made /\ moves made ∅ (own_attempt r)) as Hback.
  { intros error' w0 E0. apply IH in E0 as (made & -> & Hm); [|done]. rewrite <- !app_assoc. eexists. split; [reflexivity|].
    eapply moves_app; [apply moves_acquired|]. eapply moves_app; [apply moves_released|done]. }
  rewrite <- app_assoc in E. destruct (l_refused lease); [by eapply Hback|].
  destruct (gs_init _ _ _ _) as [[h|status] w1]; [injection E as <- _ _; done|]. destruct (status =? GS_OK).
  - injection E as <- <- <-. exists (Acquired <$> pending lease). split; [done|apply moves_acquired].
  - destruct (probePunktfunkIdentity _ _ _) as [[h|i] w2]; [injection E as <- _ _; done|].
    by eapply Hback.
Qed.

Lemma connect_sync_routes addresses w log r w' log' :
  connect_to_addresses_sync addresses w log = (r, w', log') -> r <> Crashed -> exists made, log' = log ++ made /\ moves made ∅ (own_attempt r).
Proof.
  unfold connect_to_addresses_sync. destruct (no_address_given addresses); [|apply connect_loop_routes].
  intros [= <- <- <-] _. exists []. rewrite app_nil_r. split; [done|apply moves_nil].
Qed.

(** What a step does to the routes: calls that take what was held to what is. *)
Definition routed (owns : gmultiset route_key) (s s' : session) : Prop :=
  exists made, routes s' = routes s ++ made /\ moves made (owns ⊎ held s) (held s').

Lemma routed_refl s : routed ∅ s s.
Proof. exists []. rewrite app_nil_r. split; [done|]. apply moves_done. by rewrite (left_id_L ∅ (⊎)). Qed.
Lemma routed_same s s' : routes s' = routes s -> m_active_routes s' = m_active_routes s -> own_jobs (jobs s') = own_jobs (jobs s) -> routed ∅ s s'.
Proof.
  intros H1 H2 H3. exists []. rewrite app_nil_r. split; [done|]. apply moves_done. unfold held. by rewrite H2, H3, (left_id_L ∅ (⊎)).
Qed.
Lemma routed_trans a b s1 s2 s3 : routed a s1 s2 -> routed b s2 s3 -> routed (a ⊎ b) s1 s3.
Proof.
  intros (m1 & E1 & H1) (m2 & E2 & H2). exists (m1 ++ m2). rewrite E2, E1, app_assoc. split; [done|].
  eapply moves_app; [|exact H2]. eapply moves_eq; [apply (moves_frame _ _ _ b H1)| |]; multiset_solver.
Qed.
Lemma routed_spawn j s : routed (own_job j) s (spawn j s).
Proof.
  exists []. rewrite app_nil_r. split; [done|]. apply moves_done. unfold held, spawn. cbn [with_jobs jobs m_active_routes].
  rewrite own_jobs_app. cbn [own_jobs foldr]. multiset_solver.
Qed.
Lemma routed_drop lease s : routed (own_lease lease) s (drop_lease lease s).
Proof.
  exists (Released <$> pending lease). split; [done|]. eapply moves_eq; [apply (moves_frame _ _ _ (held s) (moves_released (pending lease)))|done|].
  by rewrite (left_id_L ∅ (⊎)).
Qed.
Lemma routed_hold k lease s : routed (own_lease lease) s (hold_route k lease s).
Proof.
  unfold hold_route, move_assign. destruct (release (default no_lease (m_active_routes s !! k))) as [old calls] eqn:E. cbn [move_lease].
  exists (Released <$> calls). split; [done|]. assert (calls = pending (default no_lease (m_active_routes s !! k))) as -> by (unfold pending; by rewrite E).
  unfold held. cbn [with_routes m_active_routes jobs]. destruct (m_active_routes s !! k) as [l|] eqn:Ek; cbn [default].
  - rewrite (own_all_delete _ _ _ _ Ek), (own_all_update _ _ _ _ _ Ek).
    eapply moves_eq; [apply (moves_frame _ _ _ (own_lease lease ⊎ own_all own_lease (delete k (m_active_routes s)) ⊎ own_jobs (jobs s))
      (moves_released (pending l)))| |]; fold (own_lease l); multiset_solver.
  - rewrite own_all_insert by done. apply moves_done. multiset_solver.
Qed.

Lemma own_all_released (l : walk) : forall m, NoDup l.*1 -> (forall r, r ∈ l -> m !! r.1 = Some r.2) ->
  own_all own_lease m = own_leases l.*2 ⊎ own_all own_lease (foldr (fun r m => delete r.1 m) m l).
Proof.
  induction l as [|[k x] l IH]; intros m Hn Hl; cbn [fmap list_fmap foldr own_leases].
  - by rewrite (left_id_L ∅ (⊎)).
  - apply list.NoDup_cons in Hn as [Hk Hn]. assert (forall r, r ∈ l -> m !! r.1 = Some r.2) as Hl' by (intros; apply Hl; by right).
    fold (own_leases l.*2). rewrite (IH m Hn Hl'). set (m' := foldr _ m l). assert (m' !! k = Some x) as Hx.
    { unfold m'. clear IH Hn Hl'. assert (m !! k = Some x) as Hm by (by apply (Hl (k, x)); left). clear Hl. induction l as [|r l IH]; [done|].
      cbn [foldr]. cbn in Hk. apply not_elem_of_cons in Hk as [H1 H2]. rewrite lookup_delete_ne by done. by apply IH. }
    rewrite (own_all_delete _ _ _ _ Hx). multiset_solver.
Qed.

Lemma routed_release order address s : order ≡ₚ map_to_list (m_active_routes s) ->
  routed ∅ s (release_cancelled_pairing_connection order address s).
Proof.
  intros Ho. unfold release_cancelled_pairing_connection. set (released := List.filter _ order).
  assert (NoDup released.*1 /\ forall r, r ∈ released -> m_active_routes s !! r.1 = Some r.2) as [Hn Hl].
  { split.
    - assert (NoDup order.*1) as Hk by (rewrite Ho; apply NoDup_fst_map_to_list). unfold released. clear Ho released.
      induction order as [|r order IH]; [constructor|]. apply list.NoDup_cons in Hk as [H1 H2]. cbn. destruct (on_address _ _ _); [|by apply IH].
      cbn. constructor; [|by apply IH]. intros H. apply H1. apply list_elem_of_fmap in H as (x & -> & Hx).
      apply list_elem_of_In, filter_In in Hx as [Hx _]. apply list_elem_of_fmap. exists x. by rewrite list_elem_of_In.
    - intros [k x] Hr. apply list_elem_of_In, filter_In in Hr as [Hr _]. apply list_elem_of_In in Hr. rewrite Ho in Hr.
      by apply elem_of_map_to_list in Hr. }
  pose proof (own_all_released released (m_active_routes s) Hn Hl) as Hown.
  set (s1 := with_data _ _).
  exists []. rewrite app_nil_r. case_bool_decide as E.
  - split; [by cbn; rewrite app_nil_r|]. apply moves_done. unfold held at 2. cbn [s1 with_data with_addresses with_routes m_active_routes jobs].
    unfold held. rewrite Hown. destruct released; [|done]. cbn [fmap list_fmap own_leases foldr]. multiset_solver.
  - split; [by cbn; rewrite app_nil_r|]. apply moves_done. unfold held, spawn, s1.
    cbn [with_data with_addresses with_routes with_jobs m_active_routes jobs]. rewrite own_jobs_app, Hown.
    cbn [own_jobs foldr own_job]. fold (own_leases released.*2). multiset_solver.
Qed.

Lemma routed_eq a b s s' : routed a s s' -> a = b -> routed b s s'.
Proof. by intros H ->. Qed.
Lemma routed_then a s1 s2 s3 : routed ∅ s1 s2 -> routed a s2 s3 -> routed a s1 s3.
Proof. intros H1 H2. eapply routed_eq; [by eapply routed_trans|]. by rewrite (left_id_L ∅ (⊎)). Qed.
Lemma routed_after a s1 s2 s3 : routed a s1 s2 -> routed ∅ s2 s3 -> routed a s1 s3.
Proof. intros H1 H2. eapply routed_eq; [by eapply routed_trans|]. by rewrite (right_id_L ∅ (⊎)). Qed.

Lemma routed_entry {A} address (m : M A) s a s' : on_entry address m s = Some (a, s') -> routed ∅ s s'.
Proof. unfold on_entry. destruct (m _) as [[h|x] w]; [done|]. intros [= <- <-]. by apply routed_same. Qed.
Lemma routed_quit address s status s' : quit_copy address s = Some (status, s') -> routed ∅ s s'.
Proof. unfold quit_copy. destruct (gs_quit_app _ _) as [[h|x] w]; [done|]. intros [= <- <-]. by apply routed_same. Qed.
Lemma routed_answer id a s : routed ∅ s (with_answer id a s).
Proof. by apply routed_same. Qed.
Lemma routed_cache address d s : routed ∅ s (cache_server_data address d s).
Proof. unfold cache_server_data. destruct (is_usable_mac _); by apply routed_same. Qed.
Lemma routed_active k address lease s : routed (own_lease lease) s (make_active k address lease s).
Proof. eapply routed_then; [|apply routed_hold]. by apply routed_same. Qed.

Lemma routed_sync addresses s r w log : connect_to_addresses_sync addresses (shared s) (routes s) = (r, w, log) -> r <> Crashed ->
  forall a s', routed (own_attempt r ⊎ a) (with_shared w log s) s' -> routed a s s'.
Proof.
  intros E Hr a s' (made & E1 & H1). destruct (connect_sync_routes _ _ _ _ _ _ E Hr) as (first & -> & Hm).
  exists (first ++ made). rewrite E1. split; [by cbn; rewrite app_assoc|]. change (held (with_shared w (routes s ++ first) s)) with (held s) in H1.
  eapply moves_app; [|exact H1]. eapply moves_eq; [apply (moves_frame _ _ _ (a ⊎ held s) Hm)| |]; multiset_solver.
Qed.

Lemma run_job_routed order j s s' : order ≡ₚ map_to_list (m_active_routes s) -> run_job order j s = Some s' -> routed (own_job j) s s'.
Proof.
  intros Ho E. destruct j as [id addresses k|id k a d error lease|id a pin|id a status error t|id a|id a app|id a app mask options|id a|id h|id h n|id r|ls];
    cbn [run_job own_job] in *.
  - unfold connect_work in E. destruct (connect_to_addresses_sync _ _ _) as [[r w] log] eqn:Ec.
    destruct r as [a d lease|error|]; [| |done]; injection E as <-; (eapply routed_sync; [exact Ec|done|]); cbn [own_attempt];
      (eapply routed_eq; [apply routed_spawn|]); cbn [own_job]; [multiset_solver|].
    change (own_lease no_lease) with (∅ : gmultiset route_key). multiset_solver.
  - injection E as <-. unfold connected. case_bool_decide.
    + eapply routed_after; [apply routed_drop|]. by apply routed_same.
    + eapply routed_then; [apply routed_cache|]. case_bool_decide; (eapply routed_after; [|apply routed_answer]); [apply routed_drop|apply routed_active].
  - unfold pair_work in E. destruct (on_entry _ _ _) as [[[[status error] t] s1]|] eqn:E1; [|done]. injection E as <-.
    eapply routed_then; [by eapply routed_entry|]. apply routed_spawn.
  - injection E as <-. unfold pair_done. case_bool_decide.
    + eapply routed_then; [by apply routed_release|]. by apply routed_same.
    + by apply routed_same.
  - unfold list_work in E. destruct (on_entry _ _ _) as [[[status apps] s1]|] eqn:E1; [|done]. injection E as <-.
    eapply routed_then; [by eapply routed_entry|]. apply routed_spawn.
  - unfold boxart_work in E. destruct (on_entry _ _ _) as [[[status apps] s1]|] eqn:E1; [|done]. injection E as <-.
    eapply routed_then; [by eapply routed_entry|]. apply routed_spawn.
  - unfold start_work in E. destruct (on_entry _ _ _) as [[[status c] s1]|] eqn:E1; [|done]. cbn in E.
    destruct (if _ : bool then _ else _) as [status' s2] eqn:E2. injection E as <-.
    eapply routed_then; [by eapply routed_entry|]. eapply routed_then; [|apply routed_spawn].
    destruct (_ && _); injection E2 as <- <-; by apply routed_same.
  - unfold quit_work in E. destruct (quit_copy _ _) as [[status s1]|] eqn:E1; [|done]. injection E as <-.
    eapply routed_then; [by eapply routed_quit|]. apply routed_spawn.
  - unfold wake_work, send_wake in E. destruct (ra_wake _ _ _); cbn in E; [done|..]; injection E as <-; (eapply routed_then; [|apply routed_spawn]); by apply routed_same.
  - unfold wake_poll in E. apply bind_Some in E as ([refused s1] & Ew & E).
    assert (routed ∅ s s1) as H1.
    { destruct (_ && _); [|injection Ew as <- <-; by apply routed_same]. unfold send_wake in Ew. destruct (ra_wake _ _ _); [done|..]; injection Ew as <- <-; by apply routed_same. }
    eapply routed_then; [exact H1|]. destruct (connect_to_addresses_sync _ _ _) as [[r w] log] eqn:Ec.
    destruct r as [a d lease|error|]; [| |done]; injection E as <-; (eapply routed_sync; [exact Ec|done|]); cbn [own_attempt].
    + eapply routed_after; [|apply routed_spawn]. rewrite (right_id_L ∅ (⊎)). eapply routed_then; [apply routed_cache|apply routed_active].
    + eapply routed_eq; [apply routed_spawn|]. rewrite (left_id_L ∅ (⊎)).
      destruct (n + 1 <? WAKE_POLL_ATTEMPTS)%nat; reflexivity.
  - injection E as <-. by apply routed_same.
  - injection E as <-. exists (Released <$> concat (pending <$> ls)). split; [done|].
    eapply moves_eq; [apply (moves_frame _ _ _ (held s) (moves_released_leases ls))|done|]. by rewrite (left_id_L ∅ (⊎)).
Qed.

Lemma call_routed s s' : call s s' -> routed ∅ s s'.
Proof.
  assert (forall j s, own_job j = ∅ -> routed ∅ s (spawn j (with_id s))) as Hj.
  { intros j s0 Hj. rewrite <- Hj. eapply routed_then; [|apply routed_spawn]. by apply routed_same. }
  assert (forall address missing worker s, (forall id, own_job (worker id) = ∅) -> routed ∅ s (with_cached_server_data address missing worker s)) as Hc.
  { intros address missing worker s0 Hw. unfold with_cached_server_data. cbn. destruct (m_server_data s0 !! address); [by apply Hj|by apply routed_same]. }
  destruct 1.
  - unfold call_connect. cbn. destruct (no_address_given _); [by apply routed_same|by apply Hj].
  - by apply Hc.
  - by apply Hc.
  - by apply Hc.
  - eapply routed_then; [|by apply Hc]. by apply routed_same.
  - by apply Hc.
  - by apply Hj.
  - unfold quitNow in H. destruct (m_server_data s !! address); [|injection H as <- <-; apply routed_refl].
    destruct (quit_copy address s) as [[status s1]|] eqn:E; [|done]. injection H as <- <-. by eapply routed_quit.
  - by apply routed_same.
Qed.

Lemma step_routed s s' : step s s' -> routed ∅ s s'.
Proof.
  destruct 1 as [s s' H|j before after order s s' Hj Ho H]; [by apply call_routed|].
  apply run_job_routed in H as (made & E & Hm); [|done]. exists made. split; [done|]. eapply moves_eq; [exact Hm| |done].
  unfold held. cbn [with_jobs m_active_routes jobs]. rewrite Hj, !own_jobs_app. cbn [own_jobs foldr]. fold (own_jobs after). multiset_solver.
Qed.

Lemma routes_held s : reachable s -> run (routes s) ∅ = Some (held s).
Proof.
  intros (w & c & H). apply moves_run. assert (moves (routes (initial w c)) ∅ (held (initial w c))) as H0.
  { apply moves_done. unfold held. cbn. by rewrite (right_id_L ∅ (⊎)). }
  revert H0. generalize (initial w c) H. clear. intros s0. induction 1 as [|s1 s2 s3 Hs _ IH]; [done|]. intros H1. apply IH.
  apply step_routed in Hs as (made & -> & Hm). eapply moves_app; [exact H1|]. eapply moves_eq; [exact Hm| |done]. by rewrite (left_id_L ∅ (⊎)).
Qed.
End client.
