(* ===== verification/SessionSafety.v ===== *)
(** What the application's client ([ClientSession.v]) does in every interleaving:
    routes, connections and answers are accounted for, addresses are tried in
    their order, and a cancelled pairing leaves nothing behind. *)

From stdpp Require Import gmultiset.
From S2P Require Import Prelude Text CText Types HostAddress Ownership Data Xml HttpClient Capabilities GameStream Pairing Launch HostRecords ClientSession.

#[local] Open Scope Z_scope.
#[local] Set Warnings "-clear-no-such-hyp".

(** ** What the host's calls leave alone *)

Definition endpoint (d : SERVER_DATA) : bytes * option bytes := (sd_address d, si_address (sd_serverInfo d)).
(** The address the record is for, and a token nobody has completed. *)
Definition kept (w w' : world) : Prop :=
  endpoint (w_server w') = endpoint (w_server w) /\ (w_token w <> TokenCompleted -> w_token w' <> TokenCompleted).
Definition keeps {A} (m : M A) : Prop := forall w, kept w (m w).2.
Definition total {A} (m : M A) : Prop := forall w, exists a, (m w).1 = inr a.

Create HintDb calls.

Section calls.
Context (env : environment) `{lib : MbedTLS} `{xml : Expat}.

Lemma keeps_bind {A B} (m : M A) (k : A -> M B) : keeps m -> (forall a, keeps (k a)) -> keeps (m ≫= k).
Proof.
  intros Hm Hk w. unfold mbind, M_bind. specialize (Hm w). destruct (m w) as [[h|a] w1]; [done|]. destruct Hm as [H1 H2], (Hk a w1) as [H3 H4].
  split; [by rewrite H3|auto].
Qed.
Lemma total_bind {A B} (m : M A) (k : A -> M B) : total m -> (forall a, total (k a)) -> total (m ≫= k).
Proof. intros Hm Hk w. unfold mbind, M_bind. destruct (Hm w) as [a Ha]. destruct (m w) as [r w1]. cbn in Ha. subst r. apply Hk. Qed.

Lemma keeps_ret {A} (a : A) : keeps (mret a). Proof. by split. Qed.
Lemma total_ret {A} (a : A) : total (mret a). Proof. by exists a. Qed.
Lemma keeps_get : keeps get_server. Proof. by split. Qed.
Lemma total_get : total get_server. Proof. intros w. by eexists. Qed.
Lemma keeps_error e : keeps (gs_set_error e). Proof. by split. Qed.
Lemma total_error e : total (gs_set_error e). Proof. intros w. by eexists. Qed.
Lemma keeps_modify f : (forall d, endpoint (f d) = endpoint d) -> keeps (modify_server f). Proof. intros H w. split; [apply H|done]. Qed.
Lemma total_modify f : total (modify_server f). Proof. intros w. by eexists. Qed.
Lemma keeps_exit {A} (o : option A) : keeps (or_exit o). Proof. by destruct o. Qed.
Lemma keeps_overrun {A} (o : option A) : keeps (or_overrun o). Proof. by destruct o. Qed.
Lemma keeps_random n : keeps (random_data env n). Proof. by split. Qed.
Lemma total_random n : total (random_data env n). Proof. intros w. by eexists. Qed.
Lemma keeps_asked : keeps (isCancellationRequested env).
Proof. intros w. split; [done|]. cbn. destruct (w_token w); [by destruct (env_cancel _ _)|done|done]. Qed.
Lemma keeps_lift {A} (r : Z * A * option bytes) : keeps (lift_xml r). Proof. destruct r as [[c a] [e|]]; by split. Qed.
Lemma total_lift {A} (r : Z * A * option bytes) : total (lift_xml r). Proof. destruct r as [[c a] [e|]]; intros w; by eexists. Qed.

Lemma keeps_send watched url timeout options : keeps (send env watched url timeout options).
Proof.
  intros w. unfold send. destruct (watched && _).
  - pose proof (keeps_asked (with_call {| hc_url := url; hc_timeout := timeout; hc_options := options |} w)) as [H1 H2].
    unfold isCancellationRequested in *. cbn [snd fst] in *. destruct (hr_error _); split; auto.
  - destruct (hr_error _); by split.
Qed.
Lemma total_send watched url timeout options : total (send env watched url timeout options).
Proof.
  intros w. unfold send. destruct (watched && _).
  - destruct (isCancellationRequested env _) as [[h|c] w1]; by eexists.
  - by eexists.
Qed.
End calls.

#[export] Hint Resolve keeps_ret total_ret keeps_get total_get keeps_error total_error keeps_modify total_modify keeps_exit keeps_overrun
  keeps_random total_random keeps_asked keeps_lift total_lift keeps_send total_send : calls.

(** Walks a call: its binds, its choices, and the steps [calls] knows. *)
Ltac walk_call :=
  repeat first
    [ solve [auto with calls]
    | progress (intros; cbv zeta)
    | apply keeps_bind | apply total_bind
    | match goal with |- keeps (match ?x with _ => _ end) => destruct x | |- total (match ?x with _ => _ end) => destruct x end ].

Section walks.
Context (env : environment) `{lib : MbedTLS} `{xml : Expat}.

Lemma keeps_plain url timeout : keeps (send_plain env url timeout). Proof. unfold send_plain. walk_call. Qed.
Lemma total_plain url timeout : total (send_plain env url timeout). Proof. unfold send_plain. walk_call. Qed.
Lemma keeps_status data : keeps (status_of data). Proof. unfold status_of. walk_call. Qed.
Lemma total_status data : total (status_of data). Proof. unfold status_of. walk_call. Qed.
Lemma keeps_search data node : keeps (search data node). Proof. unfold search. walk_call. Qed.
Lemma total_search data node : total (search data node). Proof. unfold search. walk_call. Qed.
Hint Resolve keeps_plain total_plain keeps_status total_status keeps_search total_search : calls.

Lemma keeps_need {A} (m : M (option A)) (k : A -> M Z) : keeps m -> (forall a, keeps (k a)) -> keeps (need m k).
Proof. intros Hm Hk. unfold need. apply keeps_bind; [done|]. intros [a|]; [apply Hk|apply keeps_ret]. Qed.
Lemma keeps_into data node set k : (forall t d, endpoint (set t d) = endpoint d) -> keeps k -> keeps (need_into data node set k).
Proof. intros Hs Hk. apply keeps_need; [apply keeps_search|]. intros t. apply keeps_bind; [by apply keeps_modify|done]. Qed.
Lemma keeps_optional data : keeps (load_optional data). Proof. unfold load_optional. walk_call. Qed.

Lemma keeps_serverinfo https : keeps (load_serverinfo env https).
Proof.
  unfold load_serverinfo. apply keeps_bind; [apply keeps_get|]. intros s. apply keeps_bind; [apply keeps_plain|]. intros [code data].
  destruct (negb _); [apply keeps_ret|]. apply keeps_bind; [apply keeps_status|]. intros status. destruct (_ =? _); [apply keeps_ret|].
  pose proof keeps_optional.
  repeat first [ apply keeps_need; [solve [walk_call]|intros ?] | apply keeps_into; [done|] | apply keeps_bind; [solve [walk_call]|intros ?] ].
  walk_call.
Qed.

Lemma keeps_load_status : keeps (load_server_status env).
Proof. unfold load_server_status. pose proof keeps_serverinfo. walk_call. Qed.
Lemma keeps_probe url : keeps (getProbe env url). Proof. unfold getProbe. walk_call. Qed.
Lemma total_probe url : total (getProbe env url). Proof. unfold getProbe. walk_call. Qed.
Lemma keeps_punktfunk address : keeps (probePunktfunkIdentity env address).
Proof. unfold probePunktfunkIdentity. pose proof keeps_probe. walk_call. Qed.
Lemma total_punktfunk address : total (probePunktfunkIdentity env address).
Proof. unfold probePunktfunkIdentity. pose proof total_probe. walk_call. Qed.
Lemma keeps_identify : keeps (identify env).
Proof. unfold identify, probeHostIdentity. pose proof keeps_probe. pose proof keeps_punktfunk. walk_call. Qed.

Lemma keeps_unpair : keeps (gs_unpair env). Proof. unfold gs_unpair. walk_call. Qed.
Lemma total_unpair : total (gs_unpair env). Proof. unfold gs_unpair. walk_call. Qed.
Lemma keeps_validate data : keeps (gs_pair_validate data). Proof. unfold gs_pair_validate. walk_call. Qed.
Lemma keeps_cleanup ret : keeps (gs_pair_cleanup env ret).
Proof. unfold gs_pair_cleanup. pose proof keeps_unpair. walk_call. Qed.
Lemma keeps_pair_request url : keeps (gs_pair_request env url). Proof. unfold gs_pair_request. walk_call. Qed.
Lemma keeps_stage url k : (forall d, keeps (k d)) -> keeps (stage env url k).
Proof. intros Hk. unfold stage. pose proof keeps_pair_request. pose proof keeps_validate. pose proof keeps_cleanup. walk_call. Qed.
Lemma keeps_stage_field data node k : (forall d, keeps (k d)) -> keeps (stage_field env data node k).
Proof. intros Hk. unfold stage_field. pose proof keeps_cleanup. walk_call. Qed.
Lemma keeps_pair cert key pin : keeps (gs_pair env cert key pin).
Proof.
  unfold gs_pair.
  repeat match goal with
    | |- forall _, _ => intro
    | |- keeps (let _ := _ in _) => cbv zeta
    | |- keeps (stage _ _ _) => apply keeps_stage
    | |- keeps (stage_field _ _ _ _) => apply keeps_stage_field
    | |- keeps (gs_pair_cleanup _ _) => apply keeps_cleanup
    | |- keeps (mbind _ _) => apply keeps_bind
    | |- keeps (if ?x then _ else _) => destruct x
    | |- keeps (modify_server _) => by apply keeps_modify
    | |- keeps _ => solve [eauto 2 with calls nocore]
    end.
Qed.

Lemma total_applist : total (gs_applist env). Proof. unfold gs_applist. walk_call. Qed.
Lemma total_boxart app : total (gs_app_boxart env app). Proof. unfold gs_app_boxart. walk_call. Qed.
Lemma total_start c app sops audio mask options : total (gs_start_app env c app sops audio mask options).
Proof. unfold gs_start_app. walk_call. Qed.
Lemma total_quit : total (gs_quit_app env). Proof. unfold gs_quit_app. walk_call. Qed.

(** After [gs_init] the record is for the address it was given. *)
Lemma init_endpoint address w : host (parse_host_address address) <> [] ->
  endpoint (w_server (gs_init env true address w).2) = (host (parse_host_address address), Some (host (parse_host_address address))).
Proof.
  intros Hh. unfold gs_init. rewrite bool_decide_false by done. cbn [negb].
  set (w1 := with_server (set_endpoint (host (parse_host_address address)) (server_at (host (parse_host_address address)))
    (default 47989 (port (parse_host_address address))) (w_server w)) w).
  rewrite (bind_inr _ _ w tt w1) by done. pose proof keeps_load_status. pose proof keeps_identify.
  match goal with |- endpoint (w_server (?m w1).2) = _ => enough (keeps m) as Hk by (by destruct (Hk w1)) end. walk_call.
Qed.
End walks.

(** ** Connecting *)

Section connecting.
Context (env : environment) `{xml : Expat} (remote : remote_access).

(** An address that was given up: tried, with what the manager gave for it, and
    not reached. *)
Definition given_up (certificate : bool) (address : bytes) : Prop :=
  address = [] \/ exists log w, l_refused (acquire remote log address) = true \/
    exists status, (gs_init env certificate (connectAddressFor (acquire remote log address) address) (with_server blank w)).1 = inr status /\
      status <> GS_OK.
(** The address that was reached, with the record of the connection that did. *)
Definition reached (certificate : bool) (address : bytes) (d : SERVER_DATA) (lease : RemoteRouteLease) : Prop :=
  address <> [] /\ exists log w w', lease = acquire remote log address /\
    gs_init env certificate (connectAddressFor lease address) (with_server blank w) = (inr GS_OK, w') /\ d = w_server w'.

Definition came_to (certificate : bool) (addresses : list bytes) (error0 : bytes) (r : attempt) : Prop :=
  match r with
  | Reached a d lease => exists before after, addresses = before ++ a :: after /\ Forall (given_up certificate) before /\ reached certificate a d lease
  | Unreached error => Forall (given_up certificate) addresses /\ (error0 <> [] -> error <> [])
  | Crashed => False
  end.

Lemma came_later certificate a addresses e0 e1 r : given_up certificate a -> (e0 <> [] -> e1 <> []) ->
  came_to certificate addresses e1 r -> came_to certificate (a :: addresses) e0 r.
Proof.
  intros Ha He. destruct r as [b d lease|error|]; cbn; [|intros [H1 H2]; split; [by constructor|auto]|done].
  intros (before & after & -> & H1 & H2). exists (a :: before), after. split_and!; [done|by constructor|done].
Qed.

Lemma punktfunk_calls address w : exists o w' made, probePunktfunkIdentity env address w = (inr o, w') /\
  w_calls w' = w_calls w ++ made /\ (length made <= 1)%nat.
Proof. destruct (punktfunk_spec env address w) as (o & w' & E & (made & H1 & H2) & _). eauto 10. Qed.

Lemma connect_loop_spec certificate addresses : forall error w log, exists r w' log',
  connect_loop env remote certificate addresses error w log = (r, w', log') /\ came_to certificate addresses error r /\
  (exists made, w_calls w' = w_calls w ++ made /\ (length made <= 6 * length addresses)%nat).
Proof.
  induction addresses as [|a rest IH]; intros error w log; cbn [connect_loop length].
  { exists (Unreached error), w, log. split_and!; [done|by split|]. exists []. by rewrite app_nil_r. }
  destruct (bool_decide (a = [])) eqn:Ea.
  { apply bool_decide_eq_true in Ea. destruct (IH error w log) as (r & w' & log' & E & Hr & made & Hc & Hl). exists r, w', log'.
    split_and!; [done|by apply (came_later _ _ _ error error); [left| |]|]. exists made. split; [done|lia]. }
  apply bool_decide_eq_false in Ea. set (lease := acquire remote log a). set (log1 := log ++ _). destruct (l_refused lease) eqn:Er.
  { edestruct (IH (refusal remote log1 lease) w) as (r & w' & log' & E & Hr & made & Hc & Hl). exists r, w', log'. split_and!; [exact E| |].
    - eapply came_later; [|intros _|exact Hr]; [right; exists log, w; by left|]. unfold refusal. by case_bool_decide.
    - exists made. split; [done|lia]. }
  destruct (init_spec env xml certificate (connectAddressFor lease a) (with_server blank w)) as (status & w1 & made1 & E1 & Hc1 & Hl1 & _).
  rewrite E1. destruct (Z.eqb_spec status GS_OK) as [->|Hs].
  - eexists _, _, _. split; [reflexivity|]. split.
    + exists [], rest. split_and!; [done|done|]. split; [done|]. exists log, w, w1. done.
    + exists made1. split; [exact Hc1|lia].
  - destruct (punktfunk_calls a w1) as (probed & w2 & made2 & E2 & Hc2 & Hl2). rewrite E2. cbv zeta.
    match goal with |- context [connect_loop _ _ _ rest ?e w2 ?l] => destruct (IH e w2 l) as (r & w' & log' & E & Hr & made & Hc & Hl) end.
    exists r, w', log'. split_and!; [exact E| |].
    + eapply came_later; [|intros _|exact Hr].
      * right. exists log, w. right. exists status. fold lease. by rewrite E1.
      * case_bool_decide; [done|]. unfold gs_error. by case_bool_decide.
    + exists (made1 ++ made2 ++ made). rewrite Hc, Hc2, Hc1, <- !app_assoc. split; [done|]. rewrite !length_app. lia.
Qed.

Lemma parsed_port_ok a : port_ok (port (parse_host_address a)).
Proof.
  assert (forall t, port_ok (parse_port t)) as H.
  { intros t. unfold parse_port. case_bool_decide; [done|]. destruct (_ || _) eqn:E; [done|].
    rewrite !orb_false_iff, !negb_false_iff, bool_decide_eq_true, Nat.eqb_eq, Z.eqb_neq, Z.ltb_ge in E. destruct E as [[[E1 E2] E3] E4].
    destruct (from_chars_unsigned_full t 0 E1 E2) as (_ & Hd & Hv & _). pose proof (dec_value_bound t Hd).
    unfold port_ok, u16. rewrite Z.mod_small by lia. lia. }
  unfold parse_host_address. repeat case_match; try apply H; done.
Qed.

(** A route that is held leads through the proxy. *)
Lemma reached_proxied certificate a d lease : reached certificate a d lease -> l_active lease = true ->
  sd_address d = kProxyAddress /\ is_proxied_session d = true.
Proof.
  intros (Ha & log & w & w' & -> & E & ->) Hl. destruct certificate.
  2: { destruct (init_spec env xml false (connectAddressFor (acquire remote log a) a) (with_server blank w)) as (ret & w2 & made & E2 & _ & _ & H & _).
       rewrite E in E2. injection E2 as <- <-. by destruct (H (or_intror eq_refl)). }
  assert (host (parse_host_address (connectAddressFor (acquire remote log a) a)) = kProxyAddress) as Hh.
  { unfold connectAddressFor. rewrite Hl. cbn [negb].
    destruct (port (parse_host_address a)) as [n|] eqn:En; [|reflexivity].
    assert (port_ok (Some n)) as Hn by (rewrite <- En; apply parsed_port_ok).
    change (kProxyAddress ++ bs ":" ++ to_string n) with (kProxyAddress ++ suffix (Some n)).
    rewrite parse_plain; [done|done| |done|by intros c [= <-]|by intros c [= <-]]. apply (bool_decide_unpack _). vm_compute. exact I. }
  pose proof (init_endpoint env (connectAddressFor (acquire remote log a) a) (with_server blank w)) as He. rewrite E, Hh in He.
  specialize (He ltac:(done)). injection He as H1 H2. split; [done|]. unfold is_proxied_session. by rewrite H2.
Qed.
End connecting.

(** C26: connecting to a host tries its addresses in their order and comes back,
    after at most six requests for each. Either it reaches one - all those before
    it were tried and failed, and what it brings back is the record and the route
    of that address alone, the record being for the local proxy if there is a
    route - or every address failed and there is an error to show. *)
Theorem connect_in_order (env : environment) (xml : Expat) (remote : remote_access) (certificate : bool) (addresses : list bytes)
    (w : world) (log : list route_call) :
  exists r w' log' made made', connect_to_addresses_sync env remote certificate addresses w log = (r, w', log') /\
    w_calls w' = w_calls w ++ made /\ (length made <= 6 * length addresses)%nat /\
    log' = log ++ made' /\ moves made' ∅ (own_attempt r) /\
    match r with
    | Reached a d lease =>
        (exists before after, addresses = before ++ a :: after /\ Forall (given_up env remote certificate) before) /\
        reached env remote certificate a d lease /\
        (l_active lease = true -> sd_address d = kProxyAddress /\ is_proxied_session d = true)
    | Unreached error => Forall (given_up env remote certificate) addresses /\ error <> []
    | Crashed => False
    end.
Proof.
  assert (exists r w' log', connect_to_addresses_sync env remote certificate addresses w log = (r, w', log') /\
    came_to env remote certificate addresses (bs "Address is Empty") r /\
    exists made, w_calls w' = w_calls w ++ made /\ (length made <= 6 * length addresses)%nat) as (r & w' & log' & E & Hr & made & Hc & Hl).
  { unfold connect_to_addresses_sync. destruct (no_address_given addresses) eqn:En; [|apply connect_loop_spec].
    eexists _, _, _. split; [reflexivity|]. split; [|exists []; rewrite app_nil_r; split; [done|cbn; lia]]. split; [|done].
    apply list.Forall_forall. intros a Ha. left. unfold no_address_given in En. rewrite forallb_forall in En.
    specialize (En a (proj1 (list_elem_of_In _ _) Ha)). by apply bool_decide_eq_true in En. }
  assert (r <> Crashed) as Hn by (by intros ->). destruct (connect_sync_routes _ _ _ _ _ _ _ _ _ E Hn) as (made' & Hm1 & Hm2).
  exists r, w', log', made, made'. split_and!; try done. destruct r as [a d lease|error|]; [| |done].
  - destruct Hr as (before & after & -> & Hb & Hre). split_and!; [by exists before, after|done|]. intros Ha. by eapply reached_proxied.
  - destruct Hr as [H1 H2]. split; [done|by apply H2].
Qed.

(** ** Pairing *)

Section pairing.
Context (env : environment) `{lib : MbedTLS} `{xml : Expat} (cert key : bytes).

Lemma unpair_spec w : exists code w', gs_unpair env w = (inr code, w') /\ w_server w' = w_server w /\ w_token w' = w_token w /\
  w_calls w' = w_calls w ++ [unpair_call (w_server w)].
Proof.
  unfold gs_unpair, get_server. unfold mbind at 1, M_bind at 1. unfold send_plain. unfold mbind, M_bind.
  pose proof (send_calls env false (url_text (http_base (w_server w) "/unpair?uniqueid=" ++ unique_id)) HTTPRequestTimeoutLow default_options w) as Hc.
  assert (w_token (send env false (url_text (http_base (w_server w) "/unpair?uniqueid=" ++ unique_id)) HTTPRequestTimeoutLow default_options w).2
    = w_token w) as Ht by (unfold send; cbn [andb snd]; by destruct (hr_error _)).
  destruct (send env false _ _ _ w) as [r w']. destruct Hc as (Hs & Hc & [[[code body] info] ->]). exists code, w'. done.
Qed.

Lemma complete_spec w : w_token w <> TokenCompleted -> exists b t, tryComplete env w = (inr b, with_token t w) /\
  t = (if b then TokenCompleted else TokenCancelled).
Proof.
  intros Hn. unfold tryComplete. destruct (w_token w) eqn:Et; [|by eexists false, _|done].
  destruct (env_cancel env (w_ticks w)); [by eexists false, _|by eexists true, _].
Qed.

(** What the worker of a pairing leaves, for a host that was not paired and idle. *)
Definition paired_up (d : SERVER_DATA) (calls : list http_call) (r : Z * bytes * token) (w : world) : Prop :=
  let '(status, error, t) := r in
  exists made, w_calls w = calls ++ made /\ (length made <= 7)%nat /\
    sd_paired (w_server w) = (status =? GS_OK) /\ set_paired false (w_server w) = d /\
    (status <> GS_OK -> list.last made = Some (unpair_call d) /\ error <> []) /\
    (t = TokenCompleted \/ t = TokenCancelled /\ status = GS_CANCELLED).

Lemma gs_error_some w : gs_error w <> [].
Proof. unfold gs_error. by case_bool_decide. Qed.

Lemma pair_entry_spec pin w : sd_paired (w_server w) = false -> sd_currentGame (w_server w) = 0 ->
  match pair_entry env cert key pin w with (inl _, _) => True | (inr r, w') => paired_up (w_server w) (w_calls w) r w' end.
Proof.
  intros Hp Hg. unfold pair_entry, fresh_token. unfold mbind at 1, M_bind at 1.
  set (w0 := {| w_server := w_server w |}). assert (w_token w0 <> TokenCompleted) as Ht0 by done.
  change (w_server w) with (w_server w0). change (w_calls w) with (w_calls w0).
  change (w_server w) with (w_server w0) in Hp, Hg. clearbody w0. unfold mbind at 1, M_bind at 1.
  pose proof (pair_ends env cert key (c_str pin) w0 Hp Hg) as (made & Hc & Hr).
  pose proof (keeps_pair env cert key (c_str pin) w0) as [_ Ht]. specialize (Ht Ht0).
  destruct (gs_pair env cert key (c_str pin) w0) as [[h|status] w1]; [done|]. cbn [fst snd] in Hc, Hr, Ht.
  destruct (complete_spec w1 Ht) as (completed & t & Et & ->). rewrite (bind_inr _ _ _ _ _ Et). set (w2 := with_token _ w1).
  assert (forall d', set_paired false (set_paired true d') = set_paired false d') as Hff by done.
  assert (set_paired false (w_server w0) = w_server w0) as Hd by (destruct (w_server w0); cbn in *; by subst).
  destruct completed; cbn [negb].
  - (* the result stands *)
    unfold mbind at 1, M_bind at 1, mret at 1, M_ret at 1.
    destruct Hr as [(-> & Hs & Hl & _)|(Hne & Hps & Hs & Hl & Hlast)].
    + exists made. cbn. rewrite Hs. split_and!; try done; [lia|by left].
    + destruct (Z.eqb_spec status GS_OK) as [|_]; [done|]. exists made. cbn. rewrite (proj2 (Z.eqb_neq _ _) Hne).
      rewrite Hp in Hs. split_and!; try done; [lia| |by left]. intros _. split; [done|apply gs_error_some].
  - (* cancelled *)
    enough (exists w3, (if status =? GS_OK then gs_unpair env ;; modify_server (set_paired false) else mret tt) w2 = (inr tt, w3) /\
      w_token w3 = TokenCancelled /\ sd_paired (w_server w3) = false /\ set_paired false (w_server w3) = w_server w0 /\
      exists made, w_calls w3 = w_calls w0 ++ made /\ (length made <= 7)%nat /\ list.last made = Some (unpair_call (w_server w0)))
      as (w3 & E3 & H1 & H2 & H3 & made3 & H4 & H5 & H6).
    { unfold mbind at 1, M_bind at 1. unfold mbind at 1, M_bind at 1. rewrite E3. cbn. exists made3.
      split_and!; try done. by right. }
    destruct Hr as [(-> & Hs & Hl & _)|(Hne & Hps & Hs & Hl & Hlast)].
    + destruct (unpair_spec w2) as (code & w3 & E3 & Hs3 & Ht3 & Hc3). cbn [Z.eqb GS_OK]. rewrite (bind_inr _ _ _ _ _ E3).
      eexists. split; [reflexivity|]. cbn. rewrite Hs3. cbn. rewrite Hs, Ht3, Hff, Hd. split_and!; try done.
      exists (made ++ [unpair_call (w_server w0)]). rewrite Hc3. cbn. rewrite Hs, Hc, <- app_assoc. split_and!; [done|rewrite length_app; cbn; lia|].
      by rewrite list.last_snoc.
    + destruct (Z.eqb_spec status GS_OK) as [|_]; [done|]. exists w2. rewrite Hp in Hs. split_and!; try done.
      exists made. split_and!; [done|lia|done].
Qed.

(** The connection of a cancelled pairing is gone, and no other is touched. *)
Definition forgotten (address : bytes) (s s' : session) : Prop :=
  m_server_data s' !! address = None /\
  (forall k, m_active_addresses s !! k = Some address -> m_active_addresses s' !! k = None /\ m_active_routes s' !! k = None) /\
  (forall k, m_active_addresses s !! k <> Some address ->
     m_active_addresses s' !! k = m_active_addresses s !! k /\ m_active_routes s' !! k = m_active_routes s !! k) /\
  (forall b, b <> address -> m_server_data s' !! b = m_server_data s !! b).

Lemma lookup_released (l : walk) (m : gmap bytes RemoteRouteLease) k : foldr (fun r m => delete r.1 m) m l !! k = if bool_decide (k ∈ l.*1) then None else m !! k.
Proof.
  induction l as [|r l IH]; [done|]. cbn [foldr fmap list_fmap]. destruct (decide (r.1 = k)) as [->|Hne].
  - rewrite lookup_delete_eq, bool_decide_true by (left). done.
  - rewrite lookup_delete_ne by done. rewrite IH. apply (f_equal (fun b : bool => if b then None else m !! k)), bool_decide_ext.
    rewrite elem_of_cons. naive_solver.
Qed.

Lemma release_spec order address s : order ≡ₚ map_to_list (m_active_routes s) ->
  forgotten address s (release_cancelled_pairing_connection order address s).
Proof.
  intros Ho. unfold release_cancelled_pairing_connection. set (released := List.filter _ order). set (s1 := with_data _ _).
  assert (forgotten address s s1) as H1; [|by case_bool_decide]. unfold forgotten, s1.
  cbn [with_data with_addresses with_routes m_server_data m_active_addresses m_active_routes].
  assert (forall k, k ∈ released.*1 <-> is_Some (m_active_routes s !! k) /\ m_active_addresses s !! k = Some address) as Hin.
  { intros k. rewrite list_elem_of_fmap. split.
    - intros ([k' l] & -> & Hr). apply list_elem_of_In, filter_In in Hr as [Hr Hon]. apply list_elem_of_In in Hr. rewrite Ho in Hr.
      apply elem_of_map_to_list in Hr. apply bool_decide_eq_true in Hon. cbn in *. eauto.
    - intros [[l Hl] Ha]. exists (k, l). split; [done|]. apply list_elem_of_In, filter_In. split; [|by apply bool_decide_eq_true].
      apply list_elem_of_In. rewrite Ho. by apply elem_of_map_to_list. }
  split_and!.
  - apply lookup_delete_eq.
  - intros k Hk. split; [apply map_lookup_filter_None; right; intros a Ha; rewrite Hk in Ha; injection Ha as <-; cbn; naive_solver|].
    rewrite lookup_released. case_bool_decide as E; [done|]. destruct (m_active_routes s !! k) eqn:El; [|done]. destruct E. apply Hin. eauto.
  - intros k Hk. split.
    + destruct (m_active_addresses s !! k) as [a|] eqn:Ea; [|apply map_lookup_filter_None; by left].
      apply map_lookup_filter_Some. split; [done|]. cbn. congruence.
    + rewrite lookup_released, bool_decide_false; [done|]. rewrite Hin. naive_solver.
  - intros b Hb. by rewrite lookup_delete_ne.
Qed.
End pairing.


(** ** Every call is answered *)

Definition job_id (j : job) : option nat :=
  match j with
  | Connecting id _ _ | Connected id _ _ _ _ _ | PairWork id _ _ | PairDone id _ _ _ _ | ListWork id _ | BoxartWork id _ _
  | StartWork id _ _ _ _ | QuitWork id _ | WakeWork id _ | WakePoll id _ _ | Answering id _ => Some id
  | Releasing _ => None
  end.
(** How many more steps a job can lead to, itself included. *)
Definition weight (j : job) : nat :=
  match j with
  | Connected _ _ _ _ _ _ | Answering _ _ | Releasing _ => 1
  | Connecting _ _ _ | PairDone _ _ _ _ _ | ListWork _ _ | BoxartWork _ _ _ | StartWork _ _ _ _ _ | QuitWork _ _ => 2
  | PairWork _ _ _ => 3
  | WakePoll _ _ attempt => WAKE_POLL_ATTEMPTS - attempt + 2
  | WakeWork _ _ => WAKE_POLL_ATTEMPTS + 3
  end.
Definition work (js : list job) : nat := foldr (fun j n => weight j + n)%nat 0%nat js.

(** What a step does to the calls: [who] is passed on to a new job or answered. *)
Definition advances (who : option nat) (bound : nat) (s s' : session) : Prop :=
  exists new ans, jobs s' = jobs s ++ new /\ answered s' = answered s ++ ans /\ ids s' = ids s /\
    omap job_id new ++ ans.*1 = option_list who /\ (work new < bound)%nat.

Lemma advances_answer id a n s : (0 < n)%nat -> advances (Some id) n s (with_answer id a s).
Proof. exists [], [(id, a)]. rewrite app_nil_r. done. Qed.
Lemma advances_spawn j n s : (weight j < n)%nat -> advances (job_id j) n s (spawn j s).
Proof. exists [j], []. rewrite app_nil_r. split_and!; [done|done|done| |cbn; lia]. cbn. by destruct (job_id j). Qed.
Lemma advances_from who n s0 s s' : jobs s = jobs s0 -> answered s = answered s0 -> ids s = ids s0 -> advances who n s s' -> advances who n s0 s'.
Proof. intros H1 H2 H3 (new & ans & E1 & E2 & E3 & E). exists new, ans. by rewrite E1, E2, E3, H1, H2, H3. Qed.

Lemma hold_shape k lease s : exists r calls, hold_route k lease s = with_routes r calls s.
Proof. unfold hold_route, move_assign. destruct (release _) as [old calls]. by eexists _, _. Qed.
Lemma active_shape k a lease s : jobs (make_active k a lease s) = jobs s /\ answered (make_active k a lease s) = answered s /\
  ids (make_active k a lease s) = ids s /\ m_server_data (make_active k a lease s) = m_server_data s /\
  m_active_addresses (make_active k a lease s) = <[k := a]> (m_active_addresses s).
Proof. unfold make_active. by destruct (hold_shape k lease (with_addresses (<[k := a]> (m_active_addresses s)) s)) as (r & calls & ->). Qed.
Lemma cache_shape a d s : jobs (cache_server_data a d s) = jobs s /\ answered (cache_server_data a d s) = answered s /\
  ids (cache_server_data a d s) = ids s /\ m_active_routes (cache_server_data a d s) = m_active_routes s /\
  m_server_data (cache_server_data a d s) = <[a := rebind_server_info d]> (m_server_data s).
Proof. unfold cache_server_data. by destruct (is_usable_mac _). Qed.

Section answers.
Context (env : environment) `{lib : MbedTLS} `{xml : Expat} (remote : remote_access).
Context (certificate : bool) (cert key : bytes) (sops play_audio : bool).

Lemma entry_shape {A} address (m : M A) s a s' : on_entry address m s = Some (a, s') ->
  jobs s' = jobs s /\ answered s' = answered s /\ ids s' = ids s /\ m_active_addresses s' = m_active_addresses s /\
  m_active_routes s' = m_active_routes s /\ exists d, m_server_data s' = <[address := d]> (m_server_data s).
Proof. unfold on_entry. destruct (m _) as [[h|x] w]; [done|]. intros [= <- <-]. split_and!; try done. by eexists. Qed.
Lemma entry_runs {A} address (m : M A) s : total m -> is_Some (on_entry address m s).
Proof.
  intros Hm. unfold on_entry. destruct (Hm (with_server (entry address s) (shared s))) as [a Ha].
  destruct (m _) as [r w]. cbn in Ha. subst r. eauto.
Qed.
Lemma quit_shape address s status s' : quit_copy env address s = Some (status, s') ->
  jobs s' = jobs s /\ answered s' = answered s /\ ids s' = ids s /\ m_active_addresses s' = m_active_addresses s /\
  m_active_routes s' = m_active_routes s /\ exists d, m_server_data s' = <[address := d]> (m_server_data s).
Proof. unfold quit_copy. destruct (gs_quit_app _ _) as [[h|x] w]; [done|]. intros [= <- <-]. split_and!; try done. by eexists. Qed.

Lemma run_job_advances order j s s' : run_job env remote certificate cert key sops play_audio order j s = Some s' ->
  advances (job_id j) (weight j) s s'.
Proof.
  intros E. destruct j as [id addresses k|id k a d error lease|id a pin|id a status error t|id a|id a app|id a app mask options|id a|id h|id h n|id r|ls];
    cbn [run_job job_id weight] in *.
  - unfold connect_work in E. destruct (connect_to_addresses_sync _ _ _ _ _ _) as [[r w] log].
    destruct r; [| |done]; injection E as <-; (eapply advances_from; [..|apply (advances_spawn (Connected id _ _ _ _ _)); cbn; lia]; done).
  - injection E as <-. unfold connected. destruct (bool_decide (a = [])).
    + eapply advances_from; [..|apply advances_answer; lia]; done.
    + destruct (cache_shape a d s) as (H1 & H2 & H3 & _). destruct (bool_decide (k = [])).
      * eapply advances_from; [..|apply advances_answer; lia]; cbn; done.
      * destruct (active_shape k a lease (cache_server_data a d s)) as (H4 & H5 & H6 & _).
        eapply advances_from; [..|apply advances_answer; lia]; congruence.
  - unfold pair_work in E. destruct (on_entry _ _ _) as [[[[status error] t] s1]|] eqn:E1; [|done]. injection E as <-.
    apply entry_shape in E1 as (H1 & H2 & H3 & _).
    eapply advances_from; [exact H1|exact H2|exact H3|apply (advances_spawn (PairDone id _ _ _ _)); cbn; lia].
  - injection E as <-. unfold pair_done. destruct (bool_decide _); [|apply advances_answer; lia].
    unfold release_cancelled_pairing_connection. destruct (bool_decide _).
    + eapply advances_from; [..|apply advances_answer; lia]; done.
    + eexists [Releasing _], [(id, _)]. split_and!; try done. cbn. lia.
  - unfold list_work in E. destruct (on_entry _ _ _) as [[[status apps] s1]|] eqn:E1; [|done]. injection E as <-.
    apply entry_shape in E1 as (H1 & H2 & H3 & _).
    eapply advances_from; [exact H1|exact H2|exact H3|apply (advances_spawn (Answering id _)); cbn; lia].
  - unfold boxart_work in E. destruct (on_entry _ _ _) as [[[status data] s1]|] eqn:E1; [|done]. injection E as <-.
    apply entry_shape in E1 as (H1 & H2 & H3 & _).
    eapply advances_from; [exact H1|exact H2|exact H3|apply (advances_spawn (Answering id _)); cbn; lia].
  - unfold start_work in E. destruct (on_entry _ _ _) as [[[status c] s1]|] eqn:E1; [|done]. cbn in E.
    apply entry_shape in E1 as (H1 & H2 & H3 & _). destruct (_ && _); injection E as <-;
      (eapply advances_from; [| | |apply (advances_spawn (Answering id _)); cbn; lia]; done).
  - unfold quit_work in E. destruct (quit_copy _ _ _) as [[status s1]|] eqn:E1; [|done]. injection E as <-.
    apply quit_shape in E1 as (H1 & H2 & H3 & _).
    eapply advances_from; [exact H1|exact H2|exact H3|apply (advances_spawn (Answering id _)); cbn; lia].
  - unfold wake_work, send_wake in E. destruct (ra_wake _ _ _); cbn in E; [done|..]; injection E as <-.
    + eapply advances_from; [| | |apply (advances_spawn (WakePoll id h 0)); cbn; lia]; done.
    + eapply advances_from; [| | |apply (advances_spawn (Answering id _)); cbn; lia]; done.
  - unfold wake_poll in E. apply bind_Some in E as ([refused s1] & Ew & E).
    assert (jobs s1 = jobs s /\ answered s1 = answered s /\ ids s1 = ids s) as (H1 & H2 & H3).
    { destruct (_ && _); [|by injection Ew as <- <-]. unfold send_wake in Ew. destruct (ra_wake _ _ _); [done|..]; by injection Ew as <- <-. }
    destruct (connect_to_addresses_sync _ _ _ _ _ _) as [[r w] log]. destruct r as [a d lease|error|]; [| |done]; injection E as <-.
    + destruct (active_shape (host_key h) a lease (cache_server_data a d (with_shared w log s1))) as (H4 & H5 & H6 & _).
      destruct (cache_shape a d (with_shared w log s1)) as (H7 & H8 & H9 & _). cbn [with_shared jobs answered ids] in H7, H8, H9.
      eapply advances_from; [| | |apply (advances_spawn (Answering id _)); cbn; lia]; congruence.
    + assert (forall j', job_id j' = Some id -> (weight j' < WAKE_POLL_ATTEMPTS - n + 2)%nat -> advances (Some id) (WAKE_POLL_ATTEMPTS - n + 2) s (spawn j' (with_shared w log s1))) as Hj.
      { intros j' <- Hw. eapply advances_from; [| | |by apply advances_spawn]; done. }
      destruct (Nat.ltb_spec (n + 1) WAKE_POLL_ATTEMPTS); apply Hj; try done; cbn [weight]; lia.
  - injection E as <-. apply advances_answer. lia.
  - injection E as <-. exists [], []. rewrite !app_nil_r. split_and!; try done. cbn. lia.
Qed.

(** Only a pairing, or a Wake-on-LAN request that throws, can end the process. *)
Definition may_end (j : job) (s : session) : Prop :=
  match j with
  | PairWork _ _ _ => True
  | WakeWork _ h => ra_wake remote (wakes s) h = WakeThrew
  | WakePoll _ h attempt => (0 < attempt)%nat /\ (attempt mod kWakeResendEveryPoll = 0)%nat /\ ra_wake remote (wakes s) h = WakeThrew
  | _ => False
  end.
Lemma run_job_runs order j s : run_job env remote certificate cert key sops play_audio order j s = None -> may_end j s.
Proof.
  assert (forall addresses w log, exists r w' log', connect_to_addresses_sync env remote certificate addresses w log = (r, w', log') /\ r <> Crashed) as Hc.
  { intros addresses w log. unfold connect_to_addresses_sync. destruct (no_address_given addresses); [by eexists _, _, _|].
    destruct (connect_loop_spec env remote certificate addresses (bs "Address is Empty") w log) as (r & w' & log' & E & Hr & _).
    exists r, w', log'. split; [done|]. by intros ->. }
  intros E. destruct j as [id addresses k|id k a d error lease|id a pin|id a status error t|id a|id a app|id a app mask options|id a|id h|id h n|id r|ls];
    cbn [run_job may_end] in *; try done.
  - unfold connect_work in E. destruct (Hc addresses (shared s) (routes s)) as (r & w & log & Er & Hr). rewrite Er in E. by destruct r.
  - unfold list_work in E. destruct (entry_runs a (gs_applist env) s (total_applist env)) as [[[status apps] s1] E1]. by rewrite E1 in E.
  - unfold boxart_work in E. destruct (entry_runs a (gs_app_boxart env app) s (total_boxart env app)) as [[[status d] s1] E1]. by rewrite E1 in E.
  - unfold start_work in E.
    destruct (entry_runs a _ s (total_start env (m_config s) app sops play_audio mask (Some options))) as [[[status c] s1] E1].
    rewrite E1 in E. cbn in E. by destruct (_ && _).
  - unfold quit_work, quit_copy in E. destruct (total_quit env (with_server (entry a s) (shared s))) as [status Es].
    destruct (gs_quit_app _ _) as [r w]. cbn in Es. by subst r.
  - unfold wake_work, send_wake in E. by destruct (ra_wake _ _ _).
  - unfold wake_poll in E. destruct (if _ : bool then _ else _) as [[refused s1]|] eqn:Ew; cbn [mbind option_bind] in E.
    + match type of E with context [connect_to_addresses_sync _ _ _ ?l ?w ?g] => destruct (Hc l w g) as (r & w' & log & Er & Hr) end.
      rewrite Er in E. by destruct r.
    + destruct (Nat.ltb_spec 0 n); cbn [andb] in Ew; [|done]. destruct (Nat.eqb_spec (n mod kWakeResendEveryPoll) 0); [|done].
      unfold send_wake in Ew. by destruct (ra_wake _ _ _).
Qed.

Definition open_ids (s : session) : list nat := omap job_id (jobs s).
(** Each call so far is waiting for a job, or answered, once. *)
Definition accounted (s : session) : Prop := open_ids s ++ (answered s).*1 ≡ₚ seq 0 (ids s).

Lemma call_accounted s s' : call env s s' -> accounted s -> accounted s'.
Proof.
  assert (forall s id a, id = ids s -> accounted s -> accounted (with_answer id a (with_id s))) as Ha.
  { intros s0 id a -> H. unfold accounted, open_ids in *. cbn -[seq]. rewrite fmap_app, seq_S. cbn. rewrite app_assoc, H. done. }
  assert (forall s j, job_id j = Some (ids s) -> accounted s -> accounted (spawn j (with_id s))) as Hj.
  { intros s0 j Hj H. unfold accounted, open_ids in *. cbn -[seq]. rewrite omap_app, seq_S. cbn. rewrite Hj.
    rewrite <- app_assoc, (Permutation_app_comm [_]), app_assoc, H. done. }
  assert (forall address missing worker s, (forall id, job_id (worker id) = Some id) -> accounted s -> accounted (with_cached_server_data address missing worker s)) as Hc.
  { intros address missing worker s0 Hw H. unfold with_cached_server_data. cbn. destruct (m_server_data s0 !! address); [by apply Hj|by apply Ha]. }
  destruct 1; intros Hs.
  - unfold call_connect. cbn. destruct (no_address_given _); [by apply Ha|by apply Hj].
  - by apply Hc.
  - by apply Hc.
  - by apply Hc.
  - by apply Hc.
  - by apply Hc.
  - by apply Hj.
  - unfold quitNow in H. destruct (m_server_data s !! address); [|by injection H as <- <-].
    destruct (quit_copy env address s) as [[status s1]|] eqn:E; [|done]. injection H as <- <-.
    apply quit_shape in E as (H1 & H2 & H3 & _). unfold accounted, open_ids. by rewrite H1, H2, H3.
  - done.
Qed.

(** A job's step. *)
Definition job_step (s s' : session) : Prop := exists j before after order, jobs s = before ++ j :: after /\
  order ≡ₚ map_to_list (m_active_routes s) /\
  run_job env remote certificate cert key sops play_audio order j (with_jobs (before ++ after) s) = Some s'.

Lemma work_app a b : work (a ++ b) = (work a + work b)%nat.
Proof. induction a as [|j a IH]; [done|]. cbn [app work foldr]. fold (work (a ++ b)) (work a). lia. Qed.

Lemma job_step_accounted s s' : job_step s s' -> (accounted s -> accounted s') /\ (work (jobs s') < work (jobs s))%nat.
Proof.
  intros (j & before & after & order & Hj & _ & E). apply run_job_advances in E as (new & ans & E1 & E2 & E3 & E4 & E5).
  cbn [with_jobs jobs answered ids] in E1, E2, E3. split.
  - unfold accounted, open_ids. intros H. rewrite E1, E2, E3. rewrite Hj, omap_app in H. cbn [omap list_omap] in H.
    rewrite !omap_app, fmap_app. rewrite <- H. clear -E4. destruct (job_id j) as [i|]; cbn [option_list] in E4.
    + destruct (omap job_id new) as [|x l]; cbn [app] in E4.
      * rewrite E4, app_nil_r, <- !app_assoc. cbn [app]. solve_Permutation.
      * injection E4 as -> E4. apply app_eq_nil in E4 as [-> ->]. solve_Permutation.
    + apply app_eq_nil in E4 as [-> ->]. by rewrite !app_nil_r.
  - rewrite E1, Hj, !work_app. cbn [work foldr]. fold (work after). lia.
Qed.

Lemma reachable_accounted s : reachable env remote certificate cert key sops play_audio s -> accounted s.
Proof.
  intros (w & c & H). assert (accounted (initial w c)) as H0 by (unfold accounted; reflexivity). revert H0. generalize (initial w c) H. clear H. intros s0.
  induction 1 as [|s1 s2 s3 Hs _ IH]; [done|]. intros H1. apply IH. destruct Hs as [s s' Hs|j before after order s s' Hj Ho E].
  - by eapply call_accounted.
  - apply (job_step_accounted s s'); [|done]. by exists j, before, after, order.
Qed.
End answers.

(** C14: in every reachable state each call is either answered, once, or waits for
    one job; every job can run - only a pairing can end the process instead, or a
    Wake-on-LAN request that throws - and
    running one brings the end nearer by at least a step: whatever the order,
    after at most [work] steps no job is left and every call has its answer. *)
Theorem calls_answered (env : environment) (lib : MbedTLS) (xml : Expat) (remote : remote_access) (certificate : bool) (cert key : bytes)
    (sops play_audio : bool) (s : session) :
  reachable env remote certificate cert key sops play_audio s ->
  accounted s /\
  (forall before j after order, jobs s = before ++ j :: after ->
     run_job env remote certificate cert key sops play_audio order j (with_jobs (before ++ after) s) = None ->
     may_end remote j s) /\
  (forall n s', nsteps (job_step env remote certificate cert key sops play_audio) n s s' ->
     (n + work (jobs s') <= work (jobs s))%nat /\ (jobs s' = [] -> (answered s').*1 ≡ₚ seq 0 (ids s'))).
Proof.
  intros Hr. pose proof (reachable_accounted env remote certificate cert key sops play_audio s Hr) as Ha. split; [done|]. split.
  { intros before j after order _ E. by apply run_job_runs in E. }
  assert (forall n s0 s', nsteps (job_step env remote certificate cert key sops play_audio) n s0 s' -> accounted s0 ->
    (n + work (jobs s') <= work (jobs s0))%nat /\ accounted s') as Hn.
  { induction 1 as [|n s1 s2 s3 H1 _ IH]; intros H0; [split; [lia|done]|]. apply job_step_accounted in H1 as [H1 H2].
    destruct (IH (H1 H0)) as [H3 H4]. split; [lia|done]. }
  intros n s' H. destruct (Hn n s s' H Ha) as [H1 H2]. split; [done|]. intros Hj. unfold accounted, open_ids in H2. by rewrite Hj in H2.
Qed.

(** ** Connections *)

(** Every active address has its record, and every route belongs to an active
    address. *)
Definition consistent (s : session) : Prop :=
  (forall k a, m_active_addresses s !! k = Some a -> is_Some (m_server_data s !! a)) /\
  (forall k, is_Some (m_active_routes s !! k) -> is_Some (m_active_addresses s !! k)).

Lemma consistent_grows s s' : consistent s -> m_active_addresses s' = m_active_addresses s -> m_active_routes s' = m_active_routes s ->
  (forall a, is_Some (m_server_data s !! a) -> is_Some (m_server_data s' !! a)) -> consistent s'.
Proof. intros [H1 H2] E1 E2 Hd. split; rewrite ?E1, ?E2; eauto. Qed.

Lemma insert_some {A} (m : gmap bytes A) k x b : is_Some (m !! b) -> is_Some (<[k := x]> m !! b).
Proof. intros H. destruct (decide (k = b)) as [->|]; [rewrite lookup_insert_eq; eauto|by rewrite lookup_insert_ne]. Qed.

Lemma consistent_store s s' address d : consistent s -> m_active_addresses s' = m_active_addresses s -> m_active_routes s' = m_active_routes s ->
  m_server_data s' = <[address := d]> (m_server_data s) -> consistent s'.
Proof. intros Hs E1 E2 E3. apply (consistent_grows s); [done|done|done|]. intros a. rewrite E3. apply insert_some. Qed.

Lemma consistent_address k a s : consistent s -> is_Some (m_server_data s !! a) -> consistent (with_addresses (<[k := a]> (m_active_addresses s)) s).
Proof.
  intros [H1 H2] Ha. split; cbn [with_addresses m_active_addresses m_server_data m_active_routes].
  - intros k' a'. destruct (decide (k = k')) as [->|]; [rewrite lookup_insert_eq; by intros [= <-]|rewrite lookup_insert_ne by done; apply H1].
  - intros k' Hk. by apply insert_some, H2.
Qed.
Lemma consistent_cache a d s : consistent s -> consistent (cache_server_data a d s) /\ is_Some (m_server_data (cache_server_data a d s) !! a).
Proof.
  intros Hs. assert (consistent (store a (rebind_server_info d) s)) as H1 by (by eapply consistent_store).
  assert (is_Some (m_server_data (store a (rebind_server_info d) s) !! a)) as H2 by (cbn; rewrite lookup_insert_eq; eauto).
  unfold cache_server_data. destruct (is_usable_mac _); [|done]. split; [by apply consistent_address|done].
Qed.
Lemma consistent_active k a lease s : consistent s -> is_Some (m_server_data s !! a) -> consistent (make_active k a lease s).
Proof.
  intros Hs Ha. destruct (consistent_address k a s Hs Ha) as [H1 H2]. unfold make_active, hold_route, move_assign.
  destruct (release _) as [old calls]. split; cbn [with_routes m_active_addresses m_server_data m_active_routes move_lease fst]; [apply H1|].
  intros k'. destruct (decide (k = k')) as [->|].
  - intros _. cbn. rewrite lookup_insert_eq. eauto.
  - rewrite lookup_insert_ne by done. apply H2.
Qed.
Lemma consistent_forgotten address s s' : consistent s -> forgotten address s s' -> consistent s'.
Proof.
  intros [H1 H2] (_ & Hg & Hk & Hb). split.
  - intros k a Ha. destruct (decide (m_active_addresses s !! k = Some address)) as [E|E].
    + destruct (Hg k E) as [E2 _]. congruence.
    + destruct (Hk k E) as [E2 _]. rewrite E2 in Ha. rewrite Hb by congruence. by eapply H1.
  - intros k Hr. destruct (decide (m_active_addresses s !! k = Some address)) as [E|E].
    + destruct (Hg k E) as [_ E2]. rewrite E2 in Hr. by destruct Hr.
    + destruct (Hk k E) as [E2 E3]. rewrite E2. rewrite E3 in Hr. by apply H2.
Qed.

Section connections.
Context (env : environment) `{lib : MbedTLS} `{xml : Expat} (remote : remote_access).
Context (certificate : bool) (cert key : bytes) (sops play_audio : bool).

Lemma consistent_entry {A} address (m : M A) s a s' : on_entry address m s = Some (a, s') -> consistent s -> consistent s'.
Proof. intros (_ & _ & _ & E1 & E2 & d & E3)%entry_shape Hs. by eapply consistent_store. Qed.

Lemma run_job_consistent order j s s' : order ≡ₚ map_to_list (m_active_routes s) -> consistent s ->
  run_job env remote certificate cert key sops play_audio order j s = Some s' -> consistent s'.
Proof.
  intros Ho Hs E. destruct j as [id addresses k|id k a d error lease|id a pin|id a status error t|id a|id a app|id a app mask options|id a|id h|id h n|id r|ls];
    cbn [run_job] in E.
  - unfold connect_work in E. destruct (connect_to_addresses_sync _ _ _ _ _ _) as [[r w] log]. destruct r; [| |done]; by injection E as <-.
  - injection E as <-. unfold connected. destruct (bool_decide _); [done|]. destruct (consistent_cache a d s Hs) as [H1 H2].
    destruct (bool_decide _); [done|]. exact (consistent_active k a lease _ H1 H2).
  - unfold pair_work in E. destruct (on_entry _ _ _) as [[[[status error] t] s1]|] eqn:E1; [|done]. injection E as <-.
    exact (consistent_entry _ _ _ _ _ E1 Hs).
  - injection E as <-. unfold pair_done. destruct (bool_decide _); [|done].
    exact (consistent_forgotten a s _ Hs (release_spec order a s Ho)).
  - unfold list_work in E. destruct (on_entry _ _ _) as [[[status apps] s1]|] eqn:E1; [|done]. injection E as <-.
    exact (consistent_entry _ _ _ _ _ E1 Hs).
  - unfold boxart_work in E. destruct (on_entry _ _ _) as [[[status data] s1]|] eqn:E1; [|done]. injection E as <-.
    exact (consistent_entry _ _ _ _ _ E1 Hs).
  - unfold start_work in E. destruct (on_entry _ _ _) as [[[status c] s1]|] eqn:E1; [|done]. cbn in E.
    pose proof (consistent_entry _ _ _ _ _ E1 Hs) as H1. destruct (_ && _); by injection E as <-.
  - unfold quit_work in E. destruct (quit_copy _ _ _) as [[status s1]|] eqn:E1; [|done]. injection E as <-.
    apply quit_shape in E1 as (_ & _ & _ & H1 & H2 & d & H3). by eapply (consistent_store s s1).
  - unfold wake_work, send_wake in E. destruct (ra_wake _ _ _); cbn in E; [done|..]; by injection E as <-.
  - unfold wake_poll in E. apply bind_Some in E as ([refused s1] & Ew & E).
    assert (consistent s1) as H1.
    { destruct (_ && _); [|by injection Ew as <- <-]. unfold send_wake in Ew. destruct (ra_wake _ _ _); [done|..]; by injection Ew as <- <-. }
    destruct (connect_to_addresses_sync _ _ _ _ _ _) as [[r w] log]. destruct r as [a d lease|error|]; [| |done]; injection E as <-; [|done].
    destruct (consistent_cache a d (with_shared w log s1) H1) as [H2 H3]. exact (consistent_active _ a lease _ H2 H3).
  - by injection E as <-.
  - by injection E as <-.
Qed.

Lemma call_consistent s s' : call env s s' -> consistent s -> consistent s'.
Proof.
  assert (forall address missing worker s, consistent s -> consistent (with_cached_server_data address missing worker s)) as Hc.
  { intros address missing worker s0 Hs. unfold with_cached_server_data. cbn. by destruct (m_server_data s0 !! address). }
  destruct 1; intros Hs; try by apply Hc.
  - unfold call_connect. cbn. by destruct (no_address_given _).
  - done.
  - unfold quitNow in H. destruct (m_server_data s !! address); [|by injection H as <- <-].
    destruct (quit_copy env address s) as [[status s1]|] eqn:E; [|done]. injection H as <- <-.
    apply quit_shape in E as (_ & _ & _ & H1 & H2 & d & H3). by eapply (consistent_store s s1).
  - by eapply consistent_store.
Qed.
End connections.

(** C5: in every interleaving of the interface's calls, their workers and closures,
    the client's connections agree with each other, and its tunnel routes are
    accounted for: each one the manager granted is held in exactly one place - by
    a connection, by a closure on its way to one, or by a job that gives it back
    - or has been given back, once. *)
Theorem client_invariant (env : environment) (lib : MbedTLS) (xml : Expat) (remote : remote_access) (certificate : bool) (cert key : bytes)
    (sops play_audio : bool) (s : session) :
  reachable env remote certificate cert key sops play_audio s ->
  consistent s /\ Ownership.run (routes s) ∅ = Some (held s).
Proof.
  intros Hr. split; [|by eapply routes_held]. destruct Hr as (w & c & H).
  assert (consistent (initial w c)) as H0 by (split; [intros k a|intros k [x Hx]]; cbn in *; by rewrite lookup_empty in *).
  revert H0. generalize (initial w c) H. clear H. intros s0. induction 1 as [|s1 s2 s3 Hs _ IH]; [done|]. intros H1. apply IH.
  destruct Hs as [s s' Hs|j before after order s s' Hj Ho E]; [by eapply call_consistent|].
  exact (run_job_consistent env remote certificate cert key sops play_audio order j (with_jobs (before ++ after) s) s' Ho H1 E).
Qed.

(** ** A console to try *)

Section trying.
Context (env : environment) `{lib : MbedTLS} `{xml : Expat} (remote : remote_access).
Abbreviation step := (step env remote true (bs "cert") (bs "key") false false).
Abbreviation reachable := (reachable env remote true (bs "cert") (bs "key") false false).

(** Runs the [i]-th job. *)
Definition run_at (i : nat) (s : session) : option session :=
  j ← jobs s !! i;
  run_job env remote true (bs "cert") (bs "key") false false (map_to_list (m_active_routes s)) j (with_jobs (take i (jobs s) ++ drop (S i) (jobs s)) s).
Fixpoint run_all (l : list nat) (s : session) : option session :=
  match l with [] => Some s | i :: l => s ← run_at i s; run_all l s end.

Lemma run_at_step i s s' : run_at i s = Some s' -> step s s'.
Proof.
  unfold run_at. destruct (jobs s !! i) as [j|] eqn:Ej; [|done]. cbn [mbind option_bind]. intros E.
  apply (StepJob _ _ _ _ _ _ _ j (take i (jobs s)) (drop (S i) (jobs s)) (map_to_list (m_active_routes s))); [|done|done].
  symmetry. by apply take_drop_middle.
Qed.
Lemma run_all_reachable l : forall s s', reachable s -> run_all l s = Some s' -> reachable s'.
Proof.
  induction l as [|i l IH]; intros s s' Hr; cbn [run_all]; [by intros [= <-]|]. destruct (run_at i s) as [s1|] eqn:E; [|done]. cbn [mbind option_bind].
  apply IH. destruct Hr as (w & c & H). exists w, c. eapply rtc_r; [exact H|by apply run_at_step in E].
Qed.
Lemma call_reachable s s' : reachable s -> call env s s' -> reachable s'.
Proof. intros (w & c & H) Hc. exists w, c. eapply rtc_r; [exact H|by apply StepCall]. Qed.
Lemma initial_reachable w c : reachable (initial w c).
Proof. by exists w, c. Qed.
End trying.

(** A host that gives its server information to the first requests and answers
    the later ones with [rest]; a tunnel that knows one peer. *)
Definition server_doc (mac : string) : node :=
  reply_doc [(bs "currentgame", bs "0"); (bs "PairStatus", bs "0"); (bs "appversion", bs "7.1.431.-1"); (bs "state", bs "SUNSHINE_SERVER_FREE");
    (bs "ServerCodecModeSupport", bs "259"); (bs "HttpsPort", bs "47984"); (bs "mac", bs mac)].
Definition ex_mac : string := "00:11:22:33:44:55".
Definition talk (n : nat) (rest : list node) : Expat := toy_expat (replicate n (server_doc ex_mac) ++ rest).

Definition ex_tunnel : remote_access :=
  {| ra_provider := fun _ => bs "ts";
     ra_resolve := fun _ => Some (fun host => if bool_decide (host = bs "100.64.0.7")
       then Some {| rt_peerId := bs "peer"; rt_peerAddress := bs "100.64.0.7"; rt_targetAddress := []; rt_connectAddress := []; rt_mode := Proxy |}
       else None);
     ra_activate := fun _ _ _ => true; ra_reason := fun _ _ => []; ra_prepare := fun _ _ _ _ => false; ra_wake := fun _ _ => WakeSent |}.
Definition ex_peer : bytes := bs "100.64.0.7".
Definition ex_route : route_key := (bs "ts", bs "peer", bs "100.64.0.7").

#[local] Existing Instance toy_crypto.
(** Whoever is asked to pair gives up at once. *)
Definition ex_env : environment := toy_env (fun _ => true).
Definition ex_run (x : Expat) (l : list nat) (s : session) : option session := @run_all ex_env _ x ex_tunnel l s.
Definition ex_start : session := initial (toy_world toy_server) ex_stream.
Definition or_start (o : option session) : session := default ex_start o.
Definition ran (o : option session) : bool := bool_decide (is_Some o).
Lemma ran_some o : ran o = true -> is_Some o.
Proof. apply bool_decide_eq_true. Qed.
Lemma ran_to x l s s' : s' = or_start (ex_run x l s) -> ran (ex_run x l s) = true ->
  @reachable ex_env _ x ex_tunnel true (bs "cert") (bs "key") false false s ->
  @reachable ex_env _ x ex_tunnel true (bs "cert") (bs "key") false false s'.
Proof.
  intros -> [s1 E]%ran_some Hr. rewrite E. by apply (run_all_reachable ex_env ex_tunnel l s s1 Hr).
Qed.

(** Connected to the peer through the tunnel; then pairing, cancelled. *)
Definition ex_host : Expat := talk 3 [reply_doc [reply_no]].
Definition ex_connected : session := or_start (ex_run ex_host [0; 0]%nat (connect_address ex_peer ex_start)).
Definition ex_cancelled : session := or_start (ex_run ex_host [0; 0]%nat (call_pair ex_peer ex_pin ex_connected)).

Lemma ex_connected_reachable : @reachable ex_env _ ex_host ex_tunnel true (bs "cert") (bs "key") false false ex_connected.
Proof.
  eapply ran_to; [reflexivity|vm_compute; reflexivity|]. eapply call_reachable; [apply initial_reachable|apply CallConnect].
Qed.
Lemma ex_cancelled_reachable : @reachable ex_env _ ex_host ex_tunnel true (bs "cert") (bs "key") false false ex_cancelled.
Proof.
  eapply ran_to; [reflexivity|vm_compute; reflexivity|]. eapply call_reachable; [apply ex_connected_reachable|apply CallPair].
Qed.

(** The route is on its way back: held by a job, and by no connection. *)
Lemma client_invariant_witness :
  (consistent ex_cancelled /\ run (routes ex_cancelled) ∅ = Some (held ex_cancelled)) /\
  routes ex_cancelled = [Acquired ex_route] /\ own_jobs (jobs ex_cancelled) = {[+ ex_route +]} /\
  map_to_list (m_active_routes ex_cancelled) = [].
Proof.
  split; [exact (client_invariant ex_env _ ex_host ex_tunnel true (bs "cert") (bs "key") false false ex_cancelled ex_cancelled_reachable)|].
  split_and!; [vm_compute; reflexivity|apply (bool_decide_unpack _); vm_compute; exact I|vm_compute; reflexivity].
Defined.

Lemma calls_answered_witness :
  accounted ex_cancelled /\ ids ex_cancelled = 2%nat /\
  (answered ex_cancelled).*1 = [0; 1]%nat /\ (answered ex_cancelled).*2 !! 1%nat = Some (Failure (bs "Pairing cancelled")).
Proof.
  split; [exact (proj1 (calls_answered ex_env _ ex_host ex_tunnel true (bs "cert") (bs "key") false false ex_cancelled ex_cancelled_reachable))|].
  split_and!; vm_compute; reflexivity.
Defined.


(** ** What the calls do at the edges *)

(** Asking for the record of an unknown address makes one: the calls that want a
    connection first no longer refuse, and dial the text of a null pointer. *)
Lemma blank_record_dialled : let a := bs "10.0.0.9" in
  answered (call_applist a ex_start) = [(0%nat, Failure (bs "Firstly call connect() & pair()..."))] /\
  hc_url <$> w_calls (shared (or_start (ex_run ex_host [0]%nat (call_applist a (server_data a ex_start).2)))) =
    [bs "https://(null):0/applist?uniqueid=0123456789ABCDEF"].
Proof. vm_compute. done. Qed.

Definition ex_options : APOLLO_LAUNCH_OPTIONS :=
  {| ap_virtualDisplay := false; ap_appUuid := []; ap_width := 0; ap_height := 0; ap_refreshRate := 0; ap_scaleFactor := 0 |}.
Definition launch_host : Expat := talk 3 [reply_doc [(bs "gamesession", bs "1"); (bs "sessionUrl0", bs "rtsp://x")]].
(** When the tunnel cannot carry the stream the start fails after the host has
    launched the application, and the host is not told. *)
Lemma unroutable_start_stays : let s := or_start (ex_run launch_host [0; 0]%nat (call_start ex_peer ex_stream 42 1 ex_options ex_connected)) in
  list.last (answered s) = Some (1%nat, Failure (bs "Remote access UDP relay could not start")) /\
  (starts_with (bs "https://127.0.0.1:47984/launch?") ∘ hc_url) <$> list.last (w_calls (shared s)) = Some true /\
  sd_currentGame (entry ex_peer s) = 42.
Proof. vm_compute. done. Qed.

Definition ex_home : bytes := bs "10.0.0.2".
Definition ex_away : Host :=
  {| h_address := []; h_remoteAddress := ex_peer; h_hostname := bs "pc"; h_mac := bs ex_mac; h_favorites := []; h_endpoints := [] |}.
Definition ex_both : Expat := talk 6 [reply_doc [reply_no]].
Definition ex_away_connected : session := or_start (ex_run ex_both [0; 0]%nat (connect_host ex_away ex_start)).
Definition ex_twice : session := or_start (ex_run ex_both [0; 0]%nat (connect_address ex_home ex_away_connected)).
(** One host reached at two addresses: the second connection takes over the key
    the route of the first is under, and cancelling a pairing at the second gives
    that route back while the first one's record still leads through it. *)
Lemma cancel_takes_other_route :
  let s := or_start (ex_run ex_both [0; 0; 0]%nat (call_pair ex_home ex_pin ex_twice)) in
  routes ex_twice = [Acquired ex_route] /\ active_address ex_away ex_twice = ex_home /\
  routes s = [Acquired ex_route; Released ex_route] /\ is_proxied_session (entry ex_peer s) = true.
Proof. vm_compute. done. Qed.

Definition refusing (message : string) : node := Elem (bs "root") [(bs "status_code", bs "503"); (bs "status_message", bs message)] [].
(** A failure's text is read when the closure runs: by then it can be another call's. *)
Lemma failures_share_text :
  let x := toy_expat [refusing "first"; refusing "second"] in
  let s := call_applist ex_home (call_applist ex_home (server_data ex_home ex_start).2) in
  answered (or_start (ex_run x [0; 0; 0; 0]%nat s)) = [(0%nat, Failure (bs "second")); (1%nat, Failure (bs "second"))] /\
  answered (or_start (ex_run x [0; 1; 0; 0]%nat s)) = [(0%nat, Failure (bs "first")); (1%nat, Failure (bs "second"))].
Proof. vm_compute. done. Qed.
